(* ===== verification/_CoqProject ===== *)
-Q . S2P
Prelude.v
ChunkedRangeVector.v
IndexSet.v
IndexSetTheory.v
IndexSetMerge.v
IndexSetSpec.v
RowMap.v
IndexSetProps.v
ChangeBuilder.v
ChangeCalc.v
ChangeTheory.v
ChangeMerge.v
ChangeFinal.v
ChangeRefinement.v
ChangeLcs.v
ChangeDiff.v
TableRows.v
ChangeTrack.v
ChangeTrackOps.v
ChangeTrackRun.v
ChangeProps.v
Property.v
Schema.v
SchemaTheory.v
SchemaCompare.v
SchemaApply.v
SchemaValid.v
SchemaProps.v
SchemaStructure.v
Group.v
GroupMemory.v
ObjectStore.v
ObjectStoreTheory.v
ObjectStoreRun.v
ObjectStoreRead.v
ObjectStoreMigrate.v
ObjectStoreInitial.v
ObjectStoreProps.v
SyncProgress.v
SyncProgressTheory.v
SyncSession.v
SyncSessionTheory.v
SyncSessionCalls.v
SyncSessionProgress.v
SyncSessionProps.v
ConnectionChange.v
ConnectionChangeTheory.v
DeepChange.v
DeepChangeTables.v
DeepChangeCheck.v
DeepChangeProps.v
CollectionNotifier.v
CollectionNotifierChanges.v
CollectionNotifierProps.v
SafeInt.v
LogData.v
TransactLog.v
Transaction.v
TransactLogTheory.v
TransactLogEnd.v
TransactLogProps.v
LogEncoder.v
LogParser.v
LogEncoderTheory.v
LogReading.v
LogRoundtrip.v
LogReverser.v
LogReverserTheory.v
Rollback.v
LogCodeProps.v
KVOAdapter.v
KVOAdapterTheory.v
KVOAdapterProps.v
TransactLogSchema.v
CircularBuffer.v
CircularBufferTheory.v
CircularBufferProps.v
PackedArray.v
StringData.v
Utf8.v
