(* ===== verification/Prelude.v ===== *)
(** * Verification of the object store of Realm

    The application (CheckExchangeRate) links the database Realm; the C++ in
    the repository is Realm's object store, under
    Pods/Realm/Realm/ObjectStore/src with headers under Pods/Realm/include.
    This library models the parts of it with logic of their own and proves
    what makes them correct. File names below are relative to those two
    directories.

    ** Components

    - [ChunkedRangeVector], [IndexSet] (index_set.hpp, index_set.cpp): sets of
      row numbers as ranges in chunks. An iterator is its pair of positions; an
      operation is a function on the vector of chunks which is [None] where the
      code asserts, dereferences an end iterator or inserts out of range.
      [IndexSetTheory] and [IndexSetMerge] prove every operation against sets
      of indices; [IndexSetSpec] states what is promised as the class
      [IndexSetOps] with the laws [IndexSetLaws], with the chunked sets as
      instance; [IndexSetProps] holds the properties.
    - [ChangeBuilder], [ChangeCalc] (impl/collection_change_builder.cpp and its
      header): the change set of a collection, written against [IndexSetOps].
      [RowMap], [ChangeTheory], [ChangeMerge], [ChangeFinal] and
      [ChangeRefinement] show that a builder describes where every old row is
      now; [ChangeLcs] and [ChangeDiff] that [calculate] finds a change set
      that turns the old rows into the new ones; [ChangeProps] holds the
      properties.
    - [Property], [Schema] (property.hpp, object_schema.hpp, schema.hpp and their .cpp files): object
      schemas, their validation and comparison. [SchemaTheory],
      [SchemaCompare], [SchemaApply], [SchemaValid], [SchemaStructure] prove
      them against declarative notions; [SchemaProps] holds the properties.
    - [Group]: the database core as the object store uses it. The core is a
      library the repository links; its operations are the class [GroupOps],
      its documented behaviour the laws [GroupLaws], and [GroupMemory] is an
      implementation in memory that satisfies them.
    - [ObjectStore] (object_store.cpp, object_schema.cpp): the schema of a
      file, its metadata, verification of schema changes, the appliers that
      change tables. A call is a function from a file to a file or an error (a
      [StoreError] is the exception thrown). [ObjectStoreTheory] to
      [ObjectStoreInitial] prove the appliers on any file that satisfies
      [GroupLaws]; [ObjectStoreProps] holds the properties.
    - [SyncProgress] (sync/sync_session.cpp, class SyncProgressNotifier):
      progress notifiers. [SyncProgressTheory] states what one notifier is to
      be told ([reports]) and proves that it is told that.
    - [SyncSession] (sync/sync_session.cpp, sync/sync_session.hpp,
      sync/sync_config.hpp): the state machine of a session. Calls are
      functions in the state monad [M] over a [World]: the session, its mutex,
      the waits pending at the library, the progress notifiers, and the effects
      outside in order. [SyncSessionTheory] and [SyncSessionCalls] prove the
      invariant for every call, [SyncSessionProgress] relates the calls to the
      progress notifiers, [SyncSessionProps] holds the properties.
    - [ConnectionChange] (class ConnectionChangeNotifier of
      sync/sync_session.cpp): callbacks that are added and removed while they
      are called. [ConnectionChangeTheory] proves that a round calls those
      it should, and holds the properties.
    - [DeepChange] (class DeepChangeChecker of impl/collection_notifier.cpp):
      whether a row, or a row it links to, was modified. The tables of the core
      are the class [LinkTables] with the laws [LinkTablesLaws].
      [DeepChangeTables] proves the search for related tables,
      [DeepChangeCheck] the recursive check,
      [DeepChangeProps] the checker a notifier makes.
    - [CollectionNotifier] (impl/collection_notifier.cpp): the callbacks of a
      collection, the changes accumulated for each and their delivery.
      [CollectionNotifierChanges] proves a round of calls by relating it to the
      rounds of [ConnectionChangeTheory] and composes change sets, [CollectionNotifierProps] holds the properties.

    - [TransactLog] (impl/transact_log_handler.cpp): the handlers of a
      transaction log, from its instructions to change sets of tables and lists.
      [TableRows] and [ChangeTrack] to [ChangeTrackRun] say what a builder
      records of an unordered table; [Transaction] is the meaning of a log, and
      [TransactLogTheory] to [TransactLogEnd] prove that the handlers follow it,
      [TransactLogSchema] that the vectors, lists and table numbers they keep
      follow tables that are added and moved; [TransactLogProps] holds the
      properties.
    - [KVOAdapter] (impl/transact_log_handler.cpp, binding_context.hpp): what
      the application is told about the rows it observes. [KVOAdapterTheory]
      proves that the new position, the columns and the elements of lists it
      is told are those of the meaning of the log; [KVOAdapterProps] holds the
      properties, among them one about a transaction that is parsed from bytes.
    - [SafeInt] (core/realm/util/safe_int_ops.hpp, type_traits.hpp): checked
      arithmetic on integers of two types. Expressions go through the
      conversions of C++; [None] is undefined behaviour.
    - [LogData], [LogEncoder], [LogParser], [LogReverser]
      (core/realm/impl/transact_log.hpp, input_stream.hpp, the rollback in
      group_shared.hpp): the bytes of a log. The encoder writes into memory that
      a stream reserves; a write past it is [None]. The parser is a [Reader] over any stream of blocks (class
      [NoCopyInputStream] with laws and the streams of the core as instances);
      the reverser cuts the opposite instructions out of a buffer.
      [LogEncoderTheory], [LogReading], [LogRoundtrip] prove that parsing
      inverts writing, [LogReverserTheory] what is in a reversed log.
      [Rollback] is the meaning of a log for the places of tables, rows, cells
      and list elements (a forest of nodes), and proves that executing the
      reversed log puts back what is still there;
      the end of [LogReverser] makes the handlers of [TransactLog] a handler of
      the parser, and [LogCodeProps] holds the properties of all of them together.
    - [CircularBuffer] (core/realm/util/circular_buffer.hpp): a container in a
      ring of memory. A call is a function in a monad [M] of the buffer and the
      constructors called so far, which returns, throws or is undefined; a cell of
      memory that holds no value is [None], so that no value is read or destroyed
      that is not alive. [CircularBufferTheory] proves each call,
      [CircularBufferProps] sequences of calls, iterators and the cost.
    - [PackedArray] (core/realm/array_direct.hpp): integers of 0 to 64 bits in
      bytes, for both orders of bytes and both signs of char, and the binary
      searches; checked against lists of integers and the standard library.
    - [StringData] (core/realm/string_data.hpp, the conditions Contains and
      ContainsIns of core/realm/query_engine.hpp): comparison of strings and the
      Boyer-Moore search, with the jumps that a condition computes.
    - [Utf8] (core/realm/util/utf8.hpp): transcoding between UTF-8 and UTF-16 and
      the sizes of the buffers, against the encodings of Unicode.

    ** How they interact

    The change builder calls index sets only through [IndexSetOps], so that its
    theorems hold for every implementation of the laws; the object store calls
    the core only through [GroupOps], compares schemas with [Schema.compare]
    and applies the changes; collection notifiers merge change builders and
    ask the deep change checker, which reads their index sets; the session calls its progress notifiers directly
    ([World] holds them) and reports connection changes as effects.

    ** The theorems

    - Index sets: representation invariant and functional correctness of every
      operation, round trips; two operations that miscount.
    - Change builder: refinement of a list of rows by any sequence of
      operations, composition by [merge], the reported change set, the diff.
    - Notifiers: the deep check is exact whatever it remembers, but for tables
      that link only to themselves, the search for tables terminates, the change set told composes all changes since the
      last delivery, each callback is told once and in order, also of errors;
      self-links are ignored and a count can wrap around.
    - Transaction logs: what a log does to the tables and observed lists is what
      its handlers report, also when they read it as bytes; logs with
      destructive changes are refused; the entry of a list can get lost. An
      application that observes rows is told where they are, what changed in
      them and in their lists; two moves in one list are told as nothing.
      Writing and parsing instructions is a round trip, integers are exact, a
      rollback puts all that is still there back in its place; defaults of
      doubles, negative sizes, moves in lists and lists whose row is exchanged
      before the transaction is rolled back are not treated as intended.
    - Checked arithmetic is exact for all pairs of integer types.
    - Circular buffers: refinement of a list by any sequence of calls, those that
      throw included, but for resizing to a smaller size and assignment to
      itself; iterators are indices and stay valid as documented;
      insertion takes amortised constant time; resizing to a smaller size destroys
      the wrong values.
    - Packed arrays refine lists of integers, the unrolled searches are
      std::lower_bound and std::upper_bound.
    - Strings: the Boyer-Moore search finds what a plain search does; a malformed
      string is read past its end. Transcoding is exact and a round trip.
    - Schemas: what validation accepts is valid, and valid schemas whose class
      names are plain text are accepted; comparison lists every difference, and
      the changes listed lead to the target where no property needs two of them.
    - Object store: migration gives the file the target's columns; the schema,
      version and keys read back are those written; the verification functions
      are equivalent to their specification; two migrations that go wrong.
    - Sessions: safety of all calls but the end of a connection with an error
      in a session that has ended, the documented transitions, conservation
      and liveness of completion handlers, transparency of a client resync,
      termination of update_configuration, what progress notifiers are told;
      the calls that do not behave as documented.

    ** Integers, bounds and fuel

    [size_t] and 64-bit values are [Z] with wrap-around written out
    ([wrap], [+w], [-w]); theorems assume sizes below [npos]. Chunks hold at
    most [ChunkedRangeVector.max_size] ranges, which is a parameter of the build ([Build]):
    4 in debug builds. Loops that are not structural take fuel, and
    the theorems show that the fuel given (the length of what is traversed, the
    bytes of a log and one more, the depth of the recursion, the size of a buffer
    and one more, two turns for update_configuration) is enough:
    every operation is proved to return, not only to be right if it does.

    ** Not modelled

    - The database core (core/realm) other than its transaction logs, checked
      arithmetic, circular buffers, packed arrays, strings and transcoding: most
      of it is compiled separately, and what is in headers are classes that call
      that (tables, columns, queries) or the system (files, sockets, threads); where the modelled
      code relies on it, it is a class with laws ([GroupOps], [LinkTables],
      [CoreEncoder] for the methods that write selections); case mapping is a
      parameter. Wildcard matching and hashes of strings are compiled separately. Of the logs, the
      convenient encoder, which leaves out repeated selections.
    - Around observed rows and transaction logs: the calls of the application
      before and after a transaction (will_change, did_change), and the opening
      and closing of transactions by the core.
    - The synchronisation library, the Objective-C binding and the
      application: compiled separately, or not C++; recorded effects.
    - Queries, results, lists and objects (results.cpp, list.cpp, object.cpp):
      calls of the core's views.
    - Realms, the coordinator, the kinds of collection notifiers, users, the
      sync manager and its metadata, permissions, partial synchronisation: not
      yet.
    - Threads: a call is atomic between the points where it holds the mutex,
      and callbacks of the application are recorded, not run, except in
      [ConnectionChange] and [CollectionNotifier] where what they do is a
      parameter. *)

(** Notation, arithmetic of [size_t], loops, vectors and the lemmas shared by all
    components. *)
From Stdlib Require Export ZArith Lia Bool.
From stdpp Require Export numbers list_numbers sorting base option list.

#[global] Open Scope Z_scope.
#[export] Set Default Goal Selector "!".
#[global] Arguments Nat.eqb : simpl never.
#[global] Arguments Nat.leb : simpl never.
#[global] Arguments Nat.ltb : simpl never.
#[global] Arguments Nat.div : simpl never.

(** ** [size_t]: a 64-bit unsigned integer

    Values are [Z]; every addition and subtraction of the source that may
    leave [0 .. 2^64) goes through [wrap]. *)
Definition size_modulus : Z := 18446744073709551616.

(** [IndexSet::npos], [size_t(-1)] and [std::numeric_limits<size_t>::max()]. *)
Definition npos : Z := 18446744073709551615.

Definition wrap (z : Z) : Z := z mod size_modulus.
Definition wadd (a b : Z) : Z := wrap (a + b).
Definition wsub (a b : Z) : Z := wrap (a - b).

Declare Scope size_scope.
Delimit Scope size_scope with size.
Infix "+w" := wadd (at level 50, left associativity) : size_scope.
Infix "-w" := wsub (at level 50, left associativity) : size_scope.
#[global] Open Scope size_scope.

(** A failed assertion, an out-of-range access or the dereference of an end
    iterator is [None]. *)
Notation "'assert!' b ; k" := (if b then k else None)
  (at level 100, b at level 99, k at level 200, right associativity,
   format "'assert!'  b ;  '//' k").

(** ** Vectors: positional insertion and erasure of [std::vector] *)
Definition vector_insert {A} (i : nat) (x : A) (l : list A) : option (list A) :=
  if (i <=? length l)%nat then Some (take i l ++ x :: drop i l) else None.

Definition vector_erase {A} (i : nat) (l : list A) : option (list A) :=
  if (i <? length l)%nat then Some (take i l ++ drop (S i) l) else None.

(** [std::find_if]: the position of the first element satisfying [p], or the
    end. *)
Fixpoint find_if {A} (p : A → bool) (l : list A) : nat :=
  match l with
  | [] => 0%nat
  | x :: l => if p x then 0%nat else S (find_if p l)
  end.

(** [std::lower_bound] on the elements [first .. first + len): binary search
    for the first element that does not satisfy [less]. *)
Fixpoint lower_bound_loop {A} (fuel : nat) (less : A → bool) (l : list A)
    (first len : nat) : nat :=
  match fuel with
  | O => first
  | S fuel =>
      if (len =? 0)%nat then first
      else
        let half := (len / 2)%nat in
        match l !! (first + half)%nat with
        | Some x =>
            if less x then lower_bound_loop fuel less l (first + half + 1) (len - half - 1)
            else lower_bound_loop fuel less l first half
        | None => first
        end
  end.

Definition lower_bound {A} (less : A → bool) (l : list A) (first last : nat) : nat :=
  lower_bound_loop (S (last - first)) less l first (last - first).

(** ** Loops

    [while_loop fuel step s] runs [step] until it leaves the loop ([inr]);
    running out of fuel is [None], and every theorem about a loop proves that
    its fuel is enough. *)
Fixpoint while_loop {S R} (fuel : nat) (step : S → option (S + R)) (s : S) : option R :=
  match fuel with
  | O => None
  | S fuel =>
      o ← step s;
      match o with
      | inl s' => while_loop fuel step s'
      | inr r => Some r
      end
  end.

(** A range-based [for] over a list whose body can fail. *)
Fixpoint foldlM {A B} (f : B → A → option B) (b : B) (l : list A) : option B :=
  match l with
  | [] => Some b
  | x :: l => b' ← f b x; foldlM f b' l
  end.

(** ** Arithmetic of [size_t] *)
Ltac size_unfold := unfold wadd, wsub, wrap, npos, size_modulus in *.

(** [lia] with the value of [npos]. *)
Ltac slia := unfold npos, size_modulus in *; lia.

Lemma wrap_small z : 0 ≤ z ≤ npos → wrap z = z.
Proof. intros. apply Z.mod_small. size_unfold; lia. Qed.

Lemma wrap_range z : 0 ≤ wrap z ≤ npos.
Proof. pose proof (Z.mod_pos_bound z size_modulus). size_unfold; lia. Qed.

Lemma wadd_small a b : 0 ≤ a + b ≤ npos → a +w b = a + b.
Proof. apply wrap_small. Qed.

Lemma wsub_small a b : 0 ≤ a - b ≤ npos → a -w b = a - b.
Proof. apply wrap_small. Qed.

Lemma wrap_wrap z : wrap (wrap z) = wrap z.
Proof. apply Zmod_mod. Qed.

Lemma wrap_add_l a b : wrap (wrap a + b) = wrap (a + b).
Proof. apply Zplus_mod_idemp_l. Qed.

Lemma wrap_add_r a b : wrap (a + wrap b) = wrap (a + b).
Proof. apply Zplus_mod_idemp_r. Qed.

Lemma wrap_sub_l a b : wrap (wrap a - b) = wrap (a - b).
Proof. apply Zminus_mod_idemp_l. Qed.

Lemma wrap_sub_r a b : wrap (a - wrap b) = wrap (a - b).
Proof. apply Zminus_mod_idemp_r. Qed.

Create Rewrite HintDb wrap.
#[export] Hint Rewrite wrap_add_l wrap_add_r wrap_sub_l wrap_sub_r wrap_wrap : wrap.

(** Equality of two wrapped expressions that agree as integers. *)
Ltac wrap_ring :=
  unfold wadd, wsub; autorewrite with wrap;
  first [reflexivity | f_equal; lia
        | unfold wrap, size_modulus; Z.div_mod_to_equations; lia].

(** Remove every [+w], [-w] whose result is in range. *)
Ltac size_simpl :=
  repeat first
    [ rewrite wadd_small by lia
    | rewrite wsub_small by lia
    | rewrite wrap_small by lia ].

(** Turn boolean tests on [nat] and [Z] in the goal into cases. *)
Ltac case_test :=
  match goal with
  | |- context [Z.eqb ?a ?b] => destruct (Z.eqb_spec a b)
  | |- context [Z.ltb ?a ?b] => destruct (Z.ltb_spec a b)
  | |- context [Z.leb ?a ?b] => destruct (Z.leb_spec a b)
  | |- context [Nat.eqb ?a ?b] => destruct (Nat.eqb_spec a b)
  | |- context [Nat.ltb ?a ?b] => destruct (Nat.ltb_spec a b)
  | |- context [Nat.leb ?a ?b] => destruct (Nat.leb_spec a b)
  end.

Ltac case_tests := repeat (case_test; simpl; try lia; try done).

(** Hand the body of the loop in the goal to [tac]. *)
Ltac loop_step tac := match goal with |- context [while_loop _ ?step _] => tac step end.

(** ** Bits *)
Lemma land_disjoint a b n : 0 ≤ n → 0 ≤ a < 2 ^ n → Z.land a (Z.shiftl b n) = 0.
Proof.
  intros Hn Ha. apply Z.bits_inj_0. intros k. rewrite Z.land_spec.
  destruct (decide (k < 0)); [by rewrite Z.testbit_neg_r by lia|].
  destruct (decide (k < n)); [by rewrite Z.shiftl_spec_low, andb_false_r by lia|].
  replace a with (a mod 2 ^ n) by (apply Z.mod_small; done). by rewrite Z.mod_pow2_bits_high by lia.
Qed.

Lemma lor_disjoint a b n : 0 ≤ n → 0 ≤ a < 2 ^ n → Z.lor a (Z.shiftl b n) = a + b * 2 ^ n.
Proof.
  intros Hn Ha. pose proof (land_disjoint a b n Hn Ha) as H.
  by rewrite <-Z.lxor_lor, <-Z.add_nocarry_lxor, Z.shiftl_mul_pow2 by done.
Qed.

(** ** Vectors *)
Lemma destruct_last {A} (l : list A) : l ≠ [] → ∃ l' x, l = l' ++ [x].
Proof. intros Hne. destruct (exists_last Hne) as (l' & x & ->). eauto. Qed.

Lemma vector_insert_app {A} (l1 l2 : list A) x :
  vector_insert (length l1) x (l1 ++ l2) = Some (l1 ++ x :: l2).
Proof.
  unfold vector_insert. rewrite length_app. case_tests.
  by rewrite take_app_length, drop_app_length.
Qed.

Lemma vector_insert_after {A} (l1 l2 : list A) x y :
  vector_insert (S (length l1)) y (l1 ++ x :: l2) = Some (l1 ++ x :: y :: l2).
Proof.
  pose proof (vector_insert_app (l1 ++ [x]) l2 y) as H.
  rewrite length_app, Nat.add_1_r, <-!app_assoc in H. done.
Qed.

Lemma vector_erase_app {A} (l1 l2 : list A) x :
  vector_erase (length l1) (l1 ++ x :: l2) = Some (l1 ++ l2).
Proof.
  unfold vector_erase. rewrite length_app; simpl. case_tests.
  rewrite take_app_length, drop_app_ge by lia.
  by replace (S (length l1) - length l1)%nat with 1%nat by lia.
Qed.

Lemma list_insert_app_here {A} (l1 l2 : list A) x y :
  <[length l1 := y]> (l1 ++ x :: l2) = l1 ++ y :: l2.
Proof. by rewrite insert_app_r_alt, Nat.sub_diag by lia. Qed.

Lemma lookup_app_here {A} (l1 l2 : list A) x :
  (l1 ++ x :: l2) !! length l1 = Some x.
Proof. by apply list_lookup_middle. Qed.

Lemma find_if_spec {A} (p : A → bool) l :
  ∃ l1 l2, l = l1 ++ l2 ∧ find_if p l = length l1 ∧
    Forall (λ x, p x = false) l1 ∧
    match l2 with [] => True | x :: _ => p x = true end.
Proof.
  induction l as [|x l (l1 & l2 & -> & Hf & H1 & H2)]; simpl.
  - by exists [], [].
  - destruct (p x) eqn:E.
    + by exists [], (x :: l1 ++ l2).
    + exists (x :: l1), l2. rewrite Hf. eauto.
Qed.

(** The binary search finds the partition point. *)
Lemma lower_bound_loop_spec {A} (less : A → bool) l1 l2 fuel first len :
  Forall (λ x, less x = true) (drop first l1) →
  Forall (λ x, less x = false) l2 →
  (first ≤ length l1 ≤ first + len)%nat → (first + len ≤ length (l1 ++ l2))%nat →
  (len < fuel)%nat →
  lower_bound_loop fuel less (l1 ++ l2) first len = length l1.
Proof.
  revert first len. induction fuel as [|fuel IH]; intros first len H1 H2 Hin Hlen Hf; [lia|].
  cbn [lower_bound_loop]. destruct (Nat.eqb_spec len 0) as [->|Hn]; [lia|].
  pose proof (Nat.div_lt len 2 ltac:(lia) ltac:(lia)).
  set (half := (len / 2)%nat) in *.
  destruct ((l1 ++ l2) !! (first + half)%nat) as [x|] eqn:Hx.
  2:{ apply lookup_ge_None in Hx. lia. }
  destruct (decide (first + half < length l1)%nat) as [Hlt|Hge].
  - rewrite lookup_app_l in Hx by done.
    assert (less x = true) as Hl.
    { eapply (proj1 (Forall_lookup _ _) H1 half). by rewrite lookup_drop. }
    rewrite Hl. apply IH; [|done|lia..].
    replace (first + half + 1)%nat with (first + (half + 1))%nat by lia.
    rewrite <-drop_drop. by apply Forall_drop.
  - rewrite lookup_app_r in Hx by lia.
    assert (less x = false) as Hl. { eapply (proj1 (Forall_lookup _ _) H2); done. }
    rewrite Hl. apply IH; [done..|lia|lia|lia].
Qed.

Lemma lower_bound_spec {A} (less : A → bool) l1 l2 first :
  (first ≤ length l1)%nat →
  Forall (λ x, less x = true) (drop first l1) →
  Forall (λ x, less x = false) l2 →
  lower_bound less (l1 ++ l2) first (length (l1 ++ l2)) = length l1.
Proof.
  intros. unfold lower_bound. rewrite length_app.
  apply lower_bound_loop_spec; rewrite ?length_app; auto; lia.
Qed.

(** A sorted list is partitioned by any test that respects the order. *)
Lemma sorted_partition {A} (R : relation A) (less : A → bool) l :
  StronglySorted R l → (∀ x y, R x y → less x = false → less y = false) →
  ∃ l1 l2, l = l1 ++ l2 ∧ Forall (λ x, less x = true) l1 ∧ Forall (λ x, less x = false) l2 ∧
    lower_bound less l 0 (length l) = length l1.
Proof.
  intros Hs HR. assert (∃ l1 l2, l = l1 ++ l2 ∧ Forall (λ x, less x = true) l1 ∧ Forall (λ x, less x = false) l2)
    as (l1&l2&->&H1&H2).
  { induction Hs as [|x l Hs IH Hx]; [by exists [], []|]. destruct (less x) eqn:E.
    - destruct IH as (l1&l2&->&H1&H2). exists (x :: l1), l2. auto.
    - exists [], (x :: l). split; [done|]. split; [done|]. constructor; [done|]. eapply Forall_impl; [done|]. eauto. }
  exists l1, l2. do 3 (split; [done|]). apply lower_bound_spec; [lia|by rewrite drop_0|done].
Qed.

(** ** Loops *)

(** Total correctness: [P n s] is the invariant, [n] a measure that decreases. *)
Lemma while_loop_lt {S R} (step : S → option (S + R)) (P : nat → S → Prop)
    (Q : R → Prop) :
  (∀ n s, P n s →
    (∃ r, step s = Some (inr r) ∧ Q r) ∨
    (∃ n' s', (n' < n)%nat ∧ step s = Some (inl s') ∧ P n' s')) →
  ∀ n s fuel, P n s → (n < fuel)%nat → ∃ r, while_loop fuel step s = Some r ∧ Q r.
Proof.
  intros Hstep n. induction n as [n IH] using lt_wf_ind. intros s fuel HP Hf.
  destruct fuel as [|fuel]; [lia|]. cbn [while_loop].
  destruct (Hstep n s HP) as [(r & -> & ?)|(n' & s' & ? & -> & ?)]; simpl; [eauto|].
  apply (IH n'); auto; lia.
Qed.

(** The measure as the exact number of iterations left. *)
Lemma while_loop_spec {S R} (step : S → option (S + R)) (P : nat → S → Prop)
    (Q : R → Prop) :
  (∀ n s, P n s →
    (∃ r, step s = Some (inr r) ∧ Q r) ∨
    (∃ n' s', n = Datatypes.S n' ∧ step s = Some (inl s') ∧ P n' s')) →
  ∀ n s fuel, P n s → (n < fuel)%nat → ∃ r, while_loop fuel step s = Some r ∧ Q r.
Proof.
  intros Hstep. apply while_loop_lt. intros n s [?|(n'&s'&->&?&?)]%Hstep; [by left|].
  right. exists n', s'. split_and!; [lia|done..].
Qed.

Lemma mapM_cons {A B} (f : A → option B) x l :
  mapM f (x :: l) = y ← f x; k ← mapM f l; Some (y :: k).
Proof. done. Qed.

Lemma foldlM_app {A B} (f : B → A → option B) b l l' :
  foldlM f b (l ++ l') = b' ← foldlM f b l; foldlM f b' l'.
Proof. revert b. induction l as [|x l IH]; intros b; [done|]. simpl. destruct (f b x); [apply IH|done]. Qed.

Lemma foldlM_spec {A B} (f : B → A → option B) (P : list A → B → Prop) :
  ∀ done l b,
  (∀ l1 x l2 b, done ++ l = l1 ++ x :: l2 → (length done ≤ length l1)%nat → P l1 b →
    ∃ b', f b x = Some b' ∧ P (l1 ++ [x]) b') →
  P done b → ∃ b', foldlM f b l = Some b' ∧ P (done ++ l) b'.
Proof.
  intros done l. revert done. induction l as [|x l IH]; intros done b Hstep HP; simpl.
  - rewrite app_nil_r. eauto.
  - destruct (Hstep done x l b) as (b' & -> & HP'); [done..|]. simpl.
    rewrite cons_middle, app_assoc. apply IH; [|done].
    intros l1 y l2 b'' Heq Hlen. rewrite length_app in Hlen; simpl in Hlen.
    apply (Hstep l1 y l2); [by rewrite <-Heq, <-app_assoc|lia].
Qed.

Lemma find_if_app {A} (p : A → bool) l1 l2 :
  Forall (λ x, p x = false) l1 → find_if p (l1 ++ l2) = (length l1 + find_if p l2)%nat.
Proof. induction 1 as [|x l1 Hx Hl IH]; [done|]. simpl. by rewrite Hx, IH. Qed.

Lemma filter_ext_in {A} (P Q : A → Prop) `{∀ x, Decision (P x)} `{∀ x, Decision (Q x)} (l : list A) :
  (∀ x, x ∈ l → P x ↔ Q x) → filter P l = filter Q l.
Proof.
  induction l as [|x l IH]; intros Hl; [done|]. rewrite !filter_cons, IH by (intros; apply Hl; by constructor).
  destruct (decide (P x)) as [HP|HP], (decide (Q x)) as [HQ|HQ]; try done;
    exfalso; [apply HQ|apply HP]; by apply (Hl x ltac:(constructor)).
Qed.

(** Filters that keep all or nothing *)
Lemma filter_all {A} (P : A → Prop) `{∀ x, Decision (P x)} l : Forall P l → filter P l = l.
Proof. induction 1 as [|x l Hx Hl IH]; [done|]. by rewrite filter_cons, decide_True, IH. Qed.

Lemma filter_none {A} (P : A → Prop) `{∀ x, Decision (P x)} l : Forall (λ x, ¬ P x) l → filter P l = [].
Proof. induction 1 as [|x l Hx Hl IH]; [done|]. by rewrite filter_cons, decide_False. Qed.

Lemma filter_fmap {A B} (f : A → B) (P : B → Prop) `{∀ x, Decision (P x)} (l : list A) :
  filter P (f <$> l) = f <$> filter (λ x, P (f x)) l.
Proof.
  induction l as [|x l IH]; [done|]. rewrite fmap_cons, !filter_cons, IH. by case_decide.
Qed.

Lemma Forall_filter {A} (P Q : A → Prop) `{∀ x, Decision (Q x)} l : Forall P l → Forall P (filter Q l).
Proof. rewrite !Forall_forall. intros Hl x [_ Hx]%list_elem_of_filter. auto. Qed.

(** A decidable proposition about concrete values *)
Ltac by_decision := refine (bool_decide_unpack _ _); vm_compute; exact I.

#[export] Instance StronglySorted_dec {A} (R : A → A → Prop) `{∀ x y, Decision (R x y)} l :
  Decision (StronglySorted R l).
Proof.
  induction l as [|x l IH]; [left; constructor|].
  destruct IH as [IH|IH]; [|right; by intros [? ?]%StronglySorted_inv].
  destruct (decide (Forall (R x) l)); [left; by constructor|right; by intros [? ?]%StronglySorted_inv].
Defined.
