(* ===== verification/ChunkedRangeVector.v ===== *)
(** The chunked vector of ranges under [IndexSet]: [_impl::ChunkedRangeVector],
    its iterators and [ChunkedRangeVectorBuilder] (include/index_set.hpp and
    ObjectStore/src/index_set.cpp), and the representation lemmas: every
    primitive acts on the flat list of ranges at the iterator's position. *)
From S2P Require Import Prelude.

(** [#ifdef REALM_DEBUG] selects the chunk capacity and whether [verify] and
    [REALM_ASSERT_DEBUG] do anything. *)
Class Build := REALM_DEBUG : bool.

Notation "'assert_debug!' b ; k" := (if negb REALM_DEBUG || b then k else None)
  (at level 100, b at level 99, k at level 200, right associativity,
   format "'assert_debug!'  b ;  '//' k").

(** [ChunkedRangeVector::Chunk] *)
Record Chunk := mkChunk {
  data : list (Z * Z);
  chunk_begin : Z;
  chunk_end : Z;
  chunk_count : Z }.

(** [ChunkedRangeVectorIterator]: [m_outer] is the position of the chunk in
    [m_data], [m_inner] the offset in the chunk; [m_outer = m_data.end()] comes
    with the null inner pointer, offset 0.  [m_end] is always [m_data.end()]. *)
Record iterator := Iter { m_outer : nat; m_inner : nat }.

#[export] Instance iterator_eq_dec : EqDecision iterator.
Proof. solve_decision. Defined.

#[export] Instance Chunk_eq_dec : EqDecision Chunk.
Proof. solve_decision. Defined.

(** The length of a range and of a list of ranges. *)
Definition range_len (r : Z * Z) : Z := r.2 - r.1.

Fixpoint sum_len (rs : list (Z * Z)) : Z :=
  match rs with [] => 0 | r :: rs => range_len r + sum_len rs end.

(** The ranges in iteration order. *)
Definition ranges (m : list Chunk) : list (Z * Z) := m ≫= data.

(** ** Iterators *)
Module Iterator.
Definition begin_it (m : list Chunk) : iterator := Iter 0 0.

Definition end_it (m : list Chunk) : iterator := Iter (length m) 0.

Definition eqb (a b : iterator) : bool := bool_decide (a = b).

(** [operator*] and [operator->] *)
Definition deref (m : list Chunk) (it : iterator) : option (Z * Z) :=
  c ← m !! m_outer it; data c !! m_inner it.

Definition next_chunk (it : iterator) : iterator := Iter (S (m_outer it)) 0.

(** [operator++] *)
Definition next (m : list Chunk) (it : iterator) : option iterator :=
  c ← m !! m_outer it;
  if (S (m_inner it) =? length (data c))%nat then Some (next_chunk it)
  else Some (Iter (m_outer it) (S (m_inner it))).

(** [operator--] *)
Definition prev (m : list Chunk) (it : iterator) : option iterator :=
  if (m_outer it =? length m)%nat || (m_inner it =? 0)%nat then
    match m_outer it with
    | O => None
    | S outer =>
        c ← m !! outer;
        match length (data c) with
        | O => None
        | S back => Some (Iter outer back)
        end
    end
  else Some (Iter (m_outer it) (pred (m_inner it))).

(** [MutableChunkedRangeVectorIterator::set] *)
Definition set (m : list Chunk) (it : iterator) (front back : Z) : option (list Chunk) :=
  c ← m !! m_outer it;
  r ← data c !! m_inner it;
  let is_last := (S (m_inner it) =? length (data c))%nat in
  Some (<[m_outer it := mkChunk
            (<[m_inner it := (front, back)]> (data c))
            (if (m_inner it =? 0)%nat then front else chunk_begin c)
            (if is_last then back else chunk_end c)
            ((chunk_count c -w (r.2 -w r.1)) +w (back -w front))]> m).

(** [MutableChunkedRangeVectorIterator::adjust] *)
Definition adjust (m : list Chunk) (it : iterator) (front back : Z) : option (list Chunk) :=
  c ← m !! m_outer it;
  r ← data c !! m_inner it;
  let is_last := (S (m_inner it) =? length (data c))%nat in
  Some (<[m_outer it := mkChunk
            (<[m_inner it := (r.1 +w front, r.2 +w back)]> (data c))
            (if (m_inner it =? 0)%nat then chunk_begin c +w front else chunk_begin c)
            (if is_last then chunk_end c +w back else chunk_end c)
            (chunk_count c +w (- front + back))]> m).

(** [MutableChunkedRangeVectorIterator::shift] *)
Definition shift (m : list Chunk) (it : iterator) (distance : Z) : option (list Chunk) :=
  c ← m !! m_outer it;
  r ← data c !! m_inner it;
  let is_last := (S (m_inner it) =? length (data c))%nat in
  Some (<[m_outer it := mkChunk
            (<[m_inner it := (r.1 +w distance, r.2 +w distance)]> (data c))
            (if (m_inner it =? 0)%nat then chunk_begin c +w distance else chunk_begin c)
            (if is_last then chunk_end c +w distance else chunk_end c)
            (chunk_count c)]> m).
End Iterator.

(** ** The vector *)
Module ChunkedRangeVector.
Section Operations.
Context {build : Build}.

(** [4096 / sizeof(std::pair<size_t, size_t>)], or 4 in a debug build *)
Definition max_size : nat := if REALM_DEBUG then 4 else Z.to_nat (4096 / 16).

(** [size_t prev_end = -1; for (auto range : *this)] *)
Fixpoint verify_ranges (prev_end : Z) (rs : list (Z * Z)) : bool :=
  match rs with
  | [] => true
  | r :: rs =>
      (r.1 <? r.2) && ((prev_end =? npos) || (prev_end <? r.1)) && verify_ranges r.2 rs
  end.

Definition count_ranges (rs : list (Z * Z)) : Z :=
  foldl (λ acc r, acc +w (r.2 -w r.1)) 0 rs.

Definition verify_chunk (c : Chunk) : bool :=
  match head (data c), last (data c) with
  | Some front, Some back =>
      (front.1 =? chunk_begin c) && (back.2 =? chunk_end c) &&
      (chunk_count c <=? chunk_end c -w chunk_begin c) &&
      (count_ranges (data c) =? chunk_count c)
  | _, _ => false
  end.

(** The checks of [verify()] in a debug build; nothing otherwise. *)
Definition verify (m : list Chunk) : bool :=
  if REALM_DEBUG then verify_ranges npos (ranges m) && forallb verify_chunk m else true.

Definition push_back (m : list Chunk) (value : Z * Z) : option (list Chunk) :=
  let push_chunk := m ++ [mkChunk [value] value.1 value.2 (value.2 -w value.1)] in
  m' ←
    match last m with
    | Some range =>
        if (length (data range) <? max_size)%nat then
          assert! chunk_end range <=? value.1;
          Some (<[pred (length m) := mkChunk
                    (data range ++ [value]) (chunk_begin range) value.2
                    (chunk_count range +w (value.2 -w value.1))]> m)
        else Some push_chunk
    | None => Some push_chunk
    end;
  assert! verify m'; Some m'.

(** Split a full chunk in half. *)
Definition ensure_space (m : list Chunk) (pos : iterator) : option (list Chunk * iterator) :=
  c ← m !! m_outer pos;
  if (length (data c) + 1 <=? max_size)%nat then Some (m, pos) else
  let offset := m_inner pos in
  let to_move := (max_size / 2)%nat in
  let kept := take (length (data c) - to_move) (data c) in
  let moved := drop (length (data c) - to_move) (data c) in
  let moved_count := count_ranges moved in
  kept_back ← last kept;
  moved_front ← head moved;
  moved_back ← last moved;
  let prev := mkChunk kept (chunk_begin c) kept_back.2 (chunk_count c -w moved_count) in
  let new := mkChunk moved moved_front.1 moved_back.2 moved_count in
  m' ← vector_insert (S (m_outer pos)) new (<[m_outer pos := prev]> m);
  let pos' :=
    if (to_move <=? offset)%nat then Iter (S (m_outer pos)) (offset - to_move)
    else Iter (m_outer pos) offset in
  assert! verify m'; Some (m', pos').

Definition insert (m : list Chunk) (pos : iterator) (value : Z * Z) :
    option (list Chunk * iterator) :=
  if (m_outer pos =? length m)%nat then
    m' ← push_back m value;
    it ← Iterator.prev m' (Iterator.end_it m');
    Some (m', it)
  else
    '(m, pos) ← ensure_space m pos;
    chunk ← m !! m_outer pos;
    data' ← vector_insert (m_inner pos) value (data chunk);
    let chunk' := mkChunk data'
      (Z.min (chunk_begin chunk) value.1) (Z.max (chunk_end chunk) value.2)
      (chunk_count chunk +w (value.2 -w value.1)) in
    let m' := <[m_outer pos := chunk']> m in
    assert! verify m'; Some (m', pos).

Definition erase (m : list Chunk) (pos : iterator) : option (list Chunk * iterator) :=
  chunk ← m !! m_outer pos;
  r ← data chunk !! m_inner pos;
  data' ← vector_erase (m_inner pos) (data chunk);
  let count' := chunk_count chunk -w (r.2 -w r.1) in
  match head data', last data' with
  | Some front, Some back =>
      let m' := <[m_outer pos := mkChunk data' front.1 back.2 count']> m in
      let pos' :=
        if (m_inner pos <? length data')%nat then pos
        else Iter (S (m_outer pos)) 0 in
      assert! verify m'; Some (m', pos')
  | _, _ =>
      m' ← vector_erase (m_outer pos) m;
      assert! verify m'; Some (m', Iter (m_outer pos) 0)
  end.
End Operations.
End ChunkedRangeVector.

(** ** The builder *)
Record Builder := mkBuilder { b_data : list Chunk; m_outer_pos : nat }.

Module ChunkedRangeVectorBuilder.
Section Operations.
Context {build : Build}.
Import ChunkedRangeVector.

(** A value-initialised [Chunk] *)
Definition empty_chunk : Chunk := mkChunk [] 0 0 0.

Definition init (expected : list Chunk) : Builder :=
  let size := foldr (λ c n, (length (data c) + n)%nat) 0%nat expected in
  mkBuilder (replicate (size / max_size + 1) empty_chunk) 0.

Definition push_back_range (b : Builder) (range : Z * Z) : option Builder :=
  chunk ← b_data b !! m_outer_pos b;
  match last (data chunk) with
  | None =>
      Some (mkBuilder (<[m_outer_pos b := mkChunk [range] range.1 (chunk_end chunk)
                          (range.2 -w range.1)]> (b_data b)) (m_outer_pos b))
  | Some back =>
      if range.1 =? back.2 then
        Some (mkBuilder (<[m_outer_pos b := mkChunk
                (<[pred (length (data chunk)) := (back.1, range.2)]> (data chunk))
                (chunk_begin chunk) (chunk_end chunk)
                (chunk_count chunk +w (range.2 -w range.1))]> (b_data b)) (m_outer_pos b))
      else if (length (data chunk) <? max_size)%nat then
        Some (mkBuilder (<[m_outer_pos b := mkChunk (data chunk ++ [range])
                (chunk_begin chunk) (chunk_end chunk)
                (chunk_count chunk +w (range.2 -w range.1))]> (b_data b)) (m_outer_pos b))
      else
        let full := mkChunk (data chunk) (chunk_begin chunk) back.2 (chunk_count chunk) in
        let m := <[m_outer_pos b := full]> (b_data b) in
        let pos := S (m_outer_pos b) in
        match m !! pos with
        | None => Some (mkBuilder (m ++ [mkChunk [range] range.1 0 1]) pos)
        | Some chunk =>
            Some (mkBuilder (<[pos := mkChunk (data chunk ++ [range]) range.1
                                (chunk_end chunk) (range.2 -w range.1)]> m) pos)
        end
  end.

Definition push_back_index (b : Builder) (index : Z) : option Builder :=
  push_back_range b (index, index +w 1).

Definition finalize (b : Builder) : option (list Chunk) :=
  match b_data b with
  | [] => Some []
  | _ =>
      let m := take (S (m_outer_pos b)) (b_data b) in
      c ← last m;
      match last (data c) with
      | None => Some (take (pred (length m)) m)
      | Some back =>
          Some (<[pred (length m) := mkChunk (data c) (chunk_begin c) back.2
                                        (chunk_count c)]> m)
      end
  end.
End Operations.
End ChunkedRangeVectorBuilder.

(** ** Representation *)

(** The chunk that stores the ranges [d]: its cached fields are functions of
    its data (the count modulo the width of [size_t]). *)
Definition front_of (d : list (Z * Z)) : Z := from_option fst 0 (head d).
Definition back_of (d : list (Z * Z)) : Z := from_option snd 0 (last d).

Definition of_data (d : list (Z * Z)) : Chunk :=
  mkChunk d (front_of d) (back_of d) (wrap (sum_len d)).

Definition chunk_wf `{Build} (c : Chunk) : Prop :=
  c = of_data (data c) ∧ data c ≠ [] ∧
  (length (data c) ≤ ChunkedRangeVector.max_size)%nat.

Definition vec_wf `{Build} (m : list Chunk) : Prop := Forall chunk_wf m.

(** An iterator stands at a position of the flat list of ranges. *)
Definition sizes (m : list Chunk) : list nat := (λ c, length (data c)) <$> m.

Definition it_valid (sz : list nat) (it : iterator) : Prop :=
  it = Iter (length sz) 0 ∨ ∃ n, sz !! m_outer it = Some n ∧ (m_inner it < n)%nat.

Definition flat_index (sz : list nat) (it : iterator) : nat :=
  (sum_list (take (m_outer it) sz) + m_inner it)%nat.

Definition at_pos (m : list Chunk) (it : iterator) (pre post : list (Z * Z)) : Prop :=
  ranges m = pre ++ post ∧ it_valid (sizes m) it ∧ flat_index (sizes m) it = length pre.

(** Sorted, disjoint, non-adjacent ranges above [lo]. *)
Fixpoint ranges_ok (lo : Z) (rs : list (Z * Z)) : Prop :=
  match rs with
  | [] => True
  | r :: rs => lo < r.1 ∧ r.1 < r.2 ∧ r.2 ≤ npos ∧ ranges_ok r.2 rs
  end.

(** The end of the last range of [rs], or [lo]. *)
Fixpoint hi_of (lo : Z) (rs : list (Z * Z)) : Z :=
  match rs with [] => lo | r :: rs => hi_of r.2 rs end.

(** The indices covered by a list of ranges. *)
Fixpoint mem (rs : list (Z * Z)) (x : Z) : Prop :=
  match rs with [] => False | r :: rs => r.1 ≤ x < r.2 ∨ mem rs x end.

(** ** Flat lists of ranges *)
Lemma ranges_app m1 m2 : ranges (m1 ++ m2) = ranges m1 ++ ranges m2.
Proof. unfold ranges. by rewrite bind_app. Qed.

Lemma ranges_cons c m : ranges (c :: m) = data c ++ ranges m.
Proof. done. Qed.

Lemma sizes_app m1 m2 : sizes (m1 ++ m2) = sizes m1 ++ sizes m2.
Proof. apply fmap_app. Qed.

Lemma length_sizes m : length (sizes m) = length m.
Proof. apply length_fmap. Qed.

Lemma sum_list_sizes m : sum_list (sizes m) = length (ranges m).
Proof.
  induction m as [|c m IH]; [done|]. rewrite ranges_cons, length_app, <-IH. done.
Qed.

Lemma sum_len_app l1 l2 : sum_len (l1 ++ l2) = sum_len l1 + sum_len l2.
Proof. induction l1; simpl; lia. Qed.

Lemma front_of_app d1 r d2 :
  front_of (d1 ++ r :: d2) = if (length d1 =? 0)%nat then r.1 else front_of d1.
Proof. by destruct d1. Qed.

Lemma back_of_app d1 r d2 :
  back_of (d1 ++ r :: d2) =
    if (S (length d1) =? length (d1 ++ r :: d2))%nat then r.2 else back_of d2.
Proof.
  unfold back_of. rewrite last_app_cons, length_app, last_cons.
  destruct (Nat.eqb_spec (S (length d1)) (length d1 + length (r :: d2))) as [E|E].
  - destruct d2; [done|simpl in E; lia].
  - destruct d2 as [|r2 d2]; [simpl in E; lia|].
    destruct (last (r2 :: d2)) eqn:El; [done|]. by apply last_None in El.
Qed.

Lemma ranges_ok_app lo l1 l2 :
  ranges_ok lo (l1 ++ l2) ↔ ranges_ok lo l1 ∧ ranges_ok (hi_of lo l1) l2.
Proof. revert lo. induction l1 as [|r l1 IH]; intros lo; simpl; [tauto|]. rewrite IH. tauto. Qed.

Lemma hi_of_app lo l1 l2 : hi_of lo (l1 ++ l2) = hi_of (hi_of lo l1) l2.
Proof. revert lo. induction l1; intros; simpl; auto. Qed.

Lemma mem_app l1 l2 x : mem (l1 ++ l2) x ↔ mem l1 x ∨ mem l2 x.
Proof. induction l1; simpl; tauto. Qed.

Lemma ranges_ok_hi lo rs : ranges_ok lo rs → lo ≤ hi_of lo rs ∧ (lo ≤ npos → hi_of lo rs ≤ npos).
Proof.
  revert lo. induction rs as [|r rs IH]; intros lo; simpl; [lia|].
  intros (?&?&?&H). apply IH in H. lia.
Qed.

(** Every index of a well-formed list is between its bounds. *)
Lemma mem_bounds lo rs x : ranges_ok lo rs → mem rs x → lo < x < hi_of lo rs.
Proof.
  revert lo. induction rs as [|r rs IH]; intros lo; simpl; [done|].
  intros (?&?&?&H) [Hx|Hx].
  - apply ranges_ok_hi in H. lia.
  - apply (IH _ H) in Hx. lia.
Qed.

Lemma ranges_ok_lower lo lo' rs : ranges_ok lo rs → lo' ≤ lo → ranges_ok lo' rs.
Proof. destruct rs; simpl; [done|]. intros (?&?&?&?) ?. repeat split; auto; lia. Qed.

Lemma sum_len_bound lo rs :
  ranges_ok lo rs → 0 ≤ sum_len rs ≤ hi_of lo rs - lo.
Proof.
  revert lo. induction rs as [|r rs IH]; intros lo; simpl; [lia|].
  intros (?&?&?&H). apply IH in H. unfold range_len. lia.
Qed.

Lemma ranges_ok_remove lo l1 r l2 : ranges_ok lo (l1 ++ r :: l2) → ranges_ok lo (l1 ++ l2).
Proof.
  rewrite !ranges_ok_app; simpl. intros (?&?&?&?&?). split; [done|].
  eapply ranges_ok_lower; [done|lia].
Qed.

Lemma ranges_ok_bounds lo d :
  d ≠ [] → ranges_ok lo d →
  lo < front_of d ∧ front_of d < back_of d ∧ back_of d ≤ npos ∧ back_of d = hi_of lo d.
Proof.
  revert lo. induction d as [|r d IH]; intros lo; [done|]. intros _ (?&?&?&H).
  unfold back_of, front_of in *. rewrite last_cons; simpl. destruct d as [|r2 d]; simpl in *; [lia|].
  destruct (IH r.2) as (?&?&?&Hhi); [done..|].
  destruct (last (r2 :: d)) eqn:E; [|by apply last_None in E]. simpl in *. lia.
Qed.

Lemma sum_len_span lo d : d ≠ [] → ranges_ok lo d → 0 ≤ sum_len d ≤ back_of d - front_of d.
Proof.
  intros Hne Hok. destruct (ranges_ok_bounds _ _ Hne Hok) as (?&?&?&?).
  destruct d as [|r d]; [done|]. destruct Hok as (?&?&?&Hok).
  apply sum_len_bound in Hok. simpl in *. unfold front_of, range_len in *; simpl in *. lia.
Qed.

(** ** Chunks *)
Lemma data_of_data d : data (of_data d) = d.
Proof. done. Qed.

Section Representation.
Context {build : Build}.
Import ChunkedRangeVector.

Lemma max_size_ge : (2 ≤ max_size / 2)%nat ∧ (max_size = 2 * (max_size / 2))%nat.
Proof.
  unfold max_size. destruct REALM_DEBUG; split; vm_compute; try done; lia.
Qed.

Lemma chunk_wf_of_data d : d ≠ [] → (length d ≤ max_size)%nat → chunk_wf (of_data d).
Proof. done. Qed.

Lemma chunk_wf_inv c : chunk_wf c → ∃ d, c = of_data d ∧ d ≠ [] ∧ (length d ≤ max_size)%nat.
Proof. intros (->&?&?). eauto. Qed.

Lemma vec_wf_app m1 m2 : vec_wf (m1 ++ m2) ↔ vec_wf m1 ∧ vec_wf m2.
Proof. apply Forall_app. Qed.

Lemma vec_wf_mid m1 c m2 :
  vec_wf (m1 ++ c :: m2) ↔ vec_wf m1 ∧ chunk_wf c ∧ vec_wf m2.
Proof. rewrite vec_wf_app. unfold vec_wf. rewrite Forall_cons. tauto. Qed.

Lemma vec_wf_sizes m : vec_wf m → Forall (λ n, 0 < n)%nat (sizes m).
Proof.
  intros H. apply Forall_fmap. eapply Forall_impl; [exact H|].
  intros c (_&?&_). simpl. destruct (data c); simpl; [done|lia].
Qed.

Lemma vec_wf_nil_ranges m : vec_wf m → ranges m = [] → m = [].
Proof.
  destruct m as [|c m]; [done|]. intros [(_&Hne&_) _]%Forall_cons. rewrite ranges_cons.
  by intros [? _]%app_nil.
Qed.

(** ** Positions *)
Lemma at_pos_make m1 c m2 d1 d2 :
  data c = d1 ++ d2 → d2 ≠ [] →
  at_pos (m1 ++ c :: m2) (Iter (length m1) (length d1)) (ranges m1 ++ d1) (d2 ++ ranges m2).
Proof.
  intros Hd Hne. split_and!.
  - rewrite ranges_app, ranges_cons, Hd. by rewrite !app_assoc.
  - right. exists (length (data c)). simpl. rewrite sizes_app, Hd, length_app.
    split; [|destruct d2; [done|simpl; lia]].
    rewrite lookup_app_r; rewrite length_sizes; [|lia].
    by rewrite Nat.sub_diag; simpl; rewrite Hd, length_app.
  - unfold flat_index; simpl. rewrite sizes_app, take_app_length' by (by rewrite length_sizes).
    by rewrite sum_list_sizes, length_app.
Qed.

Lemma at_pos_end m : at_pos m (Iterator.end_it m) (ranges m) [].
Proof.
  split_and!.
  - by rewrite app_nil_r.
  - left. by rewrite length_sizes.
  - unfold flat_index, Iterator.end_it; simpl.
    rewrite <-(length_sizes m), firstn_all, sum_list_sizes. lia.
Qed.

Lemma at_pos_split m it pre post : at_pos m it pre post → ranges m = pre ++ post.
Proof. by intros [? _]. Qed.

Lemma at_pos_inv m it pre r post :
  at_pos m it pre (r :: post) →
  ∃ m1 c m2 d1 d2,
    m = m1 ++ c :: m2 ∧ data c = d1 ++ r :: d2 ∧
    it = Iter (length m1) (length d1) ∧ pre = ranges m1 ++ d1 ∧ post = d2 ++ ranges m2.
Proof.
  intros (Hr & Hv & Hi). destruct Hv as [->|(n & Hn & Hlt)].
  - exfalso. unfold flat_index in Hi; simpl in Hi.
    rewrite firstn_all, sum_list_sizes, Hr, length_app in Hi. simpl in Hi. lia.
  - unfold sizes in Hn. rewrite list_lookup_fmap in Hn.
    destruct (m !! m_outer it) as [c|] eqn:Hc; simplify_eq/=.
    destruct it as [o i]; simpl in *.
    pose proof (take_drop_middle _ _ _ Hc) as Hm.
    set (m1 := take o m) in *. set (m2 := drop (S o) m) in *.
    assert (length m1 = o) as Ho.
    { apply lookup_lt_Some in Hc. unfold m1. rewrite length_take. lia. }
    unfold flat_index in Hi; simpl in Hi.
    assert (take o (sizes m) = sizes m1) as Ht.
    { unfold m1, sizes. by rewrite fmap_take. }
    rewrite Ht, sum_list_sizes in Hi.
    assert (ranges m1 ++ take i (data c) = pre ∧ drop i (data c) ++ ranges m2 = r :: post)
      as [<- Hpost].
    { apply app_inj_1.
      - rewrite length_app, length_take. lia.
      - rewrite <-Hr, <-Hm, ranges_app, ranges_cons, <-!app_assoc. f_equal.
        by rewrite (app_assoc (take _ _)), take_drop. }
    destruct (drop i (data c)) as [|r' d2] eqn:Hd.
    { apply (f_equal length) in Hd. rewrite length_drop in Hd. simpl in Hd. lia. }
    simplify_eq/=. exists m1, c, m2, (take i (data c)), d2.
    split_and!; [done| |f_equal; rewrite ?length_take; lia|done..].
    by rewrite <-Hd, take_drop.
Qed.

Lemma at_pos_end_inv m it pre : vec_wf m → at_pos m it pre [] → it = Iterator.end_it m.
Proof.
  intros Hwf (Hr & Hv & Hi). unfold Iterator.end_it. destruct Hv as [->|(n & Hn & Hlt)].
  { by rewrite length_sizes. }
  exfalso. rewrite app_nil_r in Hr. rewrite <-Hr, <-sum_list_sizes in Hi.
  unfold flat_index in Hi. rewrite <-(take_drop_middle _ _ _ Hn) in Hi at 2.
  rewrite sum_list_with_app in Hi. simpl in Hi. lia.
Qed.

(** Positions survive changes that keep the chunk sizes. *)
Lemma at_pos_transfer m m' it pre post pre' post' :
  at_pos m it pre post → sizes m' = sizes m → ranges m' = pre' ++ post' →
  length pre' = length pre → at_pos m' it pre' post'.
Proof. intros (_&Hv&Hi) Hs Hr Hl. unfold at_pos. by rewrite Hs, Hl. Qed.

Lemma at_pos_begin m : vec_wf m → at_pos m (Iterator.begin_it m) [] (ranges m).
Proof.
  intros Hwf. destruct m as [|c m].
  - apply (at_pos_end []).
  - apply Forall_cons in Hwf as [(?&?&?) _]. rewrite ranges_cons.
    by apply (at_pos_make [] c m []).
Qed.

Lemma at_pos_eqb_begin m it pre post :
  vec_wf m → at_pos m it pre post →
  Iterator.eqb it (Iterator.begin_it m) = bool_decide (pre = []).
Proof.
  intros Hwf (Hr & Hv & Hi). unfold Iterator.eqb, Iterator.begin_it.
  apply bool_decide_ext. unfold flat_index in Hi. split.
  - intros ->. simpl in Hi. by destruct pre.
  - intros ->. destruct it as [o i]; simpl in *.
    assert (i = 0)%nat as -> by lia. f_equal.
    destruct o as [|o]; [done|]. exfalso. apply vec_wf_sizes in Hwf.
    destruct (sizes m) as [|n sz] eqn:Hsz; simpl in *.
    + destruct Hv as [?|(?&?&?)]; simplify_eq.
    + apply Forall_cons in Hwf as [? _]. lia.
Qed.

Lemma at_pos_eqb_end m it pre post :
  vec_wf m → at_pos m it pre post →
  Iterator.eqb it (Iterator.end_it m) = bool_decide (post = []).
Proof.
  intros Hwf Hat. unfold Iterator.eqb. apply bool_decide_ext. split.
  - intros ->. destruct post as [|r post]; [done|].
    apply at_pos_inv in Hat as (m1&c&m2&d1&d2&->&Hd&Hit&->&->).
    unfold Iterator.end_it in Hit. rewrite length_app in Hit. simplify_eq/=. lia.
  - intros ->. by eapply at_pos_end_inv.
Qed.

(** ** Iterator operations *)
Lemma deref_at m it pre r post :
  at_pos m it pre (r :: post) → Iterator.deref m it = Some r.
Proof.
  intros (m1&c&m2&d1&d2&->&Hd&->&->&->)%at_pos_inv. unfold Iterator.deref; simpl.
  rewrite lookup_app_here; simpl. rewrite Hd. apply lookup_app_here.
Qed.

Lemma next_at m it pre r post :
  vec_wf m → at_pos m it pre (r :: post) →
  ∃ it', Iterator.next m it = Some it' ∧ at_pos m it' (pre ++ [r]) post.
Proof.
  intros Hwf (m1&c&m2&d1&d2&->&Hd&->&->&->)%at_pos_inv. unfold Iterator.next; simpl.
  rewrite lookup_app_here; simpl. rewrite Hd, length_app; simpl.
  destruct d2 as [|r2 d2]; simpl; case_tests.
  - eexists; split; [done|]. rewrite <-app_assoc, <-Hd. unfold Iterator.next_chunk; simpl.
    replace (ranges m1 ++ data c) with (ranges (m1 ++ [c]))
      by (rewrite ranges_app, ranges_cons; simpl; by rewrite app_nil_r).
    rewrite cons_middle, app_assoc in Hwf |- *.
    apply vec_wf_app in Hwf as [_ Hwf]. destruct m2 as [|c2 m2].
    + rewrite app_nil_r. replace (S (length m1)) with (length (m1 ++ [c]))
        by (rewrite length_app; simpl; lia). apply at_pos_end.
    + apply Forall_cons in Hwf as [(?&?&?) _].
      replace (S (length m1)) with (length (m1 ++ [c])) by (rewrite length_app; simpl; lia).
      pose proof (at_pos_make (m1 ++ [c]) c2 m2 [] (data c2)) as Hp.
      rewrite app_nil_r in Hp. by apply Hp.
  - eexists; split; [done|].
    pose proof (at_pos_make m1 c m2 (d1 ++ [r]) (r2 :: d2)) as Hp.
    rewrite length_app in Hp; simpl in Hp. rewrite Nat.add_1_r in Hp.
    rewrite <-app_assoc. apply Hp; [|done]. by rewrite Hd, <-app_assoc.
Qed.

Lemma prev_at m it pre r post :
  vec_wf m → at_pos m it (pre ++ [r]) post →
  ∃ it', Iterator.prev m it = Some it' ∧ at_pos m it' pre (r :: post).
Proof.
  intros Hwf Hat.
  assert (∀ m1 c m2 o, m = m1 ++ c :: m2 → o = S (length m1) →
     pre ++ [r] = ranges m1 ++ data c → post = ranges m2 →
     ∃ it', (c ← m !! pred o; match length (data c) with
        | O => None | S back => Some (Iter (pred o) back) end) = Some it' ∧
        at_pos m it' pre (r :: post)) as Hback.
  { intros m1 c m2 o -> -> Heq ->. simpl. rewrite lookup_app_here; simpl.
    apply vec_wf_mid in Hwf as (_&(_&Hne&_)&_).
    destruct (destruct_last (data c) Hne) as (d1 & x & Hd).
    rewrite Hd in Heq. rewrite app_assoc in Heq. apply app_inj_2 in Heq as [-> ?]; [|done].
    simplify_eq. rewrite Hd, length_app, Nat.add_1_r; simpl.
    eexists; split; [done|]. pose proof (at_pos_make m1 c m2 d1 [x]) as Hp. by apply Hp. }
  unfold Iterator.prev. destruct post as [|r' post].
  - pose proof (at_pos_end_inv _ _ _ Hwf Hat) as ->. unfold Iterator.end_it; simpl.
    rewrite Nat.eqb_refl; simpl. apply at_pos_split in Hat. rewrite app_nil_r in Hat.
    assert (m ≠ []) as Hne. { intros ->. by destruct pre. }
    destruct (destruct_last m Hne) as (m1 & c & Hm).
    assert (length m = S (length m1)) as Hl. { rewrite Hm, length_app; simpl; lia. }
    rewrite Hl. apply (Hback m1 c [] (S (length m1))); [done|done| |done].
    rewrite <-Hat, Hm, ranges_app, ranges_cons. simpl. by rewrite app_nil_r.
  - apply at_pos_inv in Hat as (m1&c&m2&d1&d2&Hm&Hd&->&Hpre&->). simpl.
    assert (length m1 ≠ length m) as Hne. { rewrite Hm, length_app; simpl; lia. }
    apply Nat.eqb_neq in Hne as ->. simpl.
    destruct (Nat.eqb_spec (length d1) 0) as [Hz|Hz].
    + apply nil_length_inv in Hz as ->. simpl in *. rewrite app_nil_r in Hpre.
      assert (m1 ≠ []) as Hne. { intros ->. by destruct pre. }
      destruct (destruct_last m1 Hne) as (m0 & c0 & ->).
      rewrite length_app, Nat.add_1_r. rewrite <-app_assoc in Hm. simpl in Hm.
      apply (Hback m0 c0 (c :: m2) (S (length m0))); [done|done| |].
      * rewrite Hpre, ranges_app, ranges_cons; simpl. by rewrite app_nil_r.
      * by rewrite ranges_cons, Hd.
    + destruct (destruct_last d1) as (d0 & x & ->); [by intros ->|].
      rewrite app_assoc in Hpre. apply app_inj_2 in Hpre as [-> ?]; [|done]. simplify_eq.
      eexists; split; [done|]. rewrite length_app, Nat.add_1_r; simpl.
      pose proof (at_pos_make m1 c m2 d0 (x :: r' :: d2)) as Hp. apply Hp; [|done].
      by rewrite Hd, <-app_assoc.
Qed.

(** ** In-place modification *)
Lemma replaced_chunk c d1 r d2 r' count :
  chunk_wf c → data c = d1 ++ r :: d2 →
  count = wrap (sum_len (d1 ++ r' :: d2)) →
  mkChunk (<[length d1 := r']> (data c))
    (if (length d1 =? 0)%nat then r'.1 else chunk_begin c)
    (if (S (length d1) =? length (data c))%nat then r'.2 else chunk_end c) count =
  of_data (d1 ++ r' :: d2).
Proof.
  intros (Hc&_&_) Hd ->. rewrite Hc; simpl. rewrite Hd, list_insert_app_here.
  unfold of_data. rewrite !front_of_app, !back_of_app, !length_app; simpl. by repeat case_match.
Qed.

Lemma replaced_at m1 c m2 d1 r d2 r' :
  vec_wf (m1 ++ c :: m2) → data c = d1 ++ r :: d2 →
  let m' := m1 ++ of_data (d1 ++ r' :: d2) :: m2 in
  vec_wf m' ∧ sizes m' = sizes (m1 ++ c :: m2) ∧
  at_pos m' (Iter (length m1) (length d1)) (ranges m1 ++ d1) (r' :: d2 ++ ranges m2).
Proof.
  intros (H1&(_&_&Hs)&H2)%vec_wf_mid Hd m'. split_and!.
  - apply vec_wf_mid. split_and!; [done| |done]. apply chunk_wf_of_data.
    + by destruct d1.
    + rewrite Hd, length_app in Hs. by rewrite length_app.
  - unfold m', sizes. rewrite !fmap_app, !fmap_cons. do 2 f_equal.
    by rewrite Hd, data_of_data, !length_app.
  - by apply (at_pos_make m1 (of_data _) m2 d1 (r' :: d2)).
Qed.

Lemma set_at m it pre r post a b :
  vec_wf m → at_pos m it pre (r :: post) →
  ∃ m', Iterator.set m it a b = Some m' ∧ vec_wf m' ∧ sizes m' = sizes m ∧
    at_pos m' it pre ((a, b) :: post).
Proof.
  intros Hwf (m1&c&m2&d1&d2&->&Hd&->&->&->)%at_pos_inv.
  destruct (replaced_at _ _ _ _ _ _ (a, b) Hwf Hd) as (?&?&?).
  eexists; split; [|done]. unfold Iterator.set; simpl.
  rewrite lookup_app_here; simpl. rewrite Hd, lookup_app_here; simpl.
  rewrite list_insert_app_here, <-Hd. do 3 f_equal.
  apply vec_wf_mid in Hwf as (_&Hc&_). apply (replaced_chunk c d1 r d2 (a, b)); [done..|].
  destruct Hc as (->&_). simpl. rewrite Hd, !sum_len_app; simpl. unfold range_len; simpl. wrap_ring.
Qed.

Lemma adjust_at m it pre r post a b :
  vec_wf m → at_pos m it pre (r :: post) →
  ∃ m', Iterator.adjust m it a b = Some m' ∧ vec_wf m' ∧ sizes m' = sizes m ∧
    at_pos m' it pre ((r.1 +w a, r.2 +w b) :: post).
Proof.
  intros Hwf (m1&c&m2&d1&d2&->&Hd&->&->&->)%at_pos_inv.
  destruct (replaced_at _ _ _ _ _ _ (r.1 +w a, r.2 +w b) Hwf Hd) as (?&?&?).
  eexists; split; [|done]. unfold Iterator.adjust; simpl.
  rewrite lookup_app_here; simpl. rewrite Hd, lookup_app_here; simpl.
  rewrite list_insert_app_here, <-Hd. do 3 f_equal.
  apply vec_wf_mid in Hwf as (_&Hc&_).
  rewrite <-(replaced_chunk c d1 r d2 _
    (chunk_count c +w (- a + b)) Hc Hd); simpl.
  - destruct Hc as (->&_); simpl. rewrite Hd, front_of_app, back_of_app. f_equal; by case_tests.
  - destruct Hc as (->&_); simpl. rewrite Hd, !sum_len_app; simpl. unfold range_len; simpl.
    wrap_ring.
Qed.

Lemma shift_at m it pre r post d :
  vec_wf m → at_pos m it pre (r :: post) →
  ∃ m', Iterator.shift m it d = Some m' ∧ vec_wf m' ∧ sizes m' = sizes m ∧
    at_pos m' it pre ((r.1 +w d, r.2 +w d) :: post).
Proof.
  intros Hwf (m1&c&m2&d1&d2&->&Hd&->&->&->)%at_pos_inv.
  destruct (replaced_at _ _ _ _ _ _ (r.1 +w d, r.2 +w d) Hwf Hd) as (?&?&?).
  eexists; split; [|done]. unfold Iterator.shift; simpl.
  rewrite lookup_app_here; simpl. rewrite Hd, lookup_app_here; simpl.
  rewrite list_insert_app_here, <-Hd. do 3 f_equal.
  apply vec_wf_mid in Hwf as (_&Hc&_).
  rewrite <-(replaced_chunk c d1 r d2 _ (chunk_count c) Hc Hd); simpl.
  - destruct Hc as (->&_); simpl. rewrite Hd, front_of_app, back_of_app. f_equal; by case_tests.
  - destruct Hc as (->&_); simpl. rewrite Hd, !sum_len_app; simpl. unfold range_len; simpl.
    wrap_ring.
Qed.

(** ** [verify] holds of every well-formed vector *)
Lemma count_ranges_spec d : count_ranges d = wrap (sum_len d).
Proof.
  unfold count_ranges. assert (∀ acc, foldl (λ acc r, acc +w (r.2 -w r.1)) (wrap acc) d =
    wrap (acc + sum_len d)) as H.
  { induction d as [|r d IH]; intros acc; simpl; [by rewrite Z.add_0_r|].
    replace (wrap acc +w (r.2 -w r.1)) with (wrap (acc + range_len r))
      by (unfold range_len; wrap_ring).
    rewrite IH. by rewrite Z.add_assoc. }
  by apply (H 0).
Qed.

Lemma verify_ranges_ok lo pe rs :
  ranges_ok lo rs → pe = npos ∨ pe ≤ lo → verify_ranges pe rs = true.
Proof.
  revert lo pe. induction rs as [|r rs IH]; intros lo pe; simpl; [done|].
  intros (?&?&?&H) Hpe. apply IH with (pe := r.2) in H; [|lia]. rewrite H.
  case_tests.
Qed.

Lemma verify_chunk_ok lo c : chunk_wf c → ranges_ok lo (data c) → -1 ≤ lo → verify_chunk c = true.
Proof.
  intros (Hc&Hne&_) Hok Hlo. pose proof (sum_len_span _ _ Hne Hok).
  destruct (ranges_ok_bounds _ _ Hne Hok) as (?&?&?&?).
  unfold verify_chunk. rewrite Hc; simpl. rewrite count_ranges_spec.
  unfold front_of, back_of in *.
  destruct (head (data c)) eqn:Eh; [|by apply head_None in Eh].
  destruct (last (data c)) eqn:El; [|by apply last_None in El]. simpl in *.
  size_simpl. case_tests.
Qed.

Lemma verify_ok m : vec_wf m → ranges_ok (-1) (ranges m) → verify m = true.
Proof.
  intros Hwf Hok. unfold verify. destruct REALM_DEBUG; [|done].
  rewrite (verify_ranges_ok (-1)) by auto. simpl. apply forallb_forall. intros c Hc.
  apply list_elem_of_In, list_elem_of_split in Hc as (m1 & m2 & ->).
  apply vec_wf_mid in Hwf as (_&Hc&_).
  rewrite ranges_app, ranges_cons, !ranges_ok_app in Hok. destruct Hok as (H1&Hok&_).
  eapply verify_chunk_ok; [done..|]. apply ranges_ok_hi in H1. lia.
Qed.

(** ** Insertion and erasure *)
Lemma chunk_of_data d b e n :
  b = front_of d → e = back_of d → n = wrap (sum_len d) → mkChunk d b e n = of_data d.
Proof. by intros -> -> ->. Qed.

Lemma push_back_ok m v :
  vec_wf m → ranges_ok (-1) (ranges m ++ [v]) →
  ∃ m', push_back m v = Some m' ∧ vec_wf m' ∧ ranges m' = ranges m ++ [v].
Proof.
  intros Hwf Hok. unfold push_back.
  assert (∀ m', vec_wf m' → ranges m' = ranges m ++ [v] → verify m' = true) as Hver.
  { intros m' Hwf' Hr. apply verify_ok; [done|]. by rewrite Hr. }
  assert (∀ m', vec_wf m' → ranges m' = ranges m ++ [v] →
    ∃ m'', (assert! verify m'; Some m') = Some m'' ∧ vec_wf m'' ∧ ranges m'' = ranges m ++ [v])
    as Hend. { intros m' ? ?. rewrite Hver by done. eauto. }
  assert (vec_wf (m ++ [mkChunk [v] v.1 v.2 (v.2 -w v.1)]) ∧
    ranges (m ++ [mkChunk [v] v.1 v.2 (v.2 -w v.1)]) = ranges m ++ [v]) as [Hnew Hnewr].
  { rewrite ranges_app, vec_wf_app. split; [|done]. split; [done|]. apply Forall_singleton.
    split_and!; [|done|simpl; pose proof max_size_ge; lia].
    apply chunk_of_data; [done..|]. simpl. unfold range_len. wrap_ring. }
  destruct (last m) as [c|] eqn:Hl; simpl.
  - apply last_Some in Hl as (m1 & ->). apply vec_wf_mid in Hwf as (Hwf1&Hc&_).
    destruct (chunk_wf_inv _ Hc) as (d & -> & Hne & Hs). simpl.
    rewrite ranges_app, ranges_cons, app_nil_r in Hok; simpl in Hok.
    destruct (Nat.ltb_spec (length d) max_size); [|by apply Hend].
    assert (back_of d < v.1 ∧ v.1 < v.2) as [? ?].
    { rewrite !ranges_ok_app in Hok. destruct Hok as ((H1&H2)&H3&?&?&_).
      rewrite hi_of_app in H3. apply ranges_ok_bounds in H2 as (_&_&_&->); [lia|done]. }
    destruct (Z.leb_spec (back_of d) v.1); [|lia].
    rewrite length_app; simpl. rewrite Nat.add_1_r; simpl.
    rewrite list_insert_app_here. apply Hend.
    + apply vec_wf_mid. split_and!; [done| |by constructor]. split_and!.
      * apply chunk_of_data; simpl.
        -- by destruct d.
        -- unfold back_of. by rewrite last_snoc.
        -- rewrite sum_len_app; simpl. unfold range_len. wrap_ring.
      * simpl. by destruct d.
      * simpl. rewrite length_app; simpl. lia.
    + rewrite !ranges_app, !ranges_cons; simpl. by rewrite !app_nil_r, app_assoc.
  - by apply Hend.
Qed.

Lemma moved_back d n : (n < length d)%nat → back_of (drop n d) = back_of d.
Proof.
  intros. unfold back_of. rewrite <-(take_drop n d) at 2.
  rewrite last_app. destruct (last (drop n d)) eqn:E; [done|].
  apply last_None, (f_equal length) in E. rewrite length_drop in E. simpl in E. lia.
Qed.

Lemma moved_front d n : (0 < n)%nat → front_of (take n d) = front_of d.
Proof. destruct n; [lia|]. by destruct d. Qed.

(** Splitting the chunk [d] after [n] ranges. *)
Definition split_chunk (m1 : list Chunk) (d : list (Z * Z)) (n : nat) (m2 : list Chunk) :=
  m1 ++ of_data (take n d) :: of_data (drop n d) :: m2.

Lemma split_chunk_ranges m1 d n m2 :
  ranges (split_chunk m1 d n m2) = ranges (m1 ++ of_data d :: m2).
Proof.
  unfold split_chunk. rewrite !ranges_app, !ranges_cons; simpl.
  by rewrite (app_assoc (take n d)), take_drop.
Qed.

Lemma split_chunk_left m1 d1 r d2 n m2 :
  (length d1 < n)%nat →
  at_pos (split_chunk m1 (d1 ++ r :: d2) n m2) (Iter (length m1) (length d1))
    (ranges m1 ++ d1) (r :: d2 ++ ranges m2).
Proof.
  intros Hn. pose proof (at_pos_make m1 (of_data (take n (d1 ++ r :: d2)))
    (of_data (drop n (d1 ++ r :: d2)) :: m2) d1 (take (n - length d1) (r :: d2))) as Hp.
  assert (take (n - length d1) (r :: d2) ≠ []) as Hne.
  { destruct (n - length d1)%nat eqn:?; [lia|done]. }
  specialize (Hp ltac:(simpl; by rewrite take_app_ge by lia) Hne).
  replace (r :: d2 ++ ranges m2) with (take (n - length d1) (r :: d2) ++
    ranges (of_data (drop n (d1 ++ r :: d2)) :: m2)); [done|].
  rewrite ranges_cons; simpl. by rewrite app_assoc, drop_app_ge, take_drop by lia.
Qed.

Lemma split_chunk_right m1 d1 r d2 n m2 :
  (n ≤ length d1)%nat →
  at_pos (split_chunk m1 (d1 ++ r :: d2) n m2) (Iter (S (length m1)) (length d1 - n))
    (ranges m1 ++ d1) (r :: d2 ++ ranges m2).
Proof.
  intros Hn. unfold split_chunk. rewrite cons_middle, app_assoc.
  pose proof (at_pos_make (m1 ++ [of_data (take n (d1 ++ r :: d2))])
    (of_data (drop n (d1 ++ r :: d2))) m2 (drop n d1) (r :: d2)) as Hp.
  specialize (Hp ltac:(simpl; by rewrite drop_app_le by lia) ltac:(done)).
  rewrite length_app, Nat.add_1_r, length_drop in Hp.
  replace (ranges m1 ++ d1) with
    (ranges (m1 ++ [of_data (take n (d1 ++ r :: d2))]) ++ drop n d1); [done|].
  rewrite ranges_app, ranges_cons; simpl.
  by rewrite app_nil_r, take_app_le, <-app_assoc, take_drop by lia.
Qed.

Lemma ensure_space_ok m it pre r post :
  vec_wf m → at_pos m it pre (r :: post) → ranges_ok (-1) (ranges m) →
  ∃ m' it', ensure_space m it = Some (m', it') ∧ vec_wf m' ∧ at_pos m' it' pre (r :: post) ∧
    ∃ c, m' !! m_outer it' = Some c ∧ (length (data c) < max_size)%nat.
Proof.
  intros Hwf (m1&c&m2&d1&d2&->&Hd&->&->&->)%at_pos_inv Hok.
  pose proof Hwf as (Hwf1&Hc&Hwf2)%vec_wf_mid.
  destruct (chunk_wf_inv _ Hc) as (d & -> & Hne & Hs). simpl in Hd.
  unfold ensure_space; simpl. rewrite lookup_app_here; simpl.
  destruct (Nat.leb_spec (length d + 1) max_size).
  { do 2 eexists; split_and!; [done..| |].
    - by apply (at_pos_make m1 (of_data d) m2 d1 (r :: d2)).
    - simpl. rewrite lookup_app_here. eexists; split; [done|]. simpl. lia. }
  pose proof max_size_ge as [Hm1 Hm2].
  set (h := (max_size / 2)%nat) in *. set (n := (length d - h)%nat).
  assert (length (take n d) = n) as Hkl by (rewrite length_take; lia).
  assert (length (drop n d) = h) as Hml by (rewrite length_drop; lia).
  destruct (last (take n d)) as [kb|] eqn:Ekb.
  2:{ apply last_None in Ekb. rewrite Ekb in Hkl. simpl in Hkl. lia. }
  destruct (head (drop n d)) as [mf|] eqn:Emf.
  2:{ apply head_None in Emf. rewrite Emf in Hml. simpl in Hml. lia. }
  destruct (last (drop n d)) as [mb|] eqn:Emb.
  2:{ apply last_None in Emb. rewrite Emb in Hml. simpl in Hml. lia. }
  simpl. rewrite list_insert_app_here, vector_insert_after; simpl.
  rewrite (chunk_of_data (take n d)), (chunk_of_data (drop n d));
    [|unfold front_of, back_of; by rewrite ?Emf, ?Emb|unfold front_of, back_of; by rewrite ?Emf, ?Emb
     |apply count_ranges_spec|symmetry; apply moved_front; lia
     |unfold back_of; by rewrite Ekb
     |rewrite count_ranges_spec, <-(take_drop n d) at 1; rewrite sum_len_app; wrap_ring].
  fold (split_chunk m1 d n m2).
  assert (vec_wf (split_chunk m1 d n m2)) as Hwf'.
  { apply vec_wf_mid. split_and!; [done| |apply Forall_cons; split; [|done]];
      apply chunk_wf_of_data; first [lia | by (intros E; rewrite E in *; simpl in *; lia)]. }
  rewrite verify_ok by (rewrite ?split_chunk_ranges; done).
  do 2 eexists. split_and!; [done|done| |].
  - subst d. assert (n = h) as Hnh by lia.
    destruct (Nat.leb_spec h (length d1)) as [Hle|Hgt].
    + rewrite <-Hnh. apply split_chunk_right. lia.
    + apply split_chunk_left. lia.
  - unfold split_chunk. destruct (Nat.leb_spec h (length d1)); simpl.
    + rewrite cons_middle, app_assoc. exists (of_data (drop n d)). split; [|simpl; lia].
      apply list_lookup_middle. rewrite length_app; simpl; lia.
    + exists (of_data (take n d)). split; [apply lookup_app_here|simpl; lia].
Qed.

Lemma front_sorted lo d1 v d2 :
  d1 ++ d2 ≠ [] → ranges_ok lo (d1 ++ v :: d2) →
  Z.min (front_of (d1 ++ d2)) v.1 = front_of (d1 ++ v :: d2) ∧
  Z.max (back_of (d1 ++ d2)) v.2 = back_of (d1 ++ v :: d2).
Proof.
  intros Hne Hok. pose proof (ranges_ok_remove _ _ _ _ Hok) as Hok'.
  destruct (ranges_ok_bounds _ _ Hne Hok') as (_&?&_&Hb).
  destruct (ranges_ok_bounds lo (d1 ++ v :: d2)) as (_&_&_&Hb'); [by destruct d1|done|].
  rewrite Hb, Hb', !hi_of_app; simpl. apply ranges_ok_app in Hok as (H1&?&?&?&H2). split.
  - rewrite front_of_app. destruct d1 as [|r d1]; simpl in *.
    + destruct d2; simpl in *; [done|]. unfold front_of; simpl. lia.
    + unfold front_of; simpl. destruct H1 as (?&?&?&H1). apply ranges_ok_hi in H1. lia.
  - apply ranges_ok_hi in H2. destruct d2 as [|r2 d2]; simpl in *; lia.
Qed.

Lemma insert_ok m it pre post v :
  vec_wf m → at_pos m it pre post → ranges_ok (-1) (pre ++ v :: post) →
  ∃ m' it', insert m it v = Some (m', it') ∧ vec_wf m' ∧ at_pos m' it' pre (v :: post).
Proof.
  intros Hwf Hat Hok. pose proof (ranges_ok_remove _ _ _ _ Hok) as Hok'.
  pose proof (at_pos_split _ _ _ _ Hat) as Hr. unfold insert. destruct post as [|r post].
  - pose proof (at_pos_end_inv _ _ _ Hwf Hat) as ->. unfold Iterator.end_it at 1; simpl.
    rewrite Nat.eqb_refl. rewrite app_nil_r in Hr.
    destruct (push_back_ok m v Hwf) as (m' & -> & Hwf' & Hr'); [by rewrite Hr|].
    pose proof (at_pos_end m') as Hend. rewrite Hr', Hr in Hend.
    destruct (prev_at _ _ _ _ _ Hwf' Hend) as (it' & Hp & ?). cbn [mbind option_bind].
    rewrite Hp. cbn [mbind option_bind]. eauto.
  - assert ((m_outer it =? length m)%nat = false) as ->.
    { apply Nat.eqb_neq. apply at_pos_inv in Hat as (m1&?&?&?&?&->&?&->&?). simpl.
      rewrite length_app; simpl. lia. }
    destruct (ensure_space_ok m it pre r post Hwf Hat) as (m2&it2&->&Hwf2&Hat2&c&Hc&Hs);
      [by rewrite Hr|]. simpl.
    rewrite Hc; simpl. apply at_pos_inv in Hat2 as (l1&c'&l2&d1&d2&->&Hd&->&->&->).
    simpl in Hc. rewrite lookup_app_here in Hc. simplify_eq.
    apply vec_wf_mid in Hwf2 as (Hw1&Hc&Hw2). destruct (chunk_wf_inv _ Hc) as (d & -> & Hne & _).
    simpl in *. subst d. rewrite vector_insert_app; simpl. rewrite list_insert_app_here.
    assert (ranges_ok (hi_of (-1) (ranges l1)) (d1 ++ v :: r :: d2)) as Hokd.
    { rewrite <-app_assoc, ranges_ok_app in Hok. destruct Hok as (_&Hok).
      rewrite app_comm_cons, app_comm_cons, app_assoc, ranges_ok_app in Hok. tauto. }
    destruct (front_sorted _ _ _ _ Hne Hokd) as [Hf Hb].
    rewrite (chunk_of_data (d1 ++ v :: r :: d2)); [|done..|].
    2:{ rewrite !sum_len_app; simpl. unfold range_len. wrap_ring. }
    set (m' := l1 ++ of_data (d1 ++ v :: r :: d2) :: l2).
    assert (vec_wf m') as Hwf'.
    { apply vec_wf_mid. split_and!; [done| |done]. apply chunk_wf_of_data; [by destruct d1|].
      rewrite length_app in *; simpl in *. lia. }
    rewrite verify_ok; [|done|].
    + do 2 eexists; split_and!; [done..|].
      by apply (at_pos_make l1 (of_data _) l2 d1 (v :: r :: d2)).
    + unfold m'. rewrite ranges_app, ranges_cons; simpl. by rewrite <-!app_assoc in Hok |- *.
Qed.

Lemma erase_ok m it pre r post :
  vec_wf m → at_pos m it pre (r :: post) → ranges_ok (-1) (pre ++ post) →
  ∃ m' it', erase m it = Some (m', it') ∧ vec_wf m' ∧ at_pos m' it' pre post.
Proof.
  intros Hwf (m1&c&m2&d1&d2&->&Hd&->&->&->)%at_pos_inv Hok.
  apply vec_wf_mid in Hwf as (Hw1&Hc&Hw2). destruct (chunk_wf_inv _ Hc) as (d & -> & Hne & Hs).
  simpl in Hd. subst d. unfold erase; simpl. rewrite lookup_app_here; simpl.
  rewrite lookup_app_here; simpl. rewrite !vector_erase_app; simpl.
  destruct (decide (d1 ++ d2 = [])) as [He|He].
  - apply app_nil in He as [-> ->]. simpl.
    assert (vec_wf (m1 ++ m2)) as Hwf' by (by apply vec_wf_app).
    rewrite verify_ok; [|done|].
    + do 2 eexists; split_and!; [done..|]. rewrite app_nil_r. destruct m2 as [|c2 m2].
      * rewrite app_nil_r. apply at_pos_end.
      * apply Forall_cons in Hw2 as [(_&?&_) _]. rewrite ranges_cons.
        pose proof (at_pos_make m1 c2 m2 [] (data c2)) as Hp. rewrite app_nil_r in Hp. by apply Hp.
    + rewrite ranges_app. by rewrite app_nil_r in Hok.
  - destruct (head (d1 ++ d2)) as [f|] eqn:Ef; [|by apply head_None in Ef].
    destruct (last (d1 ++ d2)) as [b|] eqn:Eb; [|by apply last_None in Eb].
    rewrite list_insert_app_here, (chunk_of_data (d1 ++ d2));
      [|unfold front_of, back_of; by rewrite ?Ef, ?Eb|unfold front_of, back_of; by rewrite ?Ef, ?Eb
       |rewrite !sum_len_app; simpl; unfold range_len; wrap_ring].
    set (m' := m1 ++ of_data (d1 ++ d2) :: m2).
    assert (vec_wf m') as Hwf'.
    { apply vec_wf_mid. split_and!; [done| |done]. apply chunk_wf_of_data; [done|].
      rewrite length_app in *; simpl in *. lia. }
    rewrite verify_ok; [|done|].
    2:{ unfold m'. rewrite ranges_app, ranges_cons; simpl. by rewrite <-!app_assoc in Hok |- *. }
    do 2 eexists; split_and!; [done..|]. rewrite length_app. destruct d2 as [|r2 d2]; simpl.
    + case_tests. unfold m'. rewrite (app_nil_r d1), cons_middle, app_assoc.
      replace (S (length m1)) with (length (m1 ++ [of_data d1])) by (rewrite length_app; simpl; lia).
      replace (ranges m1 ++ d1) with (ranges (m1 ++ [of_data d1]))
        by (rewrite ranges_app, ranges_cons; simpl; by rewrite app_nil_r).
      destruct m2 as [|c2 m2].
      * rewrite (app_nil_r (_ ++ _)). apply at_pos_end.
      * apply Forall_cons in Hw2 as [(_&?&_) _]. rewrite ranges_cons.
        pose proof (at_pos_make (m1 ++ [of_data d1]) c2 m2 [] (data c2)) as Hp'.
        rewrite app_nil_r in Hp'. by apply Hp'.
    + case_tests. by apply (at_pos_make m1 (of_data _) m2 d1 (r2 :: d2)).
Qed.
End Representation.
