(* ===== verification/IndexSet.v ===== *)
(** [realm::IndexSet] (include/index_set.hpp, ObjectStore/src/index_set.cpp):
    the operations on the chunked vector, and their meaning as operations on
    sets of indices. *)
From S2P Require Import Prelude ChunkedRangeVector.

(** [IndexSet] derives from [ChunkedRangeVector]: its only field is [m_data]. *)
Abbreviation IndexSet := (list Chunk) (only parsing).

Module IndexSet.
Import ChunkedRangeVector.
Section Operations.
Context {build : Build}.

(** Enough fuel for a loop over the ranges of [m]. *)
Definition range_fuel (m : IndexSet) : nat := S (length (ranges m)).

Definition empty (m : IndexSet) : bool := match m with [] => true | _ => false end.

Definition is_end (m : IndexSet) (it : iterator) : bool :=
  Iterator.eqb it (Iterator.end_it m).

(** [find(size_t, iterator)] *)
Definition find_from (m : IndexSet) (index : Z) (begin : iterator) : option iterator :=
  let outer := (m_outer begin +
    find_if (λ lft, Z.ltb index (chunk_end lft)) (drop (m_outer begin) m))%nat in
  match m !! outer with
  | None => Some (Iterator.end_it m)
  | Some it =>
      if index <? chunk_begin it then Some (Iter outer 0)
      else
        let inner_begin := if (outer =? m_outer begin)%nat then m_inner begin else 0%nat in
        let inner := lower_bound (λ lft, Z.leb lft.2 index) (data it)
                       inner_begin (length (data it)) in
        assert! negb (inner =? length (data it))%nat;
        Some (Iter outer inner)
  end.

Definition find (m : IndexSet) (index : Z) : option iterator :=
  find_from m index (Iterator.begin_it m).

Definition contains (m : IndexSet) (index : Z) : option bool :=
  it ← find m index;
  if is_end m it then Some false
  else r ← Iterator.deref m it; Some (r.1 <=? index).

(** The four loops of [count], each over the state (iterator, [ret]). *)
Definition count_rest_of_chunk (m : IndexSet) (end_index : Z) :
    iterator * Z → option (iterator * Z) :=
  while_loop (range_fuel m) (λ '(it, ret),
    if is_end m it then Some (inr (it, ret)) else
    r ← Iterator.deref m it;
    if (r.2 <? end_index) && negb (m_inner it =? 0)%nat then
      it' ← Iterator.next m it; Some (inl (it', ret +w (r.2 -w r.1)))
    else Some (inr (it, ret))).

Definition count_chunks (m : IndexSet) (end_index : Z) :
    iterator * Z → option (iterator * Z) :=
  while_loop (range_fuel m) (λ '(it, ret),
    if is_end m it then Some (inr (it, ret)) else
    c ← m !! m_outer it;
    if chunk_end c <=? end_index then
      assert_debug! (m_inner it =? 0)%nat;
      Some (inl (Iterator.next_chunk it, ret +w chunk_count c))
    else Some (inr (it, ret))).

Definition count_ranges_of_chunk (m : IndexSet) (end_index : Z) :
    iterator * Z → option (iterator * Z) :=
  while_loop (range_fuel m) (λ '(it, ret),
    if is_end m it then Some (inr (it, ret)) else
    r ← Iterator.deref m it;
    if r.2 <=? end_index then
      it' ← Iterator.next m it; Some (inl (it', ret +w (r.2 -w r.1)))
    else Some (inr (it, ret))).

(** "Now count all complete chunks": the end of [count]. *)
Definition count_from (m : IndexSet) (end_index : Z) (it : iterator) (ret : Z) : option Z :=
  '(it, ret) ← count_chunks m end_index (it, ret);
  '(it, ret) ← count_ranges_of_chunk m end_index (it, ret);
  if is_end m it then Some ret else
  r ← Iterator.deref m it;
  Some (if r.1 <? end_index then ret +w (end_index -w r.1) else ret).

Definition count (m : IndexSet) (start_index end_index : Z) : option Z :=
  it ← find m start_index;
  if is_end m it then Some 0 else
  r ← Iterator.deref m it;
  if end_index <=? r.1 then Some 0 else
  if end_index <=? r.2 then
    Some (Z.min r.2 end_index -w Z.max r.1 start_index)
  else if (r.1 <? start_index) || negb (m_inner it =? 0)%nat then
    let ret := r.2 -w Z.max r.1 start_index in
    it ← Iterator.next m it;
    '(it, ret) ← count_rest_of_chunk m end_index (it, ret);
    if is_end m it then Some ret else
    r ← Iterator.deref m it;
    let ret :=
      if (r.1 <? end_index) && negb (m_inner it =? 0)%nat
      then ret +w (end_index -w r.1) else ret in
    if end_index <=? r.2 then Some ret else count_from m end_index it ret
  else count_from m end_index it 0.

(** Insert the index before the given position, combining existing ranges as
    applicable. *)
Definition do_add (m : IndexSet) (it : iterator) (index : Z) :
    option (IndexSet * iterator) :=
  assert! verify m;
  let more_before := negb (Iterator.eqb it (Iterator.begin_it m)) in
  let valid := negb (is_end m it) in
  before ← (if more_before then
              p ← Iterator.prev m it; r ← Iterator.deref m p; Some (Some (p, r))
            else Some None);
  at_it ← (if valid then r ← Iterator.deref m it; Some (Some r) else Some None);
  assert! match before with Some (_, r) => r.2 <=? index | None => true end;
  if match at_it with Some r => (r.1 <=? index) && (index <? r.2) | None => false end
  then Some (m, it) else
  let not_after_range :=
    match at_it with
    | Some r =>
        if r.1 =? index +w 1 then m ← Iterator.adjust m it (-1) 0; Some (m, it)
        else insert m it (index, index +w 1)
    | None => insert m it (index, index +w 1)
    end in
  match before with
  | Some (prev, p) =>
      if p.2 =? index then
        m ← Iterator.adjust m prev 0 1;
        p ← Iterator.deref m prev;
        match at_it with
        | Some r =>
            if p.2 =? r.1 then
              m ← Iterator.adjust m prev 0 (r.2 -w r.1);
              '(m, it) ← erase m it;
              it ← Iterator.prev m it;
              Some (m, it)
            else Some (m, prev)
        | None => Some (m, prev)
        end
      else not_after_range
  | None => not_after_range
  end.

Definition add (m : IndexSet) (index : Z) : option IndexSet :=
  it ← find m index;
  '(m, _) ← do_add m it index;
  Some m.

(** [IndexSet(std::initializer_list<size_t>)] *)
Definition of_list (values : list Z) : option IndexSet := foldlM add [] values.

(** [IndexIterator]; comparison ignores the offset. *)
Record IndexIterator := mkIndexIterator { m_iterator : iterator; m_offset : Z }.

Definition index_deref (m : IndexSet) (it : IndexIterator) : option Z :=
  r ← Iterator.deref m (m_iterator it); Some (r.1 +w m_offset it).

Definition index_next (m : IndexSet) (it : IndexIterator) : option IndexIterator :=
  let offset := m_offset it +w 1 in
  r ← Iterator.deref m (m_iterator it);
  if r.1 +w offset =? r.2 then
    next ← Iterator.next m (m_iterator it); Some (mkIndexIterator next 0)
  else Some (mkIndexIterator (m_iterator it) offset).

(** The values a range-based [for] over [as_indexes()] visits. *)
Definition as_indexes (m : IndexSet) : option (list Z) :=
  while_loop (S (Z.to_nat (sum_len (ranges m)))) (λ '(it, seen),
    if Iterator.eqb (m_iterator it) (Iterator.end_it m) then Some (inr (rev seen)) else
    x ← index_deref m it;
    it' ← index_next m it;
    Some (inl (it', x :: seen))) (mkIndexIterator (Iterator.begin_it m) 0, []).

(** [add(IndexSet const&)] *)
Definition add_set (m other : IndexSet) : option IndexSet :=
  indexes ← as_indexes other;
  '(m, _) ← foldlM (λ '(m, it) index, it ← find_from m index it; do_add m it index)
             (m, Iterator.begin_it m) indexes;
  Some m.

(** "Shift for any complete chunks before the target" *)
Definition shift_chunks (m : IndexSet) : iterator * Z → option (iterator * Z) :=
  while_loop (range_fuel m) (λ '(it, index),
    if is_end m it then Some (inr (it, index)) else
    c ← m !! m_outer it;
    if chunk_end c <=? index then
      Some (inl (Iterator.next_chunk it, index +w chunk_count c))
    else Some (inr (it, index))).

(** "And any ranges within the last partial chunk" *)
Definition shift_ranges (m : IndexSet) : iterator * Z → option (iterator * Z) :=
  while_loop (range_fuel m) (λ '(it, index),
    if is_end m it then Some (inr (it, index)) else
    r ← Iterator.deref m it;
    if r.1 <=? index then
      it' ← Iterator.next m it; Some (inl (it', index +w (r.2 -w r.1)))
    else Some (inr (it, index))).

Definition add_shifted (m : IndexSet) (index : Z) : option (IndexSet * Z) :=
  '(it, index) ← shift_chunks m (Iterator.begin_it m, index);
  '(it, index) ← shift_ranges m (it, index);
  '(m, _) ← do_add m it index;
  Some (m, index).

(** [add_shifted_by]: the state of the loop over [values.as_indexes()] *)
Record ShiftedBy := mkShiftedBy {
  sb_builder : Builder; old_it : iterator; shift_it : iterator;
  skip_until : Z; old_shift : Z; new_shift : Z }.

(** "for (; shift_it != shift_end && shift_it->first <= index; ++shift_it)" *)
Definition advance_shift (shifted_by : IndexSet) (index : Z) :
    iterator * Z * Z → option (iterator * Z * Z) :=
  while_loop (range_fuel shifted_by) (λ '(it, new_shift, skip_until),
    if is_end shifted_by it then Some (inr (it, new_shift, skip_until)) else
    r ← Iterator.deref shifted_by it;
    if r.1 <=? index then
      it' ← Iterator.next shifted_by it;
      Some (inl (it', new_shift +w (r.2 -w r.1), r.2))
    else Some (inr (it, new_shift, skip_until))).

(** "for (; old_it != old_end && old_it->first <= ...; ++old_it)" *)
Definition advance_old (m : IndexSet) (index new_shift : Z) :
    Builder * iterator * Z → option (Builder * iterator * Z) :=
  while_loop (range_fuel m) (λ '(builder, it, old_shift),
    if is_end m it then Some (inr (builder, it, old_shift)) else
    r ← Iterator.deref m it;
    if r.1 <=? (index -w new_shift) +w old_shift then
      builder ← foldlM ChunkedRangeVectorBuilder.push_back_index builder
                  (seqZ r.1 (r.2 - r.1));
      it' ← Iterator.next m it;
      Some (inl (builder, it', old_shift +w (r.2 -w r.1)))
    else Some (inr (builder, it, old_shift))).

Definition add_shifted_index (m shifted_by : IndexSet) (s : ShiftedBy) (index : Z) :
    option ShiftedBy :=
  '(it, new_shift, skip_until) ←
    advance_shift shifted_by index (shift_it s, new_shift s, skip_until s);
  if index <? skip_until then
    Some (mkShiftedBy (sb_builder s) (old_it s) it skip_until (old_shift s) new_shift)
  else
    '(builder, oit, old_shift) ←
      advance_old m index new_shift (sb_builder s, old_it s, old_shift s);
    assert! new_shift <=? index;
    builder ← ChunkedRangeVectorBuilder.push_back_index builder
                ((index -w new_shift) +w old_shift);
    Some (mkShiftedBy builder oit it skip_until old_shift new_shift).

(** [copy(old_it, old_end, std::back_inserter(builder))] *)
Definition copy_ranges (m : IndexSet) : Builder * iterator → option Builder :=
  while_loop (range_fuel m) (λ '(builder, it),
    if is_end m it then Some (inr builder) else
    r ← Iterator.deref m it;
    builder ← ChunkedRangeVectorBuilder.push_back_range builder r;
    it' ← Iterator.next m it;
    Some (inl (builder, it'))).

(** The number of indices the debug build expects, and the one it finds
    ([std::distance] over [as_indexes()]). *)
Definition distance (m : IndexSet) : option Z :=
  l ← as_indexes m; Some (Z.of_nat (length l)).

Definition expected_size (m shifted_by : IndexSet) (values : list Z) : option Z :=
  size ← distance m;
  foldlM (λ expected index,
    c ← contains shifted_by index;
    Some (if (c : bool) then expected else expected +w 1)) size values.

Definition add_shifted_by (m shifted_by values : IndexSet) : option IndexSet :=
  if empty values then Some m else
  indexes ← as_indexes values;
  expected ← (if REALM_DEBUG then expected_size m shifted_by indexes else Some 0);
  s ← foldlM (add_shifted_index m shifted_by)
        (mkShiftedBy (ChunkedRangeVectorBuilder.init m) (Iterator.begin_it m)
           (Iterator.begin_it shifted_by) 0 0 0) indexes;
  builder ← copy_ranges m (sb_builder s, old_it s);
  m' ← ChunkedRangeVectorBuilder.finalize builder;
  found ← (if REALM_DEBUG then distance m' else Some 0);
  assert! found =? expected; Some m'.

Definition clear (m : IndexSet) : IndexSet := [].

(** [set(size_t len)] *)
Definition set (m : IndexSet) (len : Z) : option IndexSet :=
  let m := clear m in
  if len =? 0 then Some m else push_back m (0, len).

(** "for (; it != end; ++it) it.shift(distance)" *)
Definition shift_until_end (distance : Z) : IndexSet * iterator → option IndexSet :=
  λ '(m, it), while_loop (range_fuel m) (λ '(m, it),
    if is_end m it then Some (inr m) else
    m ← Iterator.shift m it distance;
    it' ← Iterator.next m it;
    Some (inl (m, it'))) (m, it).

Definition insert_at (m : IndexSet) (index count : Z) : option IndexSet :=
  assert! 0 <? count;
  pos ← find m index;
  '(m, in_existing) ←
    (if is_end m pos then Some (m, false) else
     r ← Iterator.deref m pos;
     '(m, in_existing) ←
       (if r.1 <=? index then m ← Iterator.adjust m pos 0 count; Some (m, true)
        else m ← Iterator.shift m pos count; Some (m, false));
     it ← Iterator.next m pos;
     m ← shift_until_end count (m, it);
     Some (m, in_existing));
  m ← (if (in_existing : bool) then Some m else
       '(m, _) ← foldlM (λ '(m, pos) i,
           '(m, it) ← do_add m pos (index +w i);
           it' ← Iterator.next m it;
           Some (m, it')) (m, pos) (seqZ 0 count);
       Some m);
  assert! verify m; Some m.

Definition shift_for_insert_at (m : IndexSet) (index count : Z) : option IndexSet :=
  assert! 0 <? count;
  it ← find m index;
  if is_end m it then Some m else
  m ← shift_until_end count (m, it);
  r ← Iterator.deref m it;
  m ← (if r.1 <? index +w count then
         m ← Iterator.set m it (r.1 -w count) index;
         next ← Iterator.next m it;
         '(m, _) ← insert m next (index +w count, r.2);
         Some m
       else Some m);
  assert! verify m; Some m.

Definition do_erase (m : IndexSet) (it : iterator) (index : Z) : option IndexSet :=
  r ← Iterator.deref m it;
  '(m, it) ←
    (if r.1 <=? index then
       if r.1 +w 1 =? r.2 then erase m it
       else
         m ← Iterator.adjust m it 0 (-1);
         it ← Iterator.next m it;
         Some (m, it)
     else if Iterator.eqb it (Iterator.begin_it m) then Some (m, it)
     else
       prev ← Iterator.prev m it;
       p ← Iterator.deref m prev;
       if p.2 +w 1 =? r.1 then
         m ← Iterator.adjust m prev 0 (r.2 -w r.1);
         erase m it
       else Some (m, it));
  shift_until_end (-1) (m, it).

Definition erase_at (m : IndexSet) (index : Z) : option IndexSet :=
  it ← find m index;
  if is_end m it then Some m else do_erase m it index.

(** The two loops of [erase_or_unshift] over (iterator, [shifted]) *)
Definition unshift_chunks (m : IndexSet) (index : Z) :
    iterator * Z → option (iterator * Z) :=
  while_loop (range_fuel m) (λ '(it, shifted),
    if is_end m it then Some (inr (it, shifted)) else
    c ← m !! m_outer it;
    if chunk_end c <=? index then
      Some (inl (Iterator.next_chunk it, shifted -w chunk_count c))
    else Some (inr (it, shifted))).

Definition unshift_ranges (m : IndexSet) (index : Z) :
    iterator * Z → option (iterator * Z) :=
  while_loop (range_fuel m) (λ '(it, shifted),
    if is_end m it then Some (inr (it, shifted)) else
    r ← Iterator.deref m it;
    if r.2 <=? index then
      it' ← Iterator.next m it; Some (inl (it', shifted -w (r.2 -w r.1)))
    else Some (inr (it, shifted))).

Definition erase_or_unshift (m : IndexSet) (index : Z) : option (IndexSet * Z) :=
  '(it, shifted) ← unshift_chunks m index (Iterator.begin_it m, index);
  '(it, shifted) ← unshift_ranges m index (it, shifted);
  if is_end m it then Some (m, shifted) else
  r ← Iterator.deref m it;
  let shifted := if r.1 <=? index then npos else shifted in
  m ← do_erase m it index;
  Some (m, shifted).

(** The body of [do_remove]'s loop, at a range that meets [begin .. end) *)
Definition remove_step (m : IndexSet) (it : iterator) (r : Z * Z) (begin end_ : Z) :
    option (IndexSet * iterator) :=
  if (r.1 <? begin) && (end_ <? r.2) then
    m ← Iterator.set m it r.1 begin;
    next ← Iterator.next m it;
    '(m, it) ← insert m next (end_, r.2);
    it ← Iterator.prev m it;
    Some (m, it)
  else if (begin =? r.1) && (r.2 <=? end_) then erase m it
  else if begin =? r.1 then m ← Iterator.set m it end_ r.2; Some (m, it)
  else m ← Iterator.set m it r.1 begin; Some (m, it).

Definition do_remove (m : IndexSet) (it : iterator) (begin end_ : Z) :
    option (IndexSet * iterator) :=
  it ← find_from m begin it;
  while_loop (S (range_fuel m)) (λ '(m, it, begin),
    if is_end m it then Some (inr (m, it)) else
    r ← Iterator.deref m it;
    if r.1 <? end_ then
      let begin := Z.max r.1 begin in
      '(m, it) ← remove_step m it r begin end_;
      it ← find_from m begin it;
      Some (inl (m, it, begin))
    else Some (inr (m, it))) (m, it, begin).

Definition remove (m : IndexSet) (index count : Z) : option IndexSet :=
  it ← find m index;
  '(m, _) ← do_remove m it index (index +w count);
  Some m.

(** [remove(IndexSet const&)]: stops once the end is reached. *)
Definition remove_set (m values : IndexSet) : option IndexSet :=
  '(m, _) ← foldlM (λ '(m, it) range,
      match it with
      | None => Some (m, None)
      | Some it =>
          '(m, it) ← do_remove m it range.1 range.2;
          Some (m, if is_end m it then None else Some it)
      end) (m, Some (Iterator.begin_it m)) (ranges values);
  Some m.

(** [shift]: the range-based loop with its [break] *)
Fixpoint shift_loop (rs : list (Z * Z)) (index : Z) : Z :=
  match rs with
  | [] => index
  | r :: rs => if index <? r.1 then index else shift_loop rs (index +w (r.2 -w r.1))
  end.

Definition shift (m : IndexSet) (index : Z) : Z := shift_loop (ranges m) index.

Definition unshift (m : IndexSet) (index : Z) : option Z :=
  c ← contains m index;
  assert_debug! negb c;
  n ← count m 0 index;
  Some (index -w n).

(** The merges of two sets of indices: [begin1] and [begin2] are the indices
    the two [IndexIterator]s have not visited yet. *)
Definition push_rest (f : Z → Z) (l : list Z) (b : Builder) : option Builder :=
  foldlM (λ b x, ChunkedRangeVectorBuilder.push_back_index b (f x)) b l.

Fixpoint insert_merge (begin1 : list Z) : list Z → Z → Builder → option Builder :=
  fix go begin2 shift b :=
    match begin1, begin2 with
    | x :: begin1', y :: begin2' =>
        if x +w shift <? y then
          b ← ChunkedRangeVectorBuilder.push_back_index b (x +w shift);
          insert_merge begin1' begin2 shift b
        else
          b ← ChunkedRangeVectorBuilder.push_back_index b y;
          go begin2' (shift +w 1) b
    | _, _ =>
        b ← push_rest (λ x, x +w shift) begin1 b;
        push_rest (λ y, y) begin2 b
    end.

(** [insert_at(IndexSet const&)] *)
Definition insert_set_at (m positions : IndexSet) : option IndexSet :=
  if empty positions then Some m else
  if empty m then Some positions else
  begin1 ← as_indexes m;
  begin2 ← as_indexes positions;
  b ← insert_merge begin1 begin2 0 (ChunkedRangeVectorBuilder.init m);
  ChunkedRangeVectorBuilder.finalize b.

Fixpoint shift_merge (begin1 : list Z) : list Z → Z → Builder → option Builder :=
  fix go begin2 shift b :=
    match begin1, begin2 with
    | x :: begin1', y :: begin2' =>
        if x +w shift <? y then
          b ← ChunkedRangeVectorBuilder.push_back_index b (x +w shift);
          shift_merge begin1' begin2 shift b
        else go begin2' (shift +w 1) b
    | _, _ => push_rest (λ x, x +w shift) begin1 b
    end.

(** [shift_for_insert_at(IndexSet const&)] *)
Definition shift_for_insert_set_at (m values : IndexSet) : option IndexSet :=
  if empty m || empty values then Some m else
  front ← head values;
  back ← last m;
  if chunk_end back <=? chunk_begin front then Some m else
  begin1 ← as_indexes m;
  begin2 ← as_indexes values;
  b ← shift_merge begin1 begin2 0 (ChunkedRangeVectorBuilder.init m);
  ChunkedRangeVectorBuilder.finalize b.

Fixpoint erase_merge (begin1 : list Z) : list Z → Z → Builder → option Builder :=
  fix go begin2 shift b :=
    match begin1, begin2 with
    | x :: begin1', y :: begin2' =>
        if x <? y then
          b ← ChunkedRangeVectorBuilder.push_back_index b (x -w shift);
          erase_merge begin1' begin2 shift b
        else if x =? y then erase_merge begin1' begin2' (shift +w 1) b
        else go begin2' (shift +w 1) b
    | _, _ => push_rest (λ x, x -w shift) begin1 b
    end.

(** [erase_at(IndexSet const&)] *)
Definition erase_set_at (m positions : IndexSet) : option IndexSet :=
  if empty m || empty positions then Some m else
  begin1 ← as_indexes m;
  begin2 ← as_indexes positions;
  b ← erase_merge begin1 begin2 0 (ChunkedRangeVectorBuilder.init m);
  ChunkedRangeVectorBuilder.finalize b.
End Operations.
End IndexSet.

(** ** Sets of indices as lists of ranges *)

(** The number of elements below [x]. *)
Fixpoint below (rs : list (Z * Z)) (x : Z) : Z :=
  match rs with
  | [] => 0
  | r :: rs => Z.max 0 (Z.min r.2 x - r.1) + below rs x
  end.

(** The indices of a list of ranges, in order. *)
Definition indexes (rs : list (Z * Z)) : list Z := rs ≫= λ r, seqZ r.1 (r.2 - r.1).

(** [pre] and [post] are the ranges before and from the first range that ends
    after [index]. *)
Definition splits (lo index : Z) (pre post : list (Z * Z)) : Prop :=
  hi_of lo pre ≤ index ∧ match post with [] => True | r :: _ => index < r.2 end.

Lemma ranges_split lo rs index :
  ranges_ok lo rs → lo ≤ index → ∃ pre post, rs = pre ++ post ∧ splits lo index pre post.
Proof.
  revert lo. induction rs as [|r rs IH]; intros lo Hok Hlo; [by exists [], []|].
  destruct Hok as (?&?&?&Hok). destruct (decide (r.2 ≤ index)).
  - destruct (IH r.2) as (pre&post&->&?); [done..|]. by exists (r :: pre), post.
  - exists [], (r :: rs). split; [done|]. split; simpl; lia.
Qed.

Lemma splits_pre lo index pre post :
  ranges_ok lo pre → splits lo index pre post → Forall (λ r, r.2 ≤ index) pre.
Proof.
  intros Hok [Hhi _]. revert lo Hok Hhi. induction pre as [|r pre IH]; intros lo Hok Hhi; [done|].
  destruct Hok as (?&?&?&Hok). simpl in Hhi. constructor; [|by eapply IH].
  apply ranges_ok_hi in Hok. lia.
Qed.

Lemma splits_post lo lo' index pre post :
  ranges_ok lo' post → splits lo index pre post → Forall (λ r, index < r.2) post.
Proof.
  intros Hok [_ Hhd]. destruct post as [|r post]; [done|]. destruct Hok as (_&_&_&Hok).
  constructor; [done|]. clear -Hok Hhd. revert r Hok Hhd.
  induction post as [|r' post IH]; intros r Hok Hhd; [done|]. destruct Hok as (?&?&?&Hok).
  constructor; [lia|]. eapply IH; [done|lia].
Qed.

Lemma splits_unique lo index pre post pre' post' :
  ranges_ok lo (pre ++ post) → pre ++ post = pre' ++ post' →
  splits lo index pre post → splits lo index pre' post' → pre = pre' ∧ post = post'.
Proof.
  intros Hok Heq Hs Hs'. pose proof Hok as Hok'. rewrite Heq in Hok'.
  apply ranges_ok_app in Hok as [H1 H2], Hok' as [H1' H2'].
  pose proof (splits_pre _ _ _ _ H1 Hs) as F1. pose proof (splits_post _ _ _ _ _ H2 Hs) as F2.
  pose proof (splits_pre _ _ _ _ H1' Hs') as F1'. pose proof (splits_post _ _ _ _ _ H2' Hs') as F2'.
  clear -Heq F1 F2 F1' F2'. revert pre' Heq F1'. induction F1 as [|r pre Hr F1 IH]; intros pre' Heq F1'.
  - destruct F1' as [|r' pre' Hr' F1']; [done|]. simpl in Heq. subst post.
    apply Forall_cons in F2 as [? _]. lia.
  - destruct F1' as [|r' pre' Hr' F1']; simpl in Heq.
    + subst post'. apply Forall_cons in F2' as [? _]. lia.
    + simplify_eq. by destruct (IH pre') as [-> ->].
Qed.

Lemma mem_shift d rs x :
  mem ((λ r, (r.1 + d, r.2 + d)) <$> rs) x ↔ mem rs (x - d).
Proof. induction rs as [|r rs IH]; simpl; [done|]. rewrite IH. intuition lia. Qed.

Lemma hi_of_shift d lo rs :
  hi_of (lo + d) ((λ r, (r.1 + d, r.2 + d)) <$> rs) = hi_of lo rs + d.
Proof. revert lo. induction rs as [|r rs IH]; intros lo; simpl; [done|]. apply IH. Qed.

Lemma ranges_ok_shift d lo lo' rs :
  ranges_ok lo rs → lo' ≤ lo + d → hi_of lo rs + d ≤ npos →
  ranges_ok lo' ((λ r, (r.1 + d, r.2 + d)) <$> rs).
Proof.
  revert lo lo'. induction rs as [|r rs IH]; intros lo lo' Hok Hlo Hhi; [done|].
  destruct Hok as (?&?&?&Hok). simpl in *. pose proof (ranges_ok_hi _ _ Hok).
  split_and!; [lia..|]. by apply (IH r.2).
Qed.

Lemma ranges_ok_nonneg lo rs :
  -1 ≤ lo → ranges_ok lo rs → Forall (λ r, 0 ≤ r.1 < r.2 ∧ r.2 ≤ npos) rs.
Proof.
  revert lo. induction rs as [|r rs IH]; intros lo Hlo Hok; [done|].
  destruct Hok as (?&?&?&Hok). constructor; [lia|]. apply (IH r.2); [lia|done].
Qed.

(** *** Rank *)
Lemma below_app l1 l2 x : below (l1 ++ l2) x = below l1 x + below l2 x.
Proof. induction l1 as [|r l1 IH]; simpl; [done|]. rewrite IH. lia. Qed.

Lemma below_low lo rs x : ranges_ok lo rs → x ≤ lo + 1 → below rs x = 0.
Proof.
  revert lo. induction rs as [|r rs IH]; intros lo Hok Hx; [done|].
  destruct Hok as (?&?&?&Hok). simpl. rewrite (IH r.2) by (done || lia). lia.
Qed.

Lemma below_high lo rs x : ranges_ok lo rs → hi_of lo rs ≤ x → below rs x = sum_len rs.
Proof.
  revert lo. induction rs as [|r rs IH]; intros lo Hok Hx; [done|].
  destruct Hok as (?&?&?&Hok). simpl in *. unfold range_len.
  pose proof (ranges_ok_hi _ _ Hok). rewrite (IH r.2) by (done || lia). lia.
Qed.

Lemma below_bounds lo rs x :
  ranges_ok lo rs → 0 ≤ below rs x ∧ (lo < x → below rs x < x - lo).
Proof.
  revert lo. induction rs as [|r rs IH]; intros lo Hok; simpl; [lia|].
  destruct Hok as (?&?&?&Hok). destruct (IH _ Hok) as [H2 H3].
  split; [lia|]. intros Hx. destruct (decide (r.2 < x)); [specialize (H3 ltac:(lia)); lia|].
  rewrite (below_low r.2) by (done || lia). lia.
Qed.

(** The decision procedure for membership. *)
#[export] Instance mem_dec rs x : Decision (mem rs x).
Proof. induction rs as [|r rs IH]; simpl; apply _. Defined.

Lemma below_succ lo rs x :
  ranges_ok lo rs → below rs (x + 1) = below rs x + (if decide (mem rs x) then 1 else 0).
Proof.
  revert lo. induction rs as [|r rs IH]; intros lo Hok; simpl; [lia|].
  destruct Hok as (?&?&?&Hok). rewrite (IH _ Hok).
  destruct (decide (r.1 ≤ x < r.2)) as [Hin|Hout].
  - rewrite decide_False, decide_True; [lia|by left|].
    intros ?%(mem_bounds _ _ _ Hok). lia.
  - destruct (decide (mem rs x)).
    + rewrite decide_True by (by right). lia.
    + rewrite decide_False by (intros [|]; done). lia.
Qed.

Lemma below_mono lo rs x y : ranges_ok lo rs → x ≤ y → below rs x ≤ below rs y ≤ below rs x + (y - x).
Proof.
  intros Hok Hxy. replace y with (x + Z.of_nat (Z.to_nat (y - x))) by lia.
  induction (Z.to_nat (y - x)) as [|n IH]; [rewrite Z.add_0_r; lia|].
  replace (x + Z.of_nat (S n)) with (x + Z.of_nat n + 1) by lia.
  rewrite (below_succ _ _ _ Hok). case_decide; lia.
Qed.

(** Two sorted lists of separated ranges with the same indices are equal. *)
Lemma ranges_ok_ext lo rs1 rs2 :
  ranges_ok lo rs1 → ranges_ok lo rs2 → (∀ x, mem rs1 x ↔ mem rs2 x) → rs1 = rs2.
Proof.
  revert lo rs2. induction rs1 as [|r1 rs1 IH]; intros lo [|r2 rs2] H1 H2 Hext; [done| | |].
  - destruct H2 as (?&?&?&?). exfalso. apply (proj2 (Hext r2.1)); simpl; lia.
  - destruct H1 as (?&?&?&?). exfalso. apply (proj1 (Hext r1.1)); simpl; lia.
  - destruct H1 as (?&?&?&H1), H2 as (?&?&?&H2). simpl in Hext.
    assert (r1 = r2) as <-.
    { pose proof (λ x, mem_bounds r1.2 rs1 x H1) as B1. pose proof (λ x, mem_bounds r2.2 rs2 x H2) as B2.
      assert (r1.1 = r2.1) as Hf.
      { destruct (proj1 (Hext r1.1)) as [|?%B2]; [left; lia|..];
          (destruct (proj2 (Hext r2.1)) as [|?%B1]; [left; lia|..]); lia. }
      assert (r1.2 = r2.2) as Hs.
      { destruct (Z.lt_trichotomy r1.2 r2.2) as [|[|]]; [|done|].
        - destruct (proj2 (Hext r1.2)) as [|?%B1]; [left|..]; lia.
        - destruct (proj1 (Hext r2.2)) as [|?%B2]; [left|..]; lia. }
      destruct r1, r2; simpl in *; congruence. }
    f_equal. apply (IH r1.2); [done..|]. intros x. specialize (Hext x).
    split; intros Hm.
    + destruct (proj1 Hext) as [|]; [by right| |done]. apply (mem_bounds _ _ _ H1) in Hm. lia.
    + destruct (proj2 Hext) as [|]; [by right| |done]. apply (mem_bounds _ _ _ H2) in Hm. lia.
Qed.

(** *** Indexes *)
Lemma elem_of_indexes rs x : x ∈ indexes rs ↔ mem rs x.
Proof.
  induction rs as [|r rs IH]; simpl; [by rewrite elem_of_nil|].
  change (indexes (r :: rs)) with (seqZ r.1 (r.2 - r.1) ++ indexes rs).
  rewrite elem_of_app, IH, elem_of_seqZ. intuition lia.
Qed.

Lemma indexes_app l1 l2 : indexes (l1 ++ l2) = indexes l1 ++ indexes l2.
Proof. unfold indexes. by rewrite bind_app. Qed.
