(* ===== verification/IndexSetTheory.v ===== *)
(** Correctness of [IndexSet]: every operation succeeds on a well-formed set
    (no assertion fails, no end iterator is read, the loops end), keeps it
    well-formed, and changes its indices as its contract says. *)
From S2P Require Import Prelude ChunkedRangeVector IndexSet.
Import ChunkedRangeVector IndexSet.

#[local] Arguments shift_until_end : simpl never.

Section Theory.
Context {build : Build}.

Definition wf (m : IndexSet) : Prop := vec_wf m ∧ ranges_ok (-1) (ranges m).

Lemma wf_nil : wf [].
Proof. split; [constructor|done]. Qed.

(** ** Finding *)
Lemma chunk_bounds lo c :
  chunk_wf c → ranges_ok lo (data c) →
  chunk_begin c = front_of (data c) ∧ chunk_end c = hi_of lo (data c) ∧
  lo < chunk_begin c ∧ chunk_begin c < chunk_end c.
Proof.
  intros (Hc & Hne & _) Hok. rewrite Hc; simpl.
  destruct (ranges_ok_bounds _ _ Hne Hok) as (?&?&?&?). lia.
Qed.

Lemma hi_of_chunks lo index l :
  vec_wf l → ranges_ok lo (ranges l) → lo ≤ index →
  Forall (λ c, chunk_end c ≤ index) l → hi_of lo (ranges l) ≤ index.
Proof.
  revert lo. induction l as [|c l IH]; intros lo Hwf Hok Hlo Hl; [done|].
  apply Forall_cons in Hwf as [Hc Hwf], Hl as [Hend Hl].
  rewrite ranges_cons, ranges_ok_app in Hok. destruct Hok as [Hok1 Hok2].
  rewrite ranges_cons, hi_of_app. destruct (chunk_bounds _ _ Hc Hok1) as (_&He&_&_).
  rewrite <-He in *. by apply IH.
Qed.

(** The split of the chunk [find] stops in. *)
Lemma split_in_chunk lo index d d1 d2 (same : bool) :
  ranges_ok lo d → lo ≤ index → index < hi_of lo d →
  (same = true → d = d1 ++ d2 ∧ hi_of lo d1 ≤ index) →
  ∃ a b, d = a ++ b ∧ b ≠ [] ∧ splits lo index a b ∧
    ((if same then length d1 else 0) ≤ length a)%nat.
Proof.
  intros Hok Hlo Hhi Hsame. destruct same.
  - destruct Hsame as [-> Hd1]; [done|]. apply ranges_ok_app in Hok as [Hok1 Hok2].
    destruct (ranges_split _ _ index Hok2 Hd1) as (a&b&->&Ha&Hb).
    exists (d1 ++ a), b. rewrite <-app_assoc, length_app. split_and!; [done| | |lia].
    + intros ->. rewrite app_nil_r, hi_of_app in Hhi. lia.
    + split; [by rewrite hi_of_app|done].
  - destruct (ranges_split _ _ index Hok Hlo) as (a&b&->&Ha&Hb).
    exists a, b. split_and!; [done| |done|lia]. intros ->. rewrite app_nil_r in Hhi. lia.
Qed.

Lemma find_from_exists m index b pre0 post0 :
  wf m → at_pos m b pre0 post0 → hi_of (-1) pre0 ≤ index → -1 ≤ index →
  ∃ it pre post, find_from m index b = Some it ∧ at_pos m it pre post ∧
    splits (-1) index pre post.
Proof.
  intros [Hwf Hok] Hat Hhi Hi. unfold find_from.
  destruct post0 as [|r0 post0].
  { pose proof (at_pos_end_inv _ _ _ Hwf Hat) as ->. unfold Iterator.end_it at 1 2; simpl.
    rewrite drop_all; simpl. rewrite Nat.add_0_r, (lookup_ge_None_2 m) by lia.
    exists (Iterator.end_it m), (ranges m), []. split_and!; [done|apply at_pos_end|].
    apply at_pos_split in Hat. rewrite app_nil_r in Hat. by rewrite Hat. }
  apply at_pos_inv in Hat as (m1&c&m2&d1&d2&->&Hd&->&->&->). simpl.
  rewrite drop_app_ge, Nat.sub_diag by lia. change (drop 0 (c :: m2)) with (c :: m2).
  destruct (find_if_spec (λ lft, index <? chunk_end lft) (c :: m2)) as (l1&l2&Hl&->&Hl1&Hl2).
  rewrite Hl, app_assoc in *. apply vec_wf_app in Hwf as [Hwf1 Hwf2].
  rewrite ranges_app, ranges_ok_app in Hok. destruct Hok as [Hok1 Hok2].
  rewrite hi_of_app in Hhi.
  assert (ranges_ok (-1) (ranges m1) ∧ ranges_ok (hi_of (-1) (ranges m1)) (ranges l1)) as [Hm1 Hl1'].
  { by rewrite ranges_app, ranges_ok_app in Hok1. }
  assert (hi_of (-1) (ranges m1) ≤ index) as Hlo1.
  { assert (ranges_ok (hi_of (-1) (ranges m1)) d1) as Hd1; [|apply ranges_ok_hi in Hd1; lia].
    destruct l1 as [|c1 l1]; simplify_eq/=.
    - rewrite Hd, (app_nil_r m1), <-app_assoc, ranges_ok_app in Hok2. tauto.
    - rewrite Hd, <-app_assoc, ranges_ok_app in Hl1'. tauto. }
  assert (hi_of (-1) (ranges (m1 ++ l1)) ≤ index) as Hlo.
  { rewrite ranges_app, hi_of_app. apply vec_wf_app in Hwf1 as [_ Hwf1].
    apply hi_of_chunks; [done..|]. eapply Forall_impl; [exact Hl1|]. simpl. lia. }
  rewrite <-length_app. destruct l2 as [|c' m3].
  { rewrite app_nil_r, lookup_ge_None_2 by lia.
    exists (Iterator.end_it (m1 ++ l1)), (ranges (m1 ++ l1)), [].
    split_and!; [done|apply at_pos_end|done]. }
  apply Forall_cons in Hwf2 as [Hc' Hm3]. rewrite ranges_cons, ranges_ok_app in Hok2.
  destruct Hok2 as [Hok2 Hok3]. rewrite lookup_app_here.
  destruct (chunk_bounds _ _ Hc' Hok2) as (Hb&He&?&?). apply Z.ltb_lt in Hl2.
  destruct Hc' as (Hc'&Hne&Hs).
  destruct (Z.ltb_spec index (chunk_begin c')) as [Hlt|Hge].
  { do 3 eexists. split_and!; [done|apply (at_pos_make (m1 ++ l1) c' m3 [] (data c')); done|].
    rewrite app_nil_r. split; [done|]. destruct (data c') as [|r d'] eqn:E; [done|].
    simpl. rewrite Hb in *. unfold front_of in *. simpl in *. destruct Hok2 as (?&?&?). lia. }
  destruct (split_in_chunk _ index (data c') d1 (r0 :: d2)
    (length (m1 ++ l1) =? length m1)%nat Hok2) as (a&b&Hab&Hbne&Hsp&Hin); [lia|lia| |].
  { intros Heq%Nat.eqb_eq. rewrite length_app in Heq. destruct l1; simpl in *; [|lia].
    rewrite (app_nil_r m1). by simplify_eq. }
  rewrite Hab, (lower_bound_spec _ a b); [|done|..].
  - rewrite length_app. destruct (Nat.eqb_spec (length a) (length a + length b)) as [Hx|Hx].
    { destruct b; [done|simpl in Hx; lia]. }
    simpl. do 3 eexists. split_and!; [done|by apply (at_pos_make (m1 ++ l1) c' m3 a b)|].
    destruct Hsp as [Hsp1 Hsp2]. split.
    + by rewrite hi_of_app.
    + by destruct b.
  - apply Forall_drop. rewrite Hab, ranges_ok_app in Hok2. destruct Hok2 as [Hok2 _].
    eapply Forall_impl; [by eapply splits_pre|]. simpl. lia.
  - rewrite Hab, ranges_ok_app in Hok2. destruct Hok2 as [_ Hok2].
    eapply Forall_impl; [by eapply splits_post|]. simpl. lia.
Qed.

(** [find] stops at the unique split position. *)
Lemma find_from_at m index b pre0 post0 pre post :
  wf m → at_pos m b pre0 post0 → hi_of (-1) pre0 ≤ index → -1 ≤ index →
  ranges m = pre ++ post → splits (-1) index pre post →
  ∃ it, find_from m index b = Some it ∧ at_pos m it pre post.
Proof.
  intros Hwf Hat Hhi Hi Heq Hsp.
  destruct (find_from_exists _ _ _ _ _ Hwf Hat Hhi Hi) as (it&pre'&post'&Hf&Hat'&Hsp').
  exists it. split; [done|]. pose proof (at_pos_split _ _ _ _ Hat') as Heq'.
  destruct (splits_unique (-1) index pre post pre' post') as [-> ->]; [|congruence|done..].
  rewrite <-Heq. apply Hwf.
Qed.

Lemma find_exists m index :
  wf m → -1 ≤ index →
  ∃ it pre post, find m index = Some it ∧ at_pos m it pre post ∧ splits (-1) index pre post.
Proof. intros Hwf ?. eapply find_from_exists; [done|apply at_pos_begin, Hwf|done|done]. Qed.

Lemma is_end_at m it pre post :
  wf m → at_pos m it pre post → is_end m it = bool_decide (post = []).
Proof. intros [Hwf _]. by apply at_pos_eqb_end. Qed.

Lemma wf_split m pre post :
  wf m → ranges m = pre ++ post → ranges_ok (-1) pre ∧ ranges_ok (hi_of (-1) pre) post.
Proof. intros [_ Hok] Heq. by rewrite Heq, ranges_ok_app in Hok. Qed.

(** Membership on each side of a split. *)
Lemma splits_mem lo index pre post :
  ranges_ok lo (pre ++ post) → splits lo index pre post →
  mem (pre ++ post) index ↔ match post with [] => False | r :: _ => r.1 ≤ index end.
Proof.
  intros [H1 H2]%ranges_ok_app [Hhi Hhd]. rewrite mem_app. split.
  - intros [?%(mem_bounds _ _ _ H1)|Hm]; [lia|]. destruct post as [|r post]; [done|].
    pose proof (mem_bounds _ _ index H2). destruct Hm as [|Hm]; [lia|].
    destruct H2 as (?&?&?&H2). apply (mem_bounds _ _ _ H2) in Hm. lia.
  - destruct post; [done|]. intros. right. left. done.
Qed.

Lemma contains_ok m index :
  wf m → 0 ≤ index → contains m index = Some (bool_decide (mem (ranges m) index)).
Proof.
  intros Hwf Hi. unfold contains.
  destruct (find_exists m index Hwf) as (it&pre&post&->&Hat&Hsp); [lia|]. simpl.
  rewrite (is_end_at _ _ _ _ Hwf Hat). pose proof (at_pos_split _ _ _ _ Hat) as Heq.
  assert (ranges_ok (-1) (pre ++ post)) as Hok by (rewrite <-Heq; apply Hwf).
  pose proof (splits_mem _ _ _ _ Hok Hsp) as Hm. rewrite <-Heq in Hm.
  destruct post as [|r post]; simpl.
  - by rewrite bool_decide_false by tauto.
  - rewrite (deref_at _ _ _ _ _ Hat); simpl. f_equal.
    case_bool_decide as Hb; rewrite Hm in Hb; lia.
Qed.

(** ** Adding *)

(** The effect of [do_add] on the ranges around the split: the range that
    contains the index afterwards, and the ranges before and after it. *)
Inductive add_flat (index : Z) :
    list (Z * Z) → list (Z * Z) → list (Z * Z) → Z * Z → list (Z * Z) → Prop :=
  | add_present pre r post :
      r.1 ≤ index → add_flat index pre (r :: post) pre r post
  | add_join pre p r post :
      p.2 = index → r.1 = index + 1 →
      add_flat index (pre ++ [p]) (r :: post) pre (p.1, r.2) post
  | add_after pre p post :
      p.2 = index → match post with [] => True | r :: _ => index + 1 < r.1 end →
      add_flat index (pre ++ [p]) post pre (p.1, index + 1) post
  | add_before pre r post :
      hi_of (-1) pre < index → r.1 = index + 1 →
      add_flat index pre (r :: post) pre (index, r.2) post
  | add_alone pre post :
      hi_of (-1) pre < index → match post with [] => True | r :: _ => index + 1 < r.1 end →
      add_flat index pre post pre (index, index + 1) post.

Lemma hi_of_snoc lo l r : hi_of lo (l ++ [r]) = r.2.
Proof. by rewrite hi_of_app. Qed.

Lemma add_flat_ok index pre post pre' r post' :
  0 ≤ index < npos → ranges_ok (-1) (pre ++ post) → splits (-1) index pre post →
  add_flat index pre post pre' r post' →
  ranges_ok (-1) (pre' ++ r :: post') ∧ r.1 ≤ index < r.2 ∧
  (∀ x, mem (pre' ++ r :: post') x ↔ mem (pre ++ post) x ∨ x = index).
Proof.
  intros Hi [H1 H2]%ranges_ok_app [Hhi Hhd] Hadd. setoid_rewrite mem_app.
  rewrite ranges_ok_app. pose proof (ranges_ok_hi _ _ H1) as Hh.
  destruct Hadd as [pre r post|pre p r post|pre p post Hp Hpost|pre r post|pre post Hp Hpost].
  - split_and!; [done|apply H2|done|lia|]. simpl. intros x. intuition lia.
  - apply ranges_ok_app in H1 as [H1 (?&?&?&_)]. rewrite hi_of_snoc in *.
    destruct H2 as (?&?&?&H2). simpl. split_and!; [done|lia..|done|lia|lia|].
    intros x. rewrite mem_app; simpl. intuition lia.
  - apply ranges_ok_app in H1 as [H1 (?&?&?&_)]. rewrite hi_of_snoc in *. simpl.
    split_and!; [done|lia..| |lia|lia|].
    + destruct post as [|r post]; [done|]. destruct H2 as (?&?&?&?). done.
    + intros x. rewrite mem_app; simpl. intuition lia.
  - destruct H2 as (?&?&?&H2). simpl. split_and!; [done|lia..|done|lia|lia|].
    intros x. intuition lia.
  - simpl. split_and!; [done|lia..| |lia|lia|].
    + destruct post as [|r post]; [done|]. by destruct H2 as (?&?&?&?).
    + intros x. intuition lia.
Qed.

(** The insertion that [do_add] ends with when the index touches no range
    before it. *)
Lemma add_not_after m it pre post index :
  wf m → at_pos m it pre post → splits (-1) index pre post → 0 ≤ index < npos →
  hi_of (-1) pre < index →
  match post with [] => True | r :: _ => index < r.1 end →
  ∃ m' it' r post',
    match head post with
    | Some r =>
        if r.1 =? index +w 1 then m ← Iterator.adjust m it (-1) 0; Some (m, it)
        else insert m it (index, index +w 1)
    | None => insert m it (index, index +w 1)
    end = Some (m', it') ∧ vec_wf m' ∧ at_pos m' it' pre (r :: post') ∧
    add_flat index pre post pre r post'.
Proof.
  intros Hwf Hat Hsp Hi Hhi Hhd. rewrite wadd_small by lia.
  pose proof (at_pos_split _ _ _ _ Hat) as Heq.
  destruct (wf_split m pre post Hwf Heq) as [H1 H2]. destruct Hwf as [Hwf Hok].
  assert (match post with [] => True | r :: _ => index + 1 < r.1 end →
    ∃ m' it', insert m it (index, index + 1) = Some (m', it') ∧ vec_wf m' ∧
      at_pos m' it' pre ((index, index + 1) :: post)) as Hins.
  { intros Hpost. apply insert_ok; [done..|]. rewrite ranges_ok_app. split; [done|].
    simpl. split_and!; [lia..|]. destruct post as [|r post]; [done|].
    by destruct H2 as (?&?&?&?). }
  destruct post as [|r post]; simpl.
  - destruct Hins as (m'&it'&->&?&?); [done|].
    do 4 eexists; split_and!; [done..|]. by constructor.
  - destruct H2 as (?&?&?&H2). destruct (Z.eqb_spec r.1 (index + 1)) as [E|E].
    + destruct (adjust_at m it pre r post (-1) 0) as (m'&->&Hwf'&_&Hat'); [done..|].
      rewrite !wadd_small in Hat' by lia. rewrite Z.add_0_r in Hat'.
      replace (r.1 + -1) with index in Hat' by lia. simpl.
      do 4 eexists; split_and!; [done..|]. by constructor.
    + destruct Hins as (m'&it'&->&?&?); [lia|].
      do 4 eexists; split_and!; [done..|]. constructor; [done|lia].
Qed.

Lemma do_add_at m it pre post index :
  wf m → at_pos m it pre post → splits (-1) index pre post → 0 ≤ index < npos →
  ∃ m' it' pre' r post', do_add m it index = Some (m', it') ∧ vec_wf m' ∧
    at_pos m' it' pre' (r :: post') ∧ add_flat index pre post pre' r post'.
Proof.
  intros Hwf Hat Hsp Hi. pose proof (at_pos_split _ _ _ _ Hat) as Heq.
  destruct (wf_split m pre post Hwf Heq) as [H1 H2]. pose proof Hwf as [Hvec Hok].
  unfold do_add. rewrite verify_ok by done.
  rewrite (at_pos_eqb_begin _ _ _ _ Hvec Hat), (is_end_at _ _ _ _ Hwf Hat).
  assert ((if negb (bool_decide (post = [])) then r ← Iterator.deref m it; Some (Some r)
           else Some None) = Some (head post)) as ->.
  { destruct post; [done|]. simpl. by rewrite (deref_at _ _ _ _ _ Hat). }
  destruct (decide (pre = [])) as [->|Hne].
  { simpl. destruct post as [|r post].
    - destruct (add_not_after m it [] [] index) as (m'&it'&r&post'&Ha&?&?&?); [done..| |done|].
      { simpl. lia. }
      simpl in Ha. rewrite Ha. eauto 10.
    - simpl. destruct (Z.leb_spec r.1 index) as [Hr|Hr]; simpl.
      + destruct Hsp as [_ ->%Z.ltb_lt]. do 5 eexists; split_and!; [done..|]. by constructor.
      + destruct (add_not_after m it [] (r :: post) index) as (m'&it'&r'&post'&Ha&?&?&?);
          [done..|simpl; lia|done|].
        simpl in Ha. rewrite Ha. eauto 10. }
  rewrite bool_decide_false by done. simpl.
  destruct (destruct_last pre Hne) as (pre0&p&->). destruct Hsp as [Hhi Hhd].
  rewrite hi_of_snoc in Hhi.
  destruct (prev_at m it pre0 p post Hvec Hat) as (itp&->&Hatp). simpl.
  rewrite (deref_at _ _ _ _ _ Hatp). simpl. rewrite (proj2 (Z.leb_le _ _) Hhi).
  pose proof H1 as [H1' (?&?&?&_)]%ranges_ok_app. rewrite hi_of_snoc in *.
  pose proof (ranges_ok_hi _ _ H1') as [? _].
  destruct (match head post with Some r => _ | None => _ end) eqn:Epres.
  { destruct post as [|r post]; [done|]. simpl in Epres.
    do 5 eexists; split_and!; [done..|]. constructor. lia. }
  assert (match post with [] => True | r :: _ => index < r.1 end) as Hhd'.
  { destruct post as [|r post]; [done|]. simpl in Epres. lia. }
  destruct (Z.eqb_spec p.2 index) as [Ep|Ep].
  2:{ destruct (add_not_after m it (pre0 ++ [p]) post index) as (m'&it'&r'&post'&->&?&?&?);
        [done..|by split; [rewrite hi_of_snoc|]|done|rewrite hi_of_snoc; lia|done|].
      eauto 10. }
  destruct (adjust_at m itp pre0 p post 0 1 Hvec Hatp) as (m1&->&Hvec1&Hsz1&Hat1). simpl.
  rewrite !wadd_small, Z.add_0_r in Hat1 by lia. rewrite (deref_at _ _ _ _ _ Hat1). simpl.
  destruct post as [|r post]; simpl.
  { do 5 eexists; split_and!; [done..|]. rewrite Ep. by constructor. }
  destruct H2 as (?&?&?&H2). destruct (Z.eqb_spec (p.2 + 1) r.1) as [Er|Er].
  2:{ do 5 eexists; split_and!; [done..|]. rewrite Ep. constructor; [done|lia]. }
  destruct (adjust_at m1 itp pre0 (p.1, p.2 + 1) (r :: post) 0 (r.2 -w r.1) Hvec1 Hat1)
    as (m2&->&Hvec2&Hsz2&Hat2). simpl in *.
  rewrite wsub_small, !wadd_small, Z.add_0_r in Hat2 by lia.
  replace (p.2 + 1 + (r.2 - r.1)) with r.2 in Hat2 by lia.
  assert (at_pos m2 it (pre0 ++ [(p.1, r.2)]) (r :: post)) as Hat3.
  { apply (at_pos_transfer m m2 _ (pre0 ++ [p]) (r :: post)); [done|congruence| |].
    - rewrite (at_pos_split _ _ _ _ Hat2), <-app_assoc. done.
    - by rewrite !length_app. }
  destruct (erase_ok m2 it _ r post Hvec2 Hat3) as (m3&it3&->&Hvec3&Hat4).
  { rewrite <-app_assoc, ranges_ok_app. split; [done|]. simpl. split_and!; [lia..|done]. }
  destruct (prev_at m3 it3 pre0 _ post Hvec3 Hat4) as (it4&He4&Hat5).
  cbn [mbind option_bind]. rewrite He4. simpl.
  do 5 eexists; split_and!; [done..|]. constructor; lia.
Qed.

Lemma do_add_ok m it pre post index :
  wf m → at_pos m it pre post → splits (-1) index pre post → 0 ≤ index < npos →
  ∃ m' it' pre' r post', do_add m it index = Some (m', it') ∧ wf m' ∧
    at_pos m' it' pre' (r :: post') ∧ add_flat index pre post pre' r post' ∧
    r.1 ≤ index < r.2 ∧ (∀ x, mem (ranges m') x ↔ mem (ranges m) x ∨ x = index).
Proof.
  intros Hwf Hat Hsp Hi.
  destruct (do_add_at m it pre post index) as (m'&it'&pre'&r&post'&Ha&Hvec&Hat'&Hf); [done..|].
  pose proof (at_pos_split _ _ _ _ Hat) as Heq. pose proof (at_pos_split _ _ _ _ Hat') as Heq'.
  destruct (add_flat_ok index pre post pre' r post') as (Hok'&Hr&Hm); [done| |done..|].
  { rewrite <-Heq. apply Hwf. }
  rewrite <-Heq, <-Heq' in Hm. exists m', it', pre', r, post'.
  split_and!; [done|split; [done|by rewrite Heq']|done..|lia|lia|done].
Qed.

(** *** [add] *)
Lemma add_ok m index :
  wf m → 0 ≤ index < npos →
  ∃ m', add m index = Some m' ∧ wf m' ∧
    ∀ x, mem (ranges m') x ↔ mem (ranges m) x ∨ x = index.
Proof.
  intros Hwf Hi. unfold add.
  destruct (find_exists m index Hwf) as (it&pre&post&->&Hat&Hsp); [lia|].
  destruct (do_add_ok m it pre post index) as (m'&?&?&?&?&Ha&?&_&_&_&?); [done..|].
  cbn [mbind option_bind]. rewrite Ha. eauto.
Qed.

Lemma of_list_ok values :
  Forall (λ v, 0 ≤ v < npos) values →
  ∃ m, of_list values = Some m ∧ wf m ∧ ∀ x, mem (ranges m) x ↔ x ∈ values.
Proof.
  intros Hv. unfold of_list.
  apply (foldlM_spec add (λ seen m, wf m ∧ ∀ x, mem (ranges m) x ↔ x ∈ seen) []).
  - intros l1 v l2 m Heq _ [Hwf Hm].
    destruct (add_ok m v Hwf) as (m'&->&Hwf'&Hm').
    { rewrite Forall_forall in Hv. apply Hv. simpl in Heq. rewrite Heq.
      apply elem_of_app. right. constructor. }
    eexists; split_and!; [done..|]. intros x.
    rewrite Hm', Hm, elem_of_app, list_elem_of_singleton. done.
  - split; [apply wf_nil|]. intros x. by rewrite elem_of_nil.
Qed.

(** ** Iterating over the indices *)
Lemma seqZ_head a n : 0 < n → seqZ a n = a :: seqZ (a + 1) (n - 1).
Proof. intros. rewrite seqZ_cons by lia. do 2 f_equal; lia. Qed.

Lemma seqZ_snoc a n : 0 ≤ n → seqZ a (n + 1) = seqZ a n ++ [a + n].
Proof. intros. by rewrite seqZ_app, (seqZ_cons _ 1) by lia. Qed.

Lemma length_indexes lo rs : ranges_ok lo rs → Z.of_nat (length (indexes rs)) = sum_len rs.
Proof.
  revert lo. induction rs as [|r rs IH]; intros lo Hok; [done|]. destruct Hok as (?&?&?&Hok).
  change (indexes (r :: rs)) with (seqZ r.1 (r.2 - r.1) ++ indexes rs).
  rewrite length_app, length_seqZ, Nat2Z.inj_add, (IH r.2) by done. simpl. unfold range_len. lia.
Qed.

(** The state of an [IndexIterator] after the indices [seen]. *)
Definition index_at (m : IndexSet) (it : IndexIterator) (seen rest : list Z) : Prop :=
  ∃ pre post, at_pos m (m_iterator it) pre post ∧ 0 ≤ m_offset it ∧
    match post with
    | [] => m_offset it = 0 ∧ rest = [] ∧ seen = indexes pre
    | r :: post =>
        m_offset it < r.2 - r.1 ∧ seen = indexes pre ++ seqZ r.1 (m_offset it) ∧
        rest = seqZ (r.1 + m_offset it) (r.2 - r.1 - m_offset it) ++ indexes post
    end.

Lemma index_at_range m it seen rest pre post :
  wf m → at_pos m it pre post → seen = indexes pre → rest = indexes post →
  index_at m (mkIndexIterator it 0) seen rest.
Proof.
  intros Hwf Hat -> ->. exists pre, post. split; [done|]. simpl. split; [lia|].
  destruct post as [|r post]; [done|].
  destruct (wf_split m pre (r :: post) Hwf (at_pos_split _ _ _ _ Hat)) as [_ (?&?&_)].
  rewrite app_nil_r, Z.add_0_r, Z.sub_0_r. split_and!; [lia|done..].
Qed.

Lemma index_step m it seen x rest :
  wf m → index_at m it seen (x :: rest) →
  Iterator.eqb (m_iterator it) (Iterator.end_it m) = false ∧
  index_deref m it = Some x ∧
  ∃ it', index_next m it = Some it' ∧ index_at m it' (seen ++ [x]) rest.
Proof.
  intros Hwf (pre&post&Hat&Hoff&Hp). destruct post as [|r post]; [by destruct Hp as (_&?&_)|].
  destruct Hp as (Hlt&->&Hrest). rewrite seqZ_head in Hrest by lia. simplify_eq/=.
  destruct (wf_split m pre (r :: post) Hwf (at_pos_split _ _ _ _ Hat)) as [H1 (?&?&?&?)].
  pose proof (ranges_ok_hi _ _ H1). pose proof Hwf as [Hvec _].
  rewrite (at_pos_eqb_end _ _ _ _ Hvec Hat). unfold index_deref, index_next.
  rewrite (deref_at _ _ _ _ _ Hat). simpl.
  rewrite (wadd_small (m_offset it)), !wadd_small by lia.
  split_and!; [done|done|].
  destruct (Z.eqb_spec (r.1 + (m_offset it + 1)) r.2) as [E|E].
  - destruct (next_at m _ pre r post Hvec Hat) as (it'&->&Hat'). simpl.
    eexists; split; [done|]. eapply index_at_range; [done..| |].
    + change [r.1 + m_offset it] with ([r.1 + m_offset it] ++ []).
      rewrite indexes_app. change (indexes [r]) with (seqZ r.1 (r.2 - r.1) ++ []).
      rewrite !app_nil_r, <-app_assoc. f_equal.
      replace (r.2 - r.1) with (m_offset it + 1) by lia. by rewrite seqZ_snoc.
    + replace (r.2 - r.1 - m_offset it - 1) with 0 by lia. done.
  - eexists; split; [done|]. exists pre, (r :: post). simpl. split_and!; [done|lia..| |].
    + by rewrite seqZ_snoc, app_assoc by lia.
    + by rewrite !Z.sub_add_distr, Z.add_assoc.
Qed.

Lemma as_indexes_ok m : wf m → as_indexes m = Some (indexes (ranges m)).
Proof.
  intros Hwf. unfold as_indexes.
  destruct (while_loop_spec (λ '(it, seen),
    if Iterator.eqb (m_iterator it) (Iterator.end_it m) then Some (inr (rev seen)) else
    x ← index_deref m it;
    it' ← index_next m it;
    Some (inl (it', x :: seen)))
   (λ n '(it, seen), ∃ rest, n = length rest ∧ index_at m it (rev seen) rest ∧
      rev seen ++ rest = indexes (ranges m))
   (λ l, l = indexes (ranges m))) with
   (n := length (indexes (ranges m)))
   (s := (mkIndexIterator (Iterator.begin_it m) 0, @nil Z))
   (fuel := S (Z.to_nat (sum_len (ranges m)))) as (r&Hr&->).
  - intros n [it seen] (rest&->&Hat&Heq). destruct rest as [|x rest].
    + left. destruct Hat as (pre&post&Hat&?&Hp). destruct post as [|r post].
      * pose proof (proj1 Hwf). rewrite (at_pos_eqb_end m _ pre []), bool_decide_true by done.
        rewrite app_nil_r in Heq. eauto.
      * destruct Hp as (?&_&Hp). rewrite seqZ_head in Hp by lia. done.
    + right. destruct (index_step m it (rev seen) x rest Hwf Hat) as (->&->&it'&->&?).
      simpl. do 2 eexists; split_and!; [done..|]. exists rest. simpl.
      split_and!; [done..|]. by rewrite <-app_assoc.
  - exists (indexes (ranges m)). split_and!; [done| |done].
    eapply index_at_range; [done|apply at_pos_begin, Hwf|done..].
  - rewrite <-(length_indexes (-1)) by apply Hwf. lia.
  - done.
Qed.

(** [add(IndexSet const&)] *)
Lemma indexes_lower lo rs : ranges_ok lo rs → Forall (λ x, lo < x < npos) (indexes rs).
Proof.
  intros Hok. apply Forall_forall. intros x ?%elem_of_indexes.
  pose proof (mem_bounds _ _ _ Hok H). pose proof (ranges_ok_hi _ _ Hok).
  clear -Hok H. revert lo Hok. induction rs as [|r rs IH]; intros lo Hok; [done|].
  destruct Hok as (?&?&?&Hok). destruct H as [|H]; [lia|]. specialize (IH H _ Hok). lia.
Qed.


Lemma seqZ_sorted a n : StronglySorted Z.lt (seqZ a n).
Proof.
  destruct (decide (0 ≤ n)) as [Hn|]; [|rewrite seqZ_nil by lia; constructor].
  replace n with (Z.of_nat (Z.to_nat n)) by lia. revert a.
  induction (Z.to_nat n) as [|k IH]; intros a; [constructor|].
  rewrite seqZ_head by lia. replace (Z.of_nat (S k) - 1) with (Z.of_nat k) by lia.
  constructor; [apply IH|]. apply Forall_forall. intros x. rewrite elem_of_seqZ. lia.
Qed.

Lemma indexes_sorted lo rs : ranges_ok lo rs → StronglySorted Z.lt (indexes rs).
Proof.
  revert lo. induction rs as [|r rs IH]; intros lo Hok; [constructor|].
  destruct Hok as (?&?&?&Hok). change (indexes (r :: rs)) with (seqZ r.1 (r.2 - r.1) ++ indexes rs).
  apply StronglySorted_app. split_and!; [|apply seqZ_sorted|by eapply IH].
  intros x y. rewrite elem_of_seqZ, elem_of_indexes. intros ? ?%(mem_bounds _ _ _ Hok). lia.
Qed.

(** ** Union: [add(IndexSet const&)] *)
Lemma mem_npos lo rs x : -1 ≤ lo → ranges_ok lo rs → mem rs x → 0 ≤ x < npos.
Proof.
  revert lo. induction rs as [|r rs IH]; intros lo Hlo Hok; [done|].
  destruct Hok as (?&?&?&Hok). intros [?|?]; [lia|]. apply (IH r.2); [lia|done..].
Qed.

Lemma add_set_ok m other :
  wf m → wf other →
  ∃ m', add_set m other = Some m' ∧ wf m' ∧
    ∀ x, mem (ranges m') x ↔ mem (ranges m) x ∨ mem (ranges other) x.
Proof.
  intros Hwf Ho. unfold add_set. rewrite as_indexes_ok by done. cbn [mbind option_bind].
  destruct (foldlM_spec (λ '(m, it) index, it ← find_from m index it; do_add m it index)
    (λ seen '(m', it), wf m' ∧ (∀ x, mem (ranges m') x ↔ mem (ranges m) x ∨ x ∈ seen) ∧
      ∃ pre post, at_pos m' it pre post ∧
        ∀ y, 0 ≤ y → (∀ z, z ∈ seen → z < y) → hi_of (-1) pre ≤ y)
    [] (indexes (ranges other)) (m, Iterator.begin_it m)) as ([m' it]&->&Hwf'&Hm&_).
  - intros seen x rest [m1 it1] Heq _ (Hwf1&Hm1&pre&post&Hat&Hhi). simpl in Heq.
    assert (mem (ranges other) x) as Hx.
    { apply elem_of_indexes. rewrite Heq. apply elem_of_app. right. constructor. }
    apply (mem_npos (-1)) in Hx; [|lia|apply Ho].
    destruct (find_from_exists m1 x it1 pre post) as (it2&pre2&post2&->&Hat2&Hsp2);
      [done..| |lia|].
    { apply Hhi; [lia|]. intros z Hz. pose proof (indexes_sorted (-1) _ (proj2 Ho)) as Hs.
      rewrite Heq in Hs. eapply StronglySorted_app_1_elem_of; [done|done|]. constructor. }
    destruct (do_add_ok m1 it2 pre2 post2 x) as (m3&it3&pre3&r&post3&Ha&Hwf3&Hat3&_&Hr&Hm3);
      [done..|]. cbn [mbind option_bind]. rewrite Ha.
    eexists; split; [done|]. split_and!; [done| |].
    + intros y. rewrite Hm3, Hm1, elem_of_app, list_elem_of_singleton. tauto.
    + exists pre3, (r :: post3). split; [done|]. intros y _ Hy.
      destruct (wf_split m3 pre3 (r :: post3) Hwf3 (at_pos_split _ _ _ _ Hat3)) as [_ (?&_)].
      specialize (Hy x). rewrite elem_of_app, list_elem_of_singleton in Hy.
      specialize (Hy (or_intror eq_refl)). lia.
  - split_and!; [done| |].
    + intros x. rewrite elem_of_nil. tauto.
    + exists [], (ranges m). split; [apply at_pos_begin, Hwf|]. simpl. lia.
  - cbn [mbind option_bind]. eexists; split_and!; [done..|].
    intros x. rewrite Hm. simpl. by rewrite elem_of_indexes.
Qed.

(** ** Loops over chunks *)
Definition at_chunk (m : IndexSet) (it : iterator) (m1 m2 : list Chunk) : Prop :=
  m = m1 ++ m2 ∧ it = Iter (length m1) 0.

Lemma at_chunk_begin m : at_chunk m (Iterator.begin_it m) [] m.
Proof. done. Qed.

Lemma at_chunk_end m it m1 m2 :
  at_chunk m it m1 m2 → is_end m it = bool_decide (m2 = []).
Proof.
  intros [-> ->]. unfold is_end, Iterator.eqb, Iterator.end_it. rewrite length_app.
  apply bool_decide_ext. split; [|intros ->; by rewrite Nat.add_0_r].
  intros [=]. destruct m2; [done|simpl in *; lia].
Qed.

Lemma at_chunk_pos m it m1 m2 :
  vec_wf m → at_chunk m it m1 m2 → at_pos m it (ranges m1) (ranges m2).
Proof.
  intros Hwf [-> ->]. destruct m2 as [|c m2].
  - rewrite app_nil_r. apply at_pos_end.
  - apply vec_wf_mid in Hwf as (_&(_&Hne&_)&_). pose proof (at_pos_make m1 c m2 [] (data c)) as H.
    rewrite app_nil_r in H. by apply H.
Qed.

Lemma at_chunk_next m it m1 c m2 :
  at_chunk m it m1 (c :: m2) →
  m !! m_outer it = Some c ∧ at_chunk m (Iterator.next_chunk it) (m1 ++ [c]) m2.
Proof.
  intros [-> ->]. simpl. split; [apply lookup_app_here|]. split; [by rewrite <-app_assoc|].
  unfold Iterator.next_chunk. simpl. by rewrite length_app, Nat.add_1_r.
Qed.

Lemma wf_chunk m m1 c m2 :
  wf m → m = m1 ++ c :: m2 →
  let lo := hi_of (-1) (ranges m1) in
  chunk_begin c = front_of (data c) ∧ chunk_end c = hi_of (-1) (ranges (m1 ++ [c])) ∧
  lo < chunk_begin c ∧ chunk_begin c < chunk_end c ∧ -1 ≤ lo ∧ chunk_end c ≤ npos ∧
  chunk_count c = sum_len (data c) ∧ 0 < sum_len (data c) ≤ chunk_end c - lo - 1 ∧
  ranges_ok lo (data c).
Proof.
  intros [Hwf Hok] ->. apply vec_wf_mid in Hwf as (_&Hc&_).
  rewrite ranges_app, ranges_cons, !ranges_ok_app in Hok. destruct Hok as (H1&H2&_).
  destruct (chunk_bounds _ _ Hc H2) as (?&He&?&?).
  rewrite ranges_app, ranges_cons, hi_of_app; simpl. rewrite app_nil_r.
  pose proof (ranges_ok_hi _ _ H1). pose proof (ranges_ok_hi _ _ H2).
  destruct Hc as (Hc&Hne&_).
  pose proof (sum_len_span _ _ Hne H2) as Hs.
  assert (0 < sum_len (data c)).
  { destruct (data c) as [|r d]; [done|]. destruct H2 as (?&?&?&Hd). simpl. unfold range_len.
    pose proof (sum_len_bound _ _ Hd). lia. }
  assert (chunk_end c = back_of (data c)) by (by rewrite Hc).
  split_and!; [done|done|lia|lia|lia|slia| |lia|lia|done].
  rewrite Hc at 1; simpl. apply wrap_small. slia.
Qed.

Lemma length_chunks m : vec_wf m → (length m ≤ length (ranges m))%nat.
Proof.
  induction m as [|c m IH]; [done|]. intros [(_&Hne&_) Hm]%Forall_cons.
  rewrite ranges_cons, length_app. specialize (IH Hm). destruct (data c); [done|simpl; lia].
Qed.

(** A loop that advances chunk by chunk while [t] holds. *)
Lemma chunk_loop {A} (t : Chunk → A → bool) (upd : Chunk → A → A)
    (P : list Chunk → A → Prop) m step a :
  wf m →
  (∀ it m1 m2 a, at_chunk m it m1 m2 →
    step (it, a) = match m2 with
      | [] => Some (inr (it, a))
      | c :: _ => if t c a then Some (inl (Iterator.next_chunk it, upd c a))
                  else Some (inr (it, a))
      end) →
  (∀ m1 c m2 a, m = m1 ++ c :: m2 → P m1 a → t c a = true → P (m1 ++ [c]) (upd c a)) →
  P [] a →
  ∃ it m1 m2 a', while_loop (range_fuel m) step (Iterator.begin_it m, a) = Some (it, a') ∧
    at_chunk m it m1 m2 ∧ P m1 a' ∧ match m2 with [] => True | c :: _ => t c a' = false end.
Proof.
  intros [Hwf _] Hstep Hupd HP.
  destruct (while_loop_spec step
    (λ n '(it, a), ∃ m1 m2, n = length m2 ∧ at_chunk m it m1 m2 ∧ P m1 a)
    (λ '(it, a'), ∃ m1 m2, at_chunk m it m1 m2 ∧ P m1 a' ∧
       match m2 with [] => True | c :: _ => t c a' = false end)) with
    (n := length m) (s := (Iterator.begin_it m, a)) (fuel := range_fuel m)
    as ([it a']&Hr&m1&m2&?).
  - intros n [it a1] (m1&m2&->&Hat&Ha). rewrite (Hstep _ _ _ _ Hat). destruct m2 as [|c m2].
    + left. eexists; split; [done|]. by exists m1, [].
    + destruct (t c a1) eqn:E; [right|left].
      * do 2 eexists; split_and!; [done..|]. exists (m1 ++ [c]), m2.
        split_and!; [done|by eapply at_chunk_next|]. eapply Hupd; [apply Hat|done..].
      * eexists; split; [done|]. by exists m1, (c :: m2).
  - exists [], m. done.
  - pose proof (length_chunks m Hwf). unfold range_fuel. lia.
  - exists it, m1, m2, a'. done.
Qed.

(** A loop that advances range by range while [t] holds. *)
Lemma range_loop {A} (t : Z * Z → A → bool) (upd : Z * Z → A → A)
    (P : list (Z * Z) → A → Prop) m step it0 pre0 post0 a :
  wf m → at_pos m it0 pre0 post0 →
  (∀ it pre post a, at_pos m it pre post →
    step (it, a) = match post with
      | [] => Some (inr (it, a))
      | r :: _ => if t r a then it' ← Iterator.next m it; Some (inl (it', upd r a))
                  else Some (inr (it, a))
      end) →
  (∀ pre r post a, ranges m = pre ++ r :: post → P pre a → t r a = true →
    P (pre ++ [r]) (upd r a)) →
  P pre0 a →
  ∃ it pre post a', while_loop (range_fuel m) step (it0, a) = Some (it, a') ∧
    at_pos m it pre post ∧ P pre a' ∧ match post with [] => True | r :: _ => t r a' = false end.
Proof.
  intros [Hwf _] Hat0 Hstep Hupd HP.
  destruct (while_loop_spec step
    (λ n '(it, a), ∃ pre post, n = length post ∧ at_pos m it pre post ∧ P pre a)
    (λ '(it, a'), ∃ pre post, at_pos m it pre post ∧ P pre a' ∧
       match post with [] => True | r :: _ => t r a' = false end)) with
    (n := length post0) (s := (it0, a)) (fuel := range_fuel m)
    as ([it a']&Hr&pre&post&?).
  - intros n [it a1] (pre&post&->&Hat&Ha). rewrite (Hstep _ _ _ _ Hat).
    destruct post as [|r post].
    + left. eexists; split; [done|]. by exists pre, [].
    + destruct (t r a1) eqn:E; [right|left].
      * destruct (next_at m it pre r post Hwf Hat) as (it'&->&Hat'). simpl.
        do 2 eexists; split_and!; [done..|]. exists (pre ++ [r]), post.
        split_and!; [done..|]. eapply Hupd; [by eapply at_pos_split|done..].
      * eexists; split; [done|]. by exists pre, (r :: post).
  - by exists pre0, post0.
  - unfold range_fuel. rewrite (at_pos_split _ _ _ _ Hat0), length_app. lia.
  - exists it, pre, post, a'. done.
Qed.

End Theory.

(** Unfold one step of a loop at a known position. *)
Ltac chunk_step :=
  let Hat := fresh in
  intros ? ? [|? ?] ? Hat; rewrite (at_chunk_end _ _ _ _ Hat); [done|];
  rewrite bool_decide_false by done;
  first [rewrite (proj1 (at_chunk_next _ _ _ _ _ Hat))
        | destruct (at_chunk_next _ _ _ _ _ Hat) as [-> _]]; simpl; try done.

Ltac range_step Hwf :=
  let Hat := fresh in
  intros ? ? [|? ?] ? Hat; rewrite (is_end_at _ _ _ _ Hwf Hat); [done|];
  rewrite bool_decide_false by done; rewrite (deref_at _ _ _ _ _ Hat); simpl; try done.

Section Operations.
Context {build : Build}.

(** ** Shifting an index *)
Lemma wf_range m pre r post :
  wf m → ranges m = pre ++ r :: post →
  -1 ≤ hi_of (-1) pre ∧ hi_of (-1) pre < r.1 ∧ r.1 < r.2 ∧ r.2 ≤ npos ∧
  0 ≤ sum_len pre ≤ hi_of (-1) pre + 1 ∧ 0 ≤ sum_len post ∧
  sum_len (ranges m) = sum_len pre + (r.2 - r.1) + sum_len post.
Proof.
  intros Hwf Heq. destruct (wf_split m pre (r :: post) Hwf Heq) as [H1 (?&?&?&H2)].
  pose proof (ranges_ok_hi _ _ H1). pose proof (sum_len_bound _ _ H1).
  pose proof (sum_len_bound _ _ H2). rewrite Heq, sum_len_app; simpl. unfold range_len. lia.
Qed.

(** An index past [k] elements: the position reached, and the rank there. *)
Lemma rank_at m pre post y :
  wf m → ranges m = pre ++ post → hi_of (-1) pre ≤ y →
  match post with [] => True | r :: _ => y < r.1 end →
  ¬ mem (ranges m) y ∧ below (ranges m) y = sum_len pre.
Proof.
  intros Hwf Heq Hhi Hhd. destruct (wf_split m pre post Hwf Heq) as [H1 H2]. rewrite Heq.
  rewrite mem_app, below_app, (below_high (-1)) by done.
  destruct post as [|r post].
  - simpl. split; [|lia]. intros [?%(mem_bounds _ _ _ H1)|[]]. lia.
  - assert (ranges_ok (r.1 - 1) (r :: post)) as H2'.
    { destruct H2 as (?&?&?&?). simpl. split_and!; try done. lia. }
    rewrite (below_low _ _ _ H2') by lia. split; [|lia].
    intros [?%(mem_bounds _ _ _ H1)|?%(mem_bounds _ _ _ H2')]; lia.
Qed.

Lemma shift_chunks_ok m i :
  wf m → 0 ≤ i → i + sum_len (ranges m) ≤ npos →
  ∃ it pre post, shift_chunks m (Iterator.begin_it m, i) = Some (it, i + sum_len pre) ∧
    at_pos m it pre post ∧ hi_of (-1) pre ≤ i + sum_len pre.
Proof.
  intros Hwf Hi Hmax. unfold shift_chunks.
  loop_step ltac:(fun step => destruct (chunk_loop (λ c index, chunk_end c <=? index)
    (λ c index, index +w chunk_count c)
    (λ m1 index, index = i + sum_len (ranges m1) ∧ hi_of (-1) (ranges m1) ≤ index)
    m step i Hwf) as (it&m1&m2&a&->&Hat&[-> Hhi]&_)).
  - chunk_step.
  - intros m1 c m2 a Hm [-> Hhi] Hc.
    destruct (wf_chunk m m1 c m2 Hwf Hm) as (_&He&?&?&?&?&->&?&Hok).
    rewrite ranges_app, ranges_cons, sum_len_app; simpl. rewrite app_nil_r.
    rewrite ranges_app, ranges_cons, app_nil_r in He.
    rewrite <-He. rewrite wadd_small; [lia|].
    destruct Hwf as [_ Hok']. rewrite Hm, ranges_app, ranges_cons, !sum_len_app in Hmax.
    rewrite Hm, ranges_app, ranges_cons, !ranges_ok_app in Hok'.
    destruct Hok' as (Hb1&_&Hb2). apply sum_len_bound in Hb1, Hb2. lia.
  - simpl. lia.
  - exists it, (ranges m1), (ranges m2). split_and!; [done| |done].
    eapply at_chunk_pos; [apply Hwf|done].
Qed.

Lemma shift_ranges_ok m it pre post i :
  wf m → at_pos m it pre post → 0 ≤ i → i + sum_len (ranges m) ≤ npos →
  hi_of (-1) pre ≤ i + sum_len pre →
  ∃ it' pre' post', shift_ranges m (it, i + sum_len pre) = Some (it', i + sum_len pre') ∧
    at_pos m it' pre' post' ∧ hi_of (-1) pre' ≤ i + sum_len pre' ∧
    match post' with [] => True | r :: _ => i + sum_len pre' < r.1 end.
Proof.
  intros Hwf Hat Hi Hmax Hhi0. unfold shift_ranges.
  loop_step ltac:(fun step => destruct (range_loop (λ r index, r.1 <=? index)
    (λ r index, index +w (r.2 -w r.1))
    (λ pre index, index = i + sum_len pre ∧ hi_of (-1) pre ≤ index)
    m step it pre post (i + sum_len pre) Hwf Hat) as (it'&pre'&post'&a&->&Hat'&[-> Hhi]&Hp)).
  - range_step Hwf.
  - intros pre1 r post1 a Hm [-> Hhi] Hc.
    destruct (wf_range m pre1 r post1 Hwf Hm) as (?&?&?&?&?&?&Hs).
    rewrite sum_len_app, hi_of_snoc; simpl. unfold range_len.
    rewrite wsub_small, wadd_small by lia. lia.
  - done.
  - exists it', pre', post'. split_and!; [done..|]. destruct post'; [done|lia].
Qed.

(** *** [add_shifted] adds the index that has [index] elements outside the set
    below it. *)
Lemma add_shifted_ok m index :
  wf m → 0 ≤ index → index + sum_len (ranges m) < npos →
  ∃ m' y, add_shifted m index = Some (m', y) ∧ wf m' ∧
    ¬ mem (ranges m) y ∧ y = index + below (ranges m) y ∧
    ∀ x, mem (ranges m') x ↔ mem (ranges m) x ∨ x = y.
Proof.
  intros Hwf Hi Hmax. unfold add_shifted.
  destruct (shift_chunks_ok m index) as (it1&pre1&post1&->&Hat1&Hhi1); [done..|lia|].
  cbn [mbind option_bind].
  destruct (shift_ranges_ok m it1 pre1 post1 index) as (it2&pre2&post2&->&Hat2&Hhi2&Hp2);
    [done..|lia|done|].
  cbn [mbind option_bind]. pose proof (at_pos_split _ _ _ _ Hat2) as Heq.
  destruct (rank_at m pre2 post2 (index + sum_len pre2)) as [Hn Hb]; [done..|].
  assert (0 ≤ sum_len pre2 ≤ sum_len (ranges m)) as Hs.
  { destruct (wf_split m pre2 post2 Hwf Heq) as [H1 H2]. rewrite Heq, sum_len_app.
    apply sum_len_bound in H1, H2. lia. }
  destruct (do_add_ok m it2 pre2 post2 (index + sum_len pre2))
    as (m'&?&?&r&?&->&Hwf'&_&_&_&Hm); [done..|split; [done|]|lia|].
  { destruct post2 as [|r post2]; [done|].
    destruct (wf_range m pre2 r post2 Hwf Heq) as (?&?&?&_). lia. }
  cbn [mbind option_bind]. do 2 eexists. split_and!; [done..|lia|done].
Qed.

(** *** [shift] *)
Lemma shift_loop_ok lo rs i :
  ranges_ok lo rs → 0 ≤ i → lo ≤ i → i + sum_len rs ≤ npos →
  i ≤ shift_loop rs i ∧ ¬ mem rs (shift_loop rs i) ∧
  shift_loop rs i = i + below rs (shift_loop rs i).
Proof.
  revert lo i. induction rs as [|r rs IH]; intros lo i Hok Hi Hlo Hmax; simpl.
  { split_and!; [lia|tauto|lia]. }
  destruct Hok as (?&?&?&Hok). simpl in Hmax. unfold range_len in Hmax.
  destruct (Z.ltb_spec i r.1) as [Hr|Hr].
  - split; [lia|]. rewrite (below_low _ _ _ Hok) by lia. split; [|lia].
    intros [?|?%(mem_bounds _ _ _ Hok)]; lia.
  - pose proof (sum_len_bound _ _ Hok). rewrite wsub_small, wadd_small by lia.
    destruct (IH r.2 (i + (r.2 - r.1))) as (?&?&Heq); [done|lia..|].
    split; [lia|]. split; [|lia]. intros [?|?]; [lia|done].
Qed.

Lemma shift_ok m index :
  wf m → 0 ≤ index → index + sum_len (ranges m) ≤ npos →
  ¬ mem (ranges m) (shift m index) ∧
  shift m index = index + below (ranges m) (shift m index).
Proof.
  intros [_ Hok] ? ?. unfold shift.
  destruct (shift_loop_ok (-1) (ranges m) index) as (_&?&?); [done|lia..|done].
Qed.

(** The rank outside the set is strictly monotone outside the set, hence
    injective there. *)
Lemma rank_mono lo rs x y : ranges_ok lo rs → x ≤ y → x - below rs x ≤ y - below rs y.
Proof. intros Hok Hxy. pose proof (below_mono _ _ x y Hok Hxy). lia. Qed.

Lemma rank_lt lo rs x y :
  ranges_ok lo rs → ¬ mem rs x → x < y → x - below rs x < y - below rs y.
Proof.
  intros Hok Hx Hxy. pose proof (below_succ _ _ x Hok) as Hs. rewrite decide_False in Hs by done.
  pose proof (below_mono _ _ (x + 1) y Hok). lia.
Qed.

Lemma rank_unique lo rs x y :
  ranges_ok lo rs → ¬ mem rs x → ¬ mem rs y → x - below rs x = y - below rs y → x = y.
Proof.
  intros Hok Hx Hy Heq. destruct (Z.lt_trichotomy x y) as [Hc|[Hc|Hc]]; [|done|].
  - pose proof (rank_lt _ _ x y Hok Hx Hc). lia.
  - pose proof (rank_lt _ _ y x Hok Hy Hc). lia.
Qed.

(** ** Counting *)
Lemma count_chunks_ok m e :
  wf m →
  ∃ it pre post, count_chunks m e (Iterator.begin_it m, 0) = Some (it, sum_len pre) ∧
    at_pos m it pre post ∧ (pre = [] ∨ hi_of (-1) pre ≤ e).
Proof.
  intros Hwf. unfold count_chunks.
  loop_step ltac:(fun step => destruct (chunk_loop (λ c _, chunk_end c <=? e)
    (λ c ret, ret +w chunk_count c)
    (λ m1 ret, ret = sum_len (ranges m1) ∧ (ranges m1 = [] ∨ hi_of (-1) (ranges m1) ≤ e))
    m step 0 Hwf) as (it&m1&m2&a&->&Hat&[-> Hhi]&_)).
  - chunk_step. destruct H as [_ ->]. simpl. rewrite orb_true_r. done.
  - intros m1 c m2 a Hm [-> Hhi] Hc.
    destruct (wf_chunk m m1 c m2 Hwf Hm) as (_&He&?&?&?&?&->&?&Hok).
    rewrite ranges_app, ranges_cons, sum_len_app; simpl. rewrite app_nil_r.
    rewrite ranges_app, ranges_cons, app_nil_r in He. rewrite <-He.
    destruct Hwf as [_ Hok']. rewrite Hm, ranges_app, ranges_cons, !ranges_ok_app in Hok'.
    destruct Hok' as (Hb1&_&_). apply sum_len_bound in Hb1. rewrite wadd_small by lia.
    split; [done|]. right. lia.
  - simpl. auto.
  - exists it, (ranges m1), (ranges m2). split_and!; [done| |done].
    eapply at_chunk_pos; [apply Hwf|done].
Qed.

Lemma count_ranges_of_chunk_ok m e it pre post :
  wf m → at_pos m it pre post → (pre = [] ∨ hi_of (-1) pre ≤ e) →
  ∃ it' pre' post', count_ranges_of_chunk m e (it, sum_len pre) = Some (it', sum_len pre') ∧
    at_pos m it' pre' post' ∧ (pre' = [] ∨ hi_of (-1) pre' ≤ e) ∧
    match post' with [] => True | r :: _ => e < r.2 end.
Proof.
  intros Hwf Hat Hhi0. unfold count_ranges_of_chunk.
  loop_step ltac:(fun step => destruct (range_loop (λ r _, r.2 <=? e)
    (λ r ret, ret +w (r.2 -w r.1))
    (λ pre ret, ret = sum_len pre ∧ (pre = [] ∨ hi_of (-1) pre ≤ e))
    m step it pre post (sum_len pre) Hwf Hat) as (it'&pre'&post'&a&->&Hat'&[-> Hhi]&Hp)).
  - range_step Hwf.
  - intros pre1 r post1 a Hm [-> Hhi] Hc.
    destruct (wf_range m pre1 r post1 Hwf Hm) as (?&?&?&?&?&?&Hs).
    rewrite sum_len_app, hi_of_snoc; simpl. unfold range_len.
    rewrite wsub_small, wadd_small by lia. split; [lia|right; lia].
  - done.
  - exists it', pre', post'. split_and!; [done..|]. destruct post'; [done|lia].
Qed.

Lemma count_from_begin m e :
  wf m → 0 ≤ e → count_from m e (Iterator.begin_it m) 0 = Some (below (ranges m) e).
Proof.
  intros Hwf He. unfold count_from.
  destruct (count_chunks_ok m e Hwf) as (it1&pre1&post1&->&Hat1&Hhi1). cbn [mbind option_bind].
  destruct (count_ranges_of_chunk_ok m e it1 pre1 post1) as (it&pre&post&->&Hat&Hhi&Hp); [done..|].
  cbn [mbind option_bind]. rewrite (is_end_at _ _ _ _ Hwf Hat).
  pose proof (at_pos_split _ _ _ _ Hat) as Heq.
  destruct (wf_split m pre post Hwf Heq) as [H1 H2].
  assert (below pre e = sum_len pre) as Hb.
  { destruct Hhi as [->|]; [done|]. by apply (below_high (-1)). }
  rewrite Heq, below_app, Hb. destruct post as [|r post]; simpl; [f_equal; lia|].
  rewrite (deref_at _ _ _ _ _ Hat). simpl. f_equal.
  destruct (wf_range m pre r post Hwf Heq) as (?&?&?&?&?&?&Hs).
  destruct H2 as (_&_&_&H2). rewrite (below_low _ _ _ H2) by lia.
  destruct (Z.ltb_spec r.1 e); [|lia]. rewrite wsub_small, wadd_small by lia. lia.
Qed.

(** *** [count(0, end)] is the rank of [end]. *)
Lemma count_zero_ok m e : wf m → 0 ≤ e → count m 0 e = Some (below (ranges m) e).
Proof.
  intros Hwf He. unfold count.
  destruct (find_exists m 0 Hwf) as (it&pre&post&->&Hat&Hhi&Hp); [lia|]. cbn [mbind option_bind].
  pose proof (at_pos_split _ _ _ _ Hat) as Heq.
  destruct (wf_split m pre post Hwf Heq) as [H1 H2].
  assert (pre = []) as ->.
  { destruct pre as [|r pre]; [done|]. destruct H1 as (?&?&?&H1). simpl in *.
    apply ranges_ok_hi in H1. lia. }
  rewrite (is_end_at _ _ _ _ Hwf Hat). simpl in *.
  destruct post as [|r post]; simpl.
  { by rewrite Heq. }
  rewrite (deref_at _ _ _ _ _ Hat). simpl. destruct H2 as (?&?&?&H2).
  destruct (Z.leb_spec e r.1).
  { rewrite Heq; simpl. rewrite (below_low _ _ _ H2) by lia. f_equal. lia. }
  destruct (Z.leb_spec e r.2).
  { rewrite Heq; simpl. rewrite (below_low _ _ _ H2) by lia. f_equal. rewrite wsub_small; lia. }
  assert (it = Iterator.begin_it m) as ->.
  { pose proof (at_pos_eqb_begin m it [] (r :: post) (proj1 Hwf) Hat) as Hb.
    rewrite bool_decide_true in Hb by done. by apply bool_decide_eq_true in Hb. }
  destruct (Z.ltb_spec r.1 0); [lia|]. simpl. by apply count_from_begin.
Qed.

(** *** [count] always returns, whatever it counts. *)
Lemma count_rest_total m e it pre post a :
  wf m → at_pos m it pre post →
  ∃ s, count_rest_of_chunk m e (it, a) = Some s ∧
    ∃ pre' post', at_pos m s.1 pre' post' ∧
      match post' with [] => True | r :: _ => e ≤ r.2 ∨ m_inner s.1 = 0%nat end.
Proof.
  intros Hwf Hat. unfold count_rest_of_chunk.
  loop_step ltac:(fun step => apply (while_loop_spec step
    (λ n s, ∃ pre post, n = length post ∧ at_pos m s.1 pre post)
    (λ s, ∃ pre' post', at_pos m s.1 pre' post' ∧
      match post' with [] => True | r :: _ => e ≤ r.2 ∨ m_inner s.1 = 0%nat end)) with (n := length post)).
  - intros n [it1 a1] (pre1&post1&->&Hat1). simpl in Hat1. rewrite (is_end_at _ _ _ _ Hwf Hat1).
    destruct post1 as [|r post1]; [left; eexists; split; [done|]; by exists pre1, []|].
    rewrite bool_decide_false by done. rewrite (deref_at _ _ _ _ _ Hat1). cbn [mbind option_bind].
    destruct (Z.ltb_spec r.2 e) as [Hlt|Hge]; simpl; [|left; eexists; split; [done|]; exists pre1, (r :: post1); auto].
    destruct (Nat.eqb_spec (m_inner it1) 0) as [E|E]; simpl.
    + left; eexists; split; [done|]; exists pre1, (r :: post1); auto.
    + right. destruct (next_at _ _ _ _ _ (proj1 Hwf) Hat1) as (it2&->&Hat2). simpl.
      eexists _, _. split; [done|]. split; [done|]. by exists (pre1 ++ [r]), post1.
  - by exists pre, post.
  - unfold range_fuel. rewrite (at_pos_split _ _ _ _ Hat), length_app. lia.
Qed.

Lemma count_chunks_total m e it m1 m2 a :
  wf m → at_chunk m it m1 m2 →
  ∃ s, count_chunks m e (it, a) = Some s ∧ ∃ pre' post', at_pos m s.1 pre' post'.
Proof.
  intros Hwf Hat. unfold count_chunks.
  loop_step ltac:(fun step => apply (while_loop_spec step
    (λ n s, ∃ m1 m2, n = length m2 ∧ at_chunk m s.1 m1 m2)
    (λ s, ∃ pre' post', at_pos m s.1 pre' post')) with (n := length m2)).
  - intros n [it1 a1] (k1&k2&->&Hat1). simpl in Hat1. rewrite (at_chunk_end _ _ _ _ Hat1).
    pose proof (at_chunk_pos _ _ _ _ (proj1 Hwf) Hat1) as Hpos.
    destruct k2 as [|c k2]; [left; eexists; split; [done|]; by eexists _, _|].
    rewrite bool_decide_false by done. destruct (at_chunk_next _ _ _ _ _ Hat1) as [-> Hnext]. cbn [mbind option_bind].
    destruct (chunk_end c <=? e); [|left; eexists; split; [done|]; by eexists _, _].
    right. assert (m_inner it1 = 0%nat) as -> by (by destruct Hat1 as [_ ->]). simpl. rewrite orb_true_r.
    eexists _, _. split; [done|]. split; [done|]. by eexists _, _.
  - by exists m1, m2.
  - destruct Hwf as [Hwf _]. pose proof (length_chunks m Hwf). destruct Hat as [Hm _].
    rewrite Hm, length_app in H at 1. unfold range_fuel. lia.
Qed.

Lemma count_from_total m e it pre post a :
  wf m → at_pos m it pre post → match post with [] => True | _ => m_inner it = 0%nat end →
  ∃ n, count_from m e it a = Some n.
Proof.
  intros Hwf Hat Hin. unfold count_from.
  assert (∃ m1 m2, at_chunk m it m1 m2) as (m1&m2&Hc).
  { destruct post as [|r post].
    - pose proof (at_pos_end_inv _ _ _ (proj1 Hwf) Hat) as ->. exists m, []. split; [by rewrite app_nil_r|done].
    - apply at_pos_inv in Hat as (m1&c&m2&d1&d2&->&_&->&_). simpl in Hin. exists m1, (c :: m2).
      by destruct d1. }
  destruct (count_chunks_total m e it m1 m2 a Hwf Hc) as ([it1 a1]&->&pre1&post1&Hat1). simpl in Hat1.
  cbn [mbind option_bind]. unfold count_ranges_of_chunk.
  loop_step ltac:(fun step => destruct (range_loop (λ r _, r.2 <=? e) (λ r ret, ret +w (r.2 -w r.1)) (λ _ _, True)
    m step it1 pre1 post1 a1 Hwf Hat1) as (it2&pre2&post2&a2&->&Hat2&_)); [range_step Hwf|done|done|].
  cbn [mbind option_bind]. rewrite (is_end_at _ _ _ _ Hwf Hat2). destruct post2 as [|r post2]; [by eexists|].
  rewrite bool_decide_false, (deref_at _ _ _ _ _ Hat2) by done. by eexists.
Qed.

Lemma count_total m a e : wf m → 0 ≤ a → ∃ n, count m a e = Some n.
Proof.
  intros Hwf Ha. unfold count. destruct (find_exists m a Hwf) as (it&pre&post&->&Hat&_); [lia|].
  cbn [mbind option_bind]. rewrite (is_end_at _ _ _ _ Hwf Hat). destruct post as [|r post]; [by eexists|].
  rewrite bool_decide_false, (deref_at _ _ _ _ _ Hat) by done. cbn [mbind option_bind].
  destruct (e <=? r.1); [by eexists|]. destruct (e <=? r.2); [by eexists|].
  destruct ((r.1 <? a) || negb (m_inner it =? 0)%nat) eqn:Emid.
  - destruct (next_at _ _ _ _ _ (proj1 Hwf) Hat) as (it1&->&Hat1). cbn [mbind option_bind].
    destruct (count_rest_total m e it1 _ _ (r.2 -w Z.max r.1 a) Hwf Hat1) as ([it2 a2]&->&pre2&post2&Hat2&Hstop).
    simpl in Hat2, Hstop. cbn [mbind option_bind]. rewrite (is_end_at _ _ _ _ Hwf Hat2).
    destruct post2 as [|r2 post2]; [by eexists|]. rewrite bool_decide_false, (deref_at _ _ _ _ _ Hat2) by done.
    cbn [mbind option_bind]. destruct (Z.leb_spec e r2.2); [by eexists|].
    apply (count_from_total m e it2 pre2 (r2 :: post2)); [done..|]. destruct Hstop; [lia|done].
  - apply (count_from_total m e it pre (r :: post)); [done..|].
    apply orb_false_iff in Emid as [_ E%negb_false_iff]. by apply Nat.eqb_eq.
Qed.

(** *** [unshift] *)
Lemma unshift_ok m index :
  wf m → 0 ≤ index ≤ npos → ¬ mem (ranges m) index →
  unshift m index = Some (index - below (ranges m) index).
Proof.
  intros Hwf Hi Hn. unfold unshift. rewrite contains_ok by (done || lia).
  rewrite bool_decide_false by done. cbn [mbind option_bind]. rewrite orb_true_r, count_zero_ok by (done || lia).
  simpl. pose proof (below_bounds (-1) (ranges m) index (proj2 Hwf)).
  rewrite wsub_small by lia. done.
Qed.

(** ** Shifting the ranges after a position *)
Definition shift_ranges_by (d : Z) (rs : list (Z * Z)) : list (Z * Z) :=
  (λ r, (r.1 + d, r.2 + d)) <$> rs.

Lemma shift_until_end_ok m it pre post d :
  vec_wf m → at_pos m it pre post →
  Forall (λ r, 0 ≤ r.1 + d ≤ npos ∧ 0 ≤ r.2 + d ≤ npos) post →
  ∃ m', shift_until_end d (m, it) = Some m' ∧ vec_wf m' ∧ sizes m' = sizes m ∧
    ranges m' = pre ++ shift_ranges_by d post.
Proof.
  intros Hwf Hat Hpost. unfold shift_until_end.
  loop_step ltac:(fun step => destruct (while_loop_spec step
    (λ n '(m', it'), ∃ pre' rest, n = length rest ∧ vec_wf m' ∧ sizes m' = sizes m ∧
       at_pos m' it' pre' rest ∧ pre' ++ shift_ranges_by d rest = pre ++ shift_ranges_by d post ∧
       Forall (λ r, 0 ≤ r.1 + d ≤ npos ∧ 0 ≤ r.2 + d ≤ npos) rest)
    (λ m', vec_wf m' ∧ sizes m' = sizes m ∧ ranges m' = pre ++ shift_ranges_by d post))
    with (n := length post) (s := (m, it)) (fuel := range_fuel m) as (m'&->&?&?&?)).
  - intros n [m1 it1] (pre1&rest&->&Hwf1&Hsz&Hat1&Heq&Hr).
    unfold is_end. rewrite (at_pos_eqb_end _ _ _ _ Hwf1 Hat1). destruct rest as [|r rest].
    + left. eexists; split; [done|]. split_and!; [done..|].
      rewrite (at_pos_split _ _ _ _ Hat1). by rewrite <-Heq.
    + right. apply Forall_cons in Hr as [Hr Hrest].
      destruct (shift_at m1 it1 pre1 r rest d Hwf1 Hat1) as (m2&Hm2&Hwf2&Hsz2&Hat2).
      rewrite !wadd_small in Hat2 by lia.
      destruct (next_at m2 it1 _ _ _ Hwf2 Hat2) as (it2&Hit2&Hat3).
      rewrite bool_decide_false by done. rewrite Hm2. cbn [mbind option_bind].
      rewrite Hit2. simpl. do 2 eexists; split_and!; [done..|]. do 2 eexists.
      split_and!; [done|done|congruence|done| |done]. rewrite <-Heq, <-app_assoc. done.
  - by exists pre, post.
  - unfold range_fuel. rewrite (at_pos_split _ _ _ _ Hat), length_app. lia.
  - eauto.
Qed.

Lemma shift_ranges_fits m pre post c :
  wf m → ranges m = pre ++ post → 0 ≤ c → hi_of (-1) (ranges m) + c ≤ npos →
  Forall (λ r, 0 ≤ r.1 + c ≤ npos ∧ 0 ≤ r.2 + c ≤ npos) post.
Proof.
  intros Hwf Heq Hc Hmax. destruct (wf_split m pre post Hwf Heq) as [H1 H2].
  pose proof (ranges_ok_hi _ _ H1). rewrite Heq, hi_of_app in Hmax.
  assert (∀ lo rs, -1 ≤ lo → ranges_ok lo rs → hi_of lo rs + c ≤ npos →
    Forall (λ r, 0 ≤ r.1 + c ≤ npos ∧ 0 ≤ r.2 + c ≤ npos) rs) as Hall.
  { intros lo rs. revert lo. induction rs as [|r rs IH]; intros lo Hlo Hok Hhi; [done|].
    destruct Hok as (?&?&?&Hok). pose proof (ranges_ok_hi _ _ Hok). simpl in Hhi.
    constructor; [lia|]. apply (IH r.2); [lia|done..]. }
  eapply Hall; [|done..]. lia.
Qed.

Lemma ranges_ok_shift_post lo d rs lo' :
  ranges_ok lo rs → match rs with [] => True | r :: _ => lo' < r.1 + d end →
  hi_of lo rs + d ≤ npos → ranges_ok lo' (shift_ranges_by d rs).
Proof.
  destruct rs as [|r rs]; [done|]. intros (?&?&?&Hok) ? Hmax. simpl in *.
  pose proof (ranges_ok_hi _ _ Hok).
  split_and!; [lia..|]. by apply (ranges_ok_shift d r.2).
Qed.

(** ** Inserting *)
Definition inserted (P : Z → Prop) (index count x : Z) : Prop :=
  (x < index ∧ P x) ∨ (index ≤ x < index + count) ∨ (index + count ≤ x ∧ P (x - count)).

(** The loop that adds [index .. index + count) at the hole left by the shift *)
Lemma insert_loop_ok m it pre post index count :
  wf m → at_pos m it pre post → 0 ≤ index → 0 ≤ count → index + count ≤ npos →
  hi_of (-1) pre ≤ index → match post with [] => True | r :: _ => index + count < r.1 end →
  ∃ m' it', foldlM (λ '(m, pos) i,
           '(m, it) ← do_add m pos (index +w i);
           it' ← Iterator.next m it;
           Some (m, it')) (m, it) (seqZ 0 count) = Some (m', it') ∧ wf m' ∧
    ∀ x, mem (ranges m') x ↔ mem (ranges m) x ∨ index ≤ x < index + count.
Proof.
  intros Hwf Hat Hi Hc Hmax Hhi Hpost.
  destruct (foldlM_spec (λ '(m, pos) i,
           '(m, it) ← do_add m pos (index +w i);
           it' ← Iterator.next m it;
           Some (m, it'))
    (λ seen '(m', it'), wf m' ∧ (∃ pre', at_pos m' it' pre' post ∧
       hi_of (-1) pre' ≤ index + Z.of_nat (length seen)) ∧
       ∀ x, mem (ranges m') x ↔ mem (ranges m) x ∨ index ≤ x < index + Z.of_nat (length seen))
    [] (seqZ 0 count) (m, it)) as ([m' it']&->&Hwf'&_&Hm).
  - intros seen k rest [m1 it1] Heq _ (Hwf1&(pre1&Hat1&Hhi1)&Hm1). simpl in Heq.
    assert (k = Z.of_nat (length seen) ∧ k < count) as [-> Hk].
    { assert (seqZ 0 count !! length seen = Some k) as Hl.
      { rewrite Heq. by apply list_lookup_middle. }
      apply lookup_seqZ in Hl. lia. }
    set (i := index + Z.of_nat (length seen)) in *.
    destruct (do_add_ok m1 it1 pre1 post i) as (m2&it2&pre2&r&post2&Ha&Hwf2&Hat2&Hf&Hr&Hm2);
      [done|done| |lia|].
    { split; [done|]. destruct post as [|r post]; [done|].
      destruct (wf_range m1 _ _ _ Hwf1 (at_pos_split _ _ _ _ Hat1)) as (?&?&?&_). lia. }
    rewrite wadd_small by lia. fold i. rewrite Ha. cbn [mbind option_bind].
    assert (post2 = post ∧ r.2 = i + 1) as [-> Hr2].
    { inversion Hf; subst; simpl in *; try lia; done. }
    destruct (next_at m2 it2 pre2 r post (proj1 Hwf2) Hat2) as (it3&->&Hat3). simpl.
    eexists; split_and!; [done|]. rewrite length_app; simpl. split_and!; [done| |].
    + exists (pre2 ++ [r]). rewrite hi_of_snoc. split; [done|unfold i in *; lia].
    + intros x. rewrite Hm2, Hm1. unfold i. intuition lia.
  - simpl. rewrite Z.add_0_r. split_and!; [done|by exists pre|]. intros x. intuition lia.
  - do 2 eexists; split_and!; [done..|]. intros x. rewrite Hm. simpl.
    rewrite length_seqZ. intuition lia.
Qed.

Lemma mem_split_lt lo pre i x : ranges_ok lo pre → hi_of lo pre ≤ i → mem pre x → x < i.
Proof. intros Hok Hhi ?%(mem_bounds _ _ _ Hok). lia. Qed.

Lemma insert_at_ok m index count :
  wf m → 0 ≤ index → 0 < count → index + count ≤ npos → hi_of (-1) (ranges m) + count ≤ npos →
  ∃ m', insert_at m index count = Some m' ∧ wf m' ∧
    ∀ x, mem (ranges m') x ↔ inserted (mem (ranges m)) index count x.
Proof.
  intros Hwf Hi Hc Hmaxi Hmax. unfold insert_at. rewrite (proj2 (Z.ltb_lt 0 count) Hc).
  destruct (find_exists m index Hwf) as (it&pre&post&->&Hat&Hhi&Hp); [lia|]. cbn [mbind option_bind].
  pose proof (at_pos_split _ _ _ _ Hat) as Heq.
  destruct (wf_split m pre post Hwf Heq) as [H1 H2].
  pose proof (mem_split_lt (-1) pre index) as Hlt.
  pose proof (shift_ranges_fits m pre post count Hwf Heq ltac:(lia) Hmax) as Hfit.
  rewrite (is_end_at _ _ _ _ Hwf Hat). pose proof Hwf as [Hvec Hok].
  rewrite Heq, hi_of_app in Hmax. pose proof (ranges_ok_hi _ _ H1).
  destruct post as [|r post]; simpl.
  { destruct (insert_loop_ok m it pre [] index count) as (m'&it'&->&Hwf'&Hm); [done|done|lia..|done|].
    simpl. rewrite verify_ok by apply Hwf'. eexists; split_and!; [done..|].
    intros x. rewrite Hm, Heq, app_nil_r. unfold inserted. specialize (Hlt x H1 Hhi).
    pose proof (Hlt' := mem_split_lt (-1) pre index (x - count) H1 Hhi). intuition lia. }
  rewrite (deref_at _ _ _ _ _ Hat). simpl. apply Forall_cons in Hfit as [Hr Hfit].
  destruct H2 as (?&?&?&H2). pose proof (ranges_ok_hi _ _ H2). simpl in Hmax.
  destruct (Z.leb_spec r.1 index) as [Hin|Hout].
  - destruct (adjust_at m it pre r post 0 count Hvec Hat) as (m1&->&Hvec1&_&Hat1). simpl.
    rewrite !wadd_small, Z.add_0_r in Hat1 by lia.
    destruct (next_at m1 it _ _ _ Hvec1 Hat1) as (it1&->&Hat2). simpl.
    destruct (shift_until_end_ok m1 it1 _ post count Hvec1 Hat2 Hfit) as (m2&->&Hvec2&_&Heq2).
    simpl. rewrite <-app_assoc in Heq2. simpl in Heq2.
    assert (wf m2) as Hwf2.
    { split; [done|]. rewrite Heq2, ranges_ok_app. simpl. split_and!; [done|lia..|].
      apply (ranges_ok_shift_post r.2); [done| |done]. destruct post; [done|].
      destruct H2 as (?&_). simpl. lia. }
    rewrite verify_ok by apply Hwf2. eexists; split_and!; [done..|].
    intros x. rewrite Heq, Heq2, !mem_app. simpl. unfold shift_ranges_by. rewrite mem_shift.
    unfold inserted. rewrite !mem_app; simpl.
    pose proof (Hlt x H1 Hhi). pose proof (Hlt (x - count) H1 Hhi).
    pose proof (mem_bounds _ _ x H2). pose proof (mem_bounds _ _ (x - count) H2). intuition lia.
  - destruct (shift_at m it pre r post count Hvec Hat) as (m1&->&Hvec1&Hsz1&Hat1). simpl.
    rewrite !wadd_small in Hat1 by lia.
    destruct (next_at m1 it _ _ _ Hvec1 Hat1) as (it1&->&Hat2). simpl.
    destruct (shift_until_end_ok m1 it1 _ post count Hvec1 Hat2 Hfit) as (m2&->&Hvec2&Hsz2&Heq2).
    simpl. rewrite <-app_assoc in Heq2. simpl in Heq2.
    assert (wf m2) as Hwf2.
    { split; [done|]. rewrite Heq2, ranges_ok_app. simpl. split_and!; [done|lia..|].
      apply (ranges_ok_shift_post r.2); [done| |done]. destruct post; [done|].
      destruct H2 as (?&_). simpl. lia. }
    assert (at_pos m2 it pre (shift_ranges_by count (r :: post))) as Hat3.
    { apply (at_pos_transfer m m2 it pre (r :: post)); [done|congruence|done|done]. }
    destruct (insert_loop_ok m2 it pre (shift_ranges_by count (r :: post)) index count)
      as (m3&it3&->&Hwf3&Hm); [done|done|lia..|simpl; lia|].
    simpl. rewrite verify_ok by apply Hwf3. eexists; split_and!; [done..|].
    intros x. rewrite Hm, Heq, Heq2, !mem_app. simpl. unfold shift_ranges_by. rewrite mem_shift.
    unfold inserted. rewrite !mem_app; simpl.
    pose proof (Hlt x H1 Hhi). pose proof (Hlt (x - count) H1 Hhi).
    pose proof (mem_bounds _ _ x H2). pose proof (mem_bounds _ _ (x - count) H2). intuition lia.
Qed.

(** ** [shift_for_insert_at] opens a hole and adds nothing. *)
Definition shifted_for (P : Z → Prop) (index count x : Z) : Prop :=
  (x < index ∧ P x) ∨ (index + count ≤ x ∧ P (x - count)).

Lemma shift_for_insert_at_ok m index count :
  wf m → 0 ≤ index → 0 < count → index + count ≤ npos → hi_of (-1) (ranges m) + count ≤ npos →
  ∃ m', shift_for_insert_at m index count = Some m' ∧ wf m' ∧
    ∀ x, mem (ranges m') x ↔ shifted_for (mem (ranges m)) index count x.
Proof.
  intros Hwf Hi Hc Hmaxi Hmax. unfold shift_for_insert_at.
  rewrite (proj2 (Z.ltb_lt 0 count) Hc).
  destruct (find_exists m index Hwf) as (it&pre&post&->&Hat&Hhi&Hp); [lia|]. cbn [mbind option_bind].
  pose proof (at_pos_split _ _ _ _ Hat) as Heq.
  destruct (wf_split m pre post Hwf Heq) as [H1 H2].
  pose proof (mem_split_lt (-1) pre index) as Hlt.
  pose proof (shift_ranges_fits m pre post count Hwf Heq ltac:(lia) Hmax) as Hfit.
  rewrite (is_end_at _ _ _ _ Hwf Hat). pose proof Hwf as [Hvec Hok].
  rewrite Heq, hi_of_app in Hmax. pose proof (ranges_ok_hi _ _ H1).
  destruct post as [|r post]; simpl.
  { eexists; split_and!; [done..|]. intros x. rewrite Heq, app_nil_r. unfold shifted_for.
    pose proof (Hlt x H1 Hhi). pose proof (Hlt (x - count) H1 Hhi). intuition lia. }
  destruct (shift_until_end_ok m it pre (r :: post) count Hvec Hat Hfit)
    as (m1&->&Hvec1&Hsz1&Heq1). simpl.
  assert (at_pos m1 it pre (shift_ranges_by count (r :: post))) as Hat1.
  { by apply (at_pos_transfer m m1 it pre (r :: post)). }
  simpl in Hat1. rewrite (deref_at _ _ _ _ _ Hat1). simpl.
  destruct H2 as (?&?&?&H2). pose proof (ranges_ok_hi _ _ H2). simpl in Hmax.
  rewrite (wadd_small index) by lia.
  assert (∀ lo, lo = r.2 + count → ranges_ok lo (shift_ranges_by count post)) as Hpost.
  { intros lo ->. apply (ranges_ok_shift_post r.2); [done| |done]. destruct post; [done|].
    destruct H2 as (?&_). simpl. lia. }
  assert (∀ x, mem (ranges m) x ↔ mem pre x ∨ r.1 ≤ x < r.2 ∨ mem post x) as Hm.
  { intros x. by rewrite Heq, mem_app. }
  destruct (Z.ltb_spec (r.1 + count) (index + count)) as [Hin|Hout].
  - rewrite wsub_small by lia. replace (r.1 + count - count) with r.1 by lia.
    destruct (set_at m1 it pre _ _ r.1 index Hvec1 Hat1) as (m2&->&Hvec2&Hsz2&Hat2). simpl.
    destruct (next_at m2 it _ _ _ Hvec2 Hat2) as (it2&->&Hat3). simpl.
    assert (ranges_ok (-1) ((pre ++ [(r.1, index)]) ++ (index + count, r.2 + count) ::
      shift_ranges_by count post)) as Hok3.
    { rewrite !ranges_ok_app, hi_of_snoc. simpl. split_and!; try done; try lia. by apply Hpost. }
    destruct (insert_ok m2 it2 _ _ (index + count, r.2 + count) Hvec2 Hat3 Hok3)
      as (m3&it3&->&Hvec3&Hat4).
    simpl. pose proof (at_pos_split _ _ _ _ Hat4) as Heq4. rewrite <-Heq4 in Hok3.
    rewrite verify_ok by done. eexists; split_and!; [done|by split|].
    intros x. rewrite Heq4, !mem_app. simpl. unfold shift_ranges_by. rewrite mem_shift.
    unfold shifted_for. rewrite !Hm.
    pose proof (Hlt x H1 Hhi). pose proof (Hlt (x - count) H1 Hhi).
    pose proof (mem_bounds _ _ x H2). pose proof (mem_bounds _ _ (x - count) H2). intuition lia.
  - simpl in Heq1.
    assert (ranges_ok (-1) (ranges m1)) as Hok1.
    { rewrite Heq1, ranges_ok_app. simpl. split_and!; try done; try lia. by apply Hpost. }
    simpl. rewrite verify_ok by done. eexists; split_and!; [done|by split|].
    intros x. rewrite Heq1, !mem_app. simpl. unfold shift_ranges_by. rewrite mem_shift.
    unfold shifted_for. rewrite !Hm.
    pose proof (Hlt x H1 Hhi). pose proof (Hlt (x - count) H1 Hhi).
    pose proof (mem_bounds _ _ x H2). pose proof (mem_bounds _ _ (x - count) H2). intuition lia.
Qed.

(** ** Erasing *)
Definition erased (P : Z → Prop) (index x : Z) : Prop :=
  (x < index ∧ P x) ∨ (index ≤ x ∧ P (x + 1)).

Lemma shift_left_fits lo rs :
  0 ≤ lo → ranges_ok lo rs → Forall (λ r, 0 ≤ r.1 + -1 ≤ npos ∧ 0 ≤ r.2 + -1 ≤ npos) rs.
Proof.
  revert lo. induction rs as [|r rs IH]; intros lo Hlo Hok; [done|].
  destruct Hok as (?&?&?&?). constructor; [lia|]. apply (IH r.2); [lia|done].
Qed.

(** The shift that ends every erasure: [post] moves down by one. *)
Lemma shift_left_ok m it pre post index :
  vec_wf m → at_pos m it pre post → ranges_ok (-1) pre → ranges_ok index post →
  match post with [] => True | r :: _ => hi_of (-1) pre + 1 < r.1 end → 0 ≤ index →
  ∃ m', shift_until_end (-1) (m, it) = Some m' ∧ wf m' ∧
    ∀ x, mem (ranges m') x ↔ mem pre x ∨ mem post (x + 1).
Proof.
  intros Hvec Hat H1 H2 Hhd Hi.
  destruct (shift_until_end_ok m it pre post (-1) Hvec Hat) as (m'&->&Hvec'&_&Heq).
  { by eapply shift_left_fits. }
  pose proof (ranges_ok_hi _ _ H1). eexists; split_and!; [done|split; [done|]|].
  - rewrite Heq, ranges_ok_app. split; [done|]. destruct post as [|r post]; [done|].
    apply (ranges_ok_shift_post index); [done|lia|]. destruct H2 as (?&?&?&H2). simpl.
    apply ranges_ok_hi in H2. lia.
  - intros x. rewrite Heq, mem_app. unfold shift_ranges_by. rewrite mem_shift.
    by replace (x - -1) with (x + 1) by lia.
Qed.

Lemma do_erase_ok m it pre r post index :
  wf m → at_pos m it pre (r :: post) → splits (-1) index pre (r :: post) → 0 ≤ index →
  ∃ m', do_erase m it index = Some m' ∧ wf m' ∧
    ∀ x, mem (ranges m') x ↔ erased (mem (ranges m)) index x.
Proof.
  intros Hwf Hat [Hhi Hhd] Hi. unfold do_erase. rewrite (deref_at _ _ _ _ _ Hat).
  pose proof (at_pos_split _ _ _ _ Hat) as Heq. pose proof Hwf as [Hvec Hok].
  destruct (wf_split m pre (r :: post) Hwf Heq) as [H1 H2]. pose proof H2 as (?&?&?&H3).
  pose proof (ranges_ok_hi _ _ H1) as [? _].
  assert (∀ x, mem (ranges m) x ↔ mem pre x ∨ r.1 ≤ x < r.2 ∨ mem post x) as Hm.
  { intros x. by rewrite Heq, mem_app. }
  assert (∀ x, mem pre x → x < index) as Hlt by (intros x; by eapply mem_split_lt).
  pose proof (λ x, mem_bounds _ _ x H3) as Hgt. pose proof (λ x, mem_bounds _ _ x H1) as Hpre.
  assert (match post with [] => True | r' :: _ => r.2 < r'.1 end) as Hhd3.
  { destruct post; [done|]. by destruct H3 as (?&_). }
  cbn [mbind option_bind]. destruct (Z.leb_spec r.1 index) as [Hin|Hout].
  - rewrite wadd_small by lia. destruct (Z.eqb_spec (r.1 + 1) r.2) as [E|E].
    + destruct (erase_ok m it pre r post Hvec Hat) as (m1&it1&->&Hvec1&Hat1).
      { apply (ranges_ok_remove _ _ r). by rewrite <-Heq. }
      destruct (shift_left_ok m1 it1 pre post r.2 Hvec1 Hat1 H1 H3) as (m'&Hs&Hwf'&Hm');
        [destruct post; [done|lia]|lia|].
      cbn [mbind option_bind]. rewrite Hs. eexists; split_and!; [done..|]. intros x. rewrite Hm'. unfold erased.
      rewrite !Hm. pose proof (Hlt x). pose proof (Hlt (x + 1)).
      pose proof (Hgt x). pose proof (Hgt (x + 1)). intuition lia.
    + destruct (adjust_at m it pre r post 0 (-1) Hvec Hat) as (m1&->&Hvec1&_&Hat1). simpl.
      rewrite !wadd_small, Z.add_0_r in Hat1 by lia.
      destruct (next_at m1 it _ _ _ Hvec1 Hat1) as (it1&->&Hat2). simpl.
      destruct (shift_left_ok m1 it1 (pre ++ [(r.1, r.2 + -1)]) post r.2 Hvec1 Hat2) as (m'&Hs&Hwf'&Hm');
        [|done|destruct post; [done|rewrite hi_of_snoc; simpl; lia]|lia|].
      { rewrite ranges_ok_app. simpl. split_and!; [done|lia..|done]. }
      rewrite Hs. eexists; split_and!; [done..|]. intros x. rewrite Hm', mem_app. simpl. unfold erased.
      rewrite !Hm. pose proof (Hlt x). pose proof (Hlt (x + 1)).
      pose proof (Hgt x). pose proof (Hgt (x + 1)). intuition lia.
  - rewrite (at_pos_eqb_begin _ _ _ _ Hvec Hat).
    assert (hi_of (-1) pre + 1 < r.1 → ∃ m', shift_until_end (-1) (m, it) = Some m' ∧ wf m' ∧
      ∀ x, mem (ranges m') x ↔ erased (mem (ranges m)) index x) as Hplain.
    { intros Hgap. destruct (shift_left_ok m it pre (r :: post) index Hvec Hat H1)
        as (m'&->&Hwf'&Hm'); [simpl; split_and!; [lia..|done]|done|done|].
      eexists; split_and!; [done..|]. intros x. rewrite Hm'. simpl. unfold erased. rewrite !Hm.
      pose proof (Hlt x). pose proof (Hlt (x + 1)).
      pose proof (Hgt x). pose proof (Hgt (x + 1)). intuition lia. }
    destruct (decide (pre = [])) as [->|Hne].
    { rewrite bool_decide_true by done. simpl in *. apply Hplain. lia. }
    rewrite bool_decide_false by done. destruct (destruct_last pre Hne) as (pre0&p&->).
    rewrite hi_of_snoc in *. destruct (prev_at m it pre0 p _ Hvec Hat) as (itp&->&Hatp).
    cbn [mbind option_bind]. rewrite (deref_at _ _ _ _ _ Hatp). cbn [mbind option_bind].
    rewrite wadd_small by lia. destruct (Z.eqb_spec (p.2 + 1) r.1) as [E|E].
    2:{ apply Hplain. lia. }
    clear Hplain. apply ranges_ok_app in H1 as [H1 (?&?&?&_)].
    destruct (adjust_at m itp pre0 p _ 0 (r.2 -w r.1) Hvec Hatp) as (m1&->&Hvec1&Hsz1&Hat1).
    pose proof (ranges_ok_hi _ _ H1) as [? _].
    rewrite wsub_small, !wadd_small, Z.add_0_r in Hat1 by lia. cbn [mbind option_bind].
    assert (at_pos m1 it (pre0 ++ [(p.1, p.2 + (r.2 - r.1))]) (r :: post)) as Hat2.
    { apply (at_pos_transfer m m1 it (pre0 ++ [p]) (r :: post)); [done|done| |].
      - by rewrite (at_pos_split _ _ _ _ Hat1), <-app_assoc.
      - by rewrite !length_app. }
    assert (ranges_ok (-1) (pre0 ++ [(p.1, p.2 + (r.2 - r.1))])) as Hok1.
    { rewrite ranges_ok_app. simpl. split_and!; [done|lia..|done]. }
    destruct (erase_ok m1 it _ r post Hvec1 Hat2) as (m2&it2&->&Hvec2&Hat3).
    { rewrite ranges_ok_app, hi_of_snoc. simpl. split; [done|].
      apply (ranges_ok_lower r.2); [done|lia]. }
    cbn [mbind option_bind].
    destruct (shift_left_ok m2 it2 _ post r.2 Hvec2 Hat3 Hok1 H3) as (m'&->&Hwf'&Hm');
      [destruct post; [done|rewrite hi_of_snoc; simpl; lia]|lia|].
    eexists; split_and!; [done..|]. intros x. rewrite Hm', mem_app. simpl. unfold erased.
    rewrite !Hm, !mem_app. simpl.
    assert (∀ y, mem pre0 y → y < p.1) as Hlt0.
    { intros y Hy. apply (mem_bounds _ _ _ H1) in Hy. lia. }
    pose proof (Hlt0 x). pose proof (Hlt0 (x + 1)).
    pose proof (Hgt x). pose proof (Hgt (x + 1)). intuition lia.
Qed.

Lemma erase_at_ok m index :
  wf m → 0 ≤ index →
  ∃ m', erase_at m index = Some m' ∧ wf m' ∧
    ∀ x, mem (ranges m') x ↔ erased (mem (ranges m)) index x.
Proof.
  intros Hwf Hi. unfold erase_at.
  destruct (find_exists m index Hwf) as (it&pre&post&->&Hat&Hsp); [lia|]. cbn [mbind option_bind].
  rewrite (is_end_at _ _ _ _ Hwf Hat). destruct post as [|r post].
  - rewrite bool_decide_true by done. eexists; split_and!; [done..|]. intros x.
    pose proof (at_pos_split _ _ _ _ Hat) as Heq.
    destruct (wf_split m pre [] Hwf Heq) as [H1 _]. rewrite Heq, app_nil_r. unfold erased.
    pose proof (mem_split_lt _ _ _ x H1 (proj1 Hsp)).
    pose proof (mem_split_lt _ _ _ (x + 1) H1 (proj1 Hsp)). intuition lia.
  - rewrite bool_decide_false by done. by eapply do_erase_ok.
Qed.

(** *** [erase_or_unshift] *)
Lemma unshift_chunks_ok m index :
  wf m → 0 ≤ index ≤ npos →
  ∃ it pre post, unshift_chunks m index (Iterator.begin_it m, index) =
      Some (it, index - sum_len pre) ∧
    at_pos m it pre post ∧ hi_of (-1) pre ≤ index.
Proof.
  intros Hwf Hi. unfold unshift_chunks.
  loop_step ltac:(fun step => destruct (chunk_loop (λ c _, chunk_end c <=? index)
    (λ c shifted, shifted -w chunk_count c)
    (λ m1 shifted, shifted = index - sum_len (ranges m1) ∧ hi_of (-1) (ranges m1) ≤ index)
    m step index Hwf) as (it&m1&m2&a&->&Hat&[-> Hhi]&_)).
  - chunk_step.
  - intros m1 c m2 a Hm [-> Hhi] Hc.
    destruct (wf_chunk m m1 c m2 Hwf Hm) as (_&He&?&?&?&?&->&?&Hok).
    rewrite ranges_app, ranges_cons, sum_len_app; simpl. rewrite app_nil_r.
    rewrite ranges_app, ranges_cons, app_nil_r in He. rewrite <-He.
    destruct Hwf as [_ Hok']. rewrite Hm, ranges_app, ranges_cons, !ranges_ok_app in Hok'.
    destruct Hok' as (Hb1&_&_). apply sum_len_bound in Hb1. rewrite wsub_small by lia. lia.
  - simpl. lia.
  - exists it, (ranges m1), (ranges m2). split_and!; [done| |done].
    eapply at_chunk_pos; [apply Hwf|done].
Qed.

Lemma unshift_ranges_ok m index it pre post :
  wf m → at_pos m it pre post → 0 ≤ index ≤ npos → hi_of (-1) pre ≤ index →
  ∃ it' pre' post', unshift_ranges m index (it, index - sum_len pre) =
      Some (it', index - sum_len pre') ∧
    at_pos m it' pre' post' ∧ splits (-1) index pre' post'.
Proof.
  intros Hwf Hat Hi Hhi0. unfold unshift_ranges.
  loop_step ltac:(fun step => destruct (range_loop (λ r _, r.2 <=? index)
    (λ r shifted, shifted -w (r.2 -w r.1))
    (λ pre shifted, shifted = index - sum_len pre ∧ hi_of (-1) pre ≤ index)
    m step it pre post (index - sum_len pre) Hwf Hat) as (it'&pre'&post'&a&->&Hat'&[-> Hhi]&Hp)).
  - range_step Hwf.
  - intros pre1 r post1 a Hm [-> Hhi] Hc.
    destruct (wf_range m pre1 r post1 Hwf Hm) as (?&?&?&?&?&?&Hs).
    rewrite sum_len_app, hi_of_snoc; simpl. unfold range_len.
    rewrite (wsub_small r.2), wsub_small by lia. lia.
  - done.
  - exists it', pre', post'. split_and!; [done..|]. split; [done|]. destruct post'; [done|lia].
Qed.

Lemma erase_or_unshift_ok m index :
  wf m → 0 ≤ index ≤ npos →
  ∃ m', erase_or_unshift m index =
      Some (m', if decide (mem (ranges m) index) then npos
                else index - below (ranges m) index) ∧ wf m' ∧
    ∀ x, mem (ranges m') x ↔ erased (mem (ranges m)) index x.
Proof.
  intros Hwf Hi. unfold erase_or_unshift.
  destruct (unshift_chunks_ok m index Hwf Hi) as (it1&pre1&post1&->&Hat1&Hhi1).
  cbn [mbind option_bind].
  destruct (unshift_ranges_ok m index it1 pre1 post1) as (it&pre&post&->&Hat&Hsp); [done..|].
  cbn [mbind option_bind]. rewrite (is_end_at _ _ _ _ Hwf Hat).
  pose proof (at_pos_split _ _ _ _ Hat) as Heq.
  assert (ranges_ok (-1) (pre ++ post)) as Hok by (rewrite <-Heq; apply Hwf).
  pose proof (splits_mem _ _ _ _ Hok Hsp) as Hmem. rewrite <-Heq in Hmem.
  destruct post as [|r post].
  - rewrite bool_decide_true by done. rewrite decide_False by tauto.
    destruct (rank_at m pre [] index Hwf Heq (proj1 Hsp) I) as [Hn ->].
    eexists; split_and!; [done..|]. intros x. rewrite Heq, app_nil_r in *. unfold erased.
    pose proof (mem_split_lt _ _ _ x Hok (proj1 Hsp)).
    pose proof (mem_split_lt _ _ _ (x + 1) Hok (proj1 Hsp)). intuition lia.
  - rewrite bool_decide_false by done. rewrite (deref_at _ _ _ _ _ Hat). cbn [mbind option_bind].
    destruct (do_erase_ok m it pre r post index Hwf Hat Hsp) as (m'&->&?&?); [lia|].
    cbn [mbind option_bind]. eexists; split_and!; [|done..]. do 2 f_equal.
    destruct (Z.leb_spec r.1 index).
    + by rewrite decide_True by tauto.
    + rewrite decide_False by (rewrite Hmem; lia).
      destruct (rank_at m pre (r :: post) index Hwf Heq (proj1 Hsp)) as [_ ->]; done.
Qed.

(** ** Removing *)
Lemma set_ok m len :
  0 ≤ len ≤ npos →
  ∃ m', set m len = Some m' ∧ wf m' ∧ ∀ x, mem (ranges m') x ↔ 0 ≤ x < len.
Proof.
  intros Hlen. unfold set, clear. destruct (Z.eqb_spec len 0) as [->|Hne].
  - exists []. split_and!; [done|apply wf_nil|]. simpl. lia.
  - destruct (push_back_ok [] (0, len)) as (m'&->&Hwf&Heq); [by constructor|simpl; lia|].
    eexists; split_and!; [done| |].
    + split; [done|]. rewrite Heq. simpl. lia.
    + intros x. rewrite Heq. simpl. lia.
Qed.

(** One step of [do_remove] at the range [r]: either the range is gone or cut,
    and the walk goes on behind it, or the walk is over. *)
Lemma remove_step_ok m it pre r post begin end_ :
  wf m → at_pos m it pre (r :: post) → hi_of (-1) pre ≤ begin → 0 ≤ begin →
  r.1 ≤ begin < r.2 → begin < end_ → end_ ≤ npos →
  ∃ m' it' pre1 mid post1, remove_step m it r begin end_ = Some (m', it') ∧ wf m' ∧
    at_pos m' it' pre1 (mid ++ post1) ∧ hi_of (-1) (pre1 ++ mid) ≤ begin ∧
    hi_of (-1) pre1 ≤ begin ∧ (length post1 ≤ length (r :: post))%nat ∧
    (post1 = post ∨ ∃ b, post1 = (end_, b) :: post) ∧
    ∀ x, mem (ranges m') x ↔ mem (ranges m) x ∧ ¬ (r.1 ≤ x < r.2 ∧ begin ≤ x < end_).
Proof.
  intros Hwf Hat Hhi Hb Hr Hbe He. unfold remove_step. pose proof Hwf as [Hvec Hok].
  pose proof (at_pos_split _ _ _ _ Hat) as Heq.
  destruct (wf_split m pre (r :: post) Hwf Heq) as [H1 (?&?&?&H3)].
  pose proof (ranges_ok_hi _ _ H1) as [? _].
  assert (∀ x, mem (ranges m) x ↔ mem pre x ∨ r.1 ≤ x < r.2 ∨ mem post x) as Hm.
  { intros x. by rewrite Heq, mem_app. }
  pose proof (λ x, mem_bounds _ _ x H3) as Hgt. pose proof (λ x, mem_bounds _ _ x H1) as Hlt.
  destruct (Z.ltb_spec r.1 begin) as [C1|C1], (Z.ltb_spec end_ r.2) as [C2|C2]; cbn [andb].
  - destruct (set_at m it pre r post r.1 begin Hvec Hat) as (m1&->&Hvec1&_&Hat1).
    destruct (next_at m1 it _ _ _ Hvec1 Hat1) as (it1&Hn&Hat2). cbn [mbind option_bind].
    rewrite Hn. cbn [mbind option_bind].
    assert (ranges_ok (-1) ((pre ++ [(r.1, begin)]) ++ (end_, r.2) :: post)) as Hok2.
    { rewrite !ranges_ok_app, hi_of_snoc. simpl. split_and!; try done; lia. }
    destruct (insert_ok m1 it1 _ post (end_, r.2) Hvec1 Hat2 Hok2) as (m2&it2&->&Hvec2&Hat3).
    cbn [mbind option_bind]. destruct (prev_at m2 it2 _ _ _ Hvec2 Hat3) as (it3&->&Hat4).
    cbn [mbind option_bind]. pose proof (at_pos_split _ _ _ _ Hat3) as Heq3.
    exists m2, it3, pre, [(r.1, begin)], ((end_, r.2) :: post). rewrite hi_of_snoc.
    split_and!; [done|split; [done|by rewrite Heq3]|done|simpl; lia|lia|done|eauto|].
    intros x. rewrite Heq3, !mem_app, Hm. simpl. pose proof (Hgt x). pose proof (Hlt x). intuition lia.
  - assert ((begin =? r.1) = false) as -> by lia. cbn [andb].
    destruct (set_at m it pre r post r.1 begin Hvec Hat) as (m1&->&Hvec1&_&Hat1).
    cbn [mbind option_bind]. pose proof (at_pos_split _ _ _ _ Hat1) as Heq1.
    exists m1, it, pre, [(r.1, begin)], post. rewrite hi_of_snoc.
    split_and!; [done|split; [done|]|done|simpl; lia|lia|simpl; lia|eauto|].
    + rewrite Heq1, ranges_ok_app. simpl. split_and!; [done|lia..|].
      apply (ranges_ok_lower r.2); [done|lia].
    + intros x. rewrite Heq1, !mem_app, Hm. simpl. pose proof (Hgt x). pose proof (Hlt x). intuition lia.
  - assert ((begin =? r.1) = true) as -> by lia.
    assert ((r.2 <=? end_) = false) as -> by lia. cbn [andb].
    destruct (set_at m it pre r post end_ r.2 Hvec Hat) as (m1&->&Hvec1&_&Hat1).
    cbn [mbind option_bind]. pose proof (at_pos_split _ _ _ _ Hat1) as Heq1.
    exists m1, it, pre, [], ((end_, r.2) :: post). rewrite app_nil_r.
    split_and!; [done|split; [done|]|done|lia|lia|done|eauto|].
    + rewrite Heq1, ranges_ok_app. simpl. split_and!; [done|lia..|done].
    + intros x. rewrite Heq1, !mem_app, Hm. simpl. pose proof (Hgt x). pose proof (Hlt x). intuition lia.
  - assert ((begin =? r.1) = true) as -> by lia.
    assert ((r.2 <=? end_) = true) as -> by lia. cbn [andb].
    assert (ranges_ok (-1) (pre ++ post)) as Hok1.
    { apply (ranges_ok_remove _ _ r). by rewrite <-Heq. }
    destruct (erase_ok m it pre r post Hvec Hat Hok1) as (m1&it1&->&Hvec1&Hat1).
    pose proof (at_pos_split _ _ _ _ Hat1) as Heq1.
    exists m1, it1, pre, [], post. rewrite app_nil_r.
    split_and!; [done|split; [done|by rewrite Heq1]|done|lia|lia|simpl; lia|eauto|].
    intros x. rewrite Heq1, !mem_app, Hm. simpl. pose proof (Hgt x). pose proof (Hlt x). intuition lia.
Qed.

Lemma remove_step_splits m' b pre1 mid post1 r post e lo :
  wf m' → ranges m' = pre1 ++ mid ++ post1 → hi_of (-1) (pre1 ++ mid) ≤ b → b < r.2 → b < e →
  ranges_ok lo (r :: post) → (post1 = post ∨ ∃ b, post1 = (e, b) :: post) →
  splits (-1) b (pre1 ++ mid) post1.
Proof.
  intros Hwf Heq Hhi Hr Hb (?&?&?&Hok) Hpost. split; [done|].
  rewrite app_assoc in Heq. destruct (wf_split _ _ _ Hwf Heq) as [_ H2].
  destruct Hpost as [->|[c ->]].
  - destruct post as [|r' post]; [done|]. destruct Hok as (?&?&_). lia.
  - simpl in *. lia.
Qed.

(** What is left of the walk of [do_remove]. *)
Definition remove_measure (e : Z) (post : list (Z * Z)) : nat :=
  match post with [] => 0 | r :: post => if r.1 <? e then S (length post) else 0 end.

Lemma do_remove_ok m it pre post begin end_ :
  wf m → at_pos m it pre post → hi_of (-1) pre ≤ begin → 0 ≤ begin < end_ → end_ ≤ npos →
  ∃ m' it' pre' post', do_remove m it begin end_ = Some (m', it') ∧ wf m' ∧
    at_pos m' it' pre' post' ∧ hi_of (-1) pre' ≤ end_ ∧
    ∀ x, mem (ranges m') x ↔ mem (ranges m) x ∧ ¬ begin ≤ x < end_.
Proof.
  intros Hwf Hat Hhi Hb He. unfold do_remove.
  destruct (find_from_exists m begin it pre post) as (it0&pre0&post0&->&Hat0&Hsp0); [done..|lia|].
  cbn [mbind option_bind].
  loop_step ltac:(fun step => destruct (while_loop_lt step
    (λ n '(m1, it1, b), ∃ pre1 post1, n = remove_measure end_ post1 ∧ wf m1 ∧
       at_pos m1 it1 pre1 post1 ∧ splits (-1) b pre1 post1 ∧ 0 ≤ b < end_ ∧
       ∀ x, mem (ranges m1) x ∧ ¬ b ≤ x < end_ ↔ mem (ranges m) x ∧ ¬ begin ≤ x < end_)
    (λ '(m1, it1), ∃ pre1 post1, wf m1 ∧ at_pos m1 it1 pre1 post1 ∧ hi_of (-1) pre1 ≤ end_ ∧
       ∀ x, mem (ranges m1) x ↔ mem (ranges m) x ∧ ¬ begin ≤ x < end_))
    with (n := remove_measure end_ post0) (s := (m, it0, begin)) (fuel := S (range_fuel m))
    as ([m' it']&->&pre'&post'&?&?&?&?)).
  - intros n [[m1 it1] b] (pre1&post1&->&Hwf1&Hat1&Hsp1&Hb1&Hm1).
    pose proof (at_pos_split _ _ _ _ Hat1) as Heq1. destruct (wf_split m1 pre1 post1 Hwf1 Heq1) as [H1 H2].
    rewrite (is_end_at _ _ _ _ Hwf1 Hat1).
    assert ((match post1 with [] => True | r :: _ => end_ ≤ r.1 end) →
      ∀ x, mem (ranges m1) x ↔ mem (ranges m) x ∧ ¬ begin ≤ x < end_) as Hexit.
    { intros Hp x. rewrite <-Hm1. split; [|tauto]. intros Hx. split; [done|].
      rewrite Heq1, mem_app in Hx. destruct Hsp1 as [Hsp1 _].
      destruct Hx as [Hx|Hx]; [apply (mem_bounds _ _ _ H1) in Hx; lia|].
      destruct post1 as [|r post1]; [done|]. destruct H2 as (?&?&?&H2).
      destruct Hx as [Hx|Hx%(mem_bounds _ _ _ H2)]; lia. }
    destruct post1 as [|r post1].
    { left. eexists; split; [done|]. exists pre1, []. split_and!; [done..| |by apply Hexit].
      destruct Hsp1. lia. }
    rewrite bool_decide_false by done. rewrite (deref_at _ _ _ _ _ Hat1).
    cbn [mbind option_bind remove_measure]. destruct (Z.ltb_spec r.1 end_) as [Hlt|Hge].
    2:{ left. eexists; split; [done|]. exists pre1, (r :: post1).
        split_and!; [done..| |by apply Hexit]. destruct Hsp1. lia. }
    right. clear Hexit. set (b' := Z.max r.1 b). destruct Hsp1 as [Hsp1 Hsp1'].
    pose proof H2 as (?&?&?&H3).
    destruct (remove_step_ok m1 it1 pre1 r post1 b' end_)
      as (m2&it2&pre2&mid&post2&->&Hwf2&Hat2&Hhi2&Hhi2'&Hlen&Hp2&Hm2); [done|done|lia..|].
    cbn [mbind option_bind]. pose proof (at_pos_split _ _ _ _ Hat2) as Heq2.
    pose proof (remove_step_splits m2 b' pre2 mid post2 r post1 end_ _ Hwf2 Heq2 Hhi2
      ltac:(lia) ltac:(lia) H2 Hp2) as Hsp2.
    destruct (find_from_at m2 b' it2 pre2 (mid ++ post2) (pre2 ++ mid) post2)
      as (it3&->&Hat3); [done|done|done|lia|by rewrite <-app_assoc|done|].
    cbn [mbind option_bind]. do 2 eexists; split_and!; [|done|].
    2:{ exists (pre2 ++ mid), post2. split_and!; [done..|lia|lia|]. intros x. rewrite <-Hm1, Hm2.
        rewrite Heq1, mem_app. simpl. pose proof (mem_bounds _ _ x H1).
        pose proof (mem_bounds _ _ x H3). unfold b'. intuition lia. }
    destruct Hp2 as [->|[c ->]]; simpl.
    + destruct post1 as [|r1 post1]; simpl; [lia|]. destruct (_ <? _); lia.
    + rewrite Z.ltb_irrefl. lia.
  - exists pre0, post0. done.
  - unfold range_fuel. rewrite (at_pos_split _ _ _ _ Hat0), length_app.
    destruct post0; simpl; [lia|]. destruct (_ <? _); lia.
  - do 4 eexists; split_and!; done.
Qed.

Lemma remove_ok m index count :
  wf m → 0 ≤ index → 0 < count → index + count ≤ npos →
  ∃ m', remove m index count = Some m' ∧ wf m' ∧
    ∀ x, mem (ranges m') x ↔ mem (ranges m) x ∧ ¬ index ≤ x < index + count.
Proof.
  intros Hwf Hi Hc Hmax. unfold remove.
  destruct (find_exists m index Hwf) as (it&pre&post&->&Hat&Hsp); [lia|]. cbn [mbind option_bind].
  rewrite wadd_small by lia.
  destruct (do_remove_ok m it pre post index (index + count)) as (m'&?&?&?&->&?&_&_&?);
    [done..|apply Hsp|lia|lia|].
  simpl. eauto.
Qed.

(** [remove(IndexSet const&)]: difference *)
Lemma remove_set_ok m values :
  wf m → wf values →
  ∃ m', remove_set m values = Some m' ∧ wf m' ∧
    ∀ x, mem (ranges m') x ↔ mem (ranges m) x ∧ ¬ mem (ranges values) x.
Proof.
  intros Hwf [_ Hv]. unfold remove_set.
  destruct (foldlM_spec (λ '(m, it) range,
      match it with
      | None => Some (m, None)
      | Some it =>
          '(m, it) ← do_remove m it range.1 range.2;
          Some (m, if is_end m it then None else Some it)
      end)
    (λ seen '(m1, it1), wf m1 ∧
       (∀ x, mem (ranges m1) x ↔ mem (ranges m) x ∧ ¬ mem seen x) ∧
       match it1 with
       | Some it1 => ∃ pre post, at_pos m1 it1 pre post ∧ hi_of (-1) pre ≤ Z.max 0 (hi_of (-1) seen)
       | None => hi_of (-1) (ranges m1) ≤ hi_of (-1) seen
       end)
    [] (ranges values) (m, Some (Iterator.begin_it m))) as ([m' it']&->&Hwf'&Hm&_).
  - intros seen r rest [m1 it1] Heq _ (Hwf1&Hm1&Hit). simpl in Heq.
    rewrite Heq, ranges_ok_app in Hv. destruct Hv as (Hv1&?&?&?&_).
    pose proof (ranges_ok_hi _ _ Hv1) as [? _]. rewrite hi_of_snoc. destruct it1 as [it1|].
    + destruct Hit as (pre&post&Hat&Hhi).
      destruct (do_remove_ok m1 it1 pre post r.1 r.2)
        as (m2&it2&pre2&post2&->&Hwf2&Hat2&Hhi2&Hm2); [done|done|lia..|].
      cbn [mbind option_bind]. eexists; split_and!; [done|]. split_and!; [done| |].
      * intros x. rewrite Hm2, Hm1, mem_app. simpl. tauto.
      * rewrite (is_end_at _ _ _ _ Hwf2 Hat2). destruct post2 as [|r2 post2].
        -- rewrite bool_decide_true by done. apply at_pos_split in Hat2.
           rewrite Hat2, app_nil_r. done.
        -- rewrite bool_decide_false by done. do 2 eexists; split; [done|lia].
    + eexists; split_and!; [done|]. split_and!; [done| |lia]. intros x. rewrite Hm1, mem_app. simpl.
      split; [|tauto]. intros [Hx Hs]. split; [done|].
      pose proof (mem_bounds _ _ x (proj2 Hwf1) (proj2 (Hm1 x) (conj Hx Hs))). intuition lia.
  - split_and!; [done| |].
    + intros x. simpl. tauto.
    + exists [], (ranges m). split; [apply at_pos_begin, Hwf|simpl; lia].
  - cbn [mbind option_bind]. eauto.
Qed.
End Operations.
