(* ===== verification/IndexSetMerge.v ===== *)
(** The bulk operations of [IndexSet] that merge two index sets through
    [ChunkedRangeVectorBuilder]: [insert_at(IndexSet const&)],
    [shift_for_insert_at(IndexSet const&)] and [erase_at(IndexSet const&)]. *)
From S2P Require Import Prelude ChunkedRangeVector IndexSet IndexSetTheory.
Import ChunkedRangeVector IndexSet.

#[local] Arguments max_size : simpl never.

Section Merge.
Context {build : Build}.

(** ** The builder *)

(** The builder holds the ranges [rs]: full chunks, the current chunk, whose
    end is not known yet, and the preallocated empty chunks. *)
Definition builder_rep (b : Builder) (rs : list (Z * Z)) : Prop :=
  ∃ done d e k,
    b_data b = done ++ mkChunk d (front_of d) e (wrap (sum_len d)) ::
                 replicate k ChunkedRangeVectorBuilder.empty_chunk ∧
    m_outer_pos b = length done ∧ vec_wf done ∧ (length d ≤ max_size)%nat ∧
    length (ranges done) = (length done * max_size)%nat ∧
    (d = [] → done = []) ∧ rs = ranges done ++ d.

Definition merge_push (rs : list (Z * Z)) (r : Z * Z) : list (Z * Z) :=
  match last rs with
  | Some back =>
      if r.1 =? back.2 then take (pred (length rs)) rs ++ [(back.1, r.2)] else rs ++ [r]
  | None => [r]
  end.

Lemma merge_push_snoc rs back r :
  merge_push (rs ++ [back]) r =
    if r.1 =? back.2 then rs ++ [(back.1, r.2)] else rs ++ [back; r].
Proof.
  unfold merge_push. rewrite last_snoc. rewrite length_app, Nat.add_1_r; simpl.
  rewrite take_app_length. destruct (_ =? _); [done|]. by rewrite <-app_assoc.
Qed.

Lemma builder_init m : builder_rep (ChunkedRangeVectorBuilder.init m) [].
Proof.
  exists [], [], 0. unfold ChunkedRangeVectorBuilder.init. rewrite Nat.add_1_r.
  eexists. split; [done|]. split; [done|]. split; [by constructor|].
  split_and!; [apply Nat.le_0_l|done..].
Qed.

(** The ranges the preallocated chunks hold *)
Definition capacity (b : Builder) : nat := (length (b_data b) * max_size)%nat.

(** A range of length one, or one that fits in the preallocated chunks; the
    longer ranges that reach a new chunk are miscounted. *)
Lemma push_back_range_ok b rs r :
  builder_rep b rs → r.2 - r.1 = 1 ∨ (length rs < capacity b)%nat →
  ∃ b', ChunkedRangeVectorBuilder.push_back_range b r = Some b' ∧
    builder_rep b' (merge_push rs r) ∧ (capacity b ≤ capacity b')%nat.
Proof.
  intros (done&d&e&k&Hb&Hp&Hwf&Hlen&Hfull&Hd&->) Hr.
  unfold ChunkedRangeVectorBuilder.push_back_range. rewrite Hb, Hp, lookup_app_here.
  cbn [mbind option_bind]. simpl. pose proof max_size_ge as [Hmax _].
  assert (0 < max_size)%nat as Hpos by (pose proof max_size_ge; lia).
  destruct (decide (d = [])) as [->|Hne].
  { rewrite (Hd eq_refl) in *. simpl in *. eexists; split_and!; [done| |by unfold capacity; rewrite Hb].
    exists [], [r], e, k. split_and!; simpl; try done.
    f_equal. unfold front_of, range_len. simpl. f_equal. wrap_ring. }
  destruct (destruct_last d Hne) as (d'&back&->). rewrite last_snoc.
  rewrite app_assoc, merge_push_snoc. rewrite length_app, Nat.add_1_r. simpl.
  destruct (Z.eqb_spec r.1 back.2) as [E|E].
  { rewrite !list_insert_app_here. eexists; split_and!; [done| |unfold capacity; rewrite Hb; simpl; rewrite !length_app; simpl; lia].
    exists done, (d' ++ [(back.1, r.2)]), e, k. simpl. split_and!; try done.
    - do 2 f_equal. f_equal; [by destruct d'|]. rewrite !sum_len_app; simpl.
      unfold range_len; simpl. wrap_ring.
    - rewrite length_app in *. simpl in *. lia.
    - by destruct d'.
    - by rewrite app_assoc. }
  destruct (Nat.ltb_spec (S (length d')) max_size) as [Hlt|Hge].
  { rewrite list_insert_app_here. eexists; split_and!; [done| |unfold capacity; rewrite Hb; simpl; rewrite !length_app; simpl; lia].
    exists done, (d' ++ [back; r]), e, k. simpl. split_and!; try done.
    - rewrite <-app_assoc. simpl. do 2 f_equal. f_equal; [by destruct d'|].
      rewrite !sum_len_app; simpl. unfold range_len; simpl. wrap_ring.
    - rewrite length_app in *. simpl in *. lia.
    - by destruct d'.
    - by rewrite <-app_assoc. }
  rewrite list_insert_app_here, <-!app_assoc. simpl.
  set (full := mkChunk (d' ++ [back]) _ _ _).
  assert (full = of_data (d' ++ [back])) as ->.
  { unfold full. apply chunk_of_data; [done| |done]. unfold back_of. by rewrite last_snoc. }
  assert (vec_wf (done ++ [of_data (d' ++ [back])])) as Hwf'.
  { apply vec_wf_mid. split_and!; [done|by apply chunk_wf_of_data|by constructor]. }
  set (F := of_data (d' ++ [back])) in *.
  replace (S (length done)) with (length (done ++ [F])) by (rewrite length_app; simpl; lia).
  assert (ranges done ++ d' ++ [back; r] = ranges (done ++ [F]) ++ [r]) as ->.
  { rewrite ranges_app, ranges_cons; simpl. by rewrite app_nil_r, <-!app_assoc. }
  assert (length (ranges (done ++ [F])) = length (done ++ [F]) * max_size)%nat as Hfull'.
  { rewrite ranges_app, ranges_cons, !length_app, Hfull; simpl. rewrite !length_app in *; simpl in *. lia. }
  destruct k as [|k]; simpl.
  - rewrite lookup_ge_None_2 by lia. eexists; split_and!; [done| |].
    2:{ unfold capacity. rewrite Hb; simpl. rewrite !length_app; simpl. lia. }
    exists (done ++ [F]), [r], 0, 0%nat. simpl. split_and!; try done.
    assert (wrap (range_len r + 0) = 1) as ->; [|by rewrite <-app_assoc].
    destruct Hr as [Hr|Hr]; [unfold range_len; rewrite wrap_small; slia|].
    unfold capacity in Hr. rewrite Hb, !length_app, Hfull in Hr. simpl in Hr.
    rewrite !length_app in *. simpl in *. lia.
  - rewrite (cons_middle F done (ChunkedRangeVectorBuilder.empty_chunk :: _)), (app_assoc done [F]).
    rewrite lookup_app_here, list_insert_app_here. simpl.
    eexists; split_and!; [done| |unfold capacity; rewrite Hb; simpl; rewrite !length_app; simpl; lia].
    exists (done ++ [F]), [r], 0, k. simpl. split_and!; try done.
    assert (wrap (range_len r + 0) = r.2 -w r.1) as -> by (unfold range_len; wrap_ring). done.
Qed.

Lemma finalize_ok b rs :
  builder_rep b rs →
  ∃ m, ChunkedRangeVectorBuilder.finalize b = Some m ∧ vec_wf m ∧ ranges m = rs.
Proof.
  intros (done&d&e&k&Hb&Hp&Hwf&Hlen&_&Hd&->). unfold ChunkedRangeVectorBuilder.finalize.
  rewrite Hb, Hp. destruct (done ++ _) eqn:E; [by destruct done|]. rewrite <-E. clear E.
  rewrite cons_middle, app_assoc, take_app_le by (rewrite length_app; simpl; lia).
  rewrite take_ge by (rewrite length_app; simpl; lia). rewrite last_snoc.
  cbn [mbind option_bind]. simpl. destruct (decide (d = [])) as [->|Hne].
  - rewrite (Hd eq_refl). simpl. eexists; split_and!; [done|by constructor|done].
  - destruct (destruct_last d Hne) as (d'&back&->). rewrite last_snoc.
    rewrite length_app, Nat.add_1_r; simpl. rewrite list_insert_app_here.
    rewrite (chunk_of_data (d' ++ [back])); [|done|unfold back_of; by rewrite last_snoc|done].
    eexists; split_and!; [done| |].
    + apply vec_wf_mid. split_and!; [done|by apply chunk_wf_of_data|by constructor].
    + rewrite ranges_app, ranges_cons; simpl. by rewrite app_nil_r.
Qed.

(** The builder has received the indices [l]. *)
Definition builds (b : Builder) (l : list Z) : Prop :=
  ∃ rs, builder_rep b rs ∧ ranges_ok (-1) rs ∧ indexes rs = l.

Lemma builds_init m : builds (ChunkedRangeVectorBuilder.init m) [].
Proof. exists []. split_and!; [apply builder_init|done|done]. Qed.

Lemma merge_push_ok rs a c :
  ranges_ok (-1) rs → (∀ y, y ∈ indexes rs → y < a) → 0 ≤ a < c → c ≤ npos →
  ranges_ok (-1) (merge_push rs (a, c)) ∧
  indexes (merge_push rs (a, c)) = indexes rs ++ seqZ a (c - a).
Proof.
  intros Hok Hl Ha Hc. destruct (decide (rs = [])) as [->|Hne].
  { simpl. split; [lia|]. unfold indexes; simpl. by rewrite app_nil_r. }
  destruct (destruct_last rs Hne) as (rs'&r&->). rewrite merge_push_snoc. simpl.
  apply ranges_ok_app in Hok as [Hok (?&?&?&_)].
  assert (r.2 ≤ a) as Hle.
  { specialize (Hl (r.2 - 1)). rewrite elem_of_indexes, mem_app in Hl. simpl in Hl. lia. }
  destruct (Z.eqb_spec a r.2) as [->|E].
  - split; [rewrite ranges_ok_app; simpl; split_and!; [done|lia..]|].
    rewrite !indexes_app, <-app_assoc. f_equal. unfold indexes; simpl. rewrite !app_nil_r.
    replace (c - r.1) with (r.2 - r.1 + (c - r.2)) by lia. rewrite seqZ_app by lia.
    do 2 f_equal. lia.
  - split; [rewrite ranges_ok_app; simpl; split_and!; [done|lia..]|].
    change [r; (a, c)] with ([r] ++ [(a, c)]).
    rewrite !indexes_app, <-app_assoc. do 2 f_equal. unfold indexes; simpl. by rewrite app_nil_r.
Qed.

Lemma push_back_index_ok b l x :
  builds b l → (∀ y, y ∈ l → y < x) → 0 ≤ x < npos →
  ∃ b', ChunkedRangeVectorBuilder.push_back_index b x = Some b' ∧ builds b' (l ++ [x]).
Proof.
  intros (rs&Hrep&Hok&<-) Hl Hx. unfold ChunkedRangeVectorBuilder.push_back_index.
  rewrite wadd_small by lia.
  destruct (push_back_range_ok b rs (x, x + 1) Hrep) as (b'&->&Hrep'&_); [simpl; lia|].
  eexists; split; [done|]. exists (merge_push rs (x, x + 1)). split; [done|].
  destruct (merge_push_ok rs x (x + 1)) as [? ->]; [done|done|lia|lia|].
  split; [done|]. by replace (x + 1 - x) with 1 by lia.
Qed.

Lemma finalize_indexes b l :
  builds b l →
  ∃ m, ChunkedRangeVectorBuilder.finalize b = Some m ∧ wf m ∧ indexes (ranges m) = l.
Proof.
  intros (rs&Hrep&Hok&<-). destruct (finalize_ok b rs Hrep) as (m&->&Hwf&<-).
  eexists; split_and!; done.
Qed.

(** ** Counting in a sorted list *)
Fixpoint cnt (l : list Z) (x : Z) : Z :=
  match l with [] => 0 | y :: l => (if y <? x then 1 else 0) + cnt l x end.

Lemma cnt_nonneg l x : 0 ≤ cnt l x.
Proof. induction l as [|y l IH]; simpl; [lia|]. case_test; lia. Qed.

Lemma cnt_zero l x : (∀ y, y ∈ l → x ≤ y) → cnt l x = 0.
Proof.
  induction l as [|y l IH]; intros Hl; simpl; [done|].
  rewrite IH by (intros; apply Hl; by constructor). specialize (Hl y ltac:(constructor)).
  case_test; lia.
Qed.

(** At most [x - lo] of the elements from [lo] on are below [x]. *)
Lemma cnt_span l lo x :
  StronglySorted Z.lt l → (∀ y, y ∈ l → lo ≤ y) → lo ≤ x → cnt l x ≤ x - lo.
Proof.
  intros Hs. revert lo. induction Hs as [|y l Hs IH Hy]; intros lo Hl Hx; simpl; [lia|].
  assert (lo ≤ y) by (apply Hl; constructor). rewrite Forall_forall in Hy.
  case_test.
  - assert (cnt l x ≤ x - (y + 1)); [|lia]. apply IH; [|lia].
    intros z Hz. specialize (Hy z Hz). lia.
  - rewrite cnt_zero; [lia|]. intros z Hz. specialize (Hy z Hz). lia.
Qed.

Lemma cnt_app l1 l2 x : cnt (l1 ++ l2) x = cnt l1 x + cnt l2 x.
Proof. induction l1 as [|y l1 IH]; simpl; [done|]. rewrite IH. lia. Qed.

Lemma cnt_seqZ a n x : 0 ≤ n → cnt (seqZ a n) x = Z.max 0 (Z.min (a + n) x - a).
Proof.
  intros Hn. replace n with (Z.of_nat (Z.to_nat n)) by lia. revert a.
  induction (Z.to_nat n) as [|k IH]; intros a; [simpl; lia|].
  rewrite seqZ_head by lia. replace (Z.of_nat (S k) - 1) with (Z.of_nat k) by lia.
  simpl. rewrite IH. case_test; lia.
Qed.

Lemma cnt_indexes lo rs x : ranges_ok lo rs → cnt (indexes rs) x = below rs x.
Proof.
  revert lo. induction rs as [|r rs IH]; intros lo Hok; [done|]. destruct Hok as (?&?&?&Hok).
  change (indexes (r :: rs)) with (seqZ r.1 (r.2 - r.1) ++ indexes rs).
  rewrite cnt_app, (IH r.2), cnt_seqZ by (done || lia). simpl. f_equal. lia.
Qed.

(** ** The merges *)

(** [out] extends what the builder has received. *)
Definition extends (b : option Builder) (l : list Z) (Q : Z → Prop) : Prop :=
  ∃ b' out, b = Some b' ∧ builds b' (l ++ out) ∧ ∀ x, x ∈ out ↔ Q x.

Lemma extends_push b l x k Q R :
  builds b l → (∀ z, z ∈ l → z < x) → 0 ≤ x < npos →
  (∀ b', builds b' (l ++ [x]) → extends (k b') (l ++ [x]) R) →
  (∀ y, Q y ↔ y = x ∨ R y) →
  extends (b' ← ChunkedRangeVectorBuilder.push_back_index b x; k b') l Q.
Proof.
  intros Hb Hl Hx Hk HQ. destruct (push_back_index_ok b l x Hb Hl Hx) as (b'&->&Hb').
  destruct (Hk b' Hb') as (b''&out&Heq&Hb''&Hout). exists b'', (x :: out).
  split_and!; [done|by rewrite cons_middle, app_assoc|].
  intros y. rewrite elem_of_cons, Hout, HQ. done.
Qed.

Lemma extends_weaken b l Q R : extends b l R → (∀ y, Q y ↔ R y) → extends b l Q.
Proof.
  intros (b'&out&?&?&Hout) HQ. exists b', out. split_and!; [done..|].
  intros y. by rewrite Hout, HQ.
Qed.

Lemma push_rest_ok f g l1 b l :
  builds b l → StronglySorted Z.lt l1 → (∀ x, x ∈ l1 → f x = g x) →
  (∀ x y, x < y → g x < g y) → (∀ x, x ∈ l1 → 0 ≤ g x < npos) →
  (∀ z x, z ∈ l → x ∈ l1 → z < g x) →
  extends (push_rest f l1 b) l (λ y, ∃ x, x ∈ l1 ∧ y = g x).
Proof.
  intros Hb Hs Hfg Hf. revert b l Hb Hfg. induction Hs as [|x l1 Hs IH Hx]; intros b l Hb Hfg Hr Hl.
  - exists b, []. rewrite app_nil_r. split_and!; [done..|]. intros y. rewrite elem_of_nil.
    split; [done|]. by intros (?&?%elem_of_nil&_).
  - unfold push_rest; simpl. rewrite Forall_forall in Hx. rewrite (Hfg x) by constructor.
    eapply extends_push; [done|intros; apply Hl; [done|constructor]|apply Hr; constructor| |].
    + intros b' Hb'. apply IH; [done|intros; apply Hfg; by constructor|intros; apply Hr; by constructor|].
      intros z y [Hz| ->%list_elem_of_singleton]%elem_of_app Hy; [apply Hl; [done|by constructor]|].
      apply Hf, Hx, Hy.
    + intros y. simpl. split.
      * intros (x'&[->|]%elem_of_cons&->); [by left|right; eauto].
      * intros [->|(x'&?&->)]; [exists x; split; [constructor|done]|exists x'; split; [by constructor|done]].
Qed.

Lemma sorted_cons x l :
  StronglySorted Z.lt (x :: l) → StronglySorted Z.lt l ∧ (∀ y, y ∈ l → x < y).
Proof. intros [? Hx]%StronglySorted_inv. by rewrite Forall_forall in Hx. Qed.

(** What the positions [l2] still to insert do to an index [y] of the result. *)
Definition from_old (l1 l2 : list Z) (shift y : Z) : Prop :=
  ¬ (y ∈ l2) ∧ (y - shift - cnt l2 y) ∈ l1.

Lemma from_old_here x l1 y l2 shift v :
  StronglySorted Z.lt (x :: l1) → StronglySorted Z.lt (y :: l2) → x + shift < y →
  from_old (x :: l1) (y :: l2) shift v ↔ v = x + shift ∨ from_old l1 (y :: l2) shift v.
Proof.
  intros [_ H1]%sorted_cons Hs2 Hlt. unfold from_old.
  pose proof (proj2 (sorted_cons _ _ Hs2)) as H2.
  assert (∀ z, z ∈ y :: l2 → y ≤ z) as Hge.
  { intros z [->|?%H2]%elem_of_cons; lia. }
  split.
  - intros (Hn&[Heq|]%elem_of_cons); [left|by right].
    destruct (decide (v ≤ y)) as [Hle|].
    + rewrite cnt_zero in Heq; [lia|]. intros z ?%Hge. lia.
    + pose proof (cnt_span (y :: l2) y v Hs2 Hge). lia.
  - intros [->|[? ?]]; [|split; [done|by apply elem_of_cons; right]]. split; [intros ?%Hge; lia|].
    apply elem_of_cons. left. rewrite cnt_zero; [lia|]. intros z ?%Hge. lia.
Qed.

Lemma from_old_skip x l1 y l2 shift v :
  StronglySorted Z.lt (x :: l1) → StronglySorted Z.lt (y :: l2) → y ≤ x + shift →
  v = y ∨ (from_old (x :: l1) (y :: l2) shift v ↔ from_old (x :: l1) l2 (shift + 1) v).
Proof.
  intros [_ H1]%sorted_cons [_ H2]%sorted_cons Hle. unfold from_old.
  destruct (decide (v = y)) as [|Hne]; [by left|right]. rewrite not_elem_of_cons. simpl.
  destruct (Z.ltb_spec y v) as [Hv|Hv].
  - replace (v - shift - (1 + cnt l2 v)) with (v - (shift + 1) - cnt l2 v) by lia. tauto.
  - rewrite cnt_zero by (intros z ?%H2; lia).
    assert (∀ d, 0 ≤ d → v - shift - d ∉ x :: l1) as Hno.
    { intros d Hd [?|?%H1]%elem_of_cons; lia. }
    split; intros [_ Hin]; exfalso.
    + eapply (Hno 0); [lia|]. by replace (v - shift - 0) with (v - shift - (0 + 0)) by lia.
    + eapply (Hno 1); [lia|]. by replace (v - shift - 1) with (v - (shift + 1) - 0) by lia.
Qed.

Lemma insert_merge_ok l1 l2 shift b l :
  StronglySorted Z.lt l1 → StronglySorted Z.lt l2 → builds b l → 0 ≤ shift →
  (∀ x, x ∈ l1 → 0 ≤ x ∧ x + shift + Z.of_nat (length l2) < npos) →
  (∀ y, y ∈ l2 → 0 ≤ y < npos) →
  (∀ z x, z ∈ l → x ∈ l1 → z < x + shift) → (∀ z y, z ∈ l → y ∈ l2 → z < y) →
  extends (insert_merge l1 l2 shift b) l (λ y, y ∈ l2 ∨ from_old l1 l2 shift y).
Proof.
  revert l2 shift b l. induction l1 as [|x l1 IH1];
    intros l2; induction l2 as [|y l2 IH2]; intros shift b l Hs1 Hs2 Hb Hsh Hr1 Hr2 Hl1 Hl2.
  all: try (rename y into y0).
  - exists b, []. rewrite app_nil_r. split_and!; [done..|]. intros v. unfold from_old.
    rewrite !elem_of_nil. tauto.
  - cbn [insert_merge]. change (push_rest (λ x, x +w shift) [] b) with (Some b).
    cbn [mbind option_bind].
    eapply extends_weaken; [eapply (push_rest_ok (λ y, y) (λ y, y)); try done; intros; by apply Hl2|].
    intros v. unfold from_old. rewrite elem_of_nil. split; [intros [?|[_ []]]; eauto|].
    intros (x&?&->). by left.
  - cbn [insert_merge].
    assert (∀ z, z ∈ x :: l1 → 0 ≤ z ∧ z + shift < npos) as Hr.
    { intros z Hz. specialize (Hr1 z Hz). simpl in Hr1. lia. }
    destruct (push_rest_ok (λ x, x +w shift) (λ x, x + shift) (x :: l1) b l)
      as (b'&out&->&Hb'&Hout); [done|done| |lia| |done|].
    { intros z Hz%Hr. rewrite wadd_small; lia. }
    { intros z Hz%Hr. lia. }
    cbn [mbind option_bind]. exists b', out. split_and!; [done|done|]. intros v. rewrite Hout.
    unfold from_old. simpl. rewrite elem_of_nil. split.
    + intros (x'&?&->). right. split; [tauto|]. by replace (x' + shift - shift - 0) with x' by lia.
    + intros [[]|[_ ?]]. eexists; split; [done|lia].
  - cbn [insert_merge]. pose proof (sorted_cons _ _ Hs1) as [Hs1' Hx].
    pose proof (sorted_cons _ _ Hs2) as [Hs2' Hy].
    pose proof (Hr1 x ltac:(constructor)) as Hrx. simpl in Hrx.
    pose proof (Hr2 y0 ltac:(constructor)) as Hry.
    rewrite wadd_small by lia. destruct (Z.ltb_spec (x + shift) y0) as [Hlt|Hge].
    + eapply extends_push; [done|intros; apply Hl1; [done|constructor]|lia| |].
      * intros b' Hb'. apply IH1; try done.
        -- intros z Hz. apply Hr1. by constructor.
        -- intros z z' [Hz| ->%list_elem_of_singleton]%elem_of_app Hz'.
           ++ apply Hl1; [done|by constructor].
           ++ specialize (Hx z' Hz'). lia.
        -- intros z z' [Hz| ->%list_elem_of_singleton]%elem_of_app Hz'; [by apply Hl2|].
           apply elem_of_cons in Hz' as [->|Hz'%Hy]; lia.
      * intros v. simpl. rewrite from_old_here by done. tauto.
    + rewrite wadd_small by lia. eapply extends_push; [done|intros; apply Hl2; [done|constructor]|lia| |].
      * intros b' Hb'. apply IH2; try done; [lia|..].
        -- intros z Hz. specialize (Hr1 z Hz). simpl in Hr1. lia.
        -- intros z Hz. apply Hr2. by constructor.
        -- intros z z' [Hz| ->%list_elem_of_singleton]%elem_of_app Hz'.
           ++ specialize (Hl1 z z' Hz Hz'). lia.
           ++ apply elem_of_cons in Hz' as [->|Hz'%Hx]; lia.
        -- intros z z' [Hz| ->%list_elem_of_singleton]%elem_of_app Hz'; [|by apply Hy].
           apply Hl2; [done|by constructor].
      * intros v. simpl. rewrite elem_of_cons.
        destruct (from_old_skip x l1 y0 l2 shift v Hs1 Hs2 Hge) as [->| ->]; tauto.
Qed.

Lemma empty_ranges m : vec_wf m → empty m = bool_decide (ranges m = []).
Proof.
  intros Hwf. destruct m as [|c m]; [done|].
  apply Forall_cons in Hwf as [(_&Hne&_) _]. rewrite ranges_cons. simpl.
  rewrite bool_decide_false; [done|]. by intros [? _]%app_nil.
Qed.

(** The indices of a well-formed set leave room to be moved up by [n]. *)
Lemma indexes_fit m n x :
  wf m → hi_of (-1) (ranges m) + n ≤ npos → mem (ranges m) x → 0 ≤ x ∧ x + n < npos.
Proof. intros [_ Hok] Hn ?%(mem_bounds _ _ _ Hok). lia. Qed.

(** The index [y] comes from [y - below p y] when [p] is inserted. *)
Lemma from_old_mem m p y :
  wf m → wf p →
  from_old (indexes (ranges m)) (indexes (ranges p)) 0 y ↔
    ¬ mem (ranges p) y ∧ mem (ranges m) (y - below (ranges p) y).
Proof.
  intros [_ Hm] [_ Hp]. unfold from_old. rewrite !elem_of_indexes, (cnt_indexes _ _ _ Hp).
  by rewrite Z.sub_0_r.
Qed.

(** *** [insert_at(IndexSet const&)] *)
Lemma insert_set_at_ok m p :
  wf m → wf p → hi_of (-1) (ranges m) + sum_len (ranges p) ≤ npos →
  ∃ m', insert_set_at m p = Some m' ∧ wf m' ∧ ∀ y, mem (ranges m') y ↔
    mem (ranges p) y ∨ ¬ mem (ranges p) y ∧ mem (ranges m) (y - below (ranges p) y).
Proof.
  intros Hm Hp Hmax. unfold insert_set_at. rewrite !empty_ranges by first [apply Hm|apply Hp].
  case_bool_decide as Ep.
  { eexists; split_and!; [done..|]. intros y. rewrite Ep. simpl. rewrite Z.sub_0_r. tauto. }
  case_bool_decide as Em.
  { eexists; split_and!; [done..|]. intros y. rewrite Em. simpl. tauto. }
  rewrite !as_indexes_ok by done. cbn [mbind option_bind].
  destruct (insert_merge_ok (indexes (ranges m)) (indexes (ranges p)) 0
    (ChunkedRangeVectorBuilder.init m) []) as (b&out&->&Hb&Hout);
    [eapply indexes_sorted, Hm|eapply indexes_sorted, Hp|apply builds_init|done| | | | |].
  { intros x Hx%elem_of_indexes. rewrite (length_indexes (-1)) by apply Hp.
    pose proof (indexes_fit m _ x Hm Hmax Hx). lia. }
  { intros y Hy%elem_of_indexes. eapply (mem_npos (-1)); [done|apply Hp|done]. }
  { by intros z x ?%elem_of_nil. }
  { by intros z x ?%elem_of_nil. }
  cbn [mbind option_bind]. destruct (finalize_indexes _ _ Hb) as (m'&->&Hwf'&Hi).
  eexists; split_and!; [done..|]. intros y. rewrite <-elem_of_indexes, Hi. simpl.
  by rewrite Hout, elem_of_indexes, from_old_mem.
Qed.

(** *** [shift_for_insert_at(IndexSet const&)] *)
Lemma shift_merge_ok l1 l2 shift b l :
  StronglySorted Z.lt l1 → StronglySorted Z.lt l2 → builds b l → 0 ≤ shift →
  (∀ x, x ∈ l1 → 0 ≤ x ∧ x + shift + Z.of_nat (length l2) < npos) →
  (∀ z x, z ∈ l → x ∈ l1 → z < x + shift) →
  extends (shift_merge l1 l2 shift b) l (from_old l1 l2 shift).
Proof.
  revert l2 shift b l. induction l1 as [|x l1 IH1];
    intros l2; induction l2 as [|y0 l2 IH2]; intros shift b l Hs1 Hs2 Hb Hsh Hr1 Hl1.
  - exists b, []. rewrite app_nil_r. split_and!; [done..|]. intros v. unfold from_old.
    rewrite !elem_of_nil. tauto.
  - exists b, []. rewrite app_nil_r. split_and!; [done..|]. intros v. unfold from_old.
    rewrite !elem_of_nil. tauto.
  - cbn [shift_merge].
    assert (∀ z, z ∈ x :: l1 → 0 ≤ z ∧ z + shift < npos) as Hr.
    { intros z Hz. specialize (Hr1 z Hz). simpl in Hr1. lia. }
    eapply extends_weaken; [apply (push_rest_ok (λ x, x +w shift) (λ x, x + shift)); try done|].
    + intros z Hz%Hr. rewrite wadd_small; lia.
    + lia.
    + intros z Hz%Hr. lia.
    + intros v. unfold from_old. simpl. rewrite elem_of_nil. split.
      * intros [_ ?]. eexists; split; [done|lia].
      * intros (x'&?&->). split; [tauto|]. by replace (x' + shift - shift - 0) with x' by lia.
  - cbn [shift_merge]. pose proof (sorted_cons _ _ Hs1) as [Hs1' Hx].
    pose proof (sorted_cons _ _ Hs2) as [Hs2' Hy].
    pose proof (Hr1 x ltac:(constructor)) as Hrx. simpl in Hrx.
    rewrite wadd_small by lia. destruct (Z.ltb_spec (x + shift) y0) as [Hlt|Hge].
    + eapply extends_push; [done|intros; apply Hl1; [done|constructor]|lia| |].
      * intros b' Hb'. apply IH1; try done.
        -- intros z Hz. apply Hr1. by constructor.
        -- intros z z' [Hz| ->%list_elem_of_singleton]%elem_of_app Hz'.
           ++ apply Hl1; [done|by constructor].
           ++ specialize (Hx z' Hz'). lia.
      * intros v. simpl. by rewrite from_old_here by done.
    + rewrite wadd_small by lia. eapply extends_weaken; [apply IH2; try done; [lia|..]|].
      * intros z Hz. specialize (Hr1 z Hz). simpl in Hr1. lia.
      * intros z z' Hz Hz'. specialize (Hl1 z z' Hz Hz'). lia.
      * intros v. destruct (from_old_skip x l1 y0 l2 shift v Hs1 Hs2 Hge) as [->| ->]; [|done].
        split; [intros [Hn _]; destruct Hn; constructor|]. intros [_ Hin]. exfalso.
        rewrite cnt_zero in Hin by (intros z ?%Hy; lia).
        apply elem_of_cons in Hin as [?|?%Hx]; lia.
Qed.

Lemma shift_for_insert_set_at_ok m p :
  wf m → wf p → hi_of (-1) (ranges m) + sum_len (ranges p) ≤ npos →
  ∃ m', shift_for_insert_set_at m p = Some m' ∧ wf m' ∧ ∀ y, mem (ranges m') y ↔
    ¬ mem (ranges p) y ∧ mem (ranges m) (y - below (ranges p) y).
Proof.
  intros Hm Hp Hmax. unfold shift_for_insert_set_at.
  rewrite !empty_ranges by first [apply Hm|apply Hp].
  case_bool_decide as Em.
  { eexists; split_and!; [done..|]. intros y. rewrite Em. simpl. tauto. }
  case_bool_decide as Ep.
  { eexists; split_and!; [done..|]. intros y. rewrite Ep. simpl. rewrite Z.sub_0_r. tauto. }
  simpl. destruct p as [|front p'] eqn:Efront; [done|]. rewrite <-Efront in *.
  assert (head p = Some front) as -> by (by rewrite Efront). cbn [mbind option_bind].
  destruct (last m) as [back|] eqn:Eback; [|by apply last_None in Eback; subst].
  apply last_Some in Eback as [m1 Eback]. cbn [mbind option_bind].
  pose proof (wf_chunk m m1 back [] Hm Eback) as (_&Hend&_).
  destruct (wf_chunk p [] front p' Hp Efront) as (Hbeg&_&_).
  rewrite <-Eback in Hend.
  destruct (Z.leb_spec (chunk_end back) (chunk_begin front)) as [Hle|_].
  { eexists; split_and!; [done..|]. intros y. rewrite Hend, Hbeg in Hle.
    pose proof (mem_bounds _ _ y (proj2 Hm)) as Hb. pose proof (mem_bounds _ _ (y - below (ranges p) y) (proj2 Hm)) as Hb'.
    assert (ranges_ok (front_of (data front) - 1) (ranges p)) as Hok.
    { destruct Hp as [Hp1 Hp]. rewrite Efront in *. apply Forall_cons in Hp1 as [(_&Hne&_) _].
      rewrite ranges_cons in *. destruct (data front) as [|r d]; [done|].
      destruct Hp as (?&?&?&?). unfold front_of; simpl. split_and!; [lia..|done]. }
    destruct (decide (y < front_of (data front))) as [Hy|Hy].
    - rewrite (below_low _ _ _ Hok), Z.sub_0_r by lia. split; [|tauto]. intros Hx.
      split; [|done]. intros ?%(mem_bounds _ _ _ Hok). lia.
    - pose proof (below_bounds _ _ y Hok). split; [intros ?%Hb|intros [_ ?%Hb']]; lia. }
  rewrite !as_indexes_ok by done. cbn [mbind option_bind].
  destruct (shift_merge_ok (indexes (ranges m)) (indexes (ranges p)) 0
    (ChunkedRangeVectorBuilder.init m) []) as (b&out&->&Hb&Hout);
    [eapply indexes_sorted, Hm|eapply indexes_sorted, Hp|apply builds_init|done| | |].
  { intros x Hx%elem_of_indexes. rewrite (length_indexes (-1)) by apply Hp.
    pose proof (indexes_fit m _ x Hm Hmax Hx). lia. }
  { by intros z x ?%elem_of_nil. }
  cbn [mbind option_bind]. destruct (finalize_indexes _ _ Hb) as (m'&->&Hwf'&Hi).
  eexists; split_and!; [done..|]. intros y. rewrite <-elem_of_indexes, Hi. simpl.
  by rewrite Hout, from_old_mem.
Qed.

(** *** [erase_at(IndexSet const&)] *)
Definition to_new (l1 l2 : list Z) (shift y : Z) : Prop :=
  ∃ x, x ∈ l1 ∧ ¬ (x ∈ l2) ∧ y = x - shift - cnt l2 x.

Lemma to_new_skip x l1 y l2 shift v :
  (∀ z, z ∈ x :: l1 → y < z) →
  to_new (x :: l1) (y :: l2) shift v ↔ to_new (x :: l1) l2 (shift + 1) v.
Proof.
  intros Hge. unfold to_new. split; intros (z&Hz&Hn&->); exists z; specialize (Hge z Hz).
  - apply not_elem_of_cons in Hn as [_ Hn]. simpl. split_and!; [done..|]. case_test; lia.
  - simpl. split_and!; [done|apply not_elem_of_cons; split; [lia|done]|]. case_test; lia.
Qed.

Lemma erase_merge_ok l1 l2 shift b l :
  StronglySorted Z.lt l1 → StronglySorted Z.lt l2 → builds b l → 0 ≤ shift →
  shift + Z.of_nat (length l2) ≤ npos → (∀ x, x ∈ l1 → x < npos) →
  (∀ x, x ∈ l1 → ¬ (x ∈ l2) → 0 ≤ x - shift - cnt l2 x) →
  (∀ z x, z ∈ l → x ∈ l1 → ¬ (x ∈ l2) → z < x - shift - cnt l2 x) →
  extends (erase_merge l1 l2 shift b) l (to_new l1 l2 shift).
Proof.
  revert l2 shift b l. induction l1 as [|x l1 IH1];
    intros l2; induction l2 as [|y l2 IH2]; intros shift b l Hs1 Hs2 Hb Hsh Hmax Hr1 Hp Hl1.
  - exists b, []. rewrite app_nil_r. split_and!; [done..|]. intros v. rewrite elem_of_nil.
    split; [done|]. by intros (?&?%elem_of_nil&_).
  - exists b, []. rewrite app_nil_r. split_and!; [done..|]. intros v. rewrite elem_of_nil.
    split; [done|]. by intros (?&?%elem_of_nil&_).
  - cbn [erase_merge].
    assert (∀ z, z ∈ x :: l1 → 0 ≤ z - shift < npos) as Hr.
    { intros z Hz. specialize (Hp z Hz ltac:(apply not_elem_of_nil)). specialize (Hr1 z Hz). simpl in Hp. lia. }
    eapply extends_weaken; [apply (push_rest_ok (λ x, x -w shift) (λ x, x - shift)); try done|].
    + intros z Hz%Hr. rewrite wsub_small; lia.
    + lia.
    + intros z z' Hz Hz'. specialize (Hl1 z z' Hz Hz' ltac:(apply not_elem_of_nil)). simpl in Hl1. lia.
    + intros v. unfold to_new. simpl. split.
      * intros (z&?&_&->). eexists; split; [done|lia].
      * intros (z&?&->). eexists; split_and!; [done|apply not_elem_of_nil|lia].
  - cbn [erase_merge]. pose proof (sorted_cons _ _ Hs1) as [Hs1' Hx].
    pose proof (sorted_cons _ _ Hs2) as [Hs2' Hy]. simpl in Hmax.
    assert (∀ z, z ∈ y :: l2 → y ≤ z) as Hge2 by (intros z [->|?%Hy]%elem_of_cons; lia).
    destruct (Z.ltb_spec x y) as [Hlt|Hge].
    + assert (¬ (x ∈ y :: l2)) as Hn by (intros ?%Hge2; lia).
      assert (cnt (y :: l2) x = 0) as Hc by (apply cnt_zero; intros z ?%Hge2; lia).
      pose proof (Hp x ltac:(constructor) Hn) as Hpx. rewrite Hc in Hpx.
      pose proof (Hr1 x ltac:(constructor)) as Hrx. rewrite wsub_small by lia.
      eapply extends_push; [done| |lia| |].
      * intros z Hz. specialize (Hl1 z x Hz ltac:(constructor) Hn). lia.
      * intros b' Hb'. apply IH1; try done; [intros; apply Hr1; by constructor
          |intros; apply Hp; [by constructor|done]|].
        intros z z' [Hz| ->%list_elem_of_singleton]%elem_of_app Hz' Hn'.
        -- apply Hl1; [done|by constructor|done].
        -- specialize (Hx z' Hz'). destruct (decide (z' < y)) as [Hzy|Hzy].
           ++ rewrite cnt_zero; [lia|]. intros w ?%Hge2. lia.
           ++ pose proof (cnt_span (y :: l2) y z' Hs2 Hge2). lia.
      * intros v. unfold to_new. split.
        -- intros (z&[->|Hz]%elem_of_cons&Hnz&->); [left; lia|right; by exists z].
        -- intros [->|(z&Hz&Hnz&->)].
           ++ exists x. split_and!; [constructor|done|lia].
           ++ exists z. split_and!; [by constructor|done..].
    + destruct (Z.eqb_spec x y) as [->|Hne].
      * rewrite wadd_small by lia.
        assert (∀ z, z ∈ l1 → z ∉ l2 → ¬ (z ∈ y :: l2) ∧ cnt (y :: l2) z = 1 + cnt l2 z) as Hz'.
        { intros z Hz Hn. specialize (Hx z Hz). split.
          - rewrite elem_of_cons. intros [->|]; [lia|done].
          - simpl. case_test; lia. }
        eapply extends_weaken; [apply IH1; try done; [lia|lia|intros; apply Hr1; by constructor|..]|].
        -- intros z Hz Hn. destruct (Hz' z Hz Hn) as [Hn' Hc].
           specialize (Hp z ltac:(by constructor) Hn'). lia.
        -- intros w z Hw Hz Hn. destruct (Hz' z Hz Hn) as [Hn' Hc].
           specialize (Hl1 w z Hw ltac:(by constructor) Hn'). lia.
        -- intros v. unfold to_new. split.
           ++ intros (z&[->|Hz]%elem_of_cons&Hn&->); [destruct Hn; constructor|].
              assert (z ∉ l2) as Hn2 by (intros ?; destruct Hn; by constructor).
              destruct (Hz' z Hz Hn2) as [_ Hc]. exists z. split_and!; [done..|lia].
           ++ intros (z&Hz&Hn&->). destruct (Hz' z Hz Hn) as [Hn' Hc].
              exists z. split_and!; [by constructor|done|lia].
      * rewrite wadd_small by lia.
        assert (∀ z, z ∈ x :: l1 → y < z) as Hgt by (intros z [->|?%Hx]%elem_of_cons; lia).
        assert (∀ z, z ∈ x :: l1 → z ∉ l2 → ¬ (z ∈ y :: l2) ∧ cnt (y :: l2) z = 1 + cnt l2 z) as Hz'.
        { intros z Hz Hn. specialize (Hgt z Hz). split.
          - rewrite elem_of_cons. intros [->|]; [lia|done].
          - simpl. case_test; lia. }
        eapply extends_weaken; [apply IH2; try done; [lia|lia|..]|].
        -- intros z Hz Hn. destruct (Hz' z Hz Hn) as [Hn' Hc]. specialize (Hp z Hz Hn'). lia.
        -- intros w z Hw Hz Hn. destruct (Hz' z Hz Hn) as [Hn' Hc].
           specialize (Hl1 w z Hw Hz Hn'). lia.
        -- intros v. by apply to_new_skip.
Qed.

Lemma erase_set_at_ok m p :
  wf m → wf p →
  ∃ m', erase_set_at m p = Some m' ∧ wf m' ∧ ∀ y, mem (ranges m') y ↔
    ∃ x, mem (ranges m) x ∧ ¬ mem (ranges p) x ∧ y = x - below (ranges p) x.
Proof.
  intros Hm Hp. unfold erase_set_at.
  rewrite !empty_ranges by first [apply Hm|apply Hp].
  case_bool_decide as Em.
  { eexists; split_and!; [done..|]. intros y. rewrite Em. simpl. split; [done|]. by intros (?&?&_). }
  case_bool_decide as Ep.
  { eexists; split_and!; [done..|]. intros y. rewrite Ep. simpl. split.
    - intros. exists y. split_and!; [done|tauto|lia].
    - intros (x&?&_&->). by rewrite Z.sub_0_r. }
  simpl. rewrite !as_indexes_ok by done. cbn [mbind option_bind].
  pose proof (sum_len_span _ _ Ep (proj2 Hp)). destruct (ranges_ok_bounds _ _ Ep (proj2 Hp)) as (?&?&?&_).
  destruct (erase_merge_ok (indexes (ranges m)) (indexes (ranges p)) 0
    (ChunkedRangeVectorBuilder.init m) []) as (b&out&->&Hb&Hout);
    [eapply indexes_sorted, Hm|eapply indexes_sorted, Hp|apply builds_init|done| | | | |].
  { rewrite (length_indexes (-1)) by apply Hp. lia. }
  { intros x Hx%elem_of_indexes. eapply (mem_npos (-1)); [done|apply Hm|done]. }
  { intros x Hx%elem_of_indexes _. rewrite (cnt_indexes (-1)) by apply Hp.
    apply (mem_npos (-1)) in Hx; [|done|apply Hm].
    pose proof (below_bounds _ _ x (proj2 Hp)). lia. }
  { by intros z x ?%elem_of_nil. }
  cbn [mbind option_bind]. destruct (finalize_indexes _ _ Hb) as (m'&->&Hwf'&Hi).
  eexists; split_and!; [done..|]. intros y. rewrite <-elem_of_indexes, Hi. simpl. rewrite Hout.
  unfold to_new. setoid_rewrite elem_of_indexes. setoid_rewrite (cnt_indexes (-1)); [|apply Hp].
  by setoid_rewrite Z.sub_0_r.
Qed.

(** ** [add_shifted_by] *)
Lemma length_merge_push rs r : (length (merge_push rs r) ≤ S (length rs))%nat.
Proof.
  destruct (decide (rs = [])) as [->|Hne]; [simpl; lia|].
  destruct (destruct_last rs Hne) as (rs'&b&->). rewrite merge_push_snoc, length_app.
  destruct (_ =? _); rewrite length_app; simpl; lia.
Qed.

Lemma sum_len_merge_push rs r : sum_len (merge_push rs r) = sum_len rs + range_len r.
Proof.
  destruct (decide (rs = [])) as [->|Hne]; [simpl; lia|].
  destruct (destruct_last rs Hne) as (rs'&b&->). rewrite merge_push_snoc.
  destruct (Z.eqb_spec r.1 b.2); rewrite !sum_len_app; simpl; unfold range_len; simpl; lia.
Qed.

Lemma mem_merge_push rs a c x :
  ranges_ok (-1) rs → (∀ y, mem rs y → y < a) → 0 ≤ a < c → c ≤ npos →
  mem (merge_push rs (a, c)) x ↔ mem rs x ∨ a ≤ x < c.
Proof.
  intros Hok Hl Ha Hc. destruct (merge_push_ok rs a c) as [_ Hi]; [done| |done..|].
  { intros y. rewrite elem_of_indexes. apply Hl. }
  rewrite <-!elem_of_indexes, Hi, elem_of_app, elem_of_seqZ. intuition lia.
Qed.

(** Pushing the indices of a range one by one pushes the range. *)
Lemma push_seqZ_ok b rs a n :
  builder_rep b rs → 0 ≤ a → 0 < n → a + n ≤ npos →
  ∃ b', foldlM ChunkedRangeVectorBuilder.push_back_index b (seqZ a n) = Some b' ∧
    builder_rep b' (merge_push rs (a, a + n)) ∧ (capacity b ≤ capacity b')%nat.
Proof.
  intros Hrep Ha Hn Hmax.
  destruct (foldlM_spec ChunkedRangeVectorBuilder.push_back_index
    (λ seen b', (capacity b ≤ capacity b')%nat ∧
       builder_rep b' (if decide (seen = []) then rs else merge_push rs (a, a + Z.of_nat (length seen))))
    [] (seqZ a n) b) as (b'&->&Hc&Hr).
  - intros seen x rest b1 Heq _ [Hc1 Hr1]. simpl in Heq.
    assert (seqZ a n !! length seen = Some x) as Hl by (rewrite Heq; by apply list_lookup_middle).
    apply lookup_seqZ in Hl as [-> Hl]. unfold ChunkedRangeVectorBuilder.push_back_index.
    rewrite wadd_small by lia.
    destruct (push_back_range_ok b1 _ (a + Z.of_nat (length seen), a + Z.of_nat (length seen) + 1) Hr1)
      as (b2&->&Hr2&Hc2); [left; simpl; lia|].
    eexists; split; [done|]. split; [lia|]. rewrite length_app; simpl.
    rewrite (decide_False (P := seen ++ _ = [])) by (by intros [_ ?]%app_nil).
    rewrite Nat2Z.inj_add, Z.add_assoc. destruct (decide (seen = [])) as [->|Hne].
    { simpl in *. by rewrite Z.add_0_r in *. }
    replace (merge_push rs (a, a + Z.of_nat (length seen) + Z.of_nat 1)) with
      (merge_push (merge_push rs (a, a + Z.of_nat (length seen)))
         (a + Z.of_nat (length seen), a + Z.of_nat (length seen) + 1)); [done|].
    destruct (decide (rs = [])) as [->|Hrs].
    { unfold merge_push; simpl. by rewrite Z.eqb_refl. }
    destruct (destruct_last rs Hrs) as (rs'&r&->). rewrite !merge_push_snoc; simpl.
    destruct (_ =? _).
    + rewrite merge_push_snoc; simpl. by rewrite Z.eqb_refl.
    + change [r; (a, a + Z.of_nat (length seen))] with ([r] ++ [(a, a + Z.of_nat (length seen))]).
      rewrite app_assoc, merge_push_snoc. simpl. rewrite Z.eqb_refl. by rewrite <-app_assoc.
  - split; [lia|done].
  - eexists; split_and!; [done| |done]. rewrite decide_False in Hr.
    + rewrite length_app, length_seqZ in Hr. simpl in Hr. by replace (Z.of_nat (Z.to_nat n)) with n in Hr by lia.
    + rewrite seqZ_head by lia. done.
Qed.

(** The progress through the old ranges: [pre] has been copied, together with
    the new indices [E]; [n] bounds the number of new ranges. *)
Definition old_progress (m : IndexSet) (cap n : nat) (new : Z) (E : Z → Prop)
    (b : Builder) (it : iterator) (old_shift : Z) (pre post : list (Z * Z)) : Prop :=
  ∃ rs, builder_rep b rs ∧ ranges_ok (-1) rs ∧ (length rs ≤ length pre + n)%nat ∧
    (cap ≤ capacity b)%nat ∧ at_pos m it pre post ∧ old_shift = sum_len pre ∧
    sum_len rs = sum_len pre + new ∧ (∀ x, mem rs x ↔ mem pre x ∨ E x) ∧
    match post with [] => True | r :: _ => ∀ x, mem rs x → x < r.1 end.

Lemma advance_old_ok m cap n new E b it old_shift pre post index shift :
  wf m → old_progress m cap n new E b it old_shift pre post →
  0 ≤ shift ≤ index → index - shift + sum_len (ranges m) ≤ npos →
  hi_of (-1) pre ≤ index - shift + sum_len pre →
  ∃ b' it' pre' post', advance_old m index shift (b, it, old_shift) =
      Some (b', it', sum_len pre') ∧
    old_progress m cap n new E b' it' (sum_len pre') pre' post' ∧
    hi_of (-1) pre' ≤ index - shift + sum_len pre' ∧
    match post' with [] => True | r :: _ => index - shift + sum_len pre' < r.1 end.
Proof.
  intros Hwf Hp Hsh Hmax Hhi. unfold advance_old.
  loop_step ltac:(fun step => destruct (while_loop_spec step
    (λ k '(b, it, os), ∃ pre post, k = length post ∧ old_progress m cap n new E b it os pre post ∧
       hi_of (-1) pre ≤ index - shift + sum_len pre)
    (λ '(b, it, os), ∃ pre post, os = sum_len pre ∧ old_progress m cap n new E b it os pre post ∧
       hi_of (-1) pre ≤ index - shift + sum_len pre ∧
       match post with [] => True | r :: _ => index - shift + sum_len pre < r.1 end))
    with (n := length post) (s := (b, it, old_shift)) (fuel := range_fuel m)
    as ([[b' it'] os]&->&pre'&post'&->&?&?&?)).
  - intros k [[b1 it1] os1] (pre1&post1&->&(rs&Hr&Hok&Hlen&Hcap&Hat&->&Hs&Hm&Hhd)&Hhi1).
    pose proof (at_pos_split _ _ _ _ Hat) as Heq. rewrite (is_end_at _ _ _ _ Hwf Hat).
    destruct post1 as [|r post1].
    { left. eexists; split; [done|]. exists pre1, []. split_and!; [done| |done|done].
      exists rs. split_and!; done. }
    rewrite bool_decide_false by done. rewrite (deref_at _ _ _ _ _ Hat). cbn [mbind option_bind].
    destruct (wf_range m pre1 r post1 Hwf Heq) as (?&?&?&?&?&?&Hsum).
    rewrite wsub_small, wadd_small by lia.
    destruct (Z.leb_spec r.1 (index - shift + sum_len pre1)) as [Hle|Hgt].
    2:{ left. eexists; split; [done|]. exists pre1, (r :: post1). split_and!; [done| |done|done].
        exists rs. split_and!; done. }
    right. destruct (push_seqZ_ok b1 rs r.1 (r.2 - r.1) Hr) as (b2&->&Hr2&Hc2); [lia..|].
    replace (r.1 + (r.2 - r.1)) with r.2 in Hr2 by lia. cbn [mbind option_bind].
    destruct (next_at m it1 pre1 r post1 (proj1 Hwf) Hat) as (it2&->&Hat2). cbn [mbind option_bind].
    rewrite wsub_small, wadd_small by lia. do 2 eexists; split_and!; [done..|].
    exists (pre1 ++ [r]), post1. rewrite hi_of_snoc, sum_len_app. simpl. unfold range_len.
    split_and!; [done| |lia].
    assert (∀ x, mem (merge_push rs (r.1, r.2)) x ↔ mem rs x ∨ r.1 ≤ x < r.2) as Hmm.
    { intros x. apply mem_merge_push; [done|done|lia|lia]. }
    exists (merge_push rs (r.1, r.2)). split_and!; [done| | |lia|done| | | |].
    + apply merge_push_ok; [done| |lia|lia]. intros y. rewrite elem_of_indexes. apply Hhd.
    + pose proof (length_merge_push rs (r.1, r.2)). rewrite length_app; simpl. lia.
    + rewrite sum_len_app; simpl. unfold range_len. lia.
    + rewrite sum_len_merge_push, sum_len_app; simpl. unfold range_len; simpl. lia.
    + intros x. rewrite Hmm, Hm, mem_app. simpl. tauto.
    + destruct post1 as [|r1 post1]; [done|].
      destruct (wf_split m pre1 _ Hwf Heq) as [_ (_&_&_&?&_)]. intros x [?%Hhd|?]%Hmm; lia.
  - exists pre, post. done.
  - destruct Hp as (_&_&_&_&_&Hat&_). unfold range_fuel.
    rewrite (at_pos_split _ _ _ _ Hat), length_app. lia.
  - exists b', it', pre', post'. done.
Qed.

Lemma advance_shift_ok sh it pre post index :
  wf sh → at_pos sh it pre post →
  ∃ it' pre' post', advance_shift sh index (it, sum_len pre, hi_of 0 pre) =
      Some (it', sum_len pre', hi_of 0 pre') ∧ at_pos sh it' pre' post' ∧
    (pre' = pre ∨ ∃ p r, pre' = p ++ [r] ∧ r.1 ≤ index) ∧
    match post' with [] => True | r :: _ => index < r.1 end.
Proof.
  intros Hwf Hat. unfold advance_shift.
  loop_step ltac:(fun step => destruct (while_loop_spec step
    (λ k '(it, ns, su), ∃ pre1 post1, k = length post1 ∧ at_pos sh it pre1 post1 ∧
       ns = sum_len pre1 ∧ su = hi_of 0 pre1 ∧
       (pre1 = pre ∨ ∃ p r, pre1 = p ++ [r] ∧ r.1 ≤ index))
    (λ '(it, ns, su), ∃ pre1 post1, at_pos sh it pre1 post1 ∧
       ns = sum_len pre1 ∧ su = hi_of 0 pre1 ∧
       (pre1 = pre ∨ ∃ p r, pre1 = p ++ [r] ∧ r.1 ≤ index) ∧
       match post1 with [] => True | r :: _ => index < r.1 end))
    with (n := length post) (s := (it, sum_len pre, hi_of 0 pre)) (fuel := range_fuel sh)
    as ([[it' ns] su]&->&pre'&post'&?&->&->&?&?)).
  - intros k [[it1 ns1] su1] (pre1&post1&->&Hat1&->&->&Hpre).
    rewrite (is_end_at _ _ _ _ Hwf Hat1). destruct post1 as [|r post1].
    { left. eexists; split; [done|]. exists pre1, []. done. }
    rewrite bool_decide_false by done. rewrite (deref_at _ _ _ _ _ Hat1). cbn [mbind option_bind].
    destruct (wf_range sh pre1 r post1 Hwf (at_pos_split _ _ _ _ Hat1)) as (?&?&?&?&?&?&?).
    destruct (Z.leb_spec r.1 index).
    2:{ left. eexists; split; [done|]. by exists pre1, (r :: post1). }
    destruct (next_at sh it1 pre1 r post1 (proj1 Hwf) Hat1) as (it2&->&Hat2).
    cbn [mbind option_bind]. rewrite wsub_small, wadd_small by lia.
    right. do 2 eexists; split_and!; [done..|]. exists (pre1 ++ [r]), post1.
    rewrite hi_of_snoc, sum_len_app; simpl. unfold range_len. split_and!; [done..|lia|done|eauto].
  - exists pre, post. split_and!; [done..|by left].
  - unfold range_fuel. rewrite (at_pos_split _ _ _ _ Hat), length_app. lia.
  - exists it', pre', post'. done.
Qed.

(** The ranks of the values that [shifted_by] does not contain. *)
Definition shifted_from (m sh : IndexSet) (P : Z → Prop) (x : Z) : Prop :=
  ∃ v, P v ∧ ¬ mem (ranges sh) v ∧ ¬ mem (ranges m) x ∧
    x - below (ranges m) x = v - below (ranges sh) v.

(** How many of the values are new. *)
Definition new_count (sh : IndexSet) (l : list Z) : Z :=
  Z.of_nat (length (filter (λ v, ¬ mem (ranges sh) v) l)).

Lemma new_count_snoc sh l v :
  new_count sh (l ++ [v]) = new_count sh l + (if decide (mem (ranges sh) v) then 0 else 1).
Proof.
  unfold new_count. rewrite filter_app, length_app, filter_cons, filter_nil.
  destruct (decide (mem (ranges sh) v)).
  - rewrite decide_False by tauto. simpl. lia.
  - rewrite decide_True by done. simpl. lia.
Qed.

(** The state of [add_shifted_by] after the values [seen]. *)
Definition shifted_state (m sh : IndexSet) (cap : nat) (seen : list Z) (s : ShiftedBy) : Prop :=
  (∃ pre post, old_progress m cap (length seen) (new_count sh seen)
     (shifted_from m sh (λ v, v ∈ seen)) (sb_builder s) (old_it s) (old_shift s) pre post ∧
     ∀ w, 0 ≤ w → (∀ v, v ∈ seen → ¬ mem (ranges sh) v → v - below (ranges sh) v < w) →
       hi_of (-1) pre ≤ w + sum_len pre) ∧
  (∃ spre spost, at_pos sh (shift_it s) spre spost ∧ new_shift s = sum_len spre ∧
     skip_until s = hi_of 0 spre ∧
     (spre = [] ∨ ∃ p r, spre = p ++ [r] ∧ ∀ v, (∀ z, z ∈ seen → z < v) → r.1 ≤ v)).

(** Where the walk over [shifted_by] stops for a value. *)
Lemma shift_position sh spre spost v :
  wf sh → ranges sh = spre ++ spost → 0 ≤ v → (spre = [] ∨ ∃ p r, spre = p ++ [r] ∧ r.1 ≤ v) →
  match spost with [] => True | r :: _ => v < r.1 end →
  if v <? hi_of 0 spre then mem (ranges sh) v
  else ¬ mem (ranges sh) v ∧ below (ranges sh) v = sum_len spre.
Proof.
  intros Hwf Heq Hv Hpre Hpost. destruct (Z.ltb_spec v (hi_of 0 spre)) as [Hlt|Hge].
  - rewrite Heq, mem_app. left. destruct Hpre as [->|(p&r&->&Hr)]; [simpl in Hlt; lia|].
    rewrite hi_of_snoc in Hlt. rewrite mem_app. right. left. lia.
  - apply (rank_at sh spre spost); [done|done| |done].
    destruct Hpre as [->|(p&r&->&Hr)]; [simpl; lia|]. by rewrite !hi_of_snoc in *.
Qed.

Lemma add_shifted_index_ok m sh cap seen s v :
  wf m → wf sh → shifted_state m sh cap seen s → (∀ z, z ∈ seen → z < v) →
  0 ≤ v → v + sum_len (ranges m) < npos →
  ∃ s', add_shifted_index m sh s v = Some s' ∧ shifted_state m sh cap (seen ++ [v]) s'.
Proof.
  intros Hm Hsh [(pre&post&Hold&Hhi)(spre&spost&Hat&Hns&Hsu&Hsp)] Hv Hv0 Hmax.
  unfold add_shifted_index. rewrite Hns, Hsu.
  destruct (advance_shift_ok sh (shift_it s) spre spost v Hsh Hat)
    as (it'&spre'&spost'&->&Hat'&Hsp'&Hpost'). cbn [mbind option_bind].
  assert (spre' = [] ∨ ∃ p r, spre' = p ++ [r] ∧ r.1 ≤ v) as Hlast.
  { destruct Hsp' as [->|?]; [|by right]. destruct Hsp as [?|(p&r&->&Hr)]; [by left|right].
    exists p, r. split; [done|]. by apply Hr. }
  pose proof (shift_position sh spre' spost' v Hsh (at_pos_split _ _ _ _ Hat') Hv0 Hlast Hpost') as Hskip.
  assert (∃ spre0 spost0, at_pos sh it' spre0 spost0 ∧ sum_len spre' = sum_len spre0 ∧
     hi_of 0 spre' = hi_of 0 spre0 ∧
     (spre0 = [] ∨ ∃ p r, spre0 = p ++ [r] ∧ ∀ v', (∀ z, z ∈ seen ++ [v] → z < v') → r.1 ≤ v')) as Hshift.
  { exists spre', spost'. split_and!; [done..|].
    destruct Hlast as [?|(p&r&->&Hr)]; [by left|right]. exists p, r. split; [done|].
    intros v' Hv'. specialize (Hv' v). rewrite elem_of_app, list_elem_of_singleton in Hv'.
    specialize (Hv' (or_intror eq_refl)). lia. }
  destruct (v <? hi_of 0 spre').
  { eexists; split; [done|]. split; [|exact Hshift]. exists pre, post. split.
    - destruct Hold as (rs&Hr&Hok&Hlen&Hcap&Hpos&Hos&Hs&Hmem&Hhd). exists rs.
      rewrite new_count_snoc, decide_True, Z.add_0_r by done. rewrite length_app.
      split_and!; [done|done|lia|done..| |done].
      intros x. rewrite Hmem. unfold shifted_from. setoid_rewrite elem_of_app.
      setoid_rewrite list_elem_of_singleton. split.
      + intros [?|(z&?&?)]; [by left|right]. exists z. split; [by left|done].
      + intros [?|(z&[?| ->]&Hz&?)]; [by left|right; by exists z|done].
    - intros w Hw0 Hw. apply Hhi; [done|]. intros z Hz. apply Hw, elem_of_app. by left. }
  destruct Hskip as [Hn Hb]. set (w := v - below (ranges sh) v).
  pose proof (below_bounds _ _ v (proj2 Hsh)) as Hbb.
  assert (∀ z, z ∈ seen → ¬ mem (ranges sh) z → z - below (ranges sh) z < w) as Hw.
  { intros z Hz Hzn. eapply rank_lt; [apply Hsh|done|by apply Hv]. }
  destruct (advance_old_ok m cap _ _ _ _ _ _ pre post v (sum_len spre') Hm Hold)
    as (b'&oit&pre'&post'&->&Hold'&Hhi'&Hpost''); [lia|lia| |].
  { replace (v - sum_len spre') with w by (unfold w; lia). apply Hhi; [unfold w; lia|done]. }
  cbn [mbind option_bind]. rewrite (proj2 (Z.leb_le _ _)) by lia.
  destruct Hold' as (rs&Hr&Hok&Hlen&Hcap&Hpos&_&Hs&Hmem&Hhd).
  pose proof (at_pos_split _ _ _ _ Hpos) as Heq.
  replace (v - sum_len spre') with w in * by (unfold w; lia).
  destruct (rank_at m pre' post' (w + sum_len pre') Hm Heq Hhi' Hpost'') as [Hyn Hyb].
  destruct (wf_split m pre' post' Hm Heq) as [H1 H2].
  assert (0 ≤ sum_len pre' ≤ sum_len (ranges m)) as Hsl.
  { rewrite Heq, sum_len_app. apply sum_len_bound in H1, H2. lia. }
  set (y := w + sum_len pre') in *.
  assert (v -w sum_len spre' +w sum_len pre' = y) as ->.
  { rewrite wsub_small, wadd_small by (unfold w in *; lia). unfold y, w. lia. }
  assert (∀ x, mem rs x → x < y) as Hlt.
  { intros x [Hx|(z&Hz&Hzn&Hxn&Hxb)]%Hmem; [apply (mem_bounds _ _ _ H1) in Hx; lia|].
    destruct (decide (x < y)) as [|Hge]; [done|].
    pose proof (rank_mono _ _ y x (proj2 Hm) ltac:(lia)). specialize (Hw z Hz Hzn). lia. }
  unfold ChunkedRangeVectorBuilder.push_back_index. rewrite wadd_small by (unfold w in *; lia).
  destruct (push_back_range_ok b' rs (y, y + 1) Hr) as (b''&->&Hr'&Hcap'); [left; simpl; lia|].
  eexists; split; [done|]. split; [|exact Hshift]. exists pre', post'. simpl. split.
  - exists (merge_push rs (y, y + 1)). rewrite new_count_snoc, decide_False by done.
    pose proof (length_merge_push rs (y, y + 1)). rewrite length_app; simpl.
    assert (∀ x, mem (merge_push rs (y, y + 1)) x ↔ mem rs x ∨ y ≤ x < y + 1) as Hmm.
    { intros x. apply mem_merge_push; [done|done|unfold w in *; lia..]. }
    split_and!; [done| |lia|lia|done|done| | |].
    + apply merge_push_ok; [done| |unfold w in *; lia..]. intros x. rewrite elem_of_indexes. apply Hlt.
    + rewrite sum_len_merge_push. unfold range_len; simpl. lia.
    + intros x. rewrite Hmm, Hmem. unfold shifted_from. setoid_rewrite elem_of_app.
      setoid_rewrite list_elem_of_singleton. split.
      * intros [[?|(z&?&?)]|Hx]; [by left|right; exists z; tauto|]. right. exists v.
        replace x with y by lia. split_and!; [by right|done|done|unfold w in *; lia].
      * intros [?|(z&[Hz| ->]&Hzn&Hxn&Hxb)]; [by left; left|left; right; by exists z|right].
        assert (x = y) as ->; [|lia]. eapply rank_unique; [apply Hm|done|done|unfold w in *; lia].
    + destruct post' as [|r post']; [done|]. intros x [Hx|Hx]%Hmm; [by apply Hhd|lia].
  - intros w' _ Hw'. assert (w < w'); [|lia]. apply Hw'; [|done].
    apply elem_of_app. right. constructor.
Qed.

Lemma copy_ranges_ok m cap n new E b it old_shift pre post :
  wf m → old_progress m cap n new E b it old_shift pre post →
  (length (ranges m) + n ≤ cap)%nat →
  ∃ b' rs, copy_ranges m (b, it) = Some b' ∧ builder_rep b' rs ∧ ranges_ok (-1) rs ∧
    sum_len rs = sum_len (ranges m) + new ∧ ∀ x, mem rs x ↔ mem (ranges m) x ∨ E x.
Proof.
  intros Hwf Hp Hcap0. unfold copy_ranges.
  loop_step ltac:(fun step => destruct (while_loop_spec step
    (λ k '(b, it), ∃ os pre post, k = length post ∧ old_progress m cap n new E b it os pre post)
    (λ b', ∃ it os, old_progress m cap n new E b' it os (ranges m) []))
    with (n := length post) (s := (b, it)) (fuel := range_fuel m)
    as (b'&->&it'&os&rs&Hr&Hok&_&_&_&_&Hs&Hm&_)).
  - intros k [b1 it1] (os1&pre1&post1&->&(rs&Hr&Hok&Hlen&Hcap&Hat&Hos&Hs&Hm&Hhd)).
    pose proof (at_pos_split _ _ _ _ Hat) as Heq. rewrite (is_end_at _ _ _ _ Hwf Hat).
    destruct post1 as [|r post1].
    { left. eexists; split; [done|]. rewrite app_nil_r in Heq. subst pre1. exists it1, os1, rs. done. }
    rewrite bool_decide_false by done. rewrite (deref_at _ _ _ _ _ Hat). cbn [mbind option_bind].
    destruct (wf_range m pre1 r post1 Hwf Heq) as (?&?&?&?&?&?&Hsum).
    destruct (push_back_range_ok b1 rs r Hr) as (b2&->&Hr2&Hc2).
    { right. rewrite Heq, length_app in Hcap0. simpl in Hcap0. lia. }
    cbn [mbind option_bind].
    destruct (next_at m it1 pre1 r post1 (proj1 Hwf) Hat) as (it2&->&Hat2). cbn [mbind option_bind].
    right. do 2 eexists; split_and!; [done..|]. exists (sum_len (pre1 ++ [r])), (pre1 ++ [r]), post1.
    split; [done|]. destruct r as [r1 r2]; simpl in *.
    assert (∀ x, mem (merge_push rs (r1, r2)) x ↔ mem rs x ∨ r1 ≤ x < r2) as Hmm.
    { intros x. apply mem_merge_push; [done|done|lia|lia]. }
    exists (merge_push rs (r1, r2)). split_and!; [done| | |lia|done|done| | |].
    + apply merge_push_ok; [done| |lia|lia]. intros y. rewrite elem_of_indexes. apply Hhd.
    + pose proof (length_merge_push rs (r1, r2)). rewrite length_app; simpl. lia.
    + rewrite sum_len_merge_push, sum_len_app; simpl. unfold range_len; simpl. lia.
    + intros x. rewrite Hmm, Hm, mem_app. simpl. tauto.
    + destruct post1 as [|r post1]; [done|].
      destruct (wf_split m pre1 _ Hwf Heq) as [_ (_&_&_&?&_)]. intros x [?%Hhd|?]%Hmm; simpl in *; lia.
  - by exists old_shift, pre, post.
  - destruct Hp as (_&_&_&_&_&Hat&_). unfold range_fuel.
    rewrite (at_pos_split _ _ _ _ Hat), length_app. lia.
  - exists b', rs. done.
Qed.

(** The ranges the builder of [add_shifted_by] preallocates. *)
Definition preallocated (m : IndexSet) : nat := capacity (ChunkedRangeVectorBuilder.init m).

Lemma expected_size_ok m sh l :
  wf m → wf sh → Forall (λ v, 0 ≤ v) l → sum_len (ranges m) + Z.of_nat (length l) ≤ npos →
  expected_size m sh l = Some (sum_len (ranges m) + new_count sh l).
Proof.
  intros Hm Hsh Hl Hmax. unfold expected_size, distance. rewrite as_indexes_ok by done.
  cbn [mbind option_bind]. rewrite (length_indexes (-1)) by apply Hm.
  pose proof (sum_len_bound _ _ (proj2 Hm)).
  destruct (foldlM_spec (λ expected index,
      c ← contains sh index; Some (if (c : bool) then expected else expected +w 1))
    (λ seen n, n = sum_len (ranges m) + new_count sh seen) [] l (sum_len (ranges m))) as (n&->&->).
  - intros seen v rest n Heq _ ->. simpl in Heq. subst l.
    apply Forall_app in Hl as [_ Hl]. apply Forall_cons in Hl as [Hv _].
    rewrite contains_ok by done. cbn [mbind option_bind].
    assert (0 ≤ new_count sh seen ≤ Z.of_nat (length seen)) as Hn.
    { unfold new_count. pose proof (length_filter (λ v, ¬ mem (ranges sh) v) seen). lia. }
    rewrite length_app in Hmax; simpl in Hmax.
    eexists; split; [done|]. rewrite new_count_snoc. case_bool_decide as Hc.
    + rewrite decide_True by done. lia.
    + rewrite decide_False by done. rewrite wadd_small; lia.
  - unfold new_count; simpl. lia.
  - done.
Qed.

(** *** [add_shifted_by] adds, for every value outside [shifted_by], the index
    outside the set with the rank the value has outside [shifted_by]. *)
Lemma add_shifted_by_ok m sh values :
  wf m → wf sh → wf values →
  hi_of (-1) (ranges values) + sum_len (ranges m) ≤ npos →
  (length (ranges m) + length (indexes (ranges values)) ≤ preallocated m)%nat →
  ∃ m', add_shifted_by m sh values = Some m' ∧ wf m' ∧
    ∀ x, mem (ranges m') x ↔ mem (ranges m) x ∨ shifted_from m sh (mem (ranges values)) x.
Proof.
  intros Hm Hsh Hv Hmax Hcap. unfold add_shifted_by. rewrite empty_ranges by apply Hv.
  case_bool_decide as Ev.
  { eexists; split_and!; [done..|]. intros x. unfold shifted_from. rewrite Ev. simpl.
    split; [by left|]. by intros [?|(?&[]&_)]. }
  rewrite as_indexes_ok by done. cbn [mbind option_bind].
  pose proof (sum_len_bound _ _ (proj2 Hm)) as Hsm.
  destruct (ranges_ok_bounds _ _ Ev (proj2 Hv)) as (Hfront&_&_&Hhi).
  pose proof (sum_len_span _ _ Ev (proj2 Hv)) as Hsv. pose proof (length_indexes _ _ (proj2 Hv)) as Hlv.
  assert (∀ v, v ∈ indexes (ranges values) → 0 ≤ v ∧ v + sum_len (ranges m) < npos) as Hfit.
  { intros v Hin%elem_of_indexes. pose proof (mem_bounds _ _ _ (proj2 Hv) Hin). lia. }
  rewrite (expected_size_ok m sh (indexes (ranges values))); [|done|done| |lia].
  2:{ apply Forall_forall. intros v ?%Hfit. lia. }
  destruct (foldlM_spec (add_shifted_index m sh)
    (shifted_state m sh (preallocated m)) [] (indexes (ranges values))
    (mkShiftedBy (ChunkedRangeVectorBuilder.init m) (Iterator.begin_it m) (Iterator.begin_it sh) 0 0 0))
    as (s&Hs&(pre&post&Hold&_)&_).
  - intros seen v rest s Heq _ Hst. simpl in Heq.
    assert (v ∈ indexes (ranges values)) as Hin.
    { rewrite Heq. apply elem_of_app. right. constructor. }
    destruct (Hfit v Hin). apply add_shifted_index_ok; [done|done|done| |lia|lia].
    intros z Hz. pose proof (indexes_sorted _ _ (proj2 Hv)) as Hsort. rewrite Heq in Hsort.
    eapply StronglySorted_app_1_elem_of; [done|done|]. constructor.
  - split.
    + exists [], (ranges m). split; [|intros; simpl; lia]. exists []. simpl.
      split_and!; [apply builder_init|done|lia|done|apply at_pos_begin, Hm|done|done| |].
      * intros x. unfold shifted_from. setoid_rewrite elem_of_nil. split; [done|]. by intros [[]|(?&?&_)].
      * by destruct (ranges m).
    + exists [], (ranges sh). split_and!; [apply at_pos_begin, Hsh|done|done|by left].
  - destruct (copy_ranges_ok _ _ _ _ _ _ _ _ _ _ Hm Hold Hcap) as (b&rs&Hc&Hrep&Hok&Hsum&Hmem).
    destruct (finalize_ok b rs Hrep) as (m'&Hf&Hvec&Heq).
    assert (wf m') as Hwf' by (split; [done|by rewrite Heq]).
    assert (distance m' = Some (sum_len rs)) as Hd.
    { unfold distance. rewrite as_indexes_ok by done. simpl.
      by rewrite (length_indexes (-1)), Heq by apply Hwf'. }
    exists m'. split_and!; [|done|].
    + destruct REALM_DEBUG; cbn [mbind option_bind]; rewrite Hs; cbn [mbind option_bind];
        rewrite Hc; cbn [mbind option_bind]; rewrite Hf; cbn [mbind option_bind];
        rewrite ?Hd; cbn [mbind option_bind]; [|done].
      rewrite Hsum. simpl. by rewrite Z.eqb_refl.
    + intros x. rewrite Heq, Hmem. unfold shifted_from. simpl. by setoid_rewrite elem_of_indexes.
Qed.
End Merge.
