(* ===== verification/IndexSetSpec.v ===== *)
(** What [IndexSet] promises to the code that uses it: a class of its
    operations, the laws they obey on the indices the set holds, and the
    chunked implementation as an instance.  The change builder is proved
    against the class. *)
From S2P Require Import Prelude ChunkedRangeVector IndexSet IndexSetTheory IndexSetMerge.

(** ** The operations *)
Class IndexSetOps (T : Type) := {
  set_nil : T;
  set_empty : T → bool;
  set_ranges : T → list (Z * Z);
  set_contains : T → Z → option bool;
  set_count : T → Z → Z → option Z;
  set_add : T → Z → option T;
  set_add_set : T → T → option T;
  set_add_shifted : T → Z → option (T * Z);
  set_add_shifted_by : T → T → T → option T;
  set_set : T → Z → option T;
  set_insert_at : T → Z → Z → option T;
  set_insert_set_at : T → T → option T;
  set_shift_for_insert_at : T → Z → Z → option T;
  set_shift_for_insert_set_at : T → T → option T;
  set_erase_at : T → Z → option T;
  set_erase_set_at : T → T → option T;
  set_erase_or_unshift : T → Z → option (T * Z);
  set_remove : T → Z → Z → option T;
  set_remove_set : T → T → option T;
  set_shift : T → Z → Z;
  set_unshift : T → Z → option Z }.

(** ** The laws

    A set is described by its ranges: [mem] is membership, [below] the number
    of elements under an index. *)
Section Abstraction.
Context {T} `{IndexSetOps T}.

Definition has (s : T) (x : Z) : Prop := mem (set_ranges s) x.
Definition rank (s : T) (x : Z) : Z := below (set_ranges s) x.

(** The end of the last range, -1 for the empty set, and the number of
    elements. *)
Definition bound (s : T) : Z := hi_of (-1) (set_ranges s).
Definition size (s : T) : Z := sum_len (set_ranges s).

#[export] Instance has_dec s x : Decision (has s x) := mem_dec _ _.
End Abstraction.

(** [op] succeeds with a set of the given elements. *)
Definition yields {T} `{IndexSetOps T} (wf : T → Prop) (op : option T) (P : Z → Prop) : Prop :=
  ∃ s, op = Some s ∧ wf s ∧ ∀ x, has s x ↔ P x.

Class IndexSetLaws (T : Type) `{IndexSetOps T} := {
  set_wf : T → Prop;
  (** how many ranges [add_shifted_by] can build *)
  set_room : T → nat;
  law_ranges s : set_wf s → ranges_ok (-1) (set_ranges s);
  law_nil : set_wf set_nil ∧ set_ranges set_nil = [];
  law_empty s : set_wf s → set_empty s = bool_decide (set_ranges s = []);
  law_contains s x : set_wf s → 0 ≤ x → set_contains s x = Some (bool_decide (has s x));
  law_count s x : set_wf s → 0 ≤ x → set_count s 0 x = Some (rank s x);
  law_count_total s x e : set_wf s → 0 ≤ x → ∃ n, set_count s x e = Some n;
  law_add s x : set_wf s → 0 ≤ x < npos →
    yields set_wf (set_add s x) (λ y, has s y ∨ y = x);
  law_add_set s s' : set_wf s → set_wf s' →
    yields set_wf (set_add_set s s') (λ y, has s y ∨ has s' y);
  law_add_shifted s i : set_wf s → 0 ≤ i → i + size s < npos →
    ∃ s' y, set_add_shifted s i = Some (s', y) ∧ set_wf s' ∧ ¬ has s y ∧ y = i + rank s y ∧
      ∀ x, has s' x ↔ has s x ∨ x = y;
  law_add_shifted_by s sh vs : set_wf s → set_wf sh → set_wf vs → bound vs + size s ≤ npos →
    (length (set_ranges s) + Z.to_nat (size vs) ≤ set_room s)%nat →
    yields set_wf (set_add_shifted_by s sh vs) (λ x,
      has s x ∨ ∃ v, has vs v ∧ ¬ has sh v ∧ ¬ has s x ∧ x - rank s x = v - rank sh v);
  law_set s len : 0 ≤ len ≤ npos → yields set_wf (set_set s len) (λ x, 0 ≤ x < len);
  law_insert_at s i c : set_wf s → 0 ≤ i → 0 < c → i + c ≤ npos → bound s + c ≤ npos →
    yields set_wf (set_insert_at s i c) (inserted (has s) i c);
  law_insert_set_at s p : set_wf s → set_wf p → bound s + size p ≤ npos →
    yields set_wf (set_insert_set_at s p) (λ y,
      has p y ∨ ¬ has p y ∧ has s (y - rank p y));
  law_shift_for_insert_at s i c : set_wf s → 0 ≤ i → 0 < c → i + c ≤ npos →
    bound s + c ≤ npos →
    yields set_wf (set_shift_for_insert_at s i c) (shifted_for (has s) i c);
  law_shift_for_insert_set_at s p : set_wf s → set_wf p → bound s + size p ≤ npos →
    yields set_wf (set_shift_for_insert_set_at s p) (λ y,
      ¬ has p y ∧ has s (y - rank p y));
  law_erase_at s i : set_wf s → 0 ≤ i →
    yields set_wf (set_erase_at s i) (erased (has s) i);
  law_erase_set_at s p : set_wf s → set_wf p →
    yields set_wf (set_erase_set_at s p) (λ y,
      ∃ x, has s x ∧ ¬ has p x ∧ y = x - rank p x);
  law_erase_or_unshift s i : set_wf s → 0 ≤ i ≤ npos →
    ∃ s', set_erase_or_unshift s i =
        Some (s', if decide (has s i) then npos else i - rank s i) ∧ set_wf s' ∧
      ∀ x, has s' x ↔ erased (has s) i x;
  law_remove s i c : set_wf s → 0 ≤ i → 0 < c → i + c ≤ npos →
    yields set_wf (set_remove s i c) (λ x, has s x ∧ ¬ i ≤ x < i + c);
  law_remove_set s p : set_wf s → set_wf p →
    yields set_wf (set_remove_set s p) (λ x, has s x ∧ ¬ has p x);
  law_shift s i : set_wf s → 0 ≤ i → i + size s ≤ npos →
    ¬ has s (set_shift s i) ∧ set_shift s i = i + rank s (set_shift s i);
  law_unshift s i : set_wf s → 0 ≤ i ≤ npos → ¬ has s i →
    set_unshift s i = Some (i - rank s i) }.

(** ** The implementation *)
Section Implementation.
Context {build : Build}.

#[export] Instance chunked_ops : IndexSetOps (list Chunk) := {
  set_nil := [];
  set_empty := IndexSet.empty;
  set_ranges := ranges;
  set_contains := IndexSet.contains;
  set_count := IndexSet.count;
  set_add := IndexSet.add;
  set_add_set := IndexSet.add_set;
  set_add_shifted := IndexSet.add_shifted;
  set_add_shifted_by := IndexSet.add_shifted_by;
  set_set := IndexSet.set;
  set_insert_at := IndexSet.insert_at;
  set_insert_set_at := IndexSet.insert_set_at;
  set_shift_for_insert_at := IndexSet.shift_for_insert_at;
  set_shift_for_insert_set_at := IndexSet.shift_for_insert_set_at;
  set_erase_at := IndexSet.erase_at;
  set_erase_set_at := IndexSet.erase_set_at;
  set_erase_or_unshift := IndexSet.erase_or_unshift;
  set_remove := IndexSet.remove;
  set_remove_set := IndexSet.remove_set;
  set_shift := IndexSet.shift;
  set_unshift := IndexSet.unshift }.

#[export] Instance chunked_laws : IndexSetLaws (list Chunk).
Proof.
  refine {| set_wf := wf; set_room := preallocated |}; unfold yields, has, rank, bound, size; simpl.
  - by intros s [_ ?].
  - split; [apply wf_nil|done].
  - intros s [? _]. by apply empty_ranges.
  - apply contains_ok.
  - apply count_zero_ok.
  - intros s x e. apply count_total.
  - apply add_ok.
  - apply add_set_ok.
  - intros s i Hs Hi Hmax. destruct (add_shifted_ok s i Hs Hi Hmax) as (s'&y&?); eauto.
  - intros s sh vs Hs Hsh Hv Hmax Hroom.
    apply (add_shifted_by_ok s sh vs Hs Hsh Hv Hmax).
    pose proof (length_indexes _ _ (proj2 Hv)). lia.
  - apply set_ok.
  - apply insert_at_ok.
  - apply insert_set_at_ok.
  - apply shift_for_insert_at_ok.
  - apply shift_for_insert_set_at_ok.
  - apply erase_at_ok.
  - apply erase_set_at_ok.
  - intros s i Hs Hi. destruct (erase_or_unshift_ok s i Hs Hi) as (s'&?&?&?).
    eexists; split_and!; done.
  - apply remove_ok.
  - apply remove_set_ok.
  - apply shift_ok.
  - apply unshift_ok.
Defined.
End Implementation.

(** ** Deciding the representation invariant *)
Section Decidable.
Context {build : Build}.

#[export] Instance ranges_ok_dec lo rs : Decision (ranges_ok lo rs).
Proof. revert lo. induction rs; intros; simpl; apply _. Defined.

#[export] Instance chunk_wf_dec c : Decision (chunk_wf c).
Proof. unfold chunk_wf. apply _. Defined.

#[export] Instance wf_dec m : Decision (wf m).
Proof. unfold wf, vec_wf. apply _. Defined.
End Decidable.
