(* ===== verification/RowMap.v ===== *)
(** Positions through a change: the rank of an index outside a set, and how
    the operations of [IndexSet] move ranks.  Shared by the theorems about the
    change builder. *)
From S2P Require Import Prelude ChunkedRangeVector IndexSet IndexSetTheory IndexSetMerge IndexSetSpec.

Section Ranks.
Context {T : Type} {ops : IndexSetOps T} {laws : IndexSetLaws T}.
Implicit Types (s : T).

(** The position of [x] after the elements of [s] are taken out. *)
Definition unshifted s (x : Z) : Z := x - rank s x.

Lemma has_range s x : set_wf s → has s x → 0 ≤ x < npos.
Proof. intros Hs. apply (mem_npos (-1)); [done|by apply law_ranges]. Qed.

Lemma has_bound s x : set_wf s → has s x → x < bound s.
Proof. intros Hs Hx. eapply mem_bounds in Hx; [apply Hx|by apply law_ranges]. Qed.

Lemma rank_zero s x : set_wf s → x ≤ 0 → rank s x = 0.
Proof. intros Hs ?. eapply below_low; [by apply law_ranges|lia]. Qed.

Lemma rank_succ s x :
  set_wf s → rank s (x + 1) = rank s x + (if decide (has s x) then 1 else 0).
Proof. intros Hs. eapply below_succ. by apply law_ranges. Qed.

Lemma rank_bounds s x : set_wf s → 0 ≤ rank s x ∧ (0 ≤ x → rank s x ≤ x).
Proof.
  intros Hs. pose proof (below_bounds _ _ x (law_ranges s Hs)). unfold rank. split; lia.
Qed.

Lemma rank_le_size s x : set_wf s → rank s x ≤ size s.
Proof.
  intros Hs. pose proof (law_ranges s Hs) as Hok. unfold rank, size.
  destruct (decide (x ≤ bound s)) as [Hx|Hx].
  - unfold bound in Hx. rewrite <-(below_high _ _ (hi_of (-1) (set_ranges s)) Hok) by lia.
    pose proof (below_mono _ _ x _ Hok Hx). lia.
  - unfold bound in Hx. rewrite (below_high _ _ _ Hok) by lia. lia.
Qed.

Lemma size_bounds s : set_wf s → 0 ≤ size s ∧ -1 ≤ bound s ≤ npos ∧ size s ≤ bound s + 1.
Proof.
  intros Hs. pose proof (law_ranges s Hs) as Hok. unfold size, bound.
  pose proof (sum_len_bound _ _ Hok). pose proof (ranges_ok_hi _ _ Hok). slia.
Qed.

(** The function [F] that starts at 0 and counts the elements is the rank. *)
Lemma rank_determined s (F : Z → Z) :
  set_wf s → F 0 = 0 →
  (∀ x, 0 ≤ x → F (x + 1) = F x + (if decide (has s x) then 1 else 0)) →
  ∀ x, 0 ≤ x → rank s x = F x.
Proof.
  intros Hs H0 HF x Hx. replace x with (Z.of_nat (Z.to_nat x)) by lia.
  induction (Z.to_nat x) as [|n IH]; [change (Z.of_nat 0) with 0; by rewrite H0, rank_zero by done|].
  replace (Z.of_nat (S n)) with (Z.of_nat n + 1) by lia.
  rewrite rank_succ, IH, HF by (done || lia). done.
Qed.

Lemma rank_ext s s' x : set_wf s → set_wf s' → (∀ y, has s y ↔ has s' y) → rank s x = rank s' x.
Proof.
  intros Hs Hs' Hext. unfold rank. f_equal.
  eapply ranges_ok_ext; [by apply law_ranges..|done].
Qed.

(** Ranks determine the order outside the set. *)
Lemma unshifted_mono s x y : set_wf s → x ≤ y → unshifted s x ≤ unshifted s y.
Proof. intros Hs. eapply rank_mono. by apply law_ranges. Qed.

Lemma unshifted_lt s x y : set_wf s → ¬ has s x → x < y → unshifted s x < unshifted s y.
Proof. intros Hs. eapply rank_lt. by apply law_ranges. Qed.

Lemma unshifted_inj s x y :
  set_wf s → ¬ has s x → ¬ has s y → unshifted s x = unshifted s y → x = y.
Proof. intros Hs. eapply rank_unique. by apply law_ranges. Qed.

Lemma unshifted_nonneg s x : set_wf s → 0 ≤ x → 0 ≤ unshifted s x.
Proof. intros Hs Hx. pose proof (rank_bounds s x Hs). unfold unshifted. lia. Qed.

(** Comparing with an arbitrary position through the ranks. *)
Lemma unshifted_lt_iff s x y :
  set_wf s → ¬ has s y → (x ≤ y ↔ unshifted s x ≤ unshifted s y).
Proof.
  intros Hs Hy. split; [by apply unshifted_mono|]. intros Hle.
  destruct (decide (x ≤ y)) as [|Hn]; [done|].
  pose proof (unshifted_lt s y x Hs Hy ltac:(lia)). lia.
Qed.

(** ** Ranks after an operation *)
Ltac decide_membership :=
  repeat match goal with |- context [decide ?P] => destruct (decide P) end;
  try lia; try (exfalso; intuition lia).

Lemma rank_added s s' y x :
  set_wf s → set_wf s' → ¬ has s y → 0 ≤ y → (∀ z, has s' z ↔ has s z ∨ z = y) → 0 ≤ x →
  rank s' x = rank s x + (if decide (y < x) then 1 else 0).
Proof.
  intros Hs Hs' Hy Hy0 Hm. revert x. apply rank_determined; [done| |].
  - rewrite rank_zero by done. decide_membership.
  - intros x Hx. rewrite rank_succ by done. pose proof (Hm x) as Hmx.
    destruct (decide (x = y)) as [->|]; decide_membership.
Qed.

Lemma rank_removed s s' y x :
  set_wf s → set_wf s' → has s y → (∀ z, has s' z ↔ has s z ∧ z ≠ y) → 0 ≤ x →
  rank s' x = rank s x - (if decide (y < x) then 1 else 0).
Proof.
  intros Hs Hs' Hy Hm. assert (0 ≤ y) as Hy0 by (apply has_range in Hy; [lia|done]). revert x.
  apply rank_determined; [done| |].
  - rewrite rank_zero by done. decide_membership.
  - intros x Hx. rewrite rank_succ by done. pose proof (Hm x) as Hmx.
    destruct (decide (x = y)) as [->|]; decide_membership.
Qed.

Lemma rank_inserted s s' i c x :
  set_wf s → set_wf s' → 0 ≤ i → 0 < c → (∀ z, has s' z ↔ inserted (has s) i c z) → 0 ≤ x →
  rank s' x = if decide (x ≤ i) then rank s x
              else if decide (x ≤ i + c) then rank s i + (x - i)
              else rank s (x - c) + c.
Proof.
  intros Hs Hs' Hi Hc Hm. revert x. apply rank_determined; [done| |].
  - rewrite decide_True by lia. by apply rank_zero.
  - intros x Hx. pose proof (Hm x) as Hmx. unfold inserted in Hmx.
    destruct (decide (x < i)).
    { rewrite !decide_True by lia. rewrite rank_succ by done.
      decide_membership. }
    destruct (decide (x < i + c)).
    { rewrite (decide_True (P := has s' x)) by (apply Hmx; lia). rewrite (decide_False (P := x + 1 ≤ i)) by lia.
      rewrite (decide_True (P := x + 1 ≤ i + c)) by lia. decide_membership.
      replace x with i by lia. lia. }
    rewrite (decide_False (P := x + 1 ≤ i)), (decide_False (P := x + 1 ≤ i + c)) by lia.
    replace (x + 1 - c) with (x - c + 1) by lia. rewrite rank_succ by done.
    assert (has s' x ↔ has s (x - c)) as Hx' by (rewrite Hmx; intuition lia).
    assert ((if decide (x ≤ i) then rank s x else
      if decide (x ≤ i + c) then rank s i + (x - i) else rank s (x - c) + c) = rank s (x - c) + c) as ->.
    { decide_membership. replace (x - c) with i by lia. lia. }
    decide_membership.
Qed.

Lemma rank_erased s s' i x :
  set_wf s → set_wf s' → 0 ≤ i → (∀ z, has s' z ↔ erased (has s) i z) → 0 ≤ x →
  rank s' x = if decide (x ≤ i) then rank s x
              else rank s (x + 1) - (if decide (has s i) then 1 else 0).
Proof.
  intros Hs Hs' Hi Hm. revert x. apply rank_determined; [done| |].
  - rewrite decide_True by lia. by apply rank_zero.
  - intros x Hx. pose proof (Hm x) as Hmx. unfold erased in Hmx.
    destruct (decide (x < i)).
    { rewrite !decide_True by lia. rewrite rank_succ by done. decide_membership. }
    rewrite (decide_False (P := x + 1 ≤ i)) by lia.
    assert (has s' x ↔ has s (x + 1)) as Hx' by (rewrite Hmx; intuition lia).
    rewrite (rank_succ s (x + 1)) by done.
    destruct (decide (x = i)) as [->|].
    + rewrite (decide_True (P := i ≤ i)) by lia. rewrite (rank_succ s i) by done. decide_membership.
    + rewrite (decide_False (P := x ≤ i)) by lia. decide_membership.
Qed.

Lemma rank_shifted_for s s' i c x :
  set_wf s → set_wf s' → 0 ≤ i → 0 < c → (∀ z, has s' z ↔ shifted_for (has s) i c z) → 0 ≤ x →
  rank s' x = if decide (x ≤ i) then rank s x
              else if decide (x ≤ i + c) then rank s i else rank s (x - c).
Proof.
  intros Hs Hs' Hi Hc Hm. revert x. apply rank_determined; [done| |].
  - rewrite decide_True by lia. by apply rank_zero.
  - intros x Hx. pose proof (Hm x) as Hmx. unfold shifted_for in Hmx.
    destruct (decide (x < i)).
    { rewrite !decide_True by lia. rewrite rank_succ by done. decide_membership. }
    destruct (decide (x < i + c)).
    { rewrite (decide_False (P := has s' x)) by (rewrite Hmx; lia).
      rewrite (decide_False (P := x + 1 ≤ i)) by lia.
      rewrite (decide_True (P := x + 1 ≤ i + c)) by lia. decide_membership.
      replace x with i by lia. lia. }
    rewrite (decide_False (P := x + 1 ≤ i)), (decide_False (P := x + 1 ≤ i + c)) by lia.
    replace (x + 1 - c) with (x - c + 1) by lia. rewrite rank_succ by done.
    assert (has s' x ↔ has s (x - c)) as Hx' by (rewrite Hmx; intuition lia).
    assert ((if decide (x ≤ i) then rank s x else
      if decide (x ≤ i + c) then rank s i else rank s (x - c)) = rank s (x - c)) as ->.
    { decide_membership. by replace (x - c) with i by lia. }
    decide_membership.
Qed.

(** ** Order isomorphisms of complements *)

(** Every rank is taken outside the set. *)
Lemma unshifted_surj s k : set_wf s → 0 ≤ k → ∃ y, 0 ≤ y ∧ ¬ has s y ∧ unshifted s y = k.
Proof.
  intros Hs Hk.
  assert (∀ n : nat, k < unshifted s (Z.of_nat n) → ∃ y, 0 ≤ y ∧ ¬ has s y ∧ unshifted s y = k) as Hex.
  { induction n as [|n IH]; intros Hlt.
    - change (Z.of_nat 0) with 0 in Hlt. unfold unshifted in Hlt. rewrite rank_zero in Hlt by done. lia.
    - destruct (decide (k < unshifted s (Z.of_nat n))) as [|Hge]; [by apply IH|].
      replace (Z.of_nat (S n)) with (Z.of_nat n + 1) in Hlt by lia. unfold unshifted in *.
      rewrite rank_succ in Hlt by done. destruct (decide (has s (Z.of_nat n))); [lia|].
      exists (Z.of_nat n). split_and!; [lia|done|lia]. }
  apply (Hex (Z.to_nat (k + 1 + size s))). pose proof (size_bounds s Hs).
  pose proof (rank_le_size s (k + 1 + size s) Hs). unfold unshifted.
  rewrite Z2Nat.id by lia. lia.
Qed.

(** A strictly monotone relation between the complements of two sets that is
    total on both sides matches equal ranks. *)
Lemma complement_iso s s' (R : Z → Z → Prop) :
  set_wf s → set_wf s' →
  (∀ x y, 0 ≤ x → R x y → 0 ≤ y ∧ ¬ has s x ∧ ¬ has s' y) →
  (∀ x, 0 ≤ x → ¬ has s x → ∃ y, R x y) → (∀ y, 0 ≤ y → ¬ has s' y → ∃ x, 0 ≤ x ∧ R x y) →
  (∀ x y x' y', 0 ≤ x → 0 ≤ x' → R x y → R x' y' → (x < x' ↔ y < y')) →
  ∀ x y, 0 ≤ x → 0 ≤ y → R x y ↔ ¬ has s x ∧ ¬ has s' y ∧ unshifted s x = unshifted s' y.
Proof.
  intros Hs Hs' Hdom Htot Hsurj Hmono.
  assert (∀ n x y, unshifted s x < Z.of_nat n → 0 ≤ x → R x y → unshifted s x = unshifted s' y) as Heq.
  { induction n as [|n IH]; intros x y Hn Hx Hxy.
    { pose proof (unshifted_nonneg s x Hs Hx). lia. }
    destruct (Hdom x y Hx Hxy) as (Hy&Hnx&Hny).
    pose proof (unshifted_nonneg s x Hs Hx). pose proof (unshifted_nonneg s' y Hs' Hy).
    destruct (Z.lt_trichotomy (unshifted s x) (unshifted s' y)) as [Hlt|[|Hgt]]; [|done|].
    - destruct (unshifted_surj s' (unshifted s x) Hs') as (y'&Hy'&Hny'&Hyeq); [done|].
      destruct (Hsurj y' Hy' Hny') as (x'&Hx'&Hxy'). destruct (Hdom x' y' Hx' Hxy') as (_&Hnx'&_).
      assert (y' < y) as Hyy.
      { destruct (decide (y' < y)) as [|Hge]; [done|].
        pose proof (unshifted_mono s' y y' Hs' ltac:(lia)). lia. }
      assert (x' < x) as Hxx by (by eapply Hmono).
      pose proof (unshifted_lt s x' x Hs Hnx' Hxx) as Hlt'.
      pose proof (IH x' y' ltac:(lia) Hx' Hxy'). lia.
    - destruct (unshifted_surj s (unshifted s' y) Hs) as (x'&Hx'&Hnx'&Hxeq); [done|].
      destruct (Htot x' Hx' Hnx') as (y'&Hxy'). destruct (Hdom x' y' Hx' Hxy') as (Hy'&_&Hny').
      pose proof (IH x' y' ltac:(lia) Hx' Hxy') as E.
      assert (y' = y) as -> by (eapply (unshifted_inj s'); [done..|congruence]).
      assert (¬ x' < x) by (intros Hc; eapply (Hmono x' y x y) in Hc; [lia|done..]).
      assert (¬ x < x') by (intros Hc; eapply (Hmono x y x' y) in Hc; [lia|done..]).
      assert (x = x') as -> by lia. lia. }
  intros x y Hx Hy. split.
  - intros Hxy. destruct (Hdom x y Hx Hxy) as (_&?&?). split_and!; [done..|].
    apply (Heq (S (Z.to_nat (unshifted s x)))); [lia|done..].
  - intros (Hnx&Hny&E). destruct (Htot x Hx Hnx) as (y'&Hxy). destruct (Hdom x y' Hx Hxy) as (Hy'&_&Hny').
    assert (y' = y) as <-; [|done]. eapply (unshifted_inj s'); [done..|].
    rewrite <-E. symmetry. apply (Heq (S (Z.to_nat (unshifted s x)))); [lia|done..].
Qed.
End Ranks.
