(* ===== verification/IndexSetProps.v ===== *)
(** The properties of [IndexSet]: what each operation does to the set of
    indices, stated on the chunked representation. *)
From S2P Require Import Prelude ChunkedRangeVector IndexSet IndexSetTheory IndexSetMerge IndexSetSpec RowMap.
Import IndexSet.

(** Concrete sets in the debug build, where a chunk holds four ranges. *)
Module Samples.
Definition debug : Build := true.

Definition evens : list Chunk := Eval vm_compute in default [] (of_list (build := debug) [0; 2; 4; 6; 8; 10; 11; 12; 15]).
Definition few : list Chunk := Eval vm_compute in default [] (of_list (build := debug) [3; 4; 9]).
Definition blocks : list Chunk := Eval vm_compute in default []
  (of_list (build := debug) (seqZ 10 5 ++ seqZ 20 5 ++ seqZ 30 10)).
Definition low : list Chunk := Eval vm_compute in default [] (of_list (build := debug) [0; 2]).
Definition gap : list Chunk := Eval vm_compute in default [] (of_list (build := debug) [0; 2; 4; 6; 8; 9; 10; 11; 12; 13]).
End Samples.
Import Samples.

Section Properties.
Context {build : Build}.
Implicit Types (m p : IndexSet).

Lemma length_filter_lt a n e :
  0 ≤ n → Z.of_nat (length (filter (λ x, x < e) (seqZ a n))) = Z.max 0 (Z.min (a + n) e - a).
Proof.
  intros Hn.
  assert (∀ b k, b + k ≤ e → filter (λ x, x < e) (seqZ b k) = seqZ b k) as Hall.
  { intros b k Hk. apply filter_all, Forall_forall. intros x ?%elem_of_seqZ. lia. }
  assert (∀ b k, e ≤ b → filter (λ x, x < e) (seqZ b k) = []) as Hnone.
  { intros b k Hk. apply filter_none, Forall_forall. intros x ?%elem_of_seqZ. lia. }
  destruct (decide (e ≤ a)); [rewrite Hnone by done; simpl; lia|].
  destruct (decide (a + n ≤ e)); [rewrite Hall, length_seqZ by done; lia|].
  replace n with ((e - a) + (n - (e - a))) by lia. rewrite seqZ_app by lia.
  rewrite filter_app, Hall, Hnone, app_nil_r, length_seqZ by lia. lia.
Qed.

Lemma below_filter rs e lo :
  ranges_ok lo rs → below rs e = Z.of_nat (length (filter (λ x, x < e) (indexes rs))).
Proof.
  revert lo. induction rs as [|r rs IH]; intros lo Hok; [done|]. destruct Hok as (?&?&?&Hok).
  change (indexes (r :: rs)) with (seqZ r.1 (r.2 - r.1) ++ indexes rs).
  rewrite filter_app, length_app, Nat2Z.inj_add, <-(IH r.2) by done. simpl.
  rewrite length_filter_lt by lia. lia.
Qed.

(** [y - below p y] outside [p] numbers the positions outside [p]. *)
Lemma outside_inj lo rs x y :
  ranges_ok lo rs → ¬ mem rs x → ¬ mem rs y → x - below rs x = y - below rs y → x = y.
Proof. intros. by eapply rank_unique. Qed.

Lemma ranges_canonical m p :
  wf m → wf p → (∀ x, mem (ranges m) x ↔ mem (ranges p) x) → ranges m = ranges p.
Proof. intros [_ Hm] [_ Hp]. by apply (ranges_ok_ext (-1)). Qed.

(** The round trip of the bulk operations *)
Lemma erase_inserted_set m p m1 m2 :
  wf m → wf p → wf m1 → wf m2 →
  (∀ y, mem (ranges m1) y ↔
    mem (ranges p) y ∨ ¬ mem (ranges p) y ∧ mem (ranges m) (y - below (ranges p) y)) →
  (∀ y, mem (ranges m2) y ↔
    ∃ x, mem (ranges m1) x ∧ ¬ mem (ranges p) x ∧ y = x - below (ranges p) x) →
  ranges m2 = ranges m.
Proof.
  intros Hm Hp Hm1 Hm2 H1 H2. apply ranges_canonical; [done..|]. intros y. rewrite H2. split.
  - intros (x&[?|[_ Hx]]%H1&?&->); done.
  - intros Hy. pose proof (mem_npos (-1) _ _ ltac:(lia) (proj2 Hm) Hy) as Hr.
    destruct (unshifted_surj (ops := chunked_ops) (laws := chunked_laws) p y Hp) as (x&?&Hn&E); [lia|].
    unfold unshifted, rank, has in *; simpl in *.
    exists x. split_and!; [|done|done]. apply H1. right. split; [done|]. by rewrite E.
Qed.
End Properties.

(** ** The properties *)
Section Claims.
Context {build : Build}.
Implicit Types (m p : IndexSet).

(** [contains] answers membership, for every index. *)
Theorem contains_correct m index :
  wf m → 0 ≤ index → contains m index = Some (bool_decide (mem (ranges m) index)).
Proof. apply contains_ok. Qed.

(** Building a set from any list of indices in any order succeeds and
    iterating over it ([as_indexes]) gives exactly those indices, strictly
    increasing. *)
Theorem of_list_as_indexes values :
  Forall (λ v, 0 ≤ v < npos) values →
  ∃ m l, of_list values = Some m ∧ wf m ∧ as_indexes m = Some l ∧
    StronglySorted Z.lt l ∧ ∀ x, x ∈ l ↔ x ∈ values.
Proof.
  intros Hv. destruct (of_list_ok values Hv) as (m&Hm&Hwf&Hmem).
  exists m, (indexes (ranges m)). split_and!; [done|done|by apply as_indexes_ok| |].
  - eapply indexes_sorted, Hwf.
  - intros x. by rewrite elem_of_indexes, Hmem.
Qed.

(** C27: [add] inserts one index and [remove] deletes an interval, both keep the
    representation well formed, and removing a new index restores the set. *)
Theorem add_remove_correct m index :
  wf m → 0 ≤ index < npos →
  ∃ m1 m2, add m index = Some m1 ∧ wf m1 ∧
    (∀ x, mem (ranges m1) x ↔ mem (ranges m) x ∨ x = index) ∧
    remove m1 index 1 = Some m2 ∧ wf m2 ∧
    (∀ x, mem (ranges m2) x ↔ mem (ranges m) x ∧ x ≠ index) ∧
    (¬ mem (ranges m) index → ranges m2 = ranges m).
Proof.
  intros Hm Hi. destruct (add_ok m index Hm Hi) as (m1&Ha&Hm1&H1).
  destruct (remove_ok m1 index 1 Hm1) as (m2&Hr&Hm2&H2); [lia..|].
  assert (∀ x, mem (ranges m2) x ↔ mem (ranges m) x ∧ x ≠ index) as Hmem.
  { intros x. rewrite H2, H1. intuition lia. }
  exists m1, m2. split_and!; [done..|]. intros Hn. apply ranges_canonical; [done..|].
  intros x. rewrite Hmem. split; [tauto|]. intros Hx. split; [done|]. by intros ->.
Qed.

(** [count(0, end)] is the number of indices below [end] in iteration
    order. *)
Theorem count_correct m e :
  wf m → 0 ≤ e →
  ∃ l, as_indexes m = Some l ∧ count m 0 e = Some (Z.of_nat (length (filter (λ x, x < e) l))).
Proof.
  intros Hm He. exists (indexes (ranges m)). split; [by apply as_indexes_ok|].
  rewrite count_zero_ok by done. by rewrite (below_filter _ _ (-1)) by apply Hm.
Qed.

(** [insert_at] makes room and marks the inserted indices, and erasing an
    index inserted with count 1 restores the set. *)
Theorem insert_at_erase_at m index count :
  wf m → 0 ≤ index → 0 < count → index + count ≤ npos → hi_of (-1) (ranges m) + count ≤ npos →
  ∃ m1, insert_at m index count = Some m1 ∧ wf m1 ∧
    (∀ x, mem (ranges m1) x ↔ inserted (mem (ranges m)) index count x) ∧
    (count = 1 → ∃ m2, erase_at m1 index = Some m2 ∧ wf m2 ∧ ranges m2 = ranges m).
Proof.
  intros Hm Hi Hc Hic Hh. destruct (insert_at_ok m index count Hm Hi Hc Hic Hh) as (m1&Ha&Hm1&H1).
  exists m1. split_and!; [done..|]. intros ->. destruct (erase_at_ok m1 index Hm1 Hi) as (m2&He&Hm2&H2).
  exists m2. split_and!; [done..|]. apply ranges_canonical; [done..|]. intros x. rewrite H2.
  unfold erased. rewrite !H1. unfold inserted. replace (x + 1 - 1) with x by lia.
  destruct (decide (x < index)); intuition lia.
Qed.

(** [erase_or_unshift] erases the index, and returns [npos] if it was in the
    set and otherwise its position without the elements of the set. *)
Theorem erase_or_unshift_correct m index :
  wf m → 0 ≤ index ≤ npos →
  ∃ m', erase_or_unshift m index =
      Some (m', if decide (mem (ranges m) index) then npos else index - below (ranges m) index) ∧
    wf m' ∧ ∀ x, mem (ranges m') x ↔ erased (mem (ranges m)) index x.
Proof. apply erase_or_unshift_ok. Qed.

(** [shift] and [unshift] are inverse to each other between all positions
    and the positions outside the set. *)
Theorem shift_unshift_inverse m :
  wf m →
  (∀ i, 0 ≤ i → i + sum_len (ranges m) ≤ npos → unshift m (shift m i) = Some i) ∧
  (∀ x i, 0 ≤ x → x + sum_len (ranges m) ≤ npos → unshift m x = Some i → ¬ mem (ranges m) x → shift m i = x).
Proof.
  intros Hm. assert (∀ x, 0 ≤ x → 0 ≤ below (ranges m) x ≤ x ∧ below (ranges m) x ≤ sum_len (ranges m)) as Hb.
  { intros x Hx. pose proof (rank_bounds m x Hm). pose proof (rank_le_size m x Hm).
    unfold rank, size in *; simpl in *. lia. }
  split.
  - intros i Hi Hmax. destruct (shift_ok m i Hm Hi Hmax) as [Hn E].
    assert (0 ≤ shift m i ≤ npos).
    { destruct (decide (0 ≤ shift m i)); [pose proof (Hb (shift m i) ltac:(done)); lia|].
      rewrite (below_low (-1)) in E by (apply Hm || lia). lia. }
    rewrite unshift_ok by done. f_equal. lia.
  - intros x i Hx Hmax Hu Hn. pose proof (Hb x Hx). rewrite unshift_ok in Hu by (done || lia). injection Hu as <-.
    destruct (shift_ok m (x - below (ranges m) x) Hm) as [Hn' E]; [lia..|].
    eapply (rank_unique (-1)); [apply Hm|done|done|]. lia.
Qed.

(** [add_shifted] adds the index that has [index] positions outside the set
    below it, and returns it. *)
Theorem add_shifted_correct m index :
  wf m → 0 ≤ index → index + sum_len (ranges m) < npos →
  ∃ m' y, add_shifted m index = Some (m', y) ∧ wf m' ∧
    ¬ mem (ranges m) y ∧ y = index + below (ranges m) y ∧
    ∀ x, mem (ranges m') x ↔ mem (ranges m) x ∨ x = y.
Proof. apply add_shifted_ok. Qed.

(** The merge loop of [add_shifted_by] adds every value outside
    [shifted_by], moved past the elements of the set, as long as the chunks the
    builder preallocates from the old set are enough. *)
Theorem add_shifted_by_correct m sh values :
  wf m → wf sh → wf values →
  hi_of (-1) (ranges values) + sum_len (ranges m) ≤ npos →
  (length (ranges m) + length (indexes (ranges values)) ≤ preallocated m)%nat →
  ∃ m', add_shifted_by m sh values = Some m' ∧ wf m' ∧
    ∀ x, mem (ranges m') x ↔ mem (ranges m) x ∨ shifted_from m sh (mem (ranges values)) x.
Proof. apply add_shifted_by_ok. Qed.

(** C26: inserting a whole set of positions and erasing them again restores the
    set: the merge loops of the two bulk operations are inverse. *)
Theorem insert_set_at_erase_set_at m p :
  wf m → wf p → hi_of (-1) (ranges m) + sum_len (ranges p) ≤ npos →
  ∃ m1 m2, insert_set_at m p = Some m1 ∧ wf m1 ∧
    (∀ y, mem (ranges m1) y ↔ mem (ranges p) y ∨
       ¬ mem (ranges p) y ∧ mem (ranges m) (y - below (ranges p) y)) ∧
    erase_set_at m1 p = Some m2 ∧ wf m2 ∧ ranges m2 = ranges m.
Proof.
  intros Hm Hp Hmax. destruct (insert_set_at_ok m p Hm Hp Hmax) as (m1&H1&Hm1&Hmem1).
  destruct (erase_set_at_ok m1 p Hm1 Hp) as (m2&H2&Hm2&Hmem2).
  exists m1, m2. split_and!; [done..|]. by apply (erase_inserted_set m p m1 m2).
Qed.
End Claims.

(** Without enough preallocated chunks the builder's overflow branch
    records a count of one for a longer range: the result of [add_shifted_by] on
    well-formed sets has the right ranges, is not well formed, and [count] is
    wrong on it. *)
Theorem add_shifted_by_overflow_miscounts :
  ∃ m values m', wf (build := debug) m ∧ wf (build := debug) values ∧
    add_shifted_by (build := debug) m [] values = Some m' ∧
    ranges m' = [(0, 1); (2, 3); (10, 15); (20, 25); (30, 40)] ∧ ¬ wf (build := debug) m' ∧
    count (build := debug) m' 0 100 = Some 13 ∧ below (ranges m') 100 = 22.
Proof.
  exists blocks, low. eexists. split_and!; [by_decision|by_decision|vm_compute; reflexivity|done| |done|done].
  intros Hw%(bool_decide_pack _). vm_compute in Hw. exact Hw.
Qed.

(** [count(start, end)] from the middle of a chunk drops a range of the next
    chunk that contains [end]: on a well-formed set with five elements in
    [2, 10) it answers three. *)
Theorem count_from_middle_undercounts :
  ∃ m, wf (build := debug) m ∧ count (build := debug) m 2 10 = Some 3 ∧
    below (ranges m) 10 - below (ranges m) 2 = 5.
Proof. exists gap. split_and!; [by_decision|by vm_compute|by vm_compute]. Qed.

(** ** The properties at concrete sets of the debug build *)
Section Witnesses.
#[local] Existing Instance debug.

Lemma contains_correct_witness :
  wf evens ∧ contains evens 11 = Some (bool_decide (mem (ranges evens) 11)) ∧ mem (ranges evens) 11.
Proof. split_and!; [by_decision|apply (contains_correct evens 11); [by_decision|lia]|by_decision]. Defined.

Lemma of_list_as_indexes_witness :
  ∃ m l, of_list [7; 3; 5; 4; 3; 0; 9] = Some m ∧ wf m ∧ as_indexes m = Some l ∧
    StronglySorted Z.lt l ∧ ∀ x, x ∈ l ↔ x ∈ [7; 3; 5; 4; 3; 0; 9].
Proof. apply (of_list_as_indexes [7; 3; 5; 4; 3; 0; 9]). repeat constructor; slia. Defined.

Lemma add_remove_correct_witness :
  wf evens ∧ ¬ mem (ranges evens) 5 ∧ ∃ m1 m2, add evens 5 = Some m1 ∧ remove m1 5 1 = Some m2 ∧
    ranges m2 = ranges evens.
Proof.
  assert (¬ mem (ranges evens) 5) by by_decision. split_and!; [by_decision|done|].
  destruct (add_remove_correct evens 5) as (m1&m2&?&_&_&?&_&_&Heq); [by_decision|slia|].
  exists m1, m2. split_and!; auto.
Defined.

Lemma count_correct_witness :
  wf evens ∧ ∃ l, as_indexes evens = Some l ∧
    count evens 0 11 = Some (Z.of_nat (length (filter (λ x, x < 11) l))).
Proof. split; [by_decision|]. apply (count_correct evens 11); [by_decision|lia]. Defined.

Lemma insert_at_erase_at_witness :
  wf evens ∧ ∃ m1 m2, insert_at evens 7 1 = Some m1 ∧ erase_at m1 7 = Some m2 ∧
    ranges m2 = ranges evens.
Proof.
  split; [by_decision|].
  destruct (insert_at_erase_at evens 7 1) as (m1&?&_&_&Hr); [by_decision|lia|lia|slia|vm_compute; congruence|].
  destruct (Hr eq_refl) as (m2&?&_&?). exists m1, m2. split_and!; assumption.
Defined.

Lemma erase_or_unshift_correct_witness :
  wf evens ∧ ∃ m', erase_or_unshift evens 9 =
    Some (m', if decide (mem (ranges evens) 9) then npos else 9 - below (ranges evens) 9) ∧ wf m'.
Proof.
  split; [by_decision|].
  destruct (erase_or_unshift_correct evens 9) as (m'&?&?&_); [by_decision|slia|eauto].
Defined.

Lemma shift_unshift_inverse_witness : wf evens ∧ unshift evens (shift evens 4) = Some 4.
Proof.
  split; [by_decision|]. apply (shift_unshift_inverse evens); [by_decision|lia|vm_compute; congruence].
Defined.

Lemma add_shifted_correct_witness :
  wf evens ∧ ∃ m' y, add_shifted evens 3 = Some (m', y) ∧ wf m' ∧ y = 3 + below (ranges evens) y.
Proof.
  split; [by_decision|].
  destruct (add_shifted_correct evens 3) as (m'&y&?&?&_&?&_); [by_decision|lia|vm_compute; done|].
  exists m', y. split_and!; assumption.
Defined.

Lemma add_shifted_by_correct_witness :
  wf few ∧ wf low ∧ ∃ m', add_shifted_by few few low = Some m' ∧ wf m' ∧
    ∀ x, mem (ranges m') x ↔ mem (ranges few) x ∨ shifted_from few few (mem (ranges low)) x.
Proof.
  split_and!; [by_decision..|].
  apply (add_shifted_by_correct few few low); [by_decision..|vm_compute; congruence|vm_compute; lia].
Defined.

Lemma insert_set_at_erase_set_at_witness :
  wf evens ∧ wf few ∧ ∃ m1 m2, insert_set_at evens few = Some m1 ∧ erase_set_at m1 few = Some m2 ∧
    ranges m2 = ranges evens.
Proof.
  split_and!; [by_decision..|].
  destruct (insert_set_at_erase_set_at evens few) as (m1&m2&?&_&_&?&_&?);
    [by_decision..|vm_compute; congruence|]. exists m1, m2. split_and!; assumption.
Defined.
End Witnesses.
