(* ===== verification/ChangeBuilder.v ===== *)
(** [realm::_impl::CollectionChangeBuilder]
    (ObjectStore/src/impl/collection_change_builder.cpp and its header): the
    change set a collection notifier accumulates, written against the
    interface of [IndexSet]. *)
From stdpp Require Import gmap.
From S2P Require Import Prelude ChunkedRangeVector IndexSetSpec.

(** [CollectionChangeSet::Move] *)
Record Move := mkMove { from : Z; to : Z }.

#[export] Instance Move_eq_dec : EqDecision Move.
Proof. solve_decision. Defined.

(** The order [parse_complete] sorts by *)
Definition move_le (a b : Move) : Prop := from a ≤ from b.

#[export] Instance move_le_dec a b : Decision (move_le a b).
Proof. unfold move_le. apply _. Defined.

(** [CollectionChangeSet] *)
Record CollectionChangeSet (T : Type) := mkChangeSet {
  deletions : T;
  insertions : T;
  modifications : T;
  modifications_new : T;
  moves : list Move;
  columns : list T }.
Arguments mkChangeSet {T} _ _ _ _ _ _.
Arguments deletions {T} _.
Arguments insertions {T} _.
Arguments modifications {T} _.
Arguments modifications_new {T} _.
Arguments moves {T} _.
Arguments columns {T} _.

(** [CollectionChangeBuilder]: the change set with the private fields.
    [m_move_mapping] is an [unordered_map] from new to old positions. *)
Record CollectionChangeBuilder (T : Type) := mkChangeBuilder {
  changes : CollectionChangeSet T;
  m_move_mapping : gmap Z Z;
  m_track_columns : bool }.
Arguments mkChangeBuilder {T} _ _ _.
Arguments changes {T} _.
Arguments m_move_mapping {T} _.
Arguments m_track_columns {T} _.

Module ChangeBuilder.
Section Operations.
Context {build : Build} {T : Type} {ops : IndexSetOps T}.
Implicit Types (b c : CollectionChangeBuilder T) (s : CollectionChangeSet T).

(** Assignment to one field *)
Definition with_changes b s : CollectionChangeBuilder T :=
  mkChangeBuilder s (m_move_mapping b) (m_track_columns b).
Definition with_mapping b (m : gmap Z Z) : CollectionChangeBuilder T :=
  mkChangeBuilder (changes b) m (m_track_columns b).
Definition with_deletions b (d : T) : CollectionChangeBuilder T :=
  let s := changes b in
  with_changes b (mkChangeSet d (insertions s) (modifications s) (modifications_new s)
                    (moves s) (columns s)).
Definition with_insertions b (i : T) : CollectionChangeBuilder T :=
  let s := changes b in
  with_changes b (mkChangeSet (deletions s) i (modifications s) (modifications_new s)
                    (moves s) (columns s)).
Definition with_modifications b (m : T) : CollectionChangeBuilder T :=
  let s := changes b in
  with_changes b (mkChangeSet (deletions s) (insertions s) m (modifications_new s)
                    (moves s) (columns s)).
Definition with_moves b (l : list Move) : CollectionChangeBuilder T :=
  let s := changes b in
  with_changes b (mkChangeSet (deletions s) (insertions s) (modifications s)
                    (modifications_new s) l (columns s)).
Definition with_columns b (l : list T) : CollectionChangeBuilder T :=
  let s := changes b in
  with_changes b (mkChangeSet (deletions s) (insertions s) (modifications s)
                    (modifications_new s) (moves s) l).

(** [CollectionChangeSet::empty] *)
Definition empty s : bool :=
  set_empty (deletions s) && set_empty (insertions s) && set_empty (modifications s) &&
  set_empty (modifications_new s) && bool_decide (moves s = []).

(** A default-constructed builder *)
Definition empty_builder : CollectionChangeBuilder T :=
  mkChangeBuilder (mkChangeSet set_nil set_nil set_nil set_nil [] []) ∅ true.

(** The constructor: every move is also a deletion and an insertion. *)
Definition make (d i m : T) (mv : list Move) : option (CollectionChangeBuilder T) :=
  '(d, i) ← foldlM (λ '(d, i) move,
      d ← set_add d (from move); i ← set_add i (to move); Some (d, i)) (d, i) mv;
  Some (mkChangeBuilder (mkChangeSet d i m set_nil mv []) ∅ true).

(** [verify()]: checked in debug builds *)
Definition verify b : option bool :=
  if REALM_DEBUG then
    foldlM (λ (ok : bool) move,
      d ← set_contains (deletions (changes b)) (from move);
      i ← set_contains (insertions (changes b)) (to move);
      Some (ok && d && i)) true (moves (changes b))
  else Some true.

(** [for_each_col(f)] *)
Definition for_each_col (f : T → option T) b : option (CollectionChangeBuilder T) :=
  m ← f (modifications (changes b));
  let b := with_modifications b m in
  if m_track_columns b then
    cols ← mapM f (columns (changes b)); Some (with_columns b cols)
  else Some b.

Definition modify b (ndx col : Z) : option (CollectionChangeBuilder T) :=
  m ← set_add (modifications (changes b)) ndx;
  let b := with_modifications b m in
  if negb (m_track_columns b) || (col =? npos) then Some b else
  let cols := columns (changes b) in
  let n := Z.to_nat col in
  let cols := cols ++ replicate (S n - length cols) set_nil in
  c ← cols !! n;
  c' ← set_add c ndx;
  Some (with_columns b (<[n := c']> cols)).

(** The keys of [m_move_mapping] from [index] on move up by [count]:
    [emplace_back] the pairs, erase them, insert them again ([insert] keeps an
    existing key). *)
Definition shift_mapping (m : gmap Z Z) (index count : Z) : gmap Z Z :=
  let shifted := (λ p, (p.1 +w count, p.2)) <$>
                   filter (λ p, index ≤ p.1) (map_to_list m) in
  foldl (λ m p, match m !! p.1 with Some _ => m | None => <[p.1 := p.2]> m end)
    (filter (λ p, p.1 < index) m) shifted.

Definition insert b (index count : Z) (track_moves : bool) :
    option (CollectionChangeBuilder T) :=
  assert! negb (count =? 0);
  b ← for_each_col (λ col, set_shift_for_insert_at col index count) b;
  if negb track_moves then Some b else
  i ← set_insert_at (insertions (changes b)) index count;
  let b := with_insertions b i in
  let b := with_moves b ((λ m, if index <=? to m then mkMove (from m) (to m +w count) else m)
                           <$> moves (changes b)) in
  if bool_decide (m_move_mapping b = ∅) then Some b else
  Some (with_mapping b (shift_mapping (m_move_mapping b) index count)).

(** The loop of [erase] over [moves]: drop the moves to the erased row, move
    the later destinations down. *)
Fixpoint erase_moves (l : list Move) (index : Z) : list Move :=
  match l with
  | [] => []
  | m :: l =>
      if to m =? index then erase_moves l index
      else if index <? to m then mkMove (from m) (to m -w 1) :: erase_moves l index
      else m :: erase_moves l index
  end.

Definition erase b (index : Z) : option (CollectionChangeBuilder T) :=
  b ← for_each_col (λ col, set_erase_at col index) b;
  '(i, unshifted) ← set_erase_or_unshift (insertions (changes b)) index;
  let b := with_insertions b i in
  b ← (if unshifted =? npos then Some b else
       '(d, _) ← set_add_shifted (deletions (changes b)) unshifted;
       Some (with_deletions b d));
  Some (with_moves b (erase_moves (moves (changes b)) index)).

Definition clear b (old_size : Z) : option (CollectionChangeBuilder T) :=
  let s := changes b in
  let old_size :=
    if old_size =? npos then old_size else
    foldl (λ n r, n -w (r.2 -w r.1))
      (foldl (λ n r, n +w (r.2 -w r.1)) old_size (set_ranges (deletions s)))
      (set_ranges (insertions s)) in
  d ← set_set (deletions s) old_size;
  Some (mkChangeBuilder (mkChangeSet d set_nil set_nil (modifications_new s) [] [])
          ∅ (m_track_columns b)).

(** The body of [move]'s loop for a move whose destination is not [from] *)
Definition move_other (from_ to_ : Z) (m : Move) : Move :=
  if (to_ <=? to m) && (to m <? from_) then mkMove (from m) (to m +w 1)
  else if (to m <=? to_) && (from_ <? to m) then mkMove (from m) (to m -w 1)
  else m.

(** The loop of [move]: collapse A -> B, B -> C into A -> C. *)
Fixpoint move_loop (l : list Move) (from_ to_ : Z) (i : T) (updated : bool) :
    option (list Move * T * bool) :=
  match l with
  | [] => Some ([], i, updated)
  | m :: l =>
      if negb (to m =? from_) then
        '(l, i, updated) ← move_loop l from_ to_ i updated;
        Some (move_other from_ to_ m :: l, i, updated)
      else
        assert! negb updated;
        i ← set_erase_at i from_;
        i ← set_insert_at i to_ 1;
        '(l, i, updated) ← move_loop l from_ to_ i true;
        Some (mkMove (from m) to_ :: l, i, updated)
  end.

Definition move b (from_ to_ : Z) : option (CollectionChangeBuilder T) :=
  assert! negb (from_ =? to_);
  '(l, i, updated) ← move_loop (moves (changes b)) from_ to_ (insertions (changes b)) false;
  let b := with_insertions (with_moves b l) i in
  b ← (if (updated : bool) then Some b else
       '(i, shifted_from) ← set_erase_or_unshift (insertions (changes b)) from_;
       i ← set_insert_at i to_ 1;
       let b := with_insertions b i in
       if shifted_from =? npos then Some b else
       '(d, shifted_from) ← set_add_shifted (deletions (changes b)) shifted_from;
       Some (with_moves (with_deletions b d)
               (moves (changes b) ++ [mkMove shifted_from to_])));
  for_each_col (λ col,
    modified ← set_contains col from_;
    col ← set_erase_at col from_;
    if (modified : bool) then set_insert_at col to_ 1
    else set_shift_for_insert_at col to_ 1) b.

(** [clean_up_stale_moves]: [remove_if] over [moves]; the predicate updates
    [deletions] and [insertions]. *)
Fixpoint stale_loop (l : list Move) (d i : T) : option (list Move * T * T) :=
  match l with
  | [] => Some ([], d, i)
  | m :: l =>
      cd ← set_count d 0 (from m);
      ci ← set_count i 0 (to m);
      if negb (from m -w cd =? to m -w ci) then
        '(l, d, i) ← stale_loop l d i;
        Some (m :: l, d, i)
      else
        d ← set_remove d (from m) 1;
        i ← set_remove i (to m) 1;
        stale_loop l d i
  end.

Definition clean_up_stale_moves b : option (CollectionChangeBuilder T) :=
  '(l, d, i) ← stale_loop (moves (changes b)) (deletions (changes b)) (insertions (changes b));
  Some (with_moves (with_insertions (with_deletions b d) i) l).

Definition parse_complete b : option (CollectionChangeBuilder T) :=
  b ← foldlM (λ b move,
      d ← set_contains (deletions (changes b)) move.2;
      i ← set_contains (insertions (changes b)) move.1;
      assert_debug! d;
      assert_debug! i;
      if move.1 =? move.2 then
        d ← set_remove (deletions (changes b)) move.2 1;
        i ← set_remove (insertions (changes b)) move.1 1;
        Some (with_insertions (with_deletions b d) i)
      else Some (with_moves b (moves (changes b) ++ [mkMove move.2 move.1])))
    b (map_to_list (m_move_mapping b));
  Some (with_moves (with_mapping b ∅)
          (merge_sort move_le (moves (changes b)))).

(** [std::remove_if] with a predicate that can fail, then [erase] *)
Fixpoint remove_ifM {A} (p : A → option bool) (l : list A) : option (list A) :=
  match l with
  | [] => Some []
  | x :: l => r ← p x; l ← remove_ifM p l; Some (if (r : bool) then l else x :: l)
  end.

(** The two-sided [for_each_col] of [merge]; both column vectors get the size
    of the longer one. *)
Definition for_each_col2 (f : T → T → option (T * T)) b c :
    option (CollectionChangeBuilder T * CollectionChangeBuilder T) :=
  '(m, m') ← f (modifications (changes b)) (modifications (changes c));
  let b := with_modifications b m in
  let c := with_modifications c m' in
  if m_track_columns b then
    let n := Nat.max (length (columns (changes b))) (length (columns (changes c))) in
    let cb := columns (changes b) ++ replicate (n - length (columns (changes b))) set_nil in
    let cc := columns (changes c) ++ replicate (n - length (columns (changes c))) set_nil in
    l ← mapM (λ p : T * T, f p.1 p.2) (zip cb cc);
    Some (with_columns b l.*1, with_columns c l.*2)
  else Some (b, c).

(** "if (col.contains(from)) other.add(to)" *)
Definition copy_modified (m : Move) (col other : T) : option (T * T) :=
  modified ← set_contains col (from m);
  other ← (if (modified : bool) then set_add other (to m) else Some other);
  Some (col, other).

(** "*it = c.moves.back(); c.moves.pop_back();" *)
Definition swap_remove (i : nat) (l : list Move) : option (list Move) :=
  back ← last l; Some (take (pred (length l)) (<[i := back]> l)).

(** "First update any old moves": [remove_if] over [moves] *)
Fixpoint merge_old_moves (l : list Move) b c :
    option (list Move * CollectionChangeBuilder T * CollectionChangeBuilder T) :=
  match l with
  | [] => Some ([], b, c)
  | old :: l =>
      let i := find_if (λ m, to old =? from m) (moves (changes c)) in
      match moves (changes c) !! i with
      | Some it =>
          '(b, c) ← for_each_col2 (copy_modified it) b c;
          cm ← swap_remove i (moves (changes c));
          '(l, b, c) ← merge_old_moves l b (with_moves c cm);
          Some (mkMove (from old) (to it) :: l, b, c)
      | None =>
          deleted ← set_contains (deletions (changes c)) (to old);
          if (deleted : bool) then merge_old_moves l b c else
          unshifted ← set_unshift (deletions (changes c)) (to old);
          let t := set_shift (insertions (changes c)) unshifted in
          '(l, b, c) ← merge_old_moves l b c;
          Some (mkMove (from old) t :: l, b, c)
      end
  end.

(** The first step of [merge], which loops only if [c] moves rows *)
Definition update_old_moves b c :
    option (CollectionChangeBuilder T * CollectionChangeBuilder T) :=
  if negb (bool_decide (moves (changes c) = [])) || negb (set_empty (deletions (changes c))) ||
     negb (set_empty (insertions (changes c)))
  then '(l, b, c) ← merge_old_moves (moves (changes b)) b c; Some (with_moves b l, c)
  else Some (b, c).

(** "Ignore new moves of rows which were previously inserted" *)
Definition ignore_new_moves b c : option (CollectionChangeBuilder T) :=
  if negb (set_empty (insertions (changes b))) && negb (bool_decide (moves (changes c) = []))
  then cm ← remove_ifM (λ m, set_contains (insertions (changes b)) (from m)) (moves (changes c));
       Some (with_moves c cm)
  else Some c.

(** "Ensure that any previously modified rows which were moved are still
    modified" *)
Definition carry_modifications b c :
    option (CollectionChangeBuilder T * CollectionChangeBuilder T) :=
  if negb (set_empty (modifications (changes b))) && negb (bool_decide (moves (changes c) = []))
  then foldlM (λ '(b, c) m, for_each_col2 (copy_modified m) b c) (b, c) (moves (changes c))
  else Some (b, c).

(** "Update the source position of new moves to compensate for the changes made
    in the old changeset" *)
Definition relocate_sources b c : option (CollectionChangeBuilder T) :=
  if negb (set_empty (deletions (changes b))) || negb (set_empty (insertions (changes b)))
  then cm ← mapM (λ m, u ← set_unshift (insertions (changes b)) (from m);
                       Some (mkMove (set_shift (deletions (changes b)) u) (to m)))
              (moves (changes c));
       Some (with_moves c cm)
  else Some c.

(** The last loop of [merge], over the modifications *)
Definition merge_columns b c :
    option (CollectionChangeBuilder T * CollectionChangeBuilder T) :=
  for_each_col2 (λ col other,
      col ← set_erase_set_at col (deletions (changes c));
      col ← set_shift_for_insert_set_at col (insertions (changes c));
      col ← set_add_set col other;
      Some (col, other)) b c.

Definition merge b c : option (CollectionChangeBuilder T) :=
  if empty (changes c) then Some b else
  if empty (changes b) then Some c else
  ok ← verify b;
  okc ← verify c;
  assert! (ok : bool) && (okc : bool);
  '(b, c) ← update_old_moves b c;
  c ← ignore_new_moves b c;
  '(b, c) ← carry_modifications b c;
  c ← relocate_sources b c;
  let b := with_moves b (moves (changes b) ++ moves (changes c)) in
  d ← set_add_shifted_by (deletions (changes b)) (insertions (changes b)) (deletions (changes c));
  let b := with_deletions b d in
  i ← set_erase_set_at (insertions (changes b)) (deletions (changes c));
  i ← set_insert_set_at i (insertions (changes c));
  let b := with_insertions b i in
  b ← clean_up_stale_moves b;
  '(b, _) ← merge_columns b c;
  ok ← verify b;
  assert! (ok : bool); Some b.

(** The index after the last element, if there is one *)
Definition set_end (s : T) : option Z := snd <$> last (set_ranges s).

(** "empty() || prev(end())->second - 1 <= last_row" *)
Definition ends_by (s : T) (last_row : Z) : bool :=
  match set_end s with Some e => e -w 1 <=? last_row | None => true end.

Definition move_over b (row_ndx last_row : Z) (track_moves : bool) :
    option (CollectionChangeBuilder T) :=
  assert! row_ndx <=? last_row;
  assert! ends_by (insertions (changes b)) last_row;
  assert! ends_by (modifications (changes b)) last_row;
  if row_ndx =? last_row then
    b ← (if track_moves then
           '(i, shifted_from) ← set_erase_or_unshift (insertions (changes b)) row_ndx;
           let b := with_insertions b i in
           b ← (if shifted_from =? npos then Some b else
                '(d, _) ← set_add_shifted (deletions (changes b)) shifted_from;
                Some (with_deletions b d));
           Some (with_mapping b (delete row_ndx (m_move_mapping b)))
         else Some b);
    for_each_col (λ col, set_remove col row_ndx 1) b
  else
  b ← for_each_col (λ col,
    modified ← set_contains col last_row;
    if (modified : bool) then col ← set_remove col last_row 1; set_add col row_ndx
    else set_remove col row_ndx 1) b;
  if negb track_moves then Some b else
  row_is_insertion ← set_contains (insertions (changes b)) row_ndx;
  let last_is_insertion :=
    match set_end (insertions (changes b)) with
    | Some e => e =? last_row +w 1 | None => false end in
  assert_debug! match set_end (insertions (changes b)) with
    | Some e => e <=? last_row +w 1 | None => true end;
  let '(b, last_was_already_moved) :=
    match (if last_is_insertion then m_move_mapping b !! last_row else None) with
    | Some old =>
        (with_mapping b (delete last_row (<[row_ndx := old]> (m_move_mapping b))), true)
    | None => (b, false)
    end in
  let b :=
    if (row_is_insertion : bool) && negb last_was_already_moved
    then with_mapping b (delete row_ndx (m_move_mapping b)) else b in
  b ← (if last_is_insertion then
         i ← set_remove (insertions (changes b)) last_row 1; Some (with_insertions b i)
       else if negb last_was_already_moved then
         u ← set_unshift (insertions (changes b)) last_row;
         '(d, shifted_last_row) ← set_add_shifted (deletions (changes b)) u;
         let b := with_deletions b d in
         Some (with_mapping b (<[row_ndx := shifted_last_row]> (m_move_mapping b)))
       else Some b);
  b ← (if (row_is_insertion : bool) then Some b else
       u ← set_unshift (insertions (changes b)) row_ndx;
       '(d, _) ← set_add_shifted (deletions (changes b)) u;
       i ← set_add (insertions (changes b)) row_ndx;
       Some (with_insertions (with_deletions b d) i));
  ok ← verify b;
  assert! (ok : bool); Some b.

(** "m_move_mapping[key] = deletions.add_shifted(insertions.unshift(ndx));
    insertions.add(ndx);" unless [ndx] is an insertion *)
Definition map_move b (key ndx : Z) : option (CollectionChangeBuilder T) :=
  is_insertion ← set_contains (insertions (changes b)) ndx;
  if (is_insertion : bool) then Some b else
  u ← set_unshift (insertions (changes b)) ndx;
  '(d, shifted) ← set_add_shifted (deletions (changes b)) u;
  let b := with_mapping (with_deletions b d) (<[key := shifted]> (m_move_mapping b)) in
  i ← set_add (insertions (changes b)) ndx;
  Some (with_insertions b i).

(** The lambda [update_move] of [swap] at the mapping [ndx_2 -> original] *)
Definition update_move b (ndx_2' original ndx_1 ndx_2 : Z) : option (CollectionChangeBuilder T) :=
  let b := with_mapping b (<[ndx_1 := original]> (delete ndx_2' (m_move_mapping b))) in
  b ← map_move b ndx_2 ndx_1;
  i ← set_contains (insertions (changes b)) ndx_2;
  assert_debug! i; Some b.

Definition swap b (ndx_1 ndx_2 : Z) (track_moves : bool) : option (CollectionChangeBuilder T) :=
  assert! negb (ndx_1 =? ndx_2);
  let '(ndx_1, ndx_2) := if ndx_2 <? ndx_1 then (ndx_2, ndx_1) else (ndx_1, ndx_2) in
  b ← for_each_col (λ col,
    m1 ← set_contains col ndx_1;
    m2 ← set_contains col ndx_2;
    if Bool.eqb m1 m2 then Some col else
    if (m1 : bool) then col ← set_remove col ndx_1 1; set_add col ndx_2
    else col ← set_remove col ndx_2 1; set_add col ndx_1) b;
  if negb track_moves then Some b else
  match m_move_mapping b !! ndx_1, m_move_mapping b !! ndx_2 with
  | Some o1, Some o2 =>
      Some (with_mapping b (<[ndx_2 := o1]> (<[ndx_1 := o2]> (m_move_mapping b))))
  | Some o1, None => update_move b ndx_1 o1 ndx_2 ndx_1
  | None, Some o2 => update_move b ndx_2 o2 ndx_1 ndx_2
  | None, None => b ← map_move b ndx_1 ndx_2; map_move b ndx_2 ndx_1
  end.

Definition subsume b (old_ndx new_ndx : Z) (track_moves : bool) :
    option (CollectionChangeBuilder T) :=
  assert! negb (old_ndx =? new_ndx);
  b ← for_each_col (λ col,
    modified ← set_contains col old_ndx;
    if (modified : bool) then set_add col new_ndx else Some col) b;
  if negb track_moves then Some b else
  new_is_insertion ← set_contains (insertions (changes b)) new_ndx;
  assert_debug! new_is_insertion;
  assert_debug! bool_decide (m_move_mapping b !! new_ndx = None);
  b ← match m_move_mapping b !! old_ndx with
      | Some old =>
          Some (with_mapping b (delete old_ndx (<[new_ndx := old]> (m_move_mapping b))))
      | None =>
          is_insertion ← set_contains (insertions (changes b)) old_ndx;
          if (is_insertion : bool) then Some b else
          u ← set_unshift (insertions (changes b)) old_ndx;
          Some (with_mapping b (<[new_ndx := set_shift (deletions (changes b)) u]>
                                  (m_move_mapping b)))
      end;
  ok ← verify b;
  assert! (ok : bool); Some b.

Definition insert_column b (ndx : Z) : CollectionChangeBuilder T :=
  let cols := columns (changes b) in
  let n := Z.to_nat ndx in
  if (n <? length cols)%nat then with_columns b (take n cols ++ set_nil :: drop n cols) else b.

(** [std::rotate(first, middle, last)] *)
Definition rotate {A} (first middle last : nat) (l : list A) : list A :=
  take first l ++ drop middle (take last l) ++ drop first (take middle l) ++ drop last l.

Definition move_column b (from_ to_ : Z) : CollectionChangeBuilder T :=
  let f := Z.to_nat from_ in
  let t := Z.to_nat to_ in
  let cols := columns (changes b) in
  if (length cols <=? f)%nat && (length cols <=? t)%nat then b else
  let cols :=
    if (length cols <=? f)%nat || (length cols <=? t)%nat
    then cols ++ replicate (S (Nat.max f t) - length cols) set_nil else cols in
  with_columns b (if (f <? t)%nat then rotate f (S f) (S t) cols else rotate t f (S f) cols).

(** [finalize]: the change set that is reported *)
Definition finalize b : option (CollectionChangeSet T) :=
  let s := changes b in
  in_old ← set_erase_set_at (modifications s) (insertions s);
  in_old ← set_shift_for_insert_set_at in_old (deletions s);
  in_new ← set_remove_set (modifications s) (insertions s);
  Some (mkChangeSet (deletions s) (insertions s) in_old in_new (moves s) (columns s)).
End Operations.
End ChangeBuilder.
