(* ===== verification/ChangeCalc.v ===== *)
(** [CollectionChangeBuilder::calculate] and its helpers
    (ObjectStore/src/impl/collection_change_builder.cpp): the diff of two row
    lists, with and without move candidates. *)
From stdpp Require Import gmap.
From S2P Require Import Prelude ChunkedRangeVector IndexSetSpec ChangeBuilder.

(** [RowInfo] *)
Record RowInfo := mkRowInfo {
  row_index : Z; prev_tv_index : Z; tv_index : Z; shifted_tv_index : Z }.

#[export] Instance RowInfo_eq_dec : EqDecision RowInfo.
Proof. solve_decision. Defined.

(** [LongestCommonSubsequenceCalculator::Row] *)
Record LcsRow := mkLcsRow { lcs_row_index : Z; lcs_tv_index : Z }.

(** [LongestCommonSubsequenceCalculator::Match] *)
Record Match := mkMatch { match_i : Z; match_j : Z; match_size : Z; match_modified : Z }.

(** The orders of the five [std::sort] calls. *)
Definition by_row (x y : RowInfo) : Prop := row_index x ≤ row_index y.
Definition by_tv (x y : RowInfo) : Prop := tv_index x ≤ tv_index y.

(** [std::tie(x1, x2) < std::tie(y1, y2)], as the total order it induces *)
Definition tie_le (x1 x2 y1 y2 : Z) : Prop := x1 < y1 ∨ x1 = y1 ∧ x2 ≤ y2.
Definition lcs_by_tv (x y : LcsRow) : Prop :=
  tie_le (lcs_tv_index x) (lcs_row_index x) (lcs_tv_index y) (lcs_row_index y).
Definition lcs_by_row (x y : LcsRow) : Prop :=
  tie_le (lcs_row_index x) (lcs_tv_index x) (lcs_row_index y) (lcs_tv_index y).

#[export] Instance by_row_dec x y : Decision (by_row x y).
Proof. unfold by_row. apply _. Defined.
#[export] Instance by_tv_dec x y : Decision (by_tv x y).
Proof. unfold by_tv. apply _. Defined.
#[export] Instance lcs_by_tv_dec x y : Decision (lcs_by_tv x y).
Proof. unfold lcs_by_tv, tie_le. apply _. Defined.
#[export] Instance lcs_by_row_dec x y : Decision (lcs_by_row x y).
Proof. unfold lcs_by_row, tie_le. apply _. Defined.

Module ChangeCalc.
Import ChangeBuilder.
Section Operations.
Context {build : Build} {T : Type} {ops : IndexSetOps T}.
Implicit Types (s : CollectionChangeSet T).

(** ** Unsorted views *)

(** One row of [calculate_moves_unsorted]; the state is ([expected],
    [removed], [changeset]). *)
Definition unsorted_step (move_candidates : T) :
    Z * T * CollectionChangeBuilder T → RowInfo → option (Z * T * CollectionChangeBuilder T) :=
  λ '(expected, removed, ret) row,
    if shifted_tv_index row =? expected then Some (expected +w 1, removed, ret) else
    candidate ← set_contains move_candidates (row_index row);
    if negb candidate then Some (shifted_tv_index row +w 1, removed, ret) else
    ci ← set_count (insertions (changes ret)) 0 (tv_index row);
    cr ← set_count removed 0 (prev_tv_index row);
    let calc_expected := (tv_index row -w ci) +w cr in
    if shifted_tv_index row =? calc_expected then Some (calc_expected +w 1, removed, ret) else
    i ← set_add (insertions (changes ret)) (tv_index row);
    removed ← set_add removed (prev_tv_index row);
    let ret := with_insertions ret i in
    Some (expected, removed,
          with_moves ret (moves (changes ret) ++ [mkMove (prev_tv_index row) (tv_index row)])).

Definition calculate_moves_unsorted (new_rows : list RowInfo) (removed move_candidates : T)
    (ret : CollectionChangeBuilder T) : option (T * CollectionChangeBuilder T) :=
  '(_, removed, ret) ← foldlM (unsorted_step move_candidates) (0, removed, ret) new_rows;
  Some (removed, ret).

(** ** The longest common subsequence *)

(** The lambda [length]: the first entry of [prev] that ends at [j - 1] *)
Definition lcs_length (prev : list (Z * Z)) (j : Z) : Z :=
  match prev !! find_if (λ p, p.1 +w 1 =? j) prev with
  | Some p => p.2 +w 1
  | None => 1
  end.

(** [for_each_b_match]: the [j] in [begin2, end2) with the row of [a[i]] *)
Fixpoint b_matches_from (l : list LcsRow) (ai begin2 end2 : Z) : list Z :=
  match l with
  | [] => []
  | it :: l =>
      if lcs_row_index it =? ai then
        let j := lcs_tv_index it in
        if j <? begin2 then b_matches_from l ai begin2 end2
        else if end2 <=? j then []
        else j :: b_matches_from l ai begin2 end2
      else []
  end.

Definition b_matches (a b : list LcsRow) (i begin2 end2 : Z) : option (list Z) :=
  ai ← lcs_row_index <$> a !! Z.to_nat i;
  let it := lower_bound (λ r, Z.ltb (lcs_row_index r) ai) b 0 (length b) in
  r ← b !! it;
  assert! lcs_row_index r =? ai;
  Some (b_matches_from (drop it b) ai begin2 end2).

(** The lambda passed to [for_each_b_match]; the state is ([cur], [best]). *)
Definition match_step (modified : T) (prev : list (Z * Z)) (begin1 end1 begin2 end2 i : Z) :
    list (Z * Z) * Match → Z → option (list (Z * Z) * Match) :=
  λ '(cur, best) j,
    let size := lcs_length prev j in
    let cur := cur ++ [(j, size)] in
    best ←
      (if match_size best <? size then
         Some (mkMatch ((i -w size) +w 1) ((j -w size) +w 1) size npos)
       else if size =? match_size best then
         best ← (if match_modified best =? npos then
                   n ← set_count modified ((match_j best -w size) +w 1) (match_j best +w 1);
                   Some (mkMatch (match_i best) (match_j best) (match_size best) n)
                 else Some best);
         count ← set_count modified ((j -w size) +w 1) (j +w 1);
         Some (if count <? match_modified best
               then mkMatch ((i -w size) +w 1) ((j -w size) +w 1) size count else best)
       else Some best);
    assert! (begin1 <=? match_i best) && (match_i best +w match_size best <=? end1);
    assert! (begin2 <=? match_j best) && (match_j best +w match_size best <=? end2);
    Some (cur, best).

Definition find_longest_match (modified : T) (a b : list LcsRow)
    (begin1 end1 begin2 end2 : Z) : option Match :=
  '(_, best) ← foldlM (λ '(prev, best) i,
      js ← b_matches a b i begin2 end2;
      foldlM (match_step modified prev begin1 end1 begin2 end2 i) ([], best) js)
    ([], mkMatch begin1 begin2 0 0) (seqZ begin1 (end1 - begin1));
  Some best.

(** The recursion of [find_longest_matches]; the matches in order *)
Fixpoint find_longest_matches (fuel : nat) (modified : T) (a b : list LcsRow)
    (begin1 end1 begin2 end2 : Z) : option (list Match) :=
  match fuel with
  | O => None
  | S fuel =>
      m ← find_longest_match modified a b begin1 end1 begin2 end2;
      if match_size m =? 0 then Some [] else
      before ← (if (begin1 <? match_i m) && (begin2 <? match_j m)
                then find_longest_matches fuel modified a b begin1 (match_i m) begin2 (match_j m)
                else Some []);
      after ← (if (match_i m +w match_size m <? end2) && (match_j m +w match_size m <? end2)
               then find_longest_matches fuel modified a b (match_i m +w match_size m) end1
                      (match_j m +w match_size m) end2
               else Some []);
      Some (before ++ m :: after)
  end.

(** The constructor: the matches and the end marker *)
Definition longest_matches (a b : list LcsRow) (start_index : Z) (modified : T) :
    option (list Match) :=
  l ← find_longest_matches (S (length a)) modified a b start_index (Z.of_nat (length a))
        start_index (Z.of_nat (length b));
  Some (l ++ [mkMatch (Z.of_nat (length a)) (Z.of_nat (length b)) 0 0]).

(** One match of the loop that aligns the rows: delete up to [match.i], insert
    up to [match.j], skip the match. *)
Definition align_step (a : list LcsRow) (rows : list RowInfo) :
    Z * Z * CollectionChangeBuilder T → Match → option (Z * Z * CollectionChangeBuilder T) :=
  λ '(i, j, ret) m,
    d ← foldlM (λ d k, r ← a !! Z.to_nat k; set_add d (lcs_tv_index r))
          (deletions (changes ret)) (seqZ i (match_i m - i));
    ins ← foldlM (λ ins k, r ← rows !! Z.to_nat k; set_add ins (tv_index r))
          (insertions (changes ret)) (seqZ j (match_j m - j));
    Some (Z.max i (match_i m) +w match_size m, Z.max j (match_j m) +w match_size m,
          with_insertions (with_deletions ret d) ins).

(** [first_difference] *)
Definition first_difference (a : list LcsRow) (rows : list RowInfo) : option nat :=
  let i := find_if (λ p : LcsRow * RowInfo, negb (lcs_row_index p.1 =? row_index p.2)) (zip a rows) in
  if (i <? length a)%nat then Some i else None.

Definition calculate_moves_sorted (rows : list RowInfo) (ret : CollectionChangeBuilder T) :
    option (CollectionChangeBuilder T) :=
  let a := merge_sort lcs_by_tv ((λ r, mkLcsRow (row_index r) (prev_tv_index r)) <$> rows) in
  match first_difference a rows with
  | None => Some ret
  | Some first =>
      let b := merge_sort lcs_by_row (imap (λ i r, mkLcsRow (row_index r) (Z.of_nat i)) rows) in
      matches ← longest_matches a b (Z.of_nat first) (modifications (changes ret));
      '(_, _, ret) ← foldlM (align_step a rows) (Z.of_nat first, Z.of_nat first, ret) matches;
      Some ret
  end.

(** ** [calculate] *)

(** The rows of the old list: the ones already deleted ([npos]) are recorded
    as such. *)
Definition old_row_step : Z * list RowInfo * T → Z * Z → option (Z * list RowInfo * T) :=
  λ '(deleted, old_rows, d) '(i, row),
    if row =? npos then d ← set_add d i; Some (deleted +w 1, old_rows, d)
    else Some (deleted, old_rows ++ [mkRowInfo row npos i (i -w deleted)], d).

Definition number {A} (l : list A) : list (Z * A) := imap (λ i x, (Z.of_nat i, x)) l.

(** The merge of the old and the new rows, both sorted by row: the new rows
    with their old positions, the positions in the old list only and the
    positions in the new list only. *)
Fixpoint pair_rows (old_rows : list RowInfo) : list RowInfo → T → T → option (list RowInfo * T * T) :=
  fix go new_rows removed ins :=
    match old_rows, new_rows with
    | o :: old', n :: new' =>
        if row_index o =? row_index n then
          '(l, removed, ins) ← pair_rows old' new' removed ins;
          Some (mkRowInfo (row_index n) (tv_index o) (tv_index n) (shifted_tv_index o) :: l,
                removed, ins)
        else if row_index o <? row_index n then
          removed ← set_add removed (tv_index o);
          pair_rows old' new_rows removed ins
        else
          ins ← set_add ins (tv_index n);
          '(l, removed, ins) ← go new' removed ins;
          Some (n :: l, removed, ins)
    | _, _ =>
        removed ← foldlM (λ d o, set_add d (tv_index o)) removed old_rows;
        ins ← foldlM (λ d n, set_add d (tv_index n)) ins new_rows;
        Some (new_rows, removed, ins)
    end.

(** "applying the calculated change to prev_rows": erase the deleted ranges
    from the last to the first, insert the new rows in order. *)
Definition apply_change (s : CollectionChangeSet T) (prev_rows next_rows : list Z)
    : option (list Z) :=
  rows ← foldlM (λ rows r,
      assert! (r.2 <=? Z.of_nat (length rows));
      Some (take (Z.to_nat r.1) rows ++ drop (Z.to_nat r.2) rows))
    prev_rows (rev (set_ranges (deletions s)));
  foldlM (λ rows i,
      x ← next_rows !! Z.to_nat i;
      vector_insert (Z.to_nat i) x rows)
    rows (IndexSet.indexes (set_ranges (insertions s))).

(** [std::is_sorted] *)
Fixpoint is_sorted (l : list Z) : bool :=
  match l with
  | x :: ((y :: _) as l') => (x <=? y) && is_sorted l'
  | _ => true
  end.

Definition calculate (prev_rows next_rows : list Z) (row_did_change : Z → bool)
    (move_candidates : option T) : option (CollectionChangeBuilder T) :=
  assert_debug! match move_candidates with Some _ => is_sorted next_rows | None => true end;
  '(_, old_rows, d) ← foldlM old_row_step (0, [], set_nil) (number prev_rows);
  let old_rows := merge_sort by_row old_rows in
  let new_rows := merge_sort by_row
    ((λ p, mkRowInfo p.2 npos p.1 0) <$> number next_rows) in
  '(new_rows, removed, i) ← pair_rows old_rows new_rows set_nil set_nil;
  let new_rows := merge_sort by_tv (filter (λ r, prev_tv_index r ≠ npos) new_rows) in
  m ← foldlM (λ m r, if row_did_change (row_index r) then set_add m (tv_index r) else Some m)
        set_nil new_rows;
  let ret := mkChangeBuilder (mkChangeSet d i m set_nil [] []) ∅ true in
  '(removed, ret) ←
    match move_candidates with
    | Some candidates => calculate_moves_unsorted new_rows removed candidates ret
    | None => ret ← calculate_moves_sorted new_rows ret; Some (removed, ret)
    end;
  d ← set_add_set (deletions (changes ret)) removed;
  let ret := with_deletions ret d in
  ok ← verify ret;
  assert! (ok : bool);
  if REALM_DEBUG then
    rows ← apply_change (changes ret) prev_rows next_rows;
    assert! bool_decide (rows = next_rows); Some ret
  else Some ret.
End Operations.
End ChangeCalc.
