(* ===== verification/ChangeTheory.v ===== *)
(** Correctness of the change builder: a builder describes where every row of
    the old collection is in the new one; each operation composes that map
    with its own effect on positions. *)
From stdpp Require Import gmap.
From S2P Require Import Prelude ChunkedRangeVector IndexSet IndexSetTheory IndexSetMerge IndexSetSpec RowMap ChangeBuilder.
Import ChangeBuilder.

Section Rows.
Context {T : Type} {ops : IndexSetOps T} {laws : IndexSetLaws T}.
Implicit Types (d i : T) (mv : list Move).

(** ** Where a row goes

    A row is either moved explicitly, or it is kept: outside the deletions and
    the insertions positions correspond by their rank. *)
Definition kept d i (o t : Z) : Prop :=
  ¬ has d o ∧ ¬ has i t ∧ unshifted d o = unshifted i t.

Definition row_to d i mv (o t : Z) : Prop :=
  0 ≤ o ∧ 0 ≤ t ∧ (mkMove o t ∈ mv ∨ kept d i o t).

(** Every move is a deletion and an insertion, and no row is moved twice. *)
Definition moves_wf d i mv : Prop :=
  (∀ m, m ∈ mv → has d (from m) ∧ has i (to m)) ∧ NoDup (from <$> mv) ∧ NoDup (to <$> mv).

Definition rows_wf d i mv : Prop := set_wf d ∧ set_wf i ∧ moves_wf d i mv.

(** ** Positions through an insertion *)
Definition insert_pos (index count p : Z) : Z := if decide (p < index) then p else p + count.

Lemma inserted_pos i i' index count t :
  0 < count → (∀ x, has i' x ↔ inserted (has i) index count x) →
  has i' (insert_pos index count t) ↔ has i t.
Proof.
  intros Hc Hm. rewrite Hm. unfold inserted, insert_pos. case_decide.
  - intuition lia.
  - replace (t + count - count) with t by lia. intuition lia.
Qed.

Lemma unshifted_inserted i i' index count t :
  set_wf i → set_wf i' → 0 ≤ index → 0 < count → 0 ≤ t →
  (∀ x, has i' x ↔ inserted (has i) index count x) →
  unshifted i' (insert_pos index count t) = unshifted i t.
Proof.
  intros Hi Hi' Hx Hc Ht Hm. unfold unshifted, insert_pos.
  case_decide.
  - rewrite (rank_inserted i i' index count) by (done || lia). rewrite decide_True by lia. done.
  - rewrite (rank_inserted i i' index count) by (done || lia). rewrite decide_False by lia.
    case_decide; [replace t with index by lia; lia|].
    replace (t + count - count) with t by lia. lia.
Qed.

(** The positions that are not new come from before the insertion. *)
Lemma insert_pos_surj i i' index count t :
  (∀ x, has i' x ↔ inserted (has i) index count x) → 0 ≤ t → 0 ≤ index → ¬ has i' t →
  ∃ t0, 0 ≤ t0 ∧ t = insert_pos index count t0.
Proof.
  intros Hm Ht Hi Hn. rewrite Hm in Hn. unfold inserted in Hn. unfold insert_pos.
  destruct (decide (t < index)).
  - exists t. split; [done|]. by rewrite decide_True.
  - exists (t - count). split; [lia|]. rewrite decide_False by lia. lia.
Qed.

Lemma insert_pos_inj index count p q :
  0 < count → insert_pos index count p = insert_pos index count q → p = q.
Proof. unfold insert_pos. intros. repeat case_decide; lia. Qed.

Lemma kept_inserted d i i' index count o t :
  set_wf i → set_wf i' → 0 ≤ index → 0 < count → 0 ≤ t →
  (∀ x, has i' x ↔ inserted (has i) index count x) →
  kept d i' o t ↔ ∃ t0, 0 ≤ t0 ∧ kept d i o t0 ∧ t = insert_pos index count t0.
Proof.
  intros Hi Hi' Hx Hc Ht Hm. unfold kept. split.
  - intros (Ho&Hn&Heq). destruct (insert_pos_surj i i' index count t Hm) as (t0&Ht0&->); [done..|].
    exists t0. rewrite (inserted_pos i i') in Hn by done.
    rewrite (unshifted_inserted i i') in Heq by done. done.
  - intros (t0&Ht0&(Ho&Hn&Heq)&->). rewrite (inserted_pos i i') by done.
    by rewrite (unshifted_inserted i i') by done.
Qed.

(** ** Positions through an erasure *)
Definition erase_pos (index p : Z) : Z := if decide (index < p) then p - 1 else p.

Lemma erased_pos i i' index t :
  (∀ x, has i' x ↔ erased (has i) index x) → t ≠ index →
  has i' (erase_pos index t) ↔ has i t.
Proof.
  intros Hm Hne. rewrite Hm. unfold erased, erase_pos. case_decide.
  - replace (t - 1 + 1) with t by lia. intuition lia.
  - intuition lia.
Qed.

Lemma unshifted_erased i i' index t :
  set_wf i → set_wf i' → 0 ≤ index → 0 ≤ t → t ≠ index →
  (∀ x, has i' x ↔ erased (has i) index x) →
  unshifted i' (erase_pos index t) =
    unshifted i t - (if decide (has i index) then 0 else if decide (index < t) then 1 else 0).
Proof.
  intros Hi Hi' Hx Ht Hne Hm. unfold unshifted, erase_pos.
  pose proof (rank_succ i index Hi) as Hs.
  destruct (decide (index < t)).
  - rewrite (rank_erased i i' index) by (done || lia). destruct (decide (t - 1 ≤ index)).
    + replace (t - 1) with index by lia. replace t with (index + 1) by lia.
      repeat case_decide; lia.
    + replace (t - 1 + 1) with t by lia. repeat case_decide; lia.
  - rewrite (rank_erased i i' index) by (done || lia). rewrite decide_True by lia.
    repeat case_decide; lia.
Qed.

Lemma erase_pos_surj index t : ∃ t0, t0 ≠ index ∧ (0 ≤ t → 0 ≤ index → 0 ≤ t0) ∧ t = erase_pos index t0.
Proof.
  destruct (decide (t < index)).
  - exists t. unfold erase_pos. rewrite decide_False by lia. lia.
  - exists (t + 1). unfold erase_pos. rewrite decide_True by lia. lia.
Qed.

Lemma erase_pos_inj index p q :
  p ≠ index → q ≠ index → erase_pos index p = erase_pos index q → p = q.
Proof. unfold erase_pos. intros. repeat case_decide; lia. Qed.

(** What the deletions become when the row at [index] goes away: unchanged if
    it is an insertion, else one more, the old position of that row. *)
Definition deleted_row d d' i (index : Z) : Prop :=
  if decide (has i index) then ∀ x, has d' x ↔ has d x
  else ∃ o, 0 ≤ o ∧ ¬ has d o ∧ unshifted d o = unshifted i index ∧
         ∀ x, has d' x ↔ has d x ∨ x = o.

Lemma kept_erased_pos d d' i i' index o t :
  set_wf d → set_wf d' → set_wf i → set_wf i' → 0 ≤ index → 0 ≤ o → 0 ≤ t → t ≠ index →
  (∀ x, has i' x ↔ erased (has i) index x) → deleted_row d d' i index →
  kept d' i' o (erase_pos index t) ↔ kept d i o t.
Proof.
  intros Hd Hd' Hi Hi' Hx Ho Ht Hne Hm Hdel. unfold kept.
  rewrite (erased_pos i i') by done. rewrite (unshifted_erased i i') by done.
  unfold deleted_row in Hdel. destruct (decide (has i index)) as [Hin|Hin].
  - unfold unshifted. rewrite (rank_ext d' d) by done. rewrite Hdel, Z.sub_0_r. done.
  - destruct Hdel as (o'&Ho'&Hn'&Heq'&Hdm). rewrite Hdm.
    assert (unshifted d' o = unshifted d o - (if decide (o' < o) then 1 else 0)) as ->.
    { unfold unshifted. rewrite (rank_added d d' o') by done. lia. }
    assert (¬ has i t → (index < t ↔ unshifted i index < unshifted i t) ∧
      unshifted i index ≠ unshifted i t) as Hcmp.
    { intros Hnt. pose proof (unshifted_inj i index t Hi Hin Hnt) as Hinj.
      pose proof (unshifted_lt_iff i index t Hi Hnt). pose proof (unshifted_lt_iff i t index Hi Hin).
      split; [|intros E; apply Hinj in E; lia]. split; [intros; apply unshifted_lt; done|lia]. }
    assert (¬ has d o → o ≠ o' → (o' < o ↔ unshifted i index < unshifted d o) ∧
      unshifted i index ≠ unshifted d o) as Hcmp'.
    { intros Hno Hoo. pose proof (unshifted_inj d o' o Hd Hn' Hno) as Hinj.
      pose proof (unshifted_lt_iff d o o' Hd Hn'). rewrite Heq' in *.
      split; [|intros E; apply Hinj in E; lia].
      split; [intros; rewrite <-Heq'; apply unshifted_lt; done|lia]. }
    split.
    + intros (Hno&Hnt&Heq). destruct Hcmp as [Hc1 Hc2]; [done|].
      destruct Hcmp' as [Hc3 Hc4]; [tauto|intros ->; tauto|]. split_and!; [tauto|done|].
      repeat case_decide; lia.
    + intros (Hno&Hnt&Heq). destruct Hcmp as [Hc1 Hc2]; [done|].
      assert (o ≠ o') as Hoo by (intros ->; congruence).
      destruct Hcmp' as [Hc3 Hc4]; [done|done|]. split_and!; [tauto|done|].
      repeat case_decide; lia.
Qed.

Lemma kept_erased d d' i i' index o t :
  set_wf d → set_wf d' → set_wf i → set_wf i' → 0 ≤ index → 0 ≤ o → 0 ≤ t →
  (∀ x, has i' x ↔ erased (has i) index x) → deleted_row d d' i index →
  kept d' i' o t ↔ ∃ t0, 0 ≤ t0 ∧ kept d i o t0 ∧ t0 ≠ index ∧ t = erase_pos index t0.
Proof.
  intros Hd Hd' Hi Hi' Hx Ho Ht Hm Hdel. split.
  - intros Hk. destruct (erase_pos_surj index t) as (t0&Hne&Ht0&->).
    exists t0. rewrite (kept_erased_pos d d' i i') in Hk by auto. auto.
  - intros (t0&Ht0&Hk&Hne&->). by rewrite (kept_erased_pos d d' i i') by auto.
Qed.
End Rows.

(** ** Moves through the updates of [erase] and [move] *)
Section Moves.
Context {T : Type} {ops : IndexSetOps T} {laws : IndexSetLaws T}.
Implicit Types (d i : T) (mv : list Move).

Lemma erase_moves_spec mv index :
  0 ≤ index → (∀ m, m ∈ mv → 0 ≤ to m < npos) →
  erase_moves mv index =
    (λ m, mkMove (from m) (erase_pos index (to m))) <$> filter (λ m, to m ≠ index) mv.
Proof.
  intros Hi. induction mv as [|m mv IH]; intros Hm; [done|]. simpl. rewrite filter_cons.
  rewrite IH by (intros; apply Hm; by constructor).
  specialize (Hm m ltac:(constructor)). destruct (Z.eqb_spec (to m) index) as [E|E].
  - by rewrite decide_False by tauto.
  - rewrite decide_True by done. simpl. unfold erase_pos. destruct (Z.ltb_spec index (to m)).
    + rewrite decide_True by done. by rewrite wsub_small by lia.
    + rewrite decide_False by lia. by destruct m.
Qed.

(** Relocating the destinations with an injective function keeps the moves
    well-formed. *)
Lemma moves_wf_fmap d d' i i' mv (P : Z → Prop) (f : Z → Z) `{∀ x, Decision (P x)} :
  moves_wf d i mv → (∀ x, has d x → has d' x) → (∀ m, m ∈ mv → P (to m) → has i' (f (to m))) →
  (∀ p q, P p → P q → f p = f q → p = q) →
  moves_wf d' i' ((λ m, mkMove (from m) (f (to m))) <$> filter (λ m, P (to m)) mv).
Proof.
  intros (Hm&Hf&Ht) Hd Hi Hinj. split_and!.
  - intros m (m0&->&[HP Hin]%list_elem_of_filter)%list_elem_of_fmap. simpl.
    split; [by apply Hd, Hm|by apply Hi].
  - clear -Hf. induction mv as [|m mv IH]; [constructor|]. simpl in Hf.
    apply NoDup_cons in Hf as [Hn Hf]. rewrite filter_cons. case_decide; [|by apply IH].
    simpl. apply NoDup_cons. split; [|by apply IH].
    intros (m1&Hm1&(m2&->&[_ Hin]%list_elem_of_filter)%list_elem_of_fmap)%list_elem_of_fmap.
    simpl in Hm1. apply Hn. rewrite Hm1. by apply list_elem_of_fmap_2.
  - clear Hm Hi Hf. induction mv as [|m mv IH]; [constructor|]. simpl in Ht.
    apply NoDup_cons in Ht as [Hn Ht]. rewrite filter_cons. destruct (decide (P (to m))) as [HP|]; [|by apply IH].
    simpl. apply NoDup_cons. split; [|by apply IH].
    intros (m1&Hm1&(m2&->&[HP2 Hin]%list_elem_of_filter)%list_elem_of_fmap)%list_elem_of_fmap.
    simpl in Hm1. apply Hn. rewrite (Hinj _ _ HP HP2 Hm1). by apply list_elem_of_fmap_2.
Qed.

Lemma row_to_fmap d d' i i' mv (P : Z → Prop) (f : Z → Z) `{∀ x, Decision (P x)} :
  moves_wf d i mv → set_wf d → set_wf i →
  (∀ o t, 0 ≤ o → 0 ≤ t → kept d' i' o t ↔ ∃ t0, 0 ≤ t0 ∧ kept d i o t0 ∧ P t0 ∧ t = f t0) →
  (∀ p, 0 ≤ p → P p → 0 ≤ f p) →
  ∀ o t, row_to d' i' ((λ m, mkMove (from m) (f (to m))) <$> filter (λ m, P (to m)) mv) o t ↔
    ∃ t0, row_to d i mv o t0 ∧ P t0 ∧ t = f t0.
Proof.
  intros (Hm&_) Hd Hi Hk Hf o t. unfold row_to. split.
  - intros (Ho&Ht&[(m&Heq&[HP Hin]%list_elem_of_filter)%list_elem_of_fmap|Hkept]).
    + simplify_eq. exists (to m). destruct (Hm m Hin) as [_ Hti].
      apply has_range in Hti; [|done]. split_and!; [done|lia| |done|done]. left. by destruct m.
    + apply Hk in Hkept as (t0&?&?&?&?); [|done..]. exists t0. split_and!; try done. by right.
  - intros (t0&(Ho&Ht0&[Hin|Hkept])&HP&->).
    + split_and!; [done|by apply Hf|]. left. apply list_elem_of_fmap. exists (mkMove o t0). split; [done|].
      by apply list_elem_of_filter.
    + split_and!; [done|by apply Hf|]. right. apply Hk; [done|by apply Hf|]. eauto.
Qed.

(** The same for all moves. *)
Lemma filter_true {A} (l : list A) : @filter _ _ _ (λ _ : A, True) (λ _, left I) l = l.
Proof. induction l as [|x l IH]; [done|]. rewrite filter_cons. simpl. by rewrite IH. Qed.

Lemma moves_wf_relocate d d' i i' mv (f : Z → Z) :
  moves_wf d i mv → (∀ x, has d x → has d' x) → (∀ m, m ∈ mv → has i' (f (to m))) →
  (∀ p q, f p = f q → p = q) →
  moves_wf d' i' ((λ m, mkMove (from m) (f (to m))) <$> mv).
Proof.
  intros Hmv Hd Hi Hinj.
  pose proof (@moves_wf_fmap d d' i i' mv (λ _, True) f (λ _, left I) Hmv Hd) as H.
  rewrite filter_true in H. apply H; auto.
Qed.

Lemma row_to_relocate d d' i i' mv (f : Z → Z) :
  moves_wf d i mv → set_wf d → set_wf i →
  (∀ o t, 0 ≤ o → 0 ≤ t → kept d' i' o t ↔ ∃ t0, 0 ≤ t0 ∧ kept d i o t0 ∧ t = f t0) →
  (∀ p, 0 ≤ p → 0 ≤ f p) →
  ∀ o t, row_to d' i' ((λ m, mkMove (from m) (f (to m))) <$> mv) o t ↔
    ∃ t0, row_to d i mv o t0 ∧ t = f t0.
Proof.
  intros Hmv Hd Hi Hk Hf o t.
  pose proof (@row_to_fmap d d' i i' mv (λ _, True) f (λ _, left I) Hmv Hd Hi) as H.
  rewrite filter_true in H. rewrite H; [|intros o' t' Ho' Ht'; rewrite Hk by done|by auto].
  - split; intros (t0&?); exists t0; tauto.
  - split; intros (t0&?); exists t0; tauto.
Qed.

(** *** [move] *)
Definition move_pos (from_ to_ p : Z) : Z :=
  if decide (p = from_) then to_ else insert_pos to_ 1 (erase_pos from_ p).

Lemma move_other_spec from_ to_ m :
  0 ≤ to m < npos → to m ≠ from_ → from_ ≠ to_ → 0 ≤ from_ ≤ npos → 0 ≤ to_ ≤ npos →
  move_other from_ to_ m = mkMove (from m) (move_pos from_ to_ (to m)).
Proof.
  intros Hm Hne Hft Hf Ht. unfold move_other, move_pos, insert_pos, erase_pos.
  rewrite (decide_False (P := to m = from_)) by done.
  destruct (Z.leb_spec to_ (to m)), (Z.ltb_spec (to m) from_); simpl;
    try (rewrite wadd_small by lia);
    [|destruct (Z.leb_spec (to m) to_), (Z.ltb_spec from_ (to m)); simpl; try (rewrite wsub_small by lia)..].
  all: repeat case_decide; try lia; destruct m; simpl in *; f_equal; lia.
Qed.

Lemma move_pos_inj from_ to_ p q :
  move_pos from_ to_ p = move_pos from_ to_ q → p = q.
Proof. unfold move_pos, insert_pos, erase_pos. intros. repeat case_decide; lia. Qed.

Lemma move_pos_nonneg from_ to_ p : 0 ≤ from_ → 0 ≤ to_ → 0 ≤ p → 0 ≤ move_pos from_ to_ p.
Proof. unfold move_pos, insert_pos, erase_pos. intros. repeat case_decide; lia. Qed.
End Moves.

(** ** The builder *)
Section BuilderOperations.
Context {build : Build} {T : Type} {ops : IndexSetOps T} {laws : IndexSetLaws T}.
Implicit Types (b : CollectionChangeBuilder T) (d i : T).

(** The invariant of a builder *)
Definition builder_ok b : Prop :=
  rows_wf (deletions (changes b)) (insertions (changes b)) (moves (changes b)) ∧
  set_wf (modifications (changes b)) ∧ Forall set_wf (columns (changes b)).

Definition rows b : Z → Z → Prop :=
  row_to (deletions (changes b)) (insertions (changes b)) (moves (changes b)).

(** Room for [n] more rows in the sets that shift. *)
Definition fits b (n : Z) : Prop :=
  bound (insertions (changes b)) + n ≤ npos ∧ bound (modifications (changes b)) + n ≤ npos ∧
  Forall (λ c, bound c + n ≤ npos) (columns (changes b)).

(** The modified rows of [b'] are those of [b] under [R], for the whole rows
    and for every tracked column. *)
Definition cols_image (R : (Z → Prop) → Z → Prop) b b' : Prop :=
  (∀ x, has (modifications (changes b')) x ↔ R (has (modifications (changes b))) x) ∧
  if m_track_columns b
  then Forall2 (λ c c', ∀ x, has c' x ↔ R (has c) x) (columns (changes b)) (columns (changes b'))
  else columns (changes b') = columns (changes b).

Lemma mapM_yields (f : T → option T) (R : (Z → Prop) → Z → Prop) (Q : T → Prop) cols :
  (∀ c, set_wf c → Q c → yields set_wf (f c) (R (has c))) → Forall set_wf cols → Forall Q cols →
  ∃ cols', mapM f cols = Some cols' ∧ Forall set_wf cols' ∧
    Forall2 (λ c c', ∀ x, has c' x ↔ R (has c) x) cols cols'.
Proof.
  intros Hf Hwf HQ. induction cols as [|c cols IH]; [by exists []|].
  apply Forall_cons in Hwf as [Hc Hwf], HQ as [Hq HQ].
  destruct IH as (cols'&Heq&?&?); [done..|]. destruct (Hf c Hc Hq) as (c'&Hc'&?&?).
  exists (c' :: cols'). split; [|by auto]. cbn [mapM]. rewrite Hc'. cbn [mbind option_bind].
  by rewrite Heq.
Qed.

Lemma for_each_col_ok f R (Q : T → Prop) b :
  (∀ c, set_wf c → Q c → yields set_wf (f c) (R (has c))) →
  set_wf (modifications (changes b)) → Forall set_wf (columns (changes b)) →
  Q (modifications (changes b)) → Forall Q (columns (changes b)) →
  ∃ b', for_each_col f b = Some b' ∧ deletions (changes b') = deletions (changes b) ∧
    insertions (changes b') = insertions (changes b) ∧ moves (changes b') = moves (changes b) ∧
    m_move_mapping b' = m_move_mapping b ∧
    m_track_columns b' = m_track_columns b ∧ set_wf (modifications (changes b')) ∧
    Forall set_wf (columns (changes b')) ∧ cols_image R b b'.
Proof.
  intros Hf Hm Hc HQm HQc. unfold for_each_col.
  destruct (Hf _ Hm HQm) as (m'&->&?&?). cbn [mbind option_bind].
  destruct (mapM_yields f R Q _ Hf Hc HQc) as (cols'&Hcols&?&?).
  destruct b as [s mm [|]]; simpl in *.
  - rewrite Hcols. eexists; split_and!; try done.
  - eexists; split_and!; try done.
Qed.

(** *** [insert] *)
Lemma insert_changes b index count :
  builder_ok b → fits b count → 0 ≤ index → 0 < count → index + count ≤ npos →
  ∃ b', ChangeBuilder.insert b index count true = Some b' ∧ builder_ok b' ∧
    (∀ o t, rows b' o t ↔ ∃ t0, rows b o t0 ∧ t = insert_pos index count t0) ∧
    (∀ x, has (insertions (changes b')) x ↔
      inserted (has (insertions (changes b))) index count x) ∧
    cols_image (λ P, shifted_for P index count) b b' ∧ deletions (changes b') = deletions (changes b) ∧
    m_track_columns b' = m_track_columns b.
Proof.
  intros [(Hd&Hi&Hmv) [Hm Hc]] (Fi&Fm&Fc) Hx Hn Hmax. unfold ChangeBuilder.insert.
  assert ((count =? 0) = false) as -> by lia. simpl.
  destruct (for_each_col_ok (λ col, set_shift_for_insert_at col index count)
    (λ P, shifted_for P index count) (λ c, bound c + count ≤ npos) b)
    as (b1&->&Hd1&Hi1&Hmv1&_&Ht1&Hm1&Hc1&Him); [|done..|].
  { intros c Hwc Hb. by apply law_shift_for_insert_at. }
  cbn [mbind option_bind]. rewrite Hi1.
  destruct (law_insert_at (insertions (changes b)) index count) as (i'&->&Hi'&Him'); [done..|].
  cbn [mbind option_bind]. set (b2 := with_insertions b1 i').
  set (mv' := (λ m, if index <=? to m then mkMove (from m) (to m +w count) else m)
    <$> moves (changes b2)).
  assert (mv' = (λ m, mkMove (from m) (insert_pos index count (to m))) <$>
    moves (changes b)) as Hmv'.
  { unfold mv', b2. simpl. rewrite Hmv1. destruct Hmv as [Hmv _].
    rewrite <-Hd1, <-Hi1 in Hmv. clear - Hmv Hi Hn Fi Hi1.
    assert (∀ m, m ∈ moves (changes b) → 0 ≤ to m ∧ to m + count ≤ npos) as Hto.
    { intros m Hin. destruct (Hmv m Hin) as [_ Hh]. rewrite Hi1 in Hh.
      pose proof (has_bound _ _ Hi Hh). apply has_range in Hh; [lia|done]. }
    clear Hmv. induction (moves (changes b)) as [|m mv IH]; [done|].
    rewrite !fmap_cons.
    f_equal; [|apply IH; intros; apply Hto; by constructor].
    specialize (Hto m ltac:(constructor)). unfold insert_pos. destruct (Z.leb_spec index (to m)).
    - rewrite decide_False by lia. by rewrite wadd_small by lia.
    - rewrite decide_True by lia. by destruct m. }
  assert (builder_ok (with_moves b2 mv')) as Hok.
  { split; [|by simpl]. simpl. rewrite Hd1. split_and!; [done|done|]. rewrite Hmv'.
    apply (moves_wf_relocate (deletions (changes b)) _ (insertions (changes b))); try done.
    - intros m Hin. rewrite inserted_pos by done. by apply Hmv.
    - intros p q. by apply insert_pos_inj. }
  assert (∀ o t, rows (with_moves b2 mv') o t ↔ ∃ t0, rows b o t0 ∧ t = insert_pos index count t0) as Hrows.
  { intros o t. unfold rows. simpl. rewrite Hd1, Hmv'.
    apply (row_to_relocate (deletions (changes b)) _ (insertions (changes b))); [done..| |].
    - intros o' t' _ Ht'. by apply kept_inserted.
    - intros p ?. unfold insert_pos. case_decide; lia. }
  case_bool_decide.
  - eexists; split_and!; done.
  - eexists; split_and!; done.
Qed.

(** *** [erase] *)
Lemma erase_or_unshift_row d i index :
  set_wf d → set_wf i → 0 ≤ index → index + size d < npos →
  ∃ i' d', set_wf i' ∧ set_wf d' ∧ (∀ x, has i' x ↔ erased (has i) index x) ∧
    deleted_row d d' i index ∧
    if decide (has i index) then set_erase_or_unshift i index = Some (i', npos) ∧ d' = d
    else ∃ u o, u ≠ npos ∧ set_erase_or_unshift i index = Some (i', u) ∧
           set_add_shifted d u = Some (d', o) ∧ 0 ≤ o ∧ ¬ has d o ∧
           unshifted d o = unshifted i index ∧ (∀ x, has d' x ↔ has d x ∨ x = o).
Proof.
  intros Hd Hi Hx Hmax. pose proof (size_bounds d Hd) as [? _].
  destruct (law_erase_or_unshift i index Hi) as (i'&He&Hi'&Hm); [lia|].
  unfold deleted_row. destruct (decide (has i index)) as [Hin|Hin].
  { exists i', d. done. }
  pose proof (rank_bounds i index Hi) as [? ?].
  destruct (law_add_shifted d (index - rank i index) Hd) as (d'&o&Ha&Hd'&Hn&Ho&Hm'); [lia|lia|].
  assert (0 ≤ o) by (pose proof (rank_bounds d o Hd); lia).
  assert (unshifted d o = unshifted i index) by (unfold unshifted; lia).
  exists i', d'. split_and!; [done|done|done| |].
  - exists o. done.
  - exists (index - rank i index), o. split_and!; try done. lia.
Qed.

Lemma erase_changes b index :
  builder_ok b → 0 ≤ index → index + size (deletions (changes b)) < npos →
  ∃ b', ChangeBuilder.erase b index = Some b' ∧ builder_ok b' ∧
    (∀ o t, rows b' o t ↔ ∃ t0, rows b o t0 ∧ t0 ≠ index ∧ t = erase_pos index t0) ∧
    cols_image (λ P, erased P index) b b' ∧
    (∀ x, has (insertions (changes b')) x ↔ erased (has (insertions (changes b))) index x) ∧
    deleted_row (deletions (changes b)) (deletions (changes b')) (insertions (changes b)) index ∧
    m_track_columns b' = m_track_columns b.
Proof.
  intros [(Hd&Hi&Hmv) [Hm Hc]] Hx Hmax. unfold ChangeBuilder.erase.
  destruct (for_each_col_ok (λ col, set_erase_at col index) (λ P, erased P index) (λ _, True) b)
    as (b1&->&Hd1&Hi1&Hmv1&_&Ht1&Hm1&Hc1&Him); [|done..|by apply Forall_true|].
  { intros c Hwc _. by apply law_erase_at. }
  cbn [mbind option_bind]. rewrite Hi1.
  destruct (erase_or_unshift_row (deletions (changes b)) (insertions (changes b)) index)
    as (i'&d'&Hi'&Hd'&Him'&Hdel&Hcase); [done..|].
  set (mv' := erase_moves (moves (changes b)) index).
  assert (mv' = (λ m, mkMove (from m) (erase_pos index (to m))) <$>
    filter (λ m, to m ≠ index) (moves (changes b))) as Hmv'.
  { apply erase_moves_spec; [done|]. intros m Hin. apply (has_range (insertions (changes b))); [done|].
    by apply Hmv. }
  set (s' := mkChangeSet d' i' (modifications (changes b1)) (modifications_new (changes b1)) mv' (columns (changes b1))).
  assert (∃ mm, (b1 ← (if (if decide (has (insertions (changes b)) index) then true else false)
     then Some (with_insertions b1 i') else Some (with_deletions (with_insertions b1 i') d'));
     Some (with_moves b1 (erase_moves (moves (changes b1)) index))) = Some (mkChangeBuilder s' mm (m_track_columns b1))) as (mm&Hres).
  { exists (m_move_mapping b1). unfold s', mv'. rewrite <-Hmv1.
    destruct (decide _); simpl; [|done]. destruct Hcase as [_ ->]. by rewrite <-Hd1. }
  exists (mkChangeBuilder s' mm (m_track_columns b1)). split_and!; [| | |done|done|done|done].
  - destruct (decide _) as [Hin|Hin].
    + destruct Hcase as [-> ->]. cbn [mbind option_bind]. by rewrite Z.eqb_refl.
    + destruct Hcase as (u&o&Hu&->&Ha&_). cbn [mbind option_bind].
      rewrite (proj2 (Z.eqb_neq u npos) Hu). simpl. rewrite Hd1, Ha. simpl. done.
  - split; [|by simpl]. simpl. split_and!; [done|done|]. rewrite Hmv'.
    pose proof (moves_wf_fmap (deletions (changes b)) d' (insertions (changes b)) i'
      (moves (changes b)) (λ p, p ≠ index) (erase_pos index) Hmv) as Hwf. apply Hwf.
    + intros x Hhx. unfold deleted_row in Hdel. destruct (decide _); [by apply Hdel|].
      destruct Hdel as (o&_&_&_&Hdm). apply Hdm. by left.
    + intros m Hin Hne. rewrite erased_pos by done. by apply Hmv.
    + intros p q. apply erase_pos_inj.
  - intros o t. unfold rows. simpl. rewrite Hmv'.
    pose proof (row_to_fmap (deletions (changes b)) d' (insertions (changes b)) i'
      (moves (changes b)) (λ p, p ≠ index) (erase_pos index) Hmv Hd Hi) as Hrow. apply Hrow.
    + intros o' t' Ho' Ht'. by apply kept_erased.
    + intros p ? _. unfold erase_pos. destruct (decide (index < p)); lia.
Qed.
End BuilderOperations.

(** *** [move] on the builder *)
Section MoveOperation.
Context {build : Build} {T : Type} {ops : IndexSetOps T} {laws : IndexSetLaws T}.
Implicit Types (b : CollectionChangeBuilder T) (d i : T).

Lemma bound_le s n :
  set_wf s → (∀ x, has s x → x < n) → -1 ≤ n → bound s ≤ n.
Proof.
  intros Hs Hx Hn. unfold bound. pose proof (law_ranges s Hs) as Hok. unfold has in Hx.
  destruct (decide (set_ranges s = [])) as [->|Hne]; [done|].
  destruct (destruct_last _ Hne) as (rs&r&Heq). rewrite Heq in *. rewrite hi_of_snoc.
  apply ranges_ok_app in Hok as [_ (?&?&_)].
  specialize (Hx (r.2 - 1)). rewrite mem_app in Hx. simpl in Hx. lia.
Qed.

Lemma erased_bound s s' index :
  set_wf s → set_wf s' → (∀ x, has s' x ↔ erased (has s) index x) → bound s' ≤ bound s.
Proof.
  intros Hs Hs' Hm. apply bound_le; [done| |by apply size_bounds].
  intros x [[? Hx]|[? Hx]]%Hm; apply has_bound in Hx; try done; lia.
Qed.

(** Erasing [from_] and inserting [to_] relocates the members. *)
Definition moved_image (from_ to_ : Z) (P : Z → Prop) (x : Z) : Prop :=
  ∃ x0, P x0 ∧ x = move_pos from_ to_ x0.

Lemma moved_image_inserted from_ to_ (P : Z → Prop) x :
  P from_ → inserted (erased P from_) to_ 1 x ↔ moved_image from_ to_ P x.
Proof.
  intros Hf. unfold inserted, erased, moved_image. split.
  - intros [[? [[? ?]|[? ?]]]|[?|[? [[? ?]|[? ?]]]]].
    + exists x. split; [done|]. unfold move_pos, insert_pos, erase_pos. repeat case_decide; lia.
    + exists (x + 1). split; [done|]. unfold move_pos, insert_pos, erase_pos. repeat case_decide; lia.
    + exists from_. split; [done|]. unfold move_pos. rewrite decide_True by done. lia.
    + exists (x - 1). split; [done|]. unfold move_pos, insert_pos, erase_pos. repeat case_decide; lia.
    + exists x. replace (x - 1 + 1) with x in * by lia. split; [done|].
      unfold move_pos, insert_pos, erase_pos. repeat case_decide; lia.
  - intros (x0&Hx0&->). unfold move_pos, insert_pos, erase_pos.
    destruct (decide (x0 = from_)) as [->|]; [right; left; lia|].
    destruct (decide (from_ < x0)).
    + destruct (decide (x0 - 1 < to_)).
      * left. split; [lia|]. right. split; [lia|]. by replace (x0 - 1 + 1) with x0 by lia.
      * right; right. split; [lia|]. right. split; [lia|].
        by replace (x0 - 1 + 1 - 1 + 1) with x0 by lia.
    + destruct (decide (x0 < to_)).
      * left. split; [lia|]. left. split; [lia|done].
      * right; right. split; [lia|]. left. split; [lia|]. by replace (x0 + 1 - 1) with x0 by lia.
Qed.

Lemma moved_image_shifted from_ to_ (P : Z → Prop) x :
  ¬ P from_ → shifted_for (erased P from_) to_ 1 x ↔ moved_image from_ to_ P x.
Proof.
  intros Hf. pose proof (moved_image_inserted from_ to_ (λ z, P z ∨ z = from_) x (or_intror eq_refl)) as H.
  assert (moved_image from_ to_ P x ↔ moved_image from_ to_ (λ z, P z ∨ z = from_) x ∧ x ≠ to_) as ->.
  { unfold moved_image. split.
    - intros (x0&Hx0&->). split; [exists x0; tauto|]. intros E.
      assert (x0 = from_) as ->; [|done]. apply (move_pos_inj from_ to_). rewrite E.
      unfold move_pos. by rewrite decide_True.
    - intros [(x0&[?| ->]&->) Hne]; [by exists x0|]. destruct Hne. unfold move_pos.
      by rewrite decide_True. }
  rewrite <-H. unfold shifted_for, inserted, erased. split.
  - intros [[? Hc]|[? Hc]]; (split; [|lia]); tauto.
  - intros [[[? Hc]|[?|[? Hc]]] Hne]; [left|lia|right]; (split; [done|]);
      destruct Hc as [[? [?|?]]|[? [?|?]]]; try lia; tauto.
Qed.

Lemma move_loop_spec l from_ to_ i updated :
  set_wf i → (∀ m, m ∈ l → has i (to m) ∨ updated = true ∧ 0 ≤ to m < npos) → NoDup (to <$> l) →
  from_ ≠ to_ → 0 ≤ from_ < npos → 0 ≤ to_ < npos → bound i + 1 ≤ npos →
  (updated = true → ∀ m, m ∈ l → to m ≠ from_) →
  let l' := (λ m, mkMove (from m) (move_pos from_ to_ (to m))) <$> l in
  if decide (Exists (λ m, to m = from_) l) then
    ∃ i1 i2, set_erase_at i from_ = Some i1 ∧ set_insert_at i1 to_ 1 = Some i2 ∧
      move_loop l from_ to_ i updated = Some (l', i2, true)
  else move_loop l from_ to_ i updated = Some (l', i, updated).
Proof.
  intros Hi Hl Hnd Hft Hf Ht Hb. revert i updated Hi Hl Hb.
  induction l as [|m l IH]; intros i updated Hi Hl Hb Hup l'.
  { rewrite decide_False; [done|]. by intros ?%Exists_nil. }
  simpl in Hnd. apply NoDup_cons in Hnd as [Hn Hnd]. unfold l'. clear l'.
  assert (0 ≤ to m < npos) as Hm.
  { destruct (Hl m ltac:(constructor)) as [Hh|[_ ?]]; [|done]. by apply has_range in Hh. }
  cbn [move_loop]. rewrite fmap_cons. destruct (Z.eqb_spec (to m) from_) as [E|E]; cbn [negb].
  - assert (updated = false) as ->.
    { destruct updated; [|done]. destruct (Hup eq_refl m ltac:(constructor)). done. }
    rewrite decide_True by (apply Exists_cons; by left). cbn [negb].
    destruct (law_erase_at i from_ Hi) as (i1&H1&Hi1&Hm1); [lia|].
    destruct (law_insert_at i1 to_ 1 Hi1) as (i2&H2&Hi2&Hm2); [lia..| |].
    { pose proof (erased_bound i i1 from_ Hi Hi1 Hm1). lia. }
    exists i1, i2. split_and!; [done..|]. rewrite H1. cbn [mbind option_bind]. rewrite H2.
    cbn [mbind option_bind].
    assert (∀ m', m' ∈ l → to m' ≠ from_) as Hno.
    { intros m' Hin Heq. apply Hn. rewrite E, <-Heq. by apply list_elem_of_fmap_2. }
    assert (move_loop l from_ to_ i2 true = Some ((λ m, mkMove (from m) (move_pos from_ to_ (to m))) <$> l, i2, true)) as ->.
    { assert (∀ m', m' ∈ l → 0 ≤ to m' < npos) as Hr.
      { intros m' Hin. destruct (Hl m' ltac:(by constructor)) as [Hh|[_ ?]]; [|done].
        by apply has_range in Hh. }
      clear -Hno Hr Hft Hf Ht. induction l as [|m' l IH]; [done|]. cbn [move_loop].
      rewrite (proj2 (Z.eqb_neq _ _)) by (apply Hno; constructor). cbn [negb].
      rewrite IH by (intros; first [apply Hno|apply Hr]; by constructor). cbn [mbind option_bind].
      rewrite fmap_cons, move_other_spec; [done|apply Hr; constructor|apply Hno; constructor|lia..]. }
    cbn [mbind option_bind]. do 3 f_equal. unfold move_pos. rewrite decide_True by done. done.
  - specialize (IH Hnd i updated Hi). simpl in IH.
    destruct (decide (Exists (λ m, to m = from_) l)) as [He|He].
    + rewrite decide_True by (apply Exists_cons; by right).
      destruct IH as (i1&i2&?&?&->); [intros; apply Hl; by constructor|done|intros; apply Hup; [done|by constructor]|].
      exists i1, i2. split_and!; [done..|]. cbn [mbind option_bind].
      by rewrite move_other_spec by (done || lia).
    + rewrite decide_False by (rewrite Exists_cons; tauto).
      rewrite IH; [|intros; apply Hl; by constructor|done|intros; apply Hup; [done|by constructor]].
      cbn [mbind option_bind]. by rewrite move_other_spec by (done || lia).
Qed.

(** The rows part of [move]: what the code does to deletions, insertions and
    moves, in both cases. *)
Lemma move_rows b from_ to_ :
  rows_wf (deletions (changes b)) (insertions (changes b)) (moves (changes b)) →
  from_ ≠ to_ → 0 ≤ from_ → 0 ≤ to_ < npos → from_ + size (deletions (changes b)) < npos →
  bound (insertions (changes b)) + 1 ≤ npos →
  ∃ d' i1 i2 extra,
    ('(l, i, updated) ← move_loop (moves (changes b)) from_ to_ (insertions (changes b)) false;
     let b := with_insertions (with_moves b l) i in
     if (updated : bool) then Some b else
       '(i, shifted_from) ← set_erase_or_unshift (insertions (changes b)) from_;
       i ← set_insert_at i to_ 1;
       let b := with_insertions b i in
       if shifted_from =? npos then Some b else
       '(d, shifted_from) ← set_add_shifted (deletions (changes b)) shifted_from;
       Some (with_moves (with_deletions b d)
               (moves (changes b) ++ [mkMove shifted_from to_]))) =
    Some (with_moves (with_deletions (with_insertions b i2) d')
           (((λ m, mkMove (from m) (move_pos from_ to_ (to m))) <$> moves (changes b)) ++ extra)) ∧
    set_wf d' ∧ set_wf i1 ∧ set_wf i2 ∧
    (∀ x, has i1 x ↔ erased (has (insertions (changes b))) from_ x) ∧
    (∀ x, has i2 x ↔ inserted (has i1) to_ 1 x) ∧
    deleted_row (deletions (changes b)) d' (insertions (changes b)) from_ ∧
    if decide (has (insertions (changes b)) from_) then extra = [] ∧ d' = deletions (changes b)
    else ∃ o, extra = [mkMove o to_] ∧ has d' o ∧ 0 ≤ o ∧
           kept (deletions (changes b)) (insertions (changes b)) o from_.
Proof.
  intros (Hd&Hi&Hmv) Hft Hf Ht Hmax Hb. pose proof (size_bounds _ Hd) as [? _].
  pose proof (move_loop_spec (moves (changes b)) from_ to_ (insertions (changes b)) false Hi) as Hloop.
  simpl in Hloop. destruct (decide (Exists _ _)) as [He|He].
  - destruct Hloop as (i1&i2&H1&H2&->); [intros; left; by apply Hmv|apply Hmv|done|lia|done|done|done|].
    destruct (law_erase_at (insertions (changes b)) from_ Hi Hf) as (i1'&H1'&Hi1&Hm1). simplify_eq.
    pose proof (erased_bound _ _ from_ Hi Hi1 Hm1).
    destruct (law_insert_at i1 to_ 1 Hi1) as (i2'&H2'&Hi2&Hm2); [lia..|]. simplify_eq.
    assert (has (insertions (changes b)) from_) as Hin.
    { apply Exists_exists in He as (m&Hm&<-). by apply Hmv. }
    exists (deletions (changes b)), i1, i2, []. rewrite app_nil_r. cbn [mbind option_bind].
    split_and!; try done.
    + unfold deleted_row. by rewrite decide_True.
    + by rewrite decide_True.
  - rewrite Hloop; [|intros; left; by apply Hmv|apply Hmv|done|lia|done|done|done].
    cbn [mbind option_bind]. simpl.
    destruct (erase_or_unshift_row (deletions (changes b)) (insertions (changes b)) from_)
      as (i1&d'&Hi1&Hd'&Hm1&Hdel&Hcase); [done..|].
    pose proof (erased_bound _ _ from_ Hi Hi1 Hm1).
    destruct (law_insert_at i1 to_ 1 Hi1) as (i2&H2&Hi2&Hm2); [lia..|].
    destruct (decide (has (insertions (changes b)) from_)) as [Hin|Hin].
    + destruct Hcase as [-> ->]. cbn [mbind option_bind]. rewrite H2. simpl.
      exists (deletions (changes b)), i1, i2, []. rewrite app_nil_r.
      split_and!; try done; by rewrite decide_True.
    + destruct Hcase as (u&o&Hu&->&Ha&Ho&Hn&Hsh&Hdm). cbn [mbind option_bind]. rewrite H2. simpl.
      rewrite (proj2 (Z.eqb_neq u npos) Hu), Ha. simpl.
      exists d', i1, i2, [mkMove o to_]. split_and!; try done.
      exists o. split_and!; try done. apply Hdm. by right.
Qed.

(** Composition of the erasure and the insertion *)
Lemma kept_moved d d' i i1 i2 from_ to_ o t :
  set_wf d → set_wf d' → set_wf i → set_wf i1 → set_wf i2 → 0 ≤ from_ → 0 ≤ to_ → 0 ≤ o → 0 ≤ t →
  (∀ x, has i1 x ↔ erased (has i) from_ x) → (∀ x, has i2 x ↔ inserted (has i1) to_ 1 x) →
  deleted_row d d' i from_ →
  kept d' i2 o t ↔ ∃ t0, 0 ≤ t0 ∧ kept d i o t0 ∧ t0 ≠ from_ ∧ t = move_pos from_ to_ t0.
Proof.
  intros Hd Hd' Hi Hi1 Hi2 Hf Ht Ho Ht0 Hm1 Hm2 Hdel.
  rewrite (kept_inserted d' i1 i2 to_ 1) by (done || lia). split.
  - intros (t1&Ht1&Hk&->). rewrite (kept_erased d d' i i1 from_) in Hk by done.
    destruct Hk as (t0&Hp&Hk&Hne&->). exists t0. split_and!; try done.
    unfold move_pos. by rewrite decide_False.
  - intros (t0&Hp&Hk&Hne&->). exists (erase_pos from_ t0).
    assert (0 ≤ erase_pos from_ t0) by (unfold erase_pos; destruct (decide (from_ < t0)); lia).
    split_and!; [done| |].
    + rewrite (kept_erased d d' i i1 from_) by done. eauto.
    + unfold move_pos. by rewrite decide_False.
Qed.

Lemma move_changes b from_ to_ :
  builder_ok b → fits b 1 → from_ ≠ to_ → 0 ≤ from_ → 0 ≤ to_ < npos →
  from_ + size (deletions (changes b)) < npos →
  ∃ b', ChangeBuilder.move b from_ to_ = Some b' ∧ builder_ok b' ∧
    (∀ o t, rows b' o t ↔ ∃ t0, rows b o t0 ∧ t = move_pos from_ to_ t0) ∧
    cols_image (moved_image from_ to_) b b' ∧
    (∀ x, has (insertions (changes b')) x ↔
      inserted (erased (has (insertions (changes b))) from_) to_ 1 x) ∧
    deleted_row (deletions (changes b)) (deletions (changes b')) (insertions (changes b)) from_ ∧
    m_track_columns b' = m_track_columns b.
Proof.
  intros [Hrows [Hm Hc]] (Fi&Fm&Fc) Hft Hf Ht Hmax. unfold ChangeBuilder.move.
  rewrite (proj2 (Z.eqb_neq from_ to_) Hft). cbn [negb].
  destruct (move_rows b from_ to_) as (d'&i1&i2&extra&Heq&Hd'&Hi1&Hi2&Hm1&Hm2&Hdel&Hextra); [done..|].
  destruct Hrows as (Hd&Hi&Hmv). pose proof (size_bounds _ Hd) as [? _].
  set (b1 := with_moves _ _) in Heq.
  match goal with |- context [for_each_col ?f _] => set (F := f) end.
  assert (∃ b', for_each_col F b1 = Some b' ∧ deletions (changes b') = d' ∧
    insertions (changes b') = i2 ∧ moves (changes b') = moves (changes b1) ∧
    set_wf (modifications (changes b')) ∧ Forall set_wf (columns (changes b')) ∧
    cols_image (moved_image from_ to_) b1 b' ∧ m_track_columns b' = m_track_columns b1)
    as (b'&Hb'&Ed&Ei&Emv&?&?&Him&Etr).
  { destruct (for_each_col_ok F (moved_image from_ to_) (λ c, bound c + 1 ≤ npos) b1)
      as (b'&?&?&?&?&_&?&?&?&?); [|done..|].
    - intros c Hwc Hbc. unfold F. rewrite law_contains by done. cbn [mbind option_bind].
      destruct (law_erase_at c from_ Hwc Hf) as (c1&->&Hc1&Hcm). cbn [mbind option_bind].
      pose proof (erased_bound _ _ from_ Hwc Hc1 Hcm).
      case_bool_decide as Hin.
      + destruct (law_insert_at c1 to_ 1 Hc1) as (c2&->&Hc2&Hcm2); [lia..|].
        exists c2. split_and!; [done..|]. intros x. rewrite Hcm2, <-moved_image_inserted by done.
        unfold inserted. by rewrite !Hcm.
      + destruct (law_shift_for_insert_at c1 to_ 1 Hc1) as (c2&->&Hc2&Hcm2); [lia..|].
        exists c2. split_and!; [done..|]. intros x. rewrite Hcm2, <-moved_image_shifted by done.
        unfold shifted_for. by rewrite !Hcm.
    - exists b'. done. }
  exists b'. split_and!; [| | |done| |by rewrite Ed|done].
  - destruct (move_loop _ _ _ _ _) as [[[l i] updated]|] eqn:Hl; [|done]. cbn [mbind option_bind] in *.
    destruct updated; cbn [mbind option_bind] in *.
    + simplify_eq. rewrite Heq. done.
    + rewrite Heq. done.
  - split; [|done]. rewrite Ed, Ei, Emv. split_and!; [done|done|]. unfold b1; simpl.
    pose proof Hmv as (Hmv1&Hndf&Hndt).
    destruct (moves_wf_relocate (deletions (changes b)) d' (insertions (changes b)) i2
      (moves (changes b)) (move_pos from_ to_)) as (Hr1&Hr2&Hr3); [done| | |by intros p q ?%move_pos_inj|].
    { intros x Hx. unfold deleted_row in Hdel. destruct (decide (has _ from_)); [by apply Hdel|].
      destruct Hdel as (?&?&?&?&Hdm). apply Hdm. by left. }
    { intros m Hin. unfold move_pos. destruct (decide (to m = from_)).
      - rewrite Hm2. unfold inserted. right. left. lia.
      - rewrite inserted_pos by (done || lia). rewrite erased_pos by done. by apply Hmv1. }
    destruct (decide (has (insertions (changes b)) from_)) as [Hin|Hin].
    + destruct Hextra as [-> _]. rewrite app_nil_r. done.
    + destruct Hextra as (o&->&Hdo&Ho&Hko&Hki&_). split_and!.
      * intros m [?| ->%list_elem_of_singleton]%elem_of_app; [by apply Hr1|]. simpl. split; [done|].
        rewrite Hm2. unfold inserted. right. left. lia.
      * rewrite fmap_app. apply NoDup_app. split_and!; [done| |by apply NoDup_singleton].
        intros x (m&->&(m0&->&Hin0)%list_elem_of_fmap)%list_elem_of_fmap E%list_elem_of_singleton.
        simpl in E. apply Hko. rewrite <-E. by apply Hmv1.
      * rewrite fmap_app. apply NoDup_app. split_and!; [done| |by apply NoDup_singleton].
        intros x (m&->&(m0&->&Hin0)%list_elem_of_fmap)%list_elem_of_fmap E%list_elem_of_singleton.
        simpl in E. apply Hki. assert (to m0 = from_) as <-; [|by apply Hmv1].
        apply (move_pos_inj from_ to_). rewrite E. unfold move_pos. by rewrite decide_True.
  - intros o t. unfold rows. rewrite Ed, Ei, Emv. unfold b1; simpl. unfold row_to.
    pose proof Hmv as (Hmv1&_). rewrite elem_of_app, list_elem_of_fmap. split.
    + intros (Ho&Ht0&[[(m&Hmeq&Hin)|Hx]|Hk]).
      * simplify_eq. exists (to m). destruct (Hmv1 m Hin) as [_ Hh%has_range]; [|done].
        split_and!; [done|lia| |done]. left. by destruct m.
      * destruct (decide (has _ from_)) as [?|?]; [destruct Hextra as [-> _]; by apply elem_of_nil in Hx|].
        destruct Hextra as (o'&->&_&Ho'&Hk). apply list_elem_of_singleton in Hx. simplify_eq.
        exists from_. split_and!; [done|done|by right|]. unfold move_pos. by rewrite decide_True.
      * rewrite (kept_moved (deletions (changes b)) d' (insertions (changes b)) i1 i2 from_ to_) in Hk by (done || lia).
        destruct Hk as (t0&?&?&_&->). exists t0. split_and!; try done. by right.
    + intros (t0&(Ho&Ht0&Hk)&->). split_and!; [done|apply move_pos_nonneg; lia|].
      destruct Hk as [Hin|Hk]; [left; left; by exists (mkMove o t0)|].
      destruct (decide (t0 = from_)) as [->|Hne].
      * left; right. destruct Hk as (Hno&Hni&Heq'). rewrite decide_False in Hextra by done.
        destruct Hextra as (o'&->&_&Ho'&Hno'&_&Heq''). apply list_elem_of_singleton.
        assert (o' = o) as ->; [|unfold move_pos; by rewrite decide_True].
        eapply unshifted_inj; [exact Hd|done|done|congruence].
      * right. rewrite (kept_moved (deletions (changes b)) d' (insertions (changes b)) i1 i2 from_ to_)
          by (try apply move_pos_nonneg; done || lia).
        exists t0. done.
  - intros x. rewrite Ei, Hm2. unfold inserted. by rewrite !Hm1.
Qed.
End MoveOperation.
