(* ===== verification/ChangeMerge.v ===== *)
(** [CollectionChangeBuilder::merge], [clean_up_stale_moves], [clear] and
    [finalize]: merging two change sets composes their row maps. *)
From stdpp Require Import gmap.
From S2P Require Import Prelude ChunkedRangeVector IndexSet IndexSetTheory IndexSetMerge IndexSetSpec RowMap ChangeBuilder ChangeTheory.
Import ChangeBuilder.

Section Kept.
Context {T : Type} {ops : IndexSetOps T} {laws : IndexSetLaws T}.
Implicit Types (d i : T) (mv : list Move).

Lemma kept_mono d i o t o' t' :
  set_wf d → set_wf i → kept d i o t → kept d i o' t' → (o < o' ↔ t < t').
Proof.
  intros Hd Hi (Ho&Ht&E) (Ho'&Ht'&E').
  pose proof (unshifted_lt_iff d o' o Hd Ho). pose proof (unshifted_lt_iff i t' t Hi Ht). lia.
Qed.

Lemma kept_fun d i o t t' : set_wf i → kept d i o t → kept d i o t' → t = t'.
Proof. intros Hi (?&?&?) (?&?&?). eapply (unshifted_inj i); [done..|congruence]. Qed.

Lemma kept_inj d i o o' t : set_wf d → kept d i o t → kept d i o' t → o = o'.
Proof. intros Hd (?&?&?) (?&?&?). eapply (unshifted_inj d); [done..|congruence]. Qed.

Lemma kept_total d i o : set_wf d → set_wf i → 0 ≤ o → ¬ has d o → ∃ t, 0 ≤ t ∧ kept d i o t.
Proof.
  intros Hd Hi Ho Hn. destruct (unshifted_surj i (unshifted d o) Hi) as (t&?&?&?).
  { by apply unshifted_nonneg. }
  by exists t.
Qed.

Lemma kept_surj d i t : set_wf d → set_wf i → 0 ≤ t → ¬ has i t → ∃ o, 0 ≤ o ∧ kept d i o t.
Proof.
  intros Hd Hi Ht Hn. destruct (unshifted_surj d (unshifted i t) Hd) as (o&?&?&?).
  { by apply unshifted_nonneg. }
  by exists o.
Qed.

Lemma kept_nonneg d i o t : set_wf d → set_wf i → 0 ≤ o → kept d i o t → 0 ≤ t.
Proof.
  intros Hd Hi Ho (_&_&E). pose proof (unshifted_nonneg d o Hd Ho).
  destruct (decide (0 ≤ t)); [done|]. unfold unshifted in *. rewrite (rank_zero i t) in E by (done || lia). lia.
Qed.

Lemma kept_nonneg' d i o t : set_wf d → set_wf i → 0 ≤ t → kept d i o t → 0 ≤ o.
Proof.
  intros Hd Hi Ht (_&_&E). pose proof (unshifted_nonneg i t Hi Ht).
  destruct (decide (0 ≤ o)); [done|]. unfold unshifted in *. rewrite (rank_zero d o) in E by (done || lia). lia.
Qed.

(** The deletions and insertions of a merge: the rows kept by it are the rows
    kept by both changes. *)
Lemma kept_merge d i dc ic d' i1 i' o t :
  set_wf d → set_wf i → set_wf dc → set_wf ic → set_wf d' → set_wf i' →
  (∀ x, has d' x ↔ has d x ∨ ∃ v, has dc v ∧ ¬ has i v ∧ ¬ has d x ∧ x - rank d x = v - rank i v) →
  (∀ y, has i1 y ↔ ∃ x, has i x ∧ ¬ has dc x ∧ y = x - rank dc x) →
  (∀ y, has i' y ↔ has ic y ∨ ¬ has ic y ∧ has i1 (y - rank ic y)) →
  0 ≤ o → 0 ≤ t →
  kept d' i' o t ↔ ∃ u, kept d i o u ∧ kept dc ic u t.
Proof.
  intros Hd Hi Hdc Hic Hd' Hi' Hmd Hm1 Hmi Ho Ht.
  assert (∀ x, ¬ has d' x ↔ ¬ has d x ∧ ∀ v, kept d i x v → ¬ has dc v) as Hnd.
  { intros x. rewrite Hmd. split.
    - intros Hn. split; [tauto|]. intros v (?&?&?) ?. apply Hn. right. exists v. done.
    - intros [Hn Hv] [?|(v&?&?&?&?)]; [done|]. by apply (Hv v). }
  assert (∀ y, ¬ has i' y ↔ ¬ has ic y ∧ ∀ u, kept dc ic u y → ¬ has i u) as Hni.
  { intros y. rewrite Hmi. split.
    - intros Hn. split; [tauto|]. intros u (?&?&Eu) ?. apply Hn. right. split; [done|].
      apply Hm1. exists u. split_and!; [done..|]. unfold unshifted in Eu. lia.
    - intros [Hn Hu] [?|[_ (x&?&?&Ex)%Hm1]]; [done|]. apply (Hu x); [|done].
      split_and!; [done..|]. unfold unshifted. lia. }
  symmetry. revert o t Ho Ht. apply (complement_iso d' i' (λ o t, ∃ u, kept d i o u ∧ kept dc ic u t)); [done|done| | | |].
  - intros x y Hx (u&Hu&Hy). pose proof (kept_nonneg _ _ _ _ Hd Hi Hx Hu) as Hu0.
    split; [by eapply (kept_nonneg dc ic)|]. split.
    + apply Hnd. split; [apply Hu|]. intros v Hv. rewrite (kept_fun _ _ _ _ _ Hi Hv Hu). apply Hy.
    + apply Hni. split; [apply Hy|]. intros v Hv. rewrite (kept_inj _ _ _ _ _ Hdc Hv Hy). apply Hu.
  - intros x Hx [Hn Hv]%Hnd. destruct (kept_total d i x) as (u&Hu0&Hu); [done..|].
    destruct (kept_total dc ic u) as (y&_&Hy); [done|done|done|by apply Hv|]. by exists y, u.
  - intros y Hy [Hn Hu]%Hni. destruct (kept_surj dc ic y) as (u&Hu0&Huy); [done..|].
    destruct (kept_surj d i u) as (x&Hx&Hxu); [done|done|done|by apply Hu|]. exists x. eauto.
  - intros x y x' y' _ _ (u&Hu&Hy) (u'&Hu'&Hy').
    rewrite (kept_mono d i x u x' u') by done. by apply (kept_mono dc ic).
Qed.
End Kept.

(** ** [clean_up_stale_moves] *)
Section Stale.
Context {T : Type} {ops : IndexSetOps T} {laws : IndexSetLaws T}.
Implicit Types (d i : T) (mv : list Move).

(** A move that is a no-op describes a kept row. *)
Lemma kept_removed d i d1 i1 f t0 o t :
  set_wf d → set_wf i → set_wf d1 → set_wf i1 → has d f → has i t0 → unshifted d f = unshifted i t0 →
  (∀ x, has d1 x ↔ has d x ∧ x ≠ f) → (∀ x, has i1 x ↔ has i x ∧ x ≠ t0) → 0 ≤ o → 0 ≤ t →
  kept d1 i1 o t ↔ kept d i o t ∨ o = f ∧ t = t0.
Proof.
  intros Hd Hi Hd1 Hi1 Hf Ht0 Heq Hmd Hmi Ho Ht. unfold kept.
  assert (unshifted d1 o = unshifted d o + (if decide (f < o) then 1 else 0)) as ->.
  { unfold unshifted. rewrite (rank_removed d d1 f) by done. lia. }
  assert (unshifted i1 t = unshifted i t + (if decide (t0 < t) then 1 else 0)) as ->.
  { unfold unshifted. rewrite (rank_removed i i1 t0) by done. lia. }
  rewrite Hmd, Hmi.
  assert (¬ has d o → o ≠ f ∧ (f < o ↔ unshifted d f ≤ unshifted d o)) as Hco.
  { intros Hn. split; [by intros ->|]. split; [intros; apply unshifted_mono; [done|lia]|]. intros Hle.
    destruct (decide (f < o)); [done|]. assert (o ≠ f) by (by intros ->).
    pose proof (unshifted_lt d o f Hd Hn ltac:(lia)). lia. }
  assert (¬ has i t → t ≠ t0 ∧ (t0 < t ↔ unshifted i t0 ≤ unshifted i t)) as Hct.
  { intros Hn. split; [by intros ->|]. split; [intros; apply unshifted_mono; [done|lia]|]. intros Hle.
    destruct (decide (t0 < t)); [done|]. assert (t ≠ t0) by (by intros ->).
    pose proof (unshifted_lt i t t0 Hi Hn ltac:(lia)). lia. }
  split.
  - intros (Ho1&Ht1&E). destruct (decide (o = f)) as [->|Hof], (decide (t = t0)) as [->|Htt].
    + by right.
    + destruct Hct as [_ Hct]; [tauto|]. repeat case_decide; lia.
    + destruct Hco as [_ Hco]; [tauto|]. repeat case_decide; lia.
    + left. destruct Hco as [_ Hco]; [tauto|]. destruct Hct as [_ Hct]; [tauto|].
      split_and!; [tauto|tauto|]. repeat case_decide; lia.
  - intros [(Hno&Hnt&E)|[-> ->]].
    + destruct (Hco Hno), (Hct Hnt). split_and!; [tauto|tauto|]. repeat case_decide; lia.
    + split_and!; [tauto|tauto|]. rewrite !decide_False by lia. lia.
Qed.

Lemma stale_loop_ok mv : ∀ pre d i,
  rows_wf d i (pre ++ mv) →
  ∃ mv' d' i', stale_loop mv d i = Some (mv', d', i') ∧ rows_wf d' i' (pre ++ mv') ∧
    ∀ o t, row_to d' i' (pre ++ mv') o t ↔ row_to d i (pre ++ mv) o t.
Proof.
  induction mv as [|m mv IH]; intros pre d i (Hd&Hi&Hmv).
  { exists [], d, i. done. }
  cbn [stale_loop]. pose proof Hmv as (Hm&Hndf&Hndt).
  destruct (Hm m) as [Hmf Hmt]; [apply elem_of_app; right; constructor|].
  pose proof (has_range _ _ Hd Hmf). pose proof (has_range _ _ Hi Hmt).
  rewrite !law_count by (done || lia). cbn [mbind option_bind].
  pose proof (rank_bounds d (from m) Hd). pose proof (rank_bounds i (to m) Hi).
  rewrite !wsub_small by lia.
  destruct (Z.eqb_spec (from m - rank d (from m)) (to m - rank i (to m))) as [E|E]; cbn [negb].
  - destruct (law_remove d (from m) 1 Hd) as (d1&->&Hd1&Hmd); [lia..|]. cbn [mbind option_bind].
    destruct (law_remove i (to m) 1 Hi) as (i1&->&Hi1&Hmi); [lia..|]. cbn [mbind option_bind].
    assert (∀ x, has d1 x ↔ has d x ∧ x ≠ from m) as Hmd'.
    { intros x. rewrite Hmd. intuition lia. }
    assert (∀ x, has i1 x ↔ has i x ∧ x ≠ to m) as Hmi'.
    { intros x. rewrite Hmi. intuition lia. }
    pose proof (Permutation_middle pre mv m) as Hp.
    rewrite <-Hp, fmap_cons in Hndf. rewrite <-Hp, fmap_cons in Hndt.
    apply NoDup_cons in Hndf as [Hnf Hndf]. apply NoDup_cons in Hndt as [Hnt Hndt].
    destruct (IH pre d1 i1) as (mv'&d'&i'&->&Hwf'&Hrow).
    { split_and!; [done|done|]. split_and!; [|done..].
      intros m' Hin. rewrite Hmd', Hmi'. destruct (Hm m') as [? ?].
      { apply elem_of_app in Hin as [?|?]; apply elem_of_app; [by left|right; by constructor]. }
      split; (split; [done|]); intros Heq; [apply Hnf|apply Hnt]; rewrite <-Heq; by apply list_elem_of_fmap_2. }
    exists mv', d', i'. split_and!; [done|done|]. intros o t. rewrite Hrow. unfold row_to.
    rewrite !elem_of_app, elem_of_cons. destruct m as [f t0]; simpl in *.
    split; intros (Ho&Ht&Hc); (split_and!; [done|done|]).
    + rewrite (kept_removed d i d1 i1 f t0) in Hc by (done || (unfold unshifted; lia)).
      destruct Hc as [[?|?]|[?|[-> ->]]]; tauto.
    + rewrite (kept_removed d i d1 i1 f t0) by (done || (unfold unshifted; lia)).
      destruct Hc as [[?|[[= -> ->]|?]]|?]; tauto.
  - destruct (IH (pre ++ [m]) d i) as (mv'&d'&i'&->&Hwf'&Hrow); [by rewrite <-app_assoc|].
    cbn [mbind option_bind]. exists (m :: mv'), d', i'. rewrite <-!app_assoc in *. done.
Qed.
End Stale.

(** ** The column loops of [merge] *)
Section Merge.
Context {build : Build} {T : Type} {ops : IndexSetOps T} {laws : IndexSetLaws T}.
Implicit Types (b c : CollectionChangeBuilder T) (d i : T).

Lemma verify_true b :
  moves_wf (deletions (changes b)) (insertions (changes b)) (moves (changes b)) →
  set_wf (deletions (changes b)) → set_wf (insertions (changes b)) → verify b = Some true.
Proof.
  intros [Hm _] Hd Hi. unfold verify. destruct REALM_DEBUG; [|done].
  induction (moves (changes b)) as [|m mv IH]; [done|]. cbn [foldlM].
  destruct (Hm m) as [Hf Ht]; [constructor|].
  rewrite !law_contains by (first [done|by apply has_range in Hf; [lia|]|by apply has_range in Ht; [lia|]]).
  cbn [mbind option_bind]. rewrite !bool_decide_true by done. apply IH.
  intros; apply Hm; by constructor.
Qed.

(** The fields a column loop leaves alone *)
Definition same_rows b b' : Prop :=
  deletions (changes b') = deletions (changes b) ∧ insertions (changes b') = insertions (changes b) ∧
  moves (changes b') = moves (changes b).

Definition cols_all (Q : T → Prop) b : Prop :=
  Q (modifications (changes b)) ∧ Forall Q (columns (changes b)).

Definition cols_wf b : Prop := cols_all set_wf b.

Lemma same_rows_trans b1 b2 b3 : same_rows b1 b2 → same_rows b2 b3 → same_rows b1 b3.
Proof. unfold same_rows. intros (->&->&->) (->&->&->). done. Qed.

Lemma mapM_pairs (f : T → T → option (T * T)) (Q Q' : T → Prop) l l' :
  (∀ x y, Q x → set_wf y → ∃ x' y', f x y = Some (x', y') ∧ Q' x' ∧ set_wf y') →
  Forall Q l → Forall set_wf l' →
  ∃ r, mapM (λ p : T * T, f p.1 p.2) (zip l l') = Some r ∧ Forall Q' r.*1 ∧ Forall set_wf r.*2.
Proof.
  intros Hf Hl. revert l'. induction Hl as [|x l Hx Hl IH]; intros [|y l'] Hl';
    [by exists []..|]. apply Forall_cons in Hl' as [Hy Hl'].
  destruct (Hf x y Hx Hy) as (x'&y'&Hxy&?&?). destruct (IH l' Hl') as (r&Hr&?&?).
  exists ((x', y') :: r). change (zip (x :: l) (y :: l')) with ((x, y) :: zip l l').
  rewrite mapM_cons; cbn [fst snd]. rewrite Hxy. cbn [mbind option_bind]. rewrite Hr.
  split_and!; [done|..]; rewrite fmap_cons; by constructor.
Qed.

Lemma for_each_col2_ok f (Q Q' : T → Prop) b c :
  (∀ x y, Q x → set_wf y → ∃ x' y', f x y = Some (x', y') ∧ Q' x' ∧ set_wf y') →
  Q set_nil → (Forall Q (columns (changes b)) → m_track_columns b = false → Forall Q' (columns (changes b))) →
  cols_all Q b → cols_wf c →
  ∃ b' c', for_each_col2 f b c = Some (b', c') ∧ same_rows b b' ∧ same_rows c c' ∧
    cols_all Q' b' ∧ cols_wf c' ∧
    f (modifications (changes b)) (modifications (changes c)) =
      Some (modifications (changes b'), modifications (changes c')).
Proof.
  intros Hf Hnil HQ [Hmb Hcb] [Hmc Hcc]. unfold for_each_col2.
  destruct (Hf _ _ Hmb Hmc) as (m&m'&Heq&?&?). rewrite Heq. cbn [mbind option_bind].
  destruct (m_track_columns _) eqn:Ht; simpl in Ht.
  - set (n := Nat.max _ _). simpl.
    destruct (mapM_pairs f Q Q'
      (columns (changes b) ++ replicate (n - length (columns (changes b))) set_nil)
      (columns (changes c) ++ replicate (n - length (columns (changes c))) set_nil) Hf) as (r&Hr&Hr1&Hr2).
    + apply Forall_app. split; [done|]. by apply Forall_replicate.
    + apply Forall_app. split; [done|]. apply Forall_replicate, law_nil.
    + rewrite Hr. simpl. do 2 eexists. split_and!; done.
  - do 2 eexists. split_and!; try done. split; [done|]. by apply HQ.
Qed.

(** Copying the modifications of a moved row *)
Lemma copy_modified_ok m x y :
  set_wf x → set_wf y → 0 ≤ from m → 0 ≤ to m < npos →
  ∃ y', copy_modified m x y = Some (x, y') ∧ set_wf y' ∧
    ∀ z, has y' z ↔ has y z ∨ has x (from m) ∧ z = to m.
Proof.
  intros Hx Hy Hf Ht. unfold copy_modified. rewrite law_contains by done. cbn [mbind option_bind].
  case_bool_decide as Hin.
  - destruct (law_add y (to m) Hy Ht) as (y'&->&Hy'&Hm). simpl. exists y'. split_and!; [done..|].
    intros z. rewrite Hm. tauto.
  - simpl. exists y. split_and!; [done..|]. tauto.
Qed.

(** The modified rows a set of moves carries along *)
Definition carried (M : T) (cm : list Move) (sel : Move → Prop) (t : Z) : Prop :=
  ∃ m, m ∈ cm ∧ sel m ∧ has M (from m) ∧ t = to m.

Context (Q : T → Prop) (HQ : ∀ x, Q x → set_wf x) (HQn : Q set_nil).

Lemma copy_modified_all m b c :
  cols_all Q b → cols_wf c → 0 ≤ from m → 0 ≤ to m < npos →
  ∃ b' c', for_each_col2 (copy_modified m) b c = Some (b', c') ∧ same_rows b b' ∧ same_rows c c' ∧
    cols_all Q b' ∧ cols_wf c' ∧ modifications (changes b') = modifications (changes b) ∧
    ∀ z, has (modifications (changes c')) z ↔
      has (modifications (changes c)) z ∨ has (modifications (changes b)) (from m) ∧ z = to m.
Proof.
  intros Hb Hc Hf Ht.
  destruct (for_each_col2_ok (copy_modified m) Q Q b c) as (b1&c1&Heq&Hsb&Hsc&Hb1&Hc1&Hmod); [|done..|].
  { intros x y Hx Hy. destruct (copy_modified_ok m x y (HQ x Hx) Hy Hf Ht) as (y'&?&?&_). eauto 10. }
  destruct (copy_modified_ok m _ _ (HQ _ (proj1 Hb)) (proj1 Hc) Hf Ht) as (y'&Hy'&_&Hym).
  rewrite Hmod in Hy'. injection Hy' as Eb Ec. exists b1, c1. split_and!; [done..|]. by rewrite Ec.
Qed.

Lemma copy_all_ok cm b c :
  cols_all Q b → cols_wf c → (∀ m, m ∈ cm → 0 ≤ from m ∧ 0 ≤ to m < npos) →
  ∃ b' c', foldlM (λ '(b, c) m, for_each_col2 (copy_modified m) b c) (b, c) cm = Some (b', c') ∧
    same_rows b b' ∧ same_rows c c' ∧ cols_all Q b' ∧ cols_wf c' ∧
    modifications (changes b') = modifications (changes b) ∧
    ∀ t, has (modifications (changes c')) t ↔
      has (modifications (changes c)) t ∨ carried (modifications (changes b)) cm (λ _, True) t.
Proof.
  revert b c. induction cm as [|m cm IH]; intros b c Hb Hc Hm.
  { exists b, c. split_and!; try done. intros t. unfold carried. split; [by left|].
    intros [?|(m&?%elem_of_nil&_)]; done. }
  destruct (Hm m ltac:(constructor)) as [Hf Ht].
  destruct (copy_modified_all m b c Hb Hc Hf Ht) as (b1&c1&Heq&Hsb&Hsc&Hb1&Hc1&Eb&Hym).
  cbn [foldlM]. rewrite Heq. cbn [mbind option_bind].
  destruct (IH b1 c1 Hb1 Hc1) as (b'&c'&->&?&?&?&?&Eb'&Hmem); [intros; apply Hm; by constructor|].
  exists b', c'. split_and!; [done|by eapply same_rows_trans|by eapply same_rows_trans|done|done|congruence|].
  intros t. rewrite Hmem, Hym, Eb. unfold carried. split.
  - intros [[?|[? ->]]|(m'&?&_&?&->)]; [by left|right; exists m; split_and!; [constructor|done..]|].
    right. exists m'. split_and!; [by constructor|done..].
  - intros [?|(m'&[->|Hin]%elem_of_cons&_&?&->)]; [by left; left|left; by right|].
    right. exists m'. done.
Qed.
End Merge.

(** ** The old moves *)
Section OldMoves.
Context {build : Build} {T : Type} {ops : IndexSetOps T} {laws : IndexSetLaws T}.
Implicit Types (b c : CollectionChangeBuilder T) (d i : T).

Context (Q : T → Prop) (HQ : ∀ x, Q x → set_wf x) (HQn : Q set_nil).

Lemma swap_remove_perm k (l : list Move) m :
  l !! k = Some m → ∃ l', swap_remove k l = Some l' ∧ m :: l' ≡ₚ l.
Proof.
  intros Hk. destruct (destruct_last l) as (l1&x&->); [by intros ->|]. unfold swap_remove.
  rewrite last_snoc. cbn [mbind option_bind]. rewrite length_app, Nat.add_1_r; simpl.
  eexists; split; [done|]. destruct (decide (k < length l1)%nat) as [Hlt|Hge].
  - rewrite lookup_app_l in Hk by done. rewrite insert_app_l, take_app_le by (rewrite ?length_insert; lia).
    rewrite take_ge by (rewrite length_insert; lia).
    rewrite <-(take_drop_middle l1 k m Hk) at 2. rewrite insert_take_drop by done.
    rewrite <-!Permutation_middle, app_nil_r. apply perm_swap.
  - rewrite lookup_app_r in Hk by lia. destruct (k - length l1)%nat eqn:E; [|done].
    simpl in Hk. injection Hk as ->. replace k with (length l1) by lia.
    rewrite list_insert_app_here, take_app_length. apply Permutation_cons_append.
Qed.

Lemma NoDup_from (l : list Move) m m' :
  NoDup (from <$> l) → m ∈ l → m' ∈ l → from m = from m' → m = m'.
Proof.
  induction l as [|x l IH]; intros Hnd Hm Hm' Heq; [by apply elem_of_nil in Hm|].
  rewrite fmap_cons in Hnd. apply NoDup_cons in Hnd as [Hn Hnd].
  apply elem_of_cons in Hm as [->|Hm], Hm' as [->|Hm']; [done| | |by apply IH].
  - destruct Hn. rewrite Heq. by apply list_elem_of_fmap_2.
  - destruct Hn. rewrite <-Heq. by apply list_elem_of_fmap_2.
Qed.

(** Where an old move ends up: moved again, or kept. *)
Definition moves_on (cm : list Move) dc ic (old m : Move) : Prop :=
  from m = from old ∧ (mkMove (to old) (to m) ∈ cm ∨ kept dc ic (to old) (to m)).

Lemma merge_old_moves_ok l : ∀ b c,
  cols_all Q b → cols_wf c →
  rows_wf (deletions (changes c)) (insertions (changes c)) (moves (changes c)) →
  (∀ m, m ∈ l → 0 ≤ to m ∧ to m + size (insertions (changes c)) < npos) → NoDup (to <$> l) →
  ∃ l' b' c', merge_old_moves l b c = Some (l', b', c') ∧
    deletions (changes b') = deletions (changes b) ∧ insertions (changes b') = insertions (changes b) ∧
    deletions (changes c') = deletions (changes c) ∧ insertions (changes c') = insertions (changes c) ∧
    cols_all Q b' ∧ cols_wf c' ∧ NoDup (from <$> moves (changes c')) ∧
    modifications (changes b') = modifications (changes b) ∧
    (∀ m, m ∈ moves (changes c') ↔ m ∈ moves (changes c) ∧ ∀ old, old ∈ l → to old ≠ from m) ∧
    (∀ m, m ∈ l' ↔ ∃ old, old ∈ l ∧
       moves_on (moves (changes c)) (deletions (changes c)) (insertions (changes c)) old m) ∧
    sublist (from <$> l') (from <$> l) ∧
    (∀ t, has (modifications (changes c')) t ↔ has (modifications (changes c)) t ∨
       carried (modifications (changes b)) (moves (changes c)) (λ m, ∃ old, old ∈ l ∧ to old = from m) t).
Proof.
  induction l as [|old l IH]; intros b c Hb Hc Hrows Hl Hnd.
  { exists [], b, c. split_and!; try done; [apply Hrows|..].
    - intros m. split; [|tauto]. intros. split; [done|]. by intros ? ?%elem_of_nil.
    - intros m. rewrite elem_of_nil. split; [done|]. by intros (?&?%elem_of_nil&_).
    - intros t. split; [by left|]. intros [?|(m&_&(?&?%elem_of_nil&_)&_)]; done. }
  cbn [merge_old_moves]. pose proof Hrows as (Hd&Hi&Hm&Hndf&Hndt).
  rewrite fmap_cons in Hnd. apply NoDup_cons in Hnd as [Hno Hnd].
  destruct (Hl old ltac:(constructor)) as [Hold Hfit].
  assert (∀ m, m ∈ l → 0 ≤ to m ∧ to m + size (insertions (changes c)) < npos) as Hl' by (intros; apply Hl; by constructor).
  set (k := find_if _ _).
  destruct (find_if_spec (λ m, to old =? from m) (moves (changes c))) as (l1&l2&Heq&Hk&H1&H2).
  fold k in Hk. destruct l2 as [|it l2].
  - (* not moved again *)
    assert (moves (changes c) !! k = None) as ->.
    { apply lookup_ge_None. rewrite Heq, app_nil_r, Hk. done. }
    rewrite app_nil_r in Heq.
    assert (∀ m, m ∈ moves (changes c) → to old ≠ from m) as Hnone.
    { intros m Hin. rewrite Heq in Hin. rewrite Forall_forall in H1. specialize (H1 m Hin). simpl in H1. lia. }
    rewrite law_contains by (done || lia). cbn [mbind option_bind].
    destruct (IH b c Hb Hc Hrows Hl' Hnd) as (l'&b'&c'&Hres&?&?&?&?&?&?&?&?&Hcm&Hmem&Hsub&Hmods).
    assert (∀ m, m ∈ moves (changes c') ↔ m ∈ moves (changes c) ∧
      ∀ old0, old0 ∈ old :: l → to old0 ≠ from m) as Hcm'.
    { intros m. rewrite Hcm. split; intros [Hin Ho]; (split; [done|]).
      - intros o [->|?]%elem_of_cons; [by apply Hnone|by apply Ho].
      - intros o ?. apply Ho. by constructor. }
    assert (∀ t, has (modifications (changes c')) t ↔ has (modifications (changes c)) t ∨
      carried (modifications (changes b)) (moves (changes c))
        (λ m, ∃ old0, old0 ∈ old :: l ∧ to old0 = from m) t) as Hmods'.
    { intros t. rewrite Hmods. unfold carried. split; (intros [?|(m&Hin&(o&Ho&?)&?&?)]; [by left|right]).
      - exists m. split_and!; [done| |done..]. exists o. split; [by constructor|done].
      - apply elem_of_cons in Ho as [->|Ho]; [by destruct (Hnone m Hin)|]. exists m. split_and!; [done|by exists o|done..]. }
    case_bool_decide as Hdel.
    + rewrite Hres. exists l', b', c'. split_and!; try done.
      * intros m. rewrite Hmem. split; [intros (o&?&?); exists o; split; [by constructor|done]|].
        intros (o&[->|?]%elem_of_cons&Ho); [|by exists o]. destruct Ho as [_ [Hin|[Hn _]]]; [|done].
        by destruct (Hnone _ Hin).
      * rewrite fmap_cons. by constructor.
    + pose proof (rank_bounds _ (to old) Hd) as [Hr1 Hr2]. pose proof (size_bounds _ Hi) as [Hsz _].
      rewrite law_unshift by (done || lia). cbn [mbind option_bind]. rewrite Hres. cbn [mbind option_bind].
      destruct (law_shift (insertions (changes c)) (to old - rank (deletions (changes c)) (to old)) Hi)
        as [Hn Hs]; [lia|lia|].
      set (t := set_shift _ _) in *.
      assert (kept (deletions (changes c)) (insertions (changes c)) (to old) t) as Hkt.
      { split_and!; [done|done|]. unfold unshifted. lia. }
      do 3 eexists. split_and!; [done|done|done|done|done|done|done|done|done|done| | |done].
      * intros m. rewrite elem_of_cons, Hmem. split.
        -- intros [->|(o&?&?)]; [|exists o; split; [by constructor|done]].
           exists old. split; [constructor|]. split; [done|]. by right.
        -- intros (o&[->|?]%elem_of_cons&Ho); [left|right; by exists o].
           destruct Ho as [Hf [Hin|Hkm]]; [by destruct (Hnone _ Hin)|].
           destruct m as [mf mt]; simpl in *. subst mf. f_equal. by eapply (kept_fun (deletions (changes c))).
      * rewrite !fmap_cons. by constructor.
  - (* moved again *)
    assert (moves (changes c) !! k = Some it) as Hit.
    { rewrite Heq, Hk. by apply list_lookup_middle. }
    rewrite Hit. assert (to old = from it) as Hoi by lia.
    assert (it ∈ moves (changes c)) as Hin by (by eapply list_elem_of_lookup_2).
    destruct (Hm it Hin) as [Hf Ht]. pose proof (has_range _ _ Hd Hf). pose proof (has_range _ _ Hi Ht).
    destruct (copy_modified_all Q HQ HQn it b c)
      as (b1&c1&Hfe&(Hb1&Hb2&Hb3)&(Hc1&Hc2&Hc3)&Hbw&Hcw&Eb&Hym); [done|done|lia|lia|].
    rewrite Hfe. cbn [mbind option_bind]. rewrite Hc3.
    destruct (swap_remove_perm k _ it Hit) as (cm&->&Hperm). cbn [mbind option_bind].
    rewrite <-Hperm, fmap_cons in Hndf. rewrite <-Hperm, fmap_cons in Hndt.
    apply NoDup_cons in Hndf as [Hnf Hndf]. apply NoDup_cons in Hndt as [Hnt Hndt].
    assert (∀ m, m ∈ cm → m ∈ moves (changes c) ∧ from m ≠ from it) as Hcmm.
    { intros m Hmc. split; [rewrite <-Hperm; by constructor|]. intros E. apply Hnf. rewrite <-E.
      by apply list_elem_of_fmap_2. }
    destruct (IH b1 (with_moves c1 cm)) as (l'&b'&c'&->&Ed&Ei&Edc&Eic&?&?&?&Em&Hcm&Hmem&Hsub&Hmods); [done|done| | |done|].
    { simpl. rewrite Hc1, Hc2. split_and!; [done|done|]. split_and!; [|done..].
      intros m Hmc. by apply Hm, Hcmm. }
    { simpl. by rewrite Hc2. }
    simpl in *. rewrite Hc1, Hc2 in *. cbn [mbind option_bind].
    do 3 eexists. split_and!; [done|congruence|congruence|congruence|congruence|done|done|done|congruence| | | |].
    + intros m. rewrite Hcm. split.
      * intros [[Hmi Hne]%Hcmm Ho]. split; [done|]. intros o [->|?]%elem_of_cons; [congruence|by apply Ho].
      * intros [Hmi Ho]. split; [|intros o ?; apply Ho; by constructor].
        rewrite <-Hperm in Hmi. apply elem_of_cons in Hmi as [->|]; [|done].
        by destruct (Ho old ltac:(constructor)).
    + intros m. rewrite elem_of_cons, Hmem. split.
      * intros [->|(o&Ho&Hf'&Hon)].
        -- exists old. split; [constructor|]. split; [done|]. left. simpl. rewrite Hoi. by destruct it.
        -- exists o. split; [by constructor|]. split; [done|]. destruct Hon as [Hx|?]; [left|by right].
           by apply Hcmm.
      * intros (o&[->|Ho]%elem_of_cons&Hf'&Hon).
        -- left. destruct m as [mf mt]; simpl in *. subst mf. f_equal. destruct Hon as [Hx|[Hn _]].
           ++ assert (mkMove (to old) mt = it) as <-; [|done].
              apply (NoDup_from (moves (changes c))); [|done|done|done].
              rewrite <-Hperm, fmap_cons. by apply NoDup_cons.
           ++ rewrite Hoi in Hn. done.
        -- right. exists o. split; [done|]. split; [done|]. destruct Hon as [Hx|?]; [left|by right].
           rewrite <-Hperm in Hx. apply elem_of_cons in Hx as [Hx|]; [|done]. destruct Hno.
           assert (to old = to o) as ->; [|by apply list_elem_of_fmap_2]. rewrite Hoi, <-Hx. done.
    + rewrite !fmap_cons. by constructor.
    + intros t. rewrite Hmods, Eb, Hym. unfold carried. split.
      * intros [[?|[? ->]]|(m&[? ?]%Hcmm&(o&?&?)&?&?)]; [by left|right..].
        -- exists it. split_and!; [done| |done..]. exists old. split; [constructor|done].
        -- exists m. split_and!; [done| |done..]. exists o. split; [by constructor|done].
      * intros [?|(m&Hmi&(o&[->|Ho]%elem_of_cons&Heqo)&?&->)]; [by left; left|left; right|].
        -- assert (m = it) as ->; [|done]. apply (NoDup_from (moves (changes c))); [|done|done|congruence].
           rewrite <-Hperm, fmap_cons. by apply NoDup_cons.
        -- destruct (decide (m = it)) as [->|Hne]; [left; by right|]. right. exists m.
           split_and!; [|by exists o|done..]. rewrite <-Hperm in Hmi. by apply elem_of_cons in Hmi as [|].
Qed.
End OldMoves.

(** ** The steps of [merge] *)
Section Steps.
Context {build : Build} {T : Type} {ops : IndexSetOps T} {laws : IndexSetLaws T}.
Implicit Types (b c : CollectionChangeBuilder T) (d i : T).

Lemma set_empty_has s : set_wf s → set_empty s = true → ∀ x, ¬ has s x.
Proof.
  intros Hs He x. rewrite law_empty in He by done. apply bool_decide_eq_true in He.
  unfold has. rewrite He. by intros [].
Qed.

Lemma kept_empty d i o t :
  set_wf d → set_wf i → (∀ x, ¬ has d x) → (∀ x, ¬ has i x) → kept d i o t ↔ o = t.
Proof.
  intros Hd Hi Hnd Hni. unfold kept, unshifted.
  assert (∀ s x, set_wf s → (∀ y, ¬ has s y) → rank s x = 0) as Hr.
  { intros s x Hs Hn. rewrite (rank_ext s set_nil); [|done|apply law_nil|].
    - unfold rank. by rewrite (proj2 law_nil).
    - intros y. split; [by intros ?%Hn|]. unfold has. rewrite (proj2 law_nil). by intros []. }
  rewrite !Hr by done. specialize (Hnd o). specialize (Hni t). intuition lia.
Qed.

Context (Q : T → Prop) (HQ : ∀ x, Q x → set_wf x) (HQn : Q set_nil).

Definition updated b c b' c' : Prop :=
  deletions (changes b') = deletions (changes b) ∧ insertions (changes b') = insertions (changes b) ∧
  deletions (changes c') = deletions (changes c) ∧ insertions (changes c') = insertions (changes c) ∧
  cols_all Q b' ∧ cols_wf c' ∧ modifications (changes b') = modifications (changes b).

(** The destinations of the old moves after [c] *)
Lemma update_old_moves_ok b c :
  builder_ok b → cols_all Q b → builder_ok c → bound (insertions (changes b)) + size (insertions (changes c)) ≤ npos →
  ∃ b' c', update_old_moves b c = Some (b', c') ∧ updated b c b' c' ∧
    NoDup (from <$> moves (changes c')) ∧
    (∀ m, m ∈ moves (changes c') ↔ m ∈ moves (changes c) ∧
       ∀ old, old ∈ moves (changes b) → to old ≠ from m) ∧
    (∀ m, m ∈ moves (changes b') ↔ ∃ old, old ∈ moves (changes b) ∧
       moves_on (moves (changes c)) (deletions (changes c)) (insertions (changes c)) old m) ∧
    NoDup (from <$> moves (changes b')) ∧
    (∀ t, has (modifications (changes c')) t ↔ has (modifications (changes c)) t ∨
       carried (modifications (changes b)) (moves (changes c))
         (λ m, ∃ old, old ∈ moves (changes b) ∧ to old = from m) t).
Proof.
  intros ((Hd&Hi&Hm&Hndf&Hndt)&_) [Hbm Hbc] (Hrows&Hcm&Hcc) Hfit. pose proof Hrows as (Hdc&Hic&Hmc&Hcf&Hct).
  unfold update_old_moves.
  destruct (negb (bool_decide _) || _ || _) eqn:Hcond.
  - destruct (merge_old_moves_ok Q HQ HQn (moves (changes b)) b c) as (l'&b'&c'&->&?&?&?&?&?&?&?&?&?&?&Hsub&?); [done|done|done| |done|].
    { intros m Hin. apply Hm in Hin as [_ Hin]. pose proof (has_range _ _ Hi Hin).
      pose proof (has_bound _ _ Hi Hin). lia. }
    cbn [mbind option_bind]. do 2 eexists. split; [done|]. split; [done|]. simpl.
    split_and!; try done. clear -Hndf Hsub. induction Hsub; [done|..].
    + apply NoDup_cons in Hndf as [Hn Hndf]. apply NoDup_cons. split; [|auto].
      intros Hx. apply Hn. by eapply elem_of_submseteq, sublist_submseteq.
    + apply NoDup_cons in Hndf as [_ Hndf]. auto.
  - apply orb_false_iff in Hcond as [[Hmv Hde]%orb_false_iff Hie].
    apply negb_false_iff, bool_decide_eq_true in Hmv. apply negb_false_iff in Hde, Hie.
    do 2 eexists. split; [done|]. split; [done|]. rewrite Hmv.
    split_and!; [constructor| | |done|].
    + intros m. rewrite elem_of_nil. tauto.
    + intros m. unfold moves_on. split.
      * intros Hin. exists m. split; [done|]. split; [done|]. right.
        apply kept_empty; [done|done|by apply set_empty_has..|done].
      * intros (old&Hin&Hf&[?%elem_of_nil|Hk]); [done|].
        apply kept_empty in Hk; [|done|done|by apply set_empty_has..].
        destruct m, old; simpl in *. by subst.
    + intros t. split; [by left|]. intros [?|(m&?%elem_of_nil&_)]; done.
Qed.

Lemma remove_ifM_ok {A} (p : A → option bool) (P : A → Prop) `{∀ x, Decision (P x)} l :
  (∀ x, x ∈ l → p x = Some (bool_decide (P x))) → remove_ifM p l = Some (filter (λ x, ¬ P x) l).
Proof.
  induction l as [|x l IH]; intros Hp; [done|]. cbn [remove_ifM].
  rewrite Hp, IH by (try constructor; intros; apply Hp; by constructor). cbn [mbind option_bind].
  rewrite filter_cons. case_bool_decide; repeat case_decide; tauto.
Qed.

Lemma ignore_new_moves_ok b c :
  set_wf (insertions (changes b)) → set_wf (deletions (changes c)) →
  (∀ m, m ∈ moves (changes c) → 0 ≤ from m) → NoDup (from <$> moves (changes c)) →
  ∃ l, ignore_new_moves b c = Some (with_moves c l) ∧ NoDup (from <$> l) ∧
    ∀ m, m ∈ l ↔ m ∈ moves (changes c) ∧ ¬ has (insertions (changes b)) (from m).
Proof.
  intros Hi Hd Hf Hnd. unfold ignore_new_moves. destruct (negb _ && _) eqn:Hcond.
  - rewrite (remove_ifM_ok _ (λ m, has (insertions (changes b)) (from m))).
    + cbn [mbind option_bind]. eexists. split; [done|]. split.
      * clear -Hnd. induction (moves (changes c)) as [|m l IH]; [done|]. rewrite fmap_cons in Hnd.
        apply NoDup_cons in Hnd as [Hn Hnd]. rewrite filter_cons. case_decide; [|auto].
        rewrite fmap_cons. apply NoDup_cons. split; [|auto]. intros (m'&Heq&Hm'%list_elem_of_filter)%list_elem_of_fmap.
        apply Hn. rewrite Heq. apply list_elem_of_fmap_2. tauto.
      * intros m. rewrite list_elem_of_filter. tauto.
    + intros m Hm. apply law_contains; auto.
  - exists (moves (changes c)). split; [by destruct c as [[] ? ?]|]. split; [done|]. intros m. split; [|tauto].
    intros Hm. split; [done|]. apply andb_false_iff in Hcond as [He|He]; apply negb_false_iff in He.
    + by apply set_empty_has.
    + apply bool_decide_eq_true in He. rewrite He in Hm. by apply elem_of_nil in Hm.
Qed.

Lemma carry_modifications_ok b c :
  cols_all Q b → cols_wf c → (∀ m, m ∈ moves (changes c) → 0 ≤ from m ∧ 0 ≤ to m < npos) →
  ∃ b' c', carry_modifications b c = Some (b', c') ∧
    same_rows b b' ∧ same_rows c c' ∧ cols_all Q b' ∧ cols_wf c' ∧
    modifications (changes b') = modifications (changes b) ∧
    ∀ t, has (modifications (changes c')) t ↔ has (modifications (changes c)) t ∨
      carried (modifications (changes b)) (moves (changes c)) (λ _, True) t.
Proof.
  intros Hb Hc Hm. unfold carry_modifications. destruct (negb _ && _) eqn:Hcond; [by apply (copy_all_ok Q)|].
  exists b, c. split_and!; try done. intros t. split; [by left|]. intros [?|(m&Hin&_&Hh&_)]; [done|].
  apply andb_false_iff in Hcond as [He|He]; apply negb_false_iff in He.
  - exfalso. eapply set_empty_has; [apply HQ, Hb|done|done].
  - apply bool_decide_eq_true in He. rewrite He in Hin. by apply elem_of_nil in Hin.
Qed.

(** A new move gets the old position of its row. *)
Definition relocated d i (m m' : Move) : Prop := to m' = to m ∧ 0 ≤ from m' ∧ kept d i (from m') (from m).

Lemma relocate_sources_ok b c :
  set_wf (deletions (changes b)) → set_wf (insertions (changes b)) →
  (∀ m, m ∈ moves (changes c) → 0 ≤ from m ∧ ¬ has (insertions (changes b)) (from m) ∧
     from m + size (deletions (changes b)) < npos) →
  ∃ l, relocate_sources b c = Some (with_moves c l) ∧
    Forall2 (relocated (deletions (changes b)) (insertions (changes b))) (moves (changes c)) l.
Proof.
  intros Hd Hi Hm. unfold relocate_sources.
  destruct (negb _ || _) eqn:Hcond.
  - assert (∃ l, mapM (λ m, u ← set_unshift (insertions (changes b)) (from m);
        Some (mkMove (set_shift (deletions (changes b)) u) (to m))) (moves (changes c)) = Some l ∧
      Forall2 (relocated (deletions (changes b)) (insertions (changes b))) (moves (changes c)) l) as (l&->&?).
    { clear Hcond. induction (moves (changes c)) as [|m mv IH]; [by exists []|].
      destruct IH as (l&Hl&?); [intros; apply Hm; by constructor|].
      destruct (Hm m ltac:(constructor)) as (Hf&Hn&Hfit). pose proof (size_bounds _ Hd) as [? _].
      pose proof (rank_bounds _ (from m) Hi).
      rewrite mapM_cons, law_unshift by (done || lia). cbn [mbind option_bind]. rewrite Hl.
      cbn [mbind option_bind]. eexists. split; [done|]. constructor; [|done].
      destruct (law_shift (deletions (changes b)) (from m - rank (insertions (changes b)) (from m)) Hd)
        as [? ?]; [lia|lia|]. pose proof (rank_bounds (deletions (changes b)) 
          (set_shift (deletions (changes b)) (from m - rank (insertions (changes b)) (from m))) Hd).
      split; [done|]. split; [simpl; lia|]. split_and!; [done|done|]. simpl. unfold unshifted. lia. }
    cbn [mbind option_bind]. eauto.
  - apply orb_false_iff in Hcond as [Hde Hie]. apply negb_false_iff in Hde, Hie.
    exists (moves (changes c)). split; [by destruct c as [[] ? ?]|].
    assert (∀ m, m ∈ moves (changes c) → 0 ≤ from m) as Hf by (intros; by apply Hm). clear Hm.
    induction (moves (changes c)) as [|m mv IH]; [by constructor|]. constructor.
    + split; [done|]. split; [apply Hf; by constructor|].
      apply kept_empty; [done|done|by apply set_empty_has..|done].
    + apply IH. intros; apply Hf; by constructor.
Qed.
End Steps.

(** ** The row map of a merge *)
Section MergedRows.
Context {T : Type} {ops : IndexSetOps T} {laws : IndexSetLaws T}.
Implicit Types (d i : T) (mv : list Move).

Lemma NoDup_to (l : list Move) m m' :
  NoDup (to <$> l) → m ∈ l → m' ∈ l → to m = to m' → m = m'.
Proof.
  induction l as [|x l IH]; intros Hnd Hm Hm' Heq; [by apply elem_of_nil in Hm|].
  rewrite fmap_cons in Hnd. apply NoDup_cons in Hnd as [Hn Hnd].
  apply elem_of_cons in Hm as [->|Hm], Hm' as [->|Hm']; [done| | |by apply IH].
  - destruct Hn. rewrite Heq. by apply list_elem_of_fmap_2.
  - destruct Hn. rewrite <-Heq. by apply list_elem_of_fmap_2.
Qed.

(** A builder maps rows one to one. *)
Lemma row_inj d i mv o o' t : rows_wf d i mv → row_to d i mv o t → row_to d i mv o' t → o = o'.
Proof.
  intros (Hd&Hi&Hm&Hnf&Hnt) (_&_&[H1|H1]) (_&_&[H2|H2]).
  - by injection (NoDup_to _ _ _ Hnt H1 H2 eq_refl).
  - apply Hm in H1 as [_ H1]. by destruct H2 as (_&?&_).
  - apply Hm in H2 as [_ H2]. by destruct H1 as (_&?&_).
  - by apply (kept_inj d i o o' t).
Qed.

Lemma row_fun d i mv o t t' : rows_wf d i mv → row_to d i mv o t → row_to d i mv o t' → t = t'.
Proof.
  intros (Hd&Hi&Hm&Hnf&Hnt) (_&_&[H1|H1]) (_&_&[H2|H2]).
  - by injection (NoDup_from _ _ _ Hnf H1 H2 eq_refl).
  - apply Hm in H1 as [H1 _]. by destruct H2 as (?&_).
  - apply Hm in H2 as [H2 _]. by destruct H1 as (?&_).
  - by apply (kept_fun d i o t t').
Qed.

Lemma moves_on_row d i mv dc ic cm old m :
  rows_wf d i mv → rows_wf dc ic cm → old ∈ mv → moves_on cm dc ic old m →
  row_to d i mv (from m) (to old) ∧ row_to dc ic cm (to old) (to m).
Proof.
  intros (Hd&Hi&Hm&_) (Hdc&Hic&Hmc&_) Hold [Hf Hon]. pose proof (Hm _ Hold) as [Ho1 Ho2].
  apply has_range in Ho1; [|done]. apply has_range in Ho2; [|done]. rewrite Hf. split.
  - split; [lia|]. split; [lia|]. left. by destruct old.
  - split; [lia|]. split; [|done]. destruct Hon as [Hin|Hk].
    + apply Hmc in Hin as [_ Hin]. simpl in Hin. apply has_range in Hin; [lia|done].
    + eapply kept_nonneg; [exact Hdc|exact Hic| |exact Hk]. lia.
Qed.

Context (d i : T) (mv : list Move) (dc ic : T) (cm : list Move) (d' i1 i' : T) (l l2 l3 : list Move).
Context (Hrows : rows_wf d i mv) (Hrowsc : rows_wf dc ic cm) (Hd' : set_wf d') (Hi' : set_wf i').
Context (Hmd : ∀ x, has d' x ↔ has d x ∨
  ∃ v, has dc v ∧ ¬ has i v ∧ ¬ has d x ∧ x - rank d x = v - rank i v).
Context (Hm1 : ∀ y, has i1 y ↔ ∃ x, has i x ∧ ¬ has dc x ∧ y = x - rank dc x).
Context (Hmi : ∀ y, has i' y ↔ has ic y ∨ ¬ has ic y ∧ has i1 (y - rank ic y)).
Context (Hl : ∀ m, m ∈ l ↔ ∃ old, old ∈ mv ∧ moves_on cm dc ic old m) (Hlf : NoDup (from <$> l)).
Context (Hl2 : ∀ m, m ∈ l2 ↔ m ∈ cm ∧ (∀ old, old ∈ mv → to old ≠ from m) ∧ ¬ has i (from m)).
Context (Hl2f : NoDup (from <$> l2)) (Hl3 : Forall2 (relocated d i) l2 l3).

(** Members of the relocated new moves *)
Lemma new_moves_elem m : m ∈ l3 ↔ ∃ m0, m0 ∈ l2 ∧ relocated d i m0 m.
Proof.
  clear - Hl3 Hrows. split.
  - intros Hin. apply list_elem_of_lookup in Hin as [k Hk].
    destruct (Forall2_lookup_r _ _ _ _ _ Hl3 Hk) as (m0&Hk0&Hr). exists m0.
    split; [by eapply list_elem_of_lookup_2|done].
  - intros (m0&Hin&Hto&Hf&Hk). apply list_elem_of_lookup in Hin as [k Hk0].
    destruct (Forall2_lookup_l _ _ _ _ _ Hl3 Hk0) as (m1&Hk1&Hto1&Hf1&Hkept1).
    assert (m = m1) as ->; [|by eapply list_elem_of_lookup_2].
    assert (from m = from m1) by (by apply (kept_inj d i _ _ (from m0)); [apply Hrows|..]).
    destruct m, m1; simpl in *. congruence.
Qed.

Lemma new_moves_row m0 m :
  m0 ∈ l2 → relocated d i m0 m →
  kept d i (from m) (from m0) ∧ row_to dc ic cm (from m0) (to m) ∧ mkMove (from m0) (to m) ∈ cm.
Proof.
  intros Hin (Hto&Hf&Hk). apply Hl2 in Hin as (Hin&_&Hn). destruct Hrowsc as (Hdc&Hic&Hmc&_).
  split; [done|]. destruct (Hmc _ Hin) as [H1 H2]. apply has_range in H1; [|done]. apply has_range in H2; [|done].
  rewrite Hto. assert (mkMove (from m0) (to m0) ∈ cm) by (by destruct m0).
  split; [|done]. split; [lia|]. split; [lia|]. by left.
Qed.

Lemma kept_merged o t :
  0 ≤ o → 0 ≤ t → kept d' i' o t ↔ ∃ u, kept d i o u ∧ kept dc ic u t.
Proof.
  destruct Hrows as (Hd&Hi&_), Hrowsc as (Hdc&Hic&_). intros Ho Ht.
  by apply (kept_merge d i dc ic d' i1 i').
Qed.

Lemma merged_moves_in m :
  m ∈ l ++ l3 → has d' (from m) ∧ has i' (to m).
Proof.
  destruct Hrows as (Hd&Hi&Hm&_), Hrowsc as (Hdc&Hic&Hmc&_).
  assert (∀ u, mkMove u (to m) ∈ cm → has i' (to m)) as Hici.
  { intros u Hin. apply Hmi. left. by apply Hmc in Hin as [_ ?]. }
  intros [Hin|Hin]%elem_of_app.
  - apply Hl in Hin as (old&Hin&Hf&Hon). destruct (Hm _ Hin) as [Hfo Hto]. split.
    + apply Hmd. left. by rewrite Hf.
    + destruct Hon as [?|(Hn1&Hn2&E)]; [eauto|]. apply Hmi. right. split; [done|]. apply Hm1.
      exists (to old). split_and!; [done..|]. unfold unshifted in E. lia.
  - apply new_moves_elem in Hin as (m0&Hin0&Hr). destruct (new_moves_row m0 m Hin0 Hr) as ((Hn1&Hn2&E)&_&Hinc).
    split; [|eauto]. apply Hmd. right. exists (from m0). split_and!; [|done|done|done].
    by apply Hmc in Hinc as [? _].
Qed.

(** Every merged move takes a row through both builders. *)
Lemma merged_move_row m :
  m ∈ l ++ l3 → ∃ u, row_to d i mv (from m) u ∧ row_to dc ic cm u (to m).
Proof.
  intros [Hin|Hin]%elem_of_app.
  - apply Hl in Hin as (old&Hin&Hon). exists (to old). by apply moves_on_row.
  - apply new_moves_elem in Hin as (m0&Hin0&Hr). destruct (new_moves_row m0 m Hin0 Hr) as (Hk&Hrow&_).
    exists (from m0). split; [|done]. destruct Hr as (_&Hf&_). split; [done|]. split; [apply Hrow|by right].
Qed.

Lemma merged_moves_from : NoDup (from <$> (l ++ l3)).
Proof.
  destruct Hrows as (Hd&Hi&Hm&_). rewrite fmap_app. apply NoDup_app. split_and!; [done|..].
  - intros x (m&->&Hin)%list_elem_of_fmap (m'&Heq&Hin')%list_elem_of_fmap.
    apply Hl in Hin as (old&Hin&Hf&_). apply Hm in Hin as [Hin _]. rewrite <-Hf, Heq in Hin.
    apply new_moves_elem in Hin' as (?&?&_&_&Hk). by destruct Hk.
  - clear -Hl2f Hl3 Hrows. destruct Hrows as (Hd&Hi&_). induction Hl3 as [|m0 m l2 l3 Hr Hl IH]; [constructor|].
    rewrite fmap_cons in *. apply NoDup_cons in Hl2f as [Hn Hnd]. apply NoDup_cons. split; [|by apply IH].
    intros (m'&Heq&Hin)%list_elem_of_fmap. apply list_elem_of_lookup in Hin as [k Hk].
    destruct (Forall2_lookup_r _ _ _ _ _ Hl Hk) as (m0'&Hk0&Hr'). apply Hn. apply list_elem_of_fmap.
    exists m0'. split; [|by eapply list_elem_of_lookup_2].
    destruct Hr as (_&_&Hr), Hr' as (_&_&Hr'). rewrite Heq in Hr. by apply (kept_fun d i (from m')).
Qed.

Lemma merged_moves_to : NoDup (to <$> (l ++ l3)).
Proof.
  apply NoDup_fmap_2_strong; [|eapply NoDup_fmap_1, merged_moves_from].
  intros m m' Hin Hin' Heq. destruct (merged_move_row m Hin) as (u&Hr1&Hr2).
  destruct (merged_move_row m' Hin') as (u'&Hr1'&Hr2'). rewrite <-Heq in Hr2'.
  rewrite (row_inj dc ic cm _ _ _ Hrowsc Hr2' Hr2) in Hr1'.
  pose proof (row_inj d i mv _ _ _ Hrows Hr1 Hr1') as Hf. destruct m, m'; simpl in *. by subst.
Qed.

Lemma merged_rows_wf : rows_wf d' i' (l ++ l3).
Proof.
  split; [done|]. split; [done|]. split; [apply merged_moves_in|].
  split; [apply merged_moves_from|apply merged_moves_to].
Qed.

Lemma merged_rows o t :
  row_to d' i' (l ++ l3) o t ↔ ∃ u, row_to d i mv o u ∧ row_to dc ic cm u t.
Proof.
  destruct Hrows as (Hd&Hi&Hm&_). pose proof Hrowsc as (Hdc&Hic&Hmc&_). split.
  - intros (Ho&Ht&[Hin|Hk]); [by destruct (merged_move_row _ Hin) as (u&?); exists u|].
    apply kept_merged in Hk as (u&Hk1&Hk2); [|done..]. pose proof (kept_nonneg _ _ _ _ Hd Hi Ho Hk1).
    exists u. split; (split; [done|]); (split; [done|]); by right.
  - intros (u&(Ho&Hu&Hou)&(_&Ht&Hut)). split; [done|]. split; [done|]. destruct Hou as [Hou|Hou].
    + left. apply elem_of_app. left. apply Hl. by exists (mkMove o u).
    + destruct Hut as [Hut|Hut]; [left|right; apply kept_merged; eauto]. apply elem_of_app. right.
      apply new_moves_elem. exists (mkMove u t). split; [|done]. apply Hl2. split_and!; [done| |apply Hou].
      intros old Hin Heq. apply Hm in Hin as [_ Hin]. rewrite Heq in Hin. by destruct Hou as (_&?&_).
Qed.
End MergedRows.

(** ** [merge] *)
Section MergeTheorem.
Context {build : Build} {T : Type} {ops : IndexSetOps T} {laws : IndexSetLaws T}.
Implicit Types (b c : CollectionChangeBuilder T) (d i : T).

(** The sizes for which no index of the merged builder leaves [size_t] and the
    deletions have room for the new ones. *)
Definition merge_fits b c : Prop :=
  fits b (size (insertions (changes c))) ∧
  bound (deletions (changes c)) + size (deletions (changes b)) < npos ∧
  (length (set_ranges (deletions (changes b))) + Z.to_nat (size (deletions (changes c)))
     ≤ set_room (deletions (changes b)))%nat.

(** The modified rows after a merge *)
Definition merged_modifications b c b' : Prop :=
  (∀ t, has (modifications (changes c)) t → has (modifications (changes b')) t) ∧
  (∀ o u t, rows b o u → has (modifications (changes b)) u → rows c u t →
     has (modifications (changes b')) t) ∧
  (∀ t, has (modifications (changes b')) t → has (modifications (changes c)) t ∨
     ∃ u, has (modifications (changes b)) u ∧ rows c u t).

Lemma empty_sets b :
  builder_ok b → empty (changes b) = true →
  (∀ o t, rows b o t ↔ 0 ≤ o ∧ o = t) ∧ ∀ t, ¬ has (modifications (changes b)) t.
Proof.
  intros ((Hd&Hi&_)&Hm&_) He. unfold empty in He.
  apply andb_true_iff in He as [[[[Ed Ei]%andb_true_iff Em]%andb_true_iff _]%andb_true_iff Emv].
  apply bool_decide_eq_true in Emv. split; [|by apply set_empty_has].
  intros o t. unfold rows, row_to. rewrite Emv, elem_of_nil.
  rewrite kept_empty by (done || by apply set_empty_has). intuition lia.
Qed.

(** A set whose elements can move up by [n] *)
Definition room (n : Z) (x : T) : Prop := set_wf x ∧ bound x + n ≤ npos.

Lemma room_wf n x : room n x → set_wf x.
Proof. by intros []. Qed.

Lemma room_nil s : set_wf s → room (size s) set_nil.
Proof.
  intros Hs. pose proof (size_bounds _ Hs) as (?&?&?). split; [apply law_nil|].
  unfold bound at 1. rewrite (proj2 law_nil). simpl. lia.
Qed.

Lemma erased_set_bound p x x1 :
  set_wf p → set_wf x → set_wf x1 →
  (∀ y, has x1 y ↔ ∃ u, has x u ∧ ¬ has p u ∧ y = u - rank p u) → bound x1 ≤ bound x.
Proof.
  intros Hp Hx Hx1 Hm1. pose proof (size_bounds _ Hx) as (_&?&_).
  apply bound_le; [done| |lia]. intros t (u&Hu&_&->)%Hm1.
  pose proof (has_bound _ _ Hx Hu). pose proof (rank_bounds p u Hp). lia.
Qed.

(** One set of modifications through the last loop *)
Lemma merge_column d i (x y : T) :
  set_wf d → set_wf i → room (size i) x → set_wf y →
  ∃ z, (col ← set_erase_set_at x d; col ← set_shift_for_insert_set_at col i;
        col ← set_add_set col y; Some (col, y)) = Some (z, y) ∧ set_wf z ∧
    ∀ t, has z t ↔ has y t ∨ ∃ u, has x u ∧ kept d i u t.
Proof.
  intros Hd Hi [Hx Hxf] Hy.
  destruct (law_erase_set_at x _ Hx Hd) as (x1&->&Hx1&Hm1). cbn [mbind option_bind].
  pose proof (erased_set_bound _ _ _ Hd Hx Hx1 Hm1).
  destruct (law_shift_for_insert_set_at x1 _ Hx1 Hi) as (x2&->&Hx2&Hm2); [lia|]. cbn [mbind option_bind].
  destruct (law_add_set x2 y Hx2 Hy) as (z&->&Hz&Hmz). cbn [mbind option_bind].
  exists z. split_and!; [done|done|]. intros t. rewrite Hmz, Hm2, Hm1. unfold kept, unshifted. split.
  - intros [(Hn&u&?&?&?)|?]; [|by left]. right. exists u. split_and!; done || lia.
  - intros [?|(u&?&?&?&?)]; [by right|]. left. split; [done|]. exists u. split_and!; done || lia.
Qed.

Lemma merge_columns_ok b c :
  set_wf (deletions (changes c)) → set_wf (insertions (changes c)) →
  cols_all (room (size (insertions (changes c)))) b → cols_wf c →
  ∃ b' c', merge_columns b c = Some (b', c') ∧ same_rows b b' ∧ cols_wf b' ∧
    ∀ t, has (modifications (changes b')) t ↔ has (modifications (changes c)) t ∨
      ∃ u, has (modifications (changes b)) u ∧ kept (deletions (changes c)) (insertions (changes c)) u t.
Proof.
  intros Hd Hi Hb Hc. unfold merge_columns. set (F := λ (col other : T), _).
  destruct (for_each_col2_ok F (room (size (insertions (changes c)))) set_wf b c)
    as (b'&c'&->&Hs&_&Hbw&_&Heq); [| |by intros ? _; eapply Forall_impl; [done|apply room_wf]|done|done|].
  - intros x y Hx Hy. destruct (merge_column _ _ x y Hd Hi Hx Hy) as (z&Hz&?&_). eauto.
  - by apply room_nil.
  - destruct (merge_column _ _ _ _ Hd Hi (proj1 Hb) (proj1 Hc)) as (z&Heq'&_&Hmz).
    unfold F in Heq. rewrite Heq' in Heq. injection Heq as Ez _. exists b', c'. by rewrite <-Ez.
Qed.

(** The steps up to the concatenation of the moves *)
Lemma merge_moves_ok b c :
  builder_ok b → builder_ok c → merge_fits b c →
  ∃ b' c' l2, (∀ R (k : CollectionChangeBuilder T → CollectionChangeBuilder T → option R),
      ('(b, c) ← update_old_moves b c; c ← ignore_new_moves b c;
       '(b, c) ← carry_modifications b c; c ← relocate_sources b c; k b c) = k b' c') ∧
    updated (room (size (insertions (changes c)))) b c b' c' ∧
    (∀ m, m ∈ moves (changes b') ↔ ∃ old, old ∈ moves (changes b) ∧
       moves_on (moves (changes c)) (deletions (changes c)) (insertions (changes c)) old m) ∧
    NoDup (from <$> moves (changes b')) ∧
    (∀ m, m ∈ l2 ↔ m ∈ moves (changes c) ∧ (∀ old, old ∈ moves (changes b) → to old ≠ from m) ∧
       ¬ has (insertions (changes b)) (from m)) ∧
    NoDup (from <$> l2) ∧
    Forall2 (relocated (deletions (changes b)) (insertions (changes b))) l2 (moves (changes c')) ∧
    (∀ t, has (modifications (changes c')) t ↔ has (modifications (changes c)) t ∨
       carried (modifications (changes b)) (moves (changes c))
         (λ m, ∃ old, old ∈ moves (changes b) ∧ to old = from m) t ∨
       carried (modifications (changes b)) l2 (λ _, True) t).
Proof.
  intros Hb Hc ((Hfi&Hfm&Hfc)&Hfd&_). pose proof Hb as ((Hd&Hi&Hm)&Hbm&Hbc).
  pose proof Hc as ((Hdc&Hic&Hmc)&_).
  assert (cols_all (room (size (insertions (changes c)))) b) as Hbr.
  { split; [done|]. rewrite Forall_forall in Hbc, Hfc |- *. split; auto. }
  destruct (update_old_moves_ok _ (room_wf _) (room_nil _ Hic) b c Hb Hbr Hc Hfi)
    as (b1&c1&He1&(Ed1&Ei1&Edc1&Eic1&Hbw1&Hcw1&Em1)&Hnd1&Hcm1&Hbm1&Hnf1&Hmod1).
  assert (∀ m, m ∈ moves (changes c) → 0 ≤ from m < npos ∧ 0 ≤ to m < npos ∧ from m < bound (deletions (changes c))) as Hcr.
  { intros m Hin. apply Hmc in Hin as [Hin1 Hin2]. pose proof (has_range _ _ Hdc Hin1).
    pose proof (has_range _ _ Hic Hin2). pose proof (has_bound _ _ Hdc Hin1). done. }
  destruct (ignore_new_moves_ok b1 c1) as (l2&He2&Hl2f&Hl2);
    [by rewrite Ei1|by rewrite Edc1|by intros m [Hin%Hcr _]%Hcm1; lia|done|].
  assert (∀ m, m ∈ l2 ↔ m ∈ moves (changes c) ∧ (∀ old, old ∈ moves (changes b) → to old ≠ from m) ∧
    ¬ has (insertions (changes b)) (from m)) as Hl2'.
  { intros m. rewrite Hl2, Hcm1, Ei1. tauto. }
  destruct (carry_modifications_ok _ (room_wf _) (room_nil _ Hic) b1 (with_moves c1 l2))
    as (b2&c2&He3&(Ed2&Ei2&Emv2)&(Edc2&Eic2&Emc2)&Hbw2&Hcw2&Em2&Hmod2); [done|done| |].
  { intros m [Hin%Hcr _]%Hl2'. lia. }
  simpl in *.
  destruct (relocate_sources_ok b2 c2) as (l3&He4&Hl3);
    [by rewrite Ed2, Ed1|by rewrite Ei2, Ei1|rewrite Emc2, Ei2, Ei1, Ed2, Ed1|].
  { intros m (Hin%Hcr&_&Hn)%Hl2'. split_and!; [lia|done|lia]. }
  rewrite Emc2, Ed2, Ed1, Ei2, Ei1 in Hl3.
  exists b2, (with_moves c2 l3), l2. split_and!; try done.
  - intros R k. rewrite He1. cbn [mbind option_bind]. rewrite He2. cbn [mbind option_bind].
    rewrite He3. cbn [mbind option_bind]. by rewrite He4.
  - split_and!; simpl; congruence || done.
  - by rewrite Emv2.
  - by rewrite Emv2.
  - intros t. simpl. rewrite Hmod2, Hmod1, Em1. tauto.
Qed.

(** The modifications after the last loop *)
Lemma merged_modifications_ok b c l2 (M' Mc' : Z → Prop) :
  builder_ok b → builder_ok c →
  (∀ m, m ∈ l2 ↔ m ∈ moves (changes c) ∧ (∀ old, old ∈ moves (changes b) → to old ≠ from m) ∧
     ¬ has (insertions (changes b)) (from m)) →
  (∀ t, Mc' t ↔ has (modifications (changes c)) t ∨
       carried (modifications (changes b)) (moves (changes c))
         (λ m, ∃ old, old ∈ moves (changes b) ∧ to old = from m) t ∨
       carried (modifications (changes b)) l2 (λ _, True) t) →
  (∀ t, M' t ↔ Mc' t ∨ ∃ u, has (modifications (changes b)) u ∧
     kept (deletions (changes c)) (insertions (changes c)) u t) →
  (∀ t, has (modifications (changes c)) t → M' t) ∧
  (∀ o u t, rows b o u → has (modifications (changes b)) u → rows c u t → M' t) ∧
  (∀ t, M' t → has (modifications (changes c)) t ∨
     ∃ u, has (modifications (changes b)) u ∧ rows c u t).
Proof.
  intros (_&Hbm&_) ((Hdc&Hic&Hmc&_)&_) Hl2 HMc HM. split_and!.
  - intros t Ht. apply HM. left. apply HMc. by left.
  - intros o u t (_&_&Hou) Hu (_&_&[Hin|Hk]); apply HM; [left|right; eauto]. apply HMc. right.
    destruct Hou as [Hou|Hou].
    + left. exists (mkMove u t). split_and!; [done| |done|done]. by exists (mkMove o u).
    + destruct (decide (Exists (λ old, to old = u) (moves (changes b)))) as [(old&Hold&E)%Exists_exists|Hne].
      * left. exists (mkMove u t). split_and!; [done| |done|done]. by exists old.
      * right. exists (mkMove u t). split_and!; [|done..]. apply Hl2. split_and!; [done| |apply Hou].
        intros old Hold E. apply Hne, Exists_exists. by exists old.
  - assert (∀ l sel t, (∀ m, m ∈ l → m ∈ moves (changes c)) → carried (modifications (changes b)) l sel t →
      ∃ u, has (modifications (changes b)) u ∧ rows c u t) as Hcar.
    { intros l sel t Hl (m&Hin%Hl&_&Hu&->). exists (from m). split; [done|].
      pose proof (Hmc _ Hin) as [_ Ht]. apply has_range in Ht; [|done]. pose proof (has_range _ _ Hbm Hu).
      split; [lia|]. split; [lia|]. left. by destruct m. }
    intros t [[?|[Hca|Hca]]%HMc|(u&Hu&Hk)]%HM; [by left|right..].
    + by eapply Hcar.
    + eapply Hcar; [|done]. intros m. apply Hl2.
    + exists u. split; [done|]. pose proof (has_range _ _ Hbm Hu). split; [lia|].
      split; [|by right]. eapply kept_nonneg; [exact Hdc|exact Hic| |exact Hk]. lia.
Qed.

Lemma merge_changes b c :
  builder_ok b → builder_ok c → merge_fits b c →
  ∃ b', ChangeBuilder.merge b c = Some b' ∧ builder_ok b' ∧
    (∀ o t, rows b' o t ↔ ∃ u, rows b o u ∧ rows c u t) ∧ merged_modifications b c b'.
Proof.
  intros Hb Hc Hfits. pose proof Hfits as ((Hfi&Hfm&Hfc)&Hfd&Hroom). unfold merge.
  destruct (empty (changes c)) eqn:Hce.
  { destruct (empty_sets c Hc Hce) as [Hrow Hnm]. exists b. split_and!; [done|done|..].
    - intros o t. split; [|by intros (u&?&[_ ->]%Hrow)].
      intros Hr. exists t. split; [done|]. apply Hrow. split; [apply Hr|done].
    - unfold merged_modifications. setoid_rewrite Hrow. split_and!.
      + by intros t ?%Hnm.
      + by intros o u t Hr Hu [_ ->].
      + intros t Ht. right. exists t. split_and!; [done| |done]. destruct Hb as (_&Hbm&_).
        by apply has_range in Ht as [? _]. }
  destruct (empty (changes b)) eqn:Hbe.
  { destruct (empty_sets b Hb Hbe) as [Hrow Hnm]. exists c. split_and!; [done|done|..].
    - intros o t. split; [|by intros (u&[_ ->]%Hrow&?)].
      intros Hr. exists o. split; [|done]. apply Hrow. split; [apply Hr|done].
    - split_and!; [done| |by left]. by intros o u t _ ?%Hnm. }
  pose proof Hb as (Hrows&_). pose proof Hc as (Hrowsc&_).
  pose proof Hrows as (Hd&Hi&Hm). pose proof Hrowsc as (Hdc&Hic&Hmc).
  rewrite !verify_true by done. cbn [mbind option_bind andb].
  destruct (merge_moves_ok b c Hb Hc Hfits)
    as (b1&c1&l2&Hk&(Ed&Ei&Edc&Eic&Hbw&Hcw&Em)&Hl&Hlf&Hl2&Hl2f&Hl3&Hmod).
  rewrite Hk. clear Hk. cbn [deletions insertions with_moves with_changes changes].
  destruct (law_add_shifted_by (deletions (changes b1)) (insertions (changes b1)) (deletions (changes c1)))
    as (d'&->&Hd'&Hmd); [rewrite Ed; done|rewrite Ei; done|rewrite Edc; done|rewrite Ed, Edc; lia|rewrite Ed, Edc; done|].
  cbn [mbind option_bind]. rewrite Ed, Ei, Edc in Hmd.
  cbn [deletions insertions with_moves with_deletions with_changes changes].
  destruct (law_erase_set_at (insertions (changes b1)) (deletions (changes c1))) as (i1&->&Hi1&Hm1);
    [rewrite Ei; done|rewrite Edc; done|]. cbn [mbind option_bind]. rewrite Ei, Edc in Hm1.
  pose proof (erased_set_bound _ _ _ Hdc Hi Hi1 Hm1).
  destruct (law_insert_set_at i1 (insertions (changes c1))) as (i'&->&Hi'&Hmi);
    [done|rewrite Eic; done|rewrite Eic; lia|]. cbn [mbind option_bind]. rewrite Eic in Hmi.
  pose proof (merged_rows_wf _ _ _ _ _ _ d' i1 i' _ l2 _ Hrows Hrowsc Hd' Hi' Hmd Hm1 Hmi Hl Hlf Hl2 Hl2f Hl3) as Hwf.
  pose proof (merged_rows _ _ _ _ _ _ d' i1 i' _ l2 _ Hrows Hrowsc Hd' Hi' Hmd Hm1 Hmi Hl Hl2 Hl3) as Hrow.
  unfold clean_up_stale_moves. simpl.
  destruct (stale_loop_ok _ [] _ _ Hwf) as (l'&d2&i2&->&Hwf2&Hrow2). cbn [mbind option_bind].
  set (b2 := with_moves _ l').
  destruct (merge_columns_ok b2 c1) as (b3&c3&->&(Ed3&Ei3&Emv3)&Hbw3&Hmod3);
    [rewrite Edc; done|rewrite Eic; done|rewrite Eic; done|done|]. cbn [mbind option_bind].
  simpl in Ed3, Ei3, Emv3. rewrite verify_true; [|rewrite Ed3, Ei3, Emv3; apply Hwf2|rewrite Ed3; apply Hwf2|rewrite Ei3; apply Hwf2].
  cbn [mbind option_bind]. exists b3. split_and!; [done|..].
  - split; [|done]. by rewrite Ed3, Ei3, Emv3.
  - intros o t. unfold rows at 1. by rewrite Ed3, Ei3, Emv3, Hrow2, Hrow.
  - apply (merged_modifications_ok b c l2 _ _ Hb Hc Hl2 Hmod). intros t. rewrite Hmod3. simpl.
    by rewrite Edc, Eic, Em.
Qed.
End MergeTheorem.

(** ** Deciding the conditions on the chunked implementation *)
Section Decide.
Context {build : Build}.

#[export] Instance moves_wf_dec (d i : list Chunk) mv : Decision (moves_wf d i mv).
Proof.
  refine (cast_if_and3 (decide (Forall (λ m, has d (from m) ∧ has i (to m)) mv))
    (decide (NoDup (from <$> mv))) (decide (NoDup (to <$> mv)))).
  all: unfold moves_wf; rewrite <-?Forall_forall; tauto.
Defined.

#[export] Instance builder_ok_dec (b : CollectionChangeBuilder (list Chunk)) : Decision (builder_ok b).
Proof. unfold builder_ok, rows_wf, set_wf; simpl. apply _. Defined.

#[export] Instance merge_fits_dec (b c : CollectionChangeBuilder (list Chunk)) : Decision (merge_fits b c).
Proof. unfold merge_fits, fits. apply _. Defined.
End Decide.
