(* ===== verification/ChangeFinal.v ===== *)
(** The remaining operations of [CollectionChangeBuilder]: [modify], [clear],
    the end of parsing a transaction and the change set that is reported. *)
From stdpp Require Import gmap.
From S2P Require Import Prelude ChunkedRangeVector IndexSet IndexSetTheory IndexSetMerge IndexSetSpec RowMap ChangeBuilder ChangeTheory ChangeMerge.
Import ChangeBuilder.

Section Final.
Context {build : Build} {T : Type} {ops : IndexSetOps T} {laws : IndexSetLaws T}.
Implicit Types (b c : CollectionChangeBuilder T) (d i : T).

Lemma has_nil x : ¬ has (T := T) set_nil x.
Proof. unfold has. rewrite (proj2 law_nil). by intros []. Qed.

(** ** [modify] *)
Lemma modify_changes b ndx col :
  builder_ok b → 0 ≤ ndx < npos → 0 ≤ col ≤ npos →
  ∃ b', modify b ndx col = Some b' ∧ builder_ok b' ∧
    deletions (changes b') = deletions (changes b) ∧ insertions (changes b') = insertions (changes b) ∧
    moves (changes b') = moves (changes b) ∧ m_track_columns b' = m_track_columns b ∧
    (∀ x, has (modifications (changes b')) x ↔ has (modifications (changes b)) x ∨ x = ndx) ∧
    if negb (m_track_columns b) || (col =? npos) then columns (changes b') = columns (changes b)
    else ∀ k x, (∃ s, columns (changes b') !! k = Some s ∧ has s x) ↔
      (∃ s, columns (changes b) !! k = Some s ∧ has s x) ∨ k = Z.to_nat col ∧ x = ndx.
Proof.
  intros (Hrows&Hm&Hcols) Hn Hcol. unfold modify.
  destruct (law_add _ ndx Hm Hn) as (m'&->&Hm'&Hmm). cbn [mbind option_bind]. simpl.
  destruct (_ || _) eqn:Hcond.
  { eexists. split_and!; done. }
  set (n := Z.to_nat col). set (cols := columns (changes b) ++ _).
  assert (Forall set_wf cols) as Hwf.
  { apply Forall_app. split; [done|]. apply Forall_replicate, law_nil. }
  assert (n < length cols)%nat as Hlt by (unfold cols; rewrite length_app, length_replicate; lia).
  assert (∀ k x, (∃ s, cols !! k = Some s ∧ has s x) ↔ ∃ s, columns (changes b) !! k = Some s ∧ has s x) as Hcc.
  { intros k x. unfold cols. split; intros (s&Hk&Hx).
    - apply lookup_app_Some in Hk as [?|[_ Hr]]; [eauto|]. apply lookup_replicate in Hr as [-> _]. by destruct (has_nil x).
    - exists s. split; [|done]. by apply lookup_app_l_Some. }
  destruct (lookup_lt_is_Some_2 _ _ Hlt) as [s Hs]. rewrite Hs. cbn [mbind option_bind].
  destruct (law_add s ndx) as (s'&->&Hs'&Hms); [by eapply Forall_lookup_1|done|]. cbn [mbind option_bind].
  eexists. split; [done|]. split.
  { split; [done|]. split; [done|]. by apply Forall_insert. }
  do 4 (split; [done|]). split; [done|]. intros k x. rewrite <-Hcc. simpl. fold n.
  destruct (decide (k = n)) as [->|Hne].
  - rewrite list_lookup_insert_eq by done. split.
    + intros (s0&Hs0&Hx). injection Hs0 as <-. apply Hms in Hx as [Hx| ->]; [left; eauto|by right].
    + intros [(s0&Hs0&Hx)|[_ ->]]; exists s'; (split; [done|]); apply Hms; [left; congruence|by right].
  - rewrite list_lookup_insert_ne by done. split; [by left|]. by intros [?|[? _]].
Qed.

(** ** [clear] *)
Lemma foldl_add_lengths (rs : list (Z * Z)) n :
  0 ≤ n ≤ npos → foldl (λ n r, n +w (r.2 -w r.1)) n rs = wrap (n + sum_len rs).
Proof.
  revert n. induction rs as [|r rs IH]; intros n Hn; simpl.
  { rewrite wrap_small by lia. lia. }
  rewrite IH by apply wrap_range. unfold range_len. wrap_ring.
Qed.

Lemma foldl_sub_lengths (rs : list (Z * Z)) n :
  0 ≤ n ≤ npos → foldl (λ n r, n -w (r.2 -w r.1)) n rs = wrap (n - sum_len rs).
Proof.
  revert n. induction rs as [|r rs IH]; intros n Hn; simpl.
  { rewrite wrap_small by lia. lia. }
  rewrite IH by apply wrap_range. unfold range_len. wrap_ring.
Qed.

Lemma clear_changes b old_size :
  builder_ok b → 0 ≤ old_size ≤ npos →
  let n := if decide (old_size = npos) then npos
           else old_size + size (deletions (changes b)) - size (insertions (changes b)) in
  0 ≤ n ≤ npos →
  ∃ b', clear b old_size = Some b' ∧ builder_ok b' ∧
    (∀ x, has (deletions (changes b')) x ↔ 0 ≤ x < n) ∧ insertions (changes b') = set_nil ∧
    moves (changes b') = [] ∧ modifications (changes b') = set_nil ∧ columns (changes b') = [] ∧
    m_track_columns b' = m_track_columns b ∧
    ∀ o t, rows b' o t ↔ n ≤ o ∧ t = o - n.
Proof.
  intros ((Hd&Hi&_)&_) Ho n Hn. unfold clear.
  set (k := if old_size =? npos then _ else _).
  assert (k = n) as ->.
  { unfold k, n in *. destruct (Z.eqb_spec old_size npos); [by rewrite decide_True|].
    rewrite decide_False in Hn |- * by done.
    rewrite foldl_add_lengths by done. rewrite foldl_sub_lengths by apply wrap_range.
    fold (size (deletions (changes b))) (size (insertions (changes b))).
    rewrite wrap_sub_l, wrap_small by lia. done. }
  destruct (law_set (deletions (changes b)) n Hn) as (d&->&Hd'&Hmd). cbn [mbind option_bind].
  eexists. split; [done|]. split.
  { split; [|split; [apply law_nil|constructor]]. split; [done|]. split; [apply law_nil|].
    split; [by intros m ?%elem_of_nil|]. split; constructor. }
  split_and!; [done..|]. intros o t. unfold rows, row_to. simpl. rewrite elem_of_nil.
  unfold kept, unshifted. rewrite Hmd. assert (rank (T := T) set_nil t = 0) as ->.
  { unfold rank. by rewrite (proj2 law_nil). }
  pose proof (has_nil t). destruct (decide (0 ≤ o)) as [Ho'|]; [|lia].
  assert (rank d o = Z.min o n) as ->; [|intuition lia].
  apply (rank_determined d (λ x, Z.min x n)); [done|lia| |done].
  intros x Hx. destruct (decide (has d x)) as [Hx'|Hx']; rewrite Hmd in Hx'; lia.
Qed.

(** ** [finalize] *)
Lemma finalize_changes b :
  builder_ok b → bound (modifications (changes b)) + size (deletions (changes b)) ≤ npos →
  ∃ s, finalize b = Some s ∧ deletions s = deletions (changes b) ∧
    insertions s = insertions (changes b) ∧ moves s = moves (changes b) ∧
    columns s = columns (changes b) ∧ set_wf (modifications s) ∧ set_wf (modifications_new s) ∧
    (∀ t, has (modifications_new s) t ↔ has (modifications (changes b)) t ∧ ¬ has (insertions (changes b)) t) ∧
    (∀ o, has (modifications s) o ↔ ∃ t, has (modifications_new s) t ∧
       kept (deletions (changes b)) (insertions (changes b)) o t).
Proof.
  intros ((Hd&Hi&_)&Hm&_) Hfit. unfold finalize.
  destruct (law_erase_set_at _ _ Hm Hi) as (x1&->&Hx1&Hm1). cbn [mbind option_bind].
  pose proof (erased_set_bound _ _ _ Hi Hm Hx1 Hm1).
  destruct (law_shift_for_insert_set_at x1 _ Hx1 Hd) as (x2&->&Hx2&Hm2); [lia|]. cbn [mbind option_bind].
  destruct (law_remove_set _ _ Hm Hi) as (x3&->&Hx3&Hm3). cbn [mbind option_bind].
  eexists. split; [done|]. simpl. split_and!; try done. intros o. rewrite Hm2, Hm1. setoid_rewrite Hm3.
  unfold kept, unshifted. split.
  - intros (Hn&t&?&?&?). exists t. split_and!; done || lia.
  - intros (t&[??]&?&?&?). split; [done|]. exists t. split_and!; done || lia.
Qed.

(** ** [parse_complete] *)
Definition mapped_moves (l : list (Z * Z)) : list Move :=
  (λ p, mkMove p.2 p.1) <$> filter (λ p, p.1 ≠ p.2) l.

Lemma parse_loop_ok (l : list (Z * Z)) : ∀ b,
  set_wf (deletions (changes b)) → set_wf (insertions (changes b)) →
  NoDup l.*1 → NoDup l.*2 →
  (∀ p, p ∈ l → has (deletions (changes b)) p.2 ∧ has (insertions (changes b)) p.1) →
  ∃ d i, foldlM (λ b move,
      d ← set_contains (deletions (changes b)) move.2;
      i ← set_contains (insertions (changes b)) move.1;
      assert_debug! d;
      assert_debug! i;
      if move.1 =? move.2 then
        d ← set_remove (deletions (changes b)) move.2 1;
        i ← set_remove (insertions (changes b)) move.1 1;
        Some (with_insertions (with_deletions b d) i)
      else Some (with_moves b (moves (changes b) ++ [mkMove move.2 move.1]))) b l =
    Some (with_moves (with_insertions (with_deletions b d) i) (moves (changes b) ++ mapped_moves l)) ∧
    set_wf d ∧ set_wf i ∧
    (∀ x, has d x ↔ has (deletions (changes b)) x ∧ ¬ (x, x) ∈ l) ∧
    (∀ x, has i x ↔ has (insertions (changes b)) x ∧ ¬ (x, x) ∈ l).
Proof.
  induction l as [|[new old] l IH]; intros b Hd Hi Hn1 Hn2 Hl.
  { exists (deletions (changes b)), (insertions (changes b)).
    rewrite app_nil_r. split; [by destruct b as [[] ? ?]|]. split_and!; [done..| |];
      intros x; rewrite elem_of_nil; tauto. }
  cbn [foldlM fst snd]. rewrite !fmap_cons in *. simpl in *.
  apply NoDup_cons in Hn1 as [Hn1 Hn1'], Hn2 as [Hn2 Hn2'].
  destruct (Hl (new, old)) as [Hold Hnew]; [constructor|]. simpl in *.
  pose proof (has_range _ _ Hd Hold). pose proof (has_range _ _ Hi Hnew).
  rewrite !law_contains by (done || lia). cbn [mbind option_bind]. rewrite !bool_decide_true by done.
  assert (∀ p, p ∈ l → p.1 ≠ new ∧ p.2 ≠ old) as Hne.
  { intros p Hp. split; intros <-; [apply Hn1|apply Hn2]; by apply list_elem_of_fmap_2. }
  assert (∀ x, (x, x) ∈ (new, old) :: l ↔ x = new ∧ new = old ∨ (x, x) ∈ l) as Hcons.
  { intros x. rewrite elem_of_cons. split; [intros [[= -> ->]|?]|intros [[-> ->]|?]]; tauto. }
  unfold mapped_moves. rewrite filter_cons. simpl.
  rewrite !orb_true_r. destruct (Z.eqb_spec new old) as [->|Hdiff].
  - destruct (law_remove (deletions (changes b)) old 1 Hd) as (d&->&Hd'&Hmd); [lia..|]. cbn [mbind option_bind].
    destruct (law_remove (insertions (changes b)) old 1 Hi) as (i&->&Hi'&Hmi); [lia..|]. cbn [mbind option_bind].
    destruct (IH (with_insertions (with_deletions b d) i)) as (d'&i'&->&?&?&Hmd'&Hmi'); [done..| |].
    { intros p Hp. simpl. rewrite Hmd, Hmi. pose proof (Hne p Hp). destruct (Hl p); [by constructor|]. split; split; done || lia. }
    exists d', i'. split; [|split_and!; [done..| |]].
    + by rewrite decide_False by tauto.
    + intros x. rewrite Hmd', Hcons. simpl. rewrite Hmd. intuition lia.
    + intros x. rewrite Hmi', Hcons. simpl. rewrite Hmi. intuition lia.
  - cbn [mbind option_bind]. destruct (IH (with_moves b (moves (changes b) ++ [mkMove old new]))) as (d'&i'&->&?&?&Hmd'&Hmi'); [done..| |].
    { intros p Hp. apply Hl. by constructor. }
    exists d', i'. split; [|split_and!; [done..| |]].
    + rewrite decide_True by done. simpl. by rewrite <-app_assoc.
    + intros x. rewrite Hmd', Hcons. simpl. tauto.
    + intros x. rewrite Hmi', Hcons. simpl. tauto.
Qed.

Lemma parse_complete_changes b :
  set_wf (deletions (changes b)) → set_wf (insertions (changes b)) →
  (∀ new old, m_move_mapping b !! new = Some old →
     has (deletions (changes b)) old ∧ has (insertions (changes b)) new) →
  (∀ new new' old, m_move_mapping b !! new = Some old → m_move_mapping b !! new' = Some old → new = new') →
  ∃ b', parse_complete b = Some b' ∧ m_move_mapping b' = ∅ ∧
    Sorted move_le (moves (changes b')) ∧
    (∀ m, m ∈ moves (changes b') ↔ m ∈ moves (changes b) ∨
       m_move_mapping b !! to m = Some (from m) ∧ to m ≠ from m) ∧
    (∀ x, has (deletions (changes b')) x ↔
       has (deletions (changes b)) x ∧ m_move_mapping b !! x ≠ Some x) ∧
    (∀ x, has (insertions (changes b')) x ↔
       has (insertions (changes b)) x ∧ m_move_mapping b !! x ≠ Some x) ∧
    modifications (changes b') = modifications (changes b) ∧ columns (changes b') = columns (changes b) ∧
    m_track_columns b' = m_track_columns b ∧ set_wf (deletions (changes b')) ∧ set_wf (insertions (changes b')).
Proof.
  intros Hd Hi Hm Hinj. unfold parse_complete.
  destruct (parse_loop_ok (map_to_list (m_move_mapping b)) b) as (d&i&->&Hwd&Hwi&Hmd&Hmi); [done|done| | | |].
  - apply NoDup_fst_map_to_list.
  - apply NoDup_fmap_2_strong; [|apply NoDup_map_to_list].
    intros [n o] [n' o'] H1%elem_of_map_to_list H2%elem_of_map_to_list; simpl. intros <-. f_equal. eauto.
  - intros [n o] Hp%elem_of_map_to_list. simpl. by apply Hm.
  - cbn [mbind option_bind]. eexists. split; [done|]. simpl. split_and!; [done|..|done|done|done|done|done].
    + apply Sorted_merge_sort. intros x y. unfold move_le. lia.
    + intros m. rewrite merge_sort_Permutation, elem_of_app. unfold mapped_moves.
      rewrite list_elem_of_fmap. split; (intros [?|Hx]; [by left|right]).
      * destruct Hx as ([n o]&->&[??%elem_of_map_to_list]%list_elem_of_filter). done.
      * destruct Hx as [Hx Hne]. exists (to m, from m). split; [by destruct m|].
        apply list_elem_of_filter. split; [done|]. by apply elem_of_map_to_list.
    + intros x. by rewrite Hmd, elem_of_map_to_list.
    + intros x. by rewrite Hmi, elem_of_map_to_list.
Qed.
End Final.
