(* ===== verification/ChangeRefinement.v ===== *)
(** The change builder refines a list of rows: recording insertions, erasures,
    moves, modifications and clears in a builder tracks what the same operations
    do to the list itself. *)
From stdpp Require Import gmap.
From S2P Require Import Prelude ChunkedRangeVector IndexSet IndexSetTheory IndexSetMerge IndexSetSpec RowMap ChangeBuilder ChangeTheory ChangeMerge ChangeFinal.
Import ChangeBuilder.

(** ** The abstract collection

    A row remembers its position in the collection before the transaction, if
    it was there, and whether it was modified since. *)
Record Row := mkRow { origin : option Z; modified : bool }.

Definition fresh_row : Row := mkRow None false.

Inductive Op :=
  | OInsert (index count : Z)
  | OErase (index : Z)
  | OMove (from_ to_ : Z)
  | OModify (ndx col : Z)
  | OClear.

Definition len {A} (l : list A) : Z := Z.of_nat (length l).

(** The row at a position *)
Definition at_ {A} (l : list A) (p : Z) : option A :=
  if decide (0 ≤ p) then l !! Z.to_nat p else None.

Definition list_insert {A} (l : list A) (i : Z) (k : list A) : list A :=
  take (Z.to_nat i) l ++ k ++ drop (Z.to_nat i) l.

Definition list_op (op : Op) (l : list Row) : option (list Row) :=
  match op with
  | OInsert i c =>
      assert! (0 <=? i) && (i <=? len l) && (0 <? c);
      Some (list_insert l i (replicate (Z.to_nat c) fresh_row))
  | OErase i =>
      assert! (0 <=? i) && (i <? len l);
      Some (delete (Z.to_nat i) l)
  | OMove f t =>
      assert! negb (f =? t) && (0 <=? t) && (t <? len l);
      r ← at_ l f;
      Some (list_insert (delete (Z.to_nat f) l) t [r])
  | OModify i c =>
      assert! (0 <=? c) && (c <=? npos);
      r ← at_ l i;
      Some (<[Z.to_nat i := mkRow (origin r) true]> l)
  | OClear => Some []
  end.

(** The same operation recorded in a builder; [clear] is told the size of the
    collection. *)
Definition builder_op `{Build} {T} `{IndexSetOps T} (op : Op) (size : Z)
    (b : CollectionChangeBuilder T) : option (CollectionChangeBuilder T) :=
  match op with
  | OInsert i c => ChangeBuilder.insert b i c true
  | OErase i => ChangeBuilder.erase b i
  | OMove f t => ChangeBuilder.move b f t
  | OModify i c => ChangeBuilder.modify b i c
  | OClear => ChangeBuilder.clear b size
  end.

(** ** Positions in lists *)
Section Positions.
Context {A : Type}.
Implicit Types (l k : list A).

Lemma at_Some l p x : at_ l p = Some x → 0 ≤ p < len l.
Proof.
  unfold at_, len. case_decide; [|done]. intros Hx. apply lookup_lt_Some in Hx. lia.
Qed.

Lemma at_is_Some l p : 0 ≤ p < len l → ∃ x, at_ l p = Some x.
Proof.
  unfold at_, len. intros Hp. rewrite decide_True by lia. apply lookup_lt_is_Some_2. lia.
Qed.

Lemma at_app_l l k p : p < len l → at_ (l ++ k) p = at_ l p.
Proof. unfold at_, len. intros. case_decide; [|done]. apply lookup_app_l. lia. Qed.

Lemma at_app_r l k p : len l ≤ p → at_ (l ++ k) p = at_ k (p - len l).
Proof.
  unfold at_, len. intros. rewrite !decide_True by lia. rewrite lookup_app_r by lia. f_equal. lia.
Qed.

Lemma at_take l i p : p < i → at_ (take (Z.to_nat i) l) p = at_ l p.
Proof. unfold at_. intros. case_decide; [|done]. apply lookup_take_lt. lia. Qed.

Lemma at_drop l i p : 0 ≤ i → 0 ≤ p → at_ (drop (Z.to_nat i) l) p = at_ l (i + p).
Proof.
  unfold at_. intros. rewrite !decide_True by lia. rewrite lookup_drop. f_equal. lia.
Qed.

Lemma len_list_insert l i k : 0 ≤ i ≤ len l → len (list_insert l i k) = len l + len k.
Proof.
  unfold len, list_insert. intros. rewrite !length_app, length_take, length_drop. lia.
Qed.

Lemma at_list_insert l i k p :
  0 ≤ i ≤ len l → at_ (list_insert l i k) p =
    if decide (p < i) then at_ l p else if decide (p < i + len k) then at_ k (p - i)
    else at_ l (p - len k).
Proof.
  intros Hi. unfold list_insert. assert (len (take (Z.to_nat i) l) = i) as Ht.
  { unfold len in *. rewrite length_take. lia. }
  destruct (decide (p < i)).
  { rewrite at_app_l by lia. by apply at_take. }
  rewrite at_app_r, Ht by lia. destruct (decide (p < i + len k)).
  - by rewrite at_app_l by lia.
  - rewrite at_app_r, at_drop by lia. f_equal. lia.
Qed.

Lemma len_delete l i : 0 ≤ i < len l → len (delete (Z.to_nat i) l) = len l - 1.
Proof.
  unfold len. intros. rewrite length_delete by (apply lookup_lt_is_Some_2; lia). lia.
Qed.

Lemma at_delete l i p :
  0 ≤ i → at_ (delete (Z.to_nat i) l) p = if decide (p < i) then at_ l p else at_ l (p + 1).
Proof.
  intros Hi. unfold at_. destruct (decide (0 ≤ p)), (decide (p < i)); try done.
  - rewrite list_lookup_delete_lt by lia. done.
  - rewrite list_lookup_delete_ge by lia. rewrite decide_True by lia. f_equal. lia.
  - lia.
Qed.

Lemma at_replicate n (x : A) p : 0 ≤ p < n → at_ (replicate (Z.to_nat n) x) p = Some x.
Proof. intros. unfold at_. rewrite decide_True by lia. apply lookup_replicate_2. lia. Qed.

Lemma at_insert l i x p :
  0 ≤ i < len l → at_ (<[Z.to_nat i := x]> l) p = if decide (p = i) then Some x else at_ l p.
Proof.
  intros Hi. unfold at_, len in *. destruct (decide (0 ≤ p)).
  - destruct (decide (p = i)) as [->|]; [apply list_lookup_insert_eq; lia|].
    apply list_lookup_insert_ne. lia.
  - by rewrite decide_False by lia.
Qed.
End Positions.

(** ** Lists through a relocation of positions *)
Definition relocates (F : Z → Z → Prop) (l l' : list Row) : Prop :=
  (∀ t0 t r, at_ l t0 = Some r → F t0 t → at_ l' t = Some r) ∧
  (∀ t r, at_ l' t = Some r → r = fresh_row ∨ ∃ t0, at_ l t0 = Some r ∧ F t0 t) ∧
  (∀ t0 t, len l ≤ t0 → F t0 t ↔ t = t0 + (len l' - len l)).

Lemma relocates_insert l i c :
  0 ≤ i ≤ len l → 0 < c →
  relocates (λ t0 t, t = insert_pos i c t0) l (list_insert l i (replicate (Z.to_nat c) fresh_row)).
Proof.
  intros Hi Hc. assert (len (replicate (Z.to_nat c) fresh_row) = c) as Hlen.
  { unfold len. rewrite length_replicate. lia. }
  unfold relocates. rewrite len_list_insert, Hlen by done. unfold insert_pos. split_and!.
  - intros t0 t r Hr ->. pose proof (at_Some _ _ _ Hr). rewrite at_list_insert, Hlen by done.
    repeat case_decide; try lia; [done|]. rewrite <-Hr. f_equal. lia.
  - intros t r. rewrite at_list_insert, Hlen by done. repeat case_decide; intros Hr.
    + right. exists t. by rewrite decide_True.
    + left. rewrite at_replicate in Hr by lia. congruence.
    + right. exists (t - c). rewrite decide_False by lia. split; [done|lia].
  - intros t0 t Ht. case_decide; lia.
Qed.

Lemma relocates_erase l i :
  0 ≤ i < len l → relocates (λ t0 t, t0 ≠ i ∧ t = erase_pos i t0) l (delete (Z.to_nat i) l).
Proof.
  intros Hi. unfold relocates. rewrite len_delete by done. unfold erase_pos. split_and!.
  - intros t0 t r Hr [Hne ->]. rewrite at_delete by lia. destruct (decide (i < t0)).
    + rewrite decide_False by lia. rewrite <-Hr. f_equal. lia.
    + by rewrite decide_True by lia.
  - intros t r. rewrite at_delete by lia. case_decide; intros Hr; right.
    + exists t. rewrite decide_False by lia. split; [done|lia].
    + exists (t + 1). rewrite decide_True by lia. split; [done|lia].
  - intros t0 t Ht. case_decide; lia.
Qed.

Lemma relocates_move l f t r :
  f ≠ t → 0 ≤ t < len l → at_ l f = Some r →
  relocates (λ t0 t', t' = move_pos f t t0) l (list_insert (delete (Z.to_nat f) l) t [r]).
Proof.
  intros Hft Ht Hr. pose proof (at_Some _ _ _ Hr) as Hf.
  pose proof (len_delete l f Hf) as Hlen. assert (len [r] = 1) as Hone by done.
  unfold relocates. rewrite len_list_insert by lia. rewrite Hlen, Hone.
  unfold move_pos, insert_pos, erase_pos.
  assert (∀ p, at_ (list_insert (delete (Z.to_nat f) l) t [r]) p =
    if decide (p < t) then (if decide (p < f) then at_ l p else at_ l (p + 1))
    else if decide (p < t + 1) then Some r
    else if decide (p - 1 < f) then at_ l (p - 1) else at_ l p) as Hat.
  { intros p. rewrite at_list_insert, Hone by lia. rewrite !at_delete by lia.
    replace (p - 1 + 1) with p by lia. repeat case_decide; try done. by replace (p - t) with 0 by lia. }
  split_and!.
  - intros t0 t' r' Hr' ->. rewrite Hat. destruct (decide (t0 = f)) as [->|]; [repeat case_decide; lia || congruence|].
    repeat case_decide; try lia; rewrite <-Hr'; f_equal; lia.
  - intros t' r'. rewrite Hat. intros Hr'. right. repeat case_decide; try lia.
    + exists t'. split; [done|]. repeat case_decide; lia.
    + exists (t' + 1). split; [done|]. repeat case_decide; lia.
    + exists f. split; [congruence|]. repeat case_decide; lia.
    + exists (t' - 1). split; [done|]. repeat case_decide; lia.
    + exists t'. split; [done|]. repeat case_decide; lia.
  - intros t0 t' Ht0. repeat case_decide; lia.
Qed.

(** ** The simulation relation

    [n] is the size of the collection before the transaction; the positions
    from [n] on stand for rows past the end and only move as a block. *)
Section Simulation.
Context {build : Build} {T : Type} {ops : IndexSetOps T} {laws : IndexSetLaws T}.
Implicit Types (b : CollectionChangeBuilder T).

Record sim (n : Z) b (l : list Row) : Prop := mkSim {
  sim_ok : builder_ok b;
  sim_track : m_track_columns b = true;
  sim_rows : ∀ o t, rows b o t ↔
    (0 ≤ o < n ∧ ∃ r, at_ l t = Some r ∧ origin r = Some o) ∨ (n ≤ o ∧ t = len l + (o - n));
  sim_mods : ∀ t, has (modifications (changes b)) t ↔ ∃ r, at_ l t = Some r ∧ modified r = true;
  sim_cols : Forall (λ c, ∀ x, has c x → has (modifications (changes b)) x) (columns (changes b));
  sim_del : ∀ x, has (deletions (changes b)) x → x < n;
  sim_ins : ∀ x, has (insertions (changes b)) x → x < len l;
  sim_old : ∀ t r o, at_ l t = Some r → origin r = Some o → 0 ≤ o < n }.

Lemma sim_relocate n b b' l l' F (R : (Z → Prop) → Z → Prop) :
  sim n b l → relocates F l l' → builder_ok b' → m_track_columns b' = m_track_columns b →
  (∀ o t, rows b' o t ↔ ∃ t0, rows b o t0 ∧ F t0 t) →
  (∀ P x, (∀ y, P y → 0 ≤ y) → R P x ↔ ∃ y, P y ∧ F y x) → cols_image R b b' →
  (∀ x, has (deletions (changes b')) x → x < n) →
  (∀ x, has (insertions (changes b')) x → x < len l') → sim n b' l'.
Proof.
  intros Hs (Hr1&Hr2&Hr3) Hok Htr Hrows HR (Hmods&Hcols) Hd Hi. destruct Hs as [Hb0 Ht0 Hr0 Hm0 Hc0 _ _ Ho0].
  rewrite Ht0 in Hcols. assert (∀ s x, set_wf s → has s x → 0 ≤ x) as Hpos.
  { intros s x Hs Hx. by apply has_range in Hx as [? _]. }
  assert (∀ t, has (modifications (changes b')) t ↔ ∃ y, has (modifications (changes b)) y ∧ F y t) as Hmods'.
  { intros t. rewrite Hmods. apply HR. intros y. apply Hpos, Hb0. }
  constructor; [done|congruence| | | |done|done|].
  - intros o t. rewrite Hrows. split.
    + intros (t0&[(Ho&r&Hr&Hro)|[Ho ->]]%Hr0&HF); [left; eauto|right]. split; [done|].
      apply Hr3 in HF; lia.
    + intros [(Ho&r&Hr&Hro)|[Ho ->]].
      * destruct (Hr2 _ _ Hr) as [->|(t0&?&?)]; [done|]. exists t0. split; [apply Hr0; left; eauto|done].
      * exists (len l + (o - n)). split; [apply Hr0; by right|]. apply Hr3; lia.
  - intros t. rewrite Hmods'. split.
    + intros (y&(r&Hr&Hmr)%Hm0&HF). eauto.
    + intros (r&Hr&Hmr). destruct (Hr2 _ _ Hr) as [->|(t0&?&?)]; [done|].
      exists t0. split; [apply Hm0; eauto|done].
  - pose proof (proj2 (proj2 Hb0)) as Hcwf. clear -Hcols Hc0 HR Hmods' Hpos Hcwf.
    induction Hcols as [|c c' cs cs' Hc Hcs IH]; [constructor|].
    apply Forall_cons in Hc0 as [Hc0 Hcs0], Hcwf as [Hcw Hcws]. constructor; [|by apply IH].
    intros x (y&Hy&HF)%Hc%HR; [|intros y; by apply Hpos]. apply Hmods'. exists y. auto.
  - intros t r o Hr Ho. destruct (Hr2 _ _ Hr) as [->|(t0&?&_)]; [done|]. by eapply Ho0.
Qed.

Lemma bound_lt s k : set_wf s → 0 ≤ k → (∀ x, has s x → x < k) → bound s ≤ k.
Proof. intros Hs Hk Hx. apply bound_le; [done|done|lia]. Qed.

Lemma sim_bounds n b l :
  0 ≤ n → sim n b l →
  bound (insertions (changes b)) ≤ len l ∧ bound (modifications (changes b)) ≤ len l ∧
  Forall (λ c, bound c ≤ len l) (columns (changes b)) ∧ size (deletions (changes b)) ≤ n + 1.
Proof.
  intros Hn [((Hd&Hi&_)&Hm&Hc) _ _ Hmods Hcols Hdel Hins _].
  assert (0 ≤ len l) by (unfold len; lia).
  assert (∀ x, has (modifications (changes b)) x → x < len l) as Hml.
  { intros x (r&Hr%at_Some&_)%Hmods. lia. }
  split_and!; [by apply bound_lt..| |].
  - rewrite Forall_forall in Hc, Hcols |- *. intros c Hin. apply bound_lt; eauto.
  - pose proof (bound_lt _ n Hd Hn Hdel). pose proof (size_bounds _ Hd). lia.
Qed.

Lemma sim_fits n b l k : 0 ≤ n → sim n b l → len l + k ≤ npos → fits b k.
Proof.
  intros Hn Hs Hk. destruct (sim_bounds n b l Hn Hs) as (?&?&Hc&_). split_and!; [lia|lia|].
  eapply Forall_impl; [done|]. simpl. lia.
Qed.

(** The row at a position of the list is one of the first [n] old rows. *)
Lemma sim_deleted n b l d' index :
  sim n b l → 0 ≤ index < len l →
  deleted_row (deletions (changes b)) d' (insertions (changes b)) index →
  ∀ x, has d' x → x < n.
Proof.
  intros Hs Hx Hdel x. unfold deleted_row in Hdel. destruct (decide _) as [?|Hni].
  { rewrite Hdel. by apply (sim_del _ _ _ Hs). }
  destruct Hdel as (o&Ho&Hn&Heq&Hdm). rewrite Hdm. intros [?| ->]; [by apply (sim_del _ _ _ Hs)|].
  assert (rows b o index) as Hr. { split; [done|]. split; [lia|]. by right. }
  apply (sim_rows _ _ _ Hs) in Hr as [[? _]|[? ?]]; lia.
Qed.

Lemma sim_insert n b l i c :
  0 ≤ n → sim n b l → 0 ≤ i ≤ len l → 0 < c → n + len l + c + 2 ≤ npos →
  ∃ b', ChangeBuilder.insert b i c true = Some b' ∧
    sim n b' (list_insert l i (replicate (Z.to_nat c) fresh_row)).
Proof.
  intros Hn Hs Hi Hc Hmax.
  destruct (insert_changes b i c) as (b'&Heq&Hok&Hrows&Hins&Hcols&Hdel&Htr);
    [apply Hs|by eapply sim_fits; [|done|lia]|lia|done|lia|].
  exists b'. split; [done|].
  apply (sim_relocate n b b' l _ _ (λ P, shifted_for P i c) Hs (relocates_insert l i c Hi Hc) Hok Htr Hrows); [|done| |].
  - intros P x HP. unfold shifted_for, insert_pos. split.
    + intros [[? ?]|[? ?]]; [exists x|exists (x - c)]; (split; [done|]); case_decide; lia.
    + intros (y&Hy&->). case_decide; [by left|right]. split; [lia|]. by replace (_ - _) with y by lia.
  - intros x. rewrite Hdel. apply Hs.
  - intros x. rewrite len_list_insert by done. unfold len at 2. rewrite length_replicate, Hins.
    intros [[? _]|[?|[_ Hx]]]; [lia|lia|]. apply Hs in Hx. lia.
Qed.

Lemma sim_erase n b l i :
  0 ≤ n → sim n b l → 0 ≤ i < len l → n + len l + 2 ≤ npos →
  ∃ b', ChangeBuilder.erase b i = Some b' ∧ sim n b' (delete (Z.to_nat i) l).
Proof.
  intros Hn Hs Hi Hmax. destruct (sim_bounds n b l Hn Hs) as (_&_&_&Hsz).
  destruct (erase_changes b i) as (b'&Heq&Hok&Hrows&Hcols&Hins&Hdel&Htr); [apply Hs|lia|lia|].
  exists b'. split; [done|].
  apply (sim_relocate n b b' l _ _ (λ P, erased P i) Hs (relocates_erase l i Hi) Hok Htr Hrows); [|done| |].
  - intros P x HP. unfold erased, erase_pos. split.
    + intros [[? ?]|[? ?]]; [exists x|exists (x + 1)]; (split; [done|]); (split; [lia|]); case_decide; lia.
    + intros (y&Hy&Hne&->). case_decide; [right|left]; split; try lia; [|done]. by replace (_ + _) with y by lia.
  - by apply (sim_deleted n b l _ i).
  - intros x. rewrite len_delete, Hins by done. intros [[? Hx]|[? Hx]]; [lia|]. apply Hs in Hx. lia.
Qed.

Lemma sim_move n b l f t r :
  0 ≤ n → sim n b l → f ≠ t → 0 ≤ t < len l → at_ l f = Some r → n + len l + 3 ≤ npos →
  ∃ b', ChangeBuilder.move b f t = Some b' ∧ sim n b' (list_insert (delete (Z.to_nat f) l) t [r]).
Proof.
  intros Hn Hs Hft Ht Hr Hmax. destruct (sim_bounds n b l Hn Hs) as (_&_&_&Hsz).
  pose proof (at_Some _ _ _ Hr).
  destruct (move_changes b f t) as (b'&Heq&Hok&Hrows&Hcols&Hins&Hdel&Htr);
    [apply Hs|by eapply sim_fits; [|done|lia]|done|lia|lia|lia|].
  exists b'. split; [done|].
  apply (sim_relocate n b b' l _ _ (moved_image f t) Hs (relocates_move l f t r Hft Ht Hr) Hok Htr Hrows); [done|done| |].
  - by apply (sim_deleted n b l _ f).
  - intros x. rewrite len_list_insert by (rewrite len_delete by done; lia). rewrite len_delete, Hins by done.
    unfold len at 2. simpl. unfold inserted, erased.
    intros [[? _]|[?|[? [[? _]|[? Hx]]]]]; try lia. apply Hs in Hx. lia.
Qed.

Lemma sim_modify n b l i c r :
  sim n b l → at_ l i = Some r → 0 ≤ c ≤ npos → len l ≤ npos →
  ∃ b', ChangeBuilder.modify b i c = Some b' ∧ sim n b' (<[Z.to_nat i := mkRow (origin r) true]> l).
Proof.
  intros Hs Hr Hc Hmax. pose proof (at_Some _ _ _ Hr) as Hi.
  destruct (modify_changes b i c) as (b'&Heq&Hok&Hd&Hins&Hmv&Htr&Hmods&Hcols); [apply Hs|lia|done|].
  exists b'. split; [done|]. destruct Hs as [Hb0 Ht0 Hr0 Hm0 Hc0 Hd0 Hi0 Ho0].
  assert (len (<[Z.to_nat i := mkRow (origin r) true]> l) = len l) as Hlen.
  { unfold len. by rewrite length_insert. }
  constructor; [done|congruence| | | |by rewrite Hd|by rewrite Hins, Hlen|].
  - intros o t. unfold rows. rewrite Hd, Hins, Hmv, Hlen. rewrite (Hr0 o t), at_insert by done.
    destruct (decide (t = i)) as [->|]; [|done].
    split; (intros [(Ho&r'&Hr'&Hor)|?]; [left; split; [done|]|by right]);
      eexists; (split; [done|]); simplify_eq/=; congruence.
  - intros t. rewrite Hmods, Hm0, at_insert by done. split.
    + intros [(r'&Hr'&Hmr)| ->]; [|rewrite decide_True by done; eauto].
      destruct (decide (t = i)); eauto.
    + intros (r'&Hr'&Hmr). destruct (decide (t = i)); [by right|]. left; eauto.
  - rewrite Ht0 in Hcols. simpl in Hcols. destruct (c =? npos).
    + rewrite Hcols. eapply Forall_impl; [done|]. simpl. intros s Hsub x ?. apply Hmods. left. auto.
    + apply Forall_forall. intros s Hin x Hx. apply list_elem_of_lookup in Hin as [k Hk].
      apply Hmods. destruct (proj1 (Hcols k x)) as [(s'&Hs'&Hx')|[_ ->]]; [eauto| |by right].
      left. eapply Forall_lookup_1 in Hc0; [|done]. auto.
  - intros t r' o. rewrite at_insert by done. case_decide; intros Hr' Ho; [injection Hr' as <-; simpl in Ho|]; by eapply Ho0.
Qed.

Lemma sim_clear n b l :
  0 ≤ n → sim n b l → n + len l + 2 ≤ npos →
  ∃ b', ChangeBuilder.clear b (len l) = Some b' ∧ sim n b' [].
Proof.
  intros Hn Hs Hmax. destruct (sim_bounds n b l Hn Hs) as (Hbi&_&_&Hsz).
  destruct Hs as [Hb0 Ht0 Hr0 Hm0 Hc0 Hd0 Hi0 _]. pose proof Hb0 as ((Hd&Hi&Hmv)&_).
  assert (0 ≤ len l) by (unfold len; lia).
  assert (len l + size (deletions (changes b)) - size (insertions (changes b)) = n) as Hcount.
  { assert (rows b n (len l)) as (_&_&[Hin%Hmv|(_&_&E)]).
    - apply Hr0. right. lia.
    - destruct Hin as [Hin _]. apply Hd0 in Hin. simpl in Hin. lia.
    - unfold unshifted, rank, size in *. rewrite !(below_high (-1)) in E;
        [lia|by apply law_ranges|done|by apply law_ranges|by apply bound_lt]. }
  destruct (clear_changes b (len l)) as (b'&Heq&Hok&Hdel&Hins&Hmv'&Hmods&Hcols&Htr&Hrows);
    [done|lia|rewrite decide_False, Hcount by lia; lia|].
  rewrite decide_False, Hcount in Hdel, Hrows by lia.
  exists b'. split; [done|]. constructor; [done|congruence| | |by rewrite Hcols| | |].
  - intros o t. rewrite Hrows. unfold at_. rewrite lookup_nil. change (len []) with 0.
    split; [intros [? ->]; right; lia|]. intros [(_&r&Hr&_)|?]; [|lia]. by destruct (decide _).
  - intros t. rewrite Hmods. unfold at_. rewrite lookup_nil. split; [by intros ?%has_nil|].
    intros (r&Hr&_). by destruct (decide _).
  - intros x Hx%Hdel. lia.
  - intros x. rewrite Hins. by intros ?%has_nil.
  - intros t r o. unfold at_. rewrite lookup_nil. by destruct (decide _).
Qed.

(** Every operation preserves the simulation. *)
Definition op_fits (n : Z) (op : Op) (l : list Row) : Prop :=
  n + len l + (match op with OInsert _ c => c | _ => 0 end) + 3 ≤ npos.

Lemma sim_step n b l l' op :
  0 ≤ n → sim n b l → list_op op l = Some l' → op_fits n op l →
  ∃ b', builder_op op (len l) b = Some b' ∧ sim n b' l'.
Proof.
  intros Hn Hs Hop Hfit. unfold op_fits in Hfit. assert (0 ≤ len l) by (unfold len; lia).
  destruct op as [i c|i|f t|i c|]; simpl in *.
  - destruct (_ && _) eqn:Hg in Hop; [|done]. injection Hop as <-.
    apply sim_insert; [done|done|lia|lia|lia].
  - destruct (_ && _) eqn:Hg in Hop; [|done]. injection Hop as <-. apply sim_erase; [done|done|lia|lia].
  - destruct (_ && _) eqn:Hg in Hop; [|done]. destruct (at_ l f) as [r|] eqn:Hr; [|done].
    injection Hop as <-. apply sim_move; [done|done|lia|lia|done|lia].
  - destruct (_ && _) eqn:Hg in Hop; [|done]. destruct (at_ l i) as [r|] eqn:Hr; [|done].
    injection Hop as <-. apply sim_modify; [done|done|lia|lia].
  - injection Hop as <-. apply sim_clear; [done|done|lia].
Qed.

(** ** Runs *)
Fixpoint run_list (os : list Op) (l : list Row) : option (list Row) :=
  match os with [] => Some l | op :: os => l ← list_op op l; run_list os l end.

Fixpoint run_builder (os : list Op) (l : list Row) b : option (CollectionChangeBuilder T) :=
  match os with
  | [] => Some b
  | op :: os => b ← builder_op op (len l) b; l ← list_op op l; run_builder os l b
  end.

(** No collection on the way reaches the limit of [size_t]. *)
Fixpoint run_fits (n : Z) (os : list Op) (l : list Row) : Prop :=
  match os with
  | [] => True
  | op :: os => op_fits n op l ∧ ∀ l', list_op op l = Some l' → run_fits n os l'
  end.

Definition initial_rows (n : Z) : list Row := (λ o, mkRow (Some o) false) <$> seqZ 0 n.

Lemma len_initial n : 0 ≤ n → len (initial_rows n) = n.
Proof. intros. unfold len, initial_rows. rewrite length_fmap, length_seqZ. lia. Qed.

Lemma at_initial n p : at_ (initial_rows n) p = if decide (0 ≤ p < n) then Some (mkRow (Some p) false) else None.
Proof.
  unfold at_, initial_rows. destruct (decide (0 ≤ p)).
  - rewrite list_lookup_fmap. destruct (decide (0 ≤ p < n)).
    + rewrite lookup_seqZ_lt by lia. simpl. do 3 f_equal. lia.
    + rewrite lookup_seqZ_ge by lia. done.
  - by rewrite decide_False by lia.
Qed.

Lemma sim_initial n : 0 ≤ n → sim n empty_builder (initial_rows n).
Proof.
  intros Hn. constructor; simpl.
  - split; [|split; [apply law_nil|constructor]]. split; [apply law_nil|]. split; [apply law_nil|].
    split; [by intros m ?%elem_of_nil|split; constructor].
  - done.
  - intros o t. unfold rows, row_to. simpl. rewrite elem_of_nil.
    rewrite (kept_empty set_nil set_nil) by (apply law_nil || apply has_nil).
    rewrite len_initial, at_initial by done. split.
    + intros (?&?&[?| ->]); [done|]. destruct (decide (t < n)); [left|right; lia].
      split; [lia|]. rewrite decide_True by lia. eauto.
    + intros [(?&r&Hr&Ho)|[? ->]]; [|lia]. destruct (decide _); [|done]. simplify_eq/=. lia.
  - intros t. rewrite at_initial. split; [by intros ?%has_nil|]. intros (r&Hr&Hm).
    destruct (decide _); by simplify_eq/=.
  - constructor.
  - by intros x ?%has_nil.
  - by intros x ?%has_nil.
  - intros t r o. rewrite at_initial. destruct (decide _); [|done]. intros [= <-] [= <-]. done.
Qed.

Lemma sim_run n os : ∀ b l l',
  0 ≤ n → sim n b l → run_list os l = Some l' → run_fits n os l →
  ∃ b', run_builder os l b = Some b' ∧ sim n b' l'.
Proof.
  induction os as [|op os IH]; intros b l l' Hn Hs Hrun Hfit; simpl in *.
  { injection Hrun as <-. eauto. }
  destruct (list_op op l) as [l1|] eqn:Hop; [|done]. destruct Hfit as [Hf1 Hf2].
  destruct (sim_step n b l l1 op Hn Hs Hop Hf1) as (b1&->&Hs1). cbn [mbind option_bind].
  apply IH; auto.
Qed.
End Simulation.
