(* ===== verification/ChangeLcs.v ===== *)
(** The matches [LongestCommonSubsequenceCalculator] finds: blocks of equal
    rows, in order in both sequences, without an assertion failing. *)
From stdpp Require Import gmap.
From S2P Require Import Prelude ChunkedRangeVector IndexSetSpec ChangeBuilder ChangeCalc.
Import ChangeCalc.

Notation row_at l i := (lcs_row_index <$> l !! Z.to_nat i).

Section Matches.
Context {T : Type} {ops : IndexSetOps T} {laws : IndexSetLaws T}.
Context (modified : T) (Hmod : set_wf modified).

(** The rows before and after; both have the same rows. *)
Context (a : list LcsRow) (rows : list RowInfo).
Context (Hrows : lcs_row_index <$> a ≡ₚ row_index <$> rows) (Hlen : Z.of_nat (length a) < npos).

Notation n := (Z.of_nat (length a)).
Notation new_at j := (row_index <$> rows !! Z.to_nat j).

Definition numbered : list LcsRow := imap (λ i r, mkLcsRow (row_index r) (Z.of_nat i)) rows.
Definition new_sorted : list LcsRow := merge_sort lcs_by_row numbered.

Lemma length_rows : length rows = length a.
Proof. apply Permutation_length in Hrows. rewrite !length_fmap in Hrows. lia. Qed.

#[local] Instance lcs_by_row_total : Total lcs_by_row.
Proof. intros x y. unfold lcs_by_row, tie_le. lia. Qed.
#[local] Instance lcs_by_row_trans : Transitive lcs_by_row.
Proof. intros x y z. unfold lcs_by_row, tie_le. lia. Qed.

Lemma b_perm : new_sorted ≡ₚ numbered.
Proof. apply merge_sort_Permutation. Qed.

Lemma elem_of_b x : x ∈ new_sorted → 0 ≤ lcs_tv_index x ∧ new_at (lcs_tv_index x) = Some (lcs_row_index x).
Proof.
  rewrite b_perm. unfold numbered. intros (i&r&Hr&Hi)%elem_of_lookup_imap. subst x. simpl.
  rewrite Nat2Z.id, Hi. split; [lia|done].
Qed.

Lemma row_in_b i ai : row_at a i = Some ai → ∃ x, x ∈ new_sorted ∧ lcs_row_index x = ai.
Proof.
  intros Hi. apply fmap_Some in Hi as (r&Hr&->). apply list_elem_of_lookup_2 in Hr.
  assert (lcs_row_index r ∈ row_index <$> rows) as Hin by (rewrite <-Hrows; by apply list_elem_of_fmap_2).
  apply list_elem_of_fmap in Hin as (r'&Er&(j&Hj)%list_elem_of_lookup).
  exists (mkLcsRow (row_index r') (Z.of_nat j)). split; [|done]. rewrite b_perm. unfold numbered.
  apply elem_of_lookup_imap. by exists j, r'.
Qed.

(** The entries of [new_sorted] with a row are found, and all positions reported have
    that row. *)
Lemma b_matches_from_sound l ai begin2 end2 j :
  j ∈ b_matches_from l ai begin2 end2 → Forall (λ x, x ∈ new_sorted) l → begin2 ≤ j < end2 ∧ 0 ≤ j ∧ new_at j = Some ai.
Proof.
  induction l as [|it l IH]; simpl; [by intros ?%elem_of_nil|]. intros Hj [Hit Hl]%Forall_cons.
  destruct (Z.eqb_spec (lcs_row_index it) ai) as [E|]; [|by apply elem_of_nil in Hj].
  destruct (Z.ltb_spec (lcs_tv_index it) begin2); [by apply IH|].
  destruct (Z.leb_spec end2 (lcs_tv_index it)); [by apply elem_of_nil in Hj|].
  apply elem_of_cons in Hj as [->|Hj]; [|by apply IH]. apply elem_of_b in Hit as [? ->]. by rewrite E.
Qed.

Lemma b_matches_ok i begin2 end2 :
  0 ≤ i < n →
  ∃ js, b_matches a new_sorted i begin2 end2 = Some js ∧
    ∀ j, j ∈ js → begin2 ≤ j < end2 ∧ 0 ≤ j ∧ new_at j = row_at a i.
Proof.
  intros Hi. unfold b_matches.
  destruct (lookup_lt_is_Some_2 a (Z.to_nat i)) as [r Hr]; [lia|]. rewrite Hr. cbn [fmap option_fmap option_map mbind option_bind].
  set (ai := lcs_row_index r). pose proof (StronglySorted_merge_sort lcs_by_row numbered) as Hsorted. fold new_sorted in Hsorted.
  destruct (row_in_b i ai) as (x&Hx&Ex); [by rewrite Hr|].
  destruct (sorted_partition _ (λ r, lcs_row_index r <? ai) new_sorted Hsorted) as (l1&l2&Hb&H1&H2&->).
  { intros y z Hz. unfold lcs_by_row, tie_le in Hz. rewrite !Z.ltb_ge. lia. }
  rewrite Hb in Hx. apply elem_of_app in Hx as [Hx|Hx].
  { rewrite Forall_forall in H1. specialize (H1 x Hx). simpl in H1. apply Z.ltb_lt in H1. lia. }
  destruct l2 as [|y l2]; [by apply elem_of_nil in Hx|].
  assert (lcs_row_index y = ai) as Ey.
  { rewrite Hb in Hsorted. apply StronglySorted_app in Hsorted as (_&_&Hs2). apply Forall_cons in H2 as [Hy _].
    apply Z.ltb_ge in Hy. apply StronglySorted_inv in Hs2 as [_ Hs2]. apply elem_of_cons in Hx as [->|Hx]; [done|].
    rewrite Forall_forall in Hs2. specialize (Hs2 x Hx). unfold lcs_by_row, tie_le in Hs2. lia. }
  assert (new_sorted !! length l1 = Some y) as -> by (rewrite Hb; by apply list_lookup_middle). cbn [mbind option_bind].
  rewrite (proj2 (Z.eqb_eq _ _)) by done. eexists. split; [done|]. intros j Hj.
  apply b_matches_from_sound in Hj; [done|]. rewrite Hb, drop_app_length. rewrite <-Hb.
  apply Forall_forall. intros z Hz. rewrite Hb. apply elem_of_app. by right.
Qed.

(** ** The longest match *)

(** The block of [size] rows that ends at [i] in the old order and at [j] in
    the new one *)
Definition block_end (begin1 begin2 end2 i : Z) (e : Z * Z) : Prop :=
  1 ≤ e.2 ≤ i + 1 - begin1 ∧ begin2 ≤ e.1 + 1 - e.2 ∧ e.1 < end2 ∧
  ∀ k, 0 ≤ k < e.2 → row_at a (i - k) = new_at (e.1 - k).

Definition valid_match (begin1 end1 begin2 end2 : Z) (m : Match) : Prop :=
  begin1 ≤ match_i m ∧ begin2 ≤ match_j m ∧ 0 ≤ match_size m ∧
  match_i m + match_size m ≤ end1 ∧ match_j m + match_size m ≤ end2 ∧
  ∀ k, 0 ≤ k < match_size m → row_at a (match_i m + k) = new_at (match_j m + k).

Lemma wrap_back i k : 0 ≤ i - k + 1 ≤ npos → (i -w k) +w 1 = i - k + 1.
Proof. intros H. unfold wadd, wsub. rewrite wrap_add_l. apply wrap_small. exact H. Qed.

Lemma block_match begin1 end1 begin2 end2 i e c :
  block_end begin1 begin2 end2 i e → 0 ≤ begin1 → 0 ≤ begin2 → i < end1 → end1 < npos → end2 < npos →
  valid_match begin1 end1 begin2 end2 (mkMatch ((i -w e.2) +w 1) ((e.1 -w e.2) +w 1) e.2 c).
Proof.
  intros (H1&H2&H3&H4) ?????. rewrite !wrap_back by lia. split_and!; simpl; try lia.
  intros k Hk. specialize (H4 (e.2 - 1 - k)). rewrite <-(Z.add_0_r i).
  replace (i + 0 - e.2 + 1 + k) with (i - (e.2 - 1 - k)) by lia.
  replace (e.1 - e.2 + 1 + k) with (e.1 - (e.2 - 1 - k)) by lia. apply H4. lia.
Qed.

Lemma lcs_length_ok begin1 begin2 end2 i j prev :
  Forall (block_end begin1 begin2 end2 (i - 1)) prev → begin1 ≤ i → begin2 ≤ j < end2 →
  0 ≤ begin2 → end2 < npos → new_at j = row_at a i →
  block_end begin1 begin2 end2 i (j, lcs_length prev j).
Proof.
  intros Hprev Hi Hj ?? Hrow. unfold lcs_length.
  assert (∀ k, 0 ≤ k < 1 → row_at a (i - k) = new_at (j - k)) as Hone
    by (intros k Hk; replace k with 0 by lia; rewrite !Z.sub_0_r; done).
  destruct (prev !! find_if (λ p, p.1 +w 1 =? j) prev) as [e|] eqn:E;
    [|split_and!; simpl; [lia..|exact Hone]].
  destruct (find_if_spec (λ p, p.1 +w 1 =? j) prev) as (l1&l2&Hl&Hf&_&H2). rewrite Hf in E. rewrite Hl in E, Hprev.
  rewrite lookup_app_r, Nat.sub_diag in E by lia. destruct l2 as [|e' l2]; [done|]. injection E as ->.
  apply Z.eqb_eq in H2. apply Forall_app in Hprev as [_ [(P1&P2&P3&P4) _]%Forall_cons].
  rewrite wadd_small in H2 by slia. rewrite wadd_small by slia. split_and!; simpl; [lia..|].
  intros k Hk. destruct (decide (k = 0)) as [->|]; [apply Hone; lia|]. specialize (P4 (k - 1)).
  replace (i - 1 - (k - 1)) with (i - k) in P4 by lia. replace (e.1 - (k - 1)) with (j - k) in P4 by lia.
  apply P4. lia.
Qed.

Section Range.
Context (begin1 end1 begin2 end2 : Z) (Hb1 : 0 ≤ begin1 ≤ end1) (He1 : end1 ≤ n) (Hb2 : 0 ≤ begin2 ≤ end2)
  (He2 : end2 ≤ n).

Lemma match_step_ok prev i cur best j :
  begin1 ≤ i < end1 → begin2 ≤ j < end2 → new_at j = row_at a i →
  Forall (block_end begin1 begin2 end2 (i - 1)) prev → Forall (block_end begin1 begin2 end2 i) cur →
  valid_match begin1 end1 begin2 end2 best →
  ∃ cur' best', match_step modified prev begin1 end1 begin2 end2 i (cur, best) j = Some (cur', best') ∧
    Forall (block_end begin1 begin2 end2 i) cur' ∧ valid_match begin1 end1 begin2 end2 best'.
Proof.
  intros Hi Hj Hrow Hprev Hcur Hbest. unfold match_step.
  pose proof (lcs_length_ok begin1 begin2 end2 i j prev Hprev ltac:(lia) Hj ltac:(lia) ltac:(lia) Hrow) as Hnew.
  set (size := lcs_length prev j) in *.
  assert (∀ c, valid_match begin1 end1 begin2 end2 (mkMatch ((i -w size) +w 1) ((j -w size) +w 1) size c)) as Hmatch
    by (intros c; by apply (block_match begin1 end1 begin2 end2 i (j, size) c Hnew); lia).
  assert (∀ best', valid_match begin1 end1 begin2 end2 best' →
    (assert! (begin1 <=? match_i best') && (match_i best' +w match_size best' <=? end1);
     assert! (begin2 <=? match_j best') && (match_j best' +w match_size best' <=? end2);
     Some (cur ++ [(j, size)], best')) = Some (cur ++ [(j, size)], best')) as Hok.
  { intros m (V1&V2&V3&V4&V5&_). rewrite !wadd_small by lia.
    by rewrite !(proj2 (Z.leb_le _ _)) by lia. }
  assert (Forall (block_end begin1 begin2 end2 i) (cur ++ [(j, size)])) as Hcur'
    by (apply Forall_app; by split; [|constructor]).
  destruct (match_size best <? size).
  { cbn [mbind option_bind]. rewrite Hok by done. eauto. }
  destruct (size =? match_size best).
  2:{ cbn [mbind option_bind]. rewrite Hok by done. eauto. }
  assert (∀ x y, ∃ c, set_count modified ((x -w size) +w 1) y = Some c) as Hcount
    by (intros x y; apply law_count_total; [exact Hmod|apply wrap_range]).
  assert (∃ best1, (if match_modified best =? npos
      then n ← set_count modified ((match_j best -w size) +w 1) (match_j best +w 1);
           Some (mkMatch (match_i best) (match_j best) (match_size best) n)
      else Some best) = Some best1 ∧ valid_match begin1 end1 begin2 end2 best1) as (best1&->&Hbest1).
  { destruct (_ =? npos); [|eauto]. destruct (Hcount (match_j best) (match_j best +w 1)) as [c ->]. simpl. eauto. }
  cbn [mbind option_bind]. destruct (Hcount j (j +w 1)) as [c ->]. cbn [mbind option_bind].
  rewrite Hok by (destruct (c <? _); [apply Hmatch|done]). eexists _, _. split; [done|]. split; [done|].
  destruct (c <? _); [apply Hmatch|done].
Qed.

Lemma match_steps_ok prev i js : ∀ cur best,
  begin1 ≤ i < end1 → (∀ j, j ∈ js → begin2 ≤ j < end2 ∧ 0 ≤ j ∧ new_at j = row_at a i) →
  Forall (block_end begin1 begin2 end2 (i - 1)) prev → Forall (block_end begin1 begin2 end2 i) cur →
  valid_match begin1 end1 begin2 end2 best →
  ∃ cur' best', foldlM (match_step modified prev begin1 end1 begin2 end2 i) (cur, best) js = Some (cur', best') ∧
    Forall (block_end begin1 begin2 end2 i) cur' ∧ valid_match begin1 end1 begin2 end2 best'.
Proof.
  induction js as [|j js IH]; intros cur best Hi Hjs Hprev Hcur Hbest; cbn [foldlM]; [by eauto|].
  destruct (Hjs j) as (Hj&_&Hrow); [by left|].
  destruct (match_step_ok prev i cur best j) as (cur'&best'&->&Hcur'&Hbest'); [done..|]. cbn [mbind option_bind].
  apply IH; [done| |done..]. intros j' Hj'. apply Hjs. by right.
Qed.

Lemma find_longest_match_ok :
  ∃ m, find_longest_match modified a new_sorted begin1 end1 begin2 end2 = Some m ∧ valid_match begin1 end1 begin2 end2 m.
Proof.
  unfold find_longest_match.
  set (step := λ '(prev, best) i, js ← b_matches a new_sorted i begin2 end2;
     foldlM (match_step modified prev begin1 end1 begin2 end2 i) ([], best) js).
  destruct (foldlM_spec step (λ l s,
      Forall (block_end begin1 begin2 end2 (begin1 + Z.of_nat (length l) - 1)) s.1 ∧
      valid_match begin1 end1 begin2 end2 s.2)
    [] (seqZ begin1 (end1 - begin1)) ([], mkMatch begin1 begin2 0 0)) as ([prev best]&E&_&Hbest).
  - intros l1 i l2 [prev best] Hl _ [Hprev Hbest]. simpl in Hl, Hprev, Hbest.
    assert (i = begin1 + Z.of_nat (length l1) ∧ i < end1) as [Ei Hi].
    { assert (seqZ begin1 (end1 - begin1) !! length l1 = Some i) as Hs by (rewrite Hl; by apply list_lookup_middle).
      apply lookup_seqZ in Hs. lia. }
    destruct (b_matches_ok i begin2 end2) as (js&Ejs&Hjs); [lia|].
    destruct (match_steps_ok prev i js [] best) as (cur'&best'&E&Hcur'&Hbest'); [lia|done| |done|done|].
    { replace (i - 1) with (begin1 + Z.of_nat (length l1) - 1) by lia. exact Hprev. }
    exists (cur', best'). split; [unfold step; by rewrite Ejs|]. split; [|done]. rewrite length_app. simpl.
    replace (begin1 + Z.of_nat (length l1 + 1) - 1) with i by lia. done.
  - split; [done|]. split_and!; simpl; try lia.
  - fold step. rewrite E. cbn [mbind option_bind]. by exists best.
Qed.
End Range.

(** ** All matches *)

(** Matches in order, between two positions *)
Fixpoint aligned (i j endi endj : Z) (l : list Match) : Prop :=
  match l with
  | [] => i ≤ endi ∧ j ≤ endj
  | m :: l =>
      i ≤ match_i m ∧ j ≤ match_j m ∧ 0 ≤ match_size m ∧
      (∀ k, 0 ≤ k < match_size m → row_at a (match_i m + k) = new_at (match_j m + k)) ∧
      aligned (match_i m + match_size m) (match_j m + match_size m) endi endj l
  end.

Lemma aligned_weaken i j i' j' endi endj endi' endj' l :
  aligned i j endi endj l → i' ≤ i → j' ≤ j → endi ≤ endi' → endj ≤ endj' → aligned i' j' endi' endj' l.
Proof.
  revert i j i' j'. induction l as [|m l IH]; intros i j i' j'; simpl; [lia|].
  intros (?&?&?&?&?) ????. split_and!; [lia..|done|]. eapply IH; [done|lia..].
Qed.

Lemma aligned_app i j endi endj l l' :
  ∀ i' j', aligned i j i' j' l → aligned i' j' endi endj l' → aligned i j endi endj (l ++ l').
Proof.
  revert i j. induction l as [|m l IH]; intros i j i' j'; simpl.
  - intros [??] Hl. by eapply aligned_weaken.
  - intros (?&?&?&?&?) Hl. split_and!; [done..|]. by eapply IH.
Qed.

Lemma find_longest_matches_ok fuel : ∀ begin1 end1 begin2 end2,
  0 ≤ begin1 ≤ end1 → end1 ≤ n → 0 ≤ begin2 ≤ end2 → end2 ≤ n → end1 - begin1 < Z.of_nat fuel →
  ∃ l, find_longest_matches fuel modified a new_sorted begin1 end1 begin2 end2 = Some l ∧
    aligned begin1 begin2 end1 end2 l.
Proof.
  induction fuel as [|fuel IH]; intros begin1 end1 begin2 end2 H1 H2 H3 H4 Hfuel; [lia|]. cbn [find_longest_matches].
  destruct (find_longest_match_ok begin1 end1 begin2 end2) as (m&->&V1&V2&V3&V4&V5&V6); [done..|].
  cbn [mbind option_bind].
  destruct (Z.eqb_spec (match_size m) 0); [exists []; split; [done|simpl; lia]|].
  assert (∃ l, (if (begin1 <? match_i m) && (begin2 <? match_j m)
     then find_longest_matches fuel modified a new_sorted begin1 (match_i m) begin2 (match_j m) else Some []) = Some l ∧
     aligned begin1 begin2 (match_i m) (match_j m) l) as (before&->&Hbefore).
  { destruct (_ && _); [apply IH; lia|]. exists []. split; [done|simpl; lia]. }
  cbn [mbind option_bind]. rewrite !wadd_small by lia.
  assert (∃ l, (if (match_i m + match_size m <? end2) && (match_j m + match_size m <? end2)
     then find_longest_matches fuel modified a new_sorted (match_i m + match_size m) end1 (match_j m + match_size m) end2
     else Some []) = Some l ∧
     aligned (match_i m + match_size m) (match_j m + match_size m) end1 end2 l) as (after&->&Hafter).
  { destruct (_ && _); [apply IH; lia|]. exists []. split; [done|simpl; lia]. }
  cbn [mbind option_bind]. eexists. split; [done|]. eapply aligned_app; [exact Hbefore|]. simpl. split_and!; [lia..|done|done].
Qed.

Lemma longest_matches_ok start :
  0 ≤ start ≤ n →
  ∃ l, longest_matches a new_sorted start modified = Some l ∧ aligned start start n n l ∧
    ∃ l', l = l' ++ [mkMatch n n 0 0].
Proof.
  intros Hs. unfold longest_matches. assert (Z.of_nat (length new_sorted) = n) as ->.
  { rewrite b_perm. unfold numbered. by rewrite length_imap, length_rows. }
  destruct (find_longest_matches_ok (S (length a)) start n start n) as (l&->&Hl); [lia..|]. cbn [mbind option_bind].
  eexists. split; [done|]. split; [|by eexists]. eapply aligned_app; [exact Hl|]. simpl. split_and!; try lia.
Qed.
End Matches.
