(* ===== verification/ChangeDiff.v ===== *)
(** [CollectionChangeBuilder::calculate] without move candidates: the change
    set it returns turns the old rows into the new ones. *)
From stdpp Require Import gmap.
From S2P Require Import Prelude ChunkedRangeVector IndexSet IndexSetTheory IndexSetSpec RowMap.
From S2P Require Import ChangeBuilder ChangeCalc ChangeTheory ChangeMerge ChangeFinal ChangeLcs.
Import ChangeBuilder ChangeCalc.

(** ** The rows that are kept *)

(** The elements of [l], which starts at position [k], outside [P] *)
Fixpoint kept_from {A} (P : Z → Prop) `{∀ x, Decision (P x)} (k : Z) (l : list A) : list A :=
  match l with
  | [] => []
  | x :: l => if decide (P k) then kept_from P (k + 1) l else x :: kept_from P (k + 1) l
  end.

Section Kept.
Context {A : Type} (P Q : Z → Prop) `{∀ x, Decision (P x)} `{∀ x, Decision (Q x)}.
Implicit Types (l : list A) (k : Z).

Lemma kept_app k l l' :
  kept_from P k (l ++ l') = kept_from P k l ++ kept_from P (k + Z.of_nat (length l)) l'.
Proof.
  revert k. induction l as [|x l IH]; intros k; [by rewrite Z.add_0_r|]. simpl. rewrite IH.
  replace (k + 1 + Z.of_nat (length l)) with (k + Z.of_nat (S (length l))) by lia. by case_decide.
Qed.

Lemma kept_all k l : (∀ x, k ≤ x < k + Z.of_nat (length l) → ¬ P x) → kept_from P k l = l.
Proof.
  revert k. induction l as [|x l IH]; intros k Hk; [done|]. simpl in *. rewrite decide_False by (apply Hk; lia).
  f_equal. apply IH. intros y Hy. apply Hk. lia.
Qed.

Lemma kept_none k l : (∀ x, k ≤ x < k + Z.of_nat (length l) → P x) → kept_from P k l = [].
Proof.
  revert k. induction l as [|x l IH]; intros k Hk; [done|]. simpl in *. rewrite decide_True by (apply Hk; lia).
  apply IH. intros y Hy. apply Hk. lia.
Qed.

Lemma kept_ext k l : (∀ x, k ≤ x < k + Z.of_nat (length l) → P x ↔ Q x) → kept_from P k l = kept_from Q k l.
Proof.
  revert k. induction l as [|x l IH]; intros k Hk; [done|]. simpl in *. rewrite (IH (k + 1)) by (intros; apply Hk; lia).
  specialize (Hk k ltac:(lia)). by rewrite (decide_ext (P k) (Q k)).
Qed.

Lemma number_from k (l : list A) :
  kept_from P k l = (filter (λ p, ¬ P p.1) (imap (λ i x, (k + Z.of_nat i, x)) l)).*2.
Proof.
  revert k. induction l as [|x l IH]; intros k; [done|]. simpl. rewrite filter_cons, Z.add_0_r. simpl.
  assert (imap ((λ (i : nat) (y : A), (k + Z.of_nat i, y)) ∘ S) l = imap (λ (i : nat) (y : A), (k + 1 + Z.of_nat i, y)) l)
    as E by (apply imap_ext; intros i y _; simpl; f_equal; lia).
  rewrite E, IH. case_decide; [by rewrite decide_False by tauto|by rewrite decide_True].
Qed.
End Kept.

Lemma kept_number {A} (P : Z → Prop) `{∀ x, Decision (P x)} (l : list A) :
  kept_from P 0 l = (filter (λ p, ¬ P p.1) (number l)).*2.
Proof. apply number_from. Qed.

(** ** Applying a change set *)
Section Apply.
Implicit Types (l next : list Z) (rs : list (Z * Z)).

Definition erase_range l (r : Z * Z) : option (list Z) :=
  assert! (r.2 <=? Z.of_nat (length l));
  Some (take (Z.to_nat r.1) l ++ drop (Z.to_nat r.2) l).

Definition insert_row next l (i : Z) : option (list Z) :=
  x ← next !! Z.to_nat i; vector_insert (Z.to_nat i) x l.

Lemma insert_row_eq next l i x :
  next !! Z.to_nat i = Some x → insert_row next l i = vector_insert (Z.to_nat i) x l.
Proof. unfold insert_row. by intros ->. Qed.

Lemma kept_below rs lo k l : ranges_ok lo rs → k + Z.of_nat (length l) ≤ lo + 1 → kept_from (mem rs) k l = l.
Proof. intros Hok Hk. apply kept_all. intros x Hx Hm. apply (mem_bounds _ _ _ Hok) in Hm. lia. Qed.

Lemma kept_split rs r lo l :
  0 ≤ r.1 → ranges_ok lo (r :: rs) → hi_of r.2 rs ≤ Z.of_nat (length l) →
  r.2 ≤ Z.of_nat (length l) ∧
  kept_from (mem rs) 0 l = take (Z.to_nat r.2) l ++ kept_from (mem rs) r.2 (drop (Z.to_nat r.2) l) ∧
  kept_from (mem (r :: rs)) 0 l = take (Z.to_nat r.1) l ++ kept_from (mem rs) r.2 (drop (Z.to_nat r.2) l).
Proof.
  intros H0 (H1&H2&H3&Hok) Hhi. pose proof (ranges_ok_hi _ _ Hok). split; [lia|]. split.
  - rewrite <-(take_drop (Z.to_nat r.2) l) at 1. rewrite kept_app. rewrite (kept_below rs r.2 0);
      [|done|rewrite length_take; lia]. do 2 f_equal. rewrite length_take. lia.
  - rewrite <-(take_drop (Z.to_nat r.1) l) at 1. rewrite kept_app.
    rewrite <-(take_drop (Z.to_nat (r.2 - r.1)) (drop (Z.to_nat r.1) l)), kept_app, drop_drop.
    rewrite !length_take, length_drop.
    rewrite (kept_all _ 0), (kept_none _ (0 + _)).
    + f_equal. simpl. replace (Z.to_nat r.1 + Z.to_nat (r.2 - r.1))%nat with (Z.to_nat r.2) by lia.
      replace (0 + Z.of_nat (Z.to_nat r.1 `min` length l) +
        Z.of_nat (Z.to_nat (r.2 - r.1) `min` (length l - Z.to_nat r.1))) with r.2 by lia.
      apply kept_ext. intros x Hx. simpl. split; [intros [?|?]; [lia|done]|by right].
    + intros x Hx. rewrite length_take, length_drop in Hx. left. lia.
    + intros x Hx. rewrite length_take in Hx. intros [?|Hm]; [lia|]. apply (mem_bounds _ _ _ Hok) in Hm. lia.
Qed.

Lemma erase_ranges rs l : ∀ lo,
  0 ≤ lo + 1 → ranges_ok lo rs → hi_of lo rs ≤ Z.of_nat (length l) →
  foldlM erase_range l (rev rs) = Some (kept_from (mem rs) 0 l).
Proof.
  induction rs as [|r rs IH]; intros lo Hlo Hok Hhi.
  { simpl. rewrite kept_all; [done|by intros ? ? []]. }
  simpl in Hhi.
  pose proof Hok as (H1&H2&H3&Hok'). simpl rev. rewrite foldlM_app, (IH r.2) by (done || lia). cbn [mbind option_bind].
  destruct (kept_split rs r lo l) as (E1&E2&E3); [lia|done|done|]. rewrite E2, E3. cbn [foldlM].
  assert (length (take (Z.to_nat r.2) l) = Z.to_nat r.2) as El by (rewrite length_take; lia).
  unfold erase_range. rewrite (proj2 (Z.leb_le _ _)) by (rewrite length_app, El; lia). cbn [mbind option_bind].
  f_equal. rewrite drop_app_length', take_app_le, take_take by (rewrite ?El; lia). do 2 f_equal. lia.
Qed.

(** Inserting the missing rows in ascending order *)
Lemma insert_rows (P : Z → Prop) `{∀ x, Decision (P x)} next idx : ∀ p,
  0 ≤ p → StronglySorted Z.lt idx → Forall (λ i, p ≤ i < Z.of_nat (length next)) idx →
  (∀ x, p ≤ x → P x ↔ x ∈ idx) →
  foldlM (insert_row next) (take (Z.to_nat p) next ++ kept_from P p (drop (Z.to_nat p) next)) idx = Some next.
Proof.
  induction idx as [|i idx IH]; intros p Hp Hsort Hall HP.
  { simpl. rewrite kept_all, take_drop; [done|]. intros x Hx Hm. apply HP in Hm; [|lia]. by apply elem_of_nil in Hm. }
  apply Forall_cons in Hall as [Hi Hall]. apply StronglySorted_inv in Hsort as [Hsort Hlt].
  destruct (lookup_lt_is_Some_2 next (Z.to_nat i)) as [x Hx]; [lia|]. cbn [foldlM].
  rewrite (insert_row_eq _ _ _ x Hx).
  assert (take (Z.to_nat p) next ++ kept_from P p (drop (Z.to_nat p) next) =
    take (Z.to_nat i) next ++ kept_from P (i + 1) (drop (Z.to_nat (i + 1)) next)) as ->.
  { rewrite <-(take_drop (Z.to_nat (i - p)) (drop (Z.to_nat p) next)), kept_app, drop_drop.
    rewrite (kept_all _ p).
    2:{ intros y Hy Hm. rewrite length_take in Hy. apply HP in Hm; [|lia]. apply elem_of_cons in Hm as [->|Hm]; [lia|].
        rewrite Forall_forall in Hlt. specialize (Hlt y Hm). lia. }
    rewrite (assoc_L (++)), take_take_drop. f_equal; [f_equal; lia|].
    rewrite length_take, length_drop.
    replace (p + Z.of_nat (Z.to_nat (i - p) `min` (length next - Z.to_nat p))) with i by lia.
    replace (Z.to_nat p + Z.to_nat (i - p))%nat with (Z.to_nat i) by lia.
    rewrite (drop_S _ _ _ Hx). simpl. rewrite decide_True by (apply HP; [lia|by left]). do 2 f_equal. lia. }
  assert (length (take (Z.to_nat i) next) = Z.to_nat i) as El by (rewrite length_take; lia).
  unfold vector_insert. rewrite (proj2 (Nat.leb_le _ _)) by (rewrite length_app, El; lia). cbn [mbind option_bind].
  rewrite take_app_length', drop_app_length' by done.
  replace (take (Z.to_nat i) next ++ x :: kept_from P (i + 1) (drop (Z.to_nat (i + 1)) next)) with
    (take (Z.to_nat (i + 1)) next ++ kept_from P (i + 1) (drop (Z.to_nat (i + 1)) next)).
  2:{ replace (Z.to_nat (i + 1)) with (S (Z.to_nat i)) at 1 by lia. rewrite (take_S_r _ _ x Hx).
      by rewrite <-(assoc_L (++)). }
  apply IH; [lia|done| |].
  - rewrite Forall_forall in Hall, Hlt |- *. intros y Hy. specialize (Hall y Hy). specialize (Hlt y Hy). lia.
  - intros y Hy. rewrite HP, elem_of_cons by lia. split; [intros [?|?]; [lia|done]|by right].
Qed.
End Apply.

(** ** Aligning the rows *)
Lemma filter_parts {A} (f : A → Z) l1 l2 l3 (dels : list Z) :
  NoDup (f <$> l1 ++ l2 ++ l3) → (∀ x, x ∈ dels → x ∈ f <$> l3) →
  filter (λ r, ¬ f r ∈ (f <$> l1) ++ dels) (l1 ++ l2 ++ l3) = l2 ++ filter (λ r, ¬ f r ∈ dels) l3.
Proof.
  rewrite !fmap_app. intros (_&H1&H23)%NoDup_app Hdels. pose proof H23 as (_&H2&_)%NoDup_app.
  rewrite !filter_app. rewrite (filter_none _ l1), (filter_all _ l2).
  - rewrite app_nil_l. f_equal. apply filter_ext_in. intros r Hr. rewrite elem_of_app.
    assert (f r ∈ f <$> l3) as Hin by by apply list_elem_of_fmap_2.
    split; [tauto|]. intros Hn [H|H]; [|done]. apply (H1 _ H). apply elem_of_app. by right.
  - apply Forall_forall. intros r Hr. assert (f r ∈ f <$> l2) as Hin by by apply list_elem_of_fmap_2.
    rewrite elem_of_app. intros [H|H]; [apply (H1 _ H), elem_of_app; by left|]. by apply (H2 _ Hin), Hdels.
  - apply Forall_forall. intros r Hr Hn. apply Hn, elem_of_app. left. by apply list_elem_of_fmap_2.
Qed.

Lemma drop_parts {A} (l : list A) (i j s : nat) :
  (i ≤ j)%nat → drop i l = take (j - i) (drop i l) ++ take s (drop j l) ++ drop (j + s) l.
Proof.
  intros Hij. etransitivity; [symmetry; exact (take_drop (j - i) (drop i l))|]. f_equal. rewrite drop_drop.
  replace (i + (j - i))%nat with j by lia.
  etransitivity; [symmetry; exact (take_drop s (drop j l))|]. by rewrite drop_drop.
Qed.

Section Align.
Context {T : Type} {ops : IndexSetOps T} {laws : IndexSetLaws T}.
Implicit Types (d ins : T) (ret : CollectionChangeBuilder T).

Lemma add_all_ok {A} (f : A → Z) (l : list A) d i k :
  set_wf d → 0 ≤ i → i + k ≤ Z.of_nat (length l) → Forall (λ x, 0 ≤ f x < npos) l →
  ∃ d', foldlM (λ d k, r ← l !! Z.to_nat k; set_add d (f r)) d (seqZ i k) = Some d' ∧ set_wf d' ∧
    ∀ x, has d' x ↔ has d x ∨ x ∈ f <$> take (Z.to_nat k) (drop (Z.to_nat i) l).
Proof.
  intros Hd Hi Hk Hf.
  destruct (foldlM_spec (λ d k, r ← l !! Z.to_nat k; set_add d (f r)) (λ done d',
      set_wf d' ∧ ∀ x, has d' x ↔ has d x ∨ x ∈ f <$> take (length done) (drop (Z.to_nat i) l))
    [] (seqZ i k) d) as (d'&E&Hd'&Hh).
  - intros l1 j l2 d1 Hl _ [Hd1 Hh]. simpl in Hl.
    assert (j = i + Z.of_nat (length l1) ∧ Z.of_nat (length l1) < k) as [-> Hlt].
    { assert (seqZ i k !! length l1 = Some j) as Hs by (rewrite Hl; by apply list_lookup_middle).
      apply lookup_seqZ in Hs. lia. }
    replace (Z.to_nat (i + Z.of_nat (length l1))) with (Z.to_nat i + length l1)%nat by lia.
    destruct (lookup_lt_is_Some_2 l (Z.to_nat i + length l1)) as [r Hr]; [lia|]. rewrite Hr. cbn [mbind option_bind].
    destruct (law_add d1 (f r)) as (d2&->&Hd2&Hh2); [done|by eapply (Forall_lookup_1 _ _ _ _ Hf)|].
    exists d2. split; [done|]. split; [done|]. intros x. rewrite Hh2, Hh, length_app. simpl.
    rewrite Nat.add_1_r, (take_S_r _ _ r) by (by rewrite lookup_drop). rewrite fmap_app, elem_of_app. simpl.
    rewrite list_elem_of_singleton. tauto.
  - split; [done|]. intros x. simpl. rewrite elem_of_nil. tauto.
  - exists d'. split; [exact E|]. split; [done|]. intros x. rewrite Hh. simpl. by rewrite length_seqZ.
Qed.

Definition with_sets ret d ins : CollectionChangeBuilder T := with_insertions (with_deletions ret d) ins.

(** What is recorded to align the old rows from [i] with the new rows from [j] *)
Definition alignment (a : list LcsRow) (rows : list RowInfo) (i j : Z) (dels inss : list Z) : Prop :=
  (∀ x, x ∈ dels → x ∈ lcs_tv_index <$> drop (Z.to_nat i) a) ∧
  (∀ x, x ∈ inss → x ∈ tv_index <$> drop (Z.to_nat j) rows) ∧
  lcs_row_index <$> filter (λ r, ¬ lcs_tv_index r ∈ dels) (drop (Z.to_nat i) a) =
    row_index <$> filter (λ r, ¬ tv_index r ∈ inss) (drop (Z.to_nat j) rows).

Section Rows.
Context (a : list LcsRow) (rows : list RowInfo) (Hsame : length rows = length a) (Hlen : Z.of_nat (length a) < npos).
Context (Ha : NoDup (lcs_tv_index <$> a)) (Hr : NoDup (tv_index <$> rows)).
Context (Hba : Forall (λ r, 0 ≤ lcs_tv_index r < npos) a) (Hbr : Forall (λ r, 0 ≤ tv_index r < npos) rows).
Notation n := (Z.of_nat (length a)).

Lemma block_rows mi mj s :
  0 ≤ mi → 0 ≤ mj → (∀ k, 0 ≤ k < s → row_at a (mi + k) = row_index <$> rows !! Z.to_nat (mj + k)) →
  lcs_row_index <$> take (Z.to_nat s) (drop (Z.to_nat mi) a) =
    row_index <$> take (Z.to_nat s) (drop (Z.to_nat mj) rows).
Proof.
  intros Hi Hj Hk. apply list_eq. intros k. rewrite !list_lookup_fmap.
  destruct (decide (k < Z.to_nat s)%nat) as [Hlt|Hge]; [|by rewrite !lookup_take_ge by lia].
  rewrite !lookup_take_lt, !lookup_drop by lia. specialize (Hk (Z.of_nat k)).
  replace (Z.to_nat (mi + Z.of_nat k)) with (Z.to_nat mi + k)%nat in Hk by lia.
  replace (Z.to_nat (mj + Z.of_nat k)) with (Z.to_nat mj + k)%nat in Hk by lia. apply Hk. lia.
Qed.

Lemma alignment_step i j m dels inss :
  0 ≤ i ≤ match_i m → 0 ≤ j ≤ match_j m → 0 ≤ match_size m →
  (∀ k, 0 ≤ k < match_size m → row_at a (match_i m + k) = row_index <$> rows !! Z.to_nat (match_j m + k)) →
  alignment a rows (match_i m + match_size m) (match_j m + match_size m) dels inss →
  alignment a rows i j
    ((lcs_tv_index <$> take (Z.to_nat (match_i m - i)) (drop (Z.to_nat i) a)) ++ dels)
    ((tv_index <$> take (Z.to_nat (match_j m - j)) (drop (Z.to_nat j) rows)) ++ inss).
Proof.
  intros Hi Hj Hs Hblock (A1&A2&A3). unfold alignment.
  pose proof (drop_parts a (Z.to_nat i) (Z.to_nat (match_i m)) (Z.to_nat (match_size m)) ltac:(lia)) as Ea.
  pose proof (drop_parts rows (Z.to_nat j) (Z.to_nat (match_j m)) (Z.to_nat (match_size m)) ltac:(lia)) as Er.
  rewrite <-Z2Nat.inj_sub, <-Z2Nat.inj_add in Ea, Er by lia.
  pose proof (block_rows (match_i m) (match_j m) (match_size m) ltac:(lia) ltac:(lia) Hblock) as Hb.
  assert (NoDup (lcs_tv_index <$> drop (Z.to_nat i) a)) as Hna
    by (rewrite fmap_drop; by eapply sublist_NoDup, sublist_drop).
  assert (NoDup (tv_index <$> drop (Z.to_nat j) rows)) as Hnr
    by (rewrite fmap_drop; by eapply sublist_NoDup, sublist_drop).
  rewrite Ea in Hna. rewrite Er in Hnr.
  split; [|split].
  - intros x [Hx|Hx]%elem_of_app; rewrite Ea, !fmap_app, !elem_of_app; auto.
  - intros x [Hx|Hx]%elem_of_app; rewrite Er, !fmap_app, !elem_of_app; auto.
  - set (la := take _ (drop (Z.to_nat i) a)) in *. set (lr := take _ (drop (Z.to_nat j) rows)) in *.
    rewrite Ea, Er, !filter_parts by done. rewrite !fmap_app, Hb. f_equal. exact A3.
Qed.

Lemma align_step_eq i j ret m :
  align_step a rows (i, j, ret) m =
    d ← foldlM (λ d k, r ← a !! Z.to_nat k; set_add d (lcs_tv_index r))
          (deletions (changes ret)) (seqZ i (match_i m - i));
    ins ← foldlM (λ ins k, r ← rows !! Z.to_nat k; set_add ins (tv_index r))
          (insertions (changes ret)) (seqZ j (match_j m - j));
    Some (Z.max i (match_i m) +w match_size m, Z.max j (match_j m) +w match_size m, with_sets ret d ins).
Proof. done. Qed.

Lemma align_ok l : ∀ i j ret,
  aligned a rows i j n n l → last l = Some (mkMatch n n 0 0) → 0 ≤ i → 0 ≤ j →
  set_wf (deletions (changes ret)) → set_wf (insertions (changes ret)) →
  ∃ s d ins dels inss, foldlM (align_step a rows) (i, j, ret) l = Some (s, with_sets ret d ins) ∧
    set_wf d ∧ set_wf ins ∧ alignment a rows i j dels inss ∧
    (∀ x, has d x ↔ has (deletions (changes ret)) x ∨ x ∈ dels) ∧
    (∀ x, has ins x ↔ has (insertions (changes ret)) x ∨ x ∈ inss).
Proof.
  induction l as [|m l IH]; intros i j ret Hal Hlast Hi Hj Hd Hins; [done|].
  destruct Hal as (H1&H2&H3&H4&Hal). cbn [foldlM]. rewrite align_step_eq.
  assert (match_i m + match_size m ≤ n ∧ match_j m + match_size m ≤ n) as [Hmi Hmj].
  { clear -Hal. revert Hal. generalize (match_i m + match_size m), (match_j m + match_size m).
    induction l as [|m' l IH]; intros x y; simpl; [lia|]. intros (?&?&?&?&?%IH). lia. }
  destruct (add_all_ok lcs_tv_index a (deletions (changes ret)) i (match_i m - i)) as (d1&->&Hd1&Hh1);
    [done|lia|lia|done|]. cbn [mbind option_bind].
  destruct (add_all_ok tv_index rows (insertions (changes ret)) j (match_j m - j)) as (ins1&->&Hins1&Hhi1);
    [done|lia|rewrite Hsame; lia|done|]. cbn [mbind option_bind].
  rewrite !Z.max_r, !wadd_small by lia.
  assert (∃ s d ins dels inss,
    foldlM (align_step a rows) (match_i m + match_size m, match_j m + match_size m, with_sets ret d1 ins1) l =
      Some (s, with_sets ret d ins) ∧ set_wf d ∧ set_wf ins ∧
    alignment a rows (match_i m + match_size m) (match_j m + match_size m) dels inss ∧
    (∀ x, has d x ↔ has d1 x ∨ x ∈ dels) ∧ (∀ x, has ins x ↔ has ins1 x ∨ x ∈ inss))
    as (s&d&ins&dels&inss&E&Hwd&Hwi&Hali&Hhd&Hhi).
  { destruct l as [|m' l].
    - injection Hlast as ->. simpl. eexists _, d1, ins1, [], []. split; [done|]. split; [done|]. split; [done|].
      rewrite Z.add_0_r. split; [|by split; intros x; rewrite elem_of_nil; tauto].
      split; [by intros x ?%elem_of_nil|]. split; [by intros x ?%elem_of_nil|].
      rewrite !drop_ge by lia. done.
    - apply (IH (match_i m + match_size m) (match_j m + match_size m) (with_sets ret d1 ins1)); try done; lia. }
  eexists s, d, ins, _, _. split; [exact E|]. split; [done|]. split; [done|].
  split; [apply (alignment_step i j m dels inss); (done || lia)|].
  split; intros x; rewrite elem_of_app; [rewrite Hhd, Hh1|rewrite Hhi, Hhi1]; tauto.
Qed.
End Rows.
End Align.

(** ** [calculate_moves_sorted] *)
Lemma zip_equal (a : list LcsRow) (rows : list RowInfo) k :
  length rows = length a → Forall (λ p, lcs_row_index p.1 = row_index p.2) (take k (zip a rows)) →
  lcs_row_index <$> take k a = row_index <$> take k rows.
Proof.
  revert rows k. induction a as [|x a IH]; intros [|r rows] [|k] Hl Hf; try done.
  simpl in *. apply Forall_cons in Hf as [Hx Hf]. simpl in Hx. rewrite Hx. f_equal. apply IH; [lia|done].
Qed.

(** The rows in their old order *)
Definition old_order (rows : list RowInfo) : list LcsRow :=
  merge_sort lcs_by_tv ((λ r, mkLcsRow (row_index r) (prev_tv_index r)) <$> rows).

Lemma old_order_perm rows : old_order rows ≡ₚ (λ r, mkLcsRow (row_index r) (prev_tv_index r)) <$> rows.
Proof. apply merge_sort_Permutation. Qed.

Lemma old_order_fmap {A} (f : LcsRow → A) rows :
  f <$> old_order rows ≡ₚ (λ r, f (mkLcsRow (row_index r) (prev_tv_index r))) <$> rows.
Proof. rewrite old_order_perm, <-list_fmap_compose. done. Qed.

Section Moves.
Context {T : Type} {ops : IndexSetOps T} {laws : IndexSetLaws T}.

Lemma with_sets_same (ret : CollectionChangeBuilder T) :
  with_sets ret (deletions (changes ret)) (insertions (changes ret)) = ret.
Proof. by destruct ret as [[] ??]. Qed.

Lemma moves_sorted_ok rows (ret : CollectionChangeBuilder T) :
  Z.of_nat (length rows) < npos → NoDup (prev_tv_index <$> rows) → NoDup (tv_index <$> rows) →
  Forall (λ r, 0 ≤ prev_tv_index r < npos) rows → Forall (λ r, 0 ≤ tv_index r < npos) rows →
  set_wf (deletions (changes ret)) → set_wf (insertions (changes ret)) → set_wf (modifications (changes ret)) →
  ∃ d ins dels inss, calculate_moves_sorted rows ret = Some (with_sets ret d ins) ∧ set_wf d ∧ set_wf ins ∧
    alignment (old_order rows) rows 0 0 dels inss ∧
    (∀ x, has d x ↔ has (deletions (changes ret)) x ∨ x ∈ dels) ∧
    (∀ x, has ins x ↔ has (insertions (changes ret)) x ∨ x ∈ inss).
Proof.
  intros Hlen Hnp Hnt Hbp Hbt Hd Hi Hm. unfold calculate_moves_sorted. fold (old_order rows).
  set (a := old_order rows).
  assert (length rows = length a) as Hsame by (unfold a; rewrite old_order_perm, length_fmap; done).
  assert (NoDup (lcs_tv_index <$> a)) as Hna by (unfold a; rewrite old_order_fmap; exact Hnp).
  assert (Forall (λ r, 0 ≤ lcs_tv_index r < npos) a) as Hba.
  { unfold a. rewrite old_order_perm, Forall_fmap. exact Hbp. }
  unfold first_difference. set (p := λ p : LcsRow * RowInfo, negb (lcs_row_index p.1 =? row_index p.2)).
  destruct (find_if_spec p (zip a rows)) as (l1&l2&Hz&Hf&H1&H2).
  assert (length l1 + length l2 = length a)%nat as Hl by (rewrite <-length_app, <-Hz, length_zip; lia).
  assert (lcs_row_index <$> take (length l1) a = row_index <$> take (length l1) rows) as Hpre.
  { apply zip_equal; [done|]. rewrite Hz, take_app_length. eapply Forall_impl; [exact H1|].
    intros q Hq%negb_false_iff. by apply Z.eqb_eq. }
  rewrite Hf. destruct (Nat.ltb_spec (length l1) (length a)) as [Hlt|Hge].
  2:{ exists (deletions (changes ret)), (insertions (changes ret)), [], []. rewrite with_sets_same.
      split; [done|]. split; [done|]. split; [done|].
      split; [|by split; intros x; rewrite elem_of_nil; tauto].
      split; [by intros x ?%elem_of_nil|]. split; [by intros x ?%elem_of_nil|].
      rewrite !take_ge in Hpre by lia. rewrite !drop_0, !filter_all; [done|..]; apply Forall_forall;
        by intros r _ ?%elem_of_nil. }
  assert (lcs_row_index <$> a ≡ₚ row_index <$> rows) as Hperm by (unfold a; rewrite old_order_fmap; done).
  destruct (longest_matches_ok (modifications (changes ret)) Hm a rows Hperm ltac:(lia) (Z.of_nat (length l1)))
    as (l&E&Hal&l'&Hl'); [lia|].
  unfold new_sorted, numbered in E. rewrite E. cbn [mbind option_bind].
  destruct (align_ok a rows Hsame ltac:(lia) Hna Hnt Hba Hbt l (Z.of_nat (length l1)) (Z.of_nat (length l1)) ret)
    as ([i j]&d&ins&dels&inss&->&Hwd&Hwi&(A1&A2&A3)&Hhd&Hhi); [done|by rewrite Hl', last_snoc|lia|lia|done|done|].
  cbn [mbind option_bind]. exists d, ins, dels, inss. split; [done|]. split; [done|]. split; [done|].
  split; [|by split]. rewrite Nat2Z.id in A1, A2, A3. unfold alignment. rewrite !drop_0.
  split; [|split].
  - intros x Hx. specialize (A1 x Hx). rewrite <-(take_drop (length l1) a), fmap_app. apply elem_of_app. by right.
  - intros x Hx. specialize (A2 x Hx). rewrite <-(take_drop (length l1) rows), fmap_app. apply elem_of_app. by right.
  - rewrite <-(take_drop (length l1) a), <-(take_drop (length l1) rows).
    pose proof (filter_parts lcs_tv_index [] (take (length l1) a) (drop (length l1) a) dels) as Fa.
    pose proof (filter_parts tv_index [] (take (length l1) rows) (drop (length l1) rows) inss) as Fr.
    cbn [fmap list_fmap app] in Fa, Fr. rewrite take_drop in Fa. rewrite take_drop in Fr. rewrite !take_drop.
    rewrite (Fa Hna A1), (Fr Hnt A2), !fmap_app, Hpre. f_equal. exact A3.
Qed.
End Moves.

(** ** Pairing old and new rows *)

(** A row with its position *)
Notation old_place := (λ r : RowInfo, (prev_tv_index r, row_index r)).
Notation new_place := (λ r : RowInfo, (tv_index r, row_index r)).
Notation paired := (filter (λ r : RowInfo, prev_tv_index r ≠ npos)).
Notation unpaired := (filter (λ r : RowInfo, prev_tv_index r = npos)).

Section Pairing.
Context {T : Type} {ops : IndexSetOps T} {laws : IndexSetLaws T}.
Implicit Types (removed ins : T) (old new : list RowInfo).

Lemma add_some_ok {A} (p : A → bool) (f : A → Z) (l : list A) (d : T) :
  set_wf d → Forall (λ x, 0 ≤ f x < npos) l →
  ∃ d', foldlM (λ d x, if p x then set_add d (f x) else Some d) d l = Some d' ∧ set_wf d' ∧
    ∀ x, has d' x ↔ has d x ∨ x ∈ f <$> filter (λ y, p y = true) l.
Proof.
  revert d. induction l as [|y l IH]; intros d Hd Hl; cbn [foldlM].
  { exists d. split; [done|]. split; [done|]. intros x. rewrite elem_of_nil. tauto. }
  apply Forall_cons in Hl as [Hy Hl]. destruct (p y) eqn:E.
  - destruct (law_add d (f y) Hd Hy) as (d1&->&Hd1&Hh1). cbn [mbind option_bind].
    destruct (IH d1 Hd1 Hl) as (d2&E2&Hd2&Hh2). exists d2. split; [exact E2|]. split; [done|]. intros x.
    rewrite Hh2, Hh1, filter_cons, decide_True by done. rewrite fmap_cons, elem_of_cons. tauto.
  - cbn [mbind option_bind]. destruct (IH d Hd Hl) as (d2&E2&Hd2&Hh2). exists d2. split; [exact E2|]. split; [done|].
    intros x. rewrite Hh2, filter_cons, decide_False by congruence. done.
Qed.

Lemma add_list_ok {A} (f : A → Z) (l : list A) (d : T) :
  set_wf d → Forall (λ x, 0 ≤ f x < npos) l →
  ∃ d', foldlM (λ d x, set_add d (f x)) d l = Some d' ∧ set_wf d' ∧ ∀ x, has d' x ↔ has d x ∨ x ∈ f <$> l.
Proof.
  intros Hd Hl. destruct (add_some_ok (λ _, true) f l d Hd Hl) as (d'&E&Hd'&Hh). exists d'. split; [exact E|].
  split; [done|]. intros x. rewrite Hh, filter_all; [done|]. by apply Forall_forall.
Qed.

(** The result of pairing: [rm] are the places of the old rows without a new
    one. *)
Record pairing old new removed ins (l : list RowInfo) (removed' ins' : T) (rm : list (Z * Z)) : Prop := {
  pr_new : new_place <$> l = new_place <$> new;
  pr_old : rm ++ (old_place <$> paired l) ≡ₚ new_place <$> old;
  pr_removed : set_wf removed' ∧ ∀ x, has removed' x ↔ has removed x ∨ x ∈ rm.*1;
  pr_inserted : set_wf ins' ∧ ∀ x, has ins' x ↔ has ins x ∨ x ∈ tv_index <$> unpaired l;
  pr_complete : ∀ o r, o ∈ rm → r ∈ unpaired l → o.2 ≠ row_index r }.

Lemma pair_rest old new removed ins :
  set_wf removed → set_wf ins → Forall (λ r, 0 ≤ tv_index r < npos) old → Forall (λ r, 0 ≤ tv_index r < npos) new →
  Forall (λ r, prev_tv_index r = npos) new → old = [] ∨ new = [] →
  ∃ removed' ins' rm,
    (removed ← foldlM (λ d o, set_add d (tv_index o)) removed old;
     ins ← foldlM (λ d r, set_add d (tv_index r)) ins new;
     Some (new, removed, ins)) = Some (new, removed', ins') ∧ pairing old new removed ins new removed' ins' rm.
Proof.
  intros Hr Hi Ho Hn Hun Hone.
  destruct (add_list_ok tv_index old removed Hr Ho) as (r'&->&Hr'&Hhr). cbn [mbind option_bind].
  destruct (add_list_ok tv_index new ins Hi Hn) as (i'&->&Hi'&Hhi). cbn [mbind option_bind].
  exists r', i', (new_place <$> old). split; [done|].
  assert (paired new = []) as Hp by (apply filter_none; eapply Forall_impl; [exact Hun|]; intros r Er; simpl; tauto).
  assert (unpaired new = new) as Hu by (by apply filter_all).
  split; [done| | | |].
  - rewrite Hp. simpl. by rewrite app_nil_r.
  - split; [done|]. intros x. by rewrite Hhr, <-list_fmap_compose.
  - split; [done|]. intros x. by rewrite Hhi, Hu.
  - rewrite Hu. intros o r Hin Hr2. destruct Hone as [->| ->]; [by apply elem_of_nil in Hin|by apply elem_of_nil in Hr2].
Qed.

Lemma rows_sorted x l : StronglySorted by_row (x :: l) → Forall (λ r, row_index x ≤ row_index r) l.
Proof. by intros [_ H]%StronglySorted_inv. Qed.

Lemma row_of_place (l new : list RowInfo) r :
  new_place <$> l = new_place <$> new → r ∈ l → ∃ r', r' ∈ new ∧ row_index r' = row_index r ∧ tv_index r' = tv_index r.
Proof.
  intros E Hr. assert ((tv_index r, row_index r) ∈ new_place <$> new) as (r'&Er&Hin)%list_elem_of_fmap
    by (rewrite <-E; exact (list_elem_of_fmap_2 _ _ _ Hr)).
  exists r'. injection Er as -> ->. done.
Qed.

Lemma pair_rows_ok old : ∀ new removed ins,
  StronglySorted by_row old → StronglySorted by_row new →
  set_wf removed → set_wf ins → Forall (λ r, 0 ≤ tv_index r < npos) old → Forall (λ r, 0 ≤ tv_index r < npos) new →
  Forall (λ r, prev_tv_index r = npos) new →
  ∃ l removed' ins' rm, pair_rows old new removed ins = Some (l, removed', ins') ∧
    pairing old new removed ins l removed' ins' rm.
Proof.
  induction old as [|o old IHold].
  { intros new removed ins _ _ Hr Hi Ho Hn Hun.
    destruct (pair_rest [] new removed ins) as (r'&i'&rm&E&Hp); try done; [by left|].
    exists new, r', i', rm. split; [by destruct new|done]. }
  induction new as [|r new IHnew].
  { intros removed ins _ _ Hr Hi Ho Hn Hun.
    destruct (pair_rest (o :: old) [] removed ins) as (r'&i'&rm&E&Hp); try done; [by right|]. exists [], r', i', rm. by split. }
  intros removed ins Hso Hsn Hr Hi Ho Hn Hun. pose proof (rows_sorted _ _ Hso) as Hgo.
  pose proof (rows_sorted _ _ Hsn) as Hgn. pose proof Ho as [Ho1 Ho2]%Forall_cons. pose proof Hn as [Hn1 Hn2]%Forall_cons.
  pose proof Hun as [Hun1 Hun2]%Forall_cons. pose proof Hso as [Hso2 _]%StronglySorted_inv.
  pose proof Hsn as [Hsn2 _]%StronglySorted_inv. cbn [pair_rows].
  destruct (Z.eqb_spec (row_index o) (row_index r)) as [E|E].
  - destruct (IHold new removed ins) as (l&r'&i'&rm&->&[P1 P2 P3 P4 P5]); try done. cbn [mbind option_bind].
    set (x := mkRowInfo _ _ _ _). exists (x :: l), r', i', rm. split; [done|].
    assert (prev_tv_index x ≠ npos) as Hx by (simpl; lia).
    assert (paired (x :: l) = x :: paired l) as Ep by (rewrite filter_cons; by rewrite decide_True).
    assert (unpaired (x :: l) = unpaired l) as Eu by (rewrite filter_cons; by rewrite decide_False).
    split; rewrite ?Ep, ?Eu; [|..|done|done|done].
    + rewrite !fmap_cons, P1. done.
    + rewrite !fmap_cons, <-P2. unfold x. simpl. rewrite E. by rewrite Permutation_middle.
  - destruct (Z.ltb_spec (row_index o) (row_index r)) as [Hlt|Hge].
    + destruct (law_add removed (tv_index o) Hr Ho1) as (rem1&->&Hr1&Hh1). cbn [mbind option_bind].
      destruct (IHold (r :: new) rem1 ins) as (l&r'&i'&rm&->&[P1 P2 [P3a P3b] P4 P5]); try done.
      exists l, r', i', ((tv_index o, row_index o) :: rm). split; [done|]. split; [done| | |done|].
      * rewrite fmap_cons, <-P2. done.
      * split; [done|]. intros x. rewrite P3b, Hh1, fmap_cons, elem_of_cons. simpl. tauto.
      * intros o' r1 [->|Ho']%elem_of_cons Hr1'; [|by apply P5]. simpl. apply list_elem_of_filter in Hr1' as [_ Hr1'].
        destruct (row_of_place _ _ _ P1 Hr1') as (r2&[->|Hr2]%elem_of_cons&<-&_); [lia|].
        rewrite Forall_forall in Hgn. specialize (Hgn r2 Hr2). simpl in Hgn. lia.
    + destruct (law_add ins (tv_index r) Hi Hn1) as (ins1&->&Hi1&Hh1). cbn [mbind option_bind].
      destruct (IHnew removed ins1) as (l&r'&i'&rm&Erec&[P1 P2 P3 [P4a P4b] P5]); try done.
      cbn [pair_rows] in Erec. rewrite Erec. cbn [mbind option_bind].
      exists (r :: l), r', i', rm. split; [done|].
      assert (paired (r :: l) = paired l) as Ep by (rewrite filter_cons, decide_False; [done|by intros H]).
      assert (unpaired (r :: l) = r :: unpaired l) as Eu by (rewrite filter_cons; by rewrite decide_True).
      split; rewrite ?Ep, ?Eu; [by rewrite !fmap_cons, P1|done|done| |].
      * split; [done|]. intros x. rewrite P4b, Hh1, fmap_cons, elem_of_cons. tauto.
      * intros o' r1 Ho' [->|Hr1']%elem_of_cons; [|by apply P5].
        assert (o' ∈ new_place <$> o :: old) as (o2&->&Ho2')%list_elem_of_fmap
          by (rewrite <-P2; apply elem_of_app; by left).
        simpl. apply elem_of_cons in Ho2' as [->|Ho2']; [lia|].
        rewrite Forall_forall in Hgo. specialize (Hgo o2 Ho2'). simpl in Hgo. lia.
Qed.
End Pairing.

(** ** Positions and rows of a list *)
Notation first_lt := (λ p q : Z * Z, p.1 < q.1).

Lemma number_sorted_from (l : list Z) k : StronglySorted first_lt (imap (λ i x, (k + Z.of_nat i, x)) l).
Proof.
  revert k. induction l as [|x l IH]; intros k; [constructor|]. simpl.
  assert (imap ((λ (i : nat) (y : Z), (k + Z.of_nat i, y)) ∘ S) l = imap (λ (i : nat) (y : Z), (k + 1 + Z.of_nat i, y)) l)
    as -> by (apply imap_ext; intros i y _; simpl; f_equal; lia).
  constructor; [apply IH|]. apply Forall_forall. intros p (i&y&->&_)%elem_of_lookup_imap. simpl. lia.
Qed.

Lemma number_sorted (l : list Z) : StronglySorted first_lt (number l).
Proof. exact (number_sorted_from l 0). Qed.

Lemma elem_of_number (l : list Z) i x : (i, x) ∈ number l ↔ 0 ≤ i ∧ l !! Z.to_nat i = Some x.
Proof.
  unfold number. rewrite elem_of_lookup_imap. split.
  - intros (k&y&[= -> ->]&Hk). rewrite Nat2Z.id. split; [lia|done].
  - intros [Hi Hx]. exists (Z.to_nat i), x. split; [f_equal; lia|done].
Qed.

Lemma first_lt_NoDup (l : list (Z * Z)) : StronglySorted first_lt l → NoDup l.*1.
Proof.
  induction 1 as [|p l _ IH Hp]; [constructor|]. rewrite fmap_cons. constructor; [|exact IH].
  intros (q&E&Hq)%list_elem_of_fmap. rewrite Forall_forall in Hp. specialize (Hp q Hq). simpl in Hp. lia.
Qed.

Lemma number_NoDup (l : list Z) : NoDup (number l).*1.
Proof. apply first_lt_NoDup, number_sorted. Qed.

Lemma number_bounds (l : list Z) p : p ∈ number l → 0 ≤ p.1 < Z.of_nat (length l).
Proof. destruct p as [i x]. intros [? Hx%lookup_lt_Some]%elem_of_number. simpl. lia. Qed.

(** The part of a sorted list outside a set, from a splitting of the list *)
Lemma outside_unique (S : Z → Prop) `{∀ x, Decision (S x)} (l X Y : list (Z * Z)) :
  StronglySorted first_lt l → l ≡ₚ X ++ Y → (∀ x, S x ↔ x ∈ X.*1) →
  StronglySorted (λ p q, p.1 ≤ q.1) Y → filter (λ p, ¬ S p.1) l = Y.
Proof.
  intros Hl Hperm HS HY.
  assert (NoDup (X.*1 ++ Y.*1)) as Hnd by (rewrite <-fmap_app, <-Hperm; by apply first_lt_NoDup).
  apply NoDup_app in Hnd as (_&Hdis&HndY).
  assert (filter (λ p, ¬ S p.1) l ≡ₚ Y) as Hp.
  { rewrite Hperm, filter_app, filter_none, filter_all; [done|..].
    - apply Forall_forall. intros p Hp Hs. apply HS in Hs. apply (Hdis _ Hs). by apply list_elem_of_fmap_2.
    - apply Forall_forall. intros p Hp Hs. apply Hs, HS. by apply list_elem_of_fmap_2. }
  apply (StronglySorted_unique_strong first_lt); [intros p q _ _ ? ?; lia| | |exact Hp].
  - clear -Hl. induction Hl as [|p l Hl IH Hp]; [constructor|]. rewrite filter_cons. case_decide; [|done].
    constructor; [done|]. by apply Forall_filter.
  - clear -HY HndY. induction HY as [|p l Hl IH Hp]; [constructor|]. rewrite fmap_cons in HndY.
    apply NoDup_cons in HndY as [Hno Hnd]. constructor; [by apply IH|]. rewrite Forall_forall in Hp |- *.
    intros q Hq. specialize (Hp q Hq). simpl in Hp. destruct (decide (p.1 = q.1)) as [E|]; [|lia].
    destruct Hno. rewrite E. by apply list_elem_of_fmap_2.
Qed.

(** ** The old rows *)
Section Calculate.
Context {build : Build} {T : Type} {ops : IndexSetOps T} {laws : IndexSetLaws T}.

Lemma old_rows_ok (prev : list Z) :
  Z.of_nat (length prev) < npos →
  ∃ deleted old d, foldlM old_row_step (0, [], set_nil) (number prev) = Some (deleted, old, d) ∧ set_wf d ∧
    new_place <$> old = filter (λ p, p.2 ≠ npos) (number prev) ∧
    ∀ x, has d x ↔ x ∈ (filter (λ p, p.2 = npos) (number prev)).*1.
Proof.
  intros Hlen.
  destruct (foldlM_spec (old_row_step (T := T)) (λ l s, set_wf s.2 ∧
      new_place <$> s.1.2 = filter (λ p, p.2 ≠ npos) l ∧ ∀ x, has s.2 x ↔ x ∈ (filter (λ p, p.2 = npos) l).*1)
    [] (number prev) (0, [], set_nil)) as ([[deleted old] d]&E&Hwf&Hold&Hd).
  - intros l1 [i row] l2 [[deleted old] d] Hl _ (Hwf&Hold&Hd). simpl in Hl, Hwf, Hold, Hd.
    assert ((i, row) ∈ number prev) as Hb%number_bounds by (rewrite Hl; apply elem_of_app; right; by left). simpl in Hb.
    cbn [old_row_step]. destruct (Z.eqb_spec row npos) as [->|Hne].
    + destruct (law_add d i Hwf) as (d'&->&Hwf'&Hd'); [lia|]. cbn [mbind option_bind]. eexists. split; [done|].
      simpl. rewrite !filter_app. split; [done|]. split.
      * rewrite (filter_none _ [(i, npos)]), app_nil_r; [done|]. constructor; [|constructor]. simpl. tauto.
      * intros x. rewrite (filter_all _ [(i, npos)]) by (constructor; [done|constructor]).
        rewrite Hd', Hd, fmap_app, elem_of_app. simpl. rewrite list_elem_of_singleton. done.
    + eexists. split; [done|]. simpl. rewrite !filter_app. split; [done|]. split.
      * rewrite (filter_all _ [(i, row)]) by (constructor; [done|constructor]). by rewrite fmap_app, Hold.
      * intros x. rewrite (filter_none _ [(i, row)]) by (constructor; [done|constructor]). by rewrite app_nil_r.
  - simpl. split; [apply law_nil|]. split; [done|]. intros x. rewrite elem_of_nil. split; [by intros ?%has_nil|done].
  - exists deleted, old, d. split; [exact E|]. by split.
Qed.

#[local] Instance by_row_total : Total by_row.
Proof. intros x y. unfold by_row. lia. Qed.
#[local] Instance by_row_trans : Transitive by_row.
Proof. intros x y z. unfold by_row. lia. Qed.
#[local] Instance by_tv_total : Total by_tv.
Proof. intros x y. unfold by_tv. lia. Qed.
#[local] Instance by_tv_trans : Transitive by_tv.
Proof. intros x y z. unfold by_tv. lia. Qed.
#[local] Instance lcs_by_tv_total : Total lcs_by_tv.
Proof. intros x y. unfold lcs_by_tv, tie_le. lia. Qed.
#[local] Instance lcs_by_tv_trans : Transitive lcs_by_tv.
Proof. intros x y z. unfold lcs_by_tv, tie_le. lia. Qed.

Lemma filter_split {A} (P : A → Prop) `{∀ x, Decision (P x)} (l : list A) :
  l ≡ₚ filter (λ x, ¬ P x) l ++ filter P l.
Proof.
  induction l as [|x l IH]; [done|]. rewrite !filter_cons. destruct (decide (P x)) as [HP|HP].
  - rewrite decide_False by tauto. rewrite <-Permutation_middle. by constructor.
  - rewrite decide_True by done. by constructor.
Qed.

Lemma fmap_sorted {A} (R : A → A → Prop) (f : A → Z * Z) (l : list A) :
  (∀ x y, R x y → (f x).1 ≤ (f y).1) → StronglySorted R l → StronglySorted (λ p q, p.1 ≤ q.1) (f <$> l).
Proof.
  intros HR. induction 1 as [|x l _ IH Hx]; [constructor|]. rewrite fmap_cons. constructor; [done|].
  rewrite Forall_fmap. eapply Forall_impl; [exact Hx|]. intros y. apply HR.
Qed.

(** The rows in both lists, in the order of the new list, and what is removed
    and inserted: together they are the two lists. *)
Record rows_found (prev next : list Z) (P : list RowInfo) (gone added : Z → Prop) : Prop := {
  rf_new : ∀ (S : Z → Prop) `{∀ x, Decision (S x)}, (∀ x, S x ↔ added x) →
    filter (λ p, ¬ S p.1) (number next) = new_place <$> P;
  rf_old : ∀ (S : Z → Prop) `{∀ x, Decision (S x)}, (∀ x, S x ↔ gone x) →
    filter (λ p, ¬ S p.1) (number prev) = (λ r, (lcs_tv_index r, lcs_row_index r)) <$> old_order P;
  rf_gone : ∀ x, gone x → 0 ≤ x < Z.of_nat (length prev);
  rf_added : ∀ x, added x → 0 ≤ x < Z.of_nat (length next);
  rf_old_bounds : Forall (λ r, 0 ≤ prev_tv_index r < Z.of_nat (length prev)) P;
  rf_new_bounds : Forall (λ r, 0 ≤ tv_index r < Z.of_nat (length next)) P;
  rf_old_NoDup : NoDup (prev_tv_index <$> P);
  rf_new_NoDup : NoDup (tv_index <$> P) }.

Lemma rows_found_ok prev next old new l removed' ins' rm d :
  new_place <$> old ≡ₚ filter (λ p, p.2 ≠ npos) (number prev) → new_place <$> new ≡ₚ number next →
  pairing old new (set_nil : T) set_nil l removed' ins' rm →
  (∀ x, has d x ↔ x ∈ (filter (λ p, p.2 = npos) (number prev)).*1) →
  rows_found prev next (merge_sort by_tv (paired l)) (λ x, has d x ∨ has removed' x) (has ins').
Proof.
  intros Hold Hnew [P1 P2 [_ P3] [_ P4] _] Hd.
  set (P := merge_sort by_tv (paired l)). assert (P ≡ₚ paired l) as HP by apply merge_sort_Permutation.
  assert (∀ x, has ins' x ↔ x ∈ (new_place <$> unpaired l).*1) as Hins.
  { intros x. rewrite P4, <-list_fmap_compose. split; [intros [?%has_nil|?]; done|by right]. }
  assert (number next ≡ₚ (new_place <$> unpaired l) ++ (new_place <$> P)) as Hnext.
  { rewrite HP, <-fmap_app, <-Hnew, <-P1. apply fmap_Permutation. rewrite (filter_split (λ r, prev_tv_index r = npos) l) at 1.
    apply Permutation_app_comm. }
  set (X := filter (λ p : Z * Z, p.2 = npos) (number prev) ++ rm).
  assert (number prev ≡ₚ X ++ (old_place <$> P)) as Hprev.
  { unfold X. rewrite <-(assoc_L (++)), HP, P2, Hold, (Permutation_app_comm (filter _ _)). apply filter_split. }
  assert (∀ x, has d x ∨ has removed' x ↔ x ∈ X.*1) as Hgone.
  { intros x. unfold X. rewrite fmap_app, elem_of_app, Hd, P3. split; [intros [?|[?%has_nil|?]]; auto; done|tauto]. }
  assert (Permutation ((λ r, (lcs_tv_index r, lcs_row_index r)) <$> old_order P) (old_place <$> P)) as Horder
    by apply old_order_fmap.
  split.
  - intros S HS HSx. apply (outside_unique S _ (new_place <$> unpaired l)); [apply number_sorted|done| |].
    + intros x. by rewrite HSx, Hins.
    + apply (fmap_sorted by_tv); [done|]. apply StronglySorted_merge_sort; apply _.
  - intros S HS HSx. apply (outside_unique S _ X); [apply number_sorted|by rewrite Horder| |].
    + intros x. by rewrite HSx, Hgone.
    + apply (fmap_sorted lcs_by_tv); [unfold lcs_by_tv, tie_le; simpl; lia|]. apply StronglySorted_merge_sort; apply _.
  - intros x [p [-> Hp]]%Hgone%list_elem_of_fmap. apply number_bounds. rewrite Hprev. apply elem_of_app. by left.
  - intros x [p [-> Hp]]%Hins%list_elem_of_fmap. apply number_bounds. rewrite Hnext. apply elem_of_app. by left.
  - apply Forall_forall. intros r Hr. apply (number_bounds prev (prev_tv_index r, row_index r)). rewrite Hprev.
    apply elem_of_app. right. exact (list_elem_of_fmap_2 _ _ _ Hr).
  - apply Forall_forall. intros r Hr. apply (number_bounds next (tv_index r, row_index r)). rewrite Hnext.
    apply elem_of_app. right. exact (list_elem_of_fmap_2 _ _ _ Hr).
  - pose proof (number_NoDup prev) as Hnd. rewrite Hprev, fmap_app in Hnd. apply NoDup_app in Hnd as (_&_&Hnd).
    by rewrite <-list_fmap_compose in Hnd.
  - pose proof (number_NoDup next) as Hnd. rewrite Hnext, fmap_app in Hnd. apply NoDup_app in Hnd as (_&_&Hnd).
    by rewrite <-list_fmap_compose in Hnd.
Qed.

(** Every row of the new list without duplicates that is in the old one is
    paired. *)
Lemma found_complete prev next old new l (removed' ins' : T) rm x row :
  new_place <$> old ≡ₚ filter (λ p, p.2 ≠ npos) (number prev) → new_place <$> new ≡ₚ number next →
  pairing old new (set_nil : T) set_nil l removed' ins' rm →
  NoDup next → row ∈ prev → row ≠ npos → 0 ≤ x → next !! Z.to_nat x = Some row →
  ∃ r, r ∈ paired l ∧ tv_index r = x ∧ row_index r = row.
Proof.
  intros Hold Hnew [P1 P2 _ _ P5] Hnd Hprev Hrow Hx Hnext.
  assert (∀ r, r ∈ l → (tv_index r, row_index r) ∈ number next) as Hin.
  { intros r Hr. rewrite <-Hnew, <-P1. exact (list_elem_of_fmap_2 _ _ _ Hr). }
  assert ((x, row) ∈ new_place <$> l) as (r&[= Ex Er]&Hr)%list_elem_of_fmap
    by (rewrite P1, Hnew; by apply elem_of_number).
  destruct (decide (prev_tv_index r = npos)) as [E|E];
    [|exists r; split; [by apply list_elem_of_filter|by split]].
  apply list_elem_of_lookup in Hprev as [i Hi].
  assert ((Z.of_nat i, row) ∈ rm ++ (old_place <$> paired l)) as [Hrm|Hpair]%elem_of_app.
  { rewrite P2, Hold. apply list_elem_of_filter. split; [done|]. apply elem_of_number. rewrite Nat2Z.id. split; [lia|done]. }
  - exfalso. apply (P5 _ r Hrm); [by apply list_elem_of_filter|done].
  - apply list_elem_of_fmap in Hpair as (r2&[= _ Er2]&Hr2). exists r2. split; [done|]. split; [|done].
    apply list_elem_of_filter in Hr2 as [_ Hr2]. apply Hin, elem_of_number in Hr2 as [Hpos Hr2].
    rewrite <-Er2 in Hr2. pose proof (NoDup_lookup _ _ _ _ Hnd Hr2 Hnext). lia.
Qed.

Lemma found_in_both prev next old new l (removed' ins' : T) rm r :
  new_place <$> old ≡ₚ filter (λ p, p.2 ≠ npos) (number prev) → new_place <$> new ≡ₚ number next →
  pairing old new (set_nil : T) set_nil l removed' ins' rm → r ∈ l → prev_tv_index r ≠ npos →
  next !! Z.to_nat (tv_index r) = Some (row_index r) ∧ row_index r ∈ prev.
Proof.
  intros Hold Hnew [P1 P2 _ _ _] Hr Hne.
  assert ((tv_index r, row_index r) ∈ number next) as Hin%elem_of_number
    by (rewrite <-Hnew, <-P1; exact (list_elem_of_fmap_2 _ _ _ Hr)).
  split; [tauto|]. assert ((prev_tv_index r, row_index r) ∈ new_place <$> old) as Hin2.
  { rewrite <-P2. apply elem_of_app. right. apply (list_elem_of_fmap_2 old_place). by apply list_elem_of_filter. }
  rewrite Hold in Hin2. apply list_elem_of_filter in Hin2 as [_ [_ Hin2]%elem_of_number].
  by apply list_elem_of_lookup_2 in Hin2.
Qed.

(** What [calculate] returns *)
Record diff (prev next : list Z) (row_did_change : Z → bool) (ret : CollectionChangeBuilder T) : Prop := {
  df_wf : set_wf (deletions (changes ret)) ∧ set_wf (insertions (changes ret)) ∧ set_wf (modifications (changes ret));
  df_moves : moves (changes ret) = [];
  df_deletions : ∀ x, has (deletions (changes ret)) x → 0 ≤ x < Z.of_nat (length prev);
  df_insertions : ∀ x, has (insertions (changes ret)) x → 0 ≤ x < Z.of_nat (length next);
  df_kept : kept_from (has (deletions (changes ret))) 0 prev = kept_from (has (insertions (changes ret))) 0 next;
  df_modified : ∀ x, has (modifications (changes ret)) x →
    ∃ row, next !! Z.to_nat x = Some row ∧ row_did_change row = true ∧ row ∈ prev;
  df_unmodified : NoDup next → ∀ x row, 0 ≤ x → next !! Z.to_nat x = Some row → row ∈ prev → row ≠ npos →
    row_did_change row = true → has (modifications (changes ret)) x }.

Lemma moves_wf_nil (d ins : T) : moves_wf d ins [].
Proof. split; [by intros m ?%elem_of_nil|]. split; constructor. Qed.

Lemma diff_applies prev next row_did_change ret :
  Z.of_nat (length prev) < npos → Z.of_nat (length next) < npos →
  diff prev next row_did_change ret → apply_change (changes ret) prev next = Some next.
Proof.
  intros Hp Hn [(Hd&Hi&_) _ Hdel Hins Hkept _ _]. unfold apply_change.
  change (foldlM _ prev (rev (set_ranges (deletions (changes ret)))))
    with (foldlM erase_range prev (rev (set_ranges (deletions (changes ret))))).
  pose proof (law_ranges _ Hd) as Hrd. pose proof (law_ranges _ Hi) as Hri.
  rewrite (erase_ranges _ _ (-1)); [|lia|done|].
  2:{ apply (bound_le (deletions (changes ret))); [done| |lia]. intros x Hx. by apply Hdel in Hx as []. }
  cbn [mbind option_bind]. change (foldlM _ _ (IndexSet.indexes (set_ranges (insertions (changes ret)))))
    with (foldlM (insert_row next) (kept_from (has (deletions (changes ret))) 0 prev)
            (IndexSet.indexes (set_ranges (insertions (changes ret))))).
  rewrite Hkept. apply (insert_rows (has (insertions (changes ret))) next _ 0); [lia| | |].
  - by eapply indexes_sorted.
  - apply Forall_forall. intros x Hx%elem_of_indexes. apply Hins in Hx. lia.
  - intros x _. by rewrite elem_of_indexes.
Qed.

Lemma kept_rows_eq prev next P gone added (D I : Z → Prop) `{∀ x, Decision (gone x)} `{∀ x, Decision (added x)}
    `{∀ x, Decision (D x)} `{∀ x, Decision (I x)} dels inss :
  rows_found prev next P gone added → alignment (old_order P) P 0 0 dels inss →
  (∀ x, D x ↔ gone x ∨ x ∈ dels) → (∀ x, I x ↔ added x ∨ x ∈ inss) →
  kept_from D 0 prev = kept_from I 0 next.
Proof.
  intros [F1 F2 _ _ _ _ _ _] (_&_&A) HD HI. rewrite !drop_0 in A. rewrite !kept_number.
  assert (∀ (S R : Z → Prop) `{∀ x, Decision (S x)} `{∀ x, Decision (R x)} (k : list Z) (l : list (Z * Z)),
    (∀ x, R x ↔ S x ∨ x ∈ k) → filter (λ p, ¬ R p.1) l = filter (λ p, ¬ p.1 ∈ k) (filter (λ p, ¬ S p.1) l)) as Hfilter.
  { intros S R ?? k l HR. rewrite list_filter_filter. apply list_filter_iff. intros p. rewrite HR. tauto. }
  rewrite (Hfilter gone D _ _ dels), (Hfilter added I _ _ inss) by done.
  rewrite (F2 gone _), (F1 added _) by done.
  rewrite !filter_fmap, <-!list_fmap_compose. exact A.
Qed.

(** The change set found, once the rows have been paired *)
Lemma diff_found prev next P row_did_change (d removed ins m d1 ins1 d2 : T) dels inss :
  rows_found prev next P (λ x, has d x ∨ has removed x) (has ins) →
  alignment (old_order P) P 0 0 dels inss →
  set_wf ins1 → set_wf m → set_wf d2 →
  (∀ x, has d1 x ↔ has d x ∨ x ∈ dels) → (∀ x, has ins1 x ↔ has ins x ∨ x ∈ inss) →
  (∀ x, has d2 x ↔ has d1 x ∨ has removed x) →
  (∀ x, has m x → ∃ row, next !! Z.to_nat x = Some row ∧ row_did_change row = true ∧ row ∈ prev) →
  (NoDup next → ∀ x row, 0 ≤ x → next !! Z.to_nat x = Some row → row ∈ prev → row ≠ npos →
    row_did_change row = true → has m x) →
  diff prev next row_did_change (mkChangeBuilder (mkChangeSet d2 ins1 m set_nil [] []) ∅ true).
Proof.
  intros Hfound Hal Hwi Hwm Hwd Hd1 Hi1 Hd2 Hm1 Hm2. pose proof Hal as (A1&A2&_).
  assert (∀ x, has d2 x ↔ (has d x ∨ has removed x) ∨ x ∈ dels) as HD by (intros x; rewrite Hd2, Hd1; tauto).
  split; simpl; [by split_and!|done| | | |done|done].
  - intros x [Hx|Hx]%HD; [by apply (rf_gone _ _ _ _ _ Hfound)|].
    apply A1 in Hx. rewrite drop_0, old_order_fmap in Hx. apply list_elem_of_fmap in Hx as (r&->&Hr).
    simpl. pose proof (rf_old_bounds _ _ _ _ _ Hfound) as Hb. rewrite Forall_forall in Hb. by apply Hb.
  - intros x [Hx|Hx]%Hi1; [by apply (rf_added _ _ _ _ _ Hfound)|].
    apply A2 in Hx. rewrite drop_0 in Hx. apply list_elem_of_fmap in Hx as (r&->&Hr).
    pose proof (rf_new_bounds _ _ _ _ _ Hfound) as Hb. rewrite Forall_forall in Hb. by apply Hb.
  - by apply (kept_rows_eq prev next P (λ x, has d x ∨ has removed x) (has ins) _ _ dels inss).
Qed.

Lemma calculate_ok prev next row_did_change :
  Z.of_nat (length prev) < npos → Z.of_nat (length next) < npos →
  ∃ ret : CollectionChangeBuilder T, calculate prev next row_did_change None = Some ret ∧
    diff prev next row_did_change ret.
Proof.
  intros Hp Hn. unfold calculate. rewrite orb_true_r. cbn [mbind option_bind].
  destruct (old_rows_ok prev Hp) as (deleted&old&d&->&Hd&Hold&Hhd). cbn [mbind option_bind].
  set (sorted_old := merge_sort by_row old).
  set (new := (λ p : Z * Z, mkRowInfo p.2 npos p.1 0) <$> number next). set (sorted_new := merge_sort by_row new).
  assert (new_place <$> sorted_old ≡ₚ filter (λ p, p.2 ≠ npos) (number prev)) as Ho
    by (rewrite <-Hold; apply fmap_Permutation, merge_sort_Permutation).
  assert (new_place <$> sorted_new ≡ₚ number next) as Hw.
  { unfold sorted_new. rewrite merge_sort_Permutation. unfold new. rewrite <-list_fmap_compose.
    rewrite <-(list_fmap_id (number next)) at 2. by apply Permutation_refl', list_fmap_ext; intros ? [? ?]. }
  assert (∀ k (l : list RowInfo), Z.of_nat k < npos →
    (∀ p, p ∈ new_place <$> l → 0 ≤ p.1 < Z.of_nat k) → Forall (λ r, 0 ≤ tv_index r < npos) l) as Hbounds.
  { intros k l Hk Hl. apply Forall_forall. intros r Hr.
    specialize (Hl _ (list_elem_of_fmap_2 (λ r, (tv_index r, row_index r)) _ _ Hr)). simpl in Hl. lia. }
  destruct (pair_rows_ok sorted_old sorted_new set_nil set_nil) as (l&removed&ins&rm&->&Hpair).
  - apply StronglySorted_merge_sort; apply _.
  - apply StronglySorted_merge_sort; apply _.
  - apply law_nil.
  - apply law_nil.
  - apply (Hbounds _ _ Hp). intros p. rewrite Ho, list_elem_of_filter. intros [_ ?]. by apply number_bounds.
  - apply (Hbounds _ _ Hn). intros p. rewrite Hw. apply number_bounds.
  - unfold sorted_new. rewrite merge_sort_Permutation. unfold new. rewrite Forall_fmap. by apply Forall_forall.
  - cbn [mbind option_bind].
    pose proof (rows_found_ok prev next _ _ l removed ins rm d Ho Hw Hpair Hhd) as Hfound.
    set (P := merge_sort by_tv (paired l)) in *.
    assert (∀ r, r ∈ P ↔ r ∈ paired l) as HP by (intros r; unfold P; by rewrite merge_sort_Permutation).
    assert (∀ (f : RowInfo → Z) k, k < npos → Forall (λ r, 0 ≤ f r < k) P → Forall (λ r, 0 ≤ f r < npos) P) as Hwide
      by (intros f k Hk Hf; eapply Forall_impl; [exact Hf|]; simpl; lia).
    pose proof (Hwide _ _ Hp (rf_old_bounds _ _ _ _ _ Hfound)) as Hbo.
    pose proof (Hwide _ _ Hn (rf_new_bounds _ _ _ _ _ Hfound)) as Hbn.
    destruct (add_some_ok (λ r, row_did_change (row_index r)) tv_index P set_nil) as (m&->&Hm&Hhm);
      [apply law_nil|done|]. cbn [mbind option_bind].
    assert (Z.of_nat (length P) < npos) as HlP.
    { pose proof (rf_new_NoDup _ _ _ _ _ Hfound) as Hnd. pose proof (rf_new_bounds _ _ _ _ _ Hfound) as Hb.
      assert (length (tv_index <$> P) ≤ length (seqZ 0 (Z.of_nat (length next))))%nat as Hle.
      { apply submseteq_length, NoDup_submseteq; [done|]. intros x (r&->&Hr)%list_elem_of_fmap.
        apply elem_of_seqZ. rewrite Forall_forall in Hb. specialize (Hb r Hr). simpl in Hb. lia. }
      rewrite length_fmap, length_seqZ in Hle. lia. }
    set (ret0 := mkChangeBuilder (mkChangeSet d ins m set_nil [] []) ∅ true).
    destruct (moves_sorted_ok P ret0)
      as (d1&ins1&dels&inss&->&Hwd1&Hwi1&Hal&Hd1&Hi1); [done|apply (rf_old_NoDup _ _ _ _ _ Hfound)|
      apply (rf_new_NoDup _ _ _ _ _ Hfound)|done|done|done|apply Hpair|done|]. cbn [mbind option_bind].
    change (deletions (changes (with_sets ret0 d1 ins1))) with d1.
    destruct (law_add_set d1 removed Hwd1) as (d2&->&Hwd2&Hd2); [apply Hpair|]. cbn [mbind option_bind].
    set (ret := with_deletions (with_sets ret0 d1 ins1) d2).
    assert (diff prev next row_did_change ret) as Hdiff.
    { apply (diff_found prev next P row_did_change d removed ins m d1 ins1 d2 dels inss); try done.
      - intros x [?%has_nil|(r&->&[Hr1 Hr2]%list_elem_of_filter)%list_elem_of_fmap]%Hhm; [done|].
        apply HP, list_elem_of_filter in Hr2 as [Hr2 Hr3]. exists (row_index r).
        destruct (found_in_both prev next _ _ l removed ins rm r Ho Hw Hpair Hr3 Hr2). by split_and!.
      - intros Hnd x row Hx Hrow Hprev Hne Hc.
        destruct (found_complete prev next _ _ l removed ins rm x row Ho Hw Hpair) as (r&Hr&<-&<-); [done..|].
        apply Hhm. right. apply list_elem_of_fmap_2, list_elem_of_filter. split; [done|]. by apply HP. }
    pose proof Hdiff as [(W1&W2&W3) Hmv _ _ _ _ _].
    rewrite (verify_true ret); [|rewrite Hmv; by apply moves_wf_nil|done|done]. cbn [mbind option_bind].
    exists ret. split; [|exact Hdiff]. destruct REALM_DEBUG; [|done].
    rewrite (diff_applies prev next row_did_change ret Hp Hn Hdiff). cbn [mbind option_bind].
    by rewrite bool_decide_true.
Qed.
End Calculate.
