(* ===== verification/TableRows.v ===== *)
(** A table of the database as a list of rows, the changes a transaction makes
    to it, and the modified cells [CollectionChangeBuilder] keeps for it.  The
    rows of a top-level table have no order: rows are added at the end, and the
    last row takes the place of a removed one. *)
From stdpp Require Import gmap.
From S2P Require Import Prelude ChunkedRangeVector IndexSet IndexSetTheory IndexSetMerge IndexSetSpec RowMap ChangeBuilder ChangeTheory ChangeMerge ChangeFinal ChangeRefinement.
Import ChangeBuilder.

(** ** The abstract table

    A row remembers its position before the transaction, if it was there, and
    the columns set since. *)
Record TableRow := mkTableRow { row_origin : option Z; dirty : gset Z }.

#[export] Instance TableRow_eq_dec : EqDecision TableRow.
Proof. solve_decision. Defined.

Definition new_row : TableRow := mkTableRow None ∅.

Inductive TableOp :=
  | TAppend (count : Z)
  | TMoveOver (row : Z)
  | TSwap (row_1 row_2 : Z)
  | TModify (row col : Z)
  | TMerge (old new : Z)
  | TClear.

(** Removing a row: the last one takes its place. *)
Definition pop_over {A} (l : list A) (row : Z) : option (list A) :=
  x ← last l;
  assert! (0 <=? row) && (row <? len l);
  Some (take (pred (length l)) (<[Z.to_nat row := x]> l)).

(** [TMerge] makes a row added in this transaction the successor of the row
    [old], which is then removed. *)
Definition merged_row (x y : TableRow) : TableRow := mkTableRow (row_origin x) (dirty x ∪ dirty y).

Definition table_op (op : TableOp) (l : list TableRow) : option (list TableRow) :=
  match op with
  | TAppend c => assert! 0 <? c; Some (l ++ replicate (Z.to_nat c) new_row)
  | TMoveOver row => pop_over l row
  | TSwap a b =>
      x ← at_ l a;
      y ← at_ l b;
      assert! negb (a =? b);
      Some (<[Z.to_nat a := y]> (<[Z.to_nat b := x]> l))
  | TModify row col =>
      x ← at_ l row;
      assert! (0 <=? col) && (col <? npos);
      Some (<[Z.to_nat row := mkTableRow (row_origin x) ({[col]} ∪ dirty x)]> l)
  | TMerge old new =>
      x ← at_ l old;
      y ← at_ l new;
      assert! negb (old =? new) && bool_decide (row_origin y = None);
      pop_over (<[Z.to_nat new := merged_row x y]> l) old
  | TClear => Some []
  end.

(** ** Positions *)
Section Positions.
Context {A : Type}.
Implicit Types (l : list A).

Lemma len_app l k : len (l ++ k) = len l + len k.
Proof. unfold len. rewrite length_app. lia. Qed.

Lemma len_replicate n (x : A) : 0 ≤ n → len (replicate (Z.to_nat n) x) = n.
Proof. unfold len. rewrite length_replicate. lia. Qed.

Lemma len_insert l i (x : A) : len (<[i := x]> l) = len l.
Proof. unfold len. by rewrite length_insert. Qed.

Lemma last_at l : last l = at_ l (len l - 1).
Proof.
  rewrite last_lookup. unfold at_, len. case_decide; [f_equal; lia|].
  destruct l; [done|simpl in *; lia].
Qed.

Lemma pop_over_Some l l' row :
  pop_over l row = Some l' → 0 ≤ row < len l ∧ len l' = len l - 1 ∧
  ∀ p, at_ l' p = if decide (p < len l - 1) then
                    if decide (p = row) then at_ l (len l - 1) else at_ l p else None.
Proof.
  unfold pop_over. rewrite last_at. destruct (at_ l (len l - 1)) as [x|] eqn:Hx; [|done]. cbn [mbind option_bind].
  destruct (_ && _) eqn:Hr; [|done]. intros [= <-]. apply andb_true_iff in Hr as [?%Z.leb_le ?%Z.ltb_lt].
  split; [done|]. split; [unfold len in *; rewrite length_take, length_insert; lia|]. intros p.
  destruct (decide (p < len l - 1)) as [Hp|Hp].
  - replace (pred (length l)) with (Z.to_nat (len l - 1)) by (unfold len; lia).
    rewrite at_take, at_insert by done. by case_decide.
  - destruct (at_ _ p) as [y|] eqn:Hy; [|done]. apply at_Some in Hy. unfold len in *.
    rewrite length_take, length_insert in Hy. lia.
Qed.

Lemma pop_over_is_Some l row : 0 ≤ row < len l → ∃ l', pop_over l row = Some l'.
Proof.
  intros Hr. unfold pop_over. rewrite last_at. destruct (at_is_Some l (len l - 1)) as [x ->]; [lia|].
  cbn [mbind option_bind]. rewrite (proj2 (andb_true_iff _ _)); [by eauto|].
  split; [apply Z.leb_le|apply Z.ltb_lt]; lia.
Qed.
End Positions.

(** ** Where the rows go *)
Definition rows_follow (G : Z → Z → Prop) (l l' : list TableRow) : Prop :=
  (∀ t0 t r, at_ l t0 = Some r → G t0 t → at_ l' t = Some r) ∧
  (∀ t r, at_ l' t = Some r → r = new_row ∨ ∃ t0, at_ l t0 = Some r ∧ G t0 t).

(** Exchanging two positions *)
Definition swap_pos (a b t : Z) : Z := if decide (t = a) then b else if decide (t = b) then a else t.

(** The last row takes the place of [row]. *)
Definition over_pos (row last t0 t : Z) : Prop :=
  (t0 = last ∧ row ≠ last ∧ t = row) ∨ (t0 ≠ last ∧ t0 ≠ row ∧ t = t0).

Lemma swap_pos_invol a b t : swap_pos a b (swap_pos a b t) = t.
Proof. unfold swap_pos. repeat case_decide; congruence. Qed.

Lemma follow_append l c :
  0 < c → rows_follow (λ t0 t, t = insert_pos (len l) c t0) l (l ++ replicate (Z.to_nat c) new_row).
Proof.
  intros Hc. unfold rows_follow, insert_pos. split.
  - intros t0 t r Hr ->. pose proof (at_Some _ _ _ Hr). rewrite decide_True by lia. by rewrite at_app_l by lia.
  - intros t r Hr. pose proof (at_Some _ _ _ Hr) as Ht. destruct (decide (t < len l)).
    + rewrite at_app_l in Hr by done. right. exists t. by rewrite decide_True.
    + left. rewrite len_app, len_replicate in Ht by lia. rewrite at_app_r, at_replicate in Hr by lia. congruence.
Qed.

Lemma follow_over l l' row : pop_over l row = Some l' → rows_follow (over_pos row (len l - 1)) l l'.
Proof.
  intros (Hrow&Hlen&Hat)%pop_over_Some. unfold rows_follow, over_pos. split.
  - intros t0 t r Hr. pose proof (at_Some _ _ _ Hr). rewrite Hat.
    intros [(->&?&->)|(?&?&->)]; rewrite decide_True by lia; by repeat case_decide.
  - intros t r. rewrite Hat. case_decide; [|done]. case_decide; intros Hr; right.
    + exists (len l - 1). split; [done|]. left. lia.
    + exists t. split; [done|]. right. lia.
Qed.

Lemma at_swapped {A} (l : list A) a b x y p :
  at_ l a = Some x → at_ l b = Some y → a ≠ b →
  at_ (<[Z.to_nat a := y]> (<[Z.to_nat b := x]> l)) p = at_ l (swap_pos a b p).
Proof.
  intros Ha Hb Hab. pose proof (at_Some _ _ _ Ha). pose proof (at_Some _ _ _ Hb).
  rewrite at_insert by (by rewrite len_insert). rewrite at_insert by done. unfold swap_pos.
  repeat case_decide; congruence.
Qed.

Lemma follow_swap l a b x y :
  at_ l a = Some x → at_ l b = Some y → a ≠ b →
  rows_follow (λ t0 t, t = swap_pos a b t0) l (<[Z.to_nat a := y]> (<[Z.to_nat b := x]> l)).
Proof.
  intros Ha Hb Hab. split.
  - intros t0 t r Hr ->. rewrite (at_swapped l a b) by done. by rewrite swap_pos_invol.
  - intros t r. rewrite (at_swapped l a b) by done. intros Hr. right. exists (swap_pos a b t).
    by rewrite swap_pos_invol.
Qed.

(** ** Transactions *)
(** A transaction *)
Definition run_table (os : list TableOp) (l : list TableRow) : option (list TableRow) :=
  foldlM (λ l op, table_op op l) l os.

(** No size on the way reaches the end of [size_t]. *)
Definition op_room (op : TableOp) : Z := match op with TAppend c => c | _ => 0 end.

Fixpoint table_fits (n : Z) (os : list TableOp) (l : list TableRow) : Prop :=
  match os with
  | [] => True
  | op :: os => n + len l + op_room op + 2 ≤ npos ∧ ∀ l', table_op op l = Some l' → table_fits n os l'
  end.

Definition initial_table (n : Z) : list TableRow := (λ o, mkTableRow (Some o) ∅) <$> seqZ 0 n.

Lemma at_initial_table n p :
  at_ (initial_table n) p = if decide (0 ≤ p < n) then Some (mkTableRow (Some p) ∅) else None.
Proof.
  unfold at_, initial_table. destruct (decide (0 ≤ p)); [|by rewrite decide_False by lia].
  rewrite list_lookup_fmap. destruct (decide (0 ≤ p < n)).
  - rewrite lookup_seqZ_lt by lia. simpl. do 3 f_equal. lia.
  - rewrite lookup_seqZ_ge by lia. done.
Qed.

Lemma len_initial_table n : 0 ≤ n → len (initial_table n) = n.
Proof. intros. unfold len, initial_table. rewrite length_fmap, length_seqZ. lia. Qed.

(** ** The modified cells *)
Section Cells.
Context {build : Build} {T : Type} {ops : IndexSetOps T} {laws : IndexSetLaws T}.
Implicit Types (b : CollectionChangeBuilder T).

(** The cell in column [k] is in the set of that column. *)
Definition col_has b (k : nat) (t : Z) : Prop := ∃ s, columns (changes b) !! k = Some s ∧ has s t.

Record cells b (l : list TableRow) : Prop := mkCells {
  cells_wf : set_wf (modifications (changes b)) ∧ Forall set_wf (columns (changes b));
  cells_track : m_track_columns b = true;
  cells_mods : ∀ t, has (modifications (changes b)) t ↔ ∃ r, at_ l t = Some r ∧ dirty r ≠ ∅;
  cells_cols : ∀ k t, col_has b k t ↔ ∃ r, at_ l t = Some r ∧ Z.of_nat k ∈ dirty r }.

(** Only these fields matter. *)
Lemma cells_ext b b' l :
  cells b l → modifications (changes b') = modifications (changes b) →
  columns (changes b') = columns (changes b) → m_track_columns b' = m_track_columns b → cells b' l.
Proof. intros [Hw Ht Hm Hc] Em Ec Et. constructor; unfold col_has in *; rewrite ?Em, ?Ec, ?Et; done. Qed.

Lemma cells_range b l : cells b l →
  (∀ x, has (modifications (changes b)) x → x < len l) ∧
  Forall (λ c, ∀ x, has c x → x < len l) (columns (changes b)).
Proof.
  intros [_ _ Hm Hc]. split.
  - intros x (r&Hr%at_Some&_)%Hm. lia.
  - apply Forall_lookup. intros k c Hk x Hx. assert (col_has b k x) as (r&Hr%at_Some&_)%Hc; [by exists c|lia].
Qed.

(** A change of every set of modified rows *)
Lemma cells_for_each f G b l l' :
  cells b l → rows_follow G l l' →
  (∀ c, set_wf c → (∀ x, has c x → x < len l) → yields set_wf (f c) (λ x, ∃ y, has c y ∧ G y x)) →
  ∃ b', for_each_col f b = Some b' ∧ cells b' l' ∧
    deletions (changes b') = deletions (changes b) ∧ insertions (changes b') = insertions (changes b) ∧
    moves (changes b') = moves (changes b) ∧ m_move_mapping b' = m_move_mapping b.
Proof.
  intros Hc (Hf1&Hf2) Hf. pose proof Hc as [(Hwm&Hwc) Htr Hm Hcol].
  destruct (cells_range b l Hc) as [Hrm Hrc].
  destruct (for_each_col_ok f (λ P x, ∃ y, P y ∧ G y x) (λ c, ∀ x, has c x → x < len l) b) as (b'&Heq&Hd&Hi&Hmv&Hmm&Htr'&Hwm'&Hwc'&Him&Himc);
    [done..|].
  exists b'. split; [done|]. split; [|done]. rewrite Htr in Himc.
  assert (∀ P : TableRow → Prop, ¬ P new_row → ∀ t, (∃ t0, (∃ r, at_ l t0 = Some r ∧ P r) ∧ G t0 t) ↔ ∃ r, at_ l' t = Some r ∧ P r) as Hfol.
  { intros P HP t. split.
    - intros (t0&(r&Hr&?)&HG). exists r. split; [by eapply Hf1|done].
    - intros (r&Hr&?). destruct (Hf2 _ _ Hr) as [->|(t0&?&?)]; [done|]. eauto. }
  constructor; [done|congruence| |].
  - intros t. pose proof (Hfol (λ r, dirty r ≠ ∅) (λ Hne, Hne eq_refl) t) as <-. rewrite Him. by setoid_rewrite Hm.
  - intros k t. pose proof (Hfol (λ r, Z.of_nat k ∈ dirty r) ltac:(simpl; set_solver) t) as <-.
    setoid_rewrite <-Hcol. unfold col_has. destruct (columns (changes b) !! k) as [c|] eqn:Hk.
    + destruct (Forall2_lookup_l _ _ _ _ _ Himc Hk) as (c'&Hk'&Hcc). rewrite Hk'. split.
      * intros (?&E&Hx). injection E as <-. apply Hcc in Hx as (y&?&?). eauto.
      * intros (y&(?&E&Hy)&HG). injection E as <-. exists c'. split; [done|]. rewrite Hcc. eauto.
    + split; [|by intros (?&(?&?&_)&_)]. intros (?&Hk'&_).
      destruct (Forall2_lookup_r _ _ _ _ _ Himc Hk') as (?&?&_). congruence.
Qed.

(** ** The cells through each operation *)
Lemma yields_ext (op : option T) (P Q : Z → Prop) :
  yields set_wf op P → (∀ x, P x ↔ Q x) → yields set_wf op Q.
Proof. intros (s&?&?&Hs) HPQ. exists s. split_and!; [done..|]. intros x. by rewrite Hs. Qed.

Lemma yields_append c index count :
  set_wf c → (∀ x, has c x → x < index) → 0 ≤ index → 0 < count → index + count ≤ npos →
  yields set_wf (set_shift_for_insert_at c index count) (λ x, ∃ y, has c y ∧ x = insert_pos index count y).
Proof.
  intros Hc Hlt Hi Hn Hmax. eapply yields_ext.
  - apply law_shift_for_insert_at; [done..|]. pose proof (bound_lt c index Hc Hi Hlt). lia.
  - intros x. unfold shifted_for, insert_pos. split.
    + intros [[? ?]|[? Hx]]; [exists x; by rewrite decide_True|]. specialize (Hlt _ Hx). lia.
    + intros (y&Hy&->). specialize (Hlt _ Hy). rewrite decide_True by done. by left.
Qed.

(** The body of [for_each_col] in [move_over] *)
Definition over_col (row last : Z) (col : T) : option T :=
  modified ← set_contains col last;
  if (modified : bool) then col ← set_remove col last 1; set_add col row else set_remove col row 1.

Lemma yields_over c row last :
  set_wf c → 0 ≤ row < last → last < npos →
  yields set_wf (over_col row last c) (λ x, ∃ y, has c y ∧ over_pos row last y x).
Proof.
  intros Hc Hr Hl. unfold over_col. rewrite law_contains by (done || lia). cbn [mbind option_bind].
  unfold over_pos. case_bool_decide as Hin.
  - destruct (law_remove c last 1 Hc) as (c1&->&Hc1&Hm1); [lia..|]. cbn [mbind option_bind].
    eapply yields_ext; [apply law_add; [done|lia]|]. intros x. simpl. rewrite Hm1. split.
    + intros [[Hx Hne]| ->]; [|exists last; split; [done|left; lia]].
      destruct (decide (x = row)) as [->|]; [exists last; split; [done|left; lia]|].
      exists x. split; [done|right; lia].
    + intros (y&Hy&[(->&_&->)|(?&?&->)]); [by right|left]. split; [done|lia].
  - eapply yields_ext; [apply law_remove; [done|lia..]|]. intros x. simpl. split.
    + intros [Hx Hne]. exists x. split; [done|right]. split_and!; [by intros ->|lia|done].
    + intros (y&Hy&[(->&_&->)|(?&?&->)]); [done|]. split; [done|lia].
Qed.

Lemma yields_drop c last :
  set_wf c → 0 ≤ last → last < npos →
  yields set_wf (set_remove c last 1) (λ x, ∃ y, has c y ∧ over_pos last last y x).
Proof.
  intros Hc Hr Hl. eapply yields_ext; [apply law_remove; [done|lia..]|]. intros x. unfold over_pos. simpl. split.
  - intros [Hx Hne]. exists x. split; [done|right; lia].
  - intros (y&Hy&[(_&?&_)|(?&?&->)]); [done|]. split; [done|lia].
Qed.

(** The body of [for_each_col] in [swap] *)
Definition swap_col (x y : Z) (col : T) : option T :=
  m1 ← set_contains col x;
  m2 ← set_contains col y;
  if Bool.eqb m1 m2 then Some col else
  if (m1 : bool) then col ← set_remove col x 1; set_add col y
  else col ← set_remove col y 1; set_add col x.

(** One of the two positions in the set *)
Lemma yields_exchange c x y :
  set_wf c → 0 ≤ x < npos → 0 ≤ y < npos → has c x → ¬ has c y →
  yields set_wf (col ← set_remove c x 1; set_add col y) (λ z, has c (swap_pos x y z)).
Proof.
  intros Hc Hx Hy Hin Hnin. destruct (law_remove c x 1 Hc) as (c1&->&Hc1&Hm1); [lia..|]. cbn [mbind option_bind].
  eapply yields_ext; [by apply law_add|]. intros z. simpl. rewrite Hm1. unfold swap_pos.
  destruct (decide (z = x)) as [->|]; [|destruct (decide (z = y)) as [->|]].
  - split; [|done]. intros [[_ ?]| ->]; [lia|done].
  - split; [done|]. by right.
  - split; [by intros [[? _]|?]|]. left. split; [done|lia].
Qed.

Lemma swap_pos_sym x y z : x ≠ y → swap_pos x y z = swap_pos y x z.
Proof. unfold swap_pos. intros. repeat case_decide; congruence. Qed.

Lemma yields_swap c x y :
  set_wf c → 0 ≤ x < npos → 0 ≤ y < npos → x ≠ y →
  yields set_wf (swap_col x y c) (λ z, ∃ w, has c w ∧ z = swap_pos x y w).
Proof.
  intros Hc Hx Hy Hne. apply (yields_ext _ (λ z, has c (swap_pos x y z))).
  2:{ intros z. split; [intros ?; exists (swap_pos x y z)|intros (w&?&->)]; by rewrite swap_pos_invol. }
  unfold swap_col. rewrite !law_contains by (done || lia). cbn [mbind option_bind].
  destruct (decide (has c x)) as [Hinx|Hinx], (decide (has c y)) as [Hiny|Hiny];
    rewrite ?(bool_decide_eq_true_2 _ Hinx), ?(bool_decide_eq_false_2 _ Hinx),
      ?(bool_decide_eq_true_2 _ Hiny), ?(bool_decide_eq_false_2 _ Hiny); cbn [Bool.eqb].
  - exists c. split_and!; [done..|]. intros z. unfold swap_pos. repeat case_decide; subst; tauto.
  - by apply yields_exchange.
  - eapply yields_ext; [by apply yields_exchange|]. intros z. simpl. by rewrite swap_pos_sym.
  - exists c. split_and!; [done..|]. intros z. unfold swap_pos. repeat case_decide; subst; tauto.
Qed.
End Cells.
