(* ===== verification/ChangeTrack.v ===== *)
(** The rows of an unordered table in [CollectionChangeBuilder]: while a
    transaction is parsed [move_over], [swap] and [subsume] keep the rows that
    changed place in a mapping from new to old positions. *)
From stdpp Require Import gmap.
From S2P Require Import Prelude ChunkedRangeVector IndexSet IndexSetTheory IndexSetMerge IndexSetSpec RowMap ChangeBuilder ChangeTheory ChangeMerge ChangeFinal ChangeRefinement TableRows.
Import ChangeBuilder.

(** ** Positions of a table *)
Section Places.
Context {T : Type} {ops : IndexSetOps T} {laws : IndexSetLaws T}.
Implicit Types (d i : T) (m : gmap Z Z).

(** [n] old and [k] new rows: the places that are gone or changed are the same
    on both sides. *)
Definition balanced (n k : Z) d i : Prop := ∀ y, 0 ≤ y → has d y ∨ n ≤ y ↔ has i y ∨ k ≤ y.

(** The old position of the row at [t] *)
Definition origin_at i m (t : Z) : option Z :=
  match m !! t with Some o => Some o | None => if decide (has i t) then None else Some t end.

Lemma rank_agree d i t :
  set_wf d → set_wf i → (∀ y, 0 ≤ y < t → has d y ↔ has i y) → ∀ y, 0 ≤ y ≤ t → rank d y = rank i y.
Proof.
  intros Hd Hi Hag y Hy. replace y with (Z.of_nat (Z.to_nat y)) in * by lia.
  induction (Z.to_nat y) as [|n IH]; [by rewrite !rank_zero by (done || lia)|].
  replace (Z.of_nat (S n)) with (Z.of_nat n + 1) in * by lia. rewrite !rank_succ, IH by (done || lia).
  pose proof (Hag (Z.of_nat n) ltac:(lia)). repeat case_decide; tauto.
Qed.

(** Where the sets agree the row keeps its position through [unshift] and
    [add_shifted]. *)
Lemma pin_ok d i t :
  set_wf d → set_wf i → 0 ≤ t → t + size d < npos → ¬ has i t → ¬ has d t →
  (∀ y, 0 ≤ y < t → has d y ↔ has i y) →
  set_unshift i t = Some (t - rank i t) ∧
  ∃ d', set_add_shifted d (t - rank i t) = Some (d', t) ∧ set_wf d' ∧ ∀ x, has d' x ↔ has d x ∨ x = t.
Proof.
  intros Hd Hi Ht Hmax Hit Hdt Hag. pose proof (size_bounds d Hd) as [? _]. pose proof (rank_bounds i t Hi) as [? ?].
  split; [apply law_unshift; [done|lia|done]|].
  destruct (law_add_shifted d (t - rank i t) Hd) as (d'&y&->&Hd'&Hny&Hy&Hm); [lia..|].
  assert (y = t) as ->; [|by exists d'].
  apply (unshifted_inj d); [done..|]. unfold unshifted. rewrite (rank_agree d i t Hd Hi Hag t) by lia. lia.
Qed.

Lemma shift_pinned d i t :
  set_wf d → set_wf i → 0 ≤ t → t + size d < npos → ¬ has i t → ¬ has d t →
  (∀ y, 0 ≤ y < t → has d y ↔ has i y) → set_shift d (t - rank i t) = t.
Proof.
  intros Hd Hi Ht Hmax Hit Hdt Hag. pose proof (size_bounds d Hd) as [? _]. pose proof (rank_bounds i t Hi) as [? ?].
  destruct (law_shift d (t - rank i t) Hd) as [Hn Heq]; [lia..|].
  apply (unshifted_inj d); [done..|]. unfold unshifted. rewrite (rank_agree d i t Hd Hi Hag t) by lia. lia.
Qed.

(** The last range of a set whose elements are at most [last] *)
Lemma set_end_last i last :
  set_wf i → 0 ≤ last → last + 1 ≤ npos → (∀ x, has i x → x ≤ last) →
  match set_end i with Some e => e =? last +w 1 | None => false end = bool_decide (has i last) ∧
  match set_end i with Some e => e <=? last +w 1 | None => true end = true.
Proof.
  intros Hi Hl Hmax Hle. rewrite wadd_small by lia. unfold set_end. pose proof (law_ranges i Hi) as Hok.
  destruct (bool_decide_reflect (has i last)) as [Hin|Hin]; unfold has in *;
    destruct (decide (set_ranges i = [])) as [E|Hne]; try (rewrite E in *; done).
  all: destruct (destruct_last _ Hne) as (rs&r&Heq); rewrite Heq in *; rewrite last_snoc; simpl.
  all: apply ranges_ok_app in Hok as [Hrs (?&?&?)]; rewrite mem_app in Hin.
  all: pose proof (Hle (r.2 - 1)) as Hr; rewrite mem_app in Hr; simpl in Hin, Hr.
  all: split; [|apply Z.leb_le; lia].
  - apply Z.eqb_eq. destruct Hin as [Hx|[Hx|[]]]; [|lia]. pose proof (mem_bounds _ _ _ Hrs Hx). lia.
  - apply Z.eqb_neq. intros E. apply Hin. right. left. lia.
Qed.

Lemma ends_by_ok i last :
  set_wf i → 0 ≤ last → last + 1 ≤ npos → (∀ x, has i x → x ≤ last) → ends_by i last = true.
Proof.
  intros Hi Hl Hmax Hle. pose proof (set_end_last i last Hi Hl Hmax Hle) as [_ Hend]. unfold ends_by, set_end in *.
  pose proof (law_ranges i Hi) as Hok. destruct (decide (set_ranges i = [])) as [->|Hne]; [done|].
  destruct (destruct_last _ Hne) as (rs&r&Heq). rewrite Heq in *. rewrite last_snoc in *. simpl in *.
  apply ranges_ok_app in Hok as [Hrs (?&?&?)]. rewrite wadd_small in Hend by lia. apply Z.leb_le in Hend.
  apply Z.leb_le. pose proof (ranges_ok_hi _ _ Hrs). rewrite wsub_small by lia. lia.
Qed.
End Places.

(** ** The invariant *)
Section Track.
Context {build : Build} {T : Type} {ops : IndexSetOps T} {laws : IndexSetLaws T}.
Implicit Types (b : CollectionChangeBuilder T) (d i : T) (l : list TableRow).

(** The state of a builder for a table of [n] rows that now has the rows [l].
    A row at [hole] is about to be removed: its successor has its origin. *)
Record placed (n : Z) (hole : option Z) b l : Prop := mkPlaced {
  placed_wf : set_wf (deletions (changes b)) ∧ set_wf (insertions (changes b));
  placed_moves : moves (changes b) = [];
  placed_balanced : balanced n (len l) (deletions (changes b)) (insertions (changes b));
  placed_ins : ∀ x, has (insertions (changes b)) x → x < len l;
  placed_del : (∀ x, has (deletions (changes b)) x → x < n) ∨
               (∀ t, 0 ≤ t < len l → has (insertions (changes b)) t);
  placed_map : ∀ t o, m_move_mapping b !! t = Some o →
    (has (deletions (changes b)) o ∨ hole = Some o) ∧ has (insertions (changes b)) t ∧ 0 ≤ o < n;
  placed_inj : ∀ t t' o, m_move_mapping b !! t = Some o → m_move_mapping b !! t' = Some o → t = t';
  placed_hole : ∀ p, hole = Some p → 0 ≤ p < len l ∧ m_move_mapping b !! p = None;
  placed_rows : ∀ t r, hole ≠ Some t → at_ l t = Some r →
    row_origin r = origin_at (insertions (changes b)) (m_move_mapping b) t }.

Lemma placed_ext n hole b b' l :
  placed n hole b l → deletions (changes b') = deletions (changes b) →
  insertions (changes b') = insertions (changes b) → moves (changes b') = moves (changes b) →
  m_move_mapping b' = m_move_mapping b → placed n hole b' l.
Proof. intros [] Ed Ei Em Ep. constructor; rewrite ?Ed, ?Ei, ?Em, ?Ep; done. Qed.

(** A row at its old place *)
Lemma placed_kept n hole b l t :
  placed n hole b l → 0 ≤ t < len l → ¬ has (insertions (changes b)) t →
  t < n ∧ ¬ has (deletions (changes b)) t ∧ m_move_mapping b !! t = None ∧
  (∀ x, has (deletions (changes b)) x → x < n).
Proof.
  intros Hp Ht Hn. pose proof (placed_balanced _ _ _ _ Hp t ltac:(lia)) as Hb.
  assert (¬ (has (deletions (changes b)) t ∨ n ≤ t)) as Hnot by (rewrite Hb; intros [?|?]; [done|lia]).
  split; [lia|]. split; [tauto|]. split.
  - destruct (m_move_mapping b !! t) eqn:E; [|done]. by apply (placed_map _ _ _ _ Hp) in E as (_&?&_).
  - destruct (placed_del _ _ _ _ Hp) as [?|Hall]; [done|]. by destruct Hn; apply Hall.
Qed.

Lemma placed_agree n hole b l t :
  placed n hole b l → t ≤ n → t ≤ len l →
  ∀ y, 0 ≤ y < t → has (deletions (changes b)) y ↔ has (insertions (changes b)) y.
Proof. intros Hp ? ? y Hy. pose proof (placed_balanced _ _ _ _ Hp y ltac:(lia)). intuition lia. Qed.

Lemma size_lt d n : set_wf d → 0 ≤ n → (∀ x, has d x → x < n) → size d ≤ n + 1.
Proof. intros Hd Hn Hx. pose proof (bound_lt d n Hd Hn Hx). pose proof (size_bounds d Hd). lia. Qed.

(** *** The last row over another one *)
Lemma placed_over n hole b b' l l' row :
  placed n hole b l → (∀ p, hole = Some p → p = row) → pop_over l row = Some l' →
  set_wf (deletions (changes b')) → set_wf (insertions (changes b')) → moves (changes b') = [] →
  (∀ x, has (deletions (changes b')) x ↔ has (deletions (changes b)) x ∨
     (x = row ∨ x = len l - 1) ∧ ¬ has (insertions (changes b)) x) →
  (∀ x, has (insertions (changes b')) x ↔ (has (insertions (changes b)) x ∨ x = row) ∧ x ≠ len l - 1) →
  (∀ t, m_move_mapping b' !! t =
     if decide (t = len l - 1) then None
     else if decide (t = row) then origin_at (insertions (changes b)) (m_move_mapping b) (len l - 1)
     else m_move_mapping b !! t) →
  placed n None b' l'.
Proof.
  intros Hp Hhole (Hrow&Hlen&Hat)%pop_over_Some Hd' Hi' Hmv Hmd Hmi Hmm.
  remember (len l - 1) as last eqn:Hlast. assert (0 ≤ last) as Hl0 by lia.
  assert (∀ x, x = row ∨ x = last → ¬ has (insertions (changes b)) x → 0 ≤ x < n) as Hkept.
  { intros x Hx Hn. destruct (placed_kept _ _ _ _ x Hp) as (?&_); [lia|done|lia]. }
  pose proof Hp as [[Hd Hi] _ Hbal Hins Hdel Hmap Hinj Hhl Hrows].
  assert (origin_at (insertions (changes b)) (m_move_mapping b) last = m_move_mapping b !! last ∨
    ¬ has (insertions (changes b)) last ∧ m_move_mapping b !! last = None ∧
    origin_at (insertions (changes b)) (m_move_mapping b) last = Some last) as Horig.
  { unfold origin_at. destruct (m_move_mapping b !! last) eqn:E; [by left|]. case_decide; [by left|by right]. }
  constructor; try done.
  - intros y Hy. rewrite Hmd, Hmi, Hlen. specialize (Hbal y Hy).
    destruct (decide (y = last)) as [->|]; [|destruct (decide (y = row)) as [->|]].
    + destruct (decide (has (insertions (changes b)) last)); [|intuition lia].
      assert (has (deletions (changes b)) last ∨ n ≤ last) by tauto. intuition lia.
    + destruct (decide (has (insertions (changes b)) row)); [|intuition lia].
      assert (has (deletions (changes b)) row ∨ n ≤ row) by tauto. intuition lia.
    + assert (last ≤ y ↔ len l ≤ y) by lia. tauto.
  - intros x. rewrite Hmi, Hlen. intros [[Hx| ->] ?]; [apply Hins in Hx|]; lia.
  - destruct Hdel as [Hdel|Hall]; [left|right].
    + intros x [?|[Hx Hn]]%Hmd; [by apply Hdel|]. by apply Hkept.
    + intros t Ht. apply Hmi. split; [left; apply Hall; lia|lia].
  - intros t o. rewrite Hmm, Hmd, Hmi. case_decide; [done|].
    assert (∀ o, has (deletions (changes b)) o ∨ hole = Some o → 0 ≤ o < n → has (deletions (changes b)) o ∨
      (o = row ∨ o = last) ∧ ¬ has (insertions (changes b)) o) as Hpast.
    { intros p [?|Hh] Hpn; [by left|]. apply Hhole in Hh as ->. specialize (Hbal row ltac:(lia)).
      destruct (decide (has (insertions (changes b)) row)); [left|right; tauto].
      assert (has (deletions (changes b)) row ∨ n ≤ row) as [?|?] by tauto; [done|lia]. }
    case_decide as Htr.
    + intros Ho. destruct Horig as [Horig|(Hnl&_&Horig)].
      * rewrite Horig in Ho. apply Hmap in Ho as (?&_&?). split; [left; by apply Hpast|]. split; [|done]. split; [by right|done].
      * rewrite Horig in Ho. injection Ho as <-. split; [left; right; split; [by right|done]|]. split; [split; [by right|done]|].
        apply Hkept; [by right|done].
    + intros (?&?&?)%Hmap. split; [left; by apply Hpast|]. split; [|done]. split; [by left|done].
  - assert (∀ t o, t ≠ last → t ≠ row → m_move_mapping b !! t = Some o →
      origin_at (insertions (changes b)) (m_move_mapping b) last = Some o → row ≠ last → False) as Hno.
    { intros t o H1 H2 Ht Ho Hne. destruct Horig as [Horig|(Hnl&_&Horig)]; rewrite Horig in Ho.
      - apply H1. by eapply Hinj.
      - injection Ho as <-. apply Hmap in Ht as ([Hdl|Hh]&_&_).
        + specialize (Hbal last Hl0). assert (has (insertions (changes b)) last ∨ len l ≤ last) by tauto.
          intuition lia.
        + apply Hhole in Hh. congruence. }
    intros t t' o. rewrite !Hmm. repeat case_decide; intros; subst; try done; try (by eapply Hinj).
    + destruct (Hno t' o); done.
    + destruct (Hno t o); done.
  - intros t r _. rewrite Hat. case_decide; [|done]. intros Hr. unfold origin_at. rewrite Hmm.
    rewrite (decide_False (P := t = last)) by lia. case_decide as Htr.
    + subst t. assert (hole ≠ Some last) as Hhne by (intros Hh; apply Hhole in Hh; lia).
      rewrite (Hrows last r Hhne Hr). destruct (origin_at _ _ last) eqn:E; [done|].
      rewrite decide_True; [done|]. apply Hmi. split; [by right|lia].
    + rewrite (Hrows t r) by (done || (intros Hh; apply Hhole in Hh; done)). unfold origin_at.
      destruct (m_move_mapping b !! t); [done|]. pose proof (Hmi t). repeat case_decide; intuition lia.
Qed.
End Track.
