(* ===== verification/ChangeTrackOps.v ===== *)
(** The operations of [CollectionChangeBuilder] on an unordered table: each
    keeps the builder in step with the table. *)
From stdpp Require Import gmap.
From S2P Require Import Prelude ChunkedRangeVector IndexSet IndexSetTheory IndexSetMerge IndexSetSpec RowMap ChangeBuilder ChangeTheory ChangeMerge ChangeFinal ChangeRefinement TableRows ChangeTrack.
Import ChangeBuilder.

Section Operations.
Context {build : Build} {T : Type} {ops : IndexSetOps T} {laws : IndexSetLaws T}.
Implicit Types (b : CollectionChangeBuilder T) (l : list TableRow).

Lemma verify_no_moves b : moves (changes b) = [] → verify b = Some true.
Proof. intros Hm. unfold verify. rewrite Hm. by destruct REALM_DEBUG. Qed.

(** The state of the row part; [track_moves] off leaves it alone. *)
Definition rows_same b b' : Prop :=
  deletions (changes b') = deletions (changes b) ∧ insertions (changes b') = insertions (changes b) ∧
  moves (changes b') = moves (changes b) ∧ m_move_mapping b' = m_move_mapping b.

Lemma placed_same n hole b b' l : placed n hole b l → rows_same b b' → placed n hole b' l.
Proof. intros Hp (?&?&?&?). by apply (placed_ext n hole b). Qed.

(** *** [move_over] *)
Lemma move_over_ends b l row :
  cells b l → set_wf (insertions (changes b)) → (∀ x, has (insertions (changes b)) x → x < len l) →
  0 ≤ row < len l → len l + 1 ≤ npos →
  (row <=? len l - 1) = true ∧ ends_by (insertions (changes b)) (len l - 1) = true ∧
  ends_by (modifications (changes b)) (len l - 1) = true.
Proof.
  intros Hc Hi Hins Hr Hmax. destruct (cells_range b l Hc) as [Hm _]. pose proof (cells_wf _ _ Hc) as [? _].
  split; [apply Z.leb_le; lia|].
  split; apply ends_by_ok; try done; try lia; intros x Hx; [apply Hins in Hx|apply Hm in Hx]; lia.
Qed.

(** The rows part when the last row is removed *)
Lemma drop_rows n hole b l :
  0 ≤ n → placed n hole b l → 0 < len l → n + len l + 2 ≤ npos →
  ∃ b', ('(i, shifted_from) ← set_erase_or_unshift (insertions (changes b)) (len l - 1);
         b ← (if shifted_from =? npos then Some (with_insertions b i) else
              '(d, _) ← set_add_shifted (deletions (changes (with_insertions b i))) shifted_from;
              Some (with_deletions (with_insertions b i) d));
         Some (with_mapping b (delete (len l - 1) (m_move_mapping b)))) = Some b' ∧
    modifications (changes b') = modifications (changes b) ∧ columns (changes b') = columns (changes b) ∧
    m_track_columns b' = m_track_columns b ∧
    ∀ l', (∀ p, hole = Some p → p = len l - 1) → pop_over l (len l - 1) = Some l' → placed n None b' l'.
Proof.
  intros Hn Hp Hl Hmax. remember (len l - 1) as last eqn:Hlast. pose proof (placed_wf _ _ _ _ Hp) as [Hd Hi].
  destruct (law_erase_or_unshift (insertions (changes b)) last Hi) as (i'&->&Hi'&Hmi); [lia|].
  assert (∀ x, has i' x ↔ (has (insertions (changes b)) x ∨ x = last) ∧ x ≠ len l - 1) as Hmi'.
  { intros x. rewrite Hmi, <-Hlast. pose proof (placed_ins _ _ _ _ Hp). unfold erased. split.
    - intros [[? ?]|[? Hx]]; [split; [by left|lia]|]. specialize (H _ Hx). lia.
    - intros [[Hx| ->] ?]; [|lia]. specialize (H _ Hx). left. split; [lia|done]. }
  cbn [mbind option_bind].
  assert (∀ b' l', (∀ p, hole = Some p → p = last) → pop_over l last = Some l' → set_wf (deletions (changes b')) →
    insertions (changes b') = i' → moves (changes b') = [] → m_move_mapping b' = delete last (m_move_mapping b) →
    (∀ x, has (deletions (changes b')) x ↔ has (deletions (changes b)) x ∨
       x = last ∧ ¬ has (insertions (changes b)) x) → placed n None b' l') as Hfin.
  { intros b' l' Hh Hpop Hd' Ei Em Emm Hmd. apply (placed_over n hole b b' l l' last); rewrite ?Ei; try done.
    - intros x. rewrite Hmd, <-Hlast. intuition.
    - intros t. rewrite Emm, <-Hlast. case_decide; [subst; apply lookup_delete_eq|].
      by apply lookup_delete_ne. }
  destruct (decide (has (insertions (changes b)) last)) as [Hin|Hin].
  - rewrite Z.eqb_refl. cbn [mbind option_bind]. eexists. split; [done|]. split_and!; [done..|].
    intros l' Hh Hpop. apply (Hfin _ l'); try done; simpl; [apply (placed_moves _ _ _ _ Hp)|].
    intros x. split; [by left|]. intros [?|[-> ?]]; done.
  - destruct (placed_kept n hole b l last Hp) as (Hln&Hdl&_&Hdn); [lia|done|].
    pose proof (size_lt _ n Hd Hn Hdn). pose proof (rank_bounds (insertions (changes b)) last Hi).
    destruct (pin_ok (deletions (changes b)) (insertions (changes b)) last) as (_&d'&Ha&Hd'&Hmd); try done; [lia|lia| |].
    { apply (placed_agree n hole b l last Hp); lia. }
    rewrite (proj2 (Z.eqb_neq _ _)) by lia. simpl. rewrite Ha. cbn [mbind option_bind]. eexists. split; [done|].
    split_and!; [done..|]. intros l' Hh Hpop. apply (Hfin _ l'); try done; simpl; [apply (placed_moves _ _ _ _ Hp)|].
    intros x. rewrite Hmd. split; intros [?|?]; [by left|subst; by right|by left|right; tauto].
Qed.

(** The rows part of [move_over] when another row takes the place of [row] *)
Definition over_rows b (row_ndx last_row : Z) : option (CollectionChangeBuilder T) :=
  row_is_insertion ← set_contains (insertions (changes b)) row_ndx;
  let last_is_insertion :=
    match set_end (insertions (changes b)) with
    | Some e => e =? last_row +w 1 | None => false end in
  assert_debug! match set_end (insertions (changes b)) with
    | Some e => e <=? last_row +w 1 | None => true end;
  let '(b, last_was_already_moved) :=
    match (if last_is_insertion then m_move_mapping b !! last_row else None) with
    | Some old =>
        (with_mapping b (delete last_row (<[row_ndx := old]> (m_move_mapping b))), true)
    | None => (b, false)
    end in
  let b :=
    if (row_is_insertion : bool) && negb last_was_already_moved
    then with_mapping b (delete row_ndx (m_move_mapping b)) else b in
  b ← (if last_is_insertion then
         i ← set_remove (insertions (changes b)) last_row 1; Some (with_insertions b i)
       else if negb last_was_already_moved then
         u ← set_unshift (insertions (changes b)) last_row;
         '(d, shifted_last_row) ← set_add_shifted (deletions (changes b)) u;
         let b := with_deletions b d in
         Some (with_mapping b (<[row_ndx := shifted_last_row]> (m_move_mapping b)))
       else Some b);
  b ← (if (row_is_insertion : bool) then Some b else
       u ← set_unshift (insertions (changes b)) row_ndx;
       '(d, _) ← set_add_shifted (deletions (changes b)) u;
       i ← set_add (insertions (changes b)) row_ndx;
       Some (with_insertions (with_deletions b d) i));
  ok ← verify b;
  assert! (ok : bool); Some b.

(** Its end: unless the row is new its old position is deleted. *)
Lemma over_rows_end b d0 row n :
  set_wf d0 → set_wf (insertions (changes b)) → moves (changes b) = [] → deletions (changes b) = d0 →
  0 ≤ row → row < npos → row + n + 1 < npos → 0 ≤ n →
  (¬ has (insertions (changes b)) row → ¬ has d0 row ∧ (∀ x, has d0 x → x < n) ∧
     ∀ y, 0 ≤ y < row → has d0 y ↔ has (insertions (changes b)) y) →
  ∃ b', (b ← (if bool_decide (has (insertions (changes b)) row) then Some b else
              u ← set_unshift (insertions (changes b)) row;
              '(d, _) ← set_add_shifted (deletions (changes b)) u;
              i ← set_add (insertions (changes b)) row;
              Some (with_insertions (with_deletions b d) i));
         ok ← verify b;
         assert! (ok : bool); Some b) = Some b' ∧
    modifications (changes b') = modifications (changes b) ∧ columns (changes b') = columns (changes b) ∧
    m_track_columns b' = m_track_columns b ∧ m_move_mapping b' = m_move_mapping b ∧
    set_wf (deletions (changes b')) ∧ set_wf (insertions (changes b')) ∧ moves (changes b') = [] ∧
    (∀ x, has (deletions (changes b')) x ↔ has d0 x ∨ x = row ∧ ¬ has (insertions (changes b)) x) ∧
    (∀ x, has (insertions (changes b')) x ↔ has (insertions (changes b)) x ∨ x = row).
Proof.
  intros Hd Hi Hmv <- Hr Hrn Hmax Hn0 Hn. case_bool_decide as Hin.
  - cbn [mbind option_bind]. rewrite verify_no_moves by done. cbn [mbind option_bind]. exists b. split_and!; try done.
    + intros x. split; [by left|]. intros [?|[-> ?]]; done.
    + intros x. split; [by left|]. by intros [?| ->].
  - destruct (Hn Hin) as (Hdr&Hdn&Hag). pose proof (size_lt _ n Hd Hn0 Hdn).
    destruct (pin_ok (deletions (changes b)) (insertions (changes b)) row) as (->&d'&Ha&Hd'&Hmd); try done; [lia|].
    cbn [mbind option_bind]. rewrite Ha. cbn [mbind option_bind].
    destruct (law_add (insertions (changes b)) row Hi) as (i'&->&Hi'&Hmi); [lia|]. cbn [mbind option_bind].
    rewrite verify_no_moves by done. cbn [mbind option_bind]. eexists. split; [done|]. simpl. split_and!; try done.
    intros x. rewrite Hmd. split; intros [?|?]; [by left|subst; by right|by left|right; tauto].
Qed.

Lemma over_rows_ok n hole b l row :
  0 ≤ n → placed n hole b l → 0 ≤ row < len l - 1 → n + len l + 2 ≤ npos →
  ∃ b', over_rows b row (len l - 1) = Some b' ∧
    modifications (changes b') = modifications (changes b) ∧ columns (changes b') = columns (changes b) ∧
    m_track_columns b' = m_track_columns b ∧
    ∀ l', (∀ p, hole = Some p → p = row) → pop_over l row = Some l' → placed n None b' l'.
Proof.
  intros Hn Hp Hl Hmax. remember (len l - 1) as last eqn:Hlast. pose proof (placed_wf _ _ _ _ Hp) as [Hd Hi].
  pose proof (placed_ins _ _ _ _ Hp) as Hins. unfold over_rows. rewrite law_contains by (done || lia). cbn [mbind option_bind].
  destruct (set_end_last (insertions (changes b)) last) as [-> ->]; [done|lia|lia|intros x ?%Hins; lia|].
  rewrite orb_true_r. assert (∀ b1 d1 i1, deletions (changes b1) = d1 → insertions (changes b1) = i1 → set_wf d1 → set_wf i1 →
    moves (changes b1) = [] → modifications (changes b1) = modifications (changes b) →
    columns (changes b1) = columns (changes b) → m_track_columns b1 = m_track_columns b →
    (∀ x, has d1 x ↔ has (deletions (changes b)) x ∨ x = last ∧ ¬ has (insertions (changes b)) x) →
    (∀ x, has i1 x ↔ has (insertions (changes b)) x ∧ x ≠ last) →
    (∀ t, m_move_mapping b1 !! t = if decide (t = last) then None
       else if decide (t = row) then origin_at (insertions (changes b)) (m_move_mapping b) last
       else m_move_mapping b !! t) →
    ∃ b', (b ← (if bool_decide (has (insertions (changes b)) row) then Some b1 else
                u ← set_unshift (insertions (changes b1)) row;
                '(d, _) ← set_add_shifted (deletions (changes b1)) u;
                i ← set_add (insertions (changes b1)) row;
                Some (with_insertions (with_deletions b1 d) i));
           ok ← verify b;
           assert! (ok : bool); Some b) = Some b' ∧
      modifications (changes b') = modifications (changes b) ∧ columns (changes b') = columns (changes b) ∧
      m_track_columns b' = m_track_columns b ∧
      ∀ l', (∀ p, hole = Some p → p = row) → pop_over l row = Some l' → placed n None b' l') as Hend.
  { intros b1 d1 i1 Ed Ei Hd1 Hi1 Hmv Em Ec Et Hm1 Hmi1 Hmm.
    assert (has i1 row ↔ has (insertions (changes b)) row) as Hrow by (rewrite Hmi1; intuition lia).
    destruct (over_rows_end b1 d1 row n) as (b'&Heq&Em'&Ec'&Et'&Emm&Hd'&Hi'&Hmv'&Hmd'&Hmi'); try done; try lia; [by rewrite Ei| |].
    { rewrite Ei, Hrow. intros Hn'. destruct (placed_kept n hole b l row Hp) as (Hrn&Hdr&_&Hdn); [lia|done|].
      pose proof (λ Hnl, placed_kept n hole b l last Hp ltac:(lia) Hnl) as Hkl.
      split; [rewrite Hm1; intuition lia|]. split.
      { intros x. rewrite Hm1. intros [Hx|[-> Hx]]; [by apply Hdn|by destruct (Hkl Hx)]. }
      intros y Hy. pose proof (placed_agree n hole b l row Hp ltac:(lia) ltac:(lia) y Hy). rewrite Hm1, Hmi1. intuition lia. }
    rewrite Ei in Heq. rewrite (bool_decide_ext _ _ Hrow) in Heq. rewrite Ei. exists b'.
    split; [exact Heq|]. split; [congruence|]. split; [congruence|]. split; [congruence|].
    intros l' Hh Hpop. apply (placed_over n hole b b' l l' row); rewrite <-?Hlast; try done.
    - intros x. rewrite Hmd', Hm1, Ei, Hmi1. split; [intuition lia|].
      intros [?|[[->| ->] ?]]; [by left; left|right; split; [done|tauto]|left; right; done].
    - intros x. rewrite Hmi', Ei, Hmi1. intuition lia.
    - intros t. by rewrite Emm. }
  assert (m_move_mapping b !! last = None → origin_at (insertions (changes b)) (m_move_mapping b) last =
     if decide (has (insertions (changes b)) last) then None else Some last) as Horig.
  { intros E. unfold origin_at. by rewrite E. }
  destruct (bool_decide_reflect (has (insertions (changes b)) last)) as [Hlin|Hlin].
  - destruct (law_remove (insertions (changes b)) last 1 Hi) as (i1&Hrem&Hi1&Hmi1); [lia..|].
    rewrite decide_True in Horig by done.
    assert (∀ x, has (deletions (changes b)) x ↔ has (deletions (changes b)) x ∨ x = last ∧ ¬ has (insertions (changes b)) x) as Hmd1.
    { intros x. split; [by left|]. by intros [?|[-> ?]]. }
    assert (∀ x, has i1 x ↔ has (insertions (changes b)) x ∧ x ≠ last) as Hmi1'.
    { intros x. rewrite Hmi1. split; intros [? ?]; (split; [done|lia]). }
    destruct (m_move_mapping b !! last) as [old|] eqn:Hold; cbn [negb].
    + rewrite andb_false_r. cbn [negb insertions changes with_mapping]. rewrite Hrem. cbn [mbind option_bind].
      apply (Hend _ (deletions (changes b)) i1); simpl; try done; [apply (placed_moves _ _ _ _ Hp)|].
      intros t. unfold origin_at. rewrite Hold. destruct (decide (t = last)) as [->|]; [apply lookup_delete_eq|].
      rewrite lookup_delete_ne by done. destruct (decide (t = row)) as [->|]; [apply lookup_insert_eq|by apply lookup_insert_ne].
    + rewrite andb_true_r. destruct (bool_decide (has (insertions (changes b)) row)) eqn:Hrin; simpl; rewrite Hrem; cbn [mbind option_bind];
        [eapply (Hend _ (deletions (changes b)) i1)|eapply (Hend _ (deletions (changes b)) i1)]; simpl; try done;
        try apply (placed_moves _ _ _ _ Hp); intros t; rewrite Horig by done;
        (destruct (decide (t = last)) as [->|]; [try (rewrite lookup_delete_ne by lia); done|]).
      * destruct (decide (t = row)) as [->|]; [apply lookup_delete_eq|by apply lookup_delete_ne].
      * case_decide; [subst t|done]. apply bool_decide_eq_false in Hrin.
        destruct (m_move_mapping b !! row) eqn:E; [|done]. by apply (placed_map _ _ _ _ Hp) in E as (_&?&_).
  - destruct (placed_kept n hole b l last Hp) as (Hln&Hdl&Hml&Hdn); [lia|done|]. pose proof (size_lt _ n Hd Hn Hdn).
    destruct (pin_ok (deletions (changes b)) (insertions (changes b)) last) as (Hu&d1&Ha&Hd1&Hm1); try done; [lia|lia|apply (placed_agree n hole b l last Hp); lia|].
    cbn [negb]. rewrite andb_true_r, decide_False in * by done.
    assert (∀ x, has d1 x ↔ has (deletions (changes b)) x ∨ x = last ∧ ¬ has (insertions (changes b)) x) as Hmd1.
    { intros x. rewrite Hm1. split; intros [?|?]; [by left|subst; by right|by left|right; tauto]. }
    assert (∀ x, has (insertions (changes b)) x ↔ has (insertions (changes b)) x ∧ x ≠ last) as Hmi1.
    { intros x. split; [|by intros [? _]]. intros Hx. split; [done|]. by intros ->. }
    destruct (bool_decide (has (insertions (changes b)) row)) eqn:Hrin; simpl; rewrite Hu; cbn [mbind option_bind];
      rewrite Ha; cbn [mbind option_bind]; eapply (Hend _ d1 (insertions (changes b))); simpl; try done;
      try apply (placed_moves _ _ _ _ Hp); intros t; rewrite Horig by done.
    all: destruct (decide (t = last)) as [->|]; [rewrite !lookup_insert_ne by lia; rewrite ?lookup_delete_ne by lia; done|].
    all: destruct (decide (t = row)) as [->|]; [by rewrite lookup_insert_eq|by rewrite lookup_insert_ne, ?lookup_delete_ne].
Qed.

(** *** Both modes

    Without move information the builder keeps the modified rows; a clear still
    deletes everything. *)
Record untouched b : Prop := mkUntouched {
  untouched_wf : set_wf (deletions (changes b)) ∧ set_wf (insertions (changes b));
  untouched_ins : ∀ x, ¬ has (insertions (changes b)) x;
  untouched_moves : moves (changes b) = [];
  untouched_map : m_move_mapping b = ∅ }.

Definition tracks (n : Z) (hole : option Z) (track_moves : bool) b l : Prop :=
  if track_moves then placed n hole b l else untouched b.

Lemma tracks_ins n hole track b l :
  tracks n hole track b l →
  set_wf (insertions (changes b)) ∧ ∀ x, has (insertions (changes b)) x → x < len l.
Proof.
  destruct track; simpl; intros Hp; [split; [by apply placed_wf in Hp as []|by eapply placed_ins]|].
  split; [apply Hp|]. intros x Hx. by apply (untouched_ins _ Hp) in Hx.
Qed.

Lemma tracks_same n hole track b b' l : tracks n hole track b l → rows_same b b' → tracks n hole track b' l.
Proof.
  destruct track; simpl; [apply placed_same|]. intros [] (Ed&Ei&Em&Ep). constructor; rewrite ?Ed, ?Ei, ?Em, ?Ep; done.
Qed.

Lemma untouched_same b b' : untouched b → rows_same b b' → untouched b'.
Proof. intros H (Ed&Ei&Em&Ep). destruct H. constructor; rewrite ?Ed, ?Ei, ?Em, ?Ep; done. Qed.

Lemma move_over_ok n hole track b l l' row :
  0 ≤ n → cells b l → tracks n hole track b l → (∀ p, hole = Some p → p = row) →
  pop_over l row = Some l' → n + len l + 2 ≤ npos →
  ∃ b', move_over b row (len l - 1) track = Some b' ∧ cells b' l' ∧ tracks n None track b' l'.
Proof.
  intros Hn Hc Hp Hh Hpop Hmax. pose proof Hpop as (Hrow&_&_)%pop_over_Some.
  destruct (tracks_ins _ _ _ _ _ Hp) as [Hi Hins].
  destruct (move_over_ends b l row Hc Hi Hins Hrow) as (E1&E2&E3); [lia|].
  unfold move_over. rewrite E1, E2, E3. clear E1 E2 E3.
  destruct (Z.eqb_spec row (len l - 1)) as [Heq|Hne].
  - assert (∀ b1, cells b1 l → ∃ b', for_each_col (λ col, set_remove col row 1) b1 = Some b' ∧ cells b' l' ∧ rows_same b1 b') as Hcells.
    { intros b1 Hc1. apply (cells_for_each _ (over_pos row (len l - 1)) b1 l l' Hc1 (follow_over l l' row Hpop)).
      intros c Hwc _. rewrite Heq. apply yields_drop; [done|lia..]. }
    rewrite Heq in *. clear Heq row. destruct track; simpl in Hp.
    + destruct (drop_rows n hole b l Hn Hp) as (b1&->&Em&Ec&Et&Hpl); [lia|done|]. cbn [mbind option_bind].
      destruct (Hcells b1) as (b'&->&?&Hs); [by eapply cells_ext|]. exists b'. split; [done|]. split; [done|].
      eapply placed_same; [by apply Hpl|done].
    + cbn [mbind option_bind]. destruct (Hcells b Hc) as (b'&->&?&Hs). exists b'. split; [done|]. split; [done|].
      by eapply untouched_same.
  - change (for_each_col _ b) with (for_each_col (over_col row (len l - 1)) b).
    destruct (cells_for_each (over_col row (len l - 1)) (over_pos row (len l - 1)) b l l' Hc (follow_over l l' row Hpop))
      as (b1&->&Hc1&Hs).
    { intros c Hwc _. apply yields_over; [done|lia..]. }
    cbn [mbind option_bind]. destruct track; cbn [negb]; simpl in Hp.
    + change (∃ b', over_rows b1 row (len l - 1) = Some b' ∧ cells b' l' ∧ placed n None b' l').
      destruct (over_rows_ok n hole b1 l row) as (b'&->&Em&Ec&Et&Hpl); [done|by eapply placed_same|lia|done|].
      exists b'. split; [done|]. split; [by eapply cells_ext|by apply Hpl].
    + exists b1. split; [done|]. split; [done|]. by eapply untouched_same.
Qed.
End Operations.
