(* ===== verification/ChangeTrackRun.v ===== *)
(** Every change of an unordered table recorded in [CollectionChangeBuilder],
    whole transactions, and what [parse_complete] makes of the builder at their
    end. *)
From stdpp Require Import gmap.
From S2P Require Import Prelude ChunkedRangeVector IndexSet IndexSetTheory IndexSetMerge IndexSetSpec RowMap ChangeBuilder ChangeTheory ChangeMerge ChangeFinal ChangeRefinement TableRows ChangeTrack ChangeTrackOps.
Import ChangeBuilder.

Section Steps.
Context {build : Build} {T : Type} {ops : IndexSetOps T} {laws : IndexSetLaws T}.
Implicit Types (b : CollectionChangeBuilder T) (l : list TableRow).

(** *** [insert] at the end *)
Lemma shift_mapping_id (m : gmap Z Z) index count :
  (∀ k v, m !! k = Some v → k < index) → shift_mapping m index count = m.
Proof.
  intros Hlt. unfold shift_mapping. rewrite map_filter_id by (intros k v Hk; simpl; by eapply Hlt).
  destruct (filter _ (map_to_list m)) as [|[k v] ps] eqn:E; [done|].
  assert ((k, v) ∈ filter (λ p : Z * Z, index ≤ p.1) (map_to_list m)) as Hin by (rewrite E; constructor).
  apply list_elem_of_filter in Hin as [? Hk%elem_of_map_to_list%Hlt]. simpl in *. lia.
Qed.

Lemma append_ok n track b l count :
  0 ≤ n → cells b l → tracks n None track b l → 0 < count → len l + count ≤ npos →
  ∃ b', ChangeBuilder.insert b (len l) count track = Some b' ∧
    cells b' (l ++ replicate (Z.to_nat count) new_row) ∧
    tracks n None track b' (l ++ replicate (Z.to_nat count) new_row).
Proof.
  intros Hn Hc Hp Hcount Hmax. unfold ChangeBuilder.insert. assert (0 ≤ len l) as Hl by (unfold len; lia).
  rewrite (proj2 (Z.eqb_neq count 0)) by lia. cbn [negb].
  destruct (cells_for_each (λ col, set_shift_for_insert_at col (len l) count) _ b l _ Hc (follow_append l count Hcount))
    as (b1&->&Hc1&Hs).
  { intros c Hwc Hlt. by apply yields_append. }
  cbn [mbind option_bind]. destruct track; cbn [negb]; simpl in Hp.
  2:{ exists b1. split; [done|]. split; [done|]. by eapply untouched_same. }
  pose proof (placed_same _ _ _ _ _ Hp Hs) as Hp1. clear Hp Hs Hc. destruct Hp1 as [[Hd Hi] Hmv Hbal Hins Hdel Hmap Hinj _ Hrows].
  destruct (law_insert_at (insertions (changes b1)) (len l) count Hi) as (i'&->&Hi'&Hmi); [lia..| |].
  { pose proof (bound_lt _ (len l) Hi Hl Hins). lia. }
  assert (∀ x, has i' x ↔ has (insertions (changes b1)) x ∨ len l ≤ x < len l + count) as Hmi'.
  { intros x. rewrite Hmi. unfold inserted. split.
    - intros [[? ?]|[?|[? Hx]]]; [by left|by right|]. apply Hins in Hx. lia.
    - intros [Hx|?]; [left; split; [by apply Hins|done]|by right; left]. }
  cbn [mbind option_bind].
  set (b2 := with_moves _ _). assert (moves (changes b2) = []) as Hmv2 by (unfold b2; simpl; by rewrite Hmv).
  assert (∀ b3, m_move_mapping b3 = m_move_mapping b1 → deletions (changes b3) = deletions (changes b1) →
    insertions (changes b3) = i' → moves (changes b3) = [] →
    placed n None b3 (l ++ replicate (Z.to_nat count) new_row)) as Hfin.
  { intros b3 Em Ed Ei Emv. assert (len (l ++ replicate (Z.to_nat count) new_row) = len l + count) as Hlen.
    { by rewrite len_app, len_replicate by lia. }
    constructor; rewrite ?Em, ?Ed, ?Ei, ?Hlen; try done.
    - intros y Hy. rewrite Hmi'. specialize (Hbal y Hy). assert (len l + count ≤ y ∨ len l ≤ y < len l + count ↔ len l ≤ y) by lia. tauto.
    - intros x [Hx|Hx]%Hmi'; [apply Hins in Hx|]; lia.
    - destruct Hdel as [?|Hall]; [by left|right]. intros t Ht. apply Hmi'. destruct (decide (t < len l)); [left; apply Hall|right]; lia.
    - intros t o Ho. destruct (Hmap t o Ho) as (?&?&?). rewrite Hmi'. split_and!; [done|by left|lia..].
    - intros t r _ Hr. pose proof (at_Some _ _ _ Hr) as Ht. unfold origin_at. destruct (decide (t < len l)).
      + rewrite at_app_l in Hr by done. rewrite (Hrows t r) by done. unfold origin_at.
        destruct (m_move_mapping b1 !! t); [done|]. pose proof (Hmi' t). repeat case_decide; intuition lia.
      + rewrite at_app_r, at_replicate in Hr by lia. injection Hr as <-. simpl.
        destruct (m_move_mapping b1 !! t) eqn:E; [apply Hmap in E as (_&E%Hins&_); lia|].
        rewrite decide_True; [done|]. apply Hmi'. right. lia. }
  case_bool_decide.
  - exists b2. split; [done|]. split; [by eapply cells_ext|by apply Hfin].
  - eexists. split; [done|]. split; [by eapply cells_ext|]. apply Hfin; try done. simpl.
    apply shift_mapping_id. intros k v Hk. apply Hmap in Hk as (_&?&_). by apply Hins.
Qed.

(** *** [modify] and [clear] *)
Lemma modify_ok n track b l row col r :
  cells b l → tracks n None track b l → at_ l row = Some r → 0 ≤ col < npos → len l ≤ npos →
  ∃ b', modify b row col = Some b' ∧
    cells b' (<[Z.to_nat row := mkTableRow (row_origin r) ({[col]} ∪ dirty r)]> l) ∧
    tracks n None track b' (<[Z.to_nat row := mkTableRow (row_origin r) ({[col]} ∪ dirty r)]> l).
Proof.
  intros Hc Hp Hr Hcol Hmax. pose proof (at_Some _ _ _ Hr) as Hrow. pose proof Hc as [[Hwm Hwc] Htr Hm Hcols].
  assert (∃ b', modify b row col = Some b' ∧ rows_same b b' ∧ m_track_columns b' = true ∧
    set_wf (modifications (changes b')) ∧ Forall set_wf (columns (changes b')) ∧
    (∀ x, has (modifications (changes b')) x ↔ has (modifications (changes b)) x ∨ x = row) ∧
    (∀ k x, col_has b' k x ↔ col_has b k x ∨ k = Z.to_nat col ∧ x = row)) as (b'&->&Hs&Htr'&Hwm'&Hwc'&Hm'&Hcols').
  { destruct (modify_changes (mkChangeBuilder (mkChangeSet set_nil set_nil (modifications (changes b)) set_nil [] (columns (changes b))) ∅ true) row col)
      as (b0&Heq&[_ [Hwm0 Hwc0]]&_&_&_&_&Hm0&Hc0); [|lia|lia|].
    { split; [|done]. split; [apply law_nil|]. split; [apply law_nil|]. split; [by intros m ?%elem_of_nil|split; constructor]. }
    pose proof (proj2 (Z.eqb_neq col npos) ltac:(lia)) as Hne. simpl in Hc0. rewrite Hne in Hc0. simpl in Hc0.
    unfold modify in Heq |- *. simpl in Heq. destruct (set_add _ row) as [m'|]; [|done].
    cbn [mbind option_bind] in *. simpl. rewrite Htr, Hne in *. cbn [negb orb] in *.
    destruct ((_ ++ _) !! _) as [c|]; [|done]. cbn [mbind option_bind] in *.
    destruct (set_add c row) as [c'|]; [|done]. cbn [mbind option_bind] in *. injection Heq as <-.
    eexists. split; [done|]. split; [done|]. split; [done|]. done. }
  exists b'. split; [done|]. split.
  - constructor; [done|done| |].
    + intros t. rewrite Hm', Hm. setoid_rewrite at_insert; [|done]. destruct (decide (t = row)) as [->|Hne].
      * split; [intros _|by right]. eexists. split; [done|]. simpl. set_solver.
      * split; [intros [?|?]; done|by left].
    + intros k t. rewrite Hcols', Hcols. setoid_rewrite at_insert; [|done]. destruct (decide (t = row)) as [->|Hne].
      * split.
        -- intros [(r'&Hr'&Hk)|[-> _]]; (eexists; split; [done|]); simpl; [|set_unfold; left; lia].
           assert (r' = r) as -> by congruence. set_solver.
        -- intros (r'&[= <-]&Hk). simpl in Hk. set_unfold. destruct Hk as [Hk|Hk]; [right; lia|left; eauto].
      * split; [intros [?|[_ ?]]; done|by left].
  - apply (tracks_same _ _ _ b); [|done]. destruct track; simpl in *; [|done]. destruct Hp as [? ? Hbal ? ? ? ? ? Hrows].
    constructor; rewrite ?len_insert; try done. intros t r' _. rewrite at_insert by done. case_decide; [subst|by apply Hrows].
    intros [= <-]. simpl. by apply Hrows.
Qed.

Lemma clear_ok n track b l :
  0 ≤ n ≤ npos → tracks n None track b l → m_track_columns b = true →
  ∃ b', clear b npos = Some b' ∧ cells b' [] ∧ tracks n None track b' [].
Proof.
  intros Hn Hp Htr. unfold clear. rewrite Z.eqb_refl.
  destruct (law_set (deletions (changes b)) npos) as (d&->&Hd&Hm); [slia|]. cbn [mbind option_bind].
  eexists. split; [done|]. split.
  - constructor; simpl; [by split; [apply law_nil|]|done| |].
    + intros t. split; [by intros ?%has_nil|]. intros (r&Hr%at_Some&_). unfold len in Hr. simpl in Hr. lia.
    + intros k t. split; [by intros (s&?&_)|]. intros (r&Hr%at_Some&_). unfold len in Hr. simpl in Hr. lia.
  - destruct track; [|by constructor; simpl; [split; [|apply law_nil]|intros x ?%has_nil|..]].
    assert (len (A := TableRow) [] = 0) as Hlen by done.
    constructor; simpl; rewrite ?Hlen.
    + by split; [|apply law_nil].
    + done.
    + intros y Hy. rewrite Hm. lia.
    + by intros x ?%has_nil.
    + right. intros t. lia.
    + intros t o. by rewrite lookup_empty.
    + intros t t' o. by rewrite lookup_empty.
    + done.
    + intros t r _ Hr%at_Some. lia.
Qed.

(** *** [swap] *)
Lemma origin_at_Some (i : T) m p o :
  origin_at i m p = Some o → m !! p = Some o ∨ m !! p = None ∧ ¬ has i p ∧ o = p.
Proof. unfold origin_at. destruct (m !! p); [by left|]. case_decide; [done|]. intros [= <-]. by right. Qed.

Lemma placed_swap n b b' l l' p q :
  placed n None b l → 0 ≤ p < len l → 0 ≤ q < len l → p ≠ q →
  len l' = len l → (∀ t, at_ l' t = at_ l (swap_pos p q t)) →
  set_wf (deletions (changes b')) → set_wf (insertions (changes b')) → moves (changes b') = [] →
  (∀ x, has (deletions (changes b')) x ↔ has (deletions (changes b)) x ∨
     (x = p ∨ x = q) ∧ ¬ has (insertions (changes b)) x) →
  (∀ x, has (insertions (changes b')) x ↔ has (insertions (changes b)) x ∨ x = p ∨ x = q) →
  (∀ t, m_move_mapping b' !! t =
     if decide (t = p ∨ t = q) then origin_at (insertions (changes b)) (m_move_mapping b) (swap_pos p q t)
     else m_move_mapping b !! t) →
  placed n None b' l'.
Proof.
  intros Hp Hpl Hql Hpq Hlen Hat Hd' Hi' Hmv Hmd Hmi Hmm.
  assert (∀ x, x = p ∨ x = q → 0 ≤ x < len l) as Hin by (intros x [->| ->]; done).
  assert (∀ x, x = p ∨ x = q → ¬ has (insertions (changes b)) x → 0 ≤ x < n ∧ ¬ has (deletions (changes b)) x) as Hkept.
  { intros x Hx Hn. destruct (placed_kept _ _ _ _ x Hp (Hin x Hx) Hn) as (?&?&_). pose proof (Hin x Hx). split; [lia|done]. }
  assert (∀ t, t = p ∨ t = q → swap_pos p q t = p ∨ swap_pos p q t = q) as Hsw.
  { intros t. unfold swap_pos. repeat case_decide; tauto. }
  pose proof Hp as [[Hd Hi] _ Hbal Hins Hdel Hmap Hinj _ Hrows]. constructor; rewrite ?Hlen; try done.
  - intros y Hy. rewrite Hmd, Hmi. specialize (Hbal y Hy).
    destruct (decide (y = p ∨ y = q)) as [Hpq'|]; [|tauto]. pose proof (Hin y Hpq').
    destruct (decide (has (insertions (changes b)) y)); tauto.
  - intros x [Hx|Hx]%Hmi; [by apply Hins|by apply Hin].
  - destruct Hdel as [Hdel|Hall]; [left|right].
    + intros x [?|[? ?]]%Hmd; [by apply Hdel|by apply Hkept].
    + intros t Ht. apply Hmi. left. by apply Hall.
  - intros t o. rewrite Hmm, Hmd, Hmi. case_decide as Ht.
    + intros [(?&?&?)%Hmap|(_&Hn&->)]%origin_at_Some; [tauto|]. destruct (Hkept _ (Hsw t Ht) Hn). pose proof (Hsw t Ht). tauto.
    + intros (?&?&?)%Hmap. tauto.
  - assert (∀ t t' o, origin_at (insertions (changes b)) (m_move_mapping b) t = Some o → (t = p ∨ t = q) →
      m_move_mapping b !! t' = Some o → t = t') as H1.
    { intros t t' o [Ho|(_&Hn&->)]%origin_at_Some Ht Ht'; [by eapply Hinj|].
      apply Hmap in Ht' as ([Hdt|[=]]&_&_). by destruct (Hkept t Ht Hn). }
    intros t t' o. rewrite !Hmm. repeat case_decide; intros Ht1 Ht2; [|..|by eapply Hinj].
    + assert (swap_pos p q t = swap_pos p q t') as E.
      { apply origin_at_Some in Ht1 as Ht1'. apply origin_at_Some in Ht2 as Ht2'.
        destruct Ht2' as [?|(_&_&E2)]; [by eapply H1; [..|done]; auto|].
        destruct Ht1' as [?|(_&_&E1)]; [by symmetry; eapply H1; [..|done]; auto|congruence]. }
      by rewrite <-(swap_pos_invol p q t), E, swap_pos_invol.
    + pose proof (H1 _ _ _ Ht1 ltac:(auto) Ht2) as E. pose proof (Hsw t ltac:(auto)). subst t'. tauto.
    + pose proof (H1 _ _ _ Ht2 ltac:(auto) Ht1) as E. pose proof (Hsw t' ltac:(auto)). subst t. tauto.
  - intros t r _ Hr. rewrite Hat in Hr. rewrite (Hrows _ r) by done. unfold origin_at at 2. rewrite Hmm. case_decide as Ht.
    + destruct (origin_at _ _ _); [done|]. rewrite decide_True; [done|]. apply Hmi. tauto.
    + assert (swap_pos p q t = t) as -> by (unfold swap_pos; repeat case_decide; tauto). unfold origin_at.
      destruct (m_move_mapping b !! t); [done|]. pose proof (Hmi t). repeat case_decide; tauto.
Qed.

(** What [map_move] and the assignments around it leave alone *)
Definition cells_same b b' : Prop :=
  modifications (changes b') = modifications (changes b) ∧ columns (changes b') = columns (changes b) ∧
  m_track_columns b' = m_track_columns b ∧ moves (changes b') = moves (changes b).

Lemma map_move_ok n b key ndx :
  set_wf (deletions (changes b)) → set_wf (insertions (changes b)) → 0 ≤ n → 0 ≤ ndx → ndx + n + 1 < npos →
  (¬ has (insertions (changes b)) ndx → ¬ has (deletions (changes b)) ndx ∧
     (∀ x, has (deletions (changes b)) x → x < n) ∧
     ∀ y, 0 ≤ y < ndx → has (deletions (changes b)) y ↔ has (insertions (changes b)) y) →
  ∃ b', map_move b key ndx = Some b' ∧ cells_same b b' ∧
    set_wf (deletions (changes b')) ∧ set_wf (insertions (changes b')) ∧
    (∀ x, has (deletions (changes b')) x ↔ has (deletions (changes b)) x ∨ x = ndx ∧ ¬ has (insertions (changes b)) x) ∧
    (∀ x, has (insertions (changes b')) x ↔ has (insertions (changes b)) x ∨ x = ndx) ∧
    m_move_mapping b' = if decide (has (insertions (changes b)) ndx) then m_move_mapping b
                        else <[key := ndx]> (m_move_mapping b).
Proof.
  intros Hd Hi Hn Hx Hmax Hpin. unfold map_move. rewrite law_contains by done. cbn [mbind option_bind].
  destruct (decide (has (insertions (changes b)) ndx)) as [Hin|Hin].
  - rewrite bool_decide_eq_true_2 by done. exists b. split; [done|]. split_and!; try done.
    + intros x. split; [by left|]. by intros [?|[-> ?]].
    + intros x. split; [by left|]. by intros [?| ->].
  - rewrite bool_decide_eq_false_2 by done. destruct (Hpin Hin) as (Hdn&Hlt&Hag). pose proof (size_lt _ n Hd Hn Hlt).
    destruct (pin_ok (deletions (changes b)) (insertions (changes b)) ndx) as (->&d'&Ha&Hd'&Hmd); try done; [lia|].
    cbn [mbind option_bind]. rewrite Ha. cbn [mbind option_bind]. simpl.
    destruct (law_add (insertions (changes b)) ndx Hi) as (i'&->&Hi'&Hmi); [lia|]. cbn [mbind option_bind].
    eexists. split; [done|]. split; [done|]. simpl. split_and!; try done.
    intros x. rewrite Hmd. split; intros [?|?]; [by left|subst; by right|by left|right; tauto].
Qed.

Lemma placed_pins n b l t :
  placed n None b l → 0 ≤ t < len l → ¬ has (insertions (changes b)) t →
  ¬ has (deletions (changes b)) t ∧ (∀ x, has (deletions (changes b)) x → x < n) ∧
  ∀ y, 0 ≤ y < t → has (deletions (changes b)) y ↔ has (insertions (changes b)) y.
Proof.
  intros Hp Ht Hn. destruct (placed_kept n None b l t Hp Ht Hn) as (?&?&_&?). split; [done|]. split; [done|].
  apply (placed_agree n None b l t Hp); lia.
Qed.

(** One of the two rows has moved before. *)
Lemma update_move_ok n b l p q o :
  0 ≤ n → placed n None b l → 0 ≤ p < len l → 0 ≤ q < len l → p ≠ q → n + len l + 2 ≤ npos →
  m_move_mapping b !! p = Some o → m_move_mapping b !! q = None →
  ∃ b', update_move b p o q p = Some b' ∧ cells_same b b' ∧
    set_wf (deletions (changes b')) ∧ set_wf (insertions (changes b')) ∧
    (∀ x, has (deletions (changes b')) x ↔ has (deletions (changes b)) x ∨ (x = p ∨ x = q) ∧ ¬ has (insertions (changes b)) x) ∧
    (∀ x, has (insertions (changes b')) x ↔ has (insertions (changes b)) x ∨ x = p ∨ x = q) ∧
    ∀ t, m_move_mapping b' !! t = if decide (t = p ∨ t = q)
      then origin_at (insertions (changes b)) (m_move_mapping b) (swap_pos p q t) else m_move_mapping b !! t.
Proof.
  intros Hn Hp Hpl Hql Hpq Hmax Ho Hq. pose proof (placed_wf _ _ _ _ Hp) as [Hd Hi].
  assert (has (insertions (changes b)) p) as Hpi by (by apply (placed_map _ _ _ _ Hp) in Ho as (_&?&_)).
  unfold update_move. set (b1 := with_mapping _ _).
  destruct (map_move_ok n b1 p q) as (b'&->&Hs&Hd'&Hi'&Hmd&Hmi&Hmm); try done; [lia|lia|apply (placed_pins n b l q Hp); lia|].
  cbn [mbind option_bind]. rewrite law_contains by (done || lia). cbn [mbind option_bind].
  rewrite bool_decide_eq_true_2 by (apply Hmi; by left). rewrite orb_true_r. exists b'. split; [done|]. split; [done|].
  split; [done|]. split; [done|]. simpl in Hmd, Hmi. split; [|split].
  - intros x. rewrite Hmd. split; [tauto|]. intros [?|[[->| ->] ?]]; tauto.
  - intros x. rewrite Hmi. split; [tauto|]. intros [?|[->| ->]]; tauto.
  - intros t. rewrite Hmm. simpl. unfold swap_pos, origin_at.
    destruct (decide (t = p)) as [->|Htp]; [|destruct (decide (t = q)) as [->|Htq]].
    + rewrite (decide_True (P := p = p ∨ p = q)), Hq by tauto.
      repeat case_decide; try done; [by rewrite lookup_insert_ne, lookup_delete_eq|by rewrite lookup_insert_eq].
    + rewrite (decide_True (P := q = p ∨ q = q)), Ho by tauto.
      repeat case_decide; try done; [by rewrite lookup_insert_eq|by rewrite lookup_insert_ne, lookup_insert_eq].
    + rewrite (decide_False (P := t = p ∨ t = q)) by tauto. repeat case_decide; by rewrite ?lookup_insert_ne, ?lookup_delete_ne by lia.
Qed.

(** Neither has. *)
Lemma map_moves_ok n b l p q :
  0 ≤ n → placed n None b l → 0 ≤ p < q → q < len l → n + len l + 2 ≤ npos →
  m_move_mapping b !! p = None → m_move_mapping b !! q = None →
  ∃ b', (b ← map_move b p q; map_move b q p) = Some b' ∧ cells_same b b' ∧
    set_wf (deletions (changes b')) ∧ set_wf (insertions (changes b')) ∧
    (∀ x, has (deletions (changes b')) x ↔ has (deletions (changes b)) x ∨ (x = p ∨ x = q) ∧ ¬ has (insertions (changes b)) x) ∧
    (∀ x, has (insertions (changes b')) x ↔ has (insertions (changes b)) x ∨ x = p ∨ x = q) ∧
    ∀ t, m_move_mapping b' !! t = if decide (t = p ∨ t = q)
      then origin_at (insertions (changes b)) (m_move_mapping b) (swap_pos p q t) else m_move_mapping b !! t.
Proof.
  intros Hn Hp Hpq Hql Hmax Hmp Hmq. pose proof (placed_wf _ _ _ _ Hp) as [Hd Hi].
  destruct (map_move_ok n b p q) as (b1&->&Hs1&Hd1&Hi1&Hmd1&Hmi1&Hmm1); try done; [lia|lia|apply (placed_pins n b l q Hp); lia|].
  cbn [mbind option_bind].
  destruct (map_move_ok n b1 q p) as (b'&->&Hs'&Hd'&Hi'&Hmd'&Hmi'&Hmm'); try done; [lia|lia| |].
  { rewrite Hmi1. intros Hnp. assert (¬ has (insertions (changes b)) p) as Hnp' by tauto.
    destruct (placed_pins n b l p Hp) as (Hdp&Hdn&Hag); [lia|done|].
    split; [rewrite Hmd1; intuition lia|]. split.
    - intros x. rewrite Hmd1. intros [Hx|[-> Hx]]; [by apply Hdn|].
      destruct (placed_kept n None b l q Hp) as (?&_); [lia|done|done].
    - intros y Hy. specialize (Hag y Hy). rewrite Hmd1, Hmi1. intuition lia. }
  assert (has (insertions (changes b1)) p ↔ has (insertions (changes b)) p) as Hip.
  { rewrite Hmi1. split; [intros [?|?]; [done|lia]|tauto]. }
  exists b'. split; [done|]. split; [unfold cells_same in *; intuition congruence|]. split; [done|]. split; [done|].
  split; [|split].
  - intros x. rewrite Hmd', Hmd1. split; [intros [?|[-> ?]]; tauto|]. intros [?|[[->| ->] ?]]; tauto.
  - intros x. rewrite Hmi', Hmi1. tauto.
  - intros t. rewrite Hmm', Hmm1. rewrite (decide_ext _ _ _ _ Hip). unfold swap_pos, origin_at.
    destruct (decide (t = p)) as [->|Htp]; [|destruct (decide (t = q)) as [->|Htq]].
    + rewrite (decide_True (P := p = p ∨ p = q)), Hmq by tauto.
      repeat case_decide; rewrite ?lookup_insert_ne, ?lookup_insert_eq by lia; done.
    + rewrite (decide_True (P := q = p ∨ q = q)), Hmp by tauto.
      repeat case_decide; rewrite ?lookup_insert_eq, ?lookup_insert_ne by lia; done.
    + rewrite (decide_False (P := t = p ∨ t = q)) by tauto.
      repeat case_decide; by rewrite ?lookup_insert_ne by lia.
Qed.

Lemma swap_sorted_ok n b l p q :
  0 ≤ n → placed n None b l → 0 ≤ p < q → q < len l → n + len l + 2 ≤ npos →
  ∃ b', match m_move_mapping b !! p, m_move_mapping b !! q with
        | Some o1, Some o2 => Some (with_mapping b (<[q := o1]> (<[p := o2]> (m_move_mapping b))))
        | Some o1, None => update_move b p o1 q p
        | None, Some o2 => update_move b q o2 p q
        | None, None => b ← map_move b p q; map_move b q p
        end = Some b' ∧ cells_same b b' ∧
    set_wf (deletions (changes b')) ∧ set_wf (insertions (changes b')) ∧
    (∀ x, has (deletions (changes b')) x ↔ has (deletions (changes b)) x ∨ (x = p ∨ x = q) ∧ ¬ has (insertions (changes b)) x) ∧
    (∀ x, has (insertions (changes b')) x ↔ has (insertions (changes b)) x ∨ x = p ∨ x = q) ∧
    ∀ t, m_move_mapping b' !! t = if decide (t = p ∨ t = q)
      then origin_at (insertions (changes b)) (m_move_mapping b) (swap_pos p q t) else m_move_mapping b !! t.
Proof.
  intros Hn Hp Hpq Hql Hmax.
  destruct (m_move_mapping b !! p) as [o1|] eqn:E1, (m_move_mapping b !! q) as [o2|] eqn:E2.
  - pose proof E1 as (_&Hi1&_)%(placed_map _ _ _ _ Hp). pose proof E2 as (_&Hi2&_)%(placed_map _ _ _ _ Hp).
    eexists. split; [done|]. split; [done|]. simpl. split; [apply (placed_wf _ _ _ _ Hp)|]. split; [apply (placed_wf _ _ _ _ Hp)|].
    split; [|split].
    + intros x. split; [by left|]. by intros [?|[[->| ->] ?]].
    + intros x. split; [by left|]. by intros [?|[->| ->]].
    + intros t. unfold swap_pos, origin_at. destruct (decide (t = p)) as [->|]; [|destruct (decide (t = q)) as [->|]].
      * rewrite decide_True, E2 by tauto. by rewrite lookup_insert_ne, lookup_insert_eq by lia.
      * rewrite decide_True, E1 by tauto. by rewrite lookup_insert_eq.
      * rewrite decide_False by tauto. by rewrite !lookup_insert_ne by lia.
  - apply (update_move_ok n b l p q o1); done || lia.
  - destruct (update_move_ok n b l q p o2) as (b'&?&?&?&?&Hmd&Hmi&Hmm); try done; try lia.
    exists b'. split; [done|]. split; [done|]. split; [done|]. split; [done|]. split; [|split].
    + intros x. rewrite Hmd. tauto.
    + intros x. rewrite Hmi. tauto.
    + intros t. rewrite Hmm. rewrite (swap_pos_sym p q) by lia. rewrite (decide_ext (t = q ∨ t = p) (t = p ∨ t = q)) by tauto. done.
  - apply (map_moves_ok n b l p q); done || lia.
Qed.

Lemma swap_ok n track b l p q x y :
  0 ≤ n → cells b l → tracks n None track b l → at_ l p = Some x → at_ l q = Some y → p ≠ q →
  n + len l + 2 ≤ npos →
  ∃ b', ChangeBuilder.swap b p q track = Some b' ∧
    cells b' (<[Z.to_nat p := y]> (<[Z.to_nat q := x]> l)) ∧
    tracks n None track b' (<[Z.to_nat p := y]> (<[Z.to_nat q := x]> l)).
Proof.
  intros Hn Hc Hp Hx Hy Hpq Hmax. pose proof (at_Some _ _ _ Hx). pose proof (at_Some _ _ _ Hy).
  set (l' := <[_ := y]> _). unfold ChangeBuilder.swap. rewrite (proj2 (Z.eqb_neq p q) Hpq). cbn [negb].
  assert (∃ p1 q1, (if q <? p then (q, p) else (p, q)) = (p1, q1) ∧ 0 ≤ p1 < q1 ∧ q1 < len l ∧
    ∀ t, swap_pos p q t = swap_pos p1 q1 t) as (p1&q1&->&Hp1&Hq1&Hsw).
  { destruct (Z.ltb_spec q p).
    - exists q, p. split; [done|]. split; [lia|]. split; [lia|]. intros t. by apply swap_pos_sym.
    - exists p, q. split; [done|]. split; [lia|]. split; [lia|done]. }
  change (for_each_col _ b) with (for_each_col (swap_col p1 q1) b).
  destruct (cells_for_each (swap_col p1 q1) (λ t0 t, t = swap_pos p q t0) b l l' Hc) as (b1&->&Hc1&Hs).
  { by apply (follow_swap l p q x y). }
  { intros c Hwc _. eapply yields_ext; [apply (yields_swap c p1 q1); done || lia|].
    intros z. simpl. by setoid_rewrite Hsw. }
  cbn [mbind option_bind]. destruct track; cbn [negb]; simpl in Hp.
  2:{ exists b1. split; [done|]. split; [done|]. by eapply untouched_same. }
  pose proof (placed_same _ _ _ _ _ Hp Hs) as Hp'.
  destruct (swap_sorted_ok n b1 l p1 q1) as (b'&->&Hs'&Hd'&Hi'&Hmd&Hmi&Hmm); [done..|].
  exists b'. split; [done|]. destruct Hs' as (?&?&?&Hmv). split; [by eapply cells_ext|].
  apply (placed_swap n b1 b' l l' p1 q1); try done; try lia.
  - unfold l'. by rewrite !len_insert.
  - intros t. rewrite <-Hsw. by apply (at_swapped l p q).
  - rewrite Hmv. apply (placed_moves _ _ _ _ Hp').
Qed.
End Steps.

Import ChangeBuilder.

(** The same change recorded in a builder; the size of the table is in the log. *)
Definition track_op `{Build} {T} `{IndexSetOps T} (op : TableOp) (size : Z) (track_moves : bool)
    (b : CollectionChangeBuilder T) : option (CollectionChangeBuilder T) :=
  match op with
  | TAppend c => ChangeBuilder.insert b size c track_moves
  | TMoveOver row => move_over b row (size - 1) track_moves
  | TSwap p q => ChangeBuilder.swap b p q track_moves
  | TModify row col => modify b row col
  | TMerge old new =>
      b ← subsume b old new track_moves;
      move_over b old (size - 1) track_moves
  | TClear => clear b npos
  end.

(** A transaction on a table and a builder *)
Fixpoint run_track `{Build} {T} `{IndexSetOps T} (os : list TableOp) (l : list TableRow) (track_moves : bool)
    (b : CollectionChangeBuilder T) : option (CollectionChangeBuilder T) :=
  match os with
  | [] => Some b
  | op :: os =>
      l' ← table_op op l;
      b ← track_op op (len l) track_moves b;
      run_track os l' track_moves b
  end.

Section Run.
Context {build : Build} {T : Type} {ops : IndexSetOps T} {laws : IndexSetLaws T}.
Implicit Types (b : CollectionChangeBuilder T) (l : list TableRow).

(** *** [subsume] *)
Lemma subsume_cells b l old new x y :
  cells b l → at_ l old = Some x → at_ l new = Some y → old ≠ new → len l ≤ npos →
  ∃ b', for_each_col (λ col,
      modified ← set_contains col old;
      if (modified : bool) then set_add col new else Some col) b = Some b' ∧
    cells b' (<[Z.to_nat new := merged_row x y]> l) ∧ rows_same b b'.
Proof.
  intros Hc Hx Hy Hne Hmax. pose proof (at_Some _ _ _ Hx). pose proof (at_Some _ _ _ Hy) as Hnew.
  pose proof Hc as [[Hwm Hwc] Htr Hm Hcols].
  destruct (for_each_col_ok (λ col, modified ← set_contains col old;
      if (modified : bool) then set_add col new else Some col)
    (λ P z, P z ∨ z = new ∧ P old) (λ _, True) b) as (b'&->&Hd&Hi&Hmv&Hmm&Htr'&Hwm'&Hwc'&Him&Himc);
    [|done|done|done|by apply Forall_true|].
  { intros c Hwf _. rewrite law_contains by (done || lia). cbn [mbind option_bind]. case_bool_decide as Hin.
    - eapply yields_ext; [apply law_add; [done|lia]|]. intros z. simpl. tauto.
    - exists c. split_and!; [done..|]. intros z. tauto. }
  exists b'. split; [done|]. split; [|done]. rewrite Htr in Himc.
  assert (∀ (P : TableRow → Prop) t, (P (merged_row x y) ↔ P x ∨ P y) →
    (∃ r, at_ l t = Some r ∧ P r) ∨ t = new ∧ (∃ r, at_ l old = Some r ∧ P r) ↔
    ∃ r, at_ (<[Z.to_nat new := merged_row x y]> l) t = Some r ∧ P r) as Hrow.
  { intros P t HP. setoid_rewrite at_insert; [|done]. destruct (decide (t = new)) as [->|Hnt].
    - split.
      + intros [(r&Hr&?)|[_ (r&Hr&?)]]; eexists; (split; [done|]); apply HP; [right|left]; congruence.
      + intros (r&[= <-]&[?|?]%HP); [right; eauto|left; eauto].
    - split; [intros [?|[? _]]; done|by left]. }
  constructor; [done|congruence| |].
  - intros t. rewrite Him, !Hm. apply (Hrow (λ r, dirty r ≠ ∅)). simpl.
    destruct (decide (dirty x = ∅)) as [->|?]; set_solver.
  - intros k t. rewrite <-(Hrow (λ r, Z.of_nat k ∈ dirty r)) by (simpl; set_solver). rewrite <-!Hcols.
    unfold col_has. destruct (columns (changes b) !! k) as [c|] eqn:Hk.
    + destruct (Forall2_lookup_l _ _ _ _ _ Himc Hk) as (c'&Hk'&Hcc). rewrite Hk'. split.
      * intros (s&E&Hs). injection E as <-. apply Hcc in Hs as [?|[-> ?]]; [left; eauto|right; eauto].
      * intros [(s&E&?)|[-> (s&E&?)]]; injection E as <-; (exists c'; split; [done|]); apply Hcc; auto.
    + split; [|by intros [(?&?&_)|[_ (?&?&_)]]]. intros (c'&Hk'&_).
      destruct (Forall2_lookup_r _ _ _ _ _ Himc Hk') as (?&?&_). congruence.
Qed.

Lemma subsume_ok n track b l old new x y :
  0 ≤ n → cells b l → tracks n None track b l → at_ l old = Some x → at_ l new = Some y → old ≠ new →
  row_origin y = None → n + len l + 2 ≤ npos →
  ∃ b', subsume b old new track = Some b' ∧
    cells b' (<[Z.to_nat new := merged_row x y]> l) ∧
    tracks n (Some old) track b' (<[Z.to_nat new := merged_row x y]> l).
Proof.
  intros Hn Hc Hp Hx Hy Hne Horig Hmax. pose proof (at_Some _ _ _ Hx) as Hold. pose proof (at_Some _ _ _ Hy) as Hnew.
  unfold subsume. rewrite (proj2 (Z.eqb_neq old new) Hne). cbn [negb].
  destruct (subsume_cells b l old new x y) as (b1&->&Hc1&Hs); [done..|lia|]. cbn [mbind option_bind].
  destruct track; cbn [negb]; simpl in Hp.
  2:{ exists b1. split; [done|]. split; [done|]. by eapply untouched_same. }
  pose proof (placed_same _ _ _ _ _ Hp Hs) as Hp1. clear Hp Hs Hc.
  pose proof (placed_rows _ _ _ _ Hp1 new y ltac:(done) Hy) as Hoy. rewrite Horig in Hoy. unfold origin_at in Hoy.
  pose proof (placed_rows _ _ _ _ Hp1 old x ltac:(done) Hx) as Hox. unfold origin_at in Hox.
  destruct (m_move_mapping b1 !! new) eqn:Hmn; [done|].
  destruct (decide (has (insertions (changes b1)) new)) as [Hin|]; [|done].
  pose proof (placed_wf _ _ _ _ Hp1) as [Hd Hi].
  rewrite (law_contains _ new) by (done || lia). cbn [mbind option_bind].
  rewrite (bool_decide_eq_true_2 _ Hin), (bool_decide_eq_true_2 (None = None) eq_refl), orb_true_r.
  set (l' := <[_ := _]> l). pose proof (placed_kept n None b1 l old Hp1 Hold) as Hkept.
  assert (∀ b2 m, b2 = with_mapping b1 m → m !! old = None → m !! new = row_origin x →
    (∀ t, t ≠ old → t ≠ new → m !! t = m_move_mapping b1 !! t) →
    ∃ b', (ok ← verify b2; assert! (ok : bool); Some b2) = Some b' ∧ cells b' l' ∧ placed n (Some old) b' l') as Hfin.
  { intros b2 m -> Hmo Hmnew Hmt. rewrite verify_no_moves by apply (placed_moves _ _ _ _ Hp1). cbn [mbind option_bind].
    eexists. split; [done|]. split; [by eapply cells_ext|].
    assert (∀ t o, m !! t = Some o → t = new ∧ row_origin x = Some o ∨ t ≠ old ∧ t ≠ new ∧ m_move_mapping b1 !! t = Some o) as Hm.
    { intros t o Ht. destruct (decide (t = old)) as [->|]; [congruence|]. destruct (decide (t = new)) as [->|]; [left|right].
      - split; [done|congruence].
      - split; [done|]. split; [done|]. by rewrite <-Hmt. }
    assert (∀ o, row_origin x = Some o → m_move_mapping b1 !! old = Some o ∨ o = old ∧ ¬ has (insertions (changes b1)) old) as Hxo.
    { intros o Ho. rewrite Ho in Hox. destruct (m_move_mapping b1 !! old); [left; congruence|].
      case_decide; [done|]. right. split; [congruence|done]. }
    destruct Hp1 as [? ? Hbal Hins Hdel Hmap Hinj _ Hrows]. constructor; simpl; unfold l'; rewrite ?len_insert; try done.
    - intros t o [[-> [Ho|[-> Hno]]%Hxo]|(_&_&Ho)]%Hm.
      + apply Hmap in Ho as ([?|?]&_&?); [|done]. split; [by left|done].
      + split; [by right|]. split; [done|]. destruct (Hkept Hno). lia.
      + apply Hmap in Ho as ([?|?]&?&?); [|done]. split; [by left|done].
    - assert (∀ t o, row_origin x = Some o → t ≠ old → m_move_mapping b1 !! t = Some o → False) as Hno.
      { intros t o [Ho|[-> Hno]]%Hxo Hto Ht; [apply Hto; by eapply Hinj|].
        apply Hmap in Ht as ([?|?]&_&_); [|done]. by destruct (Hkept Hno) as (_&?&_). }
      intros t t' o [[-> H1]|(?&?&H1)]%Hm [[-> H2]|(?&?&H2)]%Hm; [done|by destruct (Hno t' o)|by destruct (Hno t o)|by eapply Hinj].
    - intros p [= <-]. done.
    - intros t r Hnt. rewrite at_insert by done. unfold origin_at. destruct (decide (t = new)) as [->|].
      + intros [= <-]. simpl. rewrite Hmnew. destruct (row_origin x); [done|]. by rewrite decide_True.
      + intros Hr. assert (t ≠ old) by congruence. rewrite Hmt by done. by apply Hrows. }
  destruct (m_move_mapping b1 !! old) as [o|] eqn:Hmo.
  - cbn [mbind option_bind]. eapply Hfin; [done|apply lookup_delete_eq| |].
    + by rewrite lookup_delete_ne, lookup_insert_eq.
    + intros t ? ?. by rewrite lookup_delete_ne, lookup_insert_ne.
  - rewrite law_contains by (done || lia). cbn [mbind option_bind]. case_decide as Hio.
    + rewrite bool_decide_eq_true_2 by done. cbn [mbind option_bind].
      apply (Hfin b1 (m_move_mapping b1)); [by destruct b1|done|congruence|done].
    + rewrite bool_decide_eq_false_2 by done. destruct (Hkept Hio) as (Hon&Hdo&_&Hdn).
      pose proof (size_lt _ n Hd Hn Hdn). pose proof (placed_agree n None b1 l old Hp1 ltac:(lia) ltac:(lia)) as Hag.
      rewrite law_unshift by (done || lia). cbn [mbind option_bind].
      rewrite (shift_pinned _ _ old) by (done || lia). cbn [mbind option_bind].
      eapply Hfin; [done|by rewrite lookup_insert_ne|by rewrite lookup_insert_eq|].
      intros t ? ?. by rewrite lookup_insert_ne.
Qed.

(** *** Whole transactions *)
Lemma track_step n track b l l' op :
  0 ≤ n → cells b l → tracks n None track b l → table_op op l = Some l' → n + len l + op_room op + 2 ≤ npos →
  ∃ b', track_op op (len l) track b = Some b' ∧ cells b' l' ∧ tracks n None track b' l'.
Proof.
  intros Hn Hc Hp Hop Hfit. assert (0 ≤ len l) by (unfold len; lia). destruct op as [c|row|p q|row col|old new|]; simpl in *.
  - destruct (Z.ltb_spec 0 c); [|done]. injection Hop as <-. apply (append_ok n); done || lia.
  - apply (move_over_ok n None); done || lia.
  - destruct (at_ l p) as [x|] eqn:Hx; [|done]. destruct (at_ l q) as [y|] eqn:Hy; [|done]. cbn [mbind option_bind] in Hop.
    destruct (Z.eqb_spec p q); [done|]. injection Hop as <-. apply (swap_ok n); done || lia.
  - destruct (at_ l row) as [x|] eqn:Hx; [|done]. cbn [mbind option_bind] in Hop.
    destruct (_ && _) eqn:Hcol; [|done]. injection Hop as <-. apply andb_true_iff in Hcol as [?%Z.leb_le ?%Z.ltb_lt].
    apply (modify_ok n); done || lia.
  - destruct (at_ l old) as [x|] eqn:Hx; [|done]. destruct (at_ l new) as [y|] eqn:Hy; [|done]. cbn [mbind option_bind] in Hop.
    destruct (_ && _) eqn:Hne; [|done]. apply andb_true_iff in Hne as [Hne Ho%bool_decide_eq_true_1].
    destruct (Z.eqb_spec old new); [done|].
    destruct (subsume_ok n track b l old new x y) as (b1&->&Hc1&Hp1); try done; [lia|]. cbn [mbind option_bind].
    destruct (move_over_ok n (Some old) track b1 _ l' old Hn Hc1 Hp1) as (b'&Hb'&?&?);
      [by intros p [= ->]|done|rewrite len_insert; lia|]. rewrite len_insert in Hb'. eauto.
  - injection Hop as <-. apply (clear_ok n track b l); [lia|done|apply Hc].
Qed.

Lemma track_run n track os : ∀ b l l',
  0 ≤ n → cells b l → tracks n None track b l → run_table os l = Some l' → table_fits n os l →
  ∃ b', run_track os l track b = Some b' ∧ cells b' l' ∧ tracks n None track b' l'.
Proof.
  unfold run_table. induction os as [|op os IH]; intros b l l' Hn Hc Hp Hrun Hfit; simpl in *.
  { injection Hrun as <-. eauto. }
  destruct (table_op op l) as [l1|] eqn:Hop; [|done]. destruct Hfit as [Hf1 Hf2].
  destruct (track_step n track b l l1 op) as (b1&->&?&?); [done..|]. cbn [mbind option_bind]. apply IH; auto.
Qed.

Lemma track_initial n track :
  0 ≤ n → cells empty_builder (initial_table n) ∧ tracks n None track empty_builder (initial_table n).
Proof.
  intros Hn. split.
  - constructor; simpl; [by split; [apply law_nil|]|done| |].
    + intros t. rewrite at_initial_table. split; [by intros ?%has_nil|]. intros (r&Hr&Hd). case_decide; by simplify_eq/=.
    + intros k t. rewrite at_initial_table. split; [by intros (s&?&_)|]. intros (r&Hr&Hd). case_decide; simplify_eq/=. set_solver.
  - destruct track; simpl.
    + constructor; simpl; rewrite ?len_initial_table by done; try done.
      * by split; apply law_nil.
      * by intros x ?%has_nil.
      * left. by intros x ?%has_nil.
      * intros t r _. rewrite at_initial_table. case_decide; [|done]. intros [= <-]. simpl. unfold origin_at.
        rewrite lookup_empty, decide_False by apply has_nil. done.
    + constructor; simpl; try done; [by split; apply law_nil|by intros x ?%has_nil].
Qed.

(** *** The end of the transaction *)

(** The change set of a table of [n] rows that now has the rows [l]: a position
    is deleted unless its old row is still there, inserted unless its row is
    the old one; rows of the old table elsewhere are moves. *)
Definition distinct_rows (l : list TableRow) : Prop :=
  ∀ p q r r', at_ l p = Some r → at_ l q = Some r' → row_origin r = row_origin r' → row_origin r ≠ None → p = q.

Lemma placed_distinct n b l : placed n None b l → distinct_rows l.
Proof.
  intros [[Hd Hi] _ Hbal Hins _ Hmap Hinj _ Hrows] p q r r' Hp Hq Heq Hne.
  rewrite (Hrows _ _ ltac:(done) Hp), (Hrows _ _ ltac:(done) Hq) in Heq. rewrite (Hrows _ _ ltac:(done) Hp) in Hne.
  pose proof (at_Some _ _ _ Hp). pose proof (at_Some _ _ _ Hq).
  assert (∀ t o, m_move_mapping b !! t = Some o → ¬ has (insertions (changes b)) o → 0 ≤ o < len l → False) as Hno.
  { intros t o ([Hdo|?]&_&?)%Hmap Hio ?; [|done]. pose proof (proj1 (Hbal o ltac:(lia)) (or_introl Hdo)) as [?|?]; [done|lia]. }
  destruct (origin_at _ _ p) as [o|] eqn:Ep; [|done]. symmetry in Heq.
  apply origin_at_Some in Ep as [Ep|(Ep&Hip&->)], Heq as [Eq|(Eq&Hiq&->)]; [by eapply Hinj|..].
  - exfalso. eapply Hno; done.
  - exfalso. eapply Hno; done.
  - done.
Qed.

Definition reports (n : Z) b l : Prop :=
  (∀ o, 0 ≤ o < n → has (deletions (changes b)) o ↔ ¬ ∃ r, at_ l o = Some r ∧ row_origin r = Some o) ∧
  (∀ t, has (insertions (changes b)) t ↔ ∃ r, at_ l t = Some r ∧ row_origin r ≠ Some t) ∧
  (∀ m, m ∈ moves (changes b) ↔ from m ≠ to m ∧ ∃ r, at_ l (to m) = Some r ∧ row_origin r = Some (from m)) ∧
  Sorted move_le (moves (changes b)) ∧ m_move_mapping b = ∅ ∧
  set_wf (deletions (changes b)) ∧ set_wf (insertions (changes b)) ∧ distinct_rows l.

Lemma placed_complete n b l :
  placed n None b l →
  ∃ b', parse_complete b = Some b' ∧ reports n b' l ∧
    modifications (changes b') = modifications (changes b) ∧ columns (changes b') = columns (changes b) ∧
    m_track_columns b' = m_track_columns b ∧ set_wf (deletions (changes b')) ∧ set_wf (insertions (changes b')).
Proof.
  intros Hp. pose proof Hp as [[Hd Hi] Hmv Hbal Hins _ Hmap Hinj _ Hrows].
  assert (∀ t o, m_move_mapping b !! t = Some o → has (deletions (changes b)) o ∧ has (insertions (changes b)) t) as Hmap'.
  { intros t o ([?|?]&?&_)%Hmap; done. }
  destruct (parse_complete_changes b Hd Hi Hmap' Hinj) as (b'&Heq&Hmm'&Hsort&Hmv'&Hmd'&Hmi'&Hrest).
  exists b'. split; [done|]. split; [|done]. unfold reports.
  assert (∀ t r, at_ l t = Some r → row_origin r = origin_at (insertions (changes b)) (m_move_mapping b) t) as Hrow.
  { intros t r. by apply Hrows. }
  assert (∀ t, has (insertions (changes b)) t → ∃ r, at_ l t = Some r) as Hat.
  { intros t Ht. apply at_is_Some. split; [apply has_range in Ht; [lia|done]|by apply Hins]. }
  split; [|split; [|split; [|split_and!; [done|done|apply Hrest|apply Hrest|by eapply placed_distinct]]]].
  - intros o Ho. rewrite Hmd'. specialize (Hbal o ltac:(lia)). split.
    + intros [Hdo Hmo] (r&Hr&Hro). rewrite (Hrow _ _ Hr) in Hro. pose proof (at_Some _ _ _ Hr).
      apply origin_at_Some in Hro as [?|(_&Hni&_)]; [done|]. assert (has (insertions (changes b)) o ∨ len l ≤ o) as [?|?] by tauto; [done|lia].
    + intros Hno. split.
      * destruct (decide (has (deletions (changes b)) o)) as [|Hdo]; [done|]. exfalso. apply Hno.
        assert (¬ (has (insertions (changes b)) o ∨ len l ≤ o)) as Hni by (rewrite <-Hbal; intros [?|?]; [done|lia]).
        destruct (at_is_Some l o) as [r Hr]; [split; [lia|]; destruct (decide (o < len l)); [done|tauto || lia]|].
        exists r. split; [done|]. rewrite (Hrow _ _ Hr). unfold origin_at.
        destruct (m_move_mapping b !! o) eqn:E; [apply Hmap' in E as [_ ?]; tauto|]. by rewrite decide_False by tauto.
      * intros Hmo. apply Hno. destruct (Hat o) as [r Hr]; [by eapply Hmap'|]. exists r. split; [done|].
        rewrite (Hrow _ _ Hr). unfold origin_at. by rewrite Hmo.
  - intros t. rewrite Hmi'. split.
    + intros [Ht Hmt]. destruct (Hat t Ht) as [r Hr]. exists r. split; [done|]. rewrite (Hrow _ _ Hr).
      intros [?|(_&?&_)]%origin_at_Some; done.
    + intros (r&Hr&Hro). rewrite (Hrow _ _ Hr) in Hro. unfold origin_at in Hro.
      destruct (m_move_mapping b !! t) as [o|] eqn:E; [split; [by eapply Hmap'|congruence]|]. case_decide; [|done]. done.
  - intros m. rewrite Hmv', Hmv. split.
    + intros [?%elem_of_nil|[Hmt Hne]]; [done|]. split; [done|]. destruct (Hat (to m)) as [r Hr]; [by eapply Hmap'|].
      exists r. split; [done|]. rewrite (Hrow _ _ Hr). unfold origin_at. by rewrite Hmt.
    + intros [Hne (r&Hr&Hro)]. right. rewrite (Hrow _ _ Hr) in Hro. split; [|done].
      apply origin_at_Some in Hro as [?|(_&_&?)]; done.
Qed.

Lemma table_reported n os l :
  0 ≤ n → run_table os (initial_table n) = Some l → table_fits n os (initial_table n) →
  ∃ b b', run_track os (initial_table n) true empty_builder = Some b ∧ parse_complete b = Some b' ∧
    reports n b' l ∧ cells b' l.
Proof.
  intros Hn Hrun Hfit. destruct (track_initial n true Hn) as [Hc0 Hp0].
  destruct (track_run n true os empty_builder (initial_table n) l) as (b&Hb&Hc&Hp); [done..|].
  destruct (placed_complete n b l Hp) as (b'&Hb'&Hrep&Em&Ec&Et&_). exists b, b'. split; [done|]. split; [done|].
  split; [done|]. by eapply cells_ext.
Qed.
End Run.
