(* ===== verification/ChangeProps.v ===== *)
(** The properties of [CollectionChangeBuilder]. *)
From stdpp Require Import gmap.
From S2P Require Import Prelude ChunkedRangeVector IndexSet IndexSetTheory IndexSetMerge IndexSetSpec IndexSetProps RowMap ChangeBuilder ChangeTheory ChangeMerge ChangeFinal ChangeRefinement.
From S2P Require Import ChangeCalc ChangeLcs ChangeDiff.
Import ChangeBuilder ChangeCalc Samples.

Section Claims.
Context {build : Build} {T : Type} {ops : IndexSetOps T} {laws : IndexSetLaws T}.
Implicit Types (b c : CollectionChangeBuilder T).

(** C1: refinement.  Recording any sequence of insertions, erasures, moves,
    modifications and clears in an empty builder succeeds and describes exactly
    what the sequence does to a collection of [n] rows: old row [o] is said to
    be at [t] iff it is there, a position is reported as modified iff the row
    there is, and the builder's invariants hold. *)
Theorem builder_refines_list n os l :
  0 ≤ n → run_list os (initial_rows n) = Some l → run_fits n os (initial_rows n) →
  ∃ b, run_builder os (initial_rows n) empty_builder = Some b ∧ builder_ok b ∧
    (∀ o t, 0 ≤ o < n → rows b o t ↔ ∃ r, at_ l t = Some r ∧ origin r = Some o) ∧
    (∀ t, has (modifications (changes b)) t ↔ ∃ r, at_ l t = Some r ∧ modified r = true).
Proof.
  intros Hn Hrun Hfit.
  destruct (sim_run n os empty_builder _ l Hn (sim_initial n Hn) Hrun Hfit) as (b&Heq&Hs).
  exists b. split_and!; [done|apply Hs| |apply Hs]. intros o t Ho. rewrite (sim_rows _ _ _ Hs).
  split; [intros [[_ ?]|?]; [done|lia]|]. intros (r&?&?). left. eauto.
Qed.

(** C2: merging two change sets composes them: an old row is at [t] after the
    merged set iff the first change takes it to some position and the second
    takes that position to [t]; the modifications of both are kept. *)
Theorem merge_composes b c :
  builder_ok b → builder_ok c → merge_fits b c →
  ∃ b', ChangeBuilder.merge b c = Some b' ∧ builder_ok b' ∧
    (∀ o t, rows b' o t ↔ ∃ u, rows b o u ∧ rows c u t) ∧ merged_modifications b c b'.
Proof. apply merge_changes. Qed.

(** In a builder that satisfies the invariant every old row is in at most
    one new place, and every new place holds at most one old row. *)
Theorem rows_injective b o o' t t' :
  builder_ok b → rows b o t → rows b o' t' → (o = o' ↔ t = t').
Proof.
  intros [Hb _] H1 H2. split; intros ->; [by eapply row_fun|by eapply row_inj].
Qed.

(** [clean_up_stale_moves] drops moves that do not move anything, with their
    deletion and insertion, and changes no row's place. *)
Theorem clean_up_stale_moves_correct b :
  builder_ok b →
  ∃ b', clean_up_stale_moves b = Some b' ∧ builder_ok b' ∧ (∀ o t, rows b' o t ↔ rows b o t).
Proof.
  intros (Hrows&Hm&Hc). unfold clean_up_stale_moves.
  destruct (stale_loop_ok (moves (changes b)) [] _ _ Hrows) as (mv&d&i&->&Hwf&Hrow).
  cbn [mbind option_bind]. eexists. split; [done|]. split; [done|]. exact Hrow.
Qed.

(** The reported change set keeps deletions, insertions and moves; its new
    modifications are the modified rows that were not inserted, and its old
    modifications are the positions these rows had before. *)
Theorem finalize_correct b :
  builder_ok b → bound (modifications (changes b)) + size (deletions (changes b)) ≤ npos →
  ∃ s, finalize b = Some s ∧ deletions s = deletions (changes b) ∧
    insertions s = insertions (changes b) ∧ moves s = moves (changes b) ∧
    columns s = columns (changes b) ∧ set_wf (modifications s) ∧ set_wf (modifications_new s) ∧
    (∀ t, has (modifications_new s) t ↔ has (modifications (changes b)) t ∧ ¬ has (insertions (changes b)) t) ∧
    (∀ o, has (modifications s) o ↔ ∃ t, has (modifications_new s) t ∧
       kept (deletions (changes b)) (insertions (changes b)) o t).
Proof. apply finalize_changes. Qed.

(** At the end of a transaction [parse_complete] turns the move mapping into
    the moves of the change set, sorted by source, and drops the pairs that map
    a position to itself from the moves, deletions and insertions. *)
Theorem parse_complete_correct b :
  set_wf (deletions (changes b)) → set_wf (insertions (changes b)) →
  (∀ new old, m_move_mapping b !! new = Some old →
     has (deletions (changes b)) old ∧ has (insertions (changes b)) new) →
  (∀ new new' old, m_move_mapping b !! new = Some old → m_move_mapping b !! new' = Some old → new = new') →
  ∃ b', parse_complete b = Some b' ∧ m_move_mapping b' = ∅ ∧
    Sorted move_le (moves (changes b')) ∧
    (∀ m, m ∈ moves (changes b') ↔ m ∈ moves (changes b) ∨
       m_move_mapping b !! to m = Some (from m) ∧ to m ≠ from m) ∧
    (∀ x, has (deletions (changes b')) x ↔
       has (deletions (changes b)) x ∧ m_move_mapping b !! x ≠ Some x) ∧
    (∀ x, has (insertions (changes b')) x ↔
       has (insertions (changes b)) x ∧ m_move_mapping b !! x ≠ Some x) ∧
    modifications (changes b') = modifications (changes b) ∧ columns (changes b') = columns (changes b).
Proof.
  intros Hd Hi Hm Hinj. destruct (parse_complete_changes b Hd Hi Hm Hinj) as (b'&?&?&?&?&?&?&?&?&_).
  exists b'. split_and!; done.
Qed.

(** C11: without move candidates [calculate] returns, and no assertion fails,
    the one included that applies the result in debug builds: erasing the
    deletions from the old rows and inserting the insertions gives the new
    rows, so the rows outside of both are the same, in order; no moves are
    reported; and, unless the new list has duplicates, a position is reported as
    modified iff its row is in both lists and did change. *)
Theorem calculate_correct prev next row_did_change :
  Z.of_nat (length prev) < npos → Z.of_nat (length next) < npos →
  ∃ ret : CollectionChangeBuilder T, calculate prev next row_did_change None = Some ret ∧
    apply_change (changes ret) prev next = Some next ∧
    kept_from (has (deletions (changes ret))) 0 prev = kept_from (has (insertions (changes ret))) 0 next ∧
    moves (changes ret) = [] ∧
    (NoDup next → ¬ npos ∈ next → ∀ x, has (modifications (changes ret)) x ↔
       ∃ row, next !! Z.to_nat x = Some row ∧ 0 ≤ x ∧ row ∈ prev ∧ row_did_change row = true).
Proof.
  intros Hp Hn. destruct (calculate_ok prev next row_did_change Hp Hn) as (ret&Hret&Hdiff). exists ret.
  split; [done|]. split; [by apply (diff_applies prev next row_did_change)|].
  split; [apply Hdiff|]. split; [apply Hdiff|]. intros Hnd Hno x. split.
  - intros Hx. destruct (df_modified _ _ _ _ Hdiff x Hx) as (row&?&?&?). exists row.
    pose proof (df_wf _ _ _ _ Hdiff) as (_&_&Hm). pose proof (has_range _ x Hm Hx). split_and!; [done|lia|done|done].
  - intros (row&Hrow&H0&Hprev&Hc). apply (df_unmodified _ _ _ _ Hdiff Hnd x row); [done..| |done].
    intros ->. apply Hno. by eapply list_elem_of_lookup_2.
Qed.
End Claims.

(** ** The properties on the chunked implementation in the debug build *)
Section Witnesses.
#[local] Existing Instance debug.

Definition script : list Op :=
  [OInsert 1 2; OModify 3 2; OMove 4 0; OErase 2; OModify 0 npos; OMove 0 3].

Definition first_changes : CollectionChangeBuilder (list Chunk) :=
  Eval vm_compute in default empty_builder
    (run_builder [OInsert 0 1; OMove 3 1; OModify 2 npos; OErase 4] (initial_rows 6) empty_builder).
Definition second_changes : CollectionChangeBuilder (list Chunk) :=
  Eval vm_compute in default empty_builder
    (run_builder [OErase 0; OMove 0 2; OModify 1 npos] (initial_rows 5) empty_builder).
Definition mapped_set : CollectionChangeSet (list Chunk) :=
  Eval vm_compute in mkChangeSet (default [] (IndexSet.of_list [1; 4; 5]))
    (default [] (IndexSet.of_list [1; 4])) [] [] [] [].
Definition mapped : CollectionChangeBuilder (list Chunk) :=
  mkChangeBuilder mapped_set (<[1 := 5]> (<[4 := 4]> ∅)) true.

Lemma mapped_lookup new old : m_move_mapping mapped !! new = Some old → new = 1 ∧ old = 5 ∨ new = 4 ∧ old = 4.
Proof.
  unfold mapped. cbn [m_move_mapping]. intros [[? ?]|[_ [[? ?]|[_ Hl]]%lookup_insert_Some]]%lookup_insert_Some;
    [by left|by right|]. by rewrite lookup_empty in Hl.
Qed.

Lemma builder_refines_list_witness :
  ∃ l b, run_list script (initial_rows 5) = Some l ∧
    run_builder script (initial_rows 5) empty_builder = Some b ∧
    ∀ o t, 0 ≤ o < 5 → rows b o t ↔ ∃ r, at_ l t = Some r ∧ origin r = Some o.
Proof.
  destruct (run_list script (initial_rows 5)) as [l|] eqn:Hl; [|vm_compute in Hl; discriminate].
  destruct (builder_refines_list (T := list Chunk) 5 script l) as (b&?&_&?&_); [lia|exact Hl| |].
  - repeat (split; [vm_compute; congruence|intros ? [= <-]]). exact I.
  - exists l, b. auto.
Defined.

Lemma merge_composes_witness :
  builder_ok first_changes ∧ builder_ok second_changes ∧
  ∃ b', ChangeBuilder.merge first_changes second_changes = Some b' ∧ builder_ok b' ∧
    (∀ o t, rows b' o t ↔ ∃ u, rows first_changes o u ∧ rows second_changes u t).
Proof.
  split_and!; [by_decision..|].
  destruct (merge_composes first_changes second_changes) as (b'&?&?&?&_); [by_decision..| |].
  - by_decision.
  - exists b'. split_and!; assumption.
Defined.

Lemma rows_injective_witness : builder_ok first_changes ∧ ∃ o t, rows first_changes o t ∧ (o = o ↔ t = t).
Proof.
  split; [by_decision|]. exists 2, 1.
  assert (rows first_changes 2 1) as Hr. { split; [lia|]. split; [lia|]. left. by_decision. }
  split; [done|]. apply (rows_injective first_changes 2 2 1 1); [by_decision|done..].
Defined.

Lemma clean_up_stale_moves_correct_witness :
  builder_ok first_changes ∧ ∃ b', clean_up_stale_moves first_changes = Some b' ∧ builder_ok b'.
Proof.
  split; [by_decision|].
  destruct (clean_up_stale_moves_correct first_changes) as (b'&?&?&_); [by_decision|]. eauto.
Defined.

Lemma finalize_correct_witness :
  builder_ok first_changes ∧ ∃ s, finalize first_changes = Some s ∧ set_wf (modifications s).
Proof.
  split; [by_decision|].
  destruct (finalize_correct first_changes) as (s&?&_&_&_&_&?&_); [by_decision|vm_compute; congruence|]. eauto.
Defined.

Lemma parse_complete_correct_witness :
  ∃ b', parse_complete mapped = Some b' ∧ m_move_mapping b' = ∅ ∧ Sorted move_le (moves (changes b')) ∧
    mkMove 5 1 ∈ moves (changes b').
Proof.
  destruct (parse_complete_correct mapped) as (b'&?&?&?&Hm&_).
  - change (wf (deletions (changes mapped))). by_decision.
  - change (wf (insertions (changes mapped))). by_decision.
  - intros new old [[-> ->]|[-> ->]]%mapped_lookup; split; by_decision.
  - intros new new' old [[? ?]|[? ?]]%mapped_lookup [[? ?]|[? ?]]%mapped_lookup; lia.
  - exists b'. split_and!; [assumption..|]. apply Hm. right. split; [vm_compute; reflexivity|done].
Defined.

Lemma calculate_correct_witness :
  ∃ ret : CollectionChangeBuilder (list Chunk),
    calculate [7; 3; npos; 5; 9; 3] [3; 9; 5; 8; 3] (λ row, row =? 9) None = Some ret ∧
    apply_change (changes ret) [7; 3; npos; 5; 9; 3] [3; 9; 5; 8; 3] = Some [3; 9; 5; 8; 3].
Proof.
  destruct (calculate_correct (T := list Chunk) [7; 3; npos; 5; 9; 3] [3; 9; 5; 8; 3] (λ row, row =? 9))
    as (ret&H1&H2&_); [vm_compute; reflexivity..|]. exists ret. split; [exact H1|exact H2].
Defined.

(** The search for matches after a match stops when the match ends, in the old
    rows, beyond the end of the range of the new rows: row 5 (number 5 of the
    old rows) is in place between rows 3 and 70, and is deleted and inserted. *)
Lemma lcs_stops_early :
  (λ ret : CollectionChangeBuilder (list Chunk),
     (IndexSet.indexes (set_ranges (deletions (changes ret))), IndexSet.indexes (set_ranges (insertions (changes ret))))) <$>
    calculate [0; 1; 2; 3; 4; 5; 6; 70; 71; 72; 8] [3; 8; 5; 70; 71; 72; 2; 1; 0; 4; 6] (λ _, false) None =
  Some ([0; 1; 2; 4; 5; 6; 10], [1; 2; 6; 7; 8; 9; 10]).
Proof. vm_compute. reflexivity. Qed.
End Witnesses.
