(* ===== verification/Property.v ===== *)
(** Properties and object schemas: [PropertyType], [Property]
    (include/property.hpp) and [ObjectSchema] (include/object_schema.hpp,
    ObjectStore/src/object_schema.cpp) without its validation. *)
From stdpp Require Import strings.
From S2P Require Import Prelude.

(** ** Names

    [std::string] orders by unsigned bytes; [StringData] compares [char]s, which
    are signed on the platforms where [char] is. *)
Class CharSign := char_is_signed : bool.

Definition byte_key (c : Ascii.ascii) : Z := Z.of_N (Ascii.N_of_ascii c).

Definition char_key `{CharSign} (c : Ascii.ascii) : Z :=
  if char_is_signed && (128 <=? byte_key c) then byte_key c - 256 else byte_key c.

(** [std::lexicographical_compare] *)
Fixpoint lex_lt (key : Ascii.ascii → Z) (a b : string) : bool :=
  match a, b with
  | _, EmptyString => false
  | EmptyString, String _ _ => true
  | String x a, String y b =>
      if key x <? key y then true else if key y <? key x then false else lex_lt key a b
  end.

(** [operator<(std::string, std::string)] and [operator<(StringData, StringData)] *)
Definition string_lt : string → string → bool := lex_lt byte_key.
Definition StringData_lt `{CharSign} : string → string → bool := lex_lt char_key.

(** ** [PropertyType]: a byte with a base type and two flags *)
Definition PropertyType := Z.

Module PT.
Definition Int : PropertyType := 0.
Definition Bool : PropertyType := 1.
Definition String_ : PropertyType := 2.
Definition Data : PropertyType := 3.
Definition Date : PropertyType := 4.
Definition Float : PropertyType := 5.
Definition Double : PropertyType := 6.
Definition Object : PropertyType := 7.
Definition LinkingObjects : PropertyType := 8.
Definition Any : PropertyType := 9.
Definition Required : PropertyType := 0.
Definition Nullable : PropertyType := 64.
Definition Array : PropertyType := 128.
Definition Flags : PropertyType := Z.lor Nullable Array.

(** The operators on the underlying [unsigned char] *)
Definition and_ (a b : PropertyType) : PropertyType := Z.land a b.
Definition or_ (a b : PropertyType) : PropertyType := Z.lor a b.
Definition not_ (a : PropertyType) : PropertyType := Z.land (Z.lnot a) 255.

(** [type & ~PropertyType::Flags] *)
Definition base (t : PropertyType) : PropertyType := and_ t (not_ Flags).

(** [operator==]: the flags do not count *)
Definition eqb (a b : PropertyType) : bool := base a =? base b.

Definition is_array (a : PropertyType) : bool := and_ a Array =? Array.
Definition is_nullable (a : PropertyType) : bool := and_ a Nullable =? Nullable.
End PT.

Record Property := mkProperty {
  prop_name : string;
  public_name : string;
  prop_type : PropertyType;
  object_type : string;
  link_origin_property_name : string;
  is_primary : bool;
  is_indexed : bool;
  table_column : Z }.

#[export] Instance Property_eq_dec : EqDecision Property.
Proof. solve_decision. Defined.

Module Property.
(** The two constructors *)
Definition make (name : string) (type : PropertyType) (primary indexed : bool) (public_name : string) :
    Property :=
  mkProperty name public_name type "" "" primary indexed npos.

Definition make_link (name : string) (type : PropertyType)
    (object_type link_origin_property_name public_name : string) : Property :=
  mkProperty name public_name type object_type link_origin_property_name false false npos.

Definition with_type (p : Property) (t : PropertyType) : Property :=
  mkProperty (prop_name p) (public_name p) t (object_type p) (link_origin_property_name p)
    (is_primary p) (is_indexed p) (table_column p).

Definition with_column (p : Property) (c : Z) : Property :=
  mkProperty (prop_name p) (public_name p) (prop_type p) (object_type p)
    (link_origin_property_name p) (is_primary p) (is_indexed p) c.

Definition with_primary (p : Property) : Property :=
  mkProperty (prop_name p) (public_name p) (prop_type p) (object_type p)
    (link_origin_property_name p) true (is_indexed p) (table_column p).

Definition requires_index (p : Property) : bool := is_primary p || is_indexed p.

Definition type_is_indexable (p : Property) : bool :=
  let t := prop_type p in
  PT.eqb t PT.Int || PT.eqb t PT.Bool || PT.eqb t PT.Date || PT.eqb t PT.String_.

Definition type_is_nullable (p : Property) : bool :=
  let t := prop_type p in
  negb (PT.is_array t && PT.eqb t PT.Object) && negb (PT.eqb t PT.LinkingObjects).

(** The switch over the base type; [None] is the unreachable default. *)
Definition base_type_string (t : PropertyType) : option string :=
  let b := PT.base t in
  if b =? PT.String_ then Some "string"
  else if b =? PT.Int then Some "int"
  else if b =? PT.Bool then Some "bool"
  else if b =? PT.Date then Some "date"
  else if b =? PT.Data then Some "data"
  else if b =? PT.Double then Some "double"
  else if b =? PT.Float then Some "float"
  else if b =? PT.Object then Some "object"
  else if b =? PT.Any then Some "any"
  else if b =? PT.LinkingObjects then Some "linking objects"
  else None.

Definition string_for_property_type (t : PropertyType) : option string :=
  if PT.is_array t then
    if PT.eqb t PT.LinkingObjects then Some "linking objects" else Some "array"
  else base_type_string t.

Definition type_string (p : Property) : option string :=
  let t := prop_type p in
  if PT.is_array t then
    if PT.eqb t PT.Object then Some ("array<" +:+ object_type p +:+ ">")
    else if PT.eqb t PT.LinkingObjects then Some ("linking objects<" +:+ object_type p +:+ ">")
    else s ← string_for_property_type (PT.base t); Some ("array<" +:+ s +:+ ">")
  else
    let base_type := PT.base t in
    if base_type =? PT.Object then Some ("<" +:+ object_type p +:+ ">")
    else if base_type =? PT.LinkingObjects then Some ("linking objects<" +:+ object_type p +:+ ">")
    else string_for_property_type base_type.

(** [operator==]: the column is not compared *)
Definition eqb (lft rgt : Property) : bool :=
  (prop_type lft =? prop_type rgt) && Bool.eqb (is_primary lft) (is_primary rgt) &&
  Bool.eqb (requires_index lft) (requires_index rgt) &&
  bool_decide (prop_name lft = prop_name rgt) && bool_decide (object_type lft = object_type rgt) &&
  bool_decide (link_origin_property_name lft = link_origin_property_name rgt).
End Property.

(** ** [ObjectSchema] *)
Record ObjectSchema := mkObjectSchema {
  class_name : string;
  persisted_properties : list Property;
  computed_properties : list Property;
  primary_key : string }.

#[export] Instance ObjectSchema_eq_dec : EqDecision ObjectSchema.
Proof. solve_decision. Defined.

Module ObjectSchema.
(** The first element that satisfies a test *)
Definition first {A} (p : A → bool) (l : list A) : option A := l !! find_if p l.

(** The constructor: the first primary property names the key. *)
Definition make (name : string) (persisted computed : list Property) : ObjectSchema :=
  mkObjectSchema name persisted computed
    (from_option prop_name "" (first is_primary persisted)).

Definition property_for_name (os : ObjectSchema) (name : string) : option Property :=
  let test p := bool_decide (prop_name p = name) in
  match first test (persisted_properties os) with
  | Some p => Some p
  | None => first test (computed_properties os)
  end.

Definition property_for_public_name (os : ObjectSchema) (name : string) : option Property :=
  match first (λ p, bool_decide (public_name p = name) ||
                    bool_decide (public_name p = "") && bool_decide (prop_name p = name))
          (persisted_properties os) with
  | Some p => Some p
  | None =>
      first (λ p, bool_decide
          ((if bool_decide (public_name p = "") then prop_name p else public_name p) = name))
        (computed_properties os)
  end.

Definition primary_key_property (os : ObjectSchema) : option Property :=
  property_for_name os (primary_key os).

Definition property_is_computed (os : ObjectSchema) (p : Property) : bool :=
  existsb (λ q, Property.eqb q p) (computed_properties os).

(** An assignment through the pointer [property_for_name(name)] *)
Definition update_property (f : Property → Property) (os : ObjectSchema) (name : string) : ObjectSchema :=
  let test p := bool_decide (prop_name p = name) in
  let n := find_if test (persisted_properties os) in
  if (n <? length (persisted_properties os))%nat then
    mkObjectSchema (class_name os) (alter f n (persisted_properties os)) (computed_properties os)
      (primary_key os)
  else
    mkObjectSchema (class_name os) (persisted_properties os)
      (alter f (find_if test (computed_properties os)) (computed_properties os)) (primary_key os).

Definition set_primary_key_property (os : ObjectSchema) : ObjectSchema :=
  if bool_decide (primary_key os = "") then os
  else update_property Property.with_primary os (primary_key os).

Fixpoint properties_eqb (l1 l2 : list Property) : bool :=
  match l1, l2 with
  | [], [] => true
  | p :: l1, q :: l2 => Property.eqb p q && properties_eqb l1 l2
  | _, _ => false
  end.

(** [operator==] *)
Definition eqb (a b : ObjectSchema) : bool :=
  bool_decide (class_name a = class_name b) && bool_decide (primary_key a = primary_key b) &&
  properties_eqb (persisted_properties a) (persisted_properties b) &&
  properties_eqb (computed_properties a) (computed_properties b).
End ObjectSchema.
