(* ===== verification/Schema.v ===== *)
(** [Schema] (include/schema.hpp, ObjectStore/src/schema.cpp) and the
    validation of object schemas (ObjectStore/src/object_schema.cpp). *)
From stdpp Require Import strings.
From S2P Require Import Prelude Property.

(** ** Validation errors

    An [ObjectSchemaValidationException] is its format string and arguments; an
    argument is [None] where the code would format an unreachable value. *)
Record ValidationError := mkError { error_format : string; error_args : list (option string) }.

(** ** [SchemaChange]: the tagged union of schema.hpp.  The pointers to object
    schemas and properties are the values they point to. *)
Inductive SchemaChange :=
  | AddTable (object : ObjectSchema)
  | RemoveTable (object : ObjectSchema)
  | AddInitialProperties (object : ObjectSchema)
  | AddProperty (object : ObjectSchema) (property : Property)
  | RemoveProperty (object : ObjectSchema) (property : Property)
  | ChangePropertyType (object : ObjectSchema) (old_property new_property : Property)
  | MakePropertyNullable (object : ObjectSchema) (property : Property)
  | MakePropertyRequired (object : ObjectSchema) (property : Property)
  | AddIndex (object : ObjectSchema) (property : Property)
  | RemoveIndex (object : ObjectSchema) (property : Property)
  | ChangePrimaryKey (object : ObjectSchema) (property : option Property).

#[export] Instance SchemaChange_eq_dec : EqDecision SchemaChange.
Proof. solve_decision. Defined.

(** A schema is the vector of its object schemas, sorted by name: [list
    ObjectSchema]. *)
Definition class_le (a b : ObjectSchema) : Prop := string_lt (class_name b) (class_name a) = false.

#[export] Instance class_le_dec a b : Decision (class_le a b).
Proof. unfold class_le. apply _. Defined.

Module Schema.
Section Operations.
Context {platform : CharSign}.

(** The constructor *)
Definition make (types : list ObjectSchema) : list ObjectSchema := merge_sort class_le types.

(** [find(StringData)]: the comparison of the binary search converts the
    names to [StringData]. *)
Definition find_index (s : list ObjectSchema) (name : string) : nat :=
  let it := lower_bound (λ lft, StringData_lt (class_name lft) name) s 0 (length s) in
  match s !! it with
  | Some o => if negb (bool_decide (class_name o = name)) then length s else it
  | None => length s
  end.

Definition find (s : list ObjectSchema) (name : string) : option ObjectSchema := s !! find_index s name.

(** ** [ObjectSchema::validate] *)

(** State of the loop over the properties: the primary key found and the
    exceptions *)
Definition Validation : Set := option Property * list ValidationError.

Definition fail (fmt : string) (args : list (option string)) (v : Validation) : Validation :=
  (v.1, v.2 ++ [mkError fmt args]).

(** The checks of a link or linking-objects property against the schema *)
Definition validate_link (s : list ObjectSchema) (object_name : string) (prop : Property) (v : Validation) :
    Validation :=
  let type_name := Property.string_for_property_type (prop_type prop) in
  match find s (object_type prop) with
  | None =>
      fail "Property '%1.%2' of type '%3' has unknown object type '%4'"
        [Some object_name; Some (prop_name prop); type_name; Some (object_type prop)] v
  | Some it =>
      if negb (PT.eqb (prop_type prop) PT.LinkingObjects) then v else
      match ObjectSchema.property_for_name it (link_origin_property_name prop) with
      | None =>
          fail "Property '%1.%2' declared as origin of linking objects property '%3.%4' does not exist"
            [Some (object_type prop); Some (link_origin_property_name prop); Some object_name;
             Some (prop_name prop)] v
      | Some origin =>
          if negb (PT.eqb (prop_type origin) PT.Object) then
            fail "Property '%1.%2' declared as origin of linking objects property '%3.%4' is not a link"
              [Some (object_type prop); Some (link_origin_property_name prop); Some object_name;
               Some (prop_name prop)] v
          else if negb (bool_decide (object_type origin = object_name)) then
            fail "Property '%1.%2' declared as origin of linking objects property '%3.%4' links to type '%5'"
              [Some (object_type prop); Some (link_origin_property_name prop); Some object_name;
               Some (prop_name prop); Some (object_type origin)] v
          else v
      end
  end.

(** The checks of [validate_property], in order *)
Definition check_array (object_name : string) (prop : Property) (v : Validation) : Validation :=
  if PT.eqb (prop_type prop) PT.LinkingObjects && negb (PT.is_array (prop_type prop))
  then fail "Linking Objects property '%1.%2' must be an array."
         [Some object_name; Some (prop_name prop)] v
  else v.

Definition check_nullable (object_name : string) (prop : Property) (v : Validation) : Validation :=
  let t := prop_type prop in
  if PT.is_nullable t && negb (Property.type_is_nullable prop)
  then fail "Property '%1.%2' of type '%3' cannot be nullable."
         [Some object_name; Some (prop_name prop); Property.string_for_property_type t] v
  else if PT.eqb t PT.Object && negb (PT.is_nullable t) && negb (PT.is_array t)
  then fail "Property '%1.%2' of type 'object' must be nullable."
         [Some object_name; Some (prop_name prop)] v
  else v.

Definition check_primary (object_name : string) (prop : Property) (v : Validation) : Validation :=
  let t := prop_type prop in
  if is_primary prop then
    let v :=
      if negb (PT.eqb t PT.Int) && negb (PT.eqb t PT.String_)
      then fail "Property '%1.%2' of type '%3' cannot be made the primary key."
             [Some object_name; Some (prop_name prop); Property.string_for_property_type t] v
      else v in
    let v :=
      match v.1 with
      | Some primary =>
          fail "Properties '%1' and '%2' are both marked as the primary key of '%3'."
            [Some (prop_name prop); Some (prop_name primary); Some object_name] v
      | None => v
      end in
    (Some prop, v.2)
  else v.

Definition check_indexed (object_name : string) (prop : Property) (v : Validation) : Validation :=
  if is_indexed prop && negb (Property.type_is_indexable prop)
  then fail "Property '%1.%2' of type '%3' cannot be indexed."
         [Some object_name; Some (prop_name prop);
          Property.string_for_property_type (prop_type prop)] v
  else v.

Definition check_origin (object_name : string) (prop : Property) (v : Validation) : Validation :=
  let t := prop_type prop in
  let no_origin := bool_decide (link_origin_property_name prop = "") in
  if negb (PT.eqb t PT.LinkingObjects) && negb no_origin
  then fail "Property '%1.%2' of type '%3' cannot have an origin property name."
         [Some object_name; Some (prop_name prop); Property.string_for_property_type t] v
  else if PT.eqb t PT.LinkingObjects && no_origin
  then fail "Property '%1.%2' of type '%3' must have an origin property name."
         [Some object_name; Some (prop_name prop); Property.string_for_property_type t] v
  else v.

Definition check_target (s : list ObjectSchema) (object_name : string) (prop : Property)
    (v : Validation) : Validation :=
  let t := prop_type prop in
  if negb (PT.eqb t PT.Object) && negb (PT.eqb t PT.LinkingObjects) then
    if negb (bool_decide (object_type prop = ""))
    then fail "Property '%1.%2' of type '%3' cannot have an object type."
           [Some object_name; Some (prop_name prop); Property.type_string prop] v
    else v
  else validate_link s object_name prop v.

Definition validate_property (s : list ObjectSchema) (object_name : string) (v : Validation)
    (prop : Property) : Validation :=
  let v := check_array object_name prop v in
  let v := check_nullable object_name prop v in
  let v := check_primary object_name prop v in
  let v := check_indexed object_name prop v in
  let v := check_origin object_name prop v in
  check_target s object_name prop v.

(** [for_each_duplicate] on a sorted container: [adjacent_find], then from two
    elements further *)
Fixpoint duplicates {A} `{EqDecision A} (l : list A) : list A :=
  match l with
  | x :: ((y :: l'') as l') => if bool_decide (x = y) then x :: duplicates l'' else duplicates l'
  | _ => []
  end.

(** [std::set_intersection] *)
Fixpoint set_intersection {A} (lt : A → A → bool) (l1 : list A) : list A → list A :=
  fix go l2 :=
    match l1, l2 with
    | x :: l1', y :: l2' =>
        if lt x y then set_intersection lt l1' l2
        else if lt y x then go l2'
        else x :: set_intersection lt l1' l2'
    | _, _ => []
    end.

Definition StringData_le (a b : string) : Prop := StringData_lt b a = false.

#[export] Instance StringData_le_dec a b : Decision (StringData_le a b).
Proof. unfold StringData_le. apply _. Defined.

(** [gather_names] over both kinds of properties *)
Definition internal_names (os : ObjectSchema) : list string :=
  prop_name <$> (persisted_properties os ++ computed_properties os).

Definition public_names (os : ObjectSchema) : list string :=
  filter (λ n, n ≠ "") (public_name <$> (persisted_properties os ++ computed_properties os)).

Definition validate_object (s : list ObjectSchema) (os : ObjectSchema) (exceptions : list ValidationError) :
    list ValidationError :=
  let public_property_names := merge_sort StringData_le (public_names os) in
  let internal_property_names := merge_sort StringData_le (internal_names os) in
  let exceptions := exceptions ++
    ((λ n, mkError "Alias '%1' appears more than once in the schema for type '%2'."
             [Some n; Some (class_name os)]) <$> duplicates public_property_names) ++
    ((λ n, mkError "Property '%1' appears more than once in the schema for type '%2'."
             [Some n; Some (class_name os)]) <$> duplicates internal_property_names) ++
    ((λ n, mkError "Property '%1.%2' has an alias '%3' that conflicts with a property of the same name."
             [Some (class_name os); prop_name <$> ObjectSchema.property_for_public_name os n; Some n])
      <$> set_intersection StringData_lt public_property_names internal_property_names) in
  let v := foldl (validate_property s (class_name os)) (None, exceptions) (persisted_properties os) in
  let v := foldl (validate_property s (class_name os)) v (computed_properties os) in
  if negb (bool_decide (primary_key os = "")) && bool_decide (v.1 = None) &&
     bool_decide (ObjectSchema.primary_key_property os = None)
  then v.2 ++ [mkError "Specified primary key '%1.%2' does not exist."
                 [Some (class_name os); Some (primary_key os)]]
  else v.2.

(** [Schema::validate]: [adjacent_find], then from one element further; the
    exception is thrown iff the list is not empty. *)
Fixpoint duplicate_classes (s : list ObjectSchema) : list ObjectSchema :=
  match s with
  | x :: ((y :: _) as s') =>
      if bool_decide (class_name x = class_name y) then x :: duplicate_classes s'
      else duplicate_classes s'
  | _ => []
  end.

Definition validation_errors (s : list ObjectSchema) : list ValidationError :=
  foldl (λ e o, validate_object s o e)
    ((λ o, mkError "Type '%1' appears more than once in the schema." [Some (class_name o)])
      <$> duplicate_classes s) s.

Definition validate (s : list ObjectSchema) : () + list ValidationError :=
  if bool_decide (validation_errors s = []) then inl () else inr (validation_errors s).


(** ** Comparison *)

(** The body of the loop over the existing properties; [continue] returns. *)
Definition compare_property (existing target : ObjectSchema) (changes : list SchemaChange)
    (current : Property) : list SchemaChange :=
  match ObjectSchema.property_for_name target (prop_name current) with
  | None => changes ++ [RemoveProperty existing current]
  | Some target_prop =>
      if ObjectSchema.property_is_computed target target_prop
      then changes ++ [RemoveProperty existing current]
      else if negb (PT.eqb (prop_type current) (prop_type target_prop)) ||
              negb (bool_decide (object_type current = object_type target_prop)) ||
              negb (Bool.eqb (PT.is_array (prop_type current)) (PT.is_array (prop_type target_prop)))
      then changes ++ [ChangePropertyType existing current target_prop]
      else
        let changes :=
          if negb (Bool.eqb (PT.is_nullable (prop_type current)) (PT.is_nullable (prop_type target_prop)))
          then changes ++ [if PT.is_nullable (prop_type current)
                           then MakePropertyRequired existing current
                           else MakePropertyNullable existing current]
          else changes in
        if Property.requires_index target_prop then
          if negb (is_indexed current) then changes ++ [AddIndex existing current] else changes
        else if Property.requires_index current then changes ++ [RemoveIndex existing current]
        else changes
  end.

(** [IsNotRemoveProperty] and [GetRemovedColumn] *)
Definition is_not_remove (c : SchemaChange) : bool :=
  match c with RemoveProperty _ _ => false | _ => true end.

Definition removed_column (c : SchemaChange) : Z :=
  match c with RemoveProperty _ p => table_column p | _ => 0 end.

Definition removed_ge (a b : SchemaChange) : Prop := removed_column b ≤ removed_column a.

#[export] Instance removed_ge_dec a b : Decision (removed_ge a b).
Proof. unfold removed_ge. apply _. Defined.

(** [std::partition]: the first element that fails the predicate is exchanged
    with the last one that satisfies it, until the two meet. *)
Fixpoint split_last {A} (p : A → bool) (l : list A) : option (list A * A * list A) :=
  match l with
  | [] => None
  | x :: l =>
      match split_last p l with
      | Some (mid, y, tail) => Some (x :: mid, y, tail)
      | None => if p x then Some ([], x, l) else None
      end
  end.

Fixpoint partition_loop {A} (fuel : nat) (p : A → bool) (l : list A) : list A :=
  match fuel, l with
  | S fuel, x :: l =>
      if p x then x :: partition_loop fuel p l
      else match split_last p l with
           | Some (mid, y, tail) => y :: partition_loop fuel p mid ++ x :: tail
           | None => x :: l
           end
  | _, _ => l
  end.

Definition partition {A} (p : A → bool) (l : list A) : list A := partition_loop (length l) p l.

(** The changes of one class, appended to the changes so far *)
Definition object_changes (existing target : ObjectSchema) (changes : list SchemaChange) :
    list SchemaChange :=
  let changes := foldl (compare_property existing target) changes (persisted_properties existing) in
  let changes :=
    if negb (bool_decide (primary_key existing = primary_key target))
    then changes ++ [ChangePrimaryKey existing (ObjectSchema.primary_key_property target)]
    else changes in
  foldl (λ changes target_prop,
      match ObjectSchema.property_for_name existing (prop_name target_prop) with
      | None => changes ++ [AddProperty existing target_prop]
      | Some _ => changes
      end) changes (persisted_properties target).

(** "Move all RemovePropertys to the end and sort in descending order of column
    index" *)
Definition order_changes (changes : list SchemaChange) : list SchemaChange :=
  let changes := partition is_not_remove changes in
  let it := find_if (λ c, negb (is_not_remove c)) changes in
  take it changes ++ merge_sort removed_ge (drop it changes).

(** The static function [compare] *)
Definition compare_object (existing target : ObjectSchema) (changes : list SchemaChange) :
    list SchemaChange :=
  order_changes (object_changes existing target changes).

(** The pairs [zip_matching] calls its function with, in order *)
Fixpoint zip_matching (a : list ObjectSchema) : list ObjectSchema → list (option ObjectSchema * option ObjectSchema) :=
  fix go b :=
    match a, b with
    | x :: a', y :: b' =>
        if bool_decide (class_name x = class_name y) then (Some x, Some y) :: zip_matching a' b'
        else if string_lt (class_name x) (class_name y) then (Some x, None) :: zip_matching a' b
        else (None, Some y) :: go b'
    | _, _ => ((λ x, (Some x, None)) <$> a) ++ ((λ y, (None, Some y)) <$> b)
    end.

(** [existing.compare(target, include_table_removals)] *)
Definition compare (existing target : list ObjectSchema) (include_table_removals : bool) : list SchemaChange :=
  let changes := foldl (λ changes p,
      match p with
      | (Some target, None) => changes ++ [AddTable target]
      | (None, Some existing) =>
          if include_table_removals then changes ++ [RemoveTable existing] else changes
      | _ => changes
      end) [] (zip_matching target existing) in
  foldl (λ changes p,
      match p with
      | (Some target, Some existing) => compare_object existing target changes
      | (Some target, None) => changes ++ [AddInitialProperties target]
      | _ => changes
      end) changes (zip_matching target existing).

Definition copy_columns (existing other : ObjectSchema) : ObjectSchema :=
  foldl (λ os current,
      match ObjectSchema.property_for_name os (prop_name current) with
      | Some _ => ObjectSchema.update_property (λ p, Property.with_column p (table_column current))
                    os (prop_name current)
      | None => os
      end) existing (persisted_properties other).

(** [existing.copy_table_columns_from(other)]: updates in place *)
Definition copy_table_columns_from (existing other : list ObjectSchema) : list ObjectSchema :=
  omap (λ p, match p with
             | (Some existing, Some other) => Some (copy_columns existing other)
             | (existing, _) => existing
             end) (zip_matching existing other).
End Operations.
End Schema.
