(* ===== verification/SchemaTheory.v ===== *)
(** Correctness of the schema operations: name orders, binary search, the merge
    of two sorted schemas, validation and comparison. *)
From stdpp Require Import strings gmap.
From S2P Require Import Prelude Property Schema.
Import Schema.

(** ** Orders of names *)
Section Orders.
Context (key : Ascii.ascii → Z) (key_inj : ∀ x y, key x = key y → x = y).

Lemma lex_lt_irrefl a : lex_lt key a a = false.
Proof. induction a as [|x a IH]; simpl; [done|]. by rewrite Z.ltb_irrefl. Qed.

Lemma lex_lt_trans a b c : lex_lt key a b = true → lex_lt key b c = true → lex_lt key a c = true.
Proof.
  revert b c. induction a as [|x a IH]; intros [|y b] [|z c]; simpl; try done.
  destruct (Z.ltb_spec (key x) (key y)), (Z.ltb_spec (key y) (key x)),
    (Z.ltb_spec (key y) (key z)), (Z.ltb_spec (key z) (key y)),
    (Z.ltb_spec (key x) (key z)), (Z.ltb_spec (key z) (key x)); try done; try lia.
  apply IH.
Qed.

Lemma lex_lt_total a b : lex_lt key a b = false → lex_lt key b a = false → a = b.
Proof.
  revert b. induction a as [|x a IH]; intros [|y b]; simpl; try done.
  destruct (Z.ltb_spec (key x) (key y)), (Z.ltb_spec (key y) (key x)); try done.
  intros H1 H2. assert (x = y) as -> by (apply key_inj; lia). by rewrite (IH b).
Qed.

Lemma lex_lt_asym a b : lex_lt key a b = true → lex_lt key b a = false.
Proof.
  intros Hab. destruct (lex_lt key b a) eqn:Hba; [|done].
  pose proof (lex_lt_trans a b a Hab Hba) as H. by rewrite lex_lt_irrefl in H.
Qed.

(** "not less" is a total order. *)
Lemma lex_le_trans a b c : lex_lt key b a = false → lex_lt key c b = false → lex_lt key c a = false.
Proof.
  intros Hba Hcb. destruct (lex_lt key c a) eqn:Hca; [|done].
  destruct (lex_lt key a b) eqn:Hab.
  - by rewrite (lex_lt_trans c a b) in Hcb.
  - assert (a = b) as -> by (by apply lex_lt_total). congruence.
Qed.
End Orders.

Lemma byte_key_range c : 0 ≤ byte_key c < 256.
Proof.
  unfold byte_key. assert (∀ n, (n < 256)%N → 0 ≤ Z.of_N n < 256) as H by lia. apply H.
  apply Ascii.N_ascii_bounded.
Qed.

Lemma byte_key_inj x y : byte_key x = byte_key y → x = y.
Proof.
  unfold byte_key. intros E%N2Z.inj.
  by rewrite <-(Ascii.ascii_N_embedding x), <-(Ascii.ascii_N_embedding y), E.
Qed.

Section Platform.
Context {platform : CharSign}.

Lemma char_key_inj x y : char_key x = char_key y → x = y.
Proof.
  unfold char_key. pose proof (byte_key_range x). pose proof (byte_key_range y). intros E.
  apply byte_key_inj. destruct char_is_signed; simpl in E; [|done].
  destruct (Z.leb_spec 128 (byte_key x)), (Z.leb_spec 128 (byte_key y)); lia.
Qed.

(** Strings on which the two orders agree *)
Fixpoint plain (s : string) : Prop :=
  match s with EmptyString => True | String c s => (char_is_signed → byte_key c < 128) ∧ plain s end.

Lemma plain_lt a b : plain a → plain b → StringData_lt a b = string_lt a b.
Proof.
  assert (∀ c, (char_is_signed → byte_key c < 128) → char_key c = byte_key c) as Hk.
  { intros c Hc. unfold char_key. destruct char_is_signed; [|done]. simpl.
    specialize (Hc I). by destruct (Z.leb_spec 128 (byte_key c)); [lia|]. }
  revert b. unfold StringData_lt, string_lt.
  induction a as [|x a IH]; intros [|y b]; simpl; try done. intros [Hx Ha] [Hy Hb].
  rewrite !Hk, IH by done. done.
Qed.

(** ** Sorted schemas *)
Definition schema_sorted (s : list ObjectSchema) : Prop := StronglySorted class_le s.

#[export] Instance schema_sorted_dec s : Decision (schema_sorted s).
Proof. unfold schema_sorted. apply _. Defined.

#[export] Instance class_le_trans : Transitive class_le.
Proof. intros a b c. unfold class_le, string_lt. apply lex_le_trans, byte_key_inj. Qed.

#[export] Instance class_le_total : Total class_le.
Proof.
  intros a b. unfold class_le. destruct (string_lt (class_name b) (class_name a)) eqn:E; [|by left].
  right. by apply lex_lt_asym.
Qed.

Lemma make_sorted types : schema_sorted (make types) ∧ make types ≡ₚ types.
Proof.
  split; [|apply merge_sort_Permutation].
  apply (StronglySorted_merge_sort class_le).
Qed.

(** ** Binary search *)
Lemma first_app {A} (p : A → bool) l1 l2 :
  Forall (λ x, p x = false) l1 → ObjectSchema.first p (l1 ++ l2) = ObjectSchema.first p l2.
Proof.
  unfold ObjectSchema.first. induction 1 as [|x l1 Hx Hl IH]; [done|]. simpl. rewrite Hx. apply IH.
Qed.

Lemma first_none {A} (p : A → bool) l :
  Forall (λ x, p x = false) l → ObjectSchema.first p l = None.
Proof. intros Hl. rewrite <-(app_nil_r l), first_app by done. done. Qed.

Lemma first_Some {A} (p : A → bool) l x :
  ObjectSchema.first p l = Some x → x ∈ l ∧ p x = true.
Proof.
  unfold ObjectSchema.first. destruct (find_if_spec p l) as (l1&l2&->&->&_&H2).
  intros Hx. rewrite lookup_app_r, Nat.sub_diag in Hx by lia.
  destruct l2 as [|y l2]; [done|]. injection Hx as ->. split; [|done].
  apply elem_of_app. right. constructor.
Qed.

Lemma first_is_Some {A} (p : A → bool) l x :
  x ∈ l → p x = true → ∃ y, ObjectSchema.first p l = Some y.
Proof.
  intros Hin Hp. unfold ObjectSchema.first. destruct (find_if_spec p l) as (l1&l2&->&->&H1&_).
  rewrite lookup_app_r, Nat.sub_diag by lia. destruct l2 as [|y l2]; [|eauto].
  rewrite app_nil_r in Hin. rewrite Forall_forall in H1. rewrite (H1 x Hin) in Hp. done.
Qed.

Lemma sorted_split (s : list ObjectSchema) name :
  schema_sorted s → ∃ l1 l2, s = l1 ++ l2 ∧
    Forall (λ o, string_lt (class_name o) name = true) l1 ∧
    Forall (λ o, string_lt (class_name o) name = false) l2.
Proof.
  intros Hs. destruct (sorted_partition _ (λ o, string_lt (class_name o) name) s Hs) as (l1&l2&->&H1&H2&_); [|eauto].
  intros o o' Hle E. unfold class_le in Hle. by apply (lex_le_trans byte_key byte_key_inj name (class_name o)).
Qed.

(** The binary search is a linear search. *)
Lemma find_first s name :
  schema_sorted s → plain name → Forall (λ o, plain (class_name o)) s →
  find s name = ObjectSchema.first (λ o, bool_decide (class_name o = name)) s.
Proof.
  intros Hs Hn Hp. destruct (sorted_split s name Hs) as (l1&l2&->&H1&H2).
  apply Forall_app in Hp as [Hp1 Hp2]. unfold find, find_index.
  rewrite lower_bound_spec; [|simpl; lia| |].
  2:{ rewrite drop_0. rewrite Forall_forall in H1, Hp1 |- *. intros o Ho. rewrite plain_lt; auto. }
  2:{ rewrite Forall_forall in H2, Hp2 |- *. intros o Ho. rewrite plain_lt; auto. }
  assert ((l1 ++ l2) !! length l1 = head l2) as ->.
  { rewrite lookup_app_r, Nat.sub_diag by lia. by destruct l2. }
  rewrite first_app.
  2:{ eapply Forall_impl; [exact H1|]. simpl. intros o Ho. apply bool_decide_false. intros E.
      unfold string_lt in Ho. by rewrite E, lex_lt_irrefl in Ho. }
  destruct l2 as [|o l2]; simpl.
  { by rewrite lookup_ge_None_2 by lia. }
  case_bool_decide as Ho; simpl.
  - rewrite lookup_app_r, Nat.sub_diag by lia. unfold ObjectSchema.first. simpl. by rewrite bool_decide_true.
  - rewrite lookup_ge_None_2 by lia. symmetry. apply first_none.
    apply Forall_cons in H2 as [Ho2 H2]. constructor; [by apply bool_decide_false|].
    apply StronglySorted_app in Hs as (_&_&Hs). inversion Hs as [|? ? ? Hall]; subst.
    eapply Forall_impl; [exact Hall|]. intros o' Hle. apply bool_decide_false. intros E.
    unfold class_le in Hle. rewrite E in Hle. apply Ho. by apply (lex_lt_total byte_key byte_key_inj).
Qed.
End Platform.

(** ** [zip_matching] *)
Definition class_lt (a b : ObjectSchema) : Prop := string_lt (class_name a) (class_name b) = true.

#[export] Instance class_lt_dec a b : Decision (class_lt a b).
Proof. unfold class_lt. apply _. Defined.

Definition has_class (s : list ObjectSchema) (name : string) : Prop :=
  ∃ o, o ∈ s ∧ class_name o = name.

(** What the function is called with: every class once, paired with the class
    of the same name in the other schema if there is one. *)
Definition matched (a b : list ObjectSchema) (p : option ObjectSchema * option ObjectSchema) : Prop :=
  match p with
  | (Some x, Some y) => x ∈ a ∧ y ∈ b ∧ class_name x = class_name y
  | (Some x, None) => x ∈ a ∧ ¬ has_class b (class_name x)
  | (None, Some y) => y ∈ b ∧ ¬ has_class a (class_name y)
  | (None, None) => False
  end.

Lemma class_lt_ne a b : class_lt a b → class_name a ≠ class_name b.
Proof. unfold class_lt, string_lt. intros H E. by rewrite E, lex_lt_irrefl in H. Qed.

Lemma class_lt_trans a b c : class_lt a b → class_lt b c → class_lt a c.
Proof. unfold class_lt, string_lt. apply lex_lt_trans. Qed.

Lemma has_class_cons x s name : has_class (x :: s) name ↔ class_name x = name ∨ has_class s name.
Proof.
  unfold has_class. split.
  - intros (o&[->|Ho]%elem_of_cons&?); [by left|right; by exists o].
  - intros [?|(o&?&?)]; [exists x; split; [constructor|done]|exists o; split; [by constructor|done]].
Qed.

Lemma not_has_class x s : Forall (class_lt x) s → ¬ has_class s (class_name x).
Proof.
  intros Hx (o&Ho&E). rewrite Forall_forall in Hx. by apply (class_lt_ne x o (Hx o Ho)).
Qed.

Lemma zip_matching_nil_r a : zip_matching a [] = (λ x, (Some x, None)) <$> a.
Proof. destruct a; simpl; [done|]. by rewrite app_nil_r. Qed.

Lemma zip_matching_nil_l b : zip_matching [] b = (λ y, (None, Some y)) <$> b.
Proof. by destruct b. Qed.

Lemma zip_matching_cons x a y b :
  zip_matching (x :: a) (y :: b) =
    if bool_decide (class_name x = class_name y) then (Some x, Some y) :: zip_matching a b
    else if string_lt (class_name x) (class_name y) then (Some x, None) :: zip_matching a (y :: b)
    else (None, Some y) :: zip_matching (x :: a) b.
Proof. done. Qed.

Lemma elem_of_pair_cons {A} (p q : A) l : p ∈ q :: l ↔ p = q ∨ p ∈ l.
Proof. apply elem_of_cons. Qed.

Lemma zip_matching_spec a : StronglySorted class_lt a → ∀ b, StronglySorted class_lt b →
  ∀ p, p ∈ zip_matching a b ↔ matched a b p.
Proof.
  induction 1 as [|x a Ha IHa Hx]; intros b Hb.
  { intros p. rewrite zip_matching_nil_l, list_elem_of_fmap. split.
    - intros (y&->&Hy). split; [done|]. by intros (?&?%elem_of_nil&_).
    - destruct p as [[]  []]; simpl.
      + by intros [?%elem_of_nil _].
      + by intros [?%elem_of_nil _].
      + intros [? _]. eauto.
      + done. }
  induction Hb as [|y b Hb IHb Hy]; intros p.
  { rewrite zip_matching_nil_r, list_elem_of_fmap. split.
    - intros (z&->&Hz). split; [done|]. by intros (?&?%elem_of_nil&_).
    - destruct p as [[]  []]; simpl.
      + by intros (_&?%elem_of_nil&_).
      + intros [? _]. eauto.
      + by intros [?%elem_of_nil _].
      + done. }
  pose proof (not_has_class _ _ Hx) as Hnx. pose proof (not_has_class _ _ Hy) as Hny.
  rewrite zip_matching_cons. case_bool_decide as E; [|destruct (string_lt _ _) eqn:Hlt]; rewrite elem_of_cons.
  - rewrite (IHa b Hb p). rewrite E in Hnx. rewrite <-E in Hny.
    destruct p as [[z|] [w|]]; simpl; rewrite ?elem_of_cons, ?has_class_cons; split.
    + intros [[= -> ->]|(?&?&?)]; auto.
    + intros ([->|Hz]&[->|Hw]&Hzw); [by left| | |by right].
      * exfalso. apply Hny. by exists w.
      * exfalso. apply Hnx. by exists z.
    + intros [|[Hz Hn]]; [done|]. split; [by right|]. intros [Hyz|?]; [|done]. apply Hnx. by exists z.
    + intros [[->|Hz] Hn]; right; [|split; [done|tauto]]. exfalso. apply Hn. by left.
    + intros [|[Hw Hn]]; [done|]. split; [by right|]. intros [Hxw|?]; [|done]. apply Hny. by exists w.
    + intros [[->|Hw] Hn]; right; [|split; [done|tauto]]. exfalso. apply Hn. by left.
    + by intros [|].
    + done.
  - assert (¬ has_class (y :: b) (class_name x)) as Hnxb.
    { apply not_has_class. constructor; [done|]. eapply Forall_impl; [done|]. intros z. by apply class_lt_trans. }
    rewrite (IHa (y :: b) ltac:(by constructor) p).
    destruct p as [[z|] [w|]]; simpl; rewrite ?has_class_cons; split.
    + intros [|(?&?&?)]; [done|]. split; [by constructor|done].
    + intros ([->|Hz]%elem_of_cons&Hw&Hzw); [|by right]. exfalso. apply Hnxb. by exists w.
    + intros [[= ->]|[? ?]]; [split; [constructor|by rewrite <-has_class_cons]|]. split; [by constructor|done].
    + intros [[->|Hz]%elem_of_cons Hn]; [by left|by right].
    + intros [|[Hw Hn]]; [done|]. split; [done|]. intros [Hxw|?]; [|done]. apply Hnxb. by exists w.
    + intros [Hw Hn]. right. split; [done|tauto].
    + by intros [|].
    + done.
  - assert (class_lt y x) as Hyx.
    { unfold class_lt. destruct (string_lt (class_name y) (class_name x)) eqn:E'; [done|]. exfalso.
      apply E. by apply (lex_lt_total byte_key byte_key_inj). }
    assert (¬ has_class (x :: a) (class_name y)) as Hnya.
    { apply not_has_class. constructor; [done|]. eapply Forall_impl; [done|]. intros z. by apply class_lt_trans. }
    rewrite (IHb p).
    destruct p as [[z|] [w|]]; simpl; split.
    + intros [|(?&?&?)]; [done|]. split_and!; [done|by constructor|done].
    + intros (Hz&[->|Hw]%elem_of_cons&Hzw); [|by right]. exfalso. apply Hnya. by exists z.
    + intros [|[Hz Hn]]; [done|]. split; [done|]. rewrite has_class_cons. intros [Hyz|?]; [|done].
      apply Hnya. by exists z.
    + intros [Hz Hn]. right. rewrite has_class_cons in Hn. split; [done|tauto].
    + intros [[= ->]|[? ?]]; [split; [constructor|done]|]. split; [by constructor|done].
    + intros [[->|Hw]%elem_of_cons Hn]; [by left|by right].
    + by intros [|].
    + done.
Qed.
