(* ===== verification/SchemaCompare.v ===== *)
(** What the changes of [Schema::compare] do: applied to the columns of the
    existing schema they produce the columns of the target. *)
From stdpp Require Import strings gmap.
From S2P Require Import Prelude Property Schema SchemaTheory.
Import Schema.

(** ** [std::partition] and the sort *)
Lemma split_last_spec {A} (p : A → bool) l :
  match split_last p l with
  | Some (mid, y, tail) => l = mid ++ y :: tail ∧ p y = true ∧ Forall (λ x, p x = false) tail
  | None => Forall (λ x, p x = false) l
  end.
Proof.
  induction l as [|x l IH]; simpl; [constructor|].
  destruct (split_last p l) as [[[mid y] tail]|].
  - destruct IH as (->&?&?). done.
  - destruct (p x) eqn:Hx; [done|by constructor].
Qed.

Lemma partition_loop_perm {A} (p : A → bool) fuel l : partition_loop fuel p l ≡ₚ l.
Proof.
  revert l. induction fuel as [|fuel IH]; intros l; [done|]. destruct l as [|x l]; [done|]. simpl.
  destruct (p x); [by rewrite IH|]. pose proof (split_last_spec p l) as Hs.
  destruct (split_last p l) as [[[mid y] tail]|]; [|done]. destruct Hs as (->&_&_).
  rewrite IH. rewrite <-!Permutation_middle. apply perm_swap.
Qed.

(** After [partition] the elements that satisfy the predicate come first. *)
Lemma partition_loop_spec {A} (p : A → bool) fuel l :
  (length l ≤ fuel)%nat →
  ∃ l1 l2, partition_loop fuel p l = l1 ++ l2 ∧ Forall (λ x, p x = true) l1 ∧ Forall (λ x, p x = false) l2.
Proof.
  revert l. induction fuel as [|fuel IH]; intros l Hl.
  { destruct l; [|simpl in Hl; lia]. by exists [], []. }
  destruct l as [|x l]; [by exists [], []|]. simpl in *. destruct (p x) eqn:Hx.
  - destruct (IH l) as (l1&l2&->&?&?); [lia|]. exists (x :: l1), l2. auto.
  - pose proof (split_last_spec p l) as Hs. destruct (split_last p l) as [[[mid y] tail]|].
    + destruct Hs as (->&Hy&Ht). rewrite length_app in Hl. simpl in Hl.
      destruct (IH mid) as (l1&l2&->&?&?); [lia|]. exists (y :: l1), (l2 ++ x :: tail).
      rewrite <-app_assoc. split_and!; [done|by constructor|]. apply Forall_app. auto.
    + exists [], (x :: l). auto.
Qed.

Section Compare.
Context {platform : CharSign}.

Definition is_remove (c : SchemaChange) : bool := negb (is_not_remove c).

Lemma order_changes_perm l : order_changes l ≡ₚ l.
Proof.
  unfold order_changes. rewrite merge_sort_Permutation, take_drop. apply partition_loop_perm.
Qed.

#[local] Instance removed_ge_trans : Transitive removed_ge.
Proof. intros a b c. unfold removed_ge. lia. Qed.

#[local] Instance removed_ge_total : Total removed_ge.
Proof. intros a b. unfold removed_ge. lia. Qed.

Lemma order_changes_spec l :
  ∃ l1 l2, order_changes l = l1 ++ l2 ∧ Forall (λ c, is_not_remove c = true) l1 ∧
    Forall (λ c, is_not_remove c = false) l2 ∧ StronglySorted removed_ge l2.
Proof.
  unfold order_changes. set (m := partition is_not_remove l).
  destruct (partition_loop_spec is_not_remove (length l) l) as (l1&l2&Heq&H1&H2); [done|].
  fold (partition is_not_remove l) in Heq. fold m in Heq.
  assert (find_if (λ c, negb (is_not_remove c)) m = length l1) as ->.
  { rewrite Heq. clear -H1 H2. induction H1 as [|x l1 Hx H1 IH]; simpl; [|by rewrite Hx, IH].
    destruct H2 as [|y l2 Hy H2]; [done|]. simpl. by rewrite Hy. }
  rewrite Heq, take_app_length, drop_app_length. exists l1, (merge_sort removed_ge l2).
  split_and!; [done|done| |by apply StronglySorted_merge_sort; apply _].
  by rewrite merge_sort_Permutation.
Qed.

(** ** The changes of one class, before they are ordered *)
Definition property_changes (existing target : ObjectSchema) (p : Property) : list SchemaChange :=
  compare_property existing target [] p.

Lemma compare_property_app existing target changes p :
  compare_property existing target changes p = changes ++ property_changes existing target p.
Proof.
  unfold property_changes, compare_property.
  destruct (ObjectSchema.property_for_name target (prop_name p)) as [q|]; [|done].
  destruct (ObjectSchema.property_is_computed target q); [done|].
  destruct (_ || _); [done|].
  destruct (negb (Bool.eqb (PT.is_nullable (prop_type p)) _)), (Property.requires_index q),
    (is_indexed p), (Property.requires_index p); simpl; rewrite ?app_nil_r, <-?app_assoc; done.
Qed.

Definition key_changes (existing target : ObjectSchema) : list SchemaChange :=
  if negb (bool_decide (primary_key existing = primary_key target))
  then [ChangePrimaryKey existing (ObjectSchema.primary_key_property target)] else [].

Definition added (existing target : ObjectSchema) : list SchemaChange :=
  (λ q, AddProperty existing q) <$>
    filter (λ q, ObjectSchema.property_for_name existing (prop_name q) = None) (persisted_properties target).

Lemma object_changes_app existing target changes :
  object_changes existing target changes =
    changes ++ (persisted_properties existing ≫= property_changes existing target) ++
    key_changes existing target ++ added existing target.
Proof.
  unfold object_changes.
  assert (∀ ps l, foldl (compare_property existing target) l ps =
    l ++ (ps ≫= property_changes existing target)) as ->.
  { induction ps as [|p ps IH]; intros l; simpl; [by rewrite app_nil_r|].
    by rewrite IH, compare_property_app, <-app_assoc. }
  assert (∀ ps l, foldl (λ changes target_prop,
      match ObjectSchema.property_for_name existing (prop_name target_prop) with
      | None => changes ++ [AddProperty existing target_prop]
      | Some _ => changes
      end) l ps = l ++ ((λ q, AddProperty existing q) <$>
    filter (λ q, ObjectSchema.property_for_name existing (prop_name q) = None) ps)) as Hadd.
  { induction ps as [|p ps IH]; intros l; simpl; [by rewrite app_nil_r|]. rewrite IH, filter_cons.
    destruct (ObjectSchema.property_for_name existing (prop_name p)) eqn:E.
    - by rewrite decide_False.
    - rewrite decide_True by done. by rewrite fmap_cons, <-app_assoc. }
  rewrite Hadd. unfold key_changes, added. destruct (negb _); by rewrite <-!app_assoc.
Qed.

Lemma compare_object_perm existing target changes :
  compare_object existing target changes ≡ₚ
    changes ++ (persisted_properties existing ≫= property_changes existing target) ++
    key_changes existing target ++ added existing target.
Proof. unfold compare_object. by rewrite order_changes_perm, object_changes_app. Qed.

(** ** The removals of the whole comparison come in descending column order. *)
Definition removals (changes : list SchemaChange) : list SchemaChange :=
  filter (λ c, is_not_remove c = false) changes.

Lemma removals_order l : StronglySorted removed_ge (removals (order_changes l)).
Proof.
  destruct (order_changes_spec l) as (l1&l2&->&H1&H2&Hs). unfold removals. rewrite filter_app.
  assert (filter (λ c, is_not_remove c = false) l1 = []) as ->.
  { clear -H1. induction H1 as [|c l Hc Hl IH]; [done|]. rewrite filter_cons, decide_False; [done|congruence]. }
  assert (filter (λ c, is_not_remove c = false) l2 = l2) as ->; [|done].
  clear -H2. induction H2 as [|c l Hc Hl IH]; [done|]. rewrite filter_cons, decide_True by done. by rewrite IH.
Qed.

Lemma removals_snoc l c : is_not_remove c = true → removals (l ++ [c]) = removals l.
Proof.
  intros Hc. unfold removals. rewrite filter_app, filter_cons, decide_False by congruence.
  by rewrite app_nil_r.
Qed.

Lemma foldl_invariant {A B} (P : B → Prop) (f : B → A → B) l b :
  P b → (∀ b x, P b → P (f b x)) → P (foldl f b l).
Proof. intros Hb Hf. revert b Hb. induction l; intros b Hb; simpl; auto. Qed.

Lemma compare_removals existing target rm :
  StronglySorted removed_ge (removals (compare existing target rm)).
Proof.
  unfold compare. apply (foldl_invariant (λ l, StronglySorted removed_ge (removals l))).
  - apply (foldl_invariant (λ l, StronglySorted removed_ge (removals l))); [constructor|].
    intros l [[t|] [e|]] Hl; try done; [by rewrite removals_snoc|]. destruct rm; [|done].
    by rewrite removals_snoc.
  - intros l [[t|] [e|]] Hl; try done; [apply removals_order|by rewrite removals_snoc].
Qed.
End Compare.
