(* ===== verification/SchemaApply.v ===== *)
(** The effect of schema changes on the columns of a class: applying the result
    of [compare] to the existing columns gives the target's columns. *)
From stdpp Require Import strings gmap.
From S2P Require Import Prelude Property Schema SchemaTheory SchemaCompare.
Import Schema.

(** ** Property types as base type and flags *)
Lemma type_decompose t :
  0 ≤ t < 256 →
  t = Z.lor (PT.base t) (Z.lor (if PT.is_array t then 128 else 0) (if PT.is_nullable t then 64 else 0)).
Proof.
  intros Ht.
  assert (Forall (λ t, t = Z.lor (PT.base t) (Z.lor (if PT.is_array t then 128 else 0)
    (if PT.is_nullable t then 64 else 0))) (seqZ 0 256)) as H.
  { apply Forall_forall. intros x Hx. revert x Hx. apply Forall_forall.
    refine (bool_decide_unpack _ _). vm_compute. exact I. }
  rewrite Forall_forall in H. apply H, elem_of_seqZ. lia.
Qed.

Lemma type_flags t :
  0 ≤ t < 256 →
  PT.base (Z.lor t PT.Nullable) = PT.base t ∧ PT.is_array (Z.lor t PT.Nullable) = PT.is_array t ∧
  PT.is_nullable (Z.lor t PT.Nullable) = true ∧ 0 ≤ Z.lor t PT.Nullable < 256 ∧
  PT.base (PT.and_ t (PT.not_ PT.Nullable)) = PT.base t ∧
  PT.is_array (PT.and_ t (PT.not_ PT.Nullable)) = PT.is_array t ∧
  PT.is_nullable (PT.and_ t (PT.not_ PT.Nullable)) = false ∧
  0 ≤ PT.and_ t (PT.not_ PT.Nullable) < 256.
Proof.
  intros Ht. revert t Ht.
  assert (Forall (λ t, PT.base (Z.lor t PT.Nullable) = PT.base t ∧
    PT.is_array (Z.lor t PT.Nullable) = PT.is_array t ∧
    PT.is_nullable (Z.lor t PT.Nullable) = true ∧ 0 ≤ Z.lor t PT.Nullable < 256 ∧
    PT.base (PT.and_ t (PT.not_ PT.Nullable)) = PT.base t ∧
    PT.is_array (PT.and_ t (PT.not_ PT.Nullable)) = PT.is_array t ∧
    PT.is_nullable (PT.and_ t (PT.not_ PT.Nullable)) = false ∧
    0 ≤ PT.and_ t (PT.not_ PT.Nullable) < 256) (seqZ 0 256)) as H.
  { refine (bool_decide_unpack _ _). vm_compute. exact I. }
  intros t Ht. rewrite Forall_forall in H. apply H, elem_of_seqZ. lia.
Qed.

Lemma type_eq t u :
  0 ≤ t < 256 → 0 ≤ u < 256 → PT.eqb t u = true → PT.is_array t = PT.is_array u →
  PT.is_nullable t = PT.is_nullable u → t = u.
Proof.
  intros Ht Hu Hb Ha Hn. apply Z.eqb_eq in Hb.
  rewrite (type_decompose t Ht), (type_decompose u Hu). by rewrite Hb, Ha, Hn.
Qed.

(** ** Columns *)
Record Column := mkColumn { col_type : PropertyType; col_target : string; col_indexed : bool }.

#[export] Instance Column_eq_dec : EqDecision Column.
Proof. solve_decision. Defined.

(** The column a property asks for, and the one an existing property is *)
Definition wanted (p : Property) : Column :=
  mkColumn (prop_type p) (object_type p) (Property.requires_index p).
Definition present (p : Property) : Column :=
  mkColumn (prop_type p) (object_type p) (is_indexed p).

Definition columns_of (f : Property → Column) (os : ObjectSchema) : gmap string Column :=
  list_to_map ((λ p, (prop_name p, f p)) <$> persisted_properties os).

(** The name of the column a change is about, and its effect on it: a column
    made nullable or required is a new column, indexed as the existing property
    asks for *)
Definition touched (c : SchemaChange) : option string :=
  match c with
  | AddProperty _ p | RemoveProperty _ p | ChangePropertyType _ p _ | MakePropertyNullable _ p
  | MakePropertyRequired _ p | AddIndex _ p | RemoveIndex _ p => Some (prop_name p)
  | _ => None
  end.

Definition effect (c : SchemaChange) (m : option Column) : option Column :=
  match c with
  | AddProperty _ p => Some (wanted p)
  | RemoveProperty _ _ => None
  | ChangePropertyType _ _ p => Some (wanted p)
  | MakePropertyNullable _ p =>
      (λ c, mkColumn (PT.or_ (col_type c) PT.Nullable) (col_target c) (Property.requires_index p)) <$> m
  | MakePropertyRequired _ p =>
      (λ c, mkColumn (PT.and_ (col_type c) (PT.not_ PT.Nullable)) (col_target c) (Property.requires_index p)) <$> m
  | AddIndex _ _ => (λ c, mkColumn (col_type c) (col_target c) true) <$> m
  | RemoveIndex _ _ => (λ c, mkColumn (col_type c) (col_target c) false) <$> m
  | _ => m
  end.

Definition apply_schema_change (m : gmap string Column) (c : SchemaChange) : gmap string Column :=
  match touched c with Some n => partial_alter (effect c) n m | None => m end.

Definition about (n : string) (l : list SchemaChange) : list SchemaChange :=
  filter (λ c, touched c = Some n) l.

Lemma apply_lookup l n : ∀ m,
  foldl apply_schema_change m l !! n = foldl (λ x c, effect c x) (m !! n) (about n l).
Proof.
  induction l as [|c l IH]; intros m; [done|]. simpl. rewrite IH. unfold about. rewrite filter_cons.
  unfold apply_schema_change. destruct (touched c) as [k|]; [|by rewrite decide_False].
  destruct (decide (k = n)) as [->|Hne].
  - rewrite decide_True by done. simpl. by rewrite lookup_partial_alter_eq.
  - rewrite decide_False by congruence. by rewrite lookup_partial_alter_ne.
Qed.

Section Apply.
Context {platform : CharSign}.

(** A schema whose property names are distinct, with types of one byte *)
Definition well_named (os : ObjectSchema) : Prop :=
  NoDup (internal_names os) ∧ Forall (λ p, 0 ≤ prop_type p < 256) (persisted_properties os).

#[export] Instance well_named_dec o : Decision (well_named o).
Proof. unfold well_named. apply _. Defined.

Definition NoDup_props (l : list Property) : Prop := NoDup (prop_name <$> l).

Lemma first_by_name l p :
  NoDup_props l → p ∈ l → ObjectSchema.first (λ q, bool_decide (prop_name q = prop_name p)) l = Some p.
Proof.
  unfold NoDup_props. induction l as [|q l IH]; intros Hnd Hin; [by apply elem_of_nil in Hin|].
  rewrite fmap_cons in Hnd. apply NoDup_cons in Hnd as [Hn Hnd]. unfold ObjectSchema.first. simpl.
  apply elem_of_cons in Hin as [->|Hin]; [by rewrite bool_decide_true|].
  rewrite bool_decide_false; [by apply IH|]. intros E. apply Hn. rewrite E. by apply list_elem_of_fmap_2.
Qed.

Lemma well_named_persisted os : well_named os → NoDup_props (persisted_properties os).
Proof.
  intros [Hnd _]. unfold internal_names in Hnd. rewrite fmap_app in Hnd. by apply NoDup_app in Hnd as [? _].
Qed.

Lemma property_for_persisted os p :
  well_named os → p ∈ persisted_properties os → ObjectSchema.property_for_name os (prop_name p) = Some p.
Proof.
  intros Hw Hp. unfold ObjectSchema.property_for_name.
  by rewrite (first_by_name _ p (well_named_persisted _ Hw) Hp).
Qed.

Lemma persisted_not_computed os p :
  well_named os → p ∈ persisted_properties os → ObjectSchema.property_is_computed os p = false.
Proof.
  intros [Hnd _] Hp. unfold ObjectSchema.property_is_computed.
  destruct (existsb _ _) eqn:E; [|done]. apply existsb_exists in E as (q&Hq&Heq).
  unfold internal_names in Hnd. rewrite fmap_app in Hnd. apply NoDup_app in Hnd as (_&Hnd&_).
  exfalso. apply (Hnd (prop_name p)); [by apply list_elem_of_fmap_2|].
  unfold Property.eqb in Heq. rewrite !andb_true_iff in Heq. destruct Heq as [[[_ Hname] _] _].
  apply bool_decide_eq_true in Hname. rewrite <-Hname. apply list_elem_of_fmap_2.
  by apply list_elem_of_In.
Qed.

Lemma property_eqb_refl p : Property.eqb p p = true.
Proof. unfold Property.eqb. by rewrite Z.eqb_refl, !eqb_reflx, !bool_decide_true. Qed.

(** Where [property_for_name] finds a property *)
Lemma property_for_name_Some os name p :
  ObjectSchema.property_for_name os name = Some p →
  prop_name p = name ∧ (p ∈ persisted_properties os ∨
    p ∈ computed_properties os ∧ ObjectSchema.property_is_computed os p = true ∧
    ¬ name ∈ prop_name <$> persisted_properties os).
Proof.
  unfold ObjectSchema.property_for_name.
  destruct (ObjectSchema.first _ (persisted_properties os)) as [q|] eqn:E.
  - intros [= ->]. apply first_Some in E as [Hin Hn%bool_decide_eq_true]. auto.
  - intros Hc. apply first_Some in Hc as [Hin Hn%bool_decide_eq_true]. split; [done|]. right.
    split_and!; [done| |].
    + apply existsb_exists. exists p. split; [by apply list_elem_of_In|apply property_eqb_refl].
    + intros (q&->&Hq)%list_elem_of_fmap.
      destruct (first_is_Some (λ p0, bool_decide (prop_name p0 = prop_name q)) _ q Hq) as [r Hr];
        [by apply bool_decide_true|congruence].
Qed.

Lemma property_for_name_None os name :
  ObjectSchema.property_for_name os name = None → ¬ name ∈ prop_name <$> persisted_properties os.
Proof.
  unfold ObjectSchema.property_for_name. destruct (ObjectSchema.first _ _) eqn:E; [done|].
  intros _ (q&->&Hq)%list_elem_of_fmap.
  destruct (first_is_Some (λ p0, bool_decide (prop_name p0 = prop_name q)) _ q Hq) as [r Hr];
    [by apply bool_decide_true|congruence].
Qed.

Lemma columns_of_Some f os p :
  NoDup_props (persisted_properties os) → p ∈ persisted_properties os →
  columns_of f os !! prop_name p = Some (f p).
Proof.
  intros Hnd Hp. apply elem_of_list_to_map_1.
  - unfold NoDup_props in Hnd. by rewrite <-list_fmap_compose.
  - apply list_elem_of_fmap. by exists p.
Qed.

Lemma columns_of_None f os n :
  ¬ n ∈ prop_name <$> persisted_properties os → columns_of f os !! n = None.
Proof.
  intros Hn. apply not_elem_of_list_to_map_1. rewrite <-list_fmap_compose. exact Hn.
Qed.

(** ** The changes about one column *)
Lemma property_changes_touch e t p : Forall (λ c, touched c = Some (prop_name p)) (property_changes e t p).
Proof.
  unfold property_changes, compare_property. simpl.
  destruct (ObjectSchema.property_for_name t (prop_name p)) as [q|]; [|by repeat constructor].
  destruct (ObjectSchema.property_is_computed t q); [by repeat constructor|].
  destruct (_ || _); [by repeat constructor|].
  destruct (negb (Bool.eqb (PT.is_nullable (prop_type p)) _)), (PT.is_nullable (prop_type p)),
    (Property.requires_index q), (is_indexed p), (Property.requires_index p); simpl; by repeat constructor.
Qed.

Lemma about_all n l : Forall (λ c, touched c = Some n) l → about n l = l.
Proof.
  unfold about. induction 1 as [|c l Hc Hl IH]; [done|]. by rewrite filter_cons, decide_True, IH by done.
Qed.

Lemma about_none n l : Forall (λ c, touched c ≠ Some n) l → about n l = [].
Proof.
  unfold about. induction 1 as [|c l Hc Hl IH]; [done|]. by rewrite filter_cons, decide_False by done.
Qed.

Lemma about_app n l1 l2 : about n (l1 ++ l2) = about n l1 ++ about n l2.
Proof. apply filter_app. Qed.

Lemma about_bind_none e t ps n :
  ¬ n ∈ prop_name <$> ps → about n (ps ≫= property_changes e t) = [].
Proof.
  induction ps as [|p ps IH]; intros Hn; [done|].
  change ((p :: ps) ≫= property_changes e t) with (property_changes e t p ++ (ps ≫= property_changes e t)).
  rewrite fmap_cons, elem_of_cons in Hn. rewrite about_app, IH, app_nil_r by tauto. apply about_none.
  eapply Forall_impl; [apply property_changes_touch|]. simpl. intros c ->. intros [= E]. apply Hn. by left.
Qed.

Lemma about_bind e t ps p :
  NoDup_props ps → p ∈ ps →
  about (prop_name p) (ps ≫= property_changes e t) = property_changes e t p.
Proof.
  unfold NoDup_props. induction ps as [|q ps IH]; intros Hnd Hin; [by apply elem_of_nil in Hin|].
  change ((q :: ps) ≫= property_changes e t) with (property_changes e t q ++ (ps ≫= property_changes e t)).
  rewrite fmap_cons in Hnd. apply NoDup_cons in Hnd as [Hn Hnd]. rewrite about_app.
  apply elem_of_cons in Hin as [->|Hin].
  - rewrite about_bind_none by done. rewrite app_nil_r. apply about_all, property_changes_touch.
  - rewrite IH by done. rewrite about_none; [done|].
    eapply Forall_impl; [apply property_changes_touch|]. simpl. intros c ->. intros [= E].
    apply Hn. rewrite E. by apply list_elem_of_fmap_2.
Qed.

Lemma about_key_changes e t n : about n (key_changes e t) = [].
Proof. unfold key_changes. destruct (negb _); by apply about_none; repeat constructor. Qed.

(** The column an existing property becomes, if at most one change is about it:
    the order of several is not kept by [order_changes]. *)
Definition one_change (e t : ObjectSchema) (p : Property) : Prop := (length (property_changes e t p) ≤ 1)%nat.

#[export] Instance one_change_dec e t p : Decision (one_change e t p).
Proof. unfold one_change. apply _. Defined.

Lemma make_changes_type p q :
  0 ≤ prop_type p < 256 → 0 ≤ prop_type q < 256 → PT.eqb (prop_type p) (prop_type q) = true →
  PT.is_array (prop_type p) = PT.is_array (prop_type q) →
  prop_type q = if Bool.eqb (PT.is_nullable (prop_type p)) (PT.is_nullable (prop_type q)) then prop_type p
    else if PT.is_nullable (prop_type p) then PT.and_ (prop_type p) (PT.not_ PT.Nullable)
    else PT.or_ (prop_type p) PT.Nullable.
Proof.
  intros Hp Hq Hb Ha. destruct (type_flags (prop_type p) Hp) as (F1&F2&F3&F4&F5&F6&F7&F8).
  unfold PT.eqb in Hb. apply Z.eqb_eq in Hb.
  destruct (Bool.eqb _ _) eqn:Hn; [apply eqb_prop in Hn; apply type_eq; try done|].
  - unfold PT.eqb. by rewrite Hb, Z.eqb_refl.
  - destruct (PT.is_nullable (prop_type p)) eqn:Hpn, (PT.is_nullable (prop_type q)) eqn:Hqn; try done.
    + apply type_eq; [done|done|unfold PT.eqb; rewrite F5, Hb; apply Z.eqb_refl|congruence|congruence].
    + apply type_eq; [done|done|unfold PT.eqb, PT.or_; rewrite F1, Hb; apply Z.eqb_refl|
        unfold PT.or_; congruence|unfold PT.or_; congruence].
Qed.

Lemma property_changes_effect e t p :
  well_named t → 0 ≤ prop_type p < 256 →
  foldl (λ x c, effect c x) (Some (present p)) (property_changes e t p) = columns_of wanted t !! prop_name p.
Proof.
  intros Ht Hp. unfold property_changes, compare_property. cbn [app].
  destruct (ObjectSchema.property_for_name t (prop_name p)) as [q|] eqn:Eq.
  2:{ symmetry. apply columns_of_None. by apply property_for_name_None. }
  apply property_for_name_Some in Eq as [Hname [Hq|(Hq&Hc&Hnp)]].
  2:{ rewrite Hc. symmetry. by apply columns_of_None. }
  rewrite (persisted_not_computed t q Ht Hq) in *. rewrite <-Hname.
  rewrite (columns_of_Some wanted t q (well_named_persisted t Ht) Hq).
  pose proof (proj1 (Forall_forall _ _) (proj2 Ht) q Hq) as Hqt. simpl in Hqt.
  destruct (_ || _) eqn:Hchg; [done|].
  apply orb_false_iff in Hchg as [[Hb Ho]%orb_false_iff Ha].
  apply negb_false_iff in Hb, Ha, Ho. apply bool_decide_eq_true in Ho. apply eqb_prop in Ha.
  pose proof (make_changes_type p q Hp Hqt Hb Ha) as Hty.
  unfold wanted, present. rewrite <-Ho. unfold Property.requires_index in *.
  destruct (Bool.eqb _ _); simpl in *; rewrite Hty; clear Hty.
  - destruct (is_primary q || is_indexed q), (is_primary p), (is_indexed p); done.
  - destruct (PT.is_nullable (prop_type p)), (is_primary q || is_indexed q), (is_primary p) eqn:E1,
      (is_indexed p) eqn:E2; simpl in *; unfold Property.requires_index; rewrite ?E1, ?E2; done.
Qed.

Lemma one_change_perm {A} (l l' : list A) : (length l' ≤ 1)%nat → l ≡ₚ l' → l = l'.
Proof.
  intros Hl Hp. destruct l' as [|x [|y l']]; [by apply Permutation_nil_r|by apply Permutation_singleton_r|].
  simpl in Hl. lia.
Qed.

Lemma about_perm n l1 l2 : l1 ≡ₚ l2 → about n l1 ≡ₚ about n l2.
Proof. unfold about. by intros ->. Qed.

Lemma about_added e t n :
  well_named t → about n (added e t) =
    match ObjectSchema.first (λ q, bool_decide (prop_name q = n)) (persisted_properties t) with
    | Some q => if decide (ObjectSchema.property_for_name e n = None) then [AddProperty e q] else []
    | None => []
    end.
Proof.
  intros Hw. pose proof (well_named_persisted t Hw) as Hnd. unfold added, NoDup_props in *.
  induction (persisted_properties t) as [|q ps IH]; [done|]. rewrite fmap_cons in Hnd.
  apply NoDup_cons in Hnd as [Hn Hnd]. rewrite filter_cons. unfold ObjectSchema.first. simpl.
  assert (prop_name q = n → about n ((λ q, AddProperty e q) <$>
    filter (λ q, ObjectSchema.property_for_name e (prop_name q) = None) ps) = []) as Hrest.
  { intros <-. apply about_none, Forall_forall. intros c (r&->&Hr)%list_elem_of_fmap.
    apply list_elem_of_filter in Hr as [_ Hr]. simpl. intros [= E]. apply Hn. rewrite <-E.
    by apply list_elem_of_fmap_2. }
  case_bool_decide as E; simpl.
  - rewrite E. destruct (decide (ObjectSchema.property_for_name e n = None)); [|by apply Hrest].
    rewrite fmap_cons. unfold about. rewrite filter_cons. simpl. rewrite decide_True by congruence.
    f_equal. by apply Hrest.
  - destruct (decide (ObjectSchema.property_for_name e (prop_name q) = None)); [|by apply IH].
    rewrite fmap_cons. unfold about. rewrite filter_cons. simpl. rewrite decide_False by congruence.
    by apply IH.
Qed.

(** The changes about one column: those of the existing property of the name, or
    the addition of a new one *)
Lemma about_object_changes e t n :
  well_named e → computed_properties e = [] →
  about n (object_changes e t []) =
    match ObjectSchema.first (λ p, bool_decide (prop_name p = n)) (persisted_properties e) with
    | Some p => property_changes e t p
    | None => about n (added e t)
    end.
Proof.
  intros He Hcomp. rewrite object_changes_app. cbn [app]. rewrite !about_app, about_key_changes. cbn [app].
  destruct (ObjectSchema.first _ _) as [p|] eqn:E.
  - apply first_Some in E as [Hin <-%bool_decide_eq_true]. rewrite about_bind by (done || by apply well_named_persisted).
    rewrite (about_none (prop_name p) (added e t)); [by rewrite app_nil_r|].
    apply Forall_forall. intros c (q&->&Hq)%list_elem_of_fmap. apply list_elem_of_filter in Hq as [Hq _].
    simpl. intros [= Eq]. rewrite Eq, (property_for_persisted e p He Hin) in Hq. done.
  - rewrite about_bind_none; [done|]. intros (q&->&Hq)%list_elem_of_fmap.
    destruct (first_is_Some (λ r, bool_decide (prop_name r = prop_name q)) _ q Hq) as [r Hr];
      [by apply bool_decide_true|congruence].
Qed.

Lemma about_new e t n :
  well_named t → computed_properties e = [] →
  ObjectSchema.first (λ p, bool_decide (prop_name p = n)) (persisted_properties e) = None →
  (length (about n (added e t)) ≤ 1)%nat ∧
  foldl (λ x c, effect c x) None (about n (added e t)) = columns_of wanted t !! n.
Proof.
  intros Ht Hcomp Hnone. rewrite (about_added _ _ _ Ht).
  assert (ObjectSchema.property_for_name e n = None) as Hn.
  { unfold ObjectSchema.property_for_name. by rewrite Hnone, Hcomp. }
  destruct (ObjectSchema.first _ (persisted_properties t)) as [q|] eqn:E.
  - rewrite decide_True by done. split; [simpl; lia|]. simpl. apply first_Some in E as [Hq <-%bool_decide_eq_true].
    symmetry. apply columns_of_Some; [by apply well_named_persisted|done].
  - split; [simpl; lia|]. simpl. symmetry. apply columns_of_None. intros (q&->&Hq)%list_elem_of_fmap.
    destruct (first_is_Some (λ r, bool_decide (prop_name r = prop_name q)) _ q Hq) as [r Hr];
      [by apply bool_decide_true|congruence].
Qed.

Lemma columns_of_first f os n :
  NoDup_props (persisted_properties os) →
  columns_of f os !! n = f <$> ObjectSchema.first (λ p, bool_decide (prop_name p = n)) (persisted_properties os).
Proof.
  intros Hnd. destruct (ObjectSchema.first _ _) as [p|] eqn:E.
  - apply first_Some in E as [Hin <-%bool_decide_eq_true]. by apply columns_of_Some.
  - apply columns_of_None. intros (q&->&Hq)%list_elem_of_fmap.
    destruct (first_is_Some (λ r, bool_decide (prop_name r = prop_name q)) _ q Hq) as [r Hr];
      [by apply bool_decide_true|congruence].
Qed.

Section Changes.
Context (existing target : ObjectSchema).
Hypothesis He : well_named existing.
Hypothesis Ht : well_named target.
Hypothesis Hcomp : computed_properties existing = [].

Lemma persisted_type p : p ∈ persisted_properties existing → 0 ≤ prop_type p < 256.
Proof. apply (proj1 (Forall_forall _ _) (proj2 He)). Qed.

(** In the order in which they are found, the changes of a class give its columns
    the target's. *)
Lemma object_changes_lookup n :
  foldl (λ x c, effect c x) (columns_of present existing !! n) (about n (object_changes existing target [])) =
    columns_of wanted target !! n.
Proof.
  rewrite about_object_changes, columns_of_first by (done || by apply well_named_persisted).
  destruct (ObjectSchema.first _ _) as [p|] eqn:E; cbn [fmap option_fmap option_map].
  - apply first_Some in E as [Hin <-%bool_decide_eq_true]. apply property_changes_effect; [done|by apply persisted_type].
  - by apply about_new.
Qed.

Lemma object_changes_columns :
  foldl apply_schema_change (columns_of present existing) (object_changes existing target []) = columns_of wanted target.
Proof. apply map_eq. intros n. rewrite apply_lookup. apply object_changes_lookup. Qed.

(** In any order this holds for every column that needs at most one change. *)
Lemma changes_lookup cs n :
  (∀ p, p ∈ persisted_properties existing → prop_name p = n → one_change existing target p) →
  cs ≡ₚ object_changes existing target [] →
  foldl apply_schema_change (columns_of present existing) cs !! n = columns_of wanted target !! n.
Proof.
  intros Hone Hcs. rewrite apply_lookup, <-object_changes_lookup. f_equal.
  apply one_change_perm; [|by apply about_perm]. rewrite about_object_changes by done.
  destruct (ObjectSchema.first _ _) as [p|] eqn:E; [|by apply about_new].
  apply first_Some in E as [Hin Hn%bool_decide_eq_true]. by apply Hone.
Qed.

Lemma changes_columns cs :
  Forall (one_change existing target) (persisted_properties existing) →
  cs ≡ₚ object_changes existing target [] →
  foldl apply_schema_change (columns_of present existing) cs = columns_of wanted target.
Proof.
  intros Hone Hcs. rewrite Forall_forall in Hone. apply map_eq. intros n. apply changes_lookup; [|done]. intros p Hp _. by apply Hone.
Qed.

(** In any order the columns get their types and targets. *)
Definition unindexed (c : Column) : PropertyType * string := (col_type c, col_target c).

Lemma two_changes p :
  one_change existing target p ∨
  ∃ a b, property_changes existing target p = [a; b] ∧
    (∀ m, unindexed <$> effect b m = unindexed <$> m) ∧
    (∀ m m', unindexed <$> m = unindexed <$> m' → unindexed <$> effect a m = unindexed <$> effect a m').
Proof.
  unfold one_change, property_changes, compare_property. cbn [app].
  destruct (ObjectSchema.property_for_name target (prop_name p)) as [q|]; [|left; simpl; lia].
  destruct (ObjectSchema.property_is_computed target q); [left; simpl; lia|].
  destruct (_ || _); [left; simpl; lia|].
  destruct (negb (Bool.eqb _ _)), (PT.is_nullable (prop_type p)), (Property.requires_index q), (is_indexed p),
    (Property.requires_index p); simpl; try (left; lia); right; eexists _, _; (split; [done|]); split.
  all: try (by intros [[]|]).
  all: intros [[]|] [[]|]; try done; unfold unindexed; simpl; by intros [= -> ->].
Qed.

Lemma changes_unindexed cs :
  cs ≡ₚ object_changes existing target [] →
  unindexed <$> foldl apply_schema_change (columns_of present existing) cs = unindexed <$> columns_of wanted target.
Proof.
  intros Hcs. apply map_eq. intros n. rewrite !lookup_fmap, apply_lookup, <-object_changes_lookup.
  pose proof (about_perm n _ _ Hcs) as Hp. rewrite about_object_changes in Hp |- * by done.
  destruct (ObjectSchema.first _ _) as [p|] eqn:E.
  - destruct (two_changes p) as [Hone|(a&b&Hab&Hb&Ha)].
    + by rewrite (one_change_perm _ _ Hone Hp).
    + rewrite Hab in Hp |- *. symmetry in Hp. apply Permutation_length_2_inv in Hp as [-> | ->]; [done|]. simpl.
      rewrite Hb. by apply Ha.
  - destruct (about_new existing target n Ht Hcomp E) as [Hl _]. by rewrite (one_change_perm _ _ Hl Hp).
Qed.
End Changes.

(** ** Comparing a schema with itself *)
Lemma compare_object_self o changes :
  well_named o → Forall (λ p, is_primary p = true → is_indexed p = true) (persisted_properties o) →
  compare_object o o changes ≡ₚ changes.
Proof.
  intros Hw Hp. rewrite compare_object_perm.
  assert (persisted_properties o ≫= property_changes o o = []) as ->.
  { assert (∀ ps, (∀ p, p ∈ ps → p ∈ persisted_properties o) → ps ≫= property_changes o o = []) as H; [|by apply H].
    induction ps as [|p ps IH]; intros Hsub; [done|].
    change ((p :: ps) ≫= property_changes o o) with (property_changes o o p ++ (ps ≫= property_changes o o)).
    rewrite IH by (intros; apply Hsub; by constructor). rewrite app_nil_r.
    assert (p ∈ persisted_properties o) as Hin by (apply Hsub; constructor).
    unfold property_changes, compare_property. rewrite (property_for_persisted o p Hw Hin).
    rewrite (persisted_not_computed o p Hw Hin). unfold PT.eqb. rewrite Z.eqb_refl, !eqb_reflx.
    rewrite bool_decide_true by done. simpl. rewrite Forall_forall in Hp. specialize (Hp p Hin).
    unfold Property.requires_index. destruct (is_primary p), (is_indexed p); simpl; try done. by discriminate (Hp eq_refl). }
  assert (added o o = []) as ->.
  { unfold added. assert (∀ ps, (∀ p, p ∈ ps → p ∈ persisted_properties o) →
      filter (λ q, ObjectSchema.property_for_name o (prop_name q) = None) ps = []) as H; [|by rewrite H].
    induction ps as [|p ps IH]; intros Hsub; [done|]. rewrite filter_cons, decide_False.
    - apply IH. intros; apply Hsub; by constructor.
    - rewrite (property_for_persisted o p Hw); [done|]. apply Hsub. constructor. }
  unfold key_changes. rewrite bool_decide_true by done. by rewrite !app_nil_r.
Qed.

Lemma zip_matching_self s : zip_matching s s = (λ o, (Some o, Some o)) <$> s.
Proof.
  induction s as [|o s IH]; [done|]. rewrite zip_matching_cons, bool_decide_true by done.
  by rewrite IH.
Qed.

Lemma compare_self s rm :
  Forall (λ o, well_named o ∧ Forall (λ p, is_primary p = true → is_indexed p = true) (persisted_properties o)) s →
  compare s s rm = [].
Proof.
  intros Hs. unfold compare. rewrite zip_matching_self.
  assert (foldl (λ changes p, match p with
      | (Some target, None) => changes ++ [AddTable target]
      | (None, Some existing) => if rm then changes ++ [RemoveTable existing] else changes
      | _ => changes end) [] ((λ o, (Some o, Some o)) <$> s) = []) as ->.
  { clear. by induction s. }
  induction Hs as [|o s [Hw Hp] Hs IH]; [done|]. simpl.
  assert (compare_object o o [] = []) as ->; [|done].
  apply Permutation_nil_r. by apply compare_object_self.
Qed.
End Apply.
