(* ===== verification/SchemaValid.v ===== *)
(** What [Schema::validate] accepts, declaratively. *)
From stdpp Require Import strings.
From S2P Require Import Prelude Property Schema SchemaTheory.
Import Schema.

Section Valid.
Context {platform : CharSign}.

(** ** Valid properties

    [link] says which link and linking-objects properties of a class are
    valid. *)
Record valid_property (link : string → Property → Prop) (class : string) (p : Property) : Prop := {
  valid_array : PT.eqb (prop_type p) PT.LinkingObjects = true → PT.is_array (prop_type p) = true;
  valid_nullable : PT.is_nullable (prop_type p) = true → Property.type_is_nullable p = true;
  valid_object_null : PT.eqb (prop_type p) PT.Object = true → PT.is_array (prop_type p) = false →
    PT.is_nullable (prop_type p) = true;
  valid_key : is_primary p = true →
    PT.eqb (prop_type p) PT.Int = true ∨ PT.eqb (prop_type p) PT.String_ = true;
  valid_index : is_indexed p = true → Property.type_is_indexable p = true;
  valid_origin : link_origin_property_name p ≠ "" ↔ PT.eqb (prop_type p) PT.LinkingObjects = true;
  valid_target : if PT.eqb (prop_type p) PT.Object || PT.eqb (prop_type p) PT.LinkingObjects
    then link class p else object_type p = "" }.

(** The class a property links to is as the property says: if linking objects,
    the origin is a property of that class that links to the class of [p]. *)
Definition origin_ok (class : string) (p : Property) (target : ObjectSchema) : Prop :=
  PT.eqb (prop_type p) PT.LinkingObjects = true →
  ∃ origin, ObjectSchema.property_for_name target (link_origin_property_name p) = Some origin ∧
    PT.eqb (prop_type origin) PT.Object = true ∧ object_type origin = class.

(** A class of the schema that has the name is the target. *)
Definition valid_link (s : list ObjectSchema) (class : string) (p : Property) : Prop :=
  ∃ target, target ∈ s ∧ class_name target = object_type p ∧ origin_ok class p target.

(** The target as [Schema::find] finds it *)
Definition found_link (s : list ObjectSchema) (class : string) (p : Property) : Prop :=
  ∃ target, find s (object_type p) = Some target ∧ origin_ok class p target.

(** ** The checks append errors *)

(** [f] appends errors, none iff [ok] for the key found so far. *)
Definition checks (f : Validation → Validation) (key : option Property → option Property)
    (ok : option Property → Prop) : Prop :=
  ∀ pk e, ∃ l, f (pk, e) = (key pk, e ++ l) ∧ (l = [] ↔ ok pk).

Lemma checks_compose f g k1 k2 ok1 ok2 :
  checks f k1 ok1 → checks g k2 ok2 →
  checks (λ v, g (f v)) (λ pk, k2 (k1 pk)) (λ pk, ok1 pk ∧ ok2 (k1 pk)).
Proof.
  intros Hf Hg pk e. destruct (Hf pk e) as (l1&->&H1). destruct (Hg (k1 pk) (e ++ l1)) as (l2&->&H2).
  exists (l1 ++ l2). rewrite <-app_assoc. split; [done|]. rewrite <-H1, <-H2.
  split; [apply app_eq_nil|by intros [-> ->]].
Qed.

Lemma no_error pk (e : list ValidationError) (ok : Prop) :
  ok → ∃ l, (pk, e) = (pk : option Property, e ++ l) ∧ (l = [] ↔ ok).
Proof. intros. exists []. by rewrite app_nil_r. Qed.

Lemma one_error pk (e : list ValidationError) x (ok : Prop) :
  ¬ ok → ∃ l, (pk, e ++ [x]) = (pk : option Property, e ++ l) ∧ (l = [] ↔ ok).
Proof. intros. exists [x]. split; [done|]. by split. Qed.

Ltac check_cases :=
  repeat match goal with
  | |- context [PT.eqb ?a ?b] => destruct (PT.eqb a b)
  | |- context [PT.is_nullable ?a] => destruct (PT.is_nullable a)
  | |- context [PT.is_array ?a] => destruct (PT.is_array a)
  | |- context [Property.type_is_nullable ?a] => destruct (Property.type_is_nullable a)
  | |- context [Property.type_is_indexable ?a] => destruct (Property.type_is_indexable a)
  | |- context [is_indexed ?a] => destruct (is_indexed a)
  | |- context [bool_decide ?P] => destruct (bool_decide_reflect P)
  end; simpl; first [apply no_error | apply one_error]; intuition congruence.

Lemma check_array_ok class p :
  checks (check_array class p) (λ pk, pk) (λ _,
    PT.eqb (prop_type p) PT.LinkingObjects = true → PT.is_array (prop_type p) = true).
Proof. intros pk e. unfold check_array, fail. check_cases. Qed.

Lemma check_nullable_ok class p :
  checks (check_nullable class p) (λ pk, pk) (λ _,
    (PT.is_nullable (prop_type p) = true → Property.type_is_nullable p = true) ∧
    (PT.eqb (prop_type p) PT.Object = true → PT.is_array (prop_type p) = false →
     PT.is_nullable (prop_type p) = true)).
Proof. intros pk e. unfold check_nullable, fail. check_cases. Qed.

Lemma check_indexed_ok class p :
  checks (check_indexed class p) (λ pk, pk) (λ _,
    is_indexed p = true → Property.type_is_indexable p = true).
Proof. intros pk e. unfold check_indexed, fail. check_cases. Qed.

Lemma check_origin_ok class p :
  checks (check_origin class p) (λ pk, pk) (λ _,
    link_origin_property_name p ≠ "" ↔ PT.eqb (prop_type p) PT.LinkingObjects = true).
Proof.
  intros pk e. unfold check_origin, fail. check_cases.
Qed.

Definition key_of (p : Property) (pk : option Property) : option Property :=
  if is_primary p then Some p else pk.

Lemma check_primary_ok class p :
  checks (check_primary class p) (key_of p) (λ pk,
    (is_primary p = true → PT.eqb (prop_type p) PT.Int = true ∨ PT.eqb (prop_type p) PT.String_ = true) ∧
    (is_primary p = true → pk = None)).
Proof.
  intros pk e. unfold check_primary, fail, key_of. destruct (is_primary p); [|by apply no_error].
  destruct pk as [q|]; simpl; [|check_cases].
  destruct (negb _ && negb _); simpl; rewrite <-?app_assoc; eexists; (split; [done|]);
    (split; [done|]); intros [_ Hn]; by specialize (Hn eq_refl).
Qed.

Lemma check_target_ok s class p :
  checks (check_target s class p) (λ pk, pk) (λ _,
    if PT.eqb (prop_type p) PT.Object || PT.eqb (prop_type p) PT.LinkingObjects
    then found_link s class p else object_type p = "").
Proof.
  intros pk e. unfold check_target, validate_link, found_link, origin_ok, fail.
  destruct (PT.eqb (prop_type p) PT.Object) eqn:HO; simpl;
    [|destruct (PT.eqb (prop_type p) PT.LinkingObjects) eqn:HL; simpl; [|check_cases]].
  all: destruct (find s (object_type p)) as [t|]; simpl; [|apply one_error; by intros (?&?&_)].
  - destruct (PT.eqb (prop_type p) PT.LinkingObjects) eqn:HL; simpl.
    + unfold PT.eqb in *. apply Z.eqb_eq in HO, HL. by rewrite HO in HL.
    + apply no_error. exists t. by split.
  - destruct (ObjectSchema.property_for_name t (link_origin_property_name p)) as [o|] eqn:Ho.
    2:{ apply one_error. intros (t'&[= <-]&H). destruct H as (?&?&_); [done|congruence]. }
    destruct (PT.eqb (prop_type o) PT.Object) eqn:HoO; simpl.
    2:{ apply one_error. intros (t'&[= <-]&H). destruct H as (?&?&?&_); [done|congruence]. }
    case_bool_decide as Hc; simpl.
    + apply no_error. exists t. split; [done|]. intros _. by exists o.
    + apply one_error. intros (t'&[= <-]&H). destruct H as (?&?&_&?); [done|congruence].
Qed.

(** ** One property, then all properties of a class *)
Lemma validate_property_ok s class p :
  checks (λ v, validate_property s class v p) (key_of p)
    (λ pk, valid_property (found_link s) class p ∧ (is_primary p = true → pk = None)).
Proof.
  pose proof (checks_compose _ _ _ _ _ _ (check_array_ok class p) (check_nullable_ok class p)) as H1.
  pose proof (checks_compose _ _ _ _ _ _ H1 (check_primary_ok class p)) as H2.
  pose proof (checks_compose _ _ _ _ _ _ H2 (check_indexed_ok class p)) as H3.
  pose proof (checks_compose _ _ _ _ _ _ H3 (check_origin_ok class p)) as H4.
  pose proof (checks_compose _ _ _ _ _ _ H4 (check_target_ok s class p)) as H5.
  intros pk e. destruct (H5 pk e) as (l&Heq&Hl). exists l. split; [exact Heq|]. rewrite Hl.
  split; [intros; split; [constructor|]; tauto|intros [[] ?]; tauto].
Qed.

(** At most one primary key in a list of properties, none if there is one
    already *)
Definition one_key (pk : option Property) (ps : list Property) : Prop :=
  match pk with
  | Some _ => Forall (λ p, is_primary p = false) ps
  | None => ∀ i j p q, ps !! i = Some p → ps !! j = Some q → is_primary p = true →
      is_primary q = true → i = j
  end.

Lemma one_key_cons pk p ps :
  one_key pk (p :: ps) ↔ (is_primary p = true → pk = None) ∧ one_key (key_of p pk) ps.
Proof.
  unfold key_of. destruct (is_primary p) eqn:Hp, pk as [q|]; simpl.
  - rewrite Forall_cons. split; [intros [? _]; congruence|]. intros [Hn _]. by specialize (Hn eq_refl).
  - split.
    + intros Hk. split; [done|]. apply Forall_forall. intros r Hr. apply list_elem_of_lookup in Hr as [i Hi].
      destruct (is_primary r) eqn:Hrp; [|done]. by specialize (Hk 0%nat (S i) p r eq_refl Hi Hp Hrp).
    + intros [_ Hf] [|i] [|j] x y Hx Hy Hxp Hyp; simpl in *; try done.
      * eapply Forall_lookup_1 in Hf; [|exact Hy]. simpl in Hf. congruence.
      * eapply Forall_lookup_1 in Hf; [|exact Hx]. simpl in Hf. congruence.
      * eapply Forall_lookup_1 in Hf; [|exact Hx]. simpl in Hf. congruence.
  - rewrite Forall_cons. split; [by intros [? ?]|]. tauto.
  - split.
    + intros Hk. split; [done|]. intros i j x y Hx Hy Hxp Hyp. by injection (Hk (S i) (S j) x y Hx Hy Hxp Hyp).
    + intros [_ Hk] [|i] [|j] x y Hx Hy Hxp Hyp; simpl in *; try congruence.
      f_equal. by apply (Hk i j x y).
Qed.

Definition last_key (ps : list Property) (pk : option Property) : option Property :=
  foldl (λ pk p, key_of p pk) pk ps.

Lemma validate_properties_ok s class ps :
  checks (λ v, foldl (validate_property s class) v ps) (last_key ps)
    (λ pk, Forall (valid_property (found_link s) class) ps ∧ one_key pk ps).
Proof.
  induction ps as [|p ps IH].
  { intros pk e. apply no_error. split; [constructor|]. destruct pk; [constructor|done]. }
  pose proof (checks_compose _ _ _ _ _ _ (validate_property_ok s class p) IH) as H.
  intros pk e. destruct (H pk e) as (l&Heq&Hl). exists l. split; [exact Heq|].
  rewrite Hl, Forall_cons, one_key_cons. tauto.
Qed.

Lemma last_key_None ps pk : last_key ps pk = None ↔ pk = None ∧ Forall (λ p, is_primary p = false) ps.
Proof.
  revert pk. induction ps as [|p ps IH]; intros pk; simpl; [split; [done|by intros []]|].
  rewrite IH, Forall_cons. unfold key_of. destruct (is_primary p); naive_solver.
Qed.

(** ** Names *)

Lemma duplicates_nil `{EqDecision B} (le : B → B → Prop) (l : list B) :
  (∀ x y, le x y → le y x → x = y) → StronglySorted le l → duplicates l = [] ↔ NoDup l.
Proof.
  intros Hanti Hs. induction Hs as [|x l Hs IH Hx]; [split; [constructor|done]|].
  destruct l as [|y l]; [split; [intros; by apply NoDup_singleton|done]|]. cbn [duplicates].
  case_bool_decide as E.
  - subst. split; [done|]. intros Hnd. apply NoDup_cons in Hnd as [Hn _]. destruct Hn. constructor.
  - rewrite IH, (NoDup_cons x). split; [|by intros []]. intros Hnd. split; [|done]. intros Hin.
    apply elem_of_cons in Hin as [->|Hin]; [done|]. apply E.
    apply Forall_cons in Hx as [Hxy Hx]. apply Hanti; [done|]. inversion Hs as [|? ? ? Hy]; subst.
    rewrite Forall_forall in Hy. by apply Hy.
Qed.

Lemma StringData_lt_trans a b c : StringData_lt a b = true → StringData_lt b c = true → StringData_lt a c = true.
Proof. apply lex_lt_trans. Qed.

Lemma StringData_le_anti a b : StringData_le a b → StringData_le b a → a = b.
Proof. intros H1 H2. by apply (lex_lt_total char_key char_key_inj). Qed.

#[local] Instance StringData_le_trans : Transitive StringData_le.
Proof. intros a b c. apply (lex_le_trans char_key char_key_inj). Qed.

#[local] Instance StringData_le_total : Total StringData_le.
Proof.
  intros a b. unfold StringData_le. destruct (StringData_lt b a) eqn:E; [|by left].
  right. by apply (lex_lt_asym char_key).
Qed.

Lemma sorted_names l : StronglySorted StringData_le (merge_sort StringData_le l).
Proof. by apply StronglySorted_merge_sort; apply _. Qed.

Lemma set_intersection_nil l1 : StronglySorted StringData_le l1 → ∀ l2, StronglySorted StringData_le l2 →
  set_intersection StringData_lt l1 l2 = [] ↔ (∀ x, x ∈ l1 → ¬ x ∈ l2).
Proof.
  induction 1 as [|x l1 Hs1 IH1 Hx]; intros l2 Hs2.
  { destruct l2; (split; [by intros _ y ?%elem_of_nil|done]). }
  induction Hs2 as [|y l2 Hs2 IH2 Hy]; [split; [by intros _ z _ ?%elem_of_nil|done]|].
  change (set_intersection StringData_lt (x :: l1) (y :: l2)) with
    (if StringData_lt x y then set_intersection StringData_lt l1 (y :: l2)
     else if StringData_lt y x then set_intersection StringData_lt (x :: l1) l2
     else x :: set_intersection StringData_lt l1 l2).
  destruct (StringData_lt x y) eqn:Hxy; [|destruct (StringData_lt y x) eqn:Hyx].
  - rewrite IH1 by by constructor. split.
    + intros Hd z [->|Hz]%elem_of_cons; [|by apply Hd]. intros [->|Hin]%elem_of_cons.
      * unfold StringData_lt in Hxy. by rewrite lex_lt_irrefl in Hxy.
      * rewrite Forall_forall in Hy. specialize (Hy x Hin). unfold StringData_le in Hy. congruence.
    + intros Hd z Hz. apply Hd. by constructor.
  - rewrite IH2. split.
    + intros Hd z Hz [->|Hin]%elem_of_cons; [|by apply (Hd z)]. apply elem_of_cons in Hz as [->|Hz].
      * unfold StringData_lt in Hyx. by rewrite lex_lt_irrefl in Hyx.
      * rewrite Forall_forall in Hx. specialize (Hx y Hz). unfold StringData_le in Hx. congruence.
    + intros Hd z Hz Hin. apply (Hd z Hz). by constructor.
  - split; [done|]. intros Hd. assert (x = y) as -> by (by apply (lex_lt_total char_key char_key_inj)).
    exfalso. apply (Hd y); constructor.
Qed.

(** ** Classes and schemas *)
Definition properties (o : ObjectSchema) : list Property := persisted_properties o ++ computed_properties o.

Record valid_object (link : string → Property → Prop) (o : ObjectSchema) : Prop := {
  valid_names : NoDup (internal_names o);
  valid_aliases : NoDup (public_names o);
  valid_conflicts : ∀ n, n ∈ public_names o → ¬ n ∈ internal_names o;
  valid_properties : Forall (valid_property link (class_name o)) (properties o);
  valid_one_key : one_key None (properties o);
  valid_primary_key : primary_key o = "" ∨ Exists (λ p, is_primary p = true) (properties o) ∨
    ∃ p, ObjectSchema.primary_key_property o = Some p }.

Lemma fmap_nil_iff {B C} (f : B → C) l : f <$> l = [] ↔ l = [].
Proof. split; [apply fmap_nil_inv|by intros ->]. Qed.

Lemma app_nil_iff {B} (l1 l2 : list B) : l1 ++ l2 = [] ↔ l1 = [] ∧ l2 = [].
Proof. split; [apply app_eq_nil|by intros [-> ->]]. Qed.

Lemma Exists_key ps : Exists (λ p, is_primary p = true) ps ↔ ¬ Forall (λ p, is_primary p = false) ps.
Proof.
  rewrite Exists_exists, Forall_forall. split.
  - intros (p&Hp&E) H. by rewrite (H p Hp) in E.
  - intros H. destruct (decide (Exists (λ p, is_primary p = true) ps)) as [He|He].
    + by apply Exists_exists in He.
    + destruct H. intros p Hp. destruct (is_primary p) eqn:E; [|done]. destruct He. apply Exists_exists. by exists p.
Qed.

Lemma missing_key_iff o :
  negb (bool_decide (primary_key o = "")) && bool_decide (last_key (properties o) None = None) &&
  bool_decide (ObjectSchema.primary_key_property o = None) = true ↔
  ¬ (primary_key o = "" ∨ Exists (λ p, is_primary p = true) (properties o) ∨
     ∃ p, ObjectSchema.primary_key_property o = Some p).
Proof.
  rewrite !andb_true_iff, negb_true_iff, bool_decide_eq_false, !bool_decide_eq_true, last_key_None, Exists_key.
  destruct (decide (Forall (λ p, is_primary p = false) (properties o))).
  - destruct (ObjectSchema.primary_key_property o); naive_solver.
  - naive_solver.
Qed.

Lemma validate_object_ok s o e :
  ∃ l, validate_object s o e = e ++ l ∧ (l = [] ↔ valid_object (found_link s) o).
Proof.
  unfold validate_object. rewrite <-foldl_app. fold (properties o).
  match goal with |- context [foldl _ (None, ?x) _] => set (e0 := x) end.
  destruct (validate_properties_ok s (class_name o) (properties o) None e0) as (l&->&Hl). cbn [fst snd].
  pose proof (missing_key_iff o) as Hkey.
  pose proof (duplicates_nil StringData_le _ StringData_le_anti (sorted_names (public_names o))) as Hpub.
  pose proof (duplicates_nil StringData_le _ StringData_le_anti (sorted_names (internal_names o))) as Hint.
  pose proof (set_intersection_nil _ (sorted_names (public_names o)) _ (sorted_names (internal_names o))) as Hmix.
  setoid_rewrite merge_sort_Permutation in Hpub at 2.
  setoid_rewrite merge_sort_Permutation in Hint at 2.
  assert (valid_object (found_link s) o ↔ duplicates (merge_sort StringData_le (public_names o)) = [] ∧
    duplicates (merge_sort StringData_le (internal_names o)) = [] ∧
    set_intersection StringData_lt (merge_sort StringData_le (public_names o))
      (merge_sort StringData_le (internal_names o)) = [] ∧ l = [] ∧
    (primary_key o = "" ∨ Exists (λ p, is_primary p = true) (properties o) ∨
     ∃ p, ObjectSchema.primary_key_property o = Some p)) as Hvalid.
  { rewrite Hpub, Hint, Hmix, Hl. setoid_rewrite merge_sort_Permutation.
    split; [intros []; tauto|intros (?&?&?&[]&?); by split]. }
  unfold e0. clear e0 Hpub Hint Hmix Hl.
  destruct (_ && _ && _).
  - eexists. rewrite <-!app_assoc. split; [done|]. rewrite Hvalid, !app_nil_iff. naive_solver.
  - eexists. rewrite <-!app_assoc. split; [done|]. rewrite Hvalid, !app_nil_iff, !fmap_nil_iff.
    assert (¬ ¬ (primary_key o = "" ∨ Exists (λ p, is_primary p = true) (properties o) ∨
      ∃ p, ObjectSchema.primary_key_property o = Some p)) by (rewrite <-Hkey; done).
    destruct (decide (primary_key o = "")), (decide (Exists (λ p, is_primary p = true) (properties o))),
      (ObjectSchema.primary_key_property o); naive_solver.
Qed.

Lemma class_sorted_trans a b c :
  class_le a b → class_le b c → class_name a = class_name c → class_name a = class_name b.
Proof.
  unfold class_le, string_lt. intros Hab Hbc E. rewrite <-E in Hbc.
  by apply (lex_lt_total byte_key byte_key_inj).
Qed.

Lemma duplicate_classes_nil s : schema_sorted s → duplicate_classes s = [] ↔ NoDup (class_name <$> s).
Proof.
  induction 1 as [|x l Hs IH Hx]; [split; [constructor|done]|].
  destruct l as [|y l]; [split; [intros; by apply NoDup_singleton|done]|]. cbn [duplicate_classes].
  rewrite fmap_cons, (NoDup_cons (class_name x)). case_bool_decide as E.
  - split; [done|]. intros [Hn _]. destruct Hn. rewrite E. by constructor.
  - rewrite IH. split; [|by intros []]. intros Hnd. split; [|done].
    intros (z&Exz&Hz)%list_elem_of_fmap. apply elem_of_cons in Hz as [->|Hz]; [done|]. apply E.
    apply Forall_cons in Hx as [Hxy _]. inversion Hs as [|? ? ? Hy]; subst.
    rewrite Forall_forall in Hy. by apply (class_sorted_trans x y z); [|apply Hy|].
Qed.

Lemma validate_objects_ok s os e :
  ∃ l, foldl (λ e o, validate_object s o e) e os = e ++ l ∧ (l = [] ↔ Forall (valid_object (found_link s)) os).
Proof.
  revert e. induction os as [|o os IH]; intros e; [exists []; by rewrite app_nil_r|].
  simpl. destruct (validate_object_ok s o e) as (l1&->&H1). destruct (IH (e ++ l1)) as (l2&->&H2).
  exists (l1 ++ l2). rewrite <-app_assoc, app_nil_iff, Forall_cons, H1, H2. done.
Qed.

Lemma validate_found s :
  schema_sorted s → validate s = inl () ↔ NoDup (class_name <$> s) ∧ Forall (valid_object (found_link s)) s.
Proof.
  intros Hs. rewrite <-duplicate_classes_nil by done. unfold validate, validation_errors.
  edestruct validate_objects_ok as (l&->&Hl). rewrite <-Hl. case_bool_decide as E.
  - apply app_nil_iff in E as [E%fmap_nil_iff ->]. split; [done|done].
  - split; [done|]. intros [E1 E2]. destruct E. by rewrite E1, E2.
Qed.
(** ** Links to the classes of the schema *)
Lemma valid_object_impl (link1 link2 : string → Property → Prop) o :
  (∀ class p, link1 class p → link2 class p) → valid_object link1 o → valid_object link2 o.
Proof.
  intros Himp [H1 H2 H3 H4 H5 H6]. split; [done..| |done|done]. eapply Forall_impl; [exact H4|].
  intros p [G1 G2 G3 G4 G5 G6 G7]. split; [done..|]. destruct (_ || _); [by apply Himp|done].
Qed.

(** What [Schema::find] finds is a class of that name. *)
Lemma find_sound s name o : find s name = Some o → o ∈ s ∧ class_name o = name.
Proof.
  unfold find, find_index. destruct (s !! lower_bound _ s 0 (length s)) as [o'|] eqn:E.
  - case_bool_decide as Hn; simpl; [|by rewrite lookup_ge_None_2]. rewrite E. intros [= ->].
    split; [by eapply list_elem_of_lookup_2|done].
  - by rewrite lookup_ge_None_2.
Qed.

Lemma found_valid s class p : found_link s class p → valid_link s class p.
Proof. intros (t&[Hin Hn]%find_sound&Ho). by exists t. Qed.

Lemma class_unique s o o' : NoDup (class_name <$> s) → o ∈ s → o' ∈ s → class_name o = class_name o' → o = o'.
Proof.
  intros Hnd [i Hi]%list_elem_of_lookup [j Hj]%list_elem_of_lookup E. assert (i = j) as ->; [|congruence].
  eapply NoDup_lookup; [exact Hnd|..]; rewrite list_lookup_fmap; [by rewrite Hi|by rewrite Hj; simpl; rewrite E].
Qed.

Lemma valid_found s class p :
  schema_sorted s → NoDup (class_name <$> s) → Forall (λ o, plain (class_name o)) s →
  valid_link s class p → found_link s class p.
Proof.
  intros Hs Hnd Hp (t&Hin&Hn&Ho). exists t. split; [|done].
  rewrite find_first; [|done|rewrite <-Hn; by eapply Forall_forall in Hp|done].
  destruct (first_is_Some (λ o, bool_decide (class_name o = object_type p)) s t) as [t' Ht'];
    [done|by apply bool_decide_true|]. rewrite Ht'. f_equal.
  apply first_Some in Ht' as [Hin' Hn'%bool_decide_eq_true]. apply (class_unique s); congruence.
Qed.

Lemma validate_sound s :
  schema_sorted s → validate s = inl () → NoDup (class_name <$> s) ∧ Forall (valid_object (valid_link s)) s.
Proof.
  intros Hs [Hnd Hv]%validate_found; [|done]. split; [done|]. eapply Forall_impl; [exact Hv|].
  intros o. apply valid_object_impl, found_valid.
Qed.

Lemma validate_complete s :
  schema_sorted s → Forall (λ o, plain (class_name o)) s →
  NoDup (class_name <$> s) → Forall (valid_object (valid_link s)) s → validate s = inl ().
Proof.
  intros Hs Hp Hnd Hv. apply validate_found; [done|]. split; [done|]. eapply Forall_impl; [exact Hv|].
  intros o. apply valid_object_impl. intros class p. by apply valid_found.
Qed.
End Valid.
