(* ===== verification/SchemaProps.v ===== *)
(** The properties of [Schema]: construction, search, validation and
    comparison. *)
From stdpp Require Import strings gmap.
From S2P Require Import Prelude Property Schema SchemaTheory SchemaCompare SchemaApply SchemaValid.
Import Schema.

(** Concrete classes *)
Module SchemaSamples.
Definition id_prop : Property := Property.make "id" PT.Int true true "".
Definition name_prop : Property := Property.make "name" PT.String_ false false "".
Definition age_prop : Property := Property.make "age" (PT.or_ PT.Int PT.Nullable) false false "".
Definition friend_prop : Property := Property.make_link "friend" (PT.or_ PT.Object PT.Nullable) "Person" "" "".
Definition dogs_prop : Property := Property.make_link "dogs" (PT.or_ PT.Object PT.Array) "Dog" "" "".
Definition owners_prop : Property :=
  Property.make_link "owners" (PT.or_ PT.LinkingObjects PT.Array) "Person" "dogs" "owner".

Definition person : ObjectSchema := ObjectSchema.make "Person" [id_prop; name_prop; friend_prop; dogs_prop] [].
Definition dog : ObjectSchema := ObjectSchema.make "Dog" [name_prop] [owners_prop].
Definition people : list ObjectSchema := make [person; dog].

(** The same classes as found in a file of an earlier version *)
Definition old_person : ObjectSchema :=
  ObjectSchema.make "Person"
    [Property.with_column (Property.make "age" PT.Int false false "") 0;
     Property.with_column (Property.make "id" PT.Int false false "") 1;
     Property.with_column (Property.make "name" PT.Data false false "") 2;
     Property.with_column (Property.make "city" PT.String_ false false "") 3] [].
Definition new_person : ObjectSchema :=
  ObjectSchema.make "Person" [id_prop; name_prop; age_prop] [].

Definition accented : ObjectSchema := ObjectSchema.make (String (Ascii.ascii_of_nat 195) "a") [] [].
Definition plain_z : ObjectSchema := ObjectSchema.make "z" [] [].
Definition links_z : ObjectSchema :=
  ObjectSchema.make "z" [Property.make_link "accented" (PT.or_ PT.Object PT.Nullable) (class_name accented) "" ""] [].
End SchemaSamples.
Import SchemaSamples.

Section Claims.
Context {platform : CharSign}.

(** The binary search of [Schema::find] returns the first class of the
    name, as a linear search does, in a sorted schema whose names, like the one
    searched for, have no byte that a signed [char] makes negative. *)
Theorem find_correct s name :
  schema_sorted s → plain name → Forall (λ o, plain (class_name o)) s →
  find s name = ObjectSchema.first (λ o, bool_decide (class_name o = name)) s.
Proof. apply find_first. Qed.


(** [zip_matching] calls its function exactly with the classes of either
    schema, paired with the class of the same name in the other one. *)
Theorem zip_matching_correct a b p :
  StronglySorted class_lt a → StronglySorted class_lt b →
  p ∈ zip_matching a b ↔ matched a b p.
Proof. intros. by apply zip_matching_spec. Qed.

(** C25: the changes [compare] lists for a class are complete.  [existing] is a
    class as it is read from a file, without computed properties.  Applied to its
    columns in the order in which they are found, before [std::partition] moves the
    removals to the end, the changes give exactly the columns the target asks
    for, with their types, targets and indexes.  Applied in the order [compare]
    leaves them, they give the columns with their types and targets; the index is
    right for every property that does not need two changes, a new column and an
    index, which the partition can exchange. *)
Theorem compare_object_complete existing target :
  well_named existing → well_named target → computed_properties existing = [] →
  let result := foldl apply_schema_change (columns_of present existing) (compare_object existing target []) in
  foldl apply_schema_change (columns_of present existing) (object_changes existing target []) =
    columns_of wanted target ∧
  unindexed <$> result = unindexed <$> columns_of wanted target ∧
  ∀ n, (∀ p, p ∈ persisted_properties existing → prop_name p = n → one_change existing target p) →
    result !! n = columns_of wanted target !! n.
Proof.
  intros He Ht Hcomp. split; [by apply object_changes_columns|].
  split; [by apply changes_unindexed, order_changes_perm|]. intros n Hn. by apply changes_lookup, order_changes_perm.
Qed.

(** In the whole comparison of two schemas the removals of columns are in
    descending order of column index, so that none of them shifts a column
    that is still to be removed. *)
Theorem removals_descending existing target rm :
  StronglySorted removed_ge (filter (λ c, is_not_remove c = false) (compare existing target rm)).
Proof. apply compare_removals. Qed.

(** Comparing a schema with itself finds no change, when property names are
    distinct and primary keys are indexed. *)
Theorem compare_reflexive s rm :
  Forall (λ o, well_named o ∧
    Forall (λ p, is_primary p = true → is_indexed p = true) (persisted_properties o)) s →
  compare s s rm = [].
Proof. apply compare_self. Qed.
End Claims.

(** Where [char] is signed, a valid schema can contain classes that [find]
    does not find, an ASCII one among them: the schema is sorted by the unsigned
    order of [std::string] and searched by the signed order of [StringData]. *)
Theorem find_misses_signed_char :
  validate (platform := true) (make [accented; plain_z]) = inl () ∧
  make [accented; plain_z] = [plain_z; accented] ∧
  find (platform := true) (make [accented; plain_z]) (class_name plain_z) = None ∧
  find (platform := true) (make [accented; plain_z]) (class_name accented) = None ∧
  find (platform := false) (make [accented; plain_z]) (class_name accented) = Some accented.
Proof. split_and!; vm_compute; reflexivity. Qed.

(** A valid schema is then refused: the class a property links to exists, but is
    not found. *)
Theorem signed_char_refuses_link :
  let s := make [accented; links_z] in
  validate (platform := false) s = inl () ∧
  validate (platform := true) s = inr [mkError "Property '%1.%2' of type '%3' has unknown object type '%4'"
    [Some "z"; Some "accented"; Some "object"; Some (class_name accented)]].
Proof. split; vm_compute; reflexivity. Qed.

(** Validation accepts a list of integers marked as indexed, although
    [insert_column] never indexes a list column: compared with the same class
    read back without the index, the schema asks for the index again. *)
Theorem indexed_list_never_settles :
  let list_prop indexed := Property.make "tags" (PT.or_ PT.Int PT.Array) false indexed "" in
  let class indexed := ObjectSchema.make "Item" [list_prop indexed] [] in
  validate (platform := true) [class true] = inl () ∧
  compare [class false] [class true] false = [AddIndex (class false) (list_prop false)].
Proof. split; vm_compute; reflexivity. Qed.

(** ** Witnesses *)
Section Witnesses.
#[local] Instance signed : CharSign := true.

#[local] Instance plain_dec s : Decision (plain s).
Proof. induction s; simpl; apply _. Defined.

Lemma find_correct_witness :
  schema_sorted people ∧ plain "Dog" ∧ find people "Dog" = Some dog.
Proof.
  split_and!; [by_decision..|]. rewrite (find_correct people "Dog"); [|by_decision..].
  vm_compute. reflexivity.
Defined.


Lemma zip_matching_correct_witness :
  matched [dog; person] [old_person] (Some person, Some old_person) ∧
  matched [dog; person] [old_person] (Some dog, None).
Proof.
  split; apply (zip_matching_correct [dog; person] [old_person]); by_decision.
Defined.

Lemma compare_object_complete_witness :
  length (compare_object old_person new_person []) = 5%nat ∧
  foldl apply_schema_change (columns_of present old_person) (compare_object old_person new_person []) !! "id" =
    Some (wanted id_prop).
Proof.
  split; [vm_compute; reflexivity|]. destruct (compare_object_complete old_person new_person) as (_&_&H);
    [by_decision..|reflexivity|]. rewrite H; [vm_compute; reflexivity|].
  refine (proj1 (Forall_forall _ _) _). by_decision.
Defined.

Lemma compare_reflexive_witness : compare people people true = [].
Proof. apply (compare_reflexive people true). by_decision. Defined.
End Witnesses.
