(* ===== verification/SchemaStructure.v ===== *)
(** The shape of the list of changes between two schemas: tables are added
    first; then, for each class, come the changes of its columns with the
    removals last, from the last column to the first. *)
From stdpp Require Import strings.
From S2P Require Import Prelude Property Schema SchemaTheory SchemaCompare.
Import Schema.

(** ** Every class is visited once *)
Definition pair_name (p : option ObjectSchema * option ObjectSchema) : string :=
  match p with
  | (Some x, _) => class_name x
  | (None, Some y) => class_name y
  | (None, None) => ""
  end.

Lemma matched_name a b p n :
  matched a b p → pair_name p = n → has_class a n ∨ has_class b n.
Proof.
  destruct p as [[x|] [y|]]; simpl; [intros (Hx&_&_) <-; left; by exists x|
    intros (Hx&_) <-; left; by exists x|intros (Hy&_) <-; right; by exists y|done].
Qed.

Lemma zip_matching_NoDup a : StronglySorted class_lt a → ∀ b, StronglySorted class_lt b →
  NoDup (pair_name <$> zip_matching a b).
Proof.
  assert (∀ (A : Type) (f : ObjectSchema → A) s, StronglySorted class_lt s →
    NoDup (class_name <$> s)) as Hsorted.
  { intros A f s. induction 1 as [|x s Hs IH Hx]; [constructor|]. rewrite fmap_cons. constructor; [|done].
    intros (y&E&Hy)%list_elem_of_fmap. apply (not_has_class x s Hx). by exists y. }
  induction 1 as [|x a Ha IHa Hx]; intros b Hb.
  { rewrite zip_matching_nil_l, <-list_fmap_compose. apply (Hsorted _ class_name b Hb). }
  induction Hb as [|y b Hb IHb Hy].
  { rewrite zip_matching_nil_r, <-list_fmap_compose. apply (Hsorted _ class_name (x :: a)). by constructor. }
  assert (∀ p a b n, StronglySorted class_lt a → StronglySorted class_lt b → ¬ has_class a n → ¬ has_class b n →
    p ∈ pair_name <$> zip_matching a b → p ≠ n) as Hfresh.
  { intros p a' b' n Ha' Hb' Hna Hnb (q&->&Hq)%list_elem_of_fmap E. apply zip_matching_spec in Hq; [|done|done].
    by destruct (matched_name a' b' q n Hq E). }
  pose proof (not_has_class _ _ Hx) as Hnx. pose proof (not_has_class _ _ Hy) as Hny.
  rewrite zip_matching_cons. case_bool_decide as E; [|destruct (string_lt _ _) eqn:Hlt];
    rewrite fmap_cons; constructor; simpl.
  - intros Hin. by apply (Hfresh _ a b (class_name x) Ha Hb Hnx ltac:(by rewrite E) Hin).
  - by apply IHa.
  - assert (¬ has_class (y :: b) (class_name x)) as Hnxb.
    { apply not_has_class. constructor; [done|]. eapply Forall_impl; [done|]. intros z. by apply class_lt_trans. }
    intros Hin. by apply (Hfresh _ a (y :: b) (class_name x) Ha ltac:(by constructor) Hnx Hnxb Hin).
  - apply IHa. by constructor.
  - assert (class_lt y x) as Hyx.
    { unfold class_lt. destruct (string_lt (class_name y) (class_name x)) eqn:E'; [done|]. exfalso.
      apply E. by apply (lex_lt_total byte_key byte_key_inj). }
    assert (¬ has_class (x :: a) (class_name y)) as Hnya.
    { apply not_has_class. constructor; [done|]. eapply Forall_impl; [done|]. intros z. by apply class_lt_trans. }
    intros Hin. by apply (Hfresh _ (x :: a) b (class_name y) ltac:(by constructor) Hb Hnya Hny Hin).
  - done.
Qed.

(** ** The changes about one class *)
Definition class_of (c : SchemaChange) : string :=
  match c with
  | AddTable o | RemoveTable o | AddInitialProperties o | AddProperty o _ | RemoveProperty o _
  | ChangePropertyType o _ _ | MakePropertyNullable o _ | MakePropertyRequired o _ | AddIndex o _
  | RemoveIndex o _ | ChangePrimaryKey o _ => class_name o
  end.

Definition about_class (n : string) (l : list SchemaChange) : list SchemaChange :=
  filter (λ c, class_of c = n) l.

Definition contribution (p : option ObjectSchema * option ObjectSchema) : list SchemaChange :=
  match p with
  | (Some target, Some existing) => object_changes existing target []
  | (Some target, None) => [AddInitialProperties target]
  | _ => []
  end.

Lemma property_changes_class e t p : Forall (λ c, class_of c = class_name e) (property_changes e t p).
Proof.
  unfold property_changes, compare_property. simpl.
  destruct (ObjectSchema.property_for_name t (prop_name p)) as [q|]; [|by repeat constructor].
  destruct (ObjectSchema.property_is_computed t q); [by repeat constructor|].
  destruct (_ || _); [by repeat constructor|].
  destruct (negb (Bool.eqb (PT.is_nullable (prop_type p)) _)), (PT.is_nullable (prop_type p)),
    (Property.requires_index q), (is_indexed p), (Property.requires_index p); simpl; by repeat constructor.
Qed.

Lemma object_changes_class e t : Forall (λ c, class_of c = class_name e) (object_changes e t []).
Proof.
  rewrite object_changes_app. simpl. rewrite !Forall_app. split_and!.
  - apply Forall_bind, Forall_forall. intros p _. apply property_changes_class.
  - unfold key_changes. destruct (negb _); by repeat constructor.
  - unfold added. apply Forall_fmap, Forall_forall. by intros.
Qed.

Lemma contribution_class a b p :
  matched a b p → Forall (λ c, class_of c = pair_name p) (contribution p).
Proof.
  destruct p as [[t|] [e|]]; simpl; [|by repeat constructor|constructor|done].
  intros (_&_&->). apply object_changes_class.
Qed.

Lemma about_contributions a b zs p :
  (∀ q, q ∈ zs → matched a b q) → NoDup (pair_name <$> zs) → p ∈ zs →
  about_class (pair_name p) (zs ≫= contribution) = contribution p.
Proof.
  unfold about_class. induction zs as [|q zs IH]; intros Hm Hnd Hp; [by apply elem_of_nil in Hp|].
  change ((q :: zs) ≫= contribution) with (contribution q ++ (zs ≫= contribution)). rewrite filter_app.
  rewrite fmap_cons in Hnd. apply NoDup_cons in Hnd as [Hn Hnd].
  pose proof (contribution_class a b q (Hm q ltac:(constructor))) as Hq.
  assert (∀ n, n ≠ pair_name q → filter (λ c, class_of c = n) (contribution q) = []) as Hother.
  { intros n Hne. apply filter_none. eapply Forall_impl; [exact Hq|]. simpl. intros c -> E. congruence. }
  apply elem_of_cons in Hp as [->|Hp].
  - rewrite filter_all by done. rewrite filter_none, app_nil_r; [done|].
    apply Forall_bind, Forall_forall. intros r Hr.
    eapply Forall_impl; [apply (contribution_class a b r), Hm; by constructor|].
    simpl. intros c -> E. apply Hn. rewrite <-E. by apply list_elem_of_fmap_2.
  - rewrite Hother; [apply IH; [|done|done]|].
    + intros r Hr. apply Hm. by constructor.
    + intros E. apply Hn. rewrite <-E. by apply list_elem_of_fmap_2.
Qed.

Lemma about_contributions_none a b zs n :
  (∀ q, q ∈ zs → matched a b q) → ¬ n ∈ pair_name <$> zs → about_class n (zs ≫= contribution) = [].
Proof.
  intros Hm Hn. apply filter_none, Forall_bind, Forall_forall. intros r Hr.
  eapply Forall_impl; [apply (contribution_class a b r), Hm, Hr|].
  simpl. intros c -> E. apply Hn. rewrite <-E. by apply list_elem_of_fmap_2.
Qed.

(** ** The shape of the comparison *)
Definition is_add_table (c : SchemaChange) : bool := match c with AddTable _ => true | _ => false end.
Definition is_initial (c : SchemaChange) : bool := match c with AddInitialProperties _ => true | _ => false end.

Definition shape (l : list SchemaChange) : Prop :=
  ∃ a r b, l = a ++ r ++ b ∧ Forall (λ c, is_not_remove c = true) a ∧
    Forall (λ c, is_not_remove c = false) r ∧ StronglySorted removed_ge r ∧
    Forall (λ c, is_initial c = true) b.

Lemma order_changes_prefix ts l :
  Forall (λ c, is_not_remove c = true) ts → order_changes (ts ++ l) = ts ++ order_changes l.
Proof.
  intros Hts. unfold order_changes.
  assert (partition is_not_remove (ts ++ l) = ts ++ partition is_not_remove l) as ->.
  { unfold partition. induction Hts as [|c ts Hc Hts IH]; [done|]. simpl. by rewrite Hc, IH. }
  rewrite find_if_app.
  - rewrite take_app_add, drop_app_add. by rewrite app_assoc.
  - eapply Forall_impl; [exact Hts|]. simpl. by intros c ->.
Qed.

Lemma order_changes_shape l : shape (order_changes l).
Proof.
  destruct (order_changes_spec l) as (l1&l2&->&H1&H2&Hs). exists l1, l2, [].
  rewrite app_nil_r. auto.
Qed.

Lemma shape_snoc l t : shape l → shape (l ++ [AddInitialProperties t]).
Proof.
  intros (a&r&b&->&Ha&Hr&Hs&Hb). exists a, r, (b ++ [AddInitialProperties t]).
  rewrite <-!app_assoc. split_and!; [done..|]. apply Forall_app. auto.
Qed.

(** The step of the second pass *)
Definition column_step (changes : list SchemaChange) (p : option ObjectSchema * option ObjectSchema) :
    list SchemaChange :=
  match p with
  | (Some target, Some existing) => compare_object existing target changes
  | (Some target, None) => changes ++ [AddInitialProperties target]
  | _ => changes
  end.

Lemma column_steps ts zs l :
  Forall (λ c, is_not_remove c = true) ts → shape l →
  ∃ l', foldl column_step (ts ++ l) zs = ts ++ l' ∧ shape l' ∧ l' ≡ₚ l ++ (zs ≫= contribution).
Proof.
  intros Hts. revert l. induction zs as [|z zs IH]; intros l Hl.
  { exists l. by rewrite app_nil_r. }
  change ((z :: zs) ≫= contribution) with (contribution z ++ (zs ≫= contribution)). simpl.
  assert (∃ l1, column_step (ts ++ l) z = ts ++ l1 ∧ shape l1 ∧ l1 ≡ₚ l ++ contribution z) as (l1&->&H1&Hp1).
  { destruct z as [[t|] [e|]]; simpl.
    - exists (order_changes (l ++ object_changes e t [])). unfold compare_object.
      rewrite object_changes_app, (object_changes_app e t []), <-app_assoc, order_changes_prefix by done.
      split; [done|]. split; [apply order_changes_shape|]. apply order_changes_perm.
    - exists (l ++ [AddInitialProperties t]). rewrite app_assoc. split; [done|].
      split; [by apply shape_snoc|done].
    - exists l. by rewrite app_nil_r.
    - exists l. by rewrite app_nil_r. }
  destruct (IH l1 H1) as (l'&->&H'&Hp'). exists l'. split; [done|]. split; [done|].
  by rewrite Hp', Hp1, <-app_assoc.
Qed.

(** The classes of the target that are new *)
Definition new_class (p : option ObjectSchema * option ObjectSchema) : option ObjectSchema :=
  match p with (Some t, None) => Some t | _ => None end.

Lemma compare_shape existing target :
  ∃ l, compare existing target false =
      (AddTable <$> omap new_class (zip_matching target existing)) ++ l ∧
    shape l ∧ l ≡ₚ zip_matching target existing ≫= contribution.
Proof.
  unfold compare. generalize (zip_matching target existing). intros zs.
  assert (∀ l, foldl (λ changes p, match p with
      | (Some target, None) => changes ++ [AddTable target]
      | (None, Some existing) => changes
      | _ => changes end) l zs = l ++ (AddTable <$> omap new_class zs)) as Htables.
  { induction zs as [|[[t|] [e|]] zs IH]; intros l; simpl; [by rewrite app_nil_r| | | |]; rewrite IH; try done.
    by rewrite <-app_assoc. }
  rewrite Htables. cbn [app].
  destruct (column_steps (AddTable <$> omap new_class zs) zs []) as (l&Hl&Hs&Hp).
  - apply Forall_fmap, Forall_forall. done.
  - exists [], [], []. split_and!; [done|constructor..].
  - rewrite app_nil_r in Hl. exists l. done.
Qed.

(** The changes about one class: removals come last, in descending order. *)
Lemma about_shape n l :
  shape l → Forall (λ c, is_initial c = false) (about_class n l) →
  ∃ a r, about_class n l = a ++ r ∧ Forall (λ c, is_not_remove c = true) a ∧
    Forall (λ c, is_not_remove c = false) r ∧ StronglySorted removed_ge r.
Proof.
  intros (a&r&b&->&Ha&Hr&Hs&Hb) Hi. unfold about_class in *. rewrite !filter_app in *.
  exists (filter (λ c, class_of c = n) a), (filter (λ c, class_of c = n) r).
  apply Forall_app in Hi as [_ [_ Hi]%Forall_app].
  assert (filter (λ c, class_of c = n) b = []) as ->.
  { apply filter_none, Forall_forall. intros c Hc E. rewrite Forall_forall in Hi, Hb.
    specialize (Hb c Hc). simpl in Hb. rewrite Hi in Hb; [done|]. by apply list_elem_of_filter. }
  rewrite app_nil_r. split_and!; [done|by apply Forall_filter|by apply Forall_filter|].
  clear -Hs. induction Hs as [|c r Hs IH Hc]; [constructor|]. rewrite filter_cons. case_decide; [|done].
  constructor; [done|]. by apply Forall_filter.
Qed.

Lemma about_perm_class n l1 l2 : l1 ≡ₚ l2 → about_class n l1 ≡ₚ about_class n l2.
Proof. unfold about_class. by intros ->. Qed.
