(* ===== verification/Group.v ===== *)
(** The database core as the object store uses it: the tables of a group, their
    columns, and the cells of the metadata tables.  The core is a library the
    repository only links against; this file is the interface the object store
    is written against, with the documented effect of each operation. *)
From stdpp Require Import strings.
From S2P Require Import Prelude Property.

(** ** Columns *)
Inductive DataType :=
  | type_Int | type_Bool | type_Float | type_Double | type_String | type_Binary | type_Timestamp
  | type_OldDateTime | type_Mixed.

#[export] Instance DataType_eq_dec : EqDecision DataType.
Proof. solve_decision. Defined.

(** A column holds plain values, links to rows of a table, or tables with
    columns of their own. *)
Inductive ColumnKind :=
  | Plain (type : DataType) (nullable : bool)
  | Link (list : bool) (target : string)
  | Subtable (columns : list (string * ColumnKind)).

#[export] Instance ColumnKind_eq_dec : EqDecision ColumnKind.
Proof.
  unfold EqDecision, Decision. fix IH 1. intros [t n|l t|cs] [t' n'|l' t'|cs']; try (right; discriminate).
  - destruct (decide ((t, n) = (t', n'))) as [E|E]; [left|right]; congruence.
  - destruct (decide ((l, t) = (l', t'))) as [E|E]; [left|right]; congruence.
  - assert (Decision (cs = cs')) as [E|E]; [|left; congruence|right; congruence].
    revert cs'. induction cs as [|[n c] cs IHcs]; intros [|[n' c'] cs']; try (left; reflexivity);
      try (right; discriminate).
    destruct (decide (n = n')), (IH c c'), (IHcs cs'); try (left; congruence); right; congruence.
Defined.

Record CoreColumn := mkCoreColumn {
  column_name : string;
  column_kind : ColumnKind;
  has_search_index : bool }.

#[export] Instance CoreColumn_eq_dec : EqDecision CoreColumn.
Proof. solve_decision. Defined.

(** The effect of the operations on the columns of a table *)
Definition set_index (b : bool) (c : CoreColumn) : CoreColumn :=
  mkCoreColumn (column_name c) (column_kind c) b.
Definition set_name (n : string) (c : CoreColumn) : CoreColumn :=
  mkCoreColumn n (column_kind c) (has_search_index c).
Definition inserted {A} (i : nat) (x : A) (l : list A) : list A := take i l ++ x :: drop i l.
Definition removed {A} (i : nat) (l : list A) : list A := take i l ++ drop (S i) l.

Definition object_id_column_name : string := "!OID".

(** ** Operations

    [tables g] are the names of the tables in order, [columns g t] the columns
    of the table [t]; a table reference is the name of its table. *)
Class GroupOps (G : Type) := {
  tables : G → list string;
  columns : G → string → list CoreColumn;
  table_size : G → string → nat;
  get_or_add_table : string → G → G;
  remove_table : string → G → G;
  core_insert_column : string → nat → string → ColumnKind → G → G;
  core_remove_column : string → nat → G → G;
  rename_column : string → nat → string → G → G;
  add_search_index : string → nat → G → G;
  remove_search_index : string → nat → G → G;
  (** [copy_value t type dst src row]: the setter of the type on the getter *)
  copy_value : string → DataType → nat → nat → nat → G → G;
  get_int : G → string → nat → nat → Z;
  set_int : string → nat → nat → Z → G → G;
  (** the values of a column of strings *)
  string_column : G → string → nat → list string;
  set_string : string → nat → nat → string → G → G;
  set_string_unique : string → nat → nat → string → G → G;
  add_empty_row : string → G → G;
  move_last_over : string → nat → G → G;
  distinct_count : G → string → nat → nat;
  (** the functions of [realm::sync] *)
  has_object_ids : G → bool;
  sync_create_table : string → G → G;
  sync_create_table_with_primary_key : string → DataType → string → bool → G → G }.

(** [Group::get_table], [Table::get_column_index] and
    [Table::find_first_string] *)
Definition has_table `{GroupOps G} (g : G) (t : string) : bool := bool_decide (t ∈ tables g).

Definition get_column_index `{GroupOps G} (g : G) (t name : string) : Z :=
  let i := find_if (λ c, bool_decide (column_name c = name)) (columns g t) in
  if (i <? length (columns g t))%nat then Z.of_nat i else npos.

Definition find_first_string `{GroupOps G} (g : G) (t : string) (col : nat) (v : string) : option nat :=
  let i := find_if (λ s, bool_decide (s = v)) (string_column g t col) in
  if (i <? length (string_column g t col))%nat then Some i else None.

(** [move_last_over]: the last value takes the place of the removed one. *)
Definition moved_over {A} (r : nat) (l : list A) : list A :=
  match last l with
  | Some x => take (length l - 1) (<[r := x]> l)
  | None => []
  end.

(** ** Documented behaviour

    [upd t f]: the columns of table [t] change by [f], those of the others stay. *)
Definition upd (t : string) (f : list CoreColumn → list CoreColumn)
    (old new : string → list CoreColumn) : Prop :=
  ∀ u, new u = if decide (u = t) then f (old u) else old u.

Class GroupLaws (G : Type) `{GroupOps G} := {
  tables_get_or_add t g :
    tables (get_or_add_table t g) = if has_table g t then tables g else tables g ++ [t];
  columns_get_or_add t g : ¬ t ∈ tables g → upd t (λ _, []) (columns g) (columns (get_or_add_table t g));
  get_or_add_present t g : t ∈ tables g → get_or_add_table t g = g;

  tables_insert_column t i n k g : tables (core_insert_column t i n k g) = tables g;
  columns_insert_column t i n k g :
    t ∈ tables g → (i ≤ length (columns g t))%nat →
    upd t (inserted i (mkCoreColumn n k false)) (columns g) (columns (core_insert_column t i n k g));
  tables_remove_column t i g : tables (core_remove_column t i g) = tables g;
  columns_remove_column t i g :
    t ∈ tables g → (i < length (columns g t))%nat →
    upd t (removed i) (columns g) (columns (core_remove_column t i g));
  tables_rename_column t i n g : tables (rename_column t i n g) = tables g;
  columns_rename_column t i n g :
    t ∈ tables g → (i < length (columns g t))%nat →
    upd t (alter (set_name n) i) (columns g) (columns (rename_column t i n g));
  tables_add_index t i g : tables (add_search_index t i g) = tables g;
  columns_add_index t i g :
    t ∈ tables g → (i < length (columns g t))%nat →
    upd t (alter (set_index true) i) (columns g) (columns (add_search_index t i g));
  tables_remove_index t i g : tables (remove_search_index t i g) = tables g;
  columns_remove_index t i g :
    t ∈ tables g → (i < length (columns g t))%nat →
    upd t (alter (set_index false) i) (columns g) (columns (remove_search_index t i g));

  tables_copy_value t ty d s r g : tables (copy_value t ty d s r g) = tables g;
  columns_copy_value t ty d s r g u : columns (copy_value t ty d s r g) u = columns g u;
  tables_set_int t c r v g : tables (set_int t c r v g) = tables g;
  columns_set_int t c r v g u : columns (set_int t c r v g) u = columns g u;
  tables_set_string t c r v g : tables (set_string t c r v g) = tables g;
  columns_set_string t c r v g u : columns (set_string t c r v g) u = columns g u;
  tables_set_string_unique t c r v g : tables (set_string_unique t c r v g) = tables g;
  columns_set_string_unique t c r v g u : columns (set_string_unique t c r v g) u = columns g u;
  tables_add_empty_row t g : tables (add_empty_row t g) = tables g;
  columns_add_empty_row t g u : columns (add_empty_row t g) u = columns g u;
  tables_move_last_over t r g : tables (move_last_over t r g) = tables g;
  columns_move_last_over t r g u : columns (move_last_over t r g) u = columns g u;

  (** cells *)
  get_set_int t c r v g :
    t ∈ tables g → (c < length (columns g t))%nat → (r < table_size g t)%nat →
    get_int (set_int t c r v g) t c r = v;
  table_size_add_row t g u :
    t ∈ tables g →
    table_size (add_empty_row t g) u = if decide (u = t) then S (table_size g t) else table_size g u;
  table_size_get_or_add t g u : t ≠ u → table_size (get_or_add_table t g) u = table_size g u;
  table_size_insert_column t i n k g u : table_size (core_insert_column t i n k g) u = table_size g u;
  table_size_add_index t i g u : table_size (add_search_index t i g) u = table_size g u;
  table_size_set_int t c r v g u : table_size (set_int t c r v g) u = table_size g u;
  string_set_string t c r v g u d :
    string_column (set_string t c r v g) u d =
      if decide (u = t ∧ d = c) then <[r := v]> (string_column g t c) else string_column g u d;
  string_set_unique t c r v g u d :
    (∀ i, string_column g t c !! i = Some v → i = r) →
    string_column (set_string_unique t c r v g) u d = string_column (set_string t c r v g) u d;
  string_add_row t g u d :
    u ∈ tables g → (d < length (columns g u))%nat →
    string_column (add_empty_row t g) u d =
      if decide (u = t) then string_column g u d ++ [""] else string_column g u d;
  string_move_last_over t r g u d :
    string_column (move_last_over t r g) u d =
      if decide (u = t) then moved_over r (string_column g u d) else string_column g u d;
  string_length t c g :
    t ∈ tables g → (c < length (columns g t))%nat → length (string_column g t c) = table_size g t;

  (** A new table has an object id column, if the file has object ids, and the
      primary key column; the table of primary keys is created if it is missing. *)
  tables_sync_create t g : ¬ t ∈ tables g → tables (sync_create_table t g) ≡ₚ t :: tables g;
  columns_sync_create t g : ¬ t ∈ tables g →
    ∃ ids, (length ids ≤ 1)%nat ∧ Forall (λ c, column_name c = object_id_column_name) ids ∧
      upd t (λ _, ids) (columns g) (columns (sync_create_table t g));
  tables_sync_create_key t ty n nl g :
    ¬ t ∈ tables g → "pk" ∈ tables g →
    tables (sync_create_table_with_primary_key t ty n nl g) ≡ₚ t :: tables g;
  columns_sync_create_key t ty n nl g : ¬ t ∈ tables g → "pk" ∈ tables g →
    ∃ ids indexed, (length ids ≤ 1)%nat ∧ Forall (λ c, column_name c = object_id_column_name) ids ∧
      upd t (λ _, ids ++ [mkCoreColumn n (Plain ty nl) indexed]) (columns g)
        (columns (sync_create_table_with_primary_key t ty n nl g)) }.
