(* ===== verification/GroupMemory.v ===== *)
(** A group in memory: tables with rows of cells.  It meets the interface of
    the database core, so that the theorems about the object store can be
    evaluated on concrete files. *)
From stdpp Require Import strings.
From S2P Require Import Prelude Property Group.

(** A cell holds an integer and a string; a row gives the cell of each column. *)
Definition Cell : Type := Z * string.
Definition Row : Type := nat → Cell.

Record MemTable := mkTable { mt_name : string; mt_columns : list CoreColumn; mt_rows : list Row }.

Definition MemGroup : Type := list MemTable.

Definition empty_cell : Cell := (0, "").

Definition set_cell (c : nat) (f : Cell → Cell) (row : Row) : Row :=
  λ d, if (d =? c)%nat then f (row d) else row d.

Definition insert_cell (i : nat) (row : Row) : Row :=
  λ d, if (d <? i)%nat then row d else if (d =? i)%nat then empty_cell else row (d - 1)%nat.

Definition remove_cell (i : nat) (row : Row) : Row :=
  λ d, if (d <? i)%nat then row d else row (S d).

Definition lookup_table (g : MemGroup) (t : string) : option MemTable :=
  snd <$> list_find (λ m, mt_name m = t) g.

Definition update_table (f : MemTable → MemTable) (t : string) (g : MemGroup) : MemGroup :=
  (λ m, if decide (mt_name m = t) then f m else m) <$> g.

Definition on_columns (f : list CoreColumn → list CoreColumn) (h : Row → Row) (m : MemTable) : MemTable :=
  mkTable (mt_name m) (f (mt_columns m)) (h <$> mt_rows m).

Definition on_rows (f : list Row → list Row) (m : MemTable) : MemTable :=
  mkTable (mt_name m) (mt_columns m) (f (mt_rows m)).

Definition mem_tables (g : MemGroup) : list string := mt_name <$> g.
Definition mem_rows (g : MemGroup) (t : string) : list Row := from_option mt_rows [] (lookup_table g t).
Definition mem_columns (g : MemGroup) (t : string) : list CoreColumn :=
  from_option mt_columns [] (lookup_table g t).

Definition mem_add (t : string) (cs : list CoreColumn) (g : MemGroup) : MemGroup :=
  if bool_decide (t ∈ mem_tables g) then g else g ++ [mkTable t cs []].

Definition mem_strings (g : MemGroup) (t : string) (c : nat) : list string :=
  (λ row : Row, (row c).2) <$> mem_rows g t.

Definition mem_set_string (t : string) (c r : nat) (v : string) : MemGroup → MemGroup :=
  update_table (on_rows (alter (set_cell c (λ x, (x.1, v))) r)) t.

Definition mem_move_last_over (t : string) (r : nat) : MemGroup → MemGroup :=
  update_table (on_rows (moved_over r)) t.

(** The row of the table of primary keys, for a table named [class_...] *)
Definition mem_record_key (t n : string) : MemGroup → MemGroup :=
  update_table (on_rows (λ rows, rows ++
    [λ c, (0, if (c =? 0)%nat then String.substring 6 (String.length t - 6) t else n)])) "pk".

#[export] Instance mem_ops : GroupOps MemGroup := {
  tables := mem_tables;
  columns := mem_columns;
  table_size g t := length (mem_rows g t);
  get_or_add_table t g := mem_add t [] g;
  remove_table t g := filter (λ m, mt_name m ≠ t) g;
  core_insert_column t i n k :=
    update_table (on_columns (inserted i (mkCoreColumn n k false)) (insert_cell i)) t;
  core_remove_column t i := update_table (on_columns (removed i) (remove_cell i)) t;
  rename_column t i n := update_table (on_columns (alter (set_name n) i) id) t;
  add_search_index t i := update_table (on_columns (alter (set_index true) i) id) t;
  remove_search_index t i := update_table (on_columns (alter (set_index false) i) id) t;
  copy_value t _ dst src r :=
    update_table (on_rows (alter (λ row, set_cell dst (λ _, row src) row) r)) t;
  get_int g t c r := from_option (λ row : Row, (row c).1) 0 (mem_rows g t !! r);
  set_int t c r v := update_table (on_rows (alter (set_cell c (λ x, (v, x.2))) r)) t;
  string_column := mem_strings;
  set_string := mem_set_string;
  set_string_unique t c r v g :=
    if decide (Forall (λ i, mem_strings g t c !! i = Some v → i = r) (seq 0 (length (mem_rows g t))))
    then mem_set_string t c r v g else mem_move_last_over t r g;
  add_empty_row t := update_table (on_rows (λ rows, rows ++ [λ _, empty_cell])) t;
  move_last_over := mem_move_last_over;
  distinct_count g t c := length (remove_dups ((λ row : Row, row c) <$> mem_rows g t));
  has_object_ids _ := false;
  sync_create_table t g := mem_add t [] g;
  sync_create_table_with_primary_key t ty n nl g := 
    mem_record_key t n (mem_add t [mkCoreColumn n (Plain ty nl) true] g) }.

(** ** The laws *)
Lemma lookup_cons m g t :
  lookup_table (m :: g) t = if decide (mt_name m = t) then Some m else lookup_table g t.
Proof. unfold lookup_table. simpl. case_decide; [done|]. by destruct (list_find _ g) as [[]|]. Qed.

Lemma lookup_update f t g u :
  (∀ m, mt_name (f m) = mt_name m) →
  lookup_table (update_table f t g) u = if decide (u = t) then f <$> lookup_table g t else lookup_table g u.
Proof.
  intros Hf. induction g as [|m g IH]; [by case_decide|].
  change (update_table f t (m :: g)) with
    ((if decide (mt_name m = t) then f m else m) :: update_table f t g).
  rewrite !lookup_cons, IH. destruct (decide (mt_name m = t)) as [<-|Hm].
  - rewrite Hf. destruct (decide (u = mt_name m)) as [->|Hu]; [by rewrite decide_True|].
    by rewrite !decide_False by congruence.
  - destruct (decide (u = t)) as [->|Hu]; [by rewrite !decide_False|done].
Qed.

Lemma lookup_add t cs g u :
  ¬ t ∈ mem_tables g →
  lookup_table (mem_add t cs g) u = if decide (u = t) then Some (mkTable t cs []) else lookup_table g u.
Proof.
  intros Ht. unfold mem_add. rewrite bool_decide_false by done.
  induction g as [|m g IH].
  - simpl. rewrite lookup_cons. simpl. repeat case_decide; congruence.
  - unfold mem_tables in *. rewrite fmap_cons, elem_of_cons in Ht. simpl. rewrite !lookup_cons, IH by tauto.
    repeat case_decide; try done. subst. tauto.
Qed.

Lemma lookup_Some t g : t ∈ mem_tables g → ∃ m, lookup_table g t = Some m.
Proof.
  unfold mem_tables. induction g as [|m g IH]; intros Ht; [by apply elem_of_nil in Ht|].
  rewrite fmap_cons, elem_of_cons in Ht. rewrite lookup_cons. case_decide; [by eexists|]. apply IH.
  destruct Ht as [->|]; [done|done].
Qed.

Lemma mem_tables_update f t g : (∀ m, mt_name (f m) = mt_name m) → mem_tables (update_table f t g) = mem_tables g.
Proof.
  intros Hf. unfold mem_tables, update_table. rewrite <-list_fmap_compose. apply list_fmap_ext.
  intros i m _. simpl. by case_decide.
Qed.

Lemma mem_columns_update f h t g :
  t ∈ mem_tables g → upd t f (mem_columns g) (mem_columns (update_table (on_columns f h) t g)).
Proof.
  intros Ht u. unfold mem_columns. rewrite lookup_update by done.
  destruct (lookup_Some t g Ht) as [m Hm]. case_decide; [|done]. subst. by rewrite Hm.
Qed.

Lemma mem_columns_rows f t g u : mem_columns (update_table (on_rows f) t g) u = mem_columns g u.
Proof.
  unfold mem_columns. rewrite lookup_update by done. case_decide; [subst|done].
  by destruct (lookup_table g t).
Qed.

Lemma mem_rows_update f t g u :
  mem_rows (update_table (on_rows f) t g) u =
    if decide (u = t) then from_option (f ∘ mt_rows) [] (lookup_table g t) else mem_rows g u.
Proof. unfold mem_rows. rewrite lookup_update by done. case_decide; [|done]. by destruct (lookup_table g t). Qed.

Lemma mem_rows_columns f h t g u :
  mem_rows (update_table (on_columns f h) t g) u =
    if decide (u = t) then h <$> mem_rows g t else mem_rows g u.
Proof.
  unfold mem_rows. rewrite lookup_update by done. case_decide; [|done]. by destruct (lookup_table g t).
Qed.

Lemma mem_rows_some t g m : lookup_table g t = Some m → mem_rows g t = mt_rows m.
Proof. unfold mem_rows. by intros ->. Qed.

Lemma set_cell_eq c f row : set_cell c f row c = f (row c).
Proof. unfold set_cell. by rewrite Nat.eqb_refl. Qed.

Lemma set_cell_ne c f row d : d ≠ c → set_cell c f row d = row d.
Proof. unfold set_cell. intros H. by apply Nat.eqb_neq in H as ->. Qed.

Lemma fmap_moved_over {A B} (f : A → B) r l : f <$> moved_over r l = moved_over r (f <$> l).
Proof.
  unfold moved_over. rewrite fmap_last. destruct (last l); [|done]. simpl.
  by rewrite fmap_take, list_fmap_insert, length_fmap.
Qed.

Lemma mem_strings_set t c r v g u d :
  mem_strings (mem_set_string t c r v g) u d =
    if decide (u = t ∧ d = c) then <[r := v]> (mem_strings g t c) else mem_strings g u d.
Proof.
  unfold mem_strings, mem_set_string. rewrite mem_rows_update.
  destruct (decide (u = t)) as [->|Hu]; [|by rewrite decide_False by naive_solver].
  unfold mem_rows. destruct (lookup_table g t) as [m|]; simpl; [|by case_decide].
  generalize (mt_rows m). intros rows. apply list_eq. intros i.
  rewrite list_lookup_fmap. case_decide as E.
  - destruct E as [_ ->]. destruct (decide (i = r)) as [->|Hi].
    + destruct (rows !! r) as [row|] eqn:Hr.
      * rewrite list_lookup_alter_eq, Hr. simpl. rewrite set_cell_eq, list_lookup_insert_eq; [done|].
        rewrite length_fmap. by eapply lookup_lt_Some.
      * rewrite list_lookup_alter_eq, Hr. simpl. rewrite list_insert_ge, list_lookup_fmap, Hr; [done|].
        rewrite length_fmap. by apply lookup_ge_None.
    + by rewrite list_lookup_alter_ne, list_lookup_insert_ne, list_lookup_fmap by done.
  - rewrite list_lookup_fmap. destruct (decide (i = r)) as [->|Hi].
    + rewrite list_lookup_alter_eq. destruct (rows !! r); [|done]. simpl.
      rewrite set_cell_ne; [done|]. intros ->. by destruct E.
    + by rewrite list_lookup_alter_ne by done.
Qed.

Lemma on_rows_cases t c r v g :
  set_string_unique t c r v g = mem_set_string t c r v g ∨
  set_string_unique t c r v g = mem_move_last_over t r g.
Proof. simpl. case_decide; auto. Qed.

Lemma mem_tables_add t cs g :
  mem_tables (mem_add t cs g) = if has_table g t then mem_tables g else mem_tables g ++ [t].
Proof.
  unfold mem_add, has_table. simpl. case_bool_decide; [done|]. unfold mem_tables. by rewrite fmap_app.
Qed.

Lemma mem_columns_add t cs g :
  ¬ t ∈ mem_tables g → upd t (λ _, cs) (mem_columns g) (mem_columns (mem_add t cs g)).
Proof. intros Ht u. unfold mem_columns. rewrite lookup_add by done. by case_decide. Qed.

Lemma mem_add_perm t cs g : ¬ t ∈ mem_tables g → mem_tables (mem_add t cs g) ≡ₚ t :: mem_tables g.
Proof.
  intros Ht. rewrite mem_tables_add. unfold has_table. simpl. rewrite bool_decide_false by done.
  rewrite Permutation_app_comm. done.
Qed.

#[export] Instance mem_laws : GroupLaws MemGroup.
Proof.
  split.
  - intros. apply mem_tables_add.
  - intros. by apply mem_columns_add.
  - intros t g Ht. simpl. unfold mem_add. by rewrite bool_decide_true.
  - intros. by apply mem_tables_update.
  - intros. by apply mem_columns_update.
  - intros. by apply mem_tables_update.
  - intros. by apply mem_columns_update.
  - intros. by apply mem_tables_update.
  - intros. by apply mem_columns_update.
  - intros. by apply mem_tables_update.
  - intros. by apply mem_columns_update.
  - intros. by apply mem_tables_update.
  - intros. by apply mem_columns_update.
  - intros. by apply mem_tables_update.
  - intros. by apply mem_columns_rows.
  - intros. by apply mem_tables_update.
  - intros. by apply mem_columns_rows.
  - intros. by apply mem_tables_update.
  - intros. by apply mem_columns_rows.
  - intros t c r v g. destruct (on_rows_cases t c r v g) as [-> | ->]; by apply mem_tables_update.
  - intros t c r v g u. destruct (on_rows_cases t c r v g) as [-> | ->]; by apply mem_columns_rows.
  - intros. by apply mem_tables_update.
  - intros. by apply mem_columns_rows.
  - intros. by apply mem_tables_update.
  - intros. by apply mem_columns_rows.
  - intros t c r v g Ht _ Hr. simpl in *. rewrite mem_rows_update, decide_True by done.
    destruct (lookup_Some t g Ht) as [m Hm]. rewrite (mem_rows_some t g m Hm) in Hr. rewrite Hm. simpl.
    apply lookup_lt_is_Some in Hr as [row Hr]. rewrite list_lookup_alter_eq, Hr. simpl. by rewrite set_cell_eq.
  - intros t g u Ht. simpl. rewrite mem_rows_update. case_decide; [subst|done].
    destruct (lookup_Some t g Ht) as [m Hm]. rewrite (mem_rows_some t g m Hm), Hm. simpl.
    rewrite length_app. simpl. lia.
  - intros t g u Hu. simpl. unfold mem_rows, mem_add. case_bool_decide; [done|].
    pose proof (lookup_add t [] g u) as Hl. unfold mem_add in Hl. rewrite bool_decide_false in Hl by done.
    rewrite Hl by done. by case_decide.
  - intros t i n k g u. simpl. rewrite mem_rows_columns. case_decide; [subst|done]. by rewrite length_fmap.
  - intros t i g u. simpl. rewrite mem_rows_columns. case_decide; [subst|done]. by rewrite length_fmap.
  - intros t c r v g u. simpl. rewrite mem_rows_update. case_decide; [subst|done]. unfold mem_rows.
    destruct (lookup_table g t); simpl; [by rewrite length_alter|done].
  - intros. apply mem_strings_set.
  - intros t c r v g u d Hv. simpl in *. rewrite decide_True; [done|].
    apply Forall_forall. intros i _. apply Hv.
  - intros t g u d Hu _. simpl. unfold mem_strings. rewrite mem_rows_update. case_decide; [subst|done].
    destruct (lookup_Some t g Hu) as [m Hm]. rewrite (mem_rows_some t g m Hm), Hm. simpl. by rewrite fmap_app.
  - intros t r g u d. simpl. unfold mem_strings, mem_move_last_over. rewrite mem_rows_update.
    case_decide; [subst|done]. unfold mem_rows. destruct (lookup_table g t); [|done]. simpl. apply fmap_moved_over.
  - intros. simpl. unfold mem_strings. apply length_fmap.
  - intros. by apply mem_add_perm.
  - intros t g Ht. exists []. split; [simpl; lia|]. split; [constructor|]. by apply mem_columns_add.
  - intros. simpl. unfold mem_record_key. rewrite mem_tables_update by done. by apply mem_add_perm.
  - intros t ty n nl g Ht _. exists [], true. split; [simpl; lia|]. split; [constructor|]. intros u. simpl.
    unfold mem_record_key. rewrite mem_columns_rows. by apply mem_columns_add.
Qed.
