(* ===== verification/ObjectStore.v ===== *)
(** [ObjectStore] (ObjectStore/src/object_store.cpp): reading the schema of a
    file, verifying and applying schema changes, renaming properties.  The file
    is a value of a type with the operations of [GroupOps]. *)
From stdpp Require Import strings.
From S2P Require Import Prelude Property Schema Group.
Import Schema.

(** ** Exceptions *)
Inductive StoreError :=
  | Undefined (** a failed assertion or an invalid access *)
  | SchemaMismatch (errors : list ValidationError)
  | InvalidSchemaChange (errors : list ValidationError)
  | InvalidExternalSchemaChange (errors : list ValidationError)
  | DuplicatePrimaryKeyValue (object_type property : string)
  | LogicError (error : ValidationError).

#[export] Instance ValidationError_eq_dec : EqDecision ValidationError.
Proof. solve_decision. Defined.

#[export] Instance StoreError_eq_dec : EqDecision StoreError.
Proof. solve_decision. Defined.

Definition Result (A : Type) : Type := A + StoreError.

#[export] Instance Result_eq_dec {A} `{EqDecision A} : EqDecision (Result A).
Proof. unfold Result. apply _. Defined.

#[export] Instance Result_ret : MRet Result := λ A x, inl x.
#[export] Instance Result_bind : MBind Result := λ A B f m,
  match m with inl x => f x | inr e => inr e end.

(** Whether the build has the synchronisation code ([REALM_ENABLE_SYNC]) *)
Class SyncBuild := sync_enabled : bool.

Definition assert (b : bool) : Result () := if b then inl () else inr Undefined.

Fixpoint fold_result {A B} (f : B → A → Result B) (b : B) (l : list A) : Result B :=
  match l with
  | [] => inl b
  | x :: l => b' ← f b x; fold_result f b' l
  end.

Module ObjectStore.
Definition NotVersioned : Z := 18446744073709551615.
Definition ArrayColumnName : string := "!ARRAY_VALUE".

Definition c_metadataTableName : string := "metadata".
Definition c_versionColumnName : string := "version".
Definition c_versionColumnIndex : nat := 0.
Definition c_primaryKeyTableName : string := "pk".
Definition c_primaryKeyObjectClassColumnName : string := "pk_table".
Definition c_primaryKeyObjectClassColumnIndex : nat := 0.
Definition c_primaryKeyPropertyNameColumnName : string := "pk_property".
Definition c_primaryKeyPropertyNameColumnIndex : nat := 1.
Definition c_zeroRowIndex : nat := 0.
Definition c_object_table_prefix : string := "class_".

(** ** Names of tables *)
Definition table_name_for_object_type (object_type : string) : string :=
  c_object_table_prefix +:+ object_type.

(** The empty string stands for the null [StringData]. *)
Definition object_type_for_table_name (table_name : string) : string :=
  if String.prefix c_object_table_prefix table_name
  then String.substring (String.length c_object_table_prefix)
         (String.length table_name - String.length c_object_table_prefix) table_name
  else "".

(** ** The explainer of schema differences: one call of its operator *)
Definition explain (op : SchemaChange) : list ValidationError :=
  match op with
  | AddTable object => [mkError "Class '%1' has been added." [Some (class_name object)]]
  | RemoveTable _ => []
  | AddInitialProperties _ => []
  | AddProperty object property =>
      [mkError "Property '%1.%2' has been added." [Some (class_name object); Some (prop_name property)]]
  | RemoveProperty object property =>
      [mkError "Property '%1.%2' has been removed." [Some (class_name object); Some (prop_name property)]]
  | ChangePropertyType object old_property new_property =>
      [mkError "Property '%1.%2' has been changed from '%3' to '%4'."
         [Some (class_name object); Some (prop_name new_property);
          Property.type_string old_property; Property.type_string new_property]]
  | MakePropertyNullable object property =>
      [mkError "Property '%1.%2' has been made optional."
         [Some (class_name object); Some (prop_name property)]]
  | MakePropertyRequired object property =>
      [mkError "Property '%1.%2' has been made required."
         [Some (class_name object); Some (prop_name property)]]
  | ChangePrimaryKey object (Some property) =>
      if negb (bool_decide (primary_key object = ""))
      then [mkError "Primary Key for class '%1' has changed from '%2' to '%3'."
              [Some (class_name object); Some (primary_key object); Some (prop_name property)]]
      else [mkError "Primary Key for class '%1' has been added." [Some (class_name object)]]
  | ChangePrimaryKey object None =>
      [mkError "Primary Key for class '%1' has been removed." [Some (class_name object)]]
  | AddIndex object property =>
      [mkError "Property '%1.%2' has been made indexed."
         [Some (class_name object); Some (prop_name property)]]
  | RemoveIndex object property =>
      [mkError "Property '%1.%2' has been made unindexed."
         [Some (class_name object); Some (prop_name property)]]
  end.

(** [verify_no_errors]: a verifier is a step on its flags and errors. *)
Definition verify_no_errors {F} (error : list ValidationError → StoreError)
    (visit : F * list ValidationError → SchemaChange → F * list ValidationError)
    (flags : F) (changes : list SchemaChange) : Result F :=
  let verifier := foldl visit (flags, []) changes in
  if negb (bool_decide (verifier.2 = [])) then inr (error verifier.2) else inl verifier.1.

(** A verifier without flags that appends the errors of each change *)
Definition append_errors (errors : SchemaChange → list ValidationError)
    (v : () * list ValidationError) (op : SchemaChange) : () * list ValidationError :=
  (v.1, v.2 ++ errors op).

Definition needs_migration_visitor (op : SchemaChange) : bool :=
  match op with
  | AddIndex _ _ | AddInitialProperties _ | AddTable _ | RemoveTable _ | RemoveIndex _ _ => false
  | AddProperty _ _ | ChangePrimaryKey _ _ | ChangePropertyType _ _ _ | MakePropertyNullable _ _
  | MakePropertyRequired _ _ | RemoveProperty _ _ => true
  end.

Definition needs_migration (changes : list SchemaChange) : bool := existsb needs_migration_visitor changes.

Definition verify_no_changes_required (changes : list SchemaChange) : Result () :=
  verify_no_errors SchemaMismatch (append_errors explain) () changes.

Definition no_migration_errors (op : SchemaChange) : list ValidationError :=
  match op with
  | AddTable _ | AddInitialProperties _ | AddIndex _ _ | RemoveIndex _ _ => []
  | _ => explain op
  end.

Definition verify_no_migration_required (changes : list SchemaChange) : Result () :=
  verify_no_errors SchemaMismatch (append_errors no_migration_errors) () changes.

(** Flags: [index_changes] and [other_changes] *)
Definition additive_visitor (v : (bool * bool) * list ValidationError) (op : SchemaChange) :
    (bool * bool) * list ValidationError :=
  let '(index_changes, other_changes, errors) := v in
  match op with
  | AddTable _ | AddInitialProperties _ | AddProperty _ _ => (index_changes, true, errors)
  | RemoveProperty _ _ => v
  | AddIndex _ _ | RemoveIndex _ _ => (true, other_changes, errors)
  | _ => (index_changes, other_changes, errors ++ explain op)
  end.

Definition verify_valid_additive_changes (changes : list SchemaChange) (update_indexes : bool) : Result bool :=
  flags ← verify_no_errors InvalidSchemaChange additive_visitor (false, false) changes;
  inl (flags.2 || flags.1 && update_indexes).

Definition external_errors (op : SchemaChange) : list ValidationError :=
  match op with
  | AddTable _ | AddInitialProperties _ | AddProperty _ _ | AddIndex _ _ | RemoveIndex _ _ => []
  | RemoveTable object => [mkError "Class '%1' has been removed." [Some (class_name object)]]
  | _ => explain op
  end.

Definition verify_valid_external_changes (changes : list SchemaChange) : Result () :=
  verify_no_errors InvalidExternalSchemaChange (append_errors external_errors) () changes.

Definition immutable_errors (op : SchemaChange) : list ValidationError :=
  match op with
  | AddTable _ | AddInitialProperties _ | RemoveProperty _ _ | AddIndex _ _ | RemoveIndex _ _ => []
  | _ => explain op
  end.

Definition verify_compatible_for_immutable_and_readonly (changes : list SchemaChange) : Result () :=
  verify_no_errors InvalidSchemaChange (append_errors immutable_errors) () changes.

(** ** Columns *)

(** The default is unreachable; asserts that the type is not a link and not
    [Any]. *)
Definition to_core_type (type : PropertyType) : Result DataType :=
  _ ← assert (negb (PT.eqb type PT.Object));
  _ ← assert (negb (PT.eqb type PT.Any));
  let b := PT.base type in
  if b =? PT.Int then inl type_Int
  else if b =? PT.Bool then inl type_Bool
  else if b =? PT.Float then inl type_Float
  else if b =? PT.Double then inl type_Double
  else if b =? PT.String_ then inl type_String
  else if b =? PT.Date then inl type_Timestamp
  else if b =? PT.Data then inl type_Binary
  else inr Undefined.

(** [ObjectSchema::from_core_type]; a table without columns has no type of
    column 0, and the default is unreachable. *)
Fixpoint from_core_type (kind : ColumnKind) : option PropertyType :=
  match kind with
  | Plain type nullable =>
      let optional := if nullable then PT.Nullable else PT.Required in
      match type with
      | type_Int => Some (PT.or_ PT.Int optional)
      | type_Float => Some (PT.or_ PT.Float optional)
      | type_Double => Some (PT.or_ PT.Double optional)
      | type_Bool => Some (PT.or_ PT.Bool optional)
      | type_String => Some (PT.or_ PT.String_ optional)
      | type_Binary => Some (PT.or_ PT.Data optional)
      | type_Timestamp => Some (PT.or_ PT.Date optional)
      | type_Mixed => Some (PT.or_ PT.Any optional)
      | type_OldDateTime => None
      end
  | Link false _ => Some (PT.or_ PT.Object PT.Nullable)
  | Link true _ => Some (PT.or_ PT.Object PT.Array)
  | Subtable ((_, k) :: _) => (λ t, PT.or_ t PT.Array) <$> from_core_type k
  | Subtable [] => None
  end.

Section Store.
Context {platform : CharSign} {sync : SyncBuild} {G : Type} {ops : GroupOps G}.
Implicit Types g : G.

Definition insert_column (table : string) (property : Property) (col_ndx : nat) g : Result G :=
  _ ← assert (negb (PT.eqb (prop_type property) PT.LinkingObjects));
  if PT.eqb (prop_type property) PT.Object then
    let target_name := table_name_for_object_type (object_type property) in
    _ ← assert (has_table g target_name);
    inl (core_insert_column table col_ndx (prop_name property)
           (Link (PT.is_array (prop_type property)) target_name) g)
  else if PT.is_array (prop_type property) then
    type ← to_core_type (PT.base (prop_type property));
    inl (core_insert_column table col_ndx (prop_name property)
           (Subtable [(ArrayColumnName, Plain type (PT.is_nullable (prop_type property)))]) g)
  else
    type ← to_core_type (prop_type property);
    let g := core_insert_column table col_ndx (prop_name property)
               (Plain type (PT.is_nullable (prop_type property))) g in
    inl (if Property.requires_index property then add_search_index table col_ndx g else g).

Definition add_column (table : string) (property : Property) g : Result G :=
  insert_column table property (length (columns g table)) g.

Definition replace_column (table : string) (old_property new_property : Property) g : Result G :=
  g ← insert_column table new_property (Z.to_nat (table_column old_property)) g;
  inl (core_remove_column table (Z.to_nat (table_column old_property +w 1)) g).

(** The getter and setter chosen by the type; none for links and [Any] *)
Definition copied_type (type : PropertyType) : option DataType :=
  let b := PT.base type in
  if b =? PT.Int then Some type_Int
  else if b =? PT.Bool then Some type_Bool
  else if b =? PT.Float then Some type_Float
  else if b =? PT.Double then Some type_Double
  else if b =? PT.String_ then Some type_String
  else if b =? PT.Data then Some type_Binary
  else if b =? PT.Date then Some type_Timestamp
  else None.

Definition copy_property_values (prop : Property) (table : string) g : G :=
  match copied_type (prop_type prop) with
  | Some type =>
      foldl (λ g i, copy_value table type (Z.to_nat (table_column prop))
                      (Z.to_nat (table_column prop +w 1)) i g)
        g (seq 0 (table_size g table))
  | None => g
  end.

Definition make_property_optional (table : string) (property : Property) g : Result G :=
  let property := Property.with_type property (PT.or_ (prop_type property) PT.Nullable) in
  g ← insert_column table property (Z.to_nat (table_column property)) g;
  let g := copy_property_values property table g in
  inl (core_remove_column table (Z.to_nat (table_column property +w 1)) g).

Definition make_property_required (table : string) (property : Property) g : Result G :=
  let property := Property.with_type property (PT.and_ (prop_type property) (PT.not_ PT.Nullable)) in
  g ← insert_column table property (Z.to_nat (table_column property)) g;
  inl (core_remove_column table (Z.to_nat (table_column property +w 1)) g).

(** ** Metadata *)

(** [int64_t] and [uint64_t] *)
Definition to_int64 (v : Z) : Z := if v <? 9223372036854775808 then v else v - size_modulus.

Definition create_metadata_tables g : G :=
  let g := get_or_add_table c_primaryKeyTableName g in
  let g := get_or_add_table c_metadataTableName g in
  let g :=
    if (length (columns g c_metadataTableName) =? 0)%nat then
      let g := core_insert_column c_metadataTableName c_versionColumnIndex c_versionColumnName
                 (Plain type_Int false) g in
      let g := add_empty_row c_metadataTableName g in
      set_int c_metadataTableName c_versionColumnIndex c_zeroRowIndex (to_int64 NotVersioned) g
    else g in
  let g :=
    if (length (columns g c_primaryKeyTableName) =? 0)%nat then
      let g := core_insert_column c_primaryKeyTableName c_primaryKeyObjectClassColumnIndex
                 c_primaryKeyObjectClassColumnName (Plain type_String false) g in
      core_insert_column c_primaryKeyTableName c_primaryKeyPropertyNameColumnIndex
        c_primaryKeyPropertyNameColumnName (Plain type_String false) g
    else g in
  add_search_index c_primaryKeyTableName c_primaryKeyObjectClassColumnIndex g.

(** The function of the anonymous namespace; a missing table is dereferenced. *)
Definition write_schema_version (version : Z) g : Result G :=
  _ ← assert (has_table g c_metadataTableName);
  inl (set_int c_metadataTableName c_versionColumnIndex c_zeroRowIndex (to_int64 version) g).

Definition set_schema_version (version : Z) g : Result G :=
  write_schema_version version (create_metadata_tables g).

Definition get_schema_version g : Z :=
  if negb (has_table g c_metadataTableName) || (length (columns g c_metadataTableName) =? 0)%nat
  then NotVersioned
  else wrap (get_int g c_metadataTableName c_versionColumnIndex c_zeroRowIndex).

Definition pk_string g (col row : nat) : string :=
  default "" (string_column g c_primaryKeyTableName col !! row).

Definition get_primary_key_for_object g (object_type : string) : string :=
  if negb (has_table g c_primaryKeyTableName) then "" else
  match find_first_string g c_primaryKeyTableName c_primaryKeyObjectClassColumnIndex object_type with
  | None => ""
  | Some row => pk_string g c_primaryKeyPropertyNameColumnIndex row
  end.

Definition set_primary_key_for_object (object_type primary_key : string) g : Result G :=
  _ ← assert (has_table g c_primaryKeyTableName);
  let row := find_first_string g c_primaryKeyTableName c_primaryKeyObjectClassColumnIndex object_type in
  let no_key := bool_decide (primary_key = "") in
  if sync_enabled && has_object_ids g then
    _ ← (if no_key then assert (bool_decide (row = None)) else
         match row with
         | None => inr Undefined
         | Some row =>
             assert (bool_decide (pk_string g c_primaryKeyPropertyNameColumnIndex row = primary_key))
         end);
    inl g
  else match row with
  | None =>
      if no_key then inl g else
      let row := table_size g c_primaryKeyTableName in
      let g := add_empty_row c_primaryKeyTableName g in
      let g := set_string_unique c_primaryKeyTableName c_primaryKeyObjectClassColumnIndex row object_type g in
      inl (set_string c_primaryKeyTableName c_primaryKeyPropertyNameColumnIndex row primary_key g)
  | Some row =>
      if no_key then inl (move_last_over c_primaryKeyTableName row g)
      else inl (set_string c_primaryKeyTableName c_primaryKeyPropertyNameColumnIndex row primary_key g)
  end.

(** ** Tables *)
Definition create_table (object_schema : ObjectSchema) g : Result G :=
  let name := table_name_for_object_type (class_name object_schema) in
  if sync_enabled then
    match ObjectSchema.primary_key_property object_schema with
    | Some pk_property =>
        type ← to_core_type (prop_type pk_property);
        inl (sync_create_table_with_primary_key name type (prop_name pk_property)
               (PT.is_nullable (prop_type pk_property)) g)
    | None => inl (sync_create_table name g)
    end
  else
    set_primary_key_for_object (class_name object_schema) (primary_key object_schema)
      (get_or_add_table name g).

Definition add_initial_columns (object_schema : ObjectSchema) g : Result G :=
  let name := table_name_for_object_type (class_name object_schema) in
  _ ← assert (has_table g name);
  fold_result (λ g prop, if sync_enabled && is_primary prop then inl g else add_column name prop g)
    g (persisted_properties object_schema).

Definition validate_primary_column_uniqueness (object_type primary_property : string) g : Result () :=
  let table := table_name_for_object_type object_type in
  _ ← assert (has_table g table);
  if negb (distinct_count g table (Z.to_nat (get_column_index g table primary_property)) =?
           table_size g table)%nat
  then inr (DuplicatePrimaryKeyValue object_type primary_property)
  else inl ().

Definition validate_all_primary_columns g : Result () :=
  _ ← assert (has_table g c_primaryKeyTableName);
  fold_result (λ _ i, validate_primary_column_uniqueness
                        (pk_string g c_primaryKeyObjectClassColumnIndex i)
                        (pk_string g c_primaryKeyPropertyNameColumnIndex i) g)
    () (seq 0 (table_size g c_primaryKeyTableName)).

(** ** Reading the schema of a file *)
Definition property_for_column_index g (table : string) (column_index : nat) (c : CoreColumn) :
    Result (option Property) :=
  if sync_enabled && bool_decide (column_name c = object_id_column_name) then inl None else
  if (match column_kind c with
      | Subtable [(n, _)] => negb (bool_decide (n = ArrayColumnName))
      | Subtable _ => true
      | _ => false
      end) then inl None else
  match from_core_type (column_kind c) with
  | None => inr Undefined
  | Some type =>
      object_type ← (if PT.eqb type PT.Object then
                       match column_kind c with
                       | Link _ target => inl (object_type_for_table_name target)
                       | _ => inr Undefined
                       end
                     else inl "");
      inl (Some (mkProperty (column_name c) "" type object_type "" false (has_search_index c)
                   (Z.of_nat column_index)))
  end.

(** The constructor of [ObjectSchema] on a file; [table] is the table at the
    index, or the one of the class. *)
Definition object_schema_of_table g (name table : string) : Result ObjectSchema :=
  _ ← assert (has_table g table);
  properties ← fold_result (λ l ic, p ← property_for_column_index g table ic.1 ic.2;
                             inl (l ++ option_list p))
                 [] (imap pair (columns g table));
  inl (ObjectSchema.set_primary_key_property
         (mkObjectSchema name properties [] (get_primary_key_for_object g name))).

Definition schema_from_group g : Result (list ObjectSchema) :=
  schema ← fold_result (λ l table,
      let object_type := object_type_for_table_name table in
      if bool_decide (object_type = "") then inl l
      else o ← object_schema_of_table g object_type table; inl (l ++ [o]))
    [] (tables g);
  inl (make schema).

Definition set_schema_columns g (schema : list ObjectSchema) : list ObjectSchema :=
  (λ o,
    let table := table_name_for_object_type (class_name o) in
    if negb (has_table g table) then o else
    mkObjectSchema (class_name o)
      ((λ p, Property.with_column p (get_column_index g table (prop_name p))) <$> persisted_properties o)
      (computed_properties o) (primary_key o)) <$> schema.

(** ** Appliers of schema changes

    [TableHelper]: the table of the class, which must exist *)
Definition table_helper g (object : ObjectSchema) : Result string :=
  let table := table_name_for_object_type (class_name object) in
  _ ← assert (has_table g table);
  inl table.

Definition on_table (object : ObjectSchema) (f : string → G → Result G) g : Result G :=
  table ← table_helper g object; f table g.

Definition add_index (property : Property) (table : string) g : Result G :=
  inl (add_search_index table (Z.to_nat (table_column property)) g).

Definition remove_index (property : Property) (table : string) g : Result G :=
  inl (remove_search_index table (Z.to_nat (table_column property)) g).

Definition remove_property (property : Property) (table : string) g : Result G :=
  inl (core_remove_column table (Z.to_nat (table_column property)) g).

Definition change_primary_key (object : ObjectSchema) (property : option Property) g : Result G :=
  set_primary_key_for_object (class_name object) (from_option prop_name "" property) g.

(** State: the group and the errors for the changes that are not supported *)
Definition non_migration_applier (s : G * list ValidationError) (op : SchemaChange) :
    Result (G * list ValidationError) :=
  let '(g, errors) := s in
  match op with
  | AddTable object => g ← create_table object g; inl (g, errors)
  | AddInitialProperties object => g ← add_initial_columns object g; inl (g, errors)
  | AddIndex object property => g ← on_table object (add_index property) g; inl (g, errors)
  | RemoveIndex object property => g ← on_table object (remove_index property) g; inl (g, errors)
  | _ => inl (g, errors ++ explain op)
  end.

Definition apply_non_migration_changes g (changes : list SchemaChange) : Result G :=
  s ← fold_result non_migration_applier (g, []) changes;
  if negb (bool_decide (s.2 = [])) then inr (SchemaMismatch s.2) else inl s.1.

Definition initial_applier g (op : SchemaChange) : Result G :=
  match op with
  | AddTable object => create_table object g
  | RemoveTable _ => inl g
  | AddInitialProperties object => add_initial_columns object g
  | AddProperty object property => on_table object (λ table, add_column table property) g
  | RemoveProperty object property => on_table object (remove_property property) g
  | MakePropertyNullable object property => on_table object (λ table, make_property_optional table property) g
  | MakePropertyRequired object property => on_table object (λ table, make_property_required table property) g
  | ChangePrimaryKey object property => change_primary_key object property g
  | AddIndex object property => on_table object (add_index property) g
  | RemoveIndex object property => on_table object (remove_index property) g
  | ChangePropertyType object old_property new_property =>
      on_table object (λ table, replace_column table old_property new_property) g
  end.

Definition create_initial_tables g (changes : list SchemaChange) : Result G :=
  fold_result initial_applier g changes.

Definition additive_applier (update_indexes : bool) g (op : SchemaChange) : Result G :=
  match op with
  | AddTable object => create_table object g
  | AddInitialProperties object => add_initial_columns object g
  | AddProperty object property => on_table object (λ table, add_column table property) g
  | AddIndex object property =>
      if update_indexes then on_table object (add_index property) g else inl g
  | RemoveIndex object property =>
      if update_indexes then on_table object (remove_index property) g else inl g
  | RemoveTable _ | RemoveProperty _ _ | ChangePrimaryKey _ _ | ChangePropertyType _ _ _
  | MakePropertyNullable _ _ | MakePropertyRequired _ _ => inl g
  end.

Definition apply_additive_changes g (changes : list SchemaChange) (update_indexes : bool) : Result G :=
  fold_result (additive_applier update_indexes) g changes.

Definition pre_migration_applier g (op : SchemaChange) : Result G :=
  match op with
  | RemoveProperty _ _ => inl g
  | _ => initial_applier g op
  end.

Definition apply_pre_migration_changes g (changes : list SchemaChange) : Result G :=
  fold_result pre_migration_applier g changes.

(** The end iterator of a class that is not in the initial schema is
    dereferenced. *)
Definition check_renamed (initial_schema : list ObjectSchema) (object : ObjectSchema) (property : Property) :
    Result () :=
  if bool_decide (initial_schema = []) then inl () else
  match find initial_schema (class_name object) with
  | None => inr Undefined
  | Some o =>
      if bool_decide (ObjectSchema.property_for_name o (prop_name property) = None)
      then inr (LogicError (mkError "Renamed property '%1.%2' does not exist."
                              [Some (class_name object); Some (prop_name property)]))
      else inl ()
  end.

Definition post_migration_applier (initial_schema : list ObjectSchema) (did_reread_schema : bool)
    g (op : SchemaChange) : Result G :=
  match op with
  | RemoveProperty object property =>
      _ ← check_renamed initial_schema object property;
      on_table object (remove_property property) g
  | ChangePrimaryKey object (Some property) =>
      _ ← validate_primary_column_uniqueness (class_name object) (prop_name property) g;
      inl g
  | AddTable object => create_table object g
  | AddInitialProperties object => if did_reread_schema then add_initial_columns object g else inl g
  | AddIndex object property => on_table object (add_index property) g
  | RemoveIndex object property => on_table object (remove_index property) g
  | RemoveTable _ | ChangePropertyType _ _ _ | MakePropertyNullable _ _ | MakePropertyRequired _ _
  | AddProperty _ _ | ChangePrimaryKey _ None => inl g
  end.

Definition apply_post_migration_changes g (changes : list SchemaChange) (initial_schema : list ObjectSchema)
    (did_reread_schema : bool) : Result G :=
  fold_result (post_migration_applier initial_schema did_reread_schema) g changes.

(** ** [apply_schema_changes] *)
Inductive SchemaMode := Automatic | Immutable | ReadOnlyAlternative | ResetFile | Additive | Manual.

#[export] Instance SchemaMode_eq_dec : EqDecision SchemaMode.
Proof. solve_decision. Defined.

(** The migration function works on the group and, through [rename_property], on
    the columns of the target schema. *)
Definition Migration : Type := G → list ObjectSchema → Result (G * list ObjectSchema).

Definition run_migration (migration_function : option Migration) g (target_schema : list ObjectSchema) :
    Result (G * list ObjectSchema) :=
  match migration_function with Some f => f g target_schema | None => inl (g, target_schema) end.

(** [default_permissions]: [create_default_permissions] for the user of a
    synchronised Realm, if there is one; the permissions belong to other
    components. *)
Definition apply_schema_changes g (schema_version : Z) (target_schema : list ObjectSchema)
    (target_schema_version : Z) (mode : SchemaMode) (changes : list SchemaChange)
    (default_permissions : option (G → list SchemaChange → Result G))
    (migration_function : option Migration) : Result (G * list ObjectSchema) :=
  let g := create_metadata_tables g in
  if bool_decide (mode = Additive) then
    let target_schema_is_newer :=
      (schema_version <? target_schema_version) || (schema_version =? NotVersioned) in
    let update_indexes := true in
    g ← apply_additive_changes g changes update_indexes;
    g ← (if target_schema_is_newer then set_schema_version target_schema_version g else inl g);
    g ← (match default_permissions with Some f => f g changes | None => inl g end);
    inl (g, set_schema_columns g target_schema)
  else if schema_version =? NotVersioned then
    g ← create_initial_tables g changes;
    g ← set_schema_version target_schema_version g;
    inl (g, set_schema_columns g target_schema)
  else if bool_decide (mode = Manual) then
    let target_schema := set_schema_columns g target_schema in
    '(g, target_schema) ← run_migration migration_function g target_schema;
    schema ← schema_from_group g;
    _ ← verify_no_changes_required (compare schema target_schema false);
    _ ← validate_all_primary_columns g;
    let target_schema := set_schema_columns g target_schema in
    g ← set_schema_version target_schema_version g;
    inl (g, target_schema)
  else if schema_version =? target_schema_version then
    g ← apply_non_migration_changes g changes;
    inl (g, set_schema_columns g target_schema)
  else
    old_schema ← schema_from_group g;
    g ← apply_pre_migration_changes g changes;
    '(g, target_schema) ←
      (if bool_decide (is_Some migration_function) then
         let target_schema := set_schema_columns g target_schema in
         '(g, target_schema) ← run_migration migration_function g target_schema;
         schema ← schema_from_group g;
         g ← apply_post_migration_changes g (compare schema target_schema false) old_schema true;
         _ ← validate_all_primary_columns g;
         inl (g, target_schema)
       else
         g ← apply_post_migration_changes g changes [] false;
         inl (g, target_schema));
    g ← set_schema_version target_schema_version g;
    inl (g, set_schema_columns g target_schema).

(** ** Deleting and renaming *)
Definition delete_data_for_object (object_type : string) g : Result G :=
  let table := table_name_for_object_type object_type in
  if has_table g table then set_primary_key_for_object object_type "" (remove_table table g)
  else inl g.

Definition is_empty g : bool :=
  forallb (λ table,
    let object_type := object_type_for_table_name table in
    bool_decide (object_type = "") || String.prefix "__" object_type ||
    (table_size g table =? 0)%nat) (tables g).

(** "update table_column for each property since it may have shifted" *)
Definition shift_column (column_to_remove old_column : Z) (p : Property) : Property :=
  if table_column p =? column_to_remove then Property.with_column p old_column
  else if column_to_remove <? table_column p then Property.with_column p (table_column p - 1)
  else p.

Definition update_class (f : ObjectSchema → ObjectSchema) (schema : list ObjectSchema) (name : string) :
    list ObjectSchema :=
  alter f (find_index schema name) schema.

(** The class a property links to *)
Definition target_type : Property → string := object_type.

Definition rename_error (fmt : string) (args : list string) : StoreError :=
  LogicError (mkError fmt (Some <$> args)).

Definition rename_property (target_schema : list ObjectSchema) (object_type old_name new_name : string) g :
    Result (G * list ObjectSchema) :=
  let table := table_name_for_object_type object_type in
  if negb (has_table g table) then
    inr (rename_error "Cannot rename properties for type '%1' because it does not exist." [object_type])
  else match find target_schema object_type with
  | None =>
      inr (rename_error "Cannot rename properties for type '%1' because it has been removed from the Realm."
             [object_type])
  | Some target_object_schema =>
  if bool_decide (is_Some (ObjectSchema.property_for_name target_object_schema old_name)) then
    inr (rename_error "Cannot rename property '%1.%2' to '%3' because the source property still exists."
           [object_type; old_name; new_name])
  else
  table_object_schema ← object_schema_of_table g object_type table;
  match ObjectSchema.property_for_name table_object_schema old_name with
  | None =>
      inr (rename_error "Cannot rename property '%1.%2' because it does not exist." [object_type; old_name])
  | Some old_property =>
  match ObjectSchema.property_for_name table_object_schema new_name with
  | None => inl (rename_column table (Z.to_nat (table_column old_property)) new_name g, target_schema)
  | Some new_property =>
  if negb (PT.eqb (prop_type old_property) (prop_type new_property)) ||
     negb (bool_decide (target_type old_property = target_type new_property))
  then
    inr (LogicError (mkError
      "Cannot rename property '%1.%2' to '%3' because it would change from type '%4' to '%5'."
      [Some object_type; Some old_name; Some new_name; Property.type_string old_property;
       Property.type_string new_property]))
  else if PT.is_nullable (prop_type old_property) && negb (PT.is_nullable (prop_type new_property)) then
    inr (rename_error
      "Cannot rename property '%1.%2' to '%3' because it would change from optional to required."
      [object_type; old_name; new_name])
  else
    let column_to_remove := table_column new_property in
    let g := rename_column table (Z.to_nat (table_column old_property)) new_name g in
    let g := core_remove_column table (Z.to_nat column_to_remove) g in
    let target_schema :=
      update_class (λ o, mkObjectSchema (class_name o)
          (shift_column column_to_remove (table_column old_property) <$> persisted_properties o)
          (computed_properties o) (primary_key o)) target_schema object_type in
    g ← (if PT.is_nullable (prop_type new_property) && negb (PT.is_nullable (prop_type old_property))
         then make_property_optional table
                (Property.with_column new_property (table_column old_property)) g
         else inl g);
    inl (g, target_schema)
  end end end.
End Store.
End ObjectStore.
