(* ===== verification/ObjectStoreTheory.v ===== *)
(** Lemmas about the object store: verification of changes, names of tables,
    metadata, and the columns made for properties. *)
From stdpp Require Import strings.
From S2P Require Import Prelude Property Schema SchemaTheory SchemaApply Group ObjectStore.
Import Schema ObjectStore.

Lemma fold_result_app {A B} (f : B → A → Result B) l1 l2 : ∀ b,
  fold_result f b (l1 ++ l2) = b' ← fold_result f b l1; fold_result f b' l2.
Proof.
  induction l1 as [|x l1 IH]; intros b; [done|]. simpl. by destruct (f b x) as [b'|]; simpl.
Qed.

(** ** Verification of changes *)
Lemma append_errors_foldl f errs changes :
  foldl (append_errors f) ((), errs) changes = ((), errs ++ (changes ≫= f)).
Proof.
  revert errs. induction changes as [|c cs IH]; intros errs; simpl; [by rewrite app_nil_r|].
  unfold append_errors at 2. simpl. rewrite IH. by rewrite <-app_assoc.
Qed.

Lemma bind_nil {A B} (f : A → list B) l : l ≫= f = [] ↔ Forall (λ x, f x = []) l.
Proof.
  induction l as [|x l IH]; [by split|]. change ((x :: l) ≫= f) with (f x ++ (l ≫= f)).
  rewrite Forall_cons, <-IH. split; [apply app_eq_nil|by intros [-> ->]].
Qed.

(** A verifier without flags succeeds iff no change has an error. *)
Lemma verify_append error f changes :
  verify_no_errors error (append_errors f) () changes =
    if bool_decide (Forall (λ c, f c = []) changes) then inl () else inr (error (changes ≫= f)).
Proof.
  unfold verify_no_errors. rewrite append_errors_foldl. cbn [fst snd app].
  rewrite (bool_decide_ext _ _ (bind_nil f changes)). by case_bool_decide.
Qed.

Definition is_additive (c : SchemaChange) : bool :=
  match c with
  | AddTable _ | AddInitialProperties _ | AddProperty _ _ | RemoveProperty _ _ | AddIndex _ _
  | RemoveIndex _ _ | RemoveTable _ => true
  | _ => false
  end.

Definition adds (c : SchemaChange) : bool :=
  match c with AddTable _ | AddInitialProperties _ | AddProperty _ _ => true | _ => false end.

Definition reindexes (c : SchemaChange) : bool :=
  match c with AddIndex _ _ | RemoveIndex _ _ => true | _ => false end.

Lemma explain_nil c : explain c = [] ↔ (match c with RemoveTable _ | AddInitialProperties _ => True | _ => False end).
Proof. destruct c as [| | | | | | | | | |o [p|]]; simpl; try done. by destruct (negb _). Qed.

Lemma additive_foldl changes i a errs :
  ∃ l, foldl additive_visitor (i, a, errs) changes =
    (i || existsb reindexes changes, a || existsb adds changes, errs ++ l) ∧
    (l = [] ↔ forallb is_additive changes = true).
Proof.
  revert i a errs. induction changes as [|c cs IH]; intros i a errs.
  { exists []. rewrite app_nil_r. simpl. by rewrite !orb_false_r. }
  assert (∃ l i' a', additive_visitor (i, a, errs) c = (i', a', errs ++ l) ∧ i' = i || reindexes c ∧
    a' = a || adds c ∧ (l = [] ↔ is_additive c = true)) as (l&i'&a'&Hc&->&->&Hl).
  { destruct c as [| | | | | | | | | |o [p|]]; simpl;
      try (exists []; do 2 eexists; split; [by rewrite app_nil_r|]; rewrite ?orb_false_r, ?orb_true_r; done);
      try (eexists _, _, _; split; [done|]; rewrite ?orb_false_r; done).
    destruct (negb _); eexists _, _, _; (split; [done|]); by rewrite ?orb_false_r. }
  cbn [foldl existsb forallb]. rewrite Hc. destruct (IH (i || reindexes c) (a || adds c) (errs ++ l)) as (l'&->&Hl').
  exists (l ++ l'). rewrite <-!app_assoc, !orb_assoc. split; [done|].
  rewrite andb_true_iff, <-Hl, <-Hl'. split; [apply app_eq_nil|by intros [-> ->]].
Qed.

(** ** Names of tables *)
Lemma prefix_app a b : String.prefix a (a +:+ b) = true.
Proof. induction a as [|c a IH]; simpl; [by destruct b|]. destruct (Ascii.ascii_dec c c); done. Qed.

Lemma substring_all s : String.substring 0 (String.length s) s = s.
Proof. induction s as [|c s IH]; simpl; [done|]. by rewrite IH. Qed.

Lemma substring_app a b : String.substring (String.length a) (String.length b) (a +:+ b) = b.
Proof. induction a as [|c a IH]; simpl; [apply substring_all|done]. Qed.

Lemma string_length_app a b : String.length (a +:+ b) = (String.length a + String.length b)%nat.
Proof. induction a as [|c a IH]; simpl; [done|]. by rewrite IH. Qed.

Lemma object_type_of_table_name t : object_type_for_table_name (table_name_for_object_type t) = t.
Proof.
  unfold object_type_for_table_name, table_name_for_object_type. rewrite prefix_app.
  rewrite string_length_app. replace (_ + _ - _)%nat with (String.length t) by lia. apply substring_app.
Qed.

Lemma table_name_inj a b : table_name_for_object_type a = table_name_for_object_type b → a = b.
Proof. intros E. by rewrite <-(object_type_of_table_name a), E, object_type_of_table_name. Qed.

Lemma prefix_split a s : String.prefix a s = true → ∃ b, s = a +:+ b.
Proof.
  revert s. induction a as [|c a IH]; intros s Hs; [by exists s|]. destruct s as [|d s]; [done|].
  simpl in Hs. destruct (Ascii.ascii_dec c d) as [->|]; [|done]. destruct (IH s Hs) as [b ->]. by exists b.
Qed.

(** A table that has an object type is the table of that type. *)
Lemma table_name_of_object_type t :
  object_type_for_table_name t ≠ "" → t = table_name_for_object_type (object_type_for_table_name t).
Proof.
  unfold object_type_for_table_name. destruct (String.prefix c_object_table_prefix t) eqn:E; [|done].
  intros _. apply prefix_split in E as [b ->]. unfold table_name_for_object_type. f_equal.
  rewrite string_length_app. replace (_ + _ - _)%nat with (String.length b) by lia.
  by rewrite substring_app.
Qed.

(** ** Search by value *)
Lemma find_value {A} `{EqDecision A} (l : list A) x i :
  NoDup l → l !! i = Some x → find_if (λ y, bool_decide (y = x)) l = i.
Proof.
  intros Hnd Hi. destruct (find_if_spec (λ y, bool_decide (y = x)) l) as (l1&l2&->&->&H1&H2).
  destruct l2 as [|y l2].
  - rewrite app_nil_r in *. apply list_elem_of_lookup_2 in Hi. rewrite Forall_forall in H1.
    specialize (H1 x Hi). simpl in H1. by rewrite bool_decide_true in H1.
  - simpl in H2. apply bool_decide_eq_true in H2 as ->.
    eapply NoDup_lookup; [exact Hnd| |exact Hi]. by rewrite lookup_app_r, Nat.sub_diag by lia.
Qed.

Lemma find_value_none {A} `{EqDecision A} (l : list A) x :
  ¬ x ∈ l → find_if (λ y, bool_decide (y = x)) l = length l.
Proof.
  induction l as [|y l IH]; intros Hx; [done|]. rewrite elem_of_cons in Hx. simpl.
  rewrite bool_decide_false by (intros ->; tauto). rewrite IH; [done|tauto].
Qed.

Lemma moved_over_lookup {A} r (l : list A) j :
  (r < length l)%nat →
  moved_over r l !! j = if (j <? length l - 1)%nat then (if (j =? r)%nat then last l else l !! j) else None.
Proof.
  intros Hr. unfold moved_over. destruct (last l) as [x|] eqn:Hx; [|apply last_None in Hx; subst; simpl in Hr; lia].
  destruct (Nat.ltb_spec j (length l - 1)); [|apply lookup_take_ge; lia].
  rewrite lookup_take_lt by done. destruct (Nat.eqb_spec j r) as [->|]; [|by rewrite list_lookup_insert_ne].
  by apply list_lookup_insert_eq.
Qed.

Section Metadata.
Context {platform : CharSign} {sync : SyncBuild} {G : Type} {ops : GroupOps G} {laws : GroupLaws G}.
Implicit Types g : G.

Lemma upd_eq t f old new : upd t f old new → new t = f (old t).
Proof. intros H. rewrite (H t). by rewrite decide_True. Qed.

Lemma upd_ne t f old new u : upd t f old new → u ≠ t → new u = old u.
Proof. intros H Hu. rewrite (H u). by rewrite decide_False. Qed.

Lemma in_get_or_add t u g : u ∈ tables (get_or_add_table t g) ↔ u = t ∨ u ∈ tables g.
Proof.
  rewrite tables_get_or_add. unfold has_table. case_bool_decide; [|rewrite elem_of_app, list_elem_of_singleton]; naive_solver.
Qed.

Lemma columns_get_or_add_ne t u g : u ≠ t → columns (get_or_add_table t g) u = columns g u.
Proof.
  intros Hu. destruct (decide (t ∈ tables g)) as [Ht|Ht]; [by rewrite get_or_add_present|].
  by apply (upd_ne _ _ _ _ _ (columns_get_or_add t g Ht)).
Qed.

Definition metadata_ok g : Prop :=
  c_metadataTableName ∈ tables g → columns g c_metadataTableName ≠ [] →
  (0 < table_size g c_metadataTableName)%nat.

(** Creating the tables of the metadata *)
Record with_metadata g : Prop := {
  has_pk : c_primaryKeyTableName ∈ tables g;
  has_metadata : c_metadataTableName ∈ tables g;
  pk_columns : columns g c_primaryKeyTableName ≠ [];
  metadata_columns : columns g c_metadataTableName ≠ [];
  metadata_row : (0 < table_size g c_metadataTableName)%nat }.

(** The two tables exist, the first has its row once it has its columns *)
Record metadata_tables g0 g : Prop := {
  mt_pk : c_primaryKeyTableName ∈ tables g;
  mt_metadata : c_metadataTableName ∈ tables g;
  mt_in : ∀ u, u ∈ tables g ↔ u = c_primaryKeyTableName ∨ u = c_metadataTableName ∨ u ∈ tables g0;
  mt_rest : ∀ u, u ≠ c_primaryKeyTableName → u ≠ c_metadataTableName → columns g u = columns g0 u }.

Lemma metadata_tables_added g :
  metadata_ok g →
  let g' := get_or_add_table c_metadataTableName (get_or_add_table c_primaryKeyTableName g) in
  metadata_tables g g' ∧ metadata_ok g'.
Proof.
  intros Hok g'. unfold g'. split.
  - split.
    + rewrite !in_get_or_add. auto.
    + rewrite !in_get_or_add. auto.
    + intros u. rewrite !in_get_or_add. tauto.
    + intros u H1 H2. by rewrite !columns_get_or_add_ne.
  - intros _. destruct (decide (c_metadataTableName ∈ tables (get_or_add_table c_primaryKeyTableName g))) as [Hm|Hm].
    + rewrite get_or_add_present by done. rewrite in_get_or_add in Hm. destruct Hm as [|Hm]; [done|].
      rewrite columns_get_or_add_ne, table_size_get_or_add by done. by apply Hok.
    + by rewrite (upd_eq _ _ _ _ (columns_get_or_add _ _ Hm)).
Qed.

Lemma create_metadata_spec g :
  metadata_ok g → with_metadata (create_metadata_tables g) ∧ metadata_tables g (create_metadata_tables g).
Proof.
  intros Hok. destruct (metadata_tables_added g Hok) as [[Hpk Hm Hin Hrest] Hok1]. unfold create_metadata_tables.
  set (g1 := get_or_add_table c_metadataTableName (get_or_add_table c_primaryKeyTableName g)) in *.
  set (g2 := if (length (columns g1 c_metadataTableName) =? 0)%nat then _ else g1).
  assert (tables g2 = tables g1 ∧ (∀ u, u ≠ c_metadataTableName → columns g2 u = columns g1 u) ∧
    columns g2 c_metadataTableName ≠ [] ∧ (0 < table_size g2 c_metadataTableName)%nat) as (Ht2&Hc2&Hne2&Hs2).
  { unfold g2. destruct (Nat.eqb_spec (length (columns g1 c_metadataTableName)) 0) as [E|E].
    - pose proof (columns_insert_column c_metadataTableName c_versionColumnIndex c_versionColumnName
        (Plain type_Int false) g1 Hm (Nat.le_0_l _)) as Hi.
      rewrite tables_set_int, tables_add_empty_row, tables_insert_column. split; [done|]. split; [|split].
      + intros u Hu. rewrite columns_set_int, columns_add_empty_row. by apply (upd_ne _ _ _ _ _ Hi).
      + rewrite columns_set_int, columns_add_empty_row, (upd_eq _ _ _ _ Hi). by apply length_zero_iff_nil in E as ->.
      + rewrite table_size_set_int, table_size_add_row, decide_True by (done || by rewrite tables_insert_column). lia.
    - split_and!; [done|done| |apply Hok1; [done|]]; intros E'; by rewrite E' in E. }
  clearbody g2. rewrite <-Ht2 in Hpk, Hm, Hin.
  set (g3 := if (length (columns g2 c_primaryKeyTableName) =? 0)%nat then _ else g2).
  assert (tables g3 = tables g2 ∧ (∀ u, u ≠ c_primaryKeyTableName → columns g3 u = columns g2 u) ∧
    columns g3 c_primaryKeyTableName ≠ [] ∧ (∀ u, table_size g3 u = table_size g2 u)) as (Ht3&Hc3&Hne3&Hs3).
  { unfold g3. destruct (Nat.eqb_spec (length (columns g2 c_primaryKeyTableName)) 0) as [E|E].
    - pose proof (columns_insert_column c_primaryKeyTableName c_primaryKeyObjectClassColumnIndex
        c_primaryKeyObjectClassColumnName (Plain type_String false) g2 Hpk (Nat.le_0_l _)) as Hi.
      set (g2' := core_insert_column c_primaryKeyTableName c_primaryKeyObjectClassColumnIndex _ _ g2) in *.
      assert (c_primaryKeyTableName ∈ tables g2') as Hpk' by (unfold g2'; by rewrite tables_insert_column).
      apply length_zero_iff_nil in E.
      assert (length (columns g2' c_primaryKeyTableName) = 1%nat) as Hl by (rewrite (upd_eq _ _ _ _ Hi), E; done).
      pose proof (columns_insert_column c_primaryKeyTableName c_primaryKeyPropertyNameColumnIndex
        c_primaryKeyPropertyNameColumnName (Plain type_String false) g2' Hpk') as Hj.
      rewrite Hl in Hj. specialize (Hj (Nat.le_refl _)). split_and!.
      + unfold g2'. by rewrite !tables_insert_column.
      + intros u Hu. by rewrite (upd_ne _ _ _ _ _ Hj Hu), (upd_ne _ _ _ _ _ Hi Hu).
      + rewrite (upd_eq _ _ _ _ Hj). unfold inserted. by destruct (take _ _).
      + intros u. unfold g2'. by rewrite !table_size_insert_column.
    - split_and!; [done|done| |done]. intros E'. by rewrite E' in E. }
  clearbody g3. rewrite <-Ht3 in Hpk, Hm, Hin.
  pose proof (columns_add_index c_primaryKeyTableName c_primaryKeyObjectClassColumnIndex g3 Hpk) as Ha.
  assert (c_primaryKeyObjectClassColumnIndex < length (columns g3 c_primaryKeyTableName))%nat as Hlt
    by (destruct (columns g3 c_primaryKeyTableName); [done|simpl; unfold c_primaryKeyObjectClassColumnIndex; lia]).
  specialize (Ha Hlt). split; split; rewrite ?tables_add_index.
  - done.
  - done.
  - rewrite (upd_eq _ _ _ _ Ha). intros E. apply (f_equal length) in E. rewrite length_alter in E.
    simpl in E. lia.
  - by rewrite (upd_ne _ _ _ _ _ Ha), Hc3 by done.
  - by rewrite table_size_add_index, Hs3.
  - done.
  - done.
  - done.
  - intros u H1 H2. by rewrite (upd_ne _ _ _ _ _ Ha), Hc3, Hc2, Hrest by done.
Qed.

(** ** The schema version *)
Lemma wrap_int64 v : 0 ≤ v < size_modulus → wrap (to_int64 v) = v.
Proof.
  intros Hv. unfold wrap, to_int64. destruct (Z.ltb_spec v 9223372036854775808); [by apply Z.mod_small|].
  rewrite <-(Z.mod_add _ 1) by done. replace (v - size_modulus + 1 * size_modulus) with v by lia.
  by apply Z.mod_small.
Qed.

Lemma version_roundtrip v g :
  metadata_ok g → 0 ≤ v < size_modulus →
  ∃ g', set_schema_version v g = inl g' ∧ get_schema_version g' = v ∧
    tables g' = tables (create_metadata_tables g) ∧
    ∀ u, columns g' u = columns (create_metadata_tables g) u.
Proof.
  intros Hok Hv. destruct (create_metadata_spec g Hok) as [[_ Hm _ Hc Hs] _]. unfold set_schema_version.
  generalize dependent (create_metadata_tables g). clear g Hok. intros g Hm Hc Hs.
  unfold write_schema_version, has_table. rewrite bool_decide_true by done. cbn [assert mbind Result_bind].
  eexists. split; [done|]. rewrite tables_set_int. split; [|split; [done|intros; apply columns_set_int]].
  unfold get_schema_version, has_table. rewrite tables_set_int, columns_set_int, bool_decide_true by done.
  destruct (columns g c_metadataTableName) as [|x l] eqn:E; [done|]. cbn [negb orb length Nat.eqb].
  rewrite get_set_int; [by apply wrap_int64|done|rewrite E; simpl; unfold c_versionColumnIndex; lia|done].
Qed.

(** ** The table of primary keys *)
Notation keys g := (string_column g c_primaryKeyTableName c_primaryKeyObjectClassColumnIndex).
Notation key_properties g := (string_column g c_primaryKeyTableName c_primaryKeyPropertyNameColumnIndex).

Record pk_ok g : Prop := {
  pk_exists : c_primaryKeyTableName ∈ tables g;
  pk_two_columns : (2 ≤ length (columns g c_primaryKeyTableName))%nat;
  pk_unique : NoDup (keys g) }.

Lemma pk_length g : pk_ok g → length (keys g) = table_size g c_primaryKeyTableName ∧
  length (key_properties g) = table_size g c_primaryKeyTableName.
Proof.
  intros [H1 H2 _]. unfold c_primaryKeyObjectClassColumnIndex, c_primaryKeyPropertyNameColumnIndex.
  rewrite !string_length by (done || lia). done.
Qed.

Lemma find_key_Some g t i : NoDup (keys g) → keys g !! i = Some t →
  find_first_string g c_primaryKeyTableName c_primaryKeyObjectClassColumnIndex t = Some i.
Proof.
  intros Hnd Hi. unfold find_first_string. rewrite (find_value _ t i Hnd Hi).
  apply lookup_lt_Some, Nat.ltb_lt in Hi. by rewrite Hi.
Qed.

Lemma find_key_None g t : ¬ t ∈ keys g →
  find_first_string g c_primaryKeyTableName c_primaryKeyObjectClassColumnIndex t = None.
Proof. intros Ht. unfold find_first_string. rewrite find_value_none by done. by rewrite Nat.ltb_irrefl. Qed.

(** The key of a class is the property in its row. *)
Lemma primary_key_Some g t i : pk_ok g → keys g !! i = Some t →
  get_primary_key_for_object g t = default "" (key_properties g !! i).
Proof.
  intros Hok Hi. unfold get_primary_key_for_object, has_table. rewrite bool_decide_true by apply Hok.
  simpl negb. cbv iota. by rewrite (find_key_Some g t i (pk_unique _ Hok) Hi).
Qed.

Lemma primary_key_None g t : ¬ t ∈ keys g → get_primary_key_for_object g t = "".
Proof.
  intros Ht. unfold get_primary_key_for_object. destruct (negb _); [done|]. by rewrite find_key_None.
Qed.

(** Rows of the changed table determine the keys. *)
Lemma primary_keys_agree g g' t :
  pk_ok g → pk_ok g' →
  (∀ v, (∃ i, keys g !! i = Some t ∧ key_properties g !! i = Some v) ↔
        (∃ i, keys g' !! i = Some t ∧ key_properties g' !! i = Some v)) →
  get_primary_key_for_object g' t = get_primary_key_for_object g t.
Proof.
  intros Hok Hok' Hv.
  assert (∀ h i, pk_ok h → keys h !! i = Some t → ∃ v, key_properties h !! i = Some v) as Hval.
  { intros h i Hh Hi. destruct (pk_length h Hh) as [L1 L2]. apply lookup_lt_is_Some.
    rewrite L2, <-L1. by eapply lookup_lt_Some. }
  destruct (decide (t ∈ keys g)) as [Hin|Hin].
  - apply list_elem_of_lookup in Hin as [i Hi]. destruct (Hval g i Hok Hi) as [v Hv1].
    destruct (proj1 (Hv v)) as (j&Hj&Hvj); [by exists i|].
    by rewrite (primary_key_Some g t i), (primary_key_Some g' t j), Hv1, Hvj by done.
  - rewrite (primary_key_None g) by done. apply primary_key_None. intros Hin'.
    apply list_elem_of_lookup in Hin' as [j Hj]. destruct (Hval g' j Hok' Hj) as [v Hvj].
    destruct (proj2 (Hv v)) as (i&Hi&_); [by exists j|]. apply Hin. by eapply list_elem_of_lookup_2.
Qed.

(** The three ways the table changes *)
Lemma append_key g t k :
  pk_ok g → ¬ t ∈ keys g →
  let row := table_size g c_primaryKeyTableName in
  let g' := set_string c_primaryKeyTableName c_primaryKeyPropertyNameColumnIndex row k
    (set_string_unique c_primaryKeyTableName c_primaryKeyObjectClassColumnIndex row t
       (add_empty_row c_primaryKeyTableName g)) in
  keys g' = keys g ++ [t] ∧ key_properties g' = key_properties g ++ [k] ∧ pk_ok g'.
Proof.
  intros Hok Ht row g'. destruct (pk_length g Hok) as [L1 L2]. destruct Hok as [H1 H2 H3].
  unfold c_primaryKeyObjectClassColumnIndex, c_primaryKeyPropertyNameColumnIndex in *.
  set (g1 := add_empty_row c_primaryKeyTableName g) in *.
  assert (string_column g1 c_primaryKeyTableName 0 = string_column g c_primaryKeyTableName 0 ++ [""]) as E0
    by (unfold g1; rewrite string_add_row, decide_True by (done || lia); done).
  assert (string_column g1 c_primaryKeyTableName 1 = string_column g c_primaryKeyTableName 1 ++ [""]) as E1
    by (unfold g1; rewrite string_add_row, decide_True by (done || lia); done).
  assert (∀ i, string_column g1 c_primaryKeyTableName 0 !! i = Some t → i = row) as Hu.
  { intros i. rewrite E0. intros [Hi|[Hle Hi]]%lookup_app_Some; [destruct Ht; by eapply list_elem_of_lookup_2|].
    apply lookup_lt_Some in Hi as Hi'. simpl in Hi'. unfold row in *. lia. }
  assert (string_column g' c_primaryKeyTableName 0 = string_column g c_primaryKeyTableName 0 ++ [t]) as K0.
  { unfold g'. rewrite string_set_string, decide_False by naive_solver. rewrite string_set_unique by done.
    rewrite string_set_string, decide_True, E0 by done. unfold row. rewrite <-L1.
    by rewrite insert_app_r_alt, Nat.sub_diag by lia. }
  assert (string_column g' c_primaryKeyTableName 1 = string_column g c_primaryKeyTableName 1 ++ [k]) as K1.
  { unfold g'. rewrite string_set_string, decide_True by done. rewrite string_set_unique by done.
    rewrite string_set_string, decide_False, E1 by naive_solver. unfold row. rewrite <-L2.
    by rewrite insert_app_r_alt, Nat.sub_diag by lia. }
  split; [done|]. split; [done|]. split.
  - unfold g', g1. by rewrite tables_set_string, tables_set_string_unique, tables_add_empty_row.
  - unfold g', g1. by rewrite columns_set_string, columns_set_string_unique, columns_add_empty_row.
  - unfold c_primaryKeyObjectClassColumnIndex. rewrite K0. apply NoDup_app. split; [done|].
    split; [|apply NoDup_singleton]. intros x Hx ->%list_elem_of_singleton. done.
Qed.

Lemma remove_key g row :
  pk_ok g → (row < length (keys g))%nat →
  let g' := move_last_over c_primaryKeyTableName row g in
  keys g' = moved_over row (keys g) ∧ key_properties g' = moved_over row (key_properties g) ∧ pk_ok g'.
Proof.
  intros Hok Hrow g'. destruct Hok as [H1 H2 H3].
  assert (∀ c, string_column g' c_primaryKeyTableName c = moved_over row (string_column g c_primaryKeyTableName c))
    as Hs by (intros c; unfold g'; by rewrite string_move_last_over, decide_True).
  split; [apply Hs|]. split; [apply Hs|]. split.
  - unfold g'. by rewrite tables_move_last_over.
  - unfold g'. by rewrite columns_move_last_over.
  - rewrite Hs. apply NoDup_alt. intros i j x Hi Hj. rewrite moved_over_lookup in Hi, Hj by done.
    destruct (Nat.ltb_spec i (length (keys g) - 1)), (Nat.ltb_spec j (length (keys g) - 1)); try done.
    rewrite last_lookup in Hi, Hj. destruct (Nat.eqb_spec i row), (Nat.eqb_spec j row); [lia| | |].
    + pose proof (NoDup_lookup _ _ _ _ H3 Hi Hj). lia.
    + pose proof (NoDup_lookup _ _ _ _ H3 Hi Hj). lia.
    + by eapply NoDup_lookup.
Qed.

Lemma change_key g row k :
  pk_ok g →
  let g' := set_string c_primaryKeyTableName c_primaryKeyPropertyNameColumnIndex row k g in
  keys g' = keys g ∧ key_properties g' = <[row := k]> (key_properties g) ∧ pk_ok g'.
Proof.
  intros [H1 H2 H3] g'.
  assert (keys g' = keys g) as Hk by (unfold g'; rewrite string_set_string; by rewrite decide_False by naive_solver).
  split; [done|]. split; [unfold g'; rewrite string_set_string; by rewrite decide_True|]. split.
  - unfold g'. by rewrite tables_set_string.
  - unfold g'. by rewrite columns_set_string.
  - by rewrite Hk.
Qed.

Lemma moved_over_other {A} (l : list A) r j x y :
  (r < length l)%nat → l !! r = Some x → l !! j = Some y → x ≠ y →
  let j' := if (j =? length l - 1)%nat then r else j in
  (j' < length l - 1)%nat ∧ ∀ B (m : list B), length m = length l → moved_over r m !! j' = m !! j.
Proof.
  intros Hr Hx Hy Hne j'. apply lookup_lt_Some in Hy as Hj.
  assert (j ≠ r) as Hjr by (intros ->; congruence).
  assert (j' < length l - 1)%nat as Hlt by (unfold j'; destruct (Nat.eqb_spec j (length l - 1)); lia).
  split; [done|]. intros B m Hm. rewrite moved_over_lookup by lia. rewrite Hm.
  destruct (Nat.ltb_spec j' (length l - 1)); [|lia]. rewrite last_lookup, Hm. unfold j'.
  destruct (Nat.eqb_spec j (length l - 1)) as [->|Hj2].
  - rewrite Nat.eqb_refl. f_equal. lia.
  - by destruct (Nat.eqb_spec j r).
Qed.

(** Setting the key of a class *)
Lemma set_primary_key_spec g t k :
  pk_ok g → (sync_enabled && has_object_ids g = false) →
  ∃ g', set_primary_key_for_object t k g = inl g' ∧ pk_ok g' ∧ tables g' = tables g ∧
    (∀ u, columns g' u = columns g u) ∧ get_primary_key_for_object g' t = k ∧
    ∀ t', t' ≠ t → get_primary_key_for_object g' t' = get_primary_key_for_object g t'.
Proof.
  intros Hok Hids. pose proof (pk_length g Hok) as [L1 L2]. unfold set_primary_key_for_object, has_table.
  rewrite (bool_decide_true (c_primaryKeyTableName ∈ tables g)) by apply Hok. cbn [assert mbind Result_bind]. rewrite Hids.
  destruct (decide (t ∈ keys g)) as [Hin|Hin].
  - apply list_elem_of_lookup in Hin as [row Hrow]. rewrite (find_key_Some g t row (pk_unique _ Hok) Hrow).
    apply lookup_lt_Some in Hrow as Hlt. case_bool_decide as Hk.
    + subst. eexists. split; [done|]. destruct (remove_key g row Hok Hlt) as (K0&K1&Hok').
      split; [done|]. split; [apply tables_move_last_over|]. split; [intros; apply columns_move_last_over|].
      split.
      * apply primary_key_None. rewrite K0. intros Hin. apply list_elem_of_lookup in Hin as [j Hj].
        rewrite moved_over_lookup in Hj by done. destruct (Nat.ltb_spec j (length (keys g) - 1)); [|done].
        rewrite last_lookup in Hj. pose proof (pk_unique _ Hok) as Hnd.
        destruct (Nat.eqb_spec j row); pose proof (NoDup_lookup _ _ _ _ Hnd Hj Hrow); lia.
      * intros t' Ht'. apply primary_keys_agree; [done|done|]. intros v. rewrite K0, K1. split.
        -- intros (j&Hj&Hv). destruct (moved_over_other _ row j t t' Hlt Hrow Hj) as [_ Hm]; [done|].
           eexists. rewrite !Hm by lia. done.
        -- intros (j&Hj&Hv). rewrite moved_over_lookup in Hj, Hv by lia. rewrite L2, <-L1 in Hv.
           destruct (j <? _)%nat; [|done]. rewrite last_lookup in Hj, Hv. rewrite L2, <-L1 in Hv.
           destruct (j =? row)%nat; by eexists.
    + eexists. split; [done|]. destruct (change_key g row k Hok) as (K0&K1&Hok'). split; [done|].
      split; [apply tables_set_string|]. split; [intros; apply columns_set_string|]. split.
      * rewrite (primary_key_Some _ t row) by (done || by rewrite K0). rewrite K1, list_lookup_insert_eq by lia. done.
      * intros t' Ht'. apply primary_keys_agree; [done|done|]. intros v. rewrite K0, K1.
        split; intros (j&Hj&Hv); exists j; (split; [done|]);
          rewrite list_lookup_insert_ne in *; try done; intros ->; congruence.
  - rewrite find_key_None by done. case_bool_decide as Hk.
    + subst. exists g. split_and!; try done. by apply primary_key_None.
    + eexists. split; [done|]. destruct (append_key g t k Hok Hin) as (K0&K1&Hok'). split; [done|].
      split; [by rewrite tables_set_string, tables_set_string_unique, tables_add_empty_row|].
      split; [intros; by rewrite columns_set_string, columns_set_string_unique, columns_add_empty_row|]. split.
      * rewrite (primary_key_Some _ t (length (keys g))) by (done || rewrite K0, lookup_app_r, Nat.sub_diag by lia; done).
        by rewrite K1, lookup_app_r, L1, L2, Nat.sub_diag by lia.
      * intros t' Ht'. apply primary_keys_agree; [done|done|]. intros v. rewrite K0, K1. split.
        -- intros (j&Hj&Hv). exists j. by rewrite !(lookup_app_l_Some _ _ _ _ Hj), (lookup_app_l_Some _ _ _ _ Hv).
        -- intros (j&[Hj|[Hle Hj]]%lookup_app_Some&Hv).
           ++ exists j. split; [done|]. apply lookup_lt_Some in Hj. by rewrite lookup_app_l in Hv by lia.
           ++ destruct (j - _)%nat; [|done]. injection Hj as ->. done.
Qed.
End Metadata.
