(* ===== verification/ObjectStoreRun.v ===== *)
(** What the appliers of schema changes do to the columns of a file, and running
    changes: what each applier does to the list of columns of the tables. *)
From stdpp Require Import strings gmap.
From S2P Require Import Prelude Property Schema SchemaTheory SchemaCompare SchemaApply SchemaStructure Group ObjectStore ObjectStoreTheory.
Import Schema ObjectStore.

(** ** Columns of properties *)

(** The kind of column a property is stored in *)
Definition kind_of (p : Property) : ColumnKind :=
  let t := prop_type p in
  let core := match copied_type t with Some c => c | None => type_Mixed end in
  if PT.eqb t PT.Object then Link (PT.is_array t) (table_name_for_object_type (object_type p))
  else if PT.is_array t then Subtable [(ArrayColumnName, Plain core (PT.is_nullable t))]
  else Plain core (PT.is_nullable t).

(** What reading a column back gives *)
Definition decode (c : CoreColumn) : Column :=
  let t := default 0 (from_core_type (column_kind c)) in
  mkColumn t
    (match column_kind c with
     | Link _ target => if PT.eqb t PT.Object then object_type_for_table_name target else ""
     | _ => ""
     end) (has_search_index c).

(** Properties that have a column of their own: types of one byte with the
    flags links may have, no reserved name, and no index on links and lists *)
Record storable (p : Property) : Prop := {
  st_type : 0 ≤ prop_type p < 256 ∧ PT.base (prop_type p) ≤ 7;
  st_link : PT.eqb (prop_type p) PT.Object = true →
    PT.is_nullable (prop_type p) = negb (PT.is_array (prop_type p));
  st_target : PT.eqb (prop_type p) PT.Object = false → object_type p = "";
  st_index : Property.requires_index p = true →
    PT.eqb (prop_type p) PT.Object = false ∧ PT.is_array (prop_type p) = false;
  st_name : prop_name p ≠ object_id_column_name }.

#[export] Instance storable_dec p : Decision (storable p).
Proof.
  refine (cast_if_and5
    (decide (0 ≤ prop_type p < 256 ∧ PT.base (prop_type p) ≤ 7))
    (decide (PT.eqb (prop_type p) PT.Object = true →
       PT.is_nullable (prop_type p) = negb (PT.is_array (prop_type p))))
    (decide (PT.eqb (prop_type p) PT.Object = false → object_type p = ""))
    (decide (Property.requires_index p = true →
      PT.eqb (prop_type p) PT.Object = false ∧ PT.is_array (prop_type p) = false))
    (decide (prop_name p ≠ object_id_column_name))).
  all: first [by split | by intros []].
Defined.

(** Facts about types, checked on the 256 values *)
Definition type_facts (t : Z) : Prop :=
  PT.base t ≤ 7 →
  (PT.eqb t PT.LinkingObjects = false) ∧
  (PT.eqb t PT.Object = true →
     PT.is_nullable t = negb (PT.is_array t) →
     from_core_type (Link (PT.is_array t) "") = Some t) ∧
  (PT.eqb t PT.Object = false →
     ∃ c, to_core_type t = inl c ∧ to_core_type (PT.base t) = inl c ∧ copied_type t = Some c ∧
       from_core_type (Plain c (PT.is_nullable t)) =
         Some (PT.and_ t (PT.not_ PT.Array)) ∧
       (if PT.is_array t then PT.or_ (PT.and_ t (PT.not_ PT.Array)) PT.Array
        else PT.and_ t (PT.not_ PT.Array)) = t).

Lemma type_facts_all t : 0 ≤ t < 256 → type_facts t.
Proof.
  intros Ht. revert t Ht. assert (Forall type_facts (seqZ 0 256)) as H.
  { apply Forall_forall. intros t Ht. apply elem_of_seqZ in Ht.
    assert (Forall (λ t, PT.base t ≤ 7 → PT.eqb t PT.LinkingObjects = false ∧
      (PT.eqb t PT.Object = true → PT.is_nullable t = negb (PT.is_array t) →
        from_core_type (Link (PT.is_array t) "") = Some t) ∧
      (PT.eqb t PT.Object = false → Exists (λ c, to_core_type t = inl c ∧ to_core_type (PT.base t) = inl c ∧
        copied_type t = Some c ∧ from_core_type (Plain c (PT.is_nullable t)) = Some (PT.and_ t (PT.not_ PT.Array)) ∧
        (if PT.is_array t then PT.or_ (PT.and_ t (PT.not_ PT.Array)) PT.Array
         else PT.and_ t (PT.not_ PT.Array)) = t)
        [type_Int; type_Bool; type_Float; type_Double; type_String; type_Binary; type_Timestamp])) (seqZ 0 256)) as H.
    { by_decision. }
    rewrite Forall_forall in H. intros Hb. destruct (H t) as (H1&H2&H3); [by apply elem_of_seqZ|done|].
    split; [done|]. split; [done|]. intros Ho. apply H3, Exists_exists in Ho as (c&_&Hc). by exists c. }
  intros t Ht. rewrite Forall_forall in H. apply H, elem_of_seqZ. lia.
Qed.

(** The column [insert_column] makes *)
Definition made (p : Property) : CoreColumn :=
  mkCoreColumn (prop_name p) (kind_of p) (Property.requires_index p).

Lemma decode_made p : storable p → decode (made p) = wanted p.
Proof.
  intros [[Ht Hb] Hl Ho Hi _]. destruct (type_facts_all _ Ht Hb) as (_&Hlink&Hplain).
  unfold decode, made, wanted, kind_of; cbn [column_kind].
  destruct (PT.eqb (prop_type p) PT.Object) eqn:E.
  - assert (∀ n, from_core_type (Link (PT.is_array (prop_type p)) n) = Some (prop_type p)) as Hf.
    { intros n. specialize (Hlink eq_refl (Hl eq_refl)). by destruct (PT.is_array (prop_type p)). }
    rewrite Hf. simpl. by rewrite E, object_type_of_table_name.
  - destruct (Hplain eq_refl) as (c&_&_&->&Hf&Hor). rewrite (Ho eq_refl).
    destruct (PT.is_array (prop_type p)); cbn [has_search_index].
    + change (from_core_type (Subtable _)) with
        ((λ t, PT.or_ t PT.Array) <$> from_core_type (Plain c (PT.is_nullable (prop_type p)))).
      rewrite Hf. simpl. by rewrite Hor.
    + rewrite Hf. simpl. by rewrite Hor.
Qed.

Section Columns.
Context {platform : CharSign} {sync : SyncBuild} {G : Type} {ops : GroupOps G} {laws : GroupLaws G}.
Implicit Types g : G.

(** The class a link goes to has a table. *)
Definition target_exists g (p : Property) : Prop :=
  PT.eqb (prop_type p) PT.Object = true → table_name_for_object_type (object_type p) ∈ tables g.

Lemma length_inserted {A} i (x : A) l : (i ≤ length l)%nat → length (inserted i x l) = S (length l).
Proof. intros Hi. unfold inserted. rewrite length_app, length_take. simpl. rewrite length_drop. lia. Qed.

Lemma alter_inserted {A} (f : A → A) i x l : (i ≤ length l)%nat → alter f i (inserted i x l) = inserted i (f x) l.
Proof.
  intros Hi. unfold inserted. rewrite alter_app_r_alt; rewrite length_take_le by done; [|lia].
  by rewrite Nat.sub_diag.
Qed.

Lemma removed_inserted {A} i (x : A) l : (i < length l)%nat → removed (S i) (inserted i x l) = <[i := x]> l.
Proof.
  revert i. induction l as [|y l IH]; intros i Hi; simpl in Hi; [lia|].
  destruct i as [|i]; [done|]. change (y :: removed (S i) (inserted i x l) = y :: <[i := x]> l).
  f_equal. apply IH. lia.
Qed.

Lemma insert_column_ok t p i g :
  storable p → t ∈ tables g → (i ≤ length (columns g t))%nat → target_exists g p →
  ∃ g', insert_column t p i g = inl g' ∧ tables g' = tables g ∧
    upd t (inserted i (made p)) (columns g) (columns g').
Proof.
  intros [[Ht Hb] Hl Ho Hi _] Hin Hle Htgt. destruct (type_facts_all _ Ht Hb) as (HL&_&Hplain).
  unfold insert_column. rewrite HL. cbn [assert negb mbind Result_bind].
  pose proof (λ k, columns_insert_column t i (prop_name p) k g Hin Hle) as Hcols.
  unfold made, kind_of. destruct (PT.eqb (prop_type p) PT.Object) eqn:E.
  - unfold has_table. rewrite bool_decide_true by by apply Htgt. cbn [assert mbind Result_bind].
    eexists. split; [done|]. rewrite tables_insert_column. split; [done|].
    destruct (Property.requires_index p); [by destruct (Hi eq_refl)|]. apply Hcols.
  - destruct (Hplain eq_refl) as (c&->&->&->&_). cbn [mbind Result_bind].
    destruct (PT.is_array (prop_type p)) eqn:Ea.
    + eexists. split; [done|]. rewrite tables_insert_column. split; [done|].
      destruct (Property.requires_index p); [by destruct (Hi eq_refl)|]. apply Hcols.
    + specialize (Hcols (Plain c (PT.is_nullable (prop_type p)))).
      destruct (Property.requires_index p); [|eexists; split; [done|]; by rewrite tables_insert_column].
      eexists. split; [done|]. set (g1 := core_insert_column _ _ _ _ g) in *.
      assert (tables g1 = tables g) as Ht1 by apply tables_insert_column. rewrite tables_add_index.
      split; [done|]. pose proof (upd_eq _ _ _ _ Hcols) as Hc1.
      assert (i < length (columns g1 t))%nat as Hlt by (rewrite Hc1, length_inserted by done; lia).
      pose proof (columns_add_index t i g1 ltac:(by rewrite Ht1) Hlt) as Ha.
      intros u. rewrite (Ha u). case_decide; [subst|by rewrite (upd_ne _ _ _ _ _ Hcols)].
      rewrite Hc1. by rewrite alter_inserted.
Qed.

(** [replace_column], [make_property_optional] and [make_property_required]
    replace a column in its place. *)
Lemma swap_column_ok t p i g (f : G → G) :
  storable p → t ∈ tables g → (i < length (columns g t))%nat → target_exists g p →
  (∀ g, tables (f g) = tables g ∧ ∀ u, columns (f g) u = columns g u) →
  ∃ g', (g1 ← insert_column t p i g; inl (core_remove_column t (S i) (f g1))) = inl g' ∧
    tables g' = tables g ∧ upd t (λ l, <[i := made p]> l) (columns g) (columns g').
Proof.
  intros Hp Hin Hlt Htgt Hf.
  destruct (insert_column_ok t p i g Hp Hin ltac:(lia) Htgt) as (g1&->&Ht1&Hc1).
  cbn [mbind Result_bind]. eexists. split; [done|]. destruct (Hf g1) as [Hft Hfc].
  rewrite tables_remove_column, Hft. split; [done|]. pose proof (upd_eq _ _ _ _ Hc1) as Heq.
  assert (S i < length (columns (f g1) t))%nat as Hlt'.
  { rewrite Hfc, Heq. rewrite length_inserted by lia. lia. }
  assert (t ∈ tables (f g1)) as Hin' by (by rewrite Hft, Ht1).
  intros u. rewrite (columns_remove_column t (S i) (f g1) Hin' Hlt' u). case_decide; [subst|].
  - rewrite Hfc, Heq. by apply removed_inserted.
  - by rewrite Hfc, (upd_ne _ _ _ _ _ Hc1).
Qed.

Lemma copy_property_values_frame p t g :
  tables (copy_property_values p t g) = tables g ∧ ∀ u, columns (copy_property_values p t g) u = columns g u.
Proof.
  unfold copy_property_values. destruct (copied_type (prop_type p)) as [ty|]; [|done].
  generalize (seq 0 (table_size g t)). intros l. revert g.
  induction l as [|i l IH]; intros g; [done|]. simpl.
  destruct (IH (copy_value t ty (Z.to_nat (table_column p)) (Z.to_nat (table_column p +w 1)) i g)) as [H1 H2].
  rewrite H1, tables_copy_value. split; [done|]. intros u. by rewrite H2, columns_copy_value.
Qed.
End Columns.

Import Schema ObjectStore.

(** ** Lists of named columns *)
Notation Entry := (prod string Column).

Notation table_of c := (table_name_for_object_type (class_of c)).
Definition entry_of (c : CoreColumn) : Entry := (column_name c, decode c).
Definition wanted_entry (p : Property) : Entry := (prop_name p, wanted p).
Definition reindex (b : bool) (e : Entry) : Entry :=
  (e.1, mkColumn (col_type e.2) (col_target e.2) b).

Definition column_of (p : Property) : nat := Z.to_nat (table_column p).
Definition nullable (p : Property) : Property := Property.with_type p (PT.or_ (prop_type p) PT.Nullable).
Definition required (p : Property) : Property :=
  Property.with_type p (PT.and_ (prop_type p) (PT.not_ PT.Nullable)).

(** Columns the object store reads as a property: plain values, links, and
    lists of plain values *)
Definition readable_column (c : CoreColumn) : bool :=
  match column_kind c with
  | Plain t _ => negb (bool_decide (t = type_OldDateTime))
  | Link _ _ => true
  | Subtable [(n, Plain t _)] => bool_decide (n = ArrayColumnName) && negb (bool_decide (t = type_OldDateTime))
  | Subtable _ => false
  end.

Section Run.
Context {platform : CharSign} {sync : SyncBuild}.

(** The column of object ids is not part of the schema. *)
Definition hidden (n : string) : bool := sync_enabled && bool_decide (n = object_id_column_name).

Definition column_ok (c : CoreColumn) : Prop := readable_column c = true ∨ hidden (column_name c) = true.

Lemma made_readable p : storable p → readable_column (made p) = true.
Proof.
  intros [[Ht Hb] _ _ _ _]. unfold readable_column, made, kind_of. cbn [column_kind].
  destruct (PT.eqb (prop_type p) PT.Object) eqn:E; [done|].
  destruct (type_facts_all _ Ht Hb) as (_&_&Hp). destruct (Hp E) as (c&_&_&->&Hc&_).
  assert (c ≠ type_OldDateTime) as Hne by by intros ->.
  destruct (PT.is_array (prop_type p)); by rewrite (bool_decide_false _ Hne).
Qed.

Lemma column_ok_index b c : column_ok c → column_ok (set_index b c).
Proof. done. Qed.

(** The columns [add_initial_columns] adds *)
Definition initial_properties (o : ObjectSchema) : list Property :=
  filter (λ p, sync_enabled && is_primary p = false) (persisted_properties o).

(** A change on the columns of its table *)
Definition column_change (l : list Entry) (c : SchemaChange) : list Entry :=
  match c with
  | AddInitialProperties o => l ++ (wanted_entry <$> initial_properties o)
  | AddProperty _ p => l ++ [wanted_entry p]
  | RemoveProperty _ p => removed (column_of p) l
  | ChangePropertyType _ p q => <[column_of p := wanted_entry q]> l
  | MakePropertyNullable _ p => <[column_of p := wanted_entry (nullable p)]> l
  | MakePropertyRequired _ p => <[column_of p := wanted_entry (required p)]> l
  | AddIndex _ p => alter (reindex true) (column_of p) l
  | RemoveIndex _ p => alter (reindex false) (column_of p) l
  | AddTable _ | RemoveTable _ | ChangePrimaryKey _ _ => l
  end.

(** The properties a change makes columns for *)
Definition made_properties (c : SchemaChange) : list Property :=
  match c with
  | AddInitialProperties o => initial_properties o
  | AddProperty _ p => [p]
  | ChangePropertyType _ _ q => [q]
  | MakePropertyNullable _ p => [nullable p]
  | MakePropertyRequired _ p => [required p]
  | _ => []
  end.

(** The existing property whose column a change is about *)
Definition existing_property (c : SchemaChange) : option Property :=
  match c with
  | RemoveProperty _ p | ChangePropertyType _ p _ | MakePropertyNullable _ p | MakePropertyRequired _ p
  | AddIndex _ p | RemoveIndex _ p => Some p
  | _ => None
  end.

Definition valid_column (n : nat) (p : Property) : Prop :=
  0 ≤ table_column p < npos ∧ (column_of p < n)%nat.

Definition applies (l : list Entry) (c : SchemaChange) : Prop :=
  Forall storable (made_properties c) ∧
  (∀ p, existing_property c = Some p → valid_column (length l) p).

Fixpoint all_apply (l : list Entry) (cs : list SchemaChange) : Prop :=
  match cs with
  | [] => True
  | c :: cs => applies l c ∧ all_apply (column_change l c) cs
  end.

Section Appliers.
Context {G : Type} {ops : GroupOps G} {laws : GroupLaws G}.
Implicit Types g : G.

Definition entries g (t : string) : list Entry := entry_of <$> columns g t.

Lemma length_entries g t : length (entries g t) = length (columns g t).
Proof. apply length_fmap. Qed.

(** The columns of one table change by [f], and stay readable. *)
Definition changed (t : string) (f : list Entry → list Entry) g g' : Prop :=
  tables g' = tables g ∧
  (∀ u, entries g' u = if decide (u = t) then f (entries g u) else entries g u) ∧
  (∀ u, Forall column_ok (columns g u) → Forall column_ok (columns g' u)).

Lemma changed_trans t f1 f2 g1 g2 g3 : changed t f1 g1 g2 → changed t f2 g2 g3 → changed t (f2 ∘ f1) g1 g3.
Proof.
  intros (T1&H1&R1) (T2&H2&R2). split; [congruence|]. split; [|auto]. intros u. rewrite H2, !H1. by case_decide.
Qed.

Lemma changed_same t f g g' :
  tables g' = tables g → (∀ u, columns g' u = columns g u) → (∀ l, f l = l) → changed t f g g'.
Proof.
  intros Ht Hc Hf. split; [done|]. split; intros u; [|by rewrite Hc]. unfold entries. rewrite Hc, Hf.
  by case_decide.
Qed.

Lemma changed_upd t f F g g' :
  tables g' = tables g → upd t f (columns g) (columns g') →
  (entry_of <$> f (columns g t) = F (entries g t)) →
  (Forall column_ok (columns g t) → Forall column_ok (f (columns g t))) → changed t F g g'.
Proof.
  intros Ht Hu HF Hok. split; [done|]. split; intros u; unfold entries; rewrite (Hu u); by case_decide; [subst|].
Qed.

Lemma removed_ok i l : Forall column_ok l → Forall column_ok (removed i l).
Proof. intros Hl. unfold removed. apply Forall_app. split; [by apply Forall_take|by apply Forall_drop]. Qed.

Lemma index_ok b i l : Forall column_ok l → Forall column_ok (alter (set_index b) i l).
Proof. intros Hl. apply Forall_alter; [done|]. intros. by apply column_ok_index. Qed.

Lemma fmap_removed {A B} (f : A → B) i l : f <$> removed i l = removed i (f <$> l).
Proof. unfold removed. by rewrite fmap_app, fmap_take, fmap_drop. Qed.

Lemma fmap_inserted_end {A B} (f : A → B) x l : f <$> inserted (length l) x l = (f <$> l) ++ [f x].
Proof. unfold inserted. by rewrite firstn_all, drop_all, fmap_app. Qed.

Lemma entry_made p : storable p → entry_of (made p) = wanted_entry p.
Proof. intros Hp. unfold entry_of, wanted_entry. by rewrite decode_made. Qed.

Lemma add_column_ok t p g :
  storable p → t ∈ tables g → target_exists g p →
  ∃ g', add_column t p g = inl g' ∧ changed t (λ l, l ++ [wanted_entry p]) g g'.
Proof.
  intros Hp Ht Htgt. destruct (insert_column_ok t p (length (columns g t)) g Hp Ht (Nat.le_refl _) Htgt)
    as (g'&Heq&Htab&Hcols). exists g'. split; [done|]. eapply changed_upd; [done|exact Hcols| |].
  - by rewrite fmap_inserted_end, entry_made.
  - intros Hok. unfold inserted. rewrite firstn_all, drop_all. apply Forall_app. split; [done|].
    constructor; [|constructor]. left. by apply made_readable.
Qed.

Lemma swapped t p i g g' :
  storable p → tables g' = tables g → upd t (λ l, <[i := made p]> l) (columns g) (columns g') →
  changed t (λ l, <[i := wanted_entry p]> l) g g'.
Proof.
  intros Hp Ht Hu. eapply changed_upd; [done|exact Hu|by rewrite list_fmap_insert, entry_made|].
  intros Hok. apply Forall_insert; [done|]. left. by apply made_readable.
Qed.

Lemma next_column p : 0 ≤ table_column p < npos → Z.to_nat (table_column p +w 1) = S (column_of p).
Proof. intros Hp. unfold column_of. rewrite wadd_small by (unfold npos in *; lia). lia. Qed.

Lemma replace_column_ok t p q g :
  storable q → t ∈ tables g → valid_column (length (columns g t)) p → target_exists g q →
  ∃ g', replace_column t p q g = inl g' ∧ changed t (λ l, <[column_of p := wanted_entry q]> l) g g'.
Proof.
  intros Hq Ht [Hp Hlt] Htgt.
  destruct (swap_column_ok t q (column_of p) g id Hq Ht Hlt Htgt) as (g'&Heq&Htab&Hu); [done|].
  exists g'. split; [|by apply swapped]. unfold replace_column. rewrite next_column by done. exact Heq.
Qed.

Lemma make_optional_ok t p g :
  storable (nullable p) → t ∈ tables g → valid_column (length (columns g t)) p → target_exists g (nullable p) →
  ∃ g', make_property_optional t p g = inl g' ∧
    changed t (λ l, <[column_of p := wanted_entry (nullable p)]> l) g g'.
Proof.
  intros Hq Ht [Hp Hlt] Htgt.
  destruct (swap_column_ok t (nullable p) (column_of p) g (copy_property_values (nullable p) t) Hq Ht Hlt Htgt)
    as (g'&Heq&Htab&Hu); [apply copy_property_values_frame|].
  exists g'. split; [|by apply swapped]. unfold make_property_optional. fold (nullable p).
  change (table_column (nullable p)) with (table_column p). rewrite next_column by done. exact Heq.
Qed.

Lemma make_required_ok t p g :
  storable (required p) → t ∈ tables g → valid_column (length (columns g t)) p → target_exists g (required p) →
  ∃ g', make_property_required t p g = inl g' ∧
    changed t (λ l, <[column_of p := wanted_entry (required p)]> l) g g'.
Proof.
  intros Hq Ht [Hp Hlt] Htgt.
  destruct (swap_column_ok t (required p) (column_of p) g id Hq Ht Hlt Htgt) as (g'&Heq&Htab&Hu); [done|].
  exists g'. split; [|by apply swapped]. unfold make_property_required. fold (required p).
  change (table_column (required p)) with (table_column p). rewrite next_column by done. exact Heq.
Qed.

Lemma fmap_reindex b i (l : list CoreColumn) :
  entry_of <$> alter (set_index b) i l = alter (reindex b) i (entry_of <$> l).
Proof. apply list_fmap_alter. by apply Forall_forall. Qed.

(** [table_helper] finds the table of the class. *)

Lemma on_table_ok o (f : string → G → Result G) g :
  table_name_for_object_type (class_name o) ∈ tables g →
  on_table o f g = f (table_name_for_object_type (class_name o)) g.
Proof. intros Ht. unfold on_table, table_helper, has_table. by rewrite bool_decide_true. Qed.

Lemma add_initial_columns_ok o g :
  Forall storable (initial_properties o) → table_name_for_object_type (class_name o) ∈ tables g →
  Forall (target_exists g) (initial_properties o) →
  ∃ g', add_initial_columns o g = inl g' ∧
    changed (table_name_for_object_type (class_name o)) (λ l, l ++ (wanted_entry <$> initial_properties o)) g g'.
Proof.
  unfold add_initial_columns, has_table, initial_properties. intros Hst Ht Htgt.
  rewrite bool_decide_true by done. cbn [assert mbind Result_bind].
  set (t := table_name_for_object_type (class_name o)) in *. clearbody t.
  revert g Ht Htgt. induction (persisted_properties o) as [|p ps IH]; intros g Ht Htgt.
  { exists g. split; [done|]. apply changed_same; [done|done|]. intros l. apply app_nil_r. }
  simpl. rewrite filter_cons in *. destruct (sync_enabled && is_primary p) eqn:E; cbn [mbind Result_bind].
  - rewrite decide_False in * by done. by apply IH.
  - rewrite decide_True in * by done. apply Forall_cons in Hst as [Hp Hst]. apply Forall_cons in Htgt as [Htp Htgt].
    destruct (add_column_ok t p g Hp Ht Htp) as (g1&->&H1). cbn [mbind Result_bind].
    destruct (IH Hst g1) as (g2&->&H2).
    + by rewrite (proj1 H1).
    + eapply Forall_impl; [exact Htgt|]. intros q. unfold target_exists. by rewrite (proj1 H1).
    + exists g2. split; [done|]. destruct (changed_trans _ _ _ _ _ _ H1 H2) as (T2&C2&R2). split; [done|].
      split; [|done]. intros u. rewrite C2. case_decide; [|done]. simpl. by rewrite <-app_assoc.
Qed.

(** A file without object ids, whose primary keys are in the table of the
    object store *)
Context (local_file : ∀ g, sync_enabled && has_object_ids g = false).

Lemma set_primary_key_frame t k g :
  c_primaryKeyTableName ∈ tables g →
  ∃ g', set_primary_key_for_object t k g = inl g' ∧ tables g' = tables g ∧
    ∀ u, columns g' u = columns g u.
Proof.
  intros Hpk. unfold set_primary_key_for_object, has_table.
  rewrite (bool_decide_true (c_primaryKeyTableName ∈ tables g)) by done. cbn [assert mbind Result_bind].
  rewrite local_file. destruct (find_first_string _ _ _ _) as [row|], (bool_decide (k = "")); eexists;
    (split; [done|]).
  - split; [apply tables_move_last_over|intros; apply columns_move_last_over].
  - split; [apply tables_set_string|intros; apply columns_set_string].
  - done.
  - split; [by rewrite tables_set_string, tables_set_string_unique, tables_add_empty_row|].
    intros u. by rewrite columns_set_string, columns_set_string_unique, columns_add_empty_row.
Qed.

Lemma initial_applier_ok c g :
  is_add_table c = false → table_of c ∈ tables g → c_primaryKeyTableName ∈ tables g →
  applies (entries g (table_of c)) c → Forall (target_exists g) (made_properties c) →
  ∃ g', initial_applier g c = inl g' ∧ changed (table_of c) (λ l, column_change l c) g g'.
Proof.
  intros Hc Ht Hpk [Hst Hval] Htgt. rewrite length_entries in Hval.
  assert (∀ b p f, (f = add_search_index ∧ b = true ∨ f = remove_search_index ∧ b = false) →
    existing_property c = Some p →
    changed (table_of c) (alter (reindex b) (column_of p)) g (f (table_of c) (column_of p) g)) as Hindex.
  { intros b p f Hf Hp. destruct (Hval p Hp) as [_ Hlt].
    destruct Hf as [[-> ->]|[-> ->]].
    - eapply changed_upd; [apply tables_add_index|by apply columns_add_index|apply fmap_reindex|apply index_ok].
    - eapply changed_upd; [apply tables_remove_index|by apply columns_remove_index|apply fmap_reindex|apply index_ok]. }
  destruct c as [o|o|o|o p|o p|o p q|o p|o p|o p|o p|o p]; simpl in *; try done; rewrite ?on_table_ok by done.
  - exists g. split; [done|]. by apply changed_same.
  - by apply add_initial_columns_ok.
  - rewrite Forall_singleton in Hst, Htgt. by apply add_column_ok.
  - destruct (Hval p eq_refl) as [_ Hlt]. eexists. split; [done|].
    eapply changed_upd; [apply tables_remove_column|by apply columns_remove_column|apply fmap_removed|apply removed_ok].
  - rewrite Forall_singleton in Hst, Htgt. apply replace_column_ok; auto.
  - rewrite Forall_singleton in Hst, Htgt. apply make_optional_ok; auto.
  - rewrite Forall_singleton in Hst, Htgt. apply make_required_ok; auto.
  - eexists. split; [done|]. apply (Hindex true p add_search_index); auto.
  - eexists. split; [done|]. apply (Hindex false p remove_search_index); auto.
  - destruct (set_primary_key_frame (class_name o) (from_option prop_name "" p) g Hpk) as (g'&Heq&Hta&Hcol).
    exists g'. split; [exact Heq|]. by apply changed_same.
Qed.

(** ** Running a list of changes *)
Lemma all_apply_other n l c cs :
  class_of c ≠ n → all_apply l (about_class n (c :: cs)) = all_apply l (about_class n cs).
Proof. intros Hn. unfold about_class. by rewrite filter_cons, decide_False. Qed.

Lemma about_class_here c cs : about_class (class_of c) (c :: cs) = c :: about_class (class_of c) cs.
Proof. unfold about_class. by rewrite filter_cons, decide_True. Qed.

Lemma about_class_other n c cs : class_of c ≠ n → about_class n (c :: cs) = about_class n cs.
Proof. intros Hn. unfold about_class. by rewrite filter_cons, decide_False. Qed.

Lemma run_changes cs : ∀ g,
  Forall (λ c, is_add_table c = false ∧ table_of c ∈ tables g ∧ Forall (target_exists g) (made_properties c)) cs →
  c_primaryKeyTableName ∈ tables g →
  (∀ n, all_apply (entries g (table_name_for_object_type n)) (about_class n cs)) →
  ∃ g', fold_result initial_applier g cs = inl g' ∧ tables g' = tables g ∧
    (∀ n, entries g' (table_name_for_object_type n) =
      foldl column_change (entries g (table_name_for_object_type n)) (about_class n cs)) ∧
    (∀ u, Forall column_ok (columns g u) → Forall column_ok (columns g' u)).
Proof.
  induction cs as [|c cs IH]; intros g Hcs Hpk Happ; [by exists g|].
  apply Forall_cons in Hcs as [(Hc&Ht&Htgt) Hcs].
  pose proof (Happ (class_of c)) as Hc1. rewrite about_class_here in Hc1. destruct Hc1 as [Hc1 _].
  destruct (initial_applier_ok c g Hc Ht Hpk Hc1 Htgt) as (g1&Heq&Htab&Hent&Hok). cbn [fold_result].
  rewrite Heq. cbn [mbind Result_bind].
  assert (∀ n, entries g1 (table_name_for_object_type n) =
    if decide (n = class_of c) then column_change (entries g (table_of c)) c
    else entries g (table_name_for_object_type n)) as Hent1.
  { intros n. rewrite Hent. destruct (decide (n = class_of c)) as [->|Hn]; [by rewrite decide_True|].
    rewrite decide_False; [done|]. intros E. by apply table_name_inj in E. }
  destruct (IH g1) as (g'&->&Htab'&Hent'&Hok').
  - rewrite Htab. eapply Forall_impl; [exact Hcs|]. intros d (?&?&Hd). split_and!; [done|done|].
    eapply Forall_impl; [exact Hd|]. intros p. unfold target_exists. by rewrite Htab.
  - by rewrite Htab.
  - intros n. specialize (Happ n). rewrite Hent1. case_decide as E.
    + subst. rewrite about_class_here in Happ. apply Happ.
    + by rewrite about_class_other in Happ by congruence.
  - exists g'. split; [done|]. split; [congruence|]. split; [|auto].
    intros n. rewrite Hent', Hent1. case_decide as E.
    + subst. by rewrite about_class_here.
    + by rewrite about_class_other by congruence.
Qed.
End Appliers.
End Run.
