(* ===== verification/ObjectStoreRead.v ===== *)
(** The changes of one class on the list of columns of its table: positions stay
    valid until the end, and the columns become those the target asks for.  Then
    reading the classes of a file: the properties are the visible columns of the
    table, with their positions. *)
From stdpp Require Import strings gmap.
From S2P Require Import Prelude Property Schema SchemaTheory SchemaCompare SchemaApply SchemaStructure Group ObjectStore ObjectStoreTheory ObjectStoreRun.
Import Schema ObjectStore.

Section Class.
Context {platform : CharSign} {sync : SyncBuild}.

(** A list of columns with distinct names stands for a map of columns. *)
Definition stands_for (l : list Entry) (m : gmap string Column) : Prop :=
  NoDup l.*1 ∧ ∀ n c, m !! n = Some c ↔ (n, c) ∈ l ∧ hidden n = false.

Lemma names_at (l : list Entry) i n x : l !! i = Some (n, x) → l.*1 !! i = Some n.
Proof. intros Hi. by rewrite list_lookup_fmap, Hi. Qed.

Lemma same_position (l : list Entry) i j n x y :
  NoDup l.*1 → l !! i = Some (n, x) → l !! j = Some (n, y) → i = j.
Proof. intros Hnd Hi Hj. eapply NoDup_lookup; [exact Hnd|by eapply names_at|by eapply names_at]. Qed.

Lemma names_insert (l : list Entry) i n x y : l !! i = Some (n, x) → (<[i := (n, y)]> l).*1 = l.*1.
Proof.
  intros Hi. rewrite list_fmap_insert. simpl. rewrite list_insert_id; [done|]. by eapply names_at.
Qed.

Lemma stands_insert l m i n x y :
  stands_for l m → l !! i = Some (n, x) → hidden n = false → stands_for (<[i := (n, y)]> l) (<[n := y]> m).
Proof.
  intros [Hnd Hm] Hi Hn. split; [by erewrite names_insert|]. intros k c.
  rewrite lookup_insert_Some, Hm. apply lookup_lt_Some in Hi as Hlt. rewrite !list_elem_of_lookup. split.
  - intros [[<- <-]|(Hne&(j&Hj)&Hk)].
    + split; [|done]. exists i. by apply list_lookup_insert_eq.
    + split; [|done]. exists j. rewrite list_lookup_insert_ne; [done|]. intros ->. congruence.
  - intros [[j Hj] Hk]. destruct (decide (i = j)) as [->|Hij].
    + rewrite list_lookup_insert_eq in Hj by done. injection Hj as <- <-. by left.
    + rewrite list_lookup_insert_ne in Hj by done. right. split; [|split; [by exists j|done]].
      intros <-. apply Hij. by eapply same_position.
Qed.

Lemma stands_append l m n y :
  stands_for l m → ¬ n ∈ l.*1 → hidden n = false → stands_for (l ++ [(n, y)]) (<[n := y]> m).
Proof.
  intros [Hnd Hm] Hn Hh. split.
  - rewrite fmap_app. apply NoDup_app. split; [done|]. split; [|apply NoDup_singleton].
    intros z Hz ->%list_elem_of_singleton. done.
  - intros k c. rewrite lookup_insert_Some, Hm, elem_of_app, list_elem_of_singleton. split.
    + intros [[<- <-]|(Hne&Hin&Hk)]; auto.
    + intros [[Hin|[= -> ->]] Hk]; [right|by left]. split; [|done]. intros <-. apply Hn.
      apply list_elem_of_fmap. by exists (n, c).
Qed.

Lemma removed_lookup {A} i j (l : list A) : (j < i)%nat → removed i l !! j = l !! j.
Proof.
  intros Hj. unfold removed. destruct (decide (j < length l)%nat) as [Hl|Hl].
  - rewrite lookup_app_l by (rewrite length_take; lia). by apply lookup_take_lt.
  - rewrite lookup_app_r by (rewrite length_take; lia). rewrite (lookup_ge_None_2 l) by lia.
    apply lookup_ge_None_2. rewrite length_take, length_drop. lia.
Qed.

Lemma removed_middle {A} i (l : list A) x : l !! i = Some x → l ≡ₚ x :: removed i l.
Proof.
  intros Hi. rewrite <-(take_drop_middle l i x Hi) at 1. unfold removed. by rewrite <-Permutation_middle.
Qed.

Lemma removed_elem {A} i (l : list A) x y : l !! i = Some x → y ∈ l ↔ y = x ∨ y ∈ removed i l.
Proof.
  intros Hi. pose proof (removed_middle i l x Hi) as Hp. rewrite <-elem_of_cons.
  revert Hp. generalize (removed i l). by intros r ->.
Qed.

Lemma stands_remove l m i n x :
  stands_for l m → l !! i = Some (n, x) → stands_for (removed i l) (delete n m).
Proof.
  intros [Hnd Hm] Hi. pose proof (removed_middle i l _ Hi) as Hp.
  assert (NoDup ((n, x) :: removed i l).*1) as Hnd'.
  { revert Hp. generalize (removed i l). intros r Hp. by rewrite <-Hp. }
  rewrite fmap_cons in Hnd'. apply NoDup_cons in Hnd' as [Hn Hnd']. split; [done|]. intros k c.
  rewrite lookup_delete_Some, Hm, (removed_elem i l _ _ Hi). split.
  - intros (Hne&[[= -> ->]|Hin]&Hk); done.
  - intros [Hin Hk]. split; [|auto]. intros <-. apply Hn. apply list_elem_of_fmap. by exists (n, c).
Qed.

(** ** Changes that can be run one after the other *)
Record ready (l : list Entry) (cs : list SchemaChange) : Prop := {
  rd_distinct : NoDup (omap touched cs);
  rd_existing : ∀ c p, c ∈ cs → existing_property c = Some p →
    0 ≤ table_column p < npos ∧ l !! column_of p = Some (prop_name p, present p);
  rd_fresh : ∀ o p, AddProperty o p ∈ cs → ¬ prop_name p ∈ l.*1;
  rd_storable : ∀ c p, c ∈ cs → p ∈ made_properties c → storable p;
  rd_name : ∀ o p q, ChangePropertyType o p q ∈ cs → prop_name q = prop_name p;
  rd_visible : ∀ c p, c ∈ cs → existing_property c = Some p → hidden (prop_name p) = false;
  rd_kind : Forall (λ c, is_add_table c = false ∧ is_initial c = false) cs;
  rd_order : ∃ a r, cs = a ++ r ∧ Forall (λ c, is_not_remove c = true) a ∧
    Forall (λ c, is_not_remove c = false) r ∧ StronglySorted removed_ge r }.

Lemma storable_visible p : storable p → hidden (prop_name p) = false.
Proof.
  intros Hp. unfold hidden. rewrite bool_decide_false by apply Hp. apply andb_false_r.
Qed.

Lemma partial_alter_value {A} (f : option A → option A) n (m : gmap string A) y :
  f (m !! n) = Some y → partial_alter f n m = <[n := y]> m.
Proof.
  intros Hf. apply map_eq. intros k. destruct (decide (k = n)) as [->|Hk].
  - by rewrite lookup_partial_alter_eq, lookup_insert_eq.
  - by rewrite lookup_partial_alter_ne, lookup_insert_ne.
Qed.

Lemma existing_touched c p : existing_property c = Some p → touched c = Some (prop_name p).
Proof. destruct c; simpl; by intros [= ->]. Qed.

Lemma alter_at {A} (f : A → A) i (l : list A) x : l !! i = Some x → alter f i l = <[i := f x]> l.
Proof.
  revert i. induction l as [|y l IH]; intros [|i]; simpl; try done; [by intros [= ->]|].
  intros Hi. change (y :: alter f i l = y :: <[i := f x]> l). by rewrite (IH i).
Qed.

(** A change that is not a removal replaces a column or appends one. *)
Lemma column_change_in_place l c p :
  existing_property c = Some p → is_not_remove c = true →
  l !! column_of p = Some (prop_name p, present p) →
  (∀ o q, c = ChangePropertyType o p q → prop_name q = prop_name p) →
  ∃ y, column_change l c = <[column_of p := (prop_name p, y)]> l ∧
    effect c (Some (present p)) = Some y.
Proof.
  intros Hp Hc Hl Hq. destruct c; try done; simpl in Hp; injection Hp as ->; simpl.
  - eexists. split; [|done]. unfold wanted_entry. by rewrite (Hq object new_property).
  - by eexists.
  - by eexists.
  - rewrite (alter_at _ _ _ _ Hl). by eexists.
  - rewrite (alter_at _ _ _ _ Hl). by eexists.
Qed.

Lemma ready_tail l l' c cs :
  ready l (c :: cs) →
  (∀ d p, d ∈ cs → existing_property d = Some p → l' !! column_of p = l !! column_of p) →
  (∀ o p, AddProperty o p ∈ cs → ¬ prop_name p ∈ l.*1 → ¬ prop_name p ∈ l'.*1) →
  ready l' cs.
Proof.
  intros [R1 R2 R3 R4 R5 R6 R7 (a&r&Heq&Ha&Hr&Hs)] Hold Hnew. split.
  - simpl in R1. destruct (touched c); [by apply NoDup_cons in R1 as [_ ?]|done].
  - intros d p Hd Hp. rewrite (Hold d p Hd Hp). apply (R2 d); [by constructor|done].
  - intros o p Hd. apply (Hnew o); [done|]. apply (R3 o). by constructor.
  - intros d p Hd. apply R4. by constructor.
  - intros o p q Hd. apply (R5 o). by constructor.
  - intros d p Hd. apply R6. by constructor.
  - by apply Forall_cons in R7 as [_ ?].
  - destruct a as [|d a]; simpl in Heq.
    + destruct r as [|d r]; [done|]. injection Heq as <- ->. exists [], r. split_and!; [done|constructor| |].
      * by apply Forall_cons in Hr as [_ ?].
      * by apply StronglySorted_inv in Hs as [? _].
    + injection Heq as <- ->. exists a, r. split_and!; [done| |done|done].
      by apply Forall_cons in Ha as [_ ?].
Qed.

(** Another change is about another position. *)
Lemma other_position l c d cs p q :
  ready l (c :: cs) → NoDup l.*1 → d ∈ cs → existing_property c = Some p → existing_property d = Some q →
  column_of q ≠ column_of p.
Proof.
  intros R Hnd Hd Hp Hq E. destruct (rd_existing _ _ R c p) as [_ Hlp]; [constructor|done|].
  destruct (rd_existing _ _ R d q) as [_ Hlq]; [by constructor|done|]. rewrite E, Hlp in Hlq.
  injection Hlq as Hname _. pose proof (rd_distinct _ _ R) as Hnd'. simpl in Hnd'.
  rewrite (existing_touched c p Hp) in Hnd'. apply NoDup_cons in Hnd' as [Hn _]. apply Hn.
  apply list_elem_of_omap. exists d. split; [done|]. rewrite (existing_touched d q Hq). congruence.
Qed.

Lemma run_step l m c cs :
  ready l (c :: cs) → stands_for l m →
  applies l c ∧ stands_for (column_change l c) (apply_schema_change m c) ∧ ready (column_change l c) cs.
Proof.
  intros R Hsim. pose proof (proj1 Hsim) as Hnd.
  assert (applies l c) as Happ.
  { split.
    - apply Forall_forall. intros p Hp. eapply (rd_storable _ _ R); [constructor|done].
    - intros p Hp. destruct (rd_existing _ _ R c p ltac:(constructor) Hp) as [H0 Hl].
      split; [done|]. by eapply lookup_lt_Some. }
  split; [done|]. destruct (existing_property c) as [p|] eqn:Hp.
  - destruct (rd_existing _ _ R c p ltac:(constructor) Hp) as [_ Hl].
    pose proof (rd_visible _ _ R c p ltac:(constructor) Hp) as Hv.
    assert (m !! prop_name p = Some (present p)) as Hm.
    { apply Hsim. split; [by eapply list_elem_of_lookup_2|done]. }
    unfold apply_schema_change. rewrite (existing_touched c p Hp).
    destruct (is_not_remove c) eqn:Hc.
    + destruct (column_change_in_place l c p Hp Hc Hl) as (y&->&Hy).
      { intros o q ->. apply (rd_name _ _ R o). constructor. }
      rewrite (partial_alter_value _ _ _ y) by (by rewrite Hm). split; [by eapply stands_insert|].
      eapply ready_tail; [exact R| |].
      * intros d q Hd Hq. apply list_lookup_insert_ne. intros E.
        by apply (other_position l c d cs p q R Hnd Hd Hp Hq).
      * intros o q _ Hfresh. by erewrite names_insert.
    + destruct c as [| | | |o p'| | | | | |]; try done. simpl in Hp. injection Hp as ->. simpl.
      change (partial_alter _ (prop_name p) m) with (delete (prop_name p) m).
      split; [by eapply stands_remove|]. eapply ready_tail; [exact R| |].
      * intros d q Hd Hq. apply removed_lookup.
        pose proof (other_position l _ d cs p q R Hnd Hd eq_refl Hq) as Hne.
        destruct (rd_order _ _ R) as ([|x a]&r&Heq&Ha&Hr&Hs).
        2:{ injection Heq as <- _. by apply Forall_cons in Ha as [? _]. }
        simpl in Heq. subst r. apply StronglySorted_inv in Hs as [_ Hs]. rewrite Forall_forall in Hs, Hr.
        specialize (Hs d Hd). specialize (Hr d ltac:(by constructor)).
        destruct (rd_existing _ _ R d q ltac:(by constructor) Hq) as [H0 _].
        destruct d; try done. simpl in Hq. injection Hq as ->. unfold removed_ge in Hs. simpl in Hs.
        unfold column_of in *. lia.
      * intros o' q _ Hfresh Hin. apply Hfresh. apply list_elem_of_fmap in Hin as (e&->&He).
        apply list_elem_of_fmap_2. apply (removed_elem _ _ _ _ Hl). by right.
  - destruct c as [o|o|o|o p| | | | | | |o k]; try done.
    + by pose proof (rd_kind _ _ R) as [[? _] _]%Forall_cons.
    + split; [done|]. eapply ready_tail; [exact R|done|done].
    + by pose proof (rd_kind _ _ R) as [[_ ?] _]%Forall_cons.
    + simpl. assert (storable p) as Hst by (apply (rd_storable _ _ R (AddProperty o p)); constructor).
      pose proof (rd_fresh _ _ R o p ltac:(constructor)) as Hf. unfold apply_schema_change. simpl.
      change (partial_alter _ (prop_name p) m) with (<[prop_name p := wanted p]> m).
      split; [apply stands_append; [done|done|by apply storable_visible]|].
      eapply ready_tail; [exact R| |].
      * intros d q Hd Hq. destruct (rd_existing _ _ R d q ltac:(by constructor) Hq) as [_ Hl].
        rewrite Hl. by apply lookup_app_l_Some.
      * intros o' q Hq Hfresh. rewrite fmap_app. intros [|E%list_elem_of_singleton]%elem_of_app; [done|].
        pose proof (rd_distinct _ _ R) as Hnd'. simpl in Hnd'. apply NoDup_cons in Hnd' as [Hn _]. apply Hn.
        apply list_elem_of_omap. exists (AddProperty o' q). split; [done|]. simpl. simpl in E. congruence.
    + split; [done|]. eapply ready_tail; [exact R|done|done].
Qed.

(** Running all changes of a class *)
Lemma run_class cs : ∀ l m, ready l cs → stands_for l m →
  all_apply l cs ∧ stands_for (foldl column_change l cs) (foldl apply_schema_change m cs).
Proof.
  induction cs as [|c cs IH]; intros l m R Hsim; [done|].
  destruct (run_step l m c cs R Hsim) as (Happ&Hsim'&R'). destruct (IH _ _ R' Hsim') as [Hall Hend].
  done.
Qed.
End Class.

Import Schema ObjectStore.

Section Read.
Context {platform : CharSign} {sync : SyncBuild} {G : Type} {ops : GroupOps G} {laws : GroupLaws G}.
Implicit Types g : G.

(** The property of a visible column *)
Definition property_at (i : nat) (c : CoreColumn) : Property :=
  mkProperty (column_name c) "" (col_type (decode c)) (col_target (decode c)) "" false
    (has_search_index c) (Z.of_nat i).

Lemma readable_type c : readable_column c = true →
  0 ≤ col_type (decode c) < 256 ∧ from_core_type (column_kind c) = Some (col_type (decode c)).
Proof.
  unfold readable_column, decode. destruct (column_kind c) as [t n|l t|cs]; simpl.
  - intros Ht. assert (t ≠ type_OldDateTime) by (intros ->; by rewrite bool_decide_true in Ht).
    destruct t, n; try done; (split; [vm_compute; split; congruence|done]).
  - destruct l; simpl; (split; [vm_compute; split; congruence|done]).
  - destruct cs as [|[m [t n|l t|ds]] [|x cs]]; try done. intros Ht. apply andb_true_iff in Ht as [_ Ht].
    assert (t ≠ type_OldDateTime) by (intros ->; by rewrite bool_decide_true in Ht).
    destruct t, n; try done; (split; [vm_compute; split; congruence|done]).
Qed.

Lemma property_for_column g t i c :
  column_ok c →
  property_for_column_index g t i c = inl (if hidden (column_name c) then None else Some (property_at i c)).
Proof.
  unfold property_for_column_index. fold (hidden (column_name c)).
  destruct (hidden (column_name c)) eqn:E; [done|]. intros [Hc|]; [|congruence].
  destruct (readable_type c Hc) as [_ ->]. unfold property_at, decode, readable_column in *.
  destruct (column_kind c) as [ty n|l tg|cs]; simpl.
  - assert (ty ≠ type_OldDateTime) by (intros ->; by rewrite bool_decide_true in Hc). by destruct ty, n.
  - by destruct l.
  - destruct cs as [|[m [ty n|l ty|ds]] [|x cs]]; try done. apply andb_true_iff in Hc as [-> Hc].
    assert (ty ≠ type_OldDateTime) by (intros ->; by rewrite bool_decide_true in Hc). by destruct ty, n.
Qed.

Definition readable_table g (t : string) : Prop :=
  Forall column_ok (columns g t) ∧ NoDup (column_name <$> columns g t).

(** The properties read from columns that start at position [i] *)
Definition properties_from (i : nat) (cs : list CoreColumn) : list Property :=
  omap (λ ic : nat * CoreColumn,
    if hidden (column_name ic.2) then None else Some (property_at ic.1 ic.2)) (imap (λ j c, (i + j, c)%nat) cs).

Lemma read_properties g t cs : ∀ i acc,
  Forall column_ok cs →
  fold_result (λ l (ic : nat * CoreColumn), p ← property_for_column_index g t ic.1 ic.2; inl (l ++ option_list p))
    acc (imap (λ j c, (i + j, c)%nat) cs) = inl (acc ++ properties_from i cs).
Proof.
  unfold properties_from. induction cs as [|c cs IH]; intros i acc Hcs; [by rewrite app_nil_r|].
  apply Forall_cons in Hcs as [Hc Hcs]. cbn [imap fold_result omap list_omap fst snd].
  rewrite property_for_column by done. cbn [mbind Result_bind].
  rewrite (imap_ext _ (λ j c, (S i + j, c)%nat) cs) by (intros; simpl; f_equal; lia).
  rewrite IH by done. rewrite Nat.add_0_r, <-app_assoc. by destruct (hidden (column_name c)).
Qed.

Lemma elem_of_properties cs p : ∀ i,
  p ∈ properties_from i cs ↔ ∃ j c, cs !! j = Some c ∧ hidden (column_name c) = false ∧ p = property_at (i + j) c.
Proof.
  unfold properties_from. intros i. rewrite list_elem_of_omap. split.
  - intros ([k c]&Hin&Hp). apply list_elem_of_lookup in Hin as [j Hj]. rewrite list_lookup_imap in Hj.
    destruct (cs !! j) as [c'|] eqn:Hc; [|done]. simpl in *. injection Hj as <- <-. exists j, c'.
    destruct (hidden (column_name c')); [done|]. by injection Hp as <-.
  - intros (j&c&Hj&Hh&->). exists ((i + j)%nat, c). simpl. rewrite Hh. split; [|done].
    apply list_elem_of_lookup. exists j. by rewrite list_lookup_imap, Hj.
Qed.

Lemma names_of_properties cs : ∀ i,
  prop_name <$> properties_from i cs = filter (λ n, hidden n = false) (column_name <$> cs).
Proof.
  unfold properties_from. induction cs as [|c cs IH]; intros i; [done|]. cbn [imap].
  rewrite (imap_ext _ (λ j c, (S i + j, c)%nat) cs) by (intros; simpl; f_equal; lia).
  rewrite fmap_cons, filter_cons. simpl. destruct (hidden (column_name c)).
  - rewrite decide_False by done. apply (IH (S i)).
  - rewrite decide_True by done. rewrite fmap_cons. f_equal. apply (IH (S i)).
Qed.

(** What reading does not change about a property by marking the primary key *)
Definition same_but_key (p q : Property) : Prop :=
  prop_name p = prop_name q ∧ prop_type p = prop_type q ∧ object_type p = object_type q ∧
  is_indexed p = is_indexed q ∧ table_column p = table_column q.

Lemma alter_same_but_key i (l : list Property) :
  (∀ p, p ∈ alter Property.with_primary i l → ∃ q, q ∈ l ∧ same_but_key p q) ∧
  (∀ q, q ∈ l → ∃ p, p ∈ alter Property.with_primary i l ∧ same_but_key p q) ∧
  prop_name <$> alter Property.with_primary i l = prop_name <$> l.
Proof.
  revert i. induction l as [|x l IH]; intros i.
  { split_and!; [by intros p ?%elem_of_nil|by intros q ?%elem_of_nil|done]. }
  destruct i as [|i].
  - change (alter Property.with_primary 0 (x :: l)) with (Property.with_primary x :: l). split_and!.
    + intros p [->|Hp]%elem_of_cons; [exists x|exists p]; (split; [by constructor|done]).
    + intros q [->|Hq]%elem_of_cons; [exists (Property.with_primary x)|exists q]; (split; [by constructor|done]).
    + done.
  - change (alter Property.with_primary (S i) (x :: l)) with (x :: alter Property.with_primary i l).
    destruct (IH i) as (H1&H2&H3). split_and!.
    + intros p [->|Hp]%elem_of_cons; [exists x; split; [constructor|done]|].
      destruct (H1 p Hp) as (q&?&?). exists q. split; [by constructor|done].
    + intros q [->|Hq]%elem_of_cons; [exists x; split; [constructor|done]|].
      destruct (H2 q Hq) as (p&?&?). exists p. split; [by constructor|done].
    + by rewrite !fmap_cons, H3.
Qed.

(** The class read from a table *)
Record read_from g (t : string) (o : ObjectSchema) : Prop := {
  rf_computed : computed_properties o = [];
  rf_names : NoDup (prop_name <$> persisted_properties o);
  rf_property : ∀ p, p ∈ persisted_properties o →
    ∃ i c, columns g t !! i = Some c ∧ hidden (column_name c) = false ∧ same_but_key p (property_at i c);
  rf_column : ∀ i c, columns g t !! i = Some c → hidden (column_name c) = false →
    ∃ p, p ∈ persisted_properties o ∧ same_but_key p (property_at i c) }.

Lemma read_object g name t :
  t ∈ tables g → readable_table g t →
  ∃ o, object_schema_of_table g name t = inl o ∧ class_name o = name ∧
    primary_key o = get_primary_key_for_object g name ∧ read_from g t o.
Proof.
  intros Ht (Hc&Hnd). unfold object_schema_of_table, has_table. rewrite bool_decide_true by done.
  cbn [assert mbind Result_bind].
  change (imap pair (columns g t)) with (imap (λ j c, ((0 + j)%nat, c)) (columns g t)).
  rewrite (read_properties g t (columns g t) 0 [] Hc). cbn [mbind Result_bind app].
  eexists. split; [done|]. unfold ObjectSchema.set_primary_key_property. cbn [primary_key].
  assert (NoDup (prop_name <$> properties_from 0 (columns g t))) as Hnd'
    by (rewrite names_of_properties; by apply NoDup_filter).
  case_bool_decide.
  - split_and!; [done|done|]. split; simpl; [done|done| |].
    + intros p (j&c&Hj&Hh&->)%elem_of_properties. by exists j, c.
    + intros i c Hi Hh. exists (property_at i c). split; [|done]. apply elem_of_properties. by exists i, c.
  - unfold ObjectSchema.update_property. cbn [persisted_properties computed_properties class_name primary_key].
    destruct (_ <? _)%nat; cbn; (split_and!; [done|done|]).
    + destruct (alter_same_but_key (find_if (λ p, bool_decide (prop_name p = get_primary_key_for_object g name))
        (properties_from 0 (columns g t))) (properties_from 0 (columns g t))) as (H1&H2&H3).
      split; simpl; [done|by rewrite H3| |].
      * intros p Hp. destruct (H1 p Hp) as (q&(j&c&Hj&Hh&->)%elem_of_properties&Hs). by exists j, c.
      * intros i c Hi Hh. apply H2. apply elem_of_properties. by exists i, c.
    + split; simpl; [done|done| |].
      * intros p (j&c&Hj&Hh&->)%elem_of_properties. by exists j, c.
      * intros i c Hi Hh. exists (property_at i c). split; [|done]. apply elem_of_properties. by exists i, c.
Qed.

(** ** The columns of the class are those of the table *)
Lemma present_at p i c : same_but_key p (property_at i c) → present p = decode c ∧ prop_name p = column_name c ∧
  column_of p = i.
Proof.
  intros (Hn&Ht&Ho&Hi&Hc). split; [|split; [exact Hn|unfold column_of; rewrite Hc; simpl; lia]].
  unfold present. rewrite Ht, Ho, Hi. simpl. unfold decode. done.
Qed.

Lemma read_stands g t o :
  readable_table g t → read_from g t o → stands_for (entries g t) (columns_of present o).
Proof.
  intros (Hr&Hnd) [Hcomp Hnames Hprop Hcol]. split.
  - unfold entries. rewrite <-list_fmap_compose. exact Hnd.
  - intros n x. unfold entries. rewrite list_elem_of_fmap. split.
    + intros Hx. apply elem_of_list_to_map_2, list_elem_of_fmap in Hx as (p&[= -> ->]&Hp).
      destruct (Hprop p Hp) as (i&c&Hi&Hh&Hs). destruct (present_at p i c Hs) as (->&->&_).
      split; [|done]. exists c. split; [done|]. by eapply list_elem_of_lookup_2.
    + intros [(c&[= -> ->]&Hc) Hh]. apply list_elem_of_lookup in Hc as [i Hi].
      destruct (Hcol i c Hi Hh) as (p&Hp&Hs). destruct (present_at p i c Hs) as (<-&<-&_).
      by apply columns_of_Some.
Qed.

Lemma stands_unique l m m' : stands_for l m → stands_for l m' → m = m'.
Proof.
  intros [_ H1] [_ H2]. apply map_eq. intros n. apply option_eq. intros c. by rewrite H1, H2.
Qed.

(** ** The schema of a file *)
Definition readable_file g : Prop :=
  NoDup (tables g) ∧
  ∀ t, t ∈ tables g → object_type_for_table_name t ≠ "" →
    readable_table g t ∧ Z.of_nat (length (columns g t)) ≤ npos.

(** The schema of a file: its classes, each read from its table *)
Record schema_of g (s : list ObjectSchema) : Prop := {
  so_sorted : StronglySorted class_lt s;
  so_class : ∀ o, o ∈ s → class_name o ≠ "" ∧ table_name_for_object_type (class_name o) ∈ tables g ∧
    read_from g (table_name_for_object_type (class_name o)) o;
  so_table : ∀ t, t ∈ tables g → object_type_for_table_name t ≠ "" →
    has_class s (object_type_for_table_name t) }.

Lemma strict_sorted s : schema_sorted s → NoDup (class_name <$> s) → StronglySorted class_lt s.
Proof.
  induction 1 as [|x s Hs IH Hx]; intros Hnd; [constructor|]. rewrite fmap_cons in Hnd.
  apply NoDup_cons in Hnd as [Hn Hnd]. constructor; [by apply IH|]. rewrite Forall_forall in Hx |- *.
  intros y Hy. specialize (Hx y Hy). unfold class_le, class_lt in *.
  destruct (string_lt (class_name x) (class_name y)) eqn:E; [done|]. destruct Hn.
  replace (class_name x) with (class_name y); [by apply list_elem_of_fmap_2|].
  by apply (lex_lt_total byte_key byte_key_inj).
Qed.

Lemma read_schema g :
  readable_file g → ∃ s, schema_from_group g = inl s ∧ schema_of g s.
Proof.
  intros [Hnd Hr]. unfold schema_from_group.
  assert (∀ ts acc, (∀ t, t ∈ ts → t ∈ tables g) →
    ∃ l, fold_result (λ l table, if bool_decide (object_type_for_table_name table = "") then inl l
      else o ← object_schema_of_table g (object_type_for_table_name table) table; inl (l ++ [o])) acc ts =
      inl (acc ++ l) ∧
      class_name <$> l = filter (λ n, n ≠ "") (object_type_for_table_name <$> ts) ∧
      Forall (λ o, class_name o ≠ "" ∧ table_name_for_object_type (class_name o) ∈ tables g ∧
        read_from g (table_name_for_object_type (class_name o)) o) l) as Hread.
  { induction ts as [|t ts IH]; intros acc Hts; [exists []; by rewrite app_nil_r|].
    cbn [fold_result]. rewrite fmap_cons, filter_cons.
    assert (∀ u, u ∈ ts → u ∈ tables g) as Hts' by (intros u Hu; apply Hts; by constructor).
    destruct (decide (object_type_for_table_name t = "")) as [E|E].
    - rewrite bool_decide_true by done. cbn [mbind Result_bind]. rewrite decide_False by tauto. by apply IH.
    - rewrite bool_decide_false by done. rewrite decide_True by done.
      assert (t ∈ tables g) as Ht by (apply Hts; constructor).
      destruct (read_object g (object_type_for_table_name t) t Ht (proj1 (Hr t Ht E))) as (o&->&Hname&_&Hrf).
      cbn [mbind Result_bind]. destruct (IH (acc ++ [o]) Hts') as (l&->&Hl&Hall).
      exists (o :: l). rewrite <-app_assoc. split; [done|]. rewrite fmap_cons, Hl, Hname. split; [done|].
      constructor; [|done]. rewrite Hname, <-table_name_of_object_type by done. done. }
  destruct (Hread (tables g) [] ltac:(done)) as (l&->&Hl&Hall). cbn [mbind Result_bind app].
  destruct (make_sorted l) as [Hsorted Hperm]. exists (make l). split; [done|]. split.
  - apply strict_sorted; [done|]. rewrite Hperm, Hl. 
    assert (∀ ts, NoDup ts → NoDup (filter (λ n, n ≠ "") (object_type_for_table_name <$> ts))) as Hnames; [|by apply Hnames].
    induction 1 as [|t ts Ht Hts IH]; [constructor|]. rewrite fmap_cons, filter_cons. case_decide as E; [|done].
    constructor; [|done]. intros [_ (u&Heq&Hu)%list_elem_of_fmap]%list_elem_of_filter. apply Ht.
    rewrite (table_name_of_object_type t E), Heq, <-table_name_of_object_type; [done|by rewrite <-Heq].
  - intros o Ho. rewrite Hperm in Ho. rewrite Forall_forall in Hall. by apply Hall.
  - intros t Ht E. assert (object_type_for_table_name t ∈ class_name <$> l) as Hin.
    { rewrite Hl. apply list_elem_of_filter. split; [done|]. by apply list_elem_of_fmap_2. }
    apply list_elem_of_fmap in Hin as (o&Heq&Ho). exists o. rewrite Hperm. done.
Qed.
End Read.
