(* ===== verification/ObjectStoreMigrate.v ===== *)
(** Applying the changes between the schema of a file and a target schema gives
    the file the columns of the target. *)
From stdpp Require Import strings gmap.
From S2P Require Import Prelude Property Schema SchemaTheory SchemaCompare SchemaApply SchemaStructure Group ObjectStore ObjectStoreTheory ObjectStoreRun ObjectStoreRead.
Import Schema ObjectStore.

Notation table_for o := (table_name_for_object_type (class_name o)).

(** ** The target *)
Section Migrate.
Context {platform : CharSign} {sync : SyncBuild}.

(** The primary properties are the one the class names as its key. *)
Definition key_ok (o : ObjectSchema) : Prop :=
  Forall (λ p, is_primary p = bool_decide (ObjectSchema.primary_key_property o = Some p))
    (persisted_properties o) ∧
  match ObjectSchema.primary_key_property o with
  | Some k => k ∈ persisted_properties o
  | None => True
  end.

Definition class_ok (s : list ObjectSchema) (o : ObjectSchema) : Prop :=
  well_named o ∧ Forall storable (persisted_properties o) ∧ key_ok o ∧
  Forall (λ p, PT.eqb (prop_type p) PT.Object = true → object_type p ∈ class_name <$> s)
    (persisted_properties o).

Definition target_ok (s : list ObjectSchema) : Prop :=
  StronglySorted class_lt s ∧ Forall (class_ok s) s ∧ Forall (λ o, class_name o ≠ "") s.

(** No property needs two changes. *)
Definition single_changes (existing target : list ObjectSchema) : Prop :=
  Forall (λ e, Forall (λ t, class_name e = class_name t →
    Forall (one_change e t) (persisted_properties e)) target) existing.

(** The columns a class has when its table is made: perhaps the one of object
    ids, and in builds with synchronisation that of the primary key *)
Definition born (o : ObjectSchema) (l : list Entry) : Prop :=
  ∃ ids b, (length ids ≤ 1)%nat ∧ Forall (λ e : Entry, hidden e.1 = true) ids ∧
    l = ids ++ match ObjectSchema.primary_key_property o with
               | Some k => if sync_enabled then [(prop_name k, mkColumn (prop_type k) (object_type k) b)] else []
               | None => []
               end.

Section Tables.
Context {G : Type} {ops : GroupOps G} {laws : GroupLaws G}.
Implicit Types g : G.
Context (local_file : ∀ g, sync_enabled && has_object_ids g = false).

(** One more table, with the columns it is born with *)
Record table_made (o : ObjectSchema) g g' : Prop := {
  tm_tables : ∀ u, u ∈ tables g' ↔ u = table_for o ∨ u ∈ tables g;
  tm_entries : ∀ u, u ≠ table_for o → columns g' u = columns g u;
  tm_born : born o (entries g' (table_for o));
  tm_ok : Forall column_ok (columns g' (table_for o)) }.

Lemma storable_plain k : storable k → Property.requires_index k = true →
  ∃ c, to_core_type (prop_type k) = inl c ∧
    decode (mkCoreColumn (prop_name k) (Plain c (PT.is_nullable (prop_type k))) true) =
      mkColumn (prop_type k) (object_type k) true ∧ c ≠ type_OldDateTime.
Proof.
  intros [[Ht Hb] _ Ho Hi _] Hr. destruct (Hi Hr) as [E Ha].
  destruct (type_facts_all _ Ht Hb) as (_&_&Hp). destruct (Hp E) as (c&Hc&_&_&Hf&Hor).
  exists c. split; [done|]. split; [|by intros ->]. unfold decode. cbn [column_kind has_search_index].
  rewrite Hf. rewrite Ha in Hor. simpl. by rewrite Hor, (Ho E).
Qed.

Lemma decode_index k c b :
  decode (mkCoreColumn k c b) =
    mkColumn (col_type (decode (mkCoreColumn k c true))) (col_target (decode (mkCoreColumn k c true))) b.
Proof. done. Qed.

Lemma ids_hidden (ids : list CoreColumn) :
  sync_enabled = true → Forall (λ c, column_name c = object_id_column_name) ids →
  Forall (λ e : Entry, hidden e.1 = true) (entry_of <$> ids) ∧ Forall column_ok ids.
Proof.
  intros Hs Hids. assert (∀ c, column_name c = object_id_column_name → hidden (column_name c) = true) as Hh.
  { intros c Hc. unfold hidden. by rewrite Hs, Hc, bool_decide_true. }
  split; [apply Forall_fmap|]; (eapply Forall_impl; [exact Hids|]); intros c Hc; [by apply Hh|right; by apply Hh].
Qed.

Lemma create_table_ok s o g :
  class_ok s o → ¬ table_for o ∈ tables g → c_primaryKeyTableName ∈ tables g →
  ∃ g', initial_applier g (AddTable o) = inl g' ∧ table_made o g g'.
Proof.
  intros (Hw&Hst&[Hkey Hk]&_) Hnew Hpk.
  destruct (set_primary_key_frame local_file (class_name o) (primary_key o)
    (get_or_add_table (table_for o) g)) as (g'&Heq&Ht'&Hc); [apply in_get_or_add; auto|].
  simpl. unfold create_table. destruct sync_enabled eqn:Hsync.
  - destruct (ObjectSchema.primary_key_property o) as [k|] eqn:Ek.
    + rewrite Forall_forall in Hst, Hkey. specialize (Hkey k Hk).
      rewrite bool_decide_true in Hkey by done.
      destruct (storable_plain k (Hst k Hk)) as (c&->&Hdec&Hne);
        [unfold Property.requires_index; by rewrite Hkey|]. cbn [mbind Result_bind].
      eexists. split; [done|].
      pose proof (tables_sync_create_key (table_for o) c (prop_name k) (PT.is_nullable (prop_type k)) g Hnew Hpk) as Ht.
      destruct (columns_sync_create_key (table_for o) c (prop_name k) (PT.is_nullable (prop_type k)) g Hnew Hpk)
        as (ids&b&Hlen&Hids&Hu).
      destruct (ids_hidden ids Hsync Hids) as [Hh Hok]. split.
      * intros u. by rewrite Ht, elem_of_cons.
      * intros u. by apply (upd_ne _ _ _ _ _ Hu).
      * unfold entries. rewrite (upd_eq _ _ _ _ Hu), fmap_app. exists (entry_of <$> ids), b.
        rewrite length_fmap, Ek, Hsync. split_and!; [done|done|]. f_equal. simpl. unfold entry_of.
        by rewrite decode_index, Hdec.
      * rewrite (upd_eq _ _ _ _ Hu). apply Forall_app. split; [done|]. constructor; [|constructor].
        left. unfold readable_column. simpl. by rewrite bool_decide_false.
    + eexists. split; [done|]. pose proof (tables_sync_create (table_for o) g Hnew) as Ht.
      destruct (columns_sync_create (table_for o) g Hnew) as (ids&Hlen&Hids&Hu).
      destruct (ids_hidden ids Hsync Hids) as [Hh Hok]. split.
      * intros u. by rewrite Ht, elem_of_cons.
      * intros u. by apply (upd_ne _ _ _ _ _ Hu).
      * unfold entries. rewrite (upd_eq _ _ _ _ Hu). exists (entry_of <$> ids), true.
        rewrite length_fmap, Ek, app_nil_r. done.
      * by rewrite (upd_eq _ _ _ _ Hu).
  - pose proof (columns_get_or_add (table_for o) g Hnew) as Hu.
    exists g'. split; [exact Heq|]. split.
    + intros u. rewrite Ht'. apply in_get_or_add.
    + intros u Hne. rewrite Hc. by apply (upd_ne _ _ _ _ _ Hu).
    + unfold entries. rewrite Hc, (upd_eq _ _ _ _ Hu). exists [], true. rewrite Hsync.
      split_and!; [simpl; lia|constructor|]. by destruct (ObjectSchema.primary_key_property o).
    + rewrite Hc, (upd_eq _ _ _ _ Hu). constructor.
Qed.

(** All new tables *)
Record tables_made (os : list ObjectSchema) g g' : Prop := {
  tsm_tables : ∀ u, u ∈ tables g' ↔ (∃ o, o ∈ os ∧ u = table_for o) ∨ u ∈ tables g;
  tsm_columns : ∀ u, (∀ o, o ∈ os → u ≠ table_for o) → columns g' u = columns g u;
  tsm_born : ∀ o, o ∈ os → born o (entries g' (table_for o)) ∧ Forall column_ok (columns g' (table_for o)) }.

Lemma create_tables_ok s os : ∀ g,
  Forall (class_ok s) os → NoDup (class_name <$> os) →
  (∀ o, o ∈ os → ¬ table_for o ∈ tables g) → c_primaryKeyTableName ∈ tables g →
  ∃ g', fold_result initial_applier g (AddTable <$> os) = inl g' ∧ tables_made os g g'.
Proof.
  induction os as [|o os IH]; intros g Hos Hnd Hnew Hpk.
  { exists g. split; [done|]. split.
    - intros u. split; [auto|]. by intros [(o&?%elem_of_nil&_)|].
    - done.
    - by intros o ?%elem_of_nil. }
  apply Forall_cons in Hos as [Ho Hos]. rewrite fmap_cons in Hnd. apply NoDup_cons in Hnd as [Hn Hnd].
  destruct (create_table_ok s o g Ho (Hnew o ltac:(constructor)) Hpk) as (g1&Heq&[T1 E1 B1 O1]).
  rewrite fmap_cons. cbn [fold_result]. rewrite Heq. cbn [mbind Result_bind].
  assert (∀ o', o' ∈ os → table_for o' ≠ table_for o) as Hother.
  { intros o' Ho' E%table_name_inj. apply Hn. rewrite <-E. by apply list_elem_of_fmap_2. }
  destruct (IH g1 Hos Hnd) as (g'&->&[T2 C2 B2]).
  - intros o' Ho'. rewrite T1. intros [E|Hin]; [by apply (Hother o')|]. apply (Hnew o'); [by constructor|done].
  - apply T1. auto.
  - exists g'. split; [done|]. split.
    + intros u. rewrite T2, T1. split.
      * intros [(o'&Ho'&->)|[->|?]]; [left; exists o'; split; [by constructor|done]|
          left; exists o; split; [constructor|done]|auto].
      * intros [(o'&[->|Ho']%elem_of_cons&->)|?]; [auto|left; by exists o'|auto].
    + intros u Hu. rewrite C2, E1; [done| |].
      * apply Hu. constructor.
      * intros o' Ho'. apply Hu. by constructor.
    + intros o' [->|Ho']%elem_of_cons; [|by apply B2]. unfold entries. rewrite C2; [by split|].
      intros o'' Ho'' E. symmetry in E. by apply (Hother o'').
Qed.
End Tables.

(** ** The changes of an existing class can be run *)
Lemma made_like p q :
  storable q → prop_type p = prop_type q → object_type p = object_type q → prop_name p = prop_name q →
  (Property.requires_index p = true → Property.requires_index q = true) → storable p.
Proof. intros [H1 H2 H3 H4 H5] Ht Ho Hn Hr. split; rewrite ?Ht, ?Ho, ?Hn; auto. Qed.

(** What a change of an existing property is about *)
Record property_change (s : list ObjectSchema) (p : Property) (c : SchemaChange) : Prop := {
  pc_existing : existing_property c = Some p;
  pc_made : Forall (λ q, storable q ∧
    (PT.eqb (prop_type q) PT.Object = true → object_type q ∈ class_name <$> s)) (made_properties c);
  pc_name : ∀ o q, c = ChangePropertyType o p q → prop_name q = prop_name p;
  pc_kind : is_add_table c = false ∧ is_initial c = false }.

Lemma property_changes_ok s e t p :
  class_ok s t → 0 ≤ prop_type p < 256 → one_change e t p →
  Forall (property_change s p) (property_changes e t p).
Proof.
  intros (Hw&Hst&_&Hlink) Hp Hone. unfold one_change, property_changes, compare_property in *. cbn [app] in *.
  destruct (ObjectSchema.property_for_name t (prop_name p)) as [q|] eqn:Eq; [|by repeat constructor].
  apply property_for_name_Some in Eq as [Hname Hin].
  destruct (ObjectSchema.property_is_computed t q) eqn:Ecomp; [by repeat constructor|].
  destruct Hin as [Hq|(_&Hc&_)]; [|congruence]. rewrite Forall_forall in Hst, Hlink.
  pose proof (Hst q Hq) as Hsq. pose proof (Hlink q Hq) as Hlq. simpl in Hlq.
  destruct (_ || _) eqn:Hchg.
  { constructor; [|constructor]. split; [done|by constructor; [split|constructor]| |done].
    by intros o q' [= _ <-]. }
  apply orb_false_iff in Hchg as [[Hb Ho]%orb_false_iff Ha].
  apply negb_false_iff in Hb, Ha, Ho. apply bool_decide_eq_true in Ho. apply eqb_prop in Ha.
  pose proof (st_type _ Hsq) as [Hqt _]. pose proof (make_changes_type p q Hp Hqt Hb Ha) as Hty.
  assert (∀ idx, is_add_table idx = false ∧ is_initial idx = false → existing_property idx = Some p →
    made_properties idx = [] → (∀ o r, idx ≠ ChangePropertyType o p r) → property_change s p idx) as Hidx.
  { intros idx Hk He Hm Hn. split; [done|by rewrite Hm|by intros o r E; destruct (Hn o r)|done]. }
  destruct (Bool.eqb _ _); simpl in *.
  - destruct (Property.requires_index q), (is_indexed p), (Property.requires_index p); simpl;
      repeat constructor; by apply Hidx.
  - assert (∀ p', prop_type p' = prop_type q → object_type p' = object_type p → prop_name p' = prop_name p →
      Property.requires_index p' = Property.requires_index p → storable p' ∧
      (PT.eqb (prop_type p') PT.Object = true → object_type p' ∈ class_name <$> s)) as Hmade.
    { intros p' H1 H2 H3 H4. split; [|rewrite H1, H2, Ho; exact Hlq].
      apply (made_like p' q Hsq H1); [congruence|congruence|]. rewrite H4.
      destruct (Property.requires_index q); [done|]. destruct (Property.requires_index p); [|done].
      destruct (PT.is_nullable (prop_type p)); simpl in Hone; lia. }
    assert (∀ p' (f : Property → SchemaChange), made_properties (f p) = [p'] →
      is_add_table (f p) = false ∧ is_initial (f p) = false → existing_property (f p) = Some p →
      (∀ o r, f p ≠ ChangePropertyType o p r) →
      prop_type p' = prop_type q → object_type p' = object_type p → prop_name p' = prop_name p →
      Property.requires_index p' = Property.requires_index p → property_change s p (f p)) as Hchange.
    { intros p' f Hm Hk He Hn H1 H2 H3 H4. split; [done| |by intros o r E; destruct (Hn o r)|done].
      rewrite Hm. constructor; [by apply Hmade|constructor]. }
    destruct (PT.is_nullable (prop_type p)), (Property.requires_index q), (is_indexed p),
      (Property.requires_index p) eqn:Er; simpl in *; try lia; rewrite Forall_singleton;
      first [apply (Hchange (nullable p) (MakePropertyNullable e))|apply (Hchange (required p) (MakePropertyRequired e))];
      first [done|by symmetry|exact Er].
Qed.
End Migrate.
