(* ===== verification/ObjectStoreInitial.v ===== *)
(** [create_initial_tables] turns a file into one whose classes have the
    columns of the target schema. *)
From stdpp Require Import strings gmap.
From S2P Require Import Prelude Property Schema SchemaTheory SchemaCompare SchemaApply SchemaStructure Group ObjectStore ObjectStoreTheory ObjectStoreRun ObjectStoreRead ObjectStoreMigrate.
Import Schema ObjectStore.

Section Create.
Context {platform : CharSign} {sync : SyncBuild} {G : Type} {ops : GroupOps G} {laws : GroupLaws G}.
Implicit Types g : G.

(** ** The names the changes of a class are about *)
Lemma touched_existing e t ps :
  Forall (one_change e t) ps →
  omap touched (ps ≫= property_changes e t) `sublist_of` prop_name <$> ps.
Proof.
  induction 1 as [|p ps Hp Hps IH]; [done|].
  change ((p :: ps) ≫= property_changes e t) with (property_changes e t p ++ (ps ≫= property_changes e t)).
  rewrite omap_app, fmap_cons. pose proof (property_changes_touch e t p) as Ht. unfold one_change in Hp.
  destruct (property_changes e t p) as [|c [|d cs]]; simpl in *; [by apply sublist_cons| |lia].
  rewrite Forall_singleton in Ht. simpl in Ht. rewrite Ht. by apply sublist_skip.
Qed.

Lemma touched_added e t : omap touched (added e t) `sublist_of` prop_name <$> persisted_properties t.
Proof.
  unfold added. transitivity (prop_name <$>
    filter (λ q, ObjectSchema.property_for_name e (prop_name q) = None) (persisted_properties t));
    [|apply fmap_sublist, sublist_filter].
  generalize (filter (λ q, ObjectSchema.property_for_name e (prop_name q) = None) (persisted_properties t)).
  induction l as [|q ps IH]; [done|]. rewrite !fmap_cons. simpl. by apply sublist_skip.
Qed.

Lemma touched_object_changes e t :
  well_named e → well_named t → Forall (one_change e t) (persisted_properties e) →
  NoDup (omap touched (object_changes e t [])).
Proof.
  intros He Ht Hone. rewrite object_changes_app. cbn [app]. rewrite !omap_app.
  assert (omap touched (key_changes e t) = []) as ->.
  { unfold key_changes. by destruct (negb _). }
  pose proof (touched_existing e t _ Hone) as H1. pose proof (touched_added e t) as H2.
  apply NoDup_app. split; [eapply sublist_NoDup; [by apply (well_named_persisted e)|exact H1]|].
  split; [|eapply sublist_NoDup; [by apply (well_named_persisted t)|exact H2]].
  intros n Hn (c&Hc&Hcn)%list_elem_of_omap. unfold added in Hc. apply list_elem_of_fmap in Hc as (q&->&Hq).
  apply list_elem_of_filter in Hq as [Hq _]. simpl in Hcn. injection Hcn as <-.
  apply property_for_name_None in Hq. apply Hq. eapply elem_of_submseteq; [exact Hn|].
  by apply sublist_submseteq.
Qed.

(** ** The existing class, as read from the file *)
Lemma read_well_named g t e : readable_table g t → read_from g t e → well_named e.
Proof.
  intros [Hok Hnd] [Hc Hn Hp _]. split.
  - unfold internal_names. by rewrite Hc, app_nil_r.
  - apply Forall_forall. intros p Hin. destruct (Hp p Hin) as (i&c&Hi&Hh&(_&->&_)).
    apply list_elem_of_lookup_2 in Hi. rewrite Forall_forall in Hok. destruct (Hok c Hi) as [Hr|]; [|congruence].
    by destruct (readable_type c Hr).
Qed.

Lemma read_position g t e p :
  readable_table g t → Z.of_nat (length (columns g t)) ≤ npos → read_from g t e → p ∈ persisted_properties e →
  0 ≤ table_column p < npos ∧ entries g t !! column_of p = Some (prop_name p, present p) ∧
  hidden (prop_name p) = false.
Proof.
  intros _ Hlen [_ _ Hp _] Hin. destruct (Hp p Hin) as (i&c&Hi&Hh&Hs).
  destruct (present_at p i c Hs) as (->&Hn&->). destruct Hs as (_&_&_&_&->). simpl.
  apply lookup_lt_Some in Hi as Hlt. split; [lia|]. rewrite Hn. split; [|done].
  unfold entries. by rewrite list_lookup_fmap, Hi.
Qed.

Lemma object_changes_cases e t c :
  c ∈ object_changes e t [] →
  (∃ p, p ∈ persisted_properties e ∧ c ∈ property_changes e t p) ∨
  (∃ k, c = ChangePrimaryKey e k) ∨
  (∃ q, c = AddProperty e q ∧ q ∈ persisted_properties t ∧
    ObjectSchema.property_for_name e (prop_name q) = None).
Proof.
  rewrite object_changes_app. cbn [app]. rewrite !elem_of_app. intros [Hc|[Hc|Hc]].
  - apply list_elem_of_bind in Hc as (p&Hc&Hp). left. by exists p.
  - right. left. unfold key_changes in Hc. destruct (negb _); [|by apply elem_of_nil in Hc].
    apply list_elem_of_singleton in Hc. eauto.
  - right. right. unfold added in Hc. apply list_elem_of_fmap in Hc as (q&->&Hq).
    apply list_elem_of_filter in Hq as [? ?]. by exists q.
Qed.

Lemma property_change_of s e t p c :
  class_ok s t → well_named e → Forall (one_change e t) (persisted_properties e) →
  p ∈ persisted_properties e → c ∈ property_changes e t p → property_change s p c.
Proof.
  intros Ht [_ He] Hone Hp Hc. rewrite Forall_forall in He, Hone.
  pose proof (property_changes_ok s e t p Ht (He p Hp) (Hone p Hp)) as H.
  rewrite Forall_forall in H. by apply H.
Qed.

(** The changes of a class, in the order [compare] leaves them, can be run. *)
Lemma class_ready s e t g u cs :
  class_ok s t → readable_table g u → Z.of_nat (length (columns g u)) ≤ npos → read_from g u e →
  Forall (one_change e t) (persisted_properties e) → cs ≡ₚ object_changes e t [] →
  (∃ a r, cs = a ++ r ∧ Forall (λ c, is_not_remove c = true) a ∧
    Forall (λ c, is_not_remove c = false) r ∧ StronglySorted removed_ge r) →
  ready (entries g u) cs.
Proof.
  intros Ht Hr Hlen He Hone Hperm Horder. pose proof (read_well_named g u e Hr He) as Hw.
  pose proof (proj1 (proj2 Ht)) as Hst. rewrite Forall_forall in Hst.
  assert (∀ c, c ∈ cs →
    (∃ p, p ∈ persisted_properties e ∧ property_change s p c) ∨
    (∃ k, c = ChangePrimaryKey e k) ∨
    (∃ q, c = AddProperty e q ∧ q ∈ persisted_properties t ∧
      ObjectSchema.property_for_name e (prop_name q) = None)) as Hcases.
  { intros c Hc. rewrite Hperm in Hc. destruct (object_changes_cases e t c Hc) as [(p&Hp&Hpc)|Hrest];
      [left; exists p; split; [done|by eapply property_change_of]|by right]. }
  assert (∀ c p, c ∈ cs → existing_property c = Some p → p ∈ persisted_properties e) as Hex.
  { intros c p Hc Hp. destruct (Hcases c Hc) as [(q&Hq&[Hqe _ _ _])|[(k&->)|(q&->&_)]]; [congruence|done|done]. }
  split.
  - rewrite Hperm. apply touched_object_changes; [done|apply Ht|done].
  - intros c p Hc Hp. destruct (read_position g u e p Hr Hlen He (Hex c p Hc Hp)) as (?&?&_). done.
  - intros o p Hc Hin. destruct (Hcases _ Hc) as [(q&_&[Hqe _ _ _])|[(k&?)|(q&[= -> ->]&_&Hq)]]; [done|done|].
    destruct He as [Hcomp Hn Hp Hcol]. unfold entries in Hin. rewrite <-list_fmap_compose in Hin.
    apply list_elem_of_fmap in Hin as (c&Hname&Hin). apply list_elem_of_lookup in Hin as [i Hi].
    assert (hidden (column_name c) = false) as Hh.
    { change (prop_name q = column_name c) in Hname. rewrite <-Hname. apply storable_visible, Hst.
      destruct (Hcases _ Hc) as [(x&_&[Hqe _ _ _])|[(k&?)|(x&[= ->]&?&_)]]; [done|done|done]. }
    destruct (Hcol i c Hi Hh) as (p&Hp'&Hs). destruct (present_at p i c Hs) as (_&Hpn&_).
    apply property_for_name_None in Hq. apply Hq.
    change (prop_name q = column_name c) in Hname. rewrite Hname, <-Hpn. by apply list_elem_of_fmap_2.
  - intros c p Hc Hp. destruct (Hcases c Hc) as [(q&_&[_ Hm _ _])|[(k&->)|(q&->&Hq&_)]].
    + rewrite Forall_forall in Hm. by apply Hm.
    + by apply elem_of_nil in Hp.
    + apply list_elem_of_singleton in Hp as ->. by apply Hst.
  - intros o p q Hc. destruct (Hcases _ Hc) as [(x&_&[Hx _ Hn _])|[(k&?)|(x&?&_)]]; [|done|done].
    simpl in Hx. injection Hx as ->. by apply (Hn o).
  - intros c p Hc Hp. by destruct (read_position g u e p Hr Hlen He (Hex c p Hc Hp)) as (_&_&?).
  - apply Forall_forall. intros c Hc.
    destruct (Hcases c Hc) as [(q&_&[_ _ _ Hk])|[(k&->)|(q&->&_)]]; done.
  - done.
Qed.
End Create.

(** ** All classes of the schema *)
Section Initial.
Context {platform : CharSign} {sync : SyncBuild} {G : Type} {ops : GroupOps G} {laws : GroupLaws G}.
Implicit Types g : G.
Context (local_file : ∀ g, sync_enabled && has_object_ids g = false).

(** ** The columns of a new class *)

(** In builds with synchronisation the column of the primary key is made with
    the table, perhaps without an index. *)
Definition new_columns (o : ObjectSchema) (indexed : bool) : gmap string Column :=
  match ObjectSchema.primary_key_property o with
  | Some k => if sync_enabled
              then <[prop_name k := mkColumn (prop_type k) (object_type k) indexed]> (columns_of wanted o)
              else columns_of wanted o
  | None => columns_of wanted o
  end.

Lemma elem_of_columns f o n c :
  NoDup_props (persisted_properties o) →
  columns_of f o !! n = Some c ↔ ∃ p, p ∈ persisted_properties o ∧ n = prop_name p ∧ c = f p.
Proof.
  intros Hnd. split.
  - intros Hx. apply elem_of_list_to_map_2, list_elem_of_fmap in Hx as (p&[= -> ->]&Hp). by exists p.
  - intros (p&Hp&->&->). by apply columns_of_Some.
Qed.

Lemma wanted_names ps : (wanted_entry <$> ps).*1 = prop_name <$> ps.
Proof. by rewrite <-list_fmap_compose. Qed.

Lemma stands_ids (ids l : list Entry) m :
  (length ids ≤ 1)%nat → Forall (λ e : Entry, hidden e.1 = true) ids →
  NoDup l.*1 → Forall (λ e : Entry, hidden e.1 = false) l →
  (∀ n c, m !! n = Some c ↔ (n, c) ∈ l) → stands_for (ids ++ l) m.
Proof.
  intros Hlen Hids Hnd Hl Hm. rewrite Forall_forall in Hids, Hl. split.
  - rewrite fmap_app. apply NoDup_app. split; [|split; [|done]].
    + destruct ids as [|e [|d ids]]; simpl in *; [constructor|apply NoDup_singleton|lia].
    + intros n (e&->&He)%list_elem_of_fmap (d&E&Hd)%list_elem_of_fmap.
      specialize (Hids e He). specialize (Hl d Hd). simpl in *. congruence.
  - intros n c. rewrite Hm, elem_of_app. split; [intros Hin; split; [by right|by apply (Hl _ Hin)]|].
    intros [[Hin|Hin] Hh]; [|done]. specialize (Hids _ Hin). simpl in Hids. congruence.
Qed.

Lemma new_class_columns s o l :
  class_ok s o → born o l →
  ∃ b, stands_for (l ++ (wanted_entry <$> initial_properties o)) (new_columns o b).
Proof.
  intros (Hw&Hst&[Hkey Hk]&_) (ids&b&Hlen&Hids&->). exists b. rewrite <-app_assoc.
  pose proof (well_named_persisted o Hw) as Hnd. rewrite Forall_forall in Hst, Hkey.
  assert (∀ p, p ∈ initial_properties o ↔ (sync_enabled && is_primary p = false) ∧ p ∈ persisted_properties o) as Hin.
  { intros p. unfold initial_properties. rewrite list_elem_of_filter. destruct (_ && _); naive_solver. }
  assert (NoDup (wanted_entry <$> initial_properties o).*1) as Hnd'.
  { rewrite wanted_names. eapply sublist_NoDup; [exact Hnd|]. apply fmap_sublist, sublist_filter. }
  assert (Forall (λ e : Entry, hidden e.1 = false) (wanted_entry <$> initial_properties o)) as Hv.
  { apply Forall_fmap, Forall_forall. intros p Hp. apply Hin in Hp as [_ Hp]. by apply storable_visible, Hst. }
  assert (∀ n c, (n, c) ∈ wanted_entry <$> initial_properties o ↔
    ∃ p, (sync_enabled && is_primary p = false) ∧ p ∈ persisted_properties o ∧ n = prop_name p ∧ c = wanted p) as He.
  { intros n c. rewrite list_elem_of_fmap. unfold wanted_entry. split.
    - intros (p&[= -> ->]&[? ?]%Hin). by exists p.
    - intros (p&?&?&->&->). exists p. split; [done|]. by apply Hin. }
  unfold new_columns. destruct (ObjectSchema.primary_key_property o) as [k|] eqn:Ek;
    [destruct sync_enabled eqn:Es|].
  - assert (∀ p, p ∈ persisted_properties o → is_primary p = true ↔ p = k) as Hpk.
    { intros p Hp. rewrite (Hkey p Hp), bool_decide_eq_true. naive_solver. }
    apply stands_ids; [done|done| | |].
    + simpl. constructor; [|done]. intros Hn. rewrite wanted_names in Hn.
      apply list_elem_of_fmap in Hn as (p&Hn&[Hpr Hp]%Hin). 
      assert (p = k) as ->; [|by rewrite (proj2 (Hpk k Hk)) in Hpr].
      pose proof (first_by_name _ p Hnd Hp) as E1. pose proof (first_by_name _ k Hnd Hk) as E2.
      rewrite Hn in E2. congruence.
    + constructor; [|done]. simpl. by apply storable_visible, Hst.
    + intros n c. simpl. rewrite elem_of_cons, lookup_insert_Some, He, elem_of_columns by done. split.
      * intros [[<- <-]|(Hne&p&Hp&->&->)]; [by left|right]. exists p. split_and!; [|done..].
        destruct (is_primary p) eqn:E; [|done]. apply (Hpk p Hp) in E as ->. done.
      * intros [[= -> ->]|(p&Hpr&Hp&->&->)]; [by left|right]. split; [|by exists p].
        intros Hn. assert (p = k) as ->; [|by rewrite (proj2 (Hpk k Hk)) in Hpr].
        pose proof (first_by_name _ p Hnd Hp) as E1. pose proof (first_by_name _ k Hnd Hk) as E2.
        rewrite Hn in E2. congruence.
  - apply stands_ids; [done..|]. intros n c. simpl. rewrite He, elem_of_columns by done. naive_solver.
  - apply stands_ids; [done..|]. intros n c. simpl. rewrite He, elem_of_columns by done. split.
    + intros (p&Hp&->&->). exists p. split_and!; [|done..]. apply andb_false_iff. right.
      rewrite (Hkey p Hp). by rewrite bool_decide_false.
    + naive_solver.
Qed.

(** ** The new tables *)
Definition news (existing target : list ObjectSchema) : list ObjectSchema :=
  omap new_class (zip_matching target existing).

Lemma elem_of_news existing target o :
  StronglySorted class_lt existing → StronglySorted class_lt target →
  o ∈ news existing target ↔ o ∈ target ∧ ¬ has_class existing (class_name o).
Proof.
  intros He Ht. unfold news. rewrite list_elem_of_omap. split.
  - intros (z&Hz&Heq). apply zip_matching_spec in Hz; [|done|done].
    destruct z as [[t|] [e|]]; simpl in *; try done. by injection Heq as <-.
  - intros Ho. exists (Some o, None). split; [|done]. by apply zip_matching_spec.
Qed.

Lemma news_NoDup existing target :
  StronglySorted class_lt existing → StronglySorted class_lt target →
  NoDup (class_name <$> news existing target).
Proof.
  intros He Ht. eapply sublist_NoDup; [by apply (zip_matching_NoDup target Ht existing He)|].
  unfold news. generalize (zip_matching target existing). induction l as [|[[t|] [e|]] zs IH]; simpl;
    rewrite ?fmap_cons; [done|by apply sublist_cons|by apply sublist_skip|by apply sublist_cons|by apply sublist_cons].
Qed.

(** It differs from the target in the index of that key only. *)
Lemma new_columns_wanted s o b :
  class_ok s o →
  unindexed <$> new_columns o b = unindexed <$> columns_of wanted o ∧
  ∀ n, new_columns o b !! n = columns_of wanted o !! n ∨
    (sync_enabled = true ∧ ∃ k, ObjectSchema.primary_key_property o = Some k ∧ prop_name k = n).
Proof.
  intros (Hw&_&[_ Hk]&_). unfold new_columns. destruct (ObjectSchema.primary_key_property o) as [k|]; [|by split; [|left]].
  destruct sync_enabled; [|by split; [|left]]. split.
  - rewrite fmap_insert. apply insert_id. rewrite lookup_fmap, columns_of_Some; [done|by apply well_named_persisted|done].
  - intros n. destruct (decide (prop_name k = n)) as [<-|Hne]; [right; eauto|left; by apply lookup_insert_ne].
Qed.

(** ** The two phases *)
Record migration g (existing target : list ObjectSchema) : Prop := {
  mi_file : readable_file g;
  mi_key_table : c_primaryKeyTableName ∈ tables g;
  mi_existing : schema_of g existing;
  mi_target : target_ok target;
  mi_single : single_changes existing target }.

Lemma object_type_of_class n : n ≠ "" → object_type_for_table_name (table_name_for_object_type n) ≠ "".
Proof. by rewrite object_type_of_table_name. Qed.

Lemma existing_table g existing target n :
  migration g existing target → n ≠ "" → table_name_for_object_type n ∈ tables g → has_class existing n.
Proof.
  intros M Hn Hin. rewrite <-(object_type_of_table_name n).
  apply (so_table _ _ (mi_existing _ _ _ M)); [done|by apply object_type_of_class].
Qed.

Lemma has_class_table g existing target n :
  migration g existing target → has_class existing n → table_name_for_object_type n ∈ tables g.
Proof. intros M (e&He&<-). by apply (so_class _ _ (mi_existing _ _ _ M)). Qed.

Lemma new_tables g existing target :
  migration g existing target →
  ∃ g1, fold_result initial_applier g (AddTable <$> news existing target) = inl g1 ∧
    tables_made (news existing target) g g1.
Proof.
  intros M. destruct (mi_target _ _ _ M) as (Hs&Hok&Hne).
  pose proof (so_sorted _ _ (mi_existing _ _ _ M)) as Hse. rewrite Forall_forall in Hok, Hne.
  apply (create_tables_ok local_file target).
  - apply Forall_forall. intros o Ho. apply Hok. by apply elem_of_news in Ho as [? _].
  - by apply news_NoDup.
  - intros o Ho Hin. apply elem_of_news in Ho as [Ho Hno]; [|done|done].
    apply Hno. eapply existing_table; [exact M|by apply Hne|done].
  - apply M.
Qed.

(** After the first phase every class of the target has a table. *)
Lemma target_table g g1 existing target n :
  migration g existing target → tables_made (news existing target) g g1 →
  n ∈ class_name <$> target → table_name_for_object_type n ∈ tables g1.
Proof.
  intros M T (o&->&Ho)%list_elem_of_fmap. apply (tsm_tables _ _ _ T).
  destruct (mi_target _ _ _ M) as (Hs&_&_). pose proof (so_sorted _ _ (mi_existing _ _ _ M)) as Hse.
  destruct (decide (table_for o ∈ tables g)) as [|Hnew]; [by right|left]. exists o. split; [|done].
  apply elem_of_news; [done|done|]. split; [done|]. intros Hc. apply Hnew. by eapply has_class_table.
Qed.

(** The columns of the table of an existing class are those of the file. *)
Lemma existing_columns g g1 existing target n :
  migration g existing target → tables_made (news existing target) g g1 → has_class existing n →
  columns g1 (table_name_for_object_type n) = columns g (table_name_for_object_type n).
Proof.
  intros M T Hn. apply (tsm_columns _ _ _ T). intros o Ho E%table_name_inj.
  destruct (mi_target _ _ _ M) as (Hs&_&_). pose proof (so_sorted _ _ (mi_existing _ _ _ M)) as Hse.
  apply elem_of_news in Ho as [_ Hno]; [|done|done]. by rewrite <-E in Hno.
Qed.

Lemma is_initial_object_changes s e t :
  class_ok s t → well_named e → Forall (one_change e t) (persisted_properties e) →
  Forall (λ c, is_add_table c = false ∧ is_initial c = false) (object_changes e t []).
Proof.
  intros Ht He Hone. apply Forall_forall. intros c Hc.
  destruct (object_changes_cases e t c Hc) as [(p&Hp&Hpc)|[(k&->)|(q&->&_)]]; [|done|done].
  by destruct (property_change_of s e t p c Ht He Hone Hp Hpc).
Qed.

(** What the second phase does to a pair of classes that [compare] matches *)
Lemma pair_runs g g1 existing target l z :
  migration g existing target → tables_made (news existing target) g g1 → shape l →
  l ≡ₚ zip_matching target existing ≫= contribution → z ∈ zip_matching target existing →
  let n := pair_name z in
  all_apply (entries g1 (table_name_for_object_type n)) (about_class n l) ∧
  match z with
  | (Some t, Some e) => stands_for
      (foldl column_change (entries g1 (table_name_for_object_type n)) (about_class n l)) (columns_of wanted t)
  | (Some t, None) => ∃ b, stands_for
      (foldl column_change (entries g1 (table_name_for_object_type n)) (about_class n l)) (new_columns t b)
  | _ => True
  end.
Proof.
  intros M T Hshape Hperm Hz n. destruct (mi_target _ _ _ M) as (Hst&Hok&_).
  pose proof (so_sorted _ _ (mi_existing _ _ _ M)) as Hse. rewrite Forall_forall in Hok.
  assert (∀ q, q ∈ zip_matching target existing → matched target existing q) as Hall
    by (intros q; by apply zip_matching_spec).
  assert (about_class n l ≡ₚ contribution z) as Hp.
  { rewrite (about_perm_class n _ _ Hperm). unfold n.
    rewrite (about_contributions target existing (zip_matching target existing) z); [done|done| |done].
    by apply zip_matching_NoDup. }
  pose proof (Hall z Hz) as Hm. unfold n in *. clear n. destruct z as [[t|] [e|]]; simpl in *.
  - destruct Hm as (Ht&He&Hname). assert (has_class existing (class_name t)) as Hc by (by exists e).
    unfold entries. rewrite (existing_columns g g1 existing target (class_name t) M T Hc).
    fold (entries g (table_for t)).
    destruct (so_class _ _ (mi_existing _ _ _ M) e He) as (Hen&Het&Hrf). rewrite <-Hname in *.
    destruct (proj2 (mi_file _ _ _ M) _ Het) as [Hr Hlen]; [by apply object_type_of_class|].
    pose proof (read_well_named g _ e Hr Hrf) as Hw.
    pose proof (mi_single _ _ _ M) as Hone. unfold single_changes in Hone. rewrite Forall_forall in Hone.
    specialize (Hone e He). simpl in Hone. rewrite Forall_forall in Hone.
    specialize (Hone t Ht (eq_sym Hname)). simpl in Hone.
    assert (ready (entries g (table_for t)) (about_class (class_name t) l)) as R.
    { apply (class_ready target e t); [by apply Hok|done|done|done|done|done|].
      apply about_shape; [done|]. rewrite Hp. eapply Forall_impl;
        [apply (is_initial_object_changes target e t); [by apply Hok|done|done]|]. by intros c [_ ?]. }
    destruct (run_class _ _ _ R (read_stands g _ e Hr Hrf)) as [Happ Hend]. split; [done|].
    rewrite (changes_columns e t) in Hend; [done|done|by apply Hok|by apply Hrf|done|done].
  - apply Permutation_singleton_r in Hp as ->. destruct Hm as [Ht Hno].
    assert (t ∈ news existing target) as Hin by (by apply elem_of_news).
    destruct (tsm_born _ _ _ T t Hin) as [Hborn _].
    split.
    + split; [|done]. split; [|done]. simpl. unfold initial_properties. apply Forall_filter. by apply Hok.
    + by apply (new_class_columns target t _ (Hok t Ht)).
  - apply Permutation_nil_r in Hp as ->. done.
  - done.
Qed.

(** Every change of the second phase finds the tables it needs. *)
Lemma changes_have_tables g g1 existing target l :
  migration g existing target → tables_made (news existing target) g g1 →
  l ≡ₚ zip_matching target existing ≫= contribution →
  Forall (λ c, is_add_table c = false ∧ table_of c ∈ tables g1 ∧
    Forall (target_exists g1) (made_properties c)) l.
Proof.
  intros M T Hperm. destruct (mi_target _ _ _ M) as (Hst&Hok&_).
  pose proof (so_sorted _ _ (mi_existing _ _ _ M)) as Hse. rewrite Forall_forall in Hok.
  assert (∀ p, (PT.eqb (prop_type p) PT.Object = true → object_type p ∈ class_name <$> target) →
    target_exists g1 p) as Htgt by (intros p Hp E; by eapply target_table; [exact M|exact T|by apply Hp]).
  rewrite Hperm. apply Forall_bind, Forall_forall. intros z Hz.
  apply zip_matching_spec in Hz as Hm; [|done|done].
  destruct z as [[t|] [e|]]; simpl in *; [| |constructor|done].
  - destruct Hm as (Ht&He&Hname).
    destruct (so_class _ _ (mi_existing _ _ _ M) e He) as (Hen&Het&Hrf).
    destruct (proj2 (mi_file _ _ _ M) _ Het) as [Hr _]; [by apply object_type_of_class|].
    pose proof (read_well_named g _ e Hr Hrf) as Hw.
    pose proof (mi_single _ _ _ M) as Hone. unfold single_changes in Hone. rewrite Forall_forall in Hone.
    specialize (Hone e He). simpl in Hone. rewrite Forall_forall in Hone.
    specialize (Hone t Ht (eq_sym Hname)). simpl in Hone.
    pose proof (object_changes_class e t) as Hclass. rewrite Forall_forall in Hclass.
    apply Forall_forall. intros c Hc. split_and!.
    + destruct (object_changes_cases e t c Hc) as [(p&Hp&Hpc)|[(k&->)|(q&->&_)]]; [|done|done].
      by apply (property_change_of target e t p c (Hok t Ht) Hw Hone Hp Hpc).
    + rewrite (Hclass c Hc), <-Hname. eapply target_table; [exact M|exact T|]. by apply list_elem_of_fmap_2.
    + destruct (object_changes_cases e t c Hc) as [(p&Hp&Hpc)|[(k&->)|(q&->&Hq&_)]]; [|constructor|].
      * destruct (property_change_of target e t p c (Hok t Ht) Hw Hone Hp Hpc) as [_ Hmade _ _].
        eapply Forall_impl; [exact Hmade|]. intros q [_ Hq]. by apply Htgt.
      * simpl. constructor; [|constructor]. apply Htgt. destruct (Hok t Ht) as (_&_&_&Hl).
        rewrite Forall_forall in Hl. by apply Hl.
  - destruct Hm as [Ht _]. constructor; [|constructor]. split_and!; [done| |].
    + simpl. eapply target_table; [exact M|exact T|]. by apply list_elem_of_fmap_2.
    + simpl. unfold initial_properties. apply Forall_filter. destruct (Hok t Ht) as (_&_&_&Hl).
      eapply Forall_impl; [exact Hl|]. intros p. apply Htgt.
Qed.

Lemma read_back g n m :
  table_name_for_object_type n ∈ tables g → Forall column_ok (columns g (table_name_for_object_type n)) →
  stands_for (entries g (table_name_for_object_type n)) m →
  ∃ o, object_schema_of_table g n (table_name_for_object_type n) = inl o ∧ columns_of present o = m.
Proof.
  intros Ht Hok Hs. assert (readable_table g (table_name_for_object_type n)) as Hr.
  { split; [done|]. destruct Hs as [Hnd _]. unfold entries in Hnd. by rewrite <-list_fmap_compose in Hnd. }
  destruct (read_object g n _ Ht Hr) as (o&Ho&_&_&Hrf). exists o. split; [done|].
  eapply stands_unique; [by apply read_stands|done].
Qed.

Lemma migrate g existing target :
  migration g existing target →
  ∃ g', create_initial_tables g (compare existing target false) = inl g' ∧
    ∀ o, o ∈ target → ∃ o', object_schema_of_table g' (class_name o) (table_for o) = inl o' ∧
      unindexed <$> columns_of present o' = unindexed <$> columns_of wanted o ∧
      ∀ n, columns_of present o' !! n = columns_of wanted o !! n ∨
        (sync_enabled = true ∧ ¬ has_class existing (class_name o) ∧
         ∃ k, ObjectSchema.primary_key_property o = Some k ∧ prop_name k = n).
Proof.
  intros M. destruct (mi_target _ _ _ M) as (Hst&Hok&Hne).
  pose proof (so_sorted _ _ (mi_existing _ _ _ M)) as Hse.
  destruct (compare_shape existing target) as (l&->&Hshape&Hperm).
  unfold create_initial_tables. rewrite fold_result_app. destruct (new_tables g existing target M) as (g1&Heq&T).
  fold (news existing target). rewrite Heq. cbn [mbind Result_bind].
  pose proof (λ z, pair_runs g g1 existing target l z M T Hshape Hperm) as Hrun.
  assert (c_primaryKeyTableName ∈ tables g1) as Hpk
    by (apply (tsm_tables _ _ _ T); right; apply M).
  destruct (run_changes local_file l g1) as (g'&->&Htab&Hent&Hcol).
  - by eapply changes_have_tables.
  - done.
  - intros n. destruct (decide (n ∈ pair_name <$> zip_matching target existing)) as [Hin|Hn].
    + apply list_elem_of_fmap in Hin as (z&->&Hz). by apply (Hrun z).
    + pose proof (about_perm_class n _ _ Hperm) as Hp.
      rewrite (about_contributions_none target existing) in Hp; [|intros q; by apply zip_matching_spec|done].
      apply Permutation_nil_r in Hp as ->. done.
  - exists g'. split; [done|]. intros o Ho.
    assert (table_for o ∈ tables g') as Ht.
    { rewrite Htab. eapply target_table; [exact M|exact T|]. by apply list_elem_of_fmap_2. }
    destruct (decide (Exists (λ e, class_name e = class_name o) existing)) as [Hex|Hno].
    + apply Exists_exists in Hex as (e&He&Hname). assert (has_class existing (class_name o)) as Hc by (by exists e).
      destruct (Hrun (Some o, Some e)) as [_ Hstand]; [by apply zip_matching_spec|]. simpl in Hstand.
      rewrite <-Hent in Hstand. destruct (read_back g' (class_name o) (columns_of wanted o) Ht) as (o'&Ho'&Hm); [|exact Hstand|].
      * apply Hcol. rewrite (existing_columns g g1 existing target _ M T Hc).
        apply (proj2 (mi_file _ _ _ M)); [by eapply has_class_table|]. rewrite Forall_forall in Hne.
        apply object_type_of_class. by apply Hne.
      * exists o'. split; [done|]. rewrite Hm. split; [done|]. by left.
    + assert (¬ has_class existing (class_name o)) as Hn.
      { intros (e&He&E). apply Hno, Exists_exists. by exists e. }
      destruct (Hrun (Some o, None)) as [_ [b Hstand]]; [by apply zip_matching_spec|]. simpl in Hstand.
      rewrite <-Hent in Hstand. destruct (read_back g' (class_name o) (new_columns o b) Ht) as (o'&Ho'&Hm); [|exact Hstand|].
      * apply Hcol. apply (tsm_born _ _ _ T). by apply elem_of_news.
      * exists o'. split; [done|]. rewrite Hm. pose proof (proj1 (Forall_forall _ _) Hok o Ho) as Hco.
        destruct (new_columns_wanted _ o b Hco) as [Hun Hix]. split; [done|]. intros n. destruct (Hix n) as [|[? ?]]; auto.
Qed.
End Initial.
