(* ===== verification/ObjectStoreProps.v ===== *)
(** The properties of the object store: verification of schema changes, the
    metadata of a file, and the migration of its tables to a target schema. *)
From stdpp Require Import strings gmap.
From S2P Require Import Prelude Property Schema SchemaTheory SchemaCompare SchemaApply SchemaStructure Group GroupMemory ObjectStore ObjectStoreTheory ObjectStoreRun ObjectStoreRead ObjectStoreMigrate ObjectStoreInitial.
Import Schema ObjectStore.

(** ** Sample schemas, and the files that hold them *)
Module StoreSamples.
Definition key : Property := Property.make "id" PT.Int true true "".
Definition dogs : Property := Property.make_link "dogs" (PT.or_ PT.Object PT.Array) "Dog" "" "".
Definition tags : Property := Property.make "tags" (PT.or_ PT.String_ PT.Array) false false "".
Definition person : ObjectSchema := ObjectSchema.make "Person" [key; dogs] [].
Definition dog (l : list Property) : ObjectSchema := ObjectSchema.make "Dog" l [].

Definition dog_v1 : ObjectSchema :=
  dog [Property.make "name" PT.String_ false false ""; Property.make "breed" PT.Int false true "";
       Property.make "age" PT.Int false false ""].

(** One change for each property: a type, an index, a removal, an addition *)
Definition dog_v2 : ObjectSchema :=
  dog [tags; Property.make "age" (PT.or_ PT.Int PT.Nullable) false false "";
       Property.make "breed" PT.Int false false ""].

(** A property is removed, another one is made nullable and indexed. *)
Definition dog_v3 : ObjectSchema :=
  dog [Property.make "age" (PT.or_ PT.Int PT.Nullable) false true ""; Property.make "breed" PT.Int false true ""].

Definition v1 : list ObjectSchema := make [dog_v1; person].
Definition v2 : list ObjectSchema := make [person; dog_v2].
Definition v3 : list ObjectSchema := make [dog_v3; person].

(** The file of the first version *)
Definition file {platform : CharSign} {sync : SyncBuild} : MemGroup :=
  match apply_schema_changes (G := MemGroup) [] NotVersioned v1 1 Automatic (compare [] v1 false) None None with
  | inl (g, _) => g
  | inr _ => []
  end.

(** The changes that are still found after a file has been changed *)
Definition left_after {platform : CharSign} {sync : SyncBuild}
    (change : MemGroup → list SchemaChange → Result MemGroup) (target : list ObjectSchema) :
    Result (list SchemaChange) :=
  existing ← schema_from_group (file : MemGroup);
  g ← change file (compare existing target false);
  changed ← schema_from_group g;
  inl (compare changed target false).
End StoreSamples.
Import StoreSamples.

Section Claims.
Context {platform : CharSign} {sync : SyncBuild}.

(** [verify_no_migration_required] succeeds exactly on the changes for
    which [needs_migration] is false. *)
Theorem verify_no_migration_iff changes :
  verify_no_migration_required changes = inl () ↔ needs_migration changes = false.
Proof.
  unfold verify_no_migration_required, needs_migration. rewrite verify_append. split.
  - case_bool_decide as H; [|done]. intros _. apply not_true_iff_false. intros (c&Hc&Hv)%existsb_exists.
    rewrite Forall_forall in H. specialize (H c). rewrite list_elem_of_In in H. specialize (H Hc).
    destruct c as [| | | | | | | | | |o [p|]]; try done. simpl in H. by destruct (negb _).
  - intros Hn. rewrite bool_decide_true; [done|]. apply Forall_forall. intros c Hc%list_elem_of_In.
    assert (needs_migration_visitor c = false) as Hv.
    { destruct (needs_migration_visitor c) eqn:E; [|done]. rewrite <-Hn. symmetry. apply existsb_exists. eauto. }
    by destruct c.
Qed.

(** C30: [verify_valid_additive_changes] accepts a list of changes iff none of
    them changes the type or the optionality of a column or a primary key, and
    then tells whether something has to be written: a table or a column is
    added, or an index changes while indexes are updated. Otherwise it reports
    at least one error. *)
Theorem verify_additive_correct changes update_indexes :
  if forallb is_additive changes
  then verify_valid_additive_changes changes update_indexes =
         inl (existsb adds changes || existsb reindexes changes && update_indexes)
  else ∃ errors, errors ≠ [] ∧ verify_valid_additive_changes changes update_indexes = inr (InvalidSchemaChange errors).
Proof.
  unfold verify_valid_additive_changes, verify_no_errors.
  destruct (additive_foldl changes false false []) as (l&->&Hl). simpl. destruct (forallb is_additive changes).
  - destruct Hl as [_ ->]; [|done]. by rewrite bool_decide_true.
  - exists l. assert (l ≠ []) as Hne by (intros E; by apply Hl in E). by rewrite bool_decide_false.
Qed.

(** The names of tables and of classes determine each other: the class of
    the table of a class is the class, and a table that belongs to a class is
    the table of that class. *)
Theorem table_name_roundtrip name table :
  object_type_for_table_name (table_name_for_object_type name) = name ∧
  (object_type_for_table_name table ≠ "" →
   table_name_for_object_type (object_type_for_table_name table) = table).
Proof.
  split; [apply object_type_of_table_name|]. intros H. symmetry. by apply table_name_of_object_type.
Qed.

Section Files.
Context {G : Type} {ops : GroupOps G} {laws : GroupLaws G}.
Implicit Types g : G.

(** The schema version set on a file is the one read from it, for every
    64-bit value, and no table of a class is touched. *)
Theorem schema_version_roundtrip v g :
  metadata_ok g → 0 ≤ v < size_modulus →
  ∃ g', set_schema_version v g = inl g' ∧ get_schema_version g' = v ∧
    ∀ name, columns g' (table_name_for_object_type name) = columns g (table_name_for_object_type name).
Proof.
  intros Hok Hv. destruct (version_roundtrip v g Hok Hv) as (g'&Hset&Hget&_&Hc). exists g'.
  split; [done|]. split; [done|]. intros name. rewrite Hc.
  by apply (mt_rest _ _ (proj2 (create_metadata_spec g Hok))).
Qed.

(** Setting the primary key of a class, or clearing it with an empty name,
    is what is read back, and the keys of all other classes are kept. *)
Theorem primary_key_roundtrip g class key :
  pk_ok g → (sync_enabled && has_object_ids g = false) →
  ∃ g', set_primary_key_for_object class key g = inl g' ∧ pk_ok g' ∧
    get_primary_key_for_object g' class = key ∧
    ∀ other, other ≠ class → get_primary_key_for_object g' other = get_primary_key_for_object g other.
Proof.
  intros Hok Hids. destruct (set_primary_key_spec g class key Hok Hids) as (g'&H1&H2&_&_&H3&H4). by exists g'.
Qed.

(** The column added for a storable property is read back as a property of
    the same name, type and target, indexed as the property asks for. *)
Theorem column_roundtrip table property g :
  storable property → table ∈ tables g → target_exists g property →
  ∃ g' c, add_column table property g = inl g' ∧ columns g' table = columns g table ++ [c] ∧
    property_for_column_index g' table (length (columns g table)) c =
      inl (Some (mkProperty (prop_name property) "" (prop_type property) (object_type property) "" false
                   (Property.requires_index property) (Z.of_nat (length (columns g table))))).
Proof.
  intros Hst Ht Htgt. unfold add_column.
  destruct (insert_column_ok table property (length (columns g table)) g Hst Ht ltac:(lia) Htgt) as (g'&Hg'&_&Hu).
  exists g', (made property). split; [done|]. split.
  - rewrite (upd_eq _ _ _ _ Hu). unfold inserted. by rewrite take_ge, drop_ge.
  - rewrite property_for_column by (left; by apply made_readable).
    change (column_name (made property)) with (prop_name property). rewrite storable_visible by done.
    unfold property_at. by rewrite decode_made.
Qed.

(** C29: reading a file gives one class for each table of a class, sorted by
    name, whose properties are the visible columns of the table, at their
    positions. *)
Theorem schema_from_group_correct g :
  readable_file g → ∃ s, schema_from_group g = inl s ∧ schema_of g s.
Proof. apply read_schema. Qed.

End Files.
End Claims.

(** [create_initial_tables] does not give a property that needs two
    changes the column it asks for. [std::partition] moves the last changes to
    the front, so that the index of a new column is added to the column it
    replaces: read back from the file, the property has no index. A migration
    between versions adds it again after the migration function has run. *)
Theorem partition_loses_index :
  let _ : CharSign := true in let _ : SyncBuild := true in
  left_after create_initial_tables v2 = inl [] ∧
  (∃ class property, left_after create_initial_tables v3 = inl [AddIndex class property] ∧
    prop_name property = "age") ∧
  left_after (λ g changes, '(g, _) ← apply_schema_changes g 1 v3 2 Automatic changes None None; inl g) v3 = inl [].
Proof.
  intros platform sync. split_and!; [vm_compute; reflexivity| |vm_compute; reflexivity].
  do 2 eexists. split; [vm_compute; reflexivity|done].
Qed.

(** [rename_property] to a property that exists gives the property of the
    target schema a wrong column when its old column follows the one that is
    removed: the column is the one before the removal. *)
Theorem rename_property_wrong_column :
  let _ : CharSign := true in let _ : SyncBuild := true in
  let prop name := Property.make name PT.Int false false "" in
  let g := match apply_schema_changes (G := MemGroup) [] NotVersioned [dog [prop "new"; prop "x"; prop "old"]] 1
                   Automatic (compare [] [dog [prop "new"; prop "x"; prop "old"]] false) None None with
           | inl (g, _) => g | inr _ => [] end in
  match rename_property (set_schema_columns g [dog [prop "new"; prop "x"]]) "Dog" "old" "new" g with
  | inl (g', [o]) =>
      (table_column <$> persisted_properties o) = [2; 0] ∧
      ((λ p, get_column_index g' "class_Dog" (prop_name p)) <$> persisted_properties o) = [1; 0]
  | _ => False
  end.
Proof. vm_compute. done. Qed.

(** ** Witnesses *)
Section Witnesses.
#[local] Instance signed : CharSign := true.
#[local] Instance synchronised : SyncBuild := true.

Definition sample : MemGroup := file.

Lemma schema_version_roundtrip_witness :
  ∃ g', set_schema_version 18446744073709551615 sample = inl g' ∧ get_schema_version g' = 18446744073709551615 ∧
    ∀ name, columns g' (table_name_for_object_type name) = columns sample (table_name_for_object_type name).
Proof.
  apply (schema_version_roundtrip (G := MemGroup)); [|by unfold size_modulus].
  intros _ _. vm_compute. lia.
Defined.

Lemma primary_key_roundtrip_witness :
  ∃ g', set_primary_key_for_object "Person" "name" sample = inl g' ∧ pk_ok g' ∧
    get_primary_key_for_object g' "Person" = "name" ∧
    ∀ other, other ≠ "Person" → get_primary_key_for_object g' other = get_primary_key_for_object sample other.
Proof.
  apply (primary_key_roundtrip (G := MemGroup)); [|done]. split; [by_decision|vm_compute; lia|by_decision].
Defined.

#[local] Instance target_exists_dec (g : MemGroup) p : Decision (target_exists g p).
Proof. unfold target_exists. apply _. Defined.

Lemma column_roundtrip_witness :
  let friends := Property.make_link "friends" (PT.or_ PT.Object PT.Array) "Person" "" "" in
  ∃ g' c, add_column "class_Dog" friends sample = inl g' ∧ columns g' "class_Dog" = columns sample "class_Dog" ++ [c] ∧
    property_for_column_index g' "class_Dog" 3 c =
      inl (Some (mkProperty "friends" "" (prop_type friends) "Person" "" false false 3)).
Proof.
  intros friends.
  destruct (column_roundtrip "class_Dog" friends sample) as (g'&c&H1&H2&H3); [by_decision..|].
  assert (length (columns sample "class_Dog") = 3%nat) as E by (vm_compute; reflexivity). rewrite E in H3.
  exists g', c. split; [exact H1|]. split; [exact H2|exact H3].
Defined.

#[local] Instance column_ok_dec c : Decision (column_ok c).
Proof. unfold column_ok. apply _. Defined.

#[local] Instance readable_table_dec (g : MemGroup) t : Decision (readable_table g t).
Proof. unfold readable_table. apply _. Defined.

#[local] Instance readable_file_dec (g : MemGroup) : Decision (readable_file g).
Proof.
  refine (cast_if (decide (NoDup (tables g) ∧ Forall (λ t, object_type_for_table_name t ≠ "" →
    readable_table g t ∧ Z.of_nat (length (columns g t)) ≤ npos) (tables g)))).
  all: unfold readable_file; by rewrite <-Forall_forall.
Defined.

Lemma schema_from_group_correct_witness : ∃ s, schema_from_group (sample : MemGroup) = inl s ∧ schema_of sample s.
Proof. apply schema_from_group_correct. by_decision. Defined.

#[local] Instance key_ok_dec o : Decision (key_ok o).
Proof. unfold key_ok. destruct (ObjectSchema.primary_key_property o); apply _. Defined.

#[local] Instance class_ok_dec s o : Decision (class_ok s o).
Proof. unfold class_ok. apply _. Defined.

#[local] Instance target_ok_dec s : Decision (target_ok s).
Proof. unfold target_ok. apply _. Defined.

#[local] Instance single_changes_dec s t : Decision (single_changes s t).
Proof. unfold single_changes. apply _. Defined.

End Witnesses.
