(* ===== verification/SyncProgress.v ===== *)
(** [_impl::SyncProgressNotifier] (ObjectStore/src/sync/sync_session.cpp and
    include/sync/sync_session.hpp): the notifiers that are told how many bytes
    have been transferred. *)
From stdpp Require Import gmap.
From S2P Require Import Prelude.

Inductive NotifierType := upload | download.

#[export] Instance NotifierType_eq_dec : EqDecision NotifierType.
Proof. solve_decision. Defined.

Record Progress := mkProgress {
  uploadable : Z;
  downloadable : Z;
  uploaded : Z;
  downloaded : Z;
  progress_snapshot_version : Z }.

(** The notifier is a function, by identity. *)
Record NotifierPackage := mkNotifierPackage {
  notifier : nat;
  captured_transferrable : option Z;
  snapshot_version : Z;
  is_streaming : bool;
  is_download : bool }.

Record SyncProgressNotifier := mkSyncProgressNotifier {
  m_progress_notifier_token : Z;
  m_local_transaction_version : Z;
  m_current_progress : option Progress;
  m_packages : gmap Z NotifierPackage }.

Module SyncProgressNotifier.
(** A call of a notifier with the bytes transferred and transferrable *)
Notation Report := (nat * (Z * Z))%type.

Definition empty : SyncProgressNotifier := mkSyncProgressNotifier 1 0 None ∅.

Definition capture (transferrable : Z) (package : NotifierPackage) : NotifierPackage :=
  mkNotifierPackage (notifier package) (Some transferrable) (snapshot_version package) (is_streaming package)
    (is_download package).

(** The code after [transferrable] is known *)
Definition invocation (current_progress : Progress) (transferrable : Z) (package : NotifierPackage) :
    list Report * bool * NotifierPackage :=
  let transferred := if is_download package then downloaded current_progress else uploaded current_progress in
  ([(notifier package, (transferred, transferrable))],
   negb (is_streaming package) && (transferrable <=? transferred), package).

(** The invocation (none for the empty function), [is_expired], and the package
    after the call *)
Definition create_invocation (current_progress : Progress) (package : NotifierPackage) :
    list Report * bool * NotifierPackage :=
  if is_streaming package then
    invocation current_progress
      (if is_download package then downloadable current_progress else uploadable current_progress) package
  else
    match captured_transferrable package with
    | Some transferrable => invocation current_progress transferrable package
    | None =>
        if is_download package then
          invocation current_progress (downloadable current_progress)
            (capture (downloadable current_progress) package)
        else if progress_snapshot_version current_progress <? snapshot_version package then ([], false, package)
        else
          invocation current_progress (uploadable current_progress) (capture (uploadable current_progress) package)
    end.

(** [m_packages.emplace]: a token that is present is kept. *)
Definition emplace (token : Z) (package : NotifierPackage) (packages : gmap Z NotifierPackage) :
    gmap Z NotifierPackage :=
  match packages !! token with Some _ => packages | None => <[token := package]> packages end.

(** The token (0: not registered) and the call made before returning *)
Definition register_callback (f : nat) (direction : NotifierType) (streaming : bool) (n : SyncProgressNotifier) :
    Z * list Report * SyncProgressNotifier :=
  let token_value := m_progress_notifier_token n in
  let next := token_value +w 1 in
  let package := mkNotifierPackage f None (m_local_transaction_version n) streaming
                   (bool_decide (direction = download)) in
  match m_current_progress n with
  | None =>
      (token_value, [],
       mkSyncProgressNotifier next (m_local_transaction_version n) None
         (emplace token_value package (m_packages n)))
  | Some progress =>
      let '(calls, skip_registration, package) := create_invocation progress package in
      (if skip_registration then 0 else token_value, calls,
       mkSyncProgressNotifier next (m_local_transaction_version n) (Some progress)
         (if skip_registration then m_packages n else emplace token_value package (m_packages n)))
  end.

Definition unregister_callback (token : Z) (n : SyncProgressNotifier) : SyncProgressNotifier :=
  mkSyncProgressNotifier (m_progress_notifier_token n) (m_local_transaction_version n) (m_current_progress n)
    (delete token (m_packages n)).

(** A turn of the loop over the packages *)
Definition update_package (progress : Progress) (s : list Report * gmap Z NotifierPackage)
    (entry : Z * NotifierPackage) : list Report * gmap Z NotifierPackage :=
  let '(calls, should_delete, package) := create_invocation progress entry.2 in
  (s.1 ++ calls, if should_delete then delete entry.1 s.2 else <[entry.1 := package]> s.2).

(** The packages are visited in the order of the hash map, which is any
    order. *)
Definition update (new_downloaded new_downloadable new_uploaded new_uploadable : Z)
    (download_version new_snapshot_version : Z) (n : SyncProgressNotifier) : list Report * SyncProgressNotifier :=
  if download_version =? 0 then ([], n) else
  let progress := mkProgress new_uploadable new_downloadable new_uploaded new_downloaded new_snapshot_version in
  let '(invocations, packages) :=
    foldl (update_package progress) ([], m_packages n) (map_to_list (m_packages n)) in
  (invocations,
   mkSyncProgressNotifier (m_progress_notifier_token n) (m_local_transaction_version n) (Some progress) packages).

Definition set_local_version (version : Z) (n : SyncProgressNotifier) : SyncProgressNotifier :=
  mkSyncProgressNotifier (m_progress_notifier_token n) version (m_current_progress n) (m_packages n).

(** ** Sequences of calls *)
Inductive Op :=
| Register (f : nat) (direction : NotifierType) (streaming : bool)
| Unregister (token : Z)
| SetLocalVersion (version : Z)
| Update (download_version : Z) (progress : Progress).

Definition run_op (op : Op) (n : SyncProgressNotifier) : list Report * SyncProgressNotifier :=
  match op with
  | Register f direction streaming => let r := register_callback f direction streaming n in (r.1.2, r.2)
  | Unregister token => ([], unregister_callback token n)
  | SetLocalVersion version => ([], set_local_version version n)
  | Update download_version p =>
      update (downloaded p) (downloadable p) (uploaded p) (uploadable p) download_version
        (progress_snapshot_version p) n
  end.

Fixpoint run_ops (ops : list Op) (n : SyncProgressNotifier) : list Report * SyncProgressNotifier :=
  match ops with
  | [] => ([], n)
  | op :: ops => let r := run_op op n in let r' := run_ops ops r.2 in (r.1 ++ r'.1, r'.2)
  end.
End SyncProgressNotifier.
