(* ===== verification/SyncProgressTheory.v ===== *)
(** What a progress notifier is told, and that [SyncProgressNotifier] tells
    every notifier that, whatever else happens to the session. *)
From stdpp Require Import gmap.
From S2P Require Import Prelude SyncProgress.
Import SyncProgressNotifier.

Notation Report := (nat * (Z * Z))%type.

(** ** What a notifier is told *)
Section Reports.
Context (download streaming : bool) (version : Z).

Definition transferred (p : Progress) : Z := if download then downloaded p else uploaded p.
Definition transferrable (p : Progress) : Z := if download then downloadable p else uploadable p.

(** The uploadable bytes count once the local transactions have been seen. *)
Definition ready (p : Progress) : bool := download || (version <=? progress_snapshot_version p).

(** Reports relative to a fixed total, up to the first that reaches it *)
Fixpoint reports_until (total : Z) (ps : list Progress) : list (Z * Z) :=
  match ps with
  | [] => []
  | p :: ps => (transferred p, total) :: if total <=? transferred p then [] else reports_until total ps
  end.

Fixpoint one_off_reports (ps : list Progress) : list (Z * Z) :=
  match ps with
  | [] => []
  | p :: ps' => if ready p then reports_until (transferrable p) ps else one_off_reports ps'
  end.

Definition reports (ps : list Progress) : list (Z * Z) :=
  if streaming then (λ p, (transferred p, transferrable p)) <$> ps else one_off_reports ps.

(** *** What is documented

    The comment on [register_progress_notifier]: a streaming notifier is always
    told the most up-to-date totals; another one is told the bytes transferred
    relative to the total at its registration, or when the first progress is
    known, until they have been.  [ps] is the progress known at the registration
    followed by the later updates. *)
Definition promised (ps : list Progress) : list (Z * Z) :=
  if streaming then (λ p, (transferred p, transferrable p)) <$> ps
  else match ps with [] => [] | p :: _ => reports_until (transferrable p) ps end.

(** The progress from the first on that is not older than the local version *)
Fixpoint since (ps : list Progress) : list Progress :=
  match ps with
  | [] => []
  | p :: ps' => if progress_snapshot_version p <? version then since ps' else ps
  end.

(** An upload notifier that is not streaming passes over the older progress. *)
Lemma reports_promised ps : reports ps = promised (if streaming || download then ps else since ps).
Proof.
  unfold reports, promised. destruct streaming; [done|]. cbn [orb].
  induction ps as [|p ps IH]; cbn [one_off_reports since]; [by destruct download|]. unfold ready.
  destruct download; [done|]. cbn [orb]. rewrite IH, Z.leb_antisym.
  by destruct (progress_snapshot_version p <? version).
Qed.
End Reports.

(** ** One package *)
Definition calls (p : Progress) (package : NotifierPackage) : list Report := (create_invocation p package).1.1.
Definition next (p : Progress) (package : NotifierPackage) : option NotifierPackage :=
  if (create_invocation p package).1.2 then None else Some (create_invocation p package).2.

Fixpoint package_reports (package : option NotifierPackage) (ps : list Progress) : list (Z * Z) :=
  match package, ps with
  | None, _ | _, [] => []
  | Some package, p :: ps => (calls p package).*2 ++ package_reports (next p package) ps
  end.

Lemma package_reports_none ps : package_reports None ps = [].
Proof. by destruct ps. Qed.

Lemma captured_reports f total v d ps :
  package_reports (Some (mkNotifierPackage f (Some total) v false d)) ps = reports_until d total ps.
Proof.
  induction ps as [|p ps IH]; [done|]. cbn [package_reports reports_until].
  unfold calls, next, create_invocation, invocation, transferred. simpl. f_equal.
  destruct (total <=? _); [by rewrite package_reports_none|exact IH].
Qed.

Lemma package_reports_correct f v s d ps :
  package_reports (Some (mkNotifierPackage f None v s d)) ps = reports d s v ps.
Proof.
  unfold reports. destruct s.
  { induction ps as [|p ps IH]; [done|]. cbn [package_reports].
    unfold calls, next, create_invocation, invocation. simpl. by rewrite IH. }
  induction ps as [|p ps IH]; [done|]. cbn [package_reports one_off_reports reports_until].
  unfold calls, next, create_invocation, ready, transferrable. destruct d; simpl.
  - unfold capture. simpl. f_equal. destruct (_ <=? _); [by rewrite package_reports_none|apply captured_reports].
  - destruct (Z.ltb_spec (progress_snapshot_version p) v) as [Hlt|Hge]; simpl.
    + rewrite (proj2 (Z.leb_gt v (progress_snapshot_version p))) by lia. exact IH.
    + rewrite (proj2 (Z.leb_le v (progress_snapshot_version p))) by lia. unfold capture, transferred. simpl. f_equal.
      destruct (_ <=? _); [by rewrite package_reports_none|apply captured_reports].
Qed.

Lemma calls_notifier p package r : r ∈ calls p package → r.1 = notifier package.
Proof.
  unfold calls, create_invocation, invocation. destruct (is_streaming package); simpl.
  { by intros ->%list_elem_of_singleton. }
  destruct (captured_transferrable package); simpl; [by intros ->%list_elem_of_singleton|].
  destruct (is_download package); simpl; [by intros ->%list_elem_of_singleton|].
  destruct (_ <? _); simpl; [by intros ?%elem_of_nil|by intros ->%list_elem_of_singleton].
Qed.

Lemma next_notifier p package package' : next p package = Some package' → notifier package' = notifier package.
Proof.
  unfold next, create_invocation, invocation.
  destruct (is_streaming package), (captured_transferrable package), (is_download package); simpl;
    repeat case_match; intros; simplify_eq/=; done.
Qed.

(** ** All packages *)
Lemma update_loop p l : ∀ c0 m0,
  NoDup l.*1 → ∃ m, foldl (update_package p) (c0, m0) l = (c0 ++ (l ≫= λ e, calls p e.2), m) ∧
    ∀ k, m !! k = match (list_to_map l : gmap Z NotifierPackage) !! k with
                  | Some package => next p package | None => m0 !! k end.
Proof.
  induction l as [|[k package] l IH]; intros c0 m0 Hnd.
  { exists m0. simpl. rewrite app_nil_r. split; [done|]. intros k. by rewrite lookup_empty. }
  apply NoDup_cons in Hnd as [Hk Hnd]. simpl in Hk. simpl.
  destruct (IH (c0 ++ calls p package)
    (match next p package with None => delete k m0 | Some package' => <[k := package']> m0 end) Hnd) as (m&E&Hm).
  exists m. split.
  { change (((k, package) :: l) ≫= λ e, calls p e.2) with (calls p package ++ (l ≫= λ e, calls p e.2)).
    rewrite (assoc_L (++)). etransitivity; [|exact E]. unfold update_package, calls, next. simpl.
    by destruct (create_invocation p package) as [[c []] package']. }
  intros k'. rewrite Hm. destruct (decide (k = k')) as [<-|Hne].
  - rewrite lookup_insert_eq, (not_elem_of_list_to_map_1 _ _ Hk).
    destruct (next p package); [by rewrite lookup_insert_eq|by rewrite lookup_delete_eq].
  - rewrite (lookup_insert_ne _ k k') by done.
    destruct (next p package); [by rewrite lookup_insert_ne|by rewrite lookup_delete_ne].
Qed.

Definition calls_of_all p (m : gmap Z NotifierPackage) : list Report := map_to_list m ≫= λ e, calls p e.2.

Lemma update_correct v p n :
  run_op (Update v p) n =
    if v =? 0 then ([], n)
    else (calls_of_all p (m_packages n),
          mkSyncProgressNotifier (m_progress_notifier_token n) (m_local_transaction_version n) (Some p)
            (omap (next p) (m_packages n))).
Proof.
  simpl. unfold update. destruct (v =? 0); [done|]. destruct p as [u d u' d' s].
  destruct (update_loop (mkProgress u d u' d' s) (map_to_list (m_packages n)) [] (m_packages n)) as (m&E&Hm);
    [apply NoDup_fst_map_to_list|]. simpl. rewrite E. simpl. do 2 f_equal. apply map_eq. intros k.
  rewrite Hm, list_to_map_to_list, lookup_omap. by destruct (m_packages n !! k).
Qed.

(** The calls of one notifier *)
Definition calls_to (f : nat) (l : list Report) : list (Z * Z) := (filter (λ r, r.1 = f) l).*2.

Lemma calls_to_app f l l' : calls_to f (l ++ l') = calls_to f l ++ calls_to f l'.
Proof. unfold calls_to. by rewrite filter_app, fmap_app. Qed.

Lemma calls_to_none f l : (∀ r, r ∈ l → r.1 ≠ f) → calls_to f l = [].
Proof.
  intros H. unfold calls_to. induction l as [|r l IH]; [done|]. rewrite filter_cons, decide_False by (apply H; by left).
  apply IH. intros r' Hr'. apply H. by right.
Qed.

Lemma calls_to_own p package : calls_to (notifier package) (calls p package) = (calls p package).*2.
Proof.
  unfold calls_to. rewrite filter_all; [done|]. apply Forall_forall. intros r Hr. by apply calls_notifier in Hr.
Qed.

Lemma short_permutation {A} (l l' : list A) : (length l ≤ 1)%nat → l' ≡ₚ l → l' = l.
Proof.
  destruct l as [|x [|y l]]; simpl; [by intros _ ?%Permutation_nil_r| |lia].
  by intros _ ?%Permutation_singleton_r.
Qed.

Lemma calls_short p package : (length (calls p package) ≤ 1)%nat.
Proof.
  unfold calls, create_invocation, invocation. repeat case_match; simplify_eq/=; lia.
Qed.

(** Only the package at [token] has the notifier [f]. *)
Definition only_at (f : nat) (token : Z) (m : gmap Z NotifierPackage) : Prop :=
  ∀ k package, m !! k = Some package → notifier package = f → k = token.

Lemma calls_to_all f token m p :
  only_at f token m → (∀ package, m !! token = Some package → notifier package = f) →
  calls_to f (calls_of_all p m) = match m !! token with Some package => (calls p package).*2 | None => [] end.
Proof.
  intros Honly Hf.
  assert (∀ m', (∀ k package, m' !! k = Some package → notifier package ≠ f) → calls_to f (calls_of_all p m') = [])
    as Hnone.
  { intros m' Hm'. apply calls_to_none. intros r. unfold calls_of_all. rewrite list_elem_of_bind.
    intros ([k package]&Hr&Hin%elem_of_map_to_list). simpl in Hr. apply calls_notifier in Hr as ->. by eapply Hm'. }
  destruct (m !! token) as [package|] eqn:E.
  2:{ apply Hnone. intros k package Hk Hn. rewrite (Honly k package Hk Hn) in Hk. congruence. }
  apply short_permutation; [rewrite length_fmap; apply calls_short|].
  transitivity (calls_to f (calls p package ++ calls_of_all p (delete token m))).
  - unfold calls_to, calls_of_all. apply fmap_Permutation, filter_Permutation.
    change (calls p package ++ (map_to_list (delete token m) ≫= λ e, calls p e.2)) with
      (((token, package) :: map_to_list (delete token m)) ≫= λ e : Z * NotifierPackage, calls p e.2).
    by rewrite map_to_list_delete.
  - rewrite calls_to_app, Hnone, app_nil_r.
    + pose proof (Hf package eq_refl) as Hn. rewrite <-Hn. by rewrite calls_to_own.
    + intros k package' Hk Hn. apply lookup_delete_Some in Hk as [Hne Hk]. by apply Hne, eq_sym, (Honly k package').
Qed.

(** ** Sequences of calls *)
Definition progress_of (op : Op) : option Progress :=
  match op with Update v p => if v =? 0 then None else Some p | _ => None end.

(** Calls that neither register [f] again nor take it away *)
Definition other (f : nat) (token : Z) (op : Op) : Prop :=
  match op with Register g _ _ => g ≠ f | Unregister t => t ≠ token | _ => True end.

Definition tokens_below (n : SyncProgressNotifier) : Prop :=
  1 ≤ m_progress_notifier_token n ∧ ∀ k, is_Some (m_packages n !! k) → 1 ≤ k < m_progress_notifier_token n.

Record told (f : nat) (token : Z) (package : option NotifierPackage) (n : SyncProgressNotifier) : Prop := {
  to_package : m_packages n !! token = package;
  to_notifier : ∀ p, package = Some p → notifier p = f;
  to_only : only_at f token (m_packages n);
  to_token : token < m_progress_notifier_token n;
  to_below : tokens_below n }.

Lemma token_next n :
  tokens_below n → m_progress_notifier_token n + 1 < size_modulus →
  m_progress_notifier_token n +w 1 = m_progress_notifier_token n + 1.
Proof. intros [H _] Hn. unfold wadd. rewrite wrap_small; [done|slia]. Qed.

Lemma emplace_fresh token package packages :
  packages !! token = None → emplace token package packages = <[token := package]> packages.
Proof. intros H. unfold emplace. by rewrite H. Qed.

Lemma register_eq f d s n :
  tokens_below n → m_progress_notifier_token n + 1 < size_modulus →
  let token := m_progress_notifier_token n in
  let package := mkNotifierPackage f None (m_local_transaction_version n) s (bool_decide (d = download)) in
  let kept := match m_current_progress n with None => Some package | Some p => next p package end in
  run_op (Register f d s) n =
    (match m_current_progress n with None => [] | Some p => calls p package end,
     mkSyncProgressNotifier (token + 1) (m_local_transaction_version n) (m_current_progress n)
       (match kept with None => m_packages n | Some package => <[token := package]> (m_packages n) end)).
Proof.
  intros Hb Hn. simpl. unfold register_callback.
  rewrite (token_next n Hb Hn).
  assert (m_packages n !! m_progress_notifier_token n = None) as Hno.
  { destruct (m_packages n !! m_progress_notifier_token n) eqn:E; [|done]. destruct Hb as [_ Hb].
    specialize (Hb (m_progress_notifier_token n)). rewrite E in Hb. specialize (Hb ltac:(eauto)). lia. }
  destruct (m_current_progress n) as [p|]; simpl.
  - unfold calls, next. destruct (create_invocation p _) as [[c []] package]; simpl; [done|by rewrite emplace_fresh].
  - by rewrite emplace_fresh.
Qed.

Lemma below_sub n n' :
  tokens_below n → m_progress_notifier_token n' = m_progress_notifier_token n →
  (∀ k, is_Some (m_packages n' !! k) → is_Some (m_packages n !! k)) → tokens_below n'.
Proof. intros [H1 H2] E Hsub. split; rewrite E; [done|]. intros k Hk. by apply H2, Hsub. Qed.

Lemma unregister_eq t n :
  run_op (Unregister t) n =
    ([], mkSyncProgressNotifier (m_progress_notifier_token n) (m_local_transaction_version n) (m_current_progress n)
           (delete t (m_packages n))).
Proof. done. Qed.

Lemma below_insert n token package v c :
  tokens_below n → token = m_progress_notifier_token n →
  tokens_below (mkSyncProgressNotifier (token + 1) v c (<[token := package]> (m_packages n))).
Proof.
  intros [H1 H2] ->. split; cbn [m_progress_notifier_token m_packages]; [lia|]. intros k.
  destruct (decide (m_progress_notifier_token n = k)) as [<-|Hne]; [lia|].
  rewrite lookup_insert_ne by done. intros Hk. specialize (H2 k Hk). lia.
Qed.

Lemma below_next n v c :
  tokens_below n → tokens_below (mkSyncProgressNotifier (m_progress_notifier_token n + 1) v c (m_packages n)).
Proof.
  intros [H1 H2]. split; cbn [m_progress_notifier_token m_packages]; [lia|]. intros k Hk. specialize (H2 k Hk). lia.
Qed.

(** One call, seen from the notifier at [token] *)
Lemma told_step f token package n op :
  told f token package n → other f token op → m_progress_notifier_token n + 1 < size_modulus →
  let r := run_op op n in
  m_progress_notifier_token r.2 ≤ m_progress_notifier_token n + 1 ∧
  match progress_of op, package with
  | Some p, Some pk => calls_to f r.1 = (calls p pk).*2 ∧ told f token (next p pk) r.2
  | _, _ => calls_to f r.1 = [] ∧ told f token package r.2
  end.
Proof.
  intros [T1 T2 T3 T4 T5] Hop Hn. destruct op as [g d s|t|v|v p]; cbn [progress_of].
  - rewrite register_eq by done. cbn [fst snd m_progress_notifier_token]. split; [lia|].
    set (pk := mkNotifierPackage g _ _ _ _). simpl in Hop. split.
    + destruct (m_current_progress n) as [p|]; [|done]. apply calls_to_none. intros r Hr.
      apply calls_notifier in Hr as ->. exact Hop.
    + assert (∀ pk' : NotifierPackage, notifier pk' = g →
        told f token package (mkSyncProgressNotifier (m_progress_notifier_token n + 1) (m_local_transaction_version n)
          (m_current_progress n) (<[m_progress_notifier_token n := pk']> (m_packages n)))) as Hins.
      { intros pk' Hpk'. split; cbn [m_packages m_progress_notifier_token]; [..|by apply below_insert]; [|done| |lia].
        - rewrite lookup_insert_ne by lia. done.
        - intros k q. destruct (decide (m_progress_notifier_token n = k)) as [<-|Hne].
          + rewrite lookup_insert_eq. intros [= <-]. congruence.
          + rewrite lookup_insert_ne by done. apply T3. }
      destruct (m_current_progress n) as [p|]; [|by apply Hins].
      destruct (next p pk) as [pk'|] eqn:E; [apply Hins; by apply next_notifier in E|].
      split; cbn [m_packages m_progress_notifier_token]; [done..|lia|by apply below_next].
  - simpl in Hop. rewrite unregister_eq. cbn [fst snd m_progress_notifier_token]. split; [lia|]. split; [done|].
    split; cbn [m_packages m_progress_notifier_token]; try done.
    + by rewrite lookup_delete_ne.
    + intros k q [_ Hk]%lookup_delete_Some. by apply T3.
    + apply (below_sub n); [done|done|]. cbn [m_packages]. intros k [q [_ Hk]%lookup_delete_Some]. by exists q.
  - simpl. split; [lia|]. split; [done|]. by split.
  - rewrite update_correct. destruct (v =? 0); [split; [simpl; lia|]; split; [done|]; by split|].
    cbn [fst snd m_progress_notifier_token]. split; [lia|].
    pose proof (calls_to_all f token (m_packages n) p T3 ltac:(rewrite T1; exact T2)) as Hcalls. rewrite T1 in Hcalls.
    assert (∀ package', (package ≫= next p) = package' → told f token package'
      (mkSyncProgressNotifier (m_progress_notifier_token n) (m_local_transaction_version n) (Some p)
         (omap (next p) (m_packages n)))) as Hnext.
    { intros package' E. split; cbn [m_packages m_progress_notifier_token]; [by rewrite lookup_omap, T1| | |done|].
      - intros q ->. destruct package as [pk|]; [|done]. simpl in E. rewrite (next_notifier _ _ _ E). by apply T2.
      - intros k q (q'&Hq&Hk)%lookup_omap_Some Hnf. eapply T3; [exact Hk|]. by rewrite <-Hnf, (next_notifier _ _ _ Hq).
      - apply (below_sub n); [done|done|]. cbn [m_packages]. intros k [q (q'&_&Hk)%lookup_omap_Some]. by exists q'. }
    destruct package as [pk|]; (split; [done|]); by apply Hnext.
Qed.

Lemma told_run f token ops : ∀ package n,
  told f token package n → Forall (other f token) ops →
  m_progress_notifier_token n + Z.of_nat (length ops) < size_modulus →
  calls_to f (run_ops ops n).1 = package_reports package (omap progress_of ops).
Proof.
  induction ops as [|op ops IH]; intros package n T Hops Hn; [by destruct package|].
  apply Forall_cons in Hops as [Hop Hops]. cbn [length] in Hn.
  destruct (told_step _ _ _ _ op T Hop) as [Ht Hstep]; [lia|]. cbn [run_ops fst]. rewrite calls_to_app.
  cbn [omap list_omap]. destruct (progress_of op) as [p|]; [destruct package as [pk|]|].
  - destruct Hstep as [-> T']. cbn [package_reports]. f_equal. apply IH; [done|done|lia].
  - destruct Hstep as [-> T']. rewrite (IH _ _ T') by (done || lia). by rewrite !package_reports_none.
  - destruct Hstep as [-> T']. apply IH; [done|done|lia].
Qed.

(** ** Before the registration *)
Definition not_registering (f : nat) (op : Op) : Prop :=
  match op with Register g _ _ => g ≠ f | _ => True end.

#[export] Instance not_registering_dec f op : Decision (not_registering f op).
Proof. destruct op; simpl; apply _. Defined.
#[export] Instance other_dec f token op : Decision (other f token op).
Proof. destruct op; simpl; apply _. Defined.

Definition local_version (ops : list Op) : Z :=
  foldl (λ v op, match op with SetLocalVersion v' => v' | _ => v end) 0 ops.

Definition last_progress (ops : list Op) : list Progress := option_list (last (omap progress_of ops)).

Record absent (f : nat) (n : SyncProgressNotifier) : Prop := {
  ab_none : ∀ k p, m_packages n !! k = Some p → notifier p ≠ f;
  ab_below : tokens_below n }.

Lemma absent_step f n op :
  absent f n → not_registering f op → m_progress_notifier_token n + 1 < size_modulus →
  let r := run_op op n in
  absent f r.2 ∧ calls_to f r.1 = [] ∧ m_progress_notifier_token r.2 ≤ m_progress_notifier_token n + 1 ∧
  m_local_transaction_version r.2 = (match op with SetLocalVersion v => v | _ => m_local_transaction_version n end) ∧
  m_current_progress r.2 = match progress_of op with Some p => Some p | None => m_current_progress n end.
Proof.
  intros [A1 A2] Hop Hn. destruct op as [g d s|t|v|v p]; cbn [progress_of].
  - rewrite register_eq by done. cbn [fst snd m_progress_notifier_token m_local_transaction_version m_current_progress].
    simpl in Hop. set (pk := mkNotifierPackage g _ _ _ _). split; [|split; [|by split]].
    + assert (∀ pk' : NotifierPackage, notifier pk' = g →
        absent f (mkSyncProgressNotifier (m_progress_notifier_token n + 1) (m_local_transaction_version n)
          (m_current_progress n) (<[m_progress_notifier_token n := pk']> (m_packages n)))) as Hins.
      { intros pk' Hpk'. split; cbn [m_packages]; [|by apply below_insert]. intros k q.
        destruct (decide (m_progress_notifier_token n = k)) as [<-|Hne].
        - rewrite lookup_insert_eq. intros [= <-]. congruence.
        - rewrite lookup_insert_ne by done. apply A1. }
      destruct (m_current_progress n) as [p|]; [|by apply Hins].
      destruct (next p pk) as [pk'|] eqn:E; [apply Hins; by apply next_notifier in E|].
      split; [done|by apply below_next].
    + destruct (m_current_progress n) as [p|]; [|done]. apply calls_to_none. intros r Hr.
      apply calls_notifier in Hr as ->. exact Hop.
  - rewrite unregister_eq. cbn [fst snd m_progress_notifier_token m_local_transaction_version m_current_progress].
    split; [|split; [done|split; [lia|done]]]. split; cbn [m_packages].
    + intros k q [_ Hk]%lookup_delete_Some. by eapply A1.
    + apply (below_sub n); [done|done|]. cbn [m_packages]. intros k [q [_ Hk]%lookup_delete_Some]. by exists q.
  - simpl. split; [by split|]. split; [done|split; [lia|done]].
  - rewrite update_correct. destruct (v =? 0); [by (split; [by split|]; split; [done|split; [simpl; lia|done]])|].
    cbn [fst snd m_progress_notifier_token m_local_transaction_version m_current_progress].
    split; [|split; [|split; [lia|done]]].
    + split; cbn [m_packages].
      * intros k q (q'&Hq&Hk)%lookup_omap_Some. rewrite (next_notifier _ _ _ Hq). by eapply A1.
      * apply (below_sub n); [done|done|]. cbn [m_packages]. intros k [q (q'&_&Hk)%lookup_omap_Some]. by exists q'.
    + apply calls_to_none. intros r. unfold calls_of_all. rewrite list_elem_of_bind.
      intros ([k package]&Hr&Hin%elem_of_map_to_list). simpl in Hr. apply calls_notifier in Hr as ->. by eapply A1.
Qed.

Lemma run_ops_app ops ops' n :
  run_ops (ops ++ ops') n =
    ((run_ops ops n).1 ++ (run_ops ops' (run_ops ops n).2).1, (run_ops ops' (run_ops ops n).2).2).
Proof.
  revert n. induction ops as [|op ops IH]; intros n; simpl; [by destruct (run_ops ops' n)|].
  rewrite IH. simpl. by rewrite <-app_assoc.
Qed.

Lemma absent_run f ops :
  Forall (not_registering f) ops → Z.of_nat (length ops) + 1 < size_modulus →
  let r := run_ops ops empty in
  absent f r.2 ∧ calls_to f r.1 = [] ∧ m_progress_notifier_token r.2 ≤ Z.of_nat (length ops) + 1 ∧
  m_local_transaction_version r.2 = local_version ops ∧ m_current_progress r.2 = last (omap progress_of ops).
Proof.
  induction ops as [|op ops IH] using rev_ind; intros Hops Hn; cbv zeta.
  { simpl. split; [|by repeat split]. split; [|split; [done|]]; intros k; simpl; rewrite lookup_empty; [done|].
    by intros [? ?]. }
  apply Forall_app in Hops as [Hops [Hop _]%Forall_cons]. rewrite length_app in Hn |- *. cbn [length] in Hn |- *.
  destruct (IH Hops) as (I1&I2&I3&I4&I5); [lia|].
  destruct (absent_step f _ op I1 Hop) as (J1&J2&J3&J4&J5); [lia|].
  rewrite run_ops_app. cbn [fst snd run_ops]. rewrite app_nil_r, calls_to_app, I2, J2.
  split; [done|]. split; [done|]. split; [lia|]. split.
  - rewrite J4. unfold local_version. rewrite foldl_app. simpl. by destruct op.
  - rewrite J5, omap_app. cbn [omap list_omap]. destruct (progress_of op); [by rewrite last_snoc|by rewrite app_nil_r].
Qed.

Lemma told_correct f direction streaming before after :
  Forall (not_registering f) before →
  Forall (other f (m_progress_notifier_token (run_ops before empty).2)) after →
  Z.of_nat (length before + length after) + 2 < size_modulus →
  calls_to f (run_ops (before ++ Register f direction streaming :: after) empty).1 =
    reports (bool_decide (direction = download)) streaming (local_version before)
      (last_progress before ++ omap progress_of after).
Proof.
  intros Hbefore Hafter Hn. destruct (absent_run f before Hbefore) as ([A1 A2]&C&L&V&P); [lia|].
  rewrite run_ops_app. cbn [fst run_ops]. rewrite !calls_to_app, C, app_nil_l.
  set (n := (run_ops before empty).2) in *. rewrite register_eq; [|done|lia]. cbn [fst snd]. rewrite V.
  set (pk := mkNotifierPackage f None _ _ _). rewrite <-package_reports_correct with (f := f).
  change (mkNotifierPackage f None (local_version before) streaming (bool_decide (direction = download))) with pk.
  assert (∀ kept : option NotifierPackage, (∀ pk', kept = Some pk' → notifier pk' = f) →
    told f (m_progress_notifier_token n) kept
      (mkSyncProgressNotifier (m_progress_notifier_token n + 1) (local_version before) (m_current_progress n)
         (match kept with
          | Some package => <[m_progress_notifier_token n := package]> (m_packages n)
          | None => m_packages n
          end))) as Htold.
  { intros kept Hkept. split; cbn [m_packages m_progress_notifier_token]; [|done| |lia|].
    - destruct kept; [by rewrite lookup_insert_eq|]. destruct (m_packages n !! m_progress_notifier_token n) eqn:E; [|done].
      destruct A2 as [_ A2]. specialize (A2 (m_progress_notifier_token n)). rewrite E in A2.
      specialize (A2 ltac:(eauto)). lia.
    - intros k q Hk Hq. destruct (decide (m_progress_notifier_token n = k)) as [|Hne]; [done|]. exfalso.
      destruct kept; [rewrite lookup_insert_ne in Hk by done|]; by eapply A1.
    - destruct kept; [by apply below_insert|by apply below_next]. }
  unfold last_progress. destruct (m_current_progress n) as [p|]; rewrite <-P.
  - change (option_list (Some p) ++ omap progress_of after) with (p :: omap progress_of after).
    cbn [package_reports]. assert (calls_to f (calls p pk) = (calls p pk).*2) as -> by exact (calls_to_own p pk). f_equal.
    apply told_run with (token := m_progress_notifier_token n); [|done|cbn [m_progress_notifier_token]; lia].
    apply Htold. intros pk' E. by apply next_notifier in E.
  - change (option_list None ++ omap progress_of after) with (omap progress_of after).
    change (calls_to f []) with ([] : list (Z * Z)). rewrite app_nil_l.
    apply told_run with (token := m_progress_notifier_token n); [|done|cbn [m_progress_notifier_token]; lia].
    apply Htold. by intros pk' [= <-].
Qed.

(** ** One-off notifiers *)
Lemma until_bounds d total ps i r :
  reports_until d total ps !! i = Some r →
  r.2 = total ∧ ((S i < length (reports_until d total ps))%nat → r.1 < total).
Proof.
  revert i. induction ps as [|p ps IH]; intros i; cbn [reports_until]; [by rewrite lookup_nil|].
  destruct i as [|i]; cbn [lookup list_lookup].
  - intros [= <-]. split; [done|]. cbn [length fst]. destruct (Z.leb_spec total (transferred d p)); [simpl; lia|done].
  - intros Hi. cbn [length]. destruct (total <=? _); [by destruct i|].
    destruct (IH i Hi) as [H1 H2]. split; [done|]. intros Hl. apply H2. lia.
Qed.

Lemma one_off_bounds d v ps : ∃ total : Z, ∀ i r,
  reports d false v ps !! i = Some r → r.2 = total ∧ ((S i < length (reports d false v ps))%nat → r.1 < total).
Proof.
  unfold reports. induction ps as [|p ps [total IH]]; [exists 0; by intros [|i] r|].
  cbn [one_off_reports]. destruct (ready d v p); [|by exists total].
  exists (transferrable d p). apply until_bounds.
Qed.

(** ** A notifier that is not streaming *)
(** The calls of a notifier that is not streaming all have the same number
    of transferrable bytes, and only the last one can report that they have
    been transferred. *)
Theorem one_off_total f direction before after :
  Forall (not_registering f) before →
  Forall (other f (m_progress_notifier_token (run_ops before empty).2)) after →
  Z.of_nat (length before + length after) + 2 < size_modulus →
  let l := calls_to f (run_ops (before ++ Register f direction false :: after) empty).1 in
  ∃ total : Z, ∀ i r, l !! i = Some r → r.2 = total ∧ ((S i < length l)%nat → r.1 < total).
Proof.
  intros Hbefore Hafter Hn. cbv zeta. rewrite told_correct by done.
  set (ps := last_progress before ++ omap progress_of after).
  exact (one_off_bounds (bool_decide (direction = download)) (local_version before) ps).
Qed.

(** ** Witnesses *)
Module ProgressSamples.
Definition before : list Op :=
  [Register 1 download true; Update 1 (mkProgress 10 100 0 20 3); SetLocalVersion 4].
Definition after : list Op :=
  [Update 2 (mkProgress 30 100 5 60 3); Update 0 (mkProgress 0 0 0 0 0); Register 3 upload false;
   Update 3 (mkProgress 40 150 20 90 4); Unregister 1; Update 4 (mkProgress 60 150 40 120 5);
   Update 5 (mkProgress 60 150 60 150 5)].
End ProgressSamples.
Import ProgressSamples.

Lemma one_off_total_witness :
  ∃ total : Z, ∀ i r,
    calls_to 2 (run_ops (before ++ Register 2 download false :: after) empty).1 !! i = Some r → r.2 = total.
Proof.
  destruct (one_off_total 2 download before after) as [total H]; [by_decision..|].
  exists total. intros i r Hi. by apply (H i r).
Defined.
