(* ===== verification/SyncSession.v ===== *)
(** [realm::SyncSession] (ObjectStore/src/sync/sync_session.cpp and its
    header): the state machine of a synchronised Realm.

    A call of a method is a function on a world: the session, whether its mutex
    is held, the waits that are pending at the underlying [sync::Session]s of
    the synchronisation library, and what the calls have done outside, in
    order. It fails where an assertion fails, where a mutex is locked twice or
    unlocked without being held, and where a null pointer is dereferenced. *)
From stdpp Require Import strings.
From S2P Require Import Prelude SyncProgress.

(** ** Errors *)

(** [realm::sync::ProtocolError] *)
Inductive ProtocolError :=
| connection_closed | other_error | unknown_message | bad_syntax | limits_exceeded | wrong_protocol_version
| bad_session_ident | reuse_of_session_ident | bound_in_other_session | bad_message_order | bad_decompression
| bad_changeset_header_syntax | bad_changeset_size | bad_changesets
| session_closed | other_session_error | token_expired | bad_authentication | illegal_realm_path | no_such_realm
| permission_denied | bad_server_file_ident | bad_client_file_ident | bad_server_version | bad_client_version
| diverging_histories | bad_changeset | disabled_session | partial_sync_disabled | unsupported_session_feature
| bad_origin_file_ident | bad_client_file | server_file_deleted | client_file_blacklisted | user_blacklisted
| transact_before_upload | client_file_expired.

(** [realm::sync::Client::Error]: those that are not reported, and the rest *)
Inductive ClientError := client_connection_closed | pong_timeout | other_client_error (code : Z).

(** [std::error_code] with its category *)
Inductive ErrorCode :=
| protocol_error (e : ProtocolError)
| client_error (e : ClientError)
| operation_aborted
| other_code (code : Z).

Record SyncError := mkSyncError {
  error_code : ErrorCode;
  message : string;
  is_fatal : bool;
  user_info : list (string * string);
  is_unrecognized_by_client : bool }.

Definition c_original_file_path_key : string := "ORIGINAL_FILE_PATH".
Definition c_recovery_file_path_key : string := "RECOVERY_FILE_PATH".

Definition is_client_reset_requested (error : SyncError) : bool :=
  match error_code error with
  | protocol_error e =>
      match e with
      | bad_server_file_ident | bad_client_file_ident | bad_server_version | diverging_histories
      | client_file_expired => true
      | _ => false
      end
  | _ => false
  end.

(** ** Configuration *)
Inductive ClientResyncMode := Recover | DiscardLocal | ManualResync.
Inductive SyncSessionStopPolicy := Immediately | LiveIndefinitely | AfterChangesUploaded.

(** The members of [SyncConfig] the session uses; the user is a pointer. *)
Record SyncConfig := mkSyncConfig {
  user : option nat;
  reference_realm_url : string;
  stop_policy : SyncSessionStopPolicy;
  has_error_handler : bool;
  is_partial : bool;
  cancel_waits_on_nonfatal_error : bool;
  authorization_header_name : option string;
  url_prefix : option string;
  client_resync_mode : ClientResyncMode }.

(** [sync::Session::Config] as far as it depends on the session; the client
    reset is the directory of the metadata and [recover_local_changes] *)
Record SessionConfig := mkSessionConfig {
  multiplex_ident : string;
  session_authorization_header : option string;
  session_url_prefix : option string;
  client_reset_config : option (string * bool) }.

(** ** The session *)
Inductive State := waiting_for_access_token | active | dying | inactive.
Inductive ConnectionState := Disconnected | Connecting | Connected.

#[export] Instance State_eq_dec : EqDecision State.
Proof. solve_decision. Defined.
#[export] Instance ConnectionState_eq_dec : EqDecision ConnectionState.
Proof. solve_decision. Defined.

(** Completion handlers, by identity *)
Notation Callback := nat.

(** The session of the synchronisation library is an identity: the object it
    points to is created by the library. [m_external_reference] is the number
    of owners of the external reference, 0 when it has expired. *)
Record SyncSession := mkSyncSession {
  m_state : State;
  m_connection_state : ConnectionState;
  m_death_count : Z;
  m_config : SyncConfig;
  m_force_client_resync : bool;
  m_download_completion_callbacks : list Callback;
  m_upload_completion_callbacks : list Callback;
  m_client_resync_counter : Z;
  m_server_override : option (string * Z);
  m_session : option nat;
  m_session_has_been_bound : bool;
  m_deferred_commit_notification : option Z;
  m_deferred_close : bool;
  m_server_url : option string;
  m_multiplex_identity : string;
  m_external_reference : nat }.

(** Assignment to one member *)
Definition set_m_state (x : State) (s : SyncSession) : SyncSession :=
  mkSyncSession x (m_connection_state s) (m_death_count s) (m_config s) (m_force_client_resync s)
    (m_download_completion_callbacks s) (m_upload_completion_callbacks s)
    (m_client_resync_counter s) (m_server_override s) (m_session s)
    (m_session_has_been_bound s) (m_deferred_commit_notification s) (m_deferred_close s)
    (m_server_url s) (m_multiplex_identity s) (m_external_reference s).
Definition set_m_connection_state (x : ConnectionState) (s : SyncSession) : SyncSession :=
  mkSyncSession (m_state s) x (m_death_count s) (m_config s) (m_force_client_resync s)
    (m_download_completion_callbacks s) (m_upload_completion_callbacks s)
    (m_client_resync_counter s) (m_server_override s) (m_session s)
    (m_session_has_been_bound s) (m_deferred_commit_notification s) (m_deferred_close s)
    (m_server_url s) (m_multiplex_identity s) (m_external_reference s).
Definition set_m_death_count (x : Z) (s : SyncSession) : SyncSession :=
  mkSyncSession (m_state s) (m_connection_state s) x (m_config s) (m_force_client_resync s)
    (m_download_completion_callbacks s) (m_upload_completion_callbacks s)
    (m_client_resync_counter s) (m_server_override s) (m_session s)
    (m_session_has_been_bound s) (m_deferred_commit_notification s) (m_deferred_close s)
    (m_server_url s) (m_multiplex_identity s) (m_external_reference s).
Definition set_m_config (x : SyncConfig) (s : SyncSession) : SyncSession :=
  mkSyncSession (m_state s) (m_connection_state s) (m_death_count s) x (m_force_client_resync s)
    (m_download_completion_callbacks s) (m_upload_completion_callbacks s)
    (m_client_resync_counter s) (m_server_override s) (m_session s)
    (m_session_has_been_bound s) (m_deferred_commit_notification s) (m_deferred_close s)
    (m_server_url s) (m_multiplex_identity s) (m_external_reference s).
Definition set_m_force_client_resync (x : bool) (s : SyncSession) : SyncSession :=
  mkSyncSession (m_state s) (m_connection_state s) (m_death_count s) (m_config s) x
    (m_download_completion_callbacks s) (m_upload_completion_callbacks s)
    (m_client_resync_counter s) (m_server_override s) (m_session s)
    (m_session_has_been_bound s) (m_deferred_commit_notification s) (m_deferred_close s)
    (m_server_url s) (m_multiplex_identity s) (m_external_reference s).
Definition set_m_download_completion_callbacks (x : list Callback) (s : SyncSession) : SyncSession :=
  mkSyncSession (m_state s) (m_connection_state s) (m_death_count s) (m_config s) (m_force_client_resync s)
    x (m_upload_completion_callbacks s) (m_client_resync_counter s) (m_server_override s)
    (m_session s) (m_session_has_been_bound s) (m_deferred_commit_notification s)
    (m_deferred_close s) (m_server_url s) (m_multiplex_identity s) (m_external_reference s).
Definition set_m_upload_completion_callbacks (x : list Callback) (s : SyncSession) : SyncSession :=
  mkSyncSession (m_state s) (m_connection_state s) (m_death_count s) (m_config s) (m_force_client_resync s)
    (m_download_completion_callbacks s) x (m_client_resync_counter s) (m_server_override s)
    (m_session s) (m_session_has_been_bound s) (m_deferred_commit_notification s)
    (m_deferred_close s) (m_server_url s) (m_multiplex_identity s) (m_external_reference s).
Definition set_m_client_resync_counter (x : Z) (s : SyncSession) : SyncSession :=
  mkSyncSession (m_state s) (m_connection_state s) (m_death_count s) (m_config s) (m_force_client_resync s)
    (m_download_completion_callbacks s) (m_upload_completion_callbacks s) x
    (m_server_override s) (m_session s) (m_session_has_been_bound s)
    (m_deferred_commit_notification s) (m_deferred_close s) (m_server_url s)
    (m_multiplex_identity s) (m_external_reference s).
Definition set_m_server_override (x : option (string * Z)) (s : SyncSession) : SyncSession :=
  mkSyncSession (m_state s) (m_connection_state s) (m_death_count s) (m_config s) (m_force_client_resync s)
    (m_download_completion_callbacks s) (m_upload_completion_callbacks s)
    (m_client_resync_counter s) x (m_session s) (m_session_has_been_bound s)
    (m_deferred_commit_notification s) (m_deferred_close s) (m_server_url s)
    (m_multiplex_identity s) (m_external_reference s).
Definition set_m_session (x : option nat) (s : SyncSession) : SyncSession :=
  mkSyncSession (m_state s) (m_connection_state s) (m_death_count s) (m_config s) (m_force_client_resync s)
    (m_download_completion_callbacks s) (m_upload_completion_callbacks s)
    (m_client_resync_counter s) (m_server_override s) x (m_session_has_been_bound s)
    (m_deferred_commit_notification s) (m_deferred_close s) (m_server_url s)
    (m_multiplex_identity s) (m_external_reference s).
Definition set_m_session_has_been_bound (x : bool) (s : SyncSession) : SyncSession :=
  mkSyncSession (m_state s) (m_connection_state s) (m_death_count s) (m_config s) (m_force_client_resync s)
    (m_download_completion_callbacks s) (m_upload_completion_callbacks s)
    (m_client_resync_counter s) (m_server_override s) (m_session s) x
    (m_deferred_commit_notification s) (m_deferred_close s) (m_server_url s)
    (m_multiplex_identity s) (m_external_reference s).
Definition set_m_deferred_commit_notification (x : option Z) (s : SyncSession) : SyncSession :=
  mkSyncSession (m_state s) (m_connection_state s) (m_death_count s) (m_config s) (m_force_client_resync s)
    (m_download_completion_callbacks s) (m_upload_completion_callbacks s)
    (m_client_resync_counter s) (m_server_override s) (m_session s)
    (m_session_has_been_bound s) x (m_deferred_close s) (m_server_url s)
    (m_multiplex_identity s) (m_external_reference s).
Definition set_m_deferred_close (x : bool) (s : SyncSession) : SyncSession :=
  mkSyncSession (m_state s) (m_connection_state s) (m_death_count s) (m_config s) (m_force_client_resync s)
    (m_download_completion_callbacks s) (m_upload_completion_callbacks s)
    (m_client_resync_counter s) (m_server_override s) (m_session s)
    (m_session_has_been_bound s) (m_deferred_commit_notification s) x (m_server_url s)
    (m_multiplex_identity s) (m_external_reference s).
Definition set_m_server_url (x : option string) (s : SyncSession) : SyncSession :=
  mkSyncSession (m_state s) (m_connection_state s) (m_death_count s) (m_config s) (m_force_client_resync s)
    (m_download_completion_callbacks s) (m_upload_completion_callbacks s)
    (m_client_resync_counter s) (m_server_override s) (m_session s)
    (m_session_has_been_bound s) (m_deferred_commit_notification s) (m_deferred_close s) x
    (m_multiplex_identity s) (m_external_reference s).
Definition set_m_multiplex_identity (x : string) (s : SyncSession) : SyncSession :=
  mkSyncSession (m_state s) (m_connection_state s) (m_death_count s) (m_config s) (m_force_client_resync s)
    (m_download_completion_callbacks s) (m_upload_completion_callbacks s)
    (m_client_resync_counter s) (m_server_override s) (m_session s)
    (m_session_has_been_bound s) (m_deferred_commit_notification s) (m_deferred_close s)
    (m_server_url s) x (m_external_reference s).
Definition set_m_external_reference (x : nat) (s : SyncSession) : SyncSession :=
  mkSyncSession (m_state s) (m_connection_state s) (m_death_count s) (m_config s) (m_force_client_resync s)
    (m_download_completion_callbacks s) (m_upload_completion_callbacks s)
    (m_client_resync_counter s) (m_server_override s) (m_session s)
    (m_session_has_been_bound s) (m_deferred_commit_notification s) (m_deferred_close s)
    (m_server_url s) (m_multiplex_identity s) x.

(** ** The world *)

(** A wait that was started at a [sync::Session], with what its completion
    handler captured *)
Inductive WaitKind :=
| for_completion (direction : NotifierType) (resync_counter : Z)
| for_death (death_count : Z).
Record Wait := mkWait { wait_session : nat; wait_kind : WaitKind }.

#[export] Instance WaitKind_eq_dec : EqDecision WaitKind.
Proof. solve_decision. Defined.
#[export] Instance Wait_eq_dec : EqDecision Wait.
Proof. solve_decision. Defined.

(** What the session does outside *)
Inductive Effect :=
| MakeSession (id : nat) (config : SessionConfig)
| Bind (id : nat) (url token : string)
| Refresh (id : nat) (token : string)
| CancelReconnectDelay (id : nat)
| OverrideServer (id : nat) (address : string) (port : Z)
| NonsyncTransactNotify (id : nat) (version : Z)
| StartWait (wait : Wait)
| DestroySession (id : nat)
| UnregisterSession
| EnterState (from to : State)
| ConnectionChange (old new : ConnectionState)
| Completed (callback : Callback) (error : option ErrorCode)
| BindSessionHandler
| ErrorHandler (error : SyncError)
| InvalidateUser (user : nat)
| MakeFileAction (backup : bool) (recovery_path : string)
| ProgressReport (notifier : nat) (transferred transferrable : Z).

Record World := mkWorld {
  the_session : SyncSession;
  locked : bool;
  waits : list Wait;
  next_session : nat;
  effects : list Effect;
  progress : SyncProgressNotifier }.

Definition M (A : Type) : Type := World → option (A * World).

#[export] Instance M_ret : MRet M := λ A x w, Some (x, w).
#[export] Instance M_bind : MBind M := λ A B f e w,
  match e w with Some (x, w) => f x w | None => None end.

Notation "e ;; k" := (mbind (M := M) (λ _ : (), k) e) (at level 100, right associativity, format "e ;;  '//' k").

Definition get {A} (f : SyncSession → A) : M A := λ w, Some (f (the_session w), w).
Definition update (f : SyncSession → SyncSession) : M () := λ w,
  Some ((), mkWorld (f (the_session w)) (locked w) (waits w) (next_session w) (effects w) (progress w)).
Definition set_progress (f : SyncProgressNotifier → SyncProgressNotifier) : M () := λ w,
  Some ((), mkWorld (the_session w) (locked w) (waits w) (next_session w) (effects w) (f (progress w))).
Definition emit (e : Effect) : M () := λ w,
  Some ((), mkWorld (the_session w) (locked w) (waits w) (next_session w) (effects w ++ [e]) (progress w)).
Definition assert (b : bool) : M () := λ w, if b then Some ((), w) else None.
Definition skip : M () := mret ().
Definition fail {A} : M A := λ _, None.

Fixpoint for_each {A} (f : A → M ()) (l : list A) : M () :=
  match l with
  | [] => skip
  | x :: l => f x;; for_each f l
  end.

Module SyncSession.
(** ** The mutex *)
Definition owns_lock : M bool := λ w, Some (locked w, w).
Definition set_locked (b : bool) : M () := λ w,
  Some ((), mkWorld (the_session w) b (waits w) (next_session w) (effects w) (progress w)).
Definition lock : M () := l ← owns_lock; assert (negb l);; set_locked true.
Definition unlock : M () := l ← owns_lock; assert l;; set_locked false.

(** The destructor of [std::unique_lock] *)
Definition release : M () := set_locked false.

(** [std::unique_lock<std::mutex> lock(m_state_mutex)] up to the end of its
    scope *)
Definition with_lock {A} (body : M A) : M A := lock;; x ← body; release;; mret x.

(** ** The session of the library *)

(** [m_session->...]; a null pointer is dereferenced *)
Definition session_id : M nat :=
  s ← get m_session;
  match s with Some id => mret id | None => fail end.

Definition on_session (call : nat → Effect) : M () := id ← session_id; emit (call id).

Definition start_wait (kind : WaitKind) : M () :=
  id ← session_id;
  (λ w, Some ((), mkWorld (the_session w) (locked w) (waits w ++ [mkWait id kind]) (next_session w) (effects w) (progress w)));;
  emit (StartWait (mkWait id kind)).

(** [m_client.make_session]: a new object *)
Definition make_session (config : SessionConfig) : M () := λ w,
  let id := next_session w in
  Some ((), mkWorld (set_m_session (Some id) (the_session w)) (locked w) (waits w) (S id)
              (effects w ++ [MakeSession id config]) (progress w)).

(** [m_session = nullptr] *)
Definition reset_session : M () :=
  s ← get m_session;
  match s with Some id => emit (DestroySession id) | None => skip end;;
  update (set_m_session None).

Definition callbacks (direction : NotifierType) (s : SyncSession) : list Callback :=
  match direction with
  | download => m_download_completion_callbacks s
  | upload => m_upload_completion_callbacks s
  end.
Definition set_callbacks (direction : NotifierType) (l : list Callback) : SyncSession → SyncSession :=
  match direction with
  | download => set_m_download_completion_callbacks l
  | upload => set_m_upload_completion_callbacks l
  end.

(** "std::move(callbacks)": the vector is left empty *)
Definition take_callbacks (direction : NotifierType) : M (list Callback) :=
  l ← get (callbacks direction); update (set_callbacks direction []);; mret l.

Definition complete_all (error : option ErrorCode) (l : list Callback) : M () :=
  for_each (λ callback, emit (Completed callback error)) l.

Definition add_completion_callback (direction : NotifierType) : M () :=
  counter ← get m_client_resync_counter;
  start_wait (for_completion direction counter).

(** ** Transitions *)
Definition unregister : M () :=
  l ← owns_lock; assert l;;
  st ← get m_state; assert (bool_decide (st = inactive));;
  unlock;;
  emit UnregisterSession.

Definition connection_state : M ConnectionState := with_lock (get m_connection_state).

(** [advance_state] without [enter_state] *)
Definition set_state (state : State) : M () :=
  l ← owns_lock; assert l;;
  st ← get m_state; assert (negb (bool_decide (state = st)));;
  update (set_m_state state);;
  emit (EnterState st state).

Definition enter_waiting_for_access_token : M () := update (set_m_deferred_close false).

Definition enter_active : M () :=
  uploads ← get m_upload_completion_callbacks;
  (if negb (bool_decide (uploads = [])) then add_completion_callback upload else skip);;
  downloads ← get m_download_completion_callbacks;
  (if negb (bool_decide (downloads = [])) then add_completion_callback download else skip).

Definition enter_inactive : M () :=
  old_state ← get m_connection_state;
  update (set_m_connection_state Disconnected);;
  let new_state := Disconnected in
  download_waits ← take_callbacks download;
  upload_waits ← take_callbacks upload;
  reset_session;;
  unregister;;
  (if negb (bool_decide (old_state = new_state))
   then current ← connection_state; emit (ConnectionChange old_state current) else skip);;
  complete_all (Some operation_aborted) download_waits;;
  complete_all (Some operation_aborted) upload_waits.

Definition enter_dying : M () :=
  s ← get m_session;
  if bool_decide (s = None) then set_state inactive;; enter_inactive
  else
    count ← get m_death_count;
    update (set_m_death_count (count +w 1));;
    start_wait (for_death (count +w 1)).

Definition enter_state (state : State) : M () :=
  match state with
  | waiting_for_access_token => enter_waiting_for_access_token
  | active => enter_active
  | dying => enter_dying
  | inactive => enter_inactive
  end.

Definition advance_state (state : State) : M () := set_state state;; enter_state state.

(** ** The actions of the states *)
Definition state_close : M () :=
  st ← get m_state; policy ← get (λ s, stop_policy (m_config s));
  match st, policy with
  | waiting_for_access_token, Immediately => advance_state inactive
  | waiting_for_access_token, _ => update (set_m_deferred_close true)
  | active, Immediately => advance_state inactive
  | active, LiveIndefinitely => skip
  | active, AfterChangesUploaded => advance_state dying
  | dying, _ => skip
  | inactive, _ => unregister
  end.

Definition session_config (s : SyncSession) (realm_path : string) : SessionConfig :=
  mkSessionConfig (m_multiplex_identity s) (authorization_header_name (m_config s)) (url_prefix (m_config s))
    (if m_force_client_resync s
     then Some (realm_path +:+ ".resync",
                match client_resync_mode (m_config s) with Recover => true | _ => false end)
     else None).

Section Session.
(** The path of the file and the name reserved for its recovery copy *)
Context (realm_path recovery_file_path : string).

Definition create_sync_session : M () :=
  s ← get m_session;
  if bool_decide (is_Some s) then skip else
  config ← get (λ s, session_config s realm_path);
  make_session config;;
  update (set_m_session_has_been_bound false).

Definition state_refresh_access_token (access_token : string) (server_url : option string) : M () :=
  st ← get m_state;
  match st with
  | waiting_for_access_token =>
      create_sync_session;;
      url ← get m_server_url;
      (if bool_decide (url = None) then update (set_m_server_url server_url) else skip);;
      bound ← get m_session_has_been_bound;
      (if (bound : bool) then on_session (λ id, Refresh id access_token);; on_session CancelReconnectDelay
       else
         url ← get m_server_url;
         match url with
         | Some url => on_session (λ id, Bind id url access_token)
         | None => fail
         end;;
         update (set_m_session_has_been_bound true));;
      override ← get m_server_override;
      match override with
      | Some (address, port) => on_session (λ id, OverrideServer id address port)
      | None => skip
      end;;
      deferred ← get m_deferred_commit_notification;
      match deferred with
      | Some version =>
          on_session (λ id, NonsyncTransactNotify id version);;
          update (set_m_deferred_commit_notification None)
      | None => skip
      end;;
      advance_state active;;
      deferred_close ← get m_deferred_close;
      if (deferred_close : bool) then state_close else skip
  | active => on_session (λ id, Refresh id access_token);; on_session CancelReconnectDelay
  | _ => skip
  end.

Definition state_access_token_expired : M () :=
  st ← get m_state;
  match st with
  | active => advance_state waiting_for_access_token;; unlock;; emit BindSessionHandler
  | _ => skip
  end.

Definition state_log_out : M () :=
  st ← get m_state;
  match st with inactive => skip | _ => advance_state inactive end.

Definition state_revive_if_needed : M bool :=
  st ← get m_state;
  match st with
  | waiting_for_access_token => update (set_m_deferred_close false);; mret false
  | active => mret false
  | dying => advance_state active;; mret false
  | inactive => advance_state waiting_for_access_token;; mret true
  end.

Definition state_handle_reconnect : M () :=
  st ← get m_state;
  match st with
  | waiting_for_access_token => unlock;; emit BindSessionHandler
  | active => on_session CancelReconnectDelay
  | _ => skip
  end.

Definition state_nonsync_transact_notify (version : Z) : M () :=
  st ← get m_state;
  match st with
  | waiting_for_access_token => update (set_m_deferred_commit_notification (Some version))
  | active => on_session (λ id, NonsyncTransactNotify id version)
  | _ => skip
  end.

Definition state_handle_error (error : SyncError) : M bool :=
  st ← get m_state;
  match st with
  | dying => (if is_fatal error then advance_state inactive else skip);; mret true
  | _ => mret false
  end.

Definition state_wait_for_completion (direction : NotifierType) : M () :=
  st ← get m_state;
  match st with
  | active | dying =>
      s ← get m_session; assert (bool_decide (is_Some s));;
      add_completion_callback direction
  | _ => skip
  end.

Definition state_override_server (address : string) (port : Z) : M () :=
  st ← get m_state;
  update (set_m_server_override (Some (address, port)));;
  match st with
  | active | dying => on_session (λ id, OverrideServer id address port)
  | _ => skip
  end.

(** ** The calls *)
Definition revive_if_needed : M () :=
  handler ← with_lock state_revive_if_needed;
  if (handler : bool) then emit BindSessionHandler else skip.

Definition handle_reconnect : M () := with_lock state_handle_reconnect.
Definition log_out : M () := with_lock state_log_out.
Definition close : M () := with_lock state_close.
Definition nonsync_transact_notify (version : Z) : M () :=
  set_progress (SyncProgressNotifier.set_local_version version);;
  with_lock (state_nonsync_transact_notify version).

(** The notifiers are called while no mutex is held. *)
Definition report_all (l : list (nat * (Z * Z))) : M () :=
  for_each (λ r, emit (ProgressReport r.1 r.2.1 r.2.2)) l.

Definition handle_progress_update (downloaded downloadable uploaded uploadable : Z)
    (download_version snapshot_version : Z) : M () :=
  n ← (λ w, Some (progress w, w));
  let r := SyncProgressNotifier.update downloaded downloadable uploaded uploadable download_version
             snapshot_version n in
  set_progress (λ _, r.2);;
  report_all r.1.

Definition register_progress_notifier (f : nat) (direction : NotifierType) (streaming : bool) : M Z :=
  n ← (λ w, Some (progress w, w));
  let r := SyncProgressNotifier.register_callback f direction streaming n in
  set_progress (λ _, r.2);;
  report_all r.1.2;;
  mret r.1.1.

Definition unregister_progress_notifier (token : Z) : M () :=
  set_progress (SyncProgressNotifier.unregister_callback token).
Definition override_server (address : string) (port : Z) : M () := with_lock (state_override_server address port).

Definition refresh_access_token (access_token : string) (server_url : option string) : M () :=
  with_lock (
    url ← get m_server_url;
    if bool_decide (url = None) && bool_decide (server_url = None) then skip
    else state_refresh_access_token access_token server_url).

(** [wait_for_upload_completion] and [wait_for_download_completion] *)
Definition wait_for_completion (direction : NotifierType) (callback : Callback) : M () :=
  with_lock (
    l ← get (callbacks direction);
    (if bool_decide (l = []) then state_wait_for_completion direction else skip);;
    update (λ s, set_callbacks direction (callbacks direction s ++ [callback]) s)).

Definition set_multiplex_identifier (multiplex_identity : string) : M () :=
  update (set_m_multiplex_identity multiplex_identity).

Definition with_url_prefix (prefix : string) (c : SyncConfig) : SyncConfig :=
  mkSyncConfig (user c) (reference_realm_url c) (stop_policy c) (has_error_handler c) (is_partial c)
    (cancel_waits_on_nonfatal_error c) (authorization_header_name c) (Some prefix) (client_resync_mode c).
Definition set_url_prefix (prefix : string) : M () :=
  update (λ s, set_m_config (with_url_prefix prefix (m_config s)) s).

(** The completion handler of a wait; the session is still alive. *)
Definition wait_completed (wait : Wait) (error : option ErrorCode) : M () :=
  match wait_kind wait with
  | for_completion direction resync_counter =>
      lock;;
      counter ← get m_client_resync_counter;
      if negb (resync_counter =? counter) then release
      else
        l ← take_callbacks direction;
        unlock;;
        complete_all error l
  | for_death current_death_count =>
      with_lock (
        st ← get m_state; count ← get m_death_count;
        if bool_decide (st = dying) && (count =? current_death_count)
        then advance_state inactive else skip)
  end.

(** The lock is released before the handlers are called. *)
Definition cancel_pending_waits (error : ErrorCode) : M () :=
  downloads ← take_callbacks download;
  uploads ← take_callbacks upload;
  unlock;;
  complete_all (Some error) downloads;;
  complete_all (Some error) uploads.

Definition add_user_info (key value : string) (error : SyncError) : SyncError :=
  mkSyncError (error_code error) (message error) (is_fatal error)
    (filter (λ entry, entry.1 ≠ key) (user_info error) ++ [(key, value)])
    (is_unrecognized_by_client error).
Definition unrecognized (error : SyncError) : SyncError :=
  mkSyncError (error_code error) (message error) (is_fatal error) (user_info error) true.

Definition update_error_and_mark_file_for_deletion (error : SyncError) (should_backup : bool) : M SyncError :=
  let error := add_user_info c_original_file_path_key realm_path error in
  let error := if should_backup then add_user_info c_recovery_file_path_key recovery_file_path error else error in
  emit (MakeFileAction should_backup (if should_backup then recovery_file_path else ""));;
  mret error.

Inductive NextStateAfterError := next_none | next_inactive | next_error.

(** The tear-down for a client resync: the completion handlers are put aside
    while the session becomes inactive. *)
Definition start_client_resync : M () :=
  with_lock (
    update (set_m_force_client_resync true);;
    update (λ s, set_m_client_resync_counter (m_client_resync_counter s + 1) s);;
    download_handlers ← take_callbacks download;
    upload_handlers ← take_callbacks upload;
    advance_state inactive;;
    update (set_m_download_completion_callbacks download_handlers);;
    update (set_m_upload_completion_callbacks upload_handlers)).

(** How a protocol error is handled: [None] returns from [handle_error]. *)
Definition handle_protocol_error (e : ProtocolError) (error : SyncError) (next : NextStateAfterError) :
    M (option (NextStateAfterError * SyncError)) :=
  match e with
  | connection_closed | other_error => mret None
  | session_closed | other_session_error | disabled_session => mret None
  | token_expired => with_lock state_access_token_expired;; mret None
  | bad_authentication =>
      user_to_invalidate ← with_lock (
        u ← get (λ s, user (m_config s)); cancel_pending_waits (error_code error);; mret u);
      match user_to_invalidate with Some u => emit (InvalidateUser u) | None => skip end;;
      mret (Some (next_none, error))
  | permission_denied =>
      error ← update_error_and_mark_file_for_deletion error false; mret (Some (next_inactive, error))
  | bad_client_file | bad_client_file_ident | bad_origin_file_ident | bad_server_file_ident
  | bad_server_version | client_file_blacklisted | diverging_histories | server_file_deleted
  | user_blacklisted | client_file_expired =>
      error ← update_error_and_mark_file_for_deletion error true; mret (Some (next_inactive, error))
  | _ => mret (Some (next, error))
  end.

Definition handle_error_code (error : SyncError) (next : NextStateAfterError) :
    M (option (NextStateAfterError * SyncError)) :=
  match error_code error with
  | protocol_error e => handle_protocol_error e error next
  | client_error client_connection_closed | client_error pong_timeout => mret None
  | client_error (other_client_error _) => mret (Some (next, error))
  | _ => mret (Some (next, unrecognized error))
  end.

(** The transition after the error, and its report *)
Definition finish_error (next : NextStateAfterError) (error : SyncError) : M () :=
  match next with
  | next_none =>
      cancel ← get (λ s, cancel_waits_on_nonfatal_error (m_config s));
      if (cancel : bool) then with_lock (cancel_pending_waits (error_code error)) else skip
  | next_inactive => with_lock (advance_state inactive)
  | next_error => with_lock (cancel_pending_waits (error_code error))
  end;;
  handler ← get (λ s, has_error_handler (m_config s));
  if (handler : bool) then emit (ErrorHandler error) else skip.

(** [handle_error] after the state has been asked *)
Definition handle_error_rest (error : SyncError) : M () :=
  mode ← get (λ s, client_resync_mode (m_config s));
  match is_client_reset_requested error, mode with
  | true, (Recover | DiscardLocal) => start_client_resync;; revive_if_needed
  | _, _ =>
      r ← handle_error_code error (if is_fatal error then next_error else next_none);
      match r with
      | Some (next, error) => finish_error next error
      | None => skip
      end
  end.

Definition handle_error (error : SyncError) : M () :=
  handled ← with_lock (state_handle_error error);
  if (handled : bool) then skip else handle_error_rest error.

(** The listener set on the session of the library *)
Definition connection_state_changed (state : ConnectionState) (error : option SyncError) : M () :=
  lock;;
  old_state ← get m_connection_state;
  update (set_m_connection_state state);;
  new_state ← get m_connection_state;
  unlock;;
  emit (ConnectionChange old_state new_state);;
  match error with
  | Some error => handle_error error
  | None => skip
  end.

(** The loop of [update_configuration]: two turns, unless another thread
    changes the state in between. *)
Fixpoint update_configuration_loop (fuel : nat) (new_config : SyncConfig) : M () :=
  match fuel with
  | O => fail
  | S fuel =>
      done ← with_lock (
        st ← get m_state;
        if negb (bool_decide (st = inactive)) then advance_state inactive;; mret false
        else
          s ← get m_session; assert (bool_decide (s = None));;
          old ← get m_config;
          assert (bool_decide (user old = user new_config));;
          assert (bool_decide (reference_realm_url old = reference_realm_url new_config));;
          assert (Bool.eqb (is_partial old) (is_partial new_config));;
          update (set_m_config new_config);; mret true);
      if (done : bool) then skip else update_configuration_loop fuel new_config
  end.

Definition update_configuration (new_config : SyncConfig) : M () :=
  update_configuration_loop 2 new_config;; revive_if_needed.

(** ** External references *)

(** A new owner of the reference *)
Definition external_reference : M () :=
  with_lock (update (λ s, set_m_external_reference (S (m_external_reference s)) s)).

Definition existing_external_reference : M bool :=
  with_lock (
    n ← get m_external_reference;
    if (n =? 0)%nat then mret false
    else update (set_m_external_reference (S n));; mret true).

Definition did_drop_external_reference : M () :=
  with_lock (
    n ← get m_external_reference;
    if negb (n =? 0)%nat then skip else state_close).

(** An owner drops the reference; the last one destroys it. *)
Definition drop_external_reference : M () :=
  n ← get m_external_reference;
  match n with
  | O => fail
  | S n =>
      update (set_m_external_reference n);;
      if (n =? 0)%nat then did_drop_external_reference else skip
  end.

(** ** The calls a session gets

    Those of the application and of the library: a wait that fires is no longer
    pending. *)
Inductive Call :=
| ReviveIfNeeded
| HandleReconnect
| LogOut
| Close
| NotifyCommit (version : Z)
| SetServer (address : string) (port : Z)
| RefreshAccessToken (access_token : string) (server_url : option string)
| WaitForCompletion (direction : NotifierType) (callback : Callback)
| SetMultiplexIdentifier (identity : string)
| SetUrlPrefix (prefix : string)
| UpdateConfiguration (config : SyncConfig)
| ExternalReference
| ExistingExternalReference
| DropExternalReference
| WaitFires (wait : Wait) (error : option ErrorCode)
| ConnectionStateChanged (state : ConnectionState) (error : option SyncError)
| RegisterProgressNotifier (f : nat) (direction : NotifierType) (streaming : bool)
| UnregisterProgressNotifier (token : Z)
| ProgressUpdate (download_version : Z) (p : Progress).

Fixpoint remove_wait (x : Wait) (l : list Wait) : list Wait :=
  match l with
  | [] => []
  | y :: l => if bool_decide (x = y) then l else y :: remove_wait x l
  end.

Definition run_call (c : Call) : M () :=
  match c with
  | ReviveIfNeeded => revive_if_needed
  | HandleReconnect => handle_reconnect
  | LogOut => log_out
  | Close => close
  | NotifyCommit version => nonsync_transact_notify version
  | SetServer address port => override_server address port
  | RefreshAccessToken access_token server_url => refresh_access_token access_token server_url
  | WaitForCompletion direction callback => wait_for_completion direction callback
  | SetMultiplexIdentifier identity => set_multiplex_identifier identity
  | SetUrlPrefix prefix => set_url_prefix prefix
  | UpdateConfiguration config => update_configuration config
  | ExternalReference => external_reference
  | ExistingExternalReference => _ ← existing_external_reference; skip
  | DropExternalReference => drop_external_reference
  | WaitFires wait error =>
      (λ w, Some ((), mkWorld (the_session w) (locked w) (remove_wait wait (waits w)) (next_session w) (effects w)
                        (progress w)));;
      wait_completed wait error
  | ConnectionStateChanged state error => connection_state_changed state error
  | RegisterProgressNotifier f direction streaming => _ ← register_progress_notifier f direction streaming; skip
  | UnregisterProgressNotifier token => unregister_progress_notifier token
  | ProgressUpdate download_version p =>
      handle_progress_update (downloaded p) (downloadable p) (uploaded p) (uploadable p) download_version
        (progress_snapshot_version p)
  end.
End Session.

(** A session as it is constructed; [m_session_has_been_bound] has no initial
    value *)
Definition make (config : SyncConfig) (force_client_resync bound : bool) : SyncSession :=
  mkSyncSession inactive Disconnected 0 config force_client_resync [] [] 0 None None bound None false None "" 0.

Definition initial (config : SyncConfig) (force_client_resync bound : bool) : World :=
  mkWorld (make config force_client_resync bound) false [] 0 [] SyncProgressNotifier.empty.
End SyncSession.
