(* ===== verification/SyncSessionTheory.v ===== *)
(** What the transitions of a session do, and the invariant of its calls. *)
From stdpp Require Import strings.
From S2P Require Import Prelude SyncProgress SyncSession.
Import SyncSession.

(** ** Running a call

    [wp] holds if the call does not fail and its result satisfies [Q]. *)
Definition wp {A} (e : M A) (Q : A → World → Prop) (w : World) : Prop :=
  match e w with Some (x, w') => Q x w' | None => False end.

Section Rules.
Context {A B : Type}.

Lemma wp_intro (e : M A) Q w x w' : e w = Some (x, w') → Q x w' → wp e Q w.
Proof. unfold wp. by intros ->. Qed.

Lemma wp_exists (e : M ()) (P : World → Prop) w :
  wp e (λ _ w', P w') w → ∃ w', e w = Some ((), w') ∧ P w'.
Proof. unfold wp. destruct (e w) as [[[] w']|]; [by exists w'|done]. Qed.

Lemma wp_ret (x : A) (Q : A → World → Prop) w : Q x w → wp (mret x) Q w.
Proof. done. Qed.

Lemma wp_bind (e : M A) (f : A → M B) Q w :
  wp e (λ x w', wp (f x) Q w') w → wp (mbind f e) Q w.
Proof. unfold wp, mbind, M_bind. by destruct (e w) as [[x w']|]. Qed.

Lemma wp_mono (e : M A) (Q Q' : A → World → Prop) w :
  wp e Q w → (∀ x w', Q x w' → Q' x w') → wp e Q' w.
Proof. unfold wp. destruct (e w) as [[x w']|]; auto. Qed.

Lemma wp_get (f : SyncSession → A) (Q : A → World → Prop) w : Q (f (the_session w)) w → wp (get f) Q w.
Proof. done. Qed.
End Rules.

(** ** What a call changes *)
Definition with_session (f : SyncSession → SyncSession) (w : World) : World :=
  mkWorld (f (the_session w)) (locked w) (waits w) (next_session w) (effects w) (progress w).
Definition with_locked (b : bool) (w : World) : World :=
  mkWorld (the_session w) b (waits w) (next_session w) (effects w) (progress w).
Definition with_effects (l : list Effect) (w : World) : World :=
  mkWorld (the_session w) (locked w) (waits w) (next_session w) (effects w ++ l) (progress w).
Definition with_wait (x : Wait) (w : World) : World :=
  mkWorld (the_session w) (locked w) (waits w ++ [x]) (next_session w) (effects w ++ [StartWait x])
    (progress w).

Definition with_progress (f : SyncProgressNotifier → SyncProgressNotifier) (w : World) : World :=
  mkWorld (the_session w) (locked w) (waits w) (next_session w) (effects w) (f (progress w)).

Section Steps.
Implicit Types (Q : () → World → Prop) (w : World).

Lemma wp_set_progress f Q w : Q () (with_progress f w) → wp (set_progress f) Q w.
Proof. done. Qed.

Lemma wp_update f Q w : Q () (with_session f w) → wp (update f) Q w.
Proof. done. Qed.

Lemma wp_emit e Q w : Q () (with_effects [e] w) → wp (emit e) Q w.
Proof. done. Qed.

Lemma wp_assert b Q w : b = true → Q () w → wp (assert b) Q w.
Proof. by intros ->. Qed.

Lemma wp_skip Q w : Q () w → wp skip Q w.
Proof. done. Qed.

Lemma wp_lock Q w : locked w = false → Q () (with_locked true w) → wp lock Q w.
Proof. intros Hl. unfold wp, lock. cbn. unfold mbind, M_bind, owns_lock. by rewrite Hl. Qed.

Lemma wp_unlock Q w : locked w = true → Q () (with_locked false w) → wp unlock Q w.
Proof. intros Hl. unfold wp, unlock, mbind, M_bind, owns_lock. by rewrite Hl. Qed.

Lemma wp_with_lock {A} (body : M A) (Q : A → World → Prop) w :
  locked w = false → wp body (λ x w', Q x (with_locked false w')) (with_locked true w) →
  wp (with_lock body) Q w.
Proof.
  intros Hl Hb. unfold with_lock. apply wp_bind, wp_lock; [done|]. apply wp_bind.
  eapply wp_mono; [exact Hb|]. intros x w' Hx. by apply wp_bind.
Qed.

Lemma wp_on_session call id Q w :
  m_session (the_session w) = Some id → Q () (with_effects [call id] w) → wp (on_session call) Q w.
Proof.
  intros Hs HQ. unfold on_session, session_id. apply wp_bind, wp_bind, wp_get. rewrite Hs. by apply wp_emit.
Qed.

Lemma wp_start_wait kind id Q w :
  m_session (the_session w) = Some id → Q () (with_wait (mkWait id kind) w) → wp (start_wait kind) Q w.
Proof.
  intros Hs HQ. unfold start_wait, session_id. apply wp_bind, wp_bind, wp_get. by rewrite Hs.
Qed.

Lemma wp_complete_all error l Q w :
  Q () (with_effects ((λ c, Completed c error) <$> l) w) → wp (complete_all error l) Q w.
Proof.
  unfold complete_all. revert w. induction l as [|c l IH]; intros w HQ.
  - apply wp_skip. destruct w. unfold with_effects in HQ. simpl in *. by rewrite app_nil_r in HQ.
  - apply wp_bind, wp_emit, IH. unfold with_effects in *. simpl in *. by rewrite <-app_assoc.
Qed.
End Steps.

(** ** Transitions *)

(** The effects of becoming inactive *)
Definition inactive_effects (s : SyncSession) : list Effect :=
  EnterState (m_state s) inactive ::
  (match m_session s with Some id => [DestroySession id] | None => [] end) ++
  [UnregisterSession] ++
  (if bool_decide (m_connection_state s = Disconnected) then []
   else [ConnectionChange (m_connection_state s) Disconnected]) ++
  ((λ c, Completed c (Some operation_aborted)) <$> m_download_completion_callbacks s) ++
  ((λ c, Completed c (Some operation_aborted)) <$> m_upload_completion_callbacks s).

Definition closed (s : SyncSession) : SyncSession :=
  set_m_state inactive (set_m_connection_state Disconnected (set_m_session None
    (set_m_download_completion_callbacks [] (set_m_upload_completion_callbacks [] s)))).

Definition to_inactive (w : World) : World :=
  mkWorld (closed (the_session w)) false (waits w) (next_session w) (effects w ++ inactive_effects (the_session w))
    (progress w).

Lemma complete_all_eq error l w :
  complete_all error l w = Some ((), with_effects ((λ c, Completed c error) <$> l) w).
Proof.
  pose proof (wp_complete_all error l (λ x w', w' = with_effects ((λ c, Completed c error) <$> l) w) w eq_refl) as H.
  unfold wp in H. destruct (complete_all error l w) as [[[] w']|]; [by subst|done].
Qed.

Lemma advance_inactive w :
  locked w = true → m_state (the_session w) ≠ inactive → advance_state inactive w = Some ((), to_inactive w).
Proof.
  destruct w as [s l ws n es pr]. simpl. intros -> Hst. destruct s as [st cs dc cfg fr dl ul rc ov se bo df dcl url mi er].
  unfold to_inactive, inactive_effects, closed, advance_state. simpl in *.
  unfold mbind, M_bind at 1. unfold set_state, mbind, M_bind, owns_lock, get, assert; simpl.
  rewrite bool_decide_false by congruence. simpl. unfold enter_inactive, mbind, M_bind, reset_session. simpl.
  destruct se as [id|]; simpl; unfold unregister, mbind, M_bind; simpl;
    destruct cs; simpl; unfold with_lock, connection_state, mbind, M_bind; simpl;
    rewrite ?complete_all_eq; simpl; rewrite ?complete_all_eq; unfold with_effects; simpl;
    by rewrite <-!app_assoc.
Qed.

Definition active_waits (id : nat) (s : SyncSession) : list Wait :=
  (if bool_decide (m_upload_completion_callbacks s = []) then []
   else [mkWait id (for_completion upload (m_client_resync_counter s))]) ++
  (if bool_decide (m_download_completion_callbacks s = []) then []
   else [mkWait id (for_completion download (m_client_resync_counter s))]).

Definition to_active (id : nat) (w : World) : World :=
  let s := the_session w in
  mkWorld (set_m_state active s) (locked w) (waits w ++ active_waits id s) (next_session w)
    (effects w ++ EnterState (m_state s) active :: (StartWait <$> active_waits id s)) (progress w).

Definition to_waiting (w : World) : World :=
  let s := the_session w in
  mkWorld (set_m_state waiting_for_access_token (set_m_deferred_close false s)) (locked w) (waits w)
    (next_session w) (effects w ++ [EnterState (m_state s) waiting_for_access_token]) (progress w).

Definition to_dying (id : nat) (w : World) : World :=
  let s := the_session w in
  let wait := mkWait id (for_death (m_death_count s +w 1)) in
  mkWorld (set_m_state dying (set_m_death_count (m_death_count s +w 1) s)) (locked w) (waits w ++ [wait])
    (next_session w) (effects w ++ [EnterState (m_state s) dying; StartWait wait]) (progress w).

Lemma advance_active id w :
  locked w = true → m_state (the_session w) ≠ active → m_session (the_session w) = Some id →
  advance_state active w = Some ((), to_active id w).
Proof.
  destruct w as [s l ws n es pr]. simpl. intros -> Hst Hid. destruct s as [st cs dc cfg fr dl ul rc ov se bo df dcl url mi er].
  unfold to_active, active_waits, advance_state, set_state, mbind, M_bind, owns_lock, get, assert.
  simpl in *. subst se. rewrite bool_decide_false by congruence. simpl.
  unfold enter_active, mbind, M_bind, get. simpl. destruct (bool_decide (ul = [])), (bool_decide (dl = [])) eqn:Ed; simpl;
    unfold add_completion_callback, start_wait, session_id, mbind, M_bind, get, emit; simpl;
    rewrite ?Ed; simpl; rewrite <-?app_assoc, ?app_nil_r; done.
Qed.

Lemma advance_waiting w :
  locked w = true → m_state (the_session w) ≠ waiting_for_access_token →
  advance_state waiting_for_access_token w = Some ((), to_waiting w).
Proof.
  destruct w as [s l ws n es pr]. simpl. intros -> Hst. destruct s as [st cs dc cfg fr dl ul rc ov se bo df dcl url mi er].
  unfold to_waiting, advance_state, set_state, mbind, M_bind, owns_lock, get, assert. simpl in *.
  by rewrite bool_decide_false by congruence.
Qed.

Lemma advance_dying id w :
  locked w = true → m_state (the_session w) ≠ dying → m_session (the_session w) = Some id →
  advance_state dying w = Some ((), to_dying id w).
Proof.
  destruct w as [s l ws n es pr]. simpl. intros -> Hst Hid. destruct s as [st cs dc cfg fr dl ul rc ov se bo df dcl url mi er].
  unfold to_dying, advance_state, set_state, mbind, M_bind, owns_lock, get, assert. simpl in *.
  subst se. rewrite bool_decide_false by congruence. simpl.
  unfold enter_dying, start_wait, session_id, mbind, M_bind, get, emit. simpl. by rewrite <-!app_assoc.
Qed.

(** The completion of a wait from before a client resync is ignored. *)
Lemma stale_wait_ignored wait direction counter result w :
  wait_kind wait = for_completion direction counter → locked w = false →
  counter ≠ m_client_resync_counter (the_session w) → wait_completed wait result w = Some ((), w).
Proof.
  intros Hk Hl Hne. unfold wait_completed. rewrite Hk. destruct w as [s l ws n es pr]. simpl in *. subst l.
  unfold mbind, M_bind, lock, get. simpl. by rewrite (proj2 (Z.eqb_neq _ _) Hne).
Qed.

(** ** The documented states *)

(** The transitions in the comment on [SyncSession::State] *)
Definition documented (a b : State) : bool :=
  match a, b with
  | inactive, waiting_for_access_token => true
  | waiting_for_access_token, (active | inactive) => true
  | active, (waiting_for_access_token | inactive | dying) => true
  | dying, (inactive | active) => true
  | _, _ => false
  end.

Definition transitions (l : list Effect) : list (State * State) :=
  omap (λ e, match e with EnterState a b => Some (a, b) | _ => None end) l.

(** A path of documented transitions *)
Fixpoint path (a : State) (l : list (State * State)) (b : State) : Prop :=
  match l with
  | [] => a = b
  | (x, y) :: l => a = x ∧ documented x y = true ∧ path y l b
  end.

Definition completed (l : list Effect) : list Callback :=
  omap (λ e, match e with Completed c _ => Some c | _ => None end) l.

Definition connected_state (st : State) : bool :=
  match st with active | dying => true | _ => false end.

(** The invariant between calls: [registered] are the handlers passed to
    [wait_for_upload_completion] and [wait_for_download_completion] so far. *)
Record good (registered : list Callback) (w : World) : Prop := {
  g_session : connected_state (m_state (the_session w)) = true → is_Some (m_session (the_session w));
  g_inactive : m_state (the_session w) = inactive → m_session (the_session w) = None;
  g_bound : connected_state (m_state (the_session w)) = true → m_session_has_been_bound (the_session w) = true;
  g_url : m_session_has_been_bound (the_session w) = true → is_Some (m_session (the_session w)) →
    is_Some (m_server_url (the_session w));
  g_fresh : ∀ x, x ∈ waits w → (wait_session x < next_session w)%nat;
  g_fresh_id : ∀ id, m_session (the_session w) = Some id → (id < next_session w)%nat;
  g_armed : connected_state (m_state (the_session w)) = true → ∀ direction id,
    callbacks direction (the_session w) ≠ [] → m_session (the_session w) = Some id →
    mkWait id (for_completion direction (m_client_resync_counter (the_session w))) ∈ waits w;
  g_path : path inactive (transitions (effects w)) (m_state (the_session w));
  g_handlers : registered ≡ₚ m_download_completion_callbacks (the_session w) ++
    m_upload_completion_callbacks (the_session w) ++ completed (effects w) }.

Lemma path_snoc a l b c : path a l b → documented b c = true → path a (l ++ [(b, c)]) c.
Proof.
  revert a. induction l as [|[x y] l IH]; intros a; simpl; [by intros -> ?|].
  intros (->&?&Hp) Hd. auto.
Qed.

Lemma transitions_app l1 l2 : transitions (l1 ++ l2) = transitions l1 ++ transitions l2.
Proof. apply omap_app. Qed.

Lemma completed_app l1 l2 : completed (l1 ++ l2) = completed l1 ++ completed l2.
Proof. apply omap_app. Qed.

Lemma transitions_completed e l : transitions ((λ c, Completed c e) <$> l) = [].
Proof. unfold transitions. by induction l. Qed.

Lemma completed_completed e l : completed ((λ c, Completed c e) <$> l) = l.
Proof. induction l as [|c l IH]; [done|]. exact (f_equal (cons c) IH). Qed.

Lemma transitions_waits l : transitions (StartWait <$> l) = [].
Proof. unfold transitions. by induction l. Qed.
Lemma completed_waits l : completed (StartWait <$> l) = [].
Proof. unfold completed. by induction l. Qed.

(** ** Changes that keep the invariant *)

(** Nothing the invariant speaks about changes, except for more waits. *)
Record same (w w' : World) : Prop := {
  s_state : m_state (the_session w') = m_state (the_session w);
  s_session : m_session (the_session w') = m_session (the_session w);
  s_bound : m_session_has_been_bound (the_session w') = m_session_has_been_bound (the_session w);
  s_url : m_server_url (the_session w') = m_server_url (the_session w);
  s_callbacks : ∀ d, callbacks d (the_session w') = callbacks d (the_session w);
  s_counter : m_client_resync_counter (the_session w') = m_client_resync_counter (the_session w);
  s_waits : ∀ x, x ∈ waits w → x ∈ waits w';
  s_fresh : ∀ x, x ∈ waits w' → x ∈ waits w ∨ (wait_session x < next_session w')%nat;
  s_next : (next_session w ≤ next_session w')%nat;
  s_transitions : transitions (effects w') = transitions (effects w);
  s_completed : completed (effects w') = completed (effects w) }.

Lemma same_refl w : same w w.
Proof. split; auto. Qed.

Lemma good_same registered w w' : good registered w → same w w' → good registered w'.
Proof.
  intros [G1 G2 G3 G4 G5 G6 G7 G8 G9] [S1 S2 S3 S4 S5 S6 S7 S8 S9 S10 S11].
  split; rewrite ?S1, ?S2, ?S3, ?S4, ?S10, ?S11; try done.
  - intros x [Hx|Hx]%S8; [|done]. specialize (G5 x Hx). lia.
  - intros id Hid. specialize (G6 id Hid). lia.
  - intros Hc d id. rewrite S5, S6. intros Hd Hid. apply S7. by apply G7.
  - pose proof (S5 download) as Hd. pose proof (S5 upload) as Hu. simpl in *. by rewrite Hd, Hu.
Qed.

Lemma same_effects l w : transitions l = [] → completed l = [] → same w (with_effects l w).
Proof.
  intros Ht Hc. split; try done; simpl; auto.
  - by rewrite transitions_app, Ht, app_nil_r.
  - by rewrite completed_app, Hc, app_nil_r.
Qed.

Lemma good_effect registered e w :
  transitions [e] = [] → completed [e] = [] → good registered w → good registered (with_effects [e] w).
Proof. intros Ht Hc Hw. eapply good_same; [exact Hw|by apply same_effects]. Qed.

Lemma good_locked registered b w : good registered w → good registered (with_locked b w).
Proof. intros Hw. eapply good_same; [exact Hw|]. split; auto. Qed.

Lemma good_progress registered f w : good registered w → good registered (with_progress f w).
Proof. intros Hw. eapply good_same; [exact Hw|]. split; auto. Qed.

(** An assignment to a member the invariant does not speak about *)
Lemma good_session registered f w :
  (∀ s, m_state (f s) = m_state s ∧ m_session (f s) = m_session s ∧
    m_session_has_been_bound (f s) = m_session_has_been_bound s ∧ m_server_url (f s) = m_server_url s ∧
    (∀ d, callbacks d (f s) = callbacks d s) ∧ m_client_resync_counter (f s) = m_client_resync_counter s) →
  good registered w → good registered (with_session f w).
Proof.
  intros Hf Hw. destruct (Hf (the_session w)) as (?&?&?&?&?&?). eapply good_same; [exact Hw|].
  split; simpl; auto.
Qed.

Lemma good_completed registered error l w :
  good registered w → good (l ++ registered) (with_effects ((λ c, Completed c error) <$> l) w).
Proof.
  intros [G1 G2 G3 G4 G5 G6 G7 G8 G9]. split; try done; simpl.
  - by rewrite transitions_app, transitions_completed, app_nil_r.
  - rewrite completed_app, completed_completed, G9.
    rewrite !(assoc_L (++)). rewrite (Permutation_app_comm _ l). by rewrite !(assoc_L (++)).
Qed.

(** The handlers taken from the session are no longer accounted for. *)
Lemma good_take registered direction w :
  good registered w →
  ∃ rest, registered ≡ₚ callbacks direction (the_session w) ++ rest ∧
    good rest (with_session (set_callbacks direction []) w).
Proof.
  intros [G1 G2 G3 G4 G5 G6 G7 G8 G9].
  exists (match direction with upload => m_download_completion_callbacks (the_session w)
          | download => m_upload_completion_callbacks (the_session w) end ++ completed (effects w)).
  split.
  - rewrite G9. destruct direction; simpl; [|done]. apply Permutation_app_swap_app.
  - destruct direction; split; simpl; try done; intros Hc d id Hd Hid; destruct d; simpl in Hd; try done;
      by apply (G7 Hc _ id).
Qed.

Lemma good_perm r r' w : r ≡ₚ r' → good r w → good r' w.
Proof. intros Hp [G1 G2 G3 G4 G5 G6 G7 G8 G9]. split; try done. by rewrite <-Hp. Qed.

(** ** The transitions keep the invariant *)
Lemma transitions_inactive s : transitions (inactive_effects s) = [(m_state s, inactive)].
Proof.
  unfold inactive_effects. destruct (m_session s); simpl; rewrite transitions_app; simpl;
    rewrite ?transitions_app, !transitions_completed; by destruct (bool_decide _).
Qed.

Lemma completed_inactive s :
  completed (inactive_effects s) = m_download_completion_callbacks s ++ m_upload_completion_callbacks s.
Proof.
  unfold inactive_effects. destruct (m_session s); simpl; rewrite completed_app; simpl;
    rewrite ?completed_app, !completed_completed; by destruct (bool_decide _).
Qed.

Lemma good_inactive registered w :
  good registered w → m_state (the_session w) ≠ inactive → good registered (to_inactive w).
Proof.
  intros [G1 G2 G3 G4 G5 G6 G7 G8 G9] Hst. split; simpl; try done.

  - rewrite transitions_app, transitions_inactive. apply path_snoc; [done|].
    by destruct (m_state (the_session w)).
  - rewrite completed_app, completed_inactive, G9. rewrite (assoc_L (++)). apply Permutation_app_comm.
Qed.

Lemma good_active registered id w :
  good registered w → m_state (the_session w) = waiting_for_access_token ∨ m_state (the_session w) = dying →
  m_session (the_session w) = Some id → m_session_has_been_bound (the_session w) = true →
  good registered (to_active id w).
Proof.
  intros [G1 G2 G3 G4 G5 G6 G7 G8 G9] Hst Hid Hb. split; simpl; try done.
  - intros x [Hx|Hx]%elem_of_app; [auto|]. specialize (G6 id Hid). unfold active_waits in Hx.
    apply elem_of_app in Hx as [Hx|Hx]; (destruct (bool_decide _); [by apply elem_of_nil in Hx|]);
      by apply list_elem_of_singleton in Hx as ->.
  - intros _ d id' Hd Hid'. rewrite Hid in Hid'. injection Hid' as <-.
    apply elem_of_app. right. unfold active_waits. apply elem_of_app.
    destruct d; simpl in Hd; [left|right]; rewrite bool_decide_false by done; by apply list_elem_of_singleton.
  - rewrite transitions_app. simpl. rewrite transitions_waits. apply path_snoc; [done|].
    by destruct Hst as [-> | ->].
  - rewrite completed_app. simpl. by rewrite completed_waits, app_nil_r.
Qed.

Lemma good_waiting registered w :
  good registered w → m_state (the_session w) = active ∨ m_state (the_session w) = inactive →
  good registered (to_waiting w).
Proof.
  intros [G1 G2 G3 G4 G5 G6 G7 G8 G9] Hst. split; simpl; try done.
  - rewrite transitions_app. apply path_snoc; [done|]. by destruct Hst as [-> | ->].
  - rewrite completed_app. simpl. by rewrite app_nil_r.
Qed.

Lemma good_dying registered id w :
  good registered w → m_state (the_session w) = active → m_session (the_session w) = Some id →
  good registered (to_dying id w).
Proof.
  intros [G1 G2 G3 G4 G5 G6 G7 G8 G9] Hst Hid. rewrite Hst in *. split; simpl; try done.
  - intros x [Hx|Hx]%elem_of_app; [auto|]. apply list_elem_of_singleton in Hx as ->. by apply G6.
  - intros _ d id' Hd Hid'. apply elem_of_app. left. destruct d; by apply (G7 eq_refl _ id').
  - rewrite transitions_app. simpl. rewrite Hst. by apply path_snoc.
  - rewrite completed_app. simpl. by rewrite app_nil_r.
Qed.

(** ** The actions of the states *)

(** A state action runs with the lock held and may release it. *)
Definition ok (registered : list Callback) (w : World) : Prop := good registered w ∧ locked w = false.

Lemma ok_locked registered w : ok registered w → good registered (with_locked true w) ∧ locked w = false.
Proof. intros [Hw Hl]. split; [by apply good_locked|done]. Qed.

Lemma wp_call {A} registered (body : M A) (Q : A → World → Prop) w :
  ok registered w →
  (∀ w, good registered w → locked w = true → wp body (λ x w', Q x (with_locked false w')) w) →
  wp (with_lock body) Q w.
Proof.
  intros [Hw Hl] Hb. apply wp_with_lock; [done|]. apply Hb; [by apply good_locked|done].
Qed.

Lemma wp_eq {A} (e : M A) (Q : A → World → Prop) w x w' : e w = Some (x, w') → Q x w' → wp e Q w.
Proof. apply wp_intro. Qed.

Notation stays registered := (λ _ w', good registered w').

Lemma to_inactive_ok registered w (Q : () → World → Prop) :
  good registered w → locked w = true → m_state (the_session w) ≠ inactive →
  Q () (to_inactive w) → wp (advance_state inactive) Q w.
Proof. intros Hw Hl Hst HQ. eapply wp_eq; [by apply advance_inactive|done]. Qed.

Lemma close_good registered w :
  good registered w → locked w = true → wp state_close (stays registered) w.
Proof.
  intros Hw Hl. unfold state_close. apply wp_bind, wp_get, wp_bind, wp_get.
  destruct (m_state (the_session w)) eqn:Hst.
  - destruct (stop_policy _).
    + eapply wp_eq; [apply advance_inactive; [done|congruence]|]. apply good_inactive; [done|congruence].
    + apply wp_update, good_session; [|done]. done.
    + apply wp_update, good_session; [|done]. done.
  - destruct (stop_policy _).
    + eapply wp_eq; [apply advance_inactive; [done|congruence]|]. apply good_inactive; [done|congruence].
    + by apply wp_skip.
    + destruct (g_session _ _ Hw) as [id Hid]; [by rewrite Hst|].
      eapply wp_eq; [apply (advance_dying id); [done|congruence|done]|]. by apply good_dying.
  - by apply wp_skip.
  - unfold unregister. apply wp_bind. eapply wp_eq; [done|]. apply wp_bind, wp_assert; [done|].
    apply wp_bind, wp_get. rewrite Hst. apply wp_bind, wp_assert; [by rewrite bool_decide_true|].
    apply wp_bind, wp_unlock; [done|]. apply wp_emit. apply good_effect; [done|done|by apply good_locked].
Qed.
