(* ===== verification/SyncSessionCalls.v ===== *)
(** Every call of a session keeps its invariant and fails no assertion. *)
From stdpp Require Import strings.
From S2P Require Import Prelude SyncProgress SyncSession SyncSessionTheory.
Import SyncSession.

Section Calls.
Context (realm_path recovery_file_path : string).

Notation stays registered := (λ _ w', good registered w').
Notation run := (run_call realm_path recovery_file_path).

Lemma call_unit registered (body : M ()) w :
  ok registered w →
  (∀ w, good registered w → locked w = true → wp body (stays registered) w) →
  wp (with_lock body) (λ _ w', ok registered w') w.
Proof.
  intros Hw Hb. apply (wp_call registered); [done|]. intros w' Hg Hl.
  eapply wp_mono; [by apply Hb|]. intros x w'' Hg'. split; [by apply good_locked|done].
Qed.

Lemma ok_session registered f w :
  (∀ s, m_state (f s) = m_state s ∧ m_session (f s) = m_session s ∧
    m_session_has_been_bound (f s) = m_session_has_been_bound s ∧ m_server_url (f s) = m_server_url s ∧
    (∀ d, callbacks d (f s) = callbacks d s) ∧ m_client_resync_counter (f s) = m_client_resync_counter s) →
  ok registered w → ok registered (with_session f w).
Proof. intros Hf [Hw Hl]. split; [by apply good_session|done]. Qed.

Lemma ok_effect registered e w :
  transitions [e] = [] → completed [e] = [] → ok registered w → ok registered (with_effects [e] w).
Proof. intros ?? [Hw Hl]. split; [by apply good_effect|done]. Qed.

Lemma ok_progress registered f w : ok registered w → ok registered (with_progress f w).
Proof. intros [Hw Hl]. split; [by apply good_progress|done]. Qed.

(** Notifiers are called. *)
Lemma report_all_ok registered l w : ok registered w → wp (report_all l) (λ _ w', ok registered w') w.
Proof.
  unfold report_all. revert w. induction l as [|r l IH]; intros w Hw; [done|]. cbn [for_each].
  apply wp_bind, wp_emit, IH. by apply ok_effect.
Qed.

Lemma log_out_good registered w :
  good registered w → locked w = true → wp state_log_out (stays registered) w.
Proof.
  intros Hw Hl. unfold state_log_out. apply wp_bind, wp_get.
  destruct (decide (m_state (the_session w) = inactive)) as [E|E]; [by rewrite E|].
  assert (wp (advance_state inactive) (stays registered) w) as H
    by (eapply wp_eq; [by apply advance_inactive|by apply good_inactive]).
  by destruct (m_state (the_session w)).
Qed.

Lemma revive_good registered w :
  good registered w → locked w = true → wp state_revive_if_needed (stays registered) w.
Proof.
  intros Hw Hl. unfold state_revive_if_needed. apply wp_bind, wp_get.
  destruct (m_state (the_session w)) eqn:Hst.
  - by apply wp_bind, wp_update, wp_ret, good_session.
  - by apply wp_ret.
  - destruct (g_session _ _ Hw) as [id Hid]; [by rewrite Hst|].
    apply wp_bind. eapply wp_eq; [apply (advance_active id); [done|congruence|done]|].
    apply wp_ret, good_active; [done|by right|done|]. apply Hw. by rewrite Hst.
  - apply wp_bind. eapply wp_eq; [apply advance_waiting; [done|congruence]|]. apply wp_ret, good_waiting; auto.
Qed.

Lemma revive_ok registered w : ok registered w → wp revive_if_needed (λ _ w', ok registered w') w.
Proof.
  intros Hw. unfold revive_if_needed. apply wp_bind, (wp_call registered); [done|]. intros w' Hg Hl.
  eapply wp_mono; [by apply (revive_good registered)|]. intros handler w'' Hg'.
  assert (ok registered (with_locked false w'')) as Hok by (split; [by apply good_locked|done]).
  destruct handler; [by apply wp_emit, ok_effect|done].
Qed.

Lemma session_of_connected registered w :
  good registered w → connected_state (m_state (the_session w)) = true →
  ∃ id, m_session (the_session w) = Some id.
Proof. intros Hw Hc. by destruct (g_session _ _ Hw Hc) as [id Hid]; exists id. Qed.

Ltac on_state w := apply wp_bind, wp_get; destruct (m_state (the_session w)) eqn:Hst.

Lemma reconnect_good registered w :
  good registered w → locked w = true → wp state_handle_reconnect (stays registered) w.
Proof.
  intros Hw Hl. unfold state_handle_reconnect. on_state w.
  - apply wp_bind, wp_unlock; [done|]. by apply wp_emit, good_effect, good_locked.
  - destruct (session_of_connected _ _ Hw) as [id Hid]; [by rewrite Hst|].
    by eapply wp_on_session, good_effect.
  - done.
  - done.
Qed.

Lemma notify_good registered version w :
  good registered w → locked w = true → wp (state_nonsync_transact_notify version) (stays registered) w.
Proof.
  intros Hw Hl. unfold state_nonsync_transact_notify. on_state w.
  - by apply wp_update, good_session.
  - destruct (session_of_connected _ _ Hw) as [id Hid]; [by rewrite Hst|].
    by eapply wp_on_session, good_effect.
  - done.
  - done.
Qed.

Lemma override_good registered address port w :
  good registered w → locked w = true → wp (state_override_server address port) (stays registered) w.
Proof.
  intros Hw Hl. unfold state_override_server. on_state w; apply wp_bind, wp_update.
  1, 4: by apply good_session.
  all: destruct (session_of_connected _ _ Hw) as [id Hid]; [by rewrite Hst|];
    by eapply wp_on_session, good_effect, good_session.
Qed.

(** ** Getting a token *)

(** A session that waits for its token, with a session of the library *)
Record connecting (registered : list Callback) (w : World) : Prop := {
  c_good : good registered w;
  c_locked : locked w = true;
  c_waiting : m_state (the_session w) = waiting_for_access_token;
  c_session : is_Some (m_session (the_session w)) }.

Lemma create_ok registered w :
  good registered w → locked w = true → m_state (the_session w) = waiting_for_access_token →
  wp (create_sync_session realm_path)
    (λ _ w', connecting registered w' ∧ m_server_url (the_session w') = m_server_url (the_session w)) w.
Proof.
  intros Hw Hl Hst. unfold create_sync_session. apply wp_bind, wp_get. case_bool_decide as E.
  { by apply wp_skip. }
  apply wp_bind, wp_get, wp_bind. eapply wp_eq; [done|]. apply wp_update. split; [|done].
  destruct Hw as [G1 G2 G3 G4 G5 G6 G7 G8 G9]. split; simpl; try done. split; simpl; try done; rewrite ?Hst; try done.
  - intros x Hx. specialize (G5 x Hx). lia.
  - intros id [= <-]. lia.
  - rewrite transitions_app. simpl. rewrite app_nil_r. by rewrite <-Hst.
  - rewrite completed_app. simpl. by rewrite app_nil_r.
Qed.

Lemma connecting_frame registered w w' :
  connecting registered w → good registered w' → locked w' = locked w →
  m_state (the_session w') = m_state (the_session w) → m_session (the_session w') = m_session (the_session w) →
  connecting registered w'.
Proof. intros [H1 H2 H3 H4] Hg E1 E2 E3. split; [done| | |]; congruence. Qed.

Lemma refresh_good registered access_token server_url w :
  good registered w → locked w = true →
  ¬ (m_server_url (the_session w) = None ∧ server_url = None) →
  wp (state_refresh_access_token realm_path access_token server_url) (stays registered) w.
Proof.
  intros Hw Hl Hurl. unfold state_refresh_access_token. on_state w; [| |done|done].
  2:{ destruct (session_of_connected _ _ Hw) as [id Hid]; [by rewrite Hst|].
      apply wp_bind. eapply wp_on_session; [done|]. by eapply wp_on_session, good_effect, good_effect. }
  apply wp_bind. eapply wp_mono; [by apply (create_ok registered)|]. clear Hw Hl Hst.
  intros _ w1 [C1 E1]. rewrite <-E1 in Hurl. clear E1 w. apply wp_bind, wp_get.
  (* the URL *)
  apply wp_bind. set (w2 := if bool_decide (m_server_url (the_session w1) = None)
    then with_session (set_m_server_url server_url) w1 else w1).
  assert (connecting registered w2 ∧ is_Some (m_server_url (the_session w2))) as [C2 [url Hurl2]].
  { unfold w2. case_bool_decide as E.
    - destruct server_url as [url|]; [|tauto]. split; [|by exists url].
      apply (connecting_frame registered w1); try done. destruct (c_good _ _ C1) as [G1 G2 G3 G4 G5 G6 G7 G8 G9].
      split; simpl; try done.
    - split; [done|]. by destruct (m_server_url _) as [u|]; [exists u|]. }
  assert (wp (if bool_decide (m_server_url (the_session w1) = None) then update (set_m_server_url server_url) else skip)
    (λ _ w', w' = w2) w1) as Hstep by (unfold w2; by case_bool_decide).
  eapply wp_mono; [exact Hstep|]. intros _ ? ->. clear Hstep. generalize dependent w2. clear w1 C1 Hurl.
  intros w C Hurl. destruct (c_session _ _ C) as [id Hid].
  (* refreshing or binding *)
  apply wp_bind, wp_get, wp_bind.
  assert (∀ w', connecting registered w' → m_session_has_been_bound (the_session w') = true →
    m_session (the_session w') = Some id →
    wp (override ← get m_server_override;
      match override with
      | Some (address, port) => on_session (λ id, OverrideServer id address port)
      | None => skip
      end;;
      deferred ← get m_deferred_commit_notification;
      match deferred with
      | Some version =>
          on_session (λ id, NonsyncTransactNotify id version);;
          update (set_m_deferred_commit_notification None)
      | None => skip
      end;;
      advance_state active;;
      deferred_close ← get m_deferred_close;
      if (deferred_close : bool) then state_close else skip) (stays registered) w') as Hrest.
  { clear w C Hurl Hid. intros w C Hb Hid. apply wp_bind, wp_get, wp_bind.
    set (Q := λ (x : ()) w', connecting registered w' ∧ m_session_has_been_bound (the_session w') = true ∧
      m_session (the_session w') = Some id).
    apply (wp_mono _ Q).
    { destruct (m_server_override _) as [[address port]|]; [|by apply wp_skip].
      eapply wp_on_session; [done|]. split; [|done]. apply (connecting_frame registered w); try done.
      by apply good_effect; [| |apply C]. }
    clear w C Hb Hid. intros _ w (C&Hb&Hid). apply wp_bind, wp_get, wp_bind. apply (wp_mono _ Q).
    { destruct (m_deferred_commit_notification _) as [version|]; [|by apply wp_skip].
      apply wp_bind. eapply wp_on_session; [done|]. apply wp_update. split; [|done].
      apply (connecting_frame registered w); try done. by apply good_session, good_effect; [| | |apply C]. }
    clear w C Hb Hid. intros _ w (C&Hb&Hid). apply wp_bind. destruct C as [Hw Hl Hst _].
    eapply wp_eq; [apply (advance_active id); [done|congruence|done]|]. apply wp_bind, wp_get.
    assert (good registered (to_active id w)) as Ha by (apply good_active; auto).
    destruct (m_deferred_close _); [by apply close_good|done]. }
  destruct (m_session_has_been_bound (the_session w)) eqn:Hb.
  - apply wp_bind. eapply wp_on_session; [done|]. eapply wp_on_session; [done|]. apply Hrest; try done.
    apply (connecting_frame registered w); try done. by apply good_effect, good_effect; [| | | |apply C].
  - apply wp_bind, wp_get. rewrite Hurl. apply wp_bind. eapply wp_on_session; [done|]. apply wp_update.
    apply Hrest; try done. apply (connecting_frame registered w); try done.
    destruct (c_good _ _ C) as [G1 G2 G3 G4 G5 G6 G7 G8 G9]. split; simpl; try done.
    + rewrite transitions_app. simpl. by rewrite app_nil_r.
    + rewrite completed_app. simpl. by rewrite app_nil_r.
Qed.
(** ** Completion handlers *)
Lemma wait_good registered direction callback w :
  good registered w → locked w = true →
  wp (l ← get (callbacks direction);
      (if bool_decide (l = []) then state_wait_for_completion direction else skip);;
      update (λ s, set_callbacks direction (callbacks direction s ++ [callback]) s))
    (stays (callback :: registered)) w.
Proof.
  intros Hw Hl. apply wp_bind, wp_get, wp_bind.
  apply (wp_mono _ (λ _ w', good registered w' ∧ (connected_state (m_state (the_session w')) = true →
    ∀ id, m_session (the_session w') = Some id →
    mkWait id (for_completion direction (m_client_resync_counter (the_session w'))) ∈ waits w'))).
  - case_bool_decide as E.
    + unfold state_wait_for_completion. on_state w; try (apply wp_skip; split; [done|by rewrite Hst]).
      all: destruct (session_of_connected _ _ Hw) as [id Hid]; [by rewrite Hst|];
        apply wp_bind, wp_get, wp_bind, wp_assert; [by rewrite Hid|];
        apply wp_bind, wp_get; (eapply wp_start_wait; [done|]); (split;
        [|intros _ id' Hid'; simpl in *; rewrite Hid in Hid'; injection Hid' as <-;
          apply elem_of_app; right; by apply list_elem_of_singleton]);
        (eapply good_same; [exact Hw|]); split; simpl; auto;
        [intros x Hx; apply elem_of_app; by left
        |intros x [Hx|Hx%list_elem_of_singleton]%elem_of_app; [by left|right; subst; by apply (g_fresh_id _ _ Hw)]
        |by rewrite transitions_app, app_nil_r|by rewrite completed_app, app_nil_r].
    + apply wp_skip. split; [done|]. intros Hc id Hid. by apply (g_armed _ _ Hw).
  - clear Hw Hl w. intros _ w [[G1 G2 G3 G4 G5 G6 G7 G8 G9] Harm]. apply wp_update.
    split; simpl; try by destruct direction.
    + destruct direction; simpl; intros Hc d id Hd Hid; (destruct d; [simpl in *|simpl in *]); auto;
        by apply (G7 Hc _ id).
    + destruct direction; simpl; rewrite G9.
      * rewrite <-!app_assoc. simpl. by rewrite !Permutation_middle.
      * rewrite <-!app_assoc. simpl. by rewrite Permutation_middle.
Qed.

(** Taking the handlers of a direction and calling them *)
Lemma cancel_good registered error w :
  good registered w → locked w = true → wp (cancel_pending_waits error) (stays registered) w.
Proof.
  intros Hw Hl. unfold cancel_pending_waits, take_callbacks.
  destruct (good_take registered download w Hw) as (r1&Hr1&Hw1).
  apply wp_bind, wp_bind, wp_get, wp_bind, wp_update, wp_ret.
  set (w1 := with_session _ w) in *.
  destruct (good_take r1 upload w1 Hw1) as (r2&Hr2&Hw2).
  apply wp_bind, wp_bind, wp_get, wp_bind, wp_update, wp_ret.
  apply wp_bind, wp_unlock; [done|]. apply wp_bind, wp_complete_all, wp_complete_all.
  apply (good_perm (callbacks upload (the_session w1) ++ callbacks download (the_session w) ++ r2)).
  - rewrite Hr1, Hr2. apply Permutation_app_swap_app.
  - by apply good_completed, good_completed, good_locked.
Qed.

Lemma remove_wait_in x y l : x ∈ remove_wait y l → x ∈ l.
Proof.
  induction l as [|z l IH]; simpl; [done|]. case_bool_decide as E; rewrite !elem_of_cons; [by right|].
  intros [|]; auto.
Qed.

Lemma remove_wait_other x y l : x ≠ y → x ∈ l → x ∈ remove_wait y l.
Proof.
  intros Hne. induction l as [|z l IH]; simpl; [done|]. case_bool_decide as E; rewrite !elem_of_cons.
  - intros [->|]; [congruence|done].
  - intros [|]; auto.
Qed.

(** When a wait has fired the invariant holds except, for its direction, that
    pending handlers have a wait. *)
Lemma fired_ok registered wait error w :
  ok registered w → wait ∈ waits w →
  wp (run (WaitFires wait error)) (λ _ w', ok registered w') w.
Proof.
  intros [Hw Hl] Hin. simpl. apply wp_bind. eapply wp_eq; [done|].
  set (w0 := mkWorld _ _ _ _ _ _).
  assert (∀ d c, wait_kind wait = for_completion d c →
    c ≠ m_client_resync_counter (the_session w) ∨ callbacks d (the_session w) = [] → good registered w0) as Hkeep.
  { intros d c Hk Hno. destruct Hw as [G1 G2 G3 G4 G5 G6 G7 G8 G9]. split; simpl; try done.
    - intros x Hx%remove_wait_in. auto.
    - intros Hc d' id Hd Hid. apply remove_wait_other; [|by apply G7]. intros <-. simpl in Hk.
      injection Hk as <- <-. destruct Hno as [Hne|E]; [by apply Hne|by apply Hd]. }
  destruct wait as [id [direction counter|count]]; unfold wait_completed; cbn [wait_kind].
  - apply wp_bind, wp_lock; [done|]. apply wp_bind, wp_get. cbn [the_session with_locked w0].
    destruct (counter =? m_client_resync_counter (the_session w)) eqn:E; cbn [negb].
    + assert (∃ rest, registered ≡ₚ callbacks direction (the_session w) ++ rest ∧
        good rest (with_session (set_callbacks direction []) w0)) as (rest&Hrest&Hw').
      { destruct (good_take registered direction w Hw) as (rest&Hrest&[G1 G2 G3 G4 G5 G6 G7 G8 G9]).
        exists rest. split; [done|]. split; simpl in *; try done.
        - intros x Hx%remove_wait_in. auto.
        - intros Hc d id' Hd Hid. apply remove_wait_other; [|by apply G7]. intros [= -> -> _].
          by destruct direction. }
      unfold take_callbacks. apply wp_bind, wp_bind, wp_get, wp_bind, wp_update, wp_ret.
      apply wp_bind, wp_unlock; [done|]. apply wp_complete_all. split; [|done].
      eapply good_perm; [symmetry; exact Hrest|]. apply good_completed.
      change (with_locked false (with_session (set_callbacks direction []) (with_locked true w0)))
        with (with_locked false (with_session (set_callbacks direction []) w0)).
      by apply good_locked.
    + apply Z.eqb_neq in E. eapply wp_eq; [done|]. split; [|done].
      apply (good_locked registered false w0). apply (Hkeep direction counter); auto.
  - assert (good registered w0) as Hw0.
    { destruct Hw as [G1 G2 G3 G4 G5 G6 G7 G8 G9]. split; simpl; try done.
      - intros x Hx%remove_wait_in. auto.
      - intros Hc d' id' Hd Hid. apply remove_wait_other; [done|by apply G7]. }
    apply (call_unit registered); [by split|]. intros w1 Hw1 Hl1. apply wp_bind, wp_get, wp_bind, wp_get.
    case_bool_decide as Hst; simpl; [|by apply wp_skip]. destruct (_ =? _); [|by apply wp_skip].
    eapply wp_eq; [apply advance_inactive; [done|congruence]|]. apply good_inactive; [done|congruence].
Qed.
(** ** Errors *)

(** The tear-down for a client resync keeps the handlers. *)
Lemma resync_ok registered w :
  ok registered w → m_state (the_session w) ≠ inactive → wp start_client_resync (λ _ w', ok registered w') w.
Proof.
  intros [Hw Hl] Hst. unfold start_client_resync. apply wp_with_lock; [done|].
  apply wp_bind, wp_update, wp_bind, wp_update. unfold take_callbacks.
  apply wp_bind, wp_bind, wp_get, wp_bind, wp_update, wp_ret.
  apply wp_bind, wp_bind, wp_get, wp_bind, wp_update, wp_ret. apply wp_bind.
  set (downloads := callbacks download _). set (uploads := callbacks upload _). set (w1 := with_session _ _).
  assert (good (completed (effects w)) w1) as Hw1.
  { destruct Hw as [G1 G2 G3 G4 G5 G6 G7 G8 G9]. split; simpl; try done.
    intros _ d id Hd. by destruct d. }
  eapply wp_eq; [by apply advance_inactive|]. pose proof (good_inactive _ _ Hw1 Hst) as Hw2.
  apply wp_bind, wp_update, wp_update. split; [|done].
  destruct Hw2 as [G1 G2 G3 G4 G5 G6 G7 G8 G9]. split; simpl in *; try done.
  rewrite completed_app, completed_inactive in *. simpl in *. rewrite app_nil_r in *. by apply Hw.
Qed.

Definition drops_session (error : SyncError) : bool :=
  match error_code error with
  | protocol_error e =>
      match e with
      | permission_denied | bad_client_file | bad_client_file_ident | bad_origin_file_ident
      | bad_server_file_ident | bad_server_version | client_file_blacklisted | diverging_histories
      | server_file_deleted | user_blacklisted | client_file_expired => true
      | _ => false
      end
  | _ => false
  end.

(** The state after an error that is fully handled or leads to [next] *)
Definition next_ok (registered : list Callback) (r : option (NextStateAfterError * SyncError)) (w : World) : Prop :=
  ok registered w ∧ match r with Some (next_inactive, _) => m_state (the_session w) ≠ inactive | _ => True end.

Lemma cancel_ok {A} registered error (x : A) w :
  ok registered w →
  wp (with_lock (cancel_pending_waits error;; mret x)) (λ y w', ok registered w' ∧ y = x) w.
Proof.
  intros Hw. apply (wp_call registered); [done|]. intros w' Hg Hl. apply wp_bind.
  eapply wp_mono; [by apply cancel_good|]. intros ? w'' Hg''. apply wp_ret. split; [|done].
  split; [by apply good_locked|done].
Qed.

Lemma mark_ok error backup w (Q : SyncError → World → Prop) :
  (∀ e, Q e (with_effects [MakeFileAction backup (if backup then recovery_file_path else "")] w)) →
  wp (update_error_and_mark_file_for_deletion realm_path recovery_file_path error backup) Q w.
Proof.
  intros HQ. unfold update_error_and_mark_file_for_deletion. apply wp_bind, wp_emit, wp_ret, HQ.
Qed.

Lemma protocol_ok registered e error next w :
  ok registered w → next ≠ next_inactive →
  (drops_session error = true → m_state (the_session w) ≠ inactive) →
  error_code error = protocol_error e →
  wp (handle_protocol_error realm_path recovery_file_path e error next) (next_ok registered) w.
Proof.
  intros Hw Hnext Hst He. unfold drops_session in Hst. rewrite He in Hst.
  assert (∀ b err, wp (error ← update_error_and_mark_file_for_deletion realm_path recovery_file_path err b;
      mret (Some (next_inactive, error))) (next_ok registered) w ∨ m_state (the_session w) = inactive) as Hmark.
  { intros b err. destruct (decide (m_state (the_session w) = inactive)) as [|Hne]; [by right|left].
    apply wp_bind, mark_ok. intros e'. apply wp_ret. split; [by apply ok_effect|done]. }
  assert (next_ok registered (Some (next, error)) w) as Hdefault by (split; [done|by destruct next]).
  destruct e; simpl in Hst; try (by apply wp_ret); try (by (split; [done|]));
    try (unfold handle_protocol_error; destruct (Hmark true error) as [H|H]; [exact H|by destruct Hst]).
  - apply wp_bind. apply (wp_mono _ (λ _ w', ok registered w')).
    + apply (call_unit registered); [done|]. intros w' Hg Hl. unfold state_access_token_expired.
      apply wp_bind, wp_get. destruct (m_state (the_session w')) eqn:E; try by apply wp_skip.
      apply wp_bind. eapply wp_eq; [apply advance_waiting; [done|congruence]|].
      apply wp_bind, wp_unlock; [done|]. apply wp_emit, good_effect; [done|done|]. apply good_locked, good_waiting; auto.
    + intros ? w' Hw'. by apply wp_ret.
  - apply wp_bind. apply (wp_mono _ (λ _ w', ok registered w')).
    + apply (wp_call registered); [done|]. intros w' Hg Hl. apply wp_bind, wp_get, wp_bind.
      eapply wp_mono; [by apply cancel_good|]. intros ? w'' Hg''. apply wp_ret.
      split; [by apply good_locked|done].
    + intros u w' Hw'. apply wp_bind. apply (wp_mono _ (λ _ w', ok registered w')).
      * destruct u; [by apply wp_emit, ok_effect|by apply wp_skip].
      * intros ? w'' Hw''. by apply wp_ret.
  - unfold handle_protocol_error. destruct (Hmark false error) as [H|H]; [exact H|by destruct Hst].
Qed.
Lemma finish_ok registered next error w :
  ok registered w → (next = next_inactive → m_state (the_session w) ≠ inactive) →
  wp (finish_error next error) (λ _ w', ok registered w') w.
Proof.
  intros Hw Hst. unfold finish_error. apply wp_bind. apply (wp_mono _ (λ _ w', ok registered w')).
  - assert (wp (with_lock (cancel_pending_waits (error_code error))) (λ _ w', ok registered w') w) as Hcancel.
    { apply (call_unit registered); [done|]. intros w' Hg Hl. by apply cancel_good. }
    destruct next; [|destruct Hw as [Hw Hl]|exact Hcancel].
    + apply wp_bind, wp_get. destruct (cancel_waits_on_nonfatal_error _); [exact Hcancel|by apply wp_skip].
    + apply wp_with_lock; [done|]. eapply wp_eq; [apply advance_inactive; [done|by apply Hst]|].
      split; [|done]. apply good_locked, good_inactive; [by apply good_locked|by apply Hst].
  - intros ? w' Hw'. apply wp_bind, wp_get. destruct (has_error_handler _); [by apply wp_emit, ok_effect|by apply wp_skip].
Qed.

(** An error that makes the session inactive, unless it is dying *)
Definition tears_down (error : SyncError) (c : SyncConfig) : bool :=
  drops_session error ||
  is_client_reset_requested error && match client_resync_mode c with ManualResync => false | _ => true end.

Lemma state_handle_error_ok registered error w :
  ok registered w →
  wp (with_lock (state_handle_error error)) (λ (handled : bool) w', ok registered w' ∧
    (handled = false → the_session w' = the_session w)) w.
Proof.
  intros [Hw Hl]. apply wp_with_lock; [done|]. unfold state_handle_error. apply wp_bind, wp_get.
  assert (ok registered (with_locked false (with_locked true w))) as Hok
    by (split; [by apply good_locked, good_locked|done]).
  destruct (m_state (the_session (with_locked true w))) eqn:E; try by apply wp_ret.
  apply wp_bind. destruct (is_fatal error).
  - eapply wp_eq; [apply advance_inactive; [done|congruence]|]. apply wp_ret. split; [|done].
    split; [|done]. apply good_locked, good_inactive; [by apply good_locked|congruence].
  - by apply wp_skip, wp_ret.
Qed.

Lemma error_code_ok registered error w :
  ok registered w →
  (drops_session error = true → m_state (the_session w) ≠ inactive) →
  wp (r ← handle_error_code realm_path recovery_file_path error
      (if is_fatal error then next_error else next_none);
    match r with Some (next, error) => finish_error next error | None => skip end)
    (λ _ w', ok registered w') w.
Proof.
  intros Hw Hst. apply wp_bind, (wp_mono _ (next_ok registered)).
  - assert (∀ err, next_ok registered (Some (if is_fatal error then next_error else next_none, err)) w) as Hd
      by (intros err; split; [done|by destruct (is_fatal error)]).
    unfold handle_error_code. destruct (error_code error) as [e|[| |code]| |code] eqn:He; try by apply wp_ret.
    apply protocol_ok; try done. by destruct (is_fatal error).
  - intros [[next err]|] w' [Hw' Hn]; [|by apply wp_skip]. apply finish_ok; [done|]. by intros ->.
Qed.

Lemma error_ok registered error w :
  ok registered w →
  (tears_down error (m_config (the_session w)) = true → m_state (the_session w) ≠ inactive) →
  wp (handle_error realm_path recovery_file_path error) (λ _ w', ok registered w') w.
Proof.
  intros Hw Hst. unfold handle_error. apply wp_bind.
  eapply wp_mono; [by apply (state_handle_error_ok registered)|].
  intros [|] w' [Hw' Heq]; [by apply wp_skip|]. rewrite <-(Heq eq_refl) in Hst. clear Hw Heq w.
  unfold handle_error_rest. apply wp_bind, wp_get. unfold tears_down in Hst.
  destruct (is_client_reset_requested error); [destruct (client_resync_mode _)|].
  3, 4: apply error_code_ok; [done|]; intros E; apply Hst; by rewrite E.
  all: apply wp_bind; (eapply wp_mono; [apply (resync_ok registered); [done|apply Hst, orb_true_r]|]);
    intros ? w'' Hw''; by apply revive_ok.
Qed.
(** ** The other calls *)
Lemma connection_ok registered state error w :
  ok registered w →
  (∀ e, error = Some e → tears_down e (m_config (the_session w)) = true → m_state (the_session w) ≠ inactive) →
  wp (connection_state_changed realm_path recovery_file_path state error) (λ _ w', ok registered w') w.
Proof.
  intros [Hw Hl] Hst. unfold connection_state_changed.
  apply wp_bind, wp_lock; [done|]. apply wp_bind, wp_get, wp_bind, wp_update, wp_bind, wp_get.
  apply wp_bind, wp_unlock; [done|]. apply wp_bind, wp_emit.
  match goal with |- wp _ _ ?x => set (w1 := x) end.
  assert (ok registered w1) as Hw1.
  { split; [|done]. by apply good_effect, good_locked, good_session, good_locked. }
  destruct error as [e|]; [|by apply wp_skip]. apply error_ok; [done|]. by apply (Hst e).
Qed.

(** The configurations [update_configuration] accepts *)
Definition compatible (old new_config : SyncConfig) : Prop :=
  user old = user new_config ∧ reference_realm_url old = reference_realm_url new_config ∧
  is_partial old = is_partial new_config.

Lemma to_inactive_config w : m_config (the_session (to_inactive w)) = m_config (the_session w).
Proof. done. Qed.

(** Two turns are enough. *)
Lemma update_loop_ok registered new_config w :
  ok registered w → compatible (m_config (the_session w)) new_config →
  wp (update_configuration_loop 2 new_config)
    (λ _ w', ok registered w' ∧ m_config (the_session w') = new_config ∧ m_state (the_session w') = inactive) w.
Proof.
  assert (∀ fuel w, ok registered w → compatible (m_config (the_session w)) new_config →
    m_state (the_session w) = inactive →
    wp (update_configuration_loop (S fuel) new_config)
      (λ _ w', ok registered w' ∧ m_config (the_session w') = new_config ∧ m_state (the_session w') = inactive) w)
    as Hlast.
  { clear w. intros fuel w [Hw Hl] (E1&E2&E3) Hst. simpl. apply wp_bind, wp_with_lock; [done|].
    apply wp_bind, wp_get. cbn [the_session with_locked]. rewrite Hst, bool_decide_true by done. cbn [negb].
    apply wp_bind, wp_get, wp_bind, wp_assert; [cbn [the_session with_locked]; by rewrite (g_inactive _ _ Hw Hst)|].
    apply wp_bind, wp_get. cbn [the_session with_locked].
    apply wp_bind, wp_assert; [by apply bool_decide_true|].
    apply wp_bind, wp_assert; [by apply bool_decide_true|].
    apply wp_bind, wp_assert; [rewrite E3; apply eqb_reflx|]. apply wp_bind, wp_update, wp_ret, wp_skip.
    split; [|done]. split; [|done]. by apply good_locked, good_session, good_locked. }
  intros Hw Hc. destruct (decide (m_state (the_session w) = inactive)) as [Hst|Hst]; [by apply (Hlast 1%nat)|].
  destruct Hw as [Hw Hl]. change (update_configuration_loop 2 new_config) with
    (done ← with_lock (
        st ← get m_state;
        if negb (bool_decide (st = inactive)) then advance_state inactive;; mret false
        else
          s ← get m_session; assert (bool_decide (s = None));;
          old ← get m_config;
          assert (bool_decide (user old = user new_config));;
          assert (bool_decide (reference_realm_url old = reference_realm_url new_config));;
          assert (Bool.eqb (is_partial old) (is_partial new_config));;
          update (set_m_config new_config);; mret true);
      if (done : bool) then skip else update_configuration_loop 1 new_config).
  apply wp_bind, wp_with_lock; [done|]. apply wp_bind, wp_get. cbn [the_session with_locked].
  rewrite bool_decide_false by done. cbn [negb]. apply wp_bind. eapply wp_eq; [by apply advance_inactive|].
  apply wp_ret. apply (Hlast 0%nat); [|done|done]. split; [|done].
  apply good_locked, good_inactive; [by apply good_locked|done].
Qed.

Lemma update_configuration_ok registered new_config w :
  ok registered w → compatible (m_config (the_session w)) new_config →
  wp (update_configuration new_config) (λ _ w', ok registered w') w.
Proof.
  intros Hw Hc. unfold update_configuration. apply wp_bind.
  eapply wp_mono; [by apply (update_loop_ok registered)|]. intros _ w' (Hw'&_). by apply revive_ok.
Qed.

Lemma drop_ok registered w :
  ok registered w → m_external_reference (the_session w) ≠ 0%nat →
  wp drop_external_reference (λ _ w', ok registered w') w.
Proof.
  intros Hw Hn. unfold drop_external_reference. apply wp_bind, wp_get.
  destruct (m_external_reference (the_session w)) as [|n]; [done|]. apply wp_bind, wp_update.
  assert (ok registered (with_session (set_m_external_reference n) w)) as Hw' by by apply ok_session.
  destruct (n =? 0)%nat; [|by apply wp_skip]. unfold did_drop_external_reference.
  apply (call_unit registered); [done|]. intros w1 Hg Hl. apply wp_bind, wp_get.
  destruct (negb _); [by apply wp_skip|by apply close_good].
Qed.

(** ** All calls *)

(** What the caller has to guarantee: only pending waits fire, a new configuration
    is for the same user and Realm, and only owners drop their reference.  The
    library may report a change of the connection, with any error, at any time:
    also after the session has dropped the session of the library (client.hpp,
    on [set_connection_state_change_listener]). *)
Definition valid (c : Call) (w : World) : Prop :=
  match c with
  | WaitFires wait _ => wait ∈ waits w
  | UpdateConfiguration new_config => compatible (m_config (the_session w)) new_config
  | DropExternalReference => m_external_reference (the_session w) ≠ 0%nat
  | _ => True
  end.

(** An error that is to end the session is reported when it is inactive. *)
Definition ends_twice (c : Call) (w : World) : Prop :=
  match c with
  | ConnectionStateChanged _ (Some e) =>
      tears_down e (m_config (the_session w)) = true ∧ m_state (the_session w) = inactive
  | _ => False
  end.

Definition registers (c : Call) : list Callback :=
  match c with WaitForCompletion _ callback => [callback] | _ => [] end.

Theorem call_ok registered c w :
  ok registered w → valid c w → ¬ ends_twice c w → wp (run c) (λ _ w', ok (registers c ++ registered) w') w.
Proof.
  intros Hw Hv Hne. destruct c; simpl in *.
  - by apply revive_ok.
  - apply (call_unit registered); [done|]. intros; by apply reconnect_good.
  - apply (call_unit registered); [done|]. intros; by apply log_out_good.
  - apply (call_unit registered); [done|]. intros; by apply close_good.
  - unfold nonsync_transact_notify. apply wp_bind, wp_set_progress.
    apply (call_unit registered); [by apply ok_progress|]. intros; by apply notify_good.
  - apply (call_unit registered); [done|]. intros; by apply override_good.
  - unfold refresh_access_token. apply (call_unit registered); [done|]. intros w' Hg Hl. apply wp_bind, wp_get.
    do 2 case_bool_decide; simpl; try (apply refresh_good; [done|done|tauto]). by apply wp_skip.
  - unfold wait_for_completion. apply (wp_call registered); [done|]. intros w' Hg Hl.
    eapply wp_mono; [by apply wait_good|]. intros ? w'' Hg''. split; [by apply good_locked|done].
  - by apply wp_update, ok_session.
  - by apply wp_update, ok_session.
  - by apply update_configuration_ok.
  - apply (call_unit registered); [done|]. intros w' Hg Hl. by apply wp_update, good_session.
  - apply wp_bind. apply (wp_mono _ (λ _ w', ok registered w')); [|intros ? w' Hw'; by apply wp_skip].
    apply (wp_call registered); [done|]. intros w' Hg Hl. apply wp_bind, wp_get.
    destruct (_ =? _)%nat; [apply wp_ret|apply wp_bind, wp_update, wp_ret]; (split; [|done]).
    + by apply good_locked.
    + by apply good_locked, good_session.
  - by apply drop_ok.
  - by apply (fired_ok registered).
  - apply connection_ok; [done|]. intros e -> Ht Hst. by apply Hne.
  - unfold register_progress_notifier. do 2 apply wp_bind. unfold wp at 1. apply wp_bind, wp_set_progress, wp_bind.
    eapply wp_mono; [apply (report_all_ok registered); by apply ok_progress|]. intros ? w' Hw'. by apply wp_ret, wp_skip.
  - by apply wp_set_progress, ok_progress.
  - unfold handle_progress_update. apply wp_bind. unfold wp at 1. apply wp_bind, wp_set_progress, report_all_ok.
    by apply ok_progress.
Qed.
End Calls.
