(* ===== verification/SyncSessionProgress.v ===== *)
(** Progress notifiers of a session: every call that does not concern them
    leaves them alone, so that what they are told through a session is what
    [SyncProgressNotifier] tells them. *)
From stdpp Require Import strings.
From S2P Require Import Prelude SyncProgress SyncProgressTheory SyncSession SyncSessionTheory.
Import SyncSession.

Definition reports_of (l : list Effect) : list Report :=
  omap (λ e, match e with ProgressReport f t c => Some (f, (t, c)) | _ => None end) l.

Lemma reports_of_app l l' : reports_of (l ++ l') = reports_of l ++ reports_of l'.
Proof. apply omap_app. Qed.

(** ** Calls that leave the notifiers alone *)
Class Quiet {A} (e : M A) : Prop :=
  quiet w x w' : e w = Some (x, w') → progress w' = progress w ∧ reports_of (effects w') = reports_of (effects w).

Section Rules.
Context {A B : Type}.

#[export] Instance quiet_ret (x : A) : Quiet (mret x).
Proof. by intros w y w' [= _ <-]. Qed.

#[export] Instance quiet_bind (e : M A) (f : A → M B) : Quiet e → (∀ x, Quiet (f x)) → Quiet (mbind f e).
Proof.
  intros He Hf w x w'. unfold mbind, M_bind. destruct (e w) as [[y w1]|] eqn:E; [|done]. intros H.
  apply He in E as [E1 E2]. apply (Hf y) in H as [-> ->]. by split.
Qed.

#[export] Instance quiet_get (f : SyncSession → A) : Quiet (get f).
Proof. by intros w y w' [= _ <-]. Qed.

#[export] Instance quiet_fail : Quiet (@fail A).
Proof. by intros w y w' H. Qed.
End Rules.

#[export] Instance quiet_skip : Quiet skip.
Proof. apply quiet_ret. Qed.

#[export] Instance quiet_update f : Quiet (update f).
Proof. by intros w [] w' [= <-]. Qed.

#[export] Instance quiet_assert b : Quiet (assert b).
Proof. intros w x w'. unfold assert. destruct b; [by intros [= _ <-]|done]. Qed.

#[export] Instance quiet_owns_lock : Quiet owns_lock.
Proof. by intros w x w' [= _ <-]. Qed.

#[export] Instance quiet_set_locked b : Quiet (set_locked b).
Proof. by intros w x w' [= _ <-]. Qed.

Definition silent (e : Effect) : Prop := match e with ProgressReport _ _ _ => False | _ => True end.

Lemma quiet_emit e : silent e → Quiet (emit e).
Proof.
  intros He w x w' [= _ <-]. split; [done|]. unfold reports_of. simpl. rewrite omap_app. simpl.
  destruct e; try (by rewrite app_nil_r); done.
Qed.
#[export] Hint Extern 1 (Quiet (emit _)) => (apply quiet_emit; exact I) : typeclass_instances.
#[export] Hint Extern 2 (Quiet (match ?x with _ => _ end)) => destruct x : typeclass_instances.

Lemma quiet_for_each {A} (f : A → M ()) l : (∀ x, Quiet (f x)) → Quiet (for_each f l).
Proof. intros Hf. induction l as [|x l IH]; simpl; apply _. Qed.
#[export] Hint Extern 1 (Quiet (for_each _ _)) => (apply quiet_for_each; intros) : typeclass_instances.

#[export] Instance quiet_lock : Quiet lock.
Proof. unfold lock. apply _. Qed.
#[export] Instance quiet_unlock : Quiet unlock.
Proof. unfold unlock. apply _. Qed.
#[export] Instance quiet_release : Quiet release.
Proof. apply _. Qed.
#[export] Instance quiet_with_lock {A} (body : M A) : Quiet body → Quiet (with_lock body).
Proof. unfold with_lock. apply _. Qed.
#[export] Instance quiet_session_id : Quiet session_id.
Proof. unfold session_id. apply _. Qed.
#[export] Instance quiet_start_wait kind : Quiet (start_wait kind).
Proof.
  unfold start_wait. apply quiet_bind; [apply _|]. intros id. apply quiet_bind; [|apply _]. by intros w [] w' [= <-].
Qed.
#[export] Instance quiet_make_session config : Quiet (make_session config).
Proof.
  intros w [] w' [= <-]. split; [done|]. unfold reports_of. simpl. by rewrite omap_app, app_nil_r.
Qed.
#[export] Instance quiet_reset_session : Quiet reset_session.
Proof. unfold reset_session. apply _. Qed.
#[export] Instance quiet_take_callbacks direction : Quiet (take_callbacks direction).
Proof. unfold take_callbacks. apply _. Qed.
#[export] Instance quiet_complete_all error l : Quiet (complete_all error l).
Proof. unfold complete_all. apply _. Qed.
#[export] Instance quiet_add_completion direction : Quiet (add_completion_callback direction).
Proof. unfold add_completion_callback. apply _. Qed.
#[export] Instance quiet_unregister : Quiet unregister.
Proof. unfold unregister. apply _. Qed.
#[export] Instance quiet_set_state state : Quiet (set_state state).
Proof. unfold set_state. apply _. Qed.
#[export] Instance quiet_enter_inactive : Quiet enter_inactive.
Proof. unfold enter_inactive, connection_state. apply _. Qed.
#[export] Instance quiet_advance state : Quiet (advance_state state).
Proof.
  unfold advance_state, enter_state, enter_waiting_for_access_token, enter_active, enter_dying. apply _.
Qed.
#[export] Instance quiet_close : Quiet state_close.
Proof. unfold state_close. apply _. Qed.
#[export] Instance quiet_on_session call : (∀ id, silent (call id)) → Quiet (on_session call).
Proof. intros Hc. unfold on_session. apply quiet_bind; [apply _|]. intros id. by apply quiet_emit. Qed.
#[export] Hint Extern 1 (Quiet (on_session _)) => (apply quiet_on_session; intros; exact I) : typeclass_instances.

#[export] Instance quiet_cancel_pending_waits error : Quiet (cancel_pending_waits error).
Proof. unfold cancel_pending_waits. apply _. Qed.
#[export] Instance quiet_revive : Quiet revive_if_needed.
Proof. unfold revive_if_needed, state_revive_if_needed. apply _. Qed.
#[export] Instance quiet_access_token_expired : Quiet state_access_token_expired.
Proof. unfold state_access_token_expired. apply _. Qed.
#[export] Instance quiet_finish_error next error : Quiet (finish_error next error).
Proof. unfold finish_error. apply _. Qed.
#[export] Instance quiet_update_configuration config : Quiet (update_configuration config).
Proof.
  unfold update_configuration. apply quiet_bind; [|apply _]. generalize 2%nat. intros fuel.
  induction fuel as [|fuel IH]; simpl; apply _.
Qed.

Section Calls.
Context (realm_path recovery_file_path : string).

#[export] Instance quiet_refresh token url : Quiet (state_refresh_access_token realm_path token url).
Proof. unfold state_refresh_access_token, create_sync_session. apply _. Qed.
#[export] Instance quiet_mark error backup :
  Quiet (update_error_and_mark_file_for_deletion realm_path recovery_file_path error backup).
Proof. unfold update_error_and_mark_file_for_deletion. apply _. Qed.
#[export] Instance quiet_handle_error_code error next :
  Quiet (handle_error_code realm_path recovery_file_path error next).
Proof. unfold handle_error_code, handle_protocol_error. apply _. Qed.
#[export] Instance quiet_handle_error error : Quiet (handle_error realm_path recovery_file_path error).
Proof. unfold handle_error, state_handle_error, handle_error_rest, start_client_resync. apply _. Qed.

(** The operation of the notifiers a call consists of *)
Definition notifier_op (c : Call) : option SyncProgressNotifier.Op :=
  match c with
  | NotifyCommit version => Some (SyncProgressNotifier.SetLocalVersion version)
  | RegisterProgressNotifier f direction streaming =>
      Some (SyncProgressNotifier.Register f direction streaming)
  | UnregisterProgressNotifier token => Some (SyncProgressNotifier.Unregister token)
  | ProgressUpdate download_version p => Some (SyncProgressNotifier.Update download_version p)
  | _ => None
  end.

Lemma quiet_call c : notifier_op c = None → Quiet (run_call realm_path recovery_file_path c).
Proof.
  intros Hc. destruct c; try done; simpl;
    unfold handle_reconnect, state_handle_reconnect, log_out, state_log_out, close, override_server,
      state_override_server, refresh_access_token, wait_for_completion, state_wait_for_completion,
      set_multiplex_identifier, set_url_prefix, external_reference, existing_external_reference,
      drop_external_reference, did_drop_external_reference, wait_completed, connection_state_changed; try apply _.
  apply quiet_bind; [|apply _]. by intros w x w' [= _ <-].
Qed.

Lemma report_all_eq l w :
  report_all l w = Some ((), with_effects ((λ r, ProgressReport r.1 r.2.1 r.2.2) <$> l) w).
Proof.
  unfold report_all. revert w. induction l as [|r l IH]; intros [s lk ws n es pr]; simpl.
  - unfold with_effects. simpl. by rewrite app_nil_r.
  - unfold mbind, M_bind. simpl. rewrite IH. unfold with_effects. simpl. by rewrite <-app_assoc.
Qed.

Lemma reports_of_reports l : reports_of ((λ r, ProgressReport r.1 r.2.1 r.2.2) <$> l) = l.
Proof.
  induction l as [|[f [t c]] l IH]; [done|]. rewrite fmap_cons. unfold reports_of in *. simpl. f_equal. exact IH.
Qed.

(** A call does to the notifiers what its operation does. *)
Lemma call_progress c w w' :
  run_call realm_path recovery_file_path c w = Some ((), w') →
  let r := match notifier_op c with
           | Some op => SyncProgressNotifier.run_op op (progress w)
           | None => ([], progress w)
           end in
  progress w' = r.2 ∧ reports_of (effects w') = reports_of (effects w) ++ r.1.
Proof.
  intros Hrun. destruct (notifier_op c) as [op|] eqn:Hop.
  2:{ apply (quiet_call c Hop) in Hrun as [-> ->]. simpl. by rewrite app_nil_r. }
  assert (∀ l n, report_all l (with_progress (λ _, n) w) = Some ((), w') →
    progress w' = n ∧ reports_of (effects w') = reports_of (effects w) ++ l) as Hreport.
  { intros l n. rewrite report_all_eq. intros [= <-]. split; [done|].
    cbn [effects with_effects with_progress]. by rewrite reports_of_app, reports_of_reports. }
  destruct c; try done; injection Hop as <-.
  - cbn [run_call] in Hrun. unfold nonsync_transact_notify, mbind, M_bind in Hrun. cbn [set_progress] in Hrun.
    assert (Quiet (with_lock (state_nonsync_transact_notify version))) as Hq
      by (unfold state_nonsync_transact_notify; apply _).
    apply Hq in Hrun as [-> ->]. simpl. by rewrite app_nil_r.
  - cbn [run_call] in Hrun. unfold register_progress_notifier, mbind, M_bind in Hrun. cbn [set_progress] in Hrun.
    destruct (report_all _ _) as [[[] w1]|] eqn:E; [|done]. injection Hrun as ->. by apply Hreport in E.
  - injection Hrun as <-. simpl. by rewrite app_nil_r.
  - cbn [run_call] in Hrun. unfold handle_progress_update, mbind, M_bind in Hrun. cbn [set_progress] in Hrun.
    by apply Hreport in Hrun.
Qed.
End Calls.

(** ** Sequences of calls *)
Fixpoint run_calls (realm_path recovery_file_path : string) (l : list Call) : M () :=
  match l with
  | [] => skip
  | c :: l => run_call realm_path recovery_file_path c;; run_calls realm_path recovery_file_path l
  end.

Lemma run_calls_progress realm_path recovery_file_path calls w w' :
  run_calls realm_path recovery_file_path calls w = Some ((), w') →
  let r := SyncProgressNotifier.run_ops (omap notifier_op calls) (progress w) in
  progress w' = r.2 ∧ reports_of (effects w') = reports_of (effects w) ++ r.1.
Proof.
  revert w. induction calls as [|c calls IH]; intros w; cbn [run_calls].
  { intros [= <-]. simpl. by rewrite app_nil_r. }
  unfold mbind, M_bind. destruct (run_call _ _ c w) as [[[] w1]|] eqn:E; [|done]. intros H.
  destruct (call_progress _ _ _ _ _ E) as [P1 R1]. destruct (IH _ H) as [P2 R2]. rewrite P1 in P2, R2.
  cbn [omap list_omap]. rewrite P2, R2, R1. destruct (notifier_op c) as [op|]; cbn [SyncProgressNotifier.run_ops].
  - by rewrite <-(assoc_L (++)).
  - by rewrite app_nil_r.
Qed.

(** C36: from its registration on a notifier of a session is told the progress
    that the comment on [register_progress_notifier] promises, whatever else is
    asked of the session and whichever other notifiers are registered, expire or
    are unregistered meanwhile: a streaming one every update; another one every
    update relative to the bytes that were to be transferred at the registration,
    or at the first update when no progress was known, until they have been.
    There is one exception to the comment: an upload notifier that is not
    streaming is told nothing of the progress from before the last local
    transaction that was announced, not even at once of the progress known at
    the registration, and its total is that of the first later update.  Updates
    from before the first DOWNLOAD message do not count. *)
Theorem session_progress_told realm_path recovery_file_path config force_client_resync bound
    calls w f direction streaming before after :
  run_calls realm_path recovery_file_path calls (initial config force_client_resync bound) = Some ((), w) →
  omap notifier_op calls = before ++ SyncProgressNotifier.Register f direction streaming :: after →
  Forall (not_registering f) before →
  Forall (other f (m_progress_notifier_token
    (SyncProgressNotifier.run_ops before SyncProgressNotifier.empty).2)) after →
  Z.of_nat (length before + length after) + 2 < size_modulus →
  calls_to f (reports_of (effects w)) =
    promised (bool_decide (direction = download)) streaming
      (if streaming || bool_decide (direction = download) then last_progress before ++ omap progress_of after
       else since (local_version before) (last_progress before ++ omap progress_of after)).
Proof.
  intros Hrun Hops Hb Ha Hn. destruct (run_calls_progress _ _ _ _ _ Hrun) as [_ ->]. rewrite Hops.
  rewrite <-reports_promised. exact (told_correct f direction streaming before after Hb Ha Hn).
Qed.
