(* ===== verification/SyncSessionProps.v ===== *)
(** The properties of a synchronised session: no assertion fails, its states
    follow the documented ones, and completion handlers are neither lost nor
    called twice; and the calls that do not behave as documented. *)
From stdpp Require Import strings.
From S2P Require Import Prelude SyncProgress SyncProgressTheory.
From S2P Require Import SyncSession SyncSessionTheory SyncSessionCalls SyncSessionProgress.
Import SyncSession.

(** ** Errors of a session that is already inactive *)
Lemma advance_twice w : locked w = true → m_state (the_session w) = inactive → advance_state inactive w = None.
Proof.
  intros Hl Hst. unfold advance_state, set_state, mbind, M_bind, owns_lock, get, assert. rewrite Hl, Hst. done.
Qed.

Lemma with_lock_fails {A} (body : M A) w :
  locked w = false → body (with_locked true w) = None → with_lock body w = None.
Proof.
  intros Hl Hb. unfold with_lock, mbind, M_bind, lock, owns_lock, assert, set_locked, mbind, M_bind. rewrite Hl.
  simpl. unfold with_locked in Hb. by rewrite Hb.
Qed.

Lemma bind_fails {A B} (e : M A) (f : A → M B) w : e w = None → mbind f e w = None.
Proof. unfold mbind, M_bind. by intros ->. Qed.

Lemma fails_later {A B} (e : M A) (f : A → M B) w : wp e (λ x w', f x w' = None) w → mbind f e w = None.
Proof. unfold wp, mbind, M_bind. by destruct (e w) as [[x w']|]. Qed.

Lemma resync_fails w : locked w = false → m_state (the_session w) = inactive → start_client_resync w = None.
Proof.
  intros Hl Hst. unfold start_client_resync. apply with_lock_fails; [done|].
  do 2 apply fails_later, wp_update. unfold take_callbacks.
  do 2 (apply fails_later, wp_bind, wp_get, wp_bind, wp_update, wp_ret). by apply bind_fails, advance_twice.
Qed.

Section Inactive.
Context (realm_path recovery_file_path : string).

Lemma finish_fails error w :
  locked w = false → m_state (the_session w) = inactive → finish_error next_inactive error w = None.
Proof. intros Hl Hst. unfold finish_error. by apply bind_fails, with_lock_fails, advance_twice. Qed.

Lemma rest_fails error w :
  locked w = false → m_state (the_session w) = inactive → tears_down error (m_config (the_session w)) = true →
  handle_error_rest realm_path recovery_file_path error w = None.
Proof.
  intros Hl Hst Ht. unfold handle_error_rest. apply fails_later, wp_get. unfold tears_down in Ht.
  assert (drops_session error = true →
    (r ← handle_error_code realm_path recovery_file_path error (if is_fatal error then next_error else next_none);
     match r with Some (next, error) => finish_error next error | None => skip end) w = None) as Hdrop.
  { unfold drops_session, handle_error_code. destruct (error_code error) as [e| | |]; try done.
    intros He. destruct e; try done; cbn [handle_protocol_error]; apply fails_later, wp_bind, mark_ok;
      intros e'; by apply wp_ret, finish_fails. }
  destruct (is_client_reset_requested error); [destruct (client_resync_mode _)|].
  1, 2: by apply bind_fails, resync_fails.
  all: apply Hdrop; by rewrite orb_false_r in Ht.
Qed.

(** The library may report an error after the session has become inactive,
    because it ends its session later, or the session may be logged out while
    the error is handled, between the two times the mutex is held: if the
    error tears the session down, the assertion of [advance_state] that the
    state changes fails. *)
Theorem error_when_inactive_fails error state w :
  locked w = false → tears_down error (m_config (the_session w)) = true →
  (m_state (the_session w) = inactive →
   connection_state_changed realm_path recovery_file_path state (Some error) w = None) ∧
  (m_state (the_session w) = active →
   (handled ← with_lock (state_handle_error error);
    log_out;;
    if (handled : bool) then skip else handle_error_rest realm_path recovery_file_path error) w = None).
Proof.
  intros Hl Ht. split; intros Hst.
  - unfold connection_state_changed. apply fails_later, wp_lock; [done|]. apply fails_later, wp_get.
    apply fails_later, wp_update, fails_later, wp_get, fails_later, wp_unlock; [done|].
    apply fails_later, wp_emit. unfold handle_error. apply fails_later, wp_with_lock; [done|].
    unfold state_handle_error. apply wp_bind, wp_get. cbn [the_session with_locked with_effects with_session].
    change (m_state (set_m_connection_state state (the_session w))) with (m_state (the_session w)).
    rewrite Hst. by apply wp_ret, rest_fails.
  - apply fails_later, wp_with_lock; [done|]. unfold state_handle_error. apply wp_bind, wp_get.
    cbn [the_session with_locked]. rewrite Hst. apply wp_ret. apply fails_later. unfold log_out.
    apply wp_with_lock; [done|]. unfold state_log_out. apply wp_bind, wp_get. cbn [the_session with_locked].
    rewrite Hst. eapply wp_eq; [apply advance_inactive; [done|]; simpl; congruence|]. by apply rest_fails.
Qed.
Lemma ends_twice_fails c w :
  locked w = false → ends_twice c w → run_call realm_path recovery_file_path c w = None.
Proof.
  intros Hl Ht. destruct c; try done. destruct error as [error|]; [|done]. destruct Ht as [Ht Hst].
  by apply error_when_inactive_fails.
Qed.
End Inactive.

(** ** Reachable sessions *)
Section Reachable.
Context (realm_path recovery_file_path : string) (config : SyncConfig) (force_client_resync bound : bool).
Notation run := (run_call realm_path recovery_file_path).

(** The session after valid calls, with the completion handlers registered *)
Inductive reachable : list Callback → World → Prop :=
| reach_start : reachable [] (initial config force_client_resync bound)
| reach_call registered c w w' :
    reachable registered w → valid c w → run c w = Some ((), w') → reachable (registers c ++ registered) w'.

Lemma reachable_ok registered w : reachable registered w → ok registered w.
Proof.
  induction 1 as [|registered c w w' Hw IH Hv Hrun].
  - split; [|done]. split; simpl; try done.
    by intros x ?%elem_of_nil.
  - assert (¬ ends_twice c w) as Hne.
    { intros Ht. destruct IH as [_ Hl]. by rewrite (ends_twice_fails realm_path recovery_file_path c w Hl Ht) in Hrun. }
    pose proof (call_ok realm_path recovery_file_path registered c w IH Hv Hne) as H. unfold wp in H.
    by rewrite Hrun in H.
Qed.

(** C33: no assertion fails, no null session is dereferenced and the mutex is
    neither locked twice nor left locked, whatever valid calls the application
    and the synchronisation library make one after the other, with one exception:
    when the library reports an error that is to end the session after the
    session has become inactive, which it may, the assertion of [advance_state]
    that the state changes fails. *)
Theorem session_safe registered c w :
  reachable registered w → valid c w →
  (¬ ends_twice c w → ∃ w', run c w = Some ((), w') ∧ locked w' = false) ∧
  (ends_twice c w → run c w = None).
Proof.
  intros Hw Hv. pose proof (reachable_ok _ _ Hw) as Hok. split.
  - intros Hne. pose proof (call_ok realm_path recovery_file_path registered c w Hok Hv Hne) as H.
    unfold wp in H. destruct (run c w) as [[[] w']|]; [|done]. exists w'. by destruct H.
  - apply ends_twice_fails. apply Hok.
Qed.

(** C35: the states a session goes through are a path of the transitions in the
    comment on [SyncSession::State], from [inactive] to its current state; and
    a session of the library exists in the states that use it, and only then
    not when the session is inactive. *)
Theorem transitions_documented registered w :
  reachable registered w →
  path inactive (transitions (effects w)) (m_state (the_session w)) ∧
  (connected_state (m_state (the_session w)) = true → is_Some (m_session (the_session w))) ∧
  (m_state (the_session w) = inactive → m_session (the_session w) = None).
Proof. by intros [[] _]%reachable_ok. Qed.

(** C31: completion handlers are neither lost nor called twice: those that were
    registered are the ones that are pending and the ones that were called. *)
Theorem handlers_conserved registered w :
  reachable registered w →
  registered ≡ₚ m_download_completion_callbacks (the_session w) ++
    m_upload_completion_callbacks (the_session w) ++ completed (effects w).
Proof. by intros [[] _]%reachable_ok. Qed.

(** C32: when a session is active or dying and handlers are pending, the session
    of the library has a wait for them, and when it fires all of them are
    called with its result. *)
Theorem pending_handlers_waited_for registered w direction :
  reachable registered w → connected_state (m_state (the_session w)) = true →
  callbacks direction (the_session w) ≠ [] →
  ∃ wait, wait ∈ waits w ∧ m_session (the_session w) = Some (wait_session wait) ∧
    ∀ error, ∃ w', run (WaitFires wait error) w = Some ((), w') ∧
      callbacks direction (the_session w') = [] ∧
      effects w' = effects w ++ ((λ c, Completed c error) <$> callbacks direction (the_session w)).
Proof.
  intros Hr Hc Hd. destruct (reachable_ok _ _ Hr) as [Hw Hl]. destruct (g_session _ _ Hw Hc) as [id Hid].
  exists (mkWait id (for_completion direction (m_client_resync_counter (the_session w)))).
  split; [by apply (g_armed _ _ Hw)|]. split; [done|]. intros error.
  destruct w as [s l ws n es pr]. simpl in *. subst l. unfold wait_completed. cbn [wait_kind].
  assert (∀ e l w, complete_all e l w = Some ((), with_effects ((λ c, Completed c e) <$> l) w)) as Hall
    by (intros; apply complete_all_eq).
  unfold mbind, M_bind, lock, take_callbacks, unlock; simpl. rewrite Z.eqb_refl. simpl.
  eexists. rewrite Hall. split; [done|]. split; [by destruct direction|done].
Qed.

(** C34: an error that asks for a client reset is transparent in the modes with
    automatic resync: the session waits for a token, its completion handlers
    are pending as before and none is called, and the completion of a wait
    that was started before is ignored. *)
Theorem client_resync_transparent registered w error :
  reachable registered w →
  m_state (the_session w) = active ∨ m_state (the_session w) = waiting_for_access_token →
  is_client_reset_requested error = true →
  client_resync_mode (m_config (the_session w)) ≠ ManualResync →
  ∃ w', handle_error realm_path recovery_file_path error w = Some ((), w') ∧
    m_state (the_session w') = waiting_for_access_token ∧
    (∀ direction, callbacks direction (the_session w') = callbacks direction (the_session w)) ∧
    completed (effects w') = completed (effects w) ∧
    ∀ wait direction result,
      wait_kind wait = for_completion direction (m_client_resync_counter (the_session w)) →
      wait_completed wait result w' = Some ((), w').
Proof.
  intros Hr Hst Hreset Hmode. destruct (reachable_ok _ _ Hr) as [_ Hl]. apply wp_exists.
  unfold handle_error. apply wp_bind, wp_with_lock; [done|]. unfold state_handle_error. apply wp_bind, wp_get.
  cbn [the_session with_locked].
  assert (∀ (P : bool → World → Prop) w, P false w →
    wp (match m_state (the_session w) with
        | dying => (if is_fatal error then advance_state inactive else skip);; mret true
        | _ => mret false
        end) P w ∨ m_state (the_session w) = dying) as Hstate.
  { intros P w' HP. destruct (m_state (the_session w')); [by left..|by right|by left]. }
  match goal with |- wp _ ?P ?w' => destruct (Hstate P w') as [H|H] end;
    [|exact H|simpl in H; rewrite H in Hst; by destruct Hst]. clear Hstate.
  cbn beta iota. unfold handle_error_rest. apply wp_bind, wp_get. rewrite Hreset.
  set (w1 := with_locked _ _).
  assert (wp (start_client_resync;; revive_if_needed) (λ _ w',
    m_state (the_session w') = waiting_for_access_token ∧
    (∀ direction, callbacks direction (the_session w') = callbacks direction (the_session w)) ∧
    completed (effects w') = completed (effects w) ∧
    ∀ wait direction result,
      wait_kind wait = for_completion direction (m_client_resync_counter (the_session w)) →
      wait_completed wait result w' = Some ((), w')) w1) as Hdone.
  2:{ change (client_resync_mode (m_config (the_session w1))) with (client_resync_mode (m_config (the_session w))).
      by destruct (client_resync_mode (m_config (the_session w))). }
  apply wp_bind. unfold start_client_resync. apply wp_with_lock; [done|].
  apply wp_bind, wp_update, wp_bind, wp_update. unfold take_callbacks.
  apply wp_bind, wp_bind, wp_get, wp_bind, wp_update, wp_ret.
  apply wp_bind, wp_bind, wp_get, wp_bind, wp_update, wp_ret. apply wp_bind.
  eapply wp_eq; [apply advance_inactive; [done|]|].
  { simpl. by destruct Hst as [-> | ->]. }
  apply wp_bind, wp_update, wp_update. unfold revive_if_needed. apply wp_bind, wp_with_lock; [done|].
  unfold state_revive_if_needed. apply wp_bind, wp_get. cbn [the_session with_locked with_session].
  match goal with |- wp _ _ ?x => set (w2 := x) end.
  change (m_state (the_session w2)) with inactive. cbv iota. apply wp_bind.
  eapply wp_eq; [by apply advance_waiting|]. apply wp_ret. apply wp_emit.
  split; [done|]. split; [by intros []|]. split.
  - simpl. rewrite !completed_app, completed_inactive. simpl. by rewrite !app_nil_r.
  - intros wait direction result Hk. apply (stale_wait_ignored _ direction (m_client_resync_counter (the_session w)));
      [done|done|]. simpl. lia.
Qed.
(** Changing the configuration terminates: the loop of
    [update_configuration] needs at most two turns and leaves an inactive
    session with the new configuration. *)
Theorem update_configuration_terminates registered w new_config :
  reachable registered w → compatible (m_config (the_session w)) new_config →
  ∃ w', update_configuration_loop 2 new_config w = Some ((), w') ∧
    m_config (the_session w') = new_config ∧ m_state (the_session w') = inactive.
Proof.
  intros Hr Hc. apply wp_exists.
  eapply wp_mono; [by apply (update_loop_ok registered), Hc; apply reachable_ok|]. by intros ? w' [_ H].
Qed.
End Reachable.

(** ** Sample sessions *)
Module SessionSamples.
Definition config : SyncConfig :=
  mkSyncConfig (Some 1%nat) "realm://example.com/~/rates" AfterChangesUploaded true false false None None Recover.

Definition start : World := initial config false false.

Definition run_all (l : list Call) : M () := run_calls "rates.realm" "recovered_realm" l.

(** The effects of calls on a new session *)
Definition effects_of (l : list Call) : option (list Effect) :=
  match run_all l start with Some (_, w) => Some (effects w) | None => None end.

Definition connect : list Call := [ReviveIfNeeded; RefreshAccessToken "token" (Some "realms://example.com")].

(** The first handler is registered, a commit is announced, and the second
    handler is registered. *)
Definition first_wait : Wait := mkWait 0 (for_completion upload 0).
Definition two_waits : list Call :=
  connect ++ [WaitForCompletion upload 1; NotifyCommit 5; WaitForCompletion upload 2; WaitFires first_wait None].

(** The session is logged out and connects again before the library ends its
    first session. *)
Definition old_wait : Wait := mkWait 0 (for_completion download 0).
Definition reconnected : list Call :=
  connect ++ [WaitForCompletion download 1; LogOut] ++ connect ++
  [WaitForCompletion download 2; WaitFires old_wait (Some operation_aborted)].
End SessionSamples.
Import SessionSamples.

(** The handler of a later [wait_for_upload_completion] is called when an
    earlier wait completes: when handlers are pending no new wait is started,
    although the library considers only the commits announced before the start
    of a wait. Here the second handler is called by the wait that was started
    before the commit it should wait for. *)
Theorem upload_wait_too_early :
  effects_of two_waits = Some
    [EnterState inactive waiting_for_access_token; BindSessionHandler;
     MakeSession 0 (mkSessionConfig "" None None None); Bind 0 "realms://example.com" "token";
     EnterState waiting_for_access_token active;
     StartWait first_wait; NonsyncTransactNotify 0 5; Completed 1 None; Completed 2 None].
Proof. vm_compute. reflexivity. Qed.

(** Only a client resync makes a session ignore the waits of its previous
    session of the library: when a user logs out and in again, the wait that
    the library aborts afterwards aborts the new handlers. *)
Theorem old_wait_aborts_new_handler :
  (λ l, drop 15 l) <$> effects_of reconnected = Some
    [StartWait (mkWait 1 (for_completion download 0)); Completed 2 (Some operation_aborted)].
Proof. vm_compute. reflexivity. Qed.

(** ** Witnesses *)
Notation runs := (run_call "rates.realm" "recovered_realm").
Notation reached := (reachable "rates.realm" "recovered_realm" config false false).

(** The world after some calls *)
Definition after (l : list Call) : World := match run_all l start with Some (_, w) => w | None => start end.

(** Calls without conditions reach a world. *)
Definition unconditional (c : Call) : bool :=
  match c with
  | WaitFires _ _ | UpdateConfiguration _ | DropExternalReference => false
  | _ => true
  end.

Lemma reached_from registered w l w' :
  reached registered w → Forall (λ c, unconditional c = true) l → run_all l w = Some ((), w') →
  ∃ registered', reached registered' w'.
Proof.
  intros Hr Hl. revert registered w Hr. induction Hl as [|c l Hc Hl IH]; intros registered w Hr.
  - intros [= <-]. by exists registered.
  - unfold run_all in *. cbn [run_calls]. unfold mbind, M_bind. destruct (runs c w) as [[[] w1]|] eqn:E; [|done]. intros Hrun.
    apply (IH (registers c ++ registered) w1); [|done]. apply (reach_call _ _ _ _ _ registered c w); [done| |done].
    by destruct c.
Qed.

Definition waiting_calls : list Call := connect ++ [WaitForCompletion upload 1; WaitForCompletion download 2].

Lemma after_waiting : ∃ registered, reached registered (after waiting_calls).
Proof.
  apply (reached_from [] start waiting_calls).
  - apply reach_start.
  - by_decision.
  - vm_compute. reflexivity.
Qed.

Lemma session_safe_witness :
  ∃ registered w', reached registered (after waiting_calls) ∧ runs LogOut (after waiting_calls) = Some ((), w') ∧
    locked w' = false.
Proof.
  destruct after_waiting as [registered Hr]. exists registered.
  destruct (session_safe "rates.realm" "recovered_realm" config false false registered LogOut _ Hr I) as [H _].
  destruct (H (λ F, F)) as (w'&H1&H2). exists w'. split; [exact Hr|]. split; [exact H1|exact H2].
Defined.

Lemma transitions_documented_witness :
  path inactive (transitions (effects (after waiting_calls))) active.
Proof.
  destruct after_waiting as [registered Hr].
  destruct (transitions_documented _ _ _ _ _ _ _ Hr) as [H _].
  assert (m_state (the_session (after waiting_calls)) = active) as E by (vm_compute; reflexivity).
  rewrite E in H. exact H.
Defined.

Lemma handlers_conserved_witness :
  ∃ registered, reached registered (after waiting_calls) ∧ registered ≡ₚ [2; 1]%nat.
Proof.
  destruct after_waiting as [registered Hr]. exists registered. split; [exact Hr|].
  etransitivity; [exact (handlers_conserved _ _ _ _ _ _ _ Hr)|vm_compute; reflexivity].
Defined.

Lemma pending_handlers_waited_for_witness :
  ∃ wait, wait ∈ waits (after waiting_calls) ∧ wait_session wait = 0%nat.
Proof.
  destruct after_waiting as [registered Hr].
  destruct (pending_handlers_waited_for _ _ _ _ _ _ _ upload Hr) as (wait&H1&H2&_); [vm_compute; reflexivity|vm_compute; discriminate|].
  assert (m_session (the_session (after waiting_calls)) = Some 0%nat) as E by (vm_compute; reflexivity).
  exists wait. split; [exact H1|]. rewrite E in H2. congruence.
Defined.

Definition reset_error : SyncError := mkSyncError (protocol_error bad_server_version) "" true [] false.

Lemma client_resync_transparent_witness :
  ∃ w', handle_error "rates.realm" "recovered_realm" reset_error (after waiting_calls) = Some ((), w') ∧
    m_upload_completion_callbacks (the_session w') = [1%nat].
Proof.
  destruct after_waiting as [registered Hr].
  destruct (client_resync_transparent _ _ _ _ _ _ _ reset_error Hr) as (w'&H1&_&H2&_);
    [left; vm_compute; reflexivity|reflexivity|vm_compute; discriminate|].
  assert (callbacks upload (the_session (after waiting_calls)) = [1%nat]) as E by (vm_compute; reflexivity).
  exists w'. split; [exact H1|]. rewrite <-E. exact (H2 upload).
Defined.

Lemma update_configuration_terminates_witness :
  ∃ w', update_configuration_loop 2 config (after waiting_calls) = Some ((), w') ∧
    m_state (the_session w') = inactive.
Proof.
  destruct after_waiting as [registered Hr].
  destruct (update_configuration_terminates _ _ _ _ _ _ _ config Hr) as (w'&H1&_&H2);
    [vm_compute; split_and!; reflexivity|].
  exists w'. split; [exact H1|exact H2].
Defined.

Lemma error_when_inactive_fails_witness :
  connection_state_changed "rates.realm" "recovered_realm" Disconnected (Some reset_error) start = None.
Proof.
  destruct (error_when_inactive_fails "rates.realm" "recovered_realm" reset_error Disconnected start) as [H _];
    [vm_compute; reflexivity..|]. apply H. vm_compute. reflexivity.
Defined.

(** The samples of [SyncProgressTheory] as calls of a session that is logged out
    on the way *)
Definition progress_before : list Call :=
  [RegisterProgressNotifier 1 download true; ProgressUpdate 1 (mkProgress 10 100 0 20 3); NotifyCommit 4].
Definition progress_after : list Call :=
  [ProgressUpdate 2 (mkProgress 30 100 5 60 3); LogOut; ProgressUpdate 0 (mkProgress 0 0 0 0 0);
   RegisterProgressNotifier 3 upload false; ProgressUpdate 3 (mkProgress 40 150 20 90 4);
   UnregisterProgressNotifier 1; ProgressUpdate 4 (mkProgress 60 150 40 120 5)].
Definition progress_calls : list Call :=
  connect ++ progress_before ++ RegisterProgressNotifier 2 upload false :: progress_after.

Lemma session_progress_told_witness :
  calls_to 2 (reports_of (effects (after progress_calls))) = [(20, 40); (40, 40)].
Proof.
  transitivity (promised false false (since (local_version (omap notifier_op progress_before))
    (last_progress (omap notifier_op progress_before) ++ omap progress_of (omap notifier_op progress_after))));
    [|reflexivity].
  apply (session_progress_told "rates.realm" "recovered_realm" config false false progress_calls _ 2 upload false
    (omap notifier_op progress_before) (omap notifier_op progress_after));
    [vm_compute; reflexivity|reflexivity|by_decision..].
Defined.
