(* ===== verification/ConnectionChange.v ===== *)
(** [SyncSession::ConnectionChangeNotifier] (ObjectStore/src/sync/sync_session.cpp):
    callbacks that may be added and removed while they are being called. *)
From stdpp Require Import list.
From S2P Require Import Prelude.

(** A callback is a function, by identity, with its token. *)
Record Registration := mkRegistration { fn : nat; token : Z }.

#[export] Instance Registration_eq_dec : EqDecision Registration.
Proof. solve_decision. Defined.

Record ConnectionChangeNotifier := mkNotifier {
  m_callbacks : list Registration;
  m_callback_index : Z;
  m_callback_count : Z;
  m_next_token : Z }.

Module ConnectionChange.
Definition empty : ConnectionChangeNotifier := mkNotifier [] npos npos 0.

Definition add_callback (f : nat) (n : ConnectionChangeNotifier) : Z * ConnectionChangeNotifier :=
  (m_next_token n, mkNotifier (m_callbacks n ++ [mkRegistration f (m_next_token n)]) (m_callback_index n)
                     (m_callback_count n) (m_next_token n +w 1)).

Definition remove_callback (t : Z) (n : ConnectionChangeNotifier) : ConnectionChangeNotifier :=
  let idx := find_if (λ c, token c =? t) (m_callbacks n) in
  if (idx =? length (m_callbacks n))%nat then n else
  let index :=
    if negb (m_callback_index n =? npos) then
      if Z.of_nat idx <=? m_callback_index n then m_callback_index n -w 1 else m_callback_index n
    else m_callback_index n in
  mkNotifier (take idx (m_callbacks n) ++ drop (S idx) (m_callbacks n)) index (m_callback_count n -w 1)
    (m_next_token n).

(** What a callback does while it is called: the lock is not held. *)
Inductive Action :=
| Add (f : nat)
| Remove (t : Z)
| Invoke (change : nat).

Section Invoke.
(** The actions of a callback that is told of a change *)
Context (behaviour : Registration → nat → list Action).

(** A call of a callback: its registration and the change *)
Notation Log := (list (Registration * nat)).

Section Actions.
Context (invoke : nat → ConnectionChangeNotifier * Log → option (ConnectionChangeNotifier * Log)).

Definition run_action (s : ConnectionChangeNotifier * Log) (a : Action) :
    option (ConnectionChangeNotifier * Log) :=
  match a with
  | Add f => Some ((add_callback f s.1).2, s.2)
  | Remove t => Some (remove_callback t s.1, s.2)
  | Invoke change => invoke change s
  end.

(** The loop after [m_callback_index] has been increased: [fuel] bounds its
    turns; a callback past the end of the vector is undefined. *)
Fixpoint invoke_loop (fuel : nat) (change : nat) (s : ConnectionChangeNotifier * Log) :
    option (ConnectionChangeNotifier * Log) :=
  let n := s.1 in
  if m_callback_index n <? m_callback_count n then
    match fuel with
    | O => None
    | S fuel =>
        cb ← m_callbacks n !! Z.to_nat (m_callback_index n);
        s ← foldlM run_action (n, s.2 ++ [(cb, change)]) (behaviour cb change);
        let n := s.1 in
        invoke_loop fuel change
          (mkNotifier (m_callbacks n) (m_callback_index n +w 1) (m_callback_count n) (m_next_token n), s.2)
    end
  else Some (mkNotifier (m_callbacks n) npos (m_callback_count n) (m_next_token n), s.2).
End Actions.

(** [invoke_callbacks(old_state, new_state)]; [depth] bounds the nesting of
    invocations. *)
Fixpoint invoke_callbacks (depth fuel : nat) (change : nat) (s : ConnectionChangeNotifier * Log) :
    option (ConnectionChangeNotifier * Log) :=
  match depth with
  | O => None
  | S depth =>
      let n := s.1 in
      invoke_loop (invoke_callbacks depth fuel) fuel change
        (mkNotifier (m_callbacks n) (m_callback_index n +w 1) (Z.of_nat (length (m_callbacks n)))
           (m_next_token n), s.2)
  end.
End Invoke.
End ConnectionChange.
