(* ===== verification/ConnectionChangeTheory.v ===== *)
(** A round of calls over a vector of callbacks that is changed meanwhile: the
    index and the count kept beside the vector stay right while callbacks add
    callbacks and remove those that were registered when the round began. *)
From stdpp Require Import list.
From S2P Require Import Prelude ConnectionChange.
Import ConnectionChange.

(** ** What delivering a change should do *)
Definition pure_action (s : list Registration * Z) (a : Action) : list Registration * Z :=
  match a with
  | Add f => (s.1 ++ [mkRegistration f s.2], s.2 +w 1)
  | Remove t => (filter (λ c, token c ≠ t) s.1, s.2)
  | Invoke _ => s
  end.

(** Callbacks that add callbacks, and remove some of those before [bound] *)
Definition simple_action (bound : Z) (a : Action) : Prop :=
  match a with Add _ => True | Remove t => t < bound | Invoke _ => False end.

(** ** The loop *)

(** [front] has been called (or is being called), [todo] is still to be called
    in this round, and [fresh] has been added. *)
Record in_round (bound : Z) (front todo fresh : list Registration) (n : ConnectionChangeNotifier) : Prop := {
  ir_callbacks : m_callbacks n = front ++ todo ++ fresh;
  ir_tokens : NoDup (token <$> m_callbacks n);
  ir_old : Forall (λ c, token c < bound) (front ++ todo);
  ir_fresh : Forall (λ c, bound ≤ token c < m_next_token n) fresh;
  ir_next : 0 ≤ bound ≤ m_next_token n ∧ m_next_token n < size_modulus;
  ir_index : m_callback_index n = wrap (Z.of_nat (length front) - 1);
  ir_count : m_callback_count n = Z.of_nat (length front + length todo);
  ir_size : Z.of_nat (length front + length todo) < npos }.

(** Removing a token from a list of distinct tokens *)
Notation without t l := (filter (λ c, token c ≠ t) l).

Lemma without_absent t (l : list Registration) : ¬ t ∈ token <$> l → without t l = l.
Proof.
  intros Ht. apply filter_all, Forall_forall. intros c Hc E. apply Ht. rewrite <-E. by apply list_elem_of_fmap_2.
Qed.

Lemma find_present t (l : list Registration) :
  NoDup (token <$> l) → t ∈ token <$> l →
  let idx := find_if (λ c, token c =? t) l in
  (idx < length l)%nat ∧ without t l = take idx l ++ drop (S idx) l ∧ S (length (without t l)) = length l.
Proof.
  intros Hnd Ht. cbv zeta. destruct (find_if_spec (λ c, token c =? t) l) as (l1&l2&Hl&Hi&H1&H2).
  rewrite Hi. subst l. destruct l2 as [|c l2].
  { exfalso. rewrite app_nil_r in Ht. apply list_elem_of_fmap in Ht as (c&->&Hc).
    rewrite Forall_forall in H1. specialize (H1 c Hc). simpl in H1. by rewrite Z.eqb_refl in H1. }
  apply Z.eqb_eq in H2. rewrite fmap_app, fmap_cons in Hnd. apply NoDup_app in Hnd as (_&Hd&[Hc _]%NoDup_cons).
  assert (without t (l1 ++ c :: l2) = l1 ++ l2) as ->.
  { rewrite filter_app, filter_cons, decide_False by tauto. rewrite !without_absent; [done|by rewrite <-H2|].
    intros Hin. apply (Hd t Hin). rewrite H2. by constructor. }
  rewrite !length_app, take_app_length. simpl.
  rewrite drop_app_ge, Nat.sub_succ_l, Nat.sub_diag by lia. split; [lia|]. split; [done|lia].
Qed.

Lemma find_absent t (l : list Registration) :
  ¬ t ∈ token <$> l → find_if (λ c, token c =? t) l = length l.
Proof.
  induction l as [|c l IH]; intros Ht; [done|]. rewrite fmap_cons, elem_of_cons in Ht. simpl.
  rewrite (proj2 (Z.eqb_neq _ _)) by (intros E; apply Ht; by left). rewrite IH; [done|tauto].
Qed.

Lemma find_in_front t (l l' : list Registration) :
  t ∈ token <$> l → find_if (λ c, token c =? t) (l ++ l') = find_if (λ c, token c =? t) l.
Proof.
  induction l as [|c l IH]; [by intros ?%elem_of_nil|]. rewrite fmap_cons. intros Hin. simpl.
  destruct (Z.eqb_spec (token c) t); [done|]. f_equal. apply IH.
  apply elem_of_cons in Hin as [E|]; [congruence|done].
Qed.

(** [remove_callback] takes the registration out of the vector; the index and
    the count go down as its position asks for. *)
Lemma remove_present t n :
  NoDup (token <$> m_callbacks n) → t ∈ token <$> m_callbacks n →
  remove_callback t n = mkNotifier (without t (m_callbacks n))
    (if negb (m_callback_index n =? npos) && (Z.of_nat (find_if (λ c, token c =? t) (m_callbacks n)) <=? m_callback_index n)
     then m_callback_index n -w 1 else m_callback_index n)
    (m_callback_count n -w 1) (m_next_token n).
Proof.
  intros Hnd Ht. destruct (find_present t _ Hnd Ht) as (Hlt&Hw&_). unfold remove_callback.
  rewrite (proj2 (Nat.eqb_neq _ _)) by lia. rewrite Hw. by destruct (negb _).
Qed.

Lemma remove_absent t n : ¬ t ∈ token <$> m_callbacks n → remove_callback t n = n.
Proof. intros Ht. unfold remove_callback. by rewrite find_absent, Nat.eqb_refl. Qed.

Lemma wrap_pred k : 0 < k < size_modulus → wrap k -w 1 = wrap (k - 1).
Proof. intros Hk. unfold wsub, wrap. by rewrite (Z.mod_small k) by lia. Qed.

Lemma without_NoDup t (l : list Registration) : NoDup (token <$> l) → NoDup (token <$> without t l).
Proof. intros Hnd. eapply sublist_NoDup; [exact Hnd|]. apply fmap_sublist, sublist_filter. Qed.

(** One action of a callback *)
Lemma add_in_round invoke bound front todo fresh n log f :
  in_round bound front todo fresh n → m_next_token n + 1 < size_modulus →
  ∃ n', run_action invoke (n, log) (Add f) = Some (n', log) ∧
    (m_callbacks n', m_next_token n') = pure_action (m_callbacks n, m_next_token n) (Add f) ∧
    in_round bound front todo (fresh ++ [mkRegistration f (m_next_token n)]) n' ∧
    m_next_token n' = m_next_token n + 1.
Proof.
  intros [R1 R2 R3 R4 R5 R6 R7 R8] Hnext.
  assert (m_next_token n +w 1 = m_next_token n + 1) as E
    by (unfold wadd, wrap; apply Z.mod_small; unfold size_modulus in *; lia).
  eexists. split; [done|]. split; [done|]. split; [|done]. split; simpl; rewrite ?E; try done.
  - rewrite R1. by rewrite <-!app_assoc.
  - rewrite fmap_app. apply NoDup_app. split; [done|]. split; [|apply NoDup_singleton].
    intros u Hu ->%list_elem_of_singleton. simpl in Hu. apply list_elem_of_fmap in Hu as (c&Ec&Hc).
    rewrite R1, (assoc_L (++)) in Hc. rewrite Forall_forall in R3, R4.
    apply elem_of_app in Hc as [Hc|Hc]; [specialize (R3 c Hc)|specialize (R4 c Hc)]; simpl in *; lia.
  - apply Forall_app. split; [|constructor; [simpl; lia|constructor]].
    eapply Forall_impl; [exact R4|]. simpl. lia.
  - unfold size_modulus in *. lia.
Qed.

Lemma remove_in_round bound front todo fresh n t :
  in_round bound front todo fresh n → t < bound →
  in_round bound (without t front) (without t todo) fresh (remove_callback t n) ∧
  m_callbacks (remove_callback t n) = without t (m_callbacks n).
Proof.
  intros R Ht. pose proof R as [R1 R2 R3 R4 R5 R6 R7 R8].
  assert (without t fresh = fresh) as Hfresh.
  { apply without_absent. intros (c&->&Hc)%list_elem_of_fmap. rewrite Forall_forall in R4.
    specialize (R4 c Hc). simpl in R4. lia. }
  assert (NoDup (token <$> front) ∧ NoDup (token <$> todo) ∧ ∀ u, u ∈ token <$> front → ¬ u ∈ token <$> todo)
    as (N1&N2&N12).
  { rewrite R1, !fmap_app in R2. apply NoDup_app in R2 as (?&Hd&[? _]%NoDup_app). split; [done|]. split; [done|].
    intros u Hu Hu'. apply (Hd u Hu). apply elem_of_app. by left. }
  destruct (decide (t ∈ token <$> m_callbacks n)) as [Hin|Hno].
  2:{ rewrite (remove_absent t n Hno), (without_absent t (m_callbacks n) Hno).
      rewrite R1, !fmap_app, !elem_of_app in Hno. rewrite !without_absent by tauto. by split. }
  rewrite (remove_present t n R2 Hin). split; [|done].
  assert (t ∈ token <$> front ∨ t ∈ token <$> todo) as Hwhere.
  { rewrite R1, !fmap_app, !elem_of_app in Hin. destruct Hin as [|[|H]]; [by left|by right|].
    exfalso. apply list_elem_of_fmap in H as (c&->&Hc). rewrite Forall_forall in R4. specialize (R4 c Hc).
    simpl in R4. lia. }
  assert (Z.of_nat (length front + length todo) < size_modulus) as Hsize by (unfold npos, size_modulus in *; lia).
  assert (length (without t front) + length (without t todo) = length front + length todo - 1 ∧
    0 < length front + length todo)%nat as [Hlen Hpos].
  { destruct Hwhere as [H|H].
    - destruct (find_present t front N1 H) as (?&_&?). rewrite (without_absent t todo (N12 t H)). lia.
    - destruct (find_present t todo N2 H) as (?&_&?). rewrite (without_absent t front); [lia|].
      intros H'. by apply (N12 t H'). }
  split; cbn [m_callbacks m_callback_index m_callback_count m_next_token]; try done.
  - rewrite R1, !filter_app, Hfresh. done.
  - by apply without_NoDup.
  - rewrite <-filter_app. by apply Forall_filter.
  - rewrite R6. destruct (decide (t ∈ token <$> front)) as [Hf|Hf].
    + destruct (find_present t front N1 Hf) as (Hlt&_&Hl). rewrite <-Hl in *.
      assert (find_if (λ c, Z.eqb (token c) t) (m_callbacks n) < S (length (without t front)))%nat as Hidx
        by (rewrite R1, find_in_front by done; exact Hlt).
      replace (Z.of_nat (S (length (without t front))) - 1) with (Z.of_nat (length (without t front))) by lia.
      rewrite (wrap_small (Z.of_nat (length (without t front)))) by slia.
      rewrite (proj2 (Z.eqb_neq _ _)) by slia. simpl. rewrite (proj2 (Z.leb_le _ _)) by lia. done.
    + rewrite (without_absent t front Hf).
      assert (Z.of_nat (length front) ≤ Z.of_nat (find_if (λ c, token c =? t) (m_callbacks n))) as Hidx.
      { rewrite R1, find_if_app; [lia|]. apply Forall_forall. intros c Hc. simpl. apply Z.eqb_neq. intros E.
        apply Hf. rewrite <-E. by apply list_elem_of_fmap_2. }
      destruct (Nat.eq_dec (length front) O) as [E0|E0].
      * rewrite E0. done.
      * rewrite (wrap_small (Z.of_nat (length front) - 1)) by slia.
        rewrite (proj2 (Z.leb_gt _ _)) by lia. by rewrite andb_false_r.
  - rewrite R7, Hlen. unfold wsub, wrap. rewrite Z.mod_small by lia. lia.
  - lia.
Qed.

(** What the actions of one callback do to a round *)
Definition round_step bound todo (n n' : ConnectionChangeNotifier) : Prop :=
  ∃ front' fresh', in_round bound front' (filter (λ c, c ∈ m_callbacks n') todo) fresh' n' ∧
    ∀ c, c ∈ m_callbacks n' → token c < bound → c ∈ m_callbacks n.

Lemma step_refl bound front todo fresh n : in_round bound front todo fresh n → round_step bound todo n n.
Proof.
  intros R. exists front, fresh. rewrite filter_all; [by split|]. apply Forall_forall. intros c Hc.
  rewrite (ir_callbacks _ _ _ _ _ R), !elem_of_app. tauto.
Qed.

Lemma action_ok invoke bound front todo fresh n log a :
  in_round bound front todo fresh n → simple_action bound a → m_next_token n + 1 < size_modulus →
  ∃ n', run_action invoke (n, log) a = Some (n', log) ∧
    (m_callbacks n', m_next_token n') = pure_action (m_callbacks n, m_next_token n) a ∧
    round_step bound todo n n' ∧ m_next_token n' ≤ m_next_token n + 1.
Proof.
  intros R Ha Hnext. pose proof (ir_callbacks _ _ _ _ _ R) as Hcb. destruct a as [f|t|]; [| |done].
  - destruct (add_in_round invoke _ _ _ _ _ log f R Hnext) as (n'&H1&H2&H3&H4). exists n'.
    split; [done|]. split; [done|]. split; [|lia]. pose proof H2 as [= Hc' _]. eexists _, _. split.
    { rewrite filter_all; [exact H3|]. apply Forall_forall. intros c Hc. rewrite Hc', Hcb, !elem_of_app. tauto. }
    intros c. rewrite Hc', elem_of_app, list_elem_of_singleton. intros [?| ->]; [done|]. simpl.
    pose proof (ir_next _ _ _ _ _ R). lia.
  - destruct (remove_in_round _ _ _ _ _ _ R Ha) as [R' Hc']. exists (remove_callback t n). split; [done|].
    split.
    { rewrite Hc'. simpl. f_equal. unfold remove_callback. by destruct (_ =? _)%nat. }
    split; [|unfold remove_callback; destruct (_ =? _)%nat; simpl; lia]. eexists _, _. split.
    { erewrite filter_ext_in; [exact R'|]. intros c Hc. rewrite Hc', list_elem_of_filter, Hcb, !elem_of_app. tauto. }
    intros c. rewrite Hc', list_elem_of_filter. tauto.
Qed.

Lemma actions_ok invoke bound todo log acts : ∀ front fresh n,
  in_round bound front todo fresh n → Forall (simple_action bound) acts →
  m_next_token n + Z.of_nat (length acts) < size_modulus →
  ∃ n', foldlM (run_action invoke) (n, log) acts = Some (n', log) ∧
    (m_callbacks n', m_next_token n') = foldl pure_action (m_callbacks n, m_next_token n) acts ∧
    round_step bound todo n n' ∧ m_next_token n' ≤ m_next_token n + Z.of_nat (length acts).
Proof.
  revert todo. induction acts as [|a acts IH]; intros todo front fresh n R Hacts Hnext.
  { exists n. split; [done|]. split; [done|]. split; [by eapply step_refl|simpl; lia]. }
  apply Forall_cons in Hacts as [Ha Hacts]. simpl in Hnext.
  destruct (action_ok invoke _ _ _ _ _ log a R Ha) as (n1&E1&P1&(front1&fresh1&R1&S1)&L1); [lia|].
  destruct (IH _ _ _ _ R1 Hacts) as (n2&E2&P2&(front2&fresh2&R2&S2)&L2); [lia|].
  exists n2. simpl. rewrite E1. simpl. split; [exact E2|]. rewrite <-P1. split; [exact P2|]. split; [|lia].
  pose proof (ir_old _ _ _ _ _ R) as Hold. rewrite Forall_app, (Forall_forall _ todo) in Hold.
  exists front2, fresh2. split; [|by auto]. rewrite list_filter_filter in R2.
  erewrite filter_ext_in; [exact R2|]. intros c Hc. split; [|tauto]. intros Hc2. split; [done|].
  apply S2; [done|]. by apply Hold.
Qed.

(** ** The whole round *)
Section Deliver.
Context (behaviour : Registration → nat → list Action).

(** The callbacks registered at the start are called in order, unless they have
    been removed. *)
Fixpoint deliver (change : nat) (snapshot : list Registration) (s : list Registration * Z) :
    list Registration * (list Registration * Z) :=
  match snapshot with
  | [] => ([], s)
  | c :: snapshot =>
      if decide (c ∈ s.1) then
        let r := deliver change snapshot (foldl pure_action s (behaviour c change)) in (c :: r.1, r.2)
      else deliver change snapshot s
  end.

Notation total change l := (sum_list_with (λ c, length (behaviour c change)) l).

Lemma next_index bound front todo fresh n :
  in_round bound front todo fresh n → m_callback_index n +w 1 = Z.of_nat (length front).
Proof.
  intros R. pose proof (ir_size _ _ _ _ _ R). rewrite (ir_index _ _ _ _ _ R). unfold wadd, wrap.
  rewrite Z.add_mod_idemp_l by slia. rewrite Z.mod_small by slia. lia.
Qed.

Lemma next_turn bound front c todo fresh n :
  in_round bound front (c :: todo) fresh n →
  in_round bound (front ++ [c]) todo fresh
    (mkNotifier (m_callbacks n) (m_callback_index n +w 1) (m_callback_count n) (m_next_token n)).
Proof.
  intros R. pose proof (next_index _ _ _ _ _ R) as Hidx. destruct R as [R1 R2 R3 R4 R5 R6 R7 R8]. simpl in R7, R8.
  split; cbn [m_callbacks m_callback_index m_callback_count m_next_token]; rewrite ?length_app; simpl;
    rewrite <-?app_assoc; try done; [|lia..].
  rewrite Hidx, wrap_small by slia. lia.
Qed.

Lemma loop_ok invoke change bound snapshot : ∀ fuel front fresh n log,
  in_round bound front (filter (λ c, c ∈ m_callbacks n) snapshot) fresh n →
  Forall (λ c, token c < bound ∧ Forall (simple_action bound) (behaviour c change)) snapshot →
  m_next_token n + Z.of_nat (total change snapshot) < size_modulus → (length snapshot < fuel)%nat →
  let r := deliver change snapshot (m_callbacks n, m_next_token n) in
  ∃ count : Z,
    invoke_loop behaviour invoke fuel change
      (mkNotifier (m_callbacks n) (m_callback_index n +w 1) (m_callback_count n) (m_next_token n), log) =
      Some (mkNotifier r.2.1 npos count r.2.2, log ++ ((λ c, (c, change)) <$> r.1)).
Proof.
  induction snapshot as [|c snapshot IH]; intros fuel front fresh n log R Hs Hnext Hfuel.
  { cbv zeta. eexists. destruct fuel as [|fuel]; [simpl in Hfuel; lia|]. simpl.
    rewrite (next_index _ _ _ _ _ R), (ir_count _ _ _ _ _ R). simpl.
    rewrite (proj2 (Z.ltb_ge _ _)), app_nil_r by lia. done. }
  apply Forall_cons in Hs as [[Hc Hacts] Hs]. simpl in Hnext, Hfuel. rewrite filter_cons in R. cbv zeta. simpl deliver.
  destruct (decide (c ∈ m_callbacks n)) as [Hin|Hno].
  2:{ eapply IH; [exact R|done|lia|lia]. }
  destruct fuel as [|fuel]; [lia|]. simpl invoke_loop.
  pose proof (next_turn _ _ _ _ _ _ R) as R0. rewrite (next_index _ _ _ _ _ R) in *.
  rewrite (ir_count _ _ _ _ _ R) in *. cbn [length] in *. rewrite (proj2 (Z.ltb_lt _ _)) by lia.
  rewrite Nat2Z.id.
  assert (m_callbacks n !! length front = Some c) as ->
    by (rewrite (ir_callbacks _ _ _ _ _ R); by apply list_lookup_middle).
  cbn [mbind option_bind].
  destruct (actions_ok invoke _ _ (log ++ [(c, change)]) _ _ _ _ R0 Hacts) as (n'&->&HP&(front'&fresh'&R'&S')&L);
    [simpl; lia|]. simpl in HP |- *. rewrite <-HP. rewrite list_filter_filter in R'.
  destruct (IH fuel front' fresh' n' (log ++ [(c, change)])) as (count&E); [|done|simpl in L; lia|lia|].
  - erewrite filter_ext_in; [exact R'|]. intros d Hd. split; [|tauto]. intros Hd'. split; [done|].
    apply S'; [done|]. rewrite Forall_forall in Hs. by apply Hs.
  - exists count. rewrite E. by rewrite <-app_assoc.
Qed.
End Deliver.

(** A vector of callbacks outside of a round *)
Definition idle (n : ConnectionChangeNotifier) : Prop :=
  NoDup (token <$> m_callbacks n) ∧ Forall (λ c, 0 ≤ token c < m_next_token n) (m_callbacks n) ∧
  Z.of_nat (length (m_callbacks n)) < npos ∧ m_callback_index n = npos ∧ 0 ≤ m_next_token n < size_modulus.

#[export] Instance simple_action_dec bound a : Decision (simple_action bound a).
Proof. destruct a; simpl; apply _. Defined.

#[export] Instance idle_dec n : Decision (idle n).
Proof. unfold idle. apply _. Defined.

Lemma idle_in_round n :
  idle n →
  in_round (m_next_token n) [] (m_callbacks n) []
    (mkNotifier (m_callbacks n) (m_callback_index n) (Z.of_nat (length (m_callbacks n))) (m_next_token n)).
Proof.
  intros (H1&H2&H3&H4&H5). split; cbn [m_callbacks m_callback_index m_callback_count m_next_token]; try done.
  - by rewrite app_nil_r.
  - eapply Forall_impl; [exact H2|]. simpl. lia.
  - lia.
Qed.

Lemma deliver_idle n behaviour change depth log :
  idle n →
  Forall (λ c, Forall (simple_action (m_next_token n)) (behaviour c change)) (m_callbacks n) →
  m_next_token n + Z.of_nat (sum_list_with (λ c, length (behaviour c change)) (m_callbacks n)) < size_modulus →
  let r := deliver behaviour change (m_callbacks n) (m_callbacks n, m_next_token n) in
  ∃ count : Z,
    invoke_callbacks behaviour (S depth) (S (length (m_callbacks n))) change (n, log) =
      Some (mkNotifier r.2.1 npos count r.2.2, log ++ ((λ c, (c, change)) <$> r.1)).
Proof.
  intros Hidle Hacts Hnext. pose proof (idle_in_round n Hidle) as R. destruct Hidle as (_&Htok&_).
  destruct (loop_ok behaviour (invoke_callbacks behaviour depth (S (length (m_callbacks n)))) change (m_next_token n)
    (m_callbacks n) (S (length (m_callbacks n))) [] []
    (mkNotifier (m_callbacks n) (m_callback_index n) (Z.of_nat (length (m_callbacks n))) (m_next_token n)) log) as (count&E); [| |exact Hnext|lia|].
  - rewrite filter_all; [exact R|]. by apply Forall_forall.
  - rewrite Forall_forall in Htok, Hacts. apply Forall_forall. intros c Hc. split; [by apply Htok|by apply Hacts].
  - exists count. exact E.
Qed.

(** ** The properties of a round *)
(** Callbacks told of a change may add callbacks and remove callbacks that
    were registered when the change came. Then exactly the callbacks
    registered at that time are called, in order, without those removed before
    their turn, and afterwards the additions and removals have taken place:
    the index and the count kept beside the vector never go wrong, although
    they wrap around. *)
Theorem callbacks_delivered n behaviour change depth log :
  idle n →
  Forall (λ c, Forall (simple_action (m_next_token n)) (behaviour c change)) (m_callbacks n) →
  m_next_token n + Z.of_nat (sum_list_with (λ c, length (behaviour c change)) (m_callbacks n)) < size_modulus →
  let r := deliver behaviour change (m_callbacks n) (m_callbacks n, m_next_token n) in
  ∃ n', invoke_callbacks behaviour (S depth) (S (length (m_callbacks n))) change (n, log) =
      Some (n', log ++ ((λ c, (c, change)) <$> r.1)) ∧
    m_callbacks n' = r.2.1 ∧ m_next_token n' = r.2.2 ∧ m_callback_index n' = npos.
Proof.
  intros Hidle Hacts Hnext. destruct (deliver_idle n behaviour change depth log Hidle Hacts Hnext) as [count E].
  eexists. split; [exact E|done].
Qed.

(** Three callbacks; the second removes itself and the first, adds one and
    removes the third. *)
Definition three : ConnectionChangeNotifier :=
  (add_callback 12 (add_callback 11 (add_callback 10 empty).2).2).2.

Definition busy (c : Registration) (change : nat) : list Action :=
  match fn c with 11%nat => [Remove 1; Remove 0; Add 13; Remove 2] | _ => [] end.

Lemma callbacks_delivered_witness :
  idle three ∧ ∃ n', invoke_callbacks busy 1 4 0 (three, []) =
    Some (n', [(mkRegistration 10 0, 0%nat); (mkRegistration 11 1, 0%nat)]) ∧
    m_callbacks n' = [mkRegistration 13 3] ∧ m_next_token n' = 4 ∧ m_callback_index n' = npos.
Proof.
  split; [by_decision|].
  apply (callbacks_delivered three busy 0 0 []); by_decision.
Defined.

(** A callback that adds a callback and removes it again, while it is
    called, makes the round end early: [remove_callback] counts the new
    callback among those of the round, and the second callback is not told of
    the change. *)
Theorem added_and_removed_ends_round :
  let behaviour c change := if (fn c =? 10)%nat then [Add 13; Remove 3] else [] in
  (∃ n', invoke_callbacks behaviour 1 5 0 (three, []) =
     Some (n', [(mkRegistration 10 0, 0%nat); (mkRegistration 11 1, 0%nat)])) ∧
  (deliver behaviour 0 (m_callbacks three) (m_callbacks three, m_next_token three)).1 = m_callbacks three.
Proof. split; [eexists|]; by vm_compute. Qed.

(** A callback that causes another change and then removes itself: the
    index of the round is lost in the nested round, the first callback is told
    of the first change twice and never of the second. *)
Theorem nested_change_repeats :
  let behaviour c change :=
    match fn c, change with 11%nat, 0%nat => [Invoke 1; Remove 1] | _, _ => [] end in
  ∃ n', invoke_callbacks behaviour 2 5 0 (three, []) =
    Some (n', [(mkRegistration 10 0, 0%nat); (mkRegistration 11 1, 0%nat); (mkRegistration 12 2, 1%nat);
               (mkRegistration 10 0, 0%nat); (mkRegistration 12 2, 0%nat)]).
Proof. eexists. by vm_compute. Qed.
