(* ===== verification/DeepChange.v ===== *)
(** [realm::_impl::DeepChangeChecker] (ObjectStore/src/impl/collection_notifier.cpp
    and its header): whether a row, or a row it links to over a few links, was
    modified by a transaction.  The tables of the database core are a
    parameter, with the laws its documentation gives. *)
From S2P Require Import Prelude ChunkedRangeVector IndexSetSpec ChangeBuilder.

(** ** What a transaction changed *)

(** [ListChangeInfo]: [changes] is a pointer, here the identity of a builder. *)
Record ListChangeInfo := mkListChangeInfo {
  list_table_ndx : Z;
  list_row_ndx : Z;
  list_col_ndx : Z;
  list_changes : nat }.

Record TransactionChangeInfo (T : Type) := mkTransactionChangeInfo {
  table_modifications_needed : list bool;
  table_moves_needed : list bool;
  lists : list ListChangeInfo;
  tables : list (CollectionChangeBuilder T);
  column_indices : list (list Z);
  table_indices : list Z;
  track_all : bool;
  schema_changed : bool }.
Arguments mkTransactionChangeInfo {T} _ _ _ _ _ _ _ _.
Arguments table_modifications_needed {T} _.
Arguments table_moves_needed {T} _.
Arguments lists {T} _.
Arguments tables {T} _.
Arguments column_indices {T} _.
Arguments table_indices {T} _.
Arguments track_all {T} _.
Arguments schema_changed {T} _.

(** ** Tables of the core *)

(** The types of columns: all but the two link types are alike here. *)
Inductive ColumnType := type_Link | type_LinkList | type_Other.

Class LinkTables (Table : Type) := {
  group_size : nat;
  get_index_in_group : Table → Z;
  get_column_count : Table → nat;
  get_column_type : Table → nat → ColumnType;
  get_link_target : Table → nat → Table;
  is_null_link : Table → nat → Z → bool;
  get_link : Table → nat → Z → Z;
  (** the rows of [get_linklist], in order *)
  get_linklist : Table → nat → Z → list Z }.

(** A table of the group *)
Definition group_level `{LinkTables Table} (t : Table) : Prop :=
  0 ≤ get_index_in_group t < Z.of_nat group_size.

Class LinkTablesLaws (Table : Type) `{LinkTables Table} := {
  group_size_fits : Z.of_nat group_size < npos;
  (** the index of a table that is not at group level is npos *)
  index_in_group t : group_level t ∨ get_index_in_group t = npos;
  (** tables of the group are told apart by their index *)
  index_inj t t' : group_level t → get_index_in_group t = get_index_in_group t' → t = t';
  (** only tables of the group are targets of links, and links lead to rows *)
  target_group_level t i : get_column_type t i ≠ type_Other → group_level (get_link_target t i);
  link_range t i r : is_null_link t i r = false → 0 ≤ get_link t i r < npos;
  linklist_range t i r : Forall (λ r', 0 ≤ r' < npos) (get_linklist t i r) }.

(** ** The checker *)
Record OutgoingLink := mkOutgoingLink { col_ndx : nat; is_list : bool }.
Record RelatedTable := mkRelatedTable { table_ndx : Z; links : list OutgoingLink }.

Record Path := mkPath {
  path_table : Z;
  path_row : Z;
  path_col : nat;
  depth_exceeded : bool }.

(** The fields that change; the others are arguments. *)
Record DeepChangeChecker (T : Type) := mkChecker {
  m_not_modified : list T;
  m_current_path : list Path }.
Arguments mkChecker {T} _ _.
Arguments m_not_modified {T} _.
Arguments m_current_path {T} _.

(** [std::any_of] and the loops that return on the first success: the
    predicate may change the checker. *)
Fixpoint any_of {A S} (f : A → S → option (bool * S)) (l : list A) (s : S) : option (bool * S) :=
  match l with
  | [] => Some (false, s)
  | x :: l =>
      o ← f x s;
      let '(found, s) := o in
      if (found : bool) then Some (true, s) else any_of f l s
  end.

Module DeepChange.
Section Operations.
Context {T : Type} {ops : IndexSetOps T} {Table : Type} {core : LinkTables Table}.
Implicit Types (s : DeepChangeChecker T) (t table : Table) (row_ndx idx : Z) (depth : nat).

(** [out[out_index].links.push_back] *)
Definition add_link (out_index : nat) (l : OutgoingLink) (out : list RelatedTable) : list RelatedTable :=
  alter (λ r, mkRelatedTable (table_ndx r) (links r ++ [l])) out_index out.

(** A turn of the loop over the columns *)
Definition related_column (rec : list RelatedTable → Table → option (list RelatedTable))
    (table : Table) (out_index : nat) (out : list RelatedTable) (i : nat) : option (list RelatedTable) :=
  match get_column_type table i with
  | type_Link => rec (add_link out_index (mkOutgoingLink i false) out) (get_link_target table i)
  | type_LinkList => rec (add_link out_index (mkOutgoingLink i true) out) (get_link_target table i)
  | type_Other => Some out
  end.

Fixpoint find_related_tables (fuel : nat) (out : list RelatedTable) (table : Table) :
    option (list RelatedTable) :=
  match fuel with
  | O => None
  | S fuel =>
      let ndx := get_index_in_group table in
      if ndx =? npos then Some out
      else if existsb (λ tbl, table_ndx tbl =? ndx) out then Some out
      else
        let out_index := length out in
        foldlM (related_column (find_related_tables fuel) table out_index)
          (out ++ [mkRelatedTable ndx []]) (seq 0 (get_column_count table))
  end.

(** [CollectionNotifier::set_table]; each nested call that goes on adds a table
    of the group. *)
Definition set_table (table : Table) : option (list RelatedTable) :=
  find_related_tables (S group_size) [] table.

Section Checker.
Context (m_info : TransactionChangeInfo T) (m_related_tables : list RelatedTable).

Definition with_path s (p : list Path) : DeepChangeChecker T := mkChecker (m_not_modified s) p.
Definition with_not_modified s (l : list T) : DeepChangeChecker T := mkChecker l (m_current_path s).

Definition exceed (p : Path) : Path := mkPath (path_table p) (path_row p) (path_col p) true.

(** [already_checking(col)] *)
Definition already_checking (ndx row_ndx : Z) (depth col : nat) s :
    option (bool * DeepChangeChecker T) :=
  let path := m_current_path s in
  let match_ := find_if (λ p, (path_table p =? ndx) && (path_row p =? row_ndx) &&
                              (path_col p =? col)%nat) (take depth path) in
  if (match_ <? length (take depth path))%nat then
    Some (true, with_path s (imap (λ i p, if (match_ <=? i)%nat && (i <? depth)%nat
                                          then exceed p else p) path))
  else
    _ ← path !! depth;
    Some (false, with_path s (<[depth := mkPath ndx row_ndx col false]> path)).

Section Outgoing.
Context (check_row : Table → Z → nat → DeepChangeChecker T → option (bool * DeepChangeChecker T)).

(** [linked_object_changed(link)] *)
Definition linked_object_changed (ndx : Z) table row_ndx depth (link : OutgoingLink) s :
    option (bool * DeepChangeChecker T) :=
  '(checking, s) ← already_checking ndx row_ndx depth (col_ndx link) s;
  if (checking : bool) then Some (false, s)
  else
    let target := get_link_target table (col_ndx link) in
    if negb (is_list link) then
      if is_null_link table (col_ndx link) row_ndx then Some (false, s)
      else check_row target (get_link table (col_ndx link) row_ndx) (S depth) s
    else any_of (λ dst, check_row target dst (S depth)) (get_linklist table (col_ndx link) row_ndx) s.

Definition check_outgoing_links (ndx : Z) table row_ndx depth s : option (bool * DeepChangeChecker T) :=
  match m_related_tables !! find_if (λ tbl, table_ndx tbl =? ndx) m_related_tables with
  | None => Some (false, s)
  | Some it => any_of (linked_object_changed ndx table row_ndx depth) (links it) s
  end.
End Outgoing.

(** [depth > 0 && table_ndx < m_info.tables.size() && ...contains(idx)] *)
Definition modified_here (ndx idx : Z) depth : option bool :=
  if (0 <? depth)%nat && (ndx <? Z.of_nat (length (tables m_info))) then
    c ← tables m_info !! Z.to_nat ndx; set_contains (modifications (changes c)) idx
  else Some false.

(** [!ret && (depth == 0 || !m_current_path[depth - 1].depth_exceeded)] *)
Definition may_cache (ret : bool) depth s : option bool :=
  if ret then Some false
  else match depth with
       | O => Some true
       | S d => p ← m_current_path s !! d; Some (negb (depth_exceeded p))
       end.

Fixpoint check_row (fuel : nat) table idx depth s : option (bool * DeepChangeChecker T) :=
  match fuel with
  | O => None
  | S fuel =>
      if (length (m_current_path s) <=? depth)%nat then
        Some (false, with_path s (exceed <$> m_current_path s))
      else
        let ndx := get_index_in_group table in
        modified ← modified_here ndx idx depth;
        if (modified : bool) then Some (true, s)
        else
          let s := if Z.of_nat (length (m_not_modified s)) <=? ndx
                   then with_not_modified s (resize (Z.to_nat (ndx +w 1)) set_nil (m_not_modified s))
                   else s in
          rows ← m_not_modified s !! Z.to_nat ndx;
          cached ← set_contains rows idx;
          if (cached : bool) then Some (false, s)
          else
            '(ret, s) ← check_outgoing_links (check_row fuel) ndx table idx depth s;
            add ← may_cache ret depth s;
            if (add : bool) then
              rows ← m_not_modified s !! Z.to_nat ndx;
              rows ← set_add rows idx;
              Some (ret, with_not_modified s (<[Z.to_nat ndx := rows]> (m_not_modified s)))
            else Some (ret, s)
  end.

(** The constructor; [m_current_path] is not initialised. *)
Definition make (m_current_path : list Path) : DeepChangeChecker T := mkChecker [] m_current_path.

Definition m_root_modifications (m_root_table : Table) : option T :=
  let ndx := get_index_in_group m_root_table in
  if ndx <? Z.of_nat (length (tables m_info)) then
    c ← tables m_info !! Z.to_nat ndx; Some (modifications (changes c))
  else None.

(** [operator()]; a call passes at most one more level than the path has. *)
Definition call (m_root_table : Table) (ndx : Z) s : option (bool * DeepChangeChecker T) :=
  in_root ← match m_root_modifications m_root_table with
            | Some m => set_contains m ndx
            | None => Some false
            end;
  if (in_root : bool) then Some (true, s)
  else check_row (S (length (m_current_path s))) m_root_table ndx 0 s.

(** [CollectionNotifier::get_modification_checker]: the function it returns *)
Inductive ModificationChecker :=
  | no_modifications
  | direct_modifications (modifications : T)
  | deep_modifications (checker : DeepChangeChecker T).

Definition table_modified (tbl : RelatedTable) : bool :=
  (table_ndx tbl <? Z.of_nat (length (tables m_info))) &&
  match tables m_info !! Z.to_nat (table_ndx tbl) with
  | Some c => negb (set_empty (modifications (changes c)))
  | None => false
  end.

End Checker.

(** The result comes with the related tables, which are found anew when the
    schema changed. *)
Definition get_modification_checker (m_related_tables : list RelatedTable)
    (m_current_path : list Path) (info : TransactionChangeInfo T) (root_table : Table) :
    option (ModificationChecker * list RelatedTable) :=
  related ← (if schema_changed info then set_table root_table else Some m_related_tables);
  if negb (existsb (table_modified info) related) then Some (no_modifications, related)
  else
    match related with
    | [tbl] => c ← tables info !! Z.to_nat (table_ndx tbl);
               Some (direct_modifications (modifications (changes c)), related)
    | _ => Some (deep_modifications (make m_current_path), related)
    end.

(** Calling it *)
Definition check_modified (info : TransactionChangeInfo T) (related : list RelatedTable)
    (root_table : Table) (f : ModificationChecker) (ndx : Z) : option (bool * ModificationChecker) :=
  match f with
  | no_modifications => Some (false, f)
  | direct_modifications m => b ← set_contains m ndx; Some (b, f)
  | deep_modifications s =>
      '(b, s) ← call info related root_table ndx s; Some (b, deep_modifications s)
  end.

(** Any number of calls, one after the other *)
Fixpoint checks (info : TransactionChangeInfo T) (related : list RelatedTable)
    (root_table : Table) (f : ModificationChecker) (rows : list Z) : option (list bool) :=
  match rows with
  | [] => Some []
  | r :: rows =>
      '(b, f) ← check_modified info related root_table f r;
      answers ← checks info related root_table f rows;
      Some (b :: answers)
  end.

End Operations.
End DeepChange.
