(* ===== verification/DeepChangeTables.v ===== *)
(** The tables reachable from a table: [find_related_tables] terminates and
    finds each of them once, with its link columns. *)
From stdpp Require Import relations.
From S2P Require Import Prelude ChunkedRangeVector IndexSetSpec ChangeBuilder DeepChange.
Import DeepChange.

Section Tables.
Context {Table : Type} {core : LinkTables Table} {laws : LinkTablesLaws Table}.
Implicit Types (t u : Table) (out new : list RelatedTable).

(** The link columns of a table *)
Definition outgoing t (i : nat) : list OutgoingLink :=
  match get_column_type t i with
  | type_Link => [mkOutgoingLink i false]
  | type_LinkList => [mkOutgoingLink i true]
  | type_Other => []
  end.

Definition link_columns t : list OutgoingLink := seq 0 (get_column_count t) ≫= outgoing t.

(** [t] has a column of links to [u]. *)
Definition table_link t u : Prop :=
  ∃ i, (i < get_column_count t)%nat ∧ get_column_type t i ≠ type_Other ∧ u = get_link_target t i.

Definition entry t : RelatedTable := mkRelatedTable (get_index_in_group t) (link_columns t).

Lemma elem_of_link_columns t l :
  l ∈ link_columns t ↔ ((col_ndx l < get_column_count t)%nat ∧
    get_column_type t (col_ndx l) = (if is_list l then type_LinkList else type_Link)).
Proof.
  unfold link_columns. rewrite list_elem_of_bind. unfold outgoing. destruct l as [i il]. simpl. split.
  - intros (j&Hl&Hj%elem_of_seq). destruct (get_column_type t j) eqn:E; apply list_elem_of_In in Hl; simpl in Hl;
      [destruct Hl as [[= <- <-]|[]]..|done]; (split; [lia|done]).
  - intros [Hi Ht]. exists i. rewrite elem_of_seq, Ht. split; [|lia]. destruct il; by apply list_elem_of_singleton.
Qed.

Lemma group_level_npos t : group_level t → get_index_in_group t ≠ npos.
Proof. unfold group_level. pose proof group_size_fits. lia. Qed.

Lemma table_link_group t u : table_link t u → group_level u.
Proof. intros (i&_&Ht&->). by apply target_group_level. Qed.

Lemma table_links_group t u : group_level t → rtc table_link t u → group_level u.
Proof. intros Hg Hl. induction Hl as [|x y z Hxy _ IH]; [done|]. by eapply IH, table_link_group. Qed.

(** ** The state of the search *)
Definition found out (ndx : Z) : Prop := ndx ∈ table_ndx <$> out.

#[local] Instance found_dec out ndx : Decision (found out ndx).
Proof. unfold found. apply _. Defined.

Definition in_range out : Prop :=
  NoDup (table_ndx <$> out) ∧ Forall (λ e, 0 ≤ table_ndx e < Z.of_nat group_size) out.

(** [e] describes a table reachable from [t], and the tables it links to are
    in [out]. *)
Definition finished t out (e : RelatedTable) : Prop :=
  ∃ u, group_level u ∧ rtc table_link t u ∧ e = entry u ∧
    ∀ v, table_link u v → found out (get_index_in_group v).

Lemma in_range_length out : in_range out → (length out ≤ group_size)%nat.
Proof.
  intros [Hnd Hin].
  rewrite <-(length_fmap table_ndx), <-(Nat2Z.id group_size), <-(length_seqZ 0).
  apply submseteq_length, NoDup_submseteq; [done|].
  intros x (e&->&He)%list_elem_of_fmap. rewrite elem_of_seqZ. rewrite Forall_forall in Hin.
  specialize (Hin e He). lia.
Qed.

Lemma found_app out new ndx : found out ndx → found (out ++ new) ndx.
Proof. unfold found. rewrite fmap_app, elem_of_app. auto. Qed.

Lemma finished_mono t t' out out' e :
  rtc table_link t' t → (∀ n, found out n → found out' n) → finished t out e → finished t' out' e.
Proof.
  intros Hr Hf (u&?&?&?&Hl). exists u. split_and!; [done|by eapply rtc_trans|done|].
  intros v Hv. by apply Hf, Hl.
Qed.

Lemma existsb_found out ndx : existsb (λ tbl, table_ndx tbl =? ndx) out = bool_decide (found out ndx).
Proof.
  apply eq_bool_prop_intro. rewrite bool_decide_spec. unfold found.
  rewrite Is_true_true, existsb_exists, list_elem_of_fmap. split.
  - intros (e&He%list_elem_of_In&Hn%Z.eqb_eq). eauto.
  - intros (e&->&He). exists e. rewrite Z.eqb_eq. split; [by apply list_elem_of_In|done].
Qed.

Lemma add_link_here out e new l :
  add_link (length out) l (out ++ e :: new) =
  out ++ mkRelatedTable (table_ndx e) (links e ++ [l]) :: new.
Proof. unfold add_link. by rewrite alter_app_r_alt, Nat.sub_diag by lia. Qed.

(** What a call of [find_related_tables] does. *)
Definition extends t out (r : option (list RelatedTable)) : Prop :=
  ∃ new, r = Some (out ++ new) ∧ in_range (out ++ new) ∧
    found (out ++ new) (get_index_in_group t) ∧ Forall (finished t (out ++ new)) new.

(** The loop over the columns of [t], after the columns of [done]: the entry of
    [t] has their links, and their targets have been searched. *)
Definition searched t out (seen : list nat) (cur : list RelatedTable) : Prop :=
  ∃ new, cur = out ++ mkRelatedTable (get_index_in_group t) (seen ≫= outgoing t) :: new ∧
    in_range cur ∧ Forall (finished t cur) new ∧
    ∀ i, i ∈ seen → get_column_type t i ≠ type_Other →
      found cur (get_index_in_group (get_link_target t i)).

Lemma found_entry out ndx ls ls' new n :
  found (out ++ mkRelatedTable ndx ls :: new) n → found (out ++ mkRelatedTable ndx ls' :: new) n.
Proof. unfold found. by rewrite !fmap_app, !fmap_cons. Qed.

Lemma in_range_entry out ndx ls ls' new :
  in_range (out ++ mkRelatedTable ndx ls :: new) → in_range (out ++ mkRelatedTable ndx ls' :: new).
Proof.
  unfold in_range. rewrite !fmap_app, !fmap_cons, !Forall_app, !Forall_cons. done.
Qed.

Lemma search_column t out seen i cur rec :
  (i < get_column_count t)%nat →
  (∀ out' u, in_range out' → group_level u → (length out < length out')%nat → extends u out' (rec out' u)) →
  searched t out seen cur →
  ∃ cur', related_column rec t (length out) cur i = Some cur' ∧ searched t out (seen ++ [i]) cur'.
Proof.
  intros Hi Hrec (new&->&Hr&Hnew&Hseen). unfold related_column.
  assert (∀ l, get_column_type t i ≠ type_Other → outgoing t i = [l] →
    ∃ cur', rec (add_link (length out) l
      (out ++ mkRelatedTable (get_index_in_group t) (seen ≫= outgoing t) :: new)) (get_link_target t i) = Some cur' ∧
      searched t out (seen ++ [i]) cur') as Hlink.
  { intros l Ht Hl. rewrite add_link_here. simpl.
    set (cur1 := out ++ _).
    assert (in_range cur1) as Hr1 by by eapply in_range_entry.
    destruct (Hrec cur1 (get_link_target t i)) as (new'&->&Hr'&Hf&Hnew'); [done|by apply target_group_level| |].
    { unfold cur1. rewrite length_app. simpl. lia. }
    assert (table_link t (get_link_target t i)) as Hstep by (exists i; done).
    assert (∀ n, found (out ++ mkRelatedTable (get_index_in_group t) (seen ≫= outgoing t) :: new) n →
              found (cur1 ++ new') n) as Hmono.
    { intros n Hn. apply found_app. by eapply found_entry. }
    eexists. split; [done|]. exists (new ++ new'). split_and!; [|done| |].
    - unfold cur1. rewrite bind_app. simpl. by rewrite Hl, app_nil_r, <-app_assoc.
    - apply Forall_app. split.
      + eapply Forall_impl; [done|]. intros e. by apply finished_mono.
      + eapply Forall_impl; [done|]. intros e. apply finished_mono; [by apply rtc_once|done].
    - intros j [Hj|Hj]%elem_of_app Hty; [by apply Hmono, Hseen|].
      by apply list_elem_of_singleton in Hj as ->. }
  destruct (get_column_type t i) eqn:E;
    [apply Hlink; [done|unfold outgoing; by rewrite E]..|].
  eexists. split; [done|]. exists new. split_and!; [|done..|].
  - assert (outgoing t i = []) as Ho by (unfold outgoing; by rewrite E).
    rewrite bind_app. simpl. by rewrite Ho, !app_nil_r.
  - intros j [Hj|Hj]%elem_of_app Hty; [by apply Hseen|]. by apply list_elem_of_singleton in Hj as ->.
Qed.

Lemma find_related_tables_extends fuel out t :
  in_range out → group_level t → (group_size < fuel + length out)%nat →
  extends t out (find_related_tables fuel out t).
Proof.
  revert out t. induction fuel as [|fuel IH]; intros out t Hr Ht Hfuel.
  { pose proof (in_range_length _ Hr). lia. }
  cbn [find_related_tables]. destruct (Z.eqb_spec (get_index_in_group t) npos) as [E|_].
  { by apply group_level_npos in E. }
  rewrite existsb_found. case_bool_decide as Hf.
  { exists []. by rewrite app_nil_r. }
  set (out1 := out ++ [mkRelatedTable (get_index_in_group t) []]).
  assert (in_range out1) as Hr1.
  { destruct Hr as [Hnd Hin]. split.
    - unfold out1. rewrite fmap_app. apply NoDup_app. split_and!; [done| |apply NoDup_singleton].
      by intros x Hx ->%list_elem_of_singleton.
    - apply Forall_app. split; [done|]. by apply Forall_singleton. }
  destruct (foldlM_spec (related_column (find_related_tables fuel) t (length out)) (searched t out)
    [] (seq 0 (get_column_count t)) out1) as (cur&->&new&->&Hrc&Hnew&Hseen).
  - intros l1 i l2 b Hl _ Hb. apply search_column; [| |done].
    + assert (i ∈ seq 0 (get_column_count t)) as Hi; [|by apply elem_of_seq in Hi; lia].
      simpl in Hl. rewrite Hl. apply elem_of_app. right. by left.
    + intros out' u Hr' Hu Hlen. apply IH; [done|done|lia].
  - exists []. split_and!; [done|done|constructor|]. by intros i ?%elem_of_nil.
  - eexists (mkRelatedTable _ _ :: new). split; [done|]. split; [done|]. split.
    + unfold found. rewrite fmap_app, fmap_cons, elem_of_app. right. by left.
    + constructor; [|done]. exists t. split_and!; [done|done|done|].
      intros v (i&Hi&Hty&->). apply Hseen; [|done]. apply elem_of_seq. lia.
Qed.

(** The entries are those of the tables reachable from the root, and the search
    for one by its index finds it. *)
Definition related_ok (root : Table) (related : list RelatedTable) : Prop :=
  NoDup (table_ndx <$> related) ∧
  ∀ e, e ∈ related ↔ ∃ t, rtc table_link root t ∧ e = entry t.

Lemma set_table_ok root : group_level root → ∃ related, set_table root = Some related ∧ related_ok root related.
Proof.
  intros Hg. unfold set_table.
  destruct (find_related_tables_extends (S group_size) [] root) as (new&->&[Hnd Hin]&Hf&Hfin);
    [by repeat constructor|done|simpl; lia|].
  exists new. simpl in *. split; [done|]. split; [done|]. rewrite Forall_forall in Hfin. intros e. split.
  - intros (u&_&?&->&_)%Hfin. eauto.
  - intros (t&Ht&->).
    assert (∀ u, found new (get_index_in_group u) → group_level u →
      entry u ∈ new ∧ ∀ v, table_link u v → found new (get_index_in_group v)) as Hentry.
    { intros u (e&He&Hin')%list_elem_of_fmap Hu. destruct (Hfin e Hin') as (u'&?&_&->&Hl).
      assert (u' = u) as -> by by apply index_inj. done. }
    assert (found new (get_index_in_group t) ∧ group_level t) as [Hft Hgt].
    { clear Hin Hfin. revert Hf Hg. induction Ht as [|x y z Hxy _ IH]; [done|]. intros Hf Hgx.
      apply IH; [by apply (Hentry x Hf Hgx)|by eapply table_link_group]. }
    by apply Hentry.
Qed.

Lemma set_table_nothing root : ¬ group_level root → set_table root = Some [].
Proof.
  intros Hg. unfold set_table. cbn [find_related_tables].
  destruct (index_in_group root) as [?| ->]; [done|]. by rewrite Z.eqb_refl.
Qed.

Lemma related_lookup root related t :
  related_ok root related → rtc table_link root t →
  related !! find_if (λ tbl, table_ndx tbl =? get_index_in_group t) related = Some (entry t).
Proof.
  intros [Hnd Hrel] Ht.
  destruct (list_elem_of_split related (entry t)) as (l1&l2&->); [apply Hrel; eauto|].
  rewrite fmap_app, fmap_cons in Hnd. apply NoDup_app in Hnd as (_&Hd&_).
  rewrite find_if_app.
  - simpl. rewrite Z.eqb_refl, Nat.add_0_r. apply lookup_app_here.
  - apply Forall_forall. intros e He. apply Z.eqb_neq. intros E.
    apply (Hd (table_ndx e)); [by apply list_elem_of_fmap_2|]. rewrite E. by left.
Qed.
End Tables.
