(* ===== verification/DeepChangeCheck.v ===== *)
(** The recursive check of [DeepChangeChecker] is exact: neither the rows it
    remembers as not modified nor the links it does not follow twice change an
    answer.  What a call of [check_row] promises, level by level: it finds a
    modified row within the limit if there is one, and only remembers rows from
    which none can be reached. *)
From stdpp Require Import relations.
From S2P Require Import Prelude ChunkedRangeVector IndexSetSpec ChangeBuilder DeepChange DeepChangeTables.
Import DeepChange.

(** ** Loops that stop at the first success *)
Lemma any_of_spec {A S} (f : A → S → option (bool * S)) (P : list A → S → Prop) (Q : S → Prop) :
  ∀ seen l s,
  (∀ l1 x l2 s, seen ++ l = l1 ++ x :: l2 → P l1 s →
    ∃ b s', f x s = Some (b, s') ∧ if (b : bool) then Q s' else P (l1 ++ [x]) s') →
  P seen s → ∃ b s', any_of f l s = Some (b, s') ∧ if (b : bool) then Q s' else P (seen ++ l) s'.
Proof.
  intros seen l. revert seen. induction l as [|x l IH]; intros seen s Hstep HP; simpl.
  - rewrite app_nil_r. eauto.
  - destruct (Hstep seen x l s) as (b&s'&->&Hb); [done..|]. simpl. destruct b; [eauto|].
    rewrite cons_middle, app_assoc. apply IH; [|done].
    intros l1 y l2 s'' Heq. apply (Hstep l1 y l2). by rewrite <-Heq, <-app_assoc.
Qed.

Section Walks.
Context {T : Type} {ops : IndexSetOps T} {Table : Type} {core : LinkTables Table} {laws : LinkTablesLaws Table}.
Context (info : TransactionChangeInfo T).
Implicit Types (p q z : Table * Z) (A : Z * Z * nat → Prop).

(** The row [p] links to the row [q] in its column [col]. *)
Definition link_via p (col : nat) q : Prop :=
  (col < get_column_count p.1)%nat ∧
  match get_column_type p.1 col with
  | type_Link => is_null_link p.1 col p.2 = false ∧ q = (get_link_target p.1 col, get_link p.1 col p.2)
  | type_LinkList => q.1 = get_link_target p.1 col ∧ q.2 ∈ get_linklist p.1 col p.2
  | type_Other => False
  end.

Definition link p q : Prop := ∃ col, link_via p col q.

(** The row was modified by the transaction. *)
Definition modified p : Prop :=
  ∃ c, tables info !! Z.to_nat (get_index_in_group p.1) = Some c ∧ has (modifications (changes c)) p.2.

(** A column of a row, as the path of the checker records it *)
Definition key p (col : nat) : Z * Z * nat := (get_index_in_group p.1, p.2, col).

(** A link that is not in the columns [A] *)
Definition step A p q : Prop := ∃ col, link_via p col q ∧ ¬ A (key p col).

(** No row modified within [n] links that avoid [A] *)
Definition clear A (n : nat) p : Prop := ∀ q, bsteps (step A) n p q → ¬ modified q.

Definition plus A (e : Z * Z * nat) : Z * Z * nat → Prop := λ e', A e' ∨ e' = e.

Lemma link_table p col q : link_via p col q → table_link p.1 q.1.
Proof.
  intros [Hc Hl]. exists col. destruct (get_column_type p.1 col); [|by destruct Hl..|done].
  by destruct Hl as [_ ->].
Qed.

Lemma link_group p q : link p q → group_level q.1.
Proof. intros [col Hl]. by eapply table_link_group, link_table. Qed.

Lemma link_row p q : link p q → 0 ≤ q.2 < npos.
Proof.
  intros (col&_&Hl). destruct (get_column_type p.1 col); [| |done].
  - destruct Hl as [Hn ->]. by apply link_range.
  - destruct Hl as [_ Hin]. pose proof (linklist_range p.1 col p.2) as Hr. rewrite Forall_forall in Hr. auto.
Qed.

Lemma step_link A p q : step A p q → link p q.
Proof. intros (col&?&_). by exists col. Qed.

Lemma clear_mono A A' n n' p : (∀ e, A e → A' e) → (n' ≤ n)%nat → clear A n p → clear A' n' p.
Proof.
  intros HA Hn Hc q Hq. apply Hc. apply (bsteps_weaken n'); [done|].
  revert Hq. apply (bsteps_congruence id). intros x y (col&?&?). exists col. auto.
Qed.

(** A walk that avoids [A] avoids one more column of [p] or passes through [p]. *)
Lemma walk_avoids A p col n q z :
  group_level p.1 → group_level q.1 → nsteps (step A) n q z →
  nsteps (step (plus A (key p col))) n q z ∨ ∃ m, (m ≤ n)%nat ∧ nsteps (step A) m p z.
Proof.
  intros Hp Hq Hw. induction Hw as [q|n q y z Hqy Hw IH]; [left; constructor|].
  destruct IH as [IH|(m&?&?)]; [by eapply link_group, step_link| |right; exists m; split; [lia|done]].
  destruct (Hqy) as (c&Hl&HA).
  destruct (decide (key q c = key p col)) as [[= Ht Hr Hc]|Hne].
  - right. exists (S n). split; [done|].
    assert (p = q) as -> by (destruct p, q; simpl in *; f_equal; [by apply index_inj|done]).
    by econstructor.
  - left. econstructor; [|done]. exists c. split; [done|]. by intros [?|?].
Qed.

(** A row none of whose links leads to a modified row in [n] steps, without
    coming back through the same column *)
Lemma clear_from_columns A n p :
  group_level p.1 → ¬ modified p →
  (∀ col q, link_via p col q → ¬ A (key p col) → clear (plus A (key p col)) n q) →
  clear A (S n) p.
Proof.
  intros Hg Hp Hcols z (m&Hm&Hw)%bsteps_nsteps.
  induction m as [m IH] using lt_wf_ind. inversion Hw as [|m' ? y ? Hpy Hw']; subst; [done|].
  destruct (Hpy) as (col&Hl&HA).
  destruct (walk_avoids A p col m' y z) as [Hw2|(k&Hk&Hw2)]; [done|by eapply link_group, step_link|done| |].
  - apply (Hcols col y Hl HA z). apply bsteps_nsteps. exists m'. split; [lia|done].
  - apply (IH k); [lia|lia|done].
Qed.

Lemma clear_zero A p : ¬ modified p → clear A 0 p.
Proof. intros Hp q (m&Hm&Hw)%bsteps_nsteps. assert (m = 0%nat) as -> by lia. by inversion Hw; subst. Qed.

(** A row modified within [n] links *)
Definition reaches_modified (n : nat) p : Prop := ∃ q, bsteps link n p q ∧ modified q.

Lemma clear_nothing n p : clear (λ _, False) n p ↔ ¬ reaches_modified n p.
Proof.
  assert (∀ q, bsteps (step (λ _, False)) n p q ↔ bsteps link n p q) as Heq.
  { intros q. split; apply (bsteps_congruence id); intros x y.
    - apply step_link.
    - intros [c ?]. exists c. split; [done|]. by intros []. }
  split.
  - intros Hc (q&Hq&Hm). by apply (Hc q), Hm; apply Heq.
  - intros Hr q Hq Hm. apply Hr. exists q. by rewrite <-Heq.
Qed.
End Walks.

Import DeepChange.

(** ** The path *)
Section Paths.
Implicit Types (path : list Path) (d k n : nat).

Definition path_key (x : Path) : Z * Z * nat := (path_table x, path_row x, path_col x).

(** The columns on the path at the levels [k .. d) *)
Definition on_path path k d (e : Z * Z * nat) : Prop :=
  ∃ i x, (k ≤ i < d)%nat ∧ path !! i = Some x ∧ e = path_key x.

(** The first [d] levels stay, but may be marked. *)
Definition keeps d path path' : Prop :=
  length path' = length path ∧
  ∀ i x, (i < d)%nat → path !! i = Some x → path' !! i = Some x ∨ path' !! i = Some (exceed x).

Lemma keeps_refl d path : keeps d path path.
Proof. split; [done|]. auto. Qed.

Lemma keeps_trans d path1 path2 path3 : keeps d path1 path2 → keeps d path2 path3 → keeps d path1 path3.
Proof.
  intros [L1 H1] [L2 H2]. split; [by rewrite L2|]. intros i x Hi Hx.
  destruct (H1 i x Hi Hx) as [Hx'|Hx']; [by apply H2|]. right. by destruct (H2 _ _ Hi Hx') as [?|?].
Qed.

Lemma keeps_weaken d d' path path' : (d' ≤ d)%nat → keeps d path path' → keeps d' path path'.
Proof. intros Hd [? Hk]. split; [done|]. intros i x Hi. apply Hk. lia. Qed.

Lemma keeps_inv d path path' i x' :
  keeps d path path' → (i < d)%nat → path' !! i = Some x' →
  ∃ x, path !! i = Some x ∧ (x' = x ∨ x' = exceed x).
Proof.
  intros [Hl Hk] Hi Hx'. destruct (lookup_lt_is_Some_2 path i) as [x Hx].
  { rewrite <-Hl. by eapply lookup_lt_Some. }
  exists x. split; [done|]. destruct (Hk i x Hi Hx); [left|right]; congruence.
Qed.

Lemma keeps_on_path d k path path' e : keeps d path path' → on_path path k d e ↔ on_path path' k d e.
Proof.
  intros Hk. split.
  - intros (i&x&Hi&Hx&->). destruct (proj2 Hk i x) as [Hx'|Hx']; [lia|done| |]; exists i; eauto.
  - intros (i&x'&Hi&Hx'&->). destruct (keeps_inv _ _ _ _ _ Hk (proj2 Hi) Hx') as (x&Hx&[->| ->]); exists i, x; eauto.
Qed.

Lemma keeps_exceed d path : keeps d path (exceed <$> path).
Proof. split; [by rewrite length_fmap|]. intros i x _ Hx. right. by rewrite list_lookup_fmap, Hx. Qed.

Lemma keeps_insert d path x : keeps d path (<[d := x]> path).
Proof.
  split; [by rewrite length_insert|]. intros i y Hi Hy. left. by rewrite list_lookup_insert_ne by lia.
Qed.

(** The marks of [already_checking] *)
Definition mark_from (m d : nat) path : list Path :=
  imap (λ i p, if (m <=? i)%nat && (i <? d)%nat then exceed p else p) path.

Lemma mark_from_lookup m d path i :
  mark_from m d path !! i =
  (λ p, if (m <=? i)%nat && (i <? d)%nat then exceed p else p) <$> path !! i.
Proof. apply list_lookup_imap. Qed.

Lemma keeps_mark_from m d path : keeps d path (mark_from m d path).
Proof.
  split; [apply length_imap|]. intros i x _ Hx. rewrite mark_from_lookup, Hx. simpl.
  destruct (_ && _); auto.
Qed.

(** ** What a row checked at level [d] owes

    Level [0] of the path: the rows within the limit, counted from the root.
    Level [k]: if the link at [k - 1] is not marked, the rows within the limit
    of the row itself. *)
Definition owes (limit : nat) path d k n : Prop :=
  (k = 0 ∧ n + d ≤ limit)%nat ∨
  (0 < k ≤ d ∧ n ≤ limit)%nat ∧ ∃ x, path !! (k - 1)%nat = Some x ∧ depth_exceeded x = false.

Lemma owes_keeps limit path path' d k n : keeps d path path' → owes limit path' d k n → owes limit path d k n.
Proof.
  intros Hk [?|([??]&x&Hx&Hf)]; [by left|right]. split; [lia|].
  destruct (keeps_inv d path path' (k - 1) x Hk ltac:(lia) Hx) as (y&Hy&[->| ->]); [eauto|done].
Qed.

Lemma owes_deeper limit path d k n : owes limit path d k (S n) → owes limit path (S d) k n.
Proof. intros [?|[? ?]]; [left|right]; [lia|split; [lia|done]]. Qed.

Lemma owes_exceed limit path d k n : (limit < d)%nat → ¬ owes limit (exceed <$> path) d k n.
Proof.
  intros Hd [?|(_&x&Hx&Hf)]; [lia|]. apply list_lookup_fmap_Some_1 in Hx as (y&->&_). done.
Qed.

Lemma owes_mark_from limit path m d k n : owes limit (mark_from m d path) d k n → (k ≤ m)%nat.
Proof.
  intros [?|([??]&x&Hx&Hf)]; [lia|]. rewrite mark_from_lookup in Hx.
  destruct (path !! (k - 1)%nat) as [y|]; [|done]. simpl in Hx.
  destruct (Nat.leb_spec m (k - 1)), (Nat.ltb_spec (k - 1) d); simpl in Hx; simplify_eq/=; try lia; done.
Qed.
End Paths.

Section Check.
Context {T : Type} {ops : IndexSetOps T} {set_laws : IndexSetLaws T}.
Context {Table : Type} {core : LinkTables Table} {laws : LinkTablesLaws Table}.
Context (info : TransactionChangeInfo T) (root : Table) (related : list RelatedTable) (limit size : nat).
Hypothesis info_ok : Forall (λ c, set_wf (modifications (changes c))) (tables info).
Hypothesis related_tables : related_ok root related.
Implicit Types (s : DeepChangeChecker T) (p q : Table * Z) (d k n : nat).

(** The rows remembered as not modified reach no modified row. *)
Definition cache_ok (l : list T) : Prop :=
  Forall set_wf l ∧
  ∀ p rows, group_level p.1 → l !! Z.to_nat (get_index_in_group p.1) = Some rows → has rows p.2 →
    clear info (λ _, False) limit p.

Definition checker_ok s : Prop :=
  cache_ok (m_not_modified s) ∧ length (m_current_path s) = S limit ∧
  (size ≤ length (m_not_modified s))%nat.

(** A row of a table reachable from the root *)
Definition row_ok p : Prop := group_level p.1 ∧ rtc table_link root p.1 ∧ 0 ≤ p.2 < npos.

Lemma row_ok_link p col q : row_ok p → link_via p col q → row_ok q.
Proof.
  intros (Hg&Hr&_) Hl. assert (link p q) as Hpq by by exists col.
  split; [by eapply link_group|]. split; [|by eapply link_row].
  eapply rtc_r; [done|]. by eapply link_table.
Qed.

(** What is known of a row checked at level [d] when nothing was found *)
Definition promise path d p : Prop :=
  ∀ k n, owes limit path d k n → clear info (on_path path k d) n p.

(** ... and of one of its columns *)
Definition column_promise path d p (col : nat) : Prop :=
  ∀ q, link_via p col q → ∀ k n, owes limit path d k (S n) → ¬ on_path path k d (key p col) →
    clear info (plus (on_path path k d) (key p col)) n q.

Definition found_modified d p : Prop := (d ≤ limit)%nat ∧ reaches_modified info (limit - d) p.

(** The result of a check: a success with a modified row, or a failure with
    the promise [F] about the new path. *)
Definition outcome d p s (F : list Path → Prop) (r : option (bool * DeepChangeChecker T)) : Prop :=
  ∃ b s', r = Some (b, s') ∧ checker_ok s' ∧ keeps d (m_current_path s) (m_current_path s') ∧
    if (b : bool) then found_modified d p else F (m_current_path s').

Lemma promise_keeps d path path' p : keeps d path path' → promise path d p → promise path' d p.
Proof.
  intros Hk Hp k n Ho. eapply clear_mono; [|done|by apply Hp; eapply owes_keeps].
  intros e. by rewrite (keeps_on_path d k path path').
Qed.

Lemma column_promise_keeps d path path' p col :
  keeps d path path' → column_promise path d p col → column_promise path' d p col.
Proof.
  intros Hk Hp q Hq k n Ho He. eapply clear_mono; [|done|apply (Hp q Hq k n)].
  - intros e [?|?]; [left|by right]. by rewrite <-(keeps_on_path d k path path').
  - by eapply owes_keeps.
  - by rewrite (keeps_on_path d k path path').
Qed.

(** A row whose columns are clear is clear. *)
Lemma promise_columns path d p :
  row_ok p → ¬ modified info p → (∀ col, (col < get_column_count p.1)%nat → column_promise path d p col) →
  promise path d p.
Proof.
  intros Hr Hm Hcols k [|n] Ho; [by apply clear_zero|].
  apply clear_from_columns; [apply Hr|done|]. intros col q Hl He. apply Hcols; [apply Hl|done..].
Qed.

(** A row found through a link of [p] *)
Lemma found_through d p q : link p q → (S d ≤ limit)%nat → reaches_modified info (limit - S d) q → found_modified d p.
Proof.
  intros Hl Hd (z&Hz&Hm). split; [lia|]. exists z. split; [|done].
  replace (limit - d)%nat with (S (limit - S d)) by lia. by eapply bsteps_l.
Qed.

(** ** [already_checking] *)
Lemma already_checking_ok d p col s :
  checker_ok s → (d ≤ limit)%nat →
  ∃ b s', already_checking (get_index_in_group p.1) p.2 d col s = Some (b, s') ∧ checker_ok s' ∧
    keeps d (m_current_path s) (m_current_path s') ∧
    if (b : bool) then column_promise (m_current_path s') d p col
    else m_current_path s' !! d = Some (mkPath (get_index_in_group p.1) p.2 col false).
Proof.
  intros (Hc&Hlen&Hsize) Hd. unfold already_checking.
  set (path := m_current_path s) in *. set (pred := λ x : Path, _).
  destruct (find_if_spec pred (take d path)) as (l1&l2&Heq&Hf&Hl1&Hl2). rewrite Hf, Heq, length_app.
  destruct l2 as [|x l2].
  - rewrite Nat.add_0_r, Nat.ltb_irrefl. destruct (lookup_lt_is_Some_2 path d) as [y Hy]; [lia|]. rewrite Hy. simpl.
    eexists _, _. split; [done|]. simpl. split_and!; [|apply keeps_insert|].
    + split; [done|]. simpl. by rewrite length_insert.
    + apply list_lookup_insert_eq. lia.
  - destruct (Nat.ltb_spec (length l1) (length l1 + length (x :: l2))) as [_|?]; [|simpl in *; lia]. eexists _, _. split; [done|]. simpl. fold (mark_from (length l1) d path).
    split_and!; [|apply keeps_mark_from|].
    + split; [done|]. simpl. unfold mark_from. by rewrite length_imap.
    + intros q Hq k m Ho He. destruct He. apply (keeps_on_path d k path); [apply keeps_mark_from|].
      apply owes_mark_from in Ho.
      assert (take d path !! length l1 = Some x) as Hx by (rewrite Heq; apply lookup_app_here).
      apply lookup_take_Some in Hx as [Hx Hi]. exists (length l1), x. split_and!; [lia|lia|done|].
      unfold pred in Hl2. apply andb_true_iff in Hl2 as [[?%Z.eqb_eq ?%Z.eqb_eq]%andb_true_iff ?%Nat.eqb_eq].
      unfold path_key, key. congruence.
Qed.

(** ** The links of a row *)
Section Outgoing.
Context (rec : Table → Z → nat → DeepChangeChecker T → option (bool * DeepChangeChecker T)) (d : nat) (p : Table * Z).
Hypothesis rec_ok : ∀ q s, row_ok q → checker_ok s →
  outcome (S d) q s (λ path, promise path (S d) q) (rec q.1 q.2 (S d) s).
Hypothesis p_ok : row_ok p.
Hypothesis d_ok : (d ≤ limit)%nat.

(** The promise of a linked row is one of the column that links to it. *)
Lemma promise_column path path' col q :
  path !! d = Some (mkPath (get_index_in_group p.1) p.2 col false) → keeps (S d) path path' →
  promise path' (S d) q →
  ∀ k n, owes limit path' d k (S n) → clear info (plus (on_path path' k d) (key p col)) n q.
Proof.
  intros Hx Hk Hp k n Ho. eapply clear_mono; [|done|by apply Hp, owes_deeper].
  intros e (i&x&Hi&Hxi&->). destruct (decide (i = d)) as [->|Hne].
  - right. destruct (keeps_inv _ _ _ d x Hk) as (y&Hy&Hxy); [lia|done|].
    rewrite Hx in Hy. injection Hy as <-. by destruct Hxy as [->| ->].
  - left. exists i, x. split_and!; [lia|lia|done|done].
Qed.

Lemma linked_object_changed_ok l s :
  checker_ok s → l ∈ link_columns p.1 →
  outcome d p s (λ path, column_promise path d p (col_ndx l))
    (linked_object_changed rec (get_index_in_group p.1) p.1 p.2 d l s).
Proof.
  intros Hs [Hcol Htype]%elem_of_link_columns. unfold linked_object_changed.
  destruct (already_checking_ok d p (col_ndx l) s Hs d_ok) as (b&s1&->&Hs1&Hk1&Hb). simpl.
  destruct b; [by exists false, s1|].
  assert (∀ q s2, link_via p (col_ndx l) q → keeps (S d) (m_current_path s1) (m_current_path s2) →
    found_modified (S d) q → found_modified d p) as Hfound.
  { intros q s2 Hq _ [Hd Hr]. eapply found_through; [by exists (col_ndx l)|done|done]. }
  assert (∀ s2, keeps (S d) (m_current_path s1) (m_current_path s2) →
    keeps d (m_current_path s) (m_current_path s2)) as Hkeeps.
  { intros s2 Hk2. eapply keeps_trans; [done|]. eapply keeps_weaken; [|done]. lia. }
  destruct (is_list l); simpl.
  - destruct (any_of_spec (λ dst, rec (get_link_target p.1 (col_ndx l)) dst (S d))
      (λ seen s2, checker_ok s2 ∧ keeps (S d) (m_current_path s1) (m_current_path s2) ∧
        ∀ dst, dst ∈ seen → promise (m_current_path s2) (S d) (get_link_target p.1 (col_ndx l), dst))
      (λ s2, checker_ok s2 ∧ keeps (S d) (m_current_path s1) (m_current_path s2) ∧ found_modified d p)
      [] (get_linklist p.1 (col_ndx l) p.2) s1) as (b&s2&->&Hb2).
    + simpl. intros l1 dst l2 s2 Hl (Hs2&Hk2&Hseen).
      assert (link_via p (col_ndx l) (get_link_target p.1 (col_ndx l), dst)) as Hq.
      { split; [done|]. rewrite Htype. split; [done|]. simpl. rewrite Hl. apply elem_of_app. right. by left. }
      destruct (rec_ok (get_link_target p.1 (col_ndx l), dst) s2) as (b'&s3&Heq&Hs3&Hk3&Hb'); [by eapply row_ok_link|done|].
      simpl in Heq. rewrite Heq. exists b', s3. split; [done|].
      assert (keeps (S d) (m_current_path s1) (m_current_path s3)) as Hk13 by by eapply keeps_trans.
      destruct b'; [split; [done|]; split; [done|]; by eapply (Hfound _ s3)|].
      split; [done|]. split; [done|]. intros dst' [Hin|Hin]%elem_of_app.
      * apply (promise_keeps (S d) (m_current_path s2)); [done|]. by apply Hseen.
      * by apply list_elem_of_singleton in Hin as ->.
    + split; [done|]. split; [apply keeps_refl|]. by intros ? ?%elem_of_nil.
    + exists b, s2. destruct b.
      * destruct Hb2 as (?&?&?). split_and!; [done|done|by apply Hkeeps|done].
      * destruct Hb2 as (?&Hk2&Hall). split_and!; [done|done|by apply Hkeeps|].
        intros q Hq k n Ho He. eapply promise_column; [done|done| |done].
        destruct Hq as [_ Hq]. rewrite Htype in Hq. destruct q as [t r], Hq as [Ht Hr]. simpl in *. subst t. by apply Hall.
  - destruct (is_null_link p.1 (col_ndx l) p.2) eqn:Hnull.
    { exists false, s1. split_and!; [done|done|done|]. intros q [_ Hq]. rewrite Htype in Hq. destruct Hq. congruence. }
    set (q := (get_link_target p.1 (col_ndx l), get_link p.1 (col_ndx l) p.2)).
    assert (link_via p (col_ndx l) q) as Hq by (split; [done|]; by rewrite Htype).
    destruct (rec_ok q s1) as (b&s2&Heq&Hs2&Hk2&Hb2); [by eapply row_ok_link|done|]. simpl in Heq. rewrite Heq.
    exists b, s2. split_and!; [done|done|by apply Hkeeps|]. destruct b; [by eapply (Hfound q s2)|].
    intros q' [_ Hq'] k n Ho He. rewrite Htype in Hq'. destruct Hq' as [_ ->]. by eapply promise_column.
Qed.

Lemma check_outgoing_links_ok s :
  checker_ok s → ¬ modified info p →
  outcome d p s (λ path, promise path d p)
    (check_outgoing_links related rec (get_index_in_group p.1) p.1 p.2 d s).
Proof.
  intros Hs Hm. unfold check_outgoing_links. rewrite (related_lookup root) by (done || apply p_ok). simpl.
  destruct (any_of_spec (linked_object_changed rec (get_index_in_group p.1) p.1 p.2 d)
    (λ seen s', checker_ok s' ∧ keeps d (m_current_path s) (m_current_path s') ∧
      ∀ l, l ∈ seen → column_promise (m_current_path s') d p (col_ndx l))
    (λ s', checker_ok s' ∧ keeps d (m_current_path s) (m_current_path s') ∧ found_modified d p)
    [] (link_columns p.1) s) as (b&s'&->&Hb).
  - simpl. intros l1 l l2 s1 Hl (Hs1&Hk1&Hseen).
    destruct (linked_object_changed_ok l s1 Hs1) as (b&s2&->&Hs2&Hk2&Hb).
    { rewrite Hl. apply elem_of_app. right. by left. }
    assert (keeps d (m_current_path s) (m_current_path s2)) as Hk by by eapply keeps_trans.
    exists b, s2. split; [done|]. destruct b; [done|]. split; [done|]. split; [done|].
    intros l' [Hin|Hin]%elem_of_app.
    + apply (column_promise_keeps d (m_current_path s1)); [done|]. by apply Hseen.
    + by apply list_elem_of_singleton in Hin as ->.
  - split; [done|]. split; [apply keeps_refl|]. by intros ? ?%elem_of_nil.
  - exists b, s'. destruct b.
    + destruct Hb as (?&?&?). done.
    + destruct Hb as (?&?&Hall). split_and!; [done|done|done|].
      apply promise_columns; [done|done|]. intros col Hcol q Hq.
      destruct (get_column_type p.1 col) eqn:Et; [| |by destruct Hq as [_ Hq]; rewrite Et in Hq].
      * apply (Hall (mkOutgoingLink col false)); [|done]. by apply elem_of_link_columns.
      * apply (Hall (mkOutgoingLink col true)); [|done]. by apply elem_of_link_columns.
Qed.
End Outgoing.
End Check.

(** ** [check_row] *)
Section Rows.
Context {T : Type} {ops : IndexSetOps T} {set_laws : IndexSetLaws T}.
Context {Table : Type} {core : LinkTables Table} {laws : LinkTablesLaws Table}.
Context (info : TransactionChangeInfo T) (root : Table) (related : list RelatedTable) (limit : nat).
Hypothesis info_ok : Forall (λ c, set_wf (modifications (changes c))) (tables info).
Hypothesis related_tables : related_ok root related.
Implicit Types (s : DeepChangeChecker T) (p q : Table * Z) (d : nat) (l : list T).

Lemma modified_here_ok d p :
  row_ok root p →
  ∃ b, modified_here info (get_index_in_group p.1) p.2 d = Some b ∧ (b = true ↔ (0 < d)%nat ∧ modified info p).
Proof.
  intros (Hg&_&Hr). unfold modified_here, modified, group_level in *.
  destruct (Nat.ltb_spec 0 d); simpl; [|exists false; naive_solver lia].
  case_test.
  - destruct (lookup_lt_is_Some_2 (tables info) (Z.to_nat (get_index_in_group p.1))) as [c Hc]; [lia|].
    rewrite Hc. simpl. rewrite law_contains by (lia || by eapply Forall_lookup_1 in info_ok).
    eexists. split; [done|]. rewrite bool_decide_eq_true. naive_solver.
  - exists false. split; [done|]. split; [done|]. intros (_&c&Hc%lookup_lt_Some&_). lia.
Qed.

(** The cache is made long enough for the table. *)
Definition with_room (ndx : Z) l : list T :=
  if Z.of_nat (length l) <=? ndx then resize (Z.to_nat (ndx +w 1)) set_nil l else l.

Lemma with_room_ok l p :
  group_level p.1 → cache_ok info limit l →
  cache_ok info limit (with_room (get_index_in_group p.1) l) ∧
  (length l ≤ length (with_room (get_index_in_group p.1) l))%nat ∧
  (Z.to_nat (get_index_in_group p.1) < length (with_room (get_index_in_group p.1) l))%nat.
Proof.
  intros Hg [Hwf Hc]. unfold with_room, group_level in *. pose proof group_size_fits. case_test; [|split; [done|lia]].
  rewrite wadd_small by slia. rewrite resize_ge, length_app, length_replicate by lia.
  split; [|lia]. split.
  - apply Forall_app. split; [done|]. apply Forall_replicate, law_nil.
  - intros q rows Hq [Hl|[_ [-> _]%lookup_replicate]]%lookup_app_Some Hin; [by eapply Hc|].
    unfold has in Hin. rewrite (proj2 law_nil) in Hin. by destruct Hin.
Qed.

Lemma cache_add_ok l p :
  row_ok root p → (Z.to_nat (get_index_in_group p.1) < length l)%nat → cache_ok info limit l →
  clear info (λ _, False) limit p →
  ∃ rows rows', l !! Z.to_nat (get_index_in_group p.1) = Some rows ∧ set_add rows p.2 = Some rows' ∧
    cache_ok info limit (<[Z.to_nat (get_index_in_group p.1) := rows']> l).
Proof.
  intros (Hg&_&Hr) [rows Hrows]%lookup_lt_is_Some_2 [Hwf Hc] Hclear.
  destruct (law_add rows p.2) as (rows'&Hadd&Hwf'&Hmem); [by eapply Forall_lookup_1|done|].
  exists rows, rows'. split_and!; [done|done|]. split; [by apply Forall_insert|].
  intros q rows2 Hq [(Hi&->&_)|[_ Hl]]%list_lookup_insert_Some Hin; [|by eapply Hc].
  assert (q.1 = p.1) as Ht.
  { apply index_inj; [done|]. unfold group_level in *. lia. }
  apply Hmem in Hin as [Hin| Hin].
  - eapply Hc; [done| |done]. by rewrite Ht.
  - by replace q with p by (destruct p, q; simpl in *; congruence).
Qed.

Lemma with_room_eq ndx s :
  (if Z.of_nat (length (m_not_modified s)) <=? ndx
   then with_not_modified s (resize (Z.to_nat (ndx +w 1)) set_nil (m_not_modified s)) else s) =
  with_not_modified s (with_room ndx (m_not_modified s)).
Proof. unfold with_room. by destruct s, (_ <=? _). Qed.

(** When a row may be remembered, nothing modified can be reached from it. *)
Lemma may_cache_ok d p s :
  (d ≤ limit)%nat → length (m_current_path s) = S limit → promise info limit (m_current_path s) d p →
  ∃ add, may_cache false d s = Some add ∧ (add = true → clear info (λ _, False) limit p).
Proof.
  intros Hd Hlen Hp.
  assert (owes limit (m_current_path s) d d limit → clear info (λ _, False) limit p) as Hclear.
  { intros Ho. eapply clear_mono; [|done|by apply Hp]. intros e (i&x&?&_). lia. }
  destruct d as [|d]; simpl.
  - exists true. split; [done|]. intros _. apply Hclear. left. lia.
  - destruct (lookup_lt_is_Some_2 (m_current_path s) d) as [x Hx]; [lia|]. rewrite Hx.
    eexists. split; [done|]. intros Hf%negb_true_iff. apply Hclear. right. split; [lia|].
    exists x. by rewrite Nat.sub_succ, Nat.sub_0_r.
Qed.

Lemma promise_of_cache path d p : clear info (λ _, False) limit p → promise info limit path d p.
Proof. intros Hc k n [?|[? _]]; (eapply clear_mono; [|..|done]; [done|lia]). Qed.

Lemma check_row_ok fuel d p s size :
  row_ok root p → checker_ok info limit size s → (d ≤ S limit < fuel + d)%nat →
  (d = 0%nat → ¬ modified info p) →
  outcome info limit size d p s (λ path, promise info limit path d p)
    (check_row info related fuel p.1 p.2 d s).
Proof.
  revert d p s size. induction fuel as [|fuel IH]; intros d p s size Hp Hs Hfuel Hroot; [lia|].
  cbn [check_row]. destruct (Nat.leb_spec (length (m_current_path s)) d) as [Hle|Hlt].
  { pose proof Hs as (Hc&Hlen&Hsize). eexists false, _. split; [done|]. split; [|split].
    - split; [done|]. simpl. by rewrite length_fmap.
    - apply keeps_exceed.
    - intros k n Ho. exfalso. apply (owes_exceed limit (m_current_path s) d k n); [lia|done]. }
  assert (d ≤ limit)%nat as Hd by (destruct Hs as (_&?&_); lia).
  destruct (modified_here_ok d p Hp) as (b&->&Hb). cbn [mbind option_bind]. destruct b.
  { exists true, s. split; [done|]. split; [done|]. split; [apply keeps_refl|]. split; [done|].
    exists p. split; [apply bsteps_refl|by apply Hb]. }
  assert (¬ modified info p) as Hm.
  { destruct d as [|d]; [by apply Hroot|]. intros Hm. assert (false = true) by (apply Hb; split; [lia|done]). done. }
  rewrite with_room_eq. set (s1 := with_not_modified s _).
  pose proof Hs as (Hc&Hlen&Hsize).
  destruct (with_room_ok (m_not_modified s) p) as (Hc1&Hlen1&Hidx); [apply Hp|done|].
  change (with_room _ _) with (m_not_modified s1) in Hc1, Hlen1, Hidx.
  destruct (lookup_lt_is_Some_2 _ _ Hidx) as [rows Hrows]. rewrite Hrows. cbn [mbind option_bind].
  rewrite law_contains by (apply Hp || by eapply Forall_lookup_1, Hrows; apply Hc1).
  cbn [mbind option_bind]. case_bool_decide as Hin.
  { exists false, s1. split; [done|]. split; [split; [done|]; split; [done|lia]|].
    split; [apply keeps_refl|]. apply promise_of_cache. eapply (proj2 Hc1); [apply Hp|done|done]. }
  set (size' := (size `max` S (Z.to_nat (get_index_in_group p.1)))%nat).
  assert (checker_ok info limit size' s1) as Hs1 by (split; [done|]; split; [done|lia]).
  destruct (check_outgoing_links_ok info root related limit size' related_tables (check_row info related fuel) d p)
    with (s := s1) as (b&s2&->&Hs2&Hk2&Hb2); [|done..|].
  { intros q s' Hq Hs'. apply IH; [done|done|lia|done]. }
  cbn [mbind option_bind]. pose proof Hs2 as (Hc2&Hlen2&Hsize2).
  assert (checker_ok info limit size s2) as Hs2' by (split; [done|]; split; [done|lia]).
  destruct b; [by exists true, s2|].
  destruct (may_cache_ok d p s2) as (add&->&Hadd); [done..|]. cbn [mbind option_bind].
  destruct add; [|by exists false, s2].
  destruct (cache_add_ok (m_not_modified s2) p) as (r&r'&->&Hr&Hc3); [done|lia|done|by apply Hadd|].
  cbn [mbind option_bind]. rewrite Hr. cbn [mbind option_bind]. eexists false, _. split; [done|].
  split; [|done]. split; [done|]. simpl. rewrite length_insert. split; [done|lia].
Qed.
End Rows.
