(* ===== verification/DeepChangeProps.v ===== *)
(** The properties of [DeepChangeChecker] and of the checker a notifier makes. *)
From stdpp Require Import relations gmap.
From S2P Require Import Prelude ChunkedRangeVector IndexSet IndexSetTheory IndexSetMerge IndexSetSpec IndexSetProps ChangeBuilder.
From S2P Require Import DeepChange DeepChangeTables DeepChangeCheck.
Import DeepChange Samples.

Section Claims.
Context {T : Type} {ops : IndexSetOps T} {set_laws : IndexSetLaws T}.
Context {Table : Type} {core : LinkTables Table} {laws : LinkTablesLaws Table}.
Implicit Types (info : TransactionChangeInfo T) (root : Table) (related : list RelatedTable)
  (f : ModificationChecker (T := T)).

Definition info_ok info : Prop := Forall (λ c, set_wf (modifications (changes c))) (tables info).

(** [b] tells whether the row was modified or links to a modified row over at
    most three links. *)
Definition exact info root (r : Z) (b : bool) : Prop := b = true ↔ reaches_modified info 3 (root, r).

(** The rows of the tables that were not modified *)
Lemma table_modified_ok info t :
  info_ok info → group_level t → table_modified info (entry t) = true ↔ ∃ r, modified info (t, r).
Proof.
  intros Hinfo Hg. unfold table_modified, modified, group_level in *. simpl. rewrite andb_true_iff, Z.ltb_lt. split.
  - intros [_ Hne]. destruct (tables info !! _) as [c|] eqn:Hc; [|done].
    assert (set_wf (modifications (changes c))) as Hwf by by eapply Forall_lookup_1 in Hinfo.
    apply negb_true_iff in Hne. rewrite law_empty in Hne by done. apply bool_decide_eq_false in Hne.
    pose proof (law_ranges _ Hwf) as Hr. destruct (set_ranges (modifications (changes c))) as [|[a b] rs] eqn:Hrs; [done|].
    exists a, c. split; [done|]. unfold has. rewrite Hrs. destruct Hr as (?&?&?). simpl in *. left. simpl. lia.
  - intros (r&c&Hc&Hr). split; [apply lookup_lt_Some in Hc; lia|]. rewrite Hc. apply negb_true_iff.
    assert (set_wf (modifications (changes c))) as Hwf by by eapply Forall_lookup_1 in Hinfo.
    rewrite law_empty by done. apply bool_decide_eq_false. intros E. unfold has in Hr. by rewrite E in Hr.
Qed.

Lemma links_tables n p q : bsteps link n p q → rtc table_link p.1 q.1.
Proof. induction 1 as [|n x y z [c Hl] _ IH]; [done|]. econstructor; [by eapply link_table|done]. Qed.

(** A call of the checker, whatever was checked before *)
Lemma checker_call_ok info root related s ndx :
  info_ok info → related_ok root related → group_level root → 0 ≤ ndx < npos → checker_ok info 3 0 s →
  ∃ b s', call info related root ndx s = Some (b, s') ∧ checker_ok info 3 0 s' ∧ exact info root ndx b.
Proof.
  intros Hinfo Hrel Hg Hn Hs. unfold call.
  assert (∃ b, match m_root_modifications info root with Some m => set_contains m ndx | None => Some false end = Some b ∧
    (b = true ↔ modified info (root, ndx))) as (b&->&Hb).
  { unfold m_root_modifications, modified, group_level in *. simpl. case_test.
    - destruct (lookup_lt_is_Some_2 (tables info) (Z.to_nat (get_index_in_group root))) as [c Hc]; [lia|].
      rewrite Hc. simpl. rewrite law_contains by (lia || by eapply Forall_lookup_1 in Hinfo).
      eexists. split; [done|]. rewrite bool_decide_eq_true. naive_solver.
    - exists false. split; [done|]. split; [done|]. intros (c&Hc%lookup_lt_Some&_). lia. }
  cbn [mbind option_bind]. destruct b.
  { exists true, s. split; [done|]. split; [done|]. split; [|done]. intros _.
    exists (root, ndx). split; [apply bsteps_refl|by apply Hb]. }
  pose proof Hs as (_&Hlen&_).
  destruct (check_row_ok info root related 3 Hinfo Hrel (S (length (m_current_path s))) 0 (root, ndx) s 0)
    as (b&s'&Heq&Hs'&_&Hr); [done|done|lia| |].
  { intros _ Hm%Hb. done. }
  cbn [fst snd] in Heq. rewrite Heq. exists b, s'. split; [done|]. split; [done|]. unfold exact. destruct b.
  - split; [|done]. intros _. apply Hr.
  - split; [done|]. intros Hm. exfalso. revert Hm. apply clear_nothing.
    eapply clear_mono; [|done|apply (Hr 0%nat 3%nat); left; lia]. intros e (i&x&?&_). lia.
Qed.

(** Any state of a checker that answers exactly *)
Definition answers_exactly info root related f : Prop :=
  match f with
  | no_modifications => ∀ r, ¬ reaches_modified info 3 (root, r)
  | direct_modifications m => set_wf m ∧ ∀ r, has m r ↔ reaches_modified info 3 (root, r)
  | deep_modifications s => checker_ok info 3 0 s
  end.

Lemma checks_exact info root related f rows :
  info_ok info → related_ok root related → group_level root → Forall (λ r, 0 ≤ r < npos) rows →
  answers_exactly info root related f →
  ∃ answers, checks info related root f rows = Some answers ∧ Forall2 (exact info root) rows answers.
Proof.
  intros Hinfo Hrel Hg Hrows. revert f. induction Hrows as [|r rows Hr Hrows IH]; intros f Hf; simpl; [by exists []|].
  assert (∃ b f', check_modified info related root f r = Some (b, f') ∧ exact info root r b ∧
    answers_exactly info root related f') as (b&f'&->&Hb&Hf').
  { destruct f as [|m|s]; simpl in *.
    - exists false, no_modifications. split; [done|]. split; [|done]. split; [done|]. intros H. by destruct (Hf r).
    - destruct Hf as [Hwf Hm]. rewrite law_contains by (done || lia). eexists _, _. split; [done|].
      split; [|done]. unfold exact. by rewrite bool_decide_eq_true.
    - destruct (checker_call_ok info root related s r) as (b&s'&->&?&?); [done..|]. by exists b, (deep_modifications s'). }
  simpl. destruct (IH f' Hf') as (answers&->&?). simpl. eauto.
Qed.

(** The table is the only one among its related tables iff it links to no other
    table. *)
Lemma related_single root related tbl :
  related_ok root related → group_level root → related = [tbl] → tbl = entry root ∧ ∀ u, table_link root u → u = root.
Proof.
  intros [_ Hrel] Hg ->.
  assert (entry root ∈ [tbl]) as E0%list_elem_of_singleton by (apply Hrel; eauto using rtc_refl).
  subst tbl.
  split; [done|]. intros u Hu.
  assert (entry u ∈ [entry root]) as E%list_elem_of_singleton by (apply Hrel; eauto using rtc_once).
  injection E as E _. apply index_inj; [by eapply table_link_group|done].
Qed.

(** C37: [set_table] terminates and finds every table that can be reached from
    the root over link columns exactly once, each with exactly its link
    columns. *)
Theorem set_table_correct root :
  group_level root →
  ∃ related, set_table root = Some related ∧ NoDup (table_ndx <$> related) ∧
    ∀ e, e ∈ related ↔ ∃ t, rtc table_link root t ∧ e = mkRelatedTable (get_index_in_group t) (link_columns t).
Proof. intros Hg. destruct (set_table_ok root Hg) as (related&?&?&?). by exists related. Qed.

(** What the function made for a table that links to no other table answers: it
    does not look at links. *)
Definition direct info root (r : Z) (b : bool) : Prop := b = true ↔ modified info (root, r).

Lemma checks_direct info root related m rows :
  Forall (λ r, 0 ≤ r < npos) rows → set_wf m → (∀ r, has m r ↔ modified info (root, r)) →
  ∃ answers, checks info related root (direct_modifications m) rows = Some answers ∧
    Forall2 (direct info root) rows answers.
Proof.
  intros Hrows Hwf Hm. induction Hrows as [|r rows Hr Hrows (answers&IH&Hall)]; simpl; [by exists []|].
  rewrite law_contains by (done || lia). cbn [mbind option_bind]. rewrite IH. eexists. split; [done|].
  constructor; [|done]. unfold direct. by rewrite bool_decide_eq_true.
Qed.

Lemma checks_none info root related rows :
  ∃ answers, checks info related root no_modifications rows = Some answers ∧ Forall (λ b, b = false) answers ∧
    length answers = length rows.
Proof.
  induction rows as [|r rows (answers&IH&Hall&Hl)]; simpl; [by exists []|].
  rewrite IH. eexists. split; [done|]. split; [by constructor|]. simpl. by rewrite Hl.
Qed.

Definition links_to_others root : Prop := ∃ u, table_link root u ∧ u ≠ root.

(** Several related tables: the root links to another one. *)
Lemma several_related root tbl tbl2 rest :
  group_level root → related_ok root (tbl :: tbl2 :: rest) → links_to_others root.
Proof.
  intros Hg [Hnd Hin].
  assert (∀ t, rtc table_link root t → t = root ∨ t ≠ root) as Hdec.
  { intros t Ht. destruct (decide (get_index_in_group t = get_index_in_group root)) as [E|E]; [|right; congruence].
    left. apply index_inj; [by eapply table_links_group|done]. }
  assert (∃ t, rtc table_link root t ∧ t ≠ root) as (t&Ht&Hne).
  { destruct (proj1 (Hin tbl)) as (t1&Ht1&->); [constructor|]. destruct (proj1 (Hin tbl2)) as (t2&Ht2&->); [do 2 constructor|].
    destruct (Hdec t1 Ht1) as [->|]; [|by exists t1]. destruct (Hdec t2 Ht2) as [->|]; [|by exists t2].
    simpl in Hnd. apply NoDup_cons in Hnd as [Hn _]. destruct Hn. constructor. }
  clear Hnd Hin.
  assert (∀ x y, rtc table_link x y → x = root → y ≠ root → links_to_others root) as H; [|by eapply H].
  clear t Ht Hne. induction 1 as [|x y z Hxy Hyz IH]; intros -> Hne; [done|].
  destruct (Hdec y (rtc_once _ _ Hxy)) as [->|Hy]; [by apply IH|by exists y].
Qed.

(** Without links the two answers agree. *)
Lemma direct_exact info root r b :
  (∀ u, table_link root u → u = root) → ¬ table_link root root → direct info root r b → exact info root r b.
Proof.
  intros Honly Hself Hb. unfold direct, exact in *. rewrite Hb. split.
  - intros Hm. exists (root, r). split; [apply bsteps_refl|done].
  - intros (q&Hq&Hm). inversion Hq as [|n x y z [col Hl]]; subst; [done|]. exfalso.
    pose proof (link_table _ _ _ Hl) as Ht. simpl in Ht. pose proof (Honly _ Ht) as E. by rewrite E in Ht.
Qed.

(** C21: the function a notifier makes answers every sequence of questions
    exactly, although it remembers rows between the questions and does not follow
    a link twice on a path.  If the root table links to another table, or to no
    table at all, a row counts as changed iff it or a row at most three links away
    was modified.  If all links of the root table are to itself, they are ignored:
    a row counts as changed iff it was modified itself. *)
Theorem modification_checker_exact info root related path rows :
  info_ok info → group_level root → schema_changed info = true ∨ set_table root = Some related →
  length path = 4%nat → Forall (λ r, 0 ≤ r < npos) rows →
  ∃ f related' answers, get_modification_checker related path info root = Some (f, related') ∧
    checks info related' root f rows = Some answers ∧
    (links_to_others root ∨ ¬ table_link root root → Forall2 (exact info root) rows answers) ∧
    (¬ links_to_others root → Forall2 (direct info root) rows answers).
Proof.
  intros Hinfo Hg Hset Hpath Hrows. unfold get_modification_checker.
  destruct (set_table_ok root Hg) as (rel&Heq&Hrel).
  assert ((if schema_changed info then set_table root else Some related) = Some rel) as ->.
  { destruct (schema_changed info); [done|]. destruct Hset; congruence. }
  cbn [mbind option_bind].
  destruct (negb (existsb (table_modified info) rel)) eqn:Hnone.
  { destruct (checks_none info root rel rows) as (answers&Hans&Hall&Hlen). exists no_modifications, rel, answers.
    split; [done|]. split; [done|].
    assert (∀ q, rtc table_link root q.1 → ¬ modified info q) as Hno.
    { intros q Hq Hm. apply negb_true_iff, not_true_iff_false in Hnone. apply Hnone.
      apply existsb_exists. exists (entry q.1). split; [apply list_elem_of_In, Hrel; eauto|].
      apply table_modified_ok; [done|by eapply table_links_group|]. exists q.2. by destruct q. }
    split; intros _; apply Forall2_same_length_lookup_2; try done;
      intros i r b _ Hb; eapply Forall_lookup_1 in Hall; try exact Hb; simpl in Hall; subst b; (split; [done|]).
    - intros (q&Hq%links_tables&Hm). exfalso. by apply (Hno q).
    - intros Hm. exfalso. by apply (Hno (root, r)); [apply rtc_refl|]. }
  assert (answers_exactly info root rel (deep_modifications (make path))) as Hdeep.
  { split; [|split; [done|simpl; lia]]. split; [constructor|]. intros p l _ Hl. done. }
  destruct rel as [|tbl [|tbl2 rest]].
  - exfalso. apply (not_elem_of_nil (entry root)), Hrel. eauto using rtc_refl.
  - destruct (related_single root [tbl] tbl Hrel Hg eq_refl) as [-> Honly].
    apply negb_false_iff in Hnone. cbn [existsb] in Hnone. rewrite orb_false_r in Hnone.
    pose proof Hnone as (r0&c&Hc&_)%table_modified_ok; [|done..]. simpl in *. rewrite Hc. simpl.
    destruct (checks_direct info root [entry root] (modifications (changes c)) rows) as (answers&Hans&Hall); [done| | |].
    { by eapply Forall_lookup_1 in Hinfo. }
    { intros r. split; [by exists c|]. intros (c'&Hc'&?). simpl in *. congruence. }
    do 3 eexists. split; [done|]. split; [done|]. split; [|done].
    intros [(u&Hu&Hne)|Hself]; [by destruct Hne; apply Honly|]. eapply Forall2_impl; [exact Hall|].
    intros r b. by apply direct_exact.
  - pose proof (several_related _ _ _ _ Hg Hrel) as Hothers.
    destruct (checks_exact info root (tbl :: tbl2 :: rest) (deep_modifications (make path)) rows) as (answers&?&?); [done..|].
    do 3 eexists. do 2 (split; [done|]). by split.
Qed.
End Claims.

(** ** A group of people with friends and dogs

    Table 0 holds people: each of the first five is a friend of the next
    (column 0) and has one dog (column 1, a list).  Table 1 holds dogs, which
    link back to their owner. *)
#[local] Existing Instance debug.

Module DeepSamples.
#[export] Instance people : LinkTables Z := {
  group_size := 2;
  get_index_in_group t := if (0 <=? t) && (t <? 2) then t else npos;
  get_column_count t := if t =? 0 then 2%nat else 1%nat;
  get_column_type t i := if (t =? 0) && (i =? 1)%nat then type_LinkList else type_Link;
  get_link_target t i := if (t =? 0) && (i =? 1)%nat then 1 else 0;
  is_null_link t i r := negb ((0 <=? r) && (r <? 5));
  get_link t i r := if t =? 0 then Z.min 5 (Z.max 0 r + 1) else Z.min 4 (Z.max 0 r);
  get_linklist t i r := [Z.min 5 (Z.max 0 r)] }.

#[export] Instance people_laws : LinkTablesLaws Z.
Proof.
  split; unfold group_level; simpl.
  - slia.
  - intros t. destruct (Z.leb_spec 0 t), (Z.ltb_spec t 2); simpl; lia.
  - intros t t'. destruct (Z.leb_spec 0 t), (Z.ltb_spec t 2), (Z.leb_spec 0 t'), (Z.ltb_spec t' 2); simpl; slia.
  - intros t i _. destruct ((t =? 0) && (i =? 1)%nat); vm_compute; split; congruence.
  - intros t i r _. destruct (_ =? _); slia.
  - intros t i r. repeat constructor; slia.
Defined.

Definition modified_rows (rows : list Z) : CollectionChangeBuilder (list Chunk) :=
  ChangeBuilder.with_modifications ChangeBuilder.empty_builder (default [] (IndexSet.of_list (build := debug) rows)).

(** The dog in row 4 was modified. *)
Definition dog_changed : TransactionChangeInfo (list Chunk) :=
  Eval vm_compute in
  mkTransactionChangeInfo [] [] [] [modified_rows []; modified_rows [4]] [] [] false true.

Definition no_path : list Path := replicate 4 (mkPath 0 0 0 false).

(** People only: the friend in row 1 was modified. *)
Definition only_people : LinkTables Z := {|
  group_size := 1;
  get_index_in_group t := if t =? 0 then t else npos;
  get_column_count t := 1%nat;
  get_column_type t i := type_Link;
  get_link_target t i := 0;
  is_null_link t i r := negb (r =? 0);
  get_link t i r := 1;
  get_linklist t i r := [] |}.

Definition friend_changed : TransactionChangeInfo (list Chunk) :=
  Eval vm_compute in mkTransactionChangeInfo [] [] [] [modified_rows [1]] [] [] false true.
End DeepSamples.
Import DeepSamples.

#[local] Instance info_ok_dec (info : TransactionChangeInfo (list Chunk)) : Decision (info_ok info).
Proof. unfold info_ok, set_wf; simpl. apply _. Defined.

#[local] Instance group_level_dec (t : Z) : Decision (group_level t).
Proof. unfold group_level. apply _. Defined.

Lemma set_table_correct_witness :
  group_level 0 ∧ ∃ related, set_table 0 = Some related ∧ NoDup (table_ndx <$> related) ∧ length related = 2%nat.
Proof.
  split; [by_decision|].
  destruct (set_table_correct 0) as (related&Heq&Hnd&_); [by_decision|].
  exists related. split; [done|]. split; [done|]. revert Heq. vm_compute. by intros [= <-].
Defined.

Lemma modification_checker_exact_witness :
  ∃ f related answers, get_modification_checker [] no_path dog_changed 0 = Some (f, related) ∧
    checks (ops := chunked_ops (build := debug)) dog_changed related 0 f [0; 1; 2; 3; 0; 4] = Some answers ∧
    Forall2 (exact dog_changed 0) [0; 1; 2; 3; 0; 4] answers ∧ answers = [false; false; true; true; false; true].
Proof.
  destruct (modification_checker_exact (set_laws := chunked_laws (build := debug)) dog_changed 0 [] no_path
    [0; 1; 2; 3; 0; 4]) as (f&related&answers&Hf&Ha&Hall&_);
    [by_decision|by_decision|by left|done|by_decision|].
  exists f, related, answers. split; [exact Hf|]. split; [exact Ha|]. split.
  - apply Hall. left. exists 1. split; [|done]. exists 1%nat. split; [by_decision|]. split; done.
  - clear Hall. revert Hf. vm_compute. intros [= <- <-]. revert Ha. vm_compute. by intros [= <-].
Defined.

(** The function made for a table that links only to itself misses changes
    of the rows it links to: the friend of row 0 was modified, the checker of
    the same tables says so, but the function does not. *)
Theorem self_links_ignored :
  reaches_modified (core := only_people) friend_changed 3 (0, 0) ∧
  ∃ f related s, get_modification_checker (core := only_people) [] no_path friend_changed 0 = Some (f, related) ∧
    checks (ops := chunked_ops (build := debug)) (core := only_people) friend_changed related 0 f [0] = Some [false] ∧
    call (ops := chunked_ops (build := debug)) (core := only_people) friend_changed related 0 0 (make no_path) =
      Some (true, s).
Proof.
  split.
  - exists (0, 1). split.
    + apply (bsteps_weaken 1); [lia|]. apply bsteps_once. exists 0%nat. split; [by_decision|]. done.
    + eexists. split; [done|]. by_decision.
  - eexists _, _, _. split; [by vm_compute|]. split; [by vm_compute|]. by vm_compute.
Qed.
