(* ===== verification/CollectionNotifier.v ===== *)
(** [realm::_impl::CollectionNotifier] (ObjectStore/src/impl/collection_notifier.cpp
    and its header): the callbacks of a collection, the changes accumulated for
    each of them, and their delivery.  Mutexes are not modelled; a callback runs
    without any of them held, so that it may add and remove callbacks. *)
From S2P Require Import Prelude ChunkedRangeVector IndexSetSpec ChangeBuilder DeepChange.
Import ChangeBuilder.

(** [VersionID] of the core *)
Record VersionID := mkVersionID { version : Z; version_index : Z }.

(** [CollectionNotifier::Callback]: the function is an identity, or null after
    it has been moved from. *)
Record Callback (T : Type) := mkCallback {
  fn : option nat;
  accumulated_changes : CollectionChangeBuilder T;
  changes_to_deliver : CollectionChangeSet T;
  token : Z;
  initial_delivered : bool;
  skip_next : bool }.
Arguments mkCallback {T} _ _ _ _ _ _.
Arguments fn {T} _.
Arguments accumulated_changes {T} _.
Arguments changes_to_deliver {T} _.
Arguments token {T} _.
Arguments initial_delivered {T} _.
Arguments skip_next {T} _.

(** The Realm and the shared group are identities. *)
Record CollectionNotifier (T : Type) := mkCollectionNotifier {
  m_realm : option nat;
  m_sg_version : VersionID;
  m_sg : option nat;
  m_has_run : bool;
  m_error : bool;
  m_related_tables : list RelatedTable;
  m_callbacks : list (Callback T);
  m_have_callbacks : bool;
  m_callback_index : Z;
  m_callback_count : Z;
  m_next_token : Z }.
Arguments mkCollectionNotifier {T} _ _ _ _ _ _ _ _ _ _ _.
Arguments m_realm {T} _.
Arguments m_sg_version {T} _.
Arguments m_sg {T} _.
Arguments m_has_run {T} _.
Arguments m_error {T} _.
Arguments m_related_tables {T} _.
Arguments m_callbacks {T} _.
Arguments m_have_callbacks {T} _.
Arguments m_callback_index {T} _.
Arguments m_callback_count {T} _.
Arguments m_next_token {T} _.

(** A call of a function of the application *)
Inductive Call (T : Type) :=
| CallBefore (f : nat) (changes : CollectionChangeSet T)
| CallAfter (f : nat) (changes : CollectionChangeSet T)
| CallError (f : nat).
Arguments CallBefore {T} _ _.
Arguments CallAfter {T} _ _.
Arguments CallError {T} _.

(** What such a function does with the notifier while it is called *)
Inductive CallbackAction := AddCallback (f : nat) | RemoveCallback (t : Z).

Module Notifier.
Section Operations.
Context {build : Build} {T : Type} {ops : IndexSetOps T}.
Implicit Types (n : CollectionNotifier T) (cb : Callback T) (cs : list (Callback T)).

(** Assignment to fields *)
Definition with_callbacks n cs : CollectionNotifier T :=
  mkCollectionNotifier (m_realm n) (m_sg_version n) (m_sg n) (m_has_run n) (m_error n) (m_related_tables n)
    cs (m_have_callbacks n) (m_callback_index n) (m_callback_count n) (m_next_token n).
Definition with_have n (b : bool) : CollectionNotifier T :=
  mkCollectionNotifier (m_realm n) (m_sg_version n) (m_sg n) (m_has_run n) (m_error n) (m_related_tables n)
    (m_callbacks n) b (m_callback_index n) (m_callback_count n) (m_next_token n).
Definition with_index n (i : Z) : CollectionNotifier T :=
  mkCollectionNotifier (m_realm n) (m_sg_version n) (m_sg n) (m_has_run n) (m_error n) (m_related_tables n)
    (m_callbacks n) (m_have_callbacks n) i (m_callback_count n) (m_next_token n).
Definition with_count n (c : Z) : CollectionNotifier T :=
  mkCollectionNotifier (m_realm n) (m_sg_version n) (m_sg n) (m_has_run n) (m_error n) (m_related_tables n)
    (m_callbacks n) (m_have_callbacks n) (m_callback_index n) c (m_next_token n).
Definition with_next_token n (t : Z) : CollectionNotifier T :=
  mkCollectionNotifier (m_realm n) (m_sg_version n) (m_sg n) (m_has_run n) (m_error n) (m_related_tables n)
    (m_callbacks n) (m_have_callbacks n) (m_callback_index n) (m_callback_count n) t.
Definition with_error n (b : bool) : CollectionNotifier T :=
  mkCollectionNotifier (m_realm n) (m_sg_version n) (m_sg n) (m_has_run n) b (m_related_tables n)
    (m_callbacks n) (m_have_callbacks n) (m_callback_index n) (m_callback_count n) (m_next_token n).
Definition with_realm n (r : option nat) : CollectionNotifier T :=
  mkCollectionNotifier r (m_sg_version n) (m_sg n) (m_has_run n) (m_error n) (m_related_tables n)
    (m_callbacks n) (m_have_callbacks n) (m_callback_index n) (m_callback_count n) (m_next_token n).
Definition with_sg n (g : option nat) : CollectionNotifier T :=
  mkCollectionNotifier (m_realm n) (m_sg_version n) g (m_has_run n) (m_error n) (m_related_tables n)
    (m_callbacks n) (m_have_callbacks n) (m_callback_index n) (m_callback_count n) (m_next_token n).
Definition with_run n (v : VersionID) : CollectionNotifier T :=
  mkCollectionNotifier (m_realm n) v (m_sg n) true (m_error n) (m_related_tables n)
    (m_callbacks n) (m_have_callbacks n) (m_callback_index n) (m_callback_count n) (m_next_token n).

Definition no_changes : CollectionChangeSet T := mkChangeSet set_nil set_nil set_nil set_nil [] [].

(** The constructor, at the version of the current transaction of the Realm *)
Definition make (realm : nat) (v : VersionID) : CollectionNotifier T :=
  mkCollectionNotifier (Some realm) v None false false [] [] false npos npos 0.

(** ** Callbacks *)

(** The token, the notifier, and whether the worker is woken up *)
Definition add_callback (callback : nat) n : Z * CollectionNotifier T * bool :=
  let t := m_next_token n in
  let n := with_next_token n (t +w 1) in
  let n := with_callbacks n
    (m_callbacks n ++ [mkCallback (Some callback) empty_builder no_changes t false false]) in
  if m_callback_index n =? npos then (t, with_have n true, true) else (t, n, false).

(** The position of the callback, the end of the vector if there is none *)
Definition find_callback (t : Z) n : option nat :=
  assert! m_error n || (0 <? length (m_callbacks n))%nat;
  let it := find_if (λ c, token c =? t) (m_callbacks n) in
  assert! m_error n || (it <? length (m_callbacks n))%nat;
  Some it.

Definition remove_callback (t : Z) n : option (CollectionNotifier T) :=
  idx ← find_callback t n;
  if (idx =? length (m_callbacks n))%nat then Some n
  else
    let n := if negb (m_callback_index n =? npos) then
               if Z.of_nat idx <=? m_callback_index n then with_index n (m_callback_index n -w 1) else n
             else n in
    let n := with_count n (m_callback_count n -w 1) in
    let n := with_callbacks n (take idx (m_callbacks n) ++ drop (S idx) (m_callbacks n)) in
    Some (with_have n (negb (length (m_callbacks n) =? 0)%nat)).

Definition set_skip_next cb (b : bool) : Callback T :=
  mkCallback (fn cb) (accumulated_changes cb) (changes_to_deliver cb) (token cb) (initial_delivered cb) b.

(** Called in a write transaction on the thread of the Realm, which is checked
    by exceptions. *)
Definition suppress_next_notification (t : Z) n : option (CollectionNotifier T) :=
  assert! bool_decide (is_Some (m_realm n));
  idx ← find_callback t n;
  Some (with_callbacks n (alter (λ cb, set_skip_next cb true) idx (m_callbacks n))).

Definition unregister n : CollectionNotifier T := with_realm n None.

Definition is_alive n : bool := bool_decide (is_Some (m_realm n)).

Definition is_for_realm (realm : nat) n : bool := bool_decide (m_realm n = Some realm).

(** ** The worker *)

Definition attach_to (sg : nat) n : option (CollectionNotifier T) :=
  assert! bool_decide (m_sg n = None); Some (with_sg n (Some sg)).

Definition detach n : option (CollectionNotifier T) :=
  assert! bool_decide (is_Some (m_sg n)); Some (with_sg n None).

(** [v] is the version of the current transaction of the shared group. *)
Definition prepare_handover (v : VersionID) n : option (CollectionNotifier T) :=
  assert! bool_decide (is_Some (m_sg n));
  let n := with_run n v in
  assert_debug! forallb (λ cb, negb (skip_next cb)) (m_callbacks n);
  Some n.

(** [std::max_element] by the index of the table *)
Definition max_table (related : list RelatedTable) : Z :=
  foldr (λ tbl m, Z.max (table_ndx tbl) m) 0 related.

(** [do_add] is the result of the virtual function, which may have changed
    [info] itself. *)
Definition add_required_change_info (do_add : bool) (info : TransactionChangeInfo T) n :
    option (TransactionChangeInfo T) :=
  if negb do_add || (length (m_related_tables n) =? 0)%nat then Some info
  else
    let max := max_table (m_related_tables n) in
    let needed := table_modifications_needed info in
    let needed := if Z.of_nat (length needed) <=? max then resize (Z.to_nat (max +w 1)) false needed else needed in
    needed ← foldlM (λ l tbl, _ ← l !! Z.to_nat (table_ndx tbl); Some (<[Z.to_nat (table_ndx tbl) := true]> l))
               needed (m_related_tables n);
    Some (mkTransactionChangeInfo needed (table_moves_needed info) (lists info) (tables info)
            (column_indices info) (table_indices info) (track_all info) (schema_changed info)).

Definition set_accumulated cb (b : CollectionChangeBuilder T) : Callback T :=
  mkCallback (fn cb) b (changes_to_deliver cb) (token cb) (initial_delivered cb) (skip_next cb).

(** The loop of [add_changes] for one callback *)
Definition add_change (change : CollectionChangeBuilder T) cb : option (Callback T) :=
  if skip_next cb then
    assert_debug! ChangeBuilder.empty (changes (accumulated_changes cb));
    Some (set_skip_next cb false)
  else
    b ← merge (accumulated_changes cb) change;
    Some (set_accumulated cb b).

Definition add_changes (change : CollectionChangeBuilder T) n : option (CollectionNotifier T) :=
  cs ← mapM (add_change change) (m_callbacks n);
  Some (with_callbacks n cs).

(** ** Delivery *)

(** A builder whose sets have been moved from *)
Definition moved_from (b : CollectionChangeBuilder T) : CollectionChangeBuilder T := with_changes b no_changes.

Definition package_callback cb : option (Callback T) :=
  s ← finalize (accumulated_changes cb);
  Some (mkCallback (fn cb) (moved_from (accumulated_changes cb)) s (token cb) (initial_delivered cb) (skip_next cb)).

(** [prepare] is the result of the virtual function [prepare_to_deliver]. *)
Definition package_for_delivery (prepare : bool) n : option (bool * CollectionNotifier T) :=
  if negb prepare then Some (false, n)
  else
    cs ← mapM package_callback (m_callbacks n);
    let n := with_callbacks n cs in
    Some (true, with_count n (Z.of_nat (length (m_callbacks n)))).

Section Calls.
(** What the functions of the application do *)
Context (behaviour : Call T → list CallbackAction).

(** The notifier and the calls made so far *)
Notation State := (CollectionNotifier T * list (Call T))%type.
Implicit Types (s : State).

Definition run_action n (a : CallbackAction) : option (CollectionNotifier T) :=
  match a with
  | AddCallback f => Some (add_callback f n).1.2
  | RemoveCallback t => remove_callback t n
  end.

(** A call with the mutex unlocked *)
Definition make_call (call : Call T) s : option State :=
  n ← foldlM run_action s.1 (behaviour call);
  Some (n, s.2 ++ [call]).

(** [for_each_callback]: the loop after [m_callback_index] has been increased;
    a callback past the end of the vector is undefined. *)
Fixpoint for_each_loop (f : nat → Callback T → State → option State) (fuel : nat) s : option State :=
  if m_callback_index s.1 <? m_callback_count s.1 then
    match fuel with
    | O => None
    | S fuel =>
        let i := Z.to_nat (m_callback_index s.1) in
        cb ← m_callbacks s.1 !! i;
        s ← f i cb s;
        for_each_loop f fuel (with_index s.1 (m_callback_index s.1 +w 1), s.2)
    end
  else Some (with_index s.1 npos, s.2).

Definition for_each_callback (f : nat → Callback T → State → option State) (fuel : nat) s : option State :=
  assert_debug! m_callback_count s.1 <=? Z.of_nat (length (m_callbacks s.1));
  for_each_loop f fuel (with_index s.1 (m_callback_index s.1 +w 1), s.2).

Definition before_callback (i : nat) cb s : option State :=
  if ChangeBuilder.empty (changes_to_deliver cb) then Some s
  else f ← fn cb; make_call (CallBefore f (changes_to_deliver cb)) s.

Definition before_advance (fuel : nat) s : option State := for_each_callback before_callback fuel s.

(** [initial_delivered] is set and the changes are moved from. *)
Definition set_delivered cb : Callback T :=
  mkCallback (fn cb) (accumulated_changes cb) no_changes (token cb) true (skip_next cb).

Definition after_callback (i : nat) cb s : option State :=
  if initial_delivered cb && ChangeBuilder.empty (changes_to_deliver cb) then Some s
  else
    f ← fn cb;
    make_call (CallAfter f (changes_to_deliver cb))
      (with_callbacks s.1 (<[i := set_delivered cb]> (m_callbacks s.1)), s.2).

Definition after_advance (fuel : nat) s : option State := for_each_callback after_callback fuel s.

Definition set_fn_null cb : Callback T :=
  mkCallback None (accumulated_changes cb) (changes_to_deliver cb) (token cb) (initial_delivered cb) (skip_next cb).

Definition error_callback (i : nat) cb s : option State :=
  f ← fn cb;
  s ← make_call (CallError f) (with_callbacks s.1 (<[i := set_fn_null cb]> (m_callbacks s.1)), s.2);
  n ← remove_callback (token cb) s.1;
  Some (n, s.2).

Definition deliver_error (fuel : nat) s : option State :=
  let n := with_error s.1 true in
  let n := with_count n (Z.of_nat (length (m_callbacks n))) in
  for_each_callback error_callback fuel (n, s.2).
End Calls.
End Operations.
End Notifier.
