(* ===== verification/CollectionNotifierChanges.v ===== *)
(** A round of calls of a collection notifier: which callbacks are called, with
    what, and that the index and the count stay right.  The bookkeeping is that
    of [ConnectionChangeNotifier], so that its lemmas apply to the [view] of a
    notifier that keeps only the tokens.  Then what a callback is told about the
    rows: the changes of all transactions since the last delivery, composed. *)
From stdpp Require Import list.
From stdpp Require Import gmap list.
From S2P Require Import Prelude ChunkedRangeVector IndexSet IndexSetTheory IndexSetMerge IndexSetSpec RowMap ChangeBuilder ChangeTheory ChangeMerge ChangeFinal ConnectionChange ConnectionChangeTheory DeepChange CollectionNotifier.
Import ChangeBuilder Notifier.

Section Rounds.
Context {build : Build} {T : Type} {ops : IndexSetOps T}.
Implicit Types (n : CollectionNotifier T) (cb : Callback T) (front todo fresh : list (Callback T)).

Definition reg cb : Registration := mkRegistration 0 (token cb).

Definition view n : ConnectionChangeNotifier :=
  mkNotifier (reg <$> m_callbacks n) (m_callback_index n) (m_callback_count n) (m_next_token n).

Definition tokens n : list Z := token <$> m_callbacks n.

Lemma reg_tokens (l : list (Callback T)) : ConnectionChange.token <$> (reg <$> l) = token <$> l.
Proof. by rewrite <-list_fmap_compose. Qed.

Lemma find_reg t (l : list (Callback T)) :
  find_if (λ c, ConnectionChange.token c =? t) (reg <$> l) = find_if (λ c, token c =? t) l.
Proof.
  induction l as [|c l IH]; [done|]. rewrite fmap_cons. cbn [find_if].
  change (ConnectionChange.token (reg c)) with (token c). by rewrite IH.
Qed.

Notation without t l := (filter (λ cb, token cb ≠ t) l).

Lemma without_reg t (l : list (Callback T)) :
  filter (λ c, ConnectionChange.token c ≠ t) (reg <$> l) = reg <$> without t l.
Proof. by rewrite filter_fmap. Qed.

(** ** Adding and removing callbacks *)
Lemma view_add f n : view (add_callback f n).1.2 = (ConnectionChange.add_callback 0 (view n)).2.
Proof.
  unfold add_callback, view, ConnectionChange.add_callback. destruct (_ =? _); simpl; by rewrite fmap_app.
Qed.

Lemma callbacks_add f n :
  m_callbacks (add_callback f n).1.2 =
  m_callbacks n ++ [mkCallback (Some f) empty_builder no_changes (m_next_token n) false false].
Proof. unfold add_callback. by destruct (_ =? _). Qed.

Lemma error_add f n : m_error (add_callback f n).1.2 = m_error n.
Proof. unfold add_callback. by destruct (_ =? _). Qed.

Lemma find_callback_ok t n :
  m_error n = true ∨ t ∈ tokens n → find_callback t n = Some (find_if (λ c, token c =? t) (m_callbacks n)).
Proof.
  unfold find_callback, tokens. intros [-> |Hin]; [done|].
  destruct (find_if_spec (λ c : Callback T, token c =? t) (m_callbacks n)) as (l1&l2&Hl&Hf&H1&H2).
  destruct l2 as [|c l2].
  - rewrite app_nil_r in Hl. rewrite <-Hl in H1. apply list_elem_of_fmap in Hin as (c&->&Hc).
    rewrite Forall_forall in H1. specialize (H1 c Hc). simpl in H1. by rewrite Z.eqb_refl in H1.
  - rewrite Hf, Hl, length_app. simpl. by rewrite !(proj2 (Nat.ltb_lt _ _)), !orb_true_r by lia.
Qed.

(** Erasing the first callback with a token leaves those without it. *)
Lemma without_find t (l : list (Callback T)) :
  NoDup (token <$> l) →
  without t l = take (find_if (λ c, token c =? t) l) l ++ drop (S (find_if (λ c, token c =? t) l)) l.
Proof.
  intros Hnd. destruct (find_if_spec (λ c : Callback T, token c =? t) l) as (l1&l2&->&->&H1&H2).
  assert (without t l1 = l1) as Hl1.
  { apply filter_all. eapply Forall_impl; [exact H1|]. intros c Hc%Z.eqb_neq. done. }
  rewrite filter_app, Hl1, take_app_length. f_equal. rewrite drop_app_ge, Nat.sub_succ_l, Nat.sub_diag by lia.
  destruct l2 as [|c l2]; [done|]. apply Z.eqb_eq in H2. rewrite filter_cons, decide_False by tauto. simpl.
  rewrite fmap_app, fmap_cons in Hnd. apply NoDup_app in Hnd as (_&_&[Hc _]%NoDup_cons).
  apply filter_all, Forall_forall. intros x Hx E. apply Hc. rewrite H2, <-E. by apply list_elem_of_fmap_2.
Qed.

Lemma remove_callback_ok t n :
  NoDup (tokens n) → m_error n = true ∨ t ∈ tokens n →
  ∃ n', remove_callback t n = Some n' ∧ view n' = ConnectionChange.remove_callback t (view n) ∧
    m_callbacks n' = without t (m_callbacks n) ∧ m_error n' = m_error n ∧ m_next_token n' = m_next_token n.
Proof.
  intros Hnd Ht. unfold remove_callback. rewrite find_callback_ok by done. simpl.
  unfold ConnectionChange.remove_callback. simpl. rewrite find_reg, length_fmap, without_find by done.
  destruct (Nat.eqb_spec (find_if (λ c, token c =? t) (m_callbacks n)) (length (m_callbacks n))) as [E|E].
  - exists n. rewrite E, take_ge, drop_ge, app_nil_r by lia. done.
  - eexists. split; [done|]. unfold view. simpl. rewrite <-fmap_take, <-fmap_drop, <-fmap_app.
    by repeat case_match.
Qed.

(** [m_have_callbacks] is right. *)
Definition have_ok n : Prop := m_have_callbacks n = negb (length (m_callbacks n) =? 0)%nat.

Lemma have_ok_add f n :
  have_ok n → (m_callbacks n = [] → m_callback_index n = npos) → have_ok (add_callback f n).1.2.
Proof.
  unfold have_ok. intros Hn Hi. rewrite callbacks_add, length_app, Nat.add_comm.
  unfold add_callback. simpl. destruct (Z.eqb_spec (m_callback_index n) npos) as [E|E]; [done|]. simpl. rewrite Hn.
  destruct (m_callbacks n); [by destruct E; apply Hi|done].
Qed.

Lemma have_ok_remove t n n' : have_ok n → remove_callback t n = Some n' → have_ok n'.
Proof.
  unfold have_ok, remove_callback. intros Hn. destruct (find_callback t n) as [i|]; [|done]. simpl.
  case_match; intros [= <-]; [done|]. simpl. by repeat case_match.
Qed.

(** ** A round *)

(** [front] has been called, [todo] is still to be called and [fresh] was added
    since the changes were packaged, when [bound] was the next token. *)
Definition round (bound : Z) front todo fresh n : Prop :=
  m_callbacks n = front ++ todo ++ fresh ∧
  in_round bound (reg <$> front) (reg <$> todo) (reg <$> fresh) (view n) ∧ have_ok n.

(** The callbacks of [l] that are still registered *)
Definition registered n (l : list (Callback T)) : list (Callback T) := filter (λ cb, token cb ∈ tokens n) l.

Lemma round_NoDup bound front todo fresh n : round bound front todo fresh n → NoDup (tokens n).
Proof. intros (_&R&_). unfold tokens. rewrite <-reg_tokens. apply (ir_tokens _ _ _ _ _ R). Qed.

Lemma round_old bound front todo fresh n cb :
  round bound front todo fresh n → cb ∈ front ++ todo → token cb < bound ∧ token cb ∈ tokens n.
Proof.
  intros (Hc&R&_) Hcb. split.
  - pose proof (ir_old _ _ _ _ _ R) as Hold. rewrite <-fmap_app, Forall_fmap, Forall_forall in Hold. by apply Hold.
  - unfold tokens. apply list_elem_of_fmap_2. rewrite Hc, (assoc_L (++)). apply elem_of_app. by left.
Qed.

Lemma registered_all bound front todo fresh n l :
  round bound front todo fresh n → l ⊆ front ++ todo → registered n l = l.
Proof.
  intros R Hl. apply filter_all, Forall_forall. intros cb Hcb. by apply (round_old _ _ _ _ _ _ R), Hl.
Qed.

Definition simple (bound : Z) (a : CallbackAction) : Prop :=
  match a with AddCallback _ => True | RemoveCallback t => t < bound end.

(** What an action does to the tokens registered and the next token; only after
    an error a callback may be removed that is not there. *)
Definition token_step (error : bool) (s : list Z * Z) (a : CallbackAction) : option (list Z * Z) :=
  match a with
  | AddCallback _ => Some (s.1 ++ [s.2], s.2 +w 1)
  | RemoveCallback t =>
      if error || bool_decide (t ∈ s.1) then Some (filter (λ u, u ≠ t) s.1, s.2) else None
  end.

Lemma token_steps_next error acts : ∀ s s',
  0 ≤ s.2 → foldlM (token_step error) s acts = Some s' → 0 ≤ s'.2 ≤ s.2 + Z.of_nat (length acts).
Proof.
  induction acts as [|a acts IH]; intros s s' Hs; simpl; [intros [= <-]; lia|].
  destruct (token_step error s a) as [s1|] eqn:H1; [|done]. simpl. intros H2.
  assert (0 ≤ s1.2 ≤ s.2 + 1) as Hs1.
  { destruct a as [f|t]; simpl in H1; [injection H1 as <-; simpl|case_match; [injection H1 as <-; simpl; lia|done]].
    unfold wadd, wrap, size_modulus. pose proof (Z.mod_le (s.2 + 1) 18446744073709551616 ltac:(lia) ltac:(lia)).
    pose proof (Z.mod_pos_bound (s.2 + 1) 18446744073709551616 ltac:(lia)). lia. }
  specialize (IH s1 s' ltac:(lia) H2). lia.
Qed.

(** Tokens in use are not given out again. *)
Lemma token_steps_fewer error bound acts : ∀ s s',
  0 ≤ bound ≤ s.2 → s.2 + Z.of_nat (length acts) < size_modulus → foldlM (token_step error) s acts = Some s' →
  bound ≤ s'.2 ∧ ∀ t, t < bound → t ∈ s'.1 → t ∈ s.1.
Proof.
  induction acts as [|a acts IH]; intros s s' Hb Hn; simpl in *.
  { intros [= <-]. split; [lia|]. auto. }
  destruct (token_step error s a) as [s1|] eqn:H1; [|done]. simpl. intros H2.
  assert (s.2 ≤ s1.2 ≤ s.2 + 1 ∧ ∀ t, t < bound → t ∈ s1.1 → t ∈ s.1) as [Hs1 Hin1].
  { destruct a as [f|u]; simpl in H1.
    - injection H1 as <-. simpl. rewrite wadd_small by (unfold size_modulus, npos in *; lia). split; [lia|].
      intros t Ht [?|Hin]%elem_of_app; [done|]. apply list_elem_of_singleton in Hin. lia.
    - case_match; [injection H1 as <-; simpl|done]. split; [lia|]. by intros t _ [_ ?]%list_elem_of_filter. }
  destruct (IH s1 s') as [? Hin]; [lia|lia|done|]. split; [done|]. intros t Ht Hs'. by apply Hin1, Hin.
Qed.

(** After an error nothing is missing. *)
Lemma token_steps_error acts : ∀ s, is_Some (foldlM (token_step true) s acts).
Proof. induction acts as [|a acts IH]; intros s; [by eexists|]. destruct a; simpl; apply IH. Qed.

(** The tokens below [bound] only become fewer. *)
Definition fewer (bound : Z) n n' : Prop := ∀ t, t ∈ tokens n' → t < bound → t ∈ tokens n.

Lemma action_in_round bound front todo fresh n a p :
  round bound front todo fresh n → simple bound a → m_next_token n + 1 < size_modulus →
  token_step (m_error n) (tokens n, m_next_token n) a = Some p →
  ∃ n' fresh', run_action n a = Some n' ∧ p = (tokens n', m_next_token n') ∧
    round bound (registered n' front) (registered n' todo) fresh' n' ∧ fewer bound n n' ∧
    m_error n' = m_error n ∧ m_next_token n' ≤ m_next_token n + 1.
Proof.
  intros R Ha Hnext Hp. pose proof R as (Hc&Rv&Hhave). destruct a as [f|t]; simpl in Hp.
  - destruct (add_in_round (λ _ _, None) _ _ _ _ _ [] 0 Rv Hnext) as (n1&[= <-]&_&R1&Hn1).
    exists (add_callback f n).1.2, (fresh ++ [mkCallback (Some f) empty_builder no_changes (m_next_token n) false false]).
    assert (round bound front todo (fresh ++ [mkCallback (Some f) empty_builder no_changes (m_next_token n) false false])
      (add_callback f n).1.2) as R'.
    { split; [by rewrite callbacks_add, Hc, <-!app_assoc|]. split; [rewrite view_add, fmap_app; exact R1|].
      apply have_ok_add; [done|]. rewrite Hc. intros [Hf _]%app_nil. pose proof (ir_index _ _ _ _ _ Rv) as Hi.
      by rewrite Hf in Hi. }
    assert (m_next_token (add_callback f n).1.2 = m_next_token n +w 1) as Hnt by (unfold add_callback; by case_match).
    split; [done|]. split.
    { injection Hp as <-. unfold tokens. by rewrite callbacks_add, fmap_app, Hnt. }
    rewrite (registered_all _ _ _ _ _ front R'), (registered_all _ _ _ _ _ todo R')
      by (intros x Hx; apply elem_of_app; tauto).
    split; [done|]. split; [|split; [apply error_add|]].
    + intros u. unfold tokens. rewrite callbacks_add, fmap_app, elem_of_app. intros [?|Hu] Hlt; [done|].
      apply list_elem_of_singleton in Hu. simpl in Hu. pose proof (ir_next _ _ _ _ _ Rv). simpl in *. lia.
    + simpl in Hn1. rewrite Hnt. lia.
  - destruct (m_error n || bool_decide (t ∈ tokens n)) eqn:Ht; [|done]. injection Hp as <-.
    destruct (remove_callback_ok t n) as (n'&Hrun&Hview&Hcb&Herr&Hnx);
      [by eapply round_NoDup|apply orb_true_iff in Ht; by rewrite bool_decide_eq_true in Ht|].
    destruct (remove_in_round _ _ _ _ _ t Rv Ha) as [R1 _]. rewrite <-Hview, !without_reg in R1.
    assert (tokens n' = filter (λ u, u ≠ t) (tokens n)) as Htok.
    { unfold tokens. by rewrite Hcb, filter_fmap. }
    assert (∀ l, l ⊆ front ++ todo → registered n' l = without t l) as Hreg.
    { intros l Hl. apply filter_ext_in. intros cb Hin. rewrite Htok, list_elem_of_filter.
      split; [tauto|]. intros Hne. split; [done|]. by apply (round_old _ _ _ _ _ _ R), Hl. }
    exists n', fresh. rewrite !Hreg by (intros x Hx; apply elem_of_app; tauto).
    split; [done|]. split; [by rewrite Htok, Hnx|]. split; [|split; [|split; [done|lia]]].
    + split; [|split; [done|by eapply have_ok_remove]]. rewrite Hcb, Hc, !filter_app. do 2 f_equal. apply filter_all.
      pose proof (ir_fresh _ _ _ _ _ Rv) as Hf. rewrite Forall_fmap in Hf. eapply Forall_impl; [exact Hf|].
      intros cb. simpl in *. lia.
    + intros u Hu _. rewrite Htok in Hu. by apply list_elem_of_filter in Hu as [_ ?].
Qed.

Lemma registered_fewer bound front todo fresh n n1 n2 l :
  round bound front todo fresh n → l ⊆ front ++ todo → fewer bound n1 n2 →
  registered n2 (registered n1 l) = registered n2 l.
Proof.
  intros R Hl Hf. unfold registered. rewrite list_filter_filter. apply filter_ext_in. intros cb Hcb.
  split; [tauto|]. intros Hin. split; [done|]. apply Hf; [done|]. by apply (round_old _ _ _ _ _ _ R), Hl.
Qed.

Lemma actions_in_round bound acts : ∀ front todo fresh n p,
  round bound front todo fresh n → Forall (simple bound) acts →
  m_next_token n + Z.of_nat (length acts) < size_modulus →
  foldlM (token_step (m_error n)) (tokens n, m_next_token n) acts = Some p →
  ∃ n' fresh', foldlM run_action n acts = Some n' ∧ p = (tokens n', m_next_token n') ∧
    round bound (registered n' front) (registered n' todo) fresh' n' ∧ fewer bound n n' ∧
    m_error n' = m_error n ∧ m_next_token n' ≤ m_next_token n + Z.of_nat (length acts).
Proof.
  induction acts as [|a acts IH]; intros front todo fresh n p R Hacts Hnext Hp; simpl in *.
  { exists n, fresh. injection Hp as <-. rewrite !(registered_all _ _ _ _ _ _ R) by (intros x Hx; apply elem_of_app; tauto).
    split_and!; [done|done|done| |done|lia]. by intros ?. }
  apply Forall_cons in Hacts as [Ha Hacts].
  destruct (token_step _ _ a) as [p1|] eqn:Hp1; [|done]. simpl in Hp.
  destruct (action_in_round _ _ _ _ _ _ _ R Ha ltac:(lia) Hp1) as (n1&fresh1&->&->&R1&F1&E1&L1). simpl.
  rewrite <-E1 in Hp. destruct (IH _ _ _ _ _ R1 Hacts ltac:(lia) Hp) as (n2&fresh2&->&->&R2&F2&E2&L2).
  exists n2, fresh2. rewrite !(registered_fewer _ _ _ _ _ n1 n2 _ R) in R2 by (done || (intros x Hx; apply elem_of_app; tauto)).
  split_and!; [done|done|done| |congruence|lia]. intros t Ht Hlt. apply F1; [by apply F2|done].
Qed.

(** ** The whole round *)
Lemma view_with_index n i :
  view (with_index n i) = mkNotifier (reg <$> m_callbacks n) i (m_callback_count n) (m_next_token n).
Proof. done. Qed.

(** Between two rounds all packaged callbacks are still to be called. *)
Lemma round_end bound front fresh n :
  round bound front [] fresh n → round bound [] front fresh (with_index n npos).
Proof.
  intros (Hc&R&Hh). pose proof R as [R1 R2 R3 R4 R5 R6 R7 R8].
  split; [done|]. split; [|done]. split; rewrite ?view_with_index; cbn in *; try done.
  - by rewrite app_nil_r in R3.
  - by rewrite Nat.add_0_r in R7.
  - by rewrite Nat.add_0_r in R8.
Qed.

Section Loop.
Context (f : nat → Callback T → CollectionNotifier T * list (Call T) →
             option (CollectionNotifier T * list (Call T))).
(** What is done to a callback, what it does, and the calls made *)
Context (g : Callback T → Callback T) (acts : Callback T → list CallbackAction) (calls : Callback T → list (Call T)).
Hypothesis g_token : ∀ cb, token (g cb) = token cb.
Hypothesis f_ok : ∀ i cb n log, m_callbacks n !! i = Some cb → fn cb ≠ None →
  f i cb (n, log) = n' ← foldlM run_action (with_callbacks n (<[i := g cb]> (m_callbacks n))) (acts cb);
                    Some (n', log ++ calls cb).

(** The callbacks packaged are called in order unless they have been removed;
    [s] are the tokens registered and the next token. *)
Fixpoint tell (error : bool) (snapshot : list (Callback T)) (s : list Z * Z) : option (list (Call T) * (list Z * Z)) :=
  match snapshot with
  | [] => Some ([], s)
  | cb :: snapshot =>
      if decide (token cb ∈ s.1) then
        s ← foldlM (token_step error) s (acts cb);
        r ← tell error snapshot s;
        Some (calls cb ++ r.1, r.2)
      else tell error snapshot s
  end.

Notation total l := (sum_list_with (λ cb, length (acts cb)) l).

Lemma tell_next_token error snapshot : ∀ s r,
  0 ≤ s.2 → tell error snapshot s = Some r → 0 ≤ r.2.2 ≤ s.2 + Z.of_nat (total snapshot).
Proof using Type.
  induction snapshot as [|cb snapshot IH]; intros s r Hs; simpl; [intros [= <-]; simpl; lia|].
  case_decide; [|intros Hr; specialize (IH s r Hs Hr); lia].
  destruct (foldlM _ s _) as [s'|] eqn:Hs'; [|done]. simpl.
  destruct (tell _ snapshot s') as [r'|] eqn:Hr'; [|done]. intros [= <-]. simpl.
  apply token_steps_next in Hs'; [|done]. specialize (IH s' r' ltac:(lia) Hr'). lia.
Qed.

Definition told bound cb : Prop := token cb < bound ∧ fn cb ≠ None ∧ Forall (simple bound) (acts cb).

(** The turn of one callback *)
Lemma turn_in_round bound front cb todo fresh n log p :
  round bound front (cb :: todo) fresh n → told bound cb →
  m_next_token n + Z.of_nat (length (acts cb)) < size_modulus →
  foldlM (token_step (m_error n)) (tokens n, m_next_token n) (acts cb) = Some p →
  let n0 := with_index n (m_callback_index n +w 1) in
  (m_callback_index n0 <? m_callback_count n0) = true ∧
  m_callbacks n0 !! Z.to_nat (m_callback_index n0) = Some cb ∧
  ∃ n' fresh', f (Z.to_nat (m_callback_index n0)) cb (n0, log) = Some (n', log ++ calls cb) ∧
    p = (tokens n', m_next_token n') ∧
    round bound (registered n' (front ++ [g cb])) (registered n' todo) fresh' n' ∧ fewer bound n n' ∧
    m_error n' = m_error n ∧ m_next_token n' ≤ m_next_token n + Z.of_nat (length (acts cb)).
Proof.
  intros (Hc&R&Hh) (Hlt&Hfn&Hacts) Hnext Hp n0.
  pose proof (next_index _ _ _ _ _ R) as Hi. simpl in Hi. rewrite length_fmap in Hi.
  pose proof (ir_count _ _ _ _ _ R) as Hcount. simpl in Hcount. rewrite !length_fmap in Hcount.
  pose proof (next_turn _ _ _ _ _ _ R) as R0.
  set (cs := front ++ g cb :: todo ++ fresh).
  assert (reg (g cb) = reg cb) as Hg by (unfold reg; by rewrite g_token).
  assert (round bound (front ++ [g cb]) todo fresh (with_callbacks n0 cs)) as R1.
  { split; [simpl; unfold cs; by rewrite <-app_assoc|]. split.
    2:{ unfold have_ok, cs in *. simpl. rewrite Hh, Hc, !length_app. simpl. by rewrite !Nat.add_succ_r. }
    rewrite fmap_app, fmap_cons, Hg.
    replace (view (with_callbacks n0 cs)) with (mkNotifier (ConnectionChange.m_callbacks (view n))
      (ConnectionChange.m_callback_index (view n) +w 1) (ConnectionChange.m_callback_count (view n))
      (ConnectionChange.m_next_token (view n))); [done|].
    unfold view, cs. simpl. by rewrite Hc, !fmap_app, !fmap_cons, fmap_app, Hg. }
  assert (tokens (with_callbacks n0 cs) = tokens n) as Htok.
  { unfold tokens, cs. simpl. rewrite Hc, !fmap_app, !fmap_cons, fmap_app. by rewrite g_token. }
  assert (m_callbacks n0 !! length front = Some cb) as Hl by (simpl; rewrite Hc; by apply list_lookup_middle).
  split; [simpl; rewrite Hi, Hcount; apply Z.ltb_lt; simpl; lia|].
  replace (Z.to_nat (m_callback_index n0)) with (length front) by (simpl; rewrite Hi; lia).
  split; [done|]. rewrite <-Htok in Hp.
  destruct (actions_in_round _ _ _ _ _ _ _ R1 Hacts Hnext Hp) as (n'&fresh'&Hrun&Hp'&R'&F'&E'&L').
  exists n', fresh'. rewrite f_ok by done.
  assert (<[length front:=g cb]> (m_callbacks n0) = cs) as -> by (simpl; rewrite Hc; apply list_insert_app_here).
  rewrite Hrun. split_and!; [done..| |done|done].
  unfold fewer in *. by rewrite Htok in F'.
Qed.

(** Callbacks registered after some more have been removed *)
Lemma registered_again bound n n' (l : list (Callback T)) :
  Forall (λ cb, token cb < bound) l → fewer bound n n' → registered n' (registered n l) = registered n' l.
Proof using Type.
  intros Hl Hf. unfold registered. rewrite list_filter_filter. apply filter_ext_in. intros cb Hcb.
  split; [tauto|]. intros Hin. split; [done|]. apply Hf; [done|]. rewrite Forall_forall in Hl. by apply Hl.
Qed.

Lemma loop_in_round bound snapshot : ∀ called fuel fresh n log r,
  round bound (registered n (g <$> called)) (registered n snapshot) fresh n →
  Forall (λ cb, token cb < bound) called → Forall (told bound) snapshot →
  m_next_token n + Z.of_nat (total snapshot) < size_modulus → (length snapshot < fuel)%nat →
  tell (m_error n) snapshot (tokens n, m_next_token n) = Some r →
  ∃ n' fresh', for_each_loop f fuel (with_index n (m_callback_index n +w 1), log) = Some (n', log ++ r.1) ∧
    r.2 = (tokens n', m_next_token n') ∧
    round bound [] (registered n' (g <$> (called ++ snapshot))) fresh' n' ∧ m_error n' = m_error n.
Proof.
  induction snapshot as [|cb snapshot IH]; intros called fuel fresh n log r R Hcalled Hs Hnext Hfuel Hr; simpl in Hr.
  { injection Hr as <-. destruct fuel as [|fuel]; [simpl in Hfuel; lia|]. pose proof R as (Hc&Rv&_).
    pose proof (next_index _ _ _ _ _ Rv) as Hi. pose proof (ir_count _ _ _ _ _ Rv) as Hcount.
    simpl in Hi, Hcount. rewrite length_fmap in Hi. rewrite length_fmap, Nat.add_0_r in Hcount.
    exists (with_index n npos), fresh. simpl. rewrite Hi, Hcount, Z.ltb_irrefl, !app_nil_r.
    split_and!; [done|done| |done]. by apply round_end. }
  apply Forall_cons in Hs as [Hcb Hs]. unfold registered at 2 in R. rewrite filter_cons in R. simpl in Hnext, Hfuel.
  rewrite cons_middle, (assoc_L (++)).
  assert (Forall (λ cb, token cb < bound) (called ++ [cb])) as Hcalled'.
  { apply Forall_app. split; [done|]. constructor; [apply Hcb|constructor]. }
  destruct (decide (token cb ∈ tokens n)) as [Hin|Hno].
  2:{ apply (IH (called ++ [cb]) fuel fresh n log r); [|done|done|lia|lia|done].
      rewrite fmap_app. change (g <$> [cb]) with [g cb].
      unfold registered at 1. rewrite filter_app, filter_cons, decide_False by (by rewrite g_token).
      by rewrite app_nil_r. }
  destruct (foldlM _ _ (acts cb)) as [p|] eqn:Hp; [|done]. simpl in Hr.
  destruct (tell _ snapshot p) as [r'|] eqn:Hr'; [|done]. injection Hr as <-.
  destruct fuel as [|fuel]; [lia|].
  destruct (turn_in_round _ _ _ _ _ _ log _ R Hcb ltac:(lia) Hp) as (Hlt&Hl&n'&fresh'&Hf&->&R'&F'&E'&L').
  cbn [for_each_loop fst snd]. rewrite Hlt. cbn [fst snd]. rewrite Hl. cbn [mbind option_bind]. rewrite Hf.
  cbn [mbind option_bind fst snd].
  destruct (IH (called ++ [cb]) fuel fresh' n' (log ++ calls cb) r') as (n2&fresh2&Hrun&?&?&?); [|done|done|lia|lia|by rewrite E'|].
  - assert (Forall (λ cb, token cb < bound) (g <$> called)) as Hgc.
    { apply Forall_fmap. eapply Forall_impl; [exact Hcalled|]. intros c. simpl. by rewrite g_token. }
    assert (registered n' (g <$> (called ++ [cb])) = registered n' (registered n (g <$> called) ++ [g cb])) as ->.
    { rewrite fmap_app. unfold registered at 1 2. rewrite !filter_app. f_equal. symmetry. by eapply registered_again. }
    assert (registered n' snapshot = registered n' (registered n snapshot)) as ->; [|done].
    symmetry. eapply registered_again; [|done]. eapply Forall_impl; [exact Hs|]. by intros c [? _].
  - exists n2, fresh2. rewrite Hrun, <-app_assoc. split_and!; [done..|congruence].
Qed.

(** [for_each_callback] on a notifier whose callbacks [cs] have been packaged
    and [fresh] added since *)
Lemma for_each_ok bound cs fresh fuel n log r :
  round bound [] (registered n cs) fresh n → Forall (told bound) cs →
  m_next_token n + Z.of_nat (total cs) < size_modulus → (length cs < fuel)%nat →
  tell (m_error n) cs (tokens n, m_next_token n) = Some r →
  ∃ n' fresh', for_each_callback f fuel (n, log) = Some (n', log ++ r.1) ∧ r.2 = (tokens n', m_next_token n') ∧
    round bound [] (registered n' (g <$> cs)) fresh' n' ∧ m_error n' = m_error n.
Proof.
  intros R Hs Hnext Hfuel Hr. unfold for_each_callback. cbn [fst snd].
  assert (m_callback_count n ≤ Z.of_nat (length (m_callbacks n))) as Hle.
  { destruct R as (Hc&Rv&_). pose proof (ir_count _ _ _ _ _ Rv) as Hcount. simpl in Hcount.
    rewrite length_fmap in Hcount. rewrite Hc, Hcount. simpl. rewrite length_app. lia. }
  rewrite (proj2 (Z.leb_le _ _) Hle), orb_true_r.
  destruct (loop_in_round bound cs [] fuel fresh n log r) as (n'&fresh'&?&?&?&?); [done|constructor|done..|]. eauto 6.
Qed.
End Loop.
End Rounds.

Import ChangeBuilder Notifier.

Section Changes.
Context {build : Build} {T : Type} {ops : IndexSetOps T} {laws : IndexSetLaws T}.
Implicit Types (n : CollectionNotifier T) (cb : Callback T) (b c : CollectionChangeBuilder T)
  (cs : list (CollectionChangeBuilder T)).

(** ** Sequences of changes *)

(** The sequence takes the row at [o] to [t]. *)
Fixpoint row_chain cs (o t : Z) : Prop :=
  match cs with
  | [] => 0 ≤ o ∧ o = t
  | c :: cs => ∃ u, rows c o u ∧ row_chain cs u t
  end.

(** Some change modified the row that is at [t] after the sequence. *)
Fixpoint modified_chain cs (t : Z) : Prop :=
  match cs with
  | [] => False
  | c :: cs => (∃ u, has (modifications (changes c)) u ∧ row_chain cs u t) ∨ modified_chain cs t
  end.

(** The change set [s] tells where every old row is after the sequence, and which of
    the rows that stayed were modified. *)
Definition describes (s : CollectionChangeSet T) cs : Prop :=
  (∀ o t, row_to (deletions s) (insertions s) (moves s) o t ↔ row_chain cs o t) ∧
  (∀ o t, row_chain cs o t → ¬ has (insertions s) t → has (modifications_new s) t ↔ modified_chain cs t) ∧
  (∀ t, has (insertions s) t → ¬ has (modifications_new s) t) ∧
  (∀ o, has (modifications s) o ↔ ∃ t, has (modifications_new s) t ∧ kept (deletions s) (insertions s) o t).

(** Sizes that fit, for every merge and for the end *)
Fixpoint changes_fit b cs : Prop :=
  match cs with
  | [] => bound (modifications (changes b)) + size (deletions (changes b)) ≤ npos
  | c :: cs => merge_fits b c ∧ ∀ b', merge b c = Some b' → changes_fit b' cs
  end.

Definition merge_all b cs : option (CollectionChangeBuilder T) := foldlM merge b cs.

Lemma row_chain_inj cs : ∀ u u' t, Forall builder_ok cs → row_chain cs u t → row_chain cs u' t → u = u'.
Proof.
  induction cs as [|c cs IH]; intros u u' t Hcs; simpl; [by intros [_ ->] [_ ->]|].
  apply Forall_cons in Hcs as [[Hc _] Hcs]. intros (v&Hv&Hvt) (v'&Hv'&Hvt').
  assert (v = v') as -> by by eapply IH. by eapply row_inj.
Qed.

(** What a builder describes after all merges *)
Lemma merge_all_ok cs : ∀ b,
  builder_ok b → Forall builder_ok cs → changes_fit b cs →
  ∃ b', merge_all b cs = Some b' ∧ builder_ok b' ∧
    bound (modifications (changes b')) + size (deletions (changes b')) ≤ npos ∧
    (∀ o t, rows b' o t ↔ ∃ u, rows b o u ∧ row_chain cs u t) ∧
    (∀ o t, rows b' o t → has (modifications (changes b')) t ↔
       (∃ u, has (modifications (changes b)) u ∧ row_chain cs u t) ∨ modified_chain cs t).
Proof.
  induction cs as [|c cs IH]; intros b Hb Hcs Hfit; simpl in *.
  { exists b. split_and!; [done..| |].
    - intros o t. split; [|by intros (u&?&_&<-)]. intros Hr. exists t. split; [done|]. by destruct Hr as (_&?&_).
    - intros o t (_&?&_). split; [intros ?; left; exists t; done|]. by intros [(u&?&_&<-)|[]]. }
  pose proof Hcs as [Hc Hcs']%Forall_cons. destruct Hfit as (Hm&Hfit).
  destruct (merge_changes b c Hb Hc Hm) as (b1&Hb1&Hok1&Hrows1&Hm1&Hm2&Hm3).
  unfold merge_all in *. simpl. rewrite Hb1. simpl.
  destruct (IH b1 Hok1 Hcs' (Hfit b1 Hb1)) as (b2&->&Hok2&Hsz&Hrows2&Hmod2).
  exists b2. split_and!; [done..| |].
  - intros o t. rewrite Hrows2. setoid_rewrite Hrows1. naive_solver.
  - intros o t Hot. rewrite (Hmod2 o t Hot). apply Hrows2 in Hot as (u1&(u0&Ho&Hu0)%Hrows1&Hu1).
    split.
    + intros [(u&Hu&Hut)|?]; [|by right; right]. apply Hm3 in Hu as [?|(v&?&?)].
      * right. left. by exists u.
      * left. exists v. split; [done|]. by exists u.
    + intros [(u&Hu&v&Huv&Hvt)|[(u&Hu&Hut)|?]]; [|left; exists u; split; [by apply Hm1|done]|by right].
      left. exists v. split; [|done]. eapply Hm2; [|exact Hu|exact Huv].
      assert (v = u1) as -> by by eapply row_chain_inj.
      assert (u = u0) as ->; [|done]. destruct Hc as [Hc _]. by eapply row_inj.
Qed.

(** ** One callback *)

(** A callback that has nothing accumulated: it is new, or its changes have just
    been packaged. *)
Definition blank cb : Prop :=
  builder_ok (accumulated_changes cb) ∧ ChangeBuilder.empty (changes (accumulated_changes cb)) = true.

(** The changes it is to be told: one that is to skip the next does so. *)
Definition due cb cs : list (CollectionChangeBuilder T) := if skip_next cb then tail cs else cs.

Definition accumulate cb cs : option (Callback T) := foldlM (λ cb c, add_change c cb) cb cs.

Lemma accumulate_cons cb c cs : accumulate cb (c :: cs) = cb' ← add_change c cb; accumulate cb' cs.
Proof. done. Qed.

Lemma merge_all_cons b c cs : merge_all b (c :: cs) = b' ← merge b c; merge_all b' cs.
Proof. done. Qed.

Lemma accumulate_merge cb cs b :
  skip_next cb = false → merge_all (accumulated_changes cb) cs = Some b →
  accumulate cb cs = Some (set_accumulated cb b).
Proof.
  revert cb. induction cs as [|c cs IH]; intros cb Hskip.
  { intros [= <-]. by destruct cb. }
  rewrite accumulate_cons, merge_all_cons. unfold add_change. rewrite Hskip.
  destruct (merge _ c) as [b1|]; [|done]. simpl. intros Hb. by rewrite (IH (set_accumulated cb b1)).
Qed.

(** A blank callback is told what the changes due do. *)
Lemma callback_told cb cs :
  blank cb → Forall builder_ok cs → changes_fit (accumulated_changes cb) (due cb cs) →
  ∃ cb1 cb2, accumulate cb cs = Some cb1 ∧ package_callback cb1 = Some cb2 ∧
    describes (changes_to_deliver cb2) (due cb cs) ∧ blank cb2 ∧ token cb2 = token cb ∧
    fn cb2 = fn cb ∧ initial_delivered cb2 = initial_delivered cb.
Proof.
  intros [Hok He] Hcs Hfit. destruct (empty_sets _ Hok He) as [Hrows0 Hmod0].
  assert (∃ cb1 b, accumulate cb cs = Some cb1 ∧ merge_all (accumulated_changes cb) (due cb cs) = Some b ∧
    accumulated_changes cb1 = b ∧ token cb1 = token cb ∧ fn cb1 = fn cb ∧ initial_delivered cb1 = initial_delivered cb)
    as (cb1&b&Hacc&Hmerge&Hb&?&?&?).
  { unfold due in *. destruct (skip_next cb) eqn:Hskip.
    - destruct cs as [|c cs]; simpl in *; [by exists cb, (accumulated_changes cb)|].
      apply Forall_cons in Hcs as [_ Hcs].
      destruct (merge_all_ok cs _ Hok Hcs Hfit) as (b&Hb&_). exists (set_accumulated (set_skip_next cb false) b), b.
      rewrite accumulate_cons. unfold add_change. rewrite Hskip, He, orb_true_r. simpl.
      split; [|done]. by apply accumulate_merge.
    - destruct (merge_all_ok cs _ Hok Hcs Hfit) as (b&Hb&_). exists (set_accumulated cb b), b.
      split; [|done]. by apply accumulate_merge. }
  destruct (merge_all_ok (due cb cs) (accumulated_changes cb)) as (b'&Hb'&Hok'&Hsz&Hrows&Hmods);
    [done|unfold due; destruct (skip_next cb); [|done]; destruct cs; [done|by apply Forall_cons in Hcs as [_ ?]]|done|].
  rewrite Hmerge in Hb'. injection Hb' as <-.
  destruct (finalize_changes b Hok' Hsz) as (s&Hs&Hd&Hi&Hmv&_&_&_&Hnew&Hold).
  assert (∀ o t, rows b o t ↔ row_chain (due cb cs) o t) as Hchain.
  { intros o t. rewrite Hrows. setoid_rewrite Hrows0. split; [by intros (u&[_ ->]&?)|].
    intros Hot. exists o. split; [|done]. split; [|done].
    destruct (due cb cs) as [|c cs']; simpl in Hot; [by destruct Hot|]. by destruct Hot as (u&(?&_)&_). }
  exists cb1. unfold package_callback. rewrite Hb, Hs. simpl. eexists. split; [done|]. split; [done|].
  split; [|split; [|done]].
  - unfold describes. simpl. rewrite Hd, Hi, Hmv. split; [exact Hchain|]. split; [|split].
    + intros o t Hot Ht. rewrite Hnew. rewrite (Hmods o t) by by apply Hchain. split.
      * intros [[(u&Hu&_)|?] _]; [by destruct (Hmod0 u)|done].
      * intros ?. split; [by right|done].
    + intros t Ht. rewrite Hnew. naive_solver.
    + exact Hold.
  - split; [|by unfold ChangeBuilder.empty; simpl; rewrite !law_empty, !(proj2 law_nil) by apply law_nil].
    split; [split; [apply law_nil|split; [apply law_nil|]]|split; [apply law_nil|constructor]].
    split; [by intros ? ?%elem_of_nil|]. split; apply NoDup_nil_2.
Qed.

(** ** All callbacks *)
Lemma add_changes_all cs : ∀ n,
  Forall (λ cb, is_Some (accumulate cb cs)) (m_callbacks n) →
  ∃ l, Forall2 (λ cb cb', accumulate cb cs = Some cb') (m_callbacks n) l ∧
    foldlM (λ n c, add_changes c n) n cs = Some (with_callbacks n l).
Proof.
  induction cs as [|c cs IH]; intros n Hall; simpl.
  { exists (m_callbacks n). split; [by apply Forall_Forall2_diag, Forall_forall|by destruct n]. }
  assert (∃ l1, mapM (add_change c) (m_callbacks n) = Some l1) as [l1 Hl1].
  { apply mapM_is_Some_2. eapply Forall_impl; [exact Hall|]. unfold accumulate. simpl. intros cb [cb' Hcb].
    destruct (add_change c cb); [eauto|done]. }
  unfold add_changes at 2. rewrite Hl1. simpl. apply mapM_Some_1 in Hl1.
  destruct (IH (with_callbacks n l1)) as (l&Hl&->).
  - simpl. apply Forall_forall. intros cb' Hcb'.
    apply list_elem_of_lookup in Hcb' as [i Hi]. destruct (Forall2_lookup_r _ _ _ _ _ Hl1 Hi) as (cb&Hcb&Hadd).
    rewrite Forall_forall in Hall. destruct (Hall cb) as [x Hx]; [by eapply list_elem_of_lookup_2|].
    unfold accumulate in Hx. simpl in Hx. rewrite Hadd in Hx. exists x. exact Hx.
  - exists l. split; [|done]. simpl in Hl. clear IH Hall.
    revert l Hl. induction Hl1 as [|cb cb1 l0 l1 Hadd _ IH]; intros l Hl; inversion Hl; subst; constructor.
    + unfold accumulate. simpl. by rewrite Hadd.
    + by apply IH.
Qed.
End Changes.
