(* ===== verification/CollectionNotifierProps.v ===== *)
(** The properties of collection notifiers: what callbacks are told, in which
    order, and where the bookkeeping goes wrong. *)
From stdpp Require Import gmap list.
From S2P Require Import Prelude ChunkedRangeVector IndexSet IndexSetTheory IndexSetMerge IndexSetSpec IndexSetProps RowMap ChangeBuilder.
From S2P Require Import ChangeTheory ChangeMerge ChangeFinal DeepChange ConnectionChange ConnectionChangeTheory.
From S2P Require Import CollectionNotifier CollectionNotifierChanges.
Import ChangeBuilder Notifier Samples.

Section Delivery.
Context {build : Build} {T : Type} {ops : IndexSetOps T}.
Context (behaviour : Call T → list CallbackAction).
Implicit Types (n : CollectionNotifier T) (cb : Callback T) (cs : list (Callback T)) (s : list Z * Z).

(** ** The three rounds *)
Definition before_calls cb : list (Call T) :=
  match fn cb with
  | Some f => if ChangeBuilder.empty (changes_to_deliver cb) then [] else [CallBefore f (changes_to_deliver cb)]
  | None => []
  end.

Definition after_calls cb : list (Call T) :=
  match fn cb with
  | Some f => if initial_delivered cb && ChangeBuilder.empty (changes_to_deliver cb) then []
              else [CallAfter f (changes_to_deliver cb)]
  | None => []
  end.

Definition error_calls cb : list (Call T) :=
  match fn cb with Some f => [CallError f] | None => [] end.

(** What the functions called do *)
Definition actions (calls : list (Call T)) : list CallbackAction := calls ≫= behaviour.

(** A callback after it has been called: the changes are gone. *)
Definition after_state cb : Callback T :=
  if initial_delivered cb && ChangeBuilder.empty (changes_to_deliver cb) then cb else set_delivered cb.

Lemma after_state_token cb : token (after_state cb) = token cb.
Proof. unfold after_state. by case_match. Qed.

Lemma with_callbacks_id n i cb : m_callbacks n !! i = Some cb → with_callbacks n (<[i := cb]> (m_callbacks n)) = n.
Proof. intros H. rewrite list_insert_id by done. by destruct n. Qed.

Lemma before_visit_ok i cb n log :
  m_callbacks n !! i = Some cb → fn cb ≠ None →
  before_callback behaviour i cb (n, log) =
  n' ← foldlM run_action (with_callbacks n (<[i := cb]> (m_callbacks n))) (actions (before_calls cb));
  Some (n', log ++ before_calls cb).
Proof.
  intros Hi Hfn. rewrite with_callbacks_id by done. unfold before_callback, before_calls, make_call, actions.
  destruct (fn cb) as [f|]; [|done]. destruct (ChangeBuilder.empty _); simpl; by rewrite app_nil_r.
Qed.

Lemma after_visit_ok i cb n log :
  m_callbacks n !! i = Some cb → fn cb ≠ None →
  after_callback behaviour i cb (n, log) =
  n' ← foldlM run_action (with_callbacks n (<[i := after_state cb]> (m_callbacks n))) (actions (after_calls cb));
  Some (n', log ++ after_calls cb).
Proof.
  intros Hi Hfn. unfold after_callback, after_calls, make_call, actions, after_state.
  destruct (fn cb) as [f|]; [|done]. destruct (_ && _); simpl; rewrite app_nil_r; [|done].
  by rewrite with_callbacks_id.
Qed.

Lemma error_visit_ok i cb n log :
  m_callbacks n !! i = Some cb → fn cb ≠ None →
  error_callback behaviour i cb (n, log) =
  n' ← foldlM run_action (with_callbacks n (<[i := set_fn_null cb]> (m_callbacks n)))
         (actions (error_calls cb) ++ [RemoveCallback (token cb)]);
  Some (n', log ++ error_calls cb).
Proof.
  intros Hi Hfn. unfold error_callback, error_calls, make_call, actions.
  destruct (fn cb) as [f|]; [|done]. simpl. rewrite app_nil_r, foldlM_app.
  destruct (foldlM _ _ _) as [n'|]; [|done]. simpl. by destruct (remove_callback _ _).
Qed.

(** ** What is to happen *)

(** The calls of both rounds over the packaged callbacks [cs], and the tokens
    afterwards *)
Definition delivery cs s : option (list (Call T) * (list Z * Z)) :=
  r1 ← tell (λ cb, actions (before_calls cb)) before_calls false cs s;
  r2 ← tell (λ cb, actions (after_calls cb)) after_calls false cs r1.2;
  Some (r1.1 ++ r2.1, r2.2).

(** How many callbacks can be added *)
Definition delivery_actions cs : nat :=
  (sum_list_with (λ cb, length (actions (before_calls cb))) cs +
   sum_list_with (λ cb, length (actions (after_calls cb))) cs)%nat.

(** A notifier outside of a round *)
Definition notifier_idle n : Prop := idle (view n) ∧ have_ok n ∧ Forall (λ cb, fn cb ≠ None) (m_callbacks n).

Lemma package_round n n1 :
  notifier_idle n → package_for_delivery true n = Some (true, n1) →
  round (m_next_token n1) [] (m_callbacks n1) [] n1 ∧ tokens n1 = tokens n ∧ m_next_token n1 = m_next_token n ∧
  Forall (λ cb, fn cb ≠ None ∧ token cb < m_next_token n) (m_callbacks n1) ∧ m_error n1 = m_error n.
Proof.
  intros (Hidle&Hhave&Hfn). unfold package_for_delivery. simpl.
  destruct (mapM package_callback (m_callbacks n)) as [cs|] eqn:Hcs; [|done]. simpl. intros [= <-].
  apply mapM_Some_1 in Hcs.
  assert (Forall2 (λ cb cb', token cb' = token cb ∧ fn cb' = fn cb) (m_callbacks n) cs) as Hsame.
  { eapply Forall2_impl; [exact Hcs|]. intros cb cb'. unfold package_callback.
    destruct (finalize _); [|done]. simpl. by intros [= <-]. }
  assert (reg <$> cs = reg <$> m_callbacks n ∧ token <$> cs = token <$> m_callbacks n ∧ length cs = length (m_callbacks n))
    as (Hreg&Htok&Hlen).
  { clear -Hsame. induction Hsame as [|cb cb' l l' [Ht _] _ (IH1&IH2&IH3)]; [done|]. rewrite !fmap_cons. simpl.
    rewrite IH1, IH2, IH3. unfold reg. by rewrite Ht. }
  assert (Forall (λ cb, fn cb ≠ None ∧ token cb < m_next_token n) cs) as Hall.
  { destruct Hidle as (_&Hlt&_). simpl in Hlt. apply Forall_fmap in Hlt.
    clear -Hsame Hfn Hlt. induction Hsame as [|cb cb' l l' [Ht Hf] _ IH]; [done|].
    apply Forall_cons in Hfn as [? ?], Hlt as [Hr ?]. simpl in Hr.
    constructor; [rewrite Ht, Hf; split; [done|lia]|auto]. }
  split_and!; [|done|done|exact Hall|done].
  pose proof (idle_in_round _ Hidle) as R. split; [simpl; by rewrite app_nil_r|]. split.
  - simpl in *. rewrite <-Hreg in R. unfold view. simpl. rewrite length_fmap in R. exact R.
  - unfold have_ok in *. simpl. by rewrite Hhave, Hlen.
Qed.
End Delivery.

Section Claims.
Context {build : Build} {T : Type} {ops : IndexSetOps T}.
Implicit Types (n : CollectionNotifier T) (cb : Callback T) (cs : list (CollectionChangeBuilder T)).

(** C22: the changes of any number of transactions, added one after the other to
    the callbacks of a notifier and then packaged, are packaged for each
    callback as one change set that takes every old row to where all of the
    changes together take it and reports the rows that any of them modified; a
    callback that is to skip the next notification does not get the first
    change.  Afterwards nothing is accumulated. *)
Theorem packaged_changes_compose {laws : IndexSetLaws T} n cs :
  Forall blank (m_callbacks n) → Forall builder_ok cs →
  Forall (λ cb, changes_fit (accumulated_changes cb) (due cb cs)) (m_callbacks n) →
  ∃ n1 n2, foldlM (λ n c, add_changes c n) n cs = Some n1 ∧ package_for_delivery true n1 = Some (true, n2) ∧
    Forall2 (λ cb cb', token cb' = token cb ∧ fn cb' = fn cb ∧ describes (changes_to_deliver cb') (due cb cs) ∧ blank cb')
      (m_callbacks n) (m_callbacks n2).
Proof.
  intros Hblank Hcs Hfit.
  assert (Forall (λ cb, ∃ cb1 cb2, accumulate cb cs = Some cb1 ∧ package_callback cb1 = Some cb2 ∧
    describes (changes_to_deliver cb2) (due cb cs) ∧ blank cb2 ∧ token cb2 = token cb ∧ fn cb2 = fn cb) (m_callbacks n)) as Hall.
  { rewrite Forall_forall in Hblank, Hfit. apply Forall_forall. intros cb Hcb.
    destruct (callback_told cb cs) as (cb1&cb2&?&?&?&?&?&?&_); [by apply Hblank|done|by apply Hfit|eauto 10]. }
  destruct (add_changes_all cs n) as (l1&Hl1&Hrun); [eapply Forall_impl; [exact Hall|]; naive_solver|].
  assert (∃ l2, mapM package_callback l1 = Some l2 ∧
    Forall2 (λ cb cb', token cb' = token cb ∧ fn cb' = fn cb ∧ describes (changes_to_deliver cb') (due cb cs) ∧ blank cb')
      (m_callbacks n) l2) as (l2&Hl2&Hsame).
  { clear -Hall Hl1. induction Hl1 as [|cb cb1 l l1 Hacc _ IH]; [by exists []|].
    apply Forall_cons in Hall as [(cb1'&cb2&Hacc'&Hp&?&?&?&?) Hall]. destruct (IH Hall) as (l2&Hl2&?).
    rewrite Hacc in Hacc'. injection Hacc' as <-. exists (cb2 :: l2). split; [|by constructor].
    by rewrite mapM_cons, Hp, Hl2. }
  exists (with_callbacks n l1). eexists. split; [done|]. unfold package_for_delivery. simpl. by rewrite Hl2.
Qed.

(** C23: before and after the collection is advanced, exactly the callbacks that
    were packaged are called, in order and with the changes packaged for them,
    although the functions called may add callbacks and remove those that were
    there when the notifier was packaged, but not those added since, whose removal
    is counted as that of a packaged one ([removal_underflows_count]).  Callbacks
    removed before their turn are not called, nor those that have nothing to be
    told, except that each is called once at first.  Afterwards the changes of the
    packaged ones are gone, and [m_have_callbacks] is right. *)
Theorem delivery_told behaviour n n1 log r fuel :
  notifier_idle n → m_error n = false → package_for_delivery true n = Some (true, n1) →
  (∀ call, Forall (simple (m_next_token n)) (behaviour call)) →
  m_next_token n + Z.of_nat (delivery_actions behaviour (m_callbacks n1)) < size_modulus →
  delivery behaviour (m_callbacks n1) (tokens n, m_next_token n) = Some r → (length (m_callbacks n1) < fuel)%nat →
  ∃ n2 n3 log', before_advance behaviour fuel (n1, log) = Some (n2, log') ∧
    after_advance behaviour fuel (n2, log') = Some (n3, log ++ r.1) ∧
    (tokens n3, m_next_token n3) = r.2 ∧ m_callback_index n3 = npos ∧ have_ok n3 ∧
    ∀ cb, cb ∈ m_callbacks n3 → token cb < m_next_token n → ∃ cb1, cb1 ∈ m_callbacks n1 ∧ cb = after_state cb1.
Proof.
  intros Hidle Herr Hpack Hsimple Hnext Hr Hfuel. unfold delivery_actions in Hnext.
  destruct (package_round n n1 Hidle Hpack) as (R&Htok&Hnt&Hcs&Herr1).
  set (cs := m_callbacks n1) in *. rewrite Hnt in R.
  assert (registered n1 cs = cs) as Hreg by (apply (registered_all _ _ _ _ _ _ R); by intros ?).
  assert (∀ calls, Forall (told (λ cb, actions behaviour (calls cb)) (m_next_token n)) cs) as Htold.
  { intros calls. eapply Forall_impl; [exact Hcs|]. intros cb [? ?]. split_and!; [done..|].
    unfold actions. apply Forall_bind, Forall_forall. intros call _. apply Hsimple. }
  unfold delivery in Hr. destruct (tell _ _ false cs (tokens n, m_next_token n)) as [r1|] eqn:Hr1; [|done]. simpl in Hr.
  destruct (tell _ after_calls false cs r1.2) as [r2|] eqn:Hr2; [|done]. injection Hr as <-. simpl.
  rewrite <-Hreg in R.
  destruct (for_each_ok (before_callback behaviour) id _ before_calls (λ _, eq_refl) (before_visit_ok behaviour) (m_next_token n)
    cs [] fuel n1 log r1) as (n2&fresh2&Hrun1&Hs2&R2&Herr2); [done|done|lia|done|by rewrite Herr1, Herr, Htok, Hnt|].
  rewrite list_fmap_id in R2.
  assert (m_next_token n2 ≤ m_next_token n + Z.of_nat (sum_list_with (λ cb, length (actions behaviour (before_calls cb))) cs))
    as Hn2.
  { apply tell_next_token in Hr1; [|simpl; destruct Hidle as ((_&_&_&_&?)&_); simpl in *; lia].
    rewrite Hs2 in Hr1. apply Hr1. }
  destruct (for_each_ok (after_callback behaviour) after_state _ after_calls after_state_token (after_visit_ok behaviour) (m_next_token n)
    cs fresh2 fuel n2 (log ++ r1.1) r2) as (n3&fresh3&Hrun2&Hs3&R3&Herr3); [done|done|lia|done|by rewrite Herr2, Herr1, Herr, <-Hs2|].
  exists n2, n3, (log ++ r1.1). rewrite (assoc_L (++)). destruct R3 as (Hc3&Rv3&Hh3).
  split_and!; [done|done|done|apply (ir_index _ _ _ _ _ Rv3)|done|].
  intros cb. rewrite Hc3. simpl. intros [Hin|Hin]%elem_of_app Hlt.
  - apply list_elem_of_filter in Hin as [_ (cb1&->&?)%list_elem_of_fmap]. eauto.
  - pose proof (ir_fresh _ _ _ _ _ Rv3) as Hf. rewrite Forall_fmap, Forall_forall in Hf. specialize (Hf cb Hin). simpl in Hf. lia.
Qed.

(** ** Errors *)
Definition error_actions (behaviour : Call T → list CallbackAction) cb : list CallbackAction :=
  actions behaviour (error_calls cb) ++ [RemoveCallback (token cb)].

Notation total acts l := (sum_list_with (λ cb, length (acts cb)) l).

Lemma tell_error_some acts calls (l : list (Callback T)) : ∀ s, is_Some (tell acts calls true l s).
Proof.
  induction l as [|cb l IH]; intros s; simpl; [by eexists|]. case_decide; [|apply IH].
  destruct (token_steps_error (acts cb) s) as [s' ->]. simpl. destruct (IH s') as [r ->]. by eexists.
Qed.

(** Every callback told of the error is removed. *)
Lemma tell_error_removes behaviour bound (l : list (Callback T)) : ∀ s r,
  0 ≤ bound ≤ s.2 → s.2 + Z.of_nat (total (error_actions behaviour) l) < size_modulus →
  tell (error_actions behaviour) error_calls true l s = Some r →
  ∀ t, t < bound → t ∈ r.2.1 → t ∈ s.1 ∧ ¬ t ∈ token <$> l.
Proof.
  induction l as [|cb l IH]; intros s r Hb Hn; simpl.
  { intros [= <-] t _ Ht. split; [done|]. by intros ?%elem_of_nil. }
  simpl in Hn. case_decide as Hin.
  - destruct (foldlM _ s _) as [s'|] eqn:Hs'; [|done]. simpl.
    destruct (tell _ _ _ l s') as [r'|] eqn:Hr'; [|done]. intros [= <-] t Ht Hin'. simpl in Hin'.
    pose proof (token_steps_next true (error_actions behaviour cb) s s' ltac:(lia) Hs') as Hle.
    destruct (token_steps_fewer true bound (error_actions behaviour cb) s s' Hb ltac:(lia) Hs') as [Hb' Hfew].
    destruct (IH s' r' ltac:(lia) ltac:(lia) Hr' t Ht Hin') as [Hts' Hno]. split; [by apply Hfew|].
    intros [->|?]%elem_of_cons; [|done]. unfold error_actions in Hs'. rewrite foldlM_app in Hs'.
    destruct (foldlM _ s (actions _ _)) as [s1|]; [|done]. simpl in Hs'. injection Hs' as <-.
    by apply list_elem_of_filter in Hts' as [? _].
  - intros Hr t Ht Hin'. destruct (IH s r Hb ltac:(lia) Hr t Ht Hin') as [Hts Hno]. split; [done|].
    intros [->|?]%elem_of_cons; done.
Qed.

(** An error is told to the callbacks of a notifier in order, each at most
    once and none after it has been removed, although the functions called may
    add and remove callbacks; afterwards none of the callbacks told is left, and
    removing one of them again is not an error. *)
Theorem errors_delivered behaviour n log fuel :
  notifier_idle n → (∀ call, Forall (simple (m_next_token n)) (behaviour call)) →
  m_next_token n + Z.of_nat (total (error_actions behaviour) (m_callbacks n)) < size_modulus →
  (length (m_callbacks n) < fuel)%nat →
  ∃ n' r, tell (error_actions behaviour) error_calls true (m_callbacks n) (tokens n, m_next_token n) = Some r ∧
    deliver_error behaviour fuel (n, log) = Some (n', log ++ r.1) ∧ (tokens n', m_next_token n') = r.2 ∧
    m_callback_index n' = npos ∧ (∀ t, t ∈ tokens n' → m_next_token n ≤ t) ∧
    ∀ t, t < m_next_token n → remove_callback t n' = Some n'.
Proof.
  intros Hidle Hsimple Hnext Hfuel. destruct Hidle as (Hidle&Hhave&Hfn).
  destruct (tell_error_some (error_actions behaviour) error_calls (m_callbacks n) (tokens n, m_next_token n)) as [r Hr].
  set (n0 := with_count (with_error n true) (Z.of_nat (length (m_callbacks n)))).
  assert (round (m_next_token n) [] (m_callbacks n) [] n0) as R.
  { pose proof (idle_in_round _ Hidle) as R. split; [simpl; by rewrite app_nil_r|]. split; [|done].
    simpl in R. rewrite length_fmap in R. exact R. }
  assert (0 ≤ m_next_token n ∧ Forall (λ cb, token cb < m_next_token n) (m_callbacks n)) as [Hnt Hlt].
  { destruct Hidle as (_&Hlt&_&_&?). simpl in *. split; [lia|]. apply Forall_fmap in Hlt.
    eapply Forall_impl; [exact Hlt|]. intros cb. simpl. lia. }
  assert (Forall (told (error_actions behaviour) (m_next_token n)) (m_callbacks n)) as Htold.
  { apply Forall_forall. intros cb Hcb. rewrite Forall_forall in Hfn, Hlt. split_and!; [by apply Hlt|by apply Hfn|].
    apply Forall_app. split; [|constructor; [by apply Hlt|constructor]].
    unfold actions. apply Forall_bind, Forall_forall. intros call _. apply Hsimple. }
  destruct (for_each_ok (error_callback behaviour) set_fn_null _ error_calls (λ _, eq_refl) (error_visit_ok behaviour) (m_next_token n)
    (m_callbacks n) [] fuel n0 log r) as (n'&fresh&Hrun&Hs&R'&Herr); [|done|done|done|exact Hr|].
  { rewrite (registered_all _ _ _ _ _ (m_callbacks n) R); [done|by intros ?]. }
  assert (∀ t, t ∈ tokens n' → m_next_token n ≤ t) as Hgone.
  { intros t Ht. destruct (decide (m_next_token n ≤ t)); [done|]. exfalso.
    eapply tell_error_removes in Hr as [Hin Hno]; [by apply Hno|split; [exact Hnt|done]|exact Hnext| |by rewrite Hs].
    lia. }
  exists n', r. split; [done|]. split; [exact Hrun|]. split; [done|].
  split; [by destruct R' as (_&Rv&_); apply (ir_index _ _ _ _ _ Rv)|]. split; [done|].
  intros t Ht. unfold remove_callback. rewrite find_callback_ok by (left; exact Herr). simpl.
  assert (¬ t ∈ tokens n') as Hno by (intros Hin; specialize (Hgone t Hin); lia).
  rewrite <-find_reg, find_absent, length_fmap, Nat.eqb_refl; [done|]. by rewrite reg_tokens.
Qed.

(** A callback that is added after the changes were packaged and removed
    before they are delivered is subtracted from the number of callbacks
    packaged although it is not among them.  Where nothing was packaged the
    number wraps around: the debug build asserts, and the release build calls
    functions past the end of an empty vector. *)
Theorem removal_underflows_count behaviour fuel :
  ∃ n1 n2, package_for_delivery true (make 0 (mkVersionID 1 0)) = Some (true, n1) ∧
    remove_callback 0 (add_callback 7 n1).1.2 = Some n2 ∧ m_callbacks n2 = [] ∧ m_callback_count n2 = npos ∧
    before_advance behaviour fuel (n2 : CollectionNotifier T, []) = None.
Proof.
  eexists _, _. split; [done|]. split; [done|]. split; [done|]. split; [done|].
  unfold before_advance, for_each_callback. simpl. destruct REALM_DEBUG; [done|]. by destruct fuel.
Qed.
End Claims.

(** ** The properties on the chunked implementation in the debug build *)
#[local] Existing Instance debug.

Module NotifierSamples.
Definition rows_changed (d i m : list Z) : CollectionChangeBuilder (list Chunk) :=
  with_modifications (with_insertions (with_deletions empty_builder (default [] (IndexSet.of_list d)))
    (default [] (IndexSet.of_list i))) (default [] (IndexSet.of_list m)).

(** Row 1 is deleted, one is inserted in front; then the new row 2 is modified. *)
Definition first : CollectionChangeBuilder (list Chunk) := Eval vm_compute in rows_changed [1] [0] [1].
Definition second : CollectionChangeBuilder (list Chunk) := Eval vm_compute in rows_changed [] [] [2].

(** Three callbacks; the second one has been told to skip. *)
Definition three_callbacks : CollectionNotifier (list Chunk) :=
  Eval vm_compute in default (make 1 (mkVersionID 1 0))
    (suppress_next_notification 1 (add_callback 12 (add_callback 11 (add_callback 10 (make 1 (mkVersionID 1 0))).1.2).1.2).1.2).

(** With the changes accumulated *)
Definition with_changes_added : CollectionNotifier (list Chunk) :=
  Eval vm_compute in default three_callbacks (foldlM (λ n c, add_changes c n) three_callbacks [first; second]).

Definition packaged : CollectionNotifier (list Chunk) :=
  Eval vm_compute in (default (false, three_callbacks) (package_for_delivery true with_changes_added)).2.

(** When the first callback is told of the changes it removes the third one and
    adds another. *)
Definition replaces (call : Call (list Chunk)) : list CallbackAction :=
  match call with CallAfter 10%nat _ => [RemoveCallback 2; AddCallback 13] | _ => [] end.
End NotifierSamples.
Import NotifierSamples.

#[local] Instance blank_dec (cb : Callback (list Chunk)) : Decision (blank cb).
Proof. unfold blank. apply _. Defined.

#[local] Instance changes_fit_dec cs : ∀ b : CollectionChangeBuilder (list Chunk), Decision (changes_fit b cs).
Proof.
  induction cs as [|c cs IH]; intros b; simpl; [apply _|]. apply and_dec; [apply _|].
  destruct (merge b c) as [b'|]; [|by left].
  destruct (IH b') as [H|H]; [left; by intros ? [= <-]|right; intros H'; by apply H, H'].
Defined.

#[local] Instance notifier_idle_dec (n : CollectionNotifier (list Chunk)) : Decision (notifier_idle n).
Proof. unfold notifier_idle, have_ok. apply _. Defined.

Lemma packaged_changes_compose_witness :
  ∃ n1 n2, foldlM (λ n c, add_changes c n) three_callbacks [first; second] = Some n1 ∧
    package_for_delivery true n1 = Some (true, n2) ∧
    Forall2 (λ cb cb', token cb' = token cb ∧ describes (changes_to_deliver cb') (due cb [first; second]))
      (m_callbacks three_callbacks) (m_callbacks n2).
Proof.
  destruct (packaged_changes_compose three_callbacks [first; second]) as (n1&n2&H1&H2&H3);
    [by_decision|by_decision| |].
  - by_decision.
  - exists n1, n2. split; [exact H1|]. split; [exact H2|]. eapply Forall2_impl; [exact H3|]. intros cb cb' (?&_&?&_).
    split; assumption.
Defined.

Lemma replaces_simple call : Forall (simple 3) (replaces call).
Proof.
  destruct call as [|f c|]; try constructor. simpl.
  do 10 (destruct f as [|f]; [constructor|]). destruct f; repeat constructor.
Qed.

(** All three are told before the changes; after them the first one removes the
    third one, so that two are told. *)
Lemma delivery_told_witness :
  notifier_idle with_changes_added ∧
  ∃ r n2 n3 log', delivery replaces (m_callbacks packaged) (tokens with_changes_added, 3) = Some r ∧
    length r.1 = 5%nat ∧ before_advance replaces 4 (packaged, []) = Some (n2, log') ∧
    after_advance replaces 4 (n2, log') = Some (n3, r.1) ∧ tokens n3 = [0; 1; 3] ∧ have_ok n3.
Proof.
  split; [by_decision|].
  assert (∃ r, delivery replaces (m_callbacks packaged) (tokens with_changes_added, 3) = Some r ∧
    length r.1 = 5%nat ∧ r.2.1 = [0; 1; 3]) as (r&Hr&Hlen&Htok)
    by (eexists; split; [vm_compute; reflexivity|split; reflexivity]).
  destruct (delivery_told replaces with_changes_added packaged [] r 4) as (n2&n3&log'&H1&H2&H3&_&H5&_);
    [by_decision|by vm_compute|by vm_compute|exact replaces_simple|by_decision|exact Hr|by_decision|].
  exists r, n2, n3, log'. split; [exact Hr|]. split; [exact Hlen|]. split; [exact H1|]. split; [exact H2|].
  split; [|exact H5]. rewrite <-Htok, <-H3. reflexivity.
Defined.

Lemma errors_delivered_witness :
  ∃ n' r, tell (error_actions replaces) error_calls true (m_callbacks packaged) (tokens packaged, 3) = Some r ∧
    deliver_error replaces 4 (packaged, []) = Some (n', r.1) ∧
    r.1 = [CallError 10; CallError 11; CallError 12] ∧ m_callbacks n' = [].
Proof.
  destruct (errors_delivered replaces packaged [] 4) as (n'&r&H1&H2&H3&_);
    [by_decision|exact replaces_simple|by_decision|by_decision|].
  exists n', r. split; [exact H1|]. split; [exact H2|]. vm_compute in H1. injection H1 as <-.
  split; [done|]. apply (fmap_nil_inv token). apply (f_equal fst) in H3. exact H3.
Defined.
