(* ===== verification/SafeInt.v ===== *)
(** Integer types, and integer arithmetic that detects overflow
    (core/realm/util/safe_int_ops.hpp, util/type_traits.hpp).  The arithmetic of
    the code is that of C++: operands are promoted and converted to a common
    type, where unsigned results wrap around and signed overflow is undefined
    ([None]). *)
From S2P Require Import Prelude.

(** ** Integer types: their sign and the bits of their values *)
Record IntType := mkIntType { is_signed : bool; digits : Z }.

#[export] Instance IntType_eq_dec : EqDecision IntType.
Proof. solve_decision. Defined.

Definition bool_t : IntType := mkIntType false 1.
Definition char_t : IntType := mkIntType true 7.
Definition uchar_t : IntType := mkIntType false 8.
Definition short_t : IntType := mkIntType true 15.
Definition ushort_t : IntType := mkIntType false 16.
Definition int_t : IntType := mkIntType true 31.
Definition int32_t : IntType := mkIntType true 31.
Definition unsigned_t : IntType := mkIntType false 32.
Definition int64_t : IntType := mkIntType true 63.
Definition size_t : IntType := mkIntType false 64.

(** [long] and [long long] have the same values. *)
Definition int_types : list IntType :=
  [bool_t; char_t; uchar_t; short_t; ushort_t; int_t; unsigned_t; int64_t; size_t].

(** [std::numeric_limits] *)
Definition max_value (t : IntType) : Z := 2 ^ digits t - 1.
Definition min_value (t : IntType) : Z := if is_signed t then - 2 ^ digits t else 0.

Definition in_type (t : IntType) (v : Z) : Prop := min_value t ≤ v ≤ max_value t.

#[export] Instance in_type_dec t v : Decision (in_type t v).
Proof. unfold in_type. apply _. Defined.

(** ** Expressions

    Conversion to a type: modulo a power of two, in two's complement *)
Definition convert (t : IntType) (v : Z) : Z :=
  if is_signed t then (v + 2 ^ digits t) mod 2 ^ (digits t + 1) - 2 ^ digits t else v mod 2 ^ digits t.

(** Integral promotion, and the usual arithmetic conversions *)
Definition promoted (t : IntType) : IntType := if digits t <=? 31 then int_t else t.

Definition common (a b : IntType) : IntType :=
  let a := promoted a in
  let b := promoted b in
  if eqb (is_signed a) (is_signed b) then (if digits a <? digits b then b else a)
  else
    let '(s, u) := if is_signed a then (a, b) else (b, a) in
    if digits s <? digits u then u else s.

Definition arithmetic (t : IntType) (v : Z) : option Z :=
  if is_signed t then (if bool_decide (in_type t v) then Some v else None) else Some (v mod 2 ^ digits t).

(** [a + b], [a - b], [a * b], [a / b] of values of two types *)
Definition operate (f : Z → Z → Z) (ta : IntType) (a : Z) (tb : IntType) (b : Z) : option Z :=
  let t := common ta tb in arithmetic t (f (convert t a) (convert t b)).
Definition plus_op := operate Z.add.
Definition minus_op := operate Z.sub.
Definition times_op := operate Z.mul.
Definition divide_op ta a tb b : option Z :=
  if convert (common ta tb) b =? 0 then None else operate Z.quot ta a tb b.

(** ** [FastestUnsigned] *)
Definition unsigned_types : list IntType := [uchar_t; ushort_t; unsigned_t; size_t; size_t].

(** The first unsigned type with that many bits; a type without values when
    there is none, which the code does not compile for *)
Definition LeastUnsigned (bits : Z) : IntType :=
  default (mkIntType false 0) (unsigned_types !! find_if (λ t, bits <=? digits t) unsigned_types).

Definition ChooseWidestInt (a b : IntType) : IntType := if digits b <=? digits a then a else b.

Definition FastestUnsigned (bits : Z) : IntType := ChooseWidestInt unsigned_t (LeastUnsigned bits).

(** ** Casts *)
(** [CastToUnsigned]: converting to [bool] would give true for all values but 0. *)
Definition cast_to_unsigned (to_ : IntType) (value : Z) : Z :=
  if bool_decide (to_ = bool_t) then Z.land (convert unsigned_t value) 1 else convert to_ value.

Definition from_twos_compl (to_ from : IntType) (twos_compl : Z) : option Z :=
  let sign_bit := convert from (Z.shiftl 1 (digits from - 1)) in
  let non_negative := negb (is_signed to_) || (Z.land twos_compl sign_bit =? 0) in
  if non_negative then Some (convert to_ twos_compl)
  else
    n ← minus_op from (convert from (-1)) from twos_compl;
    n ← minus_op int_t (-1) to_ (convert to_ n);
    Some (convert to_ n).

(** ** [SafeIntBinopsImpl]

    The four cases of signedness.  An operation on [lval] gives the overflow
    flag and the value of [lval] after it. *)
Definition Checked : Type := option (bool * Z).

Definition overflowed (lval : Z) : Checked := Some (true, lval).
Definition assigned (v : Z) : Checked := Some (false, v).

Module SafeIntBinops.
Section Binops.
Variables L R : IntType.
Implicit Types l r lval rval : Z.

Definition needed_bits : Z :=
  match is_signed L, is_signed R with
  | false, false => Z.max (digits L) (digits R)
  | false, true => Z.max (digits L) (digits R + 1)
  | true, _ => Z.max (digits L + 1) (digits R)
  end.

Definition common_unsigned : IntType := FastestUnsigned needed_bits.

Definition equal l r : bool :=
  match is_signed L, is_signed R with
  | false, false => convert common_unsigned l =? convert common_unsigned r
  | false, true => if digits R <? digits L then (0 <=? r) && (l =? cast_to_unsigned L r) else convert R l =? r
  | true, false => if digits L <? digits R then (0 <=? l) && (cast_to_unsigned R l =? r) else l =? convert L r
  | true, true => l =? r
  end.

Definition less l r : bool :=
  match is_signed L, is_signed R with
  | false, false => convert common_unsigned l <? convert common_unsigned r
  | false, true => if digits R <? digits L then (0 <=? r) && (l <? cast_to_unsigned L r) else convert R l <? r
  | true, false => if digits L <? digits R then (l <? 0) || (cast_to_unsigned R l <? r) else l <? convert L r
  | true, true => l <? r
  end.

Definition add lval rval : Checked :=
  match is_signed L, is_signed R with
  | false, false =>
      s ← plus_op L lval R rval;
      let lval_2 := cast_to_unsigned L s in
      if convert common_unsigned lval_2 <? convert common_unsigned rval then overflowed lval else assigned lval_2
  | false, true =>
      s ← plus_op L lval common_unsigned (convert common_unsigned rval);
      let lval_2 := convert common_unsigned s in
      let overflow :=
        if digits L <? digits common_unsigned then convert common_unsigned (max_value L) <? lval_2
        else eqb (lval_2 <? convert common_unsigned lval) (0 <=? rval) in
      if overflow then overflowed lval else assigned (cast_to_unsigned L lval_2)
  | true, false =>
      max_add ← minus_op common_unsigned (convert common_unsigned (max_value L)) common_unsigned (convert common_unsigned lval);
      if max_add <? convert common_unsigned rval then overflowed lval
      else
        s ← plus_op common_unsigned (convert common_unsigned lval) R rval;
        v ← from_twos_compl L (common common_unsigned R) s;
        assigned v
  | true, true =>
      overflow ← (if rval <? 0 then m ← minus_op L (min_value L) R rval; Some (lval <? m)
                  else m ← minus_op L (max_value L) R rval; Some (m <? lval));
      if (overflow : bool) then overflowed lval
      else s ← plus_op L lval R rval; assigned (convert L s)
  end.

Definition sub lval rval : Checked :=
  match is_signed L, is_signed R with
  | false, false =>
      lval_2 ← minus_op common_unsigned (convert common_unsigned lval) common_unsigned (convert common_unsigned rval);
      if convert common_unsigned lval <? lval_2 then overflowed lval else assigned (cast_to_unsigned L lval_2)
  | false, true =>
      s ← minus_op L lval common_unsigned (convert common_unsigned rval);
      let lval_2 := convert common_unsigned s in
      let overflow :=
        if digits L <? digits common_unsigned then convert common_unsigned (max_value L) <? lval_2
        else eqb (convert common_unsigned lval <? lval_2) (0 <=? rval) in
      if overflow then overflowed lval else assigned (cast_to_unsigned L lval_2)
  | true, false =>
      max_sub ← minus_op common_unsigned (convert common_unsigned lval) common_unsigned (convert common_unsigned (min_value L));
      if max_sub <? convert common_unsigned rval then overflowed lval
      else
        s ← minus_op common_unsigned (convert common_unsigned lval) R rval;
        v ← from_twos_compl L (common common_unsigned R) s;
        assigned v
  | true, true =>
      overflow ← (if rval <? 0 then m ← plus_op L (max_value L) R rval; Some (m <? lval)
                  else m ← plus_op L (min_value L) R rval; Some (lval <? m));
      if (overflow : bool) then overflowed lval
      else s ← minus_op L lval R rval; assigned (convert L s)
  end.
End Binops.
End SafeIntBinops.

(** The result of an operation that does not overflow *)
Definition no_overflow (c : Checked) : option Z := match c with Some (false, v) => Some v | _ => None end.

(** ** The functions of the header *)
Definition is_negative (t : IntType) (v : Z) : bool := if is_signed t then v <? 0 else false.

Definition int_equal_to (A B : IntType) (a b : Z) : bool := SafeIntBinops.equal A B a b.
Definition int_not_equal_to (A B : IntType) (a b : Z) : bool := negb (SafeIntBinops.equal A B a b).
Definition int_less_than (A B : IntType) (a b : Z) : bool := SafeIntBinops.less A B a b.
Definition int_less_than_or_equal (A B : IntType) (a b : Z) : bool := negb (SafeIntBinops.less B A b a).
Definition int_greater_than (A B : IntType) (a b : Z) : bool := SafeIntBinops.less B A b a.
Definition int_greater_than_or_equal (A B : IntType) (a b : Z) : bool := negb (SafeIntBinops.less A B a b).

Definition int_add_with_overflow_detect (L R : IntType) (lval rval : Z) : Checked := SafeIntBinops.add L R lval rval.
Definition int_subtract_with_overflow_detect (L R : IntType) (lval rval : Z) : Checked := SafeIntBinops.sub L R lval rval.

Definition int_multiply_with_overflow_detect (L R : IntType) (lval rval : Z) : Checked :=
  assert! int_greater_than_or_equal L int_t lval 0;
  assert! int_greater_than R int_t rval 0;
  q ← divide_op L (max_value L) R rval;
  if int_less_than (common L R) L q lval then overflowed lval
  else p ← times_op L lval R rval; assigned (convert L p).

(** A shift by the bits of the promoted type, or more, is undefined. *)
Definition int_shift_left_with_overflow_detect (T : IntType) (lval i : Z) : Checked :=
  assert! int_greater_than_or_equal T int_t lval 0;
  assert! (0 <=? i) && (i <? digits (promoted T) + (if is_signed (promoted T) then 1 else 0));
  if Z.shiftr (max_value T) i <? lval then overflowed lval
  else assigned (convert T (Z.shiftl lval i)).

Definition int_cast_has_overflow (To From : IntType) (from : Z) : bool :=
  int_less_than From To from (min_value To) || int_less_than To From (max_value To) from.

Definition int_cast_with_overflow_detect (To From : IntType) (from to_ : Z) : Checked :=
  if negb (int_cast_has_overflow To From from) then assigned (convert To from) else overflowed to_.

(** ** The types that occur, by enumeration *)
Definition type_facts (L R : IntType) : Prop :=
  let cu := SafeIntBinops.common_unsigned L R in
  let c := common L R in
  0 < digits L ≤ 64 ∧ (is_signed L = true → digits L ≤ 63) ∧
  is_signed cu = false ∧ SafeIntBinops.needed_bits L R ≤ digits cu ∧ 32 ≤ digits cu ∧ common cu cu = cu ∧
  (is_signed L = false → common L cu = cu) ∧ (is_signed R = false → common cu R = cu) ∧
  (is_signed L = false → is_signed R = false →
     is_signed c = true ∧ 31 ≤ digits c ∧ digits L ≤ 16 ∧ digits R ≤ 16 ∨
     is_signed c = false ∧ digits L ≤ digits c ∧ digits R ≤ digits c) ∧
  (is_signed L = true → is_signed R = true → is_signed c = true ∧ 31 ≤ digits c ∧ digits L ≤ digits c ∧ digits R ≤ digits c) ∧
  (is_signed L ≠ is_signed R → if is_signed c then 31 ≤ digits c ∧ digits L ≤ digits c ∧ digits R ≤ digits c
     else (if is_signed L then digits R ≤ digits c ∧ digits L < digits c else digits L ≤ digits c ∧ digits R < digits c)) ∧
  c ∈ int_types.

#[export] Instance type_facts_dec L R : Decision (type_facts L R).
Proof.
  unfold type_facts. cbv zeta. repeat (apply and_dec; [apply _|]). apply and_dec; [|apply _].
  destruct (is_signed (common L R)); [apply _|]. destruct (is_signed L); apply _.
Defined.

Lemma type_facts_ok L R : L ∈ int_types → R ∈ int_types → type_facts L R.
Proof.
  intros HL HR. assert (Forall (λ L, Forall (type_facts L) int_types) int_types) as H by by_decision.
  rewrite Forall_forall in H. specialize (H L HL). rewrite Forall_forall in H. by apply H.
Qed.

(** ** Conversions *)
Lemma in_type_range t v : in_type t v ↔ (if is_signed t then - 2 ^ digits t else 0) ≤ v < 2 ^ digits t.
Proof. unfold in_type, min_value, max_value. destruct (is_signed t); lia. Qed.

Lemma convert_unsigned t v : is_signed t = false → convert t v = v mod 2 ^ digits t.
Proof. unfold convert. by intros ->. Qed.

Lemma convert_id t v : 0 ≤ digits t → in_type t v → convert t v = v.
Proof.
  intros Hd Hv%in_type_range. unfold convert. destruct (is_signed t); [|by apply Z.mod_small].
  rewrite Z.pow_add_r by lia. rewrite Z.mod_small; lia.
Qed.

(** A value not far outside a power of two, reduced *)
Lemma mod_near v W : 0 < W → - W ≤ v < 2 * W → v mod W = if v <? 0 then v + W else if v <? W then v else v - W.
Proof.
  intros HW Hv. destruct (Z.ltb_spec v 0); [symmetry; apply (Z.mod_unique _ _ (-1)); lia|].
  destruct (Z.ltb_spec v W); [by apply Z.mod_small|]. symmetry; apply (Z.mod_unique _ _ 1); lia.
Qed.

Lemma mod_mod_pow v a b : 0 ≤ a ≤ b → (v mod 2 ^ b) mod 2 ^ a = v mod 2 ^ a.
Proof.
  intros Hab. replace b with (a + (b - a)) by lia. rewrite Z.pow_add_r by lia.
  rewrite Z.rem_mul_r by (pose proof (Z.pow_pos_nonneg 2 a); pose proof (Z.pow_pos_nonneg 2 (b - a)); lia).
  rewrite Z.mul_comm, Z.mod_add by (pose proof (Z.pow_pos_nonneg 2 a); lia). apply Z.mod_mod.
  pose proof (Z.pow_pos_nonneg 2 a). lia.
Qed.

Lemma cast_to_unsigned_mod t v : is_signed t = false → 0 ≤ digits t → cast_to_unsigned t v = v mod 2 ^ digits t.
Proof.
  intros Hs Hd. unfold cast_to_unsigned. case_bool_decide as E; [|by apply convert_unsigned]. subst t.
  change 1 with (Z.ones 1) at 1. rewrite Z.land_ones by done. rewrite (convert_unsigned unsigned_t) by done. by apply mod_mod_pow.
Qed.

Lemma land_top_bit x k : 0 ≤ k → 0 ≤ x < 2 ^ (k + 1) → (Z.land x (2 ^ k) =? 0) = (x <? 2 ^ k).
Proof.
  intros Hk Hx. pose proof (Z.pow_pos_nonneg 2 k). rewrite Z.pow_add_r in Hx by lia.
  assert (Z.land x (2 ^ k) = if Z.testbit x k then 2 ^ k else 0) as ->.
  { apply Z.bits_inj'. intros n Hn. rewrite Z.land_spec, Z.pow2_bits_eqb by done. destruct (Z.eqb_spec k n) as [<-|Hne].
    - destruct (Z.testbit x k); cbv iota; [by rewrite Z.pow2_bits_true|by rewrite Z.bits_0].
    - rewrite andb_false_r. destruct (Z.testbit x k); cbv iota; [by rewrite Z.pow2_bits_false by lia|by rewrite Z.bits_0]. }
  rewrite Z.testbit_eqb by done. assert (x / 2 ^ k = if x <? 2 ^ k then 0 else 1) as ->.
  { destruct (Z.ltb_spec x (2 ^ k)); [apply Z.div_small; lia|]. symmetry. apply (Z.div_unique _ _ _ (x - 2 ^ k)); lia. }
  destruct (Z.ltb_spec x (2 ^ k)); [done|]. simpl. apply Z.eqb_neq. lia.
Qed.

(** [from_twos_compl] is the inverse of converting to a wider unsigned type. *)
Lemma from_twos_compl_convert To From v :
  To ∈ int_types → is_signed To = true → is_signed From = false → digits To < digits From → common From From = From →
  in_type To v → from_twos_compl To From (v mod 2 ^ digits From) = Some v.
Proof.
  intros HTo Hs Hf Hd Hc Hv. destruct (type_facts_ok int_t To) as (_&_&_&_&_&_&_&_&_&Hint&_); [by_decision|done|].
  destruct (Hint eq_refl Hs) as (Hcs&Hc31&_&HcTo). destruct (type_facts_ok To To HTo HTo) as ([Hpos _]&_).
  pose proof (proj1 (in_type_range _ _) Hv) as Hr. rewrite Hs in Hr.
  pose proof (Z.pow_lt_mono_r 2 (digits To) (digits From)) as Hlt.
  pose proof (Z.pow_pos_nonneg 2 (digits To)).
  assert (2 ^ (digits From - 1) * 2 = 2 ^ digits From) as Hhalf.
  { rewrite <-(Z.pow_1_r 2) at 2. rewrite <-Z.pow_add_r by lia. f_equal. lia. }
  assert (2 ^ digits To ≤ 2 ^ (digits From - 1)) by (apply Z.pow_le_mono_r; lia).
  unfold from_twos_compl. rewrite Hs. cbn [negb orb].
  rewrite (convert_unsigned From), (convert_unsigned From), Z.shiftl_1_l, (Z.mod_small (2 ^ (digits From - 1))) by (done || lia).
  rewrite land_top_bit by (rewrite ?Z.sub_add; lia || apply Z.mod_pos_bound; lia).
  rewrite mod_near by lia. destruct (Z.ltb_spec v 0).
  - rewrite (proj2 (Z.ltb_ge _ _)) by lia. unfold minus_op, operate, arithmetic. cbv zeta. rewrite Hc, Hf.
    rewrite !(convert_unsigned From) by done. cbn [mbind option_bind].
    rewrite (mod_near (-1)) by lia. change (-1 <? 0) with true. cbv iota.
    rewrite (Z.mod_small (-1 + _)), (Z.mod_small (v + _)), Z.mod_small by lia.
    replace (-1 + 2 ^ digits From - (v + 2 ^ digits From)) with (-1 - v) by lia.
    rewrite (convert_id To (-1 - v)) by (try lia; apply in_type_range; rewrite Hs; lia).
    rewrite Hcs.
    pose proof (Z.pow_le_mono_r 2 (digits To) (digits (common int_t To))).
    rewrite !(convert_id (common int_t To)) by (try lia; apply in_type_range; rewrite Hcs; lia).
    rewrite bool_decide_true by (apply in_type_range; rewrite Hcs; lia). cbn [mbind option_bind].
    replace (-1 - (-1 - v)) with v by lia. by rewrite convert_id by (done || lia).
  - rewrite (proj2 (Z.ltb_lt v (2 ^ digits From))), (proj2 (Z.ltb_lt _ _)) by lia. by rewrite convert_id by (done || lia).
Qed.

(** ** What the operations are to do *)
Definition checked (L : IntType) (lval v : Z) : Checked := if decide (in_type L v) then assigned v else overflowed lval.

Lemma checked_ok L lval v : in_type L v → checked L lval v = assigned v.
Proof. intros. unfold checked. by rewrite decide_True. Qed.

Lemma checked_overflow L lval v : ¬ in_type L v → checked L lval v = overflowed lval.
Proof. intros. unfold checked. by rewrite decide_False. Qed.

Section Exact.
Variables (L R : IntType) (l r : Z).
Hypotheses (HL : L ∈ int_types) (HR : R ∈ int_types) (Hl : in_type L l) (Hr : in_type R r).

#[local] Notation cu := (SafeIntBinops.common_unsigned L R).

(** The facts about the types, with the signs of [L] and [R] *)
Ltac facts EL ER :=
  pose proof (type_facts_ok L R HL HR) as ([? ?]&?&Hcu&Hneed&?&Hcc&HLc&HRc&Huu&Hss&_&_);
  pose proof (type_facts_ok R R HR HR) as ([? ?]&_);
  pose proof (proj1 (in_type_range _ _) Hl); pose proof (proj1 (in_type_range _ _) Hr);
  unfold SafeIntBinops.needed_bits in Hneed; rewrite EL, ER in *.

(** The powers of two that bound the types, in order *)
Ltac powers :=
  pose proof (Z.pow_pos_nonneg 2 (digits L)); pose proof (Z.pow_pos_nonneg 2 (digits R));
  pose proof (Z.pow_le_mono_r 2 (digits L) (digits cu)); pose proof (Z.pow_le_mono_r 2 (digits R) (digits cu)).

Lemma add_uu : is_signed L = false → is_signed R = false → SafeIntBinops.add L R l r = checked L l (l + r).
Proof.
  intros EL ER. facts EL ER. powers. unfold SafeIntBinops.add. rewrite EL, ER.
  assert (∃ s, plus_op L l R r = Some s ∧ s mod 2 ^ digits L = (l + r) mod 2 ^ digits L) as (s&->&Hs).
  { unfold plus_op, operate, arithmetic. destruct (Huu eq_refl eq_refl) as [(Hc&?&?&?)|(Hc&?&?)]; rewrite Hc.
    - pose proof (Z.pow_le_mono_r 2 (digits L) 16). pose proof (Z.pow_le_mono_r 2 (digits R) 16).
      pose proof (Z.pow_le_mono_r 2 31 (digits (common L R))).
      rewrite !(convert_id (common L R)) by (try lia; apply in_type_range; rewrite Hc; lia).
      rewrite bool_decide_true by (apply in_type_range; rewrite Hc; lia). by eexists.
    - pose proof (Z.pow_le_mono_r 2 (digits L) (digits (common L R))).
      pose proof (Z.pow_le_mono_r 2 (digits R) (digits (common L R))).
      rewrite !(convert_id (common L R)) by (try lia; apply in_type_range; rewrite Hc; lia).
      eexists. split; [done|]. apply mod_mod_pow. lia. }
  cbn [mbind option_bind]. rewrite (cast_to_unsigned_mod L), Hs by (done || lia).
  pose proof (Z.mod_pos_bound (l + r) (2 ^ digits L)).
  rewrite !(convert_unsigned cu), (Z.mod_small (_ mod _)), (Z.mod_small r) by (done || lia).
  unfold checked. destruct (decide (in_type L (l + r))) as [Hin|Hout]; rewrite in_type_range, EL in *.
  - rewrite Z.mod_small by lia. by rewrite (proj2 (Z.ltb_ge _ _)) by lia.
  - rewrite (proj2 (Z.ltb_lt _ _)); [done|]. destruct (decide (r < 2 ^ digits L)); [|lia].
    rewrite mod_near by lia. repeat case_match; lia.
Qed.
(** Arithmetic of the unsigned type *)
Lemma operate_cu f ta a tb b :
  common ta tb = cu → operate f ta a tb b = Some (f (a mod 2 ^ digits cu) (b mod 2 ^ digits cu) mod 2 ^ digits cu).
Proof.
  intros Hc. pose proof (type_facts_ok L R HL HR) as (_&_&Hcu&_). unfold operate, arithmetic. cbv zeta.
  by rewrite Hc, Hcu, !(convert_unsigned cu).
Qed.

Lemma sub_uu : is_signed L = false → is_signed R = false → SafeIntBinops.sub L R l r = checked L l (l - r).
Proof.
  intros EL ER. facts EL ER. powers. unfold SafeIntBinops.sub. rewrite EL, ER.
  unfold minus_op. rewrite operate_cu by done. cbn [mbind option_bind].
  rewrite !(convert_unsigned cu), (cast_to_unsigned_mod L), mod_mod_pow by (done || lia).
  rewrite !(Z.mod_small l), !(Z.mod_small r) by lia. rewrite (mod_near (l - r) (2 ^ digits cu)) by lia.
  unfold checked. destruct (decide (in_type L (l - r))) as [Hin|Hout]; rewrite in_type_range, EL in *.
  - rewrite (proj2 (Z.ltb_ge (l - r) 0)), (proj2 (Z.ltb_lt (l - r) _)), (proj2 (Z.ltb_ge l _)) by lia.
    by rewrite Z.mod_small by lia.
  - rewrite (proj2 (Z.ltb_lt (l - r) 0)) by lia. by rewrite (proj2 (Z.ltb_lt l _)) by lia.
Qed.

(** An unsigned and a signed value *)
Lemma half_cu n : n + 1 ≤ digits cu → 0 ≤ n → 2 * 2 ^ n ≤ 2 ^ digits cu.
Proof. intros. rewrite <-Z.pow_succ_r by lia. apply Z.pow_le_mono_r; lia. Qed.

Lemma add_us : is_signed L = false → is_signed R = true → SafeIntBinops.add L R l r = checked L l (l + r).
Proof.
  intros EL ER. facts EL ER. powers. pose proof (half_cu (digits R)). pose proof (half_cu (digits L)).
  unfold SafeIntBinops.add. rewrite EL, ER. unfold plus_op. rewrite operate_cu by auto. cbn [mbind option_bind]. cbv zeta.
  rewrite !(convert_unsigned cu), (cast_to_unsigned_mod L) by (done || lia).
  rewrite !Z.mod_mod, Z.add_mod_idemp_l, Z.add_mod_idemp_r, mod_mod_pow by lia.
  rewrite (Z.mod_small l), (mod_near (l + r) (2 ^ digits cu)) by lia. unfold max_value. rewrite (Z.mod_small (2 ^ digits L - 1)) by lia.
  unfold checked. destruct (decide (in_type L (l + r))) as [Hin|Hout]; rewrite in_type_range, EL in *.
  - rewrite (proj2 (Z.ltb_ge (l + r) 0)), (proj2 (Z.ltb_lt (l + r) _)), (Z.mod_small (l + r)) by lia.
    destruct (Z.ltb_spec (digits L) (digits cu)); [by rewrite (proj2 (Z.ltb_ge _ _)) by lia|].
    destruct (Z.ltb_spec (l + r) l), (Z.leb_spec 0 r); try done; lia.
  - destruct (Z.ltb_spec (digits L) (digits cu)).
    + rewrite (proj2 (Z.ltb_lt (2 ^ digits L - 1) _)); [done|]. repeat case_match; lia.
    + replace (digits cu) with (digits L) in * by lia.
      destruct (Z.ltb_spec (l + r) 0); [|rewrite (proj2 (Z.ltb_ge (l + r) (2 ^ digits L))) by lia].
      all: destruct (Z.ltb_spec (l + r + 2 ^ digits L) l), (Z.ltb_spec (l + r - 2 ^ digits L) l), (Z.leb_spec 0 r); try done; lia.
Qed.

Lemma sub_us : is_signed L = false → is_signed R = true → SafeIntBinops.sub L R l r = checked L l (l - r).
Proof.
  intros EL ER. facts EL ER. powers. pose proof (half_cu (digits R)). pose proof (half_cu (digits L)).
  unfold SafeIntBinops.sub. rewrite EL, ER. unfold minus_op. rewrite operate_cu by auto. cbn [mbind option_bind]. cbv zeta.
  rewrite !(convert_unsigned cu), (cast_to_unsigned_mod L) by (done || lia).
  rewrite !Z.mod_mod, Zminus_mod_idemp_l, Zminus_mod_idemp_r, mod_mod_pow by lia.
  rewrite (Z.mod_small l), (mod_near (l - r) (2 ^ digits cu)) by lia. unfold max_value. rewrite (Z.mod_small (2 ^ digits L - 1)) by lia.
  unfold checked. destruct (decide (in_type L (l - r))) as [Hin|Hout]; rewrite in_type_range, EL in *.
  - rewrite (proj2 (Z.ltb_ge (l - r) 0)), (proj2 (Z.ltb_lt (l - r) _)), (Z.mod_small (l - r)) by lia.
    destruct (Z.ltb_spec (digits L) (digits cu)); [by rewrite (proj2 (Z.ltb_ge _ _)) by lia|].
    destruct (Z.ltb_spec l (l - r)), (Z.leb_spec 0 r); try done; lia.
  - destruct (Z.ltb_spec (digits L) (digits cu)).
    + rewrite (proj2 (Z.ltb_lt (2 ^ digits L - 1) _)); [done|]. repeat case_match; lia.
    + replace (digits cu) with (digits L) in * by lia.
      destruct (Z.ltb_spec (l - r) 0); [|rewrite (proj2 (Z.ltb_ge (l - r) (2 ^ digits L))) by lia].
      all: destruct (Z.ltb_spec l (l - r + 2 ^ digits L)), (Z.ltb_spec l (l - r - 2 ^ digits L)), (Z.leb_spec 0 r); try done; lia.
Qed.
(** A signed and an unsigned value *)
Lemma add_su : is_signed L = true → is_signed R = false → SafeIntBinops.add L R l r = checked L l (l + r).
Proof.
  intros EL ER. facts EL ER. powers. pose proof (half_cu (digits L)).
  unfold SafeIntBinops.add. rewrite EL, ER. unfold plus_op, minus_op. rewrite !operate_cu, (HRc eq_refl) by auto. cbn [mbind option_bind].
  rewrite !(convert_unsigned cu) by done. rewrite !Z.mod_mod, Zminus_mod_idemp_l, Zminus_mod_idemp_r, Z.add_mod_idemp_l, Z.add_mod_idemp_r by lia.
  unfold max_value. rewrite (Z.mod_small (_ - l)), (Z.mod_small r) by lia.
  unfold checked. destruct (decide (in_type L (l + r))) as [Hin|Hout]; rewrite in_type_range, EL in *.
  - rewrite (proj2 (Z.ltb_ge _ _)) by lia.
    rewrite from_twos_compl_convert by (done || lia || (apply in_type_range; rewrite EL; lia)). done.
  - by rewrite (proj2 (Z.ltb_lt _ _)) by lia.
Qed.

Lemma sub_su : is_signed L = true → is_signed R = false → SafeIntBinops.sub L R l r = checked L l (l - r).
Proof.
  intros EL ER. facts EL ER. powers. pose proof (half_cu (digits L)).
  unfold SafeIntBinops.sub. rewrite EL, ER. unfold minus_op. rewrite !operate_cu, (HRc eq_refl) by auto. cbn [mbind option_bind].
  rewrite !(convert_unsigned cu) by done. rewrite !Z.mod_mod, !Zminus_mod_idemp_l, !Zminus_mod_idemp_r by lia.
  unfold min_value. rewrite EL, (Z.mod_small (l - _)), (Z.mod_small r) by lia.
  unfold checked. destruct (decide (in_type L (l - r))) as [Hin|Hout]; rewrite in_type_range, EL in *.
  - rewrite (proj2 (Z.ltb_ge _ _)) by lia.
    rewrite from_twos_compl_convert by (done || lia || (apply in_type_range; rewrite EL; lia)). done.
  - by rewrite (proj2 (Z.ltb_lt _ _)) by lia.
Qed.

(** Two signed values: nothing is computed that their common type cannot hold. *)
Lemma operate_ss f a b :
  is_signed L = true → is_signed R = true → in_type L a → in_type R b →
  - 2 ^ digits (common L R) ≤ f a b < 2 ^ digits (common L R) → operate f L a R b = Some (f a b).
Proof.
  intros EL ER Ha Hb Hf. pose proof (type_facts_ok L R HL HR) as ([? _]&_&_&_&_&_&_&_&_&Hss&_).
  destruct (Hss EL ER) as (Hc&?&?&?). pose proof (Z.pow_le_mono_r 2 (digits L) (digits (common L R))).
  pose proof (Z.pow_le_mono_r 2 (digits R) (digits (common L R))).
  rewrite in_type_range in Ha, Hb. rewrite EL in Ha. rewrite ER in Hb. unfold operate, arithmetic. cbv zeta.
  rewrite Hc, !(convert_id (common L R)) by (try lia; apply in_type_range; rewrite Hc; lia).
  by rewrite bool_decide_true by (apply in_type_range; rewrite Hc; lia).
Qed.

Lemma operate_ss_limit f lim :
  is_signed L = true → is_signed R = true → in_type L lim →
  - 2 ^ digits L ≤ f lim r < 2 ^ digits L ∨ - 2 ^ digits R ≤ f lim r < 2 ^ digits R → operate f L lim R r = Some (f lim r).
Proof.
  intros EL ER Hlim Hf. pose proof (type_facts_ok L R HL HR) as (_&_&_&_&_&_&_&_&_&Hss&_).
  destruct (Hss EL ER) as (_&_&?&?). pose proof (Z.pow_le_mono_r 2 (digits L) (digits (common L R))).
  pose proof (Z.pow_le_mono_r 2 (digits R) (digits (common L R))). apply operate_ss; [done..|lia].
Qed.

Lemma limits_in_type : in_type L (max_value L) ∧ in_type L (min_value L).
Proof.
  pose proof (type_facts_ok L R HL HR) as ([? _]&_). pose proof (Z.pow_pos_nonneg 2 (digits L)).
  rewrite !in_type_range. unfold max_value, min_value. destruct (is_signed L); lia.
Qed.

Lemma add_ss : is_signed L = true → is_signed R = true → SafeIntBinops.add L R l r = checked L l (l + r).
Proof.
  intros EL ER. facts EL ER. powers. destruct limits_in_type as [Hmax Hmin].
  unfold SafeIntBinops.add. rewrite EL, ER. unfold plus_op, minus_op.
  assert ((if r <? 0 then m ← operate Z.sub L (min_value L) R r; Some (l <? m)
            else m ← operate Z.sub L (max_value L) R r; Some (m <? l)) = Some (negb (bool_decide (in_type L (l + r))))) as ->.
  { destruct (Z.ltb_spec r 0); rewrite operate_ss_limit by (auto || (unfold max_value, min_value; rewrite ?EL; lia)); simpl; f_equal;
      case_bool_decide as Hin; rewrite in_type_range, EL in Hin; simpl;
      unfold max_value, min_value; rewrite ?EL; [apply Z.ltb_ge|apply Z.ltb_lt|apply Z.ltb_ge|apply Z.ltb_lt]; lia. }
  cbn [mbind option_bind]. unfold checked. case_bool_decide as Hin; cbn [negb]; [|by rewrite decide_False].
  rewrite decide_True by done. pose proof (proj1 (in_type_range _ _) Hin) as Hin'. rewrite EL in Hin'.
  rewrite operate_ss_limit by auto. cbn [mbind option_bind]. by rewrite convert_id by (done || lia).
Qed.

Lemma sub_ss : is_signed L = true → is_signed R = true → SafeIntBinops.sub L R l r = checked L l (l - r).
Proof.
  intros EL ER. facts EL ER. powers. destruct limits_in_type as [Hmax Hmin].
  unfold SafeIntBinops.sub. rewrite EL, ER. unfold plus_op, minus_op.
  assert ((if r <? 0 then m ← operate Z.add L (max_value L) R r; Some (m <? l)
            else m ← operate Z.add L (min_value L) R r; Some (l <? m)) = Some (negb (bool_decide (in_type L (l - r))))) as ->.
  { destruct (Z.ltb_spec r 0); rewrite operate_ss_limit by (auto || (unfold max_value, min_value; rewrite ?EL; lia)); simpl; f_equal;
      case_bool_decide as Hin; rewrite in_type_range, EL in Hin; simpl;
      unfold max_value, min_value; rewrite ?EL; [apply Z.ltb_ge|apply Z.ltb_lt|apply Z.ltb_ge|apply Z.ltb_lt]; lia. }
  cbn [mbind option_bind]. unfold checked. case_bool_decide as Hin; cbn [negb]; [|by rewrite decide_False].
  rewrite decide_True by done. pose proof (proj1 (in_type_range _ _) Hin) as Hin'. rewrite EL in Hin'.
  rewrite operate_ss_limit by auto. cbn [mbind option_bind]. by rewrite convert_id by (done || lia).
Qed.
(** ** Comparisons *)
Lemma compare_exact : SafeIntBinops.equal L R l r = (l =? r) ∧ SafeIntBinops.less L R l r = (l <? r).
Proof.
  unfold SafeIntBinops.equal, SafeIntBinops.less. destruct (is_signed L) eqn:EL, (is_signed R) eqn:ER; [done|..]; facts EL ER; powers.
  - pose proof (Z.pow_lt_mono_r 2 (digits L) (digits R)). pose proof (Z.pow_le_mono_r 2 (digits R) (digits L)).
    destruct (Z.ltb_spec (digits L) (digits R)).
    + rewrite (cast_to_unsigned_mod R) by (done || lia). destruct (Z.leb_spec 0 l), (Z.ltb_spec l 0); rewrite ?Z.mod_small by lia; simpl; lia.
    + rewrite (convert_id L) by (lia || (apply in_type_range; rewrite EL; lia)). done.
  - pose proof (Z.pow_lt_mono_r 2 (digits R) (digits L)). pose proof (Z.pow_le_mono_r 2 (digits L) (digits R)).
    destruct (Z.ltb_spec (digits R) (digits L)).
    + rewrite (cast_to_unsigned_mod L) by (done || lia). destruct (Z.leb_spec 0 r); rewrite ?Z.mod_small by lia; simpl; lia.
    + rewrite (convert_id R) by (lia || (apply in_type_range; rewrite ER; lia)). done.
  - rewrite !(convert_unsigned cu), !Z.mod_small by (done || lia). done.
Qed.

(** ** Multiplication: non-negative values have a common type. *)
Lemma nonneg_common v :
  (in_type L v ∨ in_type R v) → 0 ≤ v → 0 ≤ v < 2 ^ digits (common L R) ∧ 0 < digits (common L R).
Proof.
  intros Hv Hpos. pose proof (type_facts_ok L R HL HR) as ([? _]&_&_&_&_&_&_&_&Huu&Hss&Hus&_).
  pose proof (type_facts_ok R R HR HR) as ([? _]&_). rewrite !in_type_range in Hv.
  assert (digits L ≤ digits (common L R) ∧ digits R ≤ digits (common L R)) as [HLc HRc].
  { destruct (is_signed L) eqn:EL, (is_signed R) eqn:ER;
      [destruct (Hss eq_refl eq_refl); lia|..|destruct (Huu eq_refl eq_refl); lia].
    all: specialize (Hus ltac:(done)); destruct (is_signed (common L R)); lia. }
  pose proof (Z.pow_le_mono_r 2 (digits L) (digits (common L R))). pose proof (Z.pow_le_mono_r 2 (digits R) (digits (common L R))).
  lia.
Qed.

Lemma nonneg_in_common v : 0 ≤ v < 2 ^ digits (common L R) → in_type (common L R) v.
Proof. intros. apply in_type_range. destruct (is_signed _); lia. Qed.

Lemma operate_nonneg f a b :
  in_type L a → in_type R b → 0 ≤ a → 0 ≤ b → 0 ≤ f a b < 2 ^ digits (common L R) → operate f L a R b = Some (f a b).
Proof.
  intros Ha Hb Ha0 Hb0 Hf. destruct (nonneg_common a) as [? ?]; [by left|done|]. destruct (nonneg_common b) as [? _]; [by right|done|].
  unfold operate, arithmetic. cbv zeta. rewrite !(convert_id (common L R)) by (lia || by apply nonneg_in_common).
  destruct (is_signed (common L R)) eqn:E; [|by rewrite Z.mod_small by lia].
  by rewrite bool_decide_true by by apply nonneg_in_common.
Qed.
End Exact.

(** The operations do what they are to do for all values of all types. *)
Lemma add_exact L R l r :
  L ∈ int_types → R ∈ int_types → in_type L l → in_type R r → int_add_with_overflow_detect L R l r = checked L l (l + r).
Proof.
  intros. unfold int_add_with_overflow_detect. destruct (is_signed L) eqn:EL, (is_signed R) eqn:ER;
    [by apply add_ss|by apply add_su|by apply add_us|by apply add_uu].
Qed.

Lemma subtract_exact L R l r :
  L ∈ int_types → R ∈ int_types → in_type L l → in_type R r → int_subtract_with_overflow_detect L R l r = checked L l (l - r).
Proof.
  intros. unfold int_subtract_with_overflow_detect. destruct (is_signed L) eqn:EL, (is_signed R) eqn:ER;
    [by apply sub_ss|by apply sub_su|by apply sub_us|by apply sub_uu].
Qed.

Lemma less_exact L R l r : L ∈ int_types → R ∈ int_types → in_type L l → in_type R r → SafeIntBinops.less L R l r = (l <? r).
Proof. intros. by apply compare_exact. Qed.

Lemma zero_int : int_t ∈ int_types ∧ in_type int_t 0.
Proof. split; by_decision. Qed.

Lemma multiply_exact L R l r :
  L ∈ int_types → R ∈ int_types → in_type L l → in_type R r → 0 ≤ l → 0 < r →
  int_multiply_with_overflow_detect L R l r = checked L l (l * r).
Proof.
  intros HL HR Hl Hr Hl0 Hr0. destruct zero_int as [Hint H0]. destruct (limits_in_type L R HL HR) as [Hmax _].
  pose proof (proj1 (in_type_range _ _) Hl) as Hl'. pose proof (type_facts_ok L R HL HR) as (_&_&_&_&_&_&_&_&_&_&_&HC).
  unfold int_multiply_with_overflow_detect, int_greater_than_or_equal, int_greater_than. rewrite !less_exact by done.
  rewrite (proj2 (Z.ltb_ge l 0)), (proj2 (Z.ltb_lt 0 r)) by lia. cbn [negb].
  destruct (nonneg_common L R HL HR r) as [Hrc Hc0]; [by right|lia|].
  destruct (nonneg_common L R HL HR (max_value L)) as [Hmc _]; [by left|unfold max_value; lia|].
  unfold divide_op. rewrite convert_id, (proj2 (Z.eqb_neq r 0)) by (lia || by apply nonneg_in_common).
  assert (0 ≤ max_value L) as Hm0 by (unfold max_value; lia).
  pose proof (Z.quot_le_upper_bound (max_value L) r (max_value L) Hr0) as Hq. pose proof (Z.quot_pos (max_value L) r Hm0 Hr0) as Hq0.
  assert (max_value L ÷ r ≤ max_value L) by (apply Hq; nia).
  rewrite (operate_nonneg L R HL HR) by (done || lia). cbn [mbind option_bind]. unfold int_less_than.
  rewrite less_exact by (done || (apply (nonneg_in_common L R); lia)).
  assert ((max_value L ÷ r <? l) = negb (bool_decide (in_type L (l * r)))) as ->.
  { rewrite Z.quot_div_nonneg by lia. case_bool_decide as Hin; rewrite in_type_range in Hin; cbn [negb]; unfold max_value in *.
    - apply Z.ltb_ge, Z.div_le_lower_bound; lia.
    - apply Z.ltb_lt, Z.div_lt_upper_bound; [lia|]. destruct (is_signed L); nia. }
  unfold checked. case_bool_decide as Hin; cbn [negb]; [|by rewrite decide_False].
  rewrite decide_True by done. pose proof (proj1 (in_type_range _ _) Hin) as Hin'. unfold max_value in *.
  unfold times_op. rewrite (operate_nonneg L R HL HR) by (done || nia). cbn [mbind option_bind].
  pose proof (type_facts_ok L L HL HL) as ([? _]&_). by rewrite convert_id by (done || lia).
Qed.

Lemma cast_exact To From v to_ :
  To ∈ int_types → From ∈ int_types → in_type From v → int_cast_with_overflow_detect To From v to_ = checked To to_ v.
Proof.
  intros HT HF Hv. unfold int_cast_with_overflow_detect, int_cast_has_overflow, int_less_than.
  destruct (limits_in_type To From HT HF) as [Hmax Hmin]. rewrite !less_exact by done. unfold checked.
  pose proof (type_facts_ok To To HT HT) as ([? _]&_).
  destruct (decide (in_type To v)) as [Hin|Hout]; unfold in_type in *.
  - rewrite (proj2 (Z.ltb_ge v _)), (proj2 (Z.ltb_ge _ v)) by lia. cbn. by rewrite convert_id by (done || lia).
  - destruct (Z.ltb_spec v (min_value To)), (Z.ltb_spec (max_value To) v); try done. lia.
Qed.

Lemma shift_left_exact T v i :
  T ∈ int_types → in_type T v → 0 ≤ v → 0 ≤ i < digits (promoted T) + (if is_signed (promoted T) then 1 else 0) →
  int_shift_left_with_overflow_detect T v i = checked T v (v * 2 ^ i).
Proof.
  intros HT Hv Hv0 Hi. destruct zero_int as [Hint H0]. pose proof (proj1 (in_type_range _ _) Hv) as Hv'.
  pose proof (type_facts_ok T T HT HT) as ([? _]&_). pose proof (Z.pow_pos_nonneg 2 i).
  unfold int_shift_left_with_overflow_detect, int_greater_than_or_equal. rewrite less_exact, (proj2 (Z.ltb_ge v 0)) by (done || lia).
  cbn [negb]. rewrite (proj2 (Z.leb_le 0 i)), (proj2 (Z.ltb_lt i _)) by lia. cbn [andb].
  rewrite Z.shiftr_div_pow2, Z.shiftl_mul_pow2 by lia. unfold checked.
  destruct (decide (in_type T (v * 2 ^ i))) as [Hin|Hout].
  - pose proof (proj1 (in_type_range _ _) Hin) as Hin'. unfold max_value.
    rewrite (proj2 (Z.ltb_ge _ _)) by (apply Z.div_le_lower_bound; lia). by rewrite convert_id by (done || lia).
  - rewrite (proj2 (Z.ltb_lt _ _)); [done|]. rewrite in_type_range in Hout. unfold max_value.
    apply Z.div_lt_upper_bound; [lia|]. destruct (is_signed T); nia.
Qed.

(** C7: bounds.  For all values of any two integer types of up to 64 bits,
    comparisons compare the values as numbers, and an addition, subtraction,
    multiplication of non-negative numbers or cast gives the exact result if the
    type can hold it; otherwise it reports overflow and assigns nothing.  No
    signed computation on the way overflows. *)
Theorem checked_arithmetic_exact L R l r :
  L ∈ int_types → R ∈ int_types → in_type L l → in_type R r →
  (int_equal_to L R l r = (l =? r) ∧ int_less_than L R l r = (l <? r) ∧ int_less_than_or_equal L R l r = (l <=? r) ∧
     int_greater_than L R l r = (r <? l) ∧ int_greater_than_or_equal L R l r = (r <=? l)) ∧
  int_add_with_overflow_detect L R l r = checked L l (l + r) ∧
  int_subtract_with_overflow_detect L R l r = checked L l (l - r) ∧
  (0 ≤ l → 0 < r → int_multiply_with_overflow_detect L R l r = checked L l (l * r)) ∧
  int_cast_with_overflow_detect L R r l = checked L l r.
Proof.
  intros HL HR Hl Hr. split_and!.
  - by apply compare_exact.
  - by apply less_exact.
  - unfold int_less_than_or_equal. rewrite less_exact by done. symmetry. apply Z.leb_antisym.
  - by apply less_exact.
  - unfold int_greater_than_or_equal. rewrite less_exact by done. symmetry. apply Z.leb_antisym.
  - by apply add_exact.
  - by apply subtract_exact.
  - intros. by apply multiply_exact.
  - by apply cast_exact.
Qed.

(** The largest [size_t], and a negative [char] *)
Lemma checked_arithmetic_exact_witness :
  int_subtract_with_overflow_detect size_t char_t (2 ^ 64 - 1) (-1) = overflowed (2 ^ 64 - 1) ∧
  int_add_with_overflow_detect size_t char_t (2 ^ 64 - 1) (-128) = assigned (2 ^ 64 - 129) ∧
  int_less_than size_t char_t (2 ^ 64 - 1) (-1) = false.
Proof.
  destruct (checked_arithmetic_exact size_t char_t (2 ^ 64 - 1) (-1)) as ((_&->&_)&_&->&_); [by_decision..|].
  destruct (checked_arithmetic_exact size_t char_t (2 ^ 64 - 1) (-128)) as (_&->&_); [by_decision..|].
  split; [|split]; vm_compute; reflexivity.
Defined.
