(* ===== verification/LogData.v ===== *)
(** The data of a transaction log (core/realm/impl/transact_log.hpp,
    core/realm/data_type.hpp): the codes of the instructions, their arguments,
    the calls of an [InstructionHandler], and the input streams
    (core/realm/impl/input_stream.hpp).  A byte is a number below 256; a string
    or the representation of a float is the list of its bytes. *)
From S2P Require Import Prelude ChunkedRangeVector SafeInt.

(** Conversion to an unsigned type *)
Definition uchar (v : Z) : Z := v mod 256.
Definition unsigned (v : Z) : Z := v mod 2 ^ 32.

(** ** The codes of instructions *)
Inductive InstrCode :=
  | instr_InsertGroupLevelTable | instr_EraseGroupLevelTable | instr_RenameGroupLevelTable | instr_MoveGroupLevelTable
  | instr_SelectTable | instr_Set | instr_SetUnique | instr_SetDefault | instr_AddInteger | instr_NullifyLink
  | instr_InsertSubstring | instr_EraseFromString | instr_InsertEmptyRows | instr_EraseRows | instr_SwapRows
  | instr_MoveRow | instr_MergeRows | instr_ClearTable | instr_OptimizeTable | instr_SelectDescriptor
  | instr_InsertColumn | instr_InsertLinkColumn | instr_InsertNullableColumn | instr_EraseColumn
  | instr_EraseLinkColumn | instr_RenameColumn | instr_MoveColumn | instr_AddSearchIndex | instr_RemoveSearchIndex
  | instr_SetLinkType | instr_SelectLinkList | instr_LinkListSet | instr_LinkListInsert | instr_LinkListMove
  | instr_LinkListSwap | instr_LinkListErase | instr_LinkListNullify | instr_LinkListClear | instr_LinkListSetAll
  | instr_AddRowWithKey.

(** In the order of their values, from 1 *)
Definition instr_codes : list InstrCode :=
  [instr_InsertGroupLevelTable; instr_EraseGroupLevelTable; instr_RenameGroupLevelTable; instr_MoveGroupLevelTable;
   instr_SelectTable; instr_Set; instr_SetUnique; instr_SetDefault; instr_AddInteger; instr_NullifyLink;
   instr_InsertSubstring; instr_EraseFromString; instr_InsertEmptyRows; instr_EraseRows; instr_SwapRows;
   instr_MoveRow; instr_MergeRows; instr_ClearTable; instr_OptimizeTable; instr_SelectDescriptor;
   instr_InsertColumn; instr_InsertLinkColumn; instr_InsertNullableColumn; instr_EraseColumn;
   instr_EraseLinkColumn; instr_RenameColumn; instr_MoveColumn; instr_AddSearchIndex; instr_RemoveSearchIndex;
   instr_SetLinkType; instr_SelectLinkList; instr_LinkListSet; instr_LinkListInsert; instr_LinkListMove;
   instr_LinkListSwap; instr_LinkListErase; instr_LinkListNullify; instr_LinkListClear; instr_LinkListSetAll;
   instr_AddRowWithKey].

#[export] Instance InstrCode_eq_dec : EqDecision InstrCode.
Proof. solve_decision. Defined.

Definition instr_value (i : InstrCode) : Z := Z.of_nat (find_if (λ j, bool_decide (j = i)) instr_codes) + 1.

(** "Instruction(instr_ch)": a character that is no code falls through the
    cases of [parse_one]. *)
Definition instr_of_value (c : Z) : option InstrCode := if 0 <? c then instr_codes !! Z.to_nat (c - 1) else None.

(** ** Types of columns *)
Inductive DataType :=
  | type_Int | type_Bool | type_String | type_Binary | type_Table | type_Mixed | type_OldDateTime | type_Timestamp
  | type_Float | type_Double | type_Link | type_LinkList.

#[export] Instance DataType_eq_dec : EqDecision DataType.
Proof. solve_decision. Defined.

Definition type_value (d : DataType) : Z :=
  match d with
  | type_Int => 0 | type_Bool => 1 | type_Float => 9 | type_Double => 10 | type_String => 2 | type_Binary => 4
  | type_OldDateTime => 7 | type_Timestamp => 8 | type_Table => 5 | type_Mixed => 6 | type_Link => 12
  | type_LinkList => 13
  end.

Definition data_types : list DataType :=
  [type_Int; type_Bool; type_String; type_Binary; type_Table; type_Mixed; type_OldDateTime; type_Timestamp;
   type_Float; type_Double; type_Link; type_LinkList].

(** [DataType(type)], when it is a [DataType] *)
Definition type_of_value (v : Z) : option DataType := data_types !! find_if (λ d, type_value d =? v) data_types.

Inductive LinkType := link_Strong | link_Weak.
Definition link_type_value (l : LinkType) : Z := match l with link_Strong => 0 | link_Weak => 1 end.

(** ** Values *)
Inductive Mixed :=
  | MInt (v : Z) | MBool (v : bool) | MFloat (v : list Z) | MDouble (v : list Z) | MOldDateTime (v : Z)
  | MString (v : list Z) | MBinary (v : list Z) | MTimestamp (seconds nanoseconds : Z) | MTable.

Definition get_type (m : Mixed) : DataType :=
  match m with
  | MInt _ => type_Int | MBool _ => type_Bool | MFloat _ => type_Float | MDouble _ => type_Double
  | MOldDateTime _ => type_OldDateTime | MString _ => type_String | MBinary _ => type_Binary
  | MTimestamp _ _ => type_Timestamp | MTable => type_Table
  end.

(** What a [Set] instruction assigns; a null string is [None]. *)
Inductive Value :=
  | VInt (v : Z) | VBool (v : bool) | VFloat (v : list Z) | VDouble (v : list Z)
  | VString (v : option (list Z)) | VBinary (v : option (list Z)) | VOldDateTime (v : Z)
  | VTimestamp (seconds nanoseconds : Z) | VTable | VMixed (v : Mixed) | VLink (row target_group_level_ndx : Z)
  | VNull.

(** ** Calls of a handler

    The methods of [TransactLogEncoder] that [TransactLogParser] expects of an
    [InstructionHandler], and [link_list_set_all]. *)
Inductive Call :=
  | select_table (group_level_ndx levels : Z) (path : list Z)
  | select_descriptor (levels : Z) (path : list Z)
  | select_link_list (col_ndx row_ndx link_target_group_level_ndx : Z)
  | insert_group_level_table (table_ndx num_tables : Z) (name : list Z)
  | erase_group_level_table (table_ndx num_tables : Z)
  | rename_group_level_table (table_ndx : Z) (new_name : list Z)
  | insert_empty_rows (row_ndx num_rows_to_insert prior_num_rows : Z) (unordered : bool)
  | add_row_with_key (row_ndx prior_num_rows key_col_ndx key : Z)
  | erase_rows (row_ndx num_rows_to_erase prior_num_rows : Z) (unordered : bool)
  | swap_rows (row_ndx_1 row_ndx_2 : Z)
  | move_row (from_ndx to_ndx : Z)
  | merge_rows (row_ndx new_row_ndx : Z)
  | clear_table (old_table_size : Z)
  | set_value (col_ndx row_ndx : Z) (value : Value) (variant : InstrCode) (prior_num_rows : Z)
  | add_int (col_ndx row_ndx value : Z)
  | nullify_link (col_ndx row_ndx target_group_level_ndx : Z)
  | insert_substring (col_ndx row_ndx pos : Z) (value : list Z)
  | erase_substring (col_ndx row_ndx pos size : Z)
  | optimize_table
  | insert_link_column (col_ndx : Z) (type : DataType) (name : list Z) (link_target_table_ndx backlink_col_ndx : Z)
  | insert_column (col_ndx : Z) (type : DataType) (name : list Z) (nullable : bool)
  | erase_link_column (col_ndx link_target_table_ndx backlink_col_ndx : Z)
  | erase_column (col_ndx : Z)
  | rename_column (col_ndx : Z) (new_name : list Z)
  | add_search_index (col_ndx : Z)
  | remove_search_index (col_ndx : Z)
  | set_link_type (col_ndx : Z) (type : LinkType)
  | link_list_set (link_ndx value prior_size : Z)
  | link_list_set_all (values : list Z)
  | link_list_insert (link_ndx value prior_size : Z)
  | link_list_move (from_link_ndx to_link_ndx : Z)
  | link_list_swap (link1_ndx link2_ndx : Z)
  | link_list_erase (link_ndx prior_size : Z)
  | link_list_nullify (link_ndx prior_size : Z)
  | link_list_clear (old_list_size : Z).

(** ** Input streams

    [next_block] gives the next chunk of memory, none at the end of the input;
    [remaining] is what is still to come. *)
Class NoCopyInputStream (I : Type) := next_block : I → option (list Z * I).
Class NoCopyInputStreamLaws (I : Type) `{NoCopyInputStream I} (remaining : I → list Z) := {
  next_block_Some i block i' : next_block i = Some (block, i') → block ≠ [] ∧ remaining i = block ++ remaining i';
  next_block_None i : next_block i = None → remaining i = [] }.

(** [SimpleNoCopyInputStream] *)
#[export] Instance SimpleNoCopyInputStream : NoCopyInputStream (list Z) :=
  λ data, if bool_decide (data = []) then None else Some (data, []).

#[export] Instance SimpleNoCopyInputStream_laws : NoCopyInputStreamLaws (list Z) (λ data, data).
Proof.
  split.
  - intros i block i'. unfold next_block, SimpleNoCopyInputStream. case_bool_decide; [done|]. intros [= <- <-].
    by rewrite app_nil_r.
  - intros i. unfold next_block, SimpleNoCopyInputStream. by case_bool_decide.
Qed.

(** [MultiLogNoCopyInputStream]: skips empty blocks *)
Fixpoint next_log (logs : list (list Z)) : option (list Z * list (list Z)) :=
  match logs with
  | [] => None
  | block :: logs => if (length block =? 0)%nat then next_log logs else Some (block, logs)
  end.

#[export] Instance MultiLogNoCopyInputStream : NoCopyInputStream (list (list Z)) := next_log.

#[export] Instance MultiLogNoCopyInputStream_laws : NoCopyInputStreamLaws (list (list Z)) (@concat Z).
Proof.
  split; intros i; unfold next_block, MultiLogNoCopyInputStream.
  - induction i as [|b i IH]; intros block i'; simpl; [done|]. destruct b; simpl; [apply IH|]. by intros [= <- <-].
  - induction i as [|b i IH]; simpl; [done|]. destruct b; simpl; [apply IH|done].
Qed.

(** [SimpleInputStream] read through a [NoCopyInputStreamAdaptor]: as many bytes
    at a time as the buffer holds *)
Record BufferedInput := mkBufferedInput { m_ptr : list Z; m_buffer_size : nat }.

#[export] Instance NoCopyInputStreamAdaptor : NoCopyInputStream BufferedInput := λ i,
  let block := take (m_buffer_size i) (m_ptr i) in
  if bool_decide (block = []) then None else Some (block, mkBufferedInput (drop (m_buffer_size i) (m_ptr i)) (m_buffer_size i)).

(** A buffer of size 0 never gives anything. *)
Definition buffered (i : BufferedInput) : list Z := if (m_buffer_size i =? 0)%nat then [] else m_ptr i.

#[export] Instance NoCopyInputStreamAdaptor_laws : NoCopyInputStreamLaws BufferedInput buffered.
Proof.
  split.
  - intros [data [|n]] block i'; unfold next_block, NoCopyInputStreamAdaptor, buffered; simpl; [done|].
    case_bool_decide; [done|]. intros [= <- <-]. split; [done|]. simpl. by rewrite take_drop.
  - intros [data [|n]]; unfold next_block, NoCopyInputStreamAdaptor, buffered; simpl; [done|].
    case_bool_decide as E; [|done]. by destruct data.
Qed.
