(* ===== verification/TransactLog.v ===== *)
(** [TransactLogObserver] and [TransactLogValidator]
    (ObjectStore/src/impl/transact_log_handler.cpp): the handlers of the
    instructions in a transaction log.  The observer keeps the change sets of
    the tables and lists of a [TransactionChangeInfo]. *)
From stdpp Require Import gmap.
From S2P Require Import Prelude ChunkedRangeVector IndexSetSpec ChangeBuilder DeepChange CollectionNotifier LogData.

(** ** Instructions

    The values that are written do not matter to the handlers, so the setters
    of all types are one instruction, with the kind of the write. *)
Inductive Instruction :=
  | SelectTable (group_level_ndx : Z) (levels : nat) (path : list Z)
  | SelectDescriptor (levels : nat)
  | SelectLinkList (col row : Z)
  | LinkListSet (index : Z)
  | LinkListInsert (index : Z)
  | LinkListErase (index : Z)
  | LinkListNullify (index : Z)
  | LinkListSwap (index1 index2 : Z)
  | LinkListClear (old_size : Z)
  | LinkListMove (from_ to_ : Z)
  | InsertEmptyRows (row_ndx num_rows_to_insert prior_num_rows : Z) (unordered : bool)
  | AddRowWithKey (row_ndx prior_num_rows : Z)
  | EraseRows (row_ndx num_rows_to_erase prior_num_rows : Z) (unordered : bool)
  | SwapRows (row_ndx_1 row_ndx_2 : Z)
  | MoveRow (from_ndx to_ndx : Z)
  | MergeRows (from_ to_ : Z)
  | ClearTable
  | SetCell (col row : Z) (instr : InstrCode)
  | SetCellUnique (col row : Z)
  | InsertColumn (ndx : Z)
  | InsertLinkColumn (ndx : Z)
  | MoveColumn (from_ to_ : Z)
  | InsertGroupLevelTable (ndx : Z)
  | MoveGroupLevelTable (from_ to_ : Z)
  | EraseGroupLevelTable (ndx : Z)
  | RenameGroupLevelTable (ndx : Z)
  | EraseColumn (ndx : Z)
  | EraseLinkColumn (ndx : Z)
  | RenameColumn (ndx : Z)
  | AddSearchIndex (ndx : Z)
  | RemoveSearchIndex (ndx : Z)
  | SetLinkType (ndx : Z)
  | OptimizeTable.

(** [_impl::UnsupportedSchemaChange]: thrown by [schema_error] *)
Inductive SchemaError := UnsupportedSchemaChange.

Module TransactLog.

(** [TransactLogValidationMixin]: "removing or renaming things while a Realm is
    open is never supported". *)
Definition validate (i : Instruction) : bool :=
  match i with
  | EraseGroupLevelTable _ | RenameGroupLevelTable _ | EraseColumn _ | EraseLinkColumn _ | RenameColumn _ => false
  | _ => true
  end.

(** ** Vectors *)

(** "Move the value at container[from] to container[to], shifting everything in
    between, or do nothing if either are out of bounds" *)
Definition rotate {A} (d : A) (container : list A) (from_ to_ : nat) : option (list A) :=
  assert! negb (from_ =? to_)%nat;
  let size := length container in
  if (size <=? from_)%nat && (size <=? to_)%nat then Some container else
  let container :=
    if (size <=? from_)%nat || (size <=? to_)%nat then resize (S (Nat.max from_ to_)) d container else container in
  Some (if (from_ <? to_)%nat then ChangeBuilder.rotate from_ (S from_) (S to_) container
        else ChangeBuilder.rotate to_ from_ (S from_) container).

(** "Insert a default-initialized value at pos if there is anything after pos in
    the container." *)
Definition insert_empty_at {A} (d : A) (container : list A) (pos : nat) : list A :=
  if (pos <? length container)%nat then take pos container ++ d :: drop pos container else container.

(** [adjust_for_move] on a value, and on a vector *)
Definition adjust_for_move (from_ to_ value : Z) : Z :=
  if value =? from_ then to_
  else if (from_ <? value) && (value <=? to_) then value -w 1
  else if (value <? from_) && (to_ <=? value) then value +w 1
  else value.

(** [std::iota] *)
Fixpoint iota (n : nat) (value : Z) : list Z :=
  match n with O => [] | S n => value :: iota n (value +w 1) end.

Definition expand_to (cols : list Z) (i : nat) : list Z :=
  let old_size := length cols in
  if (i <? old_size)%nat then cols
  else cols ++ iota (Nat.max (old_size * 2) (i + 1) - old_size)
                 (match last cols with None => 0 | Some back => back +w 1 end).

Definition adjust_ge (values : list Z) (i : Z) : list Z :=
  (λ value, if i <=? value then value +w 1 else value) <$> values.

Section Observer.
Context {build : Build} {T : Type} {ops : IndexSetOps T}.

(** ** The observer

    The builders of the tables are in [m_info.tables], those of the lists
    elsewhere: a pointer is to one or the other.  Growing [m_info.tables] can
    move its elements, so a pointer into it also says which of the successive
    arrays it is for. *)
Inductive Pointer :=
  | PTable (array ndx : nat)
  | PList (id : nat).

#[export] Instance Pointer_eq_dec : EqDecision Pointer.
Proof. solve_decision. Defined.

Record Observer := mkObserver {
  m_info : TransactionChangeInfo T;
  list_builders : gmap nat (CollectionChangeBuilder T);
  tables_array : nat;
  m_current_table : Z;
  m_active_list : option Pointer;
  m_active_table : option Pointer;
  m_active_descriptor : option Pointer;
  m_need_move_info : bool;
  m_is_top_level_table : bool }.
Implicit Types (o : Observer) (info : TransactionChangeInfo T).

(** The constructor *)
Definition make info (builders : gmap nat (CollectionChangeBuilder T)) : Observer :=
  mkObserver info builders 0 0 None None None false true.

(** Assignment to one field *)
Definition set_info o info : Observer :=
  mkObserver info (list_builders o) (tables_array o) (m_current_table o) (m_active_list o) (m_active_table o)
    (m_active_descriptor o) (m_need_move_info o) (m_is_top_level_table o).
Definition set_builders o bs : Observer :=
  mkObserver (m_info o) bs (tables_array o) (m_current_table o) (m_active_list o) (m_active_table o)
    (m_active_descriptor o) (m_need_move_info o) (m_is_top_level_table o).
Definition new_array o : Observer :=
  mkObserver (m_info o) (list_builders o) (S (tables_array o)) (m_current_table o) (m_active_list o) (m_active_table o)
    (m_active_descriptor o) (m_need_move_info o) (m_is_top_level_table o).
Definition set_current_table o t : Observer :=
  mkObserver (m_info o) (list_builders o) (tables_array o) t (m_active_list o) (m_active_table o)
    (m_active_descriptor o) (m_need_move_info o) (m_is_top_level_table o).
Definition set_active_list o p : Observer :=
  mkObserver (m_info o) (list_builders o) (tables_array o) (m_current_table o) p (m_active_table o)
    (m_active_descriptor o) (m_need_move_info o) (m_is_top_level_table o).
Definition set_active_table o p : Observer :=
  mkObserver (m_info o) (list_builders o) (tables_array o) (m_current_table o) (m_active_list o) p
    (m_active_descriptor o) (m_need_move_info o) (m_is_top_level_table o).
Definition set_active_descriptor o p : Observer :=
  mkObserver (m_info o) (list_builders o) (tables_array o) (m_current_table o) (m_active_list o) (m_active_table o)
    p (m_need_move_info o) (m_is_top_level_table o).
Definition set_need_move_info o b : Observer :=
  mkObserver (m_info o) (list_builders o) (tables_array o) (m_current_table o) (m_active_list o) (m_active_table o)
    (m_active_descriptor o) b (m_is_top_level_table o).
Definition set_top_level o b : Observer :=
  mkObserver (m_info o) (list_builders o) (tables_array o) (m_current_table o) (m_active_list o) (m_active_table o)
    (m_active_descriptor o) (m_need_move_info o) b.

Definition with_lists info l : TransactionChangeInfo T :=
  mkTransactionChangeInfo (table_modifications_needed info) (table_moves_needed info) l (tables info)
    (column_indices info) (table_indices info) (track_all info) (schema_changed info).
Definition with_tables info l : TransactionChangeInfo T :=
  mkTransactionChangeInfo (table_modifications_needed info) (table_moves_needed info) (lists info) l
    (column_indices info) (table_indices info) (track_all info) (schema_changed info).
Definition with_needed info mods moves : TransactionChangeInfo T :=
  mkTransactionChangeInfo mods moves (lists info) (tables info)
    (column_indices info) (table_indices info) (track_all info) (schema_changed info).
Definition with_column_indices info l : TransactionChangeInfo T :=
  mkTransactionChangeInfo (table_modifications_needed info) (table_moves_needed info) (lists info) (tables info)
    l (table_indices info) (track_all info) (schema_changed info).
Definition with_table_indices info l : TransactionChangeInfo T :=
  mkTransactionChangeInfo (table_modifications_needed info) (table_moves_needed info) (lists info) (tables info)
    (column_indices info) l (track_all info) (schema_changed info).
Definition with_schema_changed info : TransactionChangeInfo T :=
  mkTransactionChangeInfo (table_modifications_needed info) (table_moves_needed info) (lists info) (tables info)
    (column_indices info) (table_indices info) (track_all info) true.

(** Using a pointer: a pointer into an array that has been given up, or past
    its end, must not be followed. *)
Definition update_at (p : Pointer) (f : CollectionChangeBuilder T → option (CollectionChangeBuilder T)) o :
    option Observer :=
  match p with
  | PTable array ndx =>
      assert! (array =? tables_array o)%nat;
      b ← tables (m_info o) !! ndx;
      b ← f b;
      Some (set_info o (with_tables (m_info o) (<[ndx := b]> (tables (m_info o)))))
  | PList id =>
      b ← list_builders o !! id;
      b ← f b;
      Some (set_builders o (<[id := b]> (list_builders o)))
  end.

(** "if (p) p->f()" *)
Definition if_active (p : option Pointer) f o : option Observer :=
  match p with Some p => update_at p f o | None => Some o end.

(** [find_list]: the last entry for the list *)
Definition find_list o (tbl col row : Z) : option Pointer :=
  PList ∘ list_changes <$>
    last (filter (λ l, list_table_ndx l = tbl ∧ list_row_ndx l = row ∧ list_col_ndx l = col) (lists (m_info o))).

Definition mark_dirty o (row col : Z) : option Observer :=
  if_active (m_active_table o) (λ b, ChangeBuilder.modify b row col) o.

Definition update_lists (f : ListChangeInfo → ListChangeInfo) o : Observer :=
  set_info o (with_lists (m_info o) (f <$> lists (m_info o))).

(** ** Handlers *)
Definition parse_complete o : option Observer :=
  tbls ← mapM ChangeBuilder.parse_complete (tables (m_info o));
  let o := set_info o (with_tables (m_info o) tbls) in
  foldlM (λ o l, update_at (PList (list_changes l)) ChangeBuilder.clean_up_stale_moves o) o (lists (m_info o)).

Definition select_descriptor o (levels : nat) : Observer :=
  set_active_descriptor o (if (levels =? 0)%nat then m_active_table o else None).

(** "tbl_ndx >= v.size() || !v[tbl_ndx]", negated *)
Definition needed (v : list bool) (tbl_ndx : Z) : bool := default false (v !! Z.to_nat tbl_ndx).

Definition select_table o (group_level_ndx : Z) (len : nat) (path : list Z) : option Observer :=
  let o := set_top_level (set_active_table (set_current_table o group_level_ndx) None) true in
  if (1 <? len)%nat then Some (set_top_level o false) else
  let tbl_ndx := m_current_table o in
  if negb (track_all (m_info o)) && negb (needed (table_modifications_needed (m_info o)) tbl_ndx) then Some o else
  let o := set_need_move_info o (track_all (m_info o) || needed (table_moves_needed (m_info o)) tbl_ndx) in
  let n := Z.to_nat tbl_ndx in
  let size := length (tables (m_info o)) in
  let o :=
    if (size <=? n)%nat
    then new_array (set_info o (with_tables (m_info o)
           (resize (Nat.max (size * 2) (n + 1)) ChangeBuilder.empty_builder (tables (m_info o)))))
    else o in
  let o := set_active_table o (Some (PTable (tables_array o) n)) in
  if (len =? 1)%nat then
    col ← path !! 0%nat;
    row ← path !! 1%nat;
    o ← mark_dirty o row col;
    let o := set_top_level (set_active_table o None) false in
    match find_list o (m_current_table o) col row with
    | Some table => Some (set_need_move_info (set_active_table o (Some table)) true)
    | None => Some o
    end
  else Some o.

Definition select_link_list o (col row : Z) : option Observer :=
  o ← mark_dirty o row col;
  Some (set_active_list o (find_list o (m_current_table o) col row)).

Definition link_list_set o (index : Z) : option Observer :=
  if_active (m_active_list o) (λ b, ChangeBuilder.modify b index npos) o.

Definition link_list_insert o (index : Z) : option Observer :=
  if_active (m_active_list o) (λ b, ChangeBuilder.insert b index 1 true) o.

Definition link_list_erase o (index : Z) : option Observer :=
  if_active (m_active_list o) (λ b, ChangeBuilder.erase b index) o.

Definition link_list_nullify o (index : Z) : option Observer := link_list_erase o index.

Definition link_list_swap o (index1 index2 : Z) : option Observer :=
  o ← link_list_set o index1; link_list_set o index2.

Definition link_list_clear o (old_size : Z) : option Observer :=
  if_active (m_active_list o) (λ b, ChangeBuilder.clear b old_size) o.

Definition link_list_move o (from_ to_ : Z) : option Observer :=
  if_active (m_active_list o) (λ b, ChangeBuilder.move b from_ to_) o.

(** Assignments to the fields of a [ListChangeInfo] *)
Definition set_row (l : ListChangeInfo) (row : Z) : ListChangeInfo :=
  mkListChangeInfo (list_table_ndx l) row (list_col_ndx l) (list_changes l).
Definition set_col (l : ListChangeInfo) (col : Z) : ListChangeInfo :=
  mkListChangeInfo (list_table_ndx l) (list_row_ndx l) col (list_changes l).
Definition set_tbl (l : ListChangeInfo) (tbl : Z) : ListChangeInfo :=
  mkListChangeInfo tbl (list_row_ndx l) (list_col_ndx l) (list_changes l).

Definition insert_empty_rows o (row_ndx num_rows_to_insert : Z) : option Observer :=
  o ← if_active (m_active_table o) (λ b, ChangeBuilder.insert b row_ndx num_rows_to_insert (m_need_move_info o)) o;
  if negb (m_is_top_level_table o) then Some o else
  Some (update_lists (λ l,
    if (list_table_ndx l =? m_current_table o) && (row_ndx <=? list_row_ndx l)
    then set_row l (list_row_ndx l +w num_rows_to_insert) else l) o).

Definition add_row_with_key o (row_ndx : Z) : option Observer := insert_empty_rows o row_ndx 1.

(** The loop of [erase_rows] over [m_info.lists]: entries of the row are
    overwritten with the last entry; [i] moves on in every case. *)
Fixpoint erase_lists (fuel : nat) (tbl row_ndx last_row : Z) (i : nat) (l : list ListChangeInfo) :
    list ListChangeInfo :=
  match fuel with
  | O => l
  | S fuel =>
      match l !! i with
      | None => l
      | Some x =>
          if negb (list_table_ndx x =? tbl) then erase_lists fuel tbl row_ndx last_row (S i) l
          else if list_row_ndx x =? row_ndx then
            let l := match last l with
                     | Some back => if (i + 1 <? length l)%nat then <[i := back]> l else l
                     | None => l end in
            erase_lists fuel tbl row_ndx last_row (S i) (take (pred (length l)) l)
          else
            erase_lists fuel tbl row_ndx last_row (S i)
              (if list_row_ndx x =? last_row then <[i := set_row x row_ndx]> l else l)
      end
  end.

Definition erase_rows o (row_ndx prior_num_rows : Z) (unordered : bool) : option Observer :=
  if negb unordered then if_active (m_active_table o) (λ b, ChangeBuilder.erase b row_ndx) o else
  let last_row := prior_num_rows -w 1 in
  o ← if_active (m_active_table o) (λ b, ChangeBuilder.move_over b row_ndx last_row (m_need_move_info o)) o;
  if negb (m_is_top_level_table o) then Some o else
  let l := lists (m_info o) in
  Some (set_info o (with_lists (m_info o) (erase_lists (length l) (m_current_table o) row_ndx last_row 0 l))).

Definition swap_rows o (row_ndx_1 row_ndx_2 : Z) : option Observer :=
  assert! row_ndx_1 <? row_ndx_2;
  if negb (m_is_top_level_table o) then
    if_active (m_active_table o) (λ b,
      b ← ChangeBuilder.move b row_ndx_1 row_ndx_2;
      if negb (row_ndx_1 +w 1 =? row_ndx_2) then ChangeBuilder.move b (row_ndx_2 -w 1) row_ndx_1 else Some b) o
  else
    o ← if_active (m_active_table o) (λ b, ChangeBuilder.swap b row_ndx_1 row_ndx_2 (m_need_move_info o)) o;
    Some (update_lists (λ l,
      if list_table_ndx l =? m_current_table o then
        if list_row_ndx l =? row_ndx_1 then set_row l row_ndx_2
        else if list_row_ndx l =? row_ndx_2 then set_row l row_ndx_1 else l
      else l) o).

Definition move_row o (from_ndx to_ndx : Z) : option Observer :=
  assert! negb (bool_decide (is_Some (m_active_table o))) || negb (m_is_top_level_table o);
  if_active (m_active_table o) (λ b, ChangeBuilder.move b from_ndx to_ndx) o.

Definition merge_rows o (from_ to_ : Z) : option Observer :=
  o ← if_active (m_active_table o) (λ b, ChangeBuilder.subsume b from_ to_ (m_need_move_info o)) o;
  if negb (m_is_top_level_table o) then Some o else
  Some (update_lists (λ l,
    if (list_table_ndx l =? m_current_table o) && (list_row_ndx l =? from_) then set_row l to_ else l) o).

Definition clear_table o : option Observer :=
  let tbl_ndx := m_current_table o in
  o ← if_active (m_active_table o) (λ b, ChangeBuilder.clear b npos) o;
  if negb (m_is_top_level_table o) then Some o else
  Some (set_info o (with_lists (m_info o) (filter (λ lv, list_table_ndx lv ≠ tbl_ndx) (lists (m_info o))))).

(** The rest of a schema change is for the descriptor of a top-level table. *)
Definition of_subtable o : bool :=
  negb (bool_decide (m_active_descriptor o = m_active_table o)) || negb (m_is_top_level_table o).

(** "if (column_indices.size() <= current_table()) column_indices.resize(current_table() + 1)" *)
Definition grow_column_indices (indices : list (list Z)) (tbl : nat) : list (list Z) :=
  if (length indices <=? tbl)%nat then resize (tbl + 1) [] indices else indices.

Definition insert_column o (ndx : Z) : option Observer :=
  let o := set_info o (with_schema_changed (m_info o)) in
  o ← if_active (m_active_descriptor o) (λ b, Some (ChangeBuilder.insert_column b ndx)) o;
  if of_subtable o then Some o else
  let o := update_lists (λ l,
    if (list_table_ndx l =? m_current_table o) && (ndx <=? list_col_ndx l)
    then set_col l (list_col_ndx l +w 1) else l) o in
  let tbl := Z.to_nat (m_current_table o) in
  let all := grow_column_indices (column_indices (m_info o)) tbl in
  indices ← all !! tbl;
  let n := Z.to_nat ndx in
  let indices := <[n := npos]> (insert_empty_at 0 (expand_to indices n) n) in
  Some (set_info o (with_column_indices (m_info o) (<[tbl := indices]> all))).

Definition prepare_table_indices info : TransactionChangeInfo T :=
  if (length (table_indices info) =? 0)%nat && negb (length (table_modifications_needed info) =? 0)%nat
  then with_table_indices info (iota (length (table_modifications_needed info)) 0) else info.

Definition insert_group_level_table o (ndx : Z) : Observer :=
  let o := set_info o (with_schema_changed (m_info o)) in
  let o := update_lists (λ l, if ndx <=? list_table_ndx l then set_tbl l (list_table_ndx l +w 1) else l) o in
  let info := prepare_table_indices (m_info o) in
  let info := with_table_indices info (adjust_ge (table_indices info) ndx) in
  let n := Z.to_nat ndx in
  let o := set_info o (with_tables info (insert_empty_at ChangeBuilder.empty_builder (tables info) n)) in
  let o := if (n <? length (tables info))%nat then new_array o else o in
  set_info o (with_needed (m_info o) (insert_empty_at false (table_modifications_needed info) n)
                (insert_empty_at false (table_moves_needed info) n)).

Definition move_column o (from_ to_ : Z) : option Observer :=
  let o := set_info o (with_schema_changed (m_info o)) in
  o ← if_active (m_active_descriptor o) (λ b, Some (ChangeBuilder.move_column b from_ to_)) o;
  if of_subtable o then Some o else
  let o := update_lists (λ l,
    if list_table_ndx l =? m_current_table o
    then set_col l (adjust_for_move from_ to_ (list_col_ndx l)) else l) o in
  let tbl := Z.to_nat (m_current_table o) in
  let all := grow_column_indices (column_indices (m_info o)) tbl in
  indices ← all !! tbl;
  indices ← rotate 0 (expand_to indices (Z.to_nat (Z.max from_ to_ + 1))) (Z.to_nat from_) (Z.to_nat to_);
  Some (set_info o (with_column_indices (m_info o) (<[tbl := indices]> all))).

Definition move_group_level_table o (from_ to_ : Z) : option Observer :=
  let o := set_info o (with_schema_changed (m_info o)) in
  let o := update_lists (λ l, set_tbl l (adjust_for_move from_ to_ (list_table_ndx l))) o in
  let info := prepare_table_indices (m_info o) in
  let info := with_table_indices info (adjust_for_move from_ to_ <$> table_indices info) in
  let f := Z.to_nat from_ in
  let t := Z.to_nat to_ in
  tbls ← rotate ChangeBuilder.empty_builder (tables info) f t;
  mods ← rotate false (table_modifications_needed info) f t;
  moves ← rotate false (table_moves_needed info) f t;
  let o := if (length tbls =? length (tables info))%nat then o else new_array o in
  Some (set_info o (with_needed (with_tables info tbls) mods moves)).

Definition insert_link_column o (ndx : Z) : option Observer := insert_column o ndx.

(** [MarkDirtyMixin]: "ignore SetDefault and SetUnique as those conceptually
    cannot be changes to existing rows" *)
Definition set_cell o (col row : Z) (instr : InstrCode) : option Observer :=
  match instr with instr_Set => mark_dirty o row col | _ => Some o end.

(** One instruction *)
Definition handle (i : Instruction) o : option Observer :=
  match i with
  | SelectTable ndx len path => select_table o ndx len path
  | SelectDescriptor levels => Some (select_descriptor o levels)
  | SelectLinkList col row => select_link_list o col row
  | LinkListSet index => link_list_set o index
  | LinkListInsert index => link_list_insert o index
  | LinkListErase index => link_list_erase o index
  | LinkListNullify index => link_list_nullify o index
  | LinkListSwap index1 index2 => link_list_swap o index1 index2
  | LinkListClear old_size => link_list_clear o old_size
  | LinkListMove from_ to_ => link_list_move o from_ to_
  | InsertEmptyRows row n _ _ => insert_empty_rows o row n
  | AddRowWithKey row _ => add_row_with_key o row
  | EraseRows row _ prior unordered => erase_rows o row prior unordered
  | SwapRows row_1 row_2 => swap_rows o row_1 row_2
  | MoveRow from_ to_ => move_row o from_ to_
  | MergeRows from_ to_ => merge_rows o from_ to_
  | ClearTable => clear_table o
  | SetCell col row instr => set_cell o col row instr
  | InsertColumn ndx => insert_column o ndx
  | InsertLinkColumn ndx => insert_link_column o ndx
  | MoveColumn from_ to_ => move_column o from_ to_
  | InsertGroupLevelTable ndx => Some (insert_group_level_table o ndx)
  | MoveGroupLevelTable from_ to_ => move_group_level_table o from_ to_
  | SetCellUnique _ _ | AddSearchIndex _ | RemoveSearchIndex _ | SetLinkType _ | OptimizeTable
  | EraseGroupLevelTable _ | RenameGroupLevelTable _ | EraseColumn _ | EraseLinkColumn _ | RenameColumn _ => Some o
  end.

(** The core parses a log with a handler, and calls [parse_complete] at its end;
    an exception ends it. *)
Fixpoint parse (log : list Instruction) o : option (Observer + SchemaError) :=
  match log with
  | [] => o ← parse_complete o; Some (inl o)
  | i :: log =>
      if negb (validate i) then Some (inr UnsupportedSchemaChange) else
      o ← handle i o; parse log o
  end.

(** [TransactLogValidator]: tracks nothing *)
Fixpoint parse_validator (log : list Instruction) : option SchemaError :=
  match log with
  | [] => None
  | i :: log => if negb (validate i) then Some UnsupportedSchemaChange else parse_validator log
  end.

(** [transaction::advance(sg, info, version)]: without anything to track there
    is no handler.  The result is the info and the builders of the lists. *)
Definition advance (log : list Instruction) info (builders : gmap nat (CollectionChangeBuilder T)) :
    option ((TransactionChangeInfo T * gmap nat (CollectionChangeBuilder T)) + SchemaError) :=
  if negb (track_all info) && (length (table_modifications_needed info) =? 0)%nat && (length (lists info) =? 0)%nat
  then Some (inl (info, builders))
  else
    r ← parse log (make info builders);
    Some (match r with inl o => inl (m_info o, list_builders o) | inr e => inr e end).
End Observer.
Arguments Observer T : clear implicits.
End TransactLog.
