(* ===== verification/Transaction.v ===== *)
(** What a transaction means: the instructions of a log as changes to top-level
    tables and the lists in their cells.  This is the specification
    [TransactLogObserver] is proved against; every row and every list element
    remembers where it was before the transaction. *)
From stdpp Require Import gmap.
From S2P Require Import Prelude ChangeBuilder ChangeRefinement TableRows DeepChange LogData TransactLog.

(** A row with the lists in its cells; a cell without an entry is an empty list. *)
Record DbRow := mkDbRow { db_row : TableRow; db_lists : gmap Z (list Row) }.

Definition new_db_row : DbRow := mkDbRow new_row ∅.

Definition content (r : DbRow) (col : Z) : list Row := default [] (db_lists r !! col).

(** The tables, the selected one, and the list selected in it by row and
    column.  The instructions for a list follow its selection. *)
Record World := mkWorld {
  db : list (list DbRow);
  current : option nat;
  selected : option (Z * Z) }.

(** Rows and list elements are counted below this, far from the end of [size_t]. *)
Definition max_rows : Z := 2 ^ 60.

Definition with_rows (w : World) (t : nat) (rows : list DbRow) : World :=
  mkWorld (<[t := rows]> (db w)) (current w) None.

(** Changes of one row *)
Definition set_dirty (r : DbRow) (col : Z) : DbRow :=
  mkDbRow (mkTableRow (row_origin (db_row r)) ({[col]} ∪ dirty (db_row r))) (db_lists r).
Definition set_content (r : DbRow) (col : Z) (l : list Row) : DbRow :=
  mkDbRow (db_row r) (<[col := l]> (db_lists r)).

Definition append_rows (rows : list DbRow) (n : Z) : option (list DbRow) :=
  assert! (0 <? n) && (len rows + n <=? max_rows);
  Some (rows ++ replicate (Z.to_nat n) new_db_row).

Definition swap_db_rows (rows : list DbRow) (a b : Z) : option (list DbRow) :=
  x ← at_ rows a;
  y ← at_ rows b;
  assert! a <? b;
  Some (<[Z.to_nat a := y]> (<[Z.to_nat b := x]> rows)).

Definition dirty_cell (rows : list DbRow) (row col : Z) : option (list DbRow) :=
  x ← at_ rows row;
  assert! (0 <=? col) && (col <? npos);
  Some (<[Z.to_nat row := set_dirty x col]> rows).

(** Changes of the selected table *)
Definition on_table (f : list DbRow → option (list DbRow)) (w : World) : option World :=
  t ← current w;
  rows ← db w !! t;
  rows ← f rows;
  Some (with_rows w t rows).

(** A change of the list in a cell *)
Definition list_step (op : Op) (row col : Z) (rows : list DbRow) : option (list DbRow) :=
  x ← at_ rows row;
  l ← list_op op (content x col);
  assert! len l <=? max_rows;
  Some (<[Z.to_nat row := set_content x col l]> rows).

Definition on_list (op : Op) (w : World) : option World :=
  t ← current w;
  '(row, col) ← selected w;
  rows ← db w !! t;
  rows ← list_step op row col rows;
  Some (mkWorld (<[t := rows]> (db w)) (current w) (selected w)).

(** The size of the selected list *)
Definition selected_len (w : World) : option Z :=
  t ← current w;
  '(row, col) ← selected w;
  rows ← db w !! t;
  x ← at_ rows row;
  Some (len (content x col)).

Definition deselect (w : World) : World := mkWorld (db w) (current w) None.

(** One instruction.  Rows of top-level tables are added at the end and removed
    by moving the last one over them; the sizes in the log are those of the
    table. *)
Definition step (i : Instruction) (w : World) : option World :=
  match i with
  | SelectTable t 0 _ =>
      assert! (0 <=? t) && (t <? len (db w));
      Some (mkWorld (db w) (Some (Z.to_nat t)) None)
  | SelectLinkList col row =>
      w ← on_table (λ rows, dirty_cell rows row col) w;
      Some (mkWorld (db w) (current w) (Some (row, col)))
  | LinkListSet index => on_list (OModify index npos) w
  | LinkListInsert index => on_list (OInsert index 1) w
  | LinkListErase index | LinkListNullify index => on_list (OErase index) w
  | LinkListSwap index1 index2 => w ← on_list (OModify index1 npos) w; on_list (OModify index2 npos) w
  | LinkListClear old_size => assert! bool_decide (selected_len w = Some old_size); on_list OClear w
  | LinkListMove from_ to_ => on_list (OMove from_ to_) w
  | InsertEmptyRows row n prior false =>
      on_table (λ rows, assert! (row =? len rows) && (prior =? len rows); append_rows rows n) w
  | AddRowWithKey row prior =>
      on_table (λ rows, assert! (row =? len rows) && (prior =? len rows); append_rows rows 1) w
  | EraseRows row 1 prior true => on_table (λ rows, assert! prior =? len rows; pop_over rows row) w
  | SwapRows a b => on_table (λ rows, swap_db_rows rows a b) w
  | ClearTable => on_table (λ _, Some []) w
  | SetCell col row instr_Set => on_table (λ rows, dirty_cell rows row col) w
  | SetCell _ _ _ | SetCellUnique _ _ => on_table Some w
  | AddSearchIndex _ | RemoveSearchIndex _ | SetLinkType _ | OptimizeTable => Some (deselect w)
  | _ => None
  end.

Definition run (log : list Instruction) (w : World) : option World := foldlM (λ w i, step i w) w log.

(** ** Observed lists

    [l0] says which lists are observed, by their place before the transaction. *)

(** The row that is removed holds no observed list, or a single list of its
    table is observed. *)
Definition erase_ok (l0 : list ListChangeInfo) (t : nat) (rows : list DbRow) (row : Z) : Prop :=
  (∀ r x, at_ rows row = Some r → x ∈ l0 → list_table_ndx x = Z.of_nat t →
     row_origin (db_row r) ≠ Some (list_row_ndx x)) ∨
  (∀ x y, x ∈ l0 → y ∈ l0 → list_table_ndx x = Z.of_nat t → list_table_ndx y = Z.of_nat t → x = y).

Definition step_ok (l0 : list ListChangeInfo) (i : Instruction) (w : World) : Prop :=
  match i, current w with
  | EraseRows row _ _ _, Some t => ∀ rows, db w !! t = Some rows → erase_ok l0 t rows row
  | _, _ => True
  end.

Fixpoint run_ok (l0 : list ListChangeInfo) (log : list Instruction) (w : World) : Prop :=
  match log with
  | [] => True
  | i :: log => step_ok l0 i w ∧ ∀ w', step i w = Some w' → run_ok l0 log w'
  end.

(** Before the transaction *)
Definition fresh_list (l : list Row) : Prop := l = initial_rows (len l).

Definition fresh_table (rows : list DbRow) : Prop :=
  db_row <$> rows = initial_table (len rows) ∧ len rows ≤ max_rows ∧
  Forall (λ r, map_Forall (λ _ l, fresh_list l ∧ len l ≤ max_rows) (db_lists r)) rows.

#[export] Instance Row_eq_dec : EqDecision Row.
Proof. solve_decision. Defined.

#[export] Instance fresh_table_dec rows : Decision (fresh_table rows).
Proof. unfold fresh_table, fresh_list. apply _. Defined.

Definition fresh (w : World) : Prop :=
  Forall fresh_table (db w) ∧ current w = None ∧ selected w = None.
