(* ===== verification/TransactLogTheory.v ===== *)
(** The observer of a transaction log against the meaning of the log: what has
    to match between them, and how it is kept by the changes of the tables and
    of the entries for lists. *)
From stdpp Require Import gmap.
From S2P Require Import Prelude ChunkedRangeVector IndexSet IndexSetTheory IndexSetMerge IndexSetSpec RowMap ChangeBuilder ChangeTheory ChangeMerge ChangeFinal ChangeRefinement TableRows ChangeTrack ChangeTrackOps ChangeTrackRun.
From S2P Require Import DeepChange TransactLog Transaction.
Import TransactLog.

(** ** Positions of rows in both worlds *)
Lemma at_fmap {A B} (f : A → B) (l : list A) p : at_ (f <$> l) p = f <$> at_ l p.
Proof. unfold at_. case_decide; [apply list_lookup_fmap|done]. Qed.

Lemma len_fmap {A B} (f : A → B) (l : list A) : len (f <$> l) = len l.
Proof. unfold len. by rewrite length_fmap. Qed.

Lemma pop_over_fmap {A B} (f : A → B) (l : list A) row : pop_over (f <$> l) row = (λ k : list A, f <$> k) <$> pop_over l row.
Proof.
  unfold pop_over. rewrite fmap_last, len_fmap, length_fmap. destruct (last l) as [x|]; [|done]. cbn [fmap option_fmap option_map mbind option_bind].
  destruct (_ && _); [|done]. apply (f_equal Some). by rewrite fmap_take, list_fmap_insert.
Qed.

Section Matching.
Context {build : Build} {T : Type} {ops : IndexSetOps T} {laws : IndexSetLaws T}.
Implicit Types (o : Observer T) (w : World) (info : TransactionChangeInfo T) (l : list ListChangeInfo).

(** What is tracked for a table *)
Definition tracked_table info (t : nat) : bool := track_all info || needed (table_modifications_needed info) (Z.of_nat t).
Definition tracked_moves info (t : nat) : bool := track_all info || needed (table_moves_needed info) (Z.of_nat t).

Definition table_builder (tbls : list (CollectionChangeBuilder T)) (t : nat) : CollectionChangeBuilder T :=
  default ChangeBuilder.empty_builder (tbls !! t).

(** The builder of a tracked table of [n] rows is in step with the table. *)
Definition table_matches info tbls (t : nat) (n : Z) (rows : list DbRow) : Prop :=
  0 ≤ n ≤ max_rows ∧ len rows ≤ max_rows ∧
  cells (table_builder tbls t) (db_row <$> rows) ∧
  tracks n None (tracked_moves info t) (table_builder tbls t) (db_row <$> rows).

Definition tables_match info (sizes : nat → Z) tbls (tables : list (list DbRow)) : Prop :=
  (∀ t rows, tables !! t = Some rows → tracked_table info t = true → table_matches info tbls t (sizes t) rows) ∧
  ∀ t b, tbls !! t = Some b → b = ChangeBuilder.empty_builder ∨ is_Some (tables !! t) ∧ tracked_table info t = true.

Lemma tables_match_update info sizes tbls tables t rows rows' b' :
  tables_match info sizes tbls tables → tables !! t = Some rows → tracked_table info t = true →
  (t < length tbls)%nat → len rows' ≤ max_rows → cells b' (db_row <$> rows') →
  tracks (sizes t) None (tracked_moves info t) b' (db_row <$> rows') →
  tables_match info sizes (<[t := b']> tbls) (<[t := rows']> tables).
Proof.
  intros [Hm He] Ht Htr Hlen Hmax Hc Hp. split.
  - intros t' rows1 Ht' Htr'. unfold table_matches, table_builder. destruct (decide (t' = t)) as [->|Hne].
    + rewrite list_lookup_insert_eq in Ht' by (by eapply lookup_lt_Some). injection Ht' as <-.
      rewrite list_lookup_insert_eq by done. destruct (Hm t rows Ht Htr) as (?&_). done.
    + rewrite list_lookup_insert_ne in Ht' by done. rewrite list_lookup_insert_ne by done. by apply Hm.
  - intros t' b Hb. destruct (decide (t' = t)) as [->|Hne].
    + right. split; [|done]. rewrite list_lookup_insert_eq by (by eapply lookup_lt_Some). done.
    + rewrite list_lookup_insert_ne in Hb by done. rewrite list_lookup_insert_ne by done. by apply (He t').
Qed.

Lemma tables_match_skip info sizes tbls tables t rows' :
  tables_match info sizes tbls tables → tracked_table info t = false →
  tables_match info sizes tbls (<[t := rows']> tables).
Proof.
  intros [Hm He] Htr. split.
  - intros t' rows1 [(->&_&_)|(Hne&Ht')]%list_lookup_insert_Some Htr'; [congruence|]. by apply Hm.
  - intros t' b [?|[Ht' ?]]%He; [by left|right]. split; [|done]. by apply lookup_lt_is_Some, (eq_ind_r (λ n, (t' < n)%nat) (proj1 (lookup_lt_is_Some _ _) Ht')), length_insert.
Qed.

(** ** Entries for lists *)

(** The entry [x0] of the start, now at another row *)
Definition at_row (x0 : ListChangeInfo) (p : Z) : ListChangeInfo := set_row x0 p.

(** The entries are those of the lists that still exist, each where its row is. *)
Record lists_match (l0 l : list ListChangeInfo) (tables : list (list DbRow)) : Prop := mkListsMatch {
  lists_ids : NoDup (list_changes <$> l);
  lists_sound : ∀ x, x ∈ l → 0 ≤ list_table_ndx x ∧ ∃ rows r k,
    tables !! Z.to_nat (list_table_ndx x) = Some rows ∧ at_ rows (list_row_ndx x) = Some r ∧
    row_origin (db_row r) = Some k ∧ set_row x k ∈ l0;
  lists_complete : ∀ x0 rows p r, x0 ∈ l0 →
    tables !! Z.to_nat (list_table_ndx x0) = Some rows → at_ rows p = Some r →
    row_origin (db_row r) = Some (list_row_ndx x0) → set_row x0 p ∈ l }.

(** Two rows that differ in nothing the entries depend on *)
Definition same_object (r r' : DbRow) : Prop :=
  row_origin (db_row r') = row_origin (db_row r) ∧ db_lists r' = db_lists r ∧ dirty (db_row r) ⊆ dirty (db_row r').

Lemma same_object_refl r : same_object r r.
Proof. done. Qed.
#[local] Hint Resolve same_object_refl : core.

Definition same_origin (r r' : DbRow) : Prop := row_origin (db_row r') = row_origin (db_row r).

(** [g] says where each row goes, if it stays; [R] relates the row to what it
    becomes. *)
Definition db_follow (R : DbRow → DbRow → Prop) (g : Z → option Z) (rows rows' : list DbRow) : Prop :=
  (∀ p r p', at_ rows p = Some r → g p = Some p' → ∃ r', at_ rows' p' = Some r' ∧ R r r') ∧
  (∀ p' r', at_ rows' p' = Some r' → r' = new_db_row ∨ ∃ p r, at_ rows p = Some r ∧ g p = Some p' ∧ R r r').

Lemma db_follow_mono (R R' : DbRow → DbRow → Prop) g rows rows' :
  db_follow R g rows rows' → (∀ r r', R r r' → R' r r') → db_follow R' g rows rows'.
Proof.
  intros [H1 H2] HR. split.
  - intros p r p' Hr Hg. destruct (H1 p r p' Hr Hg) as (r'&?&?). eauto.
  - intros p' r' [?|(p&r&?&?&?)]%H2; [by left|right]. exists p, r. auto.
Qed.

(** The entries of a table after its rows moved *)
Definition follow_entry (t : Z) (g : Z → option Z) (x : ListChangeInfo) : option ListChangeInfo :=
  if list_table_ndx x =? t then set_row x <$> g (list_row_ndx x) else Some x.

Lemma follow_entry_id t g x y : follow_entry t g x = Some y → list_changes y = list_changes x.
Proof.
  unfold follow_entry. case_match; [|congruence]. destruct (g _); simpl; [|done]. by intros [= <-].
Qed.

Lemma omap_ids t g l : NoDup (list_changes <$> l) → NoDup (list_changes <$> omap (follow_entry t g) l).
Proof.
  induction l as [|x l IH]; [done|]. rewrite fmap_cons. intros [Hx Hl]%NoDup_cons. simpl.
  destruct (follow_entry t g x) as [y|] eqn:E; [|by apply IH]. rewrite fmap_cons. apply NoDup_cons. split; [|by apply IH].
  rewrite (follow_entry_id _ _ _ _ E). intros (z&Hz&(x'&Hin&Hx')%list_elem_of_omap)%list_elem_of_fmap.
  apply Hx. rewrite Hz, (follow_entry_id _ _ _ _ Hx'). by apply list_elem_of_fmap_2.
Qed.

Lemma lists_match_follow l0 l l' tables t rows rows' g :
  lists_match l0 l tables → tables !! t = Some rows → db_follow same_origin g rows rows' →
  l' ≡ₚ omap (follow_entry (Z.of_nat t) g) l → lists_match l0 l' (<[t := rows']> tables).
Proof.
  intros [Hids Hsound Hcomp] Ht [Hf1 Hf2] Hl'. assert (t < length tables)%nat as Hlt by (by eapply lookup_lt_Some).
  constructor.
  - rewrite Hl'. by apply omap_ids.
  - intros y. rewrite Hl'. intros (x&Hx&Hy)%list_elem_of_omap. destruct (Hsound x Hx) as (Hpos&rs&r&k&Hrs&Hr&Hk&Hin).
    unfold follow_entry in Hy. destruct (Z.eqb_spec (list_table_ndx x) (Z.of_nat t)) as [E|E].
    + destruct (g (list_row_ndx x)) as [p'|] eqn:Hg; [|done]. injection Hy as <-. simpl. split; [done|].
      rewrite E, Nat2Z.id in *. rewrite Ht in Hrs. injection Hrs as <-.
      destruct (Hf1 _ _ _ Hr Hg) as (r'&Hr'&Ho). exists rows', r', k.
      rewrite list_lookup_insert_eq by done. split_and!; [done|done|by rewrite Ho|done].
    + injection Hy as <-. split; [done|]. exists rs, r, k. rewrite list_lookup_insert_ne by lia. done.
  - intros x0 rs p' r' Hx0 Hrs Hr' Hk. rewrite Hl'. apply list_elem_of_omap.
    destruct (decide (Z.to_nat (list_table_ndx x0) = t)) as [E|E].
    + rewrite E, list_lookup_insert_eq in Hrs by done. injection Hrs as <-.
      destruct (Hf2 _ _ Hr') as [->|(p&r&Hr&Hg&Ho)]; [done|]. unfold same_origin in Ho.
      pose proof (Hcomp x0 rows p r Hx0 ltac:(by rewrite E) Hr ltac:(congruence)) as Hin.
      exists (set_row x0 p). split; [done|]. unfold follow_entry. simpl. destruct (Hsound _ Hin) as (Hpos&_). simpl in Hpos.
      rewrite (proj2 (Z.eqb_eq _ _)) by lia. rewrite Hg. done.
    + rewrite list_lookup_insert_ne in Hrs by done. exists (set_row x0 p'). split; [by eapply Hcomp|].
      unfold follow_entry. simpl. destruct (Z.eqb_spec (list_table_ndx x0) (Z.of_nat t)); [lia|done].
Qed.

(** ** The rows of each operation *)
Lemma db_follow_append rows n :
  db_follow same_object Some rows (rows ++ replicate n new_db_row).
Proof.
  split.
  - intros p r p' Hr [= <-]. exists r. pose proof (at_Some _ _ _ Hr). by rewrite at_app_l by lia.
  - intros p' r' Hr. destruct (decide (p' < len rows)).
    + rewrite at_app_l in Hr by done. right. exists p', r'. done.
    + rewrite at_app_r in Hr by lia. left. unfold at_ in Hr. case_decide; [|done]. by apply lookup_replicate in Hr as [-> _].
Qed.

Definition over_entry (row last p : Z) : option Z :=
  if decide (p = row) then None else if decide (p = last) then Some row else Some p.

Lemma db_follow_over rows rows' row :
  pop_over rows row = Some rows' → db_follow same_object (over_entry row (len rows - 1)) rows rows'.
Proof.
  intros (Hrow&Hlen&Hat)%pop_over_Some. unfold over_entry. split.
  - intros p r p' Hr. pose proof (at_Some _ _ _ Hr). case_decide; [done|]. rewrite Hat.
    case_decide; intros [= <-]; exists r; rewrite decide_True by lia; [rewrite decide_True by done; by subst|by rewrite decide_False].
  - intros p' r'. rewrite Hat. case_decide; [|done]. case_decide; intros Hr; right.
    + exists (len rows - 1), r'. subst. rewrite decide_False, decide_True by lia. done.
    + exists p', r'. rewrite !decide_False by lia. done.
Qed.

Lemma db_follow_swap rows a b x y :
  at_ rows a = Some x → at_ rows b = Some y → a ≠ b →
  db_follow same_object (λ p, Some (swap_pos a b p)) rows (<[Z.to_nat a := y]> (<[Z.to_nat b := x]> rows)).
Proof.
  intros Ha Hb Hab. split.
  - intros p r p' Hr [= <-]. exists r. rewrite (at_swapped rows a b) by done. by rewrite swap_pos_invol.
  - intros p' r' Hr. rewrite (at_swapped rows a b) in Hr by done. right. exists (swap_pos a b p'), r'.
    by rewrite swap_pos_invol.
Qed.

Lemma follow_insert (R : DbRow → DbRow → Prop) rows row x x' :
  at_ rows row = Some x → R x x' → (∀ r, R r r) → db_follow R Some rows (<[Z.to_nat row := x']> rows).
Proof.
  intros Hx Hxx HR. pose proof (at_Some _ _ _ Hx). split.
  - intros p r p' Hr [= <-]. rewrite at_insert by done. case_decide; [subst|by exists r]. exists x'. by simplify_eq.
  - intros p' r'. rewrite at_insert by done. right. case_decide; [subst|by exists p', r']. simplify_eq. by exists row, x.
Qed.

Lemma follow_clear rows : db_follow same_object (λ _, None) rows [].
Proof. split; [done|]. intros p' r' Hr%at_Some. unfold len in Hr. simpl in Hr. lia. Qed.

(** ** The entries in each handler *)
Lemma omap_entry (f : ListChangeInfo → option ListChangeInfo) x l :
  omap f (x :: l) = match f x with Some y => y :: omap f l | None => omap f l end.
Proof. done. Qed.

Lemma follow_entry_same t x : follow_entry t Some x = Some x.
Proof. unfold follow_entry. case_match; [|done]. by destruct x. Qed.

Lemma omap_same t l : omap (follow_entry t Some) l = l.
Proof. induction l as [|x l IH]; [done|]. by rewrite omap_entry, follow_entry_same, IH. Qed.

Lemma omap_fmap (f : ListChangeInfo → ListChangeInfo) t g l :
  (∀ x, x ∈ l → follow_entry t g x = Some (f x)) → omap (follow_entry t g) l = f <$> l.
Proof.
  induction l as [|x l IH]; intros Hf; [done|]. rewrite omap_entry, Hf by constructor. rewrite IH; [done|].
  intros y Hy. apply Hf. by constructor.
Qed.

Lemma filter_other_table t l :
  filter (λ lv, list_table_ndx lv ≠ t) l = omap (follow_entry t (λ _, None)) l.
Proof.
  induction l as [|x l IH]; [done|]. rewrite filter_cons, omap_entry. unfold follow_entry at 1.
  destruct (Z.eqb_spec (list_table_ndx x) t); [rewrite decide_False by tauto|rewrite decide_True by done; rewrite IH]; done.
Qed.

(** *** The loop of [erase_rows] *)
Definition over_row (t row last : Z) (x : ListChangeInfo) : ListChangeInfo :=
  if (list_table_ndx x =? t) && (list_row_ndx x =? last) then set_row x row else x.

(** No entry is in the removed row. *)
Lemma erase_lists_update fuel t row last i l :
  (length l ≤ i + fuel)%nat → (∀ x, x ∈ drop i l → list_table_ndx x = t → list_row_ndx x ≠ row) →
  erase_lists fuel t row last i l = take i l ++ (over_row t row last <$> drop i l).
Proof.
  revert i l. induction fuel as [|fuel IH]; intros i l Hlen Hno; simpl.
  { rewrite drop_ge, take_ge by lia. by rewrite app_nil_r. }
  destruct (l !! i) as [x|] eqn:Hi.
  2:{ apply lookup_ge_None in Hi. rewrite drop_ge, take_ge by lia. by rewrite app_nil_r. }
  assert (drop i l = x :: drop (S i) l) as Hdrop by (by apply drop_S).
  assert (∀ y, length (<[i := y]> l) = length l) as Hli by (intros; apply length_insert).
  assert (∀ y, erase_lists fuel t row last (S i) (<[i := y]> l) = take i l ++ y :: (over_row t row last <$> drop (S i) l)) as Hstep.
  { intros y. pose proof (lookup_lt_Some _ _ _ Hi). rewrite IH; rewrite ?Hli; [|lia|].
    - rewrite drop_insert_lt by lia. rewrite (take_S_r _ _ y) by (by apply list_lookup_insert_eq).
      rewrite take_insert_ge by lia. by rewrite <-app_assoc.
    - rewrite drop_insert_lt by lia. intros z Hz. apply Hno. rewrite Hdrop. by constructor. }
  pose proof (Hstep x) as Hx. rewrite list_insert_id in Hx by done. rewrite Hdrop. cbn [fmap list_fmap].
  unfold over_row at 1. destruct (Z.eqb_spec (list_table_ndx x) t) as [E|E]; cbn [negb andb]; [|done].
  destruct (Z.eqb_spec (list_row_ndx x) row) as [Er|Er].
  { exfalso. apply (Hno x); [rewrite Hdrop; constructor|done|done]. }
  destruct (Z.eqb_spec (list_row_ndx x) last); [apply Hstep|done].
Qed.

(** Nothing left for the table *)
Lemma erase_lists_other fuel t row last i l :
  (∀ x, x ∈ drop i l → list_table_ndx x ≠ t) → erase_lists fuel t row last i l = l.
Proof.
  revert i. induction fuel as [|fuel IH]; intros i Hno; [done|]. simpl. destruct (l !! i) as [x|] eqn:Hi; [|done].
  assert (drop i l = x :: drop (S i) l) as Hdrop by (by apply drop_S). rewrite Hdrop in Hno.
  rewrite (proj2 (Z.eqb_neq _ _)) by (apply Hno; constructor). cbn [negb]. apply IH. intros y Hy. apply Hno. by constructor.
Qed.

(** One entry for the table *)
Lemma erase_lists_single fuel t row last i l1 x l2 :
  (i ≤ length l1)%nat → (length l1 < i + fuel)%nat → list_table_ndx x = t → list_row_ndx x = row →
  (∀ y, y ∈ l1 ∨ y ∈ l2 → list_table_ndx y ≠ t) →
  erase_lists fuel t row last i (l1 ++ x :: l2) ≡ₚ l1 ++ l2.
Proof.
  revert i. induction fuel as [|fuel IH]; intros i Hi Hf Ht Hr Hno; [lia|]. simpl.
  destruct (decide (i < length l1)%nat) as [Hlt|Hge].
  - rewrite lookup_app_l by done. destruct (lookup_lt_is_Some_2 l1 i Hlt) as [y Hy]. rewrite Hy.
    rewrite (proj2 (Z.eqb_neq _ _)) by (apply Hno; left; by eapply list_elem_of_lookup_2). cbn [negb]. apply IH; lia || done.
  - replace i with (length l1) by lia. rewrite lookup_app_here, (proj2 (Z.eqb_eq _ _) Ht), (proj2 (Z.eqb_eq _ _) Hr). cbn [negb].
    rewrite last_app_cons. destruct l2 as [|y l2].
    + assert (take (pred (length (l1 ++ [x]))) (l1 ++ [x]) = l1) as Htk.
      { rewrite length_app. simpl. replace (pred (length l1 + 1)) with (length l1) by lia. by rewrite take_app_length. }
      assert ((length l1 + 1 <? length (l1 ++ [x]))%nat = false) as Hlb by (apply Nat.ltb_ge; rewrite length_app; simpl; lia).
      simpl. rewrite Hlb, Htk, app_nil_r.
      rewrite erase_lists_other; [done|].
      intros z Hz. rewrite drop_ge in Hz by lia. by apply elem_of_nil in Hz.
    + destruct (destruct_last (y :: l2)) as (k&z&Hk); [done|]. rewrite Hk in *.
      change (list.last (x :: k ++ [z])) with (list.last ([x] ++ (k ++ [z]))). rewrite app_assoc, last_snoc.
      rewrite length_app. simpl. rewrite length_app. simpl. rewrite (proj2 (Nat.ltb_lt _ _)) by lia.
      rewrite list_insert_app_here.
      assert (take (pred (length (l1 ++ z :: k ++ [z]))) (l1 ++ z :: k ++ [z]) = l1 ++ z :: k) as ->.
      { rewrite app_comm_cons, app_assoc, length_app. simpl.
        replace (pred (length (l1 ++ z :: k) + 1)) with (length (l1 ++ z :: k)) by lia. by rewrite take_app_length. }
      rewrite erase_lists_other; [by rewrite <-Permutation_cons_append|].
      intros v. rewrite drop_app_ge by lia. replace (S (length l1) - length l1)%nat with 1%nat by lia. simpl. rewrite drop_0.
      intros Hv. apply Hno. right. apply elem_of_app. by left.
Qed.
End Matching.
