(* ===== verification/TransactLogEnd.v ===== *)
(** [TransactLogObserver] refines the meaning of the log: every handler keeps
    the change sets in step with the tables and lists, on whole logs from the start
    to the end, with [parse_complete]. *)
From stdpp Require Import gmap.
From S2P Require Import Prelude ChunkedRangeVector IndexSet IndexSetTheory IndexSetMerge IndexSetSpec RowMap ChangeBuilder ChangeTheory ChangeMerge ChangeFinal ChangeRefinement TableRows ChangeTrack ChangeTrackOps ChangeTrackRun DeepChange LogData TransactLog Transaction TransactLogTheory.
Import TransactLog.

Section Refinement.
Context {build : Build} {T : Type} {ops : IndexSetOps T} {laws : IndexSetLaws T}.
Implicit Types (o : Observer T) (w : World) (info : TransactionChangeInfo T) (l : list ListChangeInfo).

(** ** The builders of lists *)
Definition builders_match (lsizes : nat → Z) l (heap : gmap nat (CollectionChangeBuilder T)) (tables : list (list DbRow)) : Prop :=
  ∀ x rows r, x ∈ l → tables !! Z.to_nat (list_table_ndx x) = Some rows → at_ rows (list_row_ndx x) = Some r →
    0 ≤ lsizes (list_changes x) ≤ max_rows ∧ len (content r (list_col_ndx x)) ≤ max_rows ∧
    ∃ b, heap !! list_changes x = Some b ∧ sim (lsizes (list_changes x)) b (content r (list_col_ndx x)) ∧
      (list_col_ndx x ∉ dirty (db_row r) → b = ChangeBuilder.empty_builder).

Lemma builders_match_follow lsizes l0 l l' heap tables t rows rows' g :
  builders_match lsizes l heap tables → lists_match l0 l tables → tables !! t = Some rows →
  db_follow same_object g rows rows' → l' ≡ₚ omap (follow_entry (Z.of_nat t) g) l →
  builders_match lsizes l' heap (<[t := rows']> tables).
Proof.
  intros Hb Hl Ht [Hf1 Hf2] Hl'. assert (t < length tables)%nat as Hlt by (by eapply lookup_lt_Some).
  intros y rs r'. rewrite Hl'. intros (x&Hx&Hy)%list_elem_of_omap Hrs Hr'.
  destruct (lists_sound _ _ _ Hl x Hx) as (Hpos&rs0&r&k&Hrs0&Hr&_). unfold follow_entry in Hy.
  destruct (Z.eqb_spec (list_table_ndx x) (Z.of_nat t)) as [E|E].
  - destruct (g (list_row_ndx x)) as [p'|] eqn:Hg; [|done]. injection Hy as <-. simpl in *.
    rewrite E, Nat2Z.id in *. rewrite Ht in Hrs0. injection Hrs0 as <-. rewrite list_lookup_insert_eq in Hrs by done.
    injection Hrs as <-. destruct (Hf1 _ _ _ Hr Hg) as (r1&Hr1&_&Hsame&Hdirty). assert (r1 = r') as -> by congruence.
    unfold content. rewrite Hsame. destruct (Hb x rows r) as (?&?&b&?&?&Hclean); [done|by rewrite E, Nat2Z.id|done|].
    split; [done|]. split; [done|]. exists b. split; [done|]. split; [done|]. intros Hn. apply Hclean. set_solver.
  - injection Hy as <-. rewrite list_lookup_insert_ne in Hrs by lia. by apply (Hb x rs).
Qed.

(** ** Entries by their place *)
Definition keys_distinct l0 : Prop := ∀ x y, x ∈ l0 → y ∈ l0 →
  list_table_ndx x = list_table_ndx y → list_row_ndx x = list_row_ndx y → list_col_ndx x = list_col_ndx y → x = y.

Lemma entries_distinct l0 l tables x y :
  keys_distinct l0 → lists_match l0 l tables → x ∈ l → y ∈ l →
  list_table_ndx x = list_table_ndx y → list_row_ndx x = list_row_ndx y → list_col_ndx x = list_col_ndx y → x = y.
Proof.
  intros Hk Hl Hx Hy Et Er Ec. destruct (lists_sound _ _ _ Hl x Hx) as (_&rs&r&k&Hrs&Hr&Ho&Hin).
  destruct (lists_sound _ _ _ Hl y Hy) as (_&rs'&r'&k'&Hrs'&Hr'&Ho'&Hin').
  rewrite <-Et in Hrs'. assert (rs' = rs) as -> by congruence. rewrite <-Er in Hr'.
  assert (r' = r) as -> by congruence. assert (k' = k) as -> by congruence.
  pose proof (Hk _ _ Hin Hin' Et eq_refl Ec) as E. destruct x, y; simpl in *. unfold set_row in E. simpl in E. congruence.
Qed.

Lemma last_all_equal {A} (k : list A) x : x ∈ k → (∀ y, y ∈ k → y = x) → last k = Some x.
Proof.
  intros Hx Hall. destruct (destruct_last k) as (k'&y&->); [by intros ->; apply elem_of_nil in Hx|].
  rewrite last_snoc. f_equal. apply Hall, elem_of_app. right. by constructor.
Qed.

Lemma find_list_entry l0 o tables x :
  keys_distinct l0 → lists_match l0 (lists (m_info o)) tables → x ∈ lists (m_info o) →
  find_list o (list_table_ndx x) (list_col_ndx x) (list_row_ndx x) = Some (PList (list_changes x)).
Proof.
  intros Hk Hl Hx. unfold find_list. rewrite (last_all_equal _ x); [done| |].
  - by apply list_elem_of_filter.
  - intros y [(?&?&?) Hy]%list_elem_of_filter. by eapply (entries_distinct l0 (lists (m_info o)) tables y x).
Qed.

(** What [find_list] finds is an entry with the place. *)
Lemma find_list_Some o t col row p :
  find_list o t col row = Some p → ∃ x, x ∈ lists (m_info o) ∧ p = PList (list_changes x) ∧
    list_table_ndx x = t ∧ list_row_ndx x = row ∧ list_col_ndx x = col.
Proof.
  unfold find_list. intros (x&Hx&->)%fmap_Some. exists x.
  apply last_Some_elem_of, list_elem_of_filter in Hx as [(?&?&?) ?]. done.
Qed.

Lemma find_list_None o t col row x :
  find_list o t col row = None → x ∈ lists (m_info o) →
  list_table_ndx x = t → list_row_ndx x = row → list_col_ndx x = col → False.
Proof.
  unfold find_list. intros Hn%fmap_None Hx Ht Hr Hc. apply last_None in Hn.
  assert (x ∈ filter (λ e : ListChangeInfo, list_table_ndx e = t ∧ list_row_ndx e = row ∧ list_col_ndx e = col) (lists (m_info o))) as Hin
    by (by apply list_elem_of_filter).
  rewrite Hn in Hin. by apply elem_of_nil in Hin.
Qed.

(** ** The relation *)
Definition active_matches info o w : Prop :=
  match current w with
  | None => m_active_table o = None
  | Some t =>
      (t < length (db w))%nat ∧ m_current_table o = Z.of_nat t ∧ m_is_top_level_table o = true ∧
      (if tracked_table info t
       then m_active_table o = Some (PTable (tables_array o) t) ∧ (t < length (tables (m_info o)))%nat ∧
            m_need_move_info o = tracked_moves info t
       else m_active_table o = None) ∧
      match selected w with
      | Some (row, col) =>
          m_active_list o = find_list o (Z.of_nat t) col row ∧
          ∃ rows r, db w !! t = Some rows ∧ at_ rows row = Some r ∧ col ∈ dirty (db_row r)
      | None => True
      end
  end.

Record matches l0 info (sizes lsizes : nat → Z) o w : Prop := mkMatches {
  mt_flags : table_modifications_needed (m_info o) = table_modifications_needed info ∧
    table_moves_needed (m_info o) = table_moves_needed info ∧ track_all (m_info o) = track_all info;
  mt_bound : Forall (λ rows : list DbRow, len rows ≤ max_rows) (db w);
  mt_tables : tables_match info sizes (tables (m_info o)) (db w);
  mt_lists : lists_match l0 (lists (m_info o)) (db w);
  mt_builders : builders_match lsizes (lists (m_info o)) (list_builders o) (db w);
  mt_active : active_matches info o w }.

Lemma set_tables_id o : set_info o (with_tables (m_info o) (tables (m_info o))) = o.
Proof. destruct o as [[] ? ? ? ? ? ? ? ?]. done. Qed.

Lemma set_lists_id o : set_info o (with_lists (m_info o) (lists (m_info o))) = o.
Proof. destruct o as [[] ? ? ? ? ? ? ? ?]. done. Qed.

(** A change of the selected table: the builder, if there is one, and the
    entries *)
Lemma table_step l0 info sizes lsizes o w t rows rows' g f :
  matches l0 info sizes lsizes o w → current w = Some t → db w !! t = Some rows → len rows' ≤ max_rows →
  db_follow same_object g rows rows' →
  (∀ b, tracked_table info t = true → m_need_move_info o = tracked_moves info t →
     table_matches info (tables (m_info o)) t (sizes t) rows → b = table_builder (tables (m_info o)) t →
     ∃ b', f b = Some b' ∧ (cells b' (db_row <$> rows') ∧ tracks (sizes t) None (tracked_moves info t) b' (db_row <$> rows'))) →
  ∃ tbls, if_active (m_active_table o) f o = Some (set_info o (with_tables (m_info o) tbls)) ∧
    ∀ l', l' ≡ₚ omap (follow_entry (Z.of_nat t) g) (lists (m_info o)) →
      matches l0 info sizes lsizes (set_info o (with_lists (with_tables (m_info o) tbls) l')) (with_rows w t rows').
Proof.
  intros [(Hfl1&Hfl2&Hfl3) Hbd Htm Hlm Hbm Hact] Hcur Ht Hmax Hfol Hf. unfold active_matches in Hact. rewrite Hcur in Hact.
  destruct Hact as (Hlt&Hct&Htop&Hactive&_).
  assert (∀ tbls l', l' ≡ₚ omap (follow_entry (Z.of_nat t) g) (lists (m_info o)) →
    tables_match info sizes tbls (<[t := rows']> (db w)) →
    (if tracked_table info t then (t < length tbls)%nat else True) →
    matches l0 info sizes lsizes (set_info o (with_lists (with_tables (m_info o) tbls) l')) (with_rows w t rows')) as Hfin.
  { intros tbls l' Hl' Htm' Hlen. constructor; simpl; [done|by apply Forall_insert|done| | |].
    - eapply lists_match_follow; [done..| |done]. eapply db_follow_mono; [done|]. by intros r r' [? _].
    - by eapply builders_match_follow.
    - unfold active_matches. simpl. rewrite Hcur, length_insert. split_and!; [done..| |done].
      destruct (tracked_table info t); [|done]. destruct Hactive as (?&_&?). done. }
  destruct (tracked_table info t) eqn:Htr.
  - destruct Hactive as (->&Hlen&Hmv). pose proof (proj1 Htm t rows Ht Htr) as Hmt.
    destruct (Hf (table_builder (tables (m_info o)) t) eq_refl Hmv Hmt eq_refl) as (b'&Hb'&Hc'&Hp').
    simpl. rewrite Nat.eqb_refl. destruct (lookup_lt_is_Some_2 _ _ Hlen) as [b0 Hb0]. rewrite Hb0. cbn [mbind option_bind].
    unfold table_builder in Hb'. rewrite Hb0 in Hb'. simpl in Hb'. rewrite Hb'. cbn [mbind option_bind].
    eexists. split; [done|]. intros l' Hl'. apply Hfin; [done| |by rewrite length_insert].
    eapply tables_match_update; done.
  - rewrite Hactive. simpl. exists (tables (m_info o)). rewrite set_tables_id. split; [done|]. intros l' Hl'. apply Hfin; [done| |done].
    by apply tables_match_skip.
Qed.

Lemma max_rows_fits : 0 < max_rows ∧ 4 * max_rows + 8 ≤ npos.
Proof. split; vm_compute; congruence. Qed.

(** [on_table] and the handler of the same instruction *)
Lemma on_table_Some f w w' :
  on_table f w = Some w' → ∃ t rows rows', current w = Some t ∧ db w !! t = Some rows ∧ f rows = Some rows' ∧
    w' = with_rows w t rows'.
Proof.
  unfold on_table. destruct (current w) as [t|] eqn:Hcur; [|done]. cbn [mbind option_bind].
  destruct (db w !! t) as [rows|] eqn:Ht; [|done]. cbn [mbind option_bind].
  destruct (f rows) as [rows'|] eqn:Hf; [|done]. intros [= <-]. by exists t, rows, rows'.
Qed.

Lemma matches_current l0 info sizes lsizes o w t rows :
  matches l0 info sizes lsizes o w → current w = Some t → db w !! t = Some rows →
  m_current_table o = Z.of_nat t ∧ m_is_top_level_table o = true ∧ len rows ≤ max_rows ∧
  ∀ x, x ∈ lists (m_info o) → list_table_ndx x = m_current_table o → 0 ≤ list_row_ndx x < len rows.
Proof.
  intros [_ Hbd _ Hl _ Hact] Hcur Ht. unfold active_matches in Hact. rewrite Hcur in Hact. destruct Hact as (_&Hc&Htop&_).
  split; [done|]. split; [done|].
  split; [by apply (Forall_lookup_1 _ _ _ _ Hbd Ht)|]. intros x Hx E. destruct (lists_sound _ _ _ Hl x Hx) as (_&rs&r&k&Hrs&Hr&_).
  rewrite E, Hc, Nat2Z.id, Ht in Hrs. injection Hrs as <-. by apply at_Some in Hr.
Qed.

Lemma insert_rows_step l0 info sizes lsizes o w t rows n :
  matches l0 info sizes lsizes o w → current w = Some t → db w !! t = Some rows →
  0 < n → len rows + n ≤ max_rows →
  ∃ o', insert_empty_rows o (len rows) n = Some o' ∧
    matches l0 info sizes lsizes o' (with_rows w t (rows ++ replicate (Z.to_nat n) new_db_row)).
Proof.
  intros Hm Hcur Ht Hn Hmax. pose proof max_rows_fits. destruct (matches_current _ _ _ _ _ _ _ _ Hm Hcur Ht) as (Hct&Htop&Hbd&Hrow).
  destruct (table_step l0 info sizes lsizes o w t rows (rows ++ replicate (Z.to_nat n) new_db_row) Some
    (λ b, ChangeBuilder.insert b (len rows) n (m_need_move_info o))) as (tbls&Heq&Hfin); [done..|rewrite len_app, len_replicate; lia|apply db_follow_append| |].
  - intros b Htr Hmv (Hsz&Hlen&Hc&Hp) ->. rewrite Hmv, fmap_app, fmap_replicate. change (db_row new_db_row) with new_row.
    rewrite <-(len_fmap db_row rows). destruct (append_ok (sizes t) (tracked_moves info t) _ _ n ltac:(lia) Hc Hp Hn) as (b'&?&?&?);
      [rewrite len_fmap; lia|]. by exists b'.
  - unfold insert_empty_rows. rewrite Heq. cbn [mbind option_bind]. simpl. rewrite Htop. cbn [negb]. eexists. split; [done|].
    apply Hfin. rewrite omap_same. apply reflexive_eq. symmetry. rewrite <-(list_fmap_id (lists (m_info o))) at 1.
    apply list_fmap_ext. intros i x Hx%list_elem_of_lookup_2. simpl.
    destruct (Z.eqb_spec (list_table_ndx x) (m_current_table o)) as [E|]; [|done].
    destruct (Z.leb_spec (len rows) (list_row_ndx x)); [|done]. pose proof (Hrow x Hx E). lia.
Qed.

Lemma dirty_step l0 info sizes lsizes o w t rows rows' row col :
  matches l0 info sizes lsizes o w → current w = Some t → db w !! t = Some rows →
  dirty_cell rows row col = Some rows' →
  ∃ o', mark_dirty o row col = Some o' ∧ matches l0 info sizes lsizes o' (with_rows w t rows') ∧
    lists (m_info o') = lists (m_info o) ∧ m_current_table o' = m_current_table o.
Proof.
  intros Hm Hcur Ht. unfold dirty_cell. destruct (at_ rows row) as [x|] eqn:Hx; [|done]. cbn [mbind option_bind].
  destruct (_ && _) eqn:Hcol; [|done]. intros [= <-]. apply andb_true_iff in Hcol as [?%Z.leb_le ?%Z.ltb_lt].
  pose proof max_rows_fits. pose proof (at_Some _ _ _ Hx) as Hrow. destruct (matches_current _ _ _ _ _ _ _ _ Hm Hcur Ht) as (Hct&Htop&Hbd&_).
  destruct (table_step l0 info sizes lsizes o w t rows (<[Z.to_nat row := set_dirty x col]> rows) Some
    (λ b, ChangeBuilder.modify b row col)) as (tbls&Heq&Hfin); [done..|by rewrite len_insert| | |].
  - apply (follow_insert same_object _ _ x); [done| |done]. split; [done|]. split; [done|]. simpl. set_solver.
  - intros b Htr Hmv (Hsz&Hlen&Hc&Hp) ->. rewrite list_fmap_insert.
    destruct (modify_ok (sizes t) (tracked_moves info t) _ _ row col (db_row x) Hc Hp) as (b'&?&?);
      [by rewrite at_fmap, Hx|lia|rewrite len_fmap; lia|]. by exists b'.
  - unfold mark_dirty. rewrite Heq. eexists. split; [done|]. split; [|done].
    specialize (Hfin (lists (m_info o))). apply Hfin. by rewrite omap_same.
Qed.

(** The entries of the table of a removed row *)
Lemma single_entry l0 l tables t x :
  lists_match l0 l tables → (∀ y z, y ∈ l0 → z ∈ l0 → list_table_ndx y = Z.of_nat t → list_table_ndx z = Z.of_nat t → y = z) →
  x ∈ l → list_table_ndx x = Z.of_nat t →
  ∃ la lb, l = la ++ x :: lb ∧ ∀ y, y ∈ la ∨ y ∈ lb → list_table_ndx y ≠ Z.of_nat t.
Proof.
  intros Hl Hok Hx Etx. pose proof (lists_ids _ _ _ Hl) as Hids.
  assert (∀ y, y ∈ l → list_table_ndx y = Z.of_nat t → list_changes y = list_changes x) as Huniq.
  { intros y Hy Ety. destruct (lists_sound _ _ _ Hl x Hx) as (_&_&_&k&_&_&_&Hin).
    destruct (lists_sound _ _ _ Hl y Hy) as (_&_&_&k'&_&_&_&Hin').
    pose proof (Hok _ _ Hin Hin' Etx Ety) as E. destruct x, y. by injection E. }
  apply list_elem_of_split in Hx as (la&lb&->). exists la, lb. split; [done|].
  rewrite fmap_app, fmap_cons in Hids. apply NoDup_app in Hids as (_&Hd1&[Hd2 _]%NoDup_cons).
  intros y Hy Ety. assert (list_changes y = list_changes x) as E.
  { apply Huniq; [|done]. apply elem_of_app. destruct Hy; [by left|right; by constructor]. }
  destruct Hy as [Hy|Hy]; [apply (Hd1 (list_changes y)); [by apply list_elem_of_fmap_2|rewrite E; constructor]|].
  apply Hd2. rewrite <-E. by apply list_elem_of_fmap_2.
Qed.

Lemma erase_entries l0 l tables t rows row :
  lists_match l0 l tables → tables !! t = Some rows → erase_ok l0 t rows row →
  erase_lists (length l) (Z.of_nat t) row (len rows - 1) 0 l ≡ₚ
    omap (follow_entry (Z.of_nat t) (over_entry row (len rows - 1))) l.
Proof.
  intros Hl Ht Hok.
  destruct (decide (Exists (λ x, list_table_ndx x = Z.of_nat t ∧ list_row_ndx x = row) l)) as [(x&Hx&Etx&Erx)%Exists_exists|Hno].
  - destruct Hok as [Hok|Hok].
    { exfalso. destruct (lists_sound _ _ _ Hl x Hx) as (_&rs&r&k&Hrs&Hr&Hk&Hin).
      rewrite Etx, Nat2Z.id, Ht in Hrs. injection Hrs as <-. rewrite Erx in Hr. by apply (Hok r (set_row x k) Hr Hin Etx). }
    destruct (single_entry l0 l tables t x Hl Hok Hx Etx) as (la&lb&->&Hother).
    rewrite erase_lists_single; [|lia|rewrite length_app; simpl; lia|done|done|done].
    assert (∀ k : list ListChangeInfo, (∀ y, y ∈ k → list_table_ndx y ≠ Z.of_nat t) →
      omap (follow_entry (Z.of_nat t) (over_entry row (len rows - 1))) k = k) as Hsame.
    { intros k Hk. rewrite (omap_fmap id); [apply list_fmap_id|]. intros y Hy. unfold follow_entry.
      by rewrite (proj2 (Z.eqb_neq _ _)) by (by apply Hk). }
    rewrite omap_app, omap_entry. rewrite (Hsame la), (Hsame lb) by auto. unfold follow_entry at 1.
    rewrite (proj2 (Z.eqb_eq _ _) Etx). unfold over_entry. by rewrite decide_True.
  - assert (∀ x, x ∈ l → list_table_ndx x = Z.of_nat t → list_row_ndx x ≠ row) as Hno'.
    { intros x Hx ? ?. apply Hno, Exists_exists. eauto. }
    rewrite erase_lists_update; [|lia|by rewrite drop_0]. rewrite drop_0. simpl. apply reflexive_eq. symmetry.
    apply omap_fmap. intros x Hx. specialize (Hno' x Hx). unfold follow_entry, over_row, over_entry.
    destruct (Z.eqb_spec (list_table_ndx x) (Z.of_nat t)) as [E|E]; [|done]. cbn [andb]. rewrite decide_False by auto.
    destruct (Z.eqb_spec (list_row_ndx x) (len rows - 1)) as [E'|E']; [by rewrite decide_True|].
    rewrite decide_False by done. simpl. by destruct x.
Qed.

Lemma erase_rows_step l0 info sizes lsizes o w t rows rows' row :
  matches l0 info sizes lsizes o w → current w = Some t → db w !! t = Some rows → pop_over rows row = Some rows' →
  erase_ok l0 t rows row →
  ∃ o', erase_rows o row (len rows) true = Some o' ∧ matches l0 info sizes lsizes o' (with_rows w t rows').
Proof.
  intros Hm Hcur Ht Hpop Hok. pose proof max_rows_fits. pose proof Hpop as (Hrow&Hlen'&_)%pop_over_Some.
  destruct (matches_current _ _ _ _ _ _ _ _ Hm Hcur Ht) as (Hct&Htop&Hbd&_).
  destruct (table_step l0 info sizes lsizes o w t rows rows' (over_entry row (len rows - 1))
    (λ b, ChangeBuilder.move_over b row (len rows - 1) (m_need_move_info o))) as (tbls&Heq&Hfin); [done..|lia|by apply db_follow_over| |].
  - intros b Htr Hmv (Hsz&Hlen&Hc&Hp) ->. rewrite Hmv, <-(len_fmap db_row rows).
    destruct (move_over_ok (sizes t) None (tracked_moves info t) _ _ (db_row <$> rows') row ltac:(lia) Hc Hp) as (b'&?&?&?);
      [done|by rewrite pop_over_fmap, Hpop|rewrite len_fmap; lia|]. by exists b'.
  - unfold erase_rows. cbn [negb]. rewrite wsub_small by lia. rewrite Heq. cbn [mbind option_bind]. simpl. rewrite Htop. cbn [negb].
    eexists. split; [done|]. apply Hfin. rewrite Hct. by eapply erase_entries; [apply Hm|..].
Qed.

Lemma swap_rows_step l0 info sizes lsizes o w t rows rows' p q :
  matches l0 info sizes lsizes o w → current w = Some t → db w !! t = Some rows → swap_db_rows rows p q = Some rows' →
  ∃ o', swap_rows o p q = Some o' ∧ matches l0 info sizes lsizes o' (with_rows w t rows').
Proof.
  intros Hm Hcur Ht. unfold swap_db_rows. destruct (at_ rows p) as [x|] eqn:Hx; [|done]. destruct (at_ rows q) as [y|] eqn:Hy; [|done].
  cbn [mbind option_bind]. destruct (Z.ltb_spec p q); [|done]. intros [= <-]. pose proof max_rows_fits.
  destruct (matches_current _ _ _ _ _ _ _ _ Hm Hcur Ht) as (Hct&Htop&Hbd&_).
  destruct (table_step l0 info sizes lsizes o w t rows (<[Z.to_nat p := y]> (<[Z.to_nat q := x]> rows)) (λ z, Some (swap_pos p q z))
    (λ b, ChangeBuilder.swap b p q (m_need_move_info o))) as (tbls&Heq&Hfin); [done..|by rewrite !len_insert|apply db_follow_swap; done || lia| |].
  - intros b Htr Hmv (Hsz&Hlen&Hc&Hp) ->. rewrite Hmv, !list_fmap_insert.
    destruct (swap_ok (sizes t) (tracked_moves info t) _ _ p q (db_row x) (db_row y) ltac:(lia) Hc Hp) as (b'&?&?);
      [by rewrite at_fmap, Hx|by rewrite at_fmap, Hy|lia|rewrite len_fmap; lia|]. by exists b'.
  - unfold swap_rows. rewrite (proj2 (Z.ltb_lt p q)) by done. rewrite Htop. cbn [negb]. rewrite Heq. cbn [mbind option_bind].
    eexists. split; [done|]. apply Hfin. apply reflexive_eq. symmetry. simpl. apply omap_fmap. intros e He. rewrite Hct.
    unfold follow_entry, swap_pos. destruct (Z.eqb_spec (list_table_ndx e) (Z.of_nat t)); [|done]. simpl. f_equal.
    destruct (Z.eqb_spec (list_row_ndx e) p); [by rewrite decide_True|rewrite decide_False by done].
    destruct (Z.eqb_spec (list_row_ndx e) q); [by rewrite decide_True|rewrite decide_False by done]. by destruct e.
Qed.

Lemma clear_table_step l0 info sizes lsizes o w t rows :
  matches l0 info sizes lsizes o w → current w = Some t → db w !! t = Some rows →
  ∃ o', clear_table o = Some o' ∧ matches l0 info sizes lsizes o' (with_rows w t []).
Proof.
  intros Hm Hcur Ht. pose proof max_rows_fits. destruct (matches_current _ _ _ _ _ _ _ _ Hm Hcur Ht) as (Hct&Htop&Hbd&_).
  destruct (table_step l0 info sizes lsizes o w t rows [] (λ _, None) (λ b, ChangeBuilder.clear b npos))
    as (tbls&Heq&Hfin); [done..|change (len (A := DbRow) []) with 0; lia|apply follow_clear| |].
  - intros b Htr Hmv (Hsz&Hlen&Hc&Hp) ->. destruct (clear_ok (sizes t) (tracked_moves info t) _ _ ltac:(lia) Hp (cells_track _ _ Hc)) as (b'&?&?).
    by exists b'.
  - unfold clear_table. rewrite Heq. cbn [mbind option_bind]. simpl. rewrite Htop. cbn [negb]. eexists. split; [done|].
    apply Hfin. rewrite Hct. apply reflexive_eq. simpl. apply filter_other_table.
Qed.
End Refinement.

Import TransactLog.

Section Run.
Context {build : Build} {T : Type} {ops : IndexSetOps T} {laws : IndexSetLaws T}.
Implicit Types (o : Observer T) (w : World) (info : TransactionChangeInfo T) (l : list ListChangeInfo).

(** ** Selecting a table *)
Lemma tables_match_resize info sizes tbls tables k :
  tables_match info sizes tbls tables → (length tbls ≤ k)%nat →
  tables_match info sizes (resize k ChangeBuilder.empty_builder tbls) tables.
Proof.
  intros [Hm He] Hk.
  assert (∀ t, table_builder (resize k ChangeBuilder.empty_builder tbls) t = table_builder tbls t) as Hb.
  { intros t. unfold table_builder. destruct (decide (t < length tbls)%nat).
    - by rewrite lookup_resize by lia.
    - rewrite (lookup_ge_None_2 tbls) by lia. destruct (decide (t < k)%nat).
      + by rewrite lookup_resize_new by lia.
      + rewrite lookup_ge_None_2; [done|]. rewrite length_resize. lia. }
  split.
  - intros t rows Ht Htr. unfold table_matches. rewrite Hb. by apply Hm.
  - intros t b Hr. pose proof (Hb t) as Hbt. unfold table_builder in Hbt. rewrite Hr in Hbt. simpl in Hbt.
    destruct (tbls !! t) as [b0|] eqn:E; simpl in Hbt; subst; [by eapply He|by left].
Qed.

Lemma select_table_step l0 info sizes lsizes o w t path :
  matches l0 info sizes lsizes o w → 0 ≤ t < len (db w) →
  ∃ o', select_table o t 0 path = Some o' ∧ matches l0 info sizes lsizes o' (mkWorld (db w) (Some (Z.to_nat t)) None).
Proof.
  intros [(Hfl1&Hfl2&Hfl3) Hbd Htm Hl Hb _] Ht. unfold select_table. cbn [Nat.ltb Nat.leb]. simpl.
  rewrite Hfl1, Hfl2, Hfl3.
  assert (Z.to_nat t < length (db w))%nat as Hlt by (unfold len in Ht; lia).
  assert (tracked_table info (Z.to_nat t) = track_all info || needed (table_modifications_needed info) t) as Htr
    by (unfold tracked_table; by rewrite Z2Nat.id by lia).
  assert (tracked_moves info (Z.to_nat t) = track_all info || needed (table_moves_needed info) t) as Hmv
    by (unfold tracked_moves; by rewrite Z2Nat.id by lia).
  rewrite <-negb_orb, <-Htr, <-Hmv. destruct (tracked_table info (Z.to_nat t)) eqn:Htrk; cbn [negb].
  2:{ eexists. split; [done|]. constructor; simpl; [done..|]. unfold active_matches. simpl. rewrite Htrk.
      split_and!; [done|lia|done..]. }
  destruct (Nat.leb_spec (length (tables (m_info o))) (Z.to_nat t)) as [Hle|Hgt].
  - eexists. split; [done|]. constructor; simpl; [done..| |done|done|].
    + apply tables_match_resize; [done|lia].
    + unfold active_matches. simpl. rewrite Htrk, length_resize. split_and!; try done; lia.
  - eexists. split; [done|]. constructor; simpl; [done..|]. unfold active_matches. simpl. rewrite Htrk.
    split_and!; try done; lia.
Qed.

(** ** The instructions for lists *)
Lemma content_set x col (l' : list Row) c : content (set_content x col l') c = if decide (c = col) then l' else content x c.
Proof. unfold content. simpl. case_decide; [subst; by rewrite lookup_insert_eq|by rewrite lookup_insert_ne]. Qed.

Lemma builders_match_content lsizes l (heap heap' : gmap nat (CollectionChangeBuilder T)) tables t rows row x col (l' : list Row) :
  builders_match lsizes l heap tables → (∀ e, e ∈ l → 0 ≤ list_table_ndx e) → tables !! t = Some rows →
  at_ rows row = Some x → col ∈ dirty (db_row x) → len l' ≤ max_rows →
  (∀ e, e ∈ l → list_table_ndx e = Z.of_nat t → list_row_ndx e = row → list_col_ndx e = col →
     ∃ b', heap' !! list_changes e = Some b' ∧ sim (lsizes (list_changes e)) b' l') →
  (∀ e, e ∈ l → ¬ (list_table_ndx e = Z.of_nat t ∧ list_row_ndx e = row ∧ list_col_ndx e = col) →
     heap' !! list_changes e = heap !! list_changes e) →
  builders_match lsizes l heap' (<[t := <[Z.to_nat row := set_content x col l']> rows]> tables).
Proof.
  intros Hb Hpos Ht Hx Hdirty Hl' Hhit Hmiss e rs r He Hrs Hr. pose proof (at_Some _ _ _ Hx) as Hrow. specialize (Hpos e He).
  apply list_lookup_insert_Some in Hrs as [(Et&<-&_)|(Hne&Hrs)].
  2:{ rewrite Hmiss by (done || (intros (?&_); lia)). by apply (Hb e rs). }
  assert (list_table_ndx e = Z.of_nat t) as Et' by lia. rewrite at_insert in Hr by done.
  assert (tables !! Z.to_nat (list_table_ndx e) = Some rows) as Hrs by (by rewrite <-Et).
  destruct (decide (list_row_ndx e = row)) as [Er|Er].
  - injection Hr as <-. rewrite content_set. destruct (decide (list_col_ndx e = col)) as [Ec|Ec].
    + destruct (Hb e rows x) as (?&_&_); [done..|by rewrite Er|]. split; [done|]. split; [done|].
      destruct (Hhit e) as (b'&?&?); [done..|]. exists b'. split; [done|]. split; [done|]. rewrite Ec. done.
    + rewrite Hmiss by (done || tauto). apply (Hb e rows x); [done..|by rewrite Er].
  - rewrite Hmiss by (done || tauto). by apply (Hb e rows).
Qed.

Lemma tables_match_rows info sizes tbls tables t rows rows' :
  tables_match info sizes tbls tables → tables !! t = Some rows → db_row <$> rows' = db_row <$> rows →
  tables_match info sizes tbls (<[t := rows']> tables).
Proof.
  intros [Hm He] Ht Heq. split.
  - intros t' rs [(->&<-&_)|(Hne&Hrs)]%list_lookup_insert_Some Htr; [|by apply Hm]. unfold table_matches.
    destruct (Hm t' rows Ht Htr) as (?&Hlen&?). rewrite <-(len_fmap db_row), Heq, len_fmap. done.
  - intros t' b [?|[Ht' ?]]%He; [by left|right]. split; [|done].
    apply lookup_lt_is_Some. rewrite length_insert. by apply lookup_lt_is_Some.
Qed.

Lemma on_list_step l0 info sizes lsizes o w w' op f :
  keys_distinct l0 → matches l0 info sizes lsizes o w → on_list op w = Some w' →
  (match op with OInsert _ c => c ≤ max_rows | _ => True end) →
  (∀ b n, selected_len w = Some n → f b = builder_op op n b) →
  ∃ o', if_active (m_active_list o) f o = Some o' ∧ matches l0 info sizes lsizes o' w'.
Proof.
  intros Hkeys [Hfl Hbd Htm Hl Hb Hact] Hon Hop Hf. unfold on_list, selected_len in *. unfold active_matches in Hact.
  destruct (current w) as [t|] eqn:Hcur; [|done]. cbn [mbind option_bind] in *.
  destruct (selected w) as [[row col]|] eqn:Hsel; [|done]. destruct Hact as (Hlt&Hct&Htop&Hactive&Hal&rs&x0&Hrs&Hx0&Hdirty).
  destruct (db w !! t) as [rows|] eqn:Ht; [|done]. injection Hrs as <-. unfold list_step in Hon. cbn [mbind option_bind] in *.
  destruct (at_ rows row) as [x|] eqn:Hx; [|done]. injection Hx0 as <-. cbn [mbind option_bind] in *.
  destruct (list_op op (content x col)) as [l'|] eqn:Hlo; [|done]. cbn [mbind option_bind] in Hon.
  destruct (Z.leb_spec (len l') max_rows) as [Hl'|]; [|done]. injection Hon as <-.
  specialize (Hf : ∀ b n, Some (len (content x col)) = Some n → _). pose proof (at_Some _ _ _ Hx) as Hrow.
  set (rows' := <[Z.to_nat row := set_content x col l']> rows).
  assert (∀ heap', (∀ e, e ∈ lists (m_info o) → list_table_ndx e = Z.of_nat t → list_row_ndx e = row → list_col_ndx e = col →
       ∃ b', heap' !! list_changes e = Some b' ∧ sim (lsizes (list_changes e)) b' l') →
     (∀ e, e ∈ lists (m_info o) → ¬ (list_table_ndx e = Z.of_nat t ∧ list_row_ndx e = row ∧ list_col_ndx e = col) →
       heap' !! list_changes e = list_builders o !! list_changes e) →
     matches l0 info sizes lsizes (set_builders o heap') (mkWorld (<[t := rows']> (db w)) (Some t) (Some (row, col)))) as Hfin.
  { intros heap' Hhit Hmiss. constructor; simpl; [done| | | | |].
    - apply Forall_insert; [done|]. unfold rows'. rewrite len_insert. by apply (Forall_lookup_1 _ _ _ _ Hbd Ht).
    - eapply tables_match_rows; [done..|]. unfold rows'. rewrite list_fmap_insert. simpl. apply list_insert_id.
      unfold at_ in Hx. case_decide; [|done]. by rewrite list_lookup_fmap, Hx.
    - eapply (lists_match_follow l0 _ _ _ t rows rows' Some); [done..| |by rewrite omap_same].
      by apply (follow_insert same_origin _ _ x).
    - eapply builders_match_content; try done. intros e He. by apply (lists_sound _ _ _ Hl) in He as [? _].
    - unfold active_matches. simpl. rewrite length_insert. do 4 (split; [done|]). split; [done|].
      exists rows', (set_content x col l'). rewrite list_lookup_insert_eq by done. split; [done|]. split; [|done].
      unfold rows'. by rewrite at_insert, decide_True. }
  rewrite Hal. destruct (find_list o (Z.of_nat t) col row) as [p|] eqn:Hfind.
  - destruct (find_list_Some o _ _ _ _ Hfind) as (e&He&->&Ete&Ere&Ece).
    destruct (Hb e rows x) as (Hsz&Hlen&b&Hheap&Hsim&_); [done|by rewrite Ete, Nat2Z.id|by rewrite Ere|]. rewrite Ece in *.
    pose proof max_rows_fits.
    destruct (sim_step (lsizes (list_changes e)) b (content x col) l' op) as (b'&Hb'&Hsim'); [lia|done|done| |].
    { unfold op_fits. destruct op; lia. }
    simpl. rewrite Hheap. cbn [mbind option_bind]. rewrite (Hf b _ eq_refl), Hb'. cbn [mbind option_bind]. eexists. split; [done|].
    apply Hfin.
    + intros e' He' ? ? ?. assert (e' = e) as -> by (eapply (entries_distinct l0 _ (db w)); [done..| | |]; congruence).
      exists b'. by rewrite lookup_insert_eq.
    + intros e' He' Hne. apply lookup_insert_ne. intros Heq. apply Hne. pose proof (lists_ids _ _ _ Hl) as Hids.
      assert (e' = e) as ->; [|done]. apply list_elem_of_lookup in He as [i Hi], He' as [j Hj].
      assert (j = i) as ->; [|congruence]. eapply NoDup_lookup; [done| |]; rewrite list_lookup_fmap; [by rewrite Hj|by rewrite Hi; simpl; f_equal].
  - simpl. exists o. split; [done|]. assert (set_builders o (list_builders o) = o) as <- by (by destruct o).
    apply Hfin; [|done]. intros e He ? ? ?. exfalso. by eapply find_list_None.
Qed.

(** ** Every instruction *)
Lemma deselect_matches l0 info sizes lsizes o w :
  matches l0 info sizes lsizes o w → matches l0 info sizes lsizes o (deselect w).
Proof.
  intros [Hfl Hbd Htm Hl Hb Hact]. constructor; simpl; try done. unfold active_matches in *. simpl.
  destruct (current w); [|done]. destruct Hact as (?&?&?&?&_). done.
Qed.

Lemma same_rows w t rows : db w !! t = Some rows → with_rows w t rows = deselect w.
Proof. intros Ht. unfold with_rows, deselect. by rewrite list_insert_id. Qed.

Lemma select_link_list_step l0 info sizes lsizes o w w' col row :
  matches l0 info sizes lsizes o w → step (SelectLinkList col row) w = Some w' →
  ∃ o', select_link_list o col row = Some o' ∧ matches l0 info sizes lsizes o' w'.
Proof.
  intros Hm Hstep. simpl in Hstep. destruct (on_table _ w) as [w1|] eqn:Hon; [|done]. injection Hstep as <-.
  apply on_table_Some in Hon as (t&rows&rows'&Hcur&Ht&Hd&->).
  destruct (dirty_step l0 info sizes lsizes o w t rows rows' row col) as (o1&Ho1&Hm1&Hls&Hct); [done..|].
  unfold select_link_list. rewrite Ho1. cbn [mbind option_bind]. eexists. split; [done|].
  destruct Hm1 as [Hfl Hbd Htm Hl Hb Hact]. constructor; simpl; try done.
  unfold active_matches in *. simpl in *. rewrite Hcur in *. destruct Hact as (?&Hct1&?&?&_). rewrite Hct1.
  do 5 (split; [done|]). unfold dirty_cell in Hd. destruct (at_ rows row) as [x|] eqn:Hx; [|done]. cbn [mbind option_bind] in Hd.
  destruct (_ && _); [|done]. injection Hd as <-. pose proof (at_Some _ _ _ Hx). eexists _, (set_dirty x col).
  split; [by apply list_lookup_insert_eq, (lookup_lt_Some _ _ rows)|]. split; [by rewrite at_insert, decide_True|]. simpl. set_solver.
Qed.

Lemma handle_step l0 info sizes lsizes o w w' i :
  keys_distinct l0 → matches l0 info sizes lsizes o w → step i w = Some w' → step_ok l0 i w →
  validate i = true ∧ ∃ o', handle i o = Some o' ∧ matches l0 info sizes lsizes o' w'.
Proof.
  intros Hkeys Hm Hstep Hok. pose proof max_rows_fits as [Hmax _].
  pose proof (λ w w' o op f, on_list_step l0 info sizes lsizes o w w' op f Hkeys) as Hlist.
  destruct i as [t [|lv] path|lv|col row|ix|ix|ix|ix|i1 i2|n|f t|row n prior [|]|row prior|row n prior un|p q|f t|f t| |col row instr|col row|ndx|ndx|f t|ndx|f t|ndx|ndx|ndx|ndx|ndx|ndx|ndx|ndx|]; try done; simpl handle; (split; [done|]).
  - simpl in Hstep. destruct (_ && _) eqn:Ht; [|done]. injection Hstep as <-.
    apply andb_true_iff in Ht as [?%Z.leb_le ?%Z.ltb_lt]. by apply select_table_step.
  - by apply (select_link_list_step l0 info sizes lsizes o w).
  - by apply (Hlist w w' o (OModify ix npos)).
  - apply (Hlist w w' o (OInsert ix 1)); done.
  - by apply (Hlist w w' o (OErase ix)).
  - by apply (Hlist w w' o (OErase ix)).
  - simpl in Hstep. destruct (on_list _ w) as [w1|] eqn:Hon; [|done]. cbn [mbind option_bind] in Hstep.
    unfold link_list_swap, link_list_set. destruct (Hlist w w1 o (OModify i1 npos) (λ b, ChangeBuilder.modify b i1 npos)) as (o1&->&Hm1); [done..|].
    cbn [mbind option_bind]. by apply (Hlist w1 w' o1 (OModify i2 npos)).
  - simpl in Hstep. case_bool_decide as Hlen; [|done]. apply (Hlist w w' o OClear); try done.
    intros b k Hk. simpl. congruence.
  - by apply (Hlist w w' o (OMove f t)).
  - simpl in Hstep. apply on_table_Some in Hstep as (t&rows&rows'&Hcur&Ht&Hf&->). destruct (_ && _) eqn:Hg in Hf; [|done].
    apply andb_true_iff in Hg as [->%Z.eqb_eq _]. unfold append_rows in Hf. destruct (_ && _) eqn:Hg in Hf; [|done].
    injection Hf as <-. apply andb_true_iff in Hg as [?%Z.ltb_lt ?%Z.leb_le]. by apply insert_rows_step.
  - simpl in Hstep. apply on_table_Some in Hstep as (t&rows&rows'&Hcur&Ht&Hf&->). destruct (_ && _) eqn:Hg in Hf; [|done].
    apply andb_true_iff in Hg as [->%Z.eqb_eq _]. unfold append_rows in Hf. destruct (_ && _) eqn:Hg in Hf; [|done].
    injection Hf as <-. apply andb_true_iff in Hg as [?%Z.ltb_lt ?%Z.leb_le]. by apply insert_rows_step.
  - destruct n as [|[| |]|]; try done. destruct un; [|done]. simpl in Hstep.
    apply on_table_Some in Hstep as (t&rows&rows'&Hcur&Ht&Hf&->). destruct (Z.eqb_spec prior (len rows)) as [->|]; [|done].
    apply (erase_rows_step l0 info sizes lsizes o w t rows rows' row); try done. unfold step_ok in Hok. rewrite Hcur in Hok. by apply Hok.
  - simpl in Hstep. apply on_table_Some in Hstep as (t&rows&rows'&Hcur&Ht&Hf&->). by apply (swap_rows_step l0 info sizes lsizes o w t rows).
  - simpl in Hstep. apply on_table_Some in Hstep as (t&rows&rows'&Hcur&Ht&Hf&->). injection Hf as <-. by apply (clear_table_step l0 info sizes lsizes o w t rows).
  - destruct (decide (instr = instr_Set)) as [->|Hne].
    + simpl in Hstep. apply on_table_Some in Hstep as (t&rows&rows'&Hcur&Ht&Hf&->).
      destruct (dirty_step l0 info sizes lsizes o w t rows rows' row col) as (o1&?&?&_); [done..|]. by exists o1.
    + assert (step (SetCell col row instr) w = on_table Some w ∧ set_cell o col row instr = Some o) as [Hs Ho] by (by destruct instr).
      rewrite Hs in Hstep. apply on_table_Some in Hstep as (t&rows&rows'&Hcur&Ht&Hf&->). injection Hf as <-.
      exists o. rewrite same_rows by done. split; [done|]. by apply deselect_matches.
  - simpl in Hstep. apply on_table_Some in Hstep as (t&rows&rows'&Hcur&Ht&Hf&->). injection Hf as <-. exists o.
    rewrite same_rows by done. split; [done|]. by apply deselect_matches.
  - injection Hstep as <-. exists o. split; [done|]. by apply deselect_matches.
  - injection Hstep as <-. exists o. split; [done|]. by apply deselect_matches.
  - injection Hstep as <-. exists o. split; [done|]. by apply deselect_matches.
  - injection Hstep as <-. exists o. split; [done|]. by apply deselect_matches.
Qed.
End Run.

Import TransactLog.

Section End_.
Context {build : Build} {T : Type} {ops : IndexSetOps T} {laws : IndexSetLaws T}.
Implicit Types (o : Observer T) (w : World) (info : TransactionChangeInfo T) (b : CollectionChangeBuilder T).

(** ** What is reported *)

(** A list that had [n] elements; the end of the old list went to the end of
    the new one. *)
Definition list_reported (n : Z) b (elements : list Row) : Prop :=
  builder_ok b ∧
  (∀ k t, rows b k t ↔
     (0 ≤ k < n ∧ ∃ r, at_ elements t = Some r ∧ origin r = Some k) ∨ (n ≤ k ∧ t = len elements + (k - n))) ∧
  (∀ t, has (modifications (changes b)) t ↔ ∃ r, at_ elements t = Some r ∧ modified r = true) ∧
  (∀ k, has (deletions (changes b)) k → k < n) ∧ (∀ t, has (insertions (changes b)) t → t < len elements) ∧
  (∀ t r k, at_ elements t = Some r → origin r = Some k → 0 ≤ k < n).

(** The builder [b] of the list of column [col] in the row [r]: it is empty
    unless the cell was set. *)
Definition cell_reported (n : Z) b (r : DbRow) (col : Z) : Prop :=
  list_reported n b (content r col) ∧ (col ∉ dirty (db_row r) → b = ChangeBuilder.empty_builder).

(** The change sets of the tables of [info] *)
Definition tables_reported info (sizes : nat → Z) tbls (tables : list (list DbRow)) : Prop :=
  ∀ t rows, tables !! t = Some rows → tracked_table info t = true →
    cells (table_builder tbls t) (db_row <$> rows) ∧
    (tracked_moves info t = true → reports (sizes t) (table_builder tbls t) (db_row <$> rows)).

(** ** The tables *)
Lemma parse_complete_empty : ChangeBuilder.parse_complete (T := T) ChangeBuilder.empty_builder = Some ChangeBuilder.empty_builder.
Proof. unfold ChangeBuilder.parse_complete, ChangeBuilder.empty_builder. cbn [m_move_mapping]. by rewrite map_to_list_empty. Qed.

Lemma parse_complete_builder info tbls t n rows :
  table_matches info tbls t n rows →
  ∃ b', ChangeBuilder.parse_complete (table_builder tbls t) = Some b' ∧ cells b' (db_row <$> rows) ∧
    (tracked_moves info t = true → reports n b' (db_row <$> rows)).
Proof.
  intros (_&_&Hc&Hp). destruct (tracked_moves info t); simpl in Hp.
  - destruct (placed_complete n _ _ Hp) as (b'&Hb'&Hrep&Em&Ec&Et&_). exists b'. split; [done|].
    split; [by eapply cells_ext|done].
  - destruct (untouched_wf _ Hp) as [Hd Hi].
    destruct (parse_complete_changes (table_builder tbls t) Hd Hi) as (b'&Hb'&_&_&_&_&_&Em&Ec&Et&_).
    + intros k v. by rewrite (untouched_map _ Hp).
    + intros k k' v. by rewrite (untouched_map _ Hp).
    + exists b'. split; [done|]. split; [by eapply cells_ext|done].
Qed.

Lemma parse_tables info sizes tbls tables :
  tables_match info sizes tbls tables →
  ∃ tbls', mapM ChangeBuilder.parse_complete tbls = Some tbls' ∧ tables_reported info sizes tbls' tables.
Proof.
  intros [Hm He]. assert (is_Some (mapM ChangeBuilder.parse_complete tbls)) as [tbls' Hmap].
  { apply mapM_is_Some_2, Forall_lookup. intros t b Hb. change (is_Some (ChangeBuilder.parse_complete b)).
    destruct (He t b Hb) as [->|[[rows Ht] Htr]]; [by rewrite parse_complete_empty|].
    destruct (parse_complete_builder _ _ _ _ _ (Hm t rows Ht Htr)) as (b'&Hb'&_). unfold table_builder in Hb'.
    rewrite Hb in Hb'. simpl in Hb'. by rewrite Hb'. }
  exists tbls'. split; [done|]. intros t rows Ht Htr.
  destruct (parse_complete_builder _ _ _ _ _ (Hm t rows Ht Htr)) as (b'&Hb'&Hc&Hrep).
  assert (table_builder tbls' t = b') as ->; [|done]. apply mapM_Some_1 in Hmap. unfold table_builder in *.
  destruct (tbls !! t) as [b|] eqn:Hb; simpl in Hb'.
  - destruct (Forall2_lookup_l _ _ _ _ _ Hmap Hb) as (b1&->&Hb1). simpl. congruence.
  - rewrite parse_complete_empty in Hb'. injection Hb' as <-. rewrite (lookup_ge_None_2 tbls'); [done|].
    rewrite <-(Forall2_length _ _ _ Hmap). by apply lookup_ge_None.
Qed.

(** ** The lists *)
Lemma stale_loop_shrinks mv : ∀ d i mv' d' i',
  set_wf d → set_wf i → (∀ m, m ∈ mv → 0 ≤ from m < npos ∧ 0 ≤ to m < npos) →
  ChangeBuilder.stale_loop mv d i = Some (mv', d', i') →
  (∀ x, has d' x → has d x) ∧ (∀ x, has i' x → has i x).
Proof.
  induction mv as [|m mv IH]; intros d i mv' d' i' Hd Hi Hmv; cbn [ChangeBuilder.stale_loop].
  { by intros [= <- <- <-]. }
  destruct (Hmv m) as [? ?]; [constructor|]. rewrite !law_count by (done || lia). cbn [mbind option_bind].
  assert (∀ m, m ∈ mv → 0 ≤ from m < npos ∧ 0 ≤ to m < npos) as Hmv' by (intros; apply Hmv; by constructor).
  destruct (Z.eqb_spec (from m -w rank d (from m)) (to m -w rank i (to m))); cbn [negb].
  - destruct (law_remove d (from m) 1 Hd) as (d1&->&Hd1&Hmd); [lia..|]. cbn [mbind option_bind].
    destruct (law_remove i (to m) 1 Hi) as (i1&->&Hi1&Hmi); [lia..|]. cbn [mbind option_bind].
    intros Hl. destruct (IH d1 i1 mv' d' i') as [H1 H2]; [done..|].
    split; [intros x ?%H1%Hmd|intros x ?%H2%Hmi]; tauto.
  - destruct (ChangeBuilder.stale_loop mv d i) as [[[mv1 d1] i1]|] eqn:E; [|done]. cbn [mbind option_bind].
    intros [= <- <- <-]. by eapply IH.
Qed.
Lemma clean_ok b :
  builder_ok b → ∃ b', ChangeBuilder.clean_up_stale_moves b = Some b' ∧ builder_ok b' ∧
    (∀ k t, rows b' k t ↔ rows b k t) ∧ modifications (changes b') = modifications (changes b) ∧
    (∀ x, has (deletions (changes b')) x → has (deletions (changes b)) x) ∧
    (∀ x, has (insertions (changes b')) x → has (insertions (changes b)) x).
Proof.
  intros (Hrows&Hm&Hc). unfold ChangeBuilder.clean_up_stale_moves.
  destruct (stale_loop_ok (moves (changes b)) [] _ _ Hrows) as (mv&d&i&E&Hwf&Hrow). rewrite E.
  destruct (stale_loop_shrinks (moves (changes b)) (deletions (changes b)) (insertions (changes b)) mv d i) as [Hd Hi];
    [apply Hrows..| |done|].
  { intros m Hm'. destruct Hrows as (Hwd&Hwi&Hmv&_). destruct (Hmv m Hm') as [Hf Ht].
    pose proof (has_range _ _ Hwd Hf). pose proof (has_range _ _ Hwi Ht). lia. }
  cbn [mbind option_bind]. eexists. split; [done|]. split; [done|]. split; [exact Hrow|done].
Qed.

Lemma sim_reported n b elements :
  sim n b elements → ∃ b', ChangeBuilder.clean_up_stale_moves b = Some b' ∧ list_reported n b' elements.
Proof.
  intros Hs. destruct (clean_ok b) as (b'&Hb'&Hok&Hrows&Em&Hd&Hi); [apply Hs|]. exists b'. split; [done|]. split; [done|].
  split; [|split; [|split; [|split]]].
  - intros k t. by rewrite Hrows, (sim_rows _ _ _ Hs).
  - intros t. rewrite Em. apply Hs.
  - intros x ?%Hd. by apply (sim_del _ _ _ Hs).
  - intros x ?%Hi. by apply (sim_ins _ _ _ Hs).
  - apply (sim_old _ _ _ Hs).
Qed.

Lemma clean_loop : ∀ (ls : list ListChangeInfo) o,
  NoDup (list_changes <$> ls) →
  (∀ x, x ∈ ls → ∃ b b', list_builders o !! list_changes x = Some b ∧ ChangeBuilder.clean_up_stale_moves b = Some b') →
  ∃ heap, foldlM (λ o l, update_at (PList (list_changes l)) ChangeBuilder.clean_up_stale_moves o) o ls =
      Some (set_builders o heap) ∧
    (∀ x b b', x ∈ ls → list_builders o !! list_changes x = Some b → ChangeBuilder.clean_up_stale_moves b = Some b' →
       heap !! list_changes x = Some b') ∧
    (∀ id, id ∉ list_changes <$> ls → heap !! id = list_builders o !! id).
Proof.
  induction ls as [|x ls IH]; intros o Hnd Hok.
  { exists (list_builders o). simpl. split; [by destruct o|]. split; [by intros x b b' ?%elem_of_nil|done]. }
  rewrite fmap_cons in Hnd. apply NoDup_cons in Hnd as [Hx Hnd].
  destruct (Hok x) as (b&b'&Hb&Hb'); [constructor|]. cbn [foldlM].
  assert (update_at (PList (list_changes x)) ChangeBuilder.clean_up_stale_moves o =
    Some (set_builders o (<[list_changes x := b']> (list_builders o)))) as ->.
  { simpl. rewrite Hb. simpl. by rewrite Hb'. }
  cbn [mbind option_bind].
  destruct (IH (set_builders o (<[list_changes x := b']> (list_builders o)))) as (heap&->&H1&H2); [done| |].
  { intros y Hy. destruct (Hok y) as (c&c'&Hc&Hc'); [by constructor|]. exists c, c'. simpl. rewrite lookup_insert_ne; [done|].
    intros E. apply Hx. rewrite E. by apply list_elem_of_fmap_2. }
  exists heap. split; [done|]. simpl in *. split.
  - intros y c c' [->|Hy]%elem_of_cons Hc Hc'.
    + rewrite H2, lookup_insert_eq by done. congruence.
    + apply (H1 y c); [done| |done]. rewrite lookup_insert_ne; [done|]. intros E. apply Hx. rewrite E. by apply list_elem_of_fmap_2.
  - intros id [Hne Hid]%not_elem_of_cons. rewrite H2, lookup_insert_ne by done. done.
Qed.

(** ** Logs *)
Lemma run_matches l0 info sizes lsizes log : ∀ o w w',
  keys_distinct l0 → matches l0 info sizes lsizes o w → run log w = Some w' → run_ok l0 log w →
  ∃ o', parse log o = (o ← parse_complete o'; Some (inl o)) ∧ matches l0 info sizes lsizes o' w'.
Proof.
  unfold run. induction log as [|i log IH]; intros o w w' Hk Hm Hrun Hok; simpl in *.
  { injection Hrun as <-. by exists o. }
  destruct (step i w) as [w1|] eqn:Hstep; [|done]. destruct Hok as [Hok1 Hok2].
  destruct (handle_step l0 info sizes lsizes o w w1 i) as (->&o1&->&Hm1); [done..|]. cbn [negb mbind option_bind].
  apply (IH o1 w1 w'); auto.
Qed.

(** [info] and the builders of the lists at the start *)
Definition observes info (builders : gmap nat (CollectionChangeBuilder T)) w : Prop :=
  fresh w ∧ tables info = [] ∧ NoDup (list_changes <$> lists info) ∧ keys_distinct (lists info) ∧
  ∀ x, x ∈ lists info → 0 ≤ list_table_ndx x ∧
    builders !! list_changes x = Some ChangeBuilder.empty_builder ∧
    ∃ rows, db w !! Z.to_nat (list_table_ndx x) = Some rows ∧ 0 ≤ list_row_ndx x < len rows.

(** The sizes of the tables and of the lists at the start *)
Definition table_size w (t : nat) : Z := len (default [] (db w !! t)).

Definition list_at w (x : ListChangeInfo) : list Row :=
  match db w !! Z.to_nat (list_table_ndx x) ≫= λ rows, at_ rows (list_row_ndx x) with
  | Some r => content r (list_col_ndx x)
  | None => []
  end.

Definition list_size w (l0 : list ListChangeInfo) (id : nat) : Z :=
  match list_find (λ x, list_changes x = id) l0 with Some (_, x) => len (list_at w x) | None => 0 end.

Lemma list_size_entry w l0 x :
  NoDup (list_changes <$> l0) → x ∈ l0 → list_size w l0 (list_changes x) = len (list_at w x).
Proof.
  intros Hnd Hx. unfold list_size. destruct (list_find _ l0) as [[i y]|] eqn:Hf.
  - apply list_find_Some in Hf as (Hi&E&_). assert (y = x) as ->; [|done].
    apply list_elem_of_lookup in Hx as [j Hj]. assert (i = j) as ->; [|congruence].
    eapply NoDup_lookup; [done| |]; rewrite list_lookup_fmap; [by rewrite Hi|by rewrite Hj; simpl; f_equal].
  - eapply list_find_None in Hf. rewrite Forall_forall in Hf. by destruct (Hf x Hx).
Qed.

Lemma fresh_row_at rows p r :
  fresh_table rows → at_ rows p = Some r → db_row r = mkTableRow (Some p) ∅ ∧
  ∀ col, content r col = initial_rows (len (content r col)) ∧ len (content r col) ≤ max_rows.
Proof.
  intros (Hrows&Hmax&Hlists) Hr. pose proof (at_Some _ _ _ Hr) as Hp. split.
  - pose proof (at_fmap db_row rows p) as E. rewrite Hr, Hrows, at_initial_table, decide_True in E by done. by injection E.
  - intros col. unfold at_ in Hr. case_decide; [|done]. pose proof (Forall_lookup_1 _ _ _ _ Hlists Hr) as Hm. unfold content.
    destruct (db_lists r !! col) as [k|] eqn:Hk; [by apply (Hm col k)|]. simpl. pose proof max_rows_fits.
    split; [done|]. change (len (A := Row) []) with 0. lia.
Qed.

Lemma matches_initial info builders w :
  observes info builders w →
  matches (lists info) info (table_size w) (list_size w (lists info)) (make info builders) w.
Proof.
  intros ((Hfresh&Hcur&Hsel)&Htbl&Hnd&Hkeys&Hent). constructor; simpl; [done| | | | |].
  - eapply Forall_impl; [done|]. by intros rows (_&?&_).
  - rewrite Htbl. split; [|done]. intros t rows Ht Htr. pose proof (Forall_lookup_1 _ _ _ _ Hfresh Ht) as (Hrows&Hmax&_).
    assert (0 ≤ len rows) by (unfold len; lia). unfold table_matches, table_size. rewrite Ht. simpl.
    change (table_builder [] t) with (ChangeBuilder.empty_builder (T := T)). rewrite Hrows.
    destruct (track_initial (len rows) (tracked_moves info t)); [done|]. done.
  - constructor; [done| |].
    + intros x Hx. destruct (Hent x Hx) as (Hpos&_&rows&Ht&Hrow). split; [done|]. destruct (at_is_Some rows _ Hrow) as [r Hr].
      exists rows, r, (list_row_ndx x). destruct (fresh_row_at rows _ r (Forall_lookup_1 _ _ _ _ Hfresh Ht) Hr) as [-> _].
      split_and!; try done. by destruct x.
    + intros x rows p r Hx Ht Hr. destruct (fresh_row_at rows _ r (Forall_lookup_1 _ _ _ _ Hfresh Ht) Hr) as [-> _].
      simpl. intros [= ->]. by destruct x.
  - intros x rows r Hx Ht Hr. destruct (Hent x Hx) as (_&Hb&_). rewrite list_size_entry by done.
    assert (list_at w x = content r (list_col_ndx x)) as -> by (unfold list_at; rewrite Ht; simpl; by rewrite Hr).
    destruct (fresh_row_at rows _ r (Forall_lookup_1 _ _ _ _ Hfresh Ht) Hr) as [_ Hc].
    destruct (Hc (list_col_ndx x)) as [Hini Hmax]. assert (0 ≤ len (content r (list_col_ndx x))) by (unfold len; lia).
    split; [done|]. split; [done|]. exists ChangeBuilder.empty_builder. split; [done|]. split; [|done]. rewrite Hini at 2. by apply sim_initial.
  - unfold active_matches. by rewrite Hcur.
Qed.

(** The list of an entry is reported with the size it had. *)
Lemma builders_reported w0 l0 tables (heap : gmap nat (CollectionChangeBuilder T)) l o :
  lists_match l0 l tables → builders_match (list_size w0 l0) l (list_builders o) tables → NoDup (list_changes <$> l0) →
  (∀ x b b', x ∈ l → list_builders o !! list_changes x = Some b → ChangeBuilder.clean_up_stale_moves b = Some b' →
     heap !! list_changes x = Some b') →
  ∀ x rows p r, x ∈ l0 → tables !! Z.to_nat (list_table_ndx x) = Some rows → at_ rows p = Some r →
    row_origin (db_row r) = Some (list_row_ndx x) →
    set_row x p ∈ l ∧ ∃ b, heap !! list_changes x = Some b ∧ cell_reported (len (list_at w0 x)) b r (list_col_ndx x).
Proof.
  intros Hl Hb Hnd Hheap x rows p r Hx Ht Hr Ho. pose proof (lists_complete _ _ _ Hl x rows p r Hx Ht Hr Ho) as Hin.
  split; [done|]. destruct (Hb (set_row x p) rows r Hin Ht Hr) as (_&_&b&Hbh&Hsim&Hempty). simpl in Hbh, Hsim, Hempty.
  rewrite list_size_entry in Hsim by done. destruct (sim_reported _ _ _ Hsim) as (b'&Hb'&Hrep). exists b'.
  split; [by apply (Hheap (set_row x p) b b')|]. split; [done|]. intros Hn. rewrite (Hempty Hn) in Hb'. by injection Hb' as <-.
Qed.

(** The entries left at the end all have a builder that can be cleaned up. *)
Lemma builders_cleanable lsizes l0 l tables o :
  lists_match l0 l tables → builders_match lsizes l (list_builders o) tables →
  ∀ x, x ∈ l → ∃ b b', list_builders o !! list_changes x = Some b ∧ ChangeBuilder.clean_up_stale_moves b = Some b'.
Proof.
  intros Hl Hb x Hx. destruct (lists_sound _ _ _ Hl x Hx) as (_&rows&r&k&Ht&Hr&_).
  destruct (Hb x rows r Hx Ht Hr) as (_&_&b&?&Hsim&_). destruct (sim_reported _ _ _ Hsim) as (b'&?&_). eauto.
Qed.

Lemma log_reported info builders log w0 w :
  observes info builders w0 → run log w0 = Some w → run_ok (lists info) log w0 →
  ∃ o, parse log (make info builders) = Some (inl o) ∧
    tables_reported info (table_size w0) (tables (m_info o)) (db w) ∧
    lists_match (lists info) (lists (m_info o)) (db w) ∧ Forall (λ rows, len rows ≤ max_rows) (db w) ∧
    ∀ x rows p r, x ∈ lists info → db w !! Z.to_nat (list_table_ndx x) = Some rows → at_ rows p = Some r →
      row_origin (db_row r) = Some (list_row_ndx x) →
      ∃ b, list_builders o !! list_changes x = Some b ∧ cell_reported (len (list_at w0 x)) b r (list_col_ndx x).
Proof.
  intros Hobs Hrun Hok. pose proof Hobs as (_&_&Hnd&Hkeys&_).
  destruct (run_matches _ _ _ _ log _ _ w Hkeys (matches_initial _ _ _ Hobs) Hrun Hok) as (o&->&[_ Hbd Htm Hl Hb _]).
  unfold parse_complete. destruct (parse_tables _ _ _ _ Htm) as (tbls&->&Hrep). cbn [mbind option_bind].
  destruct (clean_loop (lists (m_info o)) (set_info o (with_tables (m_info o) tbls))) as (heap&Hloop&Hheap&_).
  { apply Hl. }
  { by eapply builders_cleanable. }
  simpl in Hloop |- *. rewrite Hloop. cbn [mbind option_bind]. eexists. split; [done|]. simpl. do 3 (split; [done|]).
  intros x rows p r Hx Ht Hr Ho. by eapply builders_reported.
Qed.
End End_.
