(* ===== verification/TransactLogProps.v ===== *)
(** The properties of the handlers of transaction logs. *)
From stdpp Require Import gmap.
From S2P Require Import Prelude ChunkedRangeVector IndexSet IndexSetTheory IndexSetMerge IndexSetSpec IndexSetProps RowMap ChangeBuilder ChangeTheory ChangeMerge ChangeFinal ChangeRefinement TableRows ChangeTrack ChangeTrackOps ChangeTrackRun.
From S2P Require Import DeepChange LogData TransactLog Transaction TransactLogTheory TransactLogEnd.
Import TransactLog Samples.

Section Claims.
Context {build : Build} {T : Type} {ops : IndexSetOps T} {laws : IndexSetLaws T}.
Implicit Types (o : Observer T) (w : World) (info : TransactionChangeInfo T) (b : CollectionChangeBuilder T).

(** Refinement.  Parsing the log of a transaction fails no assertion and
    reports what the transaction does: for every tracked table the cells that
    were set and, if its moves are needed, exactly the positions whose row is
    gone, new or from elsewhere; every observed list still has its entry at the
    row it is in now, unless that row was removed, and its change set says where
    each element went and which were set.  The rows that are removed must not
    hold one of several observed lists of their table. *)
Theorem transaction_reported info builders log w0 w :
  observes info builders w0 → run log w0 = Some w → run_ok (lists info) log w0 →
  ∃ info' builders', advance log info builders = Some (inl (info', builders')) ∧
    tables_reported info (table_size w0) (tables info') (db w) ∧
    lists_match (lists info) (lists info') (db w) ∧
    ∀ x rows p r, x ∈ lists info → db w !! Z.to_nat (list_table_ndx x) = Some rows → at_ rows p = Some r →
      row_origin (db_row r) = Some (list_row_ndx x) →
      ∃ b, builders' !! list_changes x = Some b ∧ cell_reported (len (list_at w0 x)) b r (list_col_ndx x).
Proof.
  intros Hobs Hrun Hok. unfold advance. destruct (_ && _) eqn:Hnone.
  - apply andb_true_iff in Hnone as [[Ht Hm]%andb_true_iff Hl]. apply negb_true_iff in Ht.
    apply Nat.eqb_eq, nil_length_inv in Hm, Hl. exists info, builders. split; [done|]. rewrite Hl.
    split; [|split; [|by intros x ? ? ? ?%elem_of_nil]].
    + intros t rows _ Htr. unfold tracked_table in Htr. by rewrite Ht, Hm in Htr.
    + constructor; [constructor|by intros x ?%elem_of_nil|by intros x ? ? ? ?%elem_of_nil].
  - destruct (log_reported info builders log w0 w) as (o&->&?&?&_&?); [done..|]. cbn [mbind option_bind]. by eexists _, _.
Qed.

(** Refinement, for one table, merged rows included.  Recording additions at
    the end, removals that move the last row, exchanges, sets, clears and merges
    of rows succeeds, and at the end the builder says exactly which positions
    have lost their row, have another one, and which old row each of these is;
    and which cells were set. *)
Theorem unordered_table_reported n os l :
  0 ≤ n → run_table os (initial_table n) = Some l → table_fits n os (initial_table n) →
  ∃ b b' : CollectionChangeBuilder T,
    run_track os (initial_table n) true ChangeBuilder.empty_builder = Some b ∧
    ChangeBuilder.parse_complete b = Some b' ∧ reports n b' l ∧ cells b' l.
Proof. apply table_reported. Qed.

(** An observed list is lost when another entry is dropped.  [erase_rows]
    overwrites the entry of the removed row with the last one and does not look
    at that again: if the list it is for is in the row that takes the removed
    row's place, the entry stays at the old position, and the list is not found
    at the new one. *)
Theorem erased_entry_skips_last o o' x y row prior :
  m_active_table o = None → m_is_top_level_table o = true → lists (m_info o) = [x; y] →
  list_table_ndx x = m_current_table o → list_row_ndx x = row →
  list_table_ndx y = m_current_table o → list_row_ndx y = prior - 1 → 0 ≤ row < prior - 1 → prior ≤ npos →
  erase_rows o row prior true = Some o' →
  lists (m_info o') = [y] ∧ find_list o' (m_current_table o') (list_col_ndx y) row = None.
Proof.
  intros Hact Htop Hl Hxt Hxr Hyt Hyr Hrow Hmax. unfold erase_rows. rewrite Hact. cbn [negb if_active mbind option_bind].
  rewrite Htop, Hl. simpl. rewrite (proj2 (Z.eqb_eq _ _) Hxt), (proj2 (Z.eqb_eq _ _) Hxr). simpl. intros [= <-]. simpl.
  split; [done|]. unfold find_list. simpl. rewrite filter_cons, decide_False; [done|]. intros (_&?&_). lia.
Qed.

(** The changes that are not supported while a Realm is open: removing or renaming
    a table or a column *)
Inductive destructive : Instruction → Prop :=
  | removes_table ndx : destructive (EraseGroupLevelTable ndx)
  | renames_table ndx : destructive (RenameGroupLevelTable ndx)
  | removes_column ndx : destructive (EraseColumn ndx)
  | removes_link_column ndx : destructive (EraseLinkColumn ndx)
  | renames_column ndx : destructive (RenameColumn ndx).

Lemma validate_destructive i : validate i = false ↔ destructive i.
Proof. split; [destruct i; try done; constructor|by destruct 1]. Qed.

(** C38: error behaviour.  The observer and the validator alone both refuse a log
    with [UnsupportedSchemaChange] exactly if one of its instructions removes or
    renames a table or a column, whatever precedes or follows it; every other log
    is accepted. *)
Theorem destructive_changes_refused log o r :
  parse log o = Some r →
  (r = inr UnsupportedSchemaChange ↔ ∃ i, i ∈ log ∧ destructive i) ∧
  (parse_validator log = Some UnsupportedSchemaChange ↔ ∃ i, i ∈ log ∧ destructive i) ∧
  (parse_validator log = None ↔ ∃ o', r = inl o').
Proof.
  revert o. induction log as [|i log IH]; intros o Hp; cbn [parse parse_validator] in *.
  - destruct (parse_complete o); [|done]. simplify_eq/=.
    assert (¬ ∃ i, i ∈ ([] : list Instruction) ∧ destructive i) by by intros (i&?%elem_of_nil&_).
    split; [|split]; (split; [|done || eauto]); [done..|eauto].
  - setoid_rewrite elem_of_cons. pose proof (validate_destructive i) as Hd. destruct (validate i); cbn [negb] in *.
    + destruct (handle i o) as [o1|]; [|done]. cbn [mbind option_bind] in Hp. destruct (IH o1 Hp) as (H1&H2&H3).
      assert (¬ destructive i) as Hnot by (intros H%Hd; done).
      assert ((∃ j, (j = i ∨ j ∈ log) ∧ destructive j) ↔ ∃ j, j ∈ log ∧ destructive j) as ->; [|done].
      split; [intros (j&[->|?]&?); [done|eauto]|intros (j&?&?); eauto].
    + injection Hp as <-. assert (∃ j, (j = i ∨ j ∈ log) ∧ destructive j) by (exists i; rewrite <-Hd; auto).
      split; [done|]. split; [done|]. split; [done|by intros [? ?]].
Qed.
End Claims.

Section Witnesses.
#[local] Existing Instance debug.

Definition plain_rows (n : Z) : list DbRow := (λ r, mkDbRow r ∅) <$> initial_table n.

Definition world : World :=
  mkWorld [<[1%nat := mkDbRow (mkTableRow (Some 1) ∅) {[2 := initial_rows 3]}]> (plain_rows 4); plain_rows 2] None None.

Definition observed : ListChangeInfo := mkListChangeInfo 0 1 2 7.

Definition observed_info : TransactionChangeInfo (list Chunk) :=
  mkTransactionChangeInfo [true; false] [true] [observed] [] [] [] false false.

Definition sample_log : list Instruction :=
  [SelectTable 0 0 []; SetCell 0 3 instr_Set; EraseRows 0 1 4 true; InsertEmptyRows 3 2 3 false; SwapRows 1 4;
   SelectLinkList 2 4; LinkListMove 2 0; LinkListInsert 1; LinkListSet 0; SelectTable 1 0 []; ClearTable].

Lemma observed_ok : observes observed_info {[7%nat := ChangeBuilder.empty_builder]} world.
Proof.
  split; [|split; [done|split; [|split]]].
  - split; [by_decision|done].
  - by_decision.
  - intros x y ->%list_elem_of_singleton ->%list_elem_of_singleton _ _ _. done.
  - intros x ->%list_elem_of_singleton. split; [done|]. split; [vm_compute; reflexivity|]. eexists. split; [reflexivity|].
    vm_compute. split; congruence.
Qed.

Lemma transaction_reported_witness :
  ∃ w info' builders', run sample_log world = Some w ∧
    advance sample_log observed_info {[7%nat := ChangeBuilder.empty_builder]} = Some (inl (info', builders')) ∧
    tables_reported observed_info (table_size world) (tables info') (db w) ∧ lists info' = [set_row observed 4].
Proof.
  destruct (run sample_log world) as [w|] eqn:Hrun; [|vm_compute in Hrun; discriminate].
  destruct (transaction_reported observed_info {[7%nat := ChangeBuilder.empty_builder]} sample_log world w) as (info'&builders'&Hadv&Hrep&_&_).
  - exact observed_ok.
  - exact Hrun.
  - repeat (split; [first [exact I|intros rows _; right; intros x y ->%list_elem_of_singleton ->%list_elem_of_singleton _ _; reflexivity]|
      let w1 := fresh "w1" in let E := fresh "E" in intros w1 E; vm_compute in E; injection E as <-]). exact I.
  - exists w, info', builders'. split; [done|]. split; [exact Hadv|]. split; [exact Hrep|].
    revert Hadv. vm_compute. by intros [= <- _].
Defined.

Definition table_script : list TableOp :=
  [TModify 2 1; TMoveOver 0; TAppend 2; TSwap 1 4; TMerge 2 5; TModify 0 0; TAppend 1; TMoveOver 4].

Lemma unordered_table_reported_witness :
  ∃ l b, run_table table_script (initial_table 5) = Some l ∧
    (b ← run_track table_script (initial_table 5) true ChangeBuilder.empty_builder; ChangeBuilder.parse_complete b) = Some b ∧
    reports 5 (T := list Chunk) b l.
Proof.
  destruct (run_table table_script (initial_table 5)) as [l|] eqn:Hl; [|vm_compute in Hl; discriminate].
  destruct (unordered_table_reported (T := list Chunk) 5 table_script l) as (b&b'&Hb&Hb'&Hrep&_); [lia|exact Hl| |].
  - repeat (split; [vm_compute; congruence|intros ? E; vm_compute in E; injection E as <-]). exact I.
  - exists l, b'. split; [done|]. rewrite Hb. split; [exact Hb'|exact Hrep].
Defined.

(** Two observed lists in rows 0 and 2 of a table of three rows *)
Definition two_lists : Observer (list Chunk) :=
  make (mkTransactionChangeInfo [] [] [mkListChangeInfo 0 0 3 1; mkListChangeInfo 0 2 3 2] [] [] [] false false) ∅.

Lemma erased_entry_skips_last_witness :
  ∃ o', erase_rows two_lists 0 3 true = Some o' ∧ lists (m_info o') = [mkListChangeInfo 0 2 3 2] ∧
    find_list o' 0 3 0 = None.
Proof.
  destruct (erase_rows two_lists 0 3 true) as [o'|] eqn:Ho; [|vm_compute in Ho; discriminate].
  exists o'. split; [done|]. pose proof Ho as Ho'. vm_compute in Ho'. injection Ho' as Ho'.
  destruct (erased_entry_skips_last two_lists o' (mkListChangeInfo 0 0 3 1) (mkListChangeInfo 0 2 3 2) 0 3) as [H1 H2];
    try reflexivity; try lia; [vm_compute; congruence|exact Ho|].
  split; [exact H1|]. rewrite <-Ho' in H2 |- *. exact H2.
Defined.

Definition renaming_log : list Instruction := [SelectTable 0 0 []; SetCell 0 0 instr_Set; RenameColumn 1; ClearTable].

Lemma destructive_changes_refused_witness :
  parse renaming_log (make observed_info ∅) = Some (inr UnsupportedSchemaChange) ∧
  parse_validator renaming_log = Some UnsupportedSchemaChange.
Proof.
  assert (parse renaming_log (make observed_info ∅) = Some (inr UnsupportedSchemaChange)) as Hp by (vm_compute; reflexivity).
  split; [exact Hp|]. destruct (destructive_changes_refused _ _ _ Hp) as (H1&H2&_). by apply H2, H1.
Defined.
End Witnesses.
