(* ===== verification/LogEncoder.v ===== *)
(** [TransactLogEncoder] (core/realm/impl/transact_log.hpp): the instructions of
    a transaction log as bytes.  The encoder writes through a pointer into
    memory it has reserved; a write past the end of that is [None]. *)
From S2P Require Import Prelude ChunkedRangeVector SafeInt LogData.

(** [TransactLogStream]: [transact_log_reserve log n] is the size of the free
    memory after the bytes [log], which is at least [n]. *)
Class TransactLogStream := transact_log_reserve : list Z → Z → Z.
Class TransactLogStreamLaws `{TransactLogStream} :=
  transact_log_reserve_ok log n : n ≤ transact_log_reserve log n.

(** The bytes before [m_transact_log_free_begin], and the size of the free memory after it *)
Record TransactLogEncoder := mkEncoder { log : list Z; free : Z }.

(** A pointer into that memory: the bytes written since [m_transact_log_free_begin] *)
Definition Ptr := list Z.

(** The arguments of [append_simple_instr], by their type *)
Inductive Arg :=
  | AInstr (i : InstrCode)
  | AType (d : DataType)
  | ABool (b : bool)
  | AInt (t : IntType) (v : Z)
  | AFloat (v : list Z)
  | ADouble (v : list Z)
  | AString (v : list Z)
  | AIntegers (l : list Z).

Definition ASize (v : Z) : Arg := AInt size_t v.

(** [is_link_type] *)
Definition is_link_type (d : DataType) : bool := match d with type_Link | type_LinkList => true | _ => false end.

Module LogEncoder.
Section Encoder.
Context {build : Build} {stream : TransactLogStream}.
Implicit Types (e : TransactLogEncoder) (ptr : Ptr).

(** ** Memory *)
Definition make : TransactLogEncoder := mkEncoder [] 0.

Definition reserve e (n : Z) : TransactLogEncoder :=
  if free e <? n then mkEncoder (log e) (transact_log_reserve (log e) n) else e.

Definition advance e ptr : option TransactLogEncoder :=
  assert_debug! Z.of_nat (length ptr) <=? free e;
  Some (mkEncoder (log e ++ ptr) (free e - Z.of_nat (length ptr))).

(** Writing through the pointer *)
Definition write e ptr (bytes : list Z) : option Ptr :=
  assert! Z.of_nat (length ptr + length bytes) <=? free e;
  Some (ptr ++ bytes).

(** ** Integers *)
Definition bits_per_byte : Z := 7.

Definition max_bytes (t : IntType) : Z :=
  let num_bits := 1 + digits t in (num_bits + (bits_per_byte - 1)) / bits_per_byte.

(** The loop: the bytes it writes, and what is left of the value *)
Fixpoint encode_bytes (n : nat) (value : Z) : list Z * Z :=
  match n with
  | O => ([], value)
  | S n =>
      if Z.shiftr value (bits_per_byte - 1) =? 0 then ([], value)
      else
        let '(bytes, rest) := encode_bytes n (Z.shiftr value bits_per_byte) in
        (uchar (Z.lor (Z.shiftl 1 bits_per_byte) (unsigned (Z.land value (Z.shiftl 1 bits_per_byte - 1)))) :: bytes,
         rest)
  end.

Definition int_bytes (t : IntType) (value : Z) : option (list Z) :=
  let negative := is_negative t value in
  let value := if negative then - (value + 1) else value in
  assert! negb (is_negative t value);
  let '(bytes, value) := encode_bytes (Z.to_nat (max_bytes t)) value in
  Some (bytes ++ [uchar (if negative then Z.lor (Z.shiftl 1 (bits_per_byte - 1)) (unsigned value) else value)]).

Definition encode_int e ptr (t : IntType) (value : Z) : option Ptr :=
  bytes ← int_bytes t value;
  write e ptr bytes.

(** ** Arguments *)
Definition max_enc_bytes_per_int : Z := 10.
Definition max_enc_bytes_per_double : Z := 8.
Definition max_enc_bytes_per_num : Z :=
  if max_enc_bytes_per_int <? max_enc_bytes_per_double then max_enc_bytes_per_double else max_enc_bytes_per_int.
Definition max_numbers_per_chunk : nat := if REALM_DEBUG then 2 else 8.

Definition set_null_sentinel : Z := -1.

Definition max_size (a : Arg) : Z :=
  match a with
  | AInstr _ | AType _ | ABool _ => 1
  | AInt _ _ | AFloat _ | ADouble _ => max_enc_bytes_per_num
  | AString s => max_enc_bytes_per_num + Z.of_nat (length s)
  | AIntegers _ => max_enc_bytes_per_num * Z.of_nat max_numbers_per_chunk
  end.

Fixpoint max_size_list (args : list Arg) : Z :=
  match args with [] => 0 | a :: args => max_size a + max_size_list args end.

(** [encode<IntegerList>]: memory is reserved for a chunk of numbers at a time. *)
Fixpoint encode_integers (fuel : nat) e ptr (l : list Z) : option (TransactLogEncoder * Ptr) :=
  match fuel with
  | O => None
  | S fuel =>
      if (max_numbers_per_chunk <? length l)%nat then
        ptr ← foldlM (λ ptr v, encode_int e ptr int64_t v) ptr (take max_numbers_per_chunk l);
        e ← advance e ptr;
        let e := reserve e (max_enc_bytes_per_num * Z.of_nat max_numbers_per_chunk) in
        encode_integers fuel e [] (drop max_numbers_per_chunk l)
      else
        ptr ← foldlM (λ ptr v, encode_int e ptr int64_t v) ptr l;
        Some (e, ptr)
  end.

Definition encode e ptr (a : Arg) : option (TransactLogEncoder * Ptr) :=
  match a with
  | AInstr i => ptr ← write e ptr [instr_value i]; Some (e, ptr)
  | AType d => ptr ← write e ptr [type_value d]; Some (e, ptr)
  | ABool b => ptr ← write e ptr [if b then 1 else 0]; Some (e, ptr)
  | AInt t v => ptr ← encode_int e ptr t v; Some (e, ptr)
  | AFloat v | ADouble v => ptr ← write e ptr v; Some (e, ptr)
  | AString s =>
      ptr ← encode_int e ptr size_t (Z.of_nat (length s));
      ptr ← write e ptr s;
      Some (e, ptr)
  | AIntegers l => encode_integers (S (length l)) e ptr l
  end.

Fixpoint encode_list e ptr (args : list Arg) : option TransactLogEncoder :=
  match args with
  | [] => advance e ptr
  | a :: args => '(e, ptr) ← encode e ptr a; encode_list e ptr args
  end.

Definition append_simple_instr e (args : list Arg) : option TransactLogEncoder :=
  encode_list (reserve e (max_size_list args)) [] args.

Definition append_mixed_instr e (instr : InstrCode) (value : Mixed) (numbers : list Arg) : option TransactLogEncoder :=
  append_simple_instr e (AInstr instr :: numbers ++ AType (get_type value) ::
    match value with
    | MInt v => [AInt int64_t v]
    | MBool v => [ABool v]
    | MFloat v => [AFloat v]
    | MDouble v => [ADouble v]
    | MOldDateTime v => [AInt int64_t v]
    | MString v => [AString v]
    | MBinary v => [AString v]
    | MTimestamp s n => [AInt int64_t s; AInt int32_t n]
    | MTable => []
    end).

(** ** Instructions *)
Definition insert_group_level_table e table_ndx prior_num_tables name :=
  append_simple_instr e [AInstr instr_InsertGroupLevelTable; ASize table_ndx; ASize prior_num_tables; AString name].
Definition erase_group_level_table e table_ndx prior_num_tables :=
  append_simple_instr e [AInstr instr_EraseGroupLevelTable; ASize table_ndx; ASize prior_num_tables].
Definition rename_group_level_table e table_ndx new_name :=
  append_simple_instr e [AInstr instr_RenameGroupLevelTable; ASize table_ndx; AString new_name].
Definition insert_column e col_ndx type name (nullable : bool) :=
  let instr := if nullable then instr_InsertNullableColumn else instr_InsertColumn in
  append_simple_instr e [AInstr instr; ASize col_ndx; AType type; AString name].
Definition insert_link_column e col_ndx type name link_target_table_ndx backlink_col_ndx :=
  assert! is_link_type type;
  append_simple_instr e [AInstr instr_InsertLinkColumn; ASize col_ndx; AType type; ASize link_target_table_ndx;
                         ASize backlink_col_ndx; AString name].
Definition erase_column e col_ndx := append_simple_instr e [AInstr instr_EraseColumn; ASize col_ndx].
Definition erase_link_column e col_ndx link_target_table_ndx backlink_col_ndx :=
  append_simple_instr e [AInstr instr_EraseLinkColumn; ASize col_ndx; ASize link_target_table_ndx; ASize backlink_col_ndx].
Definition rename_column e col_ndx new_name :=
  append_simple_instr e [AInstr instr_RenameColumn; ASize col_ndx; AString new_name].

(** The variants that are allowed, with and without [instr_SetUnique] *)
Definition plain_variant (variant : InstrCode) : bool :=
  match variant with instr_Set | instr_SetDefault => true | _ => false end.
Definition any_variant (variant : InstrCode) : bool :=
  match variant with instr_Set | instr_SetDefault | instr_SetUnique => true | _ => false end.
Definition is_unique (variant : InstrCode) : bool := match variant with instr_SetUnique => true | _ => false end.

Definition set_null e col_ndx ndx variant prior_num_rows :=
  assert! any_variant variant;
  if is_unique variant
  then append_simple_instr e [AInstr variant; AInt int_t set_null_sentinel; ASize col_ndx; ASize ndx; ASize prior_num_rows]
  else append_simple_instr e [AInstr variant; AInt int_t set_null_sentinel; ASize col_ndx; ASize ndx].
Definition set_int e col_ndx ndx v variant prior_num_rows :=
  assert! any_variant variant;
  if is_unique variant
  then append_simple_instr e [AInstr variant; AType type_Int; ASize col_ndx; ASize ndx; ASize prior_num_rows; AInt int64_t v]
  else append_simple_instr e [AInstr variant; AType type_Int; ASize col_ndx; ASize ndx; AInt int64_t v].
Definition add_int e col_ndx ndx v :=
  append_simple_instr e [AInstr instr_AddInteger; ASize col_ndx; ASize ndx; AInt int64_t v].
Definition set_bool e col_ndx ndx v variant :=
  assert! plain_variant variant;
  append_simple_instr e [AInstr variant; AType type_Bool; ASize col_ndx; ASize ndx; ABool v].
Definition set_float e col_ndx ndx v variant :=
  assert! plain_variant variant;
  append_simple_instr e [AInstr variant; AType type_Float; ASize col_ndx; ASize ndx; AFloat v].
Definition set_double e col_ndx ndx v variant :=
  assert! plain_variant variant;
  append_simple_instr e [AInstr instr_Set; AType type_Double; ASize col_ndx; ASize ndx; ADouble v].
Definition set_string e col_ndx ndx (value : option (list Z)) variant prior_num_rows :=
  assert! any_variant variant;
  match value with
  | None => set_null e col_ndx ndx variant prior_num_rows
  | Some v =>
      if is_unique variant
      then append_simple_instr e [AInstr variant; AType type_String; ASize col_ndx; ASize ndx; ASize prior_num_rows; AString v]
      else append_simple_instr e [AInstr variant; AType type_String; ASize col_ndx; ASize ndx; AString v]
  end.
Definition set_binary e col_ndx row_ndx (value : option (list Z)) variant :=
  assert! plain_variant variant;
  match value with
  | None => set_null e col_ndx row_ndx variant 0
  | Some v => append_simple_instr e [AInstr variant; AType type_Binary; ASize col_ndx; ASize row_ndx; AString v]
  end.
Definition set_olddatetime e col_ndx ndx v variant :=
  assert! plain_variant variant;
  append_simple_instr e [AInstr variant; AType type_OldDateTime; ASize col_ndx; ASize ndx; AInt int64_t v].
Definition set_timestamp e col_ndx ndx seconds nanoseconds variant :=
  assert! plain_variant variant;
  append_simple_instr e [AInstr variant; AType type_Timestamp; ASize col_ndx; ASize ndx; AInt int64_t seconds;
                         AInt int32_t nanoseconds].
Definition set_table e col_ndx ndx variant :=
  assert! plain_variant variant;
  append_simple_instr e [AInstr variant; AType type_Table; ASize col_ndx; ASize ndx].
Definition set_mixed e col_ndx ndx (value : Mixed) variant :=
  assert! plain_variant variant;
  append_mixed_instr e variant value [AType type_Mixed; ASize col_ndx; ASize ndx].
Definition set_link e col_ndx ndx value target_group_level_ndx variant :=
  assert! plain_variant variant;
  let value_2 := 1 +w value in
  append_simple_instr e [AInstr variant; AType type_Link; ASize col_ndx; ASize ndx; ASize value_2; ASize target_group_level_ndx].
Definition nullify_link e col_ndx ndx target_group_level_ndx :=
  append_simple_instr e [AInstr instr_NullifyLink; ASize col_ndx; ASize ndx; ASize target_group_level_ndx].
Definition insert_substring e col_ndx row_ndx pos value :=
  append_simple_instr e [AInstr instr_InsertSubstring; ASize col_ndx; ASize row_ndx; ASize pos; AString value].
Definition erase_substring e col_ndx row_ndx pos size :=
  append_simple_instr e [AInstr instr_EraseFromString; ASize col_ndx; ASize row_ndx; ASize pos; ASize size].

Definition insert_empty_rows e row_ndx num_rows_to_insert prior_num_rows unordered :=
  append_simple_instr e [AInstr instr_InsertEmptyRows; ASize row_ndx; ASize num_rows_to_insert; ASize prior_num_rows;
                         ABool unordered].
Definition add_row_with_key e row_ndx prior_num_rows key_col_ndx key :=
  append_simple_instr e [AInstr instr_AddRowWithKey; ASize row_ndx; ASize prior_num_rows; ASize key_col_ndx;
                         AInt int64_t key].
Definition erase_rows e row_ndx num_rows_to_erase prior_num_rows unordered :=
  append_simple_instr e [AInstr instr_EraseRows; ASize row_ndx; ASize num_rows_to_erase; ASize prior_num_rows;
                         ABool unordered].
Definition swap_rows e row_ndx_1 row_ndx_2 :=
  append_simple_instr e [AInstr instr_SwapRows; ASize row_ndx_1; ASize row_ndx_2].
Definition move_row e from_ndx to_ndx := append_simple_instr e [AInstr instr_MoveRow; ASize from_ndx; ASize to_ndx].
Definition merge_rows e row_ndx new_row_ndx :=
  append_simple_instr e [AInstr instr_MergeRows; ASize row_ndx; ASize new_row_ndx].
Definition add_search_index e col_ndx := append_simple_instr e [AInstr instr_AddSearchIndex; ASize col_ndx].
Definition remove_search_index e col_ndx := append_simple_instr e [AInstr instr_RemoveSearchIndex; ASize col_ndx].
Definition set_link_type e col_ndx (link_type : LinkType) :=
  append_simple_instr e [AInstr instr_SetLinkType; ASize col_ndx; AInt int_t (link_type_value link_type)].
Definition clear_table e old_size := append_simple_instr e [AInstr instr_ClearTable; ASize old_size].
Definition optimize_table e := append_simple_instr e [AInstr instr_OptimizeTable].

Definition link_list_set e link_ndx value prior_size :=
  append_simple_instr e [AInstr instr_LinkListSet; ASize link_ndx; ASize value; ASize prior_size].
Definition link_list_nullify e link_ndx prior_size :=
  append_simple_instr e [AInstr instr_LinkListNullify; ASize link_ndx; ASize prior_size].
Definition link_list_set_all e (values : list Z) :=
  append_simple_instr e [AInstr instr_LinkListSetAll; ASize (Z.of_nat (length values)); AIntegers values].
Definition link_list_insert e link_ndx value prior_size :=
  append_simple_instr e [AInstr instr_LinkListInsert; ASize link_ndx; ASize value; ASize prior_size].
Definition link_list_move e from_link_ndx to_link_ndx :=
  assert! negb (from_link_ndx =? to_link_ndx);
  append_simple_instr e [AInstr instr_LinkListMove; ASize from_link_ndx; ASize to_link_ndx].
Definition link_list_swap e link1_ndx link2_ndx :=
  append_simple_instr e [AInstr instr_LinkListSwap; ASize link1_ndx; ASize link2_ndx].
Definition link_list_erase e link_ndx prior_size :=
  append_simple_instr e [AInstr instr_LinkListErase; ASize link_ndx; ASize prior_size].
Definition link_list_clear e old_list_size := append_simple_instr e [AInstr instr_LinkListClear; ASize old_list_size].
End Encoder.
End LogEncoder.

(** The methods of the encoder that are compiled into the core
    ([select_table], [select_descriptor], [select_link_list]) *)
Class CoreEncoder := encode_select : TransactLogEncoder → Call → option TransactLogEncoder.

(** The encoder as a handler *)
Definition encode_value `{Build, TransactLogStream} (e : TransactLogEncoder) (col row : Z) (v : Value)
    (variant : InstrCode) (prior_num_rows : Z) : option TransactLogEncoder :=
  match v with
  | VInt v => LogEncoder.set_int e col row v variant prior_num_rows
  | VBool v => LogEncoder.set_bool e col row v variant
  | VFloat v => LogEncoder.set_float e col row v variant
  | VDouble v => LogEncoder.set_double e col row v variant
  | VString v => LogEncoder.set_string e col row v variant prior_num_rows
  | VBinary v => LogEncoder.set_binary e col row v variant
  | VOldDateTime v => LogEncoder.set_olddatetime e col row v variant
  | VTimestamp s n => LogEncoder.set_timestamp e col row s n variant
  | VTable => LogEncoder.set_table e col row variant
  | VMixed v => LogEncoder.set_mixed e col row v variant
  | VLink target group => LogEncoder.set_link e col row target group variant
  | VNull => LogEncoder.set_null e col row variant prior_num_rows
  end.

Definition encode_call `{Build, TransactLogStream, CoreEncoder} (c : Call) (e : TransactLogEncoder) :
    option TransactLogEncoder :=
  match c with
  | select_table _ _ _ | select_descriptor _ _ | select_link_list _ _ _ => encode_select e c
  | insert_group_level_table ndx num name => LogEncoder.insert_group_level_table e ndx num name
  | erase_group_level_table ndx num => LogEncoder.erase_group_level_table e ndx num
  | rename_group_level_table ndx name => LogEncoder.rename_group_level_table e ndx name
  | insert_empty_rows row num prior unordered => LogEncoder.insert_empty_rows e row num prior unordered
  | add_row_with_key row prior col key => LogEncoder.add_row_with_key e row prior col key
  | erase_rows row num prior unordered => LogEncoder.erase_rows e row num prior unordered
  | swap_rows row_1 row_2 => LogEncoder.swap_rows e row_1 row_2
  | move_row from_ to_ => LogEncoder.move_row e from_ to_
  | merge_rows row new => LogEncoder.merge_rows e row new
  | clear_table size => LogEncoder.clear_table e size
  | set_value col row v variant prior => encode_value e col row v variant prior
  | add_int col row v => LogEncoder.add_int e col row v
  | nullify_link col row target => LogEncoder.nullify_link e col row target
  | insert_substring col row pos v => LogEncoder.insert_substring e col row pos v
  | erase_substring col row pos size => LogEncoder.erase_substring e col row pos size
  | optimize_table => LogEncoder.optimize_table e
  | insert_link_column col type name target backlink => LogEncoder.insert_link_column e col type name target backlink
  | insert_column col type name nullable => LogEncoder.insert_column e col type name nullable
  | erase_link_column col target backlink => LogEncoder.erase_link_column e col target backlink
  | erase_column col => LogEncoder.erase_column e col
  | rename_column col name => LogEncoder.rename_column e col name
  | add_search_index col => LogEncoder.add_search_index e col
  | remove_search_index col => LogEncoder.remove_search_index e col
  | set_link_type col type => LogEncoder.set_link_type e col type
  | link_list_set ndx v prior => LogEncoder.link_list_set e ndx v prior
  | link_list_set_all vs => LogEncoder.link_list_set_all e vs
  | link_list_insert ndx v prior => LogEncoder.link_list_insert e ndx v prior
  | link_list_move from_ to_ => LogEncoder.link_list_move e from_ to_
  | link_list_swap a b => LogEncoder.link_list_swap e a b
  | link_list_erase ndx prior => LogEncoder.link_list_erase e ndx prior
  | link_list_nullify ndx prior => LogEncoder.link_list_nullify e ndx prior
  | link_list_clear size => LogEncoder.link_list_clear e size
  end.
