(* ===== verification/LogParser.v ===== *)
(** [TransactLogParser] (core/realm/impl/transact_log.hpp): the bytes of a log,
    which come in blocks, as calls of a handler. *)
From S2P Require Import Prelude ChunkedRangeVector SafeInt LogData.

(** ** The input

    [m_input], and the bytes from [m_input_begin] to [m_input_end] *)
Record Input (I : Type) := mkInput { m_input : I; m_input_begin : list Z }.
Arguments mkInput {I} _ _.
Arguments m_input {I} _.
Arguments m_input_begin {I} _.

(** Reading; [None] is the exception [BadTransactLog]. *)
Definition Reader (I A : Type) := Input I → option (A * Input I).

#[export] Instance reader_ret {I} : MRet (Reader I) := λ A a i, Some (a, i).
#[export] Instance reader_bind {I} : MBind (Reader I) := λ A B f p i,
  match p i with Some (a, i) => f a i | None => None end.

(** [parser_error], and the failure of a check *)
Definition parser_error {I A} : Reader I A := λ _, None.
Definition lift {I A} (o : option A) : Reader I A := λ i, a ← o; Some (a, i).
Definition check {I} (b : bool) : Reader I () := if b then mret () else parser_error.

(** [Table::max_string_size] *)
Definition max_string_size : Z := 16777208 - 8 - 1.

Module LogParser.
Section Parser.
Context {I : Type} {stream : NoCopyInputStream I}.

Definition next_input_buffer (i : Input I) : option (Input I) :=
  '(block, rest) ← next_block (m_input i);
  Some (mkInput rest block).

Definition read_char : Reader I Z := λ i,
  i ← (if bool_decide (m_input_begin i = []) then next_input_buffer i else Some i);
  match m_input_begin i with
  | [] => None
  | c :: rest => Some (c, mkInput (m_input i) rest)
  end.

(** ** Values *)
Definition max_bytes (t : IntType) : Z := (digits t + 1 + 6) / 7.

(** The loop of [read_int]: [i] counts the bytes; the value, and the last byte *)
Fixpoint read_int_loop (t : IntType) (n : nat) (i value part : Z) : Reader I (Z * Z) :=
  match n with
  | O => mret (value, part)
  | S n =>
      part ← read_char;
      if 255 <? part then parser_error
      else if Z.land part 128 =? 0 then
        p ← lift (no_overflow (int_shift_left_with_overflow_detect t (Z.land part 63) (i * 7)));
        mret (Z.lor value p, part)
      else if i =? max_bytes t - 1 then parser_error
      else read_int_loop t n (i + 1) (Z.lor value (Z.shiftl (Z.land part 127) (i * 7))) part
  end.

(** Unary minus wraps around for an unsigned type. *)
Definition negate (t : IntType) (v : Z) : Z := if is_signed t then - v else (- v) mod 2 ^ digits t.

Definition read_int (t : IntType) : Reader I Z :=
  '(value, part) ← read_int_loop t (Z.to_nat (max_bytes t)) 0 0 0;
  if negb (Z.land part 64 =? 0)
  then lift (no_overflow (int_subtract_with_overflow_detect t int_t (negate t value) 1))
  else mret value.

Definition read_size : Reader I Z := read_int size_t.

(** [read_bytes]: a loop over the blocks the bytes are in *)
Fixpoint read_blocks (fuel size : nat) : Reader I (list Z) := λ i,
  match fuel with
  | O => None
  | S fuel =>
      let avail := length (m_input_begin i) in
      if (size <=? avail)%nat
      then Some (take size (m_input_begin i), mkInput (m_input i) (drop size (m_input_begin i)))
      else
        let data := m_input_begin i in
        i ← next_input_buffer i;
        '(more, i) ← read_blocks fuel (size - avail) i;
        Some (data ++ more, i)
  end.

Definition read_bytes (size : nat) : Reader I (list Z) := read_blocks (S (S size)) size.

Definition read_buffer (size : Z) : Reader I (list Z) := λ i,
  let avail := length (m_input_begin i) in
  if size <=? Z.of_nat avail
  then Some (take (Z.to_nat size) (m_input_begin i), mkInput (m_input i) (drop (Z.to_nat size) (m_input_begin i)))
  else read_bytes (Z.to_nat size) i.

Definition read_bool : Reader I bool := c ← read_int char_t; mret (negb (c =? 0)).
Definition read_float : Reader I (list Z) := read_bytes 4.
Definition read_double : Reader I (list Z) := read_bytes 8.

Definition read_string : Reader I (list Z) :=
  size ← read_size;
  if max_string_size <? size then parser_error else
  read_buffer size.

Definition read_timestamp : Reader I (Z * Z) :=
  seconds ← read_int int64_t;
  nanoseconds ← read_int int32_t;
  mret (seconds, nanoseconds).

Definition read_binary : Reader I (list Z) :=
  size ← read_size;
  read_buffer size.

Definition read_mixed : Reader I Mixed :=
  type ← read_int int_t;
  match type_of_value type with
  | Some type_Int => v ← read_int int64_t; mret (MInt v)
  | Some type_Bool => v ← read_bool; mret (MBool v)
  | Some type_Float => v ← read_float; mret (MFloat v)
  | Some type_Double => v ← read_double; mret (MDouble v)
  | Some type_OldDateTime => v ← read_int int64_t; mret (MOldDateTime v)
  | Some type_Timestamp => '(s, n) ← read_timestamp; mret (MTimestamp s n)
  | Some type_String => v ← read_string; mret (MString v)
  | Some type_Binary => v ← read_binary; mret (MBinary v)
  | Some type_Table => mret MTable
  | Some type_Mixed | Some type_Link | Some type_LinkList | None => parser_error
  end.

Definition is_valid_data_type (type : Z) : bool :=
  match type_of_value type with Some _ => true | None => false end.

Definition link_type_of_value (v : Z) : option LinkType :=
  if v =? 0 then Some link_Strong else if v =? 1 then Some link_Weak else None.

Definition is_valid_link_type (type : Z) : bool :=
  match link_type_of_value type with Some _ => true | None => false end.

(** ** Instructions

    [Set]: "switch (DataType(type))" *)
Definition read_set_value (type : Z) : Reader I Value :=
  match type_of_value type with
  | Some type_Int => v ← read_int int64_t; mret (VInt v)
  | Some type_Bool => v ← read_bool; mret (VBool v)
  | Some type_Float => v ← read_float; mret (VFloat v)
  | Some type_Double => v ← read_double; mret (VDouble v)
  | Some type_String => v ← read_string; mret (VString (Some v))
  | Some type_Binary => v ← read_binary; mret (VBinary (Some v))
  | Some type_OldDateTime => v ← read_int int64_t; mret (VOldDateTime v)
  | Some type_Timestamp =>
      seconds ← read_int int64_t;
      nanoseconds ← read_int int32_t;
      mret (VTimestamp seconds nanoseconds)
  | Some type_Table => mret VTable
  | Some type_Mixed => v ← read_mixed; mret (VMixed v)
  | Some type_Link =>
      value ← read_size;
      let target_row_ndx := value -w 1 in
      target_group_level_ndx ← read_size;
      mret (VLink target_row_ndx target_group_level_ndx)
  | Some type_LinkList | None => parser_error
  end.

Definition is_unique (instr : InstrCode) : bool := match instr with instr_SetUnique => true | _ => false end.

Definition read_set (instr : InstrCode) : Reader I Call :=
  type ← read_int int_t;
  col_ndx ← read_size;
  row_ndx ← read_size;
  prior_num_rows ← (if is_unique instr then read_size else mret 0);
  if type =? -1 then mret (set_value col_ndx row_ndx VNull instr prior_num_rows) else
  value ← read_set_value type;
  mret (set_value col_ndx row_ndx value instr prior_num_rows).

(** The path of a selection *)
Definition m_max_levels : Z := 1024.

Fixpoint read_sizes (n : nat) : Reader I (list Z) :=
  match n with
  | O => mret []
  | S n => ndx ← read_size; rest ← read_sizes n; mret (ndx :: rest)
  end.

Definition read_levels : Reader I Z :=
  levels ← read_int int_t;
  _ ← check (negb ((levels <? 0) || (m_max_levels <? levels)));
  mret levels.

Definition read_select_table : Reader I Call :=
  levels ← read_levels;
  group_level_ndx ← read_size;
  path ← read_sizes (Z.to_nat (2 * levels));
  mret (select_table group_level_ndx levels path).

Definition read_select_descriptor : Reader I Call :=
  levels ← read_levels;
  path ← read_sizes (Z.to_nat levels);
  mret (select_descriptor levels path).

(** The columns that [instr_InsertColumn] and [instr_InsertLinkColumn] insert *)
Definition read_data_type : Reader I DataType :=
  type ← read_int int_t;
  _ ← check (is_valid_data_type type);
  lift (type_of_value type).

Definition read_insert_column (nullable : bool) : Reader I Call :=
  col_ndx ← read_size;
  type ← read_data_type;
  _ ← check (negb (match type with type_Link | type_LinkList => true | _ => false end));
  name ← read_string;
  _ ← check (negb (nullable && bool_decide (type = type_Mixed)));
  mret (insert_column col_ndx type name nullable).

Definition read_insert_link_column : Reader I Call :=
  col_ndx ← read_size;
  type ← read_data_type;
  _ ← check (match type with type_Link | type_LinkList => true | _ => false end);
  link_target_table_ndx ← read_size;
  backlink_col_ndx ← read_size;
  name ← read_string;
  mret (insert_link_column col_ndx type name link_target_table_ndx backlink_col_ndx).

(** Instructions on rows and their values *)
Definition read_row_instr (instr : InstrCode) : Reader I Call :=
  match instr with
  | instr_AddInteger =>
      col ← read_size; row ← read_size; value ← read_int int64_t; mret (add_int col row value)
  | instr_NullifyLink =>
      col ← read_size; row ← read_size; target ← read_size; mret (nullify_link col row target)
  | instr_InsertSubstring =>
      col ← read_size; row ← read_size; pos ← read_size; value ← read_string;
      mret (insert_substring col row pos value)
  | instr_EraseFromString =>
      col ← read_size; row ← read_size; pos ← read_size; size ← read_size; mret (erase_substring col row pos size)
  | instr_InsertEmptyRows =>
      row ← read_size; num ← read_size; prior ← read_size; unordered ← read_bool;
      mret (insert_empty_rows row num prior unordered)
  | instr_AddRowWithKey =>
      row ← read_size; prior ← read_size; col ← read_size; key ← read_int int64_t;
      mret (add_row_with_key row prior col key)
  | instr_EraseRows =>
      row ← read_size; num ← read_size; prior ← read_size; unordered ← read_bool;
      mret (erase_rows row num prior unordered)
  | instr_SwapRows => row_1 ← read_size; row_2 ← read_size; mret (swap_rows row_1 row_2)
  | instr_MoveRow => from_ ← read_size; to_ ← read_size; mret (move_row from_ to_)
  | instr_MergeRows => row ← read_size; new_row ← read_size; mret (merge_rows row new_row)
  | instr_ClearTable => old_size ← read_size; mret (clear_table old_size)
  | _ => parser_error
  end.

(** Instructions on lists *)
Definition read_list_instr (instr : InstrCode) : Reader I Call :=
  match instr with
  | instr_LinkListSet =>
      link ← read_size; value ← read_size; prior ← read_size; mret (link_list_set link value prior)
  | instr_LinkListInsert =>
      link ← read_size; value ← read_size; prior ← read_size; mret (link_list_insert link value prior)
  | instr_LinkListMove => from_ ← read_size; to_ ← read_size; mret (link_list_move from_ to_)
  | instr_LinkListSwap => link1 ← read_size; link2 ← read_size; mret (link_list_swap link1 link2)
  | instr_LinkListErase => link ← read_size; prior ← read_size; mret (link_list_erase link prior)
  | instr_LinkListNullify => link ← read_size; prior ← read_size; mret (link_list_nullify link prior)
  | instr_LinkListClear => old_size ← read_size; mret (link_list_clear old_size)
  | instr_SelectLinkList =>
      col ← read_size; row ← read_size; target ← read_size; mret (select_link_list col row target)
  | _ => parser_error
  end.

(** Instructions on columns and tables *)
Definition read_schema_instr (instr : InstrCode) : Reader I Call :=
  match instr with
  | instr_AddSearchIndex => col ← read_size; mret (add_search_index col)
  | instr_RemoveSearchIndex => col ← read_size; mret (remove_search_index col)
  | instr_SetLinkType =>
      col ← read_size;
      type ← read_int int_t;
      _ ← check (is_valid_link_type type);
      type ← lift (link_type_of_value type);
      mret (set_link_type col type)
  | instr_InsertColumn => read_insert_column false
  | instr_InsertNullableColumn => read_insert_column true
  | instr_InsertLinkColumn => read_insert_link_column
  | instr_EraseColumn => col ← read_size; mret (erase_column col)
  | instr_EraseLinkColumn =>
      col ← read_size; target ← read_size; backlink ← read_size; mret (erase_link_column col target backlink)
  | instr_RenameColumn => col ← read_size; name ← read_string; mret (rename_column col name)
  | instr_SelectDescriptor => read_select_descriptor
  | instr_InsertGroupLevelTable =>
      ndx ← read_size; num ← read_size; name ← read_string; mret (insert_group_level_table ndx num name)
  | instr_EraseGroupLevelTable => ndx ← read_size; num ← read_size; mret (erase_group_level_table ndx num)
  | instr_RenameGroupLevelTable => ndx ← read_size; name ← read_string; mret (rename_group_level_table ndx name)
  | instr_OptimizeTable => mret optimize_table
  | _ => parser_error
  end.

(** The arguments of an instruction other than [instr_LinkListSetAll] *)
Definition read_instr (instr : InstrCode) : Reader I Call :=
  match instr with
  | instr_SetDefault | instr_SetUnique | instr_Set => read_set instr
  | instr_SelectTable => read_select_table
  | instr_AddInteger | instr_NullifyLink | instr_InsertSubstring | instr_EraseFromString | instr_InsertEmptyRows
  | instr_AddRowWithKey | instr_EraseRows | instr_SwapRows | instr_MoveRow | instr_MergeRows | instr_ClearTable =>
      read_row_instr instr
  | instr_LinkListSet | instr_LinkListInsert | instr_LinkListMove | instr_LinkListSwap | instr_LinkListErase
  | instr_LinkListNullify | instr_LinkListClear | instr_SelectLinkList => read_list_instr instr
  | instr_AddSearchIndex | instr_RemoveSearchIndex | instr_SetLinkType | instr_InsertColumn
  | instr_InsertNullableColumn | instr_InsertLinkColumn | instr_EraseColumn | instr_EraseLinkColumn
  | instr_RenameColumn | instr_SelectDescriptor | instr_InsertGroupLevelTable | instr_EraseGroupLevelTable
  | instr_RenameGroupLevelTable | instr_OptimizeTable => read_schema_instr instr
  | instr_MoveColumn | instr_MoveGroupLevelTable | instr_LinkListSetAll => parser_error
  end.

(** ** Calling the handler

    A handler says whether it accepts the call, or throws.  [BadTransactLog] is
    [None]. *)
Section Handler.
Context {S E : Type} (handler : Call → S → (bool * S) + E).

#[local] Notation Outcome A := (option (A + E)).

Definition deliver (c : Call) (s : S) : Outcome S :=
  match handler c s with
  | inl (true, s) => Some (inl s)
  | inl (false, _) => None
  | inr e => Some (inr e)
  end.

(** [instr_LinkListSetAll]: the loop over the elements *)
Fixpoint set_all_loop (fuel : nat) (j size : Z) (s : S) (i : Input I) : Outcome (S * Input I) :=
  match fuel with
  | O => None
  | Datatypes.S fuel =>
      if j <? size then
        '(link, i) ← read_size i;
        o ← deliver (link_list_set j link size) s;
        match o with
        | inl s => set_all_loop fuel (j + 1) size s i
        | inr e => Some (inr e)
        end
      else Some (inl (s, i))
  end.

Definition parse_one (fuel : nat) (s : S) (i : Input I) : Outcome (S * Input I) :=
  '(instr_ch, i) ← read_char i;
  instr ← instr_of_value instr_ch;
  match instr with
  | instr_LinkListSetAll =>
      '(size, i) ← read_size i;
      set_all_loop fuel 0 size s i
  | _ =>
      '(c, i) ← read_instr instr i;
      o ← deliver c s;
      Some (match o with inl s => inl (s, i) | inr e => inr e end)
  end.

Definition has_next (i : Input I) : option (Input I) :=
  if negb (bool_decide (m_input_begin i = [])) then Some i else next_input_buffer i.

Fixpoint parse_loop (fuel : nat) (s : S) (i : Input I) : Outcome S :=
  match fuel with
  | O => None
  | Datatypes.S fuel' =>
      match has_next i with
      | None => Some (inl s)
      | Some i =>
          o ← parse_one fuel s i;
          match o with
          | inl (s, i) => parse_loop fuel' s i
          | inr e => Some (inr e)
          end
      end
  end.

(** [fuel] bounds the instructions and the elements of a list: the number of
    bytes and one more is enough. *)
Definition parse (fuel : nat) (in_ : I) (s : S) : Outcome S := parse_loop fuel s (mkInput in_ []).
End Handler.
End Parser.
End LogParser.
