(* ===== verification/LogEncoderTheory.v ===== *)
(** What [TransactLogEncoder] writes: the bytes of every argument, and that they
    fit into the memory that was reserved for them. *)
From S2P Require Import Prelude ChunkedRangeVector SafeInt LogData LogEncoder.
Import LogEncoder.

(** ** Bytes *)
Definition byte (c : Z) : Prop := 0 ≤ c < 256.

#[export] Instance byte_dec c : Decision (byte c).
Proof. unfold byte. apply _. Defined.

(** The types whose values the encoding has room for *)
Definition encodable (t : IntType) : Prop := t ∈ int_types ∧ t ≠ bool_t.

#[export] Instance encodable_dec t : Decision (encodable t).
Proof. unfold encodable. apply _. Defined.

Definition width (t : IntType) : Z := digits (promoted t) + (if is_signed (promoted t) then 1 else 0).

Lemma encodable_bounds t :
  encodable t → 7 ≤ digits t ≤ 64 ∧ 0 < max_bytes t ≤ 10 ∧ digits t + 1 ≤ 7 * max_bytes t ≤ digits t + 7 ∧
    7 * (max_bytes t - 1) < width t.
Proof.
  intros [Ht Hb]. assert (Forall (λ t, t ≠ bool_t → 7 ≤ digits t ≤ 64 ∧ 0 < max_bytes t ≤ 10 ∧
    digits t + 1 ≤ 7 * max_bytes t ≤ digits t + 7 ∧ 7 * (max_bytes t - 1) < width t) int_types) as H by by_decision.
  rewrite Forall_forall in H. by apply H.
Qed.

Lemma uchar_byte v : byte (uchar v).
Proof. apply Z.mod_pos_bound. done. Qed.

Lemma land_mask v n : 0 ≤ n → Z.land v (Z.shiftl 1 n - 1) = v mod 2 ^ n.
Proof. intros. rewrite Z.shiftl_1_l, <-Z.land_ones by done. f_equal. rewrite Z.ones_equiv. lia. Qed.

(** A byte that is not the last one, and the last one *)
Definition more_byte (v : Z) : Z := 128 + v mod 128.

Lemma more_byte_eq v :
  0 ≤ v → uchar (Z.lor (Z.shiftl 1 bits_per_byte) (unsigned (Z.land v (Z.shiftl 1 bits_per_byte - 1)))) = more_byte v.
Proof.
  intros Hv. unfold bits_per_byte. rewrite land_mask by done. change (2 ^ 7) with 128.
  pose proof (Z.mod_pos_bound v 128). unfold unsigned, more_byte. rewrite (Z.mod_small (v mod 128)) by lia.
  change (Z.shiftl 1 7) with (Z.shiftl 1 7). rewrite Z.lor_comm, (lor_disjoint (v mod 128) 1 7) by lia.
  unfold uchar. rewrite Z.mod_small; lia.
Qed.

Lemma last_byte_eq (negative : bool) r :
  0 ≤ r < 64 →
  uchar (if negative then Z.lor (Z.shiftl 1 (bits_per_byte - 1)) (unsigned r) else r) = (if negative then 64 else 0) + r.
Proof.
  intros Hr. unfold uchar, unsigned, bits_per_byte. rewrite (Z.mod_small r) by lia. change (7 - 1) with 6. destruct negative.
  - rewrite Z.lor_comm, (lor_disjoint r 1 6) by lia. rewrite Z.mod_small; lia.
  - rewrite Z.mod_small; lia.
Qed.

(** ** Integers *)
Lemma encode_bytes_cons n v bytes r :
  0 ≤ v → encode_bytes (S n) v = (bytes, r) →
  (v < 64 ∧ bytes = [] ∧ r = v) ∨
  (64 ≤ v ∧ ∃ bytes', bytes = more_byte v :: bytes' ∧ encode_bytes n (v / 128) = (bytes', r)).
Proof.
  intros Hv. cbn [encode_bytes]. rewrite !Z.shiftr_div_pow2 by (unfold bits_per_byte; lia).
  change (2 ^ (bits_per_byte - 1)) with 64. change (2 ^ bits_per_byte) with 128.
  destruct (Z.eqb_spec (v / 64) 0) as [E|E].
  - intros [= <- <-]. left. split; [|done]. apply Z.div_small_iff in E; lia.
  - destruct (encode_bytes n (v / 128)) as [bytes' r'] eqn:Hrec. intros [= <- <-]. right.
    split; [destruct (decide (v < 64)); [rewrite Z.div_small in E; lia|lia]|]. exists bytes'. by rewrite more_byte_eq.
Qed.

(** The bytes are few when the value is small. *)
Lemma encode_bytes_ok m : ∀ n v,
  0 ≤ v < 2 ^ (7 * Z.of_nat m + 6) → (m < n)%nat →
  ∃ bytes r, encode_bytes n v = (bytes, r) ∧ (length bytes ≤ m)%nat ∧ 0 ≤ r < 64 ∧ Forall byte bytes.
Proof.
  induction m as [|m IH]; intros [|n] v Hv Hn; [lia| |lia|];
    destruct (encode_bytes (S n) v) as [bytes r] eqn:He;
    destruct (encode_bytes_cons n v bytes r) as [(Hlt&->&->)|(Hge&bytes'&->&He')]; try done; try lia.
  - exists [], v. split_and!; [done|simpl; lia|apply Hv|done|constructor].
  - exists [], v. split_and!; [done|simpl; lia|apply Hv|done|constructor].
  - destruct (IH n (v / 128)) as (bs&r'&He2&Hlen&Hr&Hb); [|lia|].
    + split; [apply Z.div_pos; lia|]. apply Z.div_lt_upper_bound; [lia|].
      replace (7 * Z.of_nat (S m) + 6) with (7 + (7 * Z.of_nat m + 6)) in Hv by lia. rewrite Z.pow_add_r in Hv by lia.
      change (2 ^ 7) with 128 in Hv. lia.
    + rewrite He' in He2. injection He2 as -> ->. exists (more_byte v :: bs), r'. split_and!; [done|simpl; lia|lia..|].
      constructor; [|done]. unfold more_byte, byte. pose proof (Z.mod_pos_bound v 128). lia.
Qed.

Lemma max_bytes_bounds t : encodable t → 0 < max_bytes t ≤ 10 ∧ digits t + 1 ≤ 7 * max_bytes t.
Proof. intros Ht%encodable_bounds. lia. Qed.

(** The absolute value that is encoded, and the sign bit *)
Definition magnitude (v : Z) : Z := if v <? 0 then - (v + 1) else v.
Definition sign_bit (v : Z) : Z := if v <? 0 then 64 else 0.

Lemma magnitude_range t v : encodable t → in_type t v → 0 ≤ magnitude v ≤ max_value t ∧ is_negative t v = (v <? 0).
Proof.
  unfold in_type, min_value, max_value, is_negative, magnitude. intros Ht%encodable_bounds Hv.
  pose proof (Z.pow_pos_nonneg 2 (digits t)). destruct (is_signed t), (Z.ltb_spec v 0); simpl; split; try done; lia.
Qed.

(** Every value of a type has an encoding of at most [max_bytes]. *)
Lemma int_bytes_ok t v :
  encodable t → in_type t v →
  ∃ bytes r, encode_bytes (Z.to_nat (max_bytes t)) (magnitude v) = (bytes, r) ∧ 0 ≤ r < 64 ∧
    int_bytes t v = Some (bytes ++ [sign_bit v + r]) ∧ (length bytes < Z.to_nat (max_bytes t))%nat ∧
    Forall byte (bytes ++ [sign_bit v + r]).
Proof.
  intros Ht Hv. destruct (magnitude_range t v Ht Hv) as [Hm Hn]. destruct (max_bytes_bounds t Ht) as [Hb Hd].
  destruct (encode_bytes_ok (Z.to_nat (max_bytes t - 1)) (Z.to_nat (max_bytes t)) (magnitude v)) as (bs&r&He&Hl&Hr&Hf).
  - split; [lia|]. eapply Z.le_lt_trans; [apply Hm|]. unfold max_value.
    assert (2 ^ digits t ≤ 2 ^ (7 * Z.of_nat (Z.to_nat (max_bytes t - 1)) + 6)); [apply Z.pow_le_mono_r|]; lia.
  - lia.
  - exists bs, r. split; [done|]. split; [done|]. unfold int_bytes. rewrite Hn.
    change (if v <? 0 then - (v + 1) else v) with (magnitude v).
    assert (is_negative t (magnitude v) = false) as ->.
    { unfold is_negative. destruct (is_signed t); [|done]. apply Z.ltb_ge. lia. }
    cbn [negb]. rewrite He, last_byte_eq by done. split; [done|]. split; [lia|]. apply Forall_app. split; [done|].
    constructor; [|done]. unfold byte, sign_bit. destruct (v <? 0); lia.
Qed.

Lemma int_bytes_Some t v :
  encodable t → in_type t v →
  ∃ bytes, int_bytes t v = Some bytes ∧ (0 < length bytes)%nat ∧ Z.of_nat (length bytes) ≤ max_bytes t ∧ Forall byte bytes.
Proof.
  intros Ht Hv. destruct (int_bytes_ok t v Ht Hv) as (bs&r&_&_&->&Hl&Hb). exists (bs ++ [sign_bit v + r]).
  rewrite length_app. simpl. destruct (max_bytes_bounds t Ht). split_and!; [done|lia|lia|done].
Qed.

(** ** Arguments *)
Definition arg_bytes (a : Arg) : list Z :=
  match a with
  | AInstr i => [instr_value i]
  | AType d => [type_value d]
  | ABool b => [if b : bool then 1 else 0]
  | AInt t v => default [] (int_bytes t v)
  | AFloat v | ADouble v => v
  | AString s => default [] (int_bytes size_t (Z.of_nat (length s))) ++ s
  | AIntegers l => concat ((λ v, default [] (int_bytes int64_t v)) <$> l)
  end.

Definition arg_ok (a : Arg) : Prop :=
  match a with
  | AInt t v => encodable t ∧ in_type t v
  | AFloat v => length v = 4%nat ∧ Forall byte v
  | ADouble v => length v = 8%nat ∧ Forall byte v
  | AString s => in_type size_t (Z.of_nat (length s)) ∧ Forall byte s
  | AIntegers l => Forall (in_type int64_t) l
  | _ => True
  end.

Definition args_bytes (args : list Arg) : list Z := concat (arg_bytes <$> args).

Lemma args_bytes_cons a args : args_bytes (a :: args) = arg_bytes a ++ args_bytes args.
Proof. done. Qed.

(** A list of integers comes last: its chunks are written into memory that is
    reserved while it is written. *)
Fixpoint integers_last (args : list Arg) : Prop :=
  match args with
  | [] => True
  | AIntegers _ :: args => args = []
  | _ :: args => integers_last args
  end.

Section Encoder.
Context {build : Build} {stream : TransactLogStream} {laws : TransactLogStreamLaws}.
Implicit Types (e : TransactLogEncoder) (ptr : Ptr).

Lemma reserve_ok e n : log (reserve e n) = log e ∧ n ≤ free (reserve e n).
Proof.
  unfold reserve. destruct (Z.ltb_spec (free e) n); simpl; [split; [done|apply transact_log_reserve_ok]|done].
Qed.

Lemma advance_ok e ptr :
  Z.of_nat (length ptr) ≤ free e → advance e ptr = Some (mkEncoder (log e ++ ptr) (free e - Z.of_nat (length ptr))).
Proof. intros H. unfold advance. by rewrite (proj2 (Z.leb_le _ _) H), orb_true_r. Qed.

Lemma write_ok e ptr bytes : Z.of_nat (length ptr + length bytes) ≤ free e → write e ptr bytes = Some (ptr ++ bytes).
Proof. intros H. unfold write. by rewrite (proj2 (Z.leb_le _ _) H). Qed.

Lemma encode_int_ok e ptr t v :
  encodable t → in_type t v → Z.of_nat (length ptr) + 10 ≤ free e →
  encode_int e ptr t v = Some (ptr ++ default [] (int_bytes t v)) ∧
  Z.of_nat (length (default [] (int_bytes t v))) ≤ 10.
Proof.
  intros Ht Hv Hfree. destruct (int_bytes_Some t v Ht Hv) as (bs&Hb&_&Hl&_). destruct (max_bytes_bounds t Ht).
  unfold encode_int. rewrite Hb. simpl. rewrite write_ok by lia. split; [done|lia].
Qed.

Lemma encode_ints_ok e l : ∀ ptr,
  Forall (in_type int64_t) l → Z.of_nat (length ptr) + 10 * Z.of_nat (length l) ≤ free e →
  ∃ bs, foldlM (λ ptr v, encode_int e ptr int64_t v) ptr l = Some (ptr ++ bs) ∧ bs = arg_bytes (AIntegers l) ∧
    Z.of_nat (length bs) ≤ 10 * Z.of_nat (length l).
Proof.
  induction l as [|v l IH]; intros ptr Hl Hfree; simpl in *.
  { exists []. by rewrite app_nil_r. }
  apply Forall_cons in Hl as [Hv Hl]. destruct (encode_int_ok e ptr int64_t v) as [-> Hlen]; [by_decision|done|lia|].
  cbn [mbind option_bind]. destruct (IH (ptr ++ default [] (int_bytes int64_t v))) as (bs&->&->&?); [done|rewrite length_app; lia|].
  eexists. rewrite <-app_assoc. split; [done|]. split; [done|]. rewrite length_app. lia.
Qed.

Lemma chunk_pos : (0 < max_numbers_per_chunk)%nat.
Proof. unfold max_numbers_per_chunk. destruct REALM_DEBUG; lia. Qed.

Lemma encode_integers_ok fuel : ∀ e ptr l,
  Forall (in_type int64_t) l → (length l < fuel)%nat →
  Z.of_nat (length ptr) + 10 * Z.of_nat max_numbers_per_chunk ≤ free e →
  ∃ e' ptr', encode_integers fuel e ptr l = Some (e', ptr') ∧ Z.of_nat (length ptr') ≤ free e' ∧
    log e' ++ ptr' = log e ++ ptr ++ arg_bytes (AIntegers l).
Proof.
  pose proof chunk_pos. induction fuel as [|fuel IH]; intros e ptr l Hl Hfuel Hfree; [lia|]. cbn [encode_integers].
  destruct (Nat.ltb_spec max_numbers_per_chunk (length l)).
  - pose proof Hl as Hl'. rewrite <-(take_drop max_numbers_per_chunk l) in Hl'. apply Forall_app in Hl' as [Ht Hd].
    destruct (encode_ints_ok e (take max_numbers_per_chunk l) ptr Ht) as (bs&->&->&Hlen); rewrite length_take_le in * by lia; [lia|].
    cbn [mbind option_bind]. rewrite advance_ok by (rewrite length_app; lia). cbn [mbind option_bind].
    set (e1 := mkEncoder _ _). destruct (reserve_ok e1 (max_enc_bytes_per_num * Z.of_nat max_numbers_per_chunk)) as [Hlog Hroom].
    destruct (IH (reserve e1 (max_enc_bytes_per_num * Z.of_nat max_numbers_per_chunk)) [] (drop max_numbers_per_chunk l))
      as (e'&ptr'&->&Hok&Heq); [done|rewrite length_drop; lia|simpl; apply Hroom|].
    exists e', ptr'. split; [done|]. split; [done|]. rewrite Heq, Hlog. simpl. rewrite <-!app_assoc. do 2 f_equal.
    rewrite <-concat_app, <-fmap_app, take_drop. done.
  - destruct (encode_ints_ok e l ptr Hl) as (bs&->&->&Hlen); [lia|]. cbn [mbind option_bind].
    exists e, (ptr ++ arg_bytes (AIntegers l)). split; [done|]. split; [rewrite length_app; lia|done].
Qed.

(** An argument other than a list of integers *)
Lemma encode_ok e ptr a :
  arg_ok a → match a with AIntegers _ => False | _ => True end →
  Z.of_nat (length ptr) + max_size a ≤ free e →
  encode e ptr a = Some (e, ptr ++ arg_bytes a) ∧ Z.of_nat (length (arg_bytes a)) ≤ max_size a.
Proof.
  intros Ha Hsimple Hfree. destruct a as [i|d|b|t v|v|v|s|l]; simpl in *;
    unfold max_enc_bytes_per_num, max_enc_bytes_per_int, max_enc_bytes_per_double in *; simpl in *; try done.
  1-3: rewrite write_ok by (simpl; lia); done.
  1: { destruct Ha as [Ht Hv]. destruct (encode_int_ok e ptr t v Ht Hv) as [-> ?]; [lia|]. done. }
  1-2: rewrite write_ok by lia; split; [done|lia].
  destruct Ha as [Hs _]. destruct (encode_int_ok e ptr size_t (Z.of_nat (length s))) as [-> ?]; [by_decision|done|lia|].
  cbn [mbind option_bind]. rewrite write_ok by (rewrite length_app; lia). cbn [mbind option_bind].
  rewrite <-app_assoc. split; [done|]. rewrite length_app. lia.
Qed.

Lemma max_size_list_pos args : 0 ≤ max_size_list args.
Proof.
  induction args as [|a args IH]; cbn [max_size_list]; [lia|]. enough (0 ≤ max_size a) by lia.
  destruct a; simpl; try done; change max_enc_bytes_per_num with 10; lia.
Qed.

Lemma encode_list_ok args : ∀ e ptr,
  Forall arg_ok args → integers_last args → Z.of_nat (length ptr) + max_size_list args ≤ free e →
  ∃ e', encode_list e ptr args = Some e' ∧ log e' = log e ++ ptr ++ args_bytes args.
Proof.
  induction args as [|a args IH]; intros e ptr Hok Hlast Hfree; cbn [encode_list max_size_list] in *.
  { eexists. rewrite advance_ok by lia. split; [done|]. cbn. by rewrite app_nil_r. }
  apply Forall_cons in Hok as [Ha Hok].
  assert ((match a with AIntegers _ => False | _ => True end) ∨ ∃ l, a = AIntegers l) as [Hs|[l ->]] by (destruct a; eauto).
  - destruct (encode_ok e ptr a Ha Hs) as [-> Hlen].
    { pose proof (max_size_list_pos args). lia. }
    cbn [mbind option_bind]. destruct (IH e (ptr ++ arg_bytes a)) as (e'&->&Heq); [done| |rewrite length_app; lia|].
    { by destruct a. }
    exists e'. split; [done|]. by rewrite Heq, args_bytes_cons, <-!app_assoc.
  - simpl in Hlast, Hfree, Ha. subst args. cbn [encode].
    destruct (encode_integers_ok (S (length l)) e ptr l) as (e'&ptr'&->&Hfree'&Heq); [done|lia|change max_enc_bytes_per_num with 10 in Hfree; cbn [max_size_list] in Hfree; lia|].
    cbn [mbind option_bind encode_list]. eexists. rewrite advance_ok by done. split; [done|]. simpl.
    rewrite Heq. unfold args_bytes. simpl. by rewrite !app_nil_r.
Qed.

(** Writing an instruction appends its bytes, all inside the memory reserved
    for it. *)
Lemma append_simple_instr_ok e args :
  Forall arg_ok args → integers_last args →
  ∃ e', append_simple_instr e args = Some e' ∧ log e' = log e ++ args_bytes args.
Proof.
  intros Hok Hlast. unfold append_simple_instr. destruct (reserve_ok e (max_size_list args)) as [Hlog Hroom].
  destruct (encode_list_ok args (reserve e (max_size_list args)) []) as (e'&->&Heq); [done..|].
  exists e'. split; [done|]. by rewrite Heq, Hlog.
Qed.
End Encoder.
