(* ===== verification/LogReading.v ===== *)
(** [TransactLogParser] reads back what [TransactLogEncoder] writes, argument by
    argument, wherever the blocks of the input end. *)
From S2P Require Import Prelude ChunkedRangeVector SafeInt LogData LogEncoder LogEncoderTheory LogParser.
Import LogEncoder LogParser.

(** ** Lists *)
Lemma app_prefix {A} (a b l r : list A) :
  a ++ b = l ++ r → (length l ≤ length a)%nat → take (length l) a = l ∧ drop (length l) a ++ b = r.
Proof.
  intros E Hl. split.
  - apply (f_equal (take (length l))) in E. by rewrite take_app_le, take_app_length in E by done.
  - apply (f_equal (drop (length l))) in E. by rewrite drop_app_le, drop_app_length in E by done.
Qed.

(** ** Readers *)
Section Readers.
Context {I : Type} `{NoCopyInputStream I} {remaining : I → list Z} {laws : NoCopyInputStreamLaws I remaining}.
Implicit Types (i : Input I).

(** What is still to be read *)
Definition input_bytes i : list Z := m_input_begin i ++ remaining (m_input i).

(** [p] reads exactly [bytes], and gives [a]. *)
Definition reads {A} (p : Reader I A) (bytes : list Z) (a : A) : Prop :=
  ∀ i rest, input_bytes i = bytes ++ rest → ∃ i', p i = Some (a, i') ∧ input_bytes i' = rest.

Lemma reads_ret {A} (a : A) : reads (mret a) [] a.
Proof. intros i rest Hi. by exists i. Qed.

Lemma reads_bind {A B} (p : Reader I A) (f : A → Reader I B) b1 b2 a b :
  reads p b1 a → reads (f a) b2 b → reads (p ≫= f) (b1 ++ b2) b.
Proof.
  intros Hp Hf i rest Hi. rewrite <-app_assoc in Hi. destruct (Hp i _ Hi) as (i1&Hp1&Hi1).
  destruct (Hf i1 rest Hi1) as (i2&Hf2&Hi2). exists i2. split; [|done].
  unfold mbind, reader_bind. by rewrite Hp1.
Qed.

(** A reader that reads all *)
Lemma reads_all {A} (p : Reader I A) bytes a : reads p (bytes ++ []) a → reads p bytes a.
Proof. by rewrite app_nil_r. Qed.

Lemma reads_map {A B} (p : Reader I A) (f : A → B) bytes a :
  reads p bytes a → reads (x ← p; mret (f x)) bytes (f a).
Proof. intros Hp. rewrite <-(app_nil_r bytes). eapply reads_bind; [done|]. apply reads_ret. Qed.

Lemma reads_check {A} (b : bool) (f : () → Reader I A) bytes a :
  b = true → reads (f ()) bytes a → reads (check b ≫= f) bytes a.
Proof. intros -> Hf. eapply (reads_bind _ _ []); [apply (reads_ret ())|done]. Qed.

Lemma reads_lift {A B} (o : option A) (f : A → Reader I B) bytes a b :
  o = Some a → reads (f a) bytes b → reads (lift o ≫= f) bytes b.
Proof. intros -> Hf. eapply (reads_bind _ _ []); [|done]. intros i rest Hi. by exists i. Qed.

(** ** Blocks *)
Lemma next_input_buffer_Some i i' :
  next_input_buffer i = Some i' → m_input_begin i = [] → m_input_begin i' ≠ [] ∧ input_bytes i' = input_bytes i.
Proof.
  unfold next_input_buffer, input_bytes. intros Hn ->. destruct (next_block (m_input i)) as [[block rest]|] eqn:Hb; [|done].
  cbn in Hn. injection Hn as <-. apply (next_block_Some (remaining := remaining)) in Hb as [? ->]. done.
Qed.

Lemma next_input_buffer_None i : next_input_buffer i = None → input_bytes i = m_input_begin i.
Proof.
  unfold next_input_buffer, input_bytes. destruct (next_block (m_input i)) as [[block rest]|] eqn:Hb; [done|]. intros _.
  apply (next_block_None (remaining := remaining)) in Hb. by rewrite Hb, app_nil_r.
Qed.

Lemma read_char_reads c : reads read_char [c] c.
Proof.
  intros i rest Hi. unfold read_char. case_bool_decide as Hb.
  - destruct (next_input_buffer i) as [i1|] eqn:Hn.
    + apply next_input_buffer_Some in Hn as [Hne Heq]; [|done]. cbn [mbind option_bind]. rewrite <-Heq in Hi.
      unfold input_bytes in Hi. destruct (m_input_begin i1) as [|c' l]; [done|]. injection Hi as -> Hi.
      eexists. split; [done|]. done.
    + apply next_input_buffer_None in Hn. by rewrite Hn, Hb in Hi.
  - cbn [mbind option_bind]. unfold input_bytes in Hi. destruct (m_input_begin i) as [|c' l]; [done|]. injection Hi as -> Hi.
    eexists. split; [done|]. done.
Qed.

Lemma read_blocks_reads bytes : ∀ fuel i rest,
  (length bytes + (if bool_decide (m_input_begin i = []) then 1 else 0) < fuel)%nat →
  input_bytes i = bytes ++ rest → ∃ i', read_blocks fuel (length bytes) i = Some (bytes, i') ∧ input_bytes i' = rest.
Proof.
  intros fuel. revert bytes. induction fuel as [|fuel IH]; intros bytes i rest Hfuel Hi; [lia|]. cbn [read_blocks].
  destruct (Nat.leb_spec (length bytes) (length (m_input_begin i))) as [Hle|Hgt].
  - destruct (app_prefix _ _ _ _ Hi) as [-> Hd]; [lia|]. eexists. split; [done|]. exact Hd.
  - destruct (app_prefix _ _ _ _ (eq_sym Hi)) as [Ht Hr]; [lia|].
    assert (∃ b2, bytes = m_input_begin i ++ b2 ∧ remaining (m_input i) = b2 ++ rest) as (b2&->&Hr').
    { exists (drop (length (m_input_begin i)) bytes). split; [|done]. rewrite <-Ht at 1. by rewrite take_drop. }
    clear Ht Hr. rename Hr' into Hr.
    rewrite length_app in *. unfold next_input_buffer. destruct (next_block (m_input i)) as [[block more]|] eqn:Hb.
    + apply (next_block_Some (remaining := remaining)) in Hb as [Hne Heq]. cbn [mbind option_bind].
      replace (length (m_input_begin i) + length b2 - length (m_input_begin i))%nat with (length b2) by lia.
      destruct (IH b2 (mkInput more block) rest) as (i'&->&Hi').
      * simpl. rewrite bool_decide_eq_false_2 by done. case_bool_decide as E; [rewrite E in *; simpl in *; lia|].
        destruct (m_input_begin i); [done|]. simpl in *. lia.
      * unfold input_bytes. simpl. by rewrite <-Heq.
      * cbn [mbind option_bind]. by exists i'.
    + apply (next_block_None (remaining := remaining)) in Hb. rewrite Hb in Hr. destruct b2; [|done]. simpl in Hgt. lia.
Qed.

Lemma read_bytes_reads bytes : reads (read_bytes (length bytes)) bytes bytes.
Proof.
  intros i rest Hi. apply read_blocks_reads; [|done]. case_bool_decide; lia.
Qed.

Lemma read_buffer_reads bytes : reads (read_buffer (Z.of_nat (length bytes))) bytes bytes.
Proof.
  intros i rest Hi. unfold read_buffer. rewrite Nat2Z.id. destruct (Z.leb_spec (Z.of_nat (length bytes)) (Z.of_nat (length (m_input_begin i)))).
  - destruct (app_prefix _ _ _ _ Hi) as [-> Hd]; [lia|]. eexists. split; [done|]. exact Hd.
  - by apply read_bytes_reads.
Qed.

(** ** Integers *)
Lemma more_byte_bits v :
  (255 <? more_byte v) = false ∧ (Z.land (more_byte v) 128 =? 0) = false ∧ Z.land (more_byte v) 127 = v mod 128.
Proof.
  unfold more_byte. pose proof (Z.mod_pos_bound v 128 ltac:(lia)) as Hv. split; [apply Z.ltb_ge; lia|].
  assert (Z.lor (v mod 128) (Z.shiftl 1 7) = 128 + v mod 128) as <- by (rewrite lor_disjoint by lia; lia).
  split.
  - apply Z.eqb_neq. intros E. apply (f_equal (λ z, Z.testbit z 7)) in E.
    rewrite Z.land_spec, Z.lor_spec in E. change (Z.testbit (Z.shiftl 1 7) 7) with true in E.
    change (Z.testbit 128 7) with true in E. rewrite orb_true_r in E. done.
  - change 127 with (Z.ones 7). rewrite Z.land_ones by lia. change (Z.shiftl 1 7) with (Z.shiftl 1 7).
    rewrite lor_disjoint by lia. change (2 ^ 7) with 128. rewrite Z.mod_add by lia. apply Z.mod_small. lia.
Qed.

Lemma last_byte_bits r s :
  0 ≤ r < 64 → s = 0 ∨ s = 64 →
  (255 <? s + r) = false ∧ (Z.land (s + r) 128 =? 0) = true ∧ Z.land (s + r) 63 = r ∧ Z.land (s + r) 64 = s.
Proof.
  intros Hr Hs.
  assert (Forall (λ r, Forall (λ s, (255 <? s + r) = false ∧ (Z.land (s + r) 128 =? 0) = true ∧
    Z.land (s + r) 63 = r ∧ Z.land (s + r) 64 = s) [0; 64]) (seqZ 0 64)) as Hall by by_decision.
  rewrite Forall_forall in Hall. specialize (Hall r ltac:(apply elem_of_seqZ; lia)).
  rewrite Forall_forall in Hall. apply Hall. destruct Hs as [-> | ->]; repeat constructor.
Qed.

Lemma max_bytes_same t : LogParser.max_bytes t = LogEncoder.max_bytes t.
Proof. unfold LogParser.max_bytes, LogEncoder.max_bytes, bits_per_byte. f_equal. lia. Qed.

(** The shift of the last byte: it is defined, and fails if the type cannot hold
    the value. *)
Lemma shift_last t p j :
  encodable t → 0 ≤ p < 64 → 0 ≤ j < LogParser.max_bytes t →
  no_overflow (int_shift_left_with_overflow_detect t p (j * 7)) =
    if decide (p * 2 ^ (j * 7) ≤ max_value t) then Some (Z.shiftl p (j * 7)) else None.
Proof.
  intros Ht Hp Hj. rewrite max_bytes_same in Hj. destruct (encodable_bounds t Ht) as (?&?&?&?). destruct Ht as [Ht _].
  pose proof (Z.pow_le_mono_r 2 6 (digits t)). pose proof (Z.pow_pos_nonneg 2 (j * 7)).
  rewrite shift_left_exact by (done || lia || (apply in_type_range; destruct (is_signed t); lia) || (unfold width in *; lia)).
  unfold checked, in_type, min_value, max_value. rewrite Z.shiftl_mul_pow2 by lia.
  repeat case_decide; try done; destruct (is_signed t); nia.
Qed.

Lemma read_int_loop_reads t s : encodable t → s = 0 ∨ s = 64 → ∀ n v bytes r j acc part,
  0 ≤ v → encode_bytes n v = (bytes, r) → (length bytes < n)%nat → 0 ≤ r < 64 →
  0 ≤ j → j + Z.of_nat n = LogParser.max_bytes t → 0 ≤ acc < 2 ^ (j * 7) → acc + v * 2 ^ (j * 7) ≤ max_value t →
  reads (read_int_loop t n j acc part) (bytes ++ [s + r]) (acc + v * 2 ^ (j * 7), s + r).
Proof.
  intros Ht Hs. induction n as [|n IH]; intros v bytes r j acc part Hv He Hlen Hr Hj Hn Hacc Hmax; [simpl in Hlen; lia|].
  cbn [read_int_loop]. assert (0 < 2 ^ (j * 7)) as Hp by (apply Z.pow_pos_nonneg; lia).
  destruct (encode_bytes_cons n v bytes r Hv He) as [(Hlt&->&->)|(Hge&bytes'&->&He')].
  - destruct (last_byte_bits v s) as (H1&H2&H3&_); [done..|]. change ([] ++ [s + v]) with ([s + v] ++ @nil Z).
    eapply reads_bind; [apply read_char_reads|]. cbv beta. rewrite H1, H2, H3.
    eapply reads_lift; [|rewrite <-lor_disjoint by lia; apply reads_ret].
    by rewrite shift_last, decide_True by (done || lia).
  - destruct (more_byte_bits v) as (H1&H2&H3). change ((more_byte v :: bytes') ++ [s + r]) with ([more_byte v] ++ (bytes' ++ [s + r])).
    eapply reads_bind; [apply read_char_reads|]. cbv beta. rewrite H1, H2, H3. simpl in Hlen.
    rewrite (proj2 (Z.eqb_neq j (LogParser.max_bytes t - 1))) by lia. rewrite lor_disjoint by lia.
    assert (2 ^ ((j + 1) * 7) = 128 * 2 ^ (j * 7)) as E.
    { replace ((j + 1) * 7) with (7 + j * 7) by lia. rewrite Z.pow_add_r by lia. done. }
    pose proof (Z.div_mod v 128 ltac:(lia)) as Hdm. pose proof (Z.mod_pos_bound v 128 ltac:(lia)) as Hmod.
    replace (acc + v * 2 ^ (j * 7)) with ((acc + v mod 128 * 2 ^ (j * 7)) + v / 128 * 2 ^ ((j + 1) * 7)) by (rewrite E; nia).
    apply IH; try done; try lia.
    rewrite E. nia.
Qed.

(** An integer of a type is read back. *)
Lemma read_int_reads t v :
  encodable t → in_type t v → reads (read_int t) (default [] (int_bytes t v)) v.
Proof.
  intros Ht Hv. destruct (int_bytes_ok t v Ht Hv) as (bytes&r&He&Hr&->&Hlen&_).
  destruct (magnitude_range t v Ht Hv) as [Hm Hneg]. destruct (max_bytes_bounds t Ht) as [Hb _]. simpl.
  rewrite <-(app_nil_r (bytes ++ _)). unfold read_int.
  assert (sign_bit v = 0 ∨ sign_bit v = 64) as Hs by (unfold sign_bit; destruct (v <? 0); auto).
  eapply reads_bind.
  { apply (read_int_loop_reads t (sign_bit v) Ht Hs (Z.to_nat (LogParser.max_bytes t)) (magnitude v));
      rewrite ?max_bytes_same; done || lia. }
  cbv beta iota. destruct (last_byte_bits r (sign_bit v) Hr Hs) as (_&_&_&->).
  replace (0 + magnitude v * 2 ^ (0 * 7)) with (magnitude v) by (simpl; lia).
  unfold sign_bit, magnitude in *. destruct (Z.ltb_spec v 0) as [Hlt|Hge].
  - change (negb (64 =? 0)) with true. cbn [negb].
    assert (is_signed t = true) as Hsig by (unfold is_negative in Hneg; by destruct (is_signed t)).
    assert (no_overflow (int_subtract_with_overflow_detect t int_t (negate t (- (v + 1))) 1) = Some v) as E.
    { destruct Ht as [Ht _]. unfold negate. rewrite Hsig. rewrite subtract_exact; [|done|by_decision| |by_decision].
      - rewrite checked_ok; [simpl; f_equal; lia|]. replace (- - (v + 1) - 1) with v by lia. done.
      - unfold in_type, min_value, max_value in *. rewrite Hsig in *. lia. }
    intros i rest Hi. exists i. unfold lift. rewrite E. done.
  - change (negb (0 =? 0)) with false. cbv iota. apply reads_ret.
Qed.

Lemma read_size_reads v : in_type size_t v → reads read_size (arg_bytes (ASize v)) v.
Proof. apply read_int_reads. by_decision. Qed.

Lemma read_int64_reads v : in_type int64_t v → reads (read_int int64_t) (arg_bytes (AInt int64_t v)) v.
Proof. apply read_int_reads. by_decision. Qed.

Lemma read_int32_reads v : in_type int32_t v → reads (read_int int32_t) (arg_bytes (AInt int32_t v)) v.
Proof. apply read_int_reads. by_decision. Qed.

(** Characters below 64 are their own encoding. *)
Lemma read_small_reads t c : encodable t → in_type t c → 0 ≤ c < 64 → reads (read_int t) [c] c.
Proof.
  intros Ht Hc Hs. pose proof (read_int_reads t c Ht Hc) as Hread. destruct (int_bytes_ok t c Ht Hc) as (bytes&r&He&Hr&E&_).
  destruct (max_bytes_bounds t Ht). destruct (Z.to_nat (LogEncoder.max_bytes t)) as [|n] eqn:En; [lia|].
  assert (magnitude c = c ∧ sign_bit c = 0) as [Em Es].
  { unfold magnitude, sign_bit. rewrite (proj2 (Z.ltb_ge c 0)) by lia. done. }
  rewrite Em in He. apply encode_bytes_cons in He as [(_&->&->)|(?&_)]; [|lia|lia].
  rewrite E, Es in Hread. exact Hread.
Qed.

Lemma read_type_reads d : reads (read_int int_t) (arg_bytes (AType d)) (type_value d).
Proof. apply read_small_reads; destruct d; simpl; by_decision || lia. Qed.

Lemma read_bool_reads b : reads read_bool (arg_bytes (ABool b)) b.
Proof.
  unfold read_bool. replace b with (negb ((if b then 1 else 0) =? 0)) at 2 by by destruct b.
  apply (reads_map (read_int char_t) (λ c, negb (c =? 0)) (arg_bytes (ABool b)) (if b then 1 else 0)).
  apply read_small_reads; destruct b; simpl; by_decision || lia.
Qed.

Lemma read_float_reads v : arg_ok (AFloat v) → reads read_float (arg_bytes (AFloat v)) v.
Proof. intros [Hl _]. unfold read_float. change 4%nat with 4%nat. rewrite <-Hl. apply read_bytes_reads. Qed.

Lemma read_double_reads v : arg_ok (ADouble v) → reads read_double (arg_bytes (ADouble v)) v.
Proof. intros [Hl _]. unfold read_double. rewrite <-Hl. apply read_bytes_reads. Qed.

Lemma read_binary_reads s : arg_ok (AString s) → reads read_binary (arg_bytes (AString s)) s.
Proof.
  intros [Hl _]. unfold read_binary. simpl. eapply reads_bind; [by apply read_size_reads|]. apply read_buffer_reads.
Qed.

Lemma read_string_reads s :
  arg_ok (AString s) → Z.of_nat (length s) ≤ max_string_size → reads read_string (arg_bytes (AString s)) s.
Proof.
  intros [Hl _] Hmax. unfold read_string. simpl. eapply reads_bind; [by apply read_size_reads|]. cbv beta.
  rewrite (proj2 (Z.ltb_ge _ _)) by done. apply read_buffer_reads.
Qed.
End Readers.

(** ** Values outside the type that is read *)
Section Overflow.
Context {I : Type} `{NoCopyInputStream I} {remaining : I → list Z} {laws : NoCopyInputStreamLaws I remaining}.
Implicit Types (i : Input I).
#[local] Notation input_bytes := (input_bytes (remaining := remaining)).

Lemma encode_bytes_inv m v bytes r :
  0 ≤ v → encode_bytes m v = (bytes, r) →
  bytes = [] ∧ r = v ∨ ∃ bytes' m', bytes = more_byte v :: bytes' ∧ encode_bytes m' (v / 128) = (bytes', r).
Proof.
  intros Hv He. destruct m as [|m]; [injection He as <- <-; by left|].
  destruct (encode_bytes_cons m v bytes r Hv He) as [(_&->&->)|(_&b&->&?)]; [by left|right; by exists b, m].
Qed.

Lemma overflow_bound P Q acc v : 0 < P → 0 ≤ acc < P → P * Q - 1 < acc + v * P → P * Q - 1 < P * v.
Proof.
  intros HP Hacc Hmax. assert (Q ≤ v); [|nia]. destruct (decide (Q ≤ v)) as [|Hlt]; [done|]. exfalso.
  assert (v * P ≤ (Q - 1) * P) by (apply Z.mul_le_mono_nonneg_r; lia). lia.
Qed.

(** The last byte, and one before it *)
Lemma read_last_overflow t s n v j acc part i rest :
  encodable t → s = 0 ∨ s = 64 → 0 ≤ v < 64 → 0 ≤ j < LogParser.max_bytes t → 0 ≤ acc < 2 ^ (j * 7) →
  max_value t < acc + v * 2 ^ (j * 7) → input_bytes i = s + v :: rest → read_int_loop t (S n) j acc part i = None.
Proof.
  intros Ht Hs Hv Hj Hacc Hmax Hi. destruct (last_byte_bits v s) as (H1&H2&H3&_); [done..|].
  cbn [read_int_loop]. unfold mbind, reader_bind.
  destruct (read_char_reads (remaining := remaining) (s + v) i rest) as (i1&->&Hi1); [done|]. rewrite H1, H2, H3.
  assert (¬ v * 2 ^ (j * 7) ≤ max_value t) as Hover.
  { unfold max_value in *. pose proof Hj as Hj'. rewrite max_bytes_same in Hj'. destruct (encodable_bounds t Ht) as (_&_&?&_).
    pose proof (Z.pow_pos_nonneg 2 (j * 7)).
    assert (2 ^ digits t = 2 ^ (j * 7) * 2 ^ (digits t - j * 7)) as E by (rewrite <-Z.pow_add_r by lia; f_equal; lia).
    rewrite E in *. pose proof (overflow_bound (2 ^ (j * 7)) (2 ^ (digits t - j * 7)) acc v). lia. }
  unfold lift. by rewrite shift_last, decide_False by done.
Qed.

Lemma read_more t n v j acc part i rest :
  0 ≤ j → 0 ≤ acc < 2 ^ (j * 7) → input_bytes i = more_byte v :: rest →
  ∃ i1, input_bytes i1 = rest ∧ read_int_loop t (S n) j acc part i =
    if j =? LogParser.max_bytes t - 1 then None
    else read_int_loop t n (j + 1) (acc + v mod 128 * 2 ^ (j * 7)) (more_byte v) i1.
Proof.
  intros Hj Hacc Hi. destruct (more_byte_bits v) as (H1&H2&H3). cbn [read_int_loop]. unfold mbind, reader_bind.
  destruct (read_char_reads (remaining := remaining) (more_byte v) i rest) as (i1&->&Hi1); [done|]. rewrite H1, H2, H3.
  exists i1. split; [done|]. destruct (j =? _); [done|]. by rewrite lor_disjoint by lia.
Qed.

Lemma read_int_loop_overflow t s : encodable t → s = 0 ∨ s = 64 →
  ∀ n m v bytes r j acc part i rest,
  0 ≤ v → encode_bytes m v = (bytes, r) → 0 ≤ r < 64 → 0 ≤ j → j + Z.of_nat (S n) = LogParser.max_bytes t →
  0 ≤ acc < 2 ^ (j * 7) → max_value t < acc + v * 2 ^ (j * 7) →
  input_bytes i = (bytes ++ [s + r]) ++ rest → read_int_loop t (S n) j acc part i = None.
Proof.
  intros Ht Hs. induction n as [|n IH]; intros m v bytes r j acc part i rest Hv He Hr Hj Hn Hacc Hmax Hi;
    destruct (encode_bytes_inv m v bytes r Hv He) as [[-> ->]|(bytes'&m'&->&He')].
  - by apply (read_last_overflow t s 0 v j acc part i rest); try lia.
  - destruct (read_more t 0 v j acc part i ((bytes' ++ [s + r]) ++ rest)) as (i1&_&->); [done..|].
    by rewrite (proj2 (Z.eqb_eq j (LogParser.max_bytes t - 1))) by lia.
  - by apply (read_last_overflow t s (S n) v j acc part i rest); try lia.
  - destruct (read_more t (S n) v j acc part i ((bytes' ++ [s + r]) ++ rest)) as (i1&Hi1&->); [done..|].
    rewrite (proj2 (Z.eqb_neq j (LogParser.max_bytes t - 1))) by lia.
    assert (2 ^ ((j + 1) * 7) = 128 * 2 ^ (j * 7)) as E.
    { replace ((j + 1) * 7) with (7 + j * 7) by lia. rewrite Z.pow_add_r by lia. done. }
    assert (0 < 2 ^ (j * 7)) as Hp by (apply Z.pow_pos_nonneg; lia).
    pose proof (Z.div_mod v 128 ltac:(lia)) as Hdm. pose proof (Z.mod_pos_bound v 128 ltac:(lia)) as Hmod.
    eapply (IH m' (v / 128) bytes' r); [apply Z.div_pos; lia|done|done|lia|lia|rewrite E; nia|rewrite E; nia|exact Hi1].
Qed.

(** A value that a signed type cannot hold is refused. *)
Lemma read_int_refuses t t' v i rest :
  is_signed t = true → encodable t → encodable t' → in_type t' v → ¬ in_type t v →
  input_bytes i = default [] (int_bytes t' v) ++ rest → read_int t i = None.
Proof.
  intros Hsig Ht Ht' Hv Hnot Hi. destruct (int_bytes_ok t' v Ht' Hv) as (bytes&r&He&Hr&E&_). rewrite E in Hi. simpl in Hi.
  destruct (magnitude_range t' v Ht' Hv) as [[Hm _] _]. destruct (max_bytes_bounds t Ht) as [Hb _]. rewrite <-max_bytes_same in Hb.
  assert (sign_bit v = 0 ∨ sign_bit v = 64) as Hs by (unfold sign_bit; destruct (v <? 0); auto).
  unfold read_int, mbind, reader_bind. destruct (Z.to_nat (LogParser.max_bytes t)) as [|n] eqn:En; [lia|].
  erewrite (read_int_loop_overflow t (sign_bit v) Ht Hs n _ (magnitude v) bytes r 0 0 0 i rest); [done|done|exact He|done|lia|lia|simpl; lia| |done].
  unfold in_type, min_value, max_value, magnitude in *. rewrite Hsig in Hnot. change (2 ^ (0 * 7)) with 1.
  destruct (Z.ltb_spec v 0); lia.
Qed.

(** A negative value read as a [size_t] *)
Lemma read_size_negative v i rest :
  in_type int64_t v → v < 0 → input_bytes i = default [] (int_bytes int64_t v) ++ rest →
  ∃ i', (if v =? -1 then read_size i = None else read_size i = Some (v + 2 ^ 64, i')) ∧ input_bytes i' = rest.
Proof.
  intros Hv Hneg Hi. destruct (int_bytes_ok int64_t v) as (bytes&r&He&Hr&E&Hlen&_); [by_decision|done|].
  rewrite E in Hi. simpl in Hi. destruct (magnitude_range int64_t v) as [Hm _]; [by_decision|done|].
  assert (sign_bit v = 64) as Es by (unfold sign_bit; by rewrite (proj2 (Z.ltb_lt _ _))). rewrite Es in Hi.
  assert (magnitude v = - (v + 1)) as Em by (unfold magnitude; by rewrite (proj2 (Z.ltb_lt _ _))). rewrite Em in *.
  change (max_value int64_t) with (2 ^ 63 - 1) in Hm.
  destruct (read_int_loop_reads (remaining := remaining) size_t 64 ltac:(by_decision) ltac:(by right) 10 (- (v + 1)) bytes r 0 0 0) with (i := i) (rest := rest)
    as (i'&Hr'&Hi'); try done; try lia; [change (max_value size_t) with (2 ^ 64 - 1); simpl; lia|].
  exists i'. split; [|done]. unfold read_size, read_int, mbind, reader_bind. change (Z.to_nat (LogParser.max_bytes size_t)) with 10%nat.
  rewrite Hr'. destruct (last_byte_bits r 64 Hr ltac:(by right)) as (_&_&_&->). change (negb (64 =? 0)) with true. cbv iota.
  unfold lift, negate. change (is_signed size_t) with false. cbv iota.
  change (digits size_t) with 64. replace (0 + - (v + 1) * 2 ^ (0 * 7)) with (- (v + 1)) by (simpl; lia).
  rewrite subtract_exact; [|by_decision|by_decision| |by_decision].
  2: { pose proof (Z.mod_pos_bound (- - (v + 1)) (2 ^ 64)). apply in_type_range. change (is_signed size_t) with false. simpl digits. lia. }
  destruct (Z.eqb_spec v (-1)) as [->|Hne]; [by vm_compute|].
  assert ((- - (v + 1)) mod 2 ^ 64 = v + 1 + 2 ^ 64) as ->.
  { rewrite Z.opp_involutive. symmetry. apply (Z.mod_unique _ _ (-1)); lia. }
  rewrite checked_ok by (apply in_type_range; change (is_signed size_t) with false; simpl digits; lia).
  simpl. do 2 f_equal. lia.
Qed.
End Overflow.
