(* ===== verification/LogRoundtrip.v ===== *)
(** Whole logs: the calls of an encoder, written as bytes and parsed, are the
    calls of the handler. *)
From S2P Require Import Prelude ChunkedRangeVector SafeInt LogData LogEncoder LogEncoderTheory LogParser LogReading.
Import LogEncoder(set_null_sentinel, any_variant, plain_variant, encode_bytes, int_bytes, append_simple_instr) LogParser.

(** ** Calls that can be written

    Their arguments have their types, strings are not too long for the parser,
    and the assertions of the encoder hold. *)
Definition string_ok (s : list Z) : Prop := Forall byte s ∧ Z.of_nat (length s) ≤ max_string_size.

Definition mixed_ok (m : Mixed) : Prop :=
  match m with
  | MInt v | MOldDateTime v => in_type int64_t v
  | MBool _ | MTable => True
  | MFloat v => arg_ok (AFloat v)
  | MDouble v => arg_ok (ADouble v)
  | MString v => string_ok v
  | MBinary v => arg_ok (AString v)
  | MTimestamp s n => in_type int64_t s ∧ in_type int32_t n
  end.

Definition value_ok (v : Value) (variant : InstrCode) : Prop :=
  match v with
  | VInt v => any_variant variant = true ∧ in_type int64_t v
  | VString v => any_variant variant = true ∧ match v with Some s => string_ok s | None => True end
  | VNull => any_variant variant = true
  | VBool _ | VTable => plain_variant variant = true
  | VFloat v => plain_variant variant = true ∧ arg_ok (AFloat v)
  | VDouble v => plain_variant variant = true ∧ arg_ok (ADouble v)
  | VBinary v => plain_variant variant = true ∧ match v with Some s => arg_ok (AString s) | None => True end
  | VOldDateTime v => plain_variant variant = true ∧ in_type int64_t v
  | VTimestamp s n => plain_variant variant = true ∧ in_type int64_t s ∧ in_type int32_t n
  | VMixed m => plain_variant variant = true ∧ mixed_ok m
  | VLink row target => plain_variant variant = true ∧ in_type size_t row ∧ in_type size_t target
  end.

Definition sizes (l : list Z) : Prop := Forall (in_type size_t) l.

Definition writable (c : Call) : Prop :=
  match c with
  | select_table ndx levels path =>
      sizes [ndx] ∧ 0 ≤ levels ≤ m_max_levels ∧ length path = Z.to_nat (2 * levels) ∧ sizes path
  | select_descriptor levels path => 0 ≤ levels ≤ m_max_levels ∧ length path = Z.to_nat levels ∧ sizes path
  | select_link_list a b d => sizes [a; b; d]
  | insert_group_level_table a b s => sizes [a; b] ∧ string_ok s
  | rename_group_level_table a s | rename_column a s => sizes [a] ∧ string_ok s
  | erase_group_level_table a b | swap_rows a b | move_row a b | merge_rows a b | link_list_swap a b
  | link_list_erase a b | link_list_nullify a b => sizes [a; b]
  | link_list_move a b => sizes [a; b] ∧ a ≠ b
  | insert_empty_rows a b d _ | erase_rows a b d _ => sizes [a; b; d]
  | add_row_with_key a b d key => sizes [a; b; d] ∧ in_type int64_t key
  | clear_table a | erase_column a | add_search_index a | remove_search_index a | set_link_type a _
  | link_list_clear a => sizes [a]
  | set_value col row v variant prior => sizes [col; row; prior] ∧ value_ok v variant
  | add_int col row v => sizes [col; row] ∧ in_type int64_t v
  | nullify_link a b d | erase_link_column a b d | link_list_set a b d | link_list_insert a b d => sizes [a; b; d]
  | insert_substring a b d s => sizes [a; b; d] ∧ string_ok s
  | erase_substring a b d e => sizes [a; b; d; e]
  | optimize_table => True
  | insert_link_column a type s b d => sizes [a; b; d] ∧ string_ok s ∧ is_link_type type = true
  | insert_column a type s nullable =>
      sizes [a] ∧ string_ok s ∧ is_link_type type = false ∧ (nullable = true → type ≠ type_Mixed)
  | link_list_set_all values =>
      Forall (λ v, in_type int64_t v ∧ 0 ≤ v) values ∧ in_type size_t (Z.of_nat (length values))
  end.

(** ** What the handler is called with

    The number of rows is in the log of unique values only.  A null string or
    binary is a null; a double is always a plain assignment; all elements of a
    list are assigned one by one. *)
Definition delivered_value (v : Value) : Value :=
  match v with VString None | VBinary None => VNull | v => v end.

Definition delivered_variant (v : Value) (variant : InstrCode) : InstrCode :=
  match v with VDouble _ => instr_Set | _ => variant end.

Definition delivered (c : Call) : list Call :=
  match c with
  | set_value col row v variant prior =>
      [set_value col row (delivered_value v) (delivered_variant v variant)
         (if LogParser.is_unique variant then prior else 0)]
  | link_list_set_all values => imap (λ j v, link_list_set (Z.of_nat j) v (Z.of_nat (length values))) values
  | c => [c]
  end.

(** The calls that were written, as the handler has methods for them: a null string
    or binary is a null, all elements of a list are assigned one by one, and the
    number of rows goes with unique values only *)
Definition meant (c : Call) : list Call :=
  match c with
  | set_value col row v variant prior =>
      [set_value col row (delivered_value v) variant (if LogParser.is_unique variant then prior else 0)]
  | link_list_set_all values => imap (λ j v, link_list_set (Z.of_nat j) v (Z.of_nat (length values))) values
  | c => [c]
  end.

(** Not the default of a double, which is read as an assignment *)
Definition keeps_variant (c : Call) : Prop :=
  match c with set_value _ _ (VDouble _) variant _ => variant = instr_Set | _ => True end.

Lemma delivered_meant cs : Forall keeps_variant cs → cs ≫= delivered = cs ≫= meant.
Proof.
  induction 1 as [|c cs Hc _ IH]; [done|]. cbn [mbind list_bind]. rewrite IH. f_equal. destruct c; try done.
  destruct value; try done. simpl in *. by subst.
Qed.

(** ** Selections, which the core encodes: the arguments in the order the parser
    reads them *)
Definition select_args (c : Call) : list Arg :=
  match c with
  | select_table ndx levels path => AInstr instr_SelectTable :: ASize levels :: ASize ndx :: (ASize <$> path)
  | select_descriptor levels path => AInstr instr_SelectDescriptor :: ASize levels :: (ASize <$> path)
  | select_link_list col row target => [AInstr instr_SelectLinkList; ASize col; ASize row; ASize target]
  | _ => []
  end.

Class CoreEncoderLaws `{CoreEncoder} :=
  encode_select_ok e c : writable c → select_args c ≠ [] →
    ∃ e', encode_select e c = Some e' ∧ log e' = log e ++ args_bytes (select_args c).

(** ** The same bytes for two types *)
Lemma encode_bytes_more n : ∀ m v bytes r,
  0 ≤ v → encode_bytes n v = (bytes, r) → r < 64 → (n ≤ m)%nat → encode_bytes m v = (bytes, r).
Proof.
  assert (∀ m v, 0 ≤ v < 64 → encode_bytes m v = ([], v)) as Hsmall.
  { intros [|m] v Hv; [done|]. destruct (encode_bytes (S m) v) as [bs r] eqn:He.
    apply encode_bytes_cons in He as [(_&->&->)|(?&_)]; [done|lia|lia]. }
  induction n as [|n IH]; intros [|m] v bytes r Hv He Hr Hnm; try lia.
  - by injection He as <- <-.
  - injection He as <- <-. apply Hsmall. lia.
  - destruct (encode_bytes_cons n v bytes r Hv He) as [(?&->&->)|(Hge&bs&->&He')]; [by apply Hsmall|].
    assert (encode_bytes m (v / 128) = (bs, r)) as Hm by (apply IH; [apply Z.div_pos; lia|done|done|lia]).
    destruct (encode_bytes (S m) v) as [bs2 r2] eqn:He2.
    destruct (encode_bytes_cons m v bs2 r2 Hv He2) as [(?&_)|(_&bs3&->&He3)]; [lia|]. congruence.
Qed.

Lemma int_bytes_same t t' v :
  encodable t → encodable t' → in_type t v → in_type t' v → int_bytes t v = int_bytes t' v.
Proof.
  intros Ht Ht' Hv Hv'. destruct (int_bytes_ok t v Ht Hv) as (bs&r&He&Hr&->&_).
  destruct (int_bytes_ok t' v Ht' Hv') as (bs'&r'&He'&Hr'&->&_).
  destruct (magnitude_range t v Ht Hv) as [[? _] _].
  assert (encode_bytes (Nat.max (Z.to_nat (LogEncoder.max_bytes t)) (Z.to_nat (LogEncoder.max_bytes t'))) (magnitude v) = (bs, r)) as H1
    by (eapply encode_bytes_more; [done|done|lia|lia]).
  assert (encode_bytes (Nat.max (Z.to_nat (LogEncoder.max_bytes t)) (Z.to_nat (LogEncoder.max_bytes t'))) (magnitude v) = (bs', r')) as H2
    by (eapply encode_bytes_more; [done|done|lia|lia]).
  congruence.
Qed.

Section Reading.
Context {I : Type} `{NoCopyInputStream I} {remaining : I → list Z} {laws : NoCopyInputStreamLaws I remaining}.
#[local] Notation reads := (reads (remaining := remaining)).

Lemma reads_arg {A B} (p : Reader I A) (f : A → Reader I B) a args x b :
  reads p (arg_bytes a) x → reads (f x) (args_bytes args) b → reads (p ≫= f) (args_bytes (a :: args)) b.
Proof. rewrite args_bytes_cons. apply reads_bind. Qed.

Lemma reads_nil {A} (a : A) : reads (mret a) (args_bytes []) a.
Proof. apply reads_ret. Qed.

Lemma read_int_as t t' v :
  encodable t → encodable t' → in_type t v → in_type t' v → reads (read_int t) (arg_bytes (AInt t' v)) v.
Proof. intros. simpl. rewrite (int_bytes_same t' t) by done. by apply read_int_reads. Qed.
End Reading.

Create HintDb reads.
#[export] Hint Resolve read_size_reads read_int64_reads read_int32_reads read_type_reads read_bool_reads
  read_float_reads read_double_reads read_binary_reads : reads.

Ltac split_writable :=
  repeat match goal with
    | H : _ ∧ _ |- _ => destruct H
    | H : sizes (_ :: _) |- _ => apply Forall_cons in H; destruct H
    | H : sizes [] |- _ => clear H
    | H : Forall _ (_ :: _) |- _ => apply Forall_cons in H; destruct H
    | H : Forall _ [] |- _ => clear H
    end.

Lemma string_arg_ok s : string_ok s → arg_ok (AString s).
Proof.
  intros [Hb Hl]. split; [|done]. unfold in_type, min_value, max_value, size_t, max_string_size in *. simpl. lia.
Qed.

Lemma type_of_value_value d : type_of_value (type_value d) = Some d.
Proof. by destruct d. Qed.

Lemma size_add_1 v : in_type size_t v → in_type size_t (1 +w v) ∧ (1 +w v) -w 1 = v.
Proof.
  unfold in_type, min_value, max_value, size_t. simpl. change (2 ^ 64 - 1) with npos. intros Hv.
  split; [apply wrap_range|]. unfold wadd, wsub. rewrite wrap_sub_l. rewrite wrap_small by lia. lia.
Qed.

#[export] Hint Resolve string_arg_ok : reads.

(** The arguments of an instruction are valid. *)
Ltac args_ok :=
  repeat (apply Forall_cons; split); try apply Forall_nil;
  first [done | by apply string_arg_ok | split; [by_decision|done] | idtac].

Lemma read_string_ok {I} `{NoCopyInputStream I} {remaining : I → list Z} {laws : NoCopyInputStreamLaws I remaining} s :
  string_ok s → reads (remaining := remaining) read_string (arg_bytes (AString s)) s.
Proof. intros Hs. apply read_string_reads; [by apply string_arg_ok|apply Hs]. Qed.

#[export] Hint Resolve read_string_ok : reads.

(** Reading the arguments one after the other *)
Ltac read_args :=
  repeat first
    [ apply reads_nil
    | eapply reads_check; [done|]
    | eapply reads_lift; [done|]
    | eapply reads_arg; [solve [eauto 4 with reads]|cbv beta iota] ].

Section Calls.
Context {build : Build} {tstream : TransactLogStream} {slaws : TransactLogStreamLaws}.
Context {core : CoreEncoder} {clawss : CoreEncoderLaws}.
Context {I : Type} `{NoCopyInputStream I} {remaining : I → list Z} {laws : NoCopyInputStreamLaws I remaining}.
Implicit Types (e : TransactLogEncoder) (i : Input I).
#[local] Notation reads := (reads (remaining := remaining)).

(** An instruction whose arguments are read as one call *)
Definition writes_call (d : Call) e (o : option TransactLogEncoder) : Prop :=
  ∃ e' code args, o = Some e' ∧ log e' = log e ++ instr_value code :: args_bytes args ∧
    code ≠ instr_LinkListSetAll ∧ reads (read_instr code) (args_bytes args) d.

Lemma append_writes_call d e code args :
  Forall arg_ok args → integers_last args → code ≠ instr_LinkListSetAll →
  reads (read_instr code) (args_bytes args) d → writes_call d e (append_simple_instr e (AInstr code :: args)).
Proof.
  intros Hok Hlast Hcode Hreads.
  destruct (append_simple_instr_ok e (AInstr code :: args)) as (e'&->&Hlog); [by constructor|done|].
  exists e', code, args. split; [done|]. split; [|done]. by rewrite Hlog.
Qed.

(** *** Values *)
Lemma read_mixed_reads m :
  mixed_ok m → reads read_mixed (args_bytes (AType (get_type m) :: match m with
    | MInt v | MOldDateTime v => [AInt int64_t v] | MBool v => [ABool v] | MFloat v => [AFloat v]
    | MDouble v => [ADouble v] | MString v | MBinary v => [AString v]
    | MTimestamp s n => [AInt int64_t s; AInt int32_t n] | MTable => [] end)) m.
Proof.
  intros Hm. unfold read_mixed. eapply reads_arg; [apply read_type_reads|]. rewrite type_of_value_value.
  destruct m; cbn [mixed_ok] in Hm; split_writable; cbn [get_type]; try by read_args.
  eapply reads_all, reads_bind; [unfold read_timestamp; by read_args|apply reads_ret].
Qed.

(** The arguments with which a value is written, after the type *)
Definition value_args (v : Value) : list Arg :=
  match v with
  | VInt v | VOldDateTime v => [AInt int64_t v]
  | VBool v => [ABool v]
  | VFloat v => [AFloat v]
  | VDouble v => [ADouble v]
  | VString (Some v) | VBinary (Some v) => [AString v]
  | VTimestamp s n => [AInt int64_t s; AInt int32_t n]
  | VMixed m => AType (get_type m) :: match m with
    | MInt v | MOldDateTime v => [AInt int64_t v] | MBool v => [ABool v] | MFloat v => [AFloat v]
    | MDouble v => [ADouble v] | MString v | MBinary v => [AString v]
    | MTimestamp s n => [AInt int64_t s; AInt int32_t n] | MTable => [] end
  | VLink row target => [ASize (1 +w row); ASize target]
  | VTable | VNull | VString None | VBinary None => []
  end.

Definition value_type (v : Value) : option DataType :=
  match v with
  | VInt _ => Some type_Int | VBool _ => Some type_Bool | VFloat _ => Some type_Float | VDouble _ => Some type_Double
  | VString (Some _) => Some type_String | VBinary (Some _) => Some type_Binary
  | VOldDateTime _ => Some type_OldDateTime | VTimestamp _ _ => Some type_Timestamp | VTable => Some type_Table
  | VMixed _ => Some type_Mixed | VLink _ _ => Some type_Link | VNull | VString None | VBinary None => None
  end.

Lemma read_set_value_reads v d variant :
  value_ok v variant → value_type v = Some d → reads (read_set_value (type_value d)) (args_bytes (value_args v)) v.
Proof.
  intros Hv Hd. unfold read_set_value. rewrite type_of_value_value.
  destruct v as [v|v|v|v|[v|]|[v|]|v|s n| |m|row target|]; cbn [value_ok value_type] in Hv, Hd;
    simplify_eq; split_writable; cbn [value_args]; try by read_args.
  - eapply reads_all, reads_bind; [by apply read_mixed_reads|apply reads_ret].
  - destruct (size_add_1 row) as [? E]; [done|]. eapply reads_arg; [by apply read_size_reads|]. cbv zeta. rewrite E.
    by read_args.
Qed.

(** *** [Set] *)
Definition type_arg (v : Value) : Arg :=
  match value_type v with Some d => AType d | None => AInt int_t set_null_sentinel end.

Definition set_args (v : Value) (col row prior : Z) (unique : bool) : list Arg :=
  type_arg v :: ASize col :: ASize row :: (if unique then ASize prior :: value_args v else value_args v).

Lemma read_set_reads v variant col row prior :
  value_ok v variant → sizes [col; row; prior] →
  reads (read_set variant) (args_bytes (set_args v col row prior (LogParser.is_unique variant)))
    (set_value col row (delivered_value v) variant (if LogParser.is_unique variant then prior else 0)).
Proof.
  intros Hv Hs. split_writable. unfold read_set, set_args, type_arg.
  assert (∀ (f : Z → Reader I Call) d args, reads (f (if LogParser.is_unique variant then prior else 0)) (args_bytes args) d →
    reads (p ← (if LogParser.is_unique variant then read_size else mret 0); f p)
      (args_bytes (if LogParser.is_unique variant then ASize prior :: args else args)) d) as Hprior.
  { intros f d args Hf. destruct (LogParser.is_unique variant); [eapply reads_arg; [by apply read_size_reads|done]|].
    eapply (reads_bind _ _ []); [apply reads_ret|done]. }
  destruct (value_type v) as [d|] eqn:Hd.
  - eapply reads_arg; [apply read_type_reads|]. do 2 (eapply reads_arg; [by apply read_size_reads|]).
    apply Hprior. rewrite bool_decide_eq_false_2 || rewrite (proj2 (Z.eqb_neq _ _)) by (by destruct d).
    eapply reads_all, reads_bind; [by eapply read_set_value_reads|].
    assert (delivered_value v = v) as -> by (by destruct v as [| | | |[]|[]| | | | | |]). apply reads_ret.
  - eapply reads_arg; [by apply read_int_reads; by_decision|]. do 2 (eapply reads_arg; [by apply read_size_reads|]).
    apply Hprior. change (set_null_sentinel =? -1) with true. cbv iota.
    assert (value_args v = [] ∧ delivered_value v = VNull) as [-> ->] by (by destruct v as [| | | |[]|[]| | | | | |]).
    apply reads_nil.
Qed.

Lemma value_args_ok v variant : value_ok v variant → Forall arg_ok (value_args v).
Proof.
  intros Hv. destruct v as [v|v|v|v|[v|]|[v|]|v|s n| |m|row target|]; cbn [value_ok] in Hv; split_writable;
    cbn [value_args]; try by args_ok.
  - destruct m; cbn [mixed_ok] in *; split_writable; args_ok.
  - destruct (size_add_1 row) as [? _]; [done|]. args_ok.
Qed.

Lemma integers_last_plain args :
  Forall (λ a, match a with AIntegers _ => False | _ => True end) args → integers_last args.
Proof. induction 1 as [|a args Ha _ IH]; [done|]. by destruct a. Qed.

Lemma encode_value_eq e col row v variant prior :
  value_ok v variant →
  encode_value e col row v variant prior =
    append_simple_instr e (AInstr (delivered_variant v variant) :: set_args v col row prior (LogParser.is_unique variant)).
Proof.
  intros Hv. destruct v as [v|v|v|v|[v|]|[v|]|v|s n| |m|row' target|]; cbn [value_ok] in Hv; split_writable;
    destruct variant; done.
Qed.

Lemma set_args_ok v variant col row prior :
  value_ok v variant → sizes [col; row; prior] →
  Forall arg_ok (set_args v col row prior (LogParser.is_unique variant)) ∧
  integers_last (set_args v col row prior (LogParser.is_unique variant)).
Proof.
  intros Hv Hs. split_writable. unfold set_args, type_arg. split.
  - apply Forall_cons. split; [destruct (value_type v); [done|split; by_decision]|].
    do 2 (apply Forall_cons; split; [split; [by_decision|done]|]). pose proof (value_args_ok v variant Hv).
    destruct (LogParser.is_unique variant); [|done]. by args_ok.
  - apply integers_last_plain. apply Forall_cons. split; [by destruct (value_type v)|]. do 2 (apply Forall_cons; split; [done|]).
    assert (Forall (λ a, match a with AIntegers _ => False | _ => True end) (value_args v)).
    { destruct v as [v|v|v|v|[v|]|[v|]|v|s n| |m|row' target|]; try destruct m; by repeat constructor. }
    destruct (LogParser.is_unique variant); [|done]. by apply Forall_cons.
Qed.

Lemma encode_value_writes e col row v variant prior :
  value_ok v variant → sizes [col; row; prior] →
  writes_call (set_value col row (delivered_value v) (delivered_variant v variant)
      (if LogParser.is_unique variant then prior else 0)) e (encode_value e col row v variant prior).
Proof.
  intros Hv Hs. rewrite encode_value_eq by done. destruct (set_args_ok v variant col row prior Hv Hs) as [Ha Hl].
  assert (any_variant variant = true) as Hany.
  { destruct v as [v|v|v|v|[v|]|[v|]|v|s n| |m|row' target|]; cbn [value_ok] in Hv; split_writable; by destruct variant. }
  apply append_writes_call; [done|done|by destruct v, variant|].
  assert (value_ok v (delivered_variant v variant) ∧
    LogParser.is_unique variant = LogParser.is_unique (delivered_variant v variant)) as [Hv' ->].
  { destruct v; try done. simpl in *. split_writable. by destruct variant. }
  assert (read_instr (delivered_variant v variant) = read_set (delivered_variant v variant)) as ->
    by (by destruct v, variant). by apply read_set_reads.
Qed.

Lemma read_data_type_reads d : reads read_data_type (arg_bytes (AType d)) d.
Proof.
  unfold read_data_type, is_valid_data_type. eapply reads_all, reads_bind; [apply read_type_reads|].
  rewrite type_of_value_value. eapply reads_check; [done|]. intros i rest Hi. by exists i.
Qed.

(** *** Selections *)
Lemma read_sizes_reads l : sizes l → reads (read_sizes (length l)) (args_bytes (ASize <$> l)) l.
Proof.
  induction 1 as [|v l Hv Hl IH]; [apply reads_nil|]. cbn [length read_sizes fmap list_fmap].
  eapply reads_arg; [by apply read_size_reads|]. eapply reads_all, reads_bind; [exact IH|]. apply reads_ret.
Qed.

Lemma read_levels_reads levels :
  0 ≤ levels ≤ m_max_levels → reads read_levels (arg_bytes (ASize levels)) levels.
Proof.
  intros Hl. unfold read_levels, m_max_levels in *.
  eapply reads_all, reads_bind.
  { apply read_int_as; [by_decision..| |]; unfold in_type, min_value, max_value; simpl; lia. }
  eapply reads_check; [|apply reads_ret]. apply negb_true_iff, orb_false_iff. split; [apply Z.ltb_ge|apply Z.ltb_ge]; lia.
Qed.

Lemma select_writes e c :
  writable c → select_args c ≠ [] → writes_call c e (encode_select e c).
Proof.
  intros Hw Hs. destruct (encode_select_ok e c Hw Hs) as (e'&->&Hlog).
  assert (∀ code args, select_args c = AInstr code :: args → code ≠ instr_LinkListSetAll →
    reads (read_instr code) (args_bytes args) c → writes_call c e (Some e')) as Hwrites.
  { intros code args E Hcode Hr. exists e', code, args. split; [done|]. split; [|done]. by rewrite Hlog, E, args_bytes_cons. }
  destruct c; try (by destruct Hs); (eapply Hwrites; [reflexivity|discriminate|]);
    cbn [read_instr read_schema_instr read_list_instr writable] in *; split_writable; clear Hwrites Hlog Hs.
  - unfold read_select_table. eapply reads_arg; [by apply read_levels_reads|].
    eapply reads_arg; [by apply read_size_reads|]. eapply reads_all, reads_bind; [|apply reads_ret].
    match goal with E : length path = _ |- _ => rewrite <-E end. by apply read_sizes_reads.
  - unfold read_select_descriptor. eapply reads_arg; [by apply read_levels_reads|].
    eapply reads_all, reads_bind; [|apply reads_ret].
    match goal with E : length path = _ |- _ => rewrite <-E end. by apply read_sizes_reads.
  - read_args.
Qed.

(** *** All instructions of one call *)
Lemma encode_call_writes c e :
  writable c → (∀ vs, c ≠ link_list_set_all vs) → ∃ d, delivered c = [d] ∧ writes_call d e (encode_call c e).
Proof.
  intros Hw Hno. destruct c; try (by destruct (Hno values)); try (eexists; split; [reflexivity|]);
    cbn [writable encode_call] in *; try (by apply select_writes); split_writable.
  all: try (apply append_writes_call; [args_ok|done|done|cbn [read_instr read_row_instr read_list_instr read_schema_instr]; by read_args]).
  - apply encode_value_writes; [done|]. by repeat (apply Forall_cons; split).
  - unfold LogEncoder.insert_link_column. match goal with E : is_link_type type = true |- _ => rewrite E; rename E into Hlink end.
    apply append_writes_call; [args_ok|done|done|cbn [read_instr read_schema_instr]]. unfold read_insert_link_column, read_data_type.
    eapply reads_arg; [by apply read_size_reads|]. eapply reads_arg; [by apply read_data_type_reads|].
    eapply reads_check; [by destruct type|]. by read_args.
  - unfold LogEncoder.insert_column.
    assert (read_instr (if nullable then instr_InsertNullableColumn else instr_InsertColumn) = read_insert_column nullable) as Hread
      by by destruct nullable.
    apply append_writes_call; [args_ok|done|by destruct nullable|rewrite Hread]. unfold read_insert_column.
    eapply reads_arg; [by apply read_size_reads|]. eapply reads_arg; [by apply read_data_type_reads|].
    eapply reads_check; [by destruct type|]. eapply reads_arg; [by eauto with reads|].
    eapply reads_check; [|apply reads_nil]. destruct nullable; [|done]. simpl. rewrite bool_decide_eq_false_2 by auto. done.
  - apply append_writes_call; [args_ok; destruct type; split; by_decision|done|done|cbn [read_instr read_schema_instr]].
    eapply reads_arg; [by apply read_size_reads|]. eapply reads_arg; [apply read_int_reads; [by_decision|destruct type; by_decision]|].
    destruct type; by read_args.
  - unfold LogEncoder.link_list_move. rewrite (proj2 (Z.eqb_neq _ _)) by done. cbn [negb].
    apply append_writes_call; [args_ok|done|done|cbn [read_instr read_list_instr]]. by read_args.
Qed.

(** *** The elements of a list *)
Lemma integers_as_sizes vs :
  Forall (λ v, in_type int64_t v ∧ 0 ≤ v) vs →
  args_bytes [AIntegers vs] = args_bytes (ASize <$> vs) ∧ sizes vs ∧ Forall (in_type int64_t) vs.
Proof.
  intros Hvs. assert (sizes vs) as Hs.
  { eapply Forall_impl; [exact Hvs|]. intros v [Hv Hp]. unfold in_type, min_value, max_value in *. simpl in *. lia. }
  assert (Forall (in_type int64_t) vs) as Hi by (eapply Forall_impl; [exact Hvs|]; by intros v [? _]).
  split; [|done]. unfold args_bytes. simpl. rewrite app_nil_r. f_equal. clear Hvs.
  induction vs as [|v vs IH]; [done|]. apply Forall_cons in Hs as [Hv Hs]. apply Forall_cons in Hi as [Hv' Hi].
  cbn [fmap list_fmap]. f_equal; [|by apply IH]. simpl. by rewrite (int_bytes_same size_t int64_t) by (done || by_decision).
Qed.

Lemma sizes_bytes_length vs : sizes vs → (length vs ≤ length (args_bytes (ASize <$> vs)))%nat.
Proof.
  induction 1 as [|v vs Hv _ IH]; [done|]. cbn [fmap list_fmap length]. rewrite args_bytes_cons, length_app.
  destruct (int_bytes_Some size_t v) as (bs&Hb&Hl&_); [by_decision|done|]. simpl. rewrite Hb. simpl. lia.
Qed.

(** ** The handler *)
Context {S E : Type} (handler : Call → S → (bool * S) + E).

(** The handler is called once for each call, until it throws; [None] is the
    exception of a call it does not accept. *)
Fixpoint run_calls (cs : list Call) (s : S) : option (S + E) :=
  match cs with
  | [] => Some (inl s)
  | c :: cs =>
      o ← deliver handler c s;
      match o with inl s => run_calls cs s | inr e => Some (inr e) end
  end.

Lemma run_calls_app cs cs' s :
  run_calls (cs ++ cs') s = o ← run_calls cs s; match o with inl s => run_calls cs' s | inr e => Some (inr e) end.
Proof.
  revert s. induction cs as [|c cs IH]; intros s; [done|]. simpl. destruct (deliver handler c s) as [[s'|e]|]; simpl; [apply IH|done..].
Qed.

(** The parser goes on where the handler does, with the input that is left. *)
Definition continues (o : option (S + E)) (r : option (S * Input I + E)) (rest : list Z) : Prop :=
  match o with
  | Some (inl s) => ∃ i, r = Some (inl (s, i)) ∧ input_bytes (remaining := remaining) i = rest
  | Some (inr e) => r = Some (inr e)
  | None => r = None
  end.

Lemma set_all_continues size vs : ∀ fuel j s i rest,
  sizes vs → (length vs < fuel)%nat → 0 ≤ j → size = j + Z.of_nat (length vs) →
  input_bytes (remaining := remaining) i = args_bytes (ASize <$> vs) ++ rest →
  continues (run_calls (imap (λ k v, link_list_set (j + Z.of_nat k) v size) vs) s)
    (set_all_loop handler fuel j size s i) rest.
Proof.
  induction vs as [|v vs IH]; intros [|fuel] j s i rest Hs Hf Hj -> Hi; cbn [length] in *; try lia.
  - cbn [set_all_loop imap run_calls]. rewrite (proj2 (Z.ltb_ge _ _)) by lia. by exists i.
  - apply Forall_cons in Hs as [Hv Hs]. cbn [fmap list_fmap] in Hi. rewrite args_bytes_cons, <-app_assoc in Hi.
    cbn [set_all_loop]. rewrite (proj2 (Z.ltb_lt _ _)) by lia.
    destruct (read_size_reads (remaining := remaining) v Hv i _ Hi) as (i1&->&Hi1). cbn [mbind option_bind].
    rewrite imap_cons. cbn [run_calls]. replace (j + Z.of_nat 0) with j by lia.
    destruct (deliver handler _ s) as [[s1|e]|]; [|done..]. cbn [mbind option_bind].
    replace (imap _ vs) with (imap (λ k w, link_list_set ((j + 1) + Z.of_nat k) w (j + Z.of_nat (Datatypes.S (length vs)))) vs).
    2:{ apply imap_ext. intros k w _. simpl. f_equal. lia. }
    apply IH; [done|lia|lia|lia|done].
Qed.

Lemma instr_of_value_value code : instr_of_value (instr_value code) = Some code.
Proof. by destruct code. Qed.

(** *** One call *)

(** The bytes are read as one call. *)
Definition means (bytes : list Z) (c : Call) : Prop :=
  bytes ≠ [] ∧ ∀ fuel s i rest, (length bytes ≤ fuel)%nat → input_bytes (remaining := remaining) i = bytes ++ rest →
    continues (run_calls (delivered c) s) (parse_one handler fuel s i) rest.

Lemma call_continues c e :
  writable c → ∃ e' bytes, encode_call c e = Some e' ∧ log e' = log e ++ bytes ∧ means bytes c.
Proof.
  intros Hw. assert ((∀ vs, c ≠ link_list_set_all vs) ∨ ∃ vs, c = link_list_set_all vs) as [Hno|[vs ->]].
  { destruct c; try (by left; intros vs); right; eauto. }
  - destruct (encode_call_writes c e Hw Hno) as (d&Hd&e'&code&args&->&Hlog&Hcode&Hreads).
    exists e', (instr_value code :: args_bytes args). split; [done|]. split; [done|]. split; [done|].
    intros fuel s i rest _ Hi. rewrite Hd. unfold parse_one.
    destruct (read_char_reads (remaining := remaining) (instr_value code) i (args_bytes args ++ rest) Hi) as (i1&->&Hi1).
    cbn [mbind option_bind]. rewrite instr_of_value_value. cbn [mbind option_bind].
    destruct (Hreads i1 rest Hi1) as (i2&Hr&Hi2).
    assert (∀ (k : option (S * Input I + E)), match code with instr_LinkListSetAll => k | _ =>
      '(c, i) ← read_instr code i1; o ← deliver handler c s; Some (match o with inl s => inl (s, i) | inr e => inr e end) end =
      '(c, i) ← read_instr code i1; o ← deliver handler c s; Some (match o with inl s => inl (s, i) | inr e => inr e end)) as ->.
    { intros k. by destruct code. }
    rewrite Hr. cbn [mbind option_bind run_calls]. destruct (deliver handler d s) as [[s1|x]|]; simpl; [by exists i2|done..].
  - destruct Hw as [Hvs Hn]. destruct (integers_as_sizes vs Hvs) as (Hbytes&Hs&Hi64). cbn [encode_call].
    destruct (append_simple_instr_ok e [AInstr instr_LinkListSetAll; ASize (Z.of_nat (length vs)); AIntegers vs]) as (e'&He&Hlog);
      [args_ok|done|].
    unfold LogEncoder.link_list_set_all. exists e'.
    exists (args_bytes [AInstr instr_LinkListSetAll; ASize (Z.of_nat (length vs)); AIntegers vs]). split; [done|].
    split; [done|]. split; [by rewrite args_bytes_cons|]. clear He Hlog e'.
    rewrite !args_bytes_cons, <-args_bytes_cons, Hbytes. intros fuel s i rest Hf Hi.
    pose proof (sizes_bytes_length vs Hs) as Hlen. rewrite !length_app in Hf. simpl in Hf.
    rewrite <-!app_assoc in Hi. unfold parse_one.
    destruct (read_char_reads (remaining := remaining) (instr_value instr_LinkListSetAll) i _ Hi) as (i1&->&Hi1).
    cbn [mbind option_bind]. rewrite instr_of_value_value. cbn [mbind option_bind].
    destruct (read_size_reads (remaining := remaining) _ Hn i1 _ Hi1) as (i2&->&Hi2). cbn [mbind option_bind delivered].
    apply (set_all_continues (Z.of_nat (length vs)) vs fuel 0); [done|lia|lia|lia|done].
Qed.

(** *** Whole logs *)
Definition encode_log (cs : list Call) e : option TransactLogEncoder := foldlM (λ e c, encode_call c e) e cs.

Lemma has_next_ok i :
  match input_bytes (remaining := remaining) i with
  | [] => has_next i = None
  | _ => ∃ i', has_next i = Some i' ∧ input_bytes (remaining := remaining) i' = input_bytes (remaining := remaining) i
  end.
Proof.
  unfold has_next. destruct (decide (m_input_begin i = [])) as [Hb|Hb].
  - rewrite bool_decide_eq_true_2 by done. cbn [negb]. destruct (next_input_buffer i) as [i'|] eqn:Hn.
    + apply (next_input_buffer_Some (remaining := remaining)) in Hn as [Hne <-]; [|done].
      destruct (input_bytes i') eqn:Hi'; [|by exists i']. unfold input_bytes in Hi'. by apply app_eq_nil in Hi' as [? _].
    + apply (next_input_buffer_None (remaining := remaining)) in Hn. by rewrite Hn, Hb.
  - rewrite bool_decide_eq_false_2 by done. cbn [negb]. unfold input_bytes.
    destruct (m_input_begin i) as [|c l] eqn:Hi; [done|]. exists i. by rewrite Hi.
Qed.

Lemma parse_blocks blocks cs :
  Forall2 means blocks cs → ∀ fuel s i, (length (concat blocks) < fuel)%nat →
    input_bytes (remaining := remaining) i = concat blocks → parse_loop handler fuel s i = run_calls (cs ≫= delivered) s.
Proof.
  induction 1 as [|b c blocks cs [Hne Hone] _ IH]; intros [|fuel] s i Hf Hi; cbn [concat length] in *; try lia;
    cbn [parse_loop]; pose proof (has_next_ok i) as Hn; rewrite Hi in Hn.
  - simpl in Hn. by rewrite Hn.
  - rewrite length_app in Hf. assert (0 < length b)%nat by (destruct b; [done|simpl; lia]).
    destruct (b ++ concat blocks) as [|x l] eqn:Eb; [by apply app_eq_nil in Eb as [? _]|]. rewrite <-Eb in *. clear x l Eb.
    destruct Hn as (i1&->&Hi1). specialize (Hone (Datatypes.S fuel) s i1 (concat blocks) ltac:(lia) Hi1).
    rewrite bind_cons, run_calls_app. unfold continues in Hone.
    destruct (run_calls (delivered c) s) as [[s1|x]|]; [|by rewrite Hone..].
    destruct Hone as (i2&->&Hi2). cbn [mbind option_bind]. apply IH; [lia|done].
Qed.

Lemma encode_log_means cs : ∀ e, Forall writable cs →
  ∃ e' blocks, encode_log cs e = Some e' ∧ log e' = log e ++ concat blocks ∧ Forall2 means blocks cs.
Proof.
  induction cs as [|c cs IH]; intros e Hcs.
  { exists e, []. rewrite app_nil_r. split; [done|]. split; [done|constructor]. }
  apply Forall_cons in Hcs as [Hc Hcs]. destruct (call_continues c e Hc) as (e1&b1&He1&Hlog1&Hm).
  destruct (IH e1 Hcs) as (e2&blocks&He2&Hlog2&Hrest). exists e2, (b1 :: blocks).
  split; [unfold encode_log in *; simpl; by rewrite He1|]. split; [by rewrite Hlog2, Hlog1, <-app_assoc|by constructor].
Qed.

Lemma parse_encoded cs e : Forall writable cs →
  ∃ e' bytes, encode_log cs e = Some e' ∧ log e' = log e ++ bytes ∧
    ∀ fuel s in_, (length bytes < fuel)%nat → remaining in_ = bytes →
      parse handler fuel in_ s = run_calls (cs ≫= delivered) s.
Proof.
  intros Hcs. destruct (encode_log_means cs e Hcs) as (e'&blocks&He&Hlog&Hb). exists e', (concat blocks).
  split; [done|]. split; [done|]. intros fuel s in_ Hf Hi. by apply (parse_blocks blocks).
Qed.
End Calls.
