(* ===== verification/LogReverser.v ===== *)
(** [TransactReverser] and [ReversedNoCopyInputStream]
    (core/realm/impl/transact_log.hpp): the log of what undoes a transaction
    (core/realm/group_shared.hpp), and the observers of
    impl/transact_log_handler.cpp as handlers of the parser. *)
From stdpp Require Import gmap.
From S2P Require Import Prelude ChunkedRangeVector IndexSetSpec ChangeBuilder DeepChange SafeInt LogData TransactLog.
From S2P Require Import LogEncoder LogEncoderTheory LogParser LogReading LogRoundtrip.

(** A range of the buffer: the bytes of one instruction *)
Definition Instr : Type := nat * nat.

Record TransactReverser := mkReverser {
  m_encoder : TransactLogEncoder;
  m_instructions : list Instr;
  current_instr_start : nat;
  m_pending_ts_instr : Instr;
  m_pending_ds_instr : Instr;
  m_pending_lv_instr : Instr }.

Module LogReverser.
Section Reverser.
Context {build : Build} {tstream : TransactLogStream} {core : CoreEncoder}.
Implicit Types (r : TransactReverser) (instr : Instr).

Definition make : TransactReverser := mkReverser LogEncoder.make [] 0 (0, 0)%nat (0, 0)%nat (0, 0)%nat.

(** Assignment to one field *)
Definition set_encoder r e : TransactReverser :=
  mkReverser e (m_instructions r) (current_instr_start r) (m_pending_ts_instr r) (m_pending_ds_instr r) (m_pending_lv_instr r).
Definition set_ts r instr : TransactReverser :=
  mkReverser (m_encoder r) (m_instructions r) (current_instr_start r) instr (m_pending_ds_instr r) (m_pending_lv_instr r).
Definition set_ds r instr : TransactReverser :=
  mkReverser (m_encoder r) (m_instructions r) (current_instr_start r) (m_pending_ts_instr r) instr (m_pending_lv_instr r).
Definition set_lv r instr : TransactReverser :=
  mkReverser (m_encoder r) (m_instructions r) (current_instr_start r) (m_pending_ts_instr r) (m_pending_ds_instr r) instr.

Definition transact_log_size r : nat := length (log (m_encoder r)).

Definition get_inst r : Instr * TransactReverser :=
  let begin := current_instr_start r in
  let end_ := transact_log_size r in
  ((begin, end_), mkReverser (m_encoder r) (m_instructions r) end_ (m_pending_ts_instr r) (m_pending_ds_instr r)
                    (m_pending_lv_instr r)).

Definition append_instr r instr : TransactReverser :=
  mkReverser (m_encoder r) (m_instructions r ++ [instr]) (current_instr_start r) (m_pending_ts_instr r)
    (m_pending_ds_instr r) (m_pending_lv_instr r).

Definition append_instruction r : TransactReverser :=
  let '(instr, r) := get_inst r in append_instr r instr.

(** [sync_select]: what is pushed for a pending instruction *)
Definition sync_select r instr : TransactReverser :=
  if negb (instr.1 =? instr.2)%nat then append_instr r instr else r.

Definition sync_linkview r : TransactReverser := set_lv (sync_select r (m_pending_lv_instr r)) (0, 0)%nat.

Definition sync_descriptor r : TransactReverser :=
  let r := sync_linkview r in
  set_ds (sync_select r (m_pending_ds_instr r)) (0, 0)%nat.

Definition sync_table r : TransactReverser :=
  let r := sync_descriptor r in
  set_ts (sync_select r (m_pending_ts_instr r)) (0, 0)%nat.

(** [m_encoder.f(...)], and with [append_instruction()] after it *)
Definition encode r (c : Call) : option TransactReverser :=
  e ← encode_call c (m_encoder r);
  Some (set_encoder r e).

Definition emit r (c : Call) : option TransactReverser :=
  r ← encode r c;
  Some (append_instruction r).

(** ** Handlers *)
Definition select_table r (c : Call) : option TransactReverser :=
  let r := sync_table r in
  r ← encode r c;
  let '(instr, r) := get_inst r in
  Some (set_ts r instr).

Definition select_descriptor r (c : Call) : option TransactReverser :=
  let r := sync_descriptor r in
  r ← encode r c;
  let '(instr, r) := get_inst r in
  Some (set_ds r instr).

Definition select_link_list r (c : Call) : option TransactReverser :=
  let r := sync_linkview r in
  r ← encode r c;
  let '(instr, r) := get_inst r in
  Some (set_lv r instr).

(** "Append in reverse order because the reversed log is itself applied in
    reverse": [i] from [old_list_size] down to 1 *)
Fixpoint link_list_clear (i : nat) (old_list_size : Z) r : option TransactReverser :=
  match i with
  | O => Some r
  | S i' =>
      r ← emit r (link_list_insert (Z.of_nat i -w 1) 0 (old_list_size -w Z.of_nat i));
      link_list_clear i' old_list_size r
  end.

(** Negation of an [int_fast64_t] *)
Definition negate64 (v : Z) : option Z := assert! negb (v =? min_value int64_t); Some (- v).

(** "No exact inverse: merging each row to itself" *)
Definition merge_rows r (row_ndx new_row_ndx : Z) : option TransactReverser :=
  r ← emit r (LogData.merge_rows row_ndx row_ndx);
  emit r (LogData.merge_rows new_row_ndx new_row_ndx).

(** The handlers by the call; [link_list_set_all] is none of them. *)
Definition handle (c : Call) r : option TransactReverser :=
  match c with
  | LogData.select_table _ _ _ => select_table r c
  | LogData.select_descriptor _ _ => select_descriptor r c
  | LogData.select_link_list _ _ _ => select_link_list r c
  | insert_group_level_table ndx num _ => emit (sync_table r) (erase_group_level_table ndx (num +w 1))
  | erase_group_level_table ndx num => emit (sync_table r) (insert_group_level_table ndx (num -w 1) [])
  | rename_group_level_table _ _ => Some (sync_table r)
  | optimize_table => Some r
  | insert_empty_rows row num prior unordered => emit r (erase_rows row num (prior +w num) unordered)
  | add_row_with_key row prior _ _ => emit r (erase_rows row 1 (prior +w 1) true)
  | erase_rows row num prior unordered => emit r (insert_empty_rows row num (prior -w num) unordered)
  | swap_rows row_1 row_2 => emit r (swap_rows row_1 row_2)
  | move_row from_ to_ => emit r (move_row to_ from_)
  | LogData.merge_rows row new => merge_rows r row new
  | set_value col row v variant prior => emit r (set_value col row v variant prior)
  | add_int col row v => v ← negate64 v; emit r (add_int col row v)
  | insert_substring _ _ _ _ | erase_substring _ _ _ _ => Some r
  | clear_table old_size => emit r (insert_empty_rows 0 old_size 0 false)
  | add_search_index _ | remove_search_index _ | set_link_type _ _ => Some r
  | insert_link_column col _ _ target backlink => emit r (erase_link_column col target backlink)
  | erase_link_column col target backlink => emit r (insert_link_column col type_Link [] target backlink)
  | insert_column col _ _ _ => emit r (erase_column col)
  | erase_column col => emit r (insert_column col type_Int [] false)
  | rename_column _ _ => Some r
  | link_list_set row v prior => emit r (link_list_set row v prior)
  | link_list_insert ndx _ prior => emit r (link_list_erase ndx (prior +w 1))
  | link_list_move from_ to_ => emit r (link_list_move from_ to_)
  | link_list_swap a b => emit r (link_list_swap a b)
  | link_list_erase ndx prior => emit r (link_list_insert ndx 0 (prior -w 1))
  | LogData.link_list_clear old => link_list_clear (Z.to_nat old) old r
  | nullify_link col row target => emit r (set_value col row (VLink 0 target) instr_Set 0)
  | link_list_nullify ndx prior => emit r (link_list_insert ndx 0 (prior -w 1))
  | link_list_set_all _ => None
  end.

(** The reverser as a handler of the parser; it throws where an assertion of the
    encoder fails. *)
Definition handler (c : Call) r : (bool * TransactReverser) + () :=
  match handle c r with Some r => inl (true, r) | None => inr () end.

(** ** [ReversedNoCopyInputStream] *)
Record ReversedStream := mkReversedStream { m_buffer : list Z; m_instr_order : list Instr; m_current : nat }.

Definition reversed_stream r : ReversedStream :=
  let r := sync_table r in
  mkReversedStream (log (m_encoder r)) (m_instructions r) (length (m_instructions r)).

(** The bytes of a range: a pointer past the end of the buffer is not valid. *)
Definition block_of (buffer : list Z) (instr : Instr) : option (list Z) :=
  let '(begin, end_) := instr in
  assert! (begin <? end_)%nat && (end_ <=? length buffer)%nat;
  Some (take (end_ - begin) (drop begin buffer)).

#[export] Instance ReversedNoCopyInputStream : NoCopyInputStream ReversedStream := λ s,
  match m_current s with
  | O => None
  | S current =>
      instr ← m_instr_order s !! current;
      block ← block_of (m_buffer s) instr;
      Some (block, mkReversedStream (m_buffer s) (m_instr_order s) current)
  end.

(** ** Observers (group_shared.hpp)

    [rollback_and_continue_as_read]: what an observer is told of the changes
    that are undone.  Running out of fuel is [None]; [parse_complete] is the
    end of the observer. *)
Section Observers.
Context {O E : Type} (observer : Call → O → (bool * O) + E) (parse_complete : O → option O).

(** The observer is called with the reversed log. *)
Definition observe_reversed (fuel : nat) r (o : O) : option (O + E) :=
  r ← LogParser.parse observer fuel (reversed_stream r) o;
  match r with inl o => o ← parse_complete o; Some (inl o) | inr e => Some (inr e) end.

Definition rollback (fuel : nat) (uncommitted_changes : list Z) (o : O) : option (O + E) :=
  reverser ← LogParser.parse handler fuel (mkBufferedInput uncommitted_changes 1024) make;
  match reverser with
  | inr _ => None
  | inl reverser =>
      if (0 <? length uncommitted_changes)%nat then observe_reversed fuel reverser o else Some (inl o)
  end.

(** [do_advance_read] *)
Definition advance_read {I} `{NoCopyInputStream I} (fuel : nat) (in_ : I) (o : O) : option (O + E) :=
  r ← LogParser.parse observer fuel in_ o;
  match r with inl o => o ← parse_complete o; Some (inl o) | inr e => Some (inr e) end.
End Observers.
End Reverser.
End LogReverser.

(** ** The observer of a transaction log (impl/transact_log_handler.cpp) as a
    handler of the parser *)

(** The overload of the handler a call goes to: [MarkDirtyMixin] for the values
    of cells.  The handler has no [link_list_set_all]. *)
Definition instruction (c : Call) : option Instruction :=
  match c with
  | select_table ndx levels path => Some (SelectTable ndx (Z.to_nat levels) path)
  | select_descriptor levels _ => Some (SelectDescriptor (Z.to_nat levels))
  | select_link_list col row _ => Some (SelectLinkList col row)
  | insert_group_level_table ndx _ _ => Some (InsertGroupLevelTable ndx)
  | erase_group_level_table ndx _ => Some (EraseGroupLevelTable ndx)
  | rename_group_level_table ndx _ => Some (RenameGroupLevelTable ndx)
  | insert_empty_rows row n prior unordered => Some (InsertEmptyRows row n prior unordered)
  | add_row_with_key row prior _ _ => Some (AddRowWithKey row prior)
  | erase_rows row n prior unordered => Some (EraseRows row n prior unordered)
  | swap_rows a b => Some (SwapRows a b)
  | move_row a b => Some (MoveRow a b)
  | merge_rows a b => Some (MergeRows a b)
  | clear_table _ => Some ClearTable
  | set_value col row _ variant _ => Some (SetCell col row variant)
  | add_int col row _ | nullify_link col row _ | insert_substring col row _ _ | erase_substring col row _ _ =>
      Some (SetCell col row instr_Set)
  | optimize_table => Some OptimizeTable
  | insert_link_column ndx _ _ _ _ => Some (InsertLinkColumn ndx)
  | insert_column ndx _ _ _ => Some (InsertColumn ndx)
  | erase_link_column ndx _ _ => Some (EraseLinkColumn ndx)
  | erase_column ndx => Some (EraseColumn ndx)
  | rename_column ndx _ => Some (RenameColumn ndx)
  | add_search_index ndx => Some (AddSearchIndex ndx)
  | remove_search_index ndx => Some (RemoveSearchIndex ndx)
  | set_link_type ndx _ => Some (SetLinkType ndx)
  | link_list_set ndx _ _ => Some (LinkListSet ndx)
  | link_list_insert ndx _ _ => Some (LinkListInsert ndx)
  | link_list_move a b => Some (LinkListMove a b)
  | link_list_swap a b => Some (LinkListSwap a b)
  | link_list_erase ndx _ => Some (LinkListErase ndx)
  | link_list_nullify ndx _ => Some (LinkListNullify ndx)
  | link_list_clear old => Some (LinkListClear old)
  | link_list_set_all _ => None
  end.

(** The instructions the observer is told of *)
Definition instructions (cs : list Call) : list Instruction := omap instruction (cs ≫= delivered).

Section Observer.
Context {build : Build} {T : Type} {ops : IndexSetOps T}.
Implicit Types (o : TransactLog.Observer T).

(** All handlers of the observer return true.  It throws for a change that is
    not supported; [None] is an assertion that fails. *)
Definition observer_handler (c : Call) o : (bool * TransactLog.Observer T) + option SchemaError :=
  match instruction c with
  | None => inr None
  | Some i =>
      if negb (TransactLog.validate i) then inr (Some UnsupportedSchemaChange)
      else match TransactLog.handle i o with Some o => inl (true, o) | None => inr None end
  end.

(** *** The parser and the handlers together *)
Definition outcome (r : TransactLog.Observer T + SchemaError) : TransactLog.Observer T + option SchemaError :=
  match r with inl o => inl o | inr e => inr (Some e) end.

Definition has_instruction (c : Call) : Prop := instruction c ≠ None.

Lemma delivered_instruction c : Forall has_instruction (delivered c).
Proof.
  destruct c; simpl; repeat constructor; try done. apply Forall_forall. intros c Hc.
  by apply elem_of_lookup_imap in Hc as (j&v&->&_).
Qed.

Lemma run_observer cs : ∀ o r,
  Forall has_instruction cs → TransactLog.parse (omap instruction cs) o = Some r →
  (s ← run_calls observer_handler cs o;
   match s with inl o => o ← TransactLog.parse_complete o; Some (inl o) | inr e => Some (inr e) end) = Some (outcome r).
Proof.
  induction cs as [|c cs IH]; intros o r Hcs Hp; cbn [omap list_omap run_calls TransactLog.parse] in *.
  { destruct (TransactLog.parse_complete o) as [o1|] eqn:E; [|done]. cbn [mbind option_bind] in *. rewrite E. by injection Hp as <-. }
  apply Forall_cons in Hcs as [Hc Hcs]. unfold LogParser.deliver, observer_handler, has_instruction in *.
  destruct (instruction c) as [i|]; [|done]. cbn [TransactLog.parse] in Hp.
  destruct (TransactLog.validate i); cbn [negb] in *; [|by injection Hp as <-].
  destruct (TransactLog.handle i o) as [o1|]; [|done]. cbn [mbind option_bind] in *. by apply IH.
Qed.
End Observer.

Section Logged.
Context {build : Build} {T : Type} {ops : IndexSetOps T}.
Context {tstream : TransactLogStream} {slaws : TransactLogStreamLaws} {core : CoreEncoder} {clawss : CoreEncoderLaws}.
Context {I : Type} `{NoCopyInputStream I} {remaining : I → list Z} {laws : NoCopyInputStreamLaws I remaining}.

(** What the handlers make of the instructions is what an observer makes of the
    bytes of the log. *)
Lemma logged_outcome cs e (o : TransactLog.Observer T) r :
  Forall writable cs → TransactLog.parse (instructions cs) o = Some r →
  ∃ e' bytes, encode_log cs e = Some e' ∧ log e' = log e ++ bytes ∧
    ∀ fuel in_, (length bytes < fuel)%nat → remaining in_ = bytes →
      LogReverser.advance_read observer_handler TransactLog.parse_complete fuel in_ o = Some (outcome r).
Proof.
  intros Hw Hp. destruct (parse_encoded (remaining := remaining) observer_handler cs e Hw) as (e'&bytes&He&Hlog&Hparse).
  exists e', bytes. split; [done|]. split; [done|]. intros fuel in_ Hf Hi. unfold LogReverser.advance_read.
  rewrite Hparse by done. apply run_observer; [|done]. apply Forall_bind, Forall_true, delivered_instruction.
Qed.
End Logged.
