(* ===== verification/LogReverserTheory.v ===== *)
(** What [TransactReverser] leaves: the calls of the reversed log, and that the
    stream it is read from delivers them. *)
From S2P Require Import Prelude ChunkedRangeVector SafeInt LogData LogEncoder LogEncoderTheory LogParser LogReading LogRoundtrip LogReverser.

(** ** The reversed log as calls

    The calls that undo one; those of a group of instructions come in reverse
    order, after the selection the group was made under. *)
Definition undo_calls (c : Call) : list Call :=
  match c with
  | insert_group_level_table ndx num _ => [erase_group_level_table ndx (num +w 1)]
  | erase_group_level_table ndx num => [insert_group_level_table ndx (num -w 1) []]
  | insert_empty_rows row num prior unordered => [erase_rows row num (prior +w num) unordered]
  | add_row_with_key row prior _ _ => [erase_rows row 1 (prior +w 1) true]
  | erase_rows row num prior unordered => [insert_empty_rows row num (prior -w num) unordered]
  | swap_rows row_1 row_2 => [swap_rows row_1 row_2]
  | move_row from_ to_ => [move_row to_ from_]
  | merge_rows row new => [merge_rows row row; merge_rows new new]
  | set_value col row v variant prior => [set_value col row v variant prior]
  | add_int col row v => [add_int col row (- v)]
  | clear_table old_size => [insert_empty_rows 0 old_size 0 false]
  | insert_link_column col _ _ target backlink => [erase_link_column col target backlink]
  | erase_link_column col target backlink => [insert_link_column col type_Link [] target backlink]
  | insert_column col _ _ _ => [erase_column col]
  | erase_column col => [insert_column col type_Int [] false]
  | link_list_set row v prior => [link_list_set row v prior]
  | link_list_insert ndx _ prior => [link_list_erase ndx (prior +w 1)]
  | link_list_move from_ to_ => [link_list_move from_ to_]
  | link_list_swap a b => [link_list_swap a b]
  | link_list_erase ndx prior | link_list_nullify ndx prior => [link_list_insert ndx 0 (prior -w 1)]
  | link_list_clear old =>
      (λ k, link_list_insert (k -w 1) 0 (old -w k)) <$> reverse (seqZ 1 old)
  | nullify_link col row target => [set_value col row (VLink 0 target) instr_Set 0]
  | _ => []
  end.

(** The selections whose instructions have not been written yet *)
Record Pending := mkPending { undone : list Call; table_sel : option Call; desc_sel : option Call; list_sel : option Call }.

Definition push (o : option Call) (cs : list Call) : list Call := cs ++ option_list o.

Definition flush_list (p : Pending) : Pending := mkPending (push (list_sel p) (undone p)) (table_sel p) (desc_sel p) None.
Definition flush_desc (p : Pending) : Pending :=
  let p := flush_list p in mkPending (push (desc_sel p) (undone p)) (table_sel p) None None.
Definition flush_table (p : Pending) : Pending :=
  let p := flush_desc p in mkPending (push (table_sel p) (undone p)) None None None.

Definition undo_step (p : Pending) (c : Call) : Pending :=
  match c with
  | select_table _ _ _ => let p := flush_table p in mkPending (undone p) (Some c) None None
  | select_descriptor _ _ => let p := flush_desc p in mkPending (undone p) (table_sel p) (Some c) None
  | select_link_list _ _ _ => let p := flush_list p in mkPending (undone p) (table_sel p) (desc_sel p) (Some c)
  | insert_group_level_table _ _ _ | erase_group_level_table _ _ | rename_group_level_table _ _ =>
      let p := flush_table p in mkPending (undone p ++ undo_calls c) None None None
  | _ => mkPending (undone p ++ undo_calls c) (table_sel p) (desc_sel p) (list_sel p)
  end.

Definition nothing_pending : Pending := mkPending [] None None None.

(** The log that undoes [cs] *)
Definition reverse_log (cs : list Call) : list Call := reverse (undone (flush_table (foldl undo_step nothing_pending cs))).

(** The calls a reverser can be given: the arguments it computes are in range. *)
Definition reversible (c : Call) : Prop :=
  match c with
  | link_list_set_all _ => False
  | add_int _ _ v => v ≠ min_value int64_t
  | _ => True
  end.

Lemma wrap_size v : in_type size_t (wrap v).
Proof. apply wrap_range. Qed.

Lemma empty_string_ok : string_ok [].
Proof. split; [constructor|]. by vm_compute. Qed.

Ltac sizes_ok := unfold sizes; repeat (apply Forall_cons; split); try apply Forall_nil_2; assumption || apply wrap_size.

Lemma undo_calls_writable c : writable c → reversible c → Forall writable (undo_calls c).
Proof.
  intros Hw Hr. assert (in_type size_t 0) by by_decision. assert (in_type size_t 1) by by_decision.
  pose proof empty_string_ok.
  destruct c; cbn [undo_calls writable reversible] in *; split_writable; try apply Forall_nil_2;
    repeat (apply Forall_cons; split); try apply Forall_nil_2; cbn [writable]; try sizes_ok;
    try (split; [sizes_ok|done]).
  - split; [sizes_ok|]. unfold in_type, min_value, max_value in *. simpl in *. lia.
  - apply Forall_fmap, Forall_forall. intros k Hk. simpl. sizes_ok.
Qed.

(** The calls a parser makes can be written again. *)
Lemma delivered_writable c : writable c → Forall writable (delivered c).
Proof.
  intros Hw. destruct c; try (apply Forall_singleton; exact Hw); cbn [delivered writable] in *.
  - destruct Hw as [Hs Hv]. apply Forall_singleton. split_writable. cbn [writable]. split.
    + unfold sizes. repeat (apply Forall_cons; split); try apply Forall_nil_2; try done. destruct (LogParser.is_unique variant); [done|by_decision].
    + destruct value as [v|v|v|v|[v|]|[v|]|v|s n| |m|row' target|]; cbn in *; split_writable; try done. by destruct variant.
  - destruct Hw as [Hvs Hn]. apply Forall_forall. intros c Hc. apply elem_of_lookup_imap in Hc as (j&v&->&Hj).
    apply Forall_lookup_1 with (1 := Hvs) in Hj as Hv. apply lookup_lt_Some in Hj.
    unfold in_type, min_value, max_value in *. simpl in *. unfold sizes.
    repeat (apply Forall_cons; split); try apply Forall_nil_2; unfold in_type, min_value, max_value; simpl; lia.
Qed.

(** ** The reverser follows [undo_step] *)
Section Reverser.
Context {build : Build} {tstream : TransactLogStream} {slaws : TransactLogStreamLaws}.
Context {core : CoreEncoder} {clawss : CoreEncoderLaws}.
Implicit Types (r : TransactReverser) (p : Pending).
Import LogReverser.

(** The reversed stream as an input *)
Fixpoint order_bytes (buffer : list Z) (order : list Instr) (current : nat) : list Z :=
  match current with
  | O => []
  | S current =>
      match order !! current ≫= block_of buffer with
      | Some block => block ++ order_bytes buffer order current
      | None => []
      end
  end.

Definition stream_bytes (s : ReversedStream) : list Z := order_bytes (m_buffer s) (m_instr_order s) (m_current s).

Lemma block_of_nonempty buffer instr block : block_of buffer instr = Some block → block ≠ [].
Proof.
  destruct instr as [b e]. unfold block_of. destruct (_ && _) eqn:E; [|done]. apply andb_true_iff in E as [E1 E2].
  apply Nat.ltb_lt in E1. apply Nat.leb_le in E2. intros [= <-] Hn. apply (f_equal length) in Hn.
  rewrite length_take, length_drop in Hn. simpl in Hn. lia.
Qed.

#[export] Instance ReversedNoCopyInputStream_laws : NoCopyInputStreamLaws ReversedStream stream_bytes.
Proof.
  split; intros [buffer order [|n]]; unfold next_block, ReversedNoCopyInputStream, stream_bytes; simpl; try done.
  - intros block i' Hs. destruct (order !! n) as [instr|]; [|done]. simpl in *.
    destruct (block_of buffer instr) as [b|] eqn:Hb; [|done]. simpl in Hs. injection Hs as <- <-.
    split; [by eapply block_of_nonempty|done].
  - intros Hs. destruct (order !! n) as [instr|]; [|done]. simpl in *. by destruct (block_of buffer instr).
Qed.

(** *** What has been written *)
Context {S E : Type} (handler : Call → S → (bool * S) + E).
#[local] Notation means := (means (remaining := stream_bytes) handler).

Definition written (buffer : list Z) (instr : Instr) (c : Call) : Prop :=
  ∃ block, block_of buffer instr = Some block ∧ means block c.

Definition pending_written (buffer : list Z) (instr : Instr) (o : option Call) : Prop :=
  match o with Some c => written buffer instr c | None => instr.1 = instr.2 end.

Record follows r p : Prop := mkFollows {
  follows_instrs : Forall2 (written (log (m_encoder r))) (m_instructions r) (undone p);
  follows_start : current_instr_start r = length (log (m_encoder r));
  follows_ts : pending_written (log (m_encoder r)) (m_pending_ts_instr r) (table_sel p);
  follows_ds : pending_written (log (m_encoder r)) (m_pending_ds_instr r) (desc_sel p);
  follows_lv : pending_written (log (m_encoder r)) (m_pending_lv_instr r) (list_sel p) }.

Lemma block_of_app buffer more instr block : block_of buffer instr = Some block → block_of (buffer ++ more) instr = Some block.
Proof.
  destruct instr as [b e]. unfold block_of. destruct (_ && _) eqn:Hr; [|done]. apply andb_true_iff in Hr as [E1 E2].
  apply Nat.leb_le in E2. rewrite E1, length_app. rewrite (proj2 (Nat.leb_le _ _)) by lia. cbn [andb]. intros [= <-]. f_equal.
  rewrite skipn_app, take_app_le; [done|]. rewrite length_drop. apply Nat.ltb_lt in E1. lia.
Qed.

Lemma written_app buffer more instr c : written buffer instr c → written (buffer ++ more) instr c.
Proof. intros (b&Hb&?). exists b. split; [by apply block_of_app|done]. Qed.

Lemma pending_written_app buffer more instr o : pending_written buffer instr o → pending_written (buffer ++ more) instr o.
Proof. destruct o; [apply written_app|done]. Qed.

Lemma written_nonempty buffer instr c : written buffer instr c → instr.1 ≠ instr.2.
Proof.
  intros (b&Hb&_). destruct instr as [x y]. unfold block_of in Hb. simpl. destruct (_ && _) eqn:Hr; [|done].
  apply andb_true_iff in Hr as [E1%Nat.ltb_lt _]. lia.
Qed.

(** Pushing the pending selections *)
Lemma sync_select_written r instr o (cs : list Call) :
  pending_written (log (m_encoder r)) instr o → Forall2 (written (log (m_encoder r))) (m_instructions r) cs →
  Forall2 (written (log (m_encoder r))) (m_instructions (sync_select r instr)) (push o cs).
Proof.
  intros Hp Hcs. unfold sync_select, push. destruct o as [c|]; simpl in *.
  - rewrite (proj2 (Nat.eqb_neq _ _)) by (by eapply written_nonempty). simpl. apply Forall2_app; [done|by constructor].
  - rewrite Hp, Nat.eqb_refl. simpl. by rewrite app_nil_r.
Qed.

Lemma sync_select_same r instr :
  m_encoder (sync_select r instr) = m_encoder r ∧ current_instr_start (sync_select r instr) = current_instr_start r ∧
  m_pending_ts_instr (sync_select r instr) = m_pending_ts_instr r ∧
  m_pending_ds_instr (sync_select r instr) = m_pending_ds_instr r ∧
  m_pending_lv_instr (sync_select r instr) = m_pending_lv_instr r.
Proof. unfold sync_select. by destruct (_ =? _)%nat. Qed.

(** The one of the table, of the descriptor, of the list *)
Lemma push_ts r p :
  follows r p → follows (set_ts (sync_select r (m_pending_ts_instr r)) (0, 0)%nat)
    (mkPending (push (table_sel p) (undone p)) None (desc_sel p) (list_sel p)).
Proof.
  intros [Hi Hst Hts Hds Hlv]. pose proof (sync_select_written r _ _ _ Hts Hi) as Hw.
  destruct (sync_select_same r (m_pending_ts_instr r)) as (E1&E2&E3&E4&E5).
  constructor; simpl; rewrite ?E1, ?E2, ?E4, ?E5; done.
Qed.

Lemma push_ds r p :
  follows r p → follows (set_ds (sync_select r (m_pending_ds_instr r)) (0, 0)%nat)
    (mkPending (push (desc_sel p) (undone p)) (table_sel p) None (list_sel p)).
Proof.
  intros [Hi Hst Hts Hds Hlv]. pose proof (sync_select_written r _ _ _ Hds Hi) as Hw.
  destruct (sync_select_same r (m_pending_ds_instr r)) as (E1&E2&E3&E4&E5).
  constructor; simpl; rewrite ?E1, ?E2, ?E3, ?E5; done.
Qed.

Lemma sync_linkview_follows r p : follows r p → follows (sync_linkview r) (flush_list p).
Proof.
  intros [Hi Hst Hts Hds Hlv]. unfold sync_linkview. pose proof (sync_select_written r _ _ _ Hlv Hi) as Hw.
  destruct (sync_select_same r (m_pending_lv_instr r)) as (E1&E2&E3&E4&E5).
  constructor; simpl; rewrite ?E1, ?E2, ?E3, ?E4; done.
Qed.

Lemma sync_descriptor_follows r p : follows r p → follows (sync_descriptor r) (flush_desc p).
Proof. intros H. apply (push_ds _ _ (sync_linkview_follows r p H)). Qed.

Lemma sync_table_follows r p : follows r p → follows (sync_table r) (flush_table p).
Proof. intros H. apply (push_ts _ _ (sync_descriptor_follows r p H)). Qed.

(** Writing one instruction: the range it is in, and what was written before *)
Lemma encode_written r p c :
  follows r p → writable c →
  ∃ e, encode_call c (m_encoder r) = Some e ∧
    written (log e) (current_instr_start r, length (log e)) c ∧
    Forall2 (written (log e)) (m_instructions r) (undone p) ∧
    pending_written (log e) (m_pending_ts_instr r) (table_sel p) ∧
    pending_written (log e) (m_pending_ds_instr r) (desc_sel p) ∧
    pending_written (log e) (m_pending_lv_instr r) (list_sel p).
Proof.
  intros [Hi Hst Hts Hds Hlv] Hw. destruct (call_continues (remaining := stream_bytes) handler c (m_encoder r) Hw) as (e&bytes&He&Hlog&Hm).
  exists e. split; [done|]. rewrite Hlog, Hst. split; [|split_and!; [eapply Forall2_impl; [done|by intros; apply written_app]|by apply pending_written_app..]].
  exists bytes. split; [|done]. unfold block_of. rewrite length_app. destruct Hm as [Hne _].
  assert (0 < length bytes)%nat by (destruct bytes; [done|simpl; lia]).
  rewrite (proj2 (Nat.ltb_lt _ _)), (proj2 (Nat.leb_le _ _)) by lia. cbn [andb]. f_equal.
  rewrite drop_app_length. rewrite take_ge; [done|lia].
Qed.

Lemma emit_follows r p c :
  follows r p → writable c →
  ∃ r', emit r c = Some r' ∧ follows r' (mkPending (undone p ++ [c]) (table_sel p) (desc_sel p) (list_sel p)).
Proof.
  intros Hf Hw. destruct (encode_written r p c Hf Hw) as (e&He&Hc&Hi&Hts&Hds&Hlv).
  unfold emit, encode. rewrite He. cbn [mbind option_bind]. eexists. split; [done|].
  unfold append_instruction, get_inst, append_instr, set_encoder, transact_log_size. simpl.
  constructor; simpl; try done. apply Forall2_app; [done|by constructor].
Qed.

(** Several instructions one after the other *)
Lemma emits_follow cs : ∀ r p,
  follows r p → Forall writable cs →
  ∃ r', foldlM emit r cs = Some r' ∧ follows r' (mkPending (undone p ++ cs) (table_sel p) (desc_sel p) (list_sel p)).
Proof.
  induction cs as [|c cs IH]; intros r p Hf Hcs.
  { exists r. rewrite app_nil_r. split; [done|]. by destruct p. }
  apply Forall_cons in Hcs as [Hc Hcs]. destruct (emit_follows r p c Hf Hc) as (r1&Hr1&Hf1). simpl. rewrite Hr1.
  cbn [mbind option_bind]. destruct (IH r1 _ Hf1 Hcs) as (r2&Hr2&Hf2). exists r2. split; [done|].
  simpl in Hf2. by rewrite <-app_assoc in Hf2.
Qed.

Lemma link_list_clear_emits n old : ∀ r,
  link_list_clear n old r = foldlM emit r ((λ k, LogData.link_list_insert (k -w 1) 0 (old -w k)) <$> reverse (seqZ 1 (Z.of_nat n))).
Proof.
  induction n as [|n IH]; intros r; [done|]. cbn [link_list_clear].
  rewrite seqZ_S, reverse_app, reverse_singleton. cbn [app fmap list_fmap foldlM].
  replace (1 + Z.of_nat n) with (Z.of_nat (Datatypes.S n)) by lia.
  destruct (emit r _) as [r1|]; [|done]. cbn [mbind option_bind]. apply IH.
Qed.

Lemma bind_Some_id {A} (o : option A) : (x ← o; Some x) = o.
Proof. by destruct o. Qed.

(** A selection is encoded at once, and written with the next one. *)
Lemma select_follows r p c :
  follows r p → writable c →
  ∃ r' instr, encode r c ≫= (λ r, Some (get_inst r)) = Some (instr, r') ∧
    (table_sel p = None → follows (set_ts r' instr) (mkPending (undone p) (Some c) (desc_sel p) (list_sel p))) ∧
    (desc_sel p = None → follows (set_ds r' instr) (mkPending (undone p) (table_sel p) (Some c) (list_sel p))) ∧
    (list_sel p = None → follows (set_lv r' instr) (mkPending (undone p) (table_sel p) (desc_sel p) (Some c))).
Proof.
  intros Hf Hw. destruct (encode_written r p c Hf Hw) as (e&He&Hc&Hi&Hts&Hds&Hlv).
  unfold encode. rewrite He. cbn [mbind option_bind]. unfold get_inst, set_encoder, transact_log_size. simpl.
  do 2 eexists. split; [done|]. split_and!; intros _; constructor; simpl; done.
Qed.

Lemma handle_follows r p c :
  follows r p → writable c → reversible c → ∃ r', handle c r = Some r' ∧ follows r' (undo_step p c).
Proof.
  intros Hf Hw Hr. pose proof (undo_calls_writable c Hw Hr) as Hcs.
  assert (∀ r0 p0, follows r0 p0 → ∃ r', foldlM emit r0 (undo_calls c) = Some r' ∧
    follows r' (mkPending (undone p0 ++ undo_calls c) (table_sel p0) (desc_sel p0) (list_sel p0))) as Hemit.
  { intros. by apply emits_follow. }
  destruct (Hemit r p Hf) as (r1&Hr1&Hf1). destruct (Hemit _ _ (sync_table_follows r p Hf)) as (r2&Hr2&Hf2). clear Hemit.
  destruct c; cbn [handle undo_step]; cbn [undo_calls foldlM] in Hr1, Hr2, Hf1, Hf2; rewrite ?bind_Some_id in Hr1, Hr2;
    try (by exists r1); try (by exists r2).
  - destruct (select_follows _ _ _ (sync_table_follows r p Hf) Hw) as (r'&instr&He&Ht&_&_). unfold select_table.
    destruct (encode (sync_table r) _) as [r0|]; [|done]. cbn [mbind option_bind] in *. destruct (get_inst r0). simplify_eq/=.
    eexists. split; [done|]. by apply Ht.
  - destruct (select_follows _ _ _ (sync_descriptor_follows r p Hf) Hw) as (r'&instr&He&_&Hd&_). unfold select_descriptor.
    destruct (encode (sync_descriptor r) _) as [r0|]; [|done]. cbn [mbind option_bind] in *. destruct (get_inst r0). simplify_eq/=.
    eexists. split; [done|]. by apply Hd.
  - destruct (select_follows _ _ _ (sync_linkview_follows r p Hf) Hw) as (r'&instr&He&_&_&Hl). unfold select_link_list.
    destruct (encode (sync_linkview r) _) as [r0|]; [|done]. cbn [mbind option_bind] in *. destruct (get_inst r0). simplify_eq/=.
    eexists. split; [done|]. by apply Hl.
  - unfold merge_rows. exists r1. split; [|done].
    destruct (emit r _) as [r0|]; [|done]. cbn [mbind option_bind] in *. by rewrite bind_Some_id in Hr1.
  - unfold negate64. rewrite (proj2 (Z.eqb_neq _ _)) by done. cbn [negb mbind option_bind]. by exists r1.
  - exists r1. split; [|done]. rewrite link_list_clear_emits.
    cbn [writable] in Hw. split_writable. unfold in_type, min_value in *. simpl in *. rewrite Z2Nat.id by lia. done.
Qed.

Lemma make_follows : follows make nothing_pending.
Proof. by constructor. Qed.

(** *** The reversed stream *)
Lemma order_bytes_written buffer order cs :
  Forall2 (written buffer) order cs →
  ∃ blocks, Forall2 means blocks (reverse cs) ∧ order_bytes buffer order (length order) = concat blocks.
Proof.
  revert cs. induction order as [|instr order IH] using rev_ind; intros cs Hw.
  { apply Forall2_nil_inv_l in Hw as ->. exists []. split; [constructor|done]. }
  apply Forall2_app_inv_l in Hw as (cs1&cs2&H1&H2&->). apply Forall2_cons_inv_l in H2 as (c&cs3&(block&Hb&Hm)&H3&->).
  apply Forall2_nil_inv_l in H3 as ->. destruct (IH cs1 H1) as (blocks&Hbl&Hbytes).
  exists (block :: blocks). rewrite reverse_app, reverse_singleton. split; [by constructor|].
  rewrite length_app, Nat.add_1_r. cbn [order_bytes length]. rewrite lookup_app_r, Nat.sub_diag by lia. simpl. rewrite Hb.
  cbn [concat]. f_equal. rewrite <-Hbytes. clear. assert (∀ n, (n ≤ length order)%nat →
    order_bytes buffer (order ++ [instr]) n = order_bytes buffer order n) as Hsame; [|by apply Hsame].
  induction n as [|n IH]; intros Hn; [done|]. cbn [order_bytes]. rewrite lookup_app_l by lia.
  destruct (order !! n ≫= block_of buffer); [|done]. f_equal. apply IH. lia.
Qed.

Lemma reversed_stream_bytes r p :
  follows r p →
  ∃ blocks, Forall2 means blocks (reverse (undone (flush_table p))) ∧ stream_bytes (reversed_stream r) = concat blocks.
Proof. intros [Hi _ _ _ _]%sync_table_follows. by apply order_bytes_written. Qed.
End Reverser.

Section Logs.
Context {build : Build} {tstream : TransactLogStream} {slaws : TransactLogStreamLaws}.
Context {core : CoreEncoder} {clawss : CoreEncoderLaws}.

(** The observer of a rollback is called with the reversed log. *)
Lemma observe_reversed_calls {S E} (handler : Call → S → (bool * S) + E) parse_complete r p o :
  follows handler r p →
  ∃ n, ∀ fuel, (n < fuel)%nat →
    LogReverser.observe_reversed handler parse_complete fuel r o =
      s ← run_calls handler (reverse (undone (flush_table p)) ≫= delivered) o;
      match s with inl o => o ← parse_complete o; Some (inl o) | inr e => Some (inr e) end.
Proof.
  intros Hf. destruct (reversed_stream_bytes handler r p Hf) as (blocks&Hb&Hbytes). exists (length (concat blocks)).
  intros fuel Hfuel. unfold LogReverser.observe_reversed, LogParser.parse.
  rewrite (parse_blocks (remaining := stream_bytes) handler blocks _ Hb) by done. done.
Qed.

(** The reverser accepts every log it can undo. *)
Lemma run_reverser {S E} (handler : Call → S → (bool * S) + E) cs : ∀ r p,
  follows handler r p → Forall writable cs → Forall reversible cs →
  ∃ r', run_calls LogReverser.handler cs r = Some (inl r') ∧ follows handler r' (foldl undo_step p cs).
Proof.
  induction cs as [|c cs IH]; intros r p Hf Hw Hr; [by exists r|].
  apply Forall_cons in Hw as [Hwc Hw]. apply Forall_cons in Hr as [Hrc Hr].
  destruct (handle_follows handler r p c Hf Hwc Hrc) as (r1&Hr1&Hf1). cbn [run_calls foldl].
  unfold LogParser.deliver, LogReverser.handler. rewrite Hr1. cbn [mbind option_bind]. by apply IH.
Qed.

(** Rolling back calls the observer with the reversed log. *)
Lemma rollback_calls {S E} (observer : Call → S → (bool * S) + E) parse_complete cs e o :
  Forall writable cs → Forall reversible (cs ≫= delivered) → cs ≠ [] →
  ∃ e' bytes n, encode_log cs e = Some e' ∧ log e' = log e ++ bytes ∧ ∀ fuel, (n < fuel)%nat →
    LogReverser.rollback observer parse_complete fuel bytes o =
      s ← run_calls observer (reverse_log (cs ≫= delivered) ≫= delivered) o;
      match s with inl o => o ← parse_complete o; Some (inl o) | inr e => Some (inr e) end.
Proof.
  intros Hw Hr Hne. assert (Forall writable (cs ≫= delivered)) as Hw'.
  { apply Forall_bind. eapply Forall_impl; [exact Hw|]. apply delivered_writable. }
  destruct (run_reverser observer _ _ _ (make_follows observer) Hw' Hr) as (r&Hrun&Hf).
  destruct (observe_reversed_calls observer parse_complete r _ o Hf) as (n&Hobs).
  destruct (parse_encoded (remaining := buffered) LogReverser.handler cs e Hw) as (e'&bytes&He&Hlog&Hparse).
  destruct (encode_log_means (remaining := buffered) LogReverser.handler cs e Hw) as (e2&blocks&He2&Hlog2&Hb).
  rewrite He in He2. injection He2 as <-. rewrite Hlog in Hlog2. apply app_inv_head in Hlog2 as ->.
  exists e', (concat blocks), (Nat.max n (length (concat blocks))). split; [done|]. split; [done|]. intros fuel Hfuel.
  unfold LogReverser.rollback. rewrite Hparse, Hrun by (done || lia). cbn [mbind option_bind].
  rewrite (proj2 (Nat.ltb_lt _ _)).
  - rewrite Hobs by lia. done.
  - destruct Hb as [|b c blocks cs [Hb _]]; [done|]. simpl. rewrite length_app. destruct b; [done|simpl; lia].
Qed.
End Logs.

(** ** What a call is about *)
Inductive Scope := InGroup | InTable | InDescriptor | InList | Selects.

Definition scope (c : Call) : Scope :=
  match c with
  | select_table _ _ _ | select_descriptor _ _ | select_link_list _ _ _ => Selects
  | insert_group_level_table _ _ _ | erase_group_level_table _ _ | rename_group_level_table _ _ => InGroup
  | insert_link_column _ _ _ _ _ | insert_column _ _ _ _ | erase_link_column _ _ _ | erase_column _ | rename_column _ _
  | add_search_index _ | remove_search_index _ => InDescriptor
  | link_list_set _ _ _ | link_list_set_all _ | link_list_insert _ _ _ | link_list_move _ _ | link_list_swap _ _
  | link_list_erase _ _ | link_list_nullify _ _ | link_list_clear _ => InList
  | _ => InTable
  end.

Lemma reverse_fmap {A B} (f : A → B) l : reverse (f <$> l) = f <$> reverse l.
Proof. induction l as [|x l IH]; [done|]. by rewrite fmap_cons, !reverse_cons, fmap_app, IH. Qed.
