(* ===== verification/Rollback.v ===== *)
(** What a rollback restores: the places of tables, columns, rows and list
    elements, while a log is executed and while the reversed log is.

    A database is a forest: the tables, in them the rows, in these the cells, and in
    a cell of links the elements of its list.  A node that was there before the
    transaction is [Known] by a number; one that is put in, whether by the
    transaction or by the reversed log, is [Unknown], with whatever it holds. *)
From S2P Require Import Prelude ChunkedRangeVector SafeInt LogData LogEncoder LogEncoderTheory LogParser LogReading LogRoundtrip LogReverser LogReverserTheory.

Inductive Node := Unknown | Known (id : Z) (children : list Node).

(** The numbers of the nodes that are there *)
Fixpoint known (x : Node) : list Z :=
  match x with Unknown => [] | Known id children => id :: flat_map known children end.

(** [restored x y]: [x] is [y], or has unknown nodes in the place of some. *)
Inductive restored : Node → Node → Prop :=
  | restored_unknown y : restored Unknown y
  | restored_known id l l' : Forall2 restored l l' → restored (Known id l) (Known id l').

(** ** Changes of the nodes in one place *)
Definition Edit : Type := list Node → option (list Node).

Definition unchanged (ok : list Node → bool) : Edit := λ l, assert! ok l; Some l.

Definition put (i : nat) (new : list Node) : Edit := λ l,
  assert! (i <=? length l)%nat; Some (take i l ++ new ++ drop i l).

Definition remove (i n : nat) : Edit := λ l,
  assert! (i + n <=? length l)%nat; Some (take i l ++ drop (i + n) l).

(** The last one takes the place of the one that is removed; and the one in the
    place of the new one becomes the last. *)
Definition remove_over (i : nat) : Edit := λ l,
  x ← last l;
  assert! (i <? length l)%nat;
  Some (take (pred (length l)) (<[i := x]> l)).

Definition put_over (i : nat) : Edit := λ l,
  match l !! i with
  | Some x => Some (<[i := Unknown]> l ++ [x])
  | None => assert! (i =? length l)%nat; Some (l ++ [Unknown])
  end.

Definition swap (i j : nat) : Edit := λ l,
  x ← l !! i; y ← l !! j; Some (<[i := y]> (<[j := x]> l)).

Definition move (from_ to_ : nat) : Edit := λ l,
  x ← l !! from_;
  assert! (to_ <? length l)%nat;
  Some (take to_ (delete from_ l) ++ x :: drop to_ (delete from_ l)).

Definition clear : Edit := λ _, Some [].

(** A change only when a test of the nodes succeeds *)
Definition checked (ok : list Node → bool) (f : Edit) : Edit := λ l, assert! ok l; f l.

(** A change of the nodes in a node, in one at a path, in every one *)
Definition in_node (f : Edit) (x : Node) : option Node :=
  match x with Unknown => Some Unknown | Known id l => l ← f l; Some (Known id l) end.

Fixpoint at_path (path : list nat) (f : Edit) : Edit :=
  match path with
  | [] => f
  | i :: path => λ l, x ← l !! i; x ← in_node (at_path path f) x; Some (<[i := x]> l)
  end.

Definition in_all (f : Edit) : Edit := mapM (in_node f).

(** ** Executing a log

    The selected table, whether its descriptor is selected, and the row and column
    of the selected list.  A selection that is out of range makes the next change
    fail. *)
Record Selected := mkSelected { on_table : option nat; on_descriptor : bool; on_list : option (nat * nat) }.

Definition nothing_selected : Selected := mkSelected None false None.

Definition size_is (n : Z) (l : list Node) : bool := Z.of_nat (length l) =? n.
(** ... and there is room for [n] more. *)
Definition has_room (prior n : Z) (l : list Node) : bool := size_is prior l && (prior + n <=? npos).
Definition in_range (i : Z) (l : list Node) : bool := i <? Z.of_nat (length l).

Definition in_rows (s : Selected) (f : Edit) : option Edit := t ← on_table s; Some (at_path [t] f).
Definition in_columns (s : Selected) (f : Edit) : option Edit :=
  t ← on_table s; assert! on_descriptor s; Some (at_path [t] (in_all f)).
Definition in_list (s : Selected) (f : Edit) : option Edit :=
  t ← on_table s; '(row, col) ← on_list s; Some (at_path [t; row; col] f).

(** What a call changes.  The numbers of rows and of tables in it are those there
    are; so are the sizes of lists, if [sizes].  Unordered rows are added and
    removed one at a time; merging rows only changes the links to them. *)
Definition change (sizes : bool) (s : Selected) (c : Call) : option Edit :=
  match c with
  | insert_group_level_table ndx num _ => Some (checked (has_room num 1) (put (Z.to_nat ndx) [Unknown]))
  | erase_group_level_table ndx num => Some (checked (size_is num) (remove (Z.to_nat ndx) 1))
  | rename_group_level_table ndx _ => Some (unchanged (in_range ndx))
  | insert_empty_rows row n prior false =>
      in_rows s (checked (has_room prior n) (put (Z.to_nat row) (replicate (Z.to_nat n) Unknown)))
  | insert_empty_rows row n prior true =>
      assert! n =? 1; in_rows s (checked (has_room prior 1) (put_over (Z.to_nat row)))
  | add_row_with_key row prior _ _ =>
      assert! row =? prior; in_rows s (checked (has_room prior 1) (put (Z.to_nat row) [Unknown]))
  | erase_rows row n prior false => in_rows s (checked (size_is prior) (remove (Z.to_nat row) (Z.to_nat n)))
  | erase_rows row n prior true => assert! n =? 1; in_rows s (checked (size_is prior) (remove_over (Z.to_nat row)))
  | swap_rows a b => in_rows s (swap (Z.to_nat a) (Z.to_nat b))
  | move_row a b => in_rows s (move (Z.to_nat a) (Z.to_nat b))
  | merge_rows a b => in_rows s (unchanged (λ l, in_range a l && in_range b l))
  | clear_table old => in_rows s (checked (size_is old) clear)
  | set_value _ row _ _ _ | add_int _ row _ | nullify_link _ row _ | insert_substring _ row _ _
  | erase_substring _ row _ _ => in_rows s (unchanged (in_range row))
  | optimize_table | set_link_type _ _ => in_rows s (unchanged (λ _, true))
  | insert_link_column col _ _ _ _ | insert_column col _ _ _ => in_columns s (put (Z.to_nat col) [Unknown])
  | erase_link_column col _ _ | erase_column col => in_columns s (remove (Z.to_nat col) 1)
  | rename_column col _ | add_search_index col | remove_search_index col => in_columns s (unchanged (in_range col))
  | link_list_set i _ prior => in_list s (unchanged (λ l, (negb sizes || size_is prior l) && in_range i l))
  | link_list_insert i _ prior => in_list s (checked (λ l, negb sizes || has_room prior 1 l) (put (Z.to_nat i) [Unknown]))
  | link_list_erase i prior | link_list_nullify i prior =>
      in_list s (checked (λ l, negb sizes || size_is prior l) (remove (Z.to_nat i) 1))
  | link_list_move a b => in_list s (move (Z.to_nat a) (Z.to_nat b))
  | link_list_swap a b => in_list s (swap (Z.to_nat a) (Z.to_nat b))
  | link_list_clear old => in_list s (checked (size_is old) clear)
  | select_table _ _ _ | select_descriptor _ _ | select_link_list _ _ _ | link_list_set_all _ => None
  end.

(** The calls that change the places of rows or cells: a list that was selected is
    where it was no more. *)
Definition displaces (c : Call) : bool :=
  match c with
  | insert_empty_rows _ _ _ _ | add_row_with_key _ _ _ _ | erase_rows _ _ _ _ | swap_rows _ _ | move_row _ _
  | clear_table _ | insert_link_column _ _ _ _ _ | insert_column _ _ _ _ | erase_link_column _ _ _
  | erase_column _ => true
  | _ => false
  end.

Definition selection_after (s : Selected) (c : Call) : Selected :=
  match scope c with
  | InGroup => nothing_selected
  | _ => if displaces c then mkSelected (on_table s) (on_descriptor s) None else s
  end.

(** One call.  Only top-level tables and their descriptors are selected; as
    [TransactLogConvenientEncoder] forgets the list when it selects a descriptor
    and the descriptor when it selects a list, so does a [strict] execution. *)
Definition execute (strict sizes : bool) (w : list Node * Selected) (c : Call) : option (list Node * Selected) :=
  let '(l, s) := w in
  match c with
  | select_table ndx levels _ => assert! levels =? 0; Some (l, mkSelected (Some (Z.to_nat ndx)) false None)
  | select_descriptor levels _ =>
      assert! (levels =? 0) && bool_decide (is_Some (on_table s));
      Some (l, mkSelected (on_table s) true (if strict then None else on_list s))
  | select_link_list col row _ =>
      assert! bool_decide (is_Some (on_table s));
      Some (l, mkSelected (on_table s) (if strict then false else on_descriptor s) (Some (Z.to_nat row, Z.to_nat col)))
  | _ => f ← change sizes s c; l ← f l; Some (l, selection_after s c)
  end.

Definition execute_all (strict sizes : bool) (cs : list Call) (w : list Node * Selected) : option (list Node * Selected) :=
  foldlM (execute strict sizes) w cs.

(** ** What undoes a change *)
Notation ids := (flat_map known).

(** After [f], [g] restores the places on nodes of which some are unknown, and all
    that are known stay. *)
Definition undone_by (f g : Edit) : Prop := ∀ l l' u,
  f l = Some l' → Forall2 restored u l' → ∃ u', g u = Some u' ∧ Forall2 restored u' l ∧ ids u' ≡ₚ ids u.

Definition unknown (l : list Node) : Prop := Forall (λ x, x = Unknown) l.

Lemma unknown_ids l : unknown l → ids l = [].
Proof. induction 1 as [|x l -> _ IH]; [done|]. exact IH. Qed.

Lemma restored_to_unknown u l : Forall2 restored u l → unknown l → unknown u.
Proof. induction 1 as [|x y u l Hxy _ IH]; intros Hl; [constructor|]. apply Forall_cons in Hl as [-> Hl]. constructor; [by inversion Hxy|by apply IH]. Qed.

Lemma unknown_restored n l : length l = n → Forall2 restored (replicate n Unknown) l.
Proof. intros <-. induction l; simpl; constructor; [constructor|done]. Qed.

Lemma undone_unchanged ok ok' :
  (∀ l u, length u = length l → ok l = true → ok' u = true) → undone_by (unchanged ok) (unchanged ok').
Proof.
  intros Hok l l' u. unfold unchanged. destruct (ok l) eqn:E; [|done]. intros [= <-] Hu. exists u.
  by rewrite (Hok l u) by (done || by eapply Forall2_length).
Qed.

Lemma undone_checked ok ok' f g :
  undone_by f g → (∀ l l' u, ok l = true → f l = Some l' → length u = length l' → ok' u = true) →
  undone_by (checked ok f) (checked ok' g).
Proof.
  intros Hf Hok l l' u. unfold checked. destruct (ok l) eqn:E; [|done]. intros Hl Hu.
  rewrite (Hok l l' u) by (done || by eapply Forall2_length). by eapply Hf.
Qed.

Lemma put_length i new l l' : put i new l = Some l' → length l' = (length l + length new)%nat.
Proof. unfold put. destruct (Nat.leb_spec i (length l)); [|done]. intros [= <-]. rewrite !length_app, length_take, length_drop. lia. Qed.

Lemma remove_length i n l l' : remove i n l = Some l' → length l = (length l' + n)%nat.
Proof. unfold remove. destruct (Nat.leb_spec (i + n) (length l)); [|done]. intros [= <-]. rewrite !length_app, length_take, length_drop. lia. Qed.

Lemma undone_put i new : unknown new → undone_by (put i new) (remove i (length new)).
Proof.
  intros Hnew l l' u. unfold put, remove. destruct (Nat.leb_spec i (length l)) as [Hi|]; [|done]. intros [= <-] Hu.
  apply Forall2_app_inv_r in Hu as (u1&u23&H1&Hu&->). apply Forall2_app_inv_r in Hu as (u2&u3&H2&H3&->).
  pose proof (Forall2_length _ _ _ H1) as L1. pose proof (Forall2_length _ _ _ H2) as L2. pose proof (Forall2_length _ _ _ H3) as L3.
  rewrite length_take in L1. rewrite (proj2 (Nat.leb_le _ _)) by (rewrite !length_app; lia).
  exists (u1 ++ u3). split; [|split].
  - f_equal. rewrite take_app_le by lia. rewrite take_ge by lia. f_equal. rewrite (assoc_L (++)), drop_app_ge by (rewrite length_app; lia).
    replace (i + length new - length (u1 ++ u2))%nat with 0%nat by (rewrite length_app; lia). done.
  - rewrite <-(take_drop i l). by apply Forall2_app.
  - rewrite !flat_map_app, (unknown_ids u2) by by eapply restored_to_unknown. done.
Qed.

Lemma undone_remove i n : undone_by (remove i n) (put i (replicate n Unknown)).
Proof.
  intros l l' u. unfold put, remove. destruct (Nat.leb_spec (i + n) (length l)) as [Hi|]; [|done]. intros [= <-] Hu.
  apply Forall2_app_inv_r in Hu as (u1&u2&H1&H2&->). pose proof (Forall2_length _ _ _ H1) as L1. rewrite length_take in L1.
  rewrite (proj2 (Nat.leb_le _ _)) by (rewrite length_app; lia). eexists. split; [done|].
  rewrite take_app_le, (take_ge u1), drop_app_ge by lia. replace (i - length u1)%nat with 0%nat by lia. rewrite drop_0. split.
  - rewrite <-(take_drop i l). apply Forall2_app; [done|]. rewrite <-(take_drop n (drop i l)), drop_drop. apply Forall2_app; [|done].
    apply unknown_restored. rewrite length_take, length_drop. lia.
  - rewrite !flat_map_app, (unknown_ids (replicate n Unknown)); [done|]. by apply Forall_replicate.
Qed.

Lemma insert_perm (l : list Node) i x y : l !! i = Some x → x :: <[i := y]> l ≡ₚ y :: l.
Proof.
  intros Hi. rewrite insert_take_drop by by eapply lookup_lt_Some.
  rewrite <-(take_drop_middle l i x Hi) at 3. rewrite <-!Permutation_middle. apply perm_swap.
Qed.

Lemma ids_perm l l' : l ≡ₚ l' → ids l ≡ₚ ids l'.
Proof. by apply Permutation_flat_map. Qed.

Lemma ids_insert (l : list Node) i x y : l !! i = Some x → known x ++ ids (<[i := y]> l) ≡ₚ known y ++ ids l.
Proof. intros Hi. exact (ids_perm _ _ (insert_perm l i x y Hi)). Qed.

Lemma restored_lookup u l i x : Forall2 restored u l → l !! i = Some x → ∃ y, u !! i = Some y ∧ restored y x.
Proof. intros Hu Hi. by eapply Forall2_lookup_r. Qed.

Lemma remove_over_app i l x :
  (i < S (length l))%nat → remove_over i (l ++ [x]) = Some (<[i := x]> l).
Proof.
  intros Hi. unfold remove_over. rewrite last_snoc. cbn [mbind option_bind]. rewrite (proj2 (Nat.ltb_lt _ _)) by (rewrite length_app; simpl; lia).
  f_equal. rewrite length_app. simpl. replace (pred (length l + 1)) with (length l) by lia.
  destruct (decide (i = length l)) as [->|].
  - rewrite (list_insert_ge l) by lia. rewrite insert_app_r_alt, Nat.sub_diag by lia. simpl. by rewrite take_app_length.
  - rewrite insert_app_l by lia. by rewrite take_app_length' by by rewrite length_insert.
Qed.

Lemma undone_remove_over i : undone_by (remove_over i) (put_over i).
Proof.
  intros l l' u Hl Hu. destruct l as [|x l _] using rev_ind; [done|].
  assert (i < S (length l))%nat as Hi.
  { unfold remove_over in Hl. rewrite last_snoc in Hl. cbn [mbind option_bind] in Hl.
    destruct (Nat.ltb_spec i (length (l ++ [x]))) as [H|]; [|done]. rewrite length_app in H. simpl in H. lia. }
  rewrite remove_over_app in Hl by done. injection Hl as <-. pose proof (Forall2_length _ _ _ Hu) as Hlen. rewrite length_insert in Hlen.
  unfold put_over. destruct (decide (i = length l)) as [->|Hne].
  - rewrite lookup_ge_None_2 by lia. rewrite (proj2 (Nat.eqb_eq _ _)) by lia. eexists. split; [done|].
    rewrite list_insert_ge in Hu by lia. split; [apply Forall2_app; [done|]; by repeat constructor|].
    rewrite flat_map_app. simpl. by rewrite app_nil_r.
  - destruct (restored_lookup u _ i x Hu) as (y&Hy&Hyx); [apply list_lookup_insert_eq; lia|]. rewrite Hy. eexists. split; [done|]. split.
    + apply Forall2_app; [|by repeat constructor]. destruct (lookup_lt_is_Some_2 l i) as [z Hz]; [lia|].
      assert (l = <[i := z]> (<[i := x]> l)) as -> by (by rewrite list_insert_insert_eq, list_insert_id).
      apply Forall2_insert; [done|constructor].
    + rewrite flat_map_app. simpl. rewrite app_nil_r, (comm (++)). exact (ids_insert u i y Unknown Hy).
Qed.

Lemma undone_put_over i : undone_by (put_over i) (remove_over i).
Proof.
  intros l l' u. unfold put_over. destruct (l !! i) as [x|] eqn:Hx.
  - intros [= <-] Hu. apply Forall2_app_inv_r in Hu as (u1&u2&H1&H2&->). apply Forall2_cons_inv_r in H2 as (y&?&Hy&->%Forall2_nil_inv_r&->).
    pose proof (Forall2_length _ _ _ H1) as Hlen. rewrite length_insert in Hlen. apply lookup_lt_Some in Hx as Hlt.
    rewrite remove_over_app by lia. eexists. split; [done|]. split.
    + assert (l = <[i := x]> (<[i := Unknown]> l)) as -> by (by rewrite list_insert_insert_eq, list_insert_id).
      by apply Forall2_insert.
    + destruct (restored_lookup u1 _ i Unknown H1) as (z&Hz&Hzu); [by apply list_lookup_insert_eq|].
      assert (z = Unknown) as -> by by inversion Hzu. rewrite flat_map_app. simpl. rewrite app_nil_r, (comm (++) (ids u1)).
      exact (ids_insert u1 i Unknown y Hz).
  - destruct (Nat.eqb_spec i (length l)) as [->|]; [|done]. intros [= <-] Hu.
    apply Forall2_app_inv_r in Hu as (u1&u2&H1&H2&->). apply Forall2_cons_inv_r in H2 as (y&?&Hy&->%Forall2_nil_inv_r&->).
    assert (y = Unknown) as -> by by inversion Hy. pose proof (Forall2_length _ _ _ H1) as Hlen.
    rewrite remove_over_app by lia. eexists. split; [done|]. rewrite list_insert_ge by lia. split; [done|].
    rewrite flat_map_app. simpl. by rewrite app_nil_r.
Qed.

Lemma put_end l : put (length l) [Unknown] l = put_over (length l) l.
Proof. unfold put, put_over. rewrite Nat.leb_refl, lookup_ge_None_2, Nat.eqb_refl, take_ge, drop_ge by lia. done. Qed.

Lemma swap_perm (l : list Node) i j x y : l !! i = Some x → l !! j = Some y → <[i := y]> (<[j := x]> l) ≡ₚ l.
Proof.
  intros Hi Hj. apply (Permutation_cons_inv (a := x)). rewrite (insert_perm (<[j := x]> l) i x y).
  - by apply insert_perm.
  - destruct (decide (i = j)) as [->|]; [|by rewrite list_lookup_insert_ne].
    rewrite list_lookup_insert_eq by by eapply lookup_lt_Some. congruence.
Qed.

Lemma undone_swap i j : undone_by (swap i j) (swap i j).
Proof.
  intros l l' u. unfold swap. destruct (l !! i) as [x|] eqn:Hi; [|done]. destruct (l !! j) as [y|] eqn:Hj; [|done].
  cbn [mbind option_bind]. intros [= <-] Hu. pose proof (lookup_lt_Some _ _ _ Hi). pose proof (lookup_lt_Some _ _ _ Hj).
  destruct (restored_lookup u _ i y Hu) as (a&Ha&Hay); [apply list_lookup_insert_eq; by rewrite length_insert|].
  destruct (restored_lookup u _ j x Hu) as (b&Hb&Hbx).
  { destruct (decide (i = j)) as [->|]; [rewrite list_lookup_insert_eq by (by rewrite length_insert); congruence|].
    rewrite list_lookup_insert_ne by done. by apply list_lookup_insert_eq. }
  rewrite Ha, Hb. cbn [mbind option_bind]. eexists. split; [done|]. split; [|by apply ids_perm, swap_perm].
  assert (l = <[i := x]> (<[j := y]> (<[i := y]> (<[j := x]> l)))) as ->; [|by repeat apply Forall2_insert].
  apply list_eq. intros k. destruct (decide (k = i)) as [->|Hki].
  - by rewrite list_lookup_insert_eq by by rewrite !length_insert.
  - rewrite list_lookup_insert_ne by done. destruct (decide (k = j)) as [->|Hkj].
    + by rewrite list_lookup_insert_eq by by rewrite !length_insert.
    + by rewrite !list_lookup_insert_ne by done.
Qed.

Lemma put_delete (l : list Node) i x : l !! i = Some x → take i (delete i l) ++ x :: drop i (delete i l) = l.
Proof.
  intros Hi. rewrite delete_take_drop. pose proof (lookup_lt_Some _ _ _ Hi).
  rewrite take_app_le, (take_ge (take i l)), drop_app_ge by (rewrite length_take; lia).
  rewrite length_take, Nat.min_l by lia. rewrite Nat.sub_diag, drop_0. by apply take_drop_middle.
Qed.

Lemma undone_move i j : undone_by (move i j) (move j i).
Proof.
  intros l l' u. unfold move. destruct (l !! i) as [x|] eqn:Hi; [|done]. cbn [mbind option_bind].
  destruct (Nat.ltb_spec j (length l)) as [Hj|]; [|done]. intros [= <-] Hu. apply lookup_lt_Some in Hi as Hlt.
  assert (length (delete i l) = pred (length l)) as Hd by (rewrite length_delete by (by eexists); lia).
  apply Forall2_app_inv_r in Hu as (u1&u2&H1&H2&->). apply Forall2_cons_inv_r in H2 as (y&u3&Hy&H3&->).
  pose proof (Forall2_length _ _ _ H1) as L1. pose proof (Forall2_length _ _ _ H3) as L3. rewrite length_take in L1. rewrite length_drop in L3.
  assert (j = length u1) as -> by lia. rewrite list_lookup_middle by done. cbn [mbind option_bind].
  rewrite (proj2 (Nat.ltb_lt _ _)) by (rewrite length_app; simpl; lia). rewrite delete_middle. eexists. split; [done|]. split.
  - rewrite <-(put_delete l i x Hi). assert (Forall2 restored (u1 ++ u3) (delete i l)) as Hu.
    { rewrite <-(take_drop (length u1) (delete i l)). by apply Forall2_app. }
    apply Forall2_app; [by apply Forall2_take|]. constructor; [done|by apply Forall2_drop].
  - apply ids_perm. rewrite <-!Permutation_middle, take_drop. done.
Qed.

(** Moving to a position next to it and back are the same. *)
Lemma move_near i l : move (S i) i l = move i (S i) l.
Proof.
  destruct (decide (S i < length l)%nat) as [Hlt|Hge].
  - destruct (lookup_lt_is_Some_2 l i) as [x Hx]; [lia|]. destruct (lookup_lt_is_Some_2 l (S i)) as [y Hy]; [done|].
    assert (∃ a b, l = a ++ x :: y :: b ∧ i = length a) as (a&b&->&->).
    { exists (take i l), (drop (S (S i)) l). split; [|rewrite length_take; lia].
      rewrite <-(drop_S l y (S i)) by done. by rewrite take_drop_middle. }
    unfold move. rewrite Hx, Hy. cbn [mbind option_bind]. rewrite !(proj2 (Nat.ltb_lt _ _)) by lia.
    assert (delete (S (length a)) (a ++ x :: y :: b) = a ++ x :: b) as ->.
    { change (x :: y :: b) with ([x] ++ y :: b). rewrite (assoc_L (++)).
      replace (S (length a)) with (length (a ++ [x])) by (rewrite length_app; simpl; lia). rewrite delete_middle. by rewrite <-(assoc_L (++)). }
    rewrite delete_middle. rewrite take_app_length, drop_app_length. f_equal.
    change (a ++ y :: b) with (a ++ [y] ++ b). rewrite (assoc_L (++)).
    replace (S (length a)) with (length (a ++ [y])) by (rewrite length_app; simpl; lia).
    by rewrite take_app_length, drop_app_length, <-(assoc_L (++)).
  - unfold move. rewrite lookup_ge_None_2 by lia. destruct (l !! i); [|done]. cbn [mbind option_bind].
    by rewrite (proj2 (Nat.ltb_ge _ _)) by lia.
Qed.

(** A cleared list is filled from the front. *)
Definition seq_edits (gs : list Edit) : Edit := λ l, foldlM (λ l g, g l) l gs.

Definition fill (n : nat) : list Edit := (λ k, put k [Unknown]) <$> seq 0 n.

Lemma fill_spec n : seq_edits (fill n) [] = Some (replicate n Unknown).
Proof.
  unfold seq_edits, fill. induction n as [|n IH]; [done|].
  rewrite seq_S, fmap_app, foldlM_app, IH. cbn [mbind option_bind fmap list_fmap foldlM]. rewrite Nat.add_0_l.
  unfold put. rewrite length_replicate, Nat.leb_refl, take_ge, drop_ge by by rewrite length_replicate.
  cbn [mbind option_bind]. by rewrite app_nil_r, replicate_S_end.
Qed.

Lemma undone_clear n g :
  (g [] = Some (replicate n Unknown)) → undone_by (checked (size_is (Z.of_nat n)) clear) g.
Proof.
  intros Hg l l' u. unfold checked, clear, size_is. destruct (Z.eqb_spec (Z.of_nat (length l)) (Z.of_nat n)) as [E|]; [|done].
  intros [= <-] ->%Forall2_nil_inv_r. rewrite Hg. eexists. split; [done|]. split; [apply unknown_restored; lia|].
  by rewrite unknown_ids by by apply Forall_replicate.
Qed.

(** *** In a place *)
Lemma undone_in_node f g x x' y :
  undone_by f g → in_node f x = Some x' → restored y x' →
  ∃ y', in_node g y = Some y' ∧ restored y' x ∧ known y' ≡ₚ known y.
Proof.
  intros Hf. destruct x as [|id l]; simpl.
  - intros [= <-] Hy. exists Unknown. inversion Hy; subst. simpl. split_and!; [done|constructor|done].
  - destruct (f l) as [l'|] eqn:Hl; [|done]. intros [= <-] Hy. inversion Hy as [|id' u l'' Hu]; subst.
    + exists Unknown. split_and!; [done|constructor|done].
    + destruct (Hf l l' u Hl Hu) as (u'&Hu'&Hr&Hk). simpl. rewrite Hu'. eexists. split; [done|]. split; [by constructor|by simpl; rewrite Hk].
Qed.

Lemma undone_at_path path : ∀ f g, undone_by f g → undone_by (at_path path f) (at_path path g).
Proof.
  induction path as [|i path IH]; intros f g Hf; [done|]. intros l l' u. cbn [at_path].
  destruct (l !! i) as [x|] eqn:Hx; [|done]. cbn [mbind option_bind]. destruct (in_node (at_path path f) x) as [x'|] eqn:Hx'; [|done].
  intros [= <-] Hu. apply lookup_lt_Some in Hx as Hlt.
  destruct (restored_lookup u _ i x' Hu) as (y&Hy&Hyx); [by apply list_lookup_insert_eq|]. rewrite Hy. cbn [mbind option_bind].
  destruct (undone_in_node _ _ x x' y (IH f g Hf) Hx' Hyx) as (y'&->&Hr&Hk). eexists. split; [done|]. split.
  - assert (l = <[i := x]> (<[i := x']> l)) as -> by (by rewrite list_insert_insert_eq, list_insert_id). by apply Forall2_insert.
  - apply (Permutation_app_inv_l (known y)). rewrite (ids_insert u i y y' Hy). by rewrite Hk.
Qed.

Lemma undone_in_all f g : undone_by f g → undone_by (in_all f) (in_all g).
Proof.
  intros Hf l. unfold in_all. induction l as [|x l IH]; intros l' u; simpl.
  { intros [= <-] ->%Forall2_nil_inv_r. by exists []. }
  destruct (in_node f x) as [x'|] eqn:Hx; [|done]. cbn [mbind option_bind]. destruct (mapM (in_node f) l) as [l1|] eqn:Hl; [|done].
  cbn [mbind option_bind]. intros [= <-] (y&u1&Hy&Hu&->)%Forall2_cons_inv_r. simpl.
  destruct (undone_in_node f g x x' y Hf Hx Hy) as (y'&->&Hr&Hk). destruct (IH l1 u1 eq_refl Hu) as (u'&Hu'&Hr'&Hk').
  cbn [mbind option_bind]. rewrite Hu'. cbn [mbind option_bind]. eexists. split; [done|]. split; [by constructor|].
  simpl. by rewrite Hk, Hk'.
Qed.

(** Several edits in one place, one after the other *)
Lemma at_path_compose path : ∀ f g l l',
  at_path path (λ l, m ← f l; g m) l = Some l' → ∃ m, at_path path f l = Some m ∧ at_path path g m = Some l'.
Proof.
  induction path as [|i path IH]; intros f g l l'; cbn [at_path].
  - destruct (f l) as [m|]; [|done]. eauto.
  - destruct (l !! i) as [x|] eqn:Hx; [|done]. cbn [mbind option_bind]. apply lookup_lt_Some in Hx as Hlt. destruct x as [|id ch]; simpl.
    + intros [= <-]. eexists. split; [done|]. rewrite list_lookup_insert_eq by done. simpl. by rewrite list_insert_insert_eq.
    + destruct (at_path path _ ch) as [ch'|] eqn:Hch; [|done]. simpl. intros [= <-]. apply IH in Hch as (m&Hm&Hg).
      rewrite Hm. simpl. eexists. split; [done|]. rewrite list_lookup_insert_eq by done. simpl. rewrite Hg. simpl. by rewrite list_insert_insert_eq.
Qed.

Lemma at_path_same path f : (∀ l, f l = Some l) → ∀ l l', at_path path f l = Some l' → l' = l.
Proof.
  intros Hf. induction path as [|i path IH]; intros l l'; cbn [at_path]; [rewrite Hf; congruence|].
  destruct (l !! i) as [x|] eqn:Hx; [|done]. cbn [mbind option_bind]. destruct x as [|id ch]; simpl.
  - intros [= <-]. by apply list_insert_id.
  - destruct (at_path path f ch) as [ch'|] eqn:Hch; [|done]. simpl. intros [= <-]. rewrite (IH _ _ Hch). by apply list_insert_id.
Qed.

Lemma at_path_seq path gs : ∀ l l', at_path path (seq_edits gs) l = Some l' → seq_edits (at_path path <$> gs) l = Some l'.
Proof.
  induction gs as [|g gs IH]; intros l l'.
  - intros H%at_path_same; [|done]. by subst.
  - intros (m&Hg&Hgs)%(at_path_compose path g (seq_edits gs)). unfold seq_edits in *. cbn [fmap list_fmap foldlM]. rewrite Hg. by apply IH.
Qed.

Lemma undone_seq_path path f gs :
  undone_by f (seq_edits gs) → undone_by (at_path path f) (seq_edits (at_path path <$> gs)).
Proof.
  intros Hf l l' u Hl Hu. destruct (undone_at_path path _ _ Hf l l' u Hl Hu) as (u'&Hu'&?&?). exists u'. split; [by apply at_path_seq|done].
Qed.

Lemma undone_single f g : undone_by f g → undone_by f (seq_edits [g]).
Proof. intros Hf l l' u Hl Hu. destruct (Hf l l' u Hl Hu) as (u'&Hg&?&?). exists u'. unfold seq_edits. simpl. by rewrite Hg. Qed.

Lemma undone_none ok : undone_by (unchanged ok) (seq_edits []).
Proof. intros l l' u. unfold unchanged. destruct (ok l); [|done]. intros [= <-] Hu. by exists u. Qed.

(** ** What undoes a call *)

(** Positions next to each other: a move to one further away is not undone
    ([list_move_not_undone]). *)
Definition undoable (c : Call) : Prop :=
  reversible c ∧ match c with link_list_move a b => Z.abs (a - b) ≤ 1 | _ => True end.

(** The sizes recorded in what undoes clearing a longer list are wrong. *)
Definition short_clear (c : Call) : Prop := match c with link_list_clear old => old ≤ 1 | _ => True end.

Lemma size_in_type v : in_type size_t v → 0 ≤ v ≤ npos.
Proof. unfold in_type, min_value, max_value. simpl. slia. Qed.

Lemma size_is_spec n l : size_is n l = true ↔ Z.of_nat (length l) = n.
Proof. apply Z.eqb_eq. Qed.

Lemma has_room_spec prior n l : has_room prior n l = true ↔ Z.of_nat (length l) = prior ∧ prior + n ≤ npos.
Proof. unfold has_room. by rewrite andb_true_iff, size_is_spec, Z.leb_le. Qed.

(** A change with the number of nodes there are and the number of them after it *)
Lemma undone_put_sized prior n m i :
  0 ≤ prior → 0 ≤ n → Z.to_nat n = m →
  undone_by (checked (has_room prior n) (put i (replicate m Unknown))) (checked (size_is (prior +w n)) (remove i m)).
Proof.
  intros Hp Hn <-. apply undone_checked.
  - rewrite <-(length_replicate (Z.to_nat n) Unknown) at 2. by apply undone_put, Forall_replicate.
  - intros l l' u [Hl Hr]%has_room_spec Hput%put_length Hu. apply size_is_spec. rewrite length_replicate in Hput.
    rewrite wadd_small by lia. lia.
Qed.

Lemma undone_remove_sized prior n m i :
  0 ≤ prior ≤ npos → 0 ≤ n → Z.to_nat n = m →
  undone_by (checked (size_is prior) (remove i m)) (checked (has_room (prior -w n) n) (put i (replicate m Unknown))).
Proof.
  intros Hp Hn <-. apply undone_checked; [apply undone_remove|].
  intros l l' u Hl%size_is_spec Hrem%remove_length Hu. apply has_room_spec. rewrite wsub_small by lia. lia.
Qed.

Lemma put_over_length i l l' : put_over i l = Some l' → length l' = S (length l).
Proof.
  unfold put_over. destruct (l !! i); [|destruct (i =? length l)%nat; [|done]]; intros [= <-];
    rewrite length_app, ?length_insert; simpl; lia.
Qed.

Lemma remove_over_length i l l' : remove_over i l = Some l' → length l = S (length l').
Proof.
  destruct l as [|x l _] using rev_ind; [done|]. unfold remove_over. rewrite last_snoc. cbn [mbind option_bind].
  destruct (_ <? _)%nat; [|done]. intros [= <-]. rewrite length_take, length_insert, length_app. simpl. lia.
Qed.

Lemma undone_put_over_sized prior i :
  0 ≤ prior → undone_by (checked (has_room prior 1) (put_over i)) (checked (size_is (prior +w 1)) (remove_over i)).
Proof.
  intros Hp. apply undone_checked; [apply undone_put_over|].
  intros l l' u [Hl Hr]%has_room_spec Hput%put_over_length Hu. apply size_is_spec. rewrite wadd_small by lia. lia.
Qed.

Lemma undone_put_end_sized prior :
  0 ≤ prior →
  undone_by (checked (has_room prior 1) (put (Z.to_nat prior) [Unknown])) (checked (size_is (prior +w 1)) (remove_over (Z.to_nat prior))).
Proof.
  intros Hp l l' u Hl Hu. apply (undone_put_over_sized prior (Z.to_nat prior) Hp l l' u); [|done]. rewrite <-Hl.
  unfold checked. destruct (has_room prior 1 l) eqn:E; [|done]. apply has_room_spec in E as [E _].
  replace (Z.to_nat prior) with (length l) by lia. by rewrite put_end.
Qed.

Lemma undone_remove_over_sized prior i :
  0 ≤ prior ≤ npos →
  undone_by (checked (size_is prior) (remove_over i)) (checked (has_room (prior -w 1) 1) (put_over i)).
Proof.
  intros Hp. apply undone_checked; [apply undone_remove_over|].
  intros l l' u Hl%size_is_spec Hrem%remove_over_length Hu. apply has_room_spec. rewrite wsub_small by lia. lia.
Qed.

(** The same for lists, whose sizes need not be checked *)
Lemma undone_list_put sizes prior i :
  0 ≤ prior →
  undone_by (checked (λ l, negb true || has_room prior 1 l) (put i [Unknown]))
    (checked (λ l, negb sizes || size_is (prior +w 1) l) (remove i 1)).
Proof.
  intros Hp. apply undone_checked; [by apply (undone_put i [Unknown]), Forall_singleton|]. cbn [negb orb].
  intros l l' u [Hl Hr]%has_room_spec Hput%put_length Hu. destruct sizes; [|done]. apply size_is_spec. simpl in Hput.
  rewrite wadd_small by lia. lia.
Qed.

Lemma undone_list_remove sizes prior i :
  0 ≤ prior ≤ npos →
  undone_by (checked (λ l, negb true || size_is prior l) (remove i 1))
    (checked (λ l, negb sizes || has_room (prior -w 1) 1 l) (put i [Unknown])).
Proof.
  intros Hp. apply undone_checked; [apply (undone_remove i 1)|]. cbn [negb orb].
  intros l l' u Hl%size_is_spec Hrem%remove_length Hu. destruct sizes; [|done]. apply has_room_spec.
  rewrite wsub_small by lia. lia.
Qed.

(** A list that was cleared is filled from the front, as the log is reversed. *)
Definition refill (sizes : bool) (old : Z) (k : Z) : Edit :=
  checked (λ l, negb sizes || has_room (old -w k) 1 l) (put (Z.to_nat (k -w 1)) [Unknown]).

Lemma refill_fill sizes old :
  0 ≤ old ≤ npos → (sizes = true → old ≤ 1) →
  seq_edits (refill sizes old <$> seqZ 1 old) [] = Some (replicate (Z.to_nat old) Unknown).
Proof.
  intros Hold Hsizes. rewrite <-fill_spec. destruct sizes.
  - specialize (Hsizes eq_refl). assert (old = 0 ∨ old = 1) as [-> | ->] by lia; reflexivity.
  - unfold seqZ, fill, seq_edits. rewrite <-list_fmap_compose.
    assert (∀ n l, Z.of_nat n ≤ npos → foldlM (λ l g, g l) l ((refill false old ∘ (λ i, Z.of_nat i + 1)) <$> seq 0 n) =
      foldlM (λ l g, g l) l ((λ k, put k [Unknown]) <$> seq 0 n)) as H; [|by apply H; lia].
    intros n. induction n as [|n IH]; intros l Hn; [done|]. rewrite !seq_S, !fmap_app, !foldlM_app, IH by lia.
    match goal with |- (?o ≫= _) = _ => destruct o as [m|] end; [|done]. cbn [mbind option_bind fmap list_fmap foldlM].
    unfold refill, checked. cbn [negb orb compose]. rewrite wsub_small by lia. replace (Z.to_nat (Z.of_nat (0 + n) + 1 - 1)) with (0 + n)%nat by lia. done.
Qed.

Lemma undone_list_clear sizes old :
  0 ≤ old ≤ npos → (sizes = true → old ≤ 1) →
  undone_by (checked (size_is old) clear) (seq_edits (refill sizes old <$> seqZ 1 old)).
Proof.
  intros Hold Hsizes. rewrite <-(Z2Nat.id old) at 1 by lia. apply undone_clear. by apply refill_fill.
Qed.

Lemma undone_near_move a b : (a = b ∨ a = S b ∨ b = S a)%nat → undone_by (move a b) (move a b).
Proof.
  intros Hab l l' u Hl Hu. assert (∀ l, move a b l = move b a l) as E.
  { intros k. destruct Hab as [-> | [-> | ->]]; [done|by rewrite move_near|by rewrite move_near]. }
  rewrite E. by eapply undone_move.
Qed.

Lemma undone_in_rows s f g h : undone_by f g → in_rows s f = Some h → ∃ h', in_rows s g = Some h' ∧ undone_by h h'.
Proof.
  unfold in_rows. destruct (on_table s) as [t|]; [|done]. intros Hf [= <-]. eexists. split; [done|]. exact (undone_at_path [t] f g Hf).
Qed.

Lemma undone_in_columns s f g h : undone_by f g → in_columns s f = Some h → ∃ h', in_columns s g = Some h' ∧ undone_by h h'.
Proof.
  unfold in_columns. destruct (on_table s) as [t|]; [|done]. cbn [mbind option_bind]. destruct (on_descriptor s); [|done].
  intros Hf [= <-]. eexists. split; [done|]. exact (undone_at_path [t] _ _ (undone_in_all f g Hf)).
Qed.

Lemma undone_in_list s f g h : undone_by f g → in_list s f = Some h → ∃ h', in_list s g = Some h' ∧ undone_by h h'.
Proof.
  unfold in_list. destruct (on_table s) as [t|]; [|done]. cbn [mbind option_bind]. destruct (on_list s) as [[r c]|]; [|done].
  intros Hf [= <-]. eexists. split; [done|]. exact (undone_at_path [t; r; c] f g Hf).
Qed.

(** One call undone by one, in rows, in columns, in a list *)
Definition undoes_by (sizes : bool) (s : Selected) (f : Edit) (cs : list Call) : Prop :=
  ∃ gs, Forall2 (λ c g, change sizes s c = Some g) cs gs ∧ undone_by f (seq_edits gs).

Lemma undoes_by_one sizes s f c g : change sizes s c = Some g → undone_by f g → undoes_by sizes s f [c].
Proof. intros Hc Hg. exists [g]. split; [by repeat constructor|by apply undone_single]. Qed.

Lemma undoes_by_rows sizes s c f g h :
  undone_by f g → in_rows s f = Some h → change sizes s c = in_rows s g → undoes_by sizes s h [c].
Proof. intros Hf Hh Hc. destruct (undone_in_rows s f g h Hf Hh) as (h'&Hh'&Hu). eapply undoes_by_one; [by rewrite Hc|done]. Qed.

Lemma undoes_by_columns sizes s c f g h :
  undone_by f g → in_columns s f = Some h → change sizes s c = in_columns s g → undoes_by sizes s h [c].
Proof. intros Hf Hh Hc. destruct (undone_in_columns s f g h Hf Hh) as (h'&Hh'&Hu). eapply undoes_by_one; [by rewrite Hc|done]. Qed.

Lemma undoes_by_list sizes s c f g h :
  undone_by f g → in_list s f = Some h → change sizes s c = in_list s g → undoes_by sizes s h [c].
Proof. intros Hf Hh Hc. destruct (undone_in_list s f g h Hf Hh) as (h'&Hh'&Hu). eapply undoes_by_one; [by rewrite Hc|done]. Qed.

(** Changes that leave the places as they are *)
Lemma undone_at_path_none path ok : undone_by (at_path path (unchanged ok)) (seq_edits []).
Proof. apply (undone_seq_path path _ []), undone_none. Qed.

Lemma undone_all_none path ok : undone_by (at_path path (in_all (unchanged ok))) (seq_edits []).
Proof.
  intros l l' u Hl Hu. destruct (undone_at_path path _ _ (undone_in_all _ _ (undone_unchanged ok (λ _, true) ltac:(done))) l l' u Hl Hu)
    as (u'&Hu'&Hr&Hk). exists u. split; [done|]. assert (u' = u) as <-; [|done].
  refine (at_path_same path _ _ _ _ Hu'). intros k. unfold in_all. induction k as [|[|id x] k IH]; [done|..]; simpl; by rewrite IH.
Qed.

Lemma undoes_by_nothing sizes s f ok :
  in_rows s (unchanged ok) = Some f ∨ in_columns s (unchanged ok) = Some f ∨ in_list s (unchanged ok) = Some f →
  undoes_by sizes s f [].
Proof.
  unfold in_rows, in_columns, in_list. destruct (on_table s) as [t|]; [|by intros [|[|]]]. cbn [mbind option_bind].
  intros Hf. exists []. split; [done|]. destruct Hf as [[= <-]|[Hf|Hf]].
  - apply (undone_at_path_none [t]).
  - destruct (on_descriptor s); [|done]. injection Hf as <-. apply (undone_all_none [t]).
  - destruct (on_list s) as [[r c]|]; [|done]. injection Hf as <-. apply (undone_at_path_none [t; r; c]).
Qed.

Lemma in_range_same i l u : length u = length l → in_range i u = in_range i l.
Proof. unfold in_range. by intros ->. Qed.

Lemma undoes_by_merge sizes s a b f :
  in_rows s (unchanged (λ l, in_range a l && in_range b l)) = Some f →
  undoes_by sizes s f [merge_rows b b; merge_rows a a].
Proof.
  unfold undoes_by. assert (∀ c, change sizes s (merge_rows c c) = in_rows s (unchanged (λ l, in_range c l && in_range c l))) as Hc by done.
  unfold in_rows in *. destruct (on_table s) as [t|]; [|done]. intros [= <-].
  exists [at_path [t] (unchanged (λ l, in_range b l && in_range b l)); at_path [t] (unchanged (λ l, in_range a l && in_range a l))].
  split; [constructor; [exact (Hc b)|constructor; [exact (Hc a)|constructor]]|]. apply (undone_seq_path [t] _ [unchanged _; unchanged _]).
  intros l l' u Hl Hu. unfold unchanged in Hl. destruct (in_range a l && in_range b l) eqn:E; [|done]. injection Hl as <-.
  apply andb_true_iff in E as [Ea Eb]. pose proof (Forall2_length _ _ _ Hu) as Hlen.
  exists u. unfold seq_edits, unchanged. simpl. rewrite (in_range_same b l u Hlen), Eb. simpl.
  by rewrite (in_range_same a l u Hlen), Ea.
Qed.

Lemma undoes_by_clear sizes s old f :
  0 ≤ old ≤ npos → (sizes = true → old ≤ 1) → in_list s (checked (size_is old) clear) = Some f →
  undoes_by sizes s f ((λ k, link_list_insert (k -w 1) 0 (old -w k)) <$> seqZ 1 old).
Proof.
  unfold undoes_by. intros Hold Hs. assert (∀ k, change sizes s (link_list_insert (k -w 1) 0 (old -w k)) = in_list s (refill sizes old k)) as Hc by done.
  unfold in_list in *. destruct (on_table s) as [t|]; [|done]. cbn [mbind option_bind] in *. destruct (on_list s) as [[r c]|]; [|done].
  cbn [mbind option_bind] in *. intros [= <-]. exists ((λ k, at_path [t; r; c] (refill sizes old k)) <$> seqZ 1 old). split.
  - induction (seqZ 1 old) as [|k l IH]; constructor; [apply Hc|exact IH].
  - rewrite (list_fmap_compose (refill sizes old) (at_path [t; r; c])). exact (undone_seq_path [t; r; c] _ _ (undone_list_clear sizes old Hold Hs)).
Qed.

(** What undoes a call undoes the change it makes. *)
Ltac by_rows H := eapply undoes_by_rows; [|exact H|reflexivity].
Ltac by_columns H := eapply undoes_by_columns; [|exact H|reflexivity].
Ltac by_list H := eapply undoes_by_list; [|exact H|reflexivity].
Ltac same_range := let l := fresh in let u := fresh in let E := fresh in intros l u E; rewrite ?(in_range_same _ l u E); done.

Lemma change_undone sizes s c f :
  writable c → undoable c → (sizes = true → short_clear c) → change true s c = Some f →
  undoes_by sizes s f (reverse (undo_calls c)).
Proof.
  intros Hw [Hr Hm] Hc Hf. assert (1 ≤ npos) as Hnpos by by vm_compute. destruct c; cbn [change undo_calls] in *; try done;
    try (apply undoes_by_nothing with (1 := or_introl Hf));
    try (apply undoes_by_nothing with (1 := or_intror (or_introl Hf)));
    cbn [writable] in Hw; split_writable;
    repeat match goal with H : in_type size_t _ |- _ => apply size_in_type in H end;
    cbn [reverse rev_append].
  - injection Hf as <-. eapply undoes_by_one; [reflexivity|]. apply (undone_put_sized num_tables 1 1); lia.
  - injection Hf as <-. eapply undoes_by_one; [reflexivity|]. apply (undone_remove_sized num_tables 1 1); lia.
  - injection Hf as <-. exists []. split; [constructor|apply undone_none].
  - destruct unordered; [destruct (Z.eqb_spec num_rows_to_insert 1) as [->|]; [|done]|]; by_rows Hf.
    + apply undone_put_over_sized; lia.
    + apply undone_put_sized; lia.
  - destruct (Z.eqb_spec row_ndx prior_num_rows) as [->|]; [|done]. by_rows Hf. apply undone_put_end_sized; lia.
  - destruct unordered; [destruct (Z.eqb_spec num_rows_to_erase 1) as [->|]; [|done]|]; by_rows Hf.
    + apply undone_remove_over_sized; lia.
    + apply undone_remove_sized; lia.
  - by_rows Hf. apply undone_swap.
  - by_rows Hf. apply undone_move.
  - by apply undoes_by_merge.
  - by_rows Hf. rewrite <-(Z2Nat.id old_table_size) at 1 by lia. apply undone_clear.
    unfold checked, has_room, size_is, put. cbn [length]. rewrite (proj2 (Z.leb_le _ _)) by lia. simpl. by rewrite app_nil_r.
  - by_rows Hf. apply undone_unchanged. same_range.
  - by_rows Hf. apply undone_unchanged. same_range.
  - by_rows Hf. apply undone_unchanged. same_range.
  - by_columns Hf. apply (undone_put _ [Unknown]), Forall_singleton. done.
  - by_columns Hf. apply (undone_put _ [Unknown]), Forall_singleton. done.
  - by_columns Hf. apply (undone_remove _ 1).
  - by_columns Hf. apply (undone_remove _ 1).
  - by_list Hf. apply undone_unchanged. cbn [negb orb]. intros l u E [Hs Hi]%andb_true_iff. unfold size_is in *.
    rewrite (in_range_same _ l u E), Hi, E, Hs. by destruct sizes.
  - by_list Hf. apply undone_list_put; lia.
  - by_list Hf. apply undone_near_move. lia.
  - by_list Hf. apply undone_swap.
  - by_list Hf. apply undone_list_remove; lia.
  - by_list Hf. apply undone_list_remove; lia.
  - rewrite <-reverse_fmap, reverse_involutive. by apply undoes_by_clear.
Qed.

(** ** More selections do no harm *)
Definition more (s s' : Selected) : Prop :=
  (∀ t, on_table s = Some t → on_table s' = Some t) ∧ (on_descriptor s = true → on_descriptor s' = true) ∧
  (∀ r, on_list s = Some r → on_list s' = Some r).

Lemma more_refl s : more s s.
Proof. done. Qed.

Lemma nothing_more s : more nothing_selected s.
Proof. done. Qed.

Lemma in_rows_more s s' f g : more s s' → in_rows s f = Some g → in_rows s' f = Some g.
Proof. intros (Ht&_). unfold in_rows. destruct (on_table s) as [t|]; [|done]. by rewrite (Ht t). Qed.

Lemma in_columns_more s s' f g : more s s' → in_columns s f = Some g → in_columns s' f = Some g.
Proof.
  intros (Ht&Hd&_). unfold in_columns. destruct (on_table s) as [t|]; [|done]. rewrite (Ht t) by done.
  cbn [mbind option_bind]. destruct (on_descriptor s); [|done]. by rewrite Hd.
Qed.

Lemma in_list_more s s' f g : more s s' → in_list s f = Some g → in_list s' f = Some g.
Proof.
  intros (Ht&_&Hl). unfold in_list. destruct (on_table s) as [t|]; [|done]. rewrite (Ht t) by done.
  cbn [mbind option_bind]. destruct (on_list s) as [rc|]; [|done]. by rewrite (Hl rc).
Qed.

Lemma change_more sizes s s' c f : more s s' → change sizes s c = Some f → change sizes s' c = Some f.
Proof.
  intros Hm. destruct c; cbn [change]; try done; eauto using in_columns_more, in_list_more, in_rows_more.
  - destruct unordered; [destruct (_ =? _); [|done]|]; eauto using in_rows_more.
  - destruct (_ =? _); [|done]. eauto using in_rows_more.
  - destruct unordered; [destruct (_ =? _); [|done]|]; eauto using in_rows_more.
Qed.

(** ** Executing what undoes a call *)
#[export] Instance Scope_eq_dec : EqDecision Scope.
Proof. solve_decision. Defined.

Lemma execute_change strict sizes l s c f :
  scope c ≠ Selects → change sizes s c = Some f →
  execute strict sizes (l, s) c = l ← f l; Some (l, selection_after s c).
Proof. intros Hs Hc. destruct c; try done; unfold execute; by rewrite Hc. Qed.

(** Calls after which the same is selected *)
Lemma execute_changes strict sizes s cs gs : ∀ l l',
  Forall (λ c, scope c ≠ Selects ∧ selection_after s c = s) cs →
  Forall2 (λ c g, change sizes s c = Some g) cs gs → seq_edits gs l = Some l' →
  execute_all strict sizes cs (l, s) = Some (l', s).
Proof.
  intros l l' Hcs Hg. revert l Hcs. unfold execute_all, seq_edits. induction Hg as [|c g cs gs Hc _ IH]; intros l Hcs; cbn [foldlM].
  - by intros [= <-].
  - apply Forall_cons in Hcs as [[Hs Ha] Hcs]. rewrite (execute_change strict sizes l s c g) by done. destruct (g l) as [l1|]; [|done].
    cbn [mbind option_bind]. rewrite Ha. by apply IH.
Qed.

Lemma execute_all_app strict sizes cs cs' w :
  execute_all strict sizes (cs ++ cs') w = w ← execute_all strict sizes cs w; execute_all strict sizes cs' w.
Proof. apply foldlM_app. Qed.

(** The selection after the reversed log of a call: a change of rows or columns, or
    of the tables, is undone by at most one. *)
Lemma undo_calls_kept c s :
  displaces c = false → scope c ≠ InGroup → Forall (λ c', scope c' ≠ Selects ∧ selection_after s c' = s) (reverse (undo_calls c)).
Proof.
  intros Hd Hs. apply Forall_reverse. destruct c; try done; simpl; try (by repeat constructor).
  apply Forall_fmap, Forall_forall. intros k _. done.
Qed.

Lemma undo_calls_single c :
  displaces c = true ∨ scope c = InGroup → undo_calls c = [] ∧ scope c = InGroup ∨
  ∃ c', undo_calls c = [c'] ∧ displaces c' = displaces c ∧ scope c' = scope c.
Proof. intros [H|H]; destruct c; try done; simpl; eauto; right; by eexists. Qed.

Lemma undo_executed sizes s c f l l' u :
  undoes_by sizes s f (reverse (undo_calls c)) → scope c ≠ Selects → f l = Some l' → Forall2 restored u l' →
  ∃ u' s', execute_all false sizes (reverse (undo_calls c)) (u, s) = Some (u', s') ∧
    Forall2 restored u' l ∧ ids u' ≡ₚ ids u ∧ (scope c ≠ InGroup → s' = selection_after s c).
Proof.
  intros (gs&Hgs&Hf) Hsc Hl Hu. destruct (Hf l l' u Hl Hu) as (u'&Hg&Hr&Hk).
  destruct (decide (displaces c = true ∨ scope c = InGroup)) as [Hd|Hd].
  - destruct (undo_calls_single c Hd) as [[E Hs]|(c'&E&Hdis&Hs)]; rewrite E in Hgs |- *.
    + apply Forall2_nil_inv_l in Hgs as ->. injection Hg as <-. exists u, s. done.
    + apply Forall2_cons_inv_l in Hgs as (g&gs'&Hc&->%Forall2_nil_inv_l&->). unfold seq_edits in Hg. cbn [foldlM] in Hg.
      destruct (g u) as [u1|] eqn:Hgu; [|done]. injection Hg as <-. exists u1, (selection_after s c'). split.
      { unfold execute_all. cbn [reverse rev_append foldlM]. rewrite (execute_change false sizes u s c' g) by congruence. by rewrite Hgu. }
      split; [done|]. split; [done|]. intros _. unfold selection_after. by rewrite Hs, Hdis.
  - apply Decidable.not_or in Hd as [Hd Hs]. apply not_true_is_false in Hd. exists u', s. split; [|split; [done|split; [done|]]].
    + eapply execute_changes; [|exact Hgs|exact Hg]. by apply undo_calls_kept.
    + intros _. unfold selection_after. rewrite Hd. by destruct (scope c).
Qed.

(** ** Whole transactions

    Once a list was selected, rows and columns are only added, moved or removed after
    a table, or its descriptor, has been selected again: the reverser writes the
    selection of a list before the one of the next list, descriptor or table, not
    before the next change of rows ([list_of_other_row_told]). *)
Definition listed_after (listed : bool) (c : Call) : bool :=
  match c with
  | select_link_list _ _ _ => true
  | select_table _ _ _ | select_descriptor _ _ => false
  | _ => match scope c with InGroup => false | _ => listed end
  end.

Fixpoint reselects (listed : bool) (cs : list Call) : bool :=
  match cs with
  | [] => true
  | c :: cs => negb (displaces c && listed) && reselects (listed_after listed c) cs
  end.

(** What is selected when the reverser has written what is pending *)
Definition pending_selected (p : Pending) : Selected := mkSelected
  (match table_sel p with Some (select_table ndx _ _) => Some (Z.to_nat ndx) | _ => None end)
  (bool_decide (is_Some (desc_sel p)))
  (match list_sel p with Some (select_link_list col row _) => Some (Z.to_nat row, Z.to_nat col) | _ => None end).

Definition pending_ok (p : Pending) : Prop :=
  (table_sel p = None → desc_sel p = None ∧ list_sel p = None) ∧
  (∀ c, table_sel p = Some c → ∃ ndx path, c = select_table ndx 0 path) ∧
  (∀ c, desc_sel p = Some c → ∃ path, c = select_descriptor 0 path) ∧
  (∀ c, list_sel p = Some c → ∃ col row target, c = select_link_list col row target).

Section Transaction.
Context (sizes : bool) (w0 : list Node).
Implicit Types (u w : list Node) (s : Selected) (p : Pending).

(** These calls put the nodes back as they were before the transaction. *)
Definition rolls_back (cs : list Call) w s : Prop := ∀ u, Forall2 restored u w →
  ∃ u0 s0, execute_all false sizes cs (u, s) = Some (u0, s0) ∧ Forall2 restored u0 w0 ∧ ids u0 ≡ₚ ids u.

(** The reversed log so far undoes the transaction so far. *)
Record rolled_back p w s : Prop := mkRolledBack {
  rb_log s' : more (pending_selected p) s' → rolls_back (reverse (undone p)) w s';
  rb_selected : more s (pending_selected p);
  rb_ok : pending_ok p }.

(** A selection, and what it makes of the log after it *)
Lemma rolls_back_select c cs w s s' :
  (∀ u, execute false sizes (u, s) c = Some (u, s')) → rolls_back cs w s' → rolls_back (c :: cs) w s.
Proof. intros Hc Hcs u Hu. unfold execute_all. cbn [foldlM]. rewrite Hc. by apply Hcs. Qed.

Lemma rolls_back_app cs cs' w w' s :
  (∀ u, Forall2 restored u w' → ∃ u1 s1, execute_all false sizes cs (u, s) = Some (u1, s1) ∧ Forall2 restored u1 w ∧
     ids u1 ≡ₚ ids u ∧ rolls_back cs' w s1) →
  rolls_back (cs ++ cs') w' s.
Proof.
  intros Hcs u Hu. destruct (Hcs u Hu) as (u1&s1&Hex&Hr&Hk&Hcs'). destruct (Hcs' u1 Hr) as (u0&s0&Hex'&Hr'&Hk').
  exists u0, s0. rewrite execute_all_app, Hex. split; [exact Hex'|]. split; [done|]. by rewrite Hk'.
Qed.

(** What is pending, written *)
Lemma rb_flush_list p w s s' :
  rolled_back p w s → on_table s' = on_table (pending_selected p) →
  (on_descriptor (pending_selected p) = true → on_descriptor s' = true) →
  rolls_back (reverse (undone (flush_list p))) w s'.
Proof.
  intros [Hlog _ (Hn&Ht&_&Hl)] Htab Hdesc. unfold flush_list, push. cbn [undone]. destruct (list_sel p) as [c|] eqn:E; simpl (option_list _).
  - destruct (Hl c eq_refl) as (col&row&target&->). rewrite reverse_app, reverse_singleton. cbn [app].
    apply rolls_back_select with (s' := mkSelected (on_table s') (on_descriptor s') (Some (Z.to_nat row, Z.to_nat col))).
    + intros u. unfold execute. rewrite bool_decide_eq_true_2; [done|]. rewrite Htab. unfold pending_selected. cbn [on_table].
      destruct (table_sel p) as [c|]; [|by destruct Hn]. destruct (Ht c eq_refl) as (ndx&path&->). by eexists.
    + apply Hlog. split; [by cbn [on_table]; rewrite Htab|]. split; [done|]. unfold pending_selected. by rewrite E.
  - rewrite app_nil_r. apply Hlog. split; [by rewrite Htab|]. split; [done|]. unfold pending_selected. cbn [on_list]. by rewrite E.
Qed.

Lemma rb_flush_desc p w s s' :
  rolled_back p w s → on_table s' = on_table (pending_selected p) → rolls_back (reverse (undone (flush_desc p))) w s'.
Proof.
  intros Hp Htab. pose proof Hp as [_ _ (Hn&Ht&Hd&_)]. unfold flush_desc, push. cbn [undone].
  change (desc_sel (flush_list p)) with (desc_sel p). destruct (desc_sel p) as [c|] eqn:E; simpl (option_list _).
  - destruct (Hd c eq_refl) as (path&->). rewrite reverse_app, reverse_singleton. cbn [app].
    apply rolls_back_select with (s' := mkSelected (on_table s') true (on_list s')).
    + intros u. unfold execute. rewrite bool_decide_eq_true_2; [done|]. rewrite Htab. unfold pending_selected. cbn [on_table].
      destruct (table_sel p) as [c|]; [|by destruct Hn]. destruct (Ht c eq_refl) as (ndx&path'&->). by eexists.
    + by eapply rb_flush_list.
  - rewrite app_nil_r. eapply rb_flush_list; [done..|]. unfold pending_selected. cbn [on_descriptor]. rewrite E.
    intros H%bool_decide_eq_true. by destruct H.
Qed.

Lemma rb_flush_table p w s s' : rolled_back p w s → rolls_back (reverse (undone (flush_table p))) w s'.
Proof.
  intros Hp. pose proof Hp as [Hlog _ (Hn&Ht&_&_)]. unfold flush_table, push. cbn [undone].
  change (table_sel (flush_desc p)) with (table_sel p). destruct (table_sel p) as [c|] eqn:E; simpl (option_list _).
  - destruct (Ht c eq_refl) as (ndx&path&->). rewrite reverse_app, reverse_singleton. cbn [app].
    apply rolls_back_select with (s' := mkSelected (Some (Z.to_nat ndx)) false None); [done|].
    eapply rb_flush_desc; [done|]. unfold pending_selected. by rewrite E.
  - destruct (Hn eq_refl) as [Ed El]. unfold flush_desc, flush_list, push. cbn [undone desc_sel]. rewrite Ed, El. simpl (option_list _).
    rewrite !app_nil_r. apply Hlog. unfold pending_selected. rewrite E, Ed, El. done.
Qed.

(** One call *)
Lemma rolled_back_select p w s c w' s' :
  rolled_back p w s → scope c = Selects → execute true true (w, s) c = Some (w', s') →
  rolled_back (undo_step p c) w' s'.
Proof.
  intros Hp Hc Hex. pose proof Hp as [_ (Mt&_&_) (Hn&Kt&Kd&Kl)].
  assert (∀ t, on_table s = Some t → table_sel p ≠ None) as Htab.
  { intros t Ht%Mt E. unfold pending_selected in Ht. cbn [on_table] in Ht. by rewrite E in Ht. }
  destruct c as [ndx levels path|levels path|col row target| | | | | | | | | | | | | | | | | | | | | | | | | | | | | | | |]; try done;
    unfold execute in Hex; cbn [undo_step].
  - destruct (Z.eqb_spec levels 0) as [->|]; [|done]. simplify_eq. constructor.
    + intros s' _. by eapply rb_flush_table.
    + done.
    + split_and!; try done; []. by intros c [= <-]; eauto.
  - destruct (Z.eqb_spec levels 0) as [->|]; [|done]. case_bool_decide as Ht; [|done]. cbn [andb] in Hex. simplify_eq.
    destruct Ht as [t Ht]. constructor.
    + intros s' (M&_&_). eapply rb_flush_desc; [done|].
      pose proof (Mt t Ht) as Hpt. rewrite Hpt. by apply M.
    + by split_and!.
    + split_and!; try done; [|by intros c [= <-]; eauto]. intros E. by destruct (Htab t Ht).
  - case_bool_decide as Ht; [|done]. simplify_eq. destruct Ht as [t Ht]. constructor.
    + intros s' (M&Md&_). eapply rb_flush_list; [done| |exact Md]. pose proof (Mt t Ht) as Hpt. rewrite Hpt. by apply M.
    + done.
    + split_and!; try done; [|by intros c [= <-]; eauto 6]. intros E. by destruct (Htab t Ht).
Qed.

Lemma undo_step_change p c :
  scope c ≠ Selects → scope c ≠ InGroup →
  undo_step p c = mkPending (undone p ++ undo_calls c) (table_sel p) (desc_sel p) (list_sel p).
Proof. by destruct c. Qed.

Lemma undo_step_group p c :
  scope c = InGroup → undo_step p c = mkPending (undone (flush_table p) ++ undo_calls c) None None None.
Proof. by destruct c. Qed.

Lemma selection_after_more s s' c : more s s' → more (selection_after s c) (selection_after s' c).
Proof. intros (Mt&Md&Ml). unfold selection_after. destruct (scope c); try (by split_and!); by destruct (displaces c). Qed.

Lemma rolled_back_change p w s c f w' :
  rolled_back p w s → writable c → undoable c → (sizes = true → short_clear c) → scope c ≠ Selects →
  (displaces c = true → list_sel p = None) →
  change true s c = Some f → f w = Some w' → rolled_back (undo_step p c) w' (selection_after s c).
Proof.
  intros Hp Hw Hu Hsh Hsc Hdis Hc Hf. pose proof Hp as [Hlog Hsel Hok].
  assert (∀ s', more s s' → undoes_by sizes s' f (reverse (undo_calls c))) as Hun.
  { intros s' Hm. by apply change_undone, (change_more true s s'). }
  destruct (decide (scope c = InGroup)) as [Hg|Hg].
  - rewrite undo_step_group by done. constructor.
    + intros s' _. cbn [undone]. rewrite reverse_app. apply (rolls_back_app _ _ w). intros u Hu'.
      assert (undoes_by sizes s' f (reverse (undo_calls c))) as Hb.
      { apply change_undone; [done..|]. by destruct c. }
      destruct (undo_executed sizes s' c f w w' u Hb Hsc Hf Hu') as (u1&s1&Hex&Hr&Hk&_). exists u1, s1.
      do 3 (split; [done|]). by eapply rb_flush_table.
    + unfold selection_after. rewrite Hg. apply nothing_more.
    + done.
  - rewrite undo_step_change by done. constructor.
    + intros s' Hm. cbn [undone]. rewrite reverse_app. apply (rolls_back_app _ _ w). intros u Hu'.
      change (more (pending_selected p) s') in Hm. assert (more s s') as Hm' by (destruct Hm as (?&?&?), Hsel as (?&?&?); split_and!; auto).
      destruct (undo_executed sizes s' c f w w' u (Hun s' Hm') Hsc Hf Hu') as (u1&s1&Hex&Hr&Hk&Hs). exists u1, s1.
      do 3 (split; [done|]). apply Hlog. rewrite Hs by done. unfold selection_after.
      destruct (displaces c) eqn:Hd; [|by destruct (scope c)].
      assert (more (pending_selected p) (mkSelected (on_table s') (on_descriptor s') None)) as Hm2; [|by destruct (scope c)].
      destruct Hm as (?&?&_). split_and!; [done..|]. unfold pending_selected. cbn [on_list]. by rewrite (Hdis eq_refl).
    + change (more (selection_after s c) (pending_selected p)). unfold selection_after.
      destruct (scope c); try done; destruct (displaces c); try done; by destruct Hsel as (?&?&_).
    + done.
Qed.

Lemma rolled_back_all cs : ∀ p w s listed w' s',
  rolled_back p w s → listed = bool_decide (is_Some (list_sel p)) → Forall writable cs → Forall undoable cs →
  (sizes = true → Forall short_clear cs) → reselects listed cs = true →
  execute_all true true cs (w, s) = Some (w', s') → rolled_back (foldl undo_step p cs) w' s'.
Proof.
  unfold execute_all. induction cs as [|c cs IH]; intros p w s listed w' s' Hp Hl Hw Hu Hsh Hr Hex; cbn [foldl foldlM reselects] in *.
  { by simplify_eq. }
  apply Forall_cons in Hw as [Hwc Hw]. apply Forall_cons in Hu as [Huc Hu].
  assert (sizes = true → short_clear c) as Hsc by (intros H; by apply Hsh, Forall_cons in H as [? _]).
  apply andb_true_iff in Hr as [Hd Hr].
  destruct (execute true true (w, s) c) as [[w1 s1]|] eqn:Hex1; [|done]. cbn [mbind option_bind] in Hex.
  eapply IH; [| |done|done|by intros H; apply Hsh, Forall_cons in H as [_ ?]|exact Hr|exact Hex].
  - destruct (decide (scope c = Selects)) as [Hs|Hs]; [by eapply rolled_back_select|].
    destruct (change true s c) as [f|] eqn:Hc.
    2:{ destruct c; try done; unfold execute in Hex1; by rewrite Hc in Hex1. }
    rewrite (execute_change true true w s c f) in Hex1 by done. destruct (f w) as [w2|] eqn:Hf; [|done]. simplify_eq/=.
    eapply rolled_back_change; try done. intros Hdc. rewrite Hdc in Hd. cbn [andb] in Hd.
    apply negb_true_iff, bool_decide_eq_false in Hd. destruct (list_sel p); [by destruct Hd|done].
  - subst listed. destruct c; try done; cbn [listed_after undo_step scope list_sel flush_table flush_desc]; by rewrite ?bool_decide_eq_true_2.
Qed.
End Transaction.

(** The parser calls the handler as the log is executed. *)
Lemma execute_delivered strict sizes cs : ∀ w w',
  execute_all strict sizes cs w = Some w' → execute_all strict sizes (cs ≫= delivered) w = Some w'.
Proof.
  unfold execute_all. induction cs as [|c cs IH]; intros w w'; [done|]. rewrite bind_cons. cbn [foldlM].
  destruct (execute strict sizes w c) as [w1|] eqn:Hc; [|done]. cbn [mbind option_bind]. intros H%IH. rewrite foldlM_app.
  assert (foldlM (execute strict sizes) w (delivered c) = Some w1) as ->; [|exact H].
  destruct c; try (cbn [delivered foldlM]; by rewrite Hc).
  - cbn [delivered foldlM]. destruct w as [l s]. change (execute strict sizes (l, s) (set_value _ _ _ _ _)) with
      (execute strict sizes (l, s) (set_value col_ndx row_ndx value variant prior_num_rows)). by rewrite Hc.
  - by destruct w.
Qed.

(** The reversed log puts everything back that is still there. *)
Lemma reverse_log_restores sizes cs w0 w s :
  Forall writable cs → Forall undoable cs → (sizes = true → Forall short_clear cs) → reselects false cs = true →
  execute_all true true cs (w0, nothing_selected) = Some (w, s) →
  ∃ w1 s1, execute_all false sizes (reverse_log cs ≫= delivered) (w, nothing_selected) = Some (w1, s1) ∧
    Forall2 restored w1 w0 ∧ ids w1 ≡ₚ ids w.
Proof.
  intros Hw Hu Hsh Hr Hex. assert (Forall2 restored w w) as Hww.
  { clear. assert (∀ x, restored x x) as Hx; [|by induction w; constructor].
    fix IH 1. intros [|id l]; constructor. induction l as [|x l IHl]; constructor; [apply IH|exact IHl]. }
  assert (rolled_back sizes w0 nothing_pending w0 nothing_selected) as H0.
  { constructor; [|done|done]. intros s' _ u Hu0. by exists u, s'. }
  pose proof (rolled_back_all sizes w0 cs _ _ _ false w s H0 eq_refl Hw Hu Hsh Hr Hex) as Hp.
  destruct (rb_flush_table sizes w0 _ w s nothing_selected Hp w Hww) as (w1&s1&Hex1&Hr1&Hk1).
  exists w1, s1. split; [|done]. by apply execute_delivered.
Qed.
