(* ===== verification/LogCodeProps.v ===== *)
(** The properties of the encoding of transaction logs, and of the reversed log. *)
From stdpp Require Import gmap.
From S2P Require Import Prelude ChunkedRangeVector IndexSet IndexSetTheory IndexSetMerge IndexSetSpec IndexSetProps ChangeBuilder ChangeRefinement TableRows DeepChange SafeInt LogData TransactLog Transaction TransactLogEnd TransactLogProps.
From S2P Require Import LogEncoder LogEncoderTheory LogParser LogReading LogRoundtrip LogReverser LogReverserTheory Rollback.

(** ** Moving twice *)
Lemma at_NoDup {A} (l : list A) p q x : NoDup l → at_ l p = Some x → at_ l q = Some x → p = q.
Proof.
  intros Hnd Hp Hq. pose proof (at_Some _ _ _ Hp). pose proof (at_Some _ _ _ Hq). unfold at_ in *.
  rewrite decide_True in Hp by lia. rewrite decide_True in Hq by lia. pose proof (NoDup_lookup _ _ _ _ Hnd Hp Hq). lia.
Qed.

(** The element that moves the second time was next to the first one. *)
Lemma move_twice l l1 l2 f t :
  list_op (OMove f t) l = Some l1 → list_op (OMove f t) l1 = Some l2 →
  ∃ x, at_ l (if decide (f < t) then f + 1 else f - 1) = Some x ∧ at_ l2 t = Some x.
Proof.
  assert (∀ l l1, list_op (OMove f t) l = Some l1 → f ≠ t ∧ 0 ≤ t < len l ∧ ∃ x, at_ l f = Some x ∧ l1 = list_insert (delete (Z.to_nat f) l) t [x] ∧
    at_ l1 t = Some x) as Hmove.
  { intros k k1. simpl. destruct (_ && _) eqn:E; [|done]. apply andb_true_iff in E as [[Hne%negb_true_iff%Z.eqb_neq H0%Z.leb_le]%andb_true_iff Ht%Z.ltb_lt].
    destruct (at_ k f) as [x|] eqn:Hx; [|done]. intros [= <-]. split; [done|]. split; [lia|]. exists x. split; [done|]. split; [done|].
    pose proof (at_Some _ _ _ Hx). rewrite at_list_insert by (rewrite len_delete; lia).
    rewrite decide_False, decide_True by (unfold len; simpl; lia). by rewrite Z.sub_diag. }
  intros (Hne&Ht&x&Hx&->&_)%Hmove (_&_&y&Hy&_&Hy')%Hmove. exists y. split; [|done]. rewrite <-Hy.
  pose proof (at_Some _ _ _ Hx). rewrite at_list_insert by (rewrite len_delete; lia). change (len [x]) with 1.
  destruct (decide (f < t)).
  - rewrite at_delete, decide_False by lia. done.
  - rewrite decide_False by lia. rewrite at_delete, decide_True by lia. done.
Qed.

Section Claims.
Context {build : Build} {tstream : TransactLogStream} {slaws : TransactLogStreamLaws}.
Context {core : CoreEncoder} {clawss : CoreEncoderLaws}.
Context {I : Type} `{NoCopyInputStream I} {remaining : I → list Z} {laws : NoCopyInputStreamLaws I remaining}.
Implicit Types (e : TransactLogEncoder) (i : Input I).
#[local] Notation input_bytes := (input_bytes (remaining := remaining)).

(** C5: round trip.  Writing any calls with arguments of their types succeeds:
    no write goes past the memory reserved for it.  Whatever blocks the bytes
    come in, parsing them calls the handler with these calls, in order, until it
    throws or does not accept one.  The default of a double is excepted: it comes
    back as an assignment ([double_default_is_assignment]). *)
Theorem log_roundtrip {S E} (handler : Call → S → (bool * S) + E) cs e :
  Forall writable cs → Forall keeps_variant cs →
  ∃ e' bytes, encode_log cs e = Some e' ∧ log e' = log e ++ bytes ∧
    ∀ fuel s in_, (length bytes < fuel)%nat → remaining in_ = bytes →
      LogParser.parse handler fuel in_ s = run_calls handler (cs ≫= meant) s.
Proof. intros Hw Hk. rewrite <-delivered_meant by done. by apply parse_encoded. Qed.

(** C6: integers.  A value of any type is written with at most ten bytes, and
    they are read back as a value of a signed type if and only if it can hold
    the value; otherwise the log is refused. *)
Theorem integers_exact t t' v i rest :
  is_signed t = true → encodable t → encodable t' → in_type t' v →
  ∃ bytes, LogEncoder.int_bytes t' v = Some bytes ∧ Z.of_nat (length bytes) ≤ 10 ∧
    (input_bytes i = bytes ++ rest →
       (in_type t v → ∃ i', LogParser.read_int t i = Some (v, i') ∧ input_bytes i' = rest) ∧
       (¬ in_type t v → LogParser.read_int t i = None)).
Proof.
  intros Hs Ht Ht' Hv. destruct (int_bytes_Some t' v Ht' Hv) as (bytes&Hb&_&Hl&_).
  destruct (max_bytes_bounds t' Ht') as [Hten _]. exists bytes. split; [done|]. split; [lia|]. intros Hi.
  assert (default [] (LogEncoder.int_bytes t' v) = bytes) as E by (by rewrite Hb). split.
  - intros Hin. apply (read_int_as t t' v); [done..|]. simpl. by rewrite E.
  - intros Hnot. apply (read_int_refuses (remaining := remaining) t t' v i rest); [done..|]. by rewrite E.
Qed.

(** A negative value is not refused where a [size_t] is read, as the
    comment on the encoding says it is: all but -1 are read as a huge number. *)
Theorem negative_read_as_size v i rest :
  in_type int64_t v → v < 0 → input_bytes i = default [] (LogEncoder.int_bytes int64_t v) ++ rest →
  if v =? -1 then LogParser.read_size i = None
  else ∃ i', LogParser.read_size i = Some (v + 2 ^ 64, i').
Proof.
  intros Hv Hn Hi. destruct (read_size_negative (remaining := remaining) v i rest Hv Hn Hi) as (i'&Hr&_).
  destruct (v =? -1); [done|]. by exists i'.
Qed.

(** The default of a double is written as an assignment.  [set_double] does
    not write the variant it is given, so that an observer takes setting the
    default of a double for a change of the row, while that of a float is none. *)
Theorem double_default_is_assignment {T} `{IndexSetOps T} (o o' : TransactLog.Observer T) col row f d e :
  sizes [col; row] → arg_ok (AFloat f) → arg_ok (ADouble d) → TransactLog.mark_dirty o row col = Some o' →
  ∃ e1 e2 b1 b2,
    encode_call (set_value col row (VFloat f) instr_SetDefault 0) e = Some e1 ∧ log e1 = log e ++ b1 ∧
    encode_call (set_value col row (VDouble d) instr_SetDefault 0) e = Some e2 ∧ log e2 = log e ++ b2 ∧
    ∀ fuel in1 in2, (length b1 < fuel)%nat → (length b2 < fuel)%nat → remaining in1 = b1 → remaining in2 = b2 →
      LogParser.parse observer_handler fuel in1 o = Some (inl o) ∧
      LogParser.parse observer_handler fuel in2 o = Some (inl o').
Proof.
  intros Hs Hf Hd Hdirty. assert (sizes [col; row; 0]) as Hs'.
  { split_writable. unfold sizes. repeat (apply Forall_cons; split); try done. }
  destruct (parse_encoded (remaining := remaining) observer_handler [set_value col row (VFloat f) instr_SetDefault 0] e)
    as (e1&b1&He1&Hl1&Hp1); [apply Forall_singleton; done|].
  destruct (parse_encoded (remaining := remaining) observer_handler [set_value col row (VDouble d) instr_SetDefault 0] e)
    as (e2&b2&He2&Hl2&Hp2); [apply Forall_singleton; done|].
  unfold encode_log in *. simpl foldlM in *. rewrite bind_Some_id in He1, He2.
  exists e1, e2, b1, b2. do 4 (split; [done|]). intros fuel in1 in2 Hf1 Hf2 Hi1 Hi2.
  rewrite Hp1, Hp2 by done. split; [done|]. simpl. unfold LogParser.deliver, observer_handler. simpl. by rewrite Hdirty.
Qed.

(** C4: refinement.  When a transaction is rolled back, its log is parsed,
    reversed and parsed again, and the observer is called with the reversed
    log.  Executed on what the transaction left, this puts every table, row,
    cell and list element that is still there back in its place, and new ones in
    the places of those that are gone; the numbers of tables, rows and elements in
    it are those there are.  Values are not considered.  Three things are
    excepted: a list element moved to a position that is not next to it
    ([list_move_not_undone]); the numbers of elements while a list of two or more
    that was cleared is filled again ([sizes] = false); and a change of rows or
    columns after a list was selected, without a table or descriptor selected in
    between ([list_of_other_row_told]). *)
Theorem rollback_restores {O E} (observer : Call → O → (bool * O) + E) parse_complete sizes cs w0 w s e o :
  Forall writable cs → Forall undoable (cs ≫= delivered) → (sizes = true → Forall short_clear (cs ≫= delivered)) →
  reselects false (cs ≫= delivered) = true → cs ≠ [] →
  execute_all true true (cs ≫= delivered) (w0, nothing_selected) = Some (w, s) →
  ∃ e' bytes n undo w1 s1, encode_log cs e = Some e' ∧ log e' = log e ++ bytes ∧
    (∀ fuel, (n < fuel)%nat → LogReverser.rollback observer parse_complete fuel bytes o =
      s ← run_calls observer undo o;
      match s with inl o => o ← parse_complete o; Some (inl o) | inr e => Some (inr e) end) ∧
    execute_all false sizes undo (w, nothing_selected) = Some (w1, s1) ∧
    Forall2 restored w1 w0 ∧ flat_map known w1 ≡ₚ flat_map known w.
Proof.
  intros Hw Hu Hs Hr Hne Hex. assert (Forall writable (cs ≫= delivered)) as Hw'.
  { apply Forall_bind. eapply Forall_impl; [exact Hw|]. apply delivered_writable. }
  assert (Forall reversible (cs ≫= delivered)) as Hrev by (eapply Forall_impl; [exact Hu|]; by intros c [? _]).
  destruct (rollback_calls observer parse_complete cs e o Hw Hrev Hne) as (e'&bytes&n&He&Hlog&Hroll).
  destruct (reverse_log_restores sizes _ w0 w s Hw' Hu Hs Hr Hex) as (w1&s1&Hex1&Hr1&Hk1). by eauto 12.
Qed.

(** For an observer it makes no difference whether the rows are exchanged before the
    selected list is changed or after it. *)
Lemma erase_then_swap {T} `{IndexSetOps T} (o : TransactLog.Observer T) k p q rest r :
  TransactLog.m_is_top_level_table o = true → (∀ id, TransactLog.m_active_table o ≠ Some (TransactLog.PList id)) →
  (∀ array ndx, TransactLog.m_active_list o ≠ Some (TransactLog.PTable array ndx)) →
  TransactLog.parse (LinkListErase k :: SwapRows p q :: rest) o = Some r →
  TransactLog.parse (SwapRows p q :: LinkListErase k :: rest) o = Some r.
Proof.
  destruct o as [info heap array cur al at_ ad need top]. cbn [TransactLog.m_active_table TransactLog.m_active_list TransactLog.m_is_top_level_table].
  intros -> Ht Hl.
  cbn [TransactLog.parse TransactLog.validate negb TransactLog.handle]. unfold TransactLog.link_list_erase, TransactLog.swap_rows.
  assert (at_ = None ∨ ∃ arr n, at_ = Some (TransactLog.PTable arr n)) as Hat by (destruct at_ as [[arr n|id]|]; [eauto|by destruct (Ht id)|by left]).
  destruct al as [[arr n|id]|]; [by destruct (Hl arr n)| |]; simpl; [destruct (heap !! id) as [b|] eqn:Hb; [|done]; simpl;
    destruct (ChangeBuilder.erase b k) as [b'|] eqn:Hb'; [|done]; simpl|].
  all: destruct (p <? q); [|done]; destruct Hat as [->|(arr&n&->)]; simpl; [by rewrite ?Hb; simpl; rewrite ?Hb'|].
  all: destruct (arr =? array)%nat; [|done]; destruct (tables info !! n) as [b0|]; [|done]; simpl;
    destruct (ChangeBuilder.swap b0 p q need); [|done]; simpl; by rewrite ?Hb; simpl; rewrite ?Hb'.
Qed.

(** What is selected when a list is *)
Lemma selected_pointers {T} `{IndexSetOps T} (o o1 o2 : TransactLog.Observer T) t col row :
  TransactLog.select_table o t 0 [] = Some o1 → TransactLog.select_link_list o1 col row = Some o2 →
  TransactLog.m_is_top_level_table o2 = true ∧ (∀ id, TransactLog.m_active_table o2 ≠ Some (TransactLog.PList id)) ∧
  (∀ array ndx, TransactLog.m_active_list o2 ≠ Some (TransactLog.PTable array ndx)).
Proof.
  intros H1 H2. assert (TransactLog.m_is_top_level_table o1 = true ∧ ∀ id, TransactLog.m_active_table o1 ≠ Some (TransactLog.PList id)) as [Htop Hact].
  { unfold TransactLog.select_table in H1. simpl in H1. case_match; simplify_eq/=; [done|]. by case_match. }
  unfold TransactLog.select_link_list, TransactLog.mark_dirty in H2.
  destruct (TransactLog.if_active _ _ o1) as [o'|] eqn:E; [|done]. cbn [mbind option_bind] in H2. injection H2 as <-. simpl.
  assert (TransactLog.m_is_top_level_table o' = true ∧ TransactLog.m_active_table o' = TransactLog.m_active_table o1) as [-> ->].
  { unfold TransactLog.if_active, TransactLog.update_at in E. destruct (TransactLog.m_active_table o1) as [[arr n|id]|] eqn:Ea; [|by destruct (Hact id)|by simplify_eq].
    destruct (_ =? _)%nat; [|done]. destruct (_ !! n); [|done]. cbn [mbind option_bind] in E. destruct (ChangeBuilder.modify _ _ _); [|done]. by simplify_eq/=. }
  split; [done|]. split; [done|]. intros array ndx. unfold TransactLog.find_list. by destruct (last _).
Qed.

(** The element is removed, then the rows are exchanged. *)
Lemma erase_swap_run w0 t rows rx ry row row' col k :
  0 ≤ t → db w0 !! Z.to_nat t = Some rows → at_ rows row = Some rx → at_ rows row' = Some ry → row < row' →
  0 ≤ col < npos → 0 ≤ k < len (content rx col) → len (content rx col) ≤ max_rows →
  ∃ w rows', run [SelectTable t 0 []; SelectLinkList col row; LinkListErase k; SwapRows row row'] w0 = Some w ∧
    db w !! Z.to_nat t = Some rows' ∧ at_ rows' row = Some ry ∧
    at_ rows' row' = Some (set_content (set_dirty rx col) col (delete (Z.to_nat k) (content rx col))).
Proof.
  intros Ht Hrows Hx Hy Hrow Hcol Hk Hmax. pose proof (at_Some _ _ _ Hx). pose proof (at_Some _ _ _ Hy).
  assert (Z.to_nat t < length (db w0))%nat as Hlt by by eapply lookup_lt_Some.
  set (x2 := set_content (set_dirty rx col) col (delete (Z.to_nat k) (content rx col))).
  set (rows2 := <[Z.to_nat row := x2]> (<[Z.to_nat row := set_dirty rx col]> rows)).
  assert (at_ rows2 row = Some x2) as Hx2 by (unfold rows2; rewrite at_insert by (rewrite len_insert; lia); by rewrite decide_True).
  assert (at_ rows2 row' = Some ry) as Hy2 by (unfold rows2; rewrite !at_insert, !decide_False by (rewrite ?len_insert; lia); done).
  unfold run. cbn [foldlM step]. rewrite (proj2 (Z.leb_le 0 t)), (proj2 (Z.ltb_lt t (len (db w0)))) by (unfold len; lia).
  cbn [andb mbind option_bind]. unfold Transaction.on_table. cbn [current db mbind option_bind]. rewrite Hrows. cbn [mbind option_bind].
  unfold dirty_cell. rewrite Hx. cbn [mbind option_bind]. rewrite (proj2 (Z.leb_le 0 col)), (proj2 (Z.ltb_lt col npos)) by lia.
  cbn [andb mbind option_bind]. unfold Transaction.on_list, with_rows. cbn [current selected db mbind option_bind].
  rewrite list_lookup_insert_eq by done. cbn [mbind option_bind]. unfold list_step. rewrite at_insert, decide_True by lia.
  cbn [mbind option_bind]. change (content (set_dirty rx col) col) with (content rx col). cbn [list_op].
  rewrite (proj2 (Z.leb_le 0 k)), (proj2 (Z.ltb_lt k _)) by lia. cbn [andb mbind option_bind].
  rewrite (proj2 (Z.leb_le (len (delete _ _)) max_rows)) by (rewrite len_delete by lia; lia).
  cbn [mbind option_bind current db]. rewrite list_lookup_insert_eq by by rewrite length_insert. cbn [mbind option_bind].
  fold x2 rows2. unfold swap_db_rows. rewrite Hx2, Hy2. cbn [mbind option_bind]. rewrite (proj2 (Z.ltb_lt row row')) by done.
  cbn [mbind option_bind]. do 2 eexists. split; [done|]. cbn [db]. split; [by rewrite list_lookup_insert_eq by by rewrite !length_insert|].
  unfold rows2. rewrite !at_insert by (rewrite ?len_insert; lia). split; [by rewrite decide_True|rewrite decide_False by lia; by rewrite decide_True].
Qed.

(** The reversed log is read as if the element were removed from the list that is at
    the row when it is selected. *)
Lemma mistaken_parse {T} `{IndexSetLaws T} info builders w0 (x y : ListChangeInfo) t col row row' k :
  row < row' → observes info builders w0 → x ∈ lists info → y ∈ lists info →
  (list_table_ndx x, list_col_ndx x, list_row_ndx x) = (t, col, row) →
  (list_table_ndx y, list_col_ndx y, list_row_ndx y) = (t, col, row') →
  0 ≤ col < npos → 0 ≤ k < len (list_at w0 x) →
  ∃ o b, TransactLog.parse [SelectTable t 0 []; SelectLinkList col row; SwapRows row row'; LinkListErase k]
           (TransactLog.make info builders) = Some (inl o) ∧
    TransactLog.list_builders o !! list_changes x = Some b ∧
    list_reported (len (list_at w0 x)) b (delete (Z.to_nat k) (list_at w0 x)) ∧
    TransactLog.list_builders o !! list_changes y = Some ChangeBuilder.empty_builder.
Proof.
  intros Hrow Hobs Hx Hy Ex Ey Hcol Hk. pose proof Hobs as ((Hfresh&_&_)&_&_&_&Hent).
  destruct (Hent x Hx) as (Ht&_&rows&Hrows&Hrx). destruct (Hent y Hy) as (_&_&rows'&Hrows'&Hry).
  destruct x as [xt xr xc xid], y as [yt yr yc yid]. simpl in *. injection Ex as -> -> ->. injection Ey as -> -> ->. simplify_eq.
  destruct (at_is_Some rows row Hrx) as [rx Hatx]. destruct (at_is_Some rows row' Hry) as [ry Haty].
  unfold list_at in *. cbn [list_table_ndx list_row_ndx list_col_ndx] in *. rewrite Hrows in *. cbn [mbind option_bind] in *. rewrite Hatx in *.
  pose proof (Forall_lookup_1 _ _ _ _ Hfresh Hrows) as Hfr.
  destruct (fresh_row_at rows row rx Hfr Hatx) as [Hox Hcx]. destruct (fresh_row_at rows row' ry Hfr Haty) as [Hoy _].
  destruct (erase_swap_run w0 t rows rx ry row row' col k) as (w&rows3&Hrun&Hw&Hy3&Hx3); [done..|apply Hcx|].
  destruct (log_reported info builders _ w0 w Hobs Hrun) as (o&Hp&_&_&_&Hrep); [by repeat (split; [done|]; intros)|].
  destruct (Hrep _ rows3 row' _ Hx Hw Hx3) as (b&Hb&Hbr&_); [by simpl; rewrite Hox|].
  destruct (Hrep _ rows3 row ry Hy Hw Hy3) as (b'&Hb'&_&Hbe); [by rewrite Hoy|].
  cbn [list_table_ndx list_row_ndx list_col_ndx list_changes] in *. unfold list_at in Hbr. cbn [list_table_ndx list_row_ndx list_col_ndx] in Hbr.
  rewrite Hrows in Hbr. cbn [mbind option_bind] in Hbr. rewrite Hatx, content_set, decide_True in Hbr by done.
  exists o, b. split; [|split; [done|split; [done|]]].
  - cbn [TransactLog.parse TransactLog.validate negb TransactLog.handle] in Hp |- *.
    destruct (TransactLog.select_table _ t 0 []) as [o1|] eqn:E1; [|done]. cbn [mbind option_bind] in *.
    destruct (TransactLog.select_link_list o1 col row) as [o2|] eqn:E2; [|done]. cbn [mbind option_bind] in *.
    destruct (selected_pointers _ o1 o2 t col row E1 E2) as (?&?&?). pose proof (erase_then_swap o2 k row row' [] (inl o)) as Hc.
    cbn [TransactLog.parse TransactLog.validate negb TransactLog.handle] in Hc. by apply Hc.
  - rewrite Hb'. f_equal. apply Hbe. rewrite Hoy. apply not_elem_of_empty.
Qed.

(** C40: error behaviour.  A list of another row is told of as changed when a
    transaction is rolled back that adds an element to the list of a row and then
    exchanges this row and another one in the same selected table.  The reverser
    puts the selection of the list before all that is undone after it, so that the
    list is selected, then the rows are exchanged, then the element is removed.
    [w0] is the database that is rolled back: the list [x] at [row] is that of the
    other row, which the rollback does not change, and the one that got the element
    is [y].  The observer of [x] is told that it loses the element, and the observer
    of [y] is told nothing. *)
Theorem list_of_other_row_told {T} `{IndexSetLaws T} info builders w0 (x y : ListChangeInfo) t col row row' target k v prior e :
  let cs := [select_table t 0 []; select_link_list col row target; link_list_insert k v prior; swap_rows row row'] in
  Forall writable cs → row < row' → 0 ≤ col < npos → observes info builders w0 → x ∈ lists info → y ∈ lists info →
  (list_table_ndx x, list_col_ndx x, list_row_ndx x) = (t, col, row) →
  (list_table_ndx y, list_col_ndx y, list_row_ndx y) = (t, col, row') →
  0 ≤ k < len (list_at w0 x) →
  ∃ e' bytes m o b, encode_log cs e = Some e' ∧ log e' = log e ++ bytes ∧
    (∀ fuel, (m < fuel)%nat → LogReverser.rollback observer_handler TransactLog.parse_complete fuel bytes
       (TransactLog.make info builders) = Some (inl o)) ∧
    TransactLog.list_builders o !! list_changes x = Some b ∧
    list_reported (len (list_at w0 x)) b (delete (Z.to_nat k) (list_at w0 x)) ∧
    TransactLog.list_builders o !! list_changes y = Some ChangeBuilder.empty_builder.
Proof.
  intros cs Hw Hrow Hcol Hobs Hxin Hyin Hx Hy Hk.
  destruct (rollback_calls observer_handler TransactLog.parse_complete cs e (TransactLog.make info builders) Hw) as (e'&bytes&m&He&Hlog&Hroll);
    [by repeat constructor|done|].
  destruct (mistaken_parse info builders w0 x y t col row row' k) as (o&b&Hp&Ho); [done..|].
  exists e', bytes, m, o, b. split; [done|]. split; [done|]. split; [|done]. intros fuel Hf. rewrite Hroll by done.
  rewrite (run_observer _ _ (inl o)); [done|by repeat constructor|exact Hp].
Qed.

(** C3: refinement.  An observer that reads the bytes of the log of a
    transaction reports what the transaction did to the tables and lists.  The
    transaction selects tables and lists, adds rows at the end of a table, removes
    rows by moving the last one over them, exchanges rows, clears tables, sets
    cells and changes lists in any way; other changes of rows, and changes of
    columns and tables, are not in [run].  No removed row holds one of several
    observed lists of its table ([run_ok]): the entry of another list can be lost
    then ([erased_entry_skips_last]).  Every tracked table is reported, and every
    observed list whose row is still there.  Cells given a default or a unique value
    when their row is added are not changed, but for the default of a double, which
    is written as an assignment ([double_default_is_assignment]). *)
Theorem logged_transaction_reported {T} `{IndexSetLaws T} info builders cs w0 w e :
  Forall writable cs → observes info builders w0 → run (instructions cs) w0 = Some w →
  run_ok (lists info) (instructions cs) w0 →
  ∃ e' bytes, encode_log cs e = Some e' ∧ log e' = log e ++ bytes ∧
    ∀ fuel in_, (length bytes < fuel)%nat → remaining in_ = bytes →
      ∃ o, LogReverser.advance_read observer_handler TransactLog.parse_complete fuel in_
             (TransactLog.make info builders) = Some (inl o) ∧
        tables_reported info (table_size w0) (tables (TransactLog.m_info o)) (db w) ∧
        ∀ x rows p r, x ∈ lists info → db w !! Z.to_nat (list_table_ndx x) = Some rows → at_ rows p = Some r →
          TableRows.row_origin (db_row r) = Some (list_row_ndx x) →
          ∃ b, TransactLog.list_builders o !! list_changes x = Some b ∧
            cell_reported (len (list_at w0 x)) b r (list_col_ndx x).
Proof.
  intros Hw Hobs Hrun Hok. destruct (log_reported info builders _ w0 w Hobs Hrun Hok) as (o&Hp&Ht&_&_&Hl).
  destruct (logged_outcome (remaining := remaining) cs e _ _ Hw Hp) as (e'&bytes&He&Hlog&Hadv).
  exists e', bytes. split; [done|]. split; [done|]. intros fuel in_ Hf Hi. exists o. split; [by apply Hadv|done].
Qed.

(** A move within a list is not undone.  The reverser writes the move as it
    was, not the opposite one; moving an element twice restores the list only if
    it moves to a position next to it. *)
Theorem list_move_not_undone r r' from_ to_ l l1 :
  LogReverser.handle (link_list_move from_ to_) r = Some r' → NoDup l → 1 < Z.abs (from_ - to_) →
  list_op (OMove from_ to_) l = Some l1 →
  (∃ e, encode_call (link_list_move from_ to_) (m_encoder r) = Some e ∧ log (m_encoder r') = log e) ∧
  list_op (OMove from_ to_) l1 ≠ Some l.
Proof.
  intros Hh Hnd Hfar Hop. split.
  - cbn [LogReverser.handle] in Hh. unfold LogReverser.emit, LogReverser.encode in Hh.
    destruct (encode_call _ _) as [e|]; [|done]. exists e. split; [done|]. by simplify_eq/=.
  - intros Hop2. destruct (move_twice l l1 l from_ to_ Hop Hop2) as (x&Hx&Hx').
    pose proof (at_NoDup _ _ _ _ Hnd Hx Hx'). case_decide; lia.
Qed.
End Claims.

(** ** Witnesses *)
#[export] Instance arg_ok_dec a : Decision (arg_ok a).
Proof. destruct a; unfold arg_ok; apply _. Defined.

#[export] Instance string_ok_dec s : Decision (string_ok s).
Proof. unfold string_ok. apply _. Defined.

#[export] Instance mixed_ok_dec m : Decision (mixed_ok m).
Proof. destruct m; unfold mixed_ok; apply _. Defined.

#[export] Instance value_ok_dec v variant : Decision (value_ok v variant).
Proof. destruct v as [| | | |[]|[]| | | | | |]; unfold value_ok; apply _. Defined.

#[export] Instance writable_dec c : Decision (writable c).
Proof. destruct c; unfold writable, sizes; apply _. Defined.

#[export] Instance keeps_variant_dec c : Decision (keeps_variant c).
Proof. destruct c as [| | | | | | | | | | | | |? ? []| | | | | | | | | | | | | | | | | | | | |]; unfold keeps_variant; apply _. Defined.

#[export] Instance reversible_dec c : Decision (reversible c).
Proof. destruct c; unfold reversible; apply _. Defined.

#[export] Instance undoable_dec c : Decision (undoable c).
Proof. destruct c; unfold undoable; apply _. Defined.

#[export] Instance short_clear_dec c : Decision (short_clear c).
Proof. destruct c; unfold short_clear; apply _. Defined.

Import Samples.

Section Witnesses.
#[local] Existing Instance debug.

(** A stream that always has a kilobyte free, and the encoders of selections as
    the parser expects them *)
#[local] Instance roomy : TransactLogStream := λ _ n, n + 1024.
#[local] Instance roomy_laws : TransactLogStreamLaws.
Proof. intros log n. unfold transact_log_reserve, roomy. lia. Qed.

#[local] Instance sample_core : CoreEncoder := λ e c, LogEncoder.append_simple_instr e (select_args c).
#[local] Instance sample_core_laws : CoreEncoderLaws.
Proof.
  assert (∀ v, in_type size_t v → arg_ok (ASize v)) as Hsize by (intros v Hv; split; [by_decision|exact Hv]).
  assert (∀ v, 0 ≤ v ≤ LogParser.m_max_levels → arg_ok (ASize v)) as Hlevels.
  { intros v Hv. apply Hsize. unfold in_type, min_value, max_value, size_t, LogParser.m_max_levels in *. simpl. lia. }
  assert (∀ path, sizes path → Forall arg_ok (ASize <$> path)) as Hpath.
  { intros path H. apply Forall_fmap. eapply Forall_impl; [exact H|]. exact Hsize. }
  assert (∀ path, integers_last (ASize <$> path)) as Hlast by (induction path; done).
  intros e c Hc Hs. apply append_simple_instr_ok; destruct c; cbn [writable select_args] in *; try (by destruct Hs); split_writable;
    try (apply Hlast); repeat (apply Forall_cons; split); try apply Forall_nil_2; auto; done.
Qed.

Definition empty_encoder : TransactLogEncoder := mkEncoder [] 0.

(** A handler that keeps the calls *)
Definition recorder (c : Call) (cs : list Call) : (bool * list Call) + () := inl (true, cs ++ [c]).

Definition sample_calls : list Call :=
  [select_table 3 1 [2; 5]; insert_empty_rows 4 2 4 false; set_value 0 4 (VInt (-2 ^ 63)) instr_Set 0;
   set_value 1 4 (VString (Some [104; 105])) instr_SetUnique 6; set_value 2 5 (VLink 7 3) instr_Set 0;
   select_link_list 2 5 3; link_list_set_all [7; 200; 2 ^ 40]; link_list_move 2 0].

Lemma log_roundtrip_witness :
  ∃ e' bytes, encode_log sample_calls empty_encoder = Some e' ∧ log e' = bytes ∧ (length bytes < 100)%nat ∧
    LogParser.parse recorder 100 [take 9 bytes; []; drop 9 bytes] [] = Some (inl (sample_calls ≫= meant)).
Proof.
  destruct (log_roundtrip (I := list (list Z)) recorder sample_calls empty_encoder) as (e'&bytes&He&Hlog&Hp); [by_decision..|].
  exists e', bytes. split; [exact He|]. split; [exact Hlog|].
  assert ((length bytes < 100)%nat) as Hlen.
  { change (log e' = bytes) in Hlog. rewrite <-Hlog. vm_compute in He. injection He as <-. by_decision. }
  split; [exact Hlen|]. rewrite Hp; [vm_compute; reflexivity|exact Hlen|].
  cbn [concat]. rewrite app_nil_r. apply take_drop.
Defined.

Lemma integers_exact_witness :
  ∃ bytes, LogEncoder.int_bytes size_t 300 = Some bytes ∧
    LogParser.read_int int32_t (mkInput [bytes ++ [1]] []) = Some (300, mkInput [] [1]).
Proof.
  destruct (integers_exact (I := list (list Z)) int32_t size_t 300 (mkInput [[172; 2; 1]] []) [1]) as (bytes&Hb&Hl&Hread);
    try by_decision.
  exists bytes. split; [exact Hb|]. vm_compute in Hb. injection Hb as <-.
  destruct Hread as [Hread _]; [vm_compute; reflexivity|]. destruct Hread as (i'&Hi&_); [by_decision|].
  change ([172; 2] ++ [1]) with [172; 2; 1]. rewrite Hi. vm_compute in Hi. by injection Hi as <-.
Defined.

Lemma negative_read_as_size_witness :
  LogParser.read_size (mkInput [[67]] []) = Some (2 ^ 64 - 4, mkInput [] []) ∧
  LogParser.read_size (mkInput [[64]] []) = None.
Proof.
  pose proof (negative_read_as_size (remaining := @concat Z) (-4) (mkInput [[67]] []) [] ltac:(by_decision) eq_refl ltac:(vm_compute; reflexivity)) as [i' H].
  split; [rewrite H; vm_compute in H; by injection H as <-|].
  exact (negative_read_as_size (remaining := @concat Z) (-1) (mkInput [[64]] []) [] ltac:(by_decision) eq_refl ltac:(vm_compute; reflexivity)).
Defined.

Lemma double_default_is_assignment_witness :
  ∃ o' e2, TransactLog.mark_dirty (TransactLog.make observed_info ∅) 3 0 = Some o' ∧
    encode_call (set_value 0 3 (VDouble (replicate 8 0)) instr_SetDefault 0) empty_encoder = Some e2 ∧
    LogParser.parse observer_handler 100 [log e2] (TransactLog.make observed_info ∅) = Some (inl o').
Proof.
  destruct (TransactLog.mark_dirty (TransactLog.make observed_info ∅) 3 0) as [o'|] eqn:Ho; [|vm_compute in Ho; discriminate].
  destruct (double_default_is_assignment (I := list (list Z)) (TransactLog.make observed_info ∅) o' 0 3 (replicate 4 0) (replicate 8 0) empty_encoder)
    as (e1&e2&b1&b2&He1&Hl1&He2&Hl2&Hp); [by_decision..|exact Ho|].
  exists o', e2. split; [done|]. split; [exact He2|]. change (log e1 = b1) in Hl1. change (log e2 = b2) in Hl2. subst b1 b2.
  apply (Hp 100%nat [log e1] [log e2]); try (cbn [concat]; apply app_nil_r).
  - vm_compute in He1. injection He1 as <-. by_decision.
  - vm_compute in He2. injection He2 as <-. by_decision.
Defined.

Lemma run_recorder cs : ∀ l, run_calls recorder cs l = Some (inl (l ++ cs)).
Proof.
  induction cs as [|c cs IH]; intros l; simpl; [by rewrite app_nil_r|]. by rewrite IH, <-app_assoc.
Qed.

Definition logged_calls : list Call :=
  [select_table 0 0 []; set_value 0 3 (VInt 5) instr_Set 0; erase_rows 0 1 4 true; insert_empty_rows 3 2 3 false; swap_rows 1 4;
   select_link_list 2 4 1; link_list_move 2 0; link_list_insert 1 1 3; link_list_set 0 0 4; select_table 1 0 []; clear_table 2].

(** Rows, a list and columns are changed, under four selections. *)
Definition undone_calls : list Call :=
  [select_table 1 0 []; insert_empty_rows 2 1 2 false; select_link_list 1 0 0; link_list_insert 0 7 2; link_list_swap 0 1;
   select_table 1 0 []; erase_rows 0 1 3 true; move_row 1 0; select_descriptor 0 []; insert_column 2 type_Int [110] false;
   erase_column 0].

(** Two tables; the second one has two rows of two columns, and a list of two in
    the first row. *)
Definition sample_tables : list Node :=
  [Known 0 []; Known 1 [Known 2 [Known 3 []; Known 4 [Known 5 []; Known 6 []]]; Known 7 [Known 8 []; Known 9 []]]].

Lemma rollback_restores_witness :
  ∃ w s e' n undo w1 s1, execute_all true true (undone_calls ≫= delivered) (sample_tables, nothing_selected) = Some (w, s) ∧
    flat_map known w = [0; 1; 7; 9] ∧ encode_log undone_calls empty_encoder = Some e' ∧
    (∀ fuel, (n < fuel)%nat → LogReverser.rollback recorder Some fuel (log e') [] = Some (inl undo)) ∧
    execute_all false true undo (w, nothing_selected) = Some (w1, s1) ∧
    Forall2 restored w1 sample_tables ∧ flat_map known w1 ≡ₚ flat_map known w.
Proof.
  destruct (execute_all true true (undone_calls ≫= delivered) (sample_tables, nothing_selected)) as [[w s]|] eqn:Hex;
    [|vm_compute in Hex; discriminate].
  destruct (rollback_restores recorder Some true undone_calls sample_tables w s empty_encoder [])
    as (e'&bytes&n&undo&w1&s1&He&Hlog&Hroll&Hex1&Hr1&Hk1); [by_decision|by_decision|by_decision|reflexivity|discriminate|exact Hex|].
  exists w, s, e', n, undo, w1, s1. split; [done|]. split; [vm_compute in Hex; by injection Hex as <- _|]. split; [exact He|].
  change (log e' = bytes) in Hlog. split; [|split; [exact Hex1|split; [exact Hr1|exact Hk1]]].
  intros fuel Hf. rewrite Hlog, Hroll by exact Hf. by rewrite run_recorder.
Defined.

(** The lists of the rows 1 and 3 of a table are observed; the cells of the table
    are, too. *)
Definition two_lists : TransactionChangeInfo (list Chunk) :=
  mkTransactionChangeInfo [true] [true] [mkListChangeInfo 0 1 2 7; mkListChangeInfo 0 3 2 8] [] [] [] false false.

Definition two_builders : gmap nat (CollectionChangeBuilder (list Chunk)) :=
  {[7%nat := ChangeBuilder.empty_builder; 8%nat := ChangeBuilder.empty_builder]}.

Lemma two_lists_ok : observes two_lists two_builders world.
Proof.
  assert (∀ x, x ∈ lists two_lists → x = mkListChangeInfo 0 1 2 7 ∨ x = mkListChangeInfo 0 3 2 8) as Hin.
  { intros x [->|[->|?%elem_of_nil]%elem_of_cons]%elem_of_cons; auto || done. }
  split; [|split; [done|split; [|split]]].
  - split; [by_decision|done].
  - by_decision.
  - intros x y [->| ->]%Hin [->| ->]%Hin; done.
  - intros x [->| ->]%Hin; (split; [done|]; split; [vm_compute; reflexivity|]; eexists; split; [reflexivity|]; vm_compute; split; congruence).
Qed.

Lemma list_of_other_row_told_witness :
  ∃ e' m o b, encode_log [select_table 0 0 []; select_link_list 2 1 1; link_list_insert 1 5 2; swap_rows 1 3] empty_encoder = Some e' ∧
    (∀ fuel, (m < fuel)%nat → LogReverser.rollback observer_handler TransactLog.parse_complete fuel (log e')
       (TransactLog.make two_lists two_builders) = Some (inl o)) ∧
    TransactLog.list_builders o !! 7%nat = Some b ∧ list_reported 3 b (delete 1%nat (initial_rows 3)) ∧
    TransactLog.list_builders o !! 8%nat = Some ChangeBuilder.empty_builder.
Proof.
  destruct (list_of_other_row_told two_lists two_builders world (mkListChangeInfo 0 1 2 7) (mkListChangeInfo 0 3 2 8) 0 2 1 3 1 1 5 2 empty_encoder)
    as (e'&bytes&m&o&b&He&Hlog&Hroll&H1&H2&H3); [by_decision|by_decision|by_decision|exact two_lists_ok|by left|by right; left|reflexivity|reflexivity|by_decision|].
  exists e', m, o, b. split; [exact He|]. change (log e' = bytes) in Hlog. rewrite Hlog. split; [exact Hroll|].
  split; [exact H1|]. split; [exact H2|exact H3].
Defined.

Lemma logged_transaction_reported_witness :
  ∃ w e' o, run (instructions logged_calls) world = Some w ∧ encode_log logged_calls empty_encoder = Some e' ∧
    LogReverser.advance_read observer_handler TransactLog.parse_complete 200 (log e')
      (TransactLog.make observed_info {[7%nat := ChangeBuilder.empty_builder]}) = Some (inl o) ∧
    tables_reported observed_info (table_size world) (tables (TransactLog.m_info o)) (db w).
Proof.
  destruct (run (instructions logged_calls) world) as [w|] eqn:Hrun; [|vm_compute in Hrun; discriminate].
  destruct (logged_transaction_reported (remaining := λ data, data) observed_info {[7%nat := ChangeBuilder.empty_builder]} logged_calls world w empty_encoder)
    as (e'&bytes&He&Hlog&Hobs).
  - by_decision.
  - exact observed_ok.
  - exact Hrun.
  - repeat (split; [first [exact I|intros rows _; right; intros x y ->%list_elem_of_singleton ->%list_elem_of_singleton _ _; reflexivity]|
      let w1 := fresh "w1" in let E := fresh "E" in intros w1 E; vm_compute in E; injection E as <-]). exact I.
  - change (log e' = bytes) in Hlog. subst bytes.
    destruct (Hobs 200%nat (log e')) as (o&Ho&Hrep&_); [|done|].
    { revert He. vm_compute. intros [= <-]. by_decision. }
    exists w, e', o. split; [done|]. split; [exact He|]. split; [exact Ho|exact Hrep].
Defined.

Lemma list_move_not_undone_witness :
  ∃ l1, list_op (OMove 2 0) (initial_rows 3) = Some l1 ∧ list_op (OMove 2 0) l1 ≠ Some (initial_rows 3).
Proof.
  destruct (list_op (OMove 2 0) (initial_rows 3)) as [l1|] eqn:Hl1; [|vm_compute in Hl1; discriminate].
  exists l1. split; [done|].
  destruct (LogReverser.handle (link_list_move 2 0) LogReverser.make) as [r'|] eqn:Hr; [|vm_compute in Hr; discriminate].
  apply (list_move_not_undone LogReverser.make r' 2 0 (initial_rows 3) l1 Hr); [by_decision|by_decision|exact Hl1].
Defined.
End Witnesses.
