(* ===== verification/KVOAdapter.v ===== *)
(** [KVOAdapter] and [KVOTransactLogObserver] (impl/transact_log_handler.cpp,
    binding_context.hpp): what the application is told about the rows it
    observes when a transaction is read or rolled back. *)
From stdpp Require Import gmap.
From S2P Require Import Prelude ChunkedRangeVector IndexSetSpec RowMap ChangeBuilder ChangeTheory ChangeRefinement TableRows ChangeTrack ChangeTrackRun DeepChange LogData TransactLog LogReverser.

(** ** Data: [BindingContext::ColumnInfo], [BindingContext::ObserverState] *)
Inductive Kind := KindNone | KindSet | KindInsert | KindRemove | KindSetAll.

#[export] Instance Kind_eq_dec : EqDecision Kind.
Proof. solve_decision. Defined.

Record ColumnInfo (T : Type) := mkColumnInfo { initial_column_index : Z; kind : Kind; indices : T }.
Arguments mkColumnInfo {T} _ _ _.
Arguments initial_column_index {T} _.
Arguments kind {T} _.
Arguments indices {T} _.

Record ObserverState (T : Type) := mkObserverState {
  table_ndx : Z;
  row_ndx : Z;
  user_info : Z;
  row_changes : list (ColumnInfo T) }.
Arguments mkObserverState {T} _ _ _ _.
Arguments table_ndx {T} _.
Arguments row_ndx {T} _.
Arguments user_info {T} _.
Arguments row_changes {T} _.

(** [KVOAdapter::ListInfo]: the observer is its index in the vector; the
    builder of list [j] is the one with identity [j] in the observer of the log. *)
Record ListInfo := mkListInfo { list_observer : nat; list_col : Z; list_initial_size : Z }.

(** The base class [TransactionChangeInfo] is in the observer of the log. *)
Record KVOAdapter (T : Type) := mkKVOAdapter {
  m_observers : list (ObserverState T);
  m_invalidated : list Z;
  m_lists : list ListInfo }.
Arguments mkKVOAdapter {T} _ _ _.
Arguments m_observers {T} _.
Arguments m_invalidated {T} _.
Arguments m_lists {T} _.

Module KVO.
Section Adapter.
Context {build : Build} {T : Type} {ops : IndexSetOps T}.
Implicit Types (x : ObserverState T) (o : TransactLog.Observer T) (s : CollectionChangeSet T) (info : TransactionChangeInfo T).

Definition default_column : ColumnInfo T := mkColumnInfo npos KindNone set_nil.

Definition set_row_changes x l : ObserverState T := mkObserverState (table_ndx x) (row_ndx x) (user_info x) l.

(** ** The constructor

    [columns_of] gives the types of the columns of a table, [subtable_size] the
    sizes of the subtables of a row. *)
Section Constructor.
Variables (columns_of : Z → list DataType) (subtable_size : Z → Z → Z → Z).

Definition lists_of (i : nat) x : list ListInfo :=
  omap (λ '(c, type), match type with
    | type_LinkList => Some (mkListInfo i c npos)
    | type_Table => Some (mkListInfo i c (subtable_size (table_ndx x) c (row_ndx x)))
    | _ => None
    end) (imap (λ c type, (Z.of_nat c, type)) (columns_of (table_ndx x))).

(** [tables_needed] sorted without repetitions, and the vectors made of it *)
Definition needed_vector (observers : list (ObserverState T)) : list bool :=
  let size := S (Z.to_nat (foldr Z.max 0 (table_ndx <$> observers))) in
  foldl (λ v x, <[Z.to_nat (table_ndx x) := true]> v) (replicate size false) observers.

Definition list_entry (observers : list (ObserverState T)) (id : nat) (l : ListInfo) : option ListChangeInfo :=
  x ← observers !! list_observer l;
  Some (mkListChangeInfo (table_ndx x) (row_ndx x) (list_col l) id).

Definition make (observers : list (ObserverState T)) : KVOAdapter T * TransactLog.Observer T :=
  if bool_decide (observers = []) then
    (mkKVOAdapter [] [] [], TransactLog.make (mkTransactionChangeInfo [] [] [] [] [] [] false false) ∅)
  else
    let m_lists := concat (imap lists_of observers) in
    let needed := needed_vector observers in
    (mkKVOAdapter observers [] m_lists,
     TransactLog.make
       (mkTransactionChangeInfo needed needed (omap id (imap (list_entry observers) m_lists)) [] [] [] false false)
       (list_to_map (imap (λ id _, (id, ChangeBuilder.empty_builder)) m_lists))).
End Constructor.

(** ** Before the version changes *)
Definition new_table_ndx info (ndx : Z) : Z :=
  if ndx <? len (table_indices info) then default ndx (at_ (table_indices info) ndx) else ndx.

(** Where a row is after the transaction; the inner [None] is a deleted row. *)
Definition new_row_ndx s (idx : Z) : option (option Z) :=
  let it := lower_bound (λ m, from m <? idx) (moves s) 0 (length (moves s)) in
  let unmoved :=
    deleted ← set_contains (deletions s) idx;
    if (deleted : bool) then Some None
    else u ← set_unshift (deletions s) idx; Some (Some (set_shift (insertions s) u)) in
  match moves s !! it with
  | Some m => if from m =? idx then Some (Some (to m)) else unmoved
  | None => unmoved
  end.

Definition initial_column (indices : list Z) (i : Z) : Z :=
  match last indices with
  | None => i
  | Some back => if len indices <=? i then (i -w len indices +w back) +w 1 else default 0 (at_ indices i)
  end.

(** The body of the loop over the columns of a modified row *)
Definition column_change (col_indices : list Z) (idx : Z) (i : nat) (c : T) (change : ColumnInfo T) : option (ColumnInfo T) :=
  let initial := initial_column col_indices (Z.of_nat i) in
  contains ← set_contains c idx;
  Some (mkColumnInfo initial (if negb (initial =? npos) && contains then KindSet else kind change) (indices change)).

Fixpoint column_loop (col_indices : list Z) (idx : Z) (i : nat) (cs : list T) (changes : list (ColumnInfo T)) :
    option (list (ColumnInfo T)) :=
  match cs, changes with
  | [], _ => Some changes
  | c :: cs, change :: changes =>
      change ← column_change col_indices idx i c change;
      rest ← column_loop col_indices idx (S i) cs changes;
      Some (change :: rest)
  | _ :: _, [] => None
  end.

(** One observed row: what it is told, and its [info] if it was deleted *)
Definition before_row info x : option (ObserverState T * list Z) :=
  let table_ndx := new_table_ndx info (table_ndx x) in
  match at_ (tables info) table_ndx with
  | None => Some (x, [])
  | Some b =>
      let table := changes b in
      idx ← new_row_ndx table (row_ndx x);
      match idx with
      | None => Some (x, [user_info x])
      | Some idx =>
          modified ← set_contains (modifications table) idx;
          if (modified : bool) then
            let col_indices := default [] (at_ (column_indices info) table_ndx) in
            l ← column_loop col_indices idx 0 (columns table)
                  (resize (length (columns table)) default_column (row_changes x));
            Some (set_row_changes x l, [])
          else Some (x, [])
      end
  end.

(** *** Lists *)

(** The iterator [it] goes on to the range that [i] may be in. *)
Definition in_range (it : list (Z * Z)) (i : Z) : bool * list (Z * Z) :=
  let it := match it with r :: rest => if r.2 <=? i then rest else it | [] => [] end in
  (match it with r :: _ => (r.1 <=? i) && (i <? r.2) | [] => false end, it).

Fixpoint moved_loop (n : nat) (i shift : Z) (del ins : list (Z * Z)) (result : T) : option T :=
  match n with
  | O => Some result
  | S n =>
      let '(deleted, del) := in_range del i in
      let '(shift, ins) :=
        if (deleted : bool) then (shift - 1, ins)
        else
          let '(inserted, ins) := in_range ins (wrap (i + shift)) in
          (if (inserted : bool) then shift + 1 else shift, ins) in
      result ← (if negb (shift =? 0) then set_add result i else Some result);
      moved_loop n (i + 1) shift del ins result
  end.

(** Moves told as a set of assignments *)
Definition moved_indices s : option T :=
  result ← set_add_set (modifications s) (deletions s);
  let del := set_ranges (deletions s) in
  let ins := set_ranges (insertions s) in
  d ← head del;
  i ← head ins;
  d' ← last del;
  i' ← last ins;
  let start := Z.min i.1 d.1 in
  let end_ := Z.max i'.2 d'.2 in
  moved_loop (Z.to_nat (end_ - start)) start 0 del ins result.

Definition none_of_two s : bool :=
  Z.b2z (set_empty (insertions s)) + Z.b2z (set_empty (modifications s)) + Z.b2z (set_empty (deletions s)) <? 2.

(** What a list is told of its changes, which do not count an inserted element
    as modified *)
Definition list_change (initial_size : Z) s (change : ColumnInfo T) : option (ColumnInfo T) :=
  let told k l := mkColumnInfo (initial_column_index change) k l in
  ins ← set_count (insertions s) 0 npos;
  del ← set_count (deletions s) 0 npos;
  let size := len (moves s) in
  if negb (bool_decide (moves s = [])) && (ins =? size) && (del =? size)
  then l ← moved_indices s; Some (told KindSet l)
  else if none_of_two s then Some (told KindSetAll (indices change))
  else if negb (set_empty (insertions s)) then Some (told KindInsert (insertions s))
  else if negb (set_empty (modifications s)) then Some (told KindSet (modifications s))
  else
    assert! negb (set_empty (deletions s));
    r ← last (set_ranges (deletions s));
    l ← (if initial_size <? r.2 then set_set (indices change) initial_size else Some (deletions s));
    Some (told KindRemove l).

(** One list; the builder is changed, too. *)
Definition before_list info (id : nat) (l : ListInfo) (st : list (ObserverState T) * gmap nat (CollectionChangeBuilder T)) :
    option (list (ObserverState T) * gmap nat (CollectionChangeBuilder T)) :=
  let '(observers, builders) := st in
  b ← builders !! id;
  x ← observers !! list_observer l;
  if ChangeBuilder.empty (changes b) then
    match at_ (row_changes x) (list_col l) with
    | Some change =>
        let change := mkColumnInfo (initial_column_index change) KindNone (indices change) in
        Some (<[list_observer l := set_row_changes x (<[Z.to_nat (list_col l) := change]> (row_changes x))]> observers, builders)
    | None => Some st
    end
  else if bool_decide (row_changes x = []) then
    ok ← (if REALM_DEBUG then
            table ← at_ (tables info) (new_table_ndx info (table_ndx x));
            set_contains (deletions (changes table)) (row_ndx x)
          else Some true);
    assert! (ok : bool);
    Some st
  else
    change ← at_ (row_changes x) (list_col l);
    mods ← set_remove_set (modifications (changes b)) (insertions (changes b));
    let b := ChangeBuilder.with_modifications b mods in
    change ← list_change (list_initial_size l) (changes b) change;
    Some (<[list_observer l := set_row_changes x (<[Z.to_nat (list_col l) := change]> (row_changes x))]> observers,
          <[id := b]> builders).

Fixpoint before_lists info (id : nat) (ls : list ListInfo) (st : list (ObserverState T) * gmap nat (CollectionChangeBuilder T)) :
    option (list (ObserverState T) * gmap nat (CollectionChangeBuilder T)) :=
  match ls with
  | [] => Some st
  | l :: ls => st ← before_list info id l st; before_lists info (S id) ls st
  end.

(** [before]; without changes of a table [will_change] is not called. *)
Definition before (a : KVOAdapter T) o : option (KVOAdapter T * TransactLog.Observer T) :=
  let info := TransactLog.m_info o in
  if bool_decide (tables info = []) then Some (a, o)
  else
    rs ← mapM (before_row info) (m_observers a);
    '(observers, builders) ← before_lists info 0 (m_lists a) (rs.*1, TransactLog.list_builders o);
    Some (mkKVOAdapter observers (m_invalidated a ++ concat (rs.*2)) (m_lists a), TransactLog.set_builders o builders).

(** [KVOTransactLogObserver]: the handlers are those of the base class, and
    [parse_complete] *)
Definition handler (c : Call) (st : KVOAdapter T * TransactLog.Observer T) :
    (bool * (KVOAdapter T * TransactLog.Observer T)) + option SchemaError :=
  match observer_handler c st.2 with
  | inl (ok, o) => inl (ok, (st.1, o))
  | inr e => inr e
  end.

Definition parse_complete (st : KVOAdapter T * TransactLog.Observer T) : option (KVOAdapter T * TransactLog.Observer T) :=
  let '(a, o) := st in
  o ← TransactLog.parse_complete o;
  before a o.
End Adapter.
End KVO.
