(* ===== verification/KVOAdapterTheory.v ===== *)
(** What [KVOAdapter] tells is what happened: the rows, their columns, and the
    lists in them. *)
From stdpp Require Import gmap.
From S2P Require Import Prelude ChunkedRangeVector IndexSet IndexSetSpec RowMap ChangeBuilder ChangeTheory ChangeMerge ChangeFinal ChangeRefinement TableRows ChangeTrack ChangeTrackRun DeepChange LogData TransactLog Transaction TransactLogTheory TransactLogEnd KVOAdapter.
Import KVO.

Section Rows.
Context {build : Build} {T : Type} {ops : IndexSetOps T} {laws : IndexSetLaws T}.
Implicit Types (b : CollectionChangeBuilder T) (l : list TableRow) (x : ObserverState T) (info : TransactionChangeInfo T).

(** ** Where a row is *)
Lemma reports_agree n b l t :
  reports n b l → t < n → at_ l t ≠ None → ∀ y, 0 ≤ y < t → has (insertions (changes b)) y ↔ has (deletions (changes b)) y.
Proof.
  intros (Hdel&Hins&_) Ht Hat y Hy. destruct (at_ l t) as [r0|] eqn:Hr0; [|done]. pose proof (at_Some _ _ _ Hr0).
  rewrite Hins, Hdel by lia. destruct (at_is_Some l y) as [r Hr]; [lia|]. split.
  - intros (r1&?&?) (r2&?&?). congruence.
  - intros Hno. exists r. split; [done|]. intros ?. apply Hno. by exists r.
Qed.

(** The moves are searched for the row first. *)
Lemma new_row_ndx_ok n b l idx :
  reports n b l → 0 ≤ idx < n → n + len l + 2 ≤ npos →
  (∃ p r, at_ l p = Some r ∧ row_origin r = Some idx ∧ new_row_ndx (changes b) idx = Some (Some p)) ∨
  ((∀ p r, at_ l p = Some r → row_origin r ≠ Some idx) ∧ new_row_ndx (changes b) idx = Some None).
Proof.
  intros Hrep Hidx Hmax. pose proof Hrep as (Hdel&Hins&Hmv&Hsort&_&Hwd&Hwi&_). assert (0 ≤ len l) by (unfold len; lia).
  unfold new_row_ndx.
  destruct (sorted_partition move_le (λ m, from m <? idx) (moves (changes b))) as (l1&l2&Heq&H1&H2&->).
  { apply Sorted_StronglySorted; [|done]. intros ???. unfold move_le. lia. }
  { intros m m'. unfold move_le. rewrite !Z.ltb_ge. lia. }
  assert (∀ m, m ∈ moves (changes b) → from m = idx → moves (changes b) !! length l1 = head l2 ∧ m ∈ l2) as Hfound.
  { intros m Hm E. rewrite Heq in Hm |- *. rewrite lookup_app_r, Nat.sub_diag by lia. split; [by destruct l2|].
    apply elem_of_app in Hm as [Hm|Hm]; [|done]. rewrite Forall_forall in H1. specialize (H1 m Hm). simpl in H1. lia. }
  assert (moves (changes b) !! length l1 = head l2) as ->.
  { rewrite Heq, lookup_app_r, Nat.sub_diag by lia. by destruct l2. }
  assert (∀ m, m ∈ l2 → idx ≤ from m) as Hle.
  { intros m Hm. rewrite Forall_forall in H2. specialize (H2 m Hm). simpl in H2. lia. }
  set (unmoved := deleted ← set_contains (deletions (changes b)) idx; _).
  assert ((∀ m, m ∈ moves (changes b) → from m ≠ idx) →
    (∃ p r, at_ l p = Some r ∧ row_origin r = Some idx ∧ unmoved = Some (Some p)) ∨
    ((∀ p r, at_ l p = Some r → row_origin r ≠ Some idx) ∧ unmoved = Some None)) as Hunmoved.
  { intros Hno. unfold unmoved. rewrite law_contains by (done || lia). cbn [mbind option_bind].
    case_bool_decide as Hd.
    - right. split; [|done]. intros p r Hr Ho. apply (Hno (mkMove idx p)); [|done]. apply Hmv. simpl. split; [|by exists r].
      intros ->. apply Hdel in Hd; [|done]. apply Hd. by exists r.
    - left. assert (∃ r, at_ l idx = Some r ∧ row_origin r = Some idx) as (r&Hr&Ho).
      { destruct (at_ l idx) as [r|] eqn:Hr.
        - exists r. split; [done|]. destruct (decide (row_origin r = Some idx)) as [|Hne]; [done|]. exfalso. apply Hd, Hdel; [done|].
          intros (r'&?&?). congruence.
        - exfalso. apply Hd, Hdel; [done|]. intros (r'&?&_). congruence. }
      exists idx, r. split; [done|]. split; [done|]. rewrite law_unshift by (done || lia). cbn [mbind option_bind]. do 2 f_equal.
      apply (shift_pinned (insertions (changes b)) (deletions (changes b))); try done; [lia| | |].
      + assert (∀ t, has (insertions (changes b)) t → t < len l) as Hlt by (by intros t (r'&?%at_Some&_)%Hins; lia).
        pose proof (size_lt _ (len l) Hwi ltac:(done) Hlt). pose proof (at_Some _ _ _ Hr). lia.
      + intros (r'&?&?)%Hins. congruence.
      + eapply (reports_agree n); [done|lia|congruence]. }
  destruct l2 as [|m l2]; cbn [head].
  { apply Hunmoved. intros m Hm E. destruct (Hfound m Hm E) as [_ Hin]. by apply elem_of_nil in Hin. }
  destruct (Z.eqb_spec (from m) idx) as [E|E].
  - left. assert (m ∈ moves (changes b)) as (_&r&Hr&Ho)%Hmv.
    { rewrite Heq. apply elem_of_app. right. constructor. }
    exists (to m), r. split; [done|]. split; [congruence|done].
  - apply Hunmoved. intros m' Hm' E'. destruct (Hfound m' Hm' E') as [_ [->|Hin]%elem_of_cons]; [done|].
    assert (from m ≤ from m') as Hle'; [|pose proof (Hle m ltac:(constructor)); lia].
    assert (StronglySorted move_le (l1 ++ m :: l2)) as Hss.
    { rewrite <-Heq. apply Sorted_StronglySorted; [|done]. intros ???. unfold move_le. lia. }
    apply StronglySorted_app in Hss as (_&_&[_ Hss]%StronglySorted_inv). rewrite Forall_forall in Hss. by apply (Hss m').
Qed.

(** ** The columns of a row *)
Definition change_at x (c : Z) : ColumnInfo T := default default_column (at_ (row_changes x) c).

(** The place of an observed row is never changed. *)
Definition same_observer x x' : Prop :=
  table_ndx x' = table_ndx x ∧ row_ndx x' = row_ndx x ∧ user_info x' = user_info x.

(** [x] was told nothing yet; its row is now [r]. *)
Definition row_told x x' (r : TableRow) : Prop :=
  same_observer x x' ∧
  ∀ c, 0 ≤ c < npos → kind (change_at x' c) = (if decide (c ∈ dirty r) then KindSet else KindNone) ∧
    (c ∈ dirty r → c < len (row_changes x') ∧ initial_column_index (change_at x' c) = c).

Lemma column_loop_ok idx : ∀ cs i changes,
  0 ≤ idx → Forall set_wf cs → (length cs ≤ length changes)%nat →
  ∃ res, column_loop (T := T) [] idx i cs changes = Some res ∧ length res = length changes ∧
    ∀ k ch, changes !! k = Some ch → res !! k = Some (match cs !! k with
      | Some c => mkColumnInfo (Z.of_nat (i + k))
          (if negb (Z.of_nat (i + k) =? npos) && bool_decide (has c idx) then KindSet else kind ch) (indices ch)
      | None => ch end).
Proof.
  induction cs as [|c cs IH]; intros i changes Hidx Hwf Hlen; [by exists changes|].
  destruct changes as [|ch changes]; simpl in Hlen; [lia|]. apply Forall_cons in Hwf as [Hc Hcs].
  cbn [column_loop]. unfold column_change. rewrite law_contains by done. cbn [mbind option_bind].
  destruct (IH (S i) changes Hidx Hcs ltac:(lia)) as (l&->&Hl&Hat). cbn [mbind option_bind]. eexists. split; [done|].
  split; [simpl; lia|]. intros [|k] ch' Hk; simpl in *.
  - injection Hk as ->. by rewrite Nat.add_0_r.
  - rewrite (Hat k ch' Hk). by rewrite Nat.add_succ_r.
Qed.

Lemma row_changes_told b l x p r :
  cells b l → at_ l p = Some r → row_changes x = [] → has (modifications (changes b)) p →
  ∃ cs, column_loop [] p 0 (columns (changes b)) (resize (length (columns (changes b))) default_column (row_changes x)) = Some cs ∧
    row_told x (set_row_changes x cs) r.
Proof.
  intros [[_ Hwf] _ _ Hcols] Hr Hnone Hmod. pose proof (at_Some _ _ _ Hr). set (n := length (columns (changes b))).
  destruct (column_loop_ok p (columns (changes b)) 0 (resize n default_column (row_changes x))) as (cs&->&Hlen&Hat);
    [lia|done|by rewrite length_resize|].
  rewrite length_resize in Hlen. exists cs. split; [done|]. split; [done|]. intros c Hc. unfold change_at. simpl.
  assert (at_ cs c = c' ← columns (changes b) !! Z.to_nat c;
    Some (mkColumnInfo c (if negb (c =? npos) && bool_decide (has c' p) then KindSet else KindNone) set_nil)) as ->.
  { unfold at_. rewrite decide_True by lia. destruct (columns (changes b) !! Z.to_nat c) as [c'|] eqn:Hc'; simpl.
    - pose proof (lookup_lt_Some _ _ _ Hc'). rewrite (Hat _ default_column).
      + rewrite Hc'. simpl. by rewrite Z2Nat.id by lia.
      + rewrite Hnone, resize_nil. by apply lookup_replicate_2.
    - apply lookup_ge_None in Hc'. apply lookup_ge_None. lia. }
  assert (c ∈ dirty r ↔ ∃ c', columns (changes b) !! Z.to_nat c = Some c' ∧ has c' p) as Hd.
  { pose proof (Hcols (Z.to_nat c) p) as Hcp. rewrite Z2Nat.id in Hcp by lia. unfold col_has in Hcp. rewrite Hcp. split.
    - intros ?. by exists r.
    - intros (r'&?&?). by simplify_eq. }
  destruct (columns (changes b) !! Z.to_nat c) as [c'|] eqn:Hc'; simpl.
  - apply lookup_lt_Some in Hc'. rewrite (proj2 (Z.eqb_neq c npos)) by lia. simpl. split; [|intros _; split; [unfold len; lia|done]].
    case_bool_decide as Hh; case_decide as Hcd; try done; destruct Hd as [Hd1 Hd2]; [destruct Hcd; eauto|].
    destruct Hh. destruct (Hd1 Hcd) as (?&?&?). congruence.
  - rewrite decide_False by (rewrite Hd; by intros (?&?&_)). split; [done|]. intros Hin. by destruct (proj1 Hd Hin) as (?&?&_).
Qed.

Lemma told_nothing x r : row_changes x = [] → dirty r = ∅ → row_told x x r.
Proof.
  intros Hx Hr. split; [done|]. intros c Hc. unfold change_at, at_. rewrite Hx, Hr. rewrite decide_True by lia.
  rewrite lookup_nil, decide_False by set_solver. split; [done|set_solver].
Qed.

(** ** An observed row *)
Lemma before_row_ok info x n l :
  table_indices info = [] → column_indices info = [] → 0 ≤ table_ndx x → row_changes x = [] → 0 ≤ row_ndx x < n →
  n + len l + 2 ≤ npos →
  reports n (table_builder (tables info) (Z.to_nat (table_ndx x))) l →
  cells (table_builder (tables info) (Z.to_nat (table_ndx x))) l →
  (∃ p r x', at_ l p = Some r ∧ row_origin r = Some (row_ndx x) ∧ before_row info x = Some (x', []) ∧ row_told x x' r) ∨
  ((∀ p r, at_ l p = Some r → row_origin r ≠ Some (row_ndx x)) ∧ before_row info x = Some (x, [user_info x])).
Proof.
  intros Hti Hci Ht Hx Hrow Hmax Hrep Hcells. unfold before_row, new_table_ndx. rewrite Hti. change (len (A := Z) []) with 0.
  rewrite (proj2 (Z.ltb_ge (table_ndx x) 0)) by lia. rewrite Hci.
  assert (at_ (tables info) (table_ndx x) = tables info !! Z.to_nat (table_ndx x)) as Eat by (unfold at_; by rewrite decide_True).
  rewrite Eat. unfold table_builder in *. destruct (tables info !! Z.to_nat (table_ndx x)) as [b|]; simpl in *.
  - destruct (new_row_ndx_ok n b l (row_ndx x) Hrep Hrow Hmax) as [(p&r&Hr&Ho&->)|[Hno ->]]; cbn [mbind option_bind]; [left|by right].
    pose proof (at_Some _ _ _ Hr). rewrite law_contains by (apply Hcells || lia). cbn [mbind option_bind].
    case_bool_decide as Hm.
    + destruct (row_changes_told b l x p r Hcells Hr Hx Hm) as (cs&Hcs&Htold). unfold at_ at 2. rewrite lookup_nil.
      destruct (decide _); cbn [default]; rewrite Hcs; cbn [mbind option_bind]; eauto 8.
    + exists p, r, x. do 3 (split; [done|]). apply told_nothing; [done|].
      destruct (decide (dirty r = ∅)) as [|Hd]; [done|]. destruct Hm. apply (cells_mods _ _ Hcells). by exists r.
  - left. destruct Hrep as (Hdel&_). destruct (at_ l (row_ndx x)) as [r|] eqn:Hr.
    + assert (row_origin r = Some (row_ndx x)) as Ho.
      { destruct (decide (row_origin r = Some (row_ndx x))) as [|Hne]; [done|]. exfalso.
        apply (has_nil (row_ndx x)), (Hdel _ Hrow). intros (r'&?&?). congruence. }
      exists (row_ndx x), r, x. do 3 (split; [done|]). apply told_nothing; [done|].
      destruct (decide (dirty r = ∅)) as [|Hd]; [done|]. exfalso. apply (has_nil (row_ndx x)), (cells_mods _ _ Hcells). by exists r.
    + exfalso. apply (has_nil (row_ndx x)), (Hdel _ Hrow). intros (r'&?&_). congruence.
Qed.
End Rows.

(** ** What the handlers leave alone *)
(** The steps of a computation that succeeded *)
Ltac run_steps :=
  repeat match goal with
  | H : (_ ≫= _) = Some _ |- _ => apply bind_Some in H as (?&?&H)
  | H : (if _ then _ else _) = Some _ |- _ => case_match; try discriminate H
  | H : (match ?p with (_, _) => _ end) = Some _ |- _ => destruct p eqn:?
  | H : (match ?p with Some _ => _ | None => _ end) = Some _ |- _ => destruct p eqn:?; try discriminate H
  | H : Some _ = Some _ |- _ => injection H as H; try subst
  end.

Section Frame.
Context {build : Build} {T : Type} {ops : IndexSetOps T}.
Implicit Types (b : CollectionChangeBuilder T) (o : TransactLog.Observer T) (w : World).

(** [modifications_new] is only used in change sets that are finished. *)
Definition keeps_new (f : CollectionChangeBuilder T → option (CollectionChangeBuilder T)) : Prop :=
  ∀ b b', f b = Some b' → modifications_new (changes b') = modifications_new (changes b).

Lemma for_each_col_new f : keeps_new (ChangeBuilder.for_each_col f).
Proof. intros b b'. unfold ChangeBuilder.for_each_col. intros H. run_steps; done. Qed.

Ltac keeps_new_tac :=
  intros b b' H; run_steps;
  repeat match goal with
  | H : ChangeBuilder.for_each_col _ _ = Some _ |- _ => apply for_each_col_new in H
  end; repeat case_match; simplify_eq/=; congruence.

Lemma modify_new ndx col : keeps_new (λ b, ChangeBuilder.modify b ndx col).
Proof. unfold ChangeBuilder.modify. keeps_new_tac. Qed.

Lemma insert_new index count track : keeps_new (λ b, ChangeBuilder.insert b index count track).
Proof. unfold ChangeBuilder.insert. keeps_new_tac. Qed.

Lemma erase_new index : keeps_new (λ b, ChangeBuilder.erase b index).
Proof. unfold ChangeBuilder.erase. keeps_new_tac. Qed.

Lemma clear_new size : keeps_new (λ b, ChangeBuilder.clear b size).
Proof. unfold ChangeBuilder.clear. keeps_new_tac. Qed.

Lemma move_new from_ to_ : keeps_new (λ b, ChangeBuilder.move b from_ to_).
Proof. unfold ChangeBuilder.move. keeps_new_tac. Qed.

Lemma clean_new : keeps_new ChangeBuilder.clean_up_stale_moves.
Proof. unfold ChangeBuilder.clean_up_stale_moves. keeps_new_tac. Qed.

Lemma move_over_new row last track : keeps_new (λ b, ChangeBuilder.move_over b row last track).
Proof. unfold ChangeBuilder.move_over. keeps_new_tac. Qed.

Lemma map_move_new key ndx : keeps_new (λ b, ChangeBuilder.map_move b key ndx).
Proof. unfold ChangeBuilder.map_move. keeps_new_tac. Qed.

Lemma update_move_new key old p q : keeps_new (λ b, ChangeBuilder.update_move b key old p q).
Proof.
  intros b b'. unfold ChangeBuilder.update_move. intros (b1&Hb1%map_move_new&Hb')%bind_Some. run_steps; done.
Qed.

Lemma swap_new p q track : keeps_new (λ b, ChangeBuilder.swap b p q track).
Proof.
  intros b b'. unfold ChangeBuilder.swap. intros H. run_steps;
  repeat match goal with
  | H : ChangeBuilder.for_each_col _ _ = Some _ |- _ => apply for_each_col_new in H
  | H : ChangeBuilder.map_move _ _ _ = Some _ |- _ => apply map_move_new in H
  | H : ChangeBuilder.update_move _ _ _ _ _ = Some _ |- _ => apply update_move_new in H
  end; simpl in *; congruence.
Qed.

(** The handlers of instructions that are no changes of the schema *)
Definition frame o o' : Prop :=
  column_indices (TransactLog.m_info o') = column_indices (TransactLog.m_info o) ∧
  table_indices (TransactLog.m_info o') = table_indices (TransactLog.m_info o) ∧
  ∀ id b, TransactLog.list_builders o !! id = Some b → ∃ b', TransactLog.list_builders o' !! id = Some b' ∧
    modifications_new (changes b') = modifications_new (changes b).

#[export] Instance frame_preorder : PreOrder frame.
Proof.
  split.
  - intros o. do 2 (split; [done|]). eauto.
  - intros o1 o2 o3 (Hc&Ht&Hb) (Hc'&Ht'&Hb'). split; [congruence|]. split; [congruence|].
    intros id b (b1&Hb1&E)%Hb. apply Hb' in Hb1 as (b2&?&?). exists b2. split; [done|congruence].
Qed.

Create HintDb keeps_new.
#[local] Hint Resolve modify_new insert_new erase_new clear_new move_new move_over_new swap_new : keeps_new.

(** The same tables, columns and lists *)
Lemma frame_same o o' :
  column_indices (TransactLog.m_info o') = column_indices (TransactLog.m_info o) →
  table_indices (TransactLog.m_info o') = table_indices (TransactLog.m_info o) →
  TransactLog.list_builders o' = TransactLog.list_builders o → frame o o'.
Proof. intros ? ? E. split; [done|]. split; [done|]. rewrite E. eauto. Qed.

Lemma update_at_frame p f o o' : keeps_new f → TransactLog.update_at p f o = Some o' → frame o o'.
Proof.
  intros Hf H. destruct p as [array ndx|id]; simpl in H; run_steps; [by apply frame_same|].
  split; [done|]. split; [done|]. intros id' b' Hb'. simpl. destruct (decide (id' = id)) as [->|Hne].
  - rewrite lookup_insert_eq. eexists. split; [done|]. erewrite Hf by done. congruence.
  - rewrite lookup_insert_ne by done. eauto.
Qed.

Lemma if_active_frame p f o o' : keeps_new f → TransactLog.if_active p f o = Some o' → frame o o'.
Proof. intros Hf. destruct p; simpl; [by apply update_at_frame|]. by intros [= <-]. Qed.

Lemma swap_moves_new p q : keeps_new (λ b,
  b ← ChangeBuilder.move b p q;
  if negb (p +w 1 =? q) then ChangeBuilder.move b (q -w 1) p else Some b).
Proof.
  intros b b' (b1&Hb1%move_new&H)%bind_Some. case_match; [apply move_new in H; congruence|]. injection H as <-. done.
Qed.
#[local] Hint Resolve swap_moves_new : keeps_new.

Lemma handle_frame i o o' w w' : step i w = Some w' → TransactLog.handle i o = Some o' → frame o o'.
Proof.
  intros Hs Hh.
  destruct i as [t [|lv] path|lv|col row|ix|ix|ix|ix|i1 i2|n|f t|row n prior [|]|row prior|row n prior un|p q|f t|f t| |col row instr|col row|ndx|ndx|f t|ndx|f t|ndx|ndx|ndx|ndx|ndx|ndx|ndx|ndx|];
    try done; clear Hs; cbn [TransactLog.handle] in Hh;
    unfold TransactLog.select_table, TransactLog.select_link_list, TransactLog.link_list_swap, TransactLog.link_list_nullify,
      TransactLog.link_list_set, TransactLog.link_list_insert, TransactLog.link_list_erase, TransactLog.link_list_clear,
      TransactLog.link_list_move, TransactLog.add_row_with_key, TransactLog.insert_empty_rows, TransactLog.erase_rows,
      TransactLog.swap_rows, TransactLog.clear_table, TransactLog.set_cell, TransactLog.mark_dirty in Hh; run_steps;
    repeat match goal with
    | H : TransactLog.if_active _ _ _ = Some _ |- _ => apply if_active_frame in H; [|by eauto with keeps_new]
    end; try first [done | etrans; [eassumption|first [done|by apply frame_same]]].
  all: try reflexivity; try by apply frame_same.
  - case_match; by apply frame_same.
  - destruct instr; try (injection Hh as <-; reflexivity). eapply if_active_frame; [apply modify_new|done].
Qed.

Lemma parse_complete_frame o o' : TransactLog.parse_complete o = Some o' → frame o o'.
Proof.
  unfold TransactLog.parse_complete. intros (tbls&_&H)%bind_Some. revert H.
  generalize (lists (TransactLog.m_info (TransactLog.set_info o (TransactLog.with_tables (TransactLog.m_info o) tbls)))) as ls.
  assert (frame o (TransactLog.set_info o (TransactLog.with_tables (TransactLog.m_info o) tbls))) as Hf by by apply frame_same.
  revert Hf. generalize (TransactLog.set_info o (TransactLog.with_tables (TransactLog.m_info o) tbls)) as o1.
  intros o1 Hf ls. revert o1 Hf. induction ls as [|x ls IH]; intros o1 Hf; cbn [foldlM]; [by intros [= <-]|].
  intros (o2&Ho2&H)%bind_Some. apply (IH o2); [|done]. etrans; [done|]. by eapply update_at_frame; [apply clean_new|].
Qed.

Lemma parse_frame log : ∀ o o' w w',
  run log w = Some w' → TransactLog.parse log o = Some (inl o') → frame o o'.
Proof.
  unfold run. induction log as [|i log IH]; intros o o' w w' Hrun Hp; cbn [TransactLog.parse foldlM] in *.
  { destruct (TransactLog.parse_complete o) as [o1|] eqn:E; [|done]. injection Hp as <-. by apply parse_complete_frame. }
  apply bind_Some in Hrun as (w1&Hstep&Hrun). destruct (negb (TransactLog.validate i)); [done|].
  apply bind_Some in Hp as (o1&Ho1&Hp). etrans; [by eapply handle_frame|by eapply IH].
Qed.
End Frame.

(** ** The lists *)
Section Lists.
Context {build : Build} {T : Type} {ops : IndexSetOps T} {laws : IndexSetLaws T}.
Implicit Types (b : CollectionChangeBuilder T) (elements : list Row) (change : ColumnInfo T).

(** What happened to a list of [n] elements *)
Definition new_at elements (t : Z) : Prop := ∃ r, at_ elements t = Some r ∧ origin r = None.
Definition gone elements (n k : Z) : Prop := 0 ≤ k < n ∧ ¬ ∃ t r, at_ elements t = Some r ∧ origin r = Some k.
Definition set_at elements (t : Z) : Prop := ∃ r, at_ elements t = Some r ∧ origin r ≠ None ∧ modified r = true.

Definition in_order elements : Prop :=
  ∀ t t' r r' k k', at_ elements t = Some r → at_ elements t' = Some r' → origin r = Some k → origin r' = Some k' →
    t < t' → k < k'.

(** A list is told of one kind of change, or that anything may have changed. *)
Definition list_told (n : Z) elements change : Prop :=
  match kind change with
  | KindNone => elements = initial_rows n
  | KindInsert => (∀ t, has (indices change) t ↔ new_at elements t) ∧ (∀ k, ¬ gone elements n k) ∧ (∀ t, ¬ set_at elements t)
  | KindSet => (∀ t, has (indices change) t ↔ set_at elements t) ∧ (∀ t, ¬ new_at elements t) ∧ (∀ k, ¬ gone elements n k)
  | KindRemove => (∀ k, has (indices change) k ↔ gone elements n k) ∧ (∀ t, ¬ new_at elements t) ∧ (∀ t, ¬ set_at elements t)
  | KindSetAll =>
      (∃ t, new_at elements t) ∧ (∃ k, gone elements n k) ∨ (∃ t, new_at elements t) ∧ (∃ t, set_at elements t) ∨
      (∃ k, gone elements n k) ∧ (∃ t, set_at elements t)
  end ∧ in_order elements.

Lemma reported_sets n b elements :
  list_reported n b elements → moves (changes b) = [] →
  (∀ t, has (insertions (changes b)) t ↔ new_at elements t) ∧
  (∀ k, has (deletions (changes b)) k ↔ gone elements n k) ∧ in_order elements.
Proof.
  intros (((Hd&Hi&_)&_)&Hrows&_&Hdn&Hil&Hold) Hmv.
  assert (∀ o t, 0 ≤ o → 0 ≤ t → kept (deletions (changes b)) (insertions (changes b)) o t ↔ rows b o t) as Hk.
  { intros o t ? ?. unfold rows, row_to. rewrite Hmv, elem_of_nil. tauto. }
  assert (∀ t r k, at_ elements t = Some r → origin r = Some k →
    kept (deletions (changes b)) (insertions (changes b)) k t) as Hkept.
  { intros t r k Hr Ho. pose proof (at_Some _ _ _ Hr). pose proof (Hold _ _ _ Hr Ho). apply Hk; [lia..|]. apply Hrows. left. eauto. }
  split; [|split].
  - intros t. split.
    + intros Ht. pose proof (has_range _ _ Hi Ht). pose proof (Hil _ Ht). destruct (at_is_Some elements t) as [r Hr]; [lia|].
      exists r. split; [done|]. destruct (origin r) as [k|] eqn:Ho; [|done]. by destruct (Hkept _ _ _ Hr Ho) as (_&?&_).
    + intros (r&Hr&Ho). pose proof (at_Some _ _ _ Hr). destruct (decide (has (insertions (changes b)) t)) as [|Hn]; [done|].
      destruct (kept_surj _ _ t Hd Hi ltac:(lia) Hn) as (o&?&Hko). apply Hk in Hko; [|lia..].
      apply Hrows in Hko as [(_&r'&?&?)|[? ?]]; [congruence|lia].
  - intros k. split.
    + intros Hdk. pose proof (has_range _ _ Hd Hdk). pose proof (Hdn _ Hdk). split; [lia|]. intros (t&r&Hr&Ho).
      by destruct (Hkept _ _ _ Hr Ho) as (?&_).
    + intros [Hkn Hno]. destruct (decide (has (deletions (changes b)) k)) as [|Hn]; [done|].
      destruct (kept_total _ _ k Hd Hi ltac:(lia) Hn) as (t&?&Hkt). apply Hk in Hkt; [|lia..].
      apply Hrows in Hkt as [(_&r&?&?)|[? _]]; [|lia].
      destruct Hno. eauto.
  - intros t t' r r' k k' Hr Hr' Ho Ho' Htt.
    by apply (kept_mono _ _ _ _ _ _ Hd Hi (Hkept _ _ _ Hr Ho) (Hkept _ _ _ Hr' Ho')).
Qed.

Lemma in_place n b elements :
  0 ≤ n → list_reported n b elements → moves (changes b) = [] →
  (∀ t, ¬ new_at elements t) → (∀ k, ¬ gone elements n k) →
  len elements = n ∧ ∀ t r, at_ elements t = Some r → origin r = Some t.
Proof.
  intros Hn Hrep Hmv Hnew Hgone. destruct (reported_sets n b elements Hrep Hmv) as (HI&HD&_).
  destruct Hrep as (((Hd&Hi&_)&_)&Hrows&_&_&_&Hold).
  assert (∀ o t, rows b o t ↔ 0 ≤ o ∧ o = t) as Hr.
  { intros o t. unfold rows, row_to. rewrite Hmv, elem_of_nil.
    rewrite (kept_empty _ _ o t Hd Hi) by (intros x; rewrite ?HI, ?HD; done). intuition lia. }
  split.
  - assert (rows b n n) as [[? _]|[_ ?]]%Hrows by (by apply Hr); lia.
  - intros t r Hat. destruct (origin r) as [k|] eqn:Ho; [|by destruct (Hnew t); exists r].
    assert (rows b k t) as [_ ->]%Hr; [|done]. apply Hrows. left. split; [by eapply Hold|eauto].
Qed.

Lemma set_empty_none s x : set_wf s → set_empty s = true → ¬ has s x.
Proof.
  intros Hs E. rewrite law_empty in E by done. apply bool_decide_eq_true_1 in E. unfold has. rewrite E. by intros [].
Qed.

(** A set that is not empty has a first and a last range. *)
Lemma set_empty_some s :
  set_wf s → set_empty s = false → ∃ r r', head (set_ranges s) = Some r ∧ last (set_ranges s) = Some r' ∧
    has s r.1 ∧ has s (r'.2 - 1) ∧ 0 ≤ r.1 < npos ∧ r'.2 ≤ npos.
Proof.
  intros Hs E. rewrite law_empty in E by done. apply bool_decide_eq_false_1 in E. pose proof (law_ranges s Hs) as Hok.
  destruct (set_ranges s) as [|r l] eqn:Er; [done|]. destruct (destruct_last (r :: l) ltac:(done)) as (k&r'&Hk).
  assert (has s r.1) as Hr. { unfold has. rewrite Er. destruct Hok as (?&?&_). left. lia. }
  assert (has s (r'.2 - 1)) as Hr'.
  { unfold has. rewrite Er, Hk in *. apply ranges_ok_app in Hok as [_ (?&?&_)]. apply mem_app. right. left. lia. }
  exists r, r'. split; [done|]. split; [by rewrite Hk, last_snoc|]. pose proof (has_range _ _ Hs Hr). pose proof (has_range _ _ Hs Hr').
  split_and!; done || lia.
Qed.

Lemma unchanged_list n b elements :
  0 ≤ n → list_reported n b elements → ChangeBuilder.empty (changes b) = true → elements = initial_rows n ∧ in_order elements.
Proof.
  intros Hn Hrep He. pose proof Hrep as ((Hrw&Hwm&_)&_&Hmods&_).
  unfold ChangeBuilder.empty in He. rewrite !andb_true_iff in He. destruct He as ((((Hd&Hi)&Hm)&_)&Hmv%bool_decide_eq_true_1).
  destruct (reported_sets n b elements Hrep Hmv) as (HI&HD&Hord). split; [|done].
  destruct (in_place n b elements Hn Hrep Hmv) as [Hlen Hat].
  { intros t. rewrite <-HI. apply set_empty_none; [apply Hrw|done]. }
  { intros k. rewrite <-HD. apply set_empty_none; [apply Hrw|done]. }
  apply list_eq. intros i. destruct (decide (Z.of_nat i < n)) as [Hi'|Hi'].
  - destruct (at_is_Some elements (Z.of_nat i)) as [r Hr]; [lia|]. pose proof (Hat _ _ Hr) as Ho.
    assert (modified r = false) as Hmr.
    { destruct (modified r) eqn:E; [|done]. destruct (set_empty_none _ (Z.of_nat i) Hwm Hm). apply Hmods. eauto. }
    pose proof (at_initial n (Z.of_nat i)) as E. rewrite decide_True in E by lia. unfold at_ in *.
    rewrite decide_True, Nat2Z.id in Hr, E by lia. rewrite Hr, E. destruct r; simpl in *. congruence.
  - rewrite !lookup_ge_None_2; [done| |]; [pose proof (len_initial n Hn)|]; unfold len in *; lia.
Qed.

(** *** Moves *)
Lemma moved_loop_ok n : ∀ i shift del ins (result : T),
  set_wf result → 0 ≤ i → i + Z.of_nat n ≤ npos → ∃ res, moved_loop n i shift del ins result = Some res.
Proof.
  induction n as [|n IH]; intros i shift del ins result Hr Hi Hn; cbn [moved_loop]; [eauto|].
  destruct (in_range del i) as [deleted del']. destruct (if deleted : bool then _ else _) as [shift' ins'].
  destruct (negb (shift' =? 0)).
  - destruct (law_add result i Hr) as (res&->&Hres&_); [lia|]. cbn [mbind option_bind]. apply IH; [done|lia..].
  - cbn [mbind option_bind]. apply IH; [done|lia..].
Qed.

Lemma moved_indices_ok b m :
  set_wf (deletions (changes b)) → set_wf (insertions (changes b)) → set_wf m →
  set_empty (deletions (changes b)) = false → set_empty (insertions (changes b)) = false →
  ∃ res, moved_indices (changes (ChangeBuilder.with_modifications b m)) = Some res.
Proof.
  intros Hd Hi Hm He Hei. unfold moved_indices. simpl.
  destruct (law_add_set m (deletions (changes b)) Hm Hd) as (res&->&Hres&_). cbn [mbind option_bind].
  destruct (set_empty_some _ Hd He) as (r&r'&->&->&?&?&?&?).
  destruct (set_empty_some _ Hi Hei) as (q&q'&->&->&?&?&?&?). cbn [mbind option_bind].
  apply moved_loop_ok; [done|lia|]. destruct (decide (Z.min q.1 r.1 ≤ Z.max q'.2 r'.2)); lia.
Qed.

(** *** The change of a list *)
Lemma list_change_ok n b elements size m change :
  0 ≤ n → list_reported n b elements → modifications_new (changes b) = set_nil →
  ChangeBuilder.empty (changes b) = false → n ≤ size ≤ npos →
  set_wf m → (∀ t, has m t ↔ has (modifications (changes b)) t ∧ ¬ has (insertions (changes b)) t) →
  ∃ change', list_change size (changes (ChangeBuilder.with_modifications b m)) change = Some change' ∧
    initial_column_index change' = initial_column_index change ∧
    (moves (changes b) = [] → list_told n elements change').
Proof.
  intros Hn Hrep Hnew Hne Hsize Hm Hmm. pose proof Hrep as (((Hd&Hi&Hmv)&Hwm&_)&_&Hmods&Hdn&_&_).
  assert (moves (changes b) ≠ [] → set_empty (deletions (changes b)) = false ∧ set_empty (insertions (changes b)) = false) as Hmoved.
  { destruct Hmv as [Hmv _]. intros H. destruct (moves (changes b)) as [|mv l]; [done|]. destruct (Hmv mv) as [Hf Ht]; [constructor|].
    split; apply not_true_is_false; intros E; [by apply (set_empty_none _ _ Hd E Hf)|by apply (set_empty_none _ _ Hi E Ht)]. }
  unfold list_change. simpl.
  destruct (law_count_total (insertions (changes b)) 0 npos Hi ltac:(lia)) as (ci&->). cbn [mbind option_bind].
  destruct (law_count_total (deletions (changes b)) 0 npos Hd ltac:(lia)) as (cd&->). cbn [mbind option_bind].
  destruct (negb _ && _ && _) eqn:Hmoves.
  { rewrite !andb_true_iff, negb_true_iff in Hmoves. destruct Hmoves as ((Hmoves%bool_decide_eq_false_1&_)&_).
    destruct (moved_indices_ok b m Hd Hi Hm) as (res&Hres); [by apply Hmoved..|].
    simpl in Hres. rewrite Hres. cbn [mbind option_bind]. eexists. split; [done|]. by split. }
  clear Hmoves. unfold none_of_two. simpl.
  assert (moves (changes b) = [] → (∀ t, has (insertions (changes b)) t ↔ new_at elements t) ∧
    (∀ k, has (deletions (changes b)) k ↔ gone elements n k) ∧ (∀ t, has m t ↔ set_at elements t) ∧ in_order elements) as Hsets.
  { intros Hmv0. destruct (reported_sets n b elements Hrep Hmv0) as (HI&HD&Hord). do 2 (split; [done|]). split; [|done].
    intros t. rewrite Hmm, HI, Hmods. split.
    - intros [(r&Hr&?) Ho]. exists r. split; [done|]. split; [|done]. intros ?. apply Ho. by exists r.
    - intros (r&Hr&Ho&?). split; [eauto|]. intros (r'&?&?). congruence. }
  assert (∀ s, set_wf s → set_empty s = false → ∃ x, has s x) as Hsome.
  { intros s Hs E. destruct (set_empty_some s Hs E) as (?&?&_&_&?&_). eauto. }
  assert (∀ k l, (moves (changes b) = [] → (∀ t, has (insertions (changes b)) t ↔ new_at elements t) →
      (∀ k, has (deletions (changes b)) k ↔ gone elements n k) → (∀ t, has m t ↔ set_at elements t) → in_order elements →
      list_told n elements (mkColumnInfo (initial_column_index change) k l)) →
    ∃ change', Some (mkColumnInfo (initial_column_index change) k l) = Some change' ∧
      initial_column_index change' = initial_column_index change ∧ (moves (changes b) = [] → list_told n elements change')) as Htell.
  { intros k l Ht. eexists. split; [done|]. split; [done|]. intros Hmv0. destruct (Hsets Hmv0) as (?&?&?&?). by apply Ht. }
  destruct (set_empty (insertions (changes b))) eqn:EI, (set_empty m) eqn:EM, (set_empty (deletions (changes b))) eqn:ED; simpl.
  - exfalso. destruct (decide (moves (changes b) = [])) as [Hmv0|Hmv0]; [|by destruct (Hmoved Hmv0)].
    unfold ChangeBuilder.empty in Hne. rewrite ED, EI, Hnew, Hmv0, (law_empty set_nil), (proj2 law_nil) in Hne by apply law_nil.
    simpl in Hne. rewrite !andb_true_r in Hne. destruct (Hsome _ Hwm Hne) as [x Hx].
    apply (set_empty_none m x Hm EM), Hmm. split; [done|]. by apply set_empty_none.
  - destruct (set_empty_some _ Hd ED) as (_&r&_&->&_&Hr&_). cbn [mbind option_bind]. apply Hdn in Hr.
    destruct (Z.ltb_spec size r.2); [lia|]. cbn [mbind option_bind]. apply Htell. intros _ HI HD HM Hord. split; [|done]. simpl.
    split; [done|]. split; [intros t; rewrite <-HI; by apply set_empty_none|intros t; rewrite <-HM; by apply set_empty_none].
  - apply Htell. intros _ HI HD HM Hord. split; [|done]. simpl.
    split; [done|]. split; [intros t; rewrite <-HI; by apply set_empty_none|intros t; rewrite <-HD; by apply set_empty_none].
  - apply Htell. intros _ HI HD HM Hord. split; [|done]. simpl. destruct (Hsome _ Hm EM) as [x ?%HM], (Hsome _ Hd ED) as [y ?%HD]. eauto 6.
  - apply Htell. intros _ HI HD HM Hord. split; [|done]. simpl.
    split; [done|]. split; [intros t; rewrite <-HD; by apply set_empty_none|intros t; rewrite <-HM; by apply set_empty_none].
  - apply Htell. intros _ HI HD HM Hord. split; [|done]. simpl. destruct (Hsome _ Hi EI) as [x ?%HI], (Hsome _ Hd ED) as [y ?%HD]. eauto 6.
  - apply Htell. intros _ HI HD HM Hord. split; [|done]. simpl. destruct (Hsome _ Hi EI) as [x ?%HI], (Hsome _ Hm EM) as [y ?%HM]. eauto 6.
  - apply Htell. intros _ HI HD HM Hord. split; [|done]. simpl. destruct (Hsome _ Hi EI) as [x ?%HI], (Hsome _ Hm EM) as [y ?%HM]. eauto 6.
Qed.
End Lists.

(** ** The loop over the lists *)
Section Before.
Context {build : Build} {T : Type} {ops : IndexSetOps T} {laws : IndexSetLaws T}.
Implicit Types (b : CollectionChangeBuilder T) (x : ObserverState T) (info : TransactionChangeInfo T) (e : option (Z * list Row)).

(** The list [l] with identity [id] of the observed row [x]: [e] has the size
    it had and the elements it has, unless the row is deleted. *)
Definition list_ready info (builders : gmap nat (CollectionChangeBuilder T)) x (id : nat) (l : ListInfo) e : Prop :=
  0 ≤ list_col l ∧ ∃ b, builders !! id = Some b ∧
  match e with
  | Some (n, elements) =>
      0 ≤ n ≤ list_initial_size l ∧ list_initial_size l ≤ npos ∧ list_reported n b elements ∧
      modifications_new (changes b) = set_nil ∧
      (ChangeBuilder.empty (changes b) = false → list_col l < len (row_changes x))
  | None =>
      row_changes x = [] ∧ 0 ≤ row_ndx x ∧
      ∃ table, at_ (tables info) (new_table_ndx info (table_ndx x)) = Some table ∧
        set_wf (deletions (changes table)) ∧ has (deletions (changes table)) (row_ndx x)
  end.

Definition list_done (builders : gmap nat (CollectionChangeBuilder T)) x (id : nat) (l : ListInfo) e : Prop :=
  match e with
  | Some (n, elements) => ∀ b, builders !! id = Some b → moves (changes b) = [] →
      list_told n elements (change_at x (list_col l))
  | None => row_changes x = []
  end.

(** Only the change of column [c] is another one. *)
Definition column_updated x x' (c : Z) : Prop :=
  same_observer x x' ∧ length (row_changes x') = length (row_changes x) ∧
  ∀ c', 0 ≤ c' → c' ≠ c → change_at x' c' = change_at x c'.

Lemma column_updated_set x (c : Z) change change' :
  at_ (row_changes x) c = Some change →
  column_updated x (set_row_changes x (<[Z.to_nat c := change']> (row_changes x))) c ∧
  change_at (set_row_changes x (<[Z.to_nat c := change']> (row_changes x))) c = change'.
Proof.
  intros Hc. pose proof (at_Some _ _ _ Hc). unfold column_updated, change_at. simpl. rewrite length_insert.
  split; [split; [done|split; [done|]]|by rewrite at_insert, decide_True].
  intros c' ? ?. by rewrite at_insert, decide_False.
Qed.

Lemma before_list_ok info id l observers builders x e :
  observers !! list_observer l = Some x → list_ready info builders x id l e →
  ∃ x' builders', before_list info id l (observers, builders) = Some (<[list_observer l := x']> observers, builders') ∧
    (∀ id', id' ≠ id → builders' !! id' = builders !! id') ∧ column_updated x x' (list_col l) ∧ list_done builders x' id l e.
Proof.
  intros Hx (Hcol&b&Hb&He). unfold before_list. rewrite Hb. cbn [mbind option_bind]. rewrite Hx. cbn [mbind option_bind].
  assert (list_done builders x id l e → ∃ x' builders',
    Some (observers, builders) = Some (<[list_observer l := x']> observers, builders') ∧
    (∀ id', id' ≠ id → builders' !! id' = builders !! id') ∧ column_updated x x' (list_col l) ∧ list_done builders x' id l e) as Hsame.
  { intros Hd. exists x, builders. rewrite list_insert_id by done. done. }
  destruct e as [[n elements]|].
  - destruct He as (Hn&Hsize&Hrep&Hnew&Hlen). destruct (ChangeBuilder.empty (changes b)) eqn:Hemp.
    + destruct (unchanged_list n b elements ltac:(lia) Hrep Hemp) as [Heq Hord].
      destruct (at_ (row_changes x) (list_col l)) as [change|] eqn:Hc.
      * eexists _, builders. split; [done|]. split; [done|].
        destruct (column_updated_set x (list_col l) change (mkColumnInfo (initial_column_index change) KindNone (indices change)) Hc)
          as [Hu Hat]. split; [done|]. intros b' _ _. rewrite Hat. by split.
      * apply Hsame. intros b' _ _. unfold change_at. rewrite Hc. by split.
    + specialize (Hlen eq_refl). destruct (at_is_Some (row_changes x) (list_col l)) as [change Hc]; [lia|].
      rewrite bool_decide_eq_false_2 by (intros E; rewrite E in Hlen; unfold len in Hlen; simpl in Hlen; lia).
      rewrite Hc. cbn [mbind option_bind]. pose proof Hrep as (((_&Hi&_)&Hm&_)&_).
      destruct (law_remove_set (modifications (changes b)) (insertions (changes b)) Hm Hi) as (m&->&Hwm&Hmm). cbn [mbind option_bind].
      destruct (list_change_ok n b elements (list_initial_size l) m change) as (change'&->&_&Htold); [lia|done|done|done|lia|done|done|].
      cbn [mbind option_bind]. eexists _, _. split; [done|]. split; [intros; by apply lookup_insert_ne|].
      destruct (column_updated_set x (list_col l) change change' Hc) as [Hu Hat]. split; [done|].
      intros b' Hb' Hmv. rewrite Hat. apply Htold. congruence.
  - destruct He as (Hnone&Hrow&table&Htab&Hwf&Hdel). destruct (ChangeBuilder.empty (changes b)).
    + unfold at_. rewrite Hnone, decide_True, lookup_nil by done. by apply Hsame.
    + rewrite bool_decide_eq_true_2 by done. rewrite Htab. cbn [mbind option_bind].
      assert ((if REALM_DEBUG then set_contains (deletions (changes table)) (row_ndx x) else Some true) = Some true) as ->.
      { destruct REALM_DEBUG; [|done]. rewrite law_contains by done. by rewrite bool_decide_eq_true_2. }
      cbn [mbind option_bind]. by apply Hsame.
Qed.

Lemma list_ready_updated info builders builders' x x' id l e :
  list_ready info builders x id l e → same_observer x x' → length (row_changes x') = length (row_changes x) →
  builders' !! id = builders !! id → list_ready info builders' x' id l e.
Proof.
  intros (Hc&b&Hb&He) (Et&Er&_) Hl Hh. split; [done|]. exists b. split; [congruence|]. destruct e as [[n elements]|].
  - unfold len in *. by rewrite Hl.
  - rewrite Et, Er. destruct He as [Hn He]. split; [|done]. apply nil_length_inv. by rewrite Hl, Hn.
Qed.

Lemma list_done_updated builders x x' id l e :
  list_done builders x id l e → length (row_changes x') = length (row_changes x) →
  change_at x' (list_col l) = change_at x (list_col l) → list_done builders x' id l e.
Proof.
  intros He Hl Hc. destruct e as [[n elements]|]; simpl in *; [by rewrite Hc|]. apply nil_length_inv. by rewrite Hl, He.
Qed.

Definition lists_distinct (ls : list ListInfo) : Prop := NoDup ((λ l, (list_observer l, list_col l)) <$> ls).

Lemma before_lists_ok info es ls : ∀ id observers builders,
  lists_distinct ls →
  (∀ j l, ls !! j = Some l → ∃ x, observers !! list_observer l = Some x ∧ list_ready info builders x (id + j) l (es (id + j)%nat)) →
  ∃ observers' builders', before_lists info id ls (observers, builders) = Some (observers', builders') ∧
    length observers' = length observers ∧
    ∀ i x, observers !! i = Some x → ∃ x', observers' !! i = Some x' ∧ same_observer x x' ∧
      length (row_changes x') = length (row_changes x) ∧
      (∀ c, 0 ≤ c → (∀ l, l ∈ ls → list_observer l = i → list_col l ≠ c) → change_at x' c = change_at x c) ∧
      (∀ j l, ls !! j = Some l → list_observer l = i → list_done builders x' (id + j) l (es (id + j)%nat)).
Proof.
  induction ls as [|l ls IH]; intros id observers builders Hnd Hready; cbn [before_lists].
  { exists observers, builders. split; [done|]. split; [done|]. intros i x Hx. exists x. done. }
  unfold lists_distinct in *. rewrite fmap_cons in Hnd. apply NoDup_cons in Hnd as [Hl Hnd].
  destruct (Hready 0%nat l eq_refl) as (x&Hx&Hr). rewrite Nat.add_0_r in Hr.
  destruct (before_list_ok info id l observers builders x _ Hx Hr) as (x1&builders1&->&Hb1&(Hs1&Hl1&Hc1)&Hd1). cbn [mbind option_bind].
  pose proof (lookup_lt_Some _ _ _ Hx) as Hlt.
  destruct (IH (S id) (<[list_observer l := x1]> observers) builders1 Hnd) as (observers'&builders'&->&Hlen&Hall).
  { intros j l' Hj. destruct (Hready (S j) l' Hj) as (y&Hy&Hry). rewrite Nat.add_succ_r in Hry.
    destruct (decide (list_observer l' = list_observer l)) as [E|E].
    - rewrite E in *. assert (y = x) as -> by congruence. exists x1. rewrite list_lookup_insert_eq by done. split; [done|].
      eapply list_ready_updated; [exact Hry|done..|]. apply Hb1. lia.
    - exists y. rewrite list_lookup_insert_ne by congruence. split; [done|].
      eapply list_ready_updated; [exact Hry|done..|]. apply Hb1. lia. }
  exists observers', builders'. split; [done|]. split; [by rewrite Hlen, length_insert|]. intros i y Hy.
  destruct (decide (i = list_observer l)) as [->|Hne].
  - assert (y = x) as -> by congruence.
    destruct (Hall (list_observer l) x1) as (x2&Hx2&(?&?&?)&Hl2&Hc2&Hd2); [by apply list_lookup_insert_eq|].
    exists x2. split; [done|]. destruct Hs1 as (?&?&?). split; [by split_and!; congruence|]. split; [congruence|]. split.
    + intros c Hc Hno. rewrite Hc2, Hc1; [done|done| |done|].
      * intros E. by apply (Hno l); [constructor| |].
      * intros l' Hl' E. apply Hno; [by constructor|done].
    + intros [|j] l' Hj E; simpl in Hj.
      * injection Hj as <-. rewrite Nat.add_0_r. eapply list_done_updated; [exact Hd1|done|]. destruct Hr as [Hcol _]. apply Hc2; [done|].
        intros l' Hl' E1 E2. apply Hl. apply list_elem_of_fmap. exists l'. split; [by rewrite E1, E2|done].
      * pose proof (Hd2 j l' Hj E) as Hd. rewrite Nat.add_succ_r. destruct (es (S (id + j))) as [[n elements]|] eqn:Ees;
          simpl in Hd; rewrite Ees in Hd; simpl in *; [|done]. intros b Hb. apply Hd. rewrite Hb1 by lia. done.
  - destruct (Hall i y) as (y2&Hy2&Hs2&Hl2&Hc2&Hd2); [by rewrite list_lookup_insert_ne|].
    exists y2. split; [done|]. split; [done|]. split; [done|]. split.
    + intros c Hc Hno. apply Hc2; [done|]. intros l' Hl' E. apply Hno; [by constructor|done].
    + intros [|j] l' Hj E; simpl in Hj; [congruence|].
      pose proof (Hd2 j l' Hj E) as Hd. rewrite Nat.add_succ_r. simpl in Hd. destruct (es (S (id + j))) as [[n elements]|];
        simpl in *; [|done]. intros b Hb. apply Hd. rewrite Hb1 by lia. done.
Qed.
End Before.

(** ** A single move *)
Section Single.
Context {build : Build} {T : Type} {ops : IndexSetOps T} {laws : IndexSetLaws T}.
Implicit Types (b : CollectionChangeBuilder T) (elements : list Row) (change : ColumnInfo T).

Definition at_or_past (it : list (Z * Z)) (p : Z) : Prop := it = [(p, p + 1)] ∨ it = [].

Lemma in_range_past it p i : at_or_past it p → p < i → in_range it i = (false, []).
Proof. intros [->| ->] Hi; unfold in_range; cbn; [|done]. by rewrite (proj2 (Z.leb_le (p + 1) i)) by lia. Qed.

Lemma in_range_before p i : i < p → in_range [(p, p + 1)] i = (false, [(p, p + 1)]).
Proof.
  intros Hi. unfold in_range. cbn. rewrite (proj2 (Z.leb_gt (p + 1) i)) by lia. cbn. by rewrite (proj2 (Z.leb_gt p i)) by lia.
Qed.

Lemma in_range_at p : in_range [(p, p + 1)] p = (true, [(p, p + 1)]).
Proof.
  unfold in_range. cbn. rewrite (proj2 (Z.leb_gt (p + 1) p)) by lia. cbn.
  by rewrite (proj2 (Z.leb_le p p)), (proj2 (Z.ltb_lt p (p + 1))) by lia.
Qed.

(** The element moved towards the end *)
Lemma moved_up f t n : ∀ i del (result : T),
  0 ≤ f → f < i → i + Z.of_nat n = t + 1 → t < npos → at_or_past del f → set_wf result →
  yields set_wf (moved_loop n i (-1) del [(t, t + 1)] result) (λ x, has result x ∨ i ≤ x ≤ t).
Proof.
  induction n as [|n IH]; intros i del result Hf Hi Hn Ht Hdel Hr; cbn [moved_loop].
  { exists result. split; [done|]. split; [done|]. intros x. intuition lia. }
  rewrite (in_range_past del f i Hdel Hi).
  assert (wrap (i + -1) = i - 1) as -> by (unfold wrap; rewrite Z.mod_small; slia).
  rewrite in_range_before by lia. cbn [negb Z.eqb].
  destruct (law_add result i Hr) as (res&->&Hres&Hm); [lia|]. cbn [mbind option_bind].
  destruct (IH (i + 1) [] res) as (s&Hs&Hws&Hms); [lia..|by right|done|]. exists s. split; [exact Hs|]. split; [done|].
  intros x. rewrite Hms, Hm. intuition lia.
Qed.

(** The element moved towards the start: its old place is not counted. *)
Lemma moved_down f t n : ∀ i ins (result : T),
  0 ≤ t → t < i → i + Z.of_nat n = f → f < npos → at_or_past ins t → set_wf result →
  yields set_wf (moved_loop (S n) i 1 [(f, f + 1)] ins result) (λ x, has result x ∨ i ≤ x < f).
Proof.
  induction n as [|n IH]; intros i ins result Ht Hi Hn Hf Hins Hr.
  - assert (i = f) as -> by lia. cbn [moved_loop]. rewrite in_range_at. cbn. exists result. split; [done|]. split; [done|].
    intros x. intuition lia.
  - set (m := S n). cbn [moved_loop]. rewrite in_range_before by lia.
    assert (wrap (i + 1) = i + 1) as -> by (unfold wrap; rewrite Z.mod_small; slia).
    rewrite (in_range_past ins t) by (done || lia). cbn [negb Z.eqb].
    destruct (law_add result i Hr) as (res&->&Hres&Hm); [lia|]. cbn [mbind option_bind].
    destruct (IH (i + 1) [] res) as (s&Hs&Hws&Hms); [lia..|by right|done|]. exists s. split; [exact Hs|]. split; [done|].
    intros x. rewrite Hms, Hm. intuition lia.
Qed.

Lemma singleton_ranges s p : set_wf s → 0 ≤ p < npos → (∀ x, has s x ↔ x = p) → set_ranges s = [(p, p + 1)].
Proof.
  intros Hs Hp Hx. apply (ranges_ok_ext (-1)); [by apply law_ranges| |].
  - simpl. lia.
  - intros x. pose proof (Hx x) as E. unfold has in E. rewrite E. simpl. intuition lia.
Qed.

Lemma moved_single b m f t :
  set_wf (deletions (changes b)) → set_wf (insertions (changes b)) → set_wf m → f ≠ t →
  0 ≤ f < npos → 0 ≤ t < npos →
  (∀ x, has (deletions (changes b)) x ↔ x = f) → (∀ x, has (insertions (changes b)) x ↔ x = t) →
  yields set_wf (moved_indices (changes (ChangeBuilder.with_modifications b m)))
    (λ x, has m x ∨ Z.min f t ≤ x ≤ Z.max f t).
Proof.
  intros Hd Hi Hm Hne Hf Ht Hdf Hit. unfold moved_indices. simpl.
  destruct (law_add_set m (deletions (changes b)) Hm Hd) as (res&->&Hres&Hmr). cbn [mbind option_bind].
  rewrite (singleton_ranges _ f Hd Hf Hdf), (singleton_ranges _ t Hi Ht Hit). cbn [head last mbind option_bind fst snd].
  destruct (decide (f < t)) as [Hft|Hft].
  - replace (Z.to_nat _) with (S (Z.to_nat (t - f))) by lia. replace (Z.min t f) with f by lia. cbn [moved_loop].
    rewrite in_range_at. cbn [negb Z.eqb Z.sub Z.opp Z.add Z.pos_sub].
    destruct (law_add res f Hres) as (res1&->&Hres1&Hm1); [lia|]. cbn [mbind option_bind].
    destruct (moved_up f t (Z.to_nat (t - f)) (f + 1) [(f, f + 1)] res1) as (s&Hs&Hws&Hms); [lia..|by left|done|].
    exists s. split; [exact Hs|]. split; [done|]. intros x. rewrite Hms, Hm1, Hmr, Hdf. intuition lia.
  - replace (Z.to_nat _) with (S (S (Z.to_nat (f - t - 1)))) by lia. replace (Z.min t f) with t by lia. set (k := S (Z.to_nat _)).
    cbn [moved_loop]. rewrite in_range_before by lia.
    assert (wrap (t + 0) = t) as -> by (unfold wrap; rewrite Z.mod_small; slia). rewrite in_range_at. cbn [negb Z.eqb Z.add].
    destruct (law_add res t Hres) as (res1&->&Hres1&Hm1); [lia|]. cbn [mbind option_bind].
    destruct (moved_down f t (Z.to_nat (f - t - 1)) (t + 1) [(t, t + 1)] res1) as (s&Hs&Hws&Hms); [lia..|by left|done|].
    exists s. split; [exact Hs|]. split; [done|]. intros x. rewrite Hms, Hm1, Hmr, Hdf. intuition lia.
Qed.

(** Where the elements are: between the two places each is the next one. *)
Lemma single_row b f t o p :
  set_wf (deletions (changes b)) → set_wf (insertions (changes b)) → 0 ≤ f → 0 ≤ t →
  (∀ x, has (deletions (changes b)) x ↔ x = f) → (∀ x, has (insertions (changes b)) x ↔ x = t) →
  kept (deletions (changes b)) (insertions (changes b)) o p →
  o ≠ f ∧ p ≠ t ∧ (if decide (f < o) then o - 1 else o) = if decide (t < p) then p - 1 else p.
Proof.
  intros Hd Hi Hf Ht Hdf Hit (Hno&Hnp&E). rewrite Hdf in Hno. rewrite Hit in Hnp. do 2 (split; [done|]).
  assert (∀ s q x, set_wf s → 0 ≤ q → (∀ x, has s x ↔ x = q) → unshifted s x = if decide (q < x) then x - 1 else x) as Hu.
  { intros s q x Hs Hq Hsq. unfold unshifted. pose proof (law_ranges s Hs).
    assert (0 ≤ q < npos) as Hr by (apply (has_range s); [done|by apply Hsq]).
    unfold rank. rewrite (singleton_ranges s q Hs Hr Hsq). simpl. case_decide; lia. }
  by rewrite (Hu _ f), (Hu _ t) in E by done.
Qed.
End Single.
