(* ===== verification/KVOAdapterProps.v ===== *)
(** The properties of [KVOAdapter]. *)
From stdpp Require Import gmap.
From S2P Require Import Prelude ChunkedRangeVector IndexSet IndexSetTheory IndexSetMerge IndexSetSpec IndexSetProps RowMap ChangeBuilder ChangeTheory ChangeMerge ChangeFinal ChangeRefinement TableRows ChangeTrack ChangeTrackRun DeepChange LogData TransactLog Transaction TransactLogTheory TransactLogEnd.
From S2P Require Import LogEncoder LogEncoderTheory LogParser LogReading LogRoundtrip LogReverser LogReverserTheory LogCodeProps TransactLogProps KVOAdapter KVOAdapterTheory.
Import KVO Samples.

(** ** The constructor *)
Section Lists.
Context {A B C K : Type}.

(** What is made of different places is different. *)
Lemma NoDup_omap_imap (f : nat → A → B) (g : B → option C) (key : C → K) (k : nat → K) (l : list A) :
  (∀ i j, k i = k j → i = j) → (∀ i a y, g (f i a) = Some y → key y = k i) → NoDup (key <$> omap g (imap f l)).
Proof.
  revert f k. induction l as [|a l IH]; intros f k Hk Hkey; [constructor|]. cbn [imap omap list_omap].
  assert (NoDup (key <$> omap g (imap (f ∘ S) l))) as Hl.
  { apply (IH (f ∘ S) (k ∘ S)); [|intros i; apply (Hkey (S i))]. intros i j E. apply Hk in E. by injection E. }
  destruct (g (f 0%nat a)) as [y|] eqn:E; [|done]. rewrite fmap_cons. apply NoDup_cons. split; [|done].
  intros (z&Ez&(b&(i&a'&->&_)%elem_of_lookup_imap&Hb)%list_elem_of_omap)%list_elem_of_fmap.
  apply Hkey in E. apply (Hkey (S i)) in Hb. assert (k 0%nat = k (S i)) as Ek by congruence. by apply Hk in Ek.
Qed.

Lemma elem_concat_imap (F : nat → A → list C) (l : list A) y :
  y ∈ concat (imap F l) ↔ ∃ i a, l !! i = Some a ∧ y ∈ F i a.
Proof.
  revert F. induction l as [|a l IH]; intros F; cbn [imap concat].
  { rewrite elem_of_nil. split; [done|]. by intros (i&a&[=]&_). }
  rewrite elem_of_app, IH. split.
  - intros [?|(i&b&?&?)]; [by exists 0%nat, a|by exists (S i), b].
  - intros ([|i]&b&Hb&?); simpl in Hb; [left; congruence|right; by exists i, b].
Qed.

Lemma NoDup_concat_imap (F : nat → A → list C) (key : C → nat * K) (k : nat → nat) (l : list A) :
  (∀ i j, k i = k j → i = j) → (∀ i a y, y ∈ F i a → (key y).1 = k i) → (∀ i a, NoDup (key <$> F i a)) →
  NoDup (key <$> concat (imap F l)).
Proof.
  revert F k. induction l as [|a l IH]; intros F k Hk Hkey Hnd; [constructor|]. cbn [imap concat]. rewrite fmap_app.
  apply NoDup_app. split; [apply Hnd|]. split.
  - intros q (y&->&Hy)%list_elem_of_fmap (z&Ez&(i&b&_&Hz)%elem_concat_imap)%list_elem_of_fmap.
    apply Hkey in Hy. apply Hkey in Hz. assert (k 0%nat = k (S i)) as Ek by congruence. by apply Hk in Ek.
  - apply (IH (F ∘ S) (k ∘ S)); [|intros i; apply (Hkey (S i))|intros i; apply (Hnd (S i))].
    intros i j E. apply Hk in E. by injection E.
Qed.
End Lists.

Section Constructor.
Context {build : Build} {T : Type} {ops : IndexSetOps T}.
Context (columns_of : Z → list DataType) (subtable_size : Z → Z → Z → Z).
Implicit Types (x : ObserverState T) (observers : list (ObserverState T)).

Lemma lists_of_elem i x l :
  l ∈ lists_of columns_of subtable_size i x ↔
  ∃ c, columns_of (table_ndx x) !! c = Some type_LinkList ∧ l = mkListInfo i (Z.of_nat c) npos ∨
       columns_of (table_ndx x) !! c = Some type_Table ∧
         l = mkListInfo i (Z.of_nat c) (subtable_size (table_ndx x) (Z.of_nat c) (row_ndx x)).
Proof.
  unfold lists_of. rewrite list_elem_of_omap. split.
  - intros ([c type]&(j&type'&[= -> ->]&Hj)%elem_of_lookup_imap&E). exists j. destruct type'; try done; injection E as <-; auto.
  - intros (c&[[Hc ->]|[Hc ->]]).
    + exists (Z.of_nat c, type_LinkList). split; [|done]. apply elem_of_lookup_imap. eauto.
    + exists (Z.of_nat c, type_Table). split; [|done]. apply elem_of_lookup_imap. eauto.
Qed.

Definition all_lists observers : list ListInfo := concat (imap (lists_of columns_of subtable_size) observers).

Lemma all_lists_distinct observers : lists_distinct (all_lists observers).
Proof.
  apply (NoDup_concat_imap _ (λ l, (list_observer l, list_col l)) id); [done| |].
  - intros i x l (c&[[_ ->]|[_ ->]])%lists_of_elem; done.
  - intros i x. apply (NoDup_omap_imap _ _ _ (λ c, (i, Z.of_nat c))).
    + intros c c' [= E]. lia.
    + intros c type y. destruct type; try done; by intros [= <-].
Qed.

(** Every list has its row. *)
Lemma all_lists_observer observers l :
  l ∈ all_lists observers → ∃ x, observers !! list_observer l = Some x ∧ l ∈ lists_of columns_of subtable_size (list_observer l) x.
Proof.
  intros (i&x&Hx&Hl)%elem_concat_imap. exists x.
  assert (list_observer l = i) as -> by (by apply lists_of_elem in Hl as (c&[[_ ->]|[_ ->]])). done.
Qed.

Definition entries observers : list ListChangeInfo := omap id (imap (list_entry observers) (all_lists observers)).

Lemma entries_elem observers y :
  y ∈ entries observers ↔ ∃ id l x, all_lists observers !! id = Some l ∧ observers !! list_observer l = Some x ∧
    y = mkListChangeInfo (table_ndx x) (row_ndx x) (list_col l) id.
Proof.
  unfold entries, list_entry. rewrite list_elem_of_omap. split.
  - intros (e&(id&l&->&Hl)%elem_of_lookup_imap&E). simpl in E. apply bind_Some in E as (x&Hx&[= <-]). eauto 6.
  - intros (id&l&x&Hl&Hx&->). eexists. split; [apply elem_of_lookup_imap; eauto|]. simpl. by rewrite Hx.
Qed.

Lemma entries_ids observers : NoDup (list_changes <$> entries observers).
Proof.
  apply (NoDup_omap_imap _ _ _ id); [done|]. intros id l y. unfold list_entry. simpl. by intros (x&_&[= <-])%bind_Some.
Qed.

Lemma entries_keys observers :
  NoDup ((λ x, (table_ndx x, row_ndx x)) <$> observers) → keys_distinct (entries observers).
Proof.
  intros Hnd y y' (id&l&x&Hl&Hx&->)%entries_elem (id'&l'&x'&Hl'&Hx'&->)%entries_elem. simpl. intros Et Er Ec.
  assert (list_observer l = list_observer l') as Eo.
  { eapply NoDup_lookup; [exact Hnd| |]; rewrite list_lookup_fmap; [by rewrite Hx|rewrite Hx'; simpl; by rewrite Et, Er]. }
  assert (id = id') as ->; [|congruence]. eapply NoDup_lookup; [apply (all_lists_distinct observers)| |]; rewrite list_lookup_fmap;
    [by rewrite Hl|rewrite Hl'; simpl; by rewrite Eo, Ec].
Qed.

Lemma needed_all observers x : x ∈ observers → 0 ≤ table_ndx x → TransactLog.needed (needed_vector observers) (table_ndx x) = true.
Proof.
  intros Hx Ht. unfold TransactLog.needed, needed_vector. set (size := S _).
  assert (Z.to_nat (table_ndx x) < size)%nat as Hlt.
  { unfold size. clear size. induction observers as [|y observers IH]; [by apply elem_of_nil in Hx|]. rewrite fmap_cons. cbn [foldr].
    apply elem_of_cons in Hx as [->|Hx]; [lia|]. specialize (IH Hx). lia. }
  assert (∀ (v : list bool), length v = size → x ∈ observers ∨ v !! Z.to_nat (table_ndx x) = Some true →
    foldl (λ v x, <[Z.to_nat (table_ndx x) := true]> v) v observers !! Z.to_nat (table_ndx x) = Some true) as Hfold.
  { clearbody size. clear Hx. induction observers as [|y observers IH]; intros v Hv [Hx|Hx]; simpl; [by apply elem_of_nil in Hx|done|..].
    - apply IH; [by rewrite length_insert|]. apply elem_of_cons in Hx as [<-|Hx]; [right|by left].
      apply list_lookup_insert_eq. lia.
    - apply IH; [by rewrite length_insert|]. right. destruct (decide (Z.to_nat (table_ndx y) = Z.to_nat (table_ndx x))) as [->|].
      + apply list_lookup_insert_eq. lia.
      + by rewrite list_lookup_insert_ne. }
  rewrite Hfold; [done|apply length_replicate|by left].
Qed.

Lemma builders_initial observers id l :
  all_lists observers !! id = Some l →
  (list_to_map (imap (λ id _, (id, ChangeBuilder.empty_builder)) (all_lists observers)) : gmap nat (CollectionChangeBuilder T)) !! id =
    Some ChangeBuilder.empty_builder.
Proof.
  intros Hl. apply elem_of_list_to_map_1'.
  - by intros b (j&l'&[= -> ->]&_)%elem_of_lookup_imap.
  - apply elem_of_lookup_imap. eauto.
Qed.
End Constructor.

(** ** What is observed *)
Section Observed.
Context {build : Build} {T : Type} {ops : IndexSetOps T} {laws : IndexSetLaws T}.
Context (columns_of : Z → list DataType) (subtable_size : Z → Z → Z → Z).
Implicit Types (x : ObserverState T) (observers : list (ObserverState T)) (w : World) (b : CollectionChangeBuilder T).

(** The list in a cell of the observed row, before the transaction *)
Definition list_before w x (c : Z) : list Row := list_at w (mkListChangeInfo (table_ndx x) (row_ndx x) c 0).

(** The observers are for different rows and were told nothing yet; the core
    says how large the subtables are. *)
Record observable observers w : Prop := mkObservable {
  ob_fresh : fresh w;
  ob_rows : ∀ x, x ∈ observers → 0 ≤ table_ndx x ∧ row_changes x = [] ∧
    ∃ rows, db w !! Z.to_nat (table_ndx x) = Some rows ∧ 0 ≤ row_ndx x < len rows;
  ob_distinct : NoDup ((λ x, (table_ndx x, row_ndx x)) <$> observers);
  ob_columns : ∀ t, len (columns_of t) ≤ npos;
  ob_sizes : ∀ x c, x ∈ observers → columns_of (table_ndx x) !! c = Some type_Table →
    len (list_before w x (Z.of_nat c)) ≤ subtable_size (table_ndx x) (Z.of_nat c) (row_ndx x) ≤ npos }.

(** The observed row after the transaction, [None] if it was deleted *)
Definition find_row w x : option DbRow :=
  snd <$> list_find (λ r, row_origin (db_row r) = Some (row_ndx x)) (default [] (db w !! Z.to_nat (table_ndx x))).

(** What the observer [x], the one with index [i], is told: whether each cell
    was set, and the change of each list no element of which was moved. *)
Definition observer_told w0 w (ls : list ListInfo) (builders : gmap nat (CollectionChangeBuilder T)) (i : nat) x x' : Prop :=
  same_observer x x' ∧
  match find_row w x with
  | None => row_changes x' = []
  | Some r =>
      (∀ c, 0 ≤ c < npos → (∀ l, l ∈ ls → list_observer l = i → list_col l ≠ c) →
         kind (change_at x' c) = (if decide (c ∈ dirty (db_row r)) then KindSet else KindNone) ∧
         (c ∈ dirty (db_row r) → initial_column_index (change_at x' c) = c)) ∧
      ∀ id l b, ls !! id = Some l → list_observer l = i → builders !! id = Some b → moves (changes b) = [] →
        list_told (len (list_before w0 x (list_col l))) (content r (list_col l)) (change_at x' (list_col l))
  end.

Lemma find_row_Some w x rows p r :
  db w !! Z.to_nat (table_ndx x) = Some rows → distinct_rows (db_row <$> rows) →
  at_ rows p = Some r → row_origin (db_row r) = Some (row_ndx x) → find_row w x = Some r.
Proof.
  intros Ht Hd Hr Ho. unfold find_row. rewrite Ht. simpl. destruct (list_find _ rows) as [[j r']|] eqn:Hf; simpl.
  - apply list_find_Some in Hf as (Hj&Ho'&_). assert (at_ rows (Z.of_nat j) = Some r') as Hr'.
    { unfold at_. rewrite decide_True, Nat2Z.id by lia. done. }
    assert (p = Z.of_nat j) as ->; [|congruence].
    apply (Hd p (Z.of_nat j) (db_row r) (db_row r')); [by rewrite at_fmap, Hr|by rewrite at_fmap, Hr'|congruence..].
  - exfalso. eapply list_find_None in Hf. rewrite Forall_forall in Hf. apply (Hf r); [|done].
    unfold at_ in Hr. case_decide; [|done]. by eapply list_elem_of_lookup_2.
Qed.

Lemma find_row_None w x rows :
  db w !! Z.to_nat (table_ndx x) = Some rows →
  (∀ p r, at_ (db_row <$> rows) p = Some r → row_origin r ≠ Some (row_ndx x)) → find_row w x = None.
Proof.
  intros Ht Hno. unfold find_row. rewrite Ht. simpl. destruct (list_find _ rows) as [[j r']|] eqn:Hf; [|done]. exfalso.
  apply list_find_Some in Hf as (Hj&Ho'&_). apply (Hno (Z.of_nat j) (db_row r')); [|done]. rewrite at_fmap.
  unfold at_. rewrite decide_True, Nat2Z.id by lia. by rewrite Hj.
Qed.

Lemma make_observes observers w :
  observers ≠ [] → observable observers w →
  let o := (make columns_of subtable_size observers).2 in
  lists (TransactLog.m_info o) = entries columns_of subtable_size observers ∧
  o = TransactLog.make (TransactLog.m_info o) (TransactLog.list_builders o) ∧
  observes (TransactLog.m_info o) (TransactLog.list_builders o) w ∧
  (∀ x, x ∈ observers → tracked_table (TransactLog.m_info o) (Z.to_nat (table_ndx x)) = true ∧
     tracked_moves (TransactLog.m_info o) (Z.to_nat (table_ndx x)) = true) ∧
  m_observers (make columns_of subtable_size observers).1 = observers ∧
  m_invalidated (make columns_of subtable_size observers).1 = [] ∧
  m_lists (make columns_of subtable_size observers).1 = all_lists columns_of subtable_size observers ∧
  column_indices (TransactLog.m_info o) = [] ∧ table_indices (TransactLog.m_info o) = [] ∧
  ∀ id l, all_lists columns_of subtable_size observers !! id = Some l →
    TransactLog.list_builders o !! id = Some ChangeBuilder.empty_builder.
Proof.
  intros Hne [Hfresh Hrows Hdist Hcols Hsizes]. unfold make. rewrite bool_decide_eq_false_2 by done. simpl.
  split; [done|]. split; [done|]. split; [|split; [|do 5 (split; [done|]); apply builders_initial]].
  - split; [done|]. split; [done|]. split; [apply entries_ids|]. split; [by apply entries_keys|].
    intros y (id&l&x&Hl&Hx&->)%entries_elem. simpl. destruct (Hrows x) as (?&_&?); [by eapply list_elem_of_lookup_2|].
    split; [done|]. split; [by eapply builders_initial|done].
  - intros x Hx. destruct (Hrows x Hx) as (?&_). unfold tracked_table, tracked_moves. simpl.
    rewrite Z2Nat.id by done. by rewrite needed_all.
Qed.
End Observed.

(** ** Parsing the log of what is observed *)
Section Told.
Context {build : Build} {T : Type} {ops : IndexSetOps T} {laws : IndexSetLaws T}.
Context (columns_of : Z → list DataType) (subtable_size : Z → Z → Z → Z).
Implicit Types (x : ObserverState T) (observers : list (ObserverState T)) (w : World) (b : CollectionChangeBuilder T).
Implicit Types (o : TransactLog.Observer T).
#[local] Notation all_lists := (all_lists columns_of subtable_size).
#[local] Notation observable := (observable columns_of subtable_size).

(** No table goes away. *)
Lemma run_tables log : ∀ w w', run log w = Some w' → length (db w') = length (db w).
Proof.
  assert (∀ f w w', on_table f w = Some w' → length (db w') = length (db w)) as Htab.
  { intros f w w' (t&rows&rows'&_&_&_&->)%on_table_Some. apply length_insert. }
  assert (∀ op w w', on_list op w = Some w' → length (db w') = length (db w)) as Hlist.
  { intros op w w' H. unfold on_list in H. run_steps. apply length_insert. }
  unfold run. induction log as [|i log IH]; intros w w' Hrun; cbn [foldlM] in Hrun; [by injection Hrun as <-|].
  apply bind_Some in Hrun as (w1&Hstep&Hrun). rewrite (IH _ _ Hrun). clear IH Hrun.
  destruct i; simpl in Hstep; try discriminate Hstep; repeat case_match; try discriminate Hstep; run_steps;
    repeat match goal with
    | H : on_table _ _ = Some _ |- _ => apply Htab in H
    | H : on_list _ _ = Some _ |- _ => apply Hlist in H
    end; simpl in *; congruence.
Qed.

(** The end of the log *)
Record parsed observers w0 w o : Prop := mkParsed {
  pa_indices : column_indices (TransactLog.m_info o) = [] ∧ table_indices (TransactLog.m_info o) = [];
  pa_rows : ∀ x, x ∈ observers → ∃ rows, db w !! Z.to_nat (table_ndx x) = Some rows ∧
    0 ≤ row_ndx x < table_size w0 (Z.to_nat (table_ndx x)) ∧
    table_size w0 (Z.to_nat (table_ndx x)) + len (db_row <$> rows) + 2 ≤ npos ∧
    cells (table_builder (tables (TransactLog.m_info o)) (Z.to_nat (table_ndx x))) (db_row <$> rows) ∧
    reports (table_size w0 (Z.to_nat (table_ndx x))) (table_builder (tables (TransactLog.m_info o)) (Z.to_nat (table_ndx x)))
      (db_row <$> rows);
  pa_lists : ∀ id l x, all_lists observers !! id = Some l → observers !! list_observer l = Some x →
    ∃ b, TransactLog.list_builders o !! id = Some b ∧ modifications_new (changes b) = set_nil ∧
      ∀ rows p r, db w !! Z.to_nat (table_ndx x) = Some rows → at_ rows p = Some r → row_origin (db_row r) = Some (row_ndx x) →
        cell_reported (len (list_before w0 x (list_col l))) b r (list_col l) }.

Lemma parse_observed observers log w0 w :
  observers ≠ [] → observable observers w0 → run log w0 = Some w →
  run_ok (entries columns_of subtable_size observers) log w0 →
  ∃ o, TransactLog.parse log (make columns_of subtable_size observers).2 = Some (inl o) ∧ parsed observers w0 w o.
Proof.
  intros Hne Hobs Hrun Hok.
  destruct (make_observes columns_of subtable_size observers w0 Hne Hobs) as (Hls&Hmk&Hob&Htr&_&_&_&Hci&Hti&Hb0).
  set (o0 := (make columns_of subtable_size observers).2) in *. rewrite <-Hls in Hok.
  destruct (log_reported _ _ log w0 w Hob Hrun Hok) as (o&Hp&Hrep&_&Hbd&Hlists). rewrite <-Hmk in Hp.
  exists o. split; [done|]. destruct (parse_frame log o0 o w0 w Hrun Hp) as (Hfc&Hft&Hfb). constructor.
  - split; congruence.
  - intros x Hx. destruct (ob_rows _ _ _ _ Hobs x Hx) as (Ht&_&rows0&Hrows0&Hrow).
    destruct (lookup_lt_is_Some_2 (db w) (Z.to_nat (table_ndx x))) as [rows Hrows].
    { rewrite (run_tables log w0 w Hrun). by eapply lookup_lt_Some. }
    exists rows. split; [done|]. unfold table_size. rewrite Hrows0. simpl. split; [done|].
    destruct (ob_fresh _ _ _ _ Hobs) as [Hfresh _]. pose proof (Forall_lookup_1 _ _ _ _ Hfresh Hrows0) as (_&Hmax0&_).
    pose proof (Forall_lookup_1 _ _ _ _ Hbd Hrows) as Hmax. pose proof max_rows_fits. simpl in Hmax.
    split; [rewrite len_fmap; lia|]. destruct (Htr x Hx) as [Htr1 Htr2]. destruct (Hrep _ _ Hrows Htr1) as [Hc Hr]. split; [done|].
    specialize (Hr Htr2). unfold table_size in Hr. by rewrite Hrows0 in Hr.
  - intros id l x Hl Hx. destruct (Hfb id ChangeBuilder.empty_builder) as (b&Hb&Hnew); [by eapply Hb0|].
    exists b. split; [done|]. split; [by rewrite Hnew|]. intros rows p r Hrows Hr Ho.
    destruct (Hlists (mkListChangeInfo (table_ndx x) (row_ndx x) (list_col l) id) rows p r) as (b'&Hb'&Hcell); [|done..|].
    + rewrite Hls. apply entries_elem. eauto 6.
    + simpl in Hb'. assert (b' = b) as -> by congruence. done.
Qed.

(** One observed row *)
Lemma row_outcome observers w0 w o x :
  observable observers w0 → parsed observers w0 w o → x ∈ observers →
  (∃ r rows p x1, find_row w x = Some r ∧ db w !! Z.to_nat (table_ndx x) = Some rows ∧ at_ rows p = Some r ∧
     row_origin (db_row r) = Some (row_ndx x) ∧ before_row (TransactLog.m_info o) x = Some (x1, []) ∧ row_told x x1 (db_row r)) ∨
  (find_row w x = None ∧ before_row (TransactLog.m_info o) x = Some (x, [user_info x]) ∧
     ∃ table, at_ (tables (TransactLog.m_info o)) (table_ndx x) = Some table ∧
       set_wf (deletions (changes table)) ∧ has (deletions (changes table)) (row_ndx x)).
Proof.
  intros Hobs [[Hci Hti] Hrows _] Hx. destruct (Hrows x Hx) as (rows&Hr&Hrow&Hmax&Hc&Hrep).
  destruct (ob_rows _ _ _ _ Hobs x Hx) as (Ht&Hnone&_).
  destruct (before_row_ok (TransactLog.m_info o) x _ _ Hti Hci Ht Hnone Hrow Hmax Hrep Hc) as [(p&tr&x1&Htr&Ho&Hb&Htold)|[Hno Hb]].
  - left. rewrite at_fmap in Htr. destruct (at_ rows p) as [r|] eqn:Hrp; [|done]. injection Htr as <-.
    exists r, rows, p, x1. split; [|done]. eapply find_row_Some; try done. apply Hrep.
  - right. split; [by eapply find_row_None|]. split; [done|].
    assert (has (deletions (changes (table_builder (tables (TransactLog.m_info o)) (Z.to_nat (table_ndx x))))) (row_ndx x)) as Hd.
    { destruct Hrep as (Hdel&_). apply Hdel; [done|]. intros (r&Hr'&Ho). by apply (Hno _ _ Hr'). }
    destruct Hrep as (_&_&_&_&_&Hwf&_). unfold table_builder, at_ in *. rewrite decide_True by done.
    destruct (tables (TransactLog.m_info o) !! Z.to_nat (table_ndx x)) as [b|]; simpl in *; [eauto|].
    exfalso. by apply (has_nil (row_ndx x)).
Qed.

Lemma empty_builder_unchanged : ChangeBuilder.empty (changes (ChangeBuilder.empty_builder (T := T))) = true.
Proof.
  unfold ChangeBuilder.empty, ChangeBuilder.empty_builder. simpl. rewrite law_empty by apply law_nil. by rewrite (proj2 law_nil).
Qed.

(** What the loop over the lists is given *)
Definition list_elements observers w0 w (id : nat) : option (Z * list Row) :=
  l ← all_lists observers !! id;
  x ← observers !! list_observer l;
  r ← find_row w x;
  Some (len (list_before w0 x (list_col l)), content r (list_col l)).

Lemma list_bounds observers w0 id l x :
  observable observers w0 → all_lists observers !! id = Some l → observers !! list_observer l = Some x →
  0 ≤ list_col l < npos ∧ len (list_before w0 x (list_col l)) ≤ list_initial_size l ≤ npos.
Proof.
  intros Hobs Hl Hx. destruct (all_lists_observer columns_of subtable_size observers l) as (x'&Hx'&Hl'); [by eapply list_elem_of_lookup_2|].
  assert (x' = x) as -> by congruence. assert (x ∈ observers) as Hin by (by eapply list_elem_of_lookup_2).
  destruct (ob_rows _ _ _ _ Hobs x Hin) as (Ht&_&rows&Hrows&Hrow). pose proof max_rows_fits.
  apply lists_of_elem in Hl' as (c&[[Hc E]|[Hc E]]); rewrite E; simpl;
    pose proof (ob_columns _ _ _ _ Hobs (table_ndx x)) as Hcol; apply lookup_lt_Some in Hc as Hlt; unfold len in Hcol.
  - split; [lia|]. split; [|lia]. unfold list_before, list_at. simpl. rewrite Hrows. simpl.
    destruct (at_is_Some rows _ Hrow) as [r Hr]. rewrite Hr. destruct (ob_fresh _ _ _ _ Hobs) as [Hfresh _].
    destruct (fresh_row_at rows _ r (Forall_lookup_1 _ _ _ _ Hfresh Hrows) Hr) as [_ Hcon]. destruct (Hcon (Z.of_nat c)). lia.
  - split; [lia|]. by apply (ob_sizes _ _ _ _ Hobs).
Qed.

Lemma lists_ready observers w0 w o rs id l :
  observable observers w0 → parsed observers w0 w o →
  Forall2 (λ x y, before_row (TransactLog.m_info o) x = Some y) observers rs →
  all_lists observers !! id = Some l →
  ∃ x1, rs.*1 !! list_observer l = Some x1 ∧
    list_ready (TransactLog.m_info o) (TransactLog.list_builders o) x1 id l (list_elements observers w0 w id).
Proof.
  intros Hobs Hp Hrs Hl. destruct (all_lists_observer columns_of subtable_size observers l) as (x&Hx&_); [by eapply list_elem_of_lookup_2|].
  destruct (Forall2_lookup_l _ _ _ _ _ Hrs Hx) as ([x1 inv]&Hx1&Hb1). exists x1. rewrite list_lookup_fmap, Hx1. split; [done|].
  assert (x ∈ observers) as Hin by (by eapply list_elem_of_lookup_2).
  destruct (list_bounds _ _ _ _ _ Hobs Hl Hx) as [Hcol Hsize]. split; [lia|].
  destruct (pa_lists _ _ _ _ Hp id l x Hl Hx) as (b&Hb&Hnew&Hcell). exists b. split; [done|].
  unfold list_elements. rewrite Hl. cbn [mbind option_bind]. rewrite Hx. cbn [mbind option_bind].
  destruct (row_outcome _ _ _ _ _ Hobs Hp Hin) as [(r&rows&p&x1'&->&Hrows&Hr&Ho&Hb1'&Htold)|(->&Hb1'&table&Htab&Hwf&Hdel)]; cbn [mbind option_bind].
  - assert (x1' = x1) as -> by congruence. destruct (Hcell rows p r Hrows Hr Ho) as [Hrep Hclean].
    split; [split; [unfold len|]; lia|]. split; [lia|]. split; [done|]. split; [done|]. intros Hne.
    destruct (decide (list_col l ∈ dirty (db_row r))) as [Hd|Hd].
    + destruct Htold as [_ Htold]. destruct (Htold (list_col l)) as [_ Hlt]; [lia|]. by apply Hlt.
    + rewrite (Hclean Hd), empty_builder_unchanged in Hne. done.
  - assert (x1 = x) as -> by congruence. destruct (ob_rows _ _ _ _ Hobs x Hin) as (Ht&Hnone&rows0&_&Hrow). split; [done|]. split; [lia|].
    destruct (pa_indices _ _ _ _ Hp) as [_ Hti]. unfold new_table_ndx. rewrite Hti. change (len (A := Z) []) with 0.
    rewrite (proj2 (Z.ltb_ge (table_ndx x) 0)) by lia. eauto.
Qed.
End Told.

(** ** What the observers are told *)
Section Before.
Context {build : Build} {T : Type} {ops : IndexSetOps T} {laws : IndexSetLaws T}.
Context (columns_of : Z → list DataType) (subtable_size : Z → Z → Z → Z).
Implicit Types (x : ObserverState T) (observers : list (ObserverState T)) (w : World) (o : TransactLog.Observer T).
#[local] Notation all_lists := (all_lists columns_of subtable_size).
#[local] Notation observable := (observable columns_of subtable_size).

Lemma row_only w0 w (ls : list ListInfo) o i x x1 x' r :
  find_row w x = Some r → row_told x x1 (db_row r) → same_observer x1 x' →
  (∀ c, 0 ≤ c → (∀ l, l ∈ ls → list_observer l = i → list_col l ≠ c) → change_at x' c = change_at x1 c) →
  (∀ id l b, ls !! id = Some l → list_observer l = i → TransactLog.list_builders o !! id = Some b → moves (changes b) = [] →
    list_told (len (list_before w0 x (list_col l))) (content r (list_col l)) (change_at x' (list_col l))) →
  observer_told w0 w ls (TransactLog.list_builders o) i x x'.
Proof.
  intros Hf [(Et&Er&Eu) Htold] (Et'&Er'&Eu') Hc Hl. split; [split_and!; congruence|]. rewrite Hf. split; [|done].
  intros c Hrange Hno. rewrite Hc by (done || lia). destruct (Htold c Hrange) as [Hk Hi]. split; [done|]. intros Hd. by apply Hi.
Qed.

Lemma invalidated_rows observers w0 w o rs :
  observable observers w0 → parsed columns_of subtable_size observers w0 w o →
  Forall2 (λ x y, before_row (TransactLog.m_info o) x = Some y) observers rs →
  concat (rs.*2) = user_info <$> filter (λ x, find_row w x = None) observers.
Proof.
  intros Hobs Hp Hrs.
  assert (∀ x, x ∈ observers → (∃ x1, before_row (TransactLog.m_info o) x = Some (x1, []) ∧ find_row w x ≠ None) ∨
    (before_row (TransactLog.m_info o) x = Some (x, [user_info x]) ∧ find_row w x = None)) as Hout.
  { intros x Hx. destruct (row_outcome _ _ _ _ _ _ _ Hobs Hp Hx) as [(r&_&_&x1&Hf&_&_&_&Hb&_)|(Hf&Hb&_)]; [left|by right].
    exists x1. by rewrite Hf. }
  clear Hobs Hp. induction Hrs as [|x [x1 inv] observers rs Hb _ IH]; [done|]. rewrite filter_cons. cbn [fmap list_fmap concat].
  rewrite IH by (intros y Hy; apply Hout; by constructor). cbn [snd].
  destruct (Hout x ltac:(constructor)) as [(x2&E&Hf)|[E Hf]]; rewrite E in Hb; injection Hb as <- <-.
  - by rewrite decide_False.
  - by rewrite decide_True.
Qed.

(** Without a change of a table the observers are as they were. *)
Lemma unchanged_told observers w0 w o i x :
  observable observers w0 → parsed columns_of subtable_size observers w0 w o → observers !! i = Some x →
  tables (TransactLog.m_info o) = [] →
  observer_told w0 w (all_lists observers) (TransactLog.list_builders o) i x x ∧ find_row w x ≠ None.
Proof.
  intros Hobs Hp Hx Htab. assert (x ∈ observers) as Hin by (by eapply list_elem_of_lookup_2).
  destruct (ob_rows _ _ _ _ Hobs x Hin) as (_&Hnone&_).
  assert (before_row (TransactLog.m_info o) x = Some (x, [])) as Hb.
  { unfold before_row, at_. rewrite Htab, lookup_nil. by destruct (decide _). }
  destruct (row_outcome _ _ _ _ _ _ _ Hobs Hp Hin) as [(r&rows&p&x1&Hf&Hrows&Hr&Ho&Hb'&Htold)|(_&Hb'&_)]; [|congruence].
  assert (x1 = x) as -> by congruence. split; [|congruence]. eapply row_only; try done.
  intros id l b Hl El Hb0 Hmv. rewrite <-El in Hx.
  destruct (pa_lists _ _ _ _ _ _ Hp id l x Hl Hx) as (b'&Hb1&_&Hcell). assert (b' = b) as -> by congruence.
  destruct (Hcell rows p r Hrows Hr Ho) as [Hrep Hclean]. destruct (list_bounds _ _ _ _ _ _ _ Hobs Hl Hx) as [Hcol _].
  destruct Htold as [_ Htold]. destruct (Htold (list_col l) Hcol) as [_ Hlt].
  assert (list_col l ∉ dirty (db_row r)) as Hd.
  { intros Hd. destruct (Hlt Hd) as [Hlen _]. rewrite Hnone in Hlen. change (len (A := ColumnInfo T) []) with 0 in Hlen. lia. }
  rewrite (Hclean Hd) in Hrep. unfold list_told, change_at, at_. rewrite Hnone, decide_True, lookup_nil by lia. simpl.
  eapply unchanged_list; [unfold len; lia|exact Hrep|apply empty_builder_unchanged].
Qed.

Lemma before_told observers w0 w o a :
  observable observers w0 → parsed columns_of subtable_size observers w0 w o →
  m_observers a = observers → m_lists a = all_lists observers →
  ∃ a' o', before a o = Some (a', o') ∧
    m_invalidated a' = m_invalidated a ++ (user_info <$> filter (λ x, find_row w x = None) observers) ∧
    ∀ i x, observers !! i = Some x → ∃ x', m_observers a' !! i = Some x' ∧
      observer_told w0 w (all_lists observers) (TransactLog.list_builders o) i x x'.
Proof.
  intros Hobs Hp Ho Hl. unfold before. rewrite Ho, Hl. case_bool_decide as Htab.
  - exists a, o. split; [done|]. split.
    + assert (filter (λ x, find_row w x = None) observers = []) as ->; [|by rewrite app_nil_r].
      apply elem_of_nil_inv. intros x [Hf [i Hx]%list_elem_of_lookup]%list_elem_of_filter.
      by apply (unchanged_told observers w0 w o i x).
    + intros i x Hx. exists x. rewrite Ho. split; [done|]. by apply unchanged_told.
  - assert (is_Some (mapM (before_row (TransactLog.m_info o)) observers)) as [rs Hrs].
    { apply mapM_is_Some_2, Forall_forall. intros x Hx. simpl.
      destruct (row_outcome _ _ _ _ _ _ _ Hobs Hp Hx) as [(?&_&_&x1&_&_&_&_&->&_)|(_&->&_)]; eauto. }
    pose proof (mapM_Some_1 _ _ _ Hrs) as Hrs2.
    destruct (before_lists_ok (TransactLog.m_info o) (list_elements columns_of subtable_size observers w0 w) (all_lists observers) 0
      (rs.*1) (TransactLog.list_builders o)) as (observers'&builders'&Hbl&_&Hall); [apply all_lists_distinct| |].
    { intros j l Hj. by apply (lists_ready columns_of subtable_size observers w0 w o rs). }
    rewrite Hrs. cbn [mbind option_bind]. rewrite Hbl. cbn [mbind option_bind]. eexists _, _. split; [done|]. split.
    { simpl. by rewrite (invalidated_rows observers w0 w o rs). }
    intros i x Hx. simpl. destruct (Forall2_lookup_l _ _ _ _ _ Hrs2 Hx) as ([x1 inv]&Hx1&Hb1).
    destruct (Hall i x1) as (x'&Hx'&Hs&Hlen&Hc&Hd); [by rewrite list_lookup_fmap, Hx1|]. exists x'. split; [done|].
    destruct (row_outcome _ _ _ _ _ _ _ Hobs Hp (list_elem_of_lookup_2 _ _ _ Hx)) as [(r&rows&p&x1'&Hf&_&_&_&Hb1'&Htold)|(Hf&Hb1'&_)].
    + assert (x1' = x1) as -> by congruence. eapply row_only; try done.
      intros id l b Hli El Hb0 Hmv. specialize (Hd id l Hli El). change (0 + id)%nat with id in Hd. unfold list_elements in Hd. rewrite Hli in Hd.
      cbn [mbind option_bind] in Hd. rewrite El, Hx in Hd. cbn [mbind option_bind] in Hd. rewrite Hf in Hd. by apply (Hd b).
    + assert (x1 = x) as -> by congruence. destruct (ob_rows _ _ _ _ Hobs x (list_elem_of_lookup_2 _ _ _ Hx)) as (_&Hnone&_).
      split; [done|]. rewrite Hf. apply nil_length_inv. by rewrite Hlen, Hnone.
Qed.
End Before.

(** ** From the bytes of the log *)
Section Logged.
Context {build : Build} {T : Type} {ops : IndexSetOps T} {laws : IndexSetLaws T}.
Context {tstream : TransactLogStream} {slaws : TransactLogStreamLaws} {core : CoreEncoder} {clawss : CoreEncoderLaws}.
Context {I : Type} `{NoCopyInputStream I} {remaining : I → list Z} {ilaws : NoCopyInputStreamLaws I remaining}.
Context (columns_of : Z → list DataType) (subtable_size : Z → Z → Z → Z).
Implicit Types (x : ObserverState T) (observers : list (ObserverState T)) (w : World) (o : TransactLog.Observer T).

Lemma run_handler cs : ∀ a o o1 st,
  Forall has_instruction cs → TransactLog.parse (omap instruction cs) o = Some (inl o1) → before a o1 = Some st →
  (s ← run_calls KVO.handler cs (a, o);
   match s with inl s => s ← KVO.parse_complete s; Some (inl s) | inr e => Some (inr e) end) = Some (inl st).
Proof.
  induction cs as [|c cs IH]; intros a o o1 st Hcs Hp Hb; cbn [omap list_omap run_calls TransactLog.parse] in *.
  { cbn [mbind option_bind]. unfold KVO.parse_complete. destruct (TransactLog.parse_complete o) as [o2|]; [|done].
    cbn [mbind option_bind] in *. injection Hp as ->. by rewrite Hb. }
  apply Forall_cons in Hcs as [Hc Hcs]. unfold LogParser.deliver, KVO.handler, observer_handler, has_instruction in *.
  destruct (instruction c) as [i|]; [|done]. cbn [TransactLog.parse snd fst] in *.
  destruct (TransactLog.validate i); cbn [negb] in *; [|done].
  destruct (TransactLog.handle i o) as [o2|]; [|done]. cbn [mbind option_bind] in *. by eapply IH.
Qed.

(** C8: refinement.  An application that observes rows is told what a transaction
    does to them.  Reading the bytes of its log calls [will_change] with exactly
    the rows that are gone as invalidated, and for every other row says which
    cells were set, and of each list in it in which no element was moved, which
    elements were inserted, set or removed if only one of these happened.  (What is
    told of a single move is [single_move_told]; several moves are not told
    completely, [moves_missed].)  The transaction is as for
    [logged_transaction_reported]: changes of rows, cells and lists, and no removed
    row holds one of several observed lists of its table; the default of a double
    counts as an assignment. *)
Theorem observers_told observers cs w0 w e :
  Forall writable cs → observers ≠ [] → observable columns_of subtable_size observers w0 →
  run (instructions cs) w0 = Some w → run_ok (entries columns_of subtable_size observers) (instructions cs) w0 →
  ∃ e' bytes o, encode_log cs e = Some e' ∧ log e' = log e ++ bytes ∧
    TransactLog.parse (instructions cs) (make columns_of subtable_size observers).2 = Some (inl o) ∧
    ∀ fuel in_, (length bytes < fuel)%nat → remaining in_ = bytes →
      ∃ a' o', LogReverser.advance_read KVO.handler KVO.parse_complete fuel in_ (make columns_of subtable_size observers) =
          Some (inl (a', o')) ∧
        m_invalidated a' = user_info <$> filter (λ x, find_row w x = None) observers ∧
        ∀ i x, observers !! i = Some x → ∃ x', m_observers a' !! i = Some x' ∧
          observer_told w0 w (all_lists columns_of subtable_size observers) (TransactLog.list_builders o) i x x'.
Proof.
  intros Hw Hne Hobs Hrun Hok.
  destruct (parse_observed columns_of subtable_size observers _ w0 w Hne Hobs Hrun Hok) as (o&Hp&Hparsed).
  destruct (make_observes columns_of subtable_size observers w0 Hne Hobs) as (_&_&_&_&Hm1&Hm2&Hm3&_).
  destruct (make columns_of subtable_size observers) as [a o0]. simpl in *.
  destruct (before_told columns_of subtable_size observers w0 w o a Hobs Hparsed Hm1 Hm3) as (a'&o'&Hb&Hinv&Htold).
  destruct (parse_encoded (remaining := remaining) KVO.handler cs e Hw) as (e'&bytes&He&Hlog&Hparse).
  exists e', bytes, o. do 3 (split; [done|]). intros fuel in_ Hf Hi. exists a', o'. split; [|split; [by rewrite Hinv, Hm2|done]].
  unfold LogReverser.advance_read. rewrite Hparse by done. apply (run_handler _ a o0 o); [|done|done].
  apply Forall_bind, Forall_true, delivered_instruction.
Qed.
End Logged.

(** ** Moves *)
Section Moves.
Context {build : Build} {T : Type} {ops : IndexSetOps T} {laws : IndexSetLaws T}.
Implicit Types (b : CollectionChangeBuilder T) (elements : list Row) (change : ColumnInfo T).

Lemma one_element_counted s p : set_wf s → 0 ≤ p < npos → (∀ x, has s x ↔ x = p) → set_count s 0 npos = Some 1.
Proof.
  intros Hs Hp Hx. rewrite law_count by (done || lia). unfold rank. rewrite (singleton_ranges s p Hs Hp Hx). simpl. f_equal. lia.
Qed.

(** C9: functional behaviour.  A single move is told exactly: moving one element,
    and setting any others, makes a set of assignments to the positions that
    have another element or one that was set, no others. *)
Theorem single_move_told n b elements size change m f t :
  0 ≤ n → len elements ≤ npos → list_reported n b elements → moves (changes b) = [mkMove f t] → f ≠ t →
  (∀ x, has (deletions (changes b)) x ↔ x = f) → (∀ x, has (insertions (changes b)) x ↔ x = t) →
  set_remove_set (modifications (changes b)) (insertions (changes b)) = Some m →
  ∃ change', list_change size (changes (ChangeBuilder.with_modifications b m)) change = Some change' ∧
    kind change' = KindSet ∧
    ∀ p, has (indices change') p ↔ ∃ r, at_ elements p = Some r ∧ (origin r ≠ Some p ∨ modified r = true).
Proof.
  intros Hn Hmax (((Hd&Hi&_)&Hwm&_)&Hrows&Hmods&Hdn&Hil&_) Hmv Hne Hdf Hit Hrem.
  destruct (law_remove_set _ _ Hwm Hi) as (m'&Hm'&Hm&Hmm). assert (m' = m) as -> by congruence.
  pose proof (has_range _ _ Hd (proj2 (Hdf f) eq_refl)) as Hf. pose proof (has_range _ _ Hi (proj2 (Hit t) eq_refl)) as Ht.
  pose proof (Hdn f (proj2 (Hdf f) eq_refl)). pose proof (Hil t (proj2 (Hit t) eq_refl)).
  assert (∀ o p, 0 ≤ o → 0 ≤ p → rows b o p ↔ (o = f ∧ p = t) ∨ kept (deletions (changes b)) (insertions (changes b)) o p) as Hr.
  { intros o p ? ?. unfold rows, row_to. rewrite Hmv, list_elem_of_singleton. intuition congruence. }
  assert (0 ≤ len elements) by (unfold len; lia).
  assert (len elements = n) as Hlen.
  { assert (rows b n (len elements)) as Hk by (apply Hrows; right; lia).
    apply Hr in Hk; [|lia|unfold len; lia]. destruct Hk as [[? _]|Hk]; [lia|].
    destruct (single_row b f t n (len elements) Hd Hi ltac:(lia) ltac:(lia) Hdf Hit Hk) as (_&_&E). repeat case_decide; lia. }
  destruct (moved_single b m f t Hd Hi Hm Hne Hf Ht Hdf Hit) as (s&Hs&_&Hms).
  unfold list_change. simpl in Hs |- *. rewrite (one_element_counted _ t Hi Ht Hit), (one_element_counted _ f Hd Hf Hdf). cbn [mbind option_bind].
  rewrite Hmv. cbn. rewrite Hmv in Hs. rewrite Hs. cbn [mbind option_bind]. eexists. split; [done|]. split; [done|]. simpl.
  intros p. rewrite Hms, Hmm, Hmods, Hit. split.
  - intros [[(r&?&?) _]|Hp]; [eauto|]. destruct (at_is_Some elements p) as [r Hat]; [lia|]. exists r. split; [done|]. left. intros Ho.
    assert (rows b p p) as Hk by (apply Hrows; left; split; [lia|eauto]).
    apply Hr in Hk; [|lia..]. destruct Hk as [[-> ?]|Hk]; [done|].
    destruct (single_row b f t p p Hd Hi ltac:(lia) ltac:(lia) Hdf Hit Hk) as (?&?&E). repeat case_decide; lia.
  - intros (r&Hat&Hor). pose proof (at_Some _ _ _ Hat). destruct (decide (Z.min f t ≤ p ≤ Z.max f t)) as [|Hout]; [by right|left].
    split; [|lia]. destruct Hor as [Ho|?]; [|eauto]. exfalso.
    assert (¬ has (insertions (changes b)) p) as Hnp by (rewrite Hit; lia).
    destruct (kept_surj _ _ p Hd Hi ltac:(lia) Hnp) as (o&?&Hk).
    destruct (single_row b f t o p Hd Hi ltac:(lia) ltac:(lia) Hdf Hit Hk) as (?&?&E). assert (o = p) as -> by (repeat case_decide; lia).
    assert (rows b p p) as [(_&r'&?&?)|[? ?]]%Hrows by (apply Hr; [lia..|by right]); [congruence|lia].
Qed.
End Moves.

(** Several moves are not told completely.  The loop that looks for the
    elements that changed place looks an index up among the insertions as if it
    were shifted, too: after moving the elements 3 and 6 of a list to 0 and 1, the
    application is told of assignments to 0, 1, 2, 3 and 6, though 4 and 5 have
    other elements. *)
Theorem moves_missed {build : Build} :
  ∃ b elements change,
    (b ← run_builder (T := list Chunk) [OMove 3 0; OMove 6 1] (initial_rows 7) ChangeBuilder.empty_builder;
     ChangeBuilder.clean_up_stale_moves b) = Some b ∧
    run_list [OMove 3 0; OMove 6 1] (initial_rows 7) = Some elements ∧
    list_change npos (changes b) default_column = Some change ∧ kind change = KindSet ∧
    set_ranges (indices change) = [(0, 4); (6, 7)] ∧
    origin <$> elements = Some <$> [3; 6; 0; 1; 2; 4; 5].
Proof. destruct build; eexists _, _, _; (split; [vm_compute; reflexivity|]); repeat (split; [vm_compute; reflexivity|]); vm_compute; reflexivity. Qed.

(** ** Witnesses *)
Section Witnesses.
#[local] Existing Instance debug.
#[local] Existing Instance roomy.
#[local] Existing Instance roomy_laws.
#[local] Existing Instance sample_core.
#[local] Existing Instance sample_core_laws.

Definition sample_columns (t : Z) : list DataType := if t =? 0 then [type_Int; type_String; type_LinkList] else [type_Int].

Definition observer_of (t row info : Z) : ObserverState (list Chunk) := mkObserverState t row info [].

Definition sample_observers : list (ObserverState (list Chunk)) := [observer_of 0 1 101; observer_of 0 3 102; observer_of 1 1 103].

(** Row 3 takes the place of row 0, row 1 moves to 4 and its list gets another
    element; the second table is cleared. *)
Definition observed_calls : list Call :=
  [select_table 0 0 []; set_value 0 3 (VInt 5) instr_Set 0; erase_rows 0 1 4 true; insert_empty_rows 3 2 3 false; swap_rows 1 4;
   select_link_list 2 4 1; link_list_insert 1 1 3; select_table 1 0 []; clear_table 2].

Lemma sample_observable : observable sample_columns (λ _ _ _, 0) sample_observers world.
Proof.
  constructor.
  - split; [by_decision|done].
  - intros x Hx. unfold sample_observers in Hx. rewrite !elem_of_cons, elem_of_nil in Hx.
    destruct Hx as [->|[->|[->|[]]]]; (split; [done|]; split; [done|]); eexists; (split; [reflexivity|]); vm_compute; split; congruence.
  - by_decision.
  - intros t. unfold sample_columns. case_match; vm_compute; congruence.
  - intros x c _. unfold sample_columns. case_match; destruct c as [|[|[|]]]; done.
Qed.

Lemma observers_told_witness :
  ∃ w e' a' o', run (instructions observed_calls) world = Some w ∧ encode_log observed_calls empty_encoder = Some e' ∧
    LogReverser.advance_read KVO.handler KVO.parse_complete 200 (log e') (make sample_columns (λ _ _ _, 0) sample_observers) =
      Some (inl (a', o')) ∧
    m_invalidated a' = [103] ∧
    (λ x, kind <$> row_changes x) <$> m_observers a' = [[KindNone; KindNone; KindInsert]; [KindSet; KindNone; KindNone]; []].
Proof.
  destruct (run (instructions observed_calls) world) as [w|] eqn:Hrun; [|vm_compute in Hrun; discriminate].
  destruct (observers_told (remaining := λ data, data) sample_columns (λ _ _ _, 0) sample_observers observed_calls world w empty_encoder)
    as (e'&bytes&o&He&Hlog&_&Hobs).
  - by_decision.
  - done.
  - exact sample_observable.
  - exact Hrun.
  - change (entries sample_columns (λ _ _ _, 0) sample_observers) with [mkListChangeInfo 0 1 2 0; mkListChangeInfo 0 3 2 1].
    repeat (split; [first [exact I|intros rows E; left; intros r x Hr Hx _; vm_compute in E; injection E as <-;
        vm_compute in Hr; injection Hr as <-; rewrite !elem_of_cons, elem_of_nil in Hx; by destruct Hx as [->|[->|[]]]]|
      let w1 := fresh "w1" in let E := fresh "E" in intros w1 E; vm_compute in E; injection E as <-]). exact I.
  - change (log e' = bytes) in Hlog. subst bytes.
    destruct (Hobs 200%nat (log e')) as (a'&o'&Ho&Hinv&_); [|done|].
    { revert He. vm_compute. intros [= <-]. by_decision. }
    exists w, e', a', o'. split; [done|]. split; [exact He|]. split; [exact Ho|]. split.
    + rewrite Hinv. vm_compute in Hrun. injection Hrun as <-. vm_compute. reflexivity.
    + vm_compute in He. injection He as <-. vm_compute in Ho. injection Ho as <- _. reflexivity.
Defined.

(** Moving the element 1 of five to 3, and setting the element 4 *)
Lemma single_move_told_witness :
  ∃ b l m change, run_builder (T := list Chunk) [OMove 1 3; OModify 4 npos] (initial_rows 5) ChangeBuilder.empty_builder = Some b ∧
    run_list [OMove 1 3; OModify 4 npos] (initial_rows 5) = Some l ∧
    list_change npos (changes (ChangeBuilder.with_modifications b m)) default_column = Some change ∧
    ∀ p, has (indices change) p ↔ ∃ r, at_ l p = Some r ∧ (origin r ≠ Some p ∨ modified r = true).
Proof.
  destruct (run_list [OMove 1 3; OModify 4 npos] (initial_rows 5)) as [l|] eqn:Hl; [|vm_compute in Hl; discriminate].
  destruct (sim_run (T := list Chunk) 5 _ _ _ l ltac:(lia) (sim_initial 5 ltac:(lia)) Hl) as (b&Hb&Hsim).
  { repeat (split; [vm_compute; congruence|intros ? E; vm_compute in E; injection E as <-]). exact I. }
  destruct (sim_reported 5 b l Hsim) as (b'&Hb'&Hrep). exists b.
  assert (b' = b) as -> by (revert Hb'; vm_compute in Hb; injection Hb as <-; vm_compute; congruence).
  assert (moves (changes b) = [mkMove 1 3]) as Hmv by (vm_compute in Hb; by injection Hb as <-).
  assert (set_ranges (deletions (changes b)) = [(1, 2)] ∧ set_ranges (insertions (changes b)) = [(3, 4)]) as [Hd Hi]
    by (vm_compute in Hb; by injection Hb as <-).
  destruct (set_remove_set (modifications (changes b)) (insertions (changes b))) as [m|] eqn:Hm;
    [|vm_compute in Hb; injection Hb as <-; vm_compute in Hm; discriminate].
  destruct (single_move_told 5 b l npos default_column m 1 3) as (change&Hc&_&Hp); try done.
  - vm_compute in Hl. injection Hl as <-. vm_compute. congruence.
  - intros x. unfold has. rewrite Hd. simpl. lia.
  - intros x. unfold has. rewrite Hi. simpl. lia.
  - exists l, m, change. done.
Defined.
End Witnesses.
