(* ===== verification/TransactLogSchema.v ===== *)
(** Schema changes in the observer of a transaction log: the vectors it keeps by
    table and by column follow the tables and columns.  A vector stands for an
    infinite sequence, of which it holds the part that differs from the default. *)
From stdpp Require Import gmap.
From S2P Require Import Prelude ChunkedRangeVector IndexSetSpec IndexSetProps ChangeBuilder ChangeRefinement DeepChange LogData TransactLog LogReverser KVOAdapter.
Import TransactLog.

(** ** Sequences *)
Definition ext {A} (d : A) (v : list A) (n : nat) : A := default d (v !! n).

(** Where the element at [n] comes from, when [from_] moves to [to_] *)
Definition rotate_source (from_ to_ n : nat) : nat :=
  if decide (n = to_) then from_
  else if decide (from_ ≤ n < to_)%nat then S n
  else if decide (to_ < n ≤ from_)%nat then pred n
  else n.

(** Where the element at [n] comes from, when one is inserted at [pos] *)
Definition insert_source (pos n : nat) : option nat :=
  if decide (n < pos)%nat then Some n else if decide (n = pos) then None else Some (pred n).

Section Sequences.
Context {A : Type}.
Implicit Types (l v : list A).

Lemma ext_resize d v k n : (length v ≤ k)%nat → ext d (resize k d v) n = ext d v n.
Proof.
  intros Hk. unfold ext. destruct (decide (n < length v)%nat); [by rewrite lookup_resize by lia|].
  rewrite (lookup_ge_None_2 v) by lia. destruct (decide (n < k)%nat); [by rewrite lookup_resize_new by lia|].
  rewrite lookup_ge_None_2; [done|]. rewrite length_resize. lia.
Qed.

(** [std::rotate] of one element towards the end, and towards the start *)
Lemma lookup_rotate_up l f t n :
  (f < t)%nat → (t < length l)%nat → ChangeBuilder.rotate f (S f) (S t) l !! n = l !! rotate_source f t n.
Proof.
  intros Hft Ht. unfold ChangeBuilder.rotate, rotate_source.
  assert (length (take f l) = f) as L1 by (rewrite length_take; lia).
  assert (length (drop (S f) (take (S t) l)) = t - f)%nat as L2 by (rewrite length_drop, length_take; lia).
  assert (length (drop f (take (S f) l)) = 1)%nat as L3 by (rewrite length_drop, length_take; lia).

  destruct (decide (n < f)%nat).
  { rewrite lookup_app_l by lia. rewrite lookup_take_lt by done. by repeat case_decide; try lia. }
  rewrite lookup_app_r by lia. rewrite L1. destruct (decide (n < t)%nat).
  { rewrite lookup_app_l by lia. rewrite lookup_drop, lookup_take_lt by lia. repeat case_decide; try lia. f_equal. lia. }
  rewrite lookup_app_r by lia. rewrite L2. destruct (decide (n = t)) as [->|].
  { rewrite lookup_app_l by lia. rewrite lookup_drop, lookup_take_lt by lia. f_equal. lia. }
  rewrite lookup_app_r by lia. rewrite L3, lookup_drop. repeat case_decide; try lia. f_equal. lia.
Qed.

Lemma lookup_rotate_down l f t n :
  (t < f)%nat → (f < length l)%nat → ChangeBuilder.rotate t f (S f) l !! n = l !! rotate_source f t n.
Proof.
  intros Hft Hf. unfold ChangeBuilder.rotate, rotate_source.
  assert (length (take t l) = t) as L1 by (rewrite length_take; lia).
  assert (length (drop f (take (S f) l)) = 1)%nat as L2 by (rewrite length_drop, length_take; lia).
  assert (length (drop t (take f l)) = f - t)%nat as L3 by (rewrite length_drop, length_take; lia).
  destruct (decide (n < t)%nat).
  { rewrite lookup_app_l by lia. rewrite lookup_take_lt by done. by repeat case_decide; try lia. }
  rewrite lookup_app_r by lia. rewrite L1. destruct (decide (n = t)) as [->|].
  { rewrite lookup_app_l by lia. rewrite lookup_drop, lookup_take_lt by lia. f_equal. lia. }
  rewrite lookup_app_r by lia. rewrite L2. destruct (decide (n ≤ f)%nat).
  { rewrite lookup_app_l by lia. rewrite lookup_drop, lookup_take_lt by lia. repeat case_decide; try lia. f_equal. lia. }
  rewrite lookup_app_r by lia. rewrite L3, lookup_drop. repeat case_decide; try lia. f_equal. lia.
Qed.

Lemma length_rotate first middle last l :
  (first ≤ middle ≤ last)%nat → (last ≤ length l)%nat → length (ChangeBuilder.rotate first middle last l) = length l.
Proof.
  intros. unfold ChangeBuilder.rotate. rewrite !length_app, !length_drop, !length_take. lia.
Qed.

(** [rotate] moves one element of the sequence. *)
Lemma rotate_ext d v f t :
  f ≠ t → ∃ v', rotate d v f t = Some v' ∧ ∀ n, ext d v' n = ext d v (rotate_source f t n).
Proof.
  intros Hft. unfold rotate. rewrite (proj2 (Nat.eqb_neq f t) Hft). cbn [negb].
  destruct (Nat.leb_spec (length v) f), (Nat.leb_spec (length v) t); cbn [andb orb].
  1:{ exists v. split; [done|]. intros n. unfold ext, rotate_source. repeat case_decide; try done; subst; rewrite !(lookup_ge_None_2 v) by lia; done. }
  all: eexists; split; [done|]; intros n.
  1,2: rewrite <-(ext_resize d v (S (Nat.max f t)) (rotate_source f t n)) by lia.
  all: unfold ext; destruct (Nat.ltb_spec f t).
  all: first [rewrite lookup_rotate_up by (rewrite ?length_resize; lia)|rewrite lookup_rotate_down by (rewrite ?length_resize; lia)]; done.
Qed.

Lemma rotate_length d v f t v' : rotate d v f t = Some v' → (length v ≤ length v')%nat.
Proof.
  unfold rotate. destruct (negb _) eqn:Hft; [|done]. apply negb_true_iff, Nat.eqb_neq in Hft.
  destruct (Nat.leb_spec (length v) f), (Nat.leb_spec (length v) t); cbn [andb orb]; intros [= <-]; [done|..].
  all: destruct (Nat.ltb_spec f t); rewrite length_rotate; rewrite ?length_resize; lia.
Qed.

(** [insert_empty_at] inserts a default element. *)
Lemma lookup_insert_source l x pos n :
  (pos ≤ length l)%nat → (take pos l ++ x :: drop pos l) !! n =
    match insert_source pos n with Some m => l !! m | None => Some x end.
Proof.
  intros Hp. unfold insert_source. assert (length (take pos l) = pos) as L by (rewrite length_take; lia).
  destruct (decide (n < pos)%nat); [by rewrite lookup_app_l, lookup_take_lt by lia|].
  rewrite lookup_app_r by lia. rewrite L. destruct (decide (n = pos)) as [->|]; [by rewrite Nat.sub_diag|].
  destruct (n - pos)%nat as [|k] eqn:E; [lia|]. simpl. rewrite lookup_drop. f_equal. lia.
Qed.

Lemma insert_empty_ext d v pos n :
  ext d (insert_empty_at d v pos) n = match insert_source pos n with Some m => ext d v m | None => d end.
Proof.
  unfold insert_empty_at, ext. destruct (Nat.ltb_spec pos (length v)).
  - rewrite lookup_insert_source by lia. by destruct (insert_source pos n).
  - unfold insert_source. repeat case_decide; [done|subst; by rewrite lookup_ge_None_2 by lia|].
    by rewrite !lookup_ge_None_2 by lia.
Qed.
End Sequences.

(** [adjust_for_move] says where an element goes. *)
Lemma adjust_source f t v :
  0 ≤ f < npos → 0 ≤ t < npos → 0 ≤ v < npos → f ≠ t →
  0 ≤ adjust_for_move f t v < npos ∧
  rotate_source (Z.to_nat f) (Z.to_nat t) (Z.to_nat (adjust_for_move f t v)) = Z.to_nat v.
Proof.
  intros Hf Ht Hv Hne. unfold adjust_for_move, rotate_source. destruct (Z.eqb_spec v f) as [->|].
  { split; [lia|]. by rewrite decide_True. }
  destruct (Z.ltb_spec f v), (Z.leb_spec v t); cbn [andb]; rewrite ?wsub_small by lia;
    try (split; [lia|]; repeat case_decide; lia).
  all: destruct (Z.ltb_spec v f), (Z.leb_spec t v); cbn [andb]; rewrite ?wadd_small by lia;
    (split; [lia|]; repeat case_decide; lia).
Qed.

(** So does adding one to what is not before an insertion. *)
Lemma insert_source_shifted pos v :
  0 ≤ pos → 0 ≤ v < npos →
  insert_source (Z.to_nat pos) (Z.to_nat (if pos <=? v then v +w 1 else v)) = Some (Z.to_nat v).
Proof.
  intros Hp Hv. unfold insert_source. destruct (Z.leb_spec pos v); rewrite ?wadd_small by lia; repeat case_decide; try lia; f_equal; lia.
Qed.

(** ** Tables *)
Section Tables.
Context {build : Build} {T : Type} {ops : IndexSetOps T}.
Implicit Types (o : Observer T) (info : TransactionChangeInfo T) (p : Z → Z).

(** Where a table goes *)
Definition table_to (i : Instruction) (v : Z) : Z :=
  match i with
  | InsertGroupLevelTable ndx => if ndx <=? v then v + 1 else v
  | MoveGroupLevelTable from_ to_ => adjust_for_move from_ to_ v
  | _ => v
  end.

Definition tables_to (log : list Instruction) (v : Z) : Z := foldl (λ v i, table_to i v) v log.

(** Tables are counted below this. *)
Definition max_tables : Z := 2 ^ 60.

(** A table is added or moved, at indices of tables. *)
Definition changes_tables (i : Instruction) : Prop :=
  match i with
  | InsertGroupLevelTable ndx => 0 ≤ ndx < max_tables
  | MoveGroupLevelTable from_ to_ => 0 ≤ from_ < max_tables ∧ 0 ≤ to_ < max_tables ∧ from_ ≠ to_
  | _ => False
  end.

#[export] Instance changes_tables_dec i : Decision (changes_tables i).
Proof. destruct i; unfold changes_tables; apply _. Defined.

(** The vectors of [info'] are those of [info] at the tables' new indices. *)
Record tables_follow (k : nat) p info info' : Prop := mkTablesFollow {
  tf_range : ∀ v, 0 ≤ v < max_tables → 0 ≤ p v < max_tables + Z.of_nat k;
  tf_mods : ∀ v, 0 ≤ v < max_tables →
    ext false (table_modifications_needed info') (Z.to_nat (p v)) = ext false (table_modifications_needed info) (Z.to_nat v);
  tf_moves : ∀ v, 0 ≤ v < max_tables →
    ext false (table_moves_needed info') (Z.to_nat (p v)) = ext false (table_moves_needed info) (Z.to_nat v);
  tf_tables : ∀ v, 0 ≤ v < max_tables →
    ext ChangeBuilder.empty_builder (tables info') (Z.to_nat (p v)) = ext ChangeBuilder.empty_builder (tables info) (Z.to_nat v);
  tf_lists : lists info' = (λ l, set_tbl l (p (list_table_ndx l))) <$> lists info;
  tf_indices : table_indices (prepare_table_indices info') = p <$> iota (length (table_modifications_needed info)) 0;
  tf_kept : k = 0%nat ∨ table_indices info' = p <$> iota (length (table_modifications_needed info)) 0;
  tf_none : table_modifications_needed info = [] → table_modifications_needed info' = [] }.

Lemma prepare_fields info :
  table_modifications_needed (prepare_table_indices info) = table_modifications_needed info ∧
  table_moves_needed (prepare_table_indices info) = table_moves_needed info ∧
  tables (prepare_table_indices info) = tables info ∧ lists (prepare_table_indices info) = lists info.
Proof. unfold prepare_table_indices. by case_match. Qed.

Lemma length_iota n : ∀ v, length (iota n v) = n.
Proof. induction n as [|n IH]; intros v; simpl; [done|]. by rewrite IH. Qed.

Lemma lookup_iota n : ∀ v k, (k < n)%nat → 0 ≤ v → v + Z.of_nat n ≤ npos → iota n v !! k = Some (v + Z.of_nat k).
Proof.
  induction n as [|n IH]; intros v k Hk Hv Hn; [lia|]. destruct k as [|k]; simpl; [by rewrite Z.add_0_r|].
  rewrite wadd_small by lia. rewrite IH by lia. f_equal. lia.
Qed.

Lemma iota_in n v : v ∈ iota n 0 → Z.of_nat n ≤ npos → 0 ≤ v < Z.of_nat n.
Proof.
  intros [k Hk]%list_elem_of_lookup Hn. pose proof (lookup_lt_Some _ _ _ Hk) as Hlt. rewrite length_iota in Hlt.
  rewrite lookup_iota in Hk by lia. injection Hk as <-. lia.
Qed.

(** The indices are kept once they are there. *)
Lemma prepared_again info' :
  table_indices info' ≠ [] ∨ table_modifications_needed info' = [] →
  table_indices (prepare_table_indices info') = table_indices info'.
Proof.
  unfold prepare_table_indices. intros H. destruct (table_indices info') eqn:E1; simpl; [|by rewrite E1].
  destruct (table_modifications_needed info') eqn:E2; simpl; [by rewrite E1|]. by destruct H.
Qed.

(** *** One change *)
Lemma insert_follows {A} (d : A) v ndx x :
  0 ≤ ndx → 0 ≤ x < npos → ext d (insert_empty_at d v (Z.to_nat ndx)) (Z.to_nat (table_to (InsertGroupLevelTable ndx) x)) = ext d v (Z.to_nat x).
Proof.
  intros Hn Hx. rewrite insert_empty_ext. pose proof (insert_source_shifted ndx x Hn Hx) as E. simpl.
  destruct (ndx <=? x); [rewrite wadd_small in E by lia|]; by rewrite E.
Qed.

Lemma move_follows {A} (d : A) v f t :
  0 ≤ f < npos → 0 ≤ t < npos → f ≠ t → ∃ v', rotate d v (Z.to_nat f) (Z.to_nat t) = Some v' ∧
    (v = [] → v' = []) ∧
    ∀ x, 0 ≤ x < npos → ext d v' (Z.to_nat (table_to (MoveGroupLevelTable f t) x)) = ext d v (Z.to_nat x).
Proof.
  intros Hf Ht Hne. destruct (rotate_ext d v (Z.to_nat f) (Z.to_nat t) ltac:(lia)) as (v'&Hv'&Hext). exists v'. split; [done|]. split.
  - intros ->. unfold rotate in Hv'. destruct (negb _); [|done]. simpl in Hv'. congruence.
  - intros x Hx. rewrite Hext. simpl. destruct (adjust_source f t x Hf Ht Hx Hne) as [_ ->]. done.
Qed.

Lemma changes_tables_inv i :
  changes_tables i → (∃ ndx, i = InsertGroupLevelTable ndx ∧ 0 ≤ ndx < max_tables) ∨
    (∃ f t, i = MoveGroupLevelTable f t ∧ 0 ≤ f < max_tables ∧ 0 ≤ t < max_tables ∧ f ≠ t).
Proof. destruct i; try done; [left|right]; eauto. Qed.

Lemma table_to_range k i v :
  changes_tables i → 0 ≤ v < max_tables + Z.of_nat k → Z.of_nat k < max_tables →
  0 ≤ table_to i v < max_tables + Z.of_nat (S k) ∧ v < npos.
Proof.
  assert (2 * max_tables < npos) as Hmax by done.
  intros Hi Hv Hk. split; [|lia]. apply changes_tables_inv in Hi as [(ndx&->&?)|(f&t&->&Hf&Ht&_)]; simpl.
  - destruct (Z.leb_spec ndx v); lia.
  - unfold adjust_for_move. destruct (Z.eqb_spec v f); [lia|].
    destruct (Z.ltb_spec f v), (Z.leb_spec v t); cbn [andb]; rewrite ?wsub_small by lia; try lia.
    all: destruct (Z.ltb_spec v f), (Z.leb_spec t v); cbn [andb]; rewrite ?wadd_small by lia; lia.
Qed.

(** [info'] is [info] after [i]. *)
Record vectors_follow (i : Instruction) info info' : Prop := mkVectorsFollow {
  vf_mods : ∀ x, 0 ≤ x < npos →
    ext false (table_modifications_needed info') (Z.to_nat (table_to i x)) = ext false (table_modifications_needed info) (Z.to_nat x);
  vf_moves : ∀ x, 0 ≤ x < npos →
    ext false (table_moves_needed info') (Z.to_nat (table_to i x)) = ext false (table_moves_needed info) (Z.to_nat x);
  vf_tables : ∀ x, 0 ≤ x < npos →
    ext ChangeBuilder.empty_builder (tables info') (Z.to_nat (table_to i x)) = ext ChangeBuilder.empty_builder (tables info) (Z.to_nat x);
  vf_lists : Forall (λ l, 0 ≤ list_table_ndx l < npos) (lists info) →
    lists info' = (λ l, set_tbl l (table_to i (list_table_ndx l))) <$> lists info;
  vf_indices : Forall (λ v, 0 ≤ v < npos) (table_indices (prepare_table_indices info)) →
    table_indices info' = table_to i <$> table_indices (prepare_table_indices info);
  vf_none : table_modifications_needed info = [] → table_modifications_needed info' = [] }.

Lemma table_to_insert ndx v : 0 ≤ v < npos → (if ndx <=? v then v +w 1 else v) = table_to (InsertGroupLevelTable ndx) v.
Proof. intros Hv. simpl. destruct (ndx <=? v); [|done]. by apply wadd_small; lia. Qed.

Lemma insert_vectors o ndx :
  0 ≤ ndx → vectors_follow (InsertGroupLevelTable ndx) (m_info o) (m_info (insert_group_level_table o ndx)).
Proof.
  intros Hn. destruct o as [[mods moves ls tbls cols inds all sch] ? ? ? ? ? ? ? ?].
  set (o := mkObserver _ _ _ _ _ _ _ _ _). set (info := m_info o).
  assert (m_info (insert_group_level_table o ndx) = mkTransactionChangeInfo
    (insert_empty_at false mods (Z.to_nat ndx)) (insert_empty_at false moves (Z.to_nat ndx))
    ((λ l, if ndx <=? list_table_ndx l then set_tbl l (list_table_ndx l +w 1) else l) <$> ls)
    (insert_empty_at ChangeBuilder.empty_builder tbls (Z.to_nat ndx)) cols
    (adjust_ge (table_indices (prepare_table_indices info)) ndx) all true) as ->.
  { unfold insert_group_level_table, prepare_table_indices, info, o. simpl. by repeat (case_match; simpl). }
  constructor; cbn [table_modifications_needed table_moves_needed tables lists table_indices].
  - intros x Hx. by apply insert_follows.
  - intros x Hx. by apply insert_follows.
  - intros x Hx. by apply insert_follows.
  - intros Hls. apply list_fmap_ext. intros j l Hl. pose proof (Forall_lookup_1 _ _ _ _ Hls Hl) as Hlt. simpl in Hlt.
    rewrite <-table_to_insert by done. case_match; [done|]. by destruct l.
  - intros Hi. apply list_fmap_ext. intros j v Hv. apply table_to_insert. by apply (Forall_lookup_1 _ _ _ _ Hi Hv).
  - intros E. unfold info, o in E. simpl in E. by rewrite E.
Qed.

Lemma move_vectors o f t :
  0 ≤ f < npos → 0 ≤ t < npos → f ≠ t →
  ∃ o', move_group_level_table o f t = Some o' ∧ vectors_follow (MoveGroupLevelTable f t) (m_info o) (m_info o').
Proof.
  intros Hf Ht Hne. destruct o as [[mods moves ls tbls cols inds all sch] ? ? ? ? ? ? ? ?].
  destruct (move_follows false mods f t Hf Ht Hne) as (mods'&Hm&Hmn&Hme).
  destruct (move_follows false moves f t Hf Ht Hne) as (moves'&Hv&_&Hve).
  destruct (move_follows ChangeBuilder.empty_builder tbls f t Hf Ht Hne) as (tbls'&Hb&_&Hbe).
  set (o := mkObserver _ _ _ _ _ _ _ _ _). set (info := m_info o).
  assert (∃ o', move_group_level_table o f t = Some o' ∧ m_info o' = mkTransactionChangeInfo mods' moves'
    ((λ l, set_tbl l (adjust_for_move f t (list_table_ndx l))) <$> ls) tbls' cols
    (adjust_for_move f t <$> table_indices (prepare_table_indices info)) all true) as (o'&Ho'&E).
  { unfold move_group_level_table, prepare_table_indices, info, o. simpl.
    destruct (_ && _); simpl; rewrite Hb; cbn [mbind option_bind]; rewrite Hm; cbn [mbind option_bind]; rewrite Hv; cbn [mbind option_bind];
      (eexists; split; [done|]); by destruct (length tbls' =? length tbls)%nat. }
  exists o'. split; [done|]. rewrite E. constructor; cbn [table_modifications_needed table_moves_needed tables lists table_indices]; done.
Qed.

Lemma follow_step k p info o i :
  changes_tables i → tables_follow k p info (m_info o) → Z.of_nat k < max_tables →
  len (table_modifications_needed info) ≤ max_tables → Forall (λ l, 0 ≤ list_table_ndx l < max_tables) (lists info) →
  ∃ o', handle i o = Some o' ∧ tables_follow (S k) (table_to i ∘ p) info (m_info o').
Proof.
  assert (2 * max_tables < npos) as Hmax by done.
  intros Hi [Hrange Hmods Hmoves Htabs Hlists Hind _ Hnone] Hk Hlen Hls.
  assert (∃ o', handle i o = Some o' ∧ vectors_follow i (m_info o) (m_info o')) as (o'&Ho'&Hv).
  { apply changes_tables_inv in Hi as [(ndx&->&Hndx)|(f&t&->&Hf&Ht&Hne)]; cbn [handle].
    - eexists. split; [done|]. apply insert_vectors. lia.
    - apply move_vectors; lia. }
  assert (∀ v, 0 ≤ v < max_tables → 0 ≤ p v < npos) as Hp by (intros v ?%Hrange; lia).
  assert (∀ v, v ∈ iota (length (table_modifications_needed info)) 0 → 0 ≤ v < max_tables) as Hin.
  { intros v ?%iota_in; unfold len in Hlen; lia. }
  assert (table_indices (m_info o') = (table_to i ∘ p) <$> iota (length (table_modifications_needed info)) 0) as Hind'.
  { rewrite (vf_indices _ _ _ Hv); rewrite Hind; [by rewrite list_fmap_compose|].
    apply Forall_fmap, Forall_forall. intros v ?%Hin. by apply Hp. }
  exists o'. split; [done|]. constructor.
  - intros v Hvr. destruct (table_to_range k i (p v)) as [? _]; [done|by apply Hrange|done|done].
  - intros v Hvr. rewrite <-Hmods by done. by apply (vf_mods _ _ _ Hv), Hp.
  - intros v Hvr. rewrite <-Hmoves by done. by apply (vf_moves _ _ _ Hv), Hp.
  - intros v Hvr. rewrite <-Htabs by done. by apply (vf_tables _ _ _ Hv), Hp.
  - rewrite (vf_lists _ _ _ Hv); rewrite Hlists; [by rewrite <-list_fmap_compose|].
    apply Forall_fmap. eapply Forall_impl; [exact Hls|]. intros l Hl. by apply Hp.
  - rewrite prepared_again; [done|]. rewrite Hind'. destruct (table_modifications_needed info) eqn:E; [right|by left].
    apply (vf_none _ _ _ Hv). by apply Hnone.
  - by right.
  - intros E. apply (vf_none _ _ _ Hv). by apply Hnone.
Qed.

(** Any number of changes *)
Fixpoint handle_all (log : list Instruction) o : option (Observer T) :=
  match log with [] => Some o | i :: log => o ← handle i o; handle_all log o end.

Lemma follow_all log : ∀ k p info o,
  Forall changes_tables log → tables_follow k p info (m_info o) → Z.of_nat (k + length log) ≤ max_tables →
  len (table_modifications_needed info) ≤ max_tables → Forall (λ l, 0 ≤ list_table_ndx l < max_tables) (lists info) →
  ∃ o', handle_all log o = Some o' ∧ tables_follow (k + length log) (tables_to log ∘ p) info (m_info o').
Proof.
  induction log as [|i log IH]; intros k p info o Hlog Hf Hk Hlen Hls; cbn [handle_all length] in *.
  { exists o. rewrite Nat.add_0_r. done. }
  apply Forall_cons in Hlog as [Hi Hlog]. destruct (follow_step k p info o i) as (o1&->&Hf1); [done|done|lia|done|done|].
  cbn [mbind option_bind]. rewrite Nat.add_succ_r. apply (IH (S k) (table_to i ∘ p)); [done|done|lia|done|done].
Qed.

Lemma follow_start info : table_indices info = [] → tables_follow 0 id info info.
Proof.
  intros Hi. constructor; try done.
  - rewrite <-(list_fmap_id (lists info)) at 1. apply list_fmap_ext. intros j l _. by destruct l.
  - rewrite list_fmap_id. unfold prepare_table_indices. rewrite Hi. simpl.
    by destruct (table_modifications_needed info).
  - by left.
Qed.
End Tables.

(** ** The tables that are observed *)
Section Claims.
Context {build : Build} {T : Type} {ops : IndexSetOps T}.
Implicit Types (o : Observer T) (info : TransactionChangeInfo T).

(** C10: invariant.  While tables are added and moved the observer keeps what it
    knows of each table at the index the table has: which changes are needed,
    the change set, and the lists in it; and with the index a table had
    [KVOAdapter] finds the index it has. *)
Theorem tables_followed log o :
  Forall changes_tables log → Z.of_nat (length log) ≤ max_tables → table_indices (m_info o) = [] →
  len (table_modifications_needed (m_info o)) ≤ max_tables → Forall (λ l, 0 ≤ list_table_ndx l < max_tables) (lists (m_info o)) →
  ∃ o', handle_all log o = Some o' ∧
    lists (m_info o') = (λ l, set_tbl l (tables_to log (list_table_ndx l))) <$> lists (m_info o) ∧
    ∀ t, 0 ≤ t < max_tables → let t' := tables_to log t in
      ext false (table_modifications_needed (m_info o')) (Z.to_nat t') = ext false (table_modifications_needed (m_info o)) (Z.to_nat t) ∧
      ext false (table_moves_needed (m_info o')) (Z.to_nat t') = ext false (table_moves_needed (m_info o)) (Z.to_nat t) ∧
      ext ChangeBuilder.empty_builder (tables (m_info o')) (Z.to_nat t') = ext ChangeBuilder.empty_builder (tables (m_info o)) (Z.to_nat t) ∧
      (t < len (table_modifications_needed (m_info o)) → KVO.new_table_ndx (m_info o') t = t').
Proof.
  intros Hlog Hk Hi Hlen Hls.
  destruct (follow_all log 0 id (m_info o) o Hlog (follow_start _ Hi)) as (o'&Ho'&[_ Hm Hv Ht Hl _ Hind _]); [done..|].
  exists o'. split; [done|]. split; [done|]. intros t Hr. simpl. split; [by apply Hm|]. split; [by apply Hv|]. split; [by apply Ht|].
  assert (len (A := Z) [] = 0) as Hnil by done. assert (max_tables < npos) as Hmax by done.
  intros Hn. unfold KVO.new_table_ndx. destruct Hind as [E|E].
  - destruct log; [|done]. simpl in Ho'. injection Ho' as <-. rewrite Hi, Hnil. by rewrite (proj2 (Z.ltb_ge t 0)) by lia.
  - assert (len (table_indices (m_info o')) = len (table_modifications_needed (m_info o))) as E2.
    { rewrite E. unfold len. by rewrite length_fmap, length_iota. }
    rewrite E2, (proj2 (Z.ltb_lt _ _)) by done. unfold at_. rewrite decide_True by lia. rewrite E, list_lookup_fmap.
    unfold len in Hn, Hlen. rewrite lookup_iota by lia. simpl. by rewrite Z2Nat.id by lia.
Qed.
End Claims.

Section Witnesses.
Import Samples.
#[local] Existing Instance debug.

(** Table 3 is observed; one is added before it and the last moved to the start. *)
Definition table_log : list Instruction := [InsertGroupLevelTable 1; MoveGroupLevelTable 6 0; InsertGroupLevelTable 9].

Definition table_observer : Observer (list Chunk) :=
  make (mkTransactionChangeInfo [false; false; false; true] [false; false; false; true] [mkListChangeInfo 3 5 2 0] [] [] [] false false) ∅.

Lemma tables_followed_witness :
  ∃ o', handle_all table_log table_observer = Some o' ∧ lists (m_info o') = [mkListChangeInfo 5 5 2 0] ∧
    table_modifications_needed (m_info o') !! 5%nat = Some true ∧ KVO.new_table_ndx (m_info o') 3 = 5.
Proof.
  destruct (tables_followed table_log table_observer) as (o'&Ho'&Hl&Ht); [by_decision|by_decision|done|by_decision|by_decision|].
  exists o'. split; [exact Ho'|]. split; [exact Hl|].
  destruct (Ht 3) as (_&_&_&Hn); [by_decision|]. split; [|exact (Hn ltac:(by_decision))].
  vm_compute in Ho'. injection Ho' as <-. vm_compute. reflexivity.
Defined.
End Witnesses.
