(* ===== verification/CircularBuffer.v ===== *)
(** [CircularBuffer] (core/realm/util/circular_buffer.hpp): a container backed by
    a circular buffer.

    A cell of the memory is a value, or [None] where no value is alive.  A call
    is a function of a [World], the buffer and the number of values constructed
    so far; it returns, or throws, and is [None] for what is undefined: a failed
    assertion, an access outside the memory, a value destroyed that is not alive
    or constructed over one that is. *)
From S2P Require Import Prelude SafeInt.

(** The exceptions: of [at], of [reserve], of the allocation, of a constructor *)
Inductive Exception := out_of_range | overflow_error | bad_alloc | Thrown.

#[export] Instance Exception_eq_dec : EqDecision Exception.
Proof. solve_decision. Defined.

(** The type of the values: whether the n-th constructor called completes, whether
    its move constructor is noexcept, what is left of a value that is moved, and
    the sizes the system can allocate. *)
Class Elements (T : Type) := {
  completes : nat → bool;
  nothrow_move : bool;
  moved_from : T → T;
  allocates : Z → bool }.

Record CircularBuffer (T : Type) := mkCircularBuffer {
  m_memory_owner : list (option T);
  m_begin : Z;
  m_size : Z;
  m_allocated_size : Z }.
Arguments mkCircularBuffer {T} _ _ _ _.
Arguments m_memory_owner {T} _.
Arguments m_begin {T} _.
Arguments m_size {T} _.
Arguments m_allocated_size {T} _.

Record World (T : Type) := mkWorld { this : CircularBuffer T; constructed : nat }.
Arguments mkWorld {T} _ _.
Arguments this {T} _.
Arguments constructed {T} _.

Module CircularBuffer.

(** ** Calls *)
Definition M (T A : Type) : Type := World T → option (World T * (A + Exception)).

Section Monad.
Context {T : Type}.

Definition ret {A} (a : A) : M T A := λ w, Some (w, inl a).
Definition throw {A} (e : Exception) : M T A := λ w, Some (w, inr e).
Definition undefined {A} : M T A := λ _, None.

Definition bind {A B} (m : M T A) (k : A → M T B) : M T B := λ w,
  '(w, r) ← m w;
  match r with inl a => k a w | inr e => Some (w, inr e) end.

(** [catch (...) { handler; throw; }] *)
Definition rethrow {A} (m : M T A) (handler : M T unit) : M T A := λ w,
  '(w, r) ← m w;
  match r with
  | inl a => Some (w, inl a)
  | inr e => '(w, r) ← handler w; Some (w, inr match r with inl _ => e | inr e => e end)
  end.

Definition assert (b : bool) : M T unit := if b then ret tt else undefined.
Definition get : M T (CircularBuffer T) := λ w, Some (w, inl (this w)).
Definition put (b : CircularBuffer T) : M T unit := λ w, Some (mkWorld b (constructed w), inl tt).
End Monad.

Notation "x <- m ; k" := (bind m (λ x, k)) (at level 100, m at next level, k at level 200, right associativity).
Notation "m ;; k" := (bind m (λ _, k)) (at level 100, k at level 200, right associativity).

(** ** Indices *)
Section Indices.
Context {T : Type}.
Implicit Types b : CircularBuffer T.

Definition circular_inc b (index : Z) : Z :=
  let index_2 := index +w 1 in
  if index_2 <? m_allocated_size b then index_2 else 0.

Definition circular_dec b (index : Z) : Z :=
  if 0 <? index then index -w 1 else m_allocated_size b -w 1.

Definition wrap b (index : Z) : Z :=
  let top := m_allocated_size b -w m_begin b in
  if index <? top then m_begin b +w index else index -w top.

Definition unwrap b (index : Z) : Z :=
  if m_begin b <=? index then index -w m_begin b
  else m_allocated_size b -w (m_begin b -w index).
End Indices.

Section Calls.
Context {T : Type} {elements : Elements T}.
Implicit Types (b buffer : CircularBuffer T) (t value : T).

Definition set_memory b (memory : list (option T)) : CircularBuffer T :=
  mkCircularBuffer memory (m_begin b) (m_size b) (m_allocated_size b).
Definition set_begin b (begin : Z) : CircularBuffer T :=
  mkCircularBuffer (m_memory_owner b) begin (m_size b) (m_allocated_size b).
Definition set_size b (size : Z) : CircularBuffer T :=
  mkCircularBuffer (m_memory_owner b) (m_begin b) size (m_allocated_size b).

(** ** Values in memory *)
(** A constructor runs: it completes, or throws. *)
Definition constructor (nothrow : bool) : M T unit := λ w,
  Some (mkWorld (this w) (S (constructed w)),
        if nothrow || completes (constructed w) then inl tt else inr Thrown).

(** [new (&memory[i]) T(value)] *)
Definition construct_in (nothrow : bool) (memory : list (option T)) (i : Z) t : M T (list (option T)) :=
  match memory !! Z.to_nat i with
  | Some None => constructor nothrow;; ret (<[Z.to_nat i := Some t]> memory)
  | _ => undefined
  end.

(** [memory[i].~T()] *)
Definition destroy_in (memory : list (option T)) (i : Z) : M T (list (option T)) :=
  match memory !! Z.to_nat i with
  | Some (Some _) => ret (<[Z.to_nat i := None]> memory)
  | _ => undefined
  end.

(** [memory[i]] *)
Definition read (memory : list (option T)) (i : Z) : M T T :=
  match memory !! Z.to_nat i with
  | Some (Some t) => ret t
  | _ => undefined
  end.

Definition construct (i : Z) t : M T unit :=
  b <- get; memory <- construct_in false (m_memory_owner b) i t; put (set_memory b memory).

Definition destroy_at (i : Z) : M T unit :=
  b <- get; memory <- destroy_in (m_memory_owner b) i; put (set_memory b memory).

(** [for (size_type i = offset; i < m_size; ++i) { memory[j].~T(); j = circular_inc(j); }] *)
Fixpoint destroy_loop (fuel : nat) (i j : Z) : M T unit :=
  match fuel with
  | O => undefined
  | S fuel =>
      b <- get;
      if i <? m_size b then
        destroy_at j;;
        b <- get;
        destroy_loop fuel (i +w 1) (circular_inc b j)
      else ret tt
  end.

Definition destroy (offset : Z) : M T unit :=
  b <- get; destroy_loop (S (Z.to_nat (m_size b))) offset (m_begin b).

(** ** [realloc] *)
(** [T(std::move_if_noexcept(memory[j]))] into [new_memory[i]] *)
Definition move_if_noexcept (new_memory : list (option T)) (i j : Z) : M T (list (option T)) :=
  b <- get;
  t <- read (m_memory_owner b) j;
  new_memory <- construct_in nothrow_move new_memory i t;
  b <- get;
  put (if nothrow_move then set_memory b (<[Z.to_nat j := Some (moved_from t)]> (m_memory_owner b)) else b);;
  ret new_memory.

(** [for (size_type j = 0; j < i; ++j) new_memory[j].~T();] *)
Fixpoint back_out (fuel : nat) (i j : Z) (new_memory : list (option T)) : M T unit :=
  match fuel with
  | O => undefined
  | S fuel =>
      if j <? i then new_memory <- destroy_in new_memory j; back_out fuel i (j +w 1) new_memory
      else ret tt
  end.

Fixpoint move_loop (fuel : nat) (i j : Z) (new_memory : list (option T)) : M T (list (option T)) :=
  match fuel with
  | O => undefined
  | S fuel =>
      b <- get;
      if i <? m_size b then
        new_memory <- rethrow (move_if_noexcept new_memory i j) (back_out (S (Z.to_nat i)) i 0 new_memory);
        b <- get;
        move_loop fuel (i +w 1) (circular_inc b j) new_memory
      else ret new_memory
  end.

Definition make_unique (n : Z) : M T (list (option T)) :=
  if allocates n then ret (replicate (Z.to_nat n) None) else throw bad_alloc.

Definition realloc (new_allocated_size : Z) : M T unit :=
  b <- get;
  assert (1 <? new_allocated_size);;
  assert (m_size b <? new_allocated_size);;
  new_memory <- make_unique new_allocated_size;
  new_memory <- move_loop (S (Z.to_nat (m_size b))) 0 (m_begin b) new_memory;
  destroy_loop (S (Z.to_nat (m_size b))) 0 (m_begin b);;
  put (mkCircularBuffer new_memory 0 (m_size b) new_allocated_size).

(** ** Size and capacity *)
Definition empty b : bool := m_size b =? 0.
Definition size b : Z := m_size b.
Definition capacity b : Z := if 0 <? m_allocated_size b then m_allocated_size b -w 1 else 0.

(** An integer operation that detects overflow: whether it does, and the result *)
Definition detect (c : Checked) : M T (bool * Z) :=
  match c with Some r => ret r | None => undefined end.

Definition reserve (capacity : Z) : M T unit :=
  if capacity =? 0 then ret tt else
  sum <- detect (int_add_with_overflow_detect size_t int_t capacity 1);
  let '(overflow, min_allocated_size) := sum in
  if (overflow : bool) then throw overflow_error else
  b <- get;
  if min_allocated_size <=? m_allocated_size b then ret tt else
  product <- detect (int_multiply_with_overflow_detect size_t int_t (m_allocated_size b) 2);
  let '(overflow, new_allocated_size) := product in
  let new_allocated_size := if (overflow : bool) then max_value size_t else new_allocated_size in
  let new_allocated_size :=
    if new_allocated_size <? min_allocated_size then min_allocated_size else new_allocated_size in
  realloc new_allocated_size.

Definition shrink_to_fit : M T unit :=
  b <- get;
  if 0 <? m_size b then
    let new_allocated_size := m_size b +w 1 in
    if new_allocated_size <? m_allocated_size b then realloc new_allocated_size else ret tt
  else put (mkCircularBuffer [] 0 (m_size b) 0).

(** ** Element access

    A reference is the position of a value in memory. *)
Definition Reference : Type := Z.

Definition load (r : Reference) : M T T := b <- get; read (m_memory_owner b) r.

Definition store (r : Reference) t : M T unit :=
  b <- get; load r;; put (set_memory b (<[Z.to_nat r := Some t]> (m_memory_owner b))).

(** [operator\[\]] *)
Definition index (i : Z) : M T Reference :=
  b <- get; assert (i <? m_size b);; ret (wrap b i).

Definition at_ (i : Z) : M T Reference :=
  b <- get; if i <? m_size b then index i else throw out_of_range.

Definition front : M T Reference := index 0.
Definition back : M T Reference := b <- get; index (m_size b -w 1).

(** ** Modifiers *)
(** The value is not one of the buffer itself. *)
Definition emplace_front t : M T Reference :=
  b <- get;
  let new_size := m_size b +w 1 in
  reserve new_size;;
  b <- get;
  assert (0 <? m_allocated_size b);;
  let i := circular_dec b (m_begin b) in
  construct i t;;
  b <- get;
  put (set_size (set_begin b i) new_size);;
  ret i.

Definition emplace_back t : M T Reference :=
  b <- get;
  let new_size := m_size b +w 1 in
  reserve new_size;;
  b <- get;
  assert (0 <? m_allocated_size b);;
  let i := wrap b (m_size b) in
  construct i t;;
  b <- get;
  put (set_size b new_size);;
  ret i.

Definition push_front := emplace_front.
Definition push_back := emplace_back.

Definition pop_front : M T unit :=
  b <- get;
  assert (0 <? m_size b);;
  destroy_at (m_begin b);;
  b <- get;
  put (set_size (set_begin b (circular_inc b (m_begin b))) (m_size b -w 1)).

Definition pop_back : M T unit :=
  b <- get;
  assert (0 <? m_size b);;
  let new_size := m_size b -w 1 in
  destroy_at (wrap b new_size);;
  b <- get;
  put (set_size b new_size).

Definition clear : M T unit :=
  destroy 0;; b <- get; put (set_size (set_begin b 0) 0).

(** [do { new (&memory[i]) T(value); i = circular_inc(i); ++m_size; } while (m_size < size);] *)
Fixpoint resize_loop (fuel : nat) (i size : Z) value : M T unit :=
  match fuel with
  | O => undefined
  | S fuel =>
      construct i value;;
      b <- get;
      let i := circular_inc b i in
      put (set_size b (m_size b +w 1));;
      b <- get;
      if m_size b <? size then resize_loop fuel i size value else ret tt
  end.

Definition resize (size : Z) value : M T unit :=
  b <- get;
  if size <=? m_size b then
    let offset := size in
    destroy offset;;
    b <- get;
    put (set_size b size)
  else
    reserve size;;
    b <- get;
    resize_loop (Z.to_nat size) (wrap b (m_size b)) size value.

(** ** Iterators

    An iterator of a buffer is its [m_index]. *)
Definition Iter : Type := Z.

Definition begin b : Iter := m_begin b.
Definition end_ b : Iter := wrap b (m_size b).

Definition iter_load b (i : Iter) : option T :=
  match m_memory_owner b !! Z.to_nat i with Some (Some t) => Some t | _ => None end.

Definition iter_inc b (i : Iter) : Iter := circular_inc b i.
Definition iter_dec b (i : Iter) : Iter := circular_dec b i.

(** [operator+=] and [operator-=] *)
Definition iter_add b (i : Iter) (value : Z) : Iter := wrap b (unwrap b i +w convert size_t value).
Definition iter_sub b (i : Iter) (value : Z) : Iter := wrap b (unwrap b i -w convert size_t value).

(** [operator-] of two iterators *)
Definition iter_diff b (i j : Iter) : option Z := from_twos_compl int64_t size_t (unwrap b i -w unwrap b j).
Definition iter_lt b (i j : Iter) : bool := unwrap b i <? unwrap b j.

(** The values from an iterator to another *)
Fixpoint values (fuel : nat) b (i last : Iter) : option (list T) :=
  match fuel with
  | O => None
  | S fuel =>
      if i =? last then Some []
      else t ← iter_load b i; l ← values fuel b (iter_inc b i) last; Some (t :: l)
  end.

Definition contents b : option (list T) := values (S (Z.to_nat (m_size b))) b (begin b) (end_ b).

(** ** Copies *)
(** [copy] of a forward range and of an input range *)
Fixpoint copy_loop (l : list T) : M T unit :=
  match l with
  | [] => ret tt
  | t :: l =>
      b <- get;
      construct (m_size b) t;;
      b <- get;
      put (set_size b (m_size b +w 1));;
      copy_loop l
  end.

Definition copy (l : list T) : M T unit :=
  b <- get;
  assert (m_begin b =? 0);;
  assert (m_size b =? 0);;
  reserve (Z.of_nat (length l));;
  copy_loop l.

Fixpoint copy_input (l : list T) : M T unit :=
  match l with [] => ret tt | t :: l => push_back t;; copy_input l end.

(** [CircularBuffer(std::initializer_list)], [CircularBuffer(I, I)]: the buffer is
    the one of the default constructor. *)
Definition default_buffer : CircularBuffer T := mkCircularBuffer [] 0 0 0.
Definition construct_range (l : list T) : M T unit := rethrow (copy l) (destroy 0).
Definition construct_fill (count : Z) value : M T unit := rethrow (resize count value) (destroy 0).

Definition assign (l : list T) : M T unit := clear;; copy l.
Definition assign_fill (count : Z) value : M T unit := clear;; resize count value.

(** The buffer copied, which can be the one assigned to *)
Inductive Source := Other buffer | Itself.

Definition copy_assign (src : Source) : M T unit :=
  clear;;
  b <- get;
  match contents (match src with Other buffer => buffer | Itself => b end) with
  | Some l => copy l
  | None => undefined
  end.

Definition copy_construct buffer : M T unit :=
  match contents buffer with Some l => rethrow (copy l) (destroy 0) | None => undefined end.

(** The move constructor and the move assignment, from another buffer: the result
    is what is left of that *)
Definition move_construct buffer : M T (CircularBuffer T) :=
  put buffer;; ret default_buffer.

Definition move_assign buffer : M T (CircularBuffer T) :=
  destroy 0;; put buffer;; ret default_buffer.

Definition swap buffer : M T (CircularBuffer T) := b <- get; put buffer;; ret b.

(** ** Comparison: [std::equal], [std::lexicographical_compare] *)
Fixpoint list_equal (eq : T → T → bool) (l l' : list T) : bool :=
  match l, l' with
  | [], [] => true
  | x :: l, y :: l' => eq x y && list_equal eq l l'
  | _, _ => false
  end.

Fixpoint list_less (less : T → T → bool) (l l' : list T) : bool :=
  match l, l' with
  | _, [] => false
  | [], _ :: _ => true
  | x :: l, y :: l' => less x y || (negb (less y x) && list_less less l l')
  end.

Definition equal (eq : T → T → bool) b buffer : option bool :=
  l ← contents b; l' ← contents buffer; Some (list_equal eq l l').

Definition less (lt : T → T → bool) b buffer : option bool :=
  l ← contents b; l' ← contents buffer; Some (list_less lt l l').
End Calls.
End CircularBuffer.
