(* ===== verification/CircularBufferTheory.v ===== *)
(** The calls of [CircularBuffer] on a buffer that holds a list: the value at
    each index, the calls that throw included. *)
From S2P Require Import Prelude SafeInt CircularBuffer.
Import CircularBuffer.

(** ** What a call ends with *)
Definition wp {T A} (m : M T A) (Q : World T → A + Exception → Prop) (w : World T) : Prop :=
  ∃ w' r, m w = Some (w', r) ∧ Q w' r.

Section Wp.
Context {T : Type}.

Lemma buffer_bind {A B} (m : M T A) (k : A → M T B) Q w :
  wp m (λ w' r, match r with inl a => wp (k a) Q w' | inr e => Q w' (inr e) end) w → wp (bind m k) Q w.
Proof.
  intros (w'&r&Hm&Hk). unfold wp, bind. rewrite Hm. destruct r as [a|e]; simpl; [|by exists w', (inr e)].
  destruct Hk as (w''&r&Hk&HQ). rewrite Hk. by exists w'', r.
Qed.

Lemma buffer_ret {A} (a : A) Q (w : World T) : Q w (inl a) → wp (ret a) Q w.
Proof. intros H. by exists w, (inl a). Qed.

Lemma wp_throw {A} e Q (w : World T) : Q w (inr e) → wp (throw (A := A) e) Q w.
Proof. intros H. by exists w, (inr e). Qed.

Lemma buffer_get Q (w : World T) : Q w (inl (this w)) → wp get Q w.
Proof. intros H. by exists w, (inl (this w)). Qed.

Lemma wp_put b Q (w : World T) : Q (mkWorld b (constructed w)) (inl tt) → wp (put b) Q w.
Proof. intros H. by eexists _, _. Qed.

Lemma buffer_assert b Q (w : World T) : b = true → Q w (inl tt) → wp (assert b) Q w.
Proof. intros -> H. by apply buffer_ret. Qed.

Lemma buffer_mono {A} (m : M T A) (P Q : World T → A + Exception → Prop) w :
  wp m P w → (∀ w' r, P w' r → Q w' r) → wp m Q w.
Proof. intros (w'&r&?&?) HPQ. exists w', r. eauto. Qed.

Lemma wp_rethrow {A} (m : M T A) h (Q : World T → A + Exception → Prop) w :
  wp m (λ w' r, match r with
                | inl a => Q w' (inl a)
                | inr e => wp h (λ w'' r, r = inl tt ∧ Q w'' (inr e)) w' end) w →
  wp (rethrow m h) Q w.
Proof.
  intros (w'&r&Hm&HQ). unfold wp, rethrow. rewrite Hm. destruct r as [a|e]; [by exists w', (inl a)|].
  destruct HQ as (w''&r&Hh&->&HQ). simpl. rewrite Hh. simpl. by exists w'', (inr e).
Qed.
End Wp.

(** One step of a call *)
Ltac wp_step :=
  lazymatch goal with
  | |- wp (bind _ _) _ _ => apply buffer_bind
  | |- wp (ret _) _ _ => apply buffer_ret
  | |- wp (throw _) _ _ => apply wp_throw
  | |- wp get _ _ => apply buffer_get
  | |- wp (put _) _ _ => apply wp_put
  end; cbv beta iota.
Ltac wp_steps := repeat wp_step.

(** ** The buffer as a window of its memory

    The cell at index [i] of the buffer, of which the first [m_size] are values *)
Section Cells.
Context {T : Type}.
Implicit Types (b : CircularBuffer T) (c : Z → option T) (l : list T).

Definition position b (i : Z) : Z :=
  if decide (m_begin b + i < m_allocated_size b) then m_begin b + i else m_begin b + i - m_allocated_size b.

Record shape b : Prop := {
  shape_memory : Z.of_nat (length (m_memory_owner b)) = m_allocated_size b;
  shape_allocated : m_allocated_size b ≤ npos;
  shape_begin : 0 ≤ m_begin b ∧ (m_begin b < m_allocated_size b ∨ m_begin b = 0 ∧ m_allocated_size b = 0);
  shape_size : 0 ≤ m_size b ∧ (m_size b < m_allocated_size b ∨ m_size b = 0 ∧ m_allocated_size b = 0) }.

Definition cells b c : Prop :=
  ∀ i, 0 ≤ i < m_allocated_size b → m_memory_owner b !! Z.to_nat (position b i) = Some (c i).

Definition values_of l (i : Z) : option T := if decide (0 ≤ i) then l !! Z.to_nat i else None.

(** The buffer holds a list. *)
Definition holds b l : Prop := shape b ∧ m_size b = Z.of_nat (length l) ∧ cells b (values_of l).

Definition set_cell c (i : Z) (x : option T) (j : Z) : option T := if decide (j = i) then x else c j.

Lemma position_range b i : shape b → 0 ≤ i < m_allocated_size b → 0 ≤ position b i < m_allocated_size b.
Proof. intros [] Hi. unfold position. case_decide; lia. Qed.

Lemma position_inj b i j : shape b → 0 ≤ i < m_allocated_size b → 0 ≤ j < m_allocated_size b →
  position b i = position b j → i = j.
Proof. intros [] ??. unfold position. repeat case_decide; lia. Qed.

Lemma position_0 b : shape b → position b 0 = m_begin b.
Proof. intros []. unfold position. case_decide; lia. Qed.

Lemma wrap_position b i : shape b → 0 ≤ i < m_allocated_size b → wrap b i = position b i.
Proof.
  intros [] ?. unfold wrap, position. size_simpl. case_decide; case_test; size_simpl; lia.
Qed.

Lemma wrap_empty b : shape b → m_allocated_size b = 0 → wrap b 0 = m_begin b.
Proof. intros [] H. unfold wrap. rewrite H in *. size_simpl. case_tests. Qed.

Lemma unwrap_position b i : shape b → 0 ≤ i < m_allocated_size b → unwrap b (position b i) = i.
Proof.
  intros [] ?. unfold unwrap, position. case_decide; case_test; rewrite ?(wsub_small (m_begin b)) by lia; size_simpl; lia.
Qed.

Lemma circular_inc_position b i : shape b → 0 ≤ i < m_allocated_size b →
  circular_inc b (position b i) = position b (if decide (i + 1 = m_allocated_size b) then 0 else i + 1).
Proof.
  intros [] ?. unfold circular_inc, position. repeat case_decide; size_simpl; case_test; lia.
Qed.

Lemma circular_dec_position b i : shape b → 0 ≤ i < m_allocated_size b →
  circular_dec b (position b i) = position b (if decide (i = 0) then m_allocated_size b - 1 else i - 1).
Proof.
  intros [] ?. unfold circular_dec, position. repeat case_decide; case_test; size_simpl; lia.
Qed.
End Cells.

Section Windows.
Context {T : Type} {elements : Elements T}.
Implicit Types (b : CircularBuffer T) (c : Z → option T) (l : list T) (w : World T).

(** [b] has the cells [c]. *)
Definition window b c : Prop := shape b ∧ cells b c.

Definition same_frame b b' : Prop :=
  m_begin b' = m_begin b ∧ m_size b' = m_size b ∧ m_allocated_size b' = m_allocated_size b.

#[export] Instance same_frame_preorder : PreOrder same_frame.
Proof. split; [done|]. intros b1 b2 b3 (?&?&?) (?&?&?). repeat split; congruence. Qed.

Lemma position_frame b b' i : same_frame b b' → position b' i = position b i.
Proof. intros (E1&_&E2). unfold position. by rewrite E1, E2. Qed.

Lemma window_ext b c c' : window b c → (∀ i, 0 ≤ i < m_allocated_size b → c i = c' i) → window b c'.
Proof. intros [Hs Hc] He. split; [done|]. intros i Hi. rewrite (Hc i Hi). by rewrite He. Qed.

Lemma window_set b c i x : window b c → 0 ≤ i < m_allocated_size b →
  window (set_memory b (<[Z.to_nat (position b i) := x]> (m_memory_owner b))) (set_cell c i x).
Proof.
  intros [Hs Hc] Hi. pose proof Hs as [Hm ? ? ?]. split; [split; simpl; [by rewrite length_insert|done..]|].
  intros j Hj. change (<[Z.to_nat (position b i) := x]> (m_memory_owner b) !! Z.to_nat (position b j) = Some (set_cell c i x j)).
  change (0 ≤ j < m_allocated_size b) in Hj.
  pose proof (position_range b i Hs Hi). pose proof (position_range b j Hs Hj). unfold set_cell. case_decide as E.
  - subst j. apply list_lookup_insert_eq. lia.
  - rewrite list_lookup_insert_ne; [by apply Hc|]. intros E'. apply E, (position_inj b); [done..|]. lia.
Qed.

Lemma window_load b c i : window b c → 0 ≤ i < m_allocated_size b →
  m_memory_owner b !! Z.to_nat (position b i) = Some (c i).
Proof. intros [_ Hc]. apply Hc. Qed.

(** *** Destroying values *)
Lemma wp_destroy_at w c i t :
  window (this w) c → 0 ≤ i < m_allocated_size (this w) → c i = Some t →
  wp (destroy_at (position (this w) i))
    (λ w' r, r = inl tt ∧ constructed w' = constructed w ∧ same_frame (this w) (this w') ∧ window (this w') (set_cell c i None)) w.
Proof.
  intros Hw Hi Ht. unfold destroy_at, destroy_in. do 2 wp_step. rewrite (window_load _ c) by done. rewrite Ht.
  wp_steps. split; [done|]. split; [done|]. split; [by repeat split|]. by apply window_set.
Qed.

(** The values from index [k] on are destroyed, as many as are left to the size. *)
Lemma wp_destroy_loop fuel : ∀ w c i j k,
  window (this w) c → (Z.to_nat (m_size (this w) - i) < fuel)%nat → 0 ≤ i ≤ m_size (this w) → 0 ≤ k →
  k + (m_size (this w) - i) ≤ m_allocated_size (this w) →
  (i < m_size (this w) → j = position (this w) k) →
  (∀ x, k ≤ x < k + (m_size (this w) - i) → c x ≠ None) →
  wp (destroy_loop fuel i j)
    (λ w' r, r = inl tt ∧ constructed w' = constructed w ∧ same_frame (this w) (this w') ∧
       window (this w') (λ x, if decide (k ≤ x < k + (m_size (this w) - i)) then None else c x)) w.
Proof.
  induction fuel as [|fuel IH]; intros w c i j k Hw Hf Hi Hk Ha Hj Hc; [lia|]. cbn [destroy_loop]. do 2 wp_step.
  destruct (Z.ltb_spec i (m_size (this w))) as [Hlt|Hge].
  2:{ wp_steps. do 3 (split; [done|]). eapply window_ext; [done|]. intros x _. by rewrite decide_False by lia. }
  rewrite Hj by done. destruct (c k) as [t|] eqn:Ht; [|destruct (Hc k); [lia|done]]. wp_step.
  eapply buffer_mono; [by apply (wp_destroy_at _ c _ t); [|lia|]|]. intros w1 r (->&Hcon&Hfr&Hw1). cbv beta iota.
  do 2 wp_step. pose proof Hfr as (Eb&Es&Ea). pose proof (proj1 Hw) as [? ? ? ?].
  rewrite wadd_small by slia. eapply buffer_mono.
  - apply (IH w1 (set_cell c k None) (i + 1) _ (k + 1)); rewrite ?Es, ?Ea; [done|lia..| |].
    + intros Hi1. rewrite <-(position_frame _ _ k Hfr), circular_inc_position; [|apply Hw1|lia].
      rewrite decide_False by lia. done.
    + intros x Hx. unfold set_cell. rewrite decide_False by lia. apply Hc. lia.
  - intros w2 r (->&Hcon2&Hfr2&Hw2). split; [done|]. split; [congruence|]. split; [by etrans|].
    eapply window_ext; [exact Hw2|]. intros x _. unfold set_cell. rewrite Es.
    destruct (decide (x = k)) as [->|]; repeat case_decide; try done; lia.
Qed.

Lemma holds_window b l : holds b l ↔ window b (values_of l) ∧ m_size b = Z.of_nat (length l).
Proof. unfold holds, window. tauto. Qed.

Lemma values_of_Some l i : 0 ≤ i < Z.of_nat (length l) → ∃ t, values_of l i = Some t ∧ l !! Z.to_nat i = Some t.
Proof.
  intros Hi. unfold values_of. rewrite decide_True by lia.
  destruct (lookup_lt_is_Some_2 l (Z.to_nat i)) as [t ->]; [lia|]. by exists t.
Qed.

Lemma values_of_None l i : i < 0 ∨ Z.of_nat (length l) ≤ i → values_of l i = None.
Proof. intros Hi. unfold values_of. case_decide; [|done]. apply lookup_ge_None. lia. Qed.

(** All values are destroyed. *)
Lemma wp_destroy w l :
  holds (this w) l →
  wp (destroy 0) (λ w' r, r = inl tt ∧ constructed w' = constructed w ∧ same_frame (this w) (this w') ∧
                          window (this w') (λ _, None)) w.
Proof.
  intros [Hw Hl]%holds_window. pose proof (proj1 Hw) as [? ? ? ?]. unfold destroy. do 2 wp_step. eapply buffer_mono.
  - apply (wp_destroy_loop _ w (values_of l) 0 _ 0); [done|lia..| |].
    + intros _. by rewrite position_0 by apply Hw.
    + intros x Hx. destruct (values_of_Some l x) as (t&->&_); [lia|done].
  - intros w' r (->&Hcon&Hfr&Hw'). split; [done|]. split; [done|]. split; [done|]. eapply window_ext; [done|].
    intros i Hi. cbv beta. case_decide; [done|]. apply values_of_None. lia.
Qed.
End Windows.

(** ** Reallocation *)
Section Realloc.
Context {T : Type} {elements : Elements T}.
Implicit Types (b : CircularBuffer T) (c : Z → option T) (l : list T) (w : World T) (memory : list (option T)).

(** A memory that holds a list from its start *)
Definition filled l (n : nat) : list (option T) := (Some <$> l) ++ replicate n None.

Lemma filled_next l n t : <[length l := Some t]> (filled l (S n)) = filled (l ++ [t]) n.
Proof.
  unfold filled. replace (length l) with (length (Some <$> l) + 0)%nat by (rewrite length_fmap; lia).
  rewrite insert_app_r. cbn [replicate insert list_insert]. by rewrite fmap_app, <-app_assoc.
Qed.

Lemma filled_free l n : (0 < n)%nat → filled l n !! length l = Some None.
Proof.
  intros. unfold filled. rewrite lookup_app_r, length_fmap, Nat.sub_diag by (rewrite length_fmap; lia).
  by apply lookup_replicate_2.
Qed.

Lemma wp_back_out l fuel : ∀ w memory n j,
  memory = replicate (Z.to_nat j) None ++ (Some <$> l) ++ replicate n None → 0 ≤ j → (length l < fuel)%nat →
  j + Z.of_nat (length l) ≤ npos →
  wp (back_out fuel (j + Z.of_nat (length l)) j memory) (λ w' r, w' = w ∧ r = inl tt) w.
Proof.
  revert fuel. induction l as [|t l IH]; intros [|fuel] w memory n j Hm Hj Hf Hn; cbn [length] in *; try lia; cbn [back_out].
  - rewrite (proj2 (Z.ltb_ge _ _)) by lia. wp_steps. done.
  - rewrite (proj2 (Z.ltb_lt _ _)) by lia. wp_step. unfold destroy_in.
    assert (memory !! Z.to_nat j = Some (Some t)) as ->.
    { rewrite Hm, lookup_app_r, length_replicate, Nat.sub_diag by (rewrite length_replicate; lia). done. }
    wp_steps. rewrite wadd_small by lia. replace (j + Z.of_nat (S (length l))) with (j + 1 + Z.of_nat (length l)) by lia.
    apply (IH fuel w _ n (j + 1)); [|lia..]. rewrite Hm.
    replace (Z.to_nat j) with (length (replicate (Z.to_nat j) (@None T)) + 0)%nat at 1 by (rewrite length_replicate; lia).
    rewrite insert_app_r. cbn [fmap list_fmap app insert list_insert].
    replace (Z.to_nat (j + 1)) with (Z.to_nat j + 1)%nat by lia. by rewrite replicate_add, <-app_assoc.
Qed.

(** A value that is moved or copied to the new memory stays alive in the old one. *)
Lemma wp_move_if_noexcept w c l1 n i t :
  window (this w) c → 0 ≤ i < m_allocated_size (this w) → c i = Some t → (0 < n)%nat → length l1 = Z.to_nat i →
  wp (move_if_noexcept (filled l1 n) i (position (this w) i))
    (λ w' r, constructed w' = S (constructed w) ∧
      match r with
      | inl memory => memory = filled (l1 ++ [t]) (pred n) ∧ same_frame (this w) (this w') ∧
          (nothrow_move = false → this w' = this w) ∧
          ∃ x, window (this w') (set_cell c i (Some x))
      | inr e => e = Thrown ∧ nothrow_move = false ∧ this w' = this w ∧ completes (constructed w) = false
      end) w.
Proof.
  intros Hw Hi Ht Hn Hl. unfold move_if_noexcept, read, construct_in, constructor. do 3 wp_step.
  rewrite (window_load _ c) by done. rewrite Ht. wp_steps. rewrite <-Hl, filled_free by done.
  wp_step. eexists _, _. split; [done|].
  destruct nothrow_move eqn:Hnt; cbn [orb].
  - wp_steps. split; [done|]. destruct n as [|n]; [lia|]. rewrite filled_next. split; [done|]. split; [by repeat split|].
    split; [done|]. exists (moved_from t). by apply window_set.
  - destruct (completes (constructed w)) eqn:Hcm; wp_steps; [|done]. split; [done|]. destruct n as [|n]; [lia|].
    rewrite filled_next. split; [done|]. split; [done|]. split; [done|]. exists t. eapply window_ext; [exact Hw|].
    intros x Hx. unfold set_cell. by case_decide; subst.
Qed.

Lemma wp_move_loop fuel l n : ∀ w c i j,
  window (this w) c → m_size (this w) = Z.of_nat (length l) → 0 ≤ i ≤ Z.of_nat (length l) → (length l - Z.to_nat i < fuel)%nat →
  (i < m_size (this w) → j = position (this w) i) →
  (∀ x, 0 ≤ x < m_size (this w) → c x ≠ None) → (∀ x, i ≤ x < m_size (this w) → c x = values_of l x) →
  (length l < n)%nat →
  wp (move_loop fuel i j (filled (take (Z.to_nat i) l) (n - Z.to_nat i)))
    (λ w' r, (constructed w' ≤ constructed w + (length l - Z.to_nat i))%nat ∧
      match r with
      | inl memory => memory = filled l (n - length l) ∧ same_frame (this w) (this w') ∧
          ∃ c', window (this w') c' ∧ (∀ x, 0 ≤ x < m_size (this w) → c' x ≠ None)
      | inr e => e = Thrown ∧ nothrow_move = false ∧ this w' = this w ∧ ∃ k, completes k = false
      end) w.
Proof.
  induction fuel as [|fuel IH]; intros w c i j Hw Hsz Hi Hf Hj Hlive Hval Hn; [lia|]. cbn [move_loop].
  pose proof (proj1 Hw) as [? ? ? ?]. do 2 wp_step.
  destruct (Z.ltb_spec i (m_size (this w))) as [Hlt|Hge].
  2:{ wp_steps. split; [lia|]. replace (Z.to_nat i) with (length l) by lia. rewrite take_ge by lia.
      split; [done|]. split; [done|]. by exists c. }
  destruct (values_of_Some l i) as (t&Ht&Hlt'); [lia|]. rewrite Hj by done. wp_step. apply wp_rethrow.
  eapply buffer_mono; [apply (wp_move_if_noexcept w c _ _ i t); [done|lia|rewrite Hval by lia; done|lia|rewrite length_take; lia]|].
  intros w1 [memory|e]; cbv beta iota.
  - intros (Hcon&->&Hfr&Hsame&x&Hw1). do 2 wp_step. pose proof Hfr as (Eb&Es&Ea). rewrite wadd_small by slia.
    rewrite <-(take_S_r _ _ _ Hlt'). replace (pred (n - Z.to_nat i)) with (n - Z.to_nat (i + 1))%nat by lia.
    replace (S (Z.to_nat i)) with (Z.to_nat (i + 1)) by lia. eapply buffer_mono.
    + apply (IH w1 (set_cell c i (Some x)) (i + 1)); rewrite ?Es, ?Ea; [done|lia..| | | |lia].
      * intros Hlt1. rewrite <-(position_frame _ _ i Hfr), circular_inc_position; [|apply Hw1|lia].
        by rewrite decide_False by lia.
      * intros y Hy. unfold set_cell. case_decide; [done|]. by apply Hlive.
      * intros y Hy. unfold set_cell. rewrite decide_False by lia. apply Hval. lia.
    + intros w2 r (Hc2&Hr). split; [lia|]. destruct r as [memory|e].
      * destruct Hr as (->&Hfr2&c'&Hw2&Hl2). split; [done|]. split; [by etrans|]. exists c'. by rewrite <-Es.
      * destruct Hr as (->&Hnt&Hthis&Hk). do 2 (split; [done|]). split; [by rewrite Hthis, Hsame|done].
  - intros (Hcon&->&Hnt&Hthis&Hcm). pose proof (wp_back_out (take (Z.to_nat i) l) (S (Z.to_nat i)) w1
      (filled (take (Z.to_nat i) l) (n - Z.to_nat i)) (n - Z.to_nat i) 0) as Hback.
    rewrite length_take, Nat.min_l, Z2Nat.id in Hback by lia. eapply buffer_mono; [apply Hback; [done|lia|lia|slia]|].
    intros ? ? [-> ->]. split; [done|]. split; [lia|]. do 3 (split; [done|]). by eexists.
Qed.

Lemma holds_filled l n : (length l < n)%nat → Z.of_nat n ≤ npos →
  holds (mkCircularBuffer (filled l (n - length l)) 0 (Z.of_nat (length l)) (Z.of_nat n)) l.
Proof.
  intros Hl Hn. split; [split; simpl|]; [|lia..|]; [unfold filled; rewrite length_app, length_fmap, length_replicate; lia|].
  split; [done|]. intros i Hi. simpl in Hi. unfold position. simpl. rewrite decide_True by lia.
  unfold filled, values_of. rewrite decide_True, Z.add_0_l by lia. destruct (decide (i < Z.of_nat (length l))).
  - rewrite lookup_app_l, list_lookup_fmap by (rewrite length_fmap; lia).
    by destruct (lookup_lt_is_Some_2 l (Z.to_nat i)) as [t ->]; [lia|].
  - rewrite lookup_app_r, length_fmap, lookup_replicate_2 by (rewrite ?length_fmap; lia). by rewrite lookup_ge_None_2 by lia.
Qed.

(** The buffer is moved to a memory of the new size, or left as it is. *)
Lemma wp_realloc w l n :
  holds (this w) l → m_size (this w) < n → 1 < n ≤ npos →
  wp (realloc n)
    (λ w' r, holds (this w') l ∧ (constructed w' ≤ constructed w + length l)%nat ∧
      match r with
      | inl _ => m_allocated_size (this w') = n ∧ m_begin (this w') = 0
      | inr e => this w' = this w ∧ (e = bad_alloc ∧ (∃ m, allocates m = false) ∨ e = Thrown ∧ ∃ k, completes k = false)
      end) w.
Proof.
  intros Hh Hn Hn1. pose proof Hh as [Hw Hl]%holds_window. pose proof (proj1 Hw) as [? ? ? ?]. unfold realloc.
  do 3 wp_step. apply buffer_assert; [lia|]. wp_step. apply buffer_assert; [lia|]. wp_step.
  unfold make_unique. destruct (allocates n) eqn:Hn2; wp_step; [|split; [done|]; split; [lia|]; split; [done|left; eauto]]. wp_step.
  replace (replicate (Z.to_nat n) None) with (filled (take (Z.to_nat 0) l) (Z.to_nat n - Z.to_nat 0))
    by (unfold filled; simpl (Z.to_nat 0); by rewrite Nat.sub_0_r).
  eapply buffer_mono; [apply (wp_move_loop _ l (Z.to_nat n) w (values_of l) 0); [done|done|lia|lia| | |done|lia]|].
  { intros _. by rewrite position_0 by apply Hw. }
  { intros x Hx. destruct (values_of_Some l x) as (t&->&_); [lia|done]. }
  intros w1 [memory|e]; cbv beta iota.
  - intros (Hcon&->&Hfr&c&Hw1&Hlive). wp_step. pose proof Hfr as (Eb&Es&Ea). eapply buffer_mono.
    + apply (wp_destroy_loop _ w1 c 0 _ 0); rewrite ?Es, ?Ea; [done|lia..| |].
      * intros _. rewrite (position_frame _ _ 0 Hfr). by rewrite position_0 by apply Hw.
      * intros x Hx. apply Hlive. lia.
    + intros w2 r (->&Hc2&_). cbv beta iota. wp_step. split; [|simpl; split; [lia|done]]. simpl. rewrite Hl.
      replace n with (Z.of_nat (Z.to_nat n)) by lia. replace (Z.to_nat (Z.of_nat (Z.to_nat n))) with (Z.to_nat n) by lia.
      apply holds_filled; lia.
  - intros (Hcon&->&_&Hthis&k&Hk). split; [by rewrite Hthis|]. split; [lia|]. split; [done|]. right. split; [done|]. by exists k.
Qed.

Lemma in_size_t v : in_type size_t v ↔ 0 ≤ v ≤ npos.
Proof. unfold in_type, min_value, max_value. simpl. slia. Qed.

Lemma add_detected v : 0 ≤ v ≤ npos →
  int_add_with_overflow_detect size_t int_t v 1 = if decide (v = npos) then overflowed v else assigned (v + 1).
Proof.
  intros Hv. rewrite add_exact; [|by_decision|by_decision|by apply in_size_t|by_decision].
  unfold checked. repeat case_decide; try done; rewrite in_size_t in *; lia.
Qed.

Lemma multiply_detected v : 0 ≤ v ≤ npos →
  int_multiply_with_overflow_detect size_t int_t v 2 = if decide (v * 2 ≤ npos) then assigned (v * 2) else overflowed v.
Proof.
  intros Hv. rewrite multiply_exact; [|by_decision|by_decision|by apply in_size_t|by_decision|lia|lia].
  unfold checked. repeat case_decide; try done; rewrite in_size_t in *; lia.
Qed.

(** [reserve] makes room for a number of values, or throws and leaves the buffer. *)
Lemma wp_reserve w l n :
  holds (this w) l → 0 ≤ n ≤ npos →
  wp (reserve n)
    (λ w' r, holds (this w') l ∧ (constructed w' ≤ constructed w + length l)%nat ∧
      match r with
      | inl _ => (0 < n → n < m_allocated_size (this w')) ∧ (w' = w ∨ m_begin (this w') = 0) ∧
          (n < m_allocated_size (this w) ∨ n = 0 → w' = w) ∧
          (m_allocated_size (this w) ≤ n → 0 < n → 2 * m_allocated_size (this w) ≤ npos →
             m_allocated_size (this w') = Z.max (n + 1) (2 * m_allocated_size (this w)))
      | inr e => this w' = this w ∧ m_allocated_size (this w) ≤ n ∧
          (e = overflow_error ∧ n = npos ∨ e = bad_alloc ∧ (∃ m, allocates m = false) ∨ e = Thrown ∧ ∃ k, completes k = false)
      end) w.
Proof.
  intros Hh Hn. pose proof Hh as [Hw Hl]%holds_window. pose proof (proj1 Hw) as [? ? ? ?]. unfold reserve.
  destruct (Z.eqb_spec n 0) as [->|Hn0].
  { wp_step. split; [done|]. split; [lia|]. split; [lia|]. split; [by left|]. split; [done|]. lia. }
  wp_step. rewrite add_detected by lia. case_decide as Hov; simpl; wp_step.
  { subst n. wp_step. split; [done|]. split; [lia|]. split; [done|]. split; [lia|]. by left. }
  do 2 wp_step. destruct (Z.leb_spec (n + 1) (m_allocated_size (this w))) as [Hle|Hgt].
  { wp_step. split; [done|]. split; [lia|]. split; [lia|]. split; [by left|]. split; [done|]. lia. }
  wp_step. rewrite multiply_detected by lia.
  set (d := if decide (m_allocated_size (this w) * 2 ≤ npos) then m_allocated_size (this w) * 2 else npos).
  set (n' := if d <? n + 1 then n + 1 else d).
  assert (n + 1 ≤ n' ≤ npos) as Hn' by (unfold n', d; case_decide; case_test; lia).
  lazymatch goal with |- wp _ (λ w' r, match r with inl _ => wp _ ?Q _ | inr _ => _ end) w => cut (wp (realloc n') Q w) end.
  { intros Hr. subst n' d. case_decide; simpl; wp_step; exact Hr. }
  eapply buffer_mono; [apply (wp_realloc w l n' Hh); lia|].
  intros w' r (Hh'&Hc&Hr). split; [done|]. split; [done|]. destruct r as [u|e].
  - destruct Hr as [Hr Hr0]. rewrite Hr. split; [lia|]. split; [by right|]. split; [lia|]. intros _ _ Hd. unfold n', d. rewrite decide_True by lia. case_test; lia.
  - destruct Hr as [? ?]. split; [done|]. split; [lia|]. by right.
Qed.
End Realloc.

(** ** Calls that add and remove values *)
Section Calls.
Context {T : Type} {elements : Elements T}.
Implicit Types (b : CircularBuffer T) (c : Z → option T) (l : list T) (w : World T).

Lemma window_size b c s : window b c → 0 ≤ s → (s < m_allocated_size b ∨ s = 0 ∧ m_allocated_size b = 0) → window (set_size b s) c.
Proof. intros [[] Hc] ??. split; [split; simpl; auto|exact Hc]. Qed.

Definition rotated (n k i : Z) : Z := if decide (i + k < n) then i + k else i + k - n.

(** The buffer that starts at another index *)
Lemma window_begin b c k : window b c → 0 ≤ k < m_allocated_size b →
  window (set_begin b (position b k)) (λ i, c (rotated (m_allocated_size b) k i)).
Proof.
  intros [Hs Hc] Hk. pose proof Hs as [? ? ? ?]. pose proof (position_range b k Hs Hk).
  split; [split; simpl; [done..|lia|done]|]. intros i Hi. change (0 ≤ i < m_allocated_size b) in Hi.
  change (m_memory_owner b !! Z.to_nat (position (set_begin b (position b k)) i) = Some (c (rotated (m_allocated_size b) k i))).
  rewrite <-Hc by (unfold rotated; case_decide; lia). do 2 f_equal. unfold position, rotated. simpl.
  repeat case_decide; lia.
Qed.

Lemma wp_construct w c i t :
  window (this w) c → 0 ≤ i < m_allocated_size (this w) → c i = None →
  wp (construct (position (this w) i) t)
    (λ w' r, constructed w' = S (constructed w) ∧ same_frame (this w) (this w') ∧
      match r with
      | inl _ => window (this w') (set_cell c i (Some t))
      | inr e => e = Thrown ∧ this w' = this w ∧ completes (constructed w) = false
      end) w.
Proof.
  intros Hw Hi Hn. unfold construct, construct_in, constructor. do 2 wp_step. rewrite (window_load _ c) by done. rewrite Hn.
  wp_steps. eexists _, _. split; [done|]. cbn [orb]. destruct (completes (constructed w)) eqn:E.
  - wp_steps. split; [done|]. split; [by repeat split|]. by apply window_set.
  - split; [done|]. split; [by repeat split|]. done.
Qed.

Lemma set_cell_last l t i : 0 ≤ i →
  set_cell (values_of l) (Z.of_nat (length l)) (Some t) i = values_of (l ++ [t]) i.
Proof.
  intros Hi. unfold set_cell, values_of. destruct (decide (0 ≤ i)); [|lia]. case_decide as E.
  - subst i. by rewrite Nat2Z.id, list_lookup_middle.
  - destruct (decide (i < Z.of_nat (length l))); [by rewrite lookup_app_l by lia|].
    rewrite !lookup_ge_None_2; [done|rewrite length_app; simpl; lia|lia].
Qed.

(** How a call that adds a value to one of [n] can change the memory: not at all,
    or to one of twice the size to which the values are moved. *)
Definition memory_grows w w' (n : nat) : Prop :=
  (m_allocated_size (this w') = m_allocated_size (this w) ∧ (constructed w' ≤ S (constructed w))%nat ∨
   m_allocated_size (this w) ≤ Z.of_nat n + 1 ∧
     (2 * m_allocated_size (this w) ≤ npos →
        m_allocated_size (this w') = Z.max (Z.of_nat n + 2) (2 * m_allocated_size (this w))) ∧
     (constructed w' ≤ constructed w + S n)%nat).

Definition fails w (e : Exception) (n : nat) : Prop :=
  e = overflow_error ∧ Z.of_nat n + 1 = npos ∨ e = bad_alloc ∧ m_allocated_size (this w) ≤ Z.of_nat n + 1 ∧ (∃ m, allocates m = false) ∨
  e = Thrown ∧ ∃ k, completes k = false.

Lemma reserve_for_one w l :
  holds (this w) l →
  wp (reserve (m_size (this w) +w 1))
    (λ w' r, holds (this w') l ∧
      match r with
      | inl _ => Z.of_nat (length l) + 1 < m_allocated_size (this w') ∧
          (Z.of_nat (length l) + 1 < m_allocated_size (this w) → w' = w) ∧
          (w' = w ∨ m_allocated_size (this w) ≤ Z.of_nat (length l) + 1 ∧
             (2 * m_allocated_size (this w) ≤ npos →
                m_allocated_size (this w') = Z.max (Z.of_nat (length l) + 2) (2 * m_allocated_size (this w))) ∧
             (constructed w' ≤ constructed w + length l)%nat)
      | inr e => this w' = this w ∧ m_allocated_size (this w) ≤ Z.of_nat (length l) + 1 ∧ fails w e (length l)
      end) w.
Proof.
  intros Hh. pose proof Hh as [Hw Hl]%holds_window. pose proof (proj1 Hw) as [? ? ? ?]. rewrite wadd_small by slia.
  rewrite Hl. eapply buffer_mono; [apply (wp_reserve w l _ Hh); slia|]. intros w' r (Hh'&Hc&Hr). split; [done|].
  destruct r as [u|e].
  - destruct Hr as (Hroom&_&Hsame&Hgrow). split; [lia|]. split; [by auto|].
    destruct (decide (Z.of_nat (length l) + 1 < m_allocated_size (this w))) as [Hlt|Hge]; [left; auto|right].
    split; [lia|]. split; [|done]. intros Hd. rewrite Hgrow; lia.
  - destruct Hr as (Hthis&Ha&He). split; [done|]. split; [done|]. unfold fails. destruct He as [[-> E]|[[-> ?]|[-> Hk]]]; eauto 10.
Qed.

(** [push_back] adds the value at the end, or throws and leaves the values. *)
Lemma wp_emplace_back w l t :
  holds (this w) l →
  wp (emplace_back t)
    (λ w' r, (Z.of_nat (length l) + 1 < m_allocated_size (this w) →
                m_begin (this w') = m_begin (this w) ∧ m_allocated_size (this w') = m_allocated_size (this w)) ∧
      match r with
      | inl i => holds (this w') (l ++ [t]) ∧ i = position (this w') (Z.of_nat (length l)) ∧ memory_grows w w' (length l)
      | inr e => holds (this w') l ∧ fails w e (length l)
      end) w.
Proof.
  intros Hh. pose proof (proj1 Hh) as [? ? ? ?]. unfold emplace_back. do 2 wp_step. wp_step.
  eapply buffer_mono; [by apply reserve_for_one|]. intros w1 [u|e]; cbv beta iota.
  2:{ intros (Hh1&Hthis&Ha&He). split; [lia|]. done. }
  intros (Hh1&Hroom&Hsame&Hgrow). pose proof Hh1 as [Hw1 Hl1]%holds_window. pose proof (proj1 Hw1) as [? ? ? ?].
  assert (m_size (this w) +w 1 = Z.of_nat (length l) + 1) as ->.
  { destruct Hh as (_&->&_). rewrite wadd_small by slia. done. }
  do 3 wp_step. apply buffer_assert; [lia|]. wp_step. rewrite Hl1, wrap_position by (done || apply Hw1 || lia).
  eapply buffer_mono; [apply (wp_construct w1 _ (Z.of_nat (length l)) t Hw1); [lia|apply values_of_None; lia]|].
  intros w2 [v|e]; cbv beta iota.
  2:{ intros (Hc2&Hfr&->&Hthis&Hcm). split.
      - intros Hlt. by rewrite Hthis, (Hsame Hlt).
      - rewrite Hthis. split; [done|]. right. right. eauto. }
  intros (Hc2&Hfr&Hw2). wp_steps. simpl. pose proof Hfr as (Eb&Es&Ea). split.
  { intros Hlt. by rewrite Eb, Ea, (Hsame Hlt). }
  split_and!.
  - apply holds_window. simpl. split; [|rewrite length_app; simpl; lia].
    eapply window_ext; [apply window_size; [exact Hw2|lia|rewrite Ea; lia]|]. intros i Hi. apply set_cell_last. lia.
  - by rewrite <-(position_frame _ _ _ Hfr).
  - unfold memory_grows. simpl. rewrite Ea. destruct Hgrow as [->|(?&?&?)]; [left; lia|right]. split; [done|]. split; [done|]. lia.
Qed.

Lemma values_of_cons l t i : 0 ≤ i → values_of (t :: l) i = if decide (i = 0) then Some t else values_of l (i - 1).
Proof.
  intros Hi. unfold values_of. destruct (decide (0 ≤ i)); [|lia]. case_decide; [by subst|]. rewrite decide_True by lia.
  by replace (Z.to_nat i) with (S (Z.to_nat (i - 1))) by lia.
Qed.

(** [push_front] adds the value before the first. *)
Lemma wp_emplace_front w l t :
  holds (this w) l →
  wp (emplace_front t)
    (λ w' r, (Z.of_nat (length l) + 1 < m_allocated_size (this w) →
                m_allocated_size (this w') = m_allocated_size (this w) ∧
                match r with
                | inl _ => ∀ i, 0 ≤ i ≤ Z.of_nat (length l) → position (this w') (i + 1) = position (this w) i
                | inr _ => m_begin (this w') = m_begin (this w) end) ∧
      match r with
      | inl i => holds (this w') (t :: l) ∧ i = position (this w') 0 ∧ memory_grows w w' (length l)
      | inr e => holds (this w') l ∧ fails w e (length l)
      end) w.
Proof.
  intros Hh. pose proof (proj1 Hh) as [? ? ? ?]. unfold emplace_front. do 2 wp_step. wp_step.
  eapply buffer_mono; [by apply reserve_for_one|]. intros w1 [u|e]; cbv beta iota.
  2:{ intros (Hh1&Hthis&Ha&He). split; [lia|]. done. }
  intros (Hh1&Hroom&Hsame&Hgrow). pose proof Hh1 as [Hw1 Hl1]%holds_window. pose proof (proj1 Hw1) as [? ? ? ?].
  assert (m_size (this w) +w 1 = Z.of_nat (length l) + 1) as ->.
  { destruct Hh as (_&->&_). rewrite wadd_small by slia. done. }
  do 3 wp_step. apply buffer_assert; [lia|]. wp_step.
  set (n := m_allocated_size (this w1)) in *.
  assert (circular_dec (this w1) (m_begin (this w1)) = position (this w1) (n - 1)) as ->.
  { rewrite <-(position_0 (this w1)) by apply Hw1. rewrite circular_dec_position; [done|apply Hw1|]. fold n. lia. }
  eapply buffer_mono; [apply (wp_construct w1 _ (n - 1) t Hw1); [fold n; lia|apply values_of_None; lia]|].
  intros w2 [v|e]; cbv beta iota.
  2:{ intros (Hc2&Hfr&->&Hthis&Hcm). split.
      - intros Hlt. unfold n. rewrite Hthis, (Hsame Hlt). done.
      - rewrite Hthis. split; [done|]. right. right. eauto. }
  intros (Hc2&Hfr&Hw2). wp_steps. simpl. pose proof Hfr as (Eb&Es&Ea). fold n in Ea.
  assert (window (set_size (set_begin (this w2) (position (this w1) (n - 1))) (Z.of_nat (length l) + 1)) (values_of (t :: l))) as Hw3.
  { eapply window_ext.
    - apply window_size; simpl; [|lia|rewrite Ea; lia]. rewrite <-(position_frame _ _ _ Hfr). apply window_begin; [exact Hw2|]. rewrite Ea. lia.
    - simpl. intros i Hi. rewrite Ea in *. unfold rotated, set_cell. rewrite values_of_cons by lia.
      repeat case_decide; first [done|lia|f_equal; lia]. }
  split.
  { intros Hlt. pose proof (Hsame Hlt); subst w1; simpl. split; [by rewrite Ea|]. intros i Hi. unfold position. simpl. rewrite Ea. unfold position. fold n.
    repeat case_decide; lia. }
  split_and!.
  - apply holds_window. split; [done|]. simpl. lia.
  - rewrite position_0 by apply Hw3. done.
  - unfold memory_grows. simpl. rewrite Ea. destruct Hgrow as [->|(?&?&?)]; [left; lia|right]. split; [done|]. split; [done|]. lia.
Qed.

Definition unchanged w w' : Prop := constructed w' = constructed w ∧ m_allocated_size (this w') = m_allocated_size (this w).

Lemma wp_pop_front w l t :
  holds (this w) (t :: l) →
  wp pop_front (λ w' r, r = inl tt ∧ holds (this w') l ∧ unchanged w w' ∧
                  ∀ i, 0 ≤ i ≤ Z.of_nat (length l) → position (this w') i = position (this w) (i + 1)) w.
Proof.
  intros Hh. pose proof Hh as [Hw Hl]%holds_window. pose proof (proj1 Hw) as [? ? ? ?]. cbn [length] in Hl.
  unfold pop_front. do 3 wp_step. apply buffer_assert; [lia|]. wp_step. rewrite <-(position_0 (this w)) by apply Hw.
  eapply buffer_mono; [apply (wp_destroy_at w _ 0 t Hw); [lia|done]|]. intros w1 r (->&Hc1&Hfr&Hw1). cbv beta iota. wp_steps.
  pose proof Hfr as (Eb&Es&Ea). rewrite <-(position_0 (this w1)) by apply Hw1.
  rewrite circular_inc_position by (apply Hw1 || lia). rewrite decide_False by lia. change (0 + 1) with 1. rewrite Es, wsub_small by lia. split; [done|].
  simpl. split; [|split; [done|]].
  - apply holds_window. simpl. split; [|lia].
    eapply window_ext; [apply window_size; [apply window_begin; [exact Hw1|lia]|lia|simpl; lia]|].
    simpl. intros i Hi. rewrite Ea in *. unfold rotated, set_cell. destruct (decide (i + 1 < m_allocated_size (this w))).
    + rewrite decide_False, values_of_cons, decide_False by lia. f_equal. lia.
    + rewrite values_of_None with (l := l) by lia. rewrite decide_True by lia. done.
  - intros i Hi. unfold position; simpl; unfold position. rewrite ?Eb, ?Ea. repeat case_decide; lia.
Qed.

Lemma wp_pop_back w l t :
  holds (this w) (l ++ [t]) →
  wp pop_back (λ w' r, r = inl tt ∧ holds (this w') l ∧ unchanged w w' ∧ m_begin (this w') = m_begin (this w)) w.
Proof.
  intros Hh. pose proof Hh as [Hw Hl]%holds_window. pose proof (proj1 Hw) as [? ? ? ?]. rewrite length_app in Hl. simpl in Hl.
  unfold pop_back. do 3 wp_step. apply buffer_assert; [lia|]. wp_step. rewrite wsub_small by lia.
  rewrite wrap_position by (apply Hw || lia). replace (m_size (this w) - 1) with (Z.of_nat (length l)) by lia.
  eapply buffer_mono; [apply (wp_destroy_at w _ _ t Hw); [lia|]|].
  { unfold values_of. rewrite decide_True, Nat2Z.id by lia. by apply list_lookup_middle. }
  intros w1 r (->&Hc1&Hfr&Hw1). cbv beta iota. wp_steps. pose proof Hfr as (Eb&Es&Ea). split; [done|]. simpl.
  split; [|by split]. apply holds_window. simpl. split; [|done].
  eapply window_ext; [apply window_size; [exact Hw1|lia|lia]|]. simpl. intros i Hi. unfold set_cell.
  case_decide as E; [by rewrite values_of_None by lia|]. rewrite <-(set_cell_last l t) by lia. unfold set_cell. by rewrite decide_False.
Qed.

Lemma wp_clear w l :
  holds (this w) l →
  wp clear (λ w' r, r = inl tt ∧ holds (this w') [] ∧ m_begin (this w') = 0 ∧ unchanged w w') w.
Proof.
  intros Hh. unfold clear. wp_step. eapply buffer_mono; [by eapply wp_destroy|]. intros w1 r (->&Hc&Hfr&Hw1). wp_steps.
  split; [done|]. pose proof Hfr as (Eb&Es&Ea). pose proof (proj1 Hw1) as [? ? ? ?]. split; [|by split]. apply holds_window. split; [|done].
  split; [split; simpl; auto; lia|]. intros i Hi. change (0 ≤ i < m_allocated_size (this w1)) in Hi. simpl.
  rewrite values_of_None by (simpl; lia). unfold position. simpl. rewrite decide_True by lia. pose proof Hw1 as [Hs Hcells].
  destruct (decide (m_begin (this w1) ≤ i)).
  - rewrite <-(Hcells (i - m_begin (this w1))) by lia. do 2 f_equal. unfold position. case_decide; lia.
  - rewrite <-(Hcells (i - m_begin (this w1) + m_allocated_size (this w1))) by lia. do 2 f_equal. unfold position. case_decide; lia.
Qed.

Lemma wp_shrink_to_fit w l :
  holds (this w) l →
  wp shrink_to_fit (λ w' r, holds (this w') l ∧
    match r with
    | inl _ => m_allocated_size (this w') ≤ Z.of_nat (length l) + 1 ∨ w' = w
    | inr e => this w' = this w ∧ (e = bad_alloc ∧ (∃ m, allocates m = false) ∨ e = Thrown ∧ ∃ k, completes k = false)
    end) w.
Proof.
  intros Hh. pose proof Hh as [Hw Hl]%holds_window. pose proof (proj1 Hw) as [? ? ? ?]. unfold shrink_to_fit. do 2 wp_step.
  destruct (Z.ltb_spec 0 (m_size (this w))).
  - rewrite wadd_small by slia. case_test; [|wp_step; by auto]. eapply buffer_mono; [apply (wp_realloc w l _ Hh); lia|].
    intros w' r (Hh'&_&Hr). split; [done|]. destruct r; [left; destruct Hr; lia|done].
  - wp_step. simpl. split; [|left; lia]. destruct l; [|simpl in *; lia]. split; [split; simpl; lia|]. split; [simpl; lia|].
    intros i Hi. simpl in Hi. lia.
Qed.

(** Values are added at the end one by one. *)
Lemma wp_resize_loop fuel t : ∀ w l n,
  holds (this w) l → Z.of_nat (length l) < n < m_allocated_size (this w) → (Z.to_nat n - length l ≤ fuel)%nat →
  wp (resize_loop fuel (position (this w) (Z.of_nat (length l))) n t)
    (λ w' r, ∃ k, holds (this w') (l ++ replicate k t) ∧ Z.of_nat (length l + k) ≤ n ∧
      match r with
      | inl _ => Z.of_nat (length l + k) = n
      | inr e => e = Thrown
      end) w.
Proof.
  induction fuel as [|fuel IH]; intros w l n Hh Hn Hf; [lia|]. pose proof Hh as [Hw Hl]%holds_window.
  pose proof (proj1 Hw) as [? ? ? ?]. cbn [resize_loop]. wp_step.
  eapply buffer_mono; [apply (wp_construct w _ (Z.of_nat (length l)) t Hw); [lia|apply values_of_None; lia]|].
  intros w1 [v|e]; cbv beta iota.
  2:{ intros (_&_&->&->&_). exists 0%nat. rewrite app_nil_r. split; [done|]. split; [lia|done]. }
  intros (_&Hfr&Hw1). pose proof Hfr as (Eb&Es&Ea). wp_steps. simpl. rewrite Es, Hl, wadd_small by slia.
  assert (holds (set_size (this w1) (Z.of_nat (length l) + 1)) (l ++ [t])) as Hh2.
  { apply holds_window. simpl. split; [|rewrite length_app; simpl; lia].
    eapply window_ext; [apply window_size; [exact Hw1|lia|rewrite Ea; lia]|]. intros i Hi. apply set_cell_last. lia. }
  destruct (Z.ltb_spec (Z.of_nat (length l) + 1) n).
  - eapply buffer_mono.
    + lazymatch goal with |- wp _ _ ?w2 => specialize (IH w2 (l ++ [t]) n Hh2) end. rewrite length_app in IH. simpl in IH.
      replace (circular_inc (this w1) (position (this w) (Z.of_nat (length l))))
        with (position (this w1) (Z.of_nat (length l + 1))).
      { apply IH; [rewrite Ea|]; lia. }
      rewrite <-(position_frame _ _ _ Hfr), circular_inc_position by (apply Hw1 || lia). rewrite decide_False by lia. f_equal. lia.
    + intros w2 r (k&Hk). exists (S k). rewrite <-app_assoc in Hk. simpl in Hk.
      replace (length l + S k)%nat with (length l + 1 + k)%nat by lia. done.
  - wp_step. exists 1%nat. simpl. split; [done|]. lia.
Qed.

(** [resize] to a size that is not smaller, or to none *)
Lemma wp_resize w l n t :
  holds (this w) l → n = 0 ∨ Z.of_nat (length l) ≤ n ≤ npos →
  wp (resize n t)
    (λ w' r, match r with
             | inl _ => holds (this w') (if decide (n = 0) then [] else l ++ replicate (Z.to_nat n - length l) t)
             | inr e => Z.of_nat (length l) < n ∧ ∃ k, holds (this w') (l ++ replicate k t) ∧ Z.of_nat (length l + k) ≤ n
             end) w.
Proof.
  intros Hh Hn. pose proof Hh as [Hw Hl]%holds_window. pose proof (proj1 Hw) as [? ? ? ?]. unfold resize. do 2 wp_step.
  destruct (Z.leb_spec n (m_size (this w))) as [Hle|Hgt].
  - wp_step. destruct (decide (n = 0)) as [->|Hn0].
    + eapply buffer_mono; [by eapply wp_destroy|]. intros w1 r (->&Hc&Hfr&Hw1). wp_steps. simpl. apply holds_window. split; [|done].
      pose proof (proj1 Hw1) as [? ? ? ?]. eapply window_ext; [apply window_size; [exact Hw1|lia|lia]|].
      intros i Hi. by rewrite values_of_None by (simpl; lia).
    + replace n with (m_size (this w)) by lia. unfold destroy. do 2 wp_step. eapply buffer_mono.
      * apply (wp_destroy_loop _ w (values_of l) _ _ 0); [done|lia..].
      * intros w1 r (->&Hc&Hfr&Hw1). pose proof Hfr as (Eb&Es&Ea). wp_steps. simpl. apply holds_window.
        replace (Z.to_nat (m_size (this w)) - length l)%nat with 0%nat by lia. simpl. rewrite app_nil_r. split; [|done].
        eapply window_ext; [apply window_size; [exact Hw1|lia|lia]|]. intros i Hi. cbv beta. by rewrite decide_False by lia.
  - wp_step. eapply buffer_mono; [apply (wp_reserve w l n Hh); lia|]. intros w1 [u|e]; cbv beta iota.
    2:{ intros (Hh1&_&Hthis&Ha&_). split; [lia|]. exists 0%nat. rewrite app_nil_r. split; [done|lia]. }
    intros (Hh1&_&Hroom&_&_). pose proof Hh1 as [Hw1 Hl1]%holds_window. pose proof (proj1 Hw1) as [? ? ? ?]. do 2 wp_step.
    rewrite Hl1, wrap_position by (apply Hw1 || lia). eapply buffer_mono; [apply (wp_resize_loop _ t w1 l n Hh1); lia|].
    intros w2 [v|e] (k&Hk&Hkn&Hr).
    + rewrite decide_False by lia. by replace (Z.to_nat n - length l)%nat with k by lia.
    + split; [lia|]. by exists k.
Qed.
End Calls.
