(* ===== verification/CircularBufferProps.v ===== *)
(** The properties of [CircularBuffer]: any sequence of calls is that of a list,
    iterators, the cost of insertions, and what [resize] to a smaller size does. *)
From S2P Require Import Prelude SafeInt CircularBuffer CircularBufferTheory.
Import CircularBuffer.

Section Access.
Context {T : Type} {elements : Elements T}.
Implicit Types (b : CircularBuffer T) (l : list T) (w : World T).

(** ** Iterators *)
Lemma end_position b l : holds b l → end_ b = position b (Z.of_nat (length l)).
Proof.
  intros Hh. pose proof Hh as (Hs&Hl&_). pose proof Hs as [? ? ? ?]. unfold end_. rewrite Hl.
  destruct (decide (m_allocated_size b = 0)) as [E|].
  - replace (Z.of_nat (length l)) with 0 by lia. by rewrite wrap_empty, position_0.
  - apply wrap_position; [done|lia].
Qed.

Lemma unwrap_index b l i : holds b l → 0 ≤ i ≤ Z.of_nat (length l) → unwrap b (position b i) = i.
Proof.
  intros (Hs&Hl&_) Hi. pose proof Hs as [? ? ? ?]. destruct (decide (m_allocated_size b = 0)) as [E|].
  - replace i with 0 by lia. rewrite position_0 by done. unfold unwrap. rewrite (proj2 (Z.leb_le _ _)) by lia.
    rewrite wsub_small by slia. lia.
  - apply unwrap_position; [done|lia].
Qed.

Lemma wrap_index b l i : holds b l → 0 ≤ i ≤ Z.of_nat (length l) → wrap b i = position b i.
Proof.
  intros (Hs&Hl&_) Hi. pose proof Hs as [? ? ? ?]. destruct (decide (m_allocated_size b = 0)) as [E|].
  - replace i with 0 by lia. by rewrite wrap_empty, position_0.
  - apply wrap_position; [done|lia].
Qed.

Lemma position_index_inj b l i j : holds b l → 0 ≤ i ≤ Z.of_nat (length l) → 0 ≤ j ≤ Z.of_nat (length l) →
  position b i = position b j → i = j.
Proof. intros Hh Hi Hj E. by rewrite <-(unwrap_index b l i), <-(unwrap_index b l j), E. Qed.

Lemma iter_load_index b l i : holds b l → 0 ≤ i ≤ Z.of_nat (length l) → iter_load b (position b i) = l !! Z.to_nat i.
Proof.
  intros Hh Hi. pose proof Hh as (Hs&Hl&Hc). pose proof Hs as [? ? ? ?]. unfold iter_load.
  destruct (decide (m_allocated_size b = 0)) as [E|].
  - destruct (m_memory_owner b); [|simpl in *; lia]. rewrite lookup_nil. by rewrite lookup_ge_None_2 by lia.
  - rewrite Hc by lia. unfold values_of. rewrite decide_True by lia. by destruct (l !! Z.to_nat i).
Qed.

Lemma iter_inc_index b l i : holds b l → 0 ≤ i < Z.of_nat (length l) → iter_inc b (position b i) = position b (i + 1).
Proof.
  intros (Hs&Hl&_) Hi. pose proof Hs as [? ? ? ?]. unfold iter_inc. rewrite circular_inc_position by (done || lia).
  by rewrite decide_False by lia.
Qed.

Lemma values_spec b l fuel : ∀ i, holds b l → (length l - i < fuel)%nat → (i ≤ length l)%nat →
  values fuel b (position b (Z.of_nat i)) (end_ b) = Some (drop i l).
Proof.
  induction fuel as [|fuel IH]; intros i Hh Hf Hi; [lia|]. cbn [values]. rewrite (end_position b l) by done.
  destruct (Z.eqb_spec (position b (Z.of_nat i)) (position b (Z.of_nat (length l)))) as [E|Hne].
  - apply (position_index_inj b l) in E; [|done|lia..]. rewrite drop_ge by lia. done.
  - assert (i ≠ length l) as Hil by congruence. rewrite (iter_load_index b l) by (done || lia). rewrite Nat2Z.id.
    destruct (lookup_lt_is_Some_2 l i) as [t Ht]; [lia|]. rewrite Ht. cbn [mbind option_bind].
    rewrite (iter_inc_index b l) by (done || lia). replace (Z.of_nat i + 1) with (Z.of_nat (S i)) by lia.
    rewrite <-(end_position b l), IH by (done || lia). by rewrite (drop_S l t i).
Qed.

Lemma contents_spec b l : holds b l → contents b = Some l.
Proof.
  intros Hh. unfold contents, begin. rewrite <-(position_0 b) by apply Hh. change 0 with (Z.of_nat 0).
  rewrite (values_spec b l); [done|done| |lia]. destruct Hh as (_&->&_). lia.
Qed.

Lemma convert_shift i k : 0 ≤ i + k ≤ npos → i +w convert size_t k = i + k.
Proof.
  intros H. rewrite <-(wrap_small (i + k)) by done. unfold wadd, convert. simpl. change (2 ^ 64) with size_modulus.
  unfold Prelude.wrap. by rewrite Zplus_mod_idemp_r.
Qed.

Lemma convert_shift_back i k : 0 ≤ i ≤ npos → (i + k) -w convert size_t k = i.
Proof.
  intros H. rewrite <-(wrap_small i) at 2 by done. unfold wsub, convert. simpl. change (2 ^ 64) with size_modulus.
  unfold Prelude.wrap. rewrite Zminus_mod_idemp_r. f_equal. lia.
Qed.

(** C14: functional behaviour.  The iterators of a buffer that holds a list are its
    indices: from [begin] to [end], an iterator that is moved by any distance, back
    and forth, is the one at that index; it refers to the value there, distances
    and comparisons are those of indices, and the iterators of different indices
    differ, so that the values between [begin] and [end] are the list. *)
Theorem iterators_are_indices b l i k :
  holds b l → Z.of_nat (length l) < 2 ^ 63 → 0 ≤ i ≤ Z.of_nat (length l) → 0 ≤ i + k ≤ Z.of_nat (length l) →
  begin b = position b 0 ∧ end_ b = position b (Z.of_nat (length l)) ∧ contents b = Some l ∧
  iter_load b (position b i) = l !! Z.to_nat i ∧
  iter_add b (position b i) k = position b (i + k) ∧ iter_sub b (position b (i + k)) k = position b i ∧
  (i < Z.of_nat (length l) → iter_inc b (position b i) = position b (i + 1)) ∧
  (0 < i → iter_dec b (position b i) = position b (i - 1)) ∧
  iter_diff b (position b (i + k)) (position b i) = Some k ∧
  iter_lt b (position b i) (position b (i + k)) = (0 <? k) ∧
  (position b (i + k) = position b i ↔ k = 0).
Proof.
  intros Hh Hlen Hi Hk. pose proof Hh as (Hs&Hl&_). pose proof Hs as [? ? ? ?].
  split; [unfold begin; by rewrite position_0|]. split; [by apply end_position|]. split; [by apply contents_spec|].
  split; [by apply iter_load_index|].
  split; [unfold iter_add; rewrite (unwrap_index b l), convert_shift by (done || slia); by apply (wrap_index b l)|].
  split; [unfold iter_sub; rewrite (unwrap_index b l), convert_shift_back by (done || slia); by apply (wrap_index b l)|].
  split; [intros; apply (iter_inc_index b l); [done|lia]|].
  split; [intros; unfold iter_dec; rewrite circular_dec_position, decide_False by (done || lia); done|].
  split; [|split].
  - unfold iter_diff. rewrite !(unwrap_index b l) by done.
    replace ((i + k) -w i) with (k mod 2 ^ digits size_t)
      by (unfold wsub, Prelude.wrap; change (2 ^ digits size_t) with size_modulus; f_equal; lia).
    apply from_twos_compl_convert; [by_decision|done..|]. unfold in_type, min_value, max_value. simpl. lia.
  - unfold iter_lt. rewrite !(unwrap_index b l) by done. case_tests.
  - split; [intros E; apply (position_index_inj b l) in E; [lia|done|lia..]|intros ->; f_equal; lia].
Qed.

(** ** References *)
Lemma wp_read_index w l i :
  holds (this w) l → 0 ≤ i →
  wp (r <- at_ i; load r) (λ w' r, w' = w ∧ r = match l !! Z.to_nat i with Some t => inl t | None => inr out_of_range end) w.
Proof.
  intros Hh Hi. pose proof Hh as (Hs&Hl&Hc). unfold at_, index, load, read. do 3 wp_step.
  destruct (Z.ltb_spec i (m_size (this w))).
  - do 3 wp_step. apply buffer_assert; [by apply Z.ltb_lt|]. wp_steps. rewrite (wrap_index _ l) by (done || lia).
    destruct (values_of_Some l i) as (t&Ht&->); [lia|]. rewrite Hc by (destruct Hs; lia). rewrite Ht. by wp_steps.
  - wp_steps. by rewrite lookup_ge_None_2 by lia.
Qed.

Lemma wp_store_index w l i t :
  holds (this w) l → 0 ≤ i < Z.of_nat (length l) →
  wp (r <- index i; store r t) (λ w' r, r = inl tt ∧ holds (this w') (<[Z.to_nat i := t]> l)) w.
Proof.
  intros Hh Hi. pose proof Hh as (Hs&Hl&Hc). pose proof Hs as [? ? ? ?]. unfold index, store, load, read. do 4 wp_step.
  apply buffer_assert; [lia|]. wp_steps. rewrite (wrap_index _ l) by (done || lia).
  destruct (values_of_Some l i) as (u&Hu&_); [lia|]. rewrite Hc by lia. rewrite Hu. wp_steps. split; [done|].
  apply holds_window. rewrite length_insert. split; [|done]. eapply window_ext; [apply window_set; [by split|lia]|].
  intros j Hj. change (0 ≤ j < m_allocated_size (this w)) in Hj. unfold set_cell, values_of. case_decide as E.
  - subst j. rewrite decide_True, list_lookup_insert_eq by lia. done.
  - destruct (decide (0 ≤ j)); [|done]. rewrite list_lookup_insert_ne by lia. done.
Qed.
End Access.

(** ** Any sequence of calls *)
Section Copies.
Context {T : Type} {elements : Elements T}.
Implicit Types (b buffer : CircularBuffer T) (l : list T) (w : World T).

Lemma wp_copy_loop l2 : ∀ w l1,
  holds (this w) l1 → m_begin (this w) = 0 → (l2 ≠ [] → Z.of_nat (length l1 + length l2) < m_allocated_size (this w)) →
  wp (copy_loop l2)
    (λ w' r, match r with
             | inl _ => holds (this w') (l1 ++ l2)
             | inr _ => ∃ k, holds (this w') (l1 ++ take k l2)
             end) w.
Proof.
  induction l2 as [|t l2 IH]; intros w l1 Hh Hb Ha; cbn [copy_loop].
  { wp_step. by rewrite app_nil_r. }
  pose proof Hh as [Hw Hl]%holds_window. pose proof (proj1 Hw) as [? ? ? ?]. cbn [length] in Ha. specialize (Ha ltac:(done)).
  do 3 wp_step. assert (m_size (this w) = position (this w) (Z.of_nat (length l1))) as E.
  { unfold position. rewrite decide_True by lia. lia. }
  rewrite E. eapply buffer_mono; [apply (wp_construct w _ _ t Hw); [lia|apply values_of_None; lia]|].
  intros w1 [v|e]; cbv beta iota.
  2:{ intros (_&_&_&->&_). exists 0%nat. by rewrite app_nil_r. }
  intros (_&Hfr&Hw1). pose proof Hfr as (Eb&Es&Ea). wp_steps. rewrite Es, Hl, wadd_small by slia.
  assert (holds (set_size (this w1) (Z.of_nat (length l1) + 1)) (l1 ++ [t])) as Hh2.
  { apply holds_window. simpl. split; [|rewrite length_app; simpl; lia].
    eapply window_ext; [apply window_size; [exact Hw1|lia|rewrite Ea; lia]|]. intros i Hi. apply set_cell_last. lia. }
  eapply buffer_mono; [apply (IH (mkWorld _ (constructed w1)) (l1 ++ [t]) Hh2); simpl; [lia|rewrite length_app, Ea; simpl; lia]|].
  intros w2 [u|e]; [by rewrite <-app_assoc|]. intros [k Hk]. exists (S k). by rewrite <-app_assoc in Hk.
Qed.

Lemma wp_copy w l :
  holds (this w) [] → m_begin (this w) = 0 → Z.of_nat (length l) ≤ npos →
  wp (copy l)
    (λ w' r, match r with inl _ => holds (this w') l | inr _ => ∃ k, holds (this w') (take k l) end) w.
Proof.
  intros Hh Hb Hn. pose proof Hh as (_&Hl&_). simpl in Hl. unfold copy. do 3 wp_step. apply buffer_assert; [lia|]. wp_step.
  apply buffer_assert; [lia|]. wp_step. eapply buffer_mono; [apply (wp_reserve w [] _ Hh); lia|]. intros w1 [u|e]; cbv beta iota.
  2:{ intros (Hh1&_). exists 0%nat. done. }
  intros (Hh1&_&Hroom&Hbegin&_). eapply buffer_mono; [apply (wp_copy_loop l w1 [] Hh1)|done].
  - by destruct Hbegin as [->|?].
  - intros ?. simpl. destruct l; [done|]. apply Hroom. simpl. lia.
Qed.

Lemma wp_assign w l l2 :
  holds (this w) l → Z.of_nat (length l2) ≤ npos →
  wp (clear;; copy l2)
    (λ w' r, match r with inl _ => holds (this w') l2 | inr _ => ∃ k, holds (this w') (take k l2) end) w.
Proof.
  intros Hh Hn. wp_step. eapply buffer_mono; [by eapply wp_clear|]. intros w1 r (->&Hh1&Hb&_). by apply wp_copy.
Qed.

(** [operator=] of another buffer copies its values; that of the buffer itself
    loses them. *)
Lemma wp_copy_assign w l buffer l2 :
  holds (this w) l → holds buffer l2 →
  wp (copy_assign (Other buffer))
    (λ w' r, match r with inl _ => holds (this w') l2 | inr _ => ∃ k, holds (this w') (take k l2) end) w.
Proof.
  intros Hh Hb. unfold copy_assign. wp_step. eapply buffer_mono; [by eapply wp_clear|]. intros w1 r (->&Hh1&Hb1&_).
  do 2 wp_step. rewrite (contents_spec _ l2) by done. apply wp_copy; [done..|]. destruct Hb as ([]&?&_). lia.
Qed.

Lemma wp_copy_assign_itself w l :
  holds (this w) l → wp (copy_assign Itself) (λ w' r, match r with inl _ => holds (this w') [] | inr _ => False end) w.
Proof.
  intros Hh. unfold copy_assign. wp_step. eapply buffer_mono; [by eapply wp_clear|]. intros w1 r (->&Hh1&Hb1&_).
  do 2 wp_step. rewrite (contents_spec _ []) by done. unfold copy. do 3 wp_step.
  apply buffer_assert; [lia|]. wp_step. apply buffer_assert; [destruct Hh1 as (_&?&_); simpl in *; lia|]. wp_step.
  unfold reserve. simpl. by wp_steps.
Qed.

(** The memory of a window without values has none anywhere. *)
Lemma window_dead b : window b (λ _, None) → Forall (λ x, x = None) (m_memory_owner b).
Proof.
  intros [[] Hc]. apply Forall_lookup. intros p x Hp. pose proof (lookup_lt_Some _ _ _ Hp).
  set (i := if decide (m_begin b ≤ Z.of_nat p) then Z.of_nat p - m_begin b else Z.of_nat p - m_begin b + m_allocated_size b).
  assert (0 ≤ i < m_allocated_size b) as Hi by (unfold i; case_decide; lia). specialize (Hc i Hi).
  replace (Z.to_nat (position b i)) with p in Hc by (unfold position, i; repeat case_decide; lia). congruence.
Qed.

(** A constructor that throws leaves no value alive. *)
Definition dead w : Prop := Forall (λ x, x = None) (m_memory_owner (this w)).

Lemma wp_constructor (m : M T unit) w l :
  wp m (λ w' r, match r with inl _ => holds (this w') l | inr _ => ∃ l', holds (this w') l' end) w →
  wp (rethrow m (destroy 0)) (λ w' r, match r with inl _ => holds (this w') l | inr _ => dead w' end) w.
Proof.
  intros Hm. apply wp_rethrow. eapply buffer_mono; [exact Hm|]. intros w1 [u|e]; [done|]. intros [l' Hh].
  eapply buffer_mono; [by eapply wp_destroy|]. intros w2 r (->&_&_&Hd). split; [done|]. by apply window_dead.
Qed.

Lemma default_holds : holds (default_buffer (T := T)) [].
Proof. split; [split; simpl; slia|]. split; [done|]. intros i Hi. simpl in Hi. lia. Qed.

Lemma wp_construct_range l n : Z.of_nat (length l) ≤ npos →
  wp (construct_range l) (λ w' r, match r with inl _ => holds (this w') l | inr _ => dead w' end) (mkWorld default_buffer n).
Proof.
  intros Hl. apply wp_constructor. eapply buffer_mono; [apply wp_copy; [apply default_holds|done..]|].
  intros w' [u|e]; [done|]. intros [k H]. eauto.
Qed.

Lemma wp_construct_fill count t n : 0 ≤ count ≤ npos →
  wp (construct_fill count t)
    (λ w' r, match r with inl _ => holds (this w') (replicate (Z.to_nat count) t) | inr _ => dead w' end)
    (mkWorld default_buffer n).
Proof.
  intros Hc. apply wp_constructor. eapply buffer_mono; [apply (wp_resize _ []); [apply default_holds|simpl; lia]|].
  intros w' [u|e].
  - case_decide as E; [by subst|]. simpl. by rewrite Nat.sub_0_r.
  - intros (_&k&H&_). eauto.
Qed.
End Copies.

Section Sequences.
Context {T : Type} {elements : Elements T}.
Implicit Types (b buffer : CircularBuffer T) (l : list T) (w : World T).

Inductive Call :=
  | PushFront (t : T) | PushBack (t : T) | PopFront | PopBack | Clear | Reserve (capacity : Z) | ShrinkToFit
  | Resize (size : Z) (value : T) | Assign (l : list T) | CopyAssign (src : Source (T := T)) | Store (i : Z) (value : T).

Definition run_call (c : Call) : M T unit :=
  match c with
  | PushFront t => push_front t;; ret tt
  | PushBack t => push_back t;; ret tt
  | PopFront => pop_front
  | PopBack => pop_back
  | Clear => clear
  | Reserve n => reserve n
  | ShrinkToFit => shrink_to_fit
  | Resize n t => resize n t
  | Assign l => assign l
  | CopyAssign src => copy_assign src
  | Store i t => r <- index i; store r t
  end.

Fixpoint run_calls (cs : list Call) : M T unit :=
  match cs with [] => ret tt | c :: cs => run_call c;; run_calls cs end.

(** *** The list that a call makes of a list *)
Definition effect (c : Call) l : list T :=
  match c with
  | PushFront t => t :: l
  | PushBack t => l ++ [t]
  | PopFront => tail l
  | PopBack => take (pred (length l)) l
  | Clear => []
  | Reserve _ | ShrinkToFit => l
  | Resize n t => if decide (n = 0) then [] else l ++ replicate (Z.to_nat n - length l) t
  | Assign l' => l'
  | CopyAssign (Other buffer) => default [] (contents buffer)
  | CopyAssign Itself => l
  | Store i t => <[Z.to_nat i := t]> l
  end.

(** What can be left of a list when the call throws *)
Definition interrupted (c : Call) l l' : Prop :=
  match c with
  | PushFront _ | PushBack _ | Reserve _ | ShrinkToFit => l' = l
  | Resize n t => ∃ k, l' = l ++ replicate k t
  | Assign l1 => ∃ k, l' = take k l1
  | CopyAssign (Other buffer) => ∃ k, l' = take k (default [] (contents buffer))
  | _ => False
  end.

(** The calls a list can be given.  Two are left out that do not do to a buffer what
    they do to a list: [resize] to a smaller size other than 0, which destroys
    values at the front ([resize_smaller_destroys_front]), and the assignment of a
    buffer to itself, which empties it ([wp_copy_assign_itself]). *)
Definition allowed (c : Call) l : Prop :=
  match c with
  | PopFront | PopBack => l ≠ []
  | Reserve n => 0 ≤ n ≤ npos
  | Resize n _ => n = 0 ∨ Z.of_nat (length l) ≤ n ≤ npos
  | Assign l1 => Z.of_nat (length l1) ≤ npos
  | CopyAssign (Other buffer) => ∃ l1, holds buffer l1
  | CopyAssign Itself => False
  | Store i _ => 0 ≤ i < Z.of_nat (length l)
  | _ => True
  end.

Fixpoint allowed_run (cs : list Call) l : Prop :=
  match cs with [] => True | c :: cs => allowed c l ∧ allowed_run cs (effect c l) end.

Lemma buffer_call c w l :
  holds (this w) l → allowed c l →
  wp (run_call c) (λ w' r, match r with
                           | inl _ => holds (this w') (effect c l)
                           | inr _ => ∃ l', interrupted c l l' ∧ holds (this w') l'
                           end) w.
Proof.
  intros Hh Ha. destruct c as [t|t| | | |n| |n t|l1|[buffer|]|i t]; cbn [run_call effect interrupted allowed] in *.
  - wp_step. eapply buffer_mono; [by eapply wp_emplace_front|]. intros w' [i|e] [_ H]; [by wp_steps; apply H|]. exists l. by split; [|apply H].
  - wp_step. eapply buffer_mono; [by eapply wp_emplace_back|]. intros w' [i|e] [_ H]; [by wp_steps; apply H|]. exists l. by split; [|apply H].
  - destruct l as [|t l]; [done|]. eapply buffer_mono; [by apply (wp_pop_front w l t)|]. by intros w' r (->&H&_).
  - destruct (destruct_last l Ha) as (l'&t&->). eapply buffer_mono; [by apply (wp_pop_back w l' t)|]. intros w' r (->&H&_).
    replace (pred (length (l' ++ [t]))) with (length l') by (rewrite length_app; simpl; lia). by rewrite take_app_length.
  - eapply buffer_mono; [by eapply wp_clear|]. by intros w' r (->&H&_).
  - eapply buffer_mono; [by apply (wp_reserve w l n Hh)|]. intros w' [i|e] (H&_); [done|]. by exists l.
  - eapply buffer_mono; [by eapply wp_shrink_to_fit|]. intros w' [i|e] (H&_); [done|]. by exists l.
  - eapply buffer_mono; [by eapply wp_resize|]. intros w' [i|e]; [done|]. intros (_&k&H&_). eexists. split; [|exact H]. by exists k.
  - eapply buffer_mono; [by eapply wp_assign|]. intros w' [i|e]; [done|]. intros [k H]. eexists. split; [|exact H]. by exists k.
  - destruct Ha as [l1 Hb]. rewrite (contents_spec _ l1) by done. eapply buffer_mono; [by eapply wp_copy_assign|].
    intros w' [i|e]; [done|]. intros [k H]. eexists. split; [|exact H]. by exists k.
  - done.
  - eapply buffer_mono; [by eapply wp_store_index|]. by intros w' r (->&H).
Qed.

Lemma wp_calls cs : ∀ w l,
  holds (this w) l → allowed_run cs l →
  wp (run_calls cs) (λ w' r, ∃ l', holds (this w') l' ∧
    match r with
    | inl _ => l' = foldl (λ l c, effect c l) l cs
    | inr _ => ∃ cs1 c cs2, cs = cs1 ++ c :: cs2 ∧ interrupted c (foldl (λ l c, effect c l) l cs1) l'
    end) w.
Proof.
  induction cs as [|c cs IH]; intros w l Hh Ha; cbn [run_calls].
  { wp_step. by exists l. }
  destruct Ha as [Hc Ha]. wp_step. eapply buffer_mono; [by eapply buffer_call|]. intros w1 [u|e]; cbv beta iota.
  - intros Hh1. eapply buffer_mono; [by apply IH|]. intros w2 r (l'&Hh2&Hr). exists l'. split; [done|]. destruct r; [done|].
    destruct Hr as (cs1&c'&cs2&->&Hi). by exists (c :: cs1), c', cs2.
  - intros (l'&Hi&Hh1). exists l'. split; [done|]. by exists [], c, cs.
Qed.

(** C12: refinement.  A buffer behaves as a list through any sequence of calls
    that does not resize it to a smaller size other than 0 or assign it to itself,
    the two calls that go wrong, pop from an empty buffer or store outside of it.
    Every call on a buffer that holds a list is defined: no value is read or
    destroyed that is not alive, none constructed over one that is.  It leaves the
    list the call makes of it; a call that throws, because a constructor does or
    memory is not to be had, leaves the list as it was, or for [resize] and the
    assignments a first part of the new one.  The destructor then destroys every
    value, wherever the calls ended. *)
Theorem buffer_refines_deque cs w l :
  holds (this w) l → allowed_run cs l →
  wp (run_calls cs) (λ w' r,
    (∃ l', holds (this w') l' ∧ contents (this w') = Some l' ∧
       match r with
       | inl _ => l' = foldl (λ l c, effect c l) l cs
       | inr _ => ∃ cs1 c cs2, cs = cs1 ++ c :: cs2 ∧ interrupted c (foldl (λ l c, effect c l) l cs1) l'
       end) ∧
    wp (destroy 0) (λ w'' r, r = inl tt ∧ Forall (λ x, x = None) (m_memory_owner (this w''))) w') w.
Proof.
  intros Hh Ha. eapply buffer_mono; [by eapply wp_calls|]. intros w' r (l'&Hh'&Hr). split.
  - exists l'. split; [done|]. split; [by apply contents_spec|done].
  - eapply buffer_mono; [by eapply wp_destroy|]. intros w'' r' (->&_&_&Hd). split; [done|]. by apply window_dead.
Qed.
End Sequences.

Section Guarantees.
Context {T : Type} {elements : Elements T}.
Implicit Types (b : CircularBuffer T) (l : list T) (w : World T).

Lemma room w l : holds (this w) l → size (this w) < capacity (this w) → Z.of_nat (length l) + 1 < m_allocated_size (this w).
Proof.
  intros (Hs&Hl&_). pose proof Hs as [? ? ? ?]. unfold size, capacity. case_test; [|lia]. rewrite wsub_small by slia. lia.
Qed.

Lemma capacity_same b b' : m_allocated_size b' = m_allocated_size b → capacity b' = capacity b.
Proof. unfold capacity. by intros ->. Qed.

Lemma position_same b b' i :
  m_begin b' = m_begin b → m_allocated_size b' = m_allocated_size b → position b' i = position b i.
Proof. unfold position. by intros -> ->. Qed.

Lemma fails_with_room w e n :
  Z.of_nat n + 1 < m_allocated_size (this w) → m_allocated_size (this w) ≤ npos → fails w e n → e = Thrown ∧ ∃ k, completes k = false.
Proof. intros ?? [[_ ?]|[[_ [? _]]|?]]; [lia|lia|done]. Qed.

(** C15: functional behaviour.  What the buffer guarantees of its memory and its
    iterators: while there is room, insertions do not reallocate and throw only if
    a constructor does; iterators stay at their values, and the end becomes the one
    of a value added there.  Removals keep the capacity; the other iterators stay
    valid, and that of a value removed at the end becomes the end. *)
Theorem iterators_stay_valid w l t :
  holds (this w) l →
  (size (this w) < capacity (this w) →
     wp (push_back t) (λ w' r, capacity (this w') = capacity (this w) ∧
       (∀ i, 0 ≤ i ≤ Z.of_nat (length l) → position (this w') i = position (this w) i) ∧
       match r with inl reference => reference = end_ (this w) | inr e => e = Thrown ∧ ∃ k, completes k = false end) w ∧
     wp (push_front t) (λ w' r, capacity (this w') = capacity (this w) ∧
       match r with
       | inl _ => ∀ i, 0 ≤ i ≤ Z.of_nat (length l) → position (this w') (i + 1) = position (this w) i
       | inr e => (∀ i, position (this w') i = position (this w) i) ∧ e = Thrown ∧ ∃ k, completes k = false
       end) w) ∧
  (∀ x l', l = x :: l' →
     wp pop_front (λ w' r, r = inl tt ∧ capacity (this w') = capacity (this w) ∧
       ∀ i, 0 ≤ i ≤ Z.of_nat (length l') → position (this w') i = position (this w) (i + 1)) w) ∧
  (∀ x l', l = l' ++ [x] →
     wp pop_back (λ w' r, r = inl tt ∧ capacity (this w') = capacity (this w) ∧
       end_ (this w') = position (this w) (Z.of_nat (length l')) ∧
       ∀ i, 0 ≤ i ≤ Z.of_nat (length l') → position (this w') i = position (this w) i) w).
Proof.
  intros Hh. pose proof (proj1 Hh) as [? ? ? ?]. split; [|split].
  - intros Hroom. pose proof (room _ _ Hh Hroom) as Hr. split.
    + eapply buffer_mono; [by eapply wp_emplace_back|]. intros w' r [Hsame H]. destruct (Hsame Hr) as [Eb Ea].
      split; [by apply capacity_same|]. split; [intros; by apply position_same|]. destruct r as [i|e].
      * destruct H as (_&->&_). rewrite (end_position _ l) by done. by apply position_same.
      * by apply (fails_with_room w e (length l)); [| |apply H].
    + eapply buffer_mono; [by eapply wp_emplace_front|]. intros w' r [Hsame H]. destruct (Hsame Hr) as [Ea Hpos].
      split; [by apply capacity_same|]. destruct r as [i|e]; [done|]. split; [intros; by apply position_same|].
      by apply (fails_with_room w e (length l)); [| |apply H].
  - intros x l' ->. eapply buffer_mono; [by eapply wp_pop_front|]. intros w' r (->&_&[_ Ea]&Hpos). split; [done|].
    split; [by apply capacity_same|done].
  - intros x l' ->. eapply buffer_mono; [by eapply wp_pop_back|]. intros w' r (->&Hh'&[_ Ea]&Eb). split; [done|].
    split; [by apply capacity_same|]. split; [|intros; by apply position_same]. rewrite (end_position _ l') by done.
    by apply position_same.
Qed.

(** *** The cost of insertions *)
Definition is_push (c : Call (T := T)) : bool := match c with PushFront _ | PushBack _ => true | _ => false end.
Definition is_deque_call (c : Call (T := T)) : bool :=
  match c with PushFront _ | PushBack _ | PopFront | PopBack | Clear => true | _ => false end.
Definition pushes (cs : list (Call (T := T))) : nat := length (filter (λ c, is_push c = true) cs).

(** After [p] insertions *)
Definition within_budget (p : nat) w l : Prop :=
  holds (this w) l ∧ (length l ≤ p)%nat ∧ m_allocated_size (this w) ≤ 2 * Z.of_nat p ∧
  Z.of_nat (constructed w) ≤ Z.of_nat p + m_allocated_size (this w).

Hypothesis always_completes : ∀ n, completes n = true.
Hypothesis always_allocates : ∀ n, allocates n = true.

Lemma push_within_budget p w w' l l' :
  within_budget p w l → Z.of_nat p < 2 ^ 60 → holds (this w') l' → length l' = S (length l) →
  memory_grows w w' (length l) → within_budget (S p) w' l'.
Proof.
  intros (Hh&Hl&Ha&Hc) Hp Hh' Hl' Hg. pose proof Hh as (Hs&Hsz&_). pose proof Hs as [? ? ? ?].
  split; [done|]. split; [lia|]. destruct Hg as [[-> ?]|(Hfull&Hgrow&?)]; [lia|]. rewrite Hgrow by slia. lia.
Qed.

(** A call within a deque's interface *)
Lemma call_within_budget c p w l :
  within_budget p w l → Z.of_nat p < 2 ^ 60 → is_deque_call c = true → allowed c l →
  wp (run_call c) (λ w' r, r = inl tt ∧ within_budget (if is_push c then S p else p) w' (effect c l)) w.
Proof.
  intros Hb Hp Hd Ha. pose proof Hb as (Hh&Hl&Hal&Hc). pose proof Hh as (Hs&Hsz&_). pose proof Hs as [? ? ? ?].
  assert (∀ e, ¬ fails w e (length l)) as Hnofail.
  { intros e [[_ ?]|[[_ [_ [m Hm]]]|[_ [m Hm]]]]; [slia|by rewrite always_allocates in Hm|by rewrite always_completes in Hm]. }
  destruct c as [t|t| | | | | | | | |]; cbn [is_push is_deque_call run_call effect allowed] in *; try done.
  - wp_step. eapply buffer_mono; [by eapply wp_emplace_front|]. intros w' [i|e] [_ H]; [|exfalso; by apply (Hnofail e), H].
    wp_steps. split; [done|]. by eapply (push_within_budget p w); [| |apply H| |apply H].
  - wp_step. eapply buffer_mono; [by eapply wp_emplace_back|]. intros w' [i|e] [_ H]; [|exfalso; by apply (Hnofail e), H].
    wp_steps. split; [done|]. eapply (push_within_budget p w); [done|done|apply H|rewrite length_app; simpl; lia|apply H].
  - destruct l as [|t l]; [done|]. eapply buffer_mono; [by apply (wp_pop_front w l t)|]. intros w' r (->&H&[Ec Ea]&_).
    split; [done|]. unfold within_budget. rewrite Ec, Ea. simpl in *. split_and!; [done|lia..].
  - destruct (destruct_last l Ha) as (l'&t&->). rewrite length_app in Hl. simpl in Hl.
    eapply buffer_mono; [by apply (wp_pop_back w l' t)|]. intros w' r (->&H&[Ec Ea]&_).
    replace (pred (length (l' ++ [t]))) with (length l') by (rewrite length_app; simpl; lia). rewrite take_app_length.
    split; [done|]. unfold within_budget. rewrite Ec, Ea. split_and!; [done|lia..].
  - eapply buffer_mono; [by eapply wp_clear|]. intros w' r (->&H&_&[Ec Ea]). split; [done|]. unfold within_budget.
    rewrite Ec, Ea. simpl. split_and!; [done|lia..].
Qed.

Lemma calls_within_budget cs : ∀ p w l,
  within_budget p w l → Z.of_nat (p + length cs) < 2 ^ 60 → Forall (λ c, is_deque_call c = true) cs → allowed_run cs l →
  wp (run_calls cs) (λ w' r, r = inl tt ∧ within_budget (p + pushes cs) w' (foldl (λ l c, effect c l) l cs)) w.
Proof.
  induction cs as [|c cs IH]; intros p w l Hb Hp Hd Ha; cbn [run_calls].
  { wp_step. split; [done|]. unfold pushes. by rewrite filter_nil, Nat.add_0_r. }
  apply Forall_cons in Hd as [Hc Hd]. destruct Ha as [Hc1 Ha]. cbn [length] in Hp. wp_step.
  eapply buffer_mono; [apply (call_within_budget c p w l); [done|lia|done..]|]. intros w1 r [-> Hb1]. cbv beta iota.
  assert (p + pushes (c :: cs) = (if is_push c then S p else p) + pushes cs)%nat as ->.
  { unfold pushes. rewrite filter_cons. destruct (is_push c); simpl; lia. }
  apply IH; [done|destruct (is_push c); lia|done|done].
Qed.

(** C13: bounds.  Insertion takes amortised constant time.  From an empty buffer,
    any sequence of insertions and removals at both ends returns, and constructs at
    most three values for each one inserted, those that a reallocation moves
    included; the memory is at most twice the number of insertions. *)
Theorem insertions_amortised cs :
  Z.of_nat (length cs) < 2 ^ 60 → Forall (λ c, is_deque_call c = true) cs → allowed_run cs [] →
  wp (run_calls cs) (λ w' r, r = inl tt ∧ holds (this w') (foldl (λ l c, effect c l) [] cs) ∧
    (constructed w' ≤ 3 * pushes cs)%nat ∧ m_allocated_size (this w') ≤ 2 * Z.of_nat (pushes cs))
    (mkWorld default_buffer 0).
Proof.
  intros Hn Hd Ha. eapply buffer_mono; [apply (calls_within_budget cs 0 _ []); [|done..]|].
  - split; [|simpl; lia]. split; [split; simpl; slia|]. split; [done|]. intros i Hi. simpl in Hi. lia.
  - intros w' r (->&Hh&_&Hal&Hc). simpl in *. split; [done|]. split; [done|]. lia.
Qed.
End Guarantees.

(** ** Values destroyed by [resize] *)
Section Resize.
Context {T : Type} {elements : Elements T}.
Implicit Types (l : list T) (w : World T).

(** C39: error behaviour.  Resizing to a smaller size other than 0 destroys the
    values at the front and forgets those at the back: the first value of the
    result is dead, so that reading it is undefined, the last one is alive but
    outside of the buffer, and the destructor destroys dead values. *)
Theorem resize_smaller_destroys_front w l n t :
  holds (this w) l → 0 < n < Z.of_nat (length l) →
  ∃ w', resize n t w = Some (w', inl tt) ∧ size (this w') = n ∧
    (r <- front; load r) w' = None ∧
    iter_load (this w') (position (this w') (Z.of_nat (length l) - 1)) = last l ∧
    destroy 0 w' = None.
Proof.
  intros Hh Hn. pose proof Hh as [Hw Hl]%holds_window. pose proof (proj1 Hw) as [? ? ? ?].
  assert (wp (resize n t) (λ w' r, r = inl tt ∧ m_size (this w') = n ∧ m_begin (this w') = m_begin (this w) ∧
    m_allocated_size (this w') = m_allocated_size (this w) ∧
    window (this w') (λ i, if decide (0 ≤ i < Z.of_nat (length l) - n) then None else values_of l i)) w) as (w'&r&Hr&->&Hs&Eb&Ea&Hw').
  { unfold resize. do 2 wp_step. rewrite (proj2 (Z.leb_le _ _)) by lia. wp_step. unfold destroy. do 2 wp_step. eapply buffer_mono.
    - apply (wp_destroy_loop _ w (values_of l) _ _ 0); [done|lia..| |].
      + intros _. by rewrite position_0 by apply Hw.
      + intros x Hx. destruct (values_of_Some l x) as (u&->&_); [lia|done].
    - intros w1 r (->&_&(Eb&Es&Ea)&Hw1). wp_steps. simpl. do 4 (split; [done|]).
      eapply window_ext; [apply window_size; [exact Hw1|lia|lia]|]. intros i Hi. cbv beta. rewrite Z.add_0_l.
      by rewrite Hl. }
  exists w'. split; [done|]. split; [done|].
  assert (m_memory_owner (this w') !! Z.to_nat (m_begin (this w')) = Some None) as Hdead.
  { rewrite <-(position_0 (this w')) by apply Hw'. rewrite (window_load _ _ 0 Hw') by lia. by rewrite decide_True by lia. }
  split; [|split].
  - assert (wrap (this w') 0 = m_begin (this w')) as Hwrap.
    { rewrite wrap_position by (apply Hw' || lia). by apply position_0, Hw'. }
    unfold front, index, load, read, bind, get, assert. simpl. rewrite (proj2 (Z.ltb_lt _ _)) by lia. simpl.
    by rewrite Hwrap, Hdead.
  - unfold iter_load. rewrite (window_load _ _ _ Hw') by lia. rewrite decide_False by lia. unfold values_of.
    rewrite decide_True by lia. rewrite last_lookup. replace (Z.to_nat (Z.of_nat (length l) - 1)) with (pred (length l)) by lia.
    by destruct (l !! _).
  - unfold destroy. cbv [bind get]. cbn [destroy_loop this mbind option_bind]. cbv [bind get destroy_at destroy_in]. cbn [this mbind option_bind].
    rewrite (proj2 (Z.ltb_lt 0 _)) by lia. by rewrite Hdead.
Qed.
End Resize.

(** ** Examples *)
Section Examples.
#[local] Instance numbers : Elements nat :=
  {| completes := λ _, true; nothrow_move := true; moved_from := λ _, 0%nat; allocates := λ _, true |}.

(** A constructor that throws when it is called the fifth time *)
Definition failing : Elements nat :=
  {| completes := λ n, negb (n =? 4)%nat; nothrow_move := false; moved_from := id; allocates := λ n, n <? 100 |}.

Definition sample_calls : list (Call (T := nat)) :=
  [PushBack 1%nat; PushFront 2%nat; PushBack 3%nat; PopFront; PushFront 4%nat; PopBack; PushBack 5%nat].

(** The buffer that holds 4, 1, 5, in cells 3, 0, 1 of 4 *)
Definition sample : World nat := mkWorld (mkCircularBuffer [Some 1; Some 5; None; Some 4]%nat 3 3 4) 10.

Lemma sample_holds : holds (this sample) [4; 1; 5]%nat.
Proof.
  split; [split; vm_compute; intuition discriminate|]. split; [done|]. intros i Hi. simpl in Hi.
  assert (i = 0 ∨ i = 1 ∨ i = 2 ∨ i = 3) as [-> | [-> | [-> | ->]]] by lia; by vm_compute.
Qed.

Lemma iterators_are_indices_witness :
  holds (this sample) [4; 1; 5]%nat ∧ iter_add (this sample) (position (this sample) 2) (-2) = position (this sample) 0.
Proof.
  split; [apply sample_holds|].
  by destruct (iterators_are_indices (this sample) _ 2 (-2) sample_holds) as (_&_&_&_&H&_); [simpl; lia..|].
Defined.

Lemma buffer_refines_deque_witness :
  ∃ w' r l', run_calls (elements := failing) [PushBack 1; PushFront 2; PushBack 3; PushBack 4]%nat (mkWorld default_buffer 0) = Some (w', r) ∧
    holds (this w') l' ∧ l' = [2; 1; 3]%nat ∧ r = inr Thrown.
Proof.
  destruct (buffer_refines_deque (elements := failing) [PushBack 1; PushFront 2; PushBack 3; PushBack 4]%nat (mkWorld default_buffer 0) [])
    as (w'&r&E&(l'&H&Hc&Hr)&_); [apply default_holds|by split_and!|].
  exists w', r, l'. split; [exact E|]. split; [done|]. vm_compute in E. injection E as <- <-. vm_compute in Hc. by injection Hc as <-.
Defined.

Lemma iterators_stay_valid_witness :
  holds (this sample) [4; 1; 5]%nat ∧
  wp pop_front (λ w' r, r = inl tt ∧ capacity (this w') = 3) sample.
Proof.
  split; [apply sample_holds|]. destruct (iterators_stay_valid sample _ 7%nat sample_holds) as (_&H&_).
  eapply buffer_mono; [by apply (H 4%nat [1; 5]%nat)|]. by intros w' r (->&->&_).
Defined.

Lemma insertions_amortised_witness :
  ∃ w', run_calls sample_calls (mkWorld default_buffer 0) = Some (w', inl tt) ∧ holds (this w') [4; 1; 5]%nat ∧ (constructed w' ≤ 15)%nat.
Proof.
  destruct (insertions_amortised (elements := numbers) (λ _, eq_refl) (λ _, eq_refl) sample_calls) as (w'&r&E&->&Hh&Hc&_);
    [vm_compute; done|by repeat constructor|by split_and!|]. exists w'. by split_and!.
Defined.

Lemma resize_smaller_destroys_front_witness :
  holds (this sample) [4; 1; 5]%nat ∧
  ∃ w', resize 2 0%nat sample = Some (w', inl tt) ∧ (r <- front; load r) w' = None.
Proof.
  split; [apply sample_holds|].
  destruct (resize_smaller_destroys_front sample _ 2 0%nat sample_holds) as (w'&E&_&H&_); [simpl; lia|]. by exists w'.
Defined.
End Examples.
