(* ===== verification/PackedArray.v ===== *)
(** Packed integer arrays (core/realm/array_direct.hpp): integers of 0, 1, 2, 4,
    8, 16, 32 or 64 bits in the memory of an array, and binary search in them.

    Memory is a list of bytes; an access outside of it is [None], and so is a
    failed assertion.  Integers of more than a byte are stored in the order of the
    platform, and [char] is signed or not. The elements
    of an array are a list, and the searches in it those of the standard library. *)
From S2P Require Import Prelude SafeInt Property.

Class Endian := little_endian : bool.

Module PackedArray.

(** ** Bytes of integers *)
Fixpoint le_bytes (n : nat) (v : Z) : list Z :=
  match n with O => [] | S n => v mod 256 :: le_bytes n (v / 256) end.

Fixpoint le_value (bytes : list Z) : Z :=
  match bytes with [] => 0 | x :: bytes => x + 256 * le_value bytes end.

Section Access.
Context {platform : CharSign} {endian : Endian}.
Implicit Types (data : list Z) (ndx value : Z).

Definition in_order (bytes : list Z) : list Z := if little_endian then bytes else reverse bytes.

(** The signed integer type of [n] bytes *)
Definition int_of_bytes (n : nat) : IntType := mkIntType true (8 * Z.of_nat n - 1).

(** [*reinterpret_cast<const intN_t*>(data + offset)] and its assignment *)
Definition load (n : nat) data (offset : Z) : option Z :=
  assert! (Z.to_nat offset + n <=? length data)%nat;
  Some (convert (int_of_bytes n) (le_value (in_order (take n (drop (Z.to_nat offset) data))))).

Definition store (n : nat) data (offset : Z) value : option (list Z) :=
  assert! (Z.to_nat offset + n <=? length data)%nat;
  Some (list_inserts (Z.to_nat offset) (in_order (le_bytes n value)) data).

(** A [char] as an [int] *)
Definition char_value (byte : Z) : Z := if char_is_signed && (128 <=? byte) then byte - 256 else byte.

(** [uchar(( *p & ~(mask << bit_ndx)) | (int(value) & mask) << bit_ndx)] *)
Definition set_bits (p mask bit_ndx value : Z) : Z :=
  convert uchar_t (Z.lor (Z.land p (Z.lnot (Z.shiftl mask bit_ndx)))
                         (Z.shiftl (Z.land (convert int_t value) mask) bit_ndx)).

Definition update_byte (mask : Z) data (byte_ndx bit_ndx value : Z) : option (list Z) :=
  p ← data !! Z.to_nat byte_ndx;
  Some (<[Z.to_nat byte_ndx := set_bits p mask bit_ndx value]> data).

(** ** Direct access *)
Definition fits_bits (bits value : Z) : bool := (0 <=? value) && (value <=? 2 ^ bits - 1).

Definition set_direct (width : Z) data ndx value : option (list Z) :=
  if width =? 0 then assert! value =? 0; Some data
  else if width =? 1 then
    assert! fits_bits 1 value;
    let byte_ndx := ndx / 8 in
    let bit_ndx := ndx mod 8 in
    update_byte 1 data byte_ndx bit_ndx value
  else if width =? 2 then
    assert! fits_bits 2 value;
    let byte_ndx := ndx / 4 in
    let bit_ndx := ndx mod 4 * 2 in
    update_byte 3 data byte_ndx bit_ndx value
  else if width =? 4 then
    assert! fits_bits 4 value;
    let byte_ndx := ndx / 2 in
    let bit_ndx := ndx mod 2 * 4 in
    update_byte 15 data byte_ndx bit_ndx value
  else if width =? 8 then
    assert! bool_decide (in_type (int_of_bytes 1) value);
    store 1 data ndx value
  else if width =? 16 then
    assert! bool_decide (in_type (int_of_bytes 2) value);
    store 2 data (2 * ndx) value
  else if width =? 32 then
    assert! bool_decide (in_type (int_of_bytes 4) value);
    store 4 data (4 * ndx) value
  else if width =? 64 then
    assert! bool_decide (in_type (int_of_bytes 8) value);
    store 8 data (8 * ndx) value
  else None.

(** [for (size_t i = begin; i != end; ++i) set_direct<width>(data, i, value);] *)
Fixpoint fill_loop (fuel : nat) (width : Z) data (i end_ value : Z) : option (list Z) :=
  match fuel with
  | O => None
  | S fuel =>
      if i =? end_ then Some data
      else data ← set_direct width data i value; fill_loop fuel width data (i +w 1) end_ value
  end.

Definition fill_direct (width : Z) data (begin end_ value : Z) : option (list Z) :=
  fill_loop (S (Z.to_nat (end_ - begin))) width data begin end_ value.

Definition get_byte data (offset shift mask : Z) : option Z :=
  p ← data !! Z.to_nat offset; Some (Z.land (Z.shiftr (char_value p) shift) mask).

Definition get_direct (width : Z) data ndx : option Z :=
  if width =? 0 then Some 0
  else if width =? 1 then
    let offset := Z.shiftr ndx 3 in get_byte data offset (Z.land ndx 7) 1
  else if width =? 2 then
    let offset := Z.shiftr ndx 2 in get_byte data offset (Z.shiftl (Z.land ndx 3) 1) 3
  else if width =? 4 then
    let offset := Z.shiftr ndx 1 in get_byte data offset (Z.shiftl (Z.land ndx 1) 2) 15
  else if width =? 8 then load 1 data ndx
  else if width =? 16 then let offset := wrap (ndx * 2) in load 2 data offset
  else if width =? 32 then let offset := wrap (ndx * 4) in load 4 data offset
  else if width =? 64 then let offset := wrap (ndx * 8) in load 8 data offset
  else None.

(** [to_size_t] and [to_ref] (core/realm/utilities.hpp, core/realm/alloc.hpp) *)
Definition to_size_t (v : Z) : option Z := assert! negb (int_cast_has_overflow size_t int64_t v); Some (convert size_t v).
Definition to_ref (v : Z) : option Z := assert! Z.rem v 8 =? 0; Some (convert size_t v).

Definition get_two (width : Z) data ndx : option (Z * Z) :=
  v0 ← get_direct width data ndx; v1 ← get_direct width data (ndx +w 1);
  v0 ← to_size_t v0; v1 ← to_size_t v1;
  Some (convert int64_t v0, convert int64_t v1).

Definition get_three (width : Z) data ndx : option (Z * Z * Z) :=
  v0 ← get_direct width data ndx; v0 ← to_ref v0;
  v1 ← get_direct width data (ndx +w 1); v1 ← to_ref v1;
  v2 ← get_direct width data (ndx +w 2); v2 ← to_ref v2;
  Some (v0, v1, v2).

(** ** Binary search

    One step, which the code writes out three times (X, Y, Z) in the first loop and
    once (A) in the second; [right] tells from the element probed whether to go on
    in the upper part. *)
Definition probe_step (right : Z → bool) (width : Z) data (size low : Z) : option (Z * Z) :=
  let half := size / 2 in
  let other_half := size -w half in
  let probe := low +w half in
  let other_low := low +w other_half in
  v ← get_direct width data probe;
  let size := half in
  let low := if right v then other_low else low in
  Some (size, low).

(** [while (size >= 8)] *)
Fixpoint unrolled_loop (fuel : nat) (right : Z → bool) (width : Z) data (size low : Z) : option (Z * Z) :=
  match fuel with
  | O => None
  | S fuel =>
      if 8 <=? size then
        '(size, low) ← probe_step right width data size low;
        '(size, low) ← probe_step right width data size low;
        '(size, low) ← probe_step right width data size low;
        unrolled_loop fuel right width data size low
      else Some (size, low)
  end.

(** [while (size > 0)] *)
Fixpoint final_loop (fuel : nat) (right : Z → bool) (width : Z) data (size low : Z) : option Z :=
  match fuel with
  | O => None
  | S fuel =>
      if 0 <? size then
        '(size, low) ← probe_step right width data size low;
        final_loop fuel right width data size low
      else Some low
  end.

Definition search (right : Z → bool) (width : Z) data (size : Z) : option Z :=
  '(size, low) ← unrolled_loop (S (Z.to_nat size)) right width data size 0;
  final_loop (S (Z.to_nat size)) right width data size low.

Definition lower_bound (width : Z) data (size value : Z) : option Z := search (λ v, v <? value) width data size.
Definition upper_bound (width : Z) data (size value : Z) : option Z := search (λ v, v <=? value) width data size.

(** ** The elements of an array *)
Definition elements (width : Z) data (n : nat) : option (list Z) :=
  mapM (λ i, get_direct width data (Z.of_nat i)) (seq 0 n).
End Access.
End PackedArray.

Import PackedArray.

(** ** Bytes *)
Definition bytes (data : list Z) : Prop := Forall (λ x, 0 ≤ x < 256) data.

Lemma length_le_bytes n v : length (le_bytes n v) = n.
Proof. revert v. induction n as [|n IH]; intros v; [done|]. cbn [le_bytes length]. by rewrite IH. Qed.

Lemma le_bytes_bytes n v : bytes (le_bytes n v).
Proof.
  revert v. induction n as [|n IH]; intros v; [constructor|]. constructor; [|apply IH]. apply Z.mod_pos_bound. lia.
Qed.

Lemma le_value_bytes n : ∀ v, le_value (le_bytes n v) = v mod 2 ^ (8 * Z.of_nat n).
Proof.
  induction n as [|n IH]; intros v; cbn [le_bytes le_value]; [by rewrite Z.mod_1_r|]. rewrite IH.
  replace (8 * Z.of_nat (S n)) with (8 + 8 * Z.of_nat n) by lia. rewrite Z.pow_add_r by lia. change (2 ^ 8) with 256.
  symmetry. apply Z.rem_mul_r; [lia|]. apply Z.pow_pos_nonneg; lia.
Qed.

(** A signed integer is its lowest bits. *)
Lemma convert_mod t v : is_signed t = true → 0 ≤ digits t → in_type t v → convert t (v mod 2 ^ (digits t + 1)) = v.
Proof.
  intros Hs Hd Hv. rewrite <-(convert_id t v) at 2 by done. unfold convert. rewrite Hs. f_equal.
  rewrite <-Zplus_mod_idemp_l, Zmod_mod. by rewrite Zplus_mod_idemp_l.
Qed.

Section Order.
Context {endian : Endian}.

Lemma in_order_involutive l : in_order (in_order l) = l.
Proof. unfold in_order. destruct little_endian; [done|]. apply reverse_involutive. Qed.

Lemma length_in_order l : length (in_order l) = length l.
Proof. unfold in_order. destruct little_endian; [done|]. apply length_reverse. Qed.

Lemma in_order_bytes l : bytes l → bytes (in_order l).
Proof. unfold in_order. destruct little_endian; [done|]. apply Forall_reverse. Qed.

Lemma load_store n data o v data' :
  store n data o v = Some data' → (0 < n)%nat → in_type (int_of_bytes n) v → load n data' o = Some v.
Proof.
  unfold store, load. case_test; [|done]. intros [= <-] Hn Hv. rewrite length_inserts. case_test; [|lia].
  replace (take n (drop (Z.to_nat o) (list_inserts (Z.to_nat o) (in_order (le_bytes n v)) data))) with (in_order (le_bytes n v)).
  - rewrite in_order_involutive, le_value_bytes.
    replace (8 * Z.of_nat n) with (digits (int_of_bytes n) + 1) by (simpl; lia). f_equal. apply convert_mod; [done|simpl; lia|done].
  - apply list_eq. intros i. destruct (decide (i < n)%nat).
    + rewrite lookup_take_lt, lookup_drop by done.
      rewrite list_lookup_inserts by (rewrite ?length_in_order, ?length_le_bytes; lia). f_equal. lia.
    + rewrite lookup_take_ge by lia. apply lookup_ge_None_2. rewrite length_in_order, length_le_bytes. lia.
Qed.

Lemma load_store_other n data o v data' o' :
  store n data o v = Some data' → 0 ≤ o → 0 ≤ o' → o' + Z.of_nat n ≤ o ∨ o + Z.of_nat n ≤ o' → load n data' o' = load n data o'.
Proof.
  unfold store, load. case_test; [|done]. intros [= <-] Ho Ho' Hd. rewrite length_inserts. case_test; [|done]. do 4 f_equal.
  apply list_eq. intros i. destruct (decide (i < n)%nat); [|by rewrite !lookup_take_ge by lia].
  rewrite !lookup_take_lt, !lookup_drop by done.
  destruct Hd; [rewrite list_lookup_inserts_lt by lia; done|].
  rewrite list_lookup_inserts_ge; [done|]. rewrite length_in_order, length_le_bytes. lia.
Qed.

Lemma store_bytes n data o v data' : store n data o v = Some data' → bytes data → bytes data' ∧ length data' = length data.
Proof.
  unfold store. case_test; [|done]. intros [= <-] Hb. split; [|apply length_inserts]. apply Forall_lookup. intros i x Hx.
  apply list_lookup_inserts_Some in Hx as [[_ Hx]|(_&_&Hx2)]; [exact (proj1 (Forall_lookup _ _) Hb i x Hx)|].
  exact (proj1 (Forall_lookup _ _) (in_order_bytes _ (le_bytes_bytes n v)) _ _ Hx2).
Qed.
End Order.

(** ** Parts of a byte

    What a byte is after the integer of [w] bits at position [k] is set, by trying
    all bytes, positions and values *)
Definition below (n : Z) : list Z := seqZ 0 n.

Lemma forallb_below (f : Z → bool) n x : forallb f (below n) = true → 0 ≤ x < n → f x = true.
Proof. intros H Hx. apply (proj1 (forallb_forall _ _) H), list_elem_of_In, elem_of_seqZ. lia. Qed.

Definition check_bits (w : Z) : bool :=
  forallb (λ p, forallb (λ k, forallb (λ v,
    let p' := set_bits p (Z.ones w) (k * w) v in
    (0 <=? p') && (p' <? 256) &&
    forallb (λ signed : bool, forallb (λ k',
      Z.land (Z.shiftr (@char_value signed p') (k' * w)) (Z.ones w) =?
      if k' =? k then v else Z.land (Z.shiftr (@char_value signed p) (k' * w)) (Z.ones w))
      (below (8 / w))) [true; false])
    (below (2 ^ w))) (below (8 / w))) (below 256).

Lemma check_bits_ok w : w ∈ [1; 2; 4] → check_bits w = true.
Proof. rewrite !elem_of_cons. intros [->|[->|[->|[]%elem_of_nil]]]; by vm_compute. Qed.

Lemma set_bits_spec {platform : CharSign} w p k v :
  w ∈ [1; 2; 4] → 0 ≤ p < 256 → 0 ≤ k < 8 / w → 0 ≤ v < 2 ^ w →
  0 ≤ set_bits p (Z.ones w) (k * w) v < 256 ∧
  ∀ k', 0 ≤ k' < 8 / w →
    Z.land (Z.shiftr (char_value (set_bits p (Z.ones w) (k * w) v)) (k' * w)) (Z.ones w) =
    if k' =? k then v else Z.land (Z.shiftr (char_value p) (k' * w)) (Z.ones w).
Proof.
  intros Hw Hp Hk Hv. pose proof (check_bits_ok w Hw) as H. unfold check_bits in H.
  apply (forallb_below _ _ p) in H; [|done]. apply (forallb_below _ _ k) in H; [|done]. apply (forallb_below _ _ v) in H; [|done].
  cbv zeta in H. apply andb_prop in H as [[H1 H2]%andb_prop H]. split; [lia|]. intros k' Hk'.
  assert (forallb (λ k', Z.land (Z.shiftr (char_value (set_bits p (Z.ones w) (k * w) v)) (k' * w)) (Z.ones w) =?
      if k' =? k then v else Z.land (Z.shiftr (char_value p) (k' * w)) (Z.ones w)) (below (8 / w)) = true) as Hk2.
  { apply (proj1 (forallb_forall _ _) H). destruct platform; simpl; auto. }
  apply (forallb_below _ _ k') in Hk2; [|done]. by apply Z.eqb_eq.
Qed.

(** ** One integer *)
Definition widths : list Z := [0; 1; 2; 4; 8; 16; 32; 64].

(** The integers of a width: unsigned in parts of a byte *)
Definition fits (width value : Z) : Prop :=
  if decide (width < 8) then 0 ≤ value < 2 ^ width else in_type (mkIntType true (width - 1)) value.

Section Direct.
Context {platform : CharSign} {endian : Endian}.
Implicit Types (data : list Z) (ndx value : Z).

Lemma get_direct_bits w data ndx : w ∈ [1; 2; 4] → 0 ≤ ndx →
  get_direct w data ndx = get_byte data (ndx / (8 / w)) (ndx mod (8 / w) * w) (Z.ones w).
Proof.
  intros Hw Hn. rewrite !elem_of_cons in Hw. destruct Hw as [->|[->|[->|[]%elem_of_nil]]]; unfold get_direct; cbn -[Z.mul Z.div Z.modulo Z.shiftl Z.shiftr get_byte].
  - rewrite Z.shiftr_div_pow2 by done. change 7 with (Z.ones 3). rewrite Z.land_ones by done. by rewrite Z.mul_1_r.
  - rewrite Z.shiftr_div_pow2, Z.shiftl_mul_pow2 by done. change 3 with (Z.ones 2) at 1. by rewrite Z.land_ones.
  - rewrite Z.shiftr_div_pow2, Z.shiftl_mul_pow2 by done. change 1 with (Z.ones 1) at 2. by rewrite Z.land_ones.
Qed.

Lemma set_direct_bits w data ndx v : w ∈ [1; 2; 4] → 0 ≤ v < 2 ^ w →
  set_direct w data ndx v = update_byte (Z.ones w) data (ndx / (8 / w)) (ndx mod (8 / w) * w) v.
Proof.
  intros Hw Hv. rewrite !elem_of_cons in Hw. destruct Hw as [->|[->|[->|[]%elem_of_nil]]]; unfold set_direct;
    cbn -[Z.mul Z.div Z.modulo update_byte fits_bits].
  all: assert (∀ w, 0 ≤ v < 2 ^ w → fits_bits w v = true) as Hf by (intros; unfold fits_bits; lia).
  all: rewrite Hf by done; try done. by rewrite Z.mul_1_r.
Qed.

(** Integers of whole bytes *)
Definition byte_widths : list nat := [1; 2; 4; 8]%nat.

Lemma get_direct_bytes n data ndx : n ∈ byte_widths → 0 ≤ ndx < 2 ^ 60 →
  get_direct (8 * Z.of_nat n) data ndx = load n data (Z.of_nat n * ndx).
Proof.
  intros Hn Hi. unfold byte_widths in Hn. rewrite !elem_of_cons in Hn. destruct Hn as [->|[->|[->|[->|[]%elem_of_nil]]]];
    unfold get_direct; cbn -[Z.mul load wrap]; rewrite ?wrap_small by slia; f_equal; lia.
Qed.

Lemma set_direct_bytes n data ndx v : n ∈ byte_widths → in_type (int_of_bytes n) v →
  set_direct (8 * Z.of_nat n) data ndx v = store n data (Z.of_nat n * ndx) v.
Proof.
  intros Hn Hv. unfold byte_widths in Hn. rewrite !elem_of_cons in Hn. destruct Hn as [->|[->|[->|[->|[]%elem_of_nil]]]];
    unfold set_direct;
    lazymatch goal with |- context [8 * Z.of_nat ?n] => let w := eval vm_compute in (8 * Z.of_nat n) in change (8 * Z.of_nat n) with w end;
    cbn -[Z.mul store in_type int_of_bytes bool_decide]; rewrite bool_decide_true by done; f_equal; lia.
Qed.

(** Setting an integer changes that integer and no other. *)
Lemma set_direct_spec w data ndx v old :
  w ∈ widths → bytes data → 0 ≤ ndx < 2 ^ 60 → get_direct w data ndx = Some old → fits w v →
  ∃ data', set_direct w data ndx v = Some data' ∧ bytes data' ∧ length data' = length data ∧
    get_direct w data' ndx = Some v ∧
    ∀ j, 0 ≤ j < 2 ^ 60 → j ≠ ndx → get_direct w data' j = get_direct w data j.
Proof.
  intros Hw Hb Hi Hget Hf.
  assert (w = 0 ∨ w ∈ [1; 2; 4] ∨ ∃ n, n ∈ byte_widths ∧ w = 8 * Z.of_nat n) as [->|[Hw'|(n&Hn&->)]].
  { unfold widths in Hw. rewrite !elem_of_cons in *. destruct Hw as [->|[->|[->|[->|[->|[->|[->|[->|[]%elem_of_nil]]]]]]]].
    1: by left. 1-3: right; left; tauto. all: right; right.
    - exists 1%nat. split; [by_decision|done].
    - exists 2%nat. split; [by_decision|done].
    - exists 4%nat. split; [by_decision|done].
    - exists 8%nat. split; [by_decision|done]. }
  - assert (v = 0) as -> by (unfold fits in Hf; case_decide; simpl in *; lia). by exists data.
  - assert (0 < w ∧ 0 < 8 / w ∧ w < 8) as (Hw0&Hq&Hw8).
    { rewrite !elem_of_cons in Hw'. by destruct Hw' as [->|[->|[->|[]%elem_of_nil]]]. }
    unfold fits in Hf. rewrite decide_True in Hf by done. rewrite set_direct_bits by done.
    rewrite get_direct_bits in Hget by (done || lia). unfold get_byte, update_byte in *.
    set (q := 8 / w) in *. pose proof (Z.mod_pos_bound ndx q Hq). pose proof (Z.div_pos ndx q ltac:(lia) Hq).
    destruct (data !! Z.to_nat (ndx / q)) as [p|] eqn:Hp; [|done]. cbn [mbind option_bind].
    destruct (set_bits_spec w p (ndx mod q) v Hw' (proj1 (Forall_lookup _ _) Hb _ _ Hp)) as [Hr Hk]; [done..|].
    pose proof (lookup_lt_Some _ _ _ Hp). eexists. split; [done|].
    split; [by apply Forall_insert|]. split; [apply length_insert|]. split.
    + rewrite get_direct_bits by (done || lia). unfold get_byte. fold q. rewrite list_lookup_insert_eq by done.
      cbn [mbind option_bind]. by rewrite Hk, Z.eqb_refl.
    + intros j Hj Hne. rewrite !get_direct_bits by (done || lia). unfold get_byte. fold q.
      pose proof (Z.mod_pos_bound j q Hq). pose proof (Z.div_pos j q ltac:(lia) Hq).
      pose proof (Z.div_mod ndx q). pose proof (Z.div_mod j q).
      destruct (decide (j / q = ndx / q)) as [E|Hd].
      * rewrite E, Hp, list_lookup_insert_eq by done. cbn [mbind option_bind]. rewrite Hk by done.
        rewrite (proj2 (Z.eqb_neq _ _)); [done|]. intros E2. apply Hne. rewrite E, E2 in *. lia.
      * rewrite list_lookup_insert_ne; [done|lia].
  - assert (0 < n)%nat as Hn0 by (unfold byte_widths in Hn; rewrite !elem_of_cons in Hn; destruct Hn as [->|[->|[->|[->|[]%elem_of_nil]]]]; lia).
    rewrite get_direct_bytes in Hget by done.
    assert (in_type (int_of_bytes n) v) as Hv.
    { unfold fits in Hf. rewrite decide_False in Hf by lia. exact Hf. }
    rewrite set_direct_bytes by done. destruct (store n data (Z.of_nat n * ndx) v) as [data'|] eqn:Hst.
    2:{ unfold store, load in *. by destruct (_ <=? _)%nat. }
    destruct (store_bytes _ _ _ _ _ Hst Hb) as [Hb' Hl]. exists data'. do 3 (split; [done|]). split.
    + rewrite get_direct_bytes by done. by eapply load_store.
    + intros j Hj Hne. rewrite !get_direct_bytes by done. eapply load_store_other; [done|lia|lia|nia].
Qed.
End Direct.

(** ** All integers *)
Section Elements.
Context {platform : CharSign} {endian : Endian}.
Implicit Types (data : list Z) (ndx value : Z).

Lemma elements_Some w data n xs :
  elements w data n = Some xs ↔ length xs = n ∧ ∀ i, (i < n)%nat → get_direct w data (Z.of_nat i) = xs !! i.
Proof.
  unfold elements. rewrite mapM_Some, Forall2_lookup. split.
  - intros H. assert (length xs = n) as Hl.
    { apply Nat.le_antisymm.
      - apply Nat.le_ngt. intros Hlt. destruct (lookup_lt_is_Some_2 xs n Hlt) as [x Hx]. specialize (H n).
        rewrite Hx, lookup_seq_ge in H by lia. inversion H.
      - apply Nat.le_ngt. intros Hlt. specialize (H (length xs)). rewrite lookup_seq_lt, lookup_ge_None_2 in H by lia. inversion H. }
    split; [done|]. intros i Hi. specialize (H i). rewrite lookup_seq_lt in H by done. inversion H as [? ? E|]; subst. simpl in E. done.
  - intros [Hl H] i. destruct (decide (i < n)%nat) as [Hi|Hge].
    + rewrite lookup_seq_lt by done. destruct (lookup_lt_is_Some_2 xs i) as [x Hx]; [lia|]. rewrite Hx. constructor.
      rewrite <-Hx, <-H by done. simpl. done.
    + rewrite lookup_seq_ge, lookup_ge_None_2 by lia. constructor.
Qed.

Lemma elements_set w data n xs ndx v :
  w ∈ widths → bytes data → Z.of_nat n < 2 ^ 60 → elements w data n = Some xs → 0 ≤ ndx < Z.of_nat n → fits w v →
  ∃ data', set_direct w data ndx v = Some data' ∧ bytes data' ∧ length data' = length data ∧
    elements w data' n = Some (<[Z.to_nat ndx := v]> xs).
Proof.
  intros Hw Hb Hn [Hl Hxs]%elements_Some Hi Hf.
  destruct (lookup_lt_is_Some_2 xs (Z.to_nat ndx)) as [old Hold]; [lia|].
  destruct (set_direct_spec w data ndx v old) as (data'&E&Hb'&Hl'&Hget&Hother); [done..|lia| |done|].
  { rewrite <-Hold, <-Hxs by lia. f_equal. lia. }
  exists data'. do 3 (split; [done|]). apply elements_Some. rewrite length_insert. split; [done|]. intros i Hi'.
  destruct (decide (Z.of_nat i = ndx)) as [<-|Hne].
  - rewrite Nat2Z.id, list_lookup_insert_eq by lia. done.
  - rewrite list_lookup_insert_ne by lia. rewrite Hother by lia. by apply Hxs.
Qed.

(** The list with the same value from [i] to [j] *)
Definition fill (i j : nat) (v : Z) (xs : list Z) : list Z := take i xs ++ replicate (j - i) v ++ drop j xs.

Lemma fill_next i j v xs : (i < j ≤ length xs)%nat → fill (S i) j v (<[i := v]> xs) = fill i j v xs.
Proof.
  intros Hi. unfold fill. rewrite drop_insert_lt by lia. destruct (lookup_lt_is_Some_2 xs i) as [x Hx]; [lia|].
  rewrite (take_S_r _ i v) by (apply list_lookup_insert_eq; lia). rewrite take_insert_ge by lia.
  replace (j - i)%nat with (S (j - S i)) by lia. by rewrite <-app_assoc.
Qed.

Lemma fill_loop_spec w n v j fuel : ∀ i data xs,
  w ∈ widths → bytes data → Z.of_nat n < 2 ^ 60 → elements w data n = Some xs → 0 ≤ i ≤ j → j ≤ Z.of_nat n → fits w v →
  (Z.to_nat (j - i) < fuel)%nat →
  ∃ data', fill_loop fuel w data i j v = Some data' ∧ bytes data' ∧ length data' = length data ∧
    elements w data' n = Some (fill (Z.to_nat i) (Z.to_nat j) v xs).
Proof.
  induction fuel as [|fuel IH]; intros i data xs Hw Hb Hn Hxs Hi Hj Hf Hfuel; [lia|]. cbn [fill_loop].
  pose proof (proj1 (proj1 (elements_Some _ _ _ _) Hxs)) as Hl. destruct (Z.eqb_spec i j) as [->|Hne].
  - exists data. do 3 (split; [done|]). unfold fill. rewrite Nat.sub_diag. simpl. by rewrite take_drop.
  - destruct (elements_set w data n xs i v) as (data1&E&Hb1&Hl1&Hxs1); [done..|lia|done|]. rewrite E. cbn [mbind option_bind].
    rewrite wadd_small by slia. destruct (IH (i + 1) data1 (<[Z.to_nat i := v]> xs)) as (data2&E2&Hb2&Hl2&Hxs2); [done..|lia|lia|done|lia|].
    exists data2. split; [done|]. split; [done|]. split; [congruence|]. rewrite Hxs2. f_equal.
    replace (Z.to_nat (i + 1)) with (S (Z.to_nat i)) by lia. apply fill_next. lia.
Qed.

(** ** Searching *)
Section Search.
Context (right : Z → bool) (w : Z) (data : list Z) (l1 l2 : list Z).
Hypothesis Hxs : elements w data (length (l1 ++ l2)) = Some (l1 ++ l2).
Hypothesis Hl1 : Forall (λ x, right x = true) l1.
Hypothesis Hl2 : Forall (λ x, right x = false) l2.
Hypothesis Hn : Z.of_nat (length (l1 ++ l2)) < 2 ^ 60.

(** The partition point is between [low] and [low + size]. *)
Definition around (size low : Z) : Prop :=
  0 ≤ size ∧ 0 ≤ low ∧ low + size ≤ Z.of_nat (length (l1 ++ l2)) ∧ low ≤ Z.of_nat (length l1) ≤ low + size.

Lemma probe_step_spec size low : around size low → 0 < size →
  ∃ low', probe_step right w data size low = Some (size / 2, low') ∧ around (size / 2) low'.
Proof.
  intros (Hs&Hlow&Hle&Hin) Hpos. unfold probe_step. assert (0 ≤ size / 2 < size) as Hhalf by (split; [apply Z.div_pos; lia|apply Z.div_lt; lia]).
  assert (size - size / 2 - 1 ≤ size / 2 ≤ size - size / 2) as Hodd by (Z.div_mod_to_equations; lia).
  rewrite wsub_small, !wadd_small by slia. apply elements_Some in Hxs as [_ Hget].
  assert (get_direct w data (low + size / 2) = (l1 ++ l2) !! Z.to_nat (low + size / 2)) as ->.
  { rewrite <-Hget by lia. f_equal. lia. }
  destruct (decide (low + size / 2 < Z.of_nat (length l1))) as [Hlt|Hge].
  - rewrite lookup_app_l by lia. destruct (lookup_lt_is_Some_2 l1 (Z.to_nat (low + size / 2))) as [x Hx]; [lia|].
    rewrite Hx. cbn [mbind option_bind]. rewrite (proj1 (Forall_lookup _ _) Hl1 _ _ Hx). eexists. split; [done|].
    unfold around. lia.
  - rewrite lookup_app_r by lia. rewrite length_app in *.
    destruct (lookup_lt_is_Some_2 l2 (Z.to_nat (low + size / 2) - length l1)) as [x Hx]; [lia|].
    rewrite Hx. cbn [mbind option_bind]. rewrite (proj1 (Forall_lookup _ _) Hl2 _ _ Hx). eexists. split; [done|].
    unfold around. rewrite length_app. lia.
Qed.

Lemma unrolled_loop_spec fuel : ∀ size low, around size low → (Z.to_nat size < fuel)%nat →
  ∃ size' low', unrolled_loop fuel right w data size low = Some (size', low') ∧ around size' low' ∧ size' ≤ size.
Proof.
  induction fuel as [|fuel IH]; intros size low Ha Hf; [lia|]. cbn [unrolled_loop].
  destruct (Z.leb_spec 8 size); [|by eauto with lia].
  assert (4 ≤ size / 2 < size) by (split; [apply Z.div_le_lower_bound; lia|apply Z.div_lt; lia]).
  assert (2 ≤ size / 2 / 2 < size / 2) by (split; [apply Z.div_le_lower_bound; lia|apply Z.div_lt; lia]).
  assert (1 ≤ size / 2 / 2 / 2 < size / 2 / 2) by (split; [apply Z.div_le_lower_bound; lia|apply Z.div_lt; lia]).
  destruct (probe_step_spec size low Ha) as (low1&->&Ha1); [lia|]. cbn [mbind option_bind].
  destruct (probe_step_spec _ low1 Ha1) as (low2&->&Ha2); [lia|]. cbn [mbind option_bind].
  destruct (probe_step_spec _ low2 Ha2) as (low3&->&Ha3); [lia|]. cbn [mbind option_bind].
  destruct (IH _ low3 Ha3) as (size'&low'&E&Ha'&?); [lia|]. exists size', low'. split; [done|]. split; [done|lia].
Qed.

Lemma final_loop_spec fuel : ∀ size low, around size low → (Z.to_nat size < fuel)%nat →
  final_loop fuel right w data size low = Some (Z.of_nat (length l1)).
Proof.
  induction fuel as [|fuel IH]; intros size low Ha Hf; [lia|]. cbn [final_loop].
  destruct (Z.ltb_spec 0 size) as [Hpos|Hz].
  - destruct (probe_step_spec size low Ha Hpos) as (low1&->&Ha1). cbn [mbind option_bind]. apply IH; [done|].
    pose proof (Z.div_lt size 2). lia.
  - destruct Ha as (?&?&?&?). f_equal. lia.
Qed.

(** The search finds the partition point. *)
Lemma search_spec : search right w data (Z.of_nat (length (l1 ++ l2))) = Some (Z.of_nat (length l1)).
Proof.
  unfold search. destruct (unrolled_loop_spec (S (Z.to_nat (Z.of_nat (length (l1 ++ l2))))) (Z.of_nat (length (l1 ++ l2))) 0)
    as (size'&low'&->&Ha&?).
  - unfold around. rewrite length_app. lia.
  - lia.
  - cbn [mbind option_bind]. apply final_loop_spec; [done|lia].
Qed.
End Search.

(** ** Properties *)
(** C16: refinement.  A packed array is a list of integers, whatever its width, the
    sign of [char] and the order of bytes.  In an array that holds the list [xs],
    setting an integer that fits the width gives one that holds [xs] with that
    element replaced and all others kept, also those in the same byte, and filling
    a range replaces that range; neither writes outside the memory. *)
Theorem packed_array_refines_list w data n xs v :
  w ∈ widths → bytes data → Z.of_nat n < 2 ^ 60 → elements w data n = Some xs → fits w v →
  (∀ ndx, 0 ≤ ndx < Z.of_nat n →
     ∃ data', set_direct w data ndx v = Some data' ∧ bytes data' ∧ length data' = length data ∧
       get_direct w data' ndx = Some v ∧ elements w data' n = Some (<[Z.to_nat ndx := v]> xs)) ∧
  (∀ i j, 0 ≤ i ≤ j → j ≤ Z.of_nat n →
     ∃ data', fill_direct w data i j v = Some data' ∧ bytes data' ∧ length data' = length data ∧
       elements w data' n = Some (fill (Z.to_nat i) (Z.to_nat j) v xs)).
Proof.
  intros Hw Hb Hn Hxs Hf. split.
  - intros ndx Hi. destruct (elements_set w data n xs ndx v) as (data'&E&Hb'&Hl'&Hxs'); [done..|]. exists data'.
    do 3 (split; [done|]). split; [|done]. apply elements_Some in Hxs' as [Hl Hget]. rewrite length_insert in Hl.
    replace ndx with (Z.of_nat (Z.to_nat ndx)) by lia. rewrite Hget by lia. rewrite ?Nat2Z.id. apply list_lookup_insert_eq. lia.
  - intros i j Hi Hj. unfold fill_direct. apply fill_loop_spec; (done || lia).
Qed.

(** C17: equivalence.  The unrolled binary searches return, on a sorted array, what
    [std::lower_bound] and [std::upper_bound] return: the elements before the
    result are less than the value (or equal), those from it on are not. *)
Theorem searches_are_standard w data xs v :
  elements w data (length xs) = Some xs → StronglySorted Z.le xs → Z.of_nat (length xs) < 2 ^ 60 →
  let n := Z.of_nat (length xs) in
  ∃ i j, PackedArray.lower_bound w data n v = Some (Z.of_nat i) ∧ upper_bound w data n v = Some (Z.of_nat j) ∧
    i = Prelude.lower_bound (λ x, x <? v) xs 0 (length xs) ∧
    Forall (λ x, x < v) (take i xs) ∧ Forall (λ x, v ≤ x) (drop i xs) ∧
    Forall (λ x, x ≤ v) (take j xs) ∧ Forall (λ x, v < x) (drop j xs).
Proof.
  intros Hxs Hs Hn n.
  destruct (sorted_partition Z.le (λ x, x <? v) xs Hs) as (l1&l2&E&Hl1&Hl2&Hstd); [lia|].
  destruct (sorted_partition Z.le (λ x, x <=? v) xs Hs) as (m1&m2&E'&Hm1&Hm2&_); [lia|].
  exists (length l1), (length m1). unfold n, PackedArray.lower_bound, upper_bound. split_and!.
  - rewrite E in *. by apply search_spec.
  - rewrite E' in *. by apply search_spec.
  - done.
  - rewrite E, take_app_length. eapply Forall_impl; [exact Hl1|]. simpl. lia.
  - rewrite E, drop_app_length. eapply Forall_impl; [exact Hl2|]. simpl. lia.
  - rewrite E', take_app_length. eapply Forall_impl; [exact Hm1|]. simpl. lia.
  - rewrite E', drop_app_length. eapply Forall_impl; [exact Hm2|]. simpl. lia.
Qed.
End Elements.

(** ** Examples *)
Section Examples.
#[local] Instance signed_char : CharSign := true.
#[local] Instance byte_order : Endian := true.

Lemma packed_array_refines_list_witness :
  elements 4 [33; 67; 5] 5 = Some [1; 2; 3; 4; 5] ∧
  ∃ data, set_direct 4 [33; 67; 5] 2 9 = Some data ∧ elements 4 data 5 = Some [1; 2; 9; 4; 5].
Proof.
  split; [done|]. destruct (packed_array_refines_list 4 [33; 67; 5] 5 [1; 2; 3; 4; 5] 9) as [H _];
    [by_decision|by_decision|done|done|done|].
  destruct (H 2) as (data&E&_&_&_&Hxs); [lia|]. by exists data.
Defined.

Lemma searches_are_standard_witness :
  ∃ i j, PackedArray.lower_bound 8 [253; 254; 254; 0; 1; 1; 1; 2; 5; 9] 10 1 = Some (Z.of_nat i) ∧
    upper_bound 8 [253; 254; 254; 0; 1; 1; 1; 2; 5; 9] 10 1 = Some (Z.of_nat j) ∧ i = 4%nat ∧ j = 7%nat.
Proof.
  destruct (searches_are_standard 8 [253; 254; 254; 0; 1; 1; 1; 2; 5; 9] [-3; -2; -2; 0; 1; 1; 1; 2; 5; 9] 1)
    as (i&j&Hi&Hj&_); [by vm_compute|repeat constructor; lia|done|].
  exists i, j. split; [exact Hi|]. split; [exact Hj|].
  assert (Some (Z.of_nat i) = Some 4) as Ei by (rewrite <-Hi; by vm_compute).
  assert (Some (Z.of_nat j) = Some 7) as Ej by (rewrite <-Hj; by vm_compute). injection Ei. injection Ej. lia.
Defined.
End Examples.
