(* ===== verification/StringData.v ===== *)
(** Strings of the core and the search in them: [StringData]
    (core/realm/string_data.hpp) and the conditions of queries that look for a part
    of a string, [StringNode<Contains>] and [StringNode<ContainsIns>]
    (core/realm/query_engine.hpp).

    A string is null, or the bytes it refers to.  What is undefined, a pointer past
    the end or an index outside of an array, is [None]. The
    searches are exact, with and without jumps. *)
From stdpp Require Import sorting.
From S2P Require Import Prelude SafeInt Property PackedArray.
Import PackedArray.

Definition StringData : Type := option (list Z).

Module StringData.

(** ** Functions of the standard library *)
(** [std::equal] of a range with one that is at least as long *)
Fixpoint std_equal (l l' : list Z) : bool :=
  match l, l' with
  | [], _ => true
  | x :: l, y :: l' => (x =? y) && std_equal l l'
  | _ :: _, [] => false
  end.

(** [std::lexicographical_compare] *)
Fixpoint lexicographical_compare (l l' : list Z) : bool :=
  match l, l' with
  | _, [] => false
  | [], _ :: _ => true
  | x :: l, y :: l' => (x <? y) || (negb (y <? x) && lexicographical_compare l l')
  end.

(** [std::search]: the first position of the second range in the first, or its
    length *)
Fixpoint std_search (l l' : list Z) : nat :=
  match l with
  | [] => 0%nat
  | _ :: rest => if std_equal l' l then 0%nat else S (std_search rest l')
  end.

Section Strings.
Context {platform : CharSign}.
Implicit Types a b d : StringData.

(** ** The string *)
Definition is_null d : bool := match d with None => true | Some _ => false end.
Definition chars d : list Z := default [] d.
Definition size d : Z := Z.of_nat (length (chars d)).

(** [StringData(const char*, size_t)], [StringData(const char* )] with the memory
    from the pointer on, [StringData(util::Optional<std::string>)] *)
Definition make (data : option (list Z)) (n : Z) : option StringData :=
  match data with
  | None => assert! n =? 0; Some None
  | Some memory => assert! (Z.to_nat n <=? length memory)%nat; Some (Some (take (Z.to_nat n) memory))
  end.

Fixpoint c_length (memory : list Z) : option Z :=
  match memory with
  | [] => None
  | x :: memory => if x =? 0 then Some 0 else n ← c_length memory; Some (n + 1)
  end.

Definition of_c_str (c_str : option (list Z)) : option StringData :=
  match c_str with
  | None => Some None
  | Some memory => n ← c_length memory; make c_str n
  end.

Definition at_ d (i : Z) : option Z := chars d !! Z.to_nat i.

Definition substr d (i n : Z) : option StringData :=
  match d with
  | None => assert! (i =? 0) && (n =? 0); Some None
  | Some l => assert! (Z.to_nat i + Z.to_nat n <=? length l)%nat; Some (Some (take (Z.to_nat n) (drop (Z.to_nat i) l)))
  end.
Definition substr_from d (i : Z) : option StringData := substr d i (size d -w i).
Definition prefix d (n : Z) : option StringData := substr d 0 n.
Definition suffix d (n : Z) : option StringData := substr_from d (size d -w n).

(** ** Comparison *)
Definition equal a b : bool :=
  (size a =? size b) && eqb (is_null a) (is_null b) && std_equal (chars a) (chars b).
Definition not_equal a b : bool := negb (equal a b).

Definition less a b : bool :=
  if is_null a && negb (is_null b) then true
  else lexicographical_compare (char_value <$> chars a) (char_value <$> chars b).
Definition greater a b : bool := less b a.
Definition less_equal a b : bool := negb (less b a).
Definition greater_equal a b : bool := negb (less a b).

(** ** Parts of a string *)
Definition begins_with a d : bool :=
  if is_null a && negb (is_null d) then false
  else (size d <=? size a) && std_equal (take (length (chars d)) (chars a)) (chars d).

Definition ends_with a d : bool :=
  if is_null a && negb (is_null d) then false
  else (size d <=? size a) && std_equal (drop (length (chars a) - length (chars d)) (chars a)) (chars d).

Definition contains a d : bool :=
  if is_null a && negb (is_null d) then false
  else (size d =? 0) || negb (std_search (chars a) (chars d) =? length (chars a))%nat.

(** The Boyer-Moore search: [p] is where the last char of [d] is looked for. *)
Fixpoint boyer_moore (fuel : nat) a d (charmap : list Z) (lastChar p : Z) : option bool :=
  match fuel with
  | O => None
  | S fuel =>
      if p <? size a then
        c ← at_ a p;
        found ← (if c =? lastChar then
                   candidate ← substr a (p -w size d +w 1) (size d); Some (equal candidate d)
                 else Some false);
        if (found : bool) then Some true else
        jump ← charmap !! Z.to_nat c;
        boyer_moore fuel a d charmap lastChar (if jump =? 0 then p +w size d else p +w jump)
      else Some false
  end.

Definition contains_charmap a d (charmap : list Z) : option bool :=
  if is_null a && negb (is_null d) then Some false else
  let needle_size := size d in
  if needle_size =? 0 then Some true else
  let last_char_pos := size d -w 1 in
  lastChar ← at_ d last_char_pos;
  boyer_moore (S (length (chars a))) a d charmap lastChar last_char_pos.

(** ** Query conditions *)
Definition not_found : Z := npos.

(** The constructor of [StringNode<Contains>]: how far the search can move at each
    char *)
Fixpoint charmap_loop (fuel : nat) d (last_char_pos i : Z) (charmap : list Z) : option (list Z) :=
  match fuel with
  | O => None
  | S fuel =>
      if i <? last_char_pos then
        let jump := if last_char_pos -w i <? 255 then last_char_pos -w i else 255 in
        c ← at_ d i;
        charmap_loop fuel d last_char_pos (i +w 1) (<[Z.to_nat c := jump]> charmap)
      else Some charmap
  end.

Definition Contains_charmap d : option (list Z) :=
  let charmap := replicate 256 0 in
  if size d =? 0 then Some charmap
  else charmap_loop (S (length (chars d))) d (size d -w 1) 0 charmap.

(** [find_first_local] over the strings of a column *)
Fixpoint find_first_loop (fuel : nat) (get_string : Z → StringData) (cond : StringData → option bool) (s end_ : Z) : option Z :=
  match fuel with
  | O => None
  | S fuel =>
      if s <? end_ then
        found ← cond (get_string s);
        if (found : bool) then Some s else find_first_loop fuel get_string cond (s +w 1) end_
      else Some not_found
  end.

Definition Contains_find_first_local (get_string : Z → StringData) d (charmap : list Z) (start end_ : Z) : option Z :=
  find_first_loop (S (Z.to_nat (end_ - start))) get_string (λ t, contains_charmap t d charmap) start end_.

(** The constructor of [StringNode<ContainsIns>], with the case mapping of the core:
    the error, the upper and lower case of the string, and the jumps.  A
    [std::string] can be read at its size. *)
Definition string_at (l : list Z) (i : Z) : option Z :=
  if i =? Z.of_nat (length l) then Some 0 else l !! Z.to_nat i.

Fixpoint charmap_ins_loop (fuel : nat) (ucase lcase : list Z) (last_char_pos i : Z) (charmap : list Z) : option (list Z) :=
  match fuel with
  | O => None
  | S fuel =>
      if i <? last_char_pos then
        let jump := if last_char_pos -w i <? 255 then last_char_pos -w i else 255 in
        uc ← string_at ucase i;
        lc ← string_at lcase i;
        charmap_ins_loop fuel ucase lcase last_char_pos (i +w 1) (<[Z.to_nat lc := jump]> (<[Z.to_nat uc := jump]> charmap))
      else Some charmap
  end.

Record ContainsIns := mkContainsIns { error_code : bool; m_ucase : list Z; m_lcase : list Z; m_charmap : list Z }.

Definition make_ContainsIns (case_map : StringData → bool → option (list Z)) d : option ContainsIns :=
  let '(error, ucase, lcase) :=
    match case_map d true, case_map d false with
    | Some upper, Some lower => (false, upper, lower)
    | _, _ => (true, [], [])
    end in
  let charmap := replicate 256 0 in
  if size d =? 0 then Some (mkContainsIns error ucase lcase charmap)
  else
    charmap ← charmap_ins_loop (S (S (length ucase))) ucase lcase (Z.of_nat (length ucase) -w 1) 0 charmap;
    Some (mkContainsIns error ucase lcase charmap).
End Strings.
End StringData.

Import PackedArray StringData.

(** ** Occurrences of a string *)
Definition occurs_at (n l : list Z) (s : nat) : Prop := (s + length n ≤ length l)%nat ∧ take (length n) (drop s l) = n.
Definition occurs (n l : list Z) : Prop := ∃ l1 l2, l = l1 ++ n ++ l2.

Lemma occurs_iff n l : occurs n l ↔ ∃ s, occurs_at n l s.
Proof.
  split.
  - intros (l1&l2&->). exists (length l1). split; [rewrite !length_app; lia|]. by rewrite drop_app_length, take_app_length.
  - intros (s&Hs&E). exists (take s l), (drop (s + length n) l). rewrite <-drop_drop. rewrite <-E at 1. by rewrite !take_drop.
Qed.

Lemma occurs_lookup n l s i : occurs_at n l s → (i < length n)%nat → l !! (s + i)%nat = n !! i.
Proof. intros [_ E] Hi. transitivity (take (length n) (drop s l) !! i); [by rewrite lookup_take_lt, lookup_drop|by rewrite E]. Qed.

Lemma std_equal_spec l l' : std_equal l l' = true ↔ take (length l) l' = l ∧ (length l ≤ length l')%nat.
Proof.
  revert l'. induction l as [|x l IH]; intros [|y l']; simpl.
  - split; [auto|done].
  - split; [auto with lia|done].
  - split; [done|by intros [? ?]].
  - rewrite andb_true_iff, Z.eqb_eq, IH. split; [intros (->&->&?); split; [done|lia]|intros [[= -> ->] ?]; split; [done|]; split; [done|lia]].
Qed.

Lemma std_search_spec n l : n ≠ [] → std_search l n ≠ length l ↔ occurs n l.
Proof.
  intros Hn. rewrite occurs_iff. induction l as [|x l IH]; cbn [std_search length].
  - split; [done|]. intros (s&Hs&_). destruct n; [done|]. simpl in Hs. lia.
  - destruct (std_equal n (x :: l)) eqn:E.
    + apply std_equal_spec in E as [E Hl]. split; [|done]. intros _. exists 0%nat. by split.
    + rewrite Nat.succ_inj_wd_neg, IH. split.
      * intros (s&Hs&E'). exists (S s). split; [simpl; lia|done].
      * intros ([|s]&Hs&E'); [|exists s; split; [simpl in Hs; lia|done]]. exfalso.
        assert (std_equal n (x :: l) = true); [|congruence]. apply std_equal_spec. by split.
Qed.

Lemma equal_spec a b : equal a b = true ↔ a = b.
Proof.
  unfold equal, size. rewrite !andb_true_iff, Z.eqb_eq, eqb_true_iff, std_equal_spec. destruct a as [l|], b as [l'|]; simpl.
  - split; [|intros [= ->]; rewrite take_ge by done; auto]. intros [[Hl _] [E _]]. rewrite take_ge in E by lia. congruence.
  - by split; [intros [[_ ?] _]|].
  - by split; [intros [[_ ?] _]|].
  - split; [done|]. intros _. by split_and!.
Qed.

(** ** [contains] *)
Definition found_in (d a : StringData) : Prop :=
  match d, a with
  | None, _ => True
  | Some n, Some l => occurs n l
  | Some _, None => False
  end.

Lemma contains_spec a d : contains a d = true ↔ found_in d a.
Proof.
  unfold contains, size. destruct a as [l|], d as [n|]; simpl; try tauto; [|by split].
  rewrite orb_true_iff, Z.eqb_eq, negb_true_iff, Nat.eqb_neq. destruct n as [|x n].
  - split; [|by left]. intros _. by exists [], l.
  - rewrite std_search_spec by done. split; [intros [?|?]; [done|done]|by right].
Qed.

(** ** The jumps

    Where a char occurs before the last one, the search moves at least one and no
    further than from that char to the last; elsewhere it moves past the string. *)
Definition safe_jump (len : nat) (occurs_ : nat → Z → Prop) (m : nat) (c jump : Z) : Prop :=
  (jump = 0 ∨ 0 < jump ≤ Z.of_nat len - 1) ∧ ∀ i, (i < m)%nat → occurs_ i c → 0 < jump ≤ Z.of_nat len - 1 - Z.of_nat i.

Definition safe_charmap (len : nat) (occurs_ : nat → Z → Prop) (m : nat) (charmap : list Z) : Prop :=
  length charmap = 256%nat ∧ ∀ c jump, 0 ≤ c < 256 → charmap !! Z.to_nat c = Some jump → safe_jump len occurs_ m c jump.

Definition char_at (n : list Z) (i : nat) (c : Z) : Prop := n !! i = Some c.
Definition char_in (ucase lcase : list Z) (i : nat) (c : Z) : Prop := ucase !! i = Some c ∨ lcase !! i = Some c.

Lemma safe_empty len occurs_ : safe_charmap len occurs_ 0 (replicate 256 0).
Proof.
  split; [done|]. intros c jump Hc Hj. apply lookup_replicate in Hj as [-> _]. split; [by left|]. lia.
Qed.

(** The jump from position [i] *)
Definition jump_from (len i : nat) : Z := let d := Z.of_nat len - 1 - Z.of_nat i in if d <? 255 then d else 255.

(** One entry is set. *)
Lemma safe_insert len occurs_ m charmap c : safe_charmap len occurs_ m charmap → 0 ≤ c < 256 → (m < pred len)%nat →
  safe_charmap len (λ i c', occurs_ i c' ∧ (i < m)%nat ∨ i = m ∧ c' = c) (S m) (<[Z.to_nat c := jump_from len m]> charmap).
Proof.
  intros [Hlen Hs] Hc Hm. split; [by rewrite length_insert|]. intros c' jump Hc' Hj.
  assert (0 < jump_from len m ≤ Z.of_nat len - 1 - Z.of_nat m) as Hjr by (unfold jump_from; case_test; lia).
  destruct (decide (c' = c)) as [->|Hne].
  - rewrite list_lookup_insert_eq in Hj by lia. injection Hj as <-. split; [lia|]. intros k Hk _. lia.
  - rewrite list_lookup_insert_ne in Hj by lia. destruct (Hs c' jump Hc' Hj) as [Hz Hk]. split; [done|].
    intros k Hk1 [[Hk2 Hk3]|[_ ->]]; [by apply Hk|done].
Qed.

(** A second entry with the same jump *)
Lemma safe_insert_again len occurs_ m charmap c : safe_charmap len occurs_ (S m) charmap → 0 ≤ c < 256 → (m < pred len)%nat →
  safe_charmap len (λ i c', occurs_ i c' ∨ i = m ∧ c' = c) (S m) (<[Z.to_nat c := jump_from len m]> charmap).
Proof.
  intros [Hlen Hs] Hc Hm. split; [by rewrite length_insert|]. intros c' jump Hc' Hj.
  assert (0 < jump_from len m ≤ Z.of_nat len - 1 - Z.of_nat m) as Hjr by (unfold jump_from; case_test; lia).
  destruct (decide (c' = c)) as [->|Hne].
  - rewrite list_lookup_insert_eq in Hj by lia. injection Hj as <-. split; [lia|]. intros k Hk _. lia.
  - rewrite list_lookup_insert_ne in Hj by lia. destruct (Hs c' jump Hc' Hj) as [Hz Hk]. split; [done|].
    intros k Hk1 [Hk2|[_ ->]]; [by apply Hk|done].
Qed.

Lemma safe_ext len occ1 occ2 m charmap :
  safe_charmap len occ1 m charmap → (∀ i c, (i < m)%nat → occ2 i c → occ1 i c) → safe_charmap len occ2 m charmap.
Proof. intros [Hl Hs] He. split; [done|]. intros c jump Hc Hj. destruct (Hs c jump Hc Hj) as [Hz Hk]. split; [done|]. eauto. Qed.

Section Jumps.
Context {platform : CharSign}.

Lemma charmap_loop_spec n fuel : ∀ i charmap,
  bytes n → Z.of_nat (length n) ≤ npos → (i < length n)%nat → (length n - i < fuel)%nat →
  safe_charmap (length n) (char_at n) i charmap →
  ∃ charmap', charmap_loop fuel (Some n) (Z.of_nat (length n) - 1) (Z.of_nat i) charmap = Some charmap' ∧
    safe_charmap (length n) (char_at n) (pred (length n)) charmap'.
Proof.
  induction fuel as [|fuel IH]; intros i charmap Hb Hn Hi Hf Hs; [lia|]. cbn [charmap_loop].
  destruct (Z.ltb_spec (Z.of_nat i) (Z.of_nat (length n) - 1)) as [Hlt|Hge].
  2:{ exists charmap. split; [done|]. by replace (pred (length n)) with i by lia. }
  rewrite wsub_small, wadd_small by slia. unfold at_. change (chars (Some n)) with n. rewrite Nat2Z.id.
  destruct (lookup_lt_is_Some_2 n i Hi) as [c Hc]. rewrite Hc. cbn [mbind option_bind].
  pose proof (proj1 (Forall_lookup _ _) Hb _ _ Hc) as Hcb. simpl in Hcb.
  replace (Z.of_nat i + 1) with (Z.of_nat (S i)) by lia. apply IH; [done|done|lia|lia|].
  eapply safe_ext; [apply (safe_insert _ _ _ _ c Hs); [done|lia]|]. intros k c' Hk Hc'.
  destruct (decide (k = i)) as [->|]; [right|left; split; [done|lia]]. unfold char_at in *. split; [done|congruence].
Qed.

Lemma charmap_spec d : (∀ n, d = Some n → bytes n) → size d ≤ npos →
  ∃ charmap, Contains_charmap d = Some charmap ∧
    ∀ n, d = Some n → safe_charmap (length n) (char_at n) (pred (length n)) charmap.
Proof.
  intros Hb Hn. unfold Contains_charmap. destruct (Z.eqb_spec (size d) 0) as [E|Hne].
  - eexists. split; [done|]. intros n ->. unfold size in E. simpl in E. replace (pred (length n)) with 0%nat by lia. apply safe_empty.
  - destruct d as [n|]; [|done]. unfold size in *. simpl chars in *. rewrite wsub_small by slia.
    destruct (charmap_loop_spec n (S (length n)) 0 (replicate 256 0)) as (charmap&E&Hs); [by apply Hb|done|lia|lia|apply safe_empty|].
    exists charmap. split; [exact E|]. by intros ? [= <-].
Qed.

(** No occurrence ends before [p]. *)
Lemma boyer_moore_spec n l charmap last_ fuel : ∀ p,
  n ≠ [] → bytes l → Z.of_nat (length l + length n) ≤ npos → safe_charmap (length n) (char_at n) (pred (length n)) charmap →
  n !! pred (length n) = Some last_ → Z.of_nat (length n) - 1 ≤ p → (Z.to_nat (Z.of_nat (length l) - p) < fuel)%nat →
  (∀ s, occurs_at n l s → p ≤ Z.of_nat s + Z.of_nat (length n) - 1) →
  ∃ r, boyer_moore fuel (Some l) (Some n) charmap last_ p = Some r ∧ (r = true ↔ occurs n l).
Proof.
  induction fuel as [|fuel IH]; intros p Hne Hb Hln [Hlen Hsafe] Hlast Hp Hf Hno; [lia|]. cbn [boyer_moore]. unfold size, at_. change (chars (Some n)) with n. change (chars (Some l)) with l.
  destruct (Z.ltb_spec p (Z.of_nat (length l))) as [Hlt|Hge].
  2:{ exists false. split; [done|]. split; [done|]. intros [s Hs]%occurs_iff. specialize (Hno s Hs). destruct Hs. lia. }
  assert (0 < length n)%nat as Hn0 by (destruct n; [done|simpl; lia]).
  destruct (lookup_lt_is_Some_2 l (Z.to_nat p)) as [c Hc]; [lia|]. rewrite Hc. cbn [mbind option_bind].
  set (start := (Z.to_nat p - pred (length n))%nat).
  assert (∃ r, (if c =? last_ then
      candidate ← substr (Some l) (p -w Z.of_nat (length n) +w 1) (Z.of_nat (length n)); Some (equal candidate (Some n))
      else Some false) = Some r ∧ (r = true ↔ occurs_at n l start)) as (r&->&Hr).
  { destruct (Z.eqb_spec c last_) as [->|Hd].
    - replace (p -w Z.of_nat (length n) +w 1) with (Z.of_nat start) by (unfold wadd, wsub; rewrite wrap_add_l, wrap_small by slia; unfold start; lia).
      unfold substr. rewrite !Nat2Z.id. rewrite (proj2 (Nat.leb_le _ _)) by (unfold start; lia). cbn [mbind option_bind].
      eexists. split; [done|]. rewrite equal_spec. unfold occurs_at. split; [intros [= E]|intros [_ E]; congruence].
      split; [unfold start; lia|done].
    - exists false. split; [done|]. split; [done|]. intros Ho. exfalso. apply Hd.
      pose proof (occurs_lookup _ _ _ (pred (length n)) Ho ltac:(lia)) as E.
      replace (start + pred (length n))%nat with (Z.to_nat p) in E by (unfold start; lia). congruence. }
  cbn [mbind option_bind]. destruct r.
  { exists true. split; [done|]. split; [|done]. intros _. apply occurs_iff. exists start. by apply Hr. }
  pose proof (proj1 (Forall_lookup _ _) Hb _ _ Hc) as Hcb. simpl in Hcb.
  destruct (lookup_lt_is_Some_2 charmap (Z.to_nat c)) as [jump Hj]; [lia|]. rewrite Hj. cbn [mbind option_bind].
  destruct (Hsafe c jump Hcb Hj) as [Hz Hk].
  assert (∀ s, occurs_at n l s → p < Z.of_nat s + Z.of_nat (length n) - 1) as Hafter.
  { intros s Hs. specialize (Hno s Hs). destruct (decide (s = start)) as [->|]; [by apply Hr in Hs|]. unfold start in *. lia. }
  set (p' := if jump =? 0 then p +w Z.of_nat (length n) else p +w jump).
  assert (p' = p + if decide (jump = 0) then Z.of_nat (length n) else jump) as Ep.
  { unfold p'. case_decide; case_test; try done; rewrite wadd_small; slia. }
  apply (IH p'); [done..|by split|done| | |]; [rewrite Ep; case_decide; lia..|].
  intros s Hs. specialize (Hafter s Hs). destruct (decide (p' ≤ Z.of_nat s + Z.of_nat (length n) - 1)) as [|Hgt]; [done|exfalso].
  set (i := (Z.to_nat p - s)%nat). assert (i < pred (length n))%nat as Hi by (unfold i; rewrite Ep in Hgt; case_decide; lia).
  pose proof (occurs_lookup _ _ _ i Hs ltac:(lia)) as E.
  assert (s + i = Z.to_nat p)%nat as Esi by (unfold i; rewrite Ep in Hgt; case_decide; lia). rewrite Esi, Hc in E.
  destruct (Hk i Hi (eq_sym E)). rewrite Ep, decide_False in Hgt by lia. unfold i in *. lia.
Qed.

(** Searching with the jumps of the string is [contains]. *)
Lemma contains_charmap_spec a d charmap :
  (∀ l, a = Some l → bytes l) → size a + size d ≤ npos →
  (∀ n, d = Some n → safe_charmap (length n) (char_at n) (pred (length n)) charmap) →
  contains_charmap a d charmap = Some (contains a d).
Proof.
  intros Hb Hn Hs. destruct (contains a d) eqn:E; unfold contains_charmap.
  - apply contains_spec in E. destruct d as [n|]; [|by rewrite andb_false_r]. destruct a as [l|]; [|done]. simpl in E.
    cbn [is_null negb andb]. unfold size in *. simpl chars in *. destruct (Z.eqb_spec (Z.of_nat (length n)) 0); [done|].
    rewrite wsub_small by slia. unfold at_. simpl chars. destruct (lookup_lt_is_Some_2 n (pred (length n))) as [c Hc]; [lia|].
    replace (Z.to_nat (Z.of_nat (length n) - 1)) with (pred (length n)) by lia. rewrite Hc. cbn [mbind option_bind].
    destruct (boyer_moore_spec n l charmap c (S (length l)) (Z.of_nat (length n) - 1)) as (r&->&Hr);
      [by intros ->|by apply Hb|lia|by apply Hs|done|lia|lia|intros s _; lia|]. f_equal. by apply Hr.
  - assert (¬ found_in d a) as Hnot by (rewrite <-contains_spec, E; done). destruct d as [n|]; [|done]. destruct a as [l|]; [|done].
    simpl in Hnot. cbn [is_null negb andb]. unfold size in *. simpl chars in *. destruct (Z.eqb_spec (Z.of_nat (length n)) 0).
    { destruct n; [|done]. exfalso. apply Hnot. by exists [], l. }
    rewrite wsub_small by slia. unfold at_. simpl chars. destruct (lookup_lt_is_Some_2 n (pred (length n))) as [c Hc]; [lia|].
    replace (Z.to_nat (Z.of_nat (length n) - 1)) with (pred (length n)) by lia. rewrite Hc. cbn [mbind option_bind].
    destruct (boyer_moore_spec n l charmap c (S (length l)) (Z.of_nat (length n) - 1)) as (r&->&Hr);
      [by intros ->|by apply Hb|lia|by apply Hs|done|lia|lia|intros s _; lia|]. f_equal. destruct r; [|done]. by destruct Hnot; apply Hr.
Qed.

Lemma find_first_spec get_string (cond : StringData → option bool) (P : StringData → Prop) fuel : ∀ s end_,
  (∀ t, s ≤ t < end_ → ∃ r, cond (get_string t) = Some r ∧ (r = true ↔ P (get_string t))) →
  0 ≤ s ≤ end_ → end_ ≤ npos → (Z.to_nat (end_ - s) < fuel)%nat →
  ∃ r, find_first_loop fuel get_string cond s end_ = Some r ∧
    (r = not_found ∧ (∀ t, s ≤ t < end_ → ¬ P (get_string t)) ∨
     s ≤ r < end_ ∧ P (get_string r) ∧ ∀ t, s ≤ t < r → ¬ P (get_string t)).
Proof.
  induction fuel as [|fuel IH]; intros s end_ Hcond Hs Hend Hf; [lia|]. cbn [find_first_loop].
  destruct (Z.ltb_spec s end_) as [Hlt|Hge]; [|exists not_found; split; [done|left; split; [done|lia]]].
  destruct (Hcond s) as (r&->&Hr); [lia|]. cbn [mbind option_bind]. destruct r.
  - exists s. split; [done|]. right. split; [lia|]. split; [by apply Hr|lia].
  - assert (¬ P (get_string s)) as Hno by (intros H; by apply Hr in H). rewrite wadd_small by slia.
    destruct (IH (s + 1) end_) as (r&->&Hr'); [intros t Ht; apply Hcond; lia|lia|done|lia|]. exists r. split; [done|].
    destruct Hr' as [[-> Hnone]|(Hin&HP&Hnone)]; [left|right]; (split; [(done || lia)|]).
    + intros t Ht. destruct (decide (t = s)) as [->|]; [done|apply Hnone; lia].
    + split; [done|]. intros t Ht. destruct (decide (t = s)) as [->|]; [done|apply Hnone; lia].
Qed.

(** C18: equivalence.  Searching the strings of a column with the jumps that the
    condition computes is searching them char by char: the jumps exist for every
    string, with them the Boyer-Moore search finds a string exactly where
    [contains] does, null and empty strings included, and the first row found is
    the first whose text contains the string. *)
Theorem boyer_moore_exact get_string d start end_ :
  (∀ n, d = Some n → bytes n) → size d ≤ npos →
  (∀ s l, get_string s = Some l → bytes l ∧ Z.of_nat (length l) + size d ≤ npos) → 0 ≤ start ≤ end_ → end_ ≤ npos →
  ∃ charmap r, Contains_charmap d = Some charmap ∧
    (∀ s, contains_charmap (get_string s) d charmap = Some (contains (get_string s) d)) ∧
    (∀ s, contains (get_string s) d = true ↔ found_in d (get_string s)) ∧
    Contains_find_first_local get_string d charmap start end_ = Some r ∧
    (r = not_found ∧ (∀ s, start ≤ s < end_ → ¬ found_in d (get_string s)) ∨
     start ≤ r < end_ ∧ found_in d (get_string r) ∧ ∀ s, start ≤ s < r → ¬ found_in d (get_string s)).
Proof.
  intros Hd Hn Hrows Hs Hend. destruct (charmap_spec d Hd Hn) as (charmap&Hc&Hsafe).
  assert (∀ s, contains_charmap (get_string s) d charmap = Some (contains (get_string s) d)) as Hall.
  { intros s. apply contains_charmap_spec; [intros l Hl; by apply (Hrows s)| |done].
    destruct (get_string s) as [l|] eqn:E; [apply (Hrows s l E)|unfold size at 1; simpl; lia]. }
  destruct (find_first_spec get_string (λ t, contains_charmap t d charmap) (found_in d) (S (Z.to_nat (end_ - start))) start end_)
    as (r&Hr&Hfirst); [|done..|lia|].
  { intros t _. exists (contains (get_string t) d). split; [apply Hall|apply contains_spec]. }
  exists charmap, r. split; [done|]. split; [done|]. split; [intros; apply contains_spec|]. by split.
Qed.

(** ** Search without case *)
Lemma charmap_ins_loop_spec u l fuel : ∀ i charmap,
  bytes u → bytes l → length l = length u → Z.of_nat (length u) ≤ npos → (i < length u)%nat → (length u - i < fuel)%nat →
  safe_charmap (length u) (char_in u l) i charmap →
  ∃ charmap', charmap_ins_loop fuel u l (Z.of_nat (length u) - 1) (Z.of_nat i) charmap = Some charmap' ∧
    safe_charmap (length u) (char_in u l) (pred (length u)) charmap'.
Proof.
  induction fuel as [|fuel IH]; intros i charmap Hu Hl Hlen Hn Hi Hf Hs; [lia|]. cbn [charmap_ins_loop].
  destruct (Z.ltb_spec (Z.of_nat i) (Z.of_nat (length u) - 1)) as [Hlt|Hge].
  2:{ exists charmap. split; [done|]. by replace (pred (length u)) with i by lia. }
  rewrite wsub_small, wadd_small by slia. unfold string_at. rewrite Hlen, !(proj2 (Z.eqb_neq (Z.of_nat i) _)), Nat2Z.id by lia.
  destruct (lookup_lt_is_Some_2 u i Hi) as [c Hc]. destruct (lookup_lt_is_Some_2 l i) as [c' Hc']; [lia|]. rewrite Hc, Hc'.
  cbn [mbind option_bind]. pose proof (proj1 (Forall_lookup _ _) Hu _ _ Hc) as Hcb. simpl in Hcb.
  pose proof (proj1 (Forall_lookup _ _) Hl _ _ Hc') as Hcb'. simpl in Hcb'.
  replace (Z.of_nat i + 1) with (Z.of_nat (S i)) by lia. apply IH; [done..|lia|lia|].
  pose proof (safe_insert _ _ _ _ c Hs Hcb ltac:(lia)) as Hs1.
  eapply safe_ext; [apply (safe_insert_again _ _ _ _ c' Hs1); [done|lia]|].
  intros k x Hk Hx. unfold char_in in *. simpl. destruct (decide (k = i)) as [->|]; [|left; left; split; [done|lia]].
  destruct Hx as [Hx|Hx]; [left; right|right]; (split; [done|congruence]).
Qed.

(** Error behaviour.  The condition that ignores case computes safe jumps for a
    string that has an upper and a lower case of its size; for any other string
    that is not empty it notes the error, but goes on and reads past the end of the
    empty strings that stand for the cases. *)
Theorem malformed_string_reads_past case_map d :
  (∀ n, d = Some n → bytes n ∧ Z.of_nat (length n) ≤ npos) →
  (∀ d upper s, case_map d upper = Some s → bytes s ∧ Z.of_nat (length s) = size d) → size d ≠ 0 →
  match case_map d true, case_map d false with
  | Some u, Some l => ∃ node, make_ContainsIns case_map d = Some node ∧ error_code node = false ∧
      m_ucase node = u ∧ m_lcase node = l ∧ safe_charmap (length u) (char_in u l) (pred (length u)) (m_charmap node)
  | _, _ => make_ContainsIns case_map d = None
  end.
Proof.
  intros Hd Hcase Hne. assert (size d ≤ npos) as Hn.
  { destruct d as [n|]; [apply (Hd n); done|unfold size; simpl; slia]. }
  unfold make_ContainsIns. rewrite (proj2 (Z.eqb_neq _ _) Hne).
  destruct (case_map d true) as [u|] eqn:Eu; [destruct (case_map d false) as [l|] eqn:El|]; [|by vm_compute..].
  destruct (Hcase _ _ _ Eu) as [Hu Hul]. destruct (Hcase _ _ _ El) as [Hl Hll]. rewrite wsub_small by slia.
  destruct (charmap_ins_loop_spec u l (S (S (length u))) 0 (replicate 256 0)) as (charmap&E&Hs);
    [done|done|lia|lia|unfold size in *; lia|lia|apply safe_empty|].
  change (Z.of_nat 0) with 0 in E. rewrite E. cbn [mbind option_bind]. by eexists.
Qed.
End Jumps.

(** ** Examples *)
Section Examples.
#[local] Instance signed_char : CharSign := true.

Definition text : list Z := [97; 98; 97; 98; 99; 98; 97].
Definition rows (s : Z) : StringData := if s =? 1 then Some text else if s =? 2 then None else Some [98; 99].

Lemma boyer_moore_exact_witness :
  ∃ charmap, Contains_charmap (Some [97; 98; 99]) = Some charmap ∧
    Contains_find_first_local rows (Some [97; 98; 99]) charmap 0 3 = Some 1.
Proof.
  destruct (boyer_moore_exact rows (Some [97; 98; 99]) 0 3) as (charmap&r&Hc&_&_&Hr&_).
  - intros n [= <-]. by_decision.
  - unfold size. simpl. slia.
  - intros s l. unfold rows, size. repeat case_test; intros [= <-]; (split; [by_decision|simpl; slia]).
  - lia.
  - slia.
  - exists charmap. split; [exact Hc|]. vm_compute in Hc. injection Hc as <-. rewrite Hr. rewrite <-Hr. by vm_compute.
Defined.

(** A case mapping that knows no valid string *)
Lemma malformed_string_reads_past_witness : make_ContainsIns (λ _ _, None) (Some [195; 40]) = None.
Proof.
  apply (malformed_string_reads_past (λ _ _, None) (Some [195; 40])).
  - intros n [= <-]. split; [by_decision|simpl; slia].
  - done.
  - done.
Defined.
End Examples.
