(* ===== verification/Utf8.v ===== *)
(** Transcoding between UTF-8 and UTF-16 ([Utf8x16], core/realm/util/utf8.hpp).

    The input is what is left of it from [in_begin] on, as unsigned bytes or as
    units of 16 bits, the output buffer is the number of elements that fit into
    it.  A call returns whether the input is valid as far as it looked, the input
    left, and the output written.  [Traits16] converts units to integers and back
    without a change.  Both
    directions are exact with respect to the two encodings of Unicode. *)
From S2P Require Import Prelude SafeInt Property PackedArray.

Module Utf8x16.

Definition Result : Type := bool * list Z * list Z.

(** [*out++ = ...; in += ...; continue;] *)
Definition emit (units : list Z) (r : Result) : Result := let '(ok, rest, out) := r in (ok, rest, units ++ out).

(** [(v & 0xC0) != 0x80] *)
Definition not_continuation (v : Z) : bool := negb (Z.land v 192 =? 128).

Fixpoint to_utf16 (in_ : list Z) (space : nat) : Result :=
  let invalid := (false, in_, []) in
  let full := (true, in_, []) in
  match in_ with
  | [] => (true, in_, [])
  | v1 :: in1 =>
      match space with
      | O => full
      | S space1 =>
          if v1 <? 128 then emit [v1] (to_utf16 in1 space1)
          else if v1 <? 192 then invalid
          else if v1 <? 224 then
            match in1 with
            | v2 :: in2 =>
                if not_continuation v2 then invalid else
                let v := Z.lor (Z.shiftl (Z.land v1 31) 6) (Z.shiftl (Z.land v2 63) 0) in
                if v <? 128 then invalid else
                emit [v] (to_utf16 in2 space1)
            | _ => invalid
            end
          else if v1 <? 240 then
            match in1 with
            | v2 :: v3 :: in3 =>
                if not_continuation v2 || not_continuation v3 then invalid else
                let v := Z.lor (Z.lor (Z.shiftl (Z.land v1 15) 12) (Z.shiftl (Z.land v2 63) 6)) (Z.shiftl (Z.land v3 63) 0) in
                if v <? 2048 then invalid else
                if (55296 <=? v) && (v <? 57344) then invalid else
                emit [v] (to_utf16 in3 space1)
            | _ => invalid
            end
          else
            match space1 with
            | O => full
            | S space2 =>
                if v1 <? 248 then
                  match in1 with
                  | v2 :: v3 :: v4 :: in4 =>
                      if not_continuation v2 || not_continuation v3 || not_continuation v4 then invalid else
                      let v := Z.lor (Z.lor (Z.lor (Z.shiftl (Z.land v1 7) 18) (Z.shiftl (Z.land v2 63) 12))
                                            (Z.shiftl (Z.land v3 63) 6)) (Z.shiftl (Z.land v4 63) 0) in
                      if v <? 65536 then invalid else
                      if 1114112 <=? v then invalid else
                      let v := v - 65536 in
                      emit [55296 + v / 1024; 56320 + v mod 1024] (to_utf16 in4 space2)
                  | _ => invalid
                  end
                else invalid
            end
      end
  end.

Fixpoint to_utf8 (in_ : list Z) (space : nat) : Result :=
  let invalid := (false, in_, []) in
  let full := (true, in_, []) in
  match in_ with
  | [] => (true, in_, [])
  | v1 :: in1 =>
      if v1 <? 128 then
        if (space =? 0)%nat then full else
        emit [v1] (to_utf8 in1 (space - 1))
      else if v1 <? 2048 then
        if (space <? 2)%nat then full else
        emit [192 + v1 / 64; 128 + v1 mod 64] (to_utf8 in1 (space - 2))
      else if (v1 <? 55296) || (57344 <=? v1) then
        if (space <? 3)%nat then full else
        emit [224 + v1 / 4096; 128 + (v1 / 64) mod 64; 128 + v1 mod 64] (to_utf8 in1 (space - 3))
      else
        if (space <? 4)%nat then full else
        if 56320 <=? v1 then invalid else
        match in1 with
        | [] => invalid
        | v2 :: in2 =>
            if (v2 <? 56320) || (57344 <=? v2) then invalid else
            let v := 65536 + ((v1 - 55296) * 1024 + (v2 - 56320)) in
            emit [240 + v / 262144; 128 + (v / 4096) mod 64; 128 + (v / 64) mod 64; 128 + v mod 64]
                 (to_utf8 in2 (space - 4))
        end
  end.

(** The size that the output needs, and the input left.  The inner matches are
    [in_end - in < n]. *)
Fixpoint find_utf16_buf_size_loop (in_ : list Z) (num_out : Z) : Z * list Z :=
  match in_ with
  | [] => (num_out, in_)
  | v1 :: in1 =>
      if v1 <? 128 then find_utf16_buf_size_loop in1 (num_out +w 1)
      else if v1 <? 192 then (num_out, in_)
      else if v1 <? 224 then
        match in1 with _ :: in2 => find_utf16_buf_size_loop in2 (num_out +w 1) | _ => (num_out, in_) end
      else if v1 <? 240 then
        match in1 with _ :: _ :: in3 => find_utf16_buf_size_loop in3 (num_out +w 1) | _ => (num_out, in_) end
      else if v1 <? 248 then
        match in1 with _ :: _ :: _ :: in4 => find_utf16_buf_size_loop in4 (num_out +w 2) | _ => (num_out, in_) end
      else (num_out, in_)
  end.

Definition find_utf16_buf_size (in_ : list Z) : Z * list Z := find_utf16_buf_size_loop in_ 0.

(** [int_add_with_overflow_detect(num_out, n)] *)
Definition add_size (num_out n : Z) : option (bool * Z) := int_add_with_overflow_detect size_t int_t num_out n.

Fixpoint find_utf8_buf_size_loop (in_ : list Z) (num_out : Z) : option (Z * list Z) :=
  match in_ with
  | [] => Some (num_out, in_)
  | v :: in1 =>
      if v <? 128 then
        '(overflow, num_out) ← add_size num_out 1;
        if (overflow : bool) then Some (num_out, in_) else find_utf8_buf_size_loop in1 num_out
      else if v <? 2048 then
        '(overflow, num_out) ← add_size num_out 2;
        if (overflow : bool) then Some (num_out, in_) else find_utf8_buf_size_loop in1 num_out
      else if (v <? 55296) || (57344 <=? v) then
        '(overflow, num_out) ← add_size num_out 3;
        if (overflow : bool) then Some (num_out, in_) else find_utf8_buf_size_loop in1 num_out
      else
        match in1 with
        | [] => Some (num_out, in_)
        | _ :: in2 =>
            '(overflow, num_out) ← add_size num_out 4;
            if (overflow : bool) then Some (num_out, in_) else find_utf8_buf_size_loop in2 num_out
        end
  end.

Definition find_utf8_buf_size (in_ : list Z) : option (Z * list Z) := find_utf8_buf_size_loop in_ 0.
End Utf8x16.

Import Utf8x16.

(** ** The encodings *)
Definition scalar (c : Z) : Prop := 0 ≤ c < 55296 ∨ 57344 ≤ c < 1114112.

Definition utf8 (c : Z) : list Z :=
  if c <? 128 then [c]
  else if c <? 2048 then [192 + c / 64; 128 + c mod 64]
  else if c <? 65536 then [224 + c / 4096; 128 + (c / 64) mod 64; 128 + c mod 64]
  else [240 + c / 262144; 128 + (c / 4096) mod 64; 128 + (c / 64) mod 64; 128 + c mod 64].

Definition utf16 (c : Z) : list Z :=
  if c <? 65536 then [c] else [55296 + (c - 65536) / 1024; 56320 + (c - 65536) mod 1024].

Definition units (l : list Z) : Prop := Forall (λ x, 0 ≤ x < 65536) l.

(** Arithmetic with quotients and remainders by constants *)
Ltac digits := repeat match goal with H : _ ∧ _ |- _ => destruct H end; Z.div_mod_to_equations; lia.

Lemma utf8_nonempty c : utf8 c ≠ [].
Proof. unfold utf8. by repeat case_match. Qed.

Lemma utf16_nonempty c : utf16 c ≠ [].
Proof. unfold utf16. by case_match. Qed.

(** ** Bits *)
Lemma continuation_check : forallb (λ v, eqb (not_continuation v) (negb ((128 <=? v) && (v <? 192)))) (below 256) = true.
Proof. by vm_compute. Qed.

Lemma not_continuation_spec v : 0 ≤ v < 256 → not_continuation v = negb ((128 <=? v) && (v <? 192)).
Proof. intros Hv. apply (forallb_below _ _ v continuation_check) in Hv. by apply eqb_prop in Hv. Qed.

Lemma group a b : 0 ≤ b < 64 → Z.lor (Z.shiftl a 6) b = a * 64 + b.
Proof. intros Hb. rewrite Z.lor_comm, lor_disjoint by (change (2 ^ 6) with 64; lia). change (2 ^ 6) with 64. lia. Qed.

Lemma group_two a b : 0 ≤ b < 64 → Z.lor (Z.shiftl a 6) (Z.shiftl b 0) = a * 64 + b.
Proof. rewrite Z.shiftl_0_r. apply group. Qed.

Lemma group_three a b c : 0 ≤ b < 64 → 0 ≤ c < 64 →
  Z.lor (Z.lor (Z.shiftl a 12) (Z.shiftl b 6)) (Z.shiftl c 0) = (a * 64 + b) * 64 + c.
Proof.
  intros. rewrite Z.shiftl_0_r. change 12 with (6 + 6). rewrite <-Z.shiftl_shiftl, <-Z.shiftl_lor by done. by rewrite !group.
Qed.

Lemma group_four a b c d : 0 ≤ b < 64 → 0 ≤ c < 64 → 0 ≤ d < 64 →
  Z.lor (Z.lor (Z.lor (Z.shiftl a 18) (Z.shiftl b 12)) (Z.shiftl c 6)) (Z.shiftl d 0) = ((a * 64 + b) * 64 + c) * 64 + d.
Proof.
  intros. rewrite Z.shiftl_0_r. change 18 with (12 + 6). change 12 with (6 + 6) at 2.
  rewrite <-!Z.shiftl_shiftl, <-!Z.shiftl_lor by done. change 12 with (6 + 6). rewrite <-Z.shiftl_shiftl, <-!Z.shiftl_lor by done.
  by rewrite !group.
Qed.

Lemma land_63 v : Z.land v 63 = v mod 64.
Proof. change 63 with (Z.ones 6). by rewrite Z.land_ones. Qed.
Lemma land_31 v : Z.land v 31 = v mod 32.
Proof. change 31 with (Z.ones 5). by rewrite Z.land_ones. Qed.
Lemma land_15 v : Z.land v 15 = v mod 16.
Proof. change 15 with (Z.ones 4). by rewrite Z.land_ones. Qed.
Lemma land_7 v : Z.land v 7 = v mod 8.
Proof. change 7 with (Z.ones 3). by rewrite Z.land_ones. Qed.

Create Rewrite HintDb utf.
#[local] Hint Rewrite land_63 land_31 land_15 land_7 : utf.

(** The groups of bits of a sequence as one number *)
Lemma value_two v1 v2 : Z.lor (Z.shiftl (Z.land v1 31) 6) (Z.shiftl (Z.land v2 63) 0) = v1 mod 32 * 64 + v2 mod 64.
Proof. autorewrite with utf. apply group_two. apply Z.mod_pos_bound. lia. Qed.

Lemma value_three v1 v2 v3 :
  Z.lor (Z.lor (Z.shiftl (Z.land v1 15) 12) (Z.shiftl (Z.land v2 63) 6)) (Z.shiftl (Z.land v3 63) 0) =
  (v1 mod 16 * 64 + v2 mod 64) * 64 + v3 mod 64.
Proof. autorewrite with utf. apply group_three; apply Z.mod_pos_bound; lia. Qed.

Lemma value_four v1 v2 v3 v4 :
  Z.lor (Z.lor (Z.lor (Z.shiftl (Z.land v1 7) 18) (Z.shiftl (Z.land v2 63) 12)) (Z.shiftl (Z.land v3 63) 6)) (Z.shiftl (Z.land v4 63) 0) =
  ((v1 mod 8 * 64 + v2 mod 64) * 64 + v3 mod 64) * 64 + v4 mod 64.
Proof. autorewrite with utf. apply group_four; apply Z.mod_pos_bound; lia. Qed.

(** Decide the tests of the goal, which follow from the hypotheses *)
Ltac test b v := let H := fresh in assert (b = v) as H; [|rewrite H; clear H; cbv beta iota; cbn [orb andb negb]].

(** ** To UTF-16 *)
Lemma to_utf16_scalar c rest space :
  scalar c → (length (utf16 c) ≤ space)%nat →
  to_utf16 (utf8 c ++ rest) space = emit (utf16 c) (to_utf16 rest (space - length (utf16 c))).
Proof.
  intros Hc. unfold utf8, utf16. destruct (Z.ltb_spec c 128).
  { rewrite (proj2 (Z.ltb_lt c 65536)) by lia. intros Hs. destruct space as [|space]; [simpl in Hs; lia|].
    cbn [app to_utf16]. test (c <? 128) true; [lia|]. simpl length. by rewrite Nat.sub_1_r. }
  destruct (Z.ltb_spec c 2048).
  { rewrite (proj2 (Z.ltb_lt c 65536)) by lia. intros Hs. destruct space as [|space]; [simpl in Hs; lia|].
    assert (2 ≤ c / 64 < 32 ∧ 0 ≤ c mod 64 < 64 ∧ c = c / 64 * 64 + c mod 64) as (Ra&Rb&E) by digits.
    set (a := c / 64) in *. set (b := c mod 64) in *. clearbody a b.
    cbn [app to_utf16]. test (192 + a <? 128) false; [lia|]. test (192 + a <? 192) false; [lia|]. test (192 + a <? 224) true; [lia|].
    rewrite not_continuation_spec by lia. test (negb ((128 <=? 128 + b) && (128 + b <? 192))) false; [lia|].
    rewrite value_two. replace ((192 + a) mod 32 * 64 + (128 + b) mod 64) with c by digits.
    test (c <? 128) false; [lia|]. simpl length. by rewrite Nat.sub_1_r. }
  destruct (Z.ltb_spec c 65536).
  { intros Hs. destruct space as [|space]; [simpl in Hs; lia|].
    assert (0 ≤ c / 4096 < 16 ∧ 0 ≤ (c / 64) mod 64 < 64 ∧ 0 ≤ c mod 64 < 64 ∧ c = (c / 4096 * 64 + (c / 64) mod 64) * 64 + c mod 64)
      as (Ra&Rb&Rc&E) by digits.
    set (a := c / 4096) in *. set (b := (c / 64) mod 64) in *. set (d := c mod 64) in *. clearbody a b d.
    cbn [app to_utf16]. test (224 + a <? 128) false; [lia|]. test (224 + a <? 192) false; [lia|]. test (224 + a <? 224) false; [lia|].
    test (224 + a <? 240) true; [lia|]. rewrite !not_continuation_spec by lia.
    test (negb ((128 <=? 128 + b) && (128 + b <? 192))) false; [lia|]. test (negb ((128 <=? 128 + d) && (128 + d <? 192))) false; [lia|].
    rewrite value_three. replace (((224 + a) mod 16 * 64 + (128 + b) mod 64) * 64 + (128 + d) mod 64) with c by digits.
    test (c <? 2048) false; [lia|]. test ((55296 <=? c) && (c <? 57344)) false; [unfold scalar in Hc; lia|]. simpl length. by rewrite Nat.sub_1_r. }
  intros Hs. destruct space as [|[|space]]; [simpl in Hs; lia..|].
  assert (c < 1114112) by (unfold scalar in Hc; lia).
  assert (0 ≤ c / 262144 < 8 ∧ 0 ≤ (c / 4096) mod 64 < 64 ∧ 0 ≤ (c / 64) mod 64 < 64 ∧ 0 ≤ c mod 64 < 64 ∧
    c = ((c / 262144 * 64 + (c / 4096) mod 64) * 64 + (c / 64) mod 64) * 64 + c mod 64) as (Ra&Rb&Rc&Rd&E) by digits.
  set (a := c / 262144) in *. set (b := (c / 4096) mod 64) in *. set (d := (c / 64) mod 64) in *. set (e := c mod 64) in *. clearbody a b d e.
  cbn [app to_utf16]. test (240 + a <? 128) false; [lia|]. test (240 + a <? 192) false; [lia|]. test (240 + a <? 224) false; [lia|].
  test (240 + a <? 240) false; [lia|]. test (240 + a <? 248) true; [lia|]. rewrite !not_continuation_spec by lia.
  test (negb ((128 <=? 128 + b) && (128 + b <? 192))) false; [lia|]. test (negb ((128 <=? 128 + d) && (128 + d <? 192))) false; [lia|].
  test (negb ((128 <=? 128 + e) && (128 + e <? 192))) false; [lia|]. rewrite value_four.
  replace ((((240 + a) mod 8 * 64 + (128 + b) mod 64) * 64 + (128 + d) mod 64) * 64 + (128 + e) mod 64) with c by digits.
  test (c <? 65536) false; [lia|]. test (1114112 <=? c) false; [lia|]. simpl length. by rewrite Nat.sub_succ, Nat.sub_1_r.
Qed.

(** A surrogate pair does not fit into one unit. *)
Lemma to_utf16_pair c rest : 65536 ≤ c < 1114112 → to_utf16 (utf8 c ++ rest) 1 = (true, utf8 c ++ rest, []).
Proof.
  intros Hc. assert (0 ≤ c / 262144) as Ra by digits. unfold utf8.
  test (c <? 128) false; [lia|]. test (c <? 2048) false; [lia|]. test (c <? 65536) false; [lia|]. cbn [app to_utf16].
  test (240 + c / 262144 <? 128) false; [lia|]. test (240 + c / 262144 <? 192) false; [lia|].
  test (240 + c / 262144 <? 224) false; [lia|]. test (240 + c / 262144 <? 240) false; [lia|]. done.
Qed.

(** Where the output does not fit *)
Definition full16 (l : list Z) (space : nat) : Prop :=
  l ≠ [] ∧ (space = 0%nat ∨ space = 1%nat ∧ ∃ v1 rest, l = v1 :: rest ∧ 240 ≤ v1).

Definition begins_with_scalar (encode : Z → list Z) (l : list Z) : Prop := ∃ c rest, scalar c ∧ l = encode c ++ rest.

(** One sequence is read, or the transcoding stops. *)
Lemma to_utf16_step l space : bytes l →
  l = [] ∨ to_utf16 l space = (true, l, []) ∧ full16 l space ∨ to_utf16 l space = (false, l, []) ∨
  ∃ c rest, scalar c ∧ l = utf8 c ++ rest ∧ (length (utf16 c) ≤ space)%nat.
Proof.
  intros Hb. destruct l as [|v1 in1]; [by left|right]. apply Forall_cons in Hb as [Hv1 Hb].
  destruct space as [|space1]; [left; split; [done|split; [done|by left]]|]. cbn [to_utf16].
  destruct (Z.ltb_spec v1 128).
  { right. right. exists v1, in1. split; [left; lia|]. unfold utf8, utf16. test (v1 <? 128) true; [lia|].
    test (v1 <? 65536) true; [lia|]. split; [done|simpl; lia]. }
  destruct (Z.ltb_spec v1 192); [by right; left|]. destruct (Z.ltb_spec v1 224).
  { destruct in1 as [|v2 in2]; [by right; left|]. apply Forall_cons in Hb as [Hv2 Hb].
    rewrite not_continuation_spec by done. destruct (Z.leb_spec 128 v2); [|by right; left]. destruct (Z.ltb_spec v2 192); [|by right; left].
    cbn [andb negb]. rewrite value_two. destruct (Z.ltb_spec (v1 mod 32 * 64 + v2 mod 64) 128) as [|Hc]; [by right; left|]. right; right.
    set (c := (v1 - 192) * 64 + (v2 - 128)). assert (v1 mod 32 * 64 + v2 mod 64 = c) as E by (unfold c; digits).
    rewrite E in *. exists c, in2. split; [unfold scalar, c; lia|]. unfold utf8, utf16.
    test (c <? 128) false; [lia|]. test (c <? 2048) true; [unfold c; lia|]. test (c <? 65536) true; [unfold c; lia|].
    split; [|simpl; lia]. replace (192 + c / 64) with v1 by (unfold c; digits). by replace (128 + c mod 64) with v2 by (unfold c; digits). }
  destruct (Z.ltb_spec v1 240).
  { destruct in1 as [|v2 [|v3 in3]]; [by right; left..|]. apply Forall_cons in Hb as [Hv2 Hb]. apply Forall_cons in Hb as [Hv3 Hb].
    rewrite !not_continuation_spec by done.
    destruct (Z.leb_spec 128 v2); [|by right; left]. destruct (Z.ltb_spec v2 192); [|by right; left].
    destruct (Z.leb_spec 128 v3); [|by right; left]. destruct (Z.ltb_spec v3 192); [|by right; left].
    cbn [andb negb orb]. rewrite value_three. set (c := ((v1 - 224) * 64 + (v2 - 128)) * 64 + (v3 - 128)).
    assert ((v1 mod 16 * 64 + v2 mod 64) * 64 + v3 mod 64 = c) as -> by (unfold c; digits).
    destruct (Z.ltb_spec c 2048); [by right; left|].
    destruct (Z.leb_spec 55296 c); [destruct (Z.ltb_spec c 57344); [by right; left|]|]; right; right.
    all: exists c, in3; split; [unfold scalar, c in *; lia|]; unfold utf8, utf16;
      test (c <? 128) false; [lia|]; test (c <? 2048) false; [lia|]; test (c <? 65536) true; [unfold c; lia|]; split; [|simpl; lia].
    all: replace (224 + c / 4096) with v1 by (unfold c; digits); replace (128 + (c / 64) mod 64) with v2 by (unfold c; digits);
      by replace (128 + c mod 64) with v3 by (unfold c; digits). }
  destruct space1 as [|space2]; [left; split; [done|split; [done|right; split; [done|by eexists _, _]]]|].
  destruct (Z.ltb_spec v1 248); [|by right; left].
  destruct in1 as [|v2 [|v3 [|v4 in4]]]; [by right; left..|].
  apply Forall_cons in Hb as [Hv2 Hb]. apply Forall_cons in Hb as [Hv3 Hb]. apply Forall_cons in Hb as [Hv4 Hb].
  rewrite !not_continuation_spec by done.
  destruct (Z.leb_spec 128 v2); [|by right; left]. destruct (Z.ltb_spec v2 192); [|by right; left].
  destruct (Z.leb_spec 128 v3); [|by right; left]. destruct (Z.ltb_spec v3 192); [|by right; left].
  destruct (Z.leb_spec 128 v4); [|by right; left]. destruct (Z.ltb_spec v4 192); [|by right; left].
  cbn [andb negb orb]. rewrite value_four. set (c := (((v1 - 240) * 64 + (v2 - 128)) * 64 + (v3 - 128)) * 64 + (v4 - 128)).
  assert (((v1 mod 8 * 64 + v2 mod 64) * 64 + v3 mod 64) * 64 + v4 mod 64 = c) as -> by (unfold c; digits).
  destruct (Z.ltb_spec c 65536); [by right; left|]. destruct (Z.leb_spec 1114112 c); [by right; left|]. right; right.
  exists c, in4. split; [unfold scalar; lia|]. unfold utf8, utf16.
  test (c <? 128) false; [lia|]. test (c <? 2048) false; [lia|]. test (c <? 65536) false; [lia|]. split; [|simpl; lia].
  replace (240 + c / 262144) with v1 by (unfold c; digits). replace (128 + (c / 4096) mod 64) with v2 by (unfold c; digits).
  replace (128 + (c / 64) mod 64) with v3 by (unfold c; digits). by replace (128 + c mod 64) with v4 by (unfold c; digits).
Qed.

(** Invalid input begins with no sequence. *)
Lemma to_utf16_invalid l space : to_utf16 l space = (false, l, []) → ¬ begins_with_scalar utf8 l.
Proof.
  intros E (c&rest&Hc&->). destruct (decide (length (utf16 c) ≤ space)%nat) as [Hs|Hs].
  - rewrite to_utf16_scalar in E by done. unfold emit in E. destruct (to_utf16 rest _) as [[ok r] out].
    injection E as _ _ E. apply app_eq_nil in E as [E _]. by apply (utf16_nonempty c).
  - assert (65536 ≤ c < 1114112 ∧ (space = 0 ∨ space = 1)%nat) as [Hc2 Hsp].
    { unfold utf16, scalar in *. destruct (Z.ltb_spec c 65536); simpl in Hs; [|lia].
      exfalso. destruct space; [|lia]. destruct (utf8 c ++ rest) eqn:E2; [|done]. apply app_eq_nil in E2 as [E2 _]. by apply (utf8_nonempty c). }
    destruct Hsp as [->| ->].
    + destruct (utf8 c ++ rest) eqn:E2; [|done]. apply app_eq_nil in E2 as [E2 _]. by apply (utf8_nonempty c).
    + by rewrite to_utf16_pair in E.
Qed.

(** What the transcoding of an input returns: the scalars read, and why it stops *)
Definition transcodes (from to_ : Z → list Z) (full : list Z → nat → Prop) (l : list Z) (space : nat) (r : Result) : Prop :=
  let '(ok, rest, out) := r in
  ∃ cs, Forall scalar cs ∧ l = (cs ≫= from) ++ rest ∧ out = cs ≫= to_ ∧ (length out ≤ space)%nat ∧
    if (ok : bool) then rest = [] ∨ full rest (space - length out)%nat
    else rest ≠ [] ∧ ¬ begins_with_scalar from rest.

Lemma transcodes_emit from to_ full c l space r :
  scalar c → (length (to_ c) ≤ space)%nat → transcodes from to_ full l (space - length (to_ c)) r →
  transcodes from to_ full (from c ++ l) space (emit (to_ c) r).
Proof.
  intros Hc Hs. destruct r as [[ok rest] out]. intros (cs&Hcs&->&->&Hl&Hr). exists (c :: cs). cbn [mbind list_bind].
  split; [by constructor|]. rewrite length_app, <-app_assoc. do 2 (split; [done|]). split; [lia|].
  by replace (space - (length (to_ c) + length (cs ≫= to_)))%nat with (space - length (to_ c) - length (cs ≫= to_))%nat by lia.
Qed.

Lemma to_utf16_exact l space : bytes l → transcodes utf8 utf16 full16 l space (to_utf16 l space).
Proof.
  remember (length l) as n eqn:Hn. revert l space Hn. induction n as [n IH] using lt_wf_ind. intros l space -> Hb.
  destruct (to_utf16_step l space Hb) as [->|[[-> Hf]|[E|(c&rest&Hc&->&Hs)]]].
  - simpl. exists []. split_and!; [constructor|done..|simpl; lia|by left].
  - exists []. split_and!; [constructor|done..|simpl; lia|right]. by rewrite Nat.sub_0_r.
  - rewrite E. exists []. split_and!; [constructor|done..|simpl; lia| |by eapply to_utf16_invalid]. by intros ->.
  - rewrite to_utf16_scalar by done. apply transcodes_emit; [done..|]. eapply IH; [|done|by apply Forall_app in Hb as [_ ?]].
    rewrite length_app. pose proof (utf8_nonempty c). destruct (utf8 c); [done|simpl; lia].
Qed.

(** ** To UTF-8 *)
Lemma to_utf8_scalar c rest space :
  scalar c → (length (utf8 c) ≤ space)%nat →
  to_utf8 (utf16 c ++ rest) space = emit (utf8 c) (to_utf8 rest (space - length (utf8 c))).
Proof.
  intros Hc. unfold utf8, utf16, scalar in *. destruct (Z.ltb_spec c 128).
  { test (c <? 65536) true; [lia|]. intros Hs. simpl in Hs. cbn [app to_utf8]. test (c <? 128) true; [lia|].
    case_test; [lia|done]. }
  destruct (Z.ltb_spec c 2048).
  { test (c <? 65536) true; [lia|]. intros Hs. simpl in Hs. cbn [app to_utf8]. test (c <? 128) false; [lia|].
    test (c <? 2048) true; [lia|]. case_test; [lia|done]. }
  destruct (Z.ltb_spec c 65536).
  { intros Hs. simpl in Hs. cbn [app to_utf8]. test (c <? 128) false; [lia|]. test (c <? 2048) false; [lia|].
    test ((c <? 55296) || (57344 <=? c)) true; [lia|]. case_test; [lia|done]. }
  intros Hs. simpl in Hs. assert (0 ≤ (c - 65536) / 1024 < 1024 ∧ 0 ≤ (c - 65536) mod 1024 < 1024 ∧
    c = 65536 + ((c - 65536) / 1024 * 1024 + (c - 65536) mod 1024)) as (Ra&Rb&E) by digits.
  set (a := (c - 65536) / 1024) in *. set (b := (c - 65536) mod 1024) in *. clearbody a b. cbn [app to_utf8].
  test (55296 + a <? 128) false; [lia|]. test (55296 + a <? 2048) false; [lia|].
  test ((55296 + a <? 55296) || (57344 <=? 55296 + a)) false; [lia|]. rewrite (proj2 (Nat.ltb_ge space 4)) by lia.
  test (56320 <=? 55296 + a) false; [lia|]. test ((56320 + b <? 56320) || (57344 <=? 56320 + b)) false; [lia|].
  by replace (65536 + ((55296 + a - 55296) * 1024 + (56320 + b - 56320))) with c by lia.
Qed.

(** The bytes that the sequence of a unit needs *)
Definition needed8 (v : Z) : nat :=
  if v <? 128 then 1%nat else if v <? 2048 then 2%nat else if (v <? 55296) || (57344 <=? v) then 3%nat else 4%nat.

Definition full8 (l : list Z) (space : nat) : Prop := ∃ v rest, l = v :: rest ∧ (space < needed8 v)%nat.

Lemma to_utf8_step l space : units l →
  l = [] ∨ to_utf8 l space = (true, l, []) ∧ full8 l space ∨ to_utf8 l space = (false, l, []) ∧ ¬ full8 l space ∨
  ∃ c rest, scalar c ∧ l = utf16 c ++ rest ∧ (length (utf8 c) ≤ space)%nat.
Proof.
  intros Hu. destruct l as [|v1 in1]; [by left|right]. apply Forall_cons in Hu as [Hv1 Hu]. cbn [to_utf8]. unfold full8.
  assert (∀ P : Prop, (∃ v rest, v1 :: in1 = v :: rest ∧ (space < needed8 v)%nat) ↔ (space < needed8 v1)%nat) as Hfull.
  { intros _. split; [by intros (?&?&[= -> ->]&?)|by eexists _, _]. }
  rewrite (Hfull True). unfold needed8, utf8, utf16, scalar. destruct (Z.ltb_spec v1 128).
  { case_test; [left; split; [done|lia]|]. right; right. exists v1, in1. split; [lia|]. test (v1 <? 65536) true; [lia|].
    test (v1 <? 128) true; [lia|]. split; [done|simpl; lia]. }
  destruct (Z.ltb_spec v1 2048).
  { case_test; [left; split; [done|lia]|]. right; right. exists v1, in1. split; [lia|]. test (v1 <? 65536) true; [lia|].
    test (v1 <? 128) false; [lia|]. test (v1 <? 2048) true; [lia|]. split; [done|simpl; lia]. }
  destruct ((v1 <? 55296) || (57344 <=? v1)) eqn:Hsur.
  { case_test; [left; split; [done|lia]|]. right; right. exists v1, in1. split; [lia|]. test (v1 <? 65536) true; [lia|].
    test (v1 <? 128) false; [lia|]. test (v1 <? 2048) false; [lia|]. split; [done|simpl; lia]. }
  destruct (Nat.ltb_spec space 4); [left; split; [done|lia]|]. destruct (Z.leb_spec 56320 v1); [right; left; split; [done|lia]|].
  destruct in1 as [|v2 in2]; [right; left; split; [done|lia]|]. apply Forall_cons in Hu as [Hv2 Hu].
  destruct ((v2 <? 56320) || (57344 <=? v2)) eqn:Hlow; [right; left; split; [done|lia]|]. right; right.
  set (c := 65536 + ((v1 - 55296) * 1024 + (v2 - 56320))). exists c, in2. split; [unfold c; lia|].
  test (c <? 65536) false; [unfold c; lia|]. test (c <? 128) false; [unfold c; lia|]. test (c <? 2048) false; [unfold c; lia|].
  split; [|simpl; lia]. replace (55296 + (c - 65536) / 1024) with v1 by (unfold c; digits).
  by replace (56320 + (c - 65536) mod 1024) with v2 by (unfold c; digits).
Qed.

Lemma needed8_scalar c rest : scalar c → ∃ v rest', utf16 c ++ rest = v :: rest' ∧ needed8 v = length (utf8 c).
Proof.
  intros Hc. unfold utf16, utf8, needed8, scalar in *. destruct (Z.ltb_spec c 65536).
  - exists c, rest. split; [done|]. destruct (Z.ltb_spec c 128); [done|]. destruct (Z.ltb_spec c 2048); [done|].
    test ((c <? 55296) || (57344 <=? c)) true; [lia|]. done.
  - eexists _, _. split; [done|]. assert (0 ≤ (c - 65536) / 1024 < 1024) by digits.
    test (55296 + (c - 65536) / 1024 <? 128) false; [lia|]. test (55296 + (c - 65536) / 1024 <? 2048) false; [lia|].
    test ((55296 + (c - 65536) / 1024 <? 55296) || (57344 <=? 55296 + (c - 65536) / 1024)) false; [lia|].
    test (c <? 128) false; [lia|]. test (c <? 2048) false; [lia|]. done.
Qed.

Lemma to_utf8_exact l space : units l → transcodes utf16 utf8 full8 l space (to_utf8 l space).
Proof.
  remember (length l) as n eqn:Hn. revert l space Hn. induction n as [n IH] using lt_wf_ind. intros l space -> Hb.
  destruct (to_utf8_step l space Hb) as [->|[[-> Hf]|[[E Hnf]|(c&rest&Hc&->&Hs)]]].
  - simpl. exists []. split_and!; [constructor|done..|simpl; lia|by left].
  - exists []. split_and!; [constructor|done..|simpl; lia|right]. by rewrite Nat.sub_0_r.
  - rewrite E. exists []. split_and!; [constructor|done..|simpl; lia|by intros ->|]. intros (c&rest&Hc&->).
    destruct (needed8_scalar c rest Hc) as (v&rest'&Ev&Hv). destruct (decide (length (utf8 c) ≤ space)%nat) as [Hs|Hs].
    + rewrite to_utf8_scalar in E by done. unfold emit in E. destruct (to_utf8 rest _) as [[ok r] out].
      injection E as _ _ E. apply app_eq_nil in E as [E _]. by apply (utf8_nonempty c).
    + apply Hnf. exists v, rest'. split; [done|lia].
  - rewrite to_utf8_scalar by done. apply transcodes_emit; [done..|]. eapply IH; [|done|by apply Forall_app in Hb as [_ ?]].
    rewrite length_app. pose proof (utf16_nonempty c). destruct (utf16 c); [done|simpl; lia].
Qed.

(** ** The sizes of the output *)
Lemma find_utf16_scalar c rest n : scalar c →
  find_utf16_buf_size_loop (utf8 c ++ rest) n = find_utf16_buf_size_loop rest (n +w Z.of_nat (length (utf16 c))).
Proof.
  intros Hc. unfold utf8, utf16, scalar in *. destruct (Z.ltb_spec c 128).
  { test (c <? 65536) true; [lia|]. cbn [app find_utf16_buf_size_loop]. test (c <? 128) true; [lia|]. done. }
  destruct (Z.ltb_spec c 2048).
  { test (c <? 65536) true; [lia|]. assert (2 ≤ c / 64 < 32) by digits. cbn [app find_utf16_buf_size_loop].
    test (192 + c / 64 <? 128) false; [lia|]. test (192 + c / 64 <? 192) false; [lia|]. test (192 + c / 64 <? 224) true; [lia|]. done. }
  destruct (Z.ltb_spec c 65536).
  { assert (0 ≤ c / 4096 < 16) by digits. cbn [app find_utf16_buf_size_loop].
    test (224 + c / 4096 <? 128) false; [lia|]. test (224 + c / 4096 <? 192) false; [lia|].
    test (224 + c / 4096 <? 224) false; [lia|]. test (224 + c / 4096 <? 240) true; [lia|]. done. }
  assert (0 ≤ c / 262144 < 8) by digits. cbn [app find_utf16_buf_size_loop].
  test (240 + c / 262144 <? 128) false; [lia|]. test (240 + c / 262144 <? 192) false; [lia|].
  test (240 + c / 262144 <? 224) false; [lia|]. test (240 + c / 262144 <? 240) false; [lia|]. test (240 + c / 262144 <? 248) true; [lia|]. done.
Qed.

Lemma add_size_small n k : 0 ≤ n → 1 ≤ k ≤ 4 → n + k ≤ npos → add_size n k = Some (false, n + k).
Proof.
  intros Hn Hk Hs. unfold add_size. rewrite add_exact; [|by_decision|by_decision| |].
  - apply checked_ok. unfold in_type, min_value, max_value. simpl. slia.
  - unfold in_type, min_value, max_value. simpl. slia.
  - unfold in_type, min_value, max_value. simpl. lia.
Qed.

Lemma find_utf8_scalar c rest n : scalar c → 0 ≤ n → n + Z.of_nat (length (utf8 c)) ≤ npos →
  find_utf8_buf_size_loop (utf16 c ++ rest) n = find_utf8_buf_size_loop rest (n + Z.of_nat (length (utf8 c))).
Proof.
  intros Hc Hn. unfold utf8, utf16, scalar in *. destruct (Z.ltb_spec c 128).
  { test (c <? 65536) true; [lia|]. intros Hs. simpl length in *. cbn [app find_utf8_buf_size_loop]. test (c <? 128) true; [lia|].
    by rewrite add_size_small by lia. }
  destruct (Z.ltb_spec c 2048).
  { test (c <? 65536) true; [lia|]. intros Hs. simpl length in *. cbn [app find_utf8_buf_size_loop]. test (c <? 128) false; [lia|].
    test (c <? 2048) true; [lia|]. by rewrite add_size_small by lia. }
  destruct (Z.ltb_spec c 65536).
  { intros Hs. simpl length in *. cbn [app find_utf8_buf_size_loop]. test (c <? 128) false; [lia|]. test (c <? 2048) false; [lia|].
    test ((c <? 55296) || (57344 <=? c)) true; [lia|]. by rewrite add_size_small by lia. }
  intros Hs. simpl length in *. assert (0 ≤ (c - 65536) / 1024 < 1024) by digits. cbn [app find_utf8_buf_size_loop].
  test (55296 + (c - 65536) / 1024 <? 128) false; [lia|]. test (55296 + (c - 65536) / 1024 <? 2048) false; [lia|].
  test ((55296 + (c - 65536) / 1024 <? 55296) || (57344 <=? 55296 + (c - 65536) / 1024)) false; [lia|]. by rewrite add_size_small by lia.
Qed.

Lemma length_utf16_utf8 c : (length (utf16 c) ≤ length (utf8 c))%nat.
Proof.
  unfold utf16, utf8. destruct (Z.ltb_spec c 65536); destruct (Z.ltb_spec c 128); [simpl; lia| |lia|];
    destruct (Z.ltb_spec c 2048); simpl; lia.
Qed.

(** ** Properties *)
(** C19: round trip.  Text is transcoded without loss: for any sequence of Unicode
    scalar values, the sizes computed are those that its UTF-16 and its UTF-8 need,
    and given that much space UTF-8 is transcoded to UTF-16 and back, all of it. *)
Theorem transcoding_roundtrip cs :
  Forall scalar cs → Z.of_nat (length (cs ≫= utf8)) ≤ npos →
  let b := cs ≫= utf8 in
  let u := cs ≫= utf16 in
  find_utf16_buf_size b = (Z.of_nat (length u), []) ∧ find_utf8_buf_size u = Some (Z.of_nat (length b), []) ∧
  (∀ space, (length u ≤ space)%nat → to_utf16 b space = (true, [], u)) ∧
  (∀ space, (length b ≤ space)%nat → to_utf8 u space = (true, [], b)).
Proof.
  intros Hcs Hn b u.
  assert (∀ n, 0 ≤ n → n + Z.of_nat (length b) ≤ npos →
    find_utf16_buf_size_loop b n = (n + Z.of_nat (length u), []) ∧ find_utf8_buf_size_loop u n = Some (n + Z.of_nat (length b), [])) as Hsize.
  { clear Hn. unfold b, u. clear b u. induction Hcs as [|c cs Hc Hcs IH]; intros n Hn Hs; cbn [mbind list_bind] in *.
    - simpl. by rewrite Z.add_0_r.
    - rewrite !length_app, !Nat2Z.inj_add, !Z.add_assoc in *. pose proof (length_utf16_utf8 c).
      assert (length (cs ≫= utf16) ≤ length (cs ≫= utf8))%nat.
      { clear. induction cs as [|c cs IH]; [done|]. cbn [mbind list_bind]. rewrite !length_app. pose proof (length_utf16_utf8 c). lia. }
      rewrite find_utf16_scalar, find_utf8_scalar, wadd_small by (done || lia).
      split; [apply (IH (n + Z.of_nat (length (utf16 c)))); lia|apply (IH (n + Z.of_nat (length (utf8 c)))); lia]. }
  split; [by apply (Hsize 0)|]. split; [by apply (Hsize 0)|]. unfold b, u. clear Hn Hsize b u. split.
  - induction Hcs as [|c cs Hc Hcs IH]; intros space Hs; cbn [mbind list_bind] in *; [done|]. rewrite length_app in Hs.
    rewrite to_utf16_scalar by (done || lia). rewrite IH by lia. done.
  - induction Hcs as [|c cs Hc Hcs IH]; intros space Hs; cbn [mbind list_bind] in *; [done|]. rewrite length_app in Hs.
    rewrite to_utf8_scalar by (done || lia). rewrite IH by lia. done.
Qed.

(** C20: equivalence.  Transcoding any input reads the longest beginning that is the
    encoding of Unicode scalar values and fits the buffer, and writes their other
    encoding.  It reports invalid input only where no sequence of a scalar value
    begins (overlong forms, surrogates, values too large, incomplete sequences), and
    else it is at the end or the next sequence does not fit. *)
Theorem transcoding_exact l space :
  (bytes l → transcodes utf8 utf16 full16 l space (to_utf16 l space)) ∧
  (units l → transcodes utf16 utf8 full8 l space (to_utf8 l space)).
Proof. split; [apply to_utf16_exact|apply to_utf8_exact]. Qed.

(** ** Examples *)
(** The letters A and sharp s, the euro sign, and a character outside of the
    basic plane *)
Definition sample : list Z := [65; 223; 8364; 119070].

Lemma transcoding_roundtrip_witness :
  Forall scalar sample ∧ to_utf16 [65; 195; 159; 226; 130; 172; 240; 157; 132; 158] 5 = (true, [], [65; 223; 8364; 55348; 56606]).
Proof.
  assert (Forall scalar sample) as Hs by (repeat constructor; unfold scalar; lia). split; [done|].
  by destruct (transcoding_roundtrip sample Hs) as (_&_&H&_); [vm_compute|apply (H 5%nat)].
Defined.

(** An overlong form after a letter *)
Lemma transcoding_exact_witness :
  to_utf16 [65; 192; 128] 9 = (false, [192; 128], [65]) ∧ ¬ begins_with_scalar utf8 [192; 128].
Proof.
  split; [done|]. destruct (transcoding_exact [65; 192; 128] 9) as [H _].
  destruct H as (cs&_&_&_&_&_&Hno); [by_decision|done].
Defined.
